(* ===== verification/_CoqProject ===== *)
-Q . S2P
Prelude.v
GoFloat.v
Seq.v
Clock.v
Wire.v
Bytes.v
Rtp.v
Rtcp.v
RtcpNack.v
Rtt.v
FlowTypes.v
Congestion.v
FlowNew.v
Sender.v
Receiver.v
Flow.v
Window.v
Playout.v
FeedInv.v
Missing.v
Nack.v
FlowInv.v
FlowChecked.v
FlowTimers.v
Delivery.v
Provenance.v
Demo.v
Split.v
Reassembler.v
Replay.v
Npd.v
FecHeader.v
Fec.v
FecEncoder.v
FecDecoder.v
FecStream.v
Gre.v
Lpc.v
Adv.v
AdvCtrl.v
Adapt.v
Peer.v
Psk.v
Aead.v
Bonding.v
SimpleCodec.v
AdvCodec.v
MainCodec.v
MainFeedback.v
Srp.v
Eap.v
EapState.v
EapClient.v
EapServer.v
EapHandshake.v
EapSafety.v
HostConfig.v
HostFlow.v
UrlQuery.v
DtlsRecord.v
DtlsHandshake.v
DtlsConn.v
DtlsTransport.v
DtlsFlight.v
CodecTotal.v
Session.v
SessionMain.v
SessionAdv.v
SessionLoop.v
SessionFrames.v
SessionApi.v
SessionGate.v
SessionTotal.v
SessionLive.v
SessionBond.v
SessionBondFan.v
SessionBondTotal.v
Multi.v
