(* ===== verification/Prelude.v ===== *)
(** * A verification of ristgo, a RIST (Reliable Internet Stream Transport) library in Go

    The program carries live media over UDP with retransmission.  Its core, internal/flow, is a deterministic state machine driven by the host's clock:
    a receiver reorders packets in a ring, requests what is missing and plays packets out on time; a sender answers the requests from its
    history.  Around it, profile codecs turn the core's packets and feedback (internal/wire) into the Simple, Main and Advanced wire
    formats; forward error correction, null-packet deletion, compression, fragmentation, packet split, encryption, EAP-SRP
    authentication and link bonding are parts of their own; sessions own sockets and timers and call these parts; the public
    package validates configurations and builds sessions.

    ** Files and the source they model (paths under src/)

    - Prelude, Bytes, GoFloat: machine integers, record update, results with errors and panics, byte slices with Go's bounds
      rules, big-endian integers, IEEE-754 binary64.
    - Seq, Clock, Wire, Rtt: internal/seq, clock, wire, rtt.
    - FlowTypes, Congestion, FlowNew, Sender, Receiver, Flow: internal/flow, one definition per function; a flow is a [Flow] record, every
      handler a state transformer that returns effects; [run] of Flow executes any list of host calls.
    - Window, Playout, FeedInv, Missing, Nack, FlowInv, Delivery, Provenance, Demo: the theory of the flow core.  The ring lookups of Sender and Receiver are
      total; FlowChecked has every operation again with Go's panic on an index out of range, and proves that they never panic and agree; the sessions call
      these.  FlowTimers: the timers a host keeps by applying the effects of the flow.
    - Rtp, Rtcp, RtcpNack, Gre, Npd: the wire formats of internal/rtp, rtcp, gre, npd.
    - FecHeader, Fec, FecEncoder, FecDecoder, FecStream: internal/fec and its theory.
    - Split, Reassembler, Replay, Lpc, Adv, AdvCtrl, Adapt, Peer, Bonding: internal/split, session/reassembler.go, dtls/replay.go, lpc, adv,
      adapt (with session/adapt.go), peer, bonding.
    - Psk: internal/crypto/psk.go.
    - SimpleCodec, AdvCodec, MainCodec with MainFeedback: internal/session/codec.go, codec_adv.go, codec_main.go, which compose the formats
      above.
    - Srp, Eap, EapState, EapClient, EapServer: internal/srp, internal/eap; EapHandshake runs both roles over a lossy wire,
      EapSafety against arbitrary datagrams.
    - HostConfig, HostFlow, UrlQuery: config.go, fec.go, url.go and the configuration functions of host.go.
    - Aead: internal/crypto/aead.go.
    - DtlsRecord, DtlsHandshake, DtlsConn: internal/dtls/record.go, cipher.go, prf.go, suites.go, handshake.go, handshake_io.go, conn.go;
      DtlsTransport and DtlsFlight: their theory.
    - Session, SessionMain, SessionAdv, SessionLoop: internal/session/session.go, session_rtcp.go, fec.go, api.go, adapt.go: the state of a session, its
      handlers in a state-and-panic monad [M], and the event loop; SessionFrames, SessionApi, SessionGate, SessionTotal, SessionLive: their theory;
      CodecTotal: the encoders return, whatever they are given.
    - SessionBond: internal/session/bonded.go and the bonded branches of session.go, session_rtcp.go, fec.go and adapt.go, over the inner session of Session;
      SessionBondFan, SessionBondTotal: their theory.
    - Multi: internal/session/multi.go, a transition system whose events are the atomic steps of the readers, the sessions and the application, and its theory.

    ** Conventions

    A Go integer of width w is a [Z] kept in range by [u8], [u16], [u32], [u64], [i32], [i64]; [/g] and [%g] are Go's truncating division.  A fallible
    function returns [res E A]: [Ok], [Err], or [Panic] for a run-time panic, so that the absence of panics is a theorem.  Maps whose order
    does not matter are [gmap]; mutable objects are records passed and returned.  Names are the source's; a loop is a Fixpoint
    named after its function.

    ** Theorems

    - Flow core: delivery in sequence order and on time, a refinement of playout by a specification, provenance of what is
      delivered and retransmitted, exact gap detection, the NACK pass against its specification, service of requests, an
      invariant over every execution, no ring index out of range, the host's timers set while there is work, termination, bounds; HostFlow shows that every validated configuration
      satisfies what these theorems assume.
    - Codecs and formats: what is encoded decodes to itself through the whole stack of each profile, for streams within the distances and counts
      each statement names (theorems of the same files show what happens beyond some of them), arbitrary bytes never
      panic, cleartext is not trusted on an encrypted session.
    - Protection: FEC repairs single losses and, within the span its header tells apart, never fabricates; compression and split round trips; exact replay window; key
      use bounds and a transparent channel; SRP agreement, a handshake that completes under retransmissions, SUCCESS only
      from a verified proof, a live session that injected datagrams do not tear down.
    - AEAD: what a sealer sends, packet by packet, until its counter is used up; opening accepts exactly what sealing makes; no nonce repeats.  DTLS: the cleartext messages
      of a handshake are delivered whole over a wire that loses, repeats and reorders, no record nonce repeats, and application data arrives once or not at all.
    - Sessions: media passes only after a proof that arrived in the run was verified and the peer admitted, no input makes a handler panic, a silent peer is given up,
      reads return the delivered bytes in order, timers fire when due and in order, reports count exactly.
    - Bonded sessions: a media packet goes once to every authenticated duplicate path and to at most one weighted path, and no input or change of the paths makes a
      handler panic.  Multiplexed flows: under every interleaving a datagram goes to the one running session of its key, in order, and closing ends every session.
    - Bonding, adaptation, configuration: exact weighted shares, the best NACK path, rate bounds, validation against a
      declarative specification, URL precedence.
    - Defects: theorems whose comment begins with the word Defect, or that state an exception, show where the code departs from
      its documentation.

    ** Parameters

    PBKDF2, HMAC, the AES block function and SHA-256 are arguments of the definitions, with the hypotheses that they return bytes of the documented
    length; AES-GCM and ChaCha20-Poly1305 are instances of an interface ([AEAD] in Aead, [Crypto] in DtlsRecord) with the laws of an AEAD; random
    sources are lists of draws, with a failing read as a possible draw; so are the writes of a session that fail; the wall clock and the order in which Go
    visits a map are functions, about which the theorems assume no more than the language says; [net.InterfaceByName] and [netip.ParseAddr]
    are predicates.  Each property with such a hypothesis has a witness with a concrete function.

    ** Fuel

    Loops that are not structural run on fuel that their theorems show to be enough: playout the ring distance plus 3, nextPow2 63
    doublings, gap marking the gap, compound parsing the length plus 1, bit counting 9, FEC recovery the stored packets
    plus 1, the LZ4 loops the length plus 1, NACK packing and block encryption the length; records of a datagram its length, handshake
    fragments the length plus 1, the PRF the length asked for; draining a flow the pending effects plus 1, timers their number
    plus 1, the slots of a bonded sender 256.  Recovered datagrams of in-band FEC re-enter the handler of the Advanced profile; [handle_adv] counts that nesting in fuel and panics
    without, and the theorem that sessions do not panic is for sessions without in-band FEC.

    ** Not modelled

    - The DTLS negotiation: its messages are built with golang.org/x/crypto/cryptobyte and its drivers sequence crypto/x509, ecdh, rsa and
      ecdsa calls between the reads and flights that are modelled.  Nor is the handshake at the head of a session's loop, after which (or after whose failure, which ends
      the session) [start] begins.
    - Goroutines, sockets and TUN devices (internal/socket, tun, the public API): input and output.  A session's inputs are a list, in the order
      its loop takes them; a channel is a list; a blocking call answers, refuses or waits.
    - String methods, statistics and logging: formatting.  The simulation harness and the conformance tests: test code. *)

From Stdlib Require Export ZArith Lia.
From stdpp Require Export base tactics numbers option list.
Open Scope Z_scope.

(** ** Fixed-width Go integers *)

(** Go's unsigned integers of width [w], as the representative in [0, 2^w). *)
Definition uwrap (w z : Z) : Z := z mod 2 ^ w.

(** Go's signed integers of width [w], as the representative in [-2^(w-1), 2^(w-1)). *)
Definition swrap (w z : Z) : Z := (z + 2 ^ (w - 1)) mod 2 ^ w - 2 ^ (w - 1).

Definition u8 : Z -> Z := uwrap 8.
Definition u16 : Z -> Z := uwrap 16.
Definition u32 : Z -> Z := uwrap 32.
Definition u64 : Z -> Z := uwrap 64.
Definition i64 : Z -> Z := swrap 64.
Definition i32 : Z -> Z := swrap 32.

(** The values a Go variable of that width can hold. *)
Definition in_u (w z : Z) : Prop := 0 <= z < 2 ^ w.
Definition in_u8 (z : Z) : Prop := 0 <= z < 256.
Definition in_u16 (z : Z) : Prop := 0 <= z < 65536.
Definition in_u32 (z : Z) : Prop := 0 <= z < 4294967296.
Definition in_u64 (z : Z) : Prop := 0 <= z < 18446744073709551616.
Definition in_i64 (z : Z) : Prop := -9223372036854775808 <= z < 9223372036854775808.

(** Go's [/] and [%] on signed integers truncate toward zero. *)
Notation "a '/g' b" := (Z.quot a b) (at level 40, left associativity) : Z_scope.
Notation "a '%g' b" := (Z.rem a b) (at level 40, left associativity) : Z_scope.

(** A byte slice; [is_bytes] is the type invariant of its elements. *)
Abbreviation bytes := (list Z).
Definition is_bytes (l : bytes) : Prop := Forall in_u8 l.

(** Go's [len]. *)
Definition zlen {A} (l : list A) : Z := Z.of_nat (length l).

(** ** Functional record update *)

(** [Eta R] is the record [R] rebuilt from its projections; [r <| f := v |>]
    and [r <| f ::= g |>] replace the field in that form. *)
Class Eta (R : Type) := eta_expand : R -> R.

Class Setter {R E : Type} (getter : R -> E) := field_map : (E -> E) -> R -> R.

Ltac solve_setter :=
  match goal with
  | |- @Setter ?R ?E ?getter =>
      let inst := constr:(_ : Eta R) in
      let inst := eval hnf in inst in
      exact (fun (g : E -> E) (r : R) =>
               ltac:(let body := eval cbv beta in (inst r) in
                     match body with
                     | context C [ getter r ] =>
                         let t := context C [ g (getter r) ] in exact t
                     end))
  end.

#[export] Hint Extern 1 (Setter _) => solve_setter : typeclass_instances.

Definition upd {R E : Type} (getter : R -> E) {S : Setter getter} (g : E -> E) (r : R) : R :=
  S g r.

Declare Scope record_scope.
Open Scope record_scope.
Notation "r <| f := v |>" := (upd f (fun _ => v) r)
  (at level 12, f at next level, left associativity) : record_scope.
Notation "r <| f ::= g |>" := (upd f g r)
  (at level 12, f at next level, left associativity) : record_scope.

(** ** Generic lemmas *)

Lemma uwrap_range w z : 0 <= w -> 0 <= uwrap w z < 2 ^ w.
Proof. intros. apply Z.mod_pos_bound, Z.pow_pos_nonneg; lia. Qed.

Lemma uwrap_id w z : 0 <= z < 2 ^ w -> uwrap w z = z.
Proof. apply Z.mod_small. Qed.

Lemma uwrap_eq w z r : 0 <= r < 2 ^ w -> (exists k, z = r + k * 2 ^ w) -> uwrap w z = r.
Proof. intros Hr [k ->]. unfold uwrap. rewrite Z.mod_add by lia. apply Z.mod_small; lia. Qed.

Lemma uwrap_cong w a b : 0 <= w -> (exists k, a = b + k * 2 ^ w) -> uwrap w a = uwrap w b.
Proof. intros Hw [k ->]. unfold uwrap. apply Z.mod_add. pose proof (Z.pow_pos_nonneg 2 w); lia. Qed.

(** The quotient witness of a wrap: the form in which [lia] reasons about it. *)
Lemma uwrap_spec w z : 0 <= w -> exists k, uwrap w z = z - k * 2 ^ w.
Proof.
  intros Hw. pose proof (Z.pow_pos_nonneg 2 w). exists (z / 2 ^ w). unfold uwrap.
  rewrite Z.mod_eq by lia. lia.
Qed.

Lemma u32_range z : in_u32 (u32 z).
Proof. apply (uwrap_range 32); lia. Qed.

Lemma u32_id z : in_u32 z -> u32 z = z.
Proof. apply (uwrap_id 32). Qed.

Lemma u32_spec z : exists k, u32 z = z - k * 4294967296 /\ in_u32 (u32 z).
Proof. destruct (uwrap_spec 32 z) as [k Hk]; [lia|]. exists k. split; [done|apply u32_range]. Qed.

Lemma u64_range z : in_u64 (u64 z).
Proof. apply (uwrap_range 64); lia. Qed.

Lemma u64_id z : in_u64 z -> u64 z = z.
Proof. apply (uwrap_id 64). Qed.

Lemma i64_range z : in_i64 (i64 z).
Proof.
  unfold i64, swrap, in_i64. pose proof (Z.mod_pos_bound (z + 2 ^ (64 - 1)) (2 ^ 64)). lia.
Qed.

Lemma i64_id z : in_i64 z -> i64 z = z.
Proof. unfold in_i64, i64, swrap. intros. rewrite Z.mod_small by lia. lia. Qed.

Lemma u32_eq z r : in_u32 r -> (exists k, z = r + k * 4294967296) -> u32 z = r.
Proof. apply (uwrap_eq 32). Qed.

Lemma i64_cong a b : (exists k, a = b + k * 2 ^ 64) -> i64 a = i64 b.
Proof.
  intros [k ->]. unfold i64, swrap. f_equal.
  replace (b + k * 2 ^ 64 + 2 ^ (64 - 1)) with (b + 2 ^ (64 - 1) + k * 2 ^ 64) by lia.
  apply Z.mod_add. lia.
Qed.

Lemma i64_add_r a b : i64 (a + i64 b) = i64 (a + b).
Proof.
  apply i64_cong. unfold i64 at 1, swrap. change (2 ^ (64 - 1)) with (2 ^ 63).
  exists (- ((b + 2 ^ 63) / 2 ^ 64)). rewrite Z.mod_eq; lia.
Qed.

(** Joining bit fields: a shifted high part and a low part that fits below it. *)
Lemma lor_shiftl_add hi lo w : 0 <= w -> 0 <= lo < 2 ^ w -> Z.lor (Z.shiftl hi w) lo = hi * 2 ^ w + lo.
Proof.
  intros Hw Hlo. rewrite Z.shiftl_mul_pow2 by lia. symmetry.
  assert (Hz : Z.land (hi * 2 ^ w) lo = 0); [|by rewrite Z.add_nocarry_lxor, Z.lxor_lor].
  apply Z.bits_inj'. intros i Hi. rewrite Z.land_spec, Z.bits_0, <-Z.shiftl_mul_pow2 by lia.
  destruct (Z.lt_ge_cases i w); [by rewrite Z.shiftl_spec_low|].
  rewrite <-(Z.mod_small lo (2 ^ w)), Z.mod_pow2_bits_high by lia. apply andb_false_r.
Qed.

(** Single bits. *)
Lemma land_pow2_zero b i : 0 <= i -> (Z.land b (2 ^ i) =? 0) = negb (Z.testbit b i).
Proof.
  intros Hi. destruct (Z.testbit b i) eqn:E; cbn [negb].
  - apply Z.eqb_neq. intros E0. apply (f_equal (fun z => Z.testbit z i)) in E0.
    by rewrite Z.land_spec, E, Z.pow2_bits_true, Z.bits_0 in E0.
  - apply Z.eqb_eq. apply Z.bits_inj'. intros j Hj. rewrite Z.land_spec, Z.bits_0.
    destruct (Z.eq_dec i j) as [<-|Hne]; [by rewrite E|]. by rewrite Z.pow2_bits_false, andb_false_r by done.
Qed.

Lemma testbit_lor_pow2 b i j : 0 <= i -> 0 <= j -> Z.testbit (Z.lor b (2 ^ i)) j = Z.testbit b j || (i =? j).
Proof. intros Hi Hj. by rewrite Z.lor_spec, Z.pow2_bits_eqb. Qed.

(** Wraps inside a sum can be dropped. *)
Lemma u32_add_l a b : u32 (u32 a + b) = u32 (a + b).
Proof. unfold u32, uwrap. apply Z.add_mod_idemp_l. lia. Qed.

Lemma u32_add_r a b : u32 (a + u32 b) = u32 (a + b).
Proof. unfold u32, uwrap. apply Z.add_mod_idemp_r. lia. Qed.

Lemma u32_diff a b : u32 (u32 a - u32 b) = u32 (a - b).
Proof. unfold u32, uwrap. by rewrite <-Zminus_mod. Qed.

Lemma u32_sub_l a b : u32 (u32 a - b) = u32 (a - b).
Proof. unfold u32, uwrap. apply Zminus_mod_idemp_l. Qed.

Lemma u64_add_l a b : u64 (u64 a + b) = u64 (a + b).
Proof. unfold u64, uwrap. apply Z.add_mod_idemp_l. lia. Qed.

Lemma u64_idem z : u64 (u64 z) = u64 z.
Proof. apply u64_id, u64_range. Qed.

(** Wrapping to 32 bits keeps the low bits. *)
Lemma i32_u32 z : - 2 ^ 31 <= z < 2 ^ 31 -> i32 (u32 z) = z.
Proof.
  change (2 ^ 31) with 2147483648. intros Hz. unfold i32, swrap. change (2 ^ (32 - 1)) with 2147483648. change (2 ^ 32) with 4294967296.
  destruct (u32_spec z) as (k & Hk & Hr). unfold in_u32 in Hr.
  assert (E : (u32 z + 2147483648) mod 4294967296 = z + 2147483648); [|lia].
  symmetry. apply (Z.mod_unique_pos _ _ (- k)); lia.
Qed.

Lemma u32_mod_pow2 k z : 0 <= k <= 31 -> u32 z mod 2 ^ k = z mod 2 ^ k.
Proof.
  intros Hk. unfold u32, uwrap. apply Z.mod_mod_divide.
  exists (2 ^ (32 - k)). rewrite <-Z.pow_add_r by lia. f_equal. lia.
Qed.

(** Congruent numbers less than the modulus apart are equal. *)
Lemma mod_eq_close a b P : 0 < P -> a mod P = b mod P -> Z.abs (a - b) < P -> a = b.
Proof.
  intros HP E Hd. pose proof (Z.div_mod a P). pose proof (Z.div_mod b P).
  assert (a - b = P * (a / P - b / P)) as Hq by lia. set (q := a / P - b / P) in *.
  assert (q = 0) as E0 by nia. rewrite E0 in Hq. lia.
Qed.

(** Replace every [u32 t] of the goal and hypotheses by a bounded unknown with
    the equation that defines it, and call [lia]. *)
Ltac u32_lia :=
  unfold in_u32 in *;
  repeat match goal with
  | |- context [u32 ?z] =>
      let k := fresh "k" in let H1 := fresh in let H2 := fresh in let v := fresh "v" in
      destruct (u32_spec z) as (k & H1 & H2); unfold in_u32 in H2; set (v := u32 z) in *; clearbody v
  | _ : context [u32 ?z] |- _ =>
      let k := fresh "k" in let H1 := fresh in let H2 := fresh in let v := fresh "v" in
      destruct (u32_spec z) as (k & H1 & H2); unfold in_u32 in H2; set (v := u32 z) in *; clearbody v
  end; lia.

Create HintDb goint.
#[export] Hint Resolve u32_range u64_range i64_range : goint.

(** Remove the wraps that [lia] shows to be the identity, innermost first. *)
Ltac nowrap :=
  repeat match goal with
  | |- context [i64 ?z] => rewrite (i64_id z) by (unfold in_i64, in_u32, in_u64 in *; lia)
  | |- context [u64 ?z] => rewrite (u64_id z) by (unfold in_u64, in_u32, in_i64 in *; lia)
  | |- context [u32 ?z] => rewrite (u32_id z) by (unfold in_u32, in_u64, in_i64 in *; lia)
  end.

(** Case analysis on the comparisons a Go condition is made of. *)
Ltac case_cmp :=
  repeat match goal with
  | |- context [?a <? ?b] => destruct (Z.ltb_spec a b)
  | |- context [?a <=? ?b] => destruct (Z.leb_spec a b)
  | |- context [?a =? ?b] => destruct (Z.eqb_spec a b)
  end.

(** Drop the wrap inside a wrapped sum. *)
Ltac u64_inner :=
  match goal with |- u64 ?lhs = _ =>
    match lhs with context [u64 ?x] =>
      let k := fresh "k" in let E := fresh in
      destruct (uwrap_spec 64 x) as [k E]; [lia|]; change (uwrap 64 x) with (u64 x) in E; rewrite E;
      apply (uwrap_cong 64); [lia|exists (- k)]; lia
    end
  end.
