(* ===== verification/GoFloat.v ===== *)
(** * Go's float64, as the IEEE-754 binary64 specification of the Standard Library

    The flow core and the RTT estimator multiply microsecond durations by the
    double [1.1] and truncate, and the receiver keeps a token bucket and a
    growth modifier in float64.  Those expressions are written here over
    [SpecFloat] with 53-bit precision and round-to-nearest-even, which is what Go
    prescribes for float64; the compiler is taken not to fuse [x*y + z], as
    on amd64.  The main lemma, [mul_1_1_trunc], says that the
    double multiply followed by truncation is the integer [d + d/10]. *)

From S2P Require Import Prelude.
From Stdlib Require Import SpecFloat.

(** ** Operations *)

Abbreviation f64 := spec_float.
Definition f64_mul : f64 -> f64 -> f64 := SFmul 53 1024.
Definition f64_add : f64 -> f64 -> f64 := SFadd 53 1024.
Definition f64_sub : f64 -> f64 -> f64 := SFsub 53 1024.
Definition f64_div : f64 -> f64 -> f64 := SFdiv 53 1024.
Definition f64_ltb : f64 -> f64 -> bool := SFltb.
Definition f64_leb : f64 -> f64 -> bool := SFleb.
Definition f64_eqb : f64 -> f64 -> bool := SFeqb.

(** [float64(z)] of an integer: rounded to nearest, ties to even. *)
Definition f64_of_Z (z : Z) : f64 := binary_normalize 53 1024 z 0 false.

(** The integer part, truncated toward zero; zero for the infinities and NaN,
    whose conversion Go leaves to the implementation. *)
Definition f64_trunc (x : f64) : Z :=
  match x with
  | S754_finite s m e => if s then - Z.shiftl (Zpos m) e else Z.shiftl (Zpos m) e
  | _ => 0
  end.

(** [int64(x)]. *)
Definition f64_to_i64 (x : f64) : Z := i64 (f64_trunc x).

(** The float64 literals of the sources. *)
Definition f64_1_1 : f64 := S754_finite false 4953959590107546 (-52).
Definition f64_0_05 : f64 := S754_finite false 7205759403792794 (-57).
Definition f64_0_02 : f64 := S754_finite false 5764607523034235 (-58).

(** [int64(float64(d) * 1.1)]: the multiply-and-truncate of mul110 and RetryInterval. *)
Definition mul_1_1 (d : Z) : Z := f64_to_i64 (f64_mul (f64_of_Z d) f64_1_1).

(** ** Digits and shifts of the specification *)

Lemma digits2_pos_bounds p : 2 ^ (Zpos (digits2_pos p) - 1) <= Zpos p < 2 ^ Zpos (digits2_pos p).
Proof.
  induction p as [p IH|p IH|]; simpl digits2_pos; [| |vm_compute; intuition congruence].
  all: rewrite Pos2Z.inj_succ; set (n := Zpos (digits2_pos p)) in *.
  all: assert (0 < n) by (subst n; lia).
  all: replace (Z.succ n - 1) with (Z.succ (n - 1)) by lia.
  all: rewrite !Z.pow_succ_r by lia; lia.
Qed.

Lemma Zdigits2_unique m n : 0 < n -> 2 ^ (n - 1) <= m < 2 ^ n -> Zdigits2 m = n.
Proof.
  intros Hn [Hlo Hhi]. assert (0 < m) by (pose proof (Z.pow_pos_nonneg 2 (n - 1)); lia).
  destruct m as [|p|p]; [lia| |lia]. simpl. pose proof (digits2_pos_bounds p) as [Hl Hh].
  set (k := Zpos (digits2_pos p)) in *. assert (0 < k) by (subst k; lia).
  assert (k - 1 < n) by (apply (Z.pow_lt_mono_r_iff 2); lia).
  assert (n - 1 < k) by (apply (Z.pow_lt_mono_r_iff 2); lia). lia.
Qed.

Lemma iter_pos_iter {A} (f : A -> A) p x : iter_pos f p x = Nat.iter (Pos.to_nat p) f x.
Proof.
  revert x; induction p as [p IH|p IH|]; intros x; cbn [iter_pos]; [| |reflexivity].
  - rewrite !IH, Pos2Nat.inj_xI, Nat.iter_succ_r, <-Nat.iter_add. f_equal. lia.
  - rewrite !IH, Pos2Nat.inj_xO, <-Nat.iter_add. f_equal. lia.
Qed.

(** One shift of a non-negative mantissa halves it, remembering the bit it loses. *)
Lemma shr_1_spec m r s :
  0 <= m -> shr_1 {| shr_m := m; shr_r := r; shr_s := s |} =
            {| shr_m := m / 2; shr_r := Z.odd m; shr_s := r || s |}.
Proof.
  intros Hm. destruct m as [|[p|p|]|p]; try lia; cbn -[Z.div]; f_equal.
  - apply (Z.div_unique _ _ _ 1); lia.
  - apply (Z.div_unique _ _ _ 0); lia.
Qed.

(** After [n] shifts the mantissa is the quotient and the pair (round, sticky)
    locates the remainder against half of [2^n]. *)
Lemma shr_iter_spec n x :
  0 <= x ->
  let t := Nat.iter n shr_1 {| shr_m := x; shr_r := false; shr_s := false |} in
  shr_m t = x / 2 ^ Z.of_nat n /\
  match loc_of_shr_record t with
  | loc_Exact => x mod 2 ^ Z.of_nat n = 0
  | loc_Inexact c => c = Z.compare (2 * (x mod 2 ^ Z.of_nat n)) (2 ^ Z.of_nat n)
                     /\ x mod 2 ^ Z.of_nat n <> 0
  end.
Proof.
  intros Hx. induction n as [|n IH]; simpl Nat.iter; cbv zeta in *.
  { simpl. rewrite Z.div_1_r, Z.mod_1_r. done. }
  set (t := Nat.iter n shr_1 _) in *. destruct t as [m r s]. cbn [shr_m] in IH.
  destruct IH as [-> Hloc].
  pose proof (Z.pow_pos_nonneg 2 (Z.of_nat n)) as HP.
  rewrite shr_1_spec by (apply Z.div_pos; lia). cbn [shr_m].
  rewrite Nat2Z.inj_succ, Z.pow_succ_r by lia. set (P := 2 ^ Z.of_nat n) in *.
  assert (Hq := Z.div_mod x P ltac:(lia)). assert (Hr := Z.mod_pos_bound x P ltac:(lia)).
  set (q := x / P) in *. set (e := x mod P) in *.
  assert (Hq2 := Z.div_mod q 2 ltac:(lia)). assert (Hr2 := Z.mod_pos_bound q 2 ltac:(lia)).
  assert (HD : x / (2 * P) = q / 2) by (symmetry; apply (Z.div_unique _ _ _ (P * (q mod 2) + e)); nia).
  assert (HM : x mod (2 * P) = P * (q mod 2) + e)
    by (symmetry; apply (Z.mod_unique _ _ (q / 2)); nia).
  split; [done|]. rewrite HM, Zodd_mod.
  destruct (Z.eq_dec (q mod 2) 0) as [E|E]; [|assert (q mod 2 = 1) as E' by lia; clear E; rename E' into E];
    rewrite E; destruct r, s; cbn in Hloc |- *.
  all: lazymatch type of Hloc with _ /\ _ => destruct Hloc as [Hc Hne]; symmetry in Hc | _ => idtac end.
  all: first [apply Z.compare_eq_iff in Hc|apply Z.compare_lt_iff in Hc|apply Z.compare_gt_iff in Hc|idtac].
  all: first [split; [symmetry; first [apply Z.compare_eq_iff|apply Z.compare_lt_iff|apply Z.compare_gt_iff]; lia|lia]
             |lia].
Qed.

(** Rounding to nearest stays within half a unit of the discarded part. *)
Lemma round_half n x :
  0 <= x ->
  let t := Nat.iter n shr_1 {| shr_m := x; shr_r := false; shr_s := false |} in
  let r := round_nearest_even (shr_m t) (loc_of_shr_record t) in
  x / 2 ^ Z.of_nat n <= r <= x / 2 ^ Z.of_nat n + 1 /\
  2 * (r * 2 ^ Z.of_nat n) <= 2 * x + 2 ^ Z.of_nat n.
Proof.
  intros Hx t r. subst r. pose proof (shr_iter_spec n x Hx) as [Hm Hloc].
  fold t in Hm, Hloc. rewrite Hm. pose proof (Z.pow_pos_nonneg 2 (Z.of_nat n)) as HP.
  assert (Hq := Z.div_mod x (2 ^ Z.of_nat n) ltac:(lia)).
  assert (Hr := Z.mod_pos_bound x (2 ^ Z.of_nat n) ltac:(lia)).
  set (P := 2 ^ Z.of_nat n) in *. set (q := x / P) in *.
  unfold round_nearest_even.
  destruct (loc_of_shr_record t) as [|c]; [nia|]. destruct Hloc as [-> Hne].
  destruct (Z.compare_spec (2 * (x mod P)) P); [destruct (Z.even q)|..]; nia.
Qed.

(** Rounding a mantissa that already has 53 digits changes nothing. *)
Lemma shr_fexp_exact m e :
  2 ^ 52 <= m < 2 ^ 53 -> -1074 <= e ->
  shr_fexp 53 1024 m e loc_Exact = ({| shr_m := m; shr_r := false; shr_s := false |}, e).
Proof.
  intros Hm He. unfold shr_fexp, fexp, emin.
  rewrite (Zdigits2_unique m 53) by lia.
  replace (Z.max (53 + e - 53) (3 - 1024 - 53) - e) with 0 by lia. reflexivity.
Qed.

(** A positive integer of [D <= 53] digits converts exactly. *)
Lemma f64_of_Z_exact d D :
  0 < D <= 53 -> 2 ^ (D - 1) <= d < 2 ^ D ->
  exists m, f64_of_Z d = S754_finite false m (D - 53) /\ Zpos m = d * 2 ^ (53 - D).
Proof.
  intros HD Hd. pose proof (Z.pow_pos_nonneg 2 (D - 1)).
  destruct d as [|p|p]; [lia| |lia].
  assert (Hp : Zpos (digits2_pos p) = D) by (apply (Zdigits2_unique (Zpos p)); lia).
  unfold f64_of_Z, binary_normalize, binary_round, shl_align, fexp, emin.
  rewrite Hp, Z.add_0_r, Z.sub_0_r.
  replace (Z.max (D - 53) (3 - 1024 - 53)) with (D - 53) by lia.
  assert (HM : forall n, Zpos (Pos.iter xO p n) = Zpos p * 2 ^ Zpos n).
  { intros n. induction n as [|n IH] using Pos.peano_ind; [simpl; lia|].
    rewrite Pos.iter_succ, Pos2Z.inj_succ, Z.pow_succ_r by lia. lia. }
  assert (H53 : Zpos p * 2 ^ (53 - D) < 2 ^ 53 /\ 2 ^ 52 <= Zpos p * 2 ^ (53 - D)).
  { pose proof (Z.pow_pos_nonneg 2 (53 - D)).
    assert (2 ^ 53 = 2 ^ D * 2 ^ (53 - D)) as -> by (rewrite <-Z.pow_add_r by lia; f_equal; lia).
    assert (2 ^ 52 = 2 ^ (D - 1) * 2 ^ (53 - D)) as -> by (rewrite <-Z.pow_add_r by lia; f_equal; lia).
    nia. }
  destruct (D - 53) as [|n|n] eqn:E; [| lia |].
  - exists p. replace (53 - D) with 0 in * by lia. rewrite Z.mul_1_r in *. split; [|done].
    unfold binary_round_aux. rewrite shr_fexp_exact by lia. cbn -[shr_fexp].
    rewrite shr_fexp_exact by lia. done.
  - exists (Pos.iter xO p n). replace (53 - D) with (Zpos n) in * by lia. rewrite HM. split; [|done].
    unfold binary_round_aux. rewrite shr_fexp_exact by (rewrite ?HM; lia). cbn -[shr_fexp].
    rewrite shr_fexp_exact by (rewrite ?HM; lia). cbn [shr_m]. rewrite <-HM. done.
Qed.

(** The first rounding step of a product with [53 + n] digits. *)
Lemma shr_fexp_product X e n :
  0 < n -> -1074 <= e -> 2 ^ (52 + n) <= X < 2 ^ (53 + n) ->
  shr_fexp 53 1024 X e loc_Exact =
    (Nat.iter (Z.to_nat n) shr_1 {| shr_m := X; shr_r := false; shr_s := false |}, e + n).
Proof.
  intros Hn He HX. unfold shr_fexp, fexp, emin.
  rewrite (Zdigits2_unique X (53 + n)) by (replace (53 + n - 1) with (52 + n) by lia; lia).
  replace (Z.max (53 + n + e - 53) (3 - 1024 - 53) - e) with n by lia.
  destruct n as [|p|p]; [lia| |lia]. cbn [shr shr_record_of_loc]. rewrite iter_pos_iter. done.
Qed.

(** The value of a rounded product: [X / 2^n] to nearest, renormalised when the
    rounding carries into a 54th digit. *)
Lemma round_aux_trunc X e n :
  0 < n -> -1074 <= e -> e + n < 0 -> 2 ^ (52 + n) <= X < 2 ^ (53 + n) ->
  exists R, f64_trunc (binary_round_aux 53 1024 false X e loc_Exact) = R / 2 ^ (- (e + n)) /\
    X / 2 ^ n <= R /\ 2 * (R * 2 ^ n) <= 2 * X + 2 ^ n.
Proof.
  intros Hn He Hneg HX. unfold binary_round_aux. rewrite (shr_fexp_product X e n) by done.
  pose proof (Z.pow_pos_nonneg 2 n ltac:(lia) ltac:(lia)) as Hpn.
  assert (0 <= X) by (pose proof (Z.pow_pos_nonneg 2 (52 + n)); lia).
  pose proof (round_half (Z.to_nat n) X ltac:(done)) as HR. cbv zeta in HR.
  rewrite Z2Nat.id in HR by lia.
  set (t := Nat.iter _ _ _) in *. set (R := round_nearest_even _ _) in *. exists R.
  destruct HR as [[HRl HRh] HR]. split; [|done].
  rewrite !Z.pow_add_r in HX by lia.
  assert (2 ^ 52 <= X / 2 ^ n < 2 ^ 53)
    by (split; [apply Z.div_le_lower_bound|apply Z.div_lt_upper_bound]; lia).
  assert (R < 2 ^ 53 \/ R = 2 ^ 53) as [HR53| HR53] by lia.
  - rewrite shr_fexp_exact by lia. cbn [shr_m].
    destruct R as [|r|r] eqn:ER; [lia| |lia].
    destruct (Z.leb_spec (e + n) (1024 - 53)); [|lia]. simpl f64_trunc.
    rewrite <-(Z.opp_involutive (e + n)) at 1. rewrite Z.shiftl_opp_r, Z.shiftr_div_pow2 by lia. done.
  - rewrite HR53. replace (shr_fexp 53 1024 (2 ^ 53) (e + n) loc_Exact) with
      ({| shr_m := 2 ^ 52; shr_r := false; shr_s := false |}, e + n + 1).
    2:{ unfold shr_fexp, fexp, emin. rewrite (Zdigits2_unique _ 54) by lia.
        replace (Z.max (54 + (e + n) - 53) (3 - 1024 - 53) - (e + n)) with 1 by lia. done. }
    cbn [shr_m]. change (2 ^ 52) with (Zpos 4503599627370496).
    destruct (Z.leb_spec (e + n + 1) (1024 - 53)); [|lia]. simpl f64_trunc.
    replace (e + n + 1) with (- (- (e + n) - 1)) by lia. set (k := - (e + n)) in *.
    rewrite Z.shiftl_opp_r, Z.shiftr_div_pow2 by lia.
    replace (2 ^ k) with (2 * 2 ^ (k - 1)) by (rewrite <-Z.pow_succ_r by lia; f_equal; lia).
    change (2 ^ 53) with (2 * 4503599627370496). rewrite Z.div_mul_cancel_l; [done|lia|lia].
Qed.

(** The double multiply by 1.1 followed by truncation, in integers: the exact
    product is within half a unit in the last place of the rounded one, and
    the fraction it discards is at most nine tenths. *)
Lemma f64_mul_1_1_trunc d :
  0 <= d < 2 ^ 48 -> f64_trunc (f64_mul (f64_of_Z d) f64_1_1) = d + d / 10.
Proof.
  intros Hd. destruct (Z.eq_dec d 0) as [->|Hd0]; [reflexivity|].
  set (D := Z.log2 d + 1).
  assert (HD : 0 < D <= 48) by (pose proof (Z.log2_nonneg d); pose proof (Z.log2_lt_pow2 d 48); lia).
  assert (Hdd : 2 ^ (D - 1) <= d < 2 ^ D).
  { pose proof (Z.log2_spec d ltac:(lia)). unfold D. replace (Z.log2 d + 1 - 1) with (Z.log2 d) by lia.
    rewrite <-Z.add_1_r in *. lia. }
  destruct (f64_of_Z_exact d D ltac:(lia) Hdd) as (m & -> & Hm).
  unfold f64_mul, f64_1_1, SFmul. cbn [xorb].
  set (X := Zpos (m * 4953959590107546)).
  set (B := 2 ^ (53 - D)) in *.
  assert (HX : X = d * B * 4953959590107546) by (subst X; lia).
  assert (HB : 32 <= B) by (apply (Z.pow_le_mono_r 2 5); lia).
  assert (2 ^ D * B = 2 ^ 53) by (unfold B; rewrite <-Z.pow_add_r by lia; f_equal; lia).
  assert (2 ^ (D - 1) * B = 2 ^ 52) by (unfold B; rewrite <-Z.pow_add_r by lia; f_equal; lia).
  assert (HdB : 2 ^ 52 <= d * B < 2 ^ 53) by nia.
  assert (exists n, (n = 52 \/ n = 53) /\ 2 ^ (52 + n) <= X < 2 ^ (53 + n)) as (n & Hn & HXn).
  { destruct (Z_lt_le_dec X (2 ^ 105)); [exists 52|exists 53]; split; try tauto; lia. }
  destruct (round_aux_trunc X (D - 53 + -52) n) as (R & -> & HR1 & HR2); [lia..|done|].
  pose proof (Z.pow_pos_nonneg 2 n ltac:(lia) ltac:(lia)) as HP.
  set (E := - (D - 53 + -52 + n)).
  assert (HE : 2 ^ E * 2 ^ n = 2 ^ 52 * B) by (unfold E, B; rewrite <-!Z.pow_add_r by lia; f_equal; lia).
  pose proof (Z.pow_pos_nonneg 2 E ltac:(lia) ltac:(unfold E; lia)) as HPE.
  assert (HT := Z.div_mod d 10 ltac:(lia)). assert (HT' := Z.mod_pos_bound d 10 ltac:(lia)).
  set (q := d / 10) in *. symmetry.
  apply (Z.div_unique_pos _ _ _ (R - (d + q) * 2 ^ E)); [|lia]. split.
  - enough ((d + q) * 2 ^ E <= X / 2 ^ n) by lia. apply Z.div_le_lower_bound; [lia|].
    rewrite Z.mul_comm, <-Z.mul_assoc, HE, HX.
    replace ((d + q) * (2 ^ 52 * B)) with ((d + q) * 2 ^ 52 * B) by ring.
    replace (d * B * 4953959590107546) with (d * 4953959590107546 * B) by ring.
    apply Z.mul_le_mono_nonneg_r; lia.
  - assert (2 ^ n <= 2 ^ 53) by (apply Z.pow_le_mono_r; lia).
    assert (Hgap : 2 ^ 52 + 1 <= ((d + q + 1) * 2 ^ 52 - d * 4953959590107546) * B).
    { transitivity (((d + q + 1) * 2 ^ 52 - d * 4953959590107546) * 32); [lia|].
      apply Z.mul_le_mono_nonneg_l; lia. }
    enough (R * 2 ^ n < (d + q + 1) * 2 ^ E * 2 ^ n) by (rewrite <-Z.mul_lt_mono_pos_r in *; lia).
    rewrite <-Z.mul_assoc, HE. lia.
Qed.

Lemma mul_1_1_trunc d : 0 <= d < 2 ^ 48 -> mul_1_1 d = d + d / 10.
Proof.
  intros Hd. unfold mul_1_1, f64_to_i64. rewrite f64_mul_1_1_trunc by done.
  assert (0 <= d / 10 <= d) by (split; [apply Z.div_pos; lia|apply Z.div_le_upper_bound; lia]).
  unfold i64, swrap. rewrite Z.mod_small by lia. lia.
Qed.
