(* ===== verification/Seq.v ===== *)
(** * Circular sequence numbers: internal/seq/seq.go

    The generic helpers [half], [distance], [less], [compare] and
    [forwardGap] over the two widths of the [numeric] constraint, and the
    methods of [Num16] and [Num32] that instantiate them.  The theorems give the
    order its meaning: [distance] is the shortest signed way around the ring,
    and inside any window of half the ring [less] is the usual strict order. *)

From S2P Require Import Prelude.

(** The type constraint [~uint16 | ~uint32], by width. *)
Class numeric (w : Z) : Prop := numeric_width : w = 16 \/ w = 32.
#[export] Instance numeric_16 : numeric 16.
Proof. by left. Qed.
#[export] Instance numeric_32 : numeric 32.
Proof. by right. Qed.

(** [^T(0)]: the largest value of the width. *)
Definition maxT (w : Z) : Z := 2 ^ w - 1.

Definition half (w : Z) : Z := uwrap w (maxT w / 2 + 1).

Definition distance (w a b : Z) : Z :=
  let d := uwrap w (b - a) in
  if (d =? 0) || (d <=? half w) then i64 d else i64 (i64 d - i64 (maxT w) - 1).

Definition less (w a b : Z) : bool :=
  let d := uwrap w (b - a) in negb (d =? 0) && (d <=? half w).

Definition compare (w a b : Z) : Z :=
  if a =? b then 0 else if less w a b then -1 else 1.

Definition forwardGap (w a b : Z) : Z * bool :=
  let gap := uwrap w (b - a) in (gap, gap <=? half w).

Definition MaxGap16 : Z := Z.shiftl 1 15.
Definition MaxGap32 : Z := Z.shiftl 1 31.

Module Num16.
Definition Inc (a : Z) : Z := u16 (a + 1).
Definition Dec (a : Z) : Z := u16 (a - 1).
Definition Add (a n : Z) : Z := u16 (a + u16 n).
Definition Sub (a n : Z) : Z := u16 (a - u16 n).
Definition Distance (a b : Z) : Z := distance 16 a b.
Definition Less (a b : Z) : bool := less 16 a b.
Definition Compare (a b : Z) : Z := compare 16 a b.
Definition ForwardGap (a b : Z) : Z * bool := forwardGap 16 a b.
End Num16.

Module Num32.
Definition Inc (a : Z) : Z := u32 (a + 1).
Definition Dec (a : Z) : Z := u32 (a - 1).
Definition Add (a n : Z) : Z := u32 (a + u32 n).
Definition Sub (a n : Z) : Z := u32 (a - u32 n).
Definition Distance (a b : Z) : Z := distance 32 a b.
Definition Less (a b : Z) : bool := less 32 a b.
Definition Compare (a b : Z) : Z := compare 32 a b.
Definition ForwardGap (a b : Z) : Z * bool := forwardGap 32 a b.
End Num32.

(** ** Laws of the ring, at either width *)

Section laws.
Context (w : Z) `{Hw : !numeric w}.

Lemma half_eq : half w = 2 ^ (w - 1).
Proof. by destruct Hw as [-> | ->]. Qed.

(** [distance] by cases on the forward gap. *)
Lemma distance_cases a b :
  let d := uwrap w (b - a) in
  (d <= 2 ^ (w - 1) /\ distance w a b = d) \/
  (2 ^ (w - 1) < d /\ distance w a b = d - 2 ^ w).
Proof.
  cbv zeta. unfold distance, maxT. rewrite half_eq.
  pose proof (uwrap_range w (b - a)) as Hr. set (d := uwrap w (b - a)) in *.
  assert (in_i64 d /\ in_i64 (d - 2 ^ w) /\ in_i64 (2 ^ w - 1)) as (H1 & H2 & H3)
    by (unfold in_i64; destruct Hw as [-> | ->]; lia).
  destruct (Z.eqb_spec d 0); destruct (Z.leb_spec d (2 ^ (w - 1))); simpl;
    rewrite ?(i64_id d), ?(i64_id (2 ^ w - 1)) by done; [lia|..].
  - destruct Hw as [-> | ->]; lia.
  - lia.
  - right. split; [lia|]. rewrite i64_id; [lia|]. by replace (d - (2 ^ w - 1) - 1) with (d - 2 ^ w) by lia.
Qed.

Lemma distance_add a b : 0 <= b < 2 ^ w -> uwrap w (a + distance w a b) = b.
Proof.
  intros Hb. apply uwrap_eq; [done|]. destruct (uwrap_spec w (b - a)) as [k Hk]; [destruct Hw; lia|].
  destruct (distance_cases a b) as [[_ ->]|[_ ->]]; rewrite Hk; [exists (- k)|exists (- k - 1)]; lia.
Qed.

Lemma distance_range a b : - 2 ^ (w - 1) < distance w a b <= 2 ^ (w - 1).
Proof.
  pose proof (uwrap_range w (b - a)).
  destruct (distance_cases a b) as [[? ->]|[? ->]]; destruct Hw as [-> | ->]; lia.
Qed.

(** The two facts that determine [distance]: it is the only offset of the half-open half ring. *)
Lemma distance_unique a b z :
  - 2 ^ (w - 1) < z <= 2 ^ (w - 1) -> 0 <= b < 2 ^ w -> uwrap w (a + z) = b -> distance w a b = z.
Proof.
  intros Hz Hb Hab. pose proof (distance_range a b) as Hr. pose proof (distance_add a b Hb) as Ha.
  destruct (uwrap_spec w (a + z)) as [k1 E1]; [destruct Hw; lia|].
  destruct (uwrap_spec w (a + distance w a b)) as [k2 E2]; [destruct Hw; lia|].
  rewrite Hab in E1. rewrite Ha in E2. destruct Hw as [-> | ->]; nia.
Qed.

Lemma distance_neg a b :
  0 <= a < 2 ^ w -> 0 <= b < 2 ^ w -> distance w a b <> 2 ^ (w - 1) ->
  distance w b a = - distance w a b.
Proof.
  intros Ha Hb Hne. pose proof (distance_range a b). apply distance_unique; [lia|done|].
  apply uwrap_eq; [done|]. destruct (uwrap_spec w (a + distance w a b)) as [k Hk]; [destruct Hw; lia|].
  rewrite distance_add in Hk by done. exists (- k). lia.
Qed.

Lemma less_distance a b : less w a b = (0 <? distance w a b).
Proof.
  unfold less. rewrite half_eq. pose proof (uwrap_range w (b - a)).
  destruct (distance_cases a b) as [[? ->]|[? ->]]; set (d := uwrap w (b - a)) in *.
  - destruct (Z.eqb_spec d 0), (Z.leb_spec d (2 ^ (w - 1))), (Z.ltb_spec 0 d); simpl; destruct Hw; lia.
  - destruct (Z.eqb_spec d 0), (Z.leb_spec d (2 ^ (w - 1))), (Z.ltb_spec 0 (d - 2 ^ w)); simpl;
      destruct Hw as [-> | ->]; lia.
Qed.

(** Offsets from a common base order the values of a half-ring window. *)
Lemma less_window base x y :
  0 <= x -> 0 <= y -> x < 2 ^ (w - 1) -> y < 2 ^ (w - 1) ->
  less w (uwrap w (base + x)) (uwrap w (base + y)) = (x <? y).
Proof.
  intros. rewrite less_distance.
  erewrite (distance_unique _ _ (y - x)); [destruct (Z.ltb_spec 0 (y - x)), (Z.ltb_spec x y); lia|lia| |].
  - apply uwrap_range; destruct Hw; lia.
  - apply uwrap_cong; [destruct Hw; lia|]. destruct (uwrap_spec w (base + x)) as [k ->]; [destruct Hw; lia|].
    exists (- k). lia.
Qed.
End laws.

(** ** Properties of Num16 and Num32 *)

(** At either width, [Distance] is the shortest signed way around the ring:
    adding it to the start gives the target, it lies in (-half, half], and no
    other offset that leads to the target is shorter. *)
Theorem distance_shortest w a b z :
  numeric w -> 0 <= a < 2 ^ w -> 0 <= b < 2 ^ w ->
  uwrap w (a + uwrap w (distance w a b)) = b /\
  - half w < distance w a b <= half w /\
  (uwrap w (a + z) = b -> Z.abs (distance w a b) <= Z.abs z).
Proof.
  intros Hw Ha Hb. rewrite half_eq by done. split_and!.
  - rewrite <-(distance_add w a b Hb) at 2. apply uwrap_cong; [destruct Hw; lia|].
    destruct (uwrap_spec w (distance w a b)) as [k ->]; [destruct Hw; lia|]. exists (- k). lia.
  - by apply distance_range.
  - by apply distance_range.
  - intros Hz. pose proof (distance_range w a b). pose proof (distance_unique w a b z).
    destruct (decide (- 2 ^ (w - 1) < z <= 2 ^ (w - 1))) as [Hin|Hout]; [rewrite H0 by done; lia|].
    destruct Hw as [-> | ->]; lia.
Qed.

Lemma distance_shortest_witness :
  numeric 16 /\ uwrap 16 (65000 + uwrap 16 (distance 16 65000 100)) = 100.
Proof.
  split; [apply numeric_16|].
  apply (distance_shortest 16 65000 100 0); [apply numeric_16|lia|lia].
Defined.

(** The methods agree on one order: [Less] is [Distance > 0], [Compare] is minus the sign of
    [Distance], and [Distance] is antisymmetric except between antipodes, where both directions
    read +half. *)
Theorem order_agrees w a b :
  numeric w -> 0 <= a < 2 ^ w -> 0 <= b < 2 ^ w ->
  less w a b = (0 <? distance w a b) /\
  compare w a b = - Z.sgn (distance w a b) /\
  (uwrap w (b - a) <> half w -> distance w b a = - distance w a b) /\
  (uwrap w (b - a) = half w -> distance w a b = half w /\ distance w b a = half w).
Proof.
  intros Hw Ha Hb. rewrite half_eq by done. split_and!.
  - by apply less_distance.
  - unfold compare. rewrite less_distance by done. pose proof (distance_add w a b Hb) as Hab.
    destruct (Z.eqb_spec a b) as [->|Hne].
    + assert (distance w b b = 0) as ->; [|done].
      apply distance_unique; [done|destruct Hw as [-> | ->]; lia|done|]. rewrite Z.add_0_r. by apply uwrap_id.
    + destruct (Z.ltb_spec 0 (distance w a b)); [rewrite Z.sgn_pos; lia|].
      rewrite Z.sgn_neg; [done|]. destruct (Z.eq_dec (distance w a b) 0) as [E|]; [|lia].
      rewrite E, Z.add_0_r, uwrap_id in Hab by done. lia.
  - intros Hne. apply distance_neg; [done..|].
    destruct (distance_cases w a b) as [[? ->]|[? ->]]; [done|].
    pose proof (uwrap_range w (b - a)). destruct Hw as [-> | ->]; lia.
  - intros E. split.
    + destruct (distance_cases w a b) as [[? ->]|[? ->]]; lia.
    + apply distance_unique; [done|destruct Hw as [-> | ->]; lia|done|].
      apply uwrap_eq; [done|]. destruct (uwrap_spec w (b - a)) as [k Hk]; [destruct Hw; lia|].
      rewrite E in Hk. exists (k + 1). destruct Hw as [-> | ->]; lia.
Qed.

Lemma order_agrees_witness : compare 32 4294967295 0 = -1 /\ distance 32 0 4294967295 = - distance 32 4294967295 0.
Proof.
  split; [reflexivity|].
  apply (order_agrees 32 4294967295 0); [apply numeric_32|lia|lia|vm_compute; congruence].
Defined.

(** Inside any window of half the ring, wherever it starts and wherever it wraps, [Less]
    is the strict order of the offsets into the window. *)
Theorem less_is_window_order w base x y :
  numeric w -> 0 <= x < half w -> 0 <= y < half w ->
  less w (uwrap w (base + x)) (uwrap w (base + y)) = true <-> x < y.
Proof.
  intros Hw. rewrite half_eq by done. intros Hx Hy.
  rewrite less_window by (try done; lia). apply Z.ltb_lt.
Qed.

Lemma less_is_window_order_witness :
  less 16 (uwrap 16 (65530 + 1)) (uwrap 16 (65530 + 20)) = true.
Proof. apply (less_is_window_order 16 65530 1 20); [apply numeric_16|vm_compute; intuition congruence..|lia]. Defined.

(** The loss guard: [ForwardGap] reports forward exactly when the gap is at most half the ring,
    and then the numbers strictly between the two are the [gap - 1] ones reached by counting up
    from the first. *)
Theorem forward_gap_counts w a b :
  numeric w -> 0 <= a < 2 ^ w -> 0 <= b < 2 ^ w ->
  snd (forwardGap w a b) = (a =? b) || less w a b /\
  0 <= fst (forwardGap w a b) < 2 ^ w /\
  uwrap w (a + fst (forwardGap w a b)) = b /\
  (forall k, 0 < k < fst (forwardGap w a b) -> uwrap w (a + k) <> b).
Proof.
  intros Hw Ha Hb. unfold forwardGap, less. cbn [fst snd]. rewrite half_eq by done.
  assert (0 <= w) by (destruct Hw; lia). pose proof (uwrap_range w (b - a) ltac:(done)) as Hr.
  destruct (uwrap_spec w (b - a)) as [k Hk]; [done|]. set (d := uwrap w (b - a)) in *.
  split_and!; [|lia..| |].
  - destruct (Z.eqb_spec a b) as [->|Hne]; simpl.
    + assert (d = 0) as -> by (subst d; rewrite Z.sub_diag; by rewrite uwrap_id by lia).
      destruct Hw as [-> | ->]; done.
    + destruct (Z.eqb_spec d 0) as [E|]; [|done]. destruct Hw as [-> | ->]; nia.
  - apply uwrap_eq; [done|]. exists (- k). lia.
  - intros j Hj E. destruct (uwrap_spec w (a + j)) as [k' Hk']; [done|]. rewrite E in Hk'.
    destruct Hw as [-> | ->]; nia.
Qed.

Lemma forward_gap_counts_witness : uwrap 16 (65535 + fst (forwardGap 16 65535 4)) = 4.
Proof. apply (forward_gap_counts 16 65535 4); [apply numeric_16|lia|lia]. Defined.
