(* ===== verification/Clock.v ===== *)
(** * Time: internal/clock (timestamp.go, ntp.go, and the mock clock of clock.go)

    [Timestamp] and [Microseconds] are int64 microsecond counts, [NTPTime] is
    the uint64 NTP format.  The theorems are the round trips the package
    documents: the 32-bit wire timestamp is recovered from any reference less
    than half a wrap away, and microseconds and nanoseconds survive NTP-64. *)

From S2P Require Import Prelude.

(** ** timestamp.go *)

Definition Millisecond : Z := 1000.
Definition Second : Z := 1000 * Millisecond.

Module Microseconds.
Definition Abs (d : Z) : Z := if d <? 0 then i64 (- d) else d.
End Microseconds.

Module Timestamp.
Definition Add (t d : Z) : Z := i64 (t + d).
Definition Sub (t other : Z) : Z := i64 (t - other).
Definition Before (t other : Z) : bool := t <? other.
Definition After (t other : Z) : bool := other <? t.
Definition IsZero (t : Z) : bool := t =? 0.
Definition Low32 (t : Z) : Z := u32 t.
End Timestamp.

Definition wrap32Period : Z := Z.shiftl 1 32.

Definition From32BitTimestamp (ts32 reference : Z) : Z :=
  let refLow := u32 reference in
  let base := i64 (reference - refLow) in
  let candidate := i64 (base + ts32) in
  let diff := Timestamp.Sub candidate reference in
  if wrap32Period /g 2 <? diff then i64 (i64 (base - wrap32Period) + ts32)
  else if diff <? (- wrap32Period) /g 2 then i64 (i64 (base + wrap32Period) + ts32)
  else candidate.

(** ** ntp.go *)

Definition ntpEpochOffset : Z := 2208988800.
Definition nsPerSecond : Z := 1000000000.
Definition usPerSecond : Z := 1000000.

(** The wall-clock instant a [time.Time] denotes: [Unix()] seconds and [Nanosecond()]. *)
Record Time := mkTime { Unix : Z; Nanosecond : Z }.

(** [time.Unix(sec, nsec)]: a nanosecond count outside [0, 1e9) carries into the seconds. *)
Definition time_Unix (sec nsec : Z) : Time :=
  mkTime (sec + nsec / nsPerSecond) (nsec mod nsPerSecond).

Definition NTPTimeFromTime (t : Time) : Z :=
  let sec := u64 (i64 (Unix t + ntpEpochOffset)) in
  let frac := u64 (u64 (Z.shiftl (u64 (Nanosecond t)) 32) + nsPerSecond /g 2) / nsPerSecond in
  Z.lor (u64 (Z.shiftl sec 32)) frac.

Definition NTPTimeFromTimestamp (ts : Z) : Z :=
  if ts <? 0 then 0 else
  let sec := u64 ts / usPerSecond in
  let us := u64 ts mod usPerSecond in
  let frac := u64 (u64 (Z.shiftl us 32) + usPerSecond /g 2) / usPerSecond in
  Z.lor (u64 (Z.shiftl sec 32)) frac.

Module NTPTime.
Definition toTime (n : Z) : Time :=
  let sec := i64 (i64 (Z.shiftr n 32) - ntpEpochOffset) in
  let ns := Z.shiftr (u64 (u64 (u32 n * nsPerSecond) + Z.shiftl 1 31)) 32 in
  time_Unix sec (i64 ns).

Definition toTimestamp (n : Z) : Z :=
  let sec := Z.shiftr n 32 in
  let us := Z.shiftr (u64 (u64 (u32 n * usPerSecond) + Z.shiftl 1 31)) 32 in
  i64 (u64 (u64 (sec * usPerSecond) + us)).

Definition Seconds (n : Z) : Z := u32 (Z.shiftr n 32).
Definition Fraction (n : Z) : Z := u32 n.
Definition Middle32 (n : Z) : Z := u32 (Z.shiftr n 16).
End NTPTime.

(** ** clock.go: the mock clock *)

Record MockClock := mkMockClock { mc_now : Z }.
Definition NewMockClock : MockClock := mkMockClock 0.

Module MockClock.
Definition Now (c : MockClock) : Z := mc_now c.
Definition Set_ (c : MockClock) (t : Z) : MockClock := mkMockClock t.
Definition Advance (c : MockClock) (d : Z) : MockClock := mkMockClock (Timestamp.Add (mc_now c) d).
End MockClock.

(** ** Joining the two halves of an NTP value *)

(** The unpacking of a packed [hi:lo] pair. *)
Lemma ntp_unpack hi lo :
  0 <= hi < 2 ^ 32 -> 0 <= lo < 2 ^ 32 ->
  let n := Z.lor (u64 (Z.shiftl hi 32)) lo in
  Z.shiftr n 32 = hi /\ u32 n = lo.
Proof.
  intros Hhi Hlo. cbv zeta.
  rewrite u64_id by (rewrite Z.shiftl_mul_pow2 by lia; unfold in_u64; lia).
  rewrite lor_shiftl_add by lia. split.
  - rewrite Z.shiftr_div_pow2 by lia. symmetry. apply (Z.div_unique_pos _ _ _ lo); lia.
  - apply u32_eq; [done|]. exists hi. lia.
Qed.

(** Scaling [x] out of [0, m) to a 32-bit fraction and back, both rounded to nearest, is exact as long as
    the fraction is the finer unit. *)
Lemma frac_round_trip m x :
  0 < m < 2 ^ 31 -> 0 <= x < m ->
  let frac := (x * 2 ^ 32 + m / 2) / m in
  0 <= frac < 2 ^ 32 /\ (frac * m + 2 ^ 31) / 2 ^ 32 = x.
Proof.
  intros Hm Hx. cbv zeta. set (y := x * 2 ^ 32 + m / 2).
  assert (Hq := Z.div_mod y m ltac:(lia)). assert (Hr := Z.mod_pos_bound y m ltac:(lia)).
  assert (Hh := Z.div_mod m 2 ltac:(lia)). assert (Hh2 := Z.mod_pos_bound m 2 ltac:(lia)).
  set (q := y / m) in *. subst y. split.
  - split; [apply Z.lt_succ_r; nia|nia].
  - symmetry. apply (Z.div_unique_pos _ _ _ (q * m + 2 ^ 31 - x * 2 ^ 32)); lia.
Qed.

(** ** Properties *)

(** The 32-bit wire timestamp of any instant is recovered exactly against any reference less than
    half a wrap period away from it, on either side and across wraps. *)
Theorem from32_round_trip ts reference :
  0 <= ts < 2 ^ 62 -> 0 <= reference < 2 ^ 62 -> Z.abs (ts - reference) < 2 ^ 31 ->
  From32BitTimestamp (Timestamp.Low32 ts) reference = ts.
Proof.
  intros Hts Href Hd. unfold From32BitTimestamp, Timestamp.Low32, Timestamp.Sub.
  change (wrap32Period /g 2) with 2147483648. change ((- wrap32Period) /g 2) with (-2147483648).
  change wrap32Period with 4294967296.
  destruct (u32_spec ts) as (k & Hk & Hu). destruct (u32_spec reference) as (j & Hj & Hv).
  unfold in_u32 in *. set (a := u32 ts) in *. set (b := u32 reference) in *.
  nowrap. case_cmp; nowrap; lia.
Qed.

Lemma from32_round_trip_witness : From32BitTimestamp (Timestamp.Low32 4294967300) 4294967290 = 4294967300.
Proof. apply from32_round_trip; lia. Defined.

(** Microsecond timestamps survive the NTP-64 form the RTT echo carries: converting to NTP and back is
    the identity on every non-negative timestamp whose seconds fit 32 bits. *)
Theorem ntp_timestamp_round_trip ts :
  0 <= ts < 2 ^ 32 * 1000000 -> NTPTime.toTimestamp (NTPTimeFromTimestamp ts) = ts.
Proof.
  intros Hts. unfold NTPTimeFromTimestamp, NTPTime.toTimestamp, usPerSecond.
  destruct (Z.ltb_spec ts 0); [lia|]. rewrite (u64_id ts) by (unfold in_u64; lia).
  assert (Hq := Z.div_mod ts 1000000 ltac:(lia)). assert (Hr := Z.mod_pos_bound ts 1000000 ltac:(lia)).
  set (s := ts / 1000000) in *. set (us := ts mod 1000000) in *.
  destruct (frac_round_trip 1000000 us) as [Hf Hback]; [lia..|].
  rewrite (Z.shiftl_mul_pow2 us) by lia. change (1000000 /g 2) with (1000000 / 2).
  rewrite (u64_id (us * 2 ^ 32)) by (unfold in_u64; lia).
  rewrite (u64_id (_ + 1000000 / 2)) by (change (1000000 / 2) with 500000; unfold in_u64; lia).
  destruct (ntp_unpack s ((us * 2 ^ 32 + 1000000 / 2) / 1000000)) as [-> ->]; [lia|done|].
  change (Z.shiftl 1 31) with (2 ^ 31). rewrite Z.shiftr_div_pow2 by lia.
  set (fr := (us * 2 ^ 32 + 1000000 / 2) / 1000000) in *.
  rewrite (u64_id (fr * 1000000)), (u64_id (_ + 2 ^ 31)), Hback by (unfold in_u64; lia).
  rewrite !u64_id, i64_id by (rewrite ?u64_id; unfold in_u64, in_i64; lia). lia.
Qed.

Lemma ntp_timestamp_round_trip_witness : NTPTime.toTimestamp (NTPTimeFromTimestamp 123456789) = 123456789.
Proof. apply ntp_timestamp_round_trip. lia. Defined.

(** Wall-clock times survive NTP-64 to the nanosecond within the NTP era (seconds from 1900 below 2^32). *)
Theorem ntp_time_round_trip t :
  - ntpEpochOffset <= Unix t < 2 ^ 32 - ntpEpochOffset -> 0 <= Nanosecond t < nsPerSecond ->
  NTPTime.toTime (NTPTimeFromTime t) = t.
Proof.
  unfold ntpEpochOffset, nsPerSecond. intros Hs Hn. destruct t as [sec ns]. cbn [Unix Nanosecond] in *.
  unfold NTPTimeFromTime, NTPTime.toTime, time_Unix, nsPerSecond, ntpEpochOffset. cbn [Unix Nanosecond].
  destruct (frac_round_trip 1000000000 ns) as [Hf Hback]; [lia..|].
  rewrite (u64_id ns), (i64_id (sec + _)), (u64_id (sec + _)) by (unfold in_u64, in_i64; lia).
  rewrite (Z.shiftl_mul_pow2 ns) by lia. change (1000000000 /g 2) with (1000000000 / 2).
  rewrite (u64_id (ns * 2 ^ 32)) by (unfold in_u64; lia).
  rewrite (u64_id (_ + 1000000000 / 2)) by (change (1000000000 / 2) with 500000000; unfold in_u64; lia).
  destruct (ntp_unpack (sec + 2208988800) ((ns * 2 ^ 32 + 1000000000 / 2) / 1000000000)) as [-> ->];
    [lia|done|].
  change (Z.shiftl 1 31) with (2 ^ 31). rewrite Z.shiftr_div_pow2 by lia.
  set (fr := (ns * 2 ^ 32 + 1000000000 / 2) / 1000000000) in *.
  rewrite (u64_id (fr * 1000000000)), (u64_id (_ + 2 ^ 31)), Hback by (unfold in_u64; lia).
  rewrite (i64_id ns), (i64_id (sec + _)), (i64_id (sec + _ - _)) by (unfold in_i64; lia).
  rewrite Z.div_small, Z.mod_small by lia. f_equal; lia.
Qed.

Lemma ntp_time_round_trip_witness :
  NTPTime.toTime (NTPTimeFromTime (mkTime 1700000000 999999999)) = mkTime 1700000000 999999999.
Proof. apply ntp_time_round_trip; vm_compute; intuition congruence. Defined.
