(* ===== verification/Wire.v ===== *)
(** * The narrow waist: internal/wire/wire.go

    The normalized types that cross between the profile codecs and the flow
    core.  They carry no behaviour; the decidable equalities let the traces of
    the later files compare packets. *)

From S2P Require Import Prelude.

Inductive FragRole := FragStandalone | FragFirst | FragMiddle | FragLast.

#[export] Instance FragRole_eq_dec : EqDecision FragRole.
Proof. solve_decision. Defined.

Record MediaPacket := mkMediaPacket {
  Seq : Z;
  SourceTime : Z;
  SSRC : Z;
  Payload : bytes;
  Retransmit : bool;
  PathID : Z;
  Frag : FragRole;
  VirtSrcPort : Z;
  VirtDstPort : Z;
  ShortSeq : bool }.

#[export] Instance eta_MediaPacket : Eta MediaPacket := fun p =>
  mkMediaPacket (Seq p) (SourceTime p) (SSRC p) (Payload p) (Retransmit p) (PathID p) (Frag p)
    (VirtSrcPort p) (VirtDstPort p) (ShortSeq p).

#[export] Instance MediaPacket_eq_dec : EqDecision MediaPacket.
Proof. solve_decision. Defined.

(** The sealed [Feedback] interface. *)
Inductive Feedback :=
  | NackRequest (ssrc : Z) (missing : list Z)
  | RttEchoRequest (ssrc timestamp : Z)
  | RttEchoResponse (ssrc timestamp processingDelay : Z)
  | SenderReport (ntp rtpTime : Z)
  | Keepalive
  | ExtSeq (seqHigh : Z)
  | LinkQuality (lqm : bytes)
  | FlowAttribute (json : bytes)
  | PeerIdentity (cname : bytes)
  | UnsupportedControl (ci : Z) (head : bytes).

#[export] Instance Feedback_eq_dec : EqDecision Feedback.
Proof. solve_decision. Defined.

(** The value ranges the Go field types impose on a packet. *)
Record packet_typed (p : MediaPacket) : Prop := {
  pt_seq : in_u32 (Seq p);
  pt_src : in_u64 (SourceTime p);
  pt_ssrc : in_u32 (SSRC p);
  pt_len : in_i64 (zlen (Payload p)) }.
