(* ===== verification/Bytes.v ===== *)
(** * Byte slices and fallible code

    What the wire codecs use of Go: results that are a value, an error or a run-time panic (an index or a slice
    expression out of range), bounds-checked reads and writes of byte slices, and encoding/binary's big-endian
    integers.  A slice keeps the bytes between its length and its capacity, which growing exposes unzeroed. *)

From S2P Require Import Prelude.

(** ** Results *)

Inductive res (E A : Type) :=
  | Ok (a : A)
  | Err (e : E)
  | Panic.
Arguments Ok {E A} a.
Arguments Err {E A} e.
Arguments Panic {E A}.

#[export] Instance res_ret E : MRet (res E) := fun A a => Ok a.
#[export] Instance res_bind E : MBind (res E) := fun A B k r =>
  match r with Ok a => k a | Err e => Err e | Panic => Panic end.

(** A result that is not a run-time panic, and whose value, if it is one, satisfies [P]. *)
Definition returns {E A} (r : res E A) (P : A -> Prop) : Prop := match r with Ok a => P a | Err _ => True | Panic => False end.

(** Code that returns a result and updates, through a pointer, a variable of type [S]. *)
Definition sres (S E A : Type) : Type := S -> res E A * S.

#[export] Instance sres_ret S E : MRet (sres S E) := fun A a s => (Ok a, s).
#[export] Instance sres_bind S E : MBind (sres S E) := fun A B k m s =>
  match m s with (Ok a, s) => k a s | (Err e, s) => (Err e, s) | (Panic, s) => (Panic, s) end.

Definition fail {S E A} (e : E) : sres S E A := fun s => (Err e, s).
Definition lift {S E A} (r : res E A) : sres S E A := fun s => (r, s).
Definition modify {S E} (f : S -> S) : sres S E unit := fun s => (Ok tt, f s).

Section slices.
Context {E : Type}.

(** ** Reads *)

(** [b[i]] *)
Definition idx (b : bytes) (i : Z) : res E Z :=
  match (if i <? 0 then None else b !! Z.to_nat i) with Some x => Ok x | None => Panic end.

(** [b[i:j]], of a slice whose capacity is its length *)
Definition slc (b : bytes) (i j : Z) : res E bytes :=
  if (0 <=? i) && (i <=? j) && (j <=? zlen b) then Ok (drop (Z.to_nat i) (take (Z.to_nat j) b)) else Panic.

(** [b[i:]] *)
Definition slc_from (b : bytes) (i : Z) : res E bytes := slc b i (zlen b).

(** The big-endian number of some bytes. *)
Definition be (b : bytes) : Z := fold_left (fun acc x => acc * 256 + x) b 0.

(** [binary.BigEndian.Uint16], [Uint32] and [Uint64]: they read from the front and panic when too few bytes are left. *)
Definition Uint16 (b : bytes) : res E Z := p ← slc b 0 2; Ok (be p).
Definition Uint32 (b : bytes) : res E Z := p ← slc b 0 4; Ok (be p).
Definition Uint64 (b : bytes) : res E Z := p ← slc b 0 8; Ok (be p).

(** ** Writes *)

(** The [n] low bytes of [v], most significant first. *)
Fixpoint be_bytes (n : nat) (v : Z) : bytes :=
  match n with O => [] | S n => be_bytes n (v / 256) ++ [v mod 256] end.

(** Write [xs] at offset [off]: an assignment [b[off] = x], or a [PutUint16], [PutUint32] or [PutUint64] there. *)
Definition put (b : bytes) (off : Z) (xs : bytes) : res E bytes :=
  if (0 <=? off) && (off + zlen xs <=? zlen b)
  then Ok (take (Z.to_nat off) b ++ xs ++ drop (Z.to_nat off + length xs) b) else Panic.

(** [copy(b[off:], xs)]: what fits; the number of bytes copied comes first. *)
Definition copy_at (b : bytes) (off : Z) (xs : bytes) : res E (Z * bytes) :=
  if (0 <=? off) && (off <=? zlen b) then
    let fit := take (length b - Z.to_nat off) xs in
    b ← put b off fit; Ok (zlen fit, b)
  else Panic.

(** The loop that zeroes [b[from]] to the end. *)
Definition zero_from (b : bytes) (from : Z) : bytes :=
  take (Z.to_nat from) b ++ replicate (length b - Z.to_nat from) 0.

(** The same writes into the buffer that is the state. *)
Definition wr (off : Z) (xs : bytes) : sres bytes E unit := fun b =>
  match put b off xs with Ok b => (Ok tt, b) | Err e => (Err e, b) | Panic => (Panic, b) end.

Definition wr_copy (off : Z) (xs : bytes) : sres bytes E Z := fun b =>
  match copy_at b off xs with Ok (n, b) => (Ok n, b) | Err e => (Err e, b) | Panic => (Panic, b) end.

(** The length of that buffer. *)
Definition buflen : sres bytes E Z := fun b => (Ok (zlen b), b).
End slices.

(** A slice and the bytes of its backing array past its length. *)
Record slice := mkSlice { data : bytes; spare : bytes }.

(** [append(s, xs...)].  What a reallocation leaves past the length is not observable below: every byte that growing
    exposes is shown to be overwritten. *)
Definition append (s : slice) (xs : bytes) : slice := mkSlice (data s ++ xs) (drop (length xs) (spare s)).

(** ** Lemmas *)

Lemma lxor_bound k a b : 0 <= k -> 0 <= a < 2 ^ k -> 0 <= b < 2 ^ k -> 0 <= Z.lxor a b < 2 ^ k.
Proof.
  intros Hk Ha Hb. assert (E : Z.lxor a b = Z.land (Z.lxor a b) (Z.ones k)).
  { apply Z.bits_inj'. intros i Hi. rewrite Z.land_spec, Z.testbit_ones_nonneg by lia. destruct (Z.ltb_spec i k); [by rewrite andb_true_r|].
    rewrite andb_false_r, Z.lxor_spec, <-(Z.mod_small a (2 ^ k)), <-(Z.mod_small b (2 ^ k)), !Z.mod_pow2_bits_high by lia. done. }
  rewrite E, Z.land_ones by lia. apply Z.mod_pos_bound. lia.
Qed.

Lemma lxor_u8 x y : in_u8 x -> in_u8 y -> in_u8 (Z.lxor x y).
Proof. apply (lxor_bound 8). lia. Qed.

Lemma zlen_app {A} (l k : list A) : zlen (l ++ k) = zlen l + zlen k.
Proof. unfold zlen. rewrite length_app. lia. Qed.

Lemma zlen_cons {A} (x : A) l : zlen (x :: l) = 1 + zlen l.
Proof. unfold zlen. simpl. lia. Qed.

Lemma zlen_nil {A} : zlen (@nil A) = 0.
Proof. done. Qed.

Lemma zlen_nonneg {A} (l : list A) : 0 <= zlen l.
Proof. unfold zlen. lia. Qed.

Lemma length_be n v : length (be_bytes n v) = n.
Proof. revert v. induction n as [|n IH]; intros v; [done|]. simpl. rewrite length_app, IH. simpl. lia. Qed.

Lemma zlen_be n v : zlen (be_bytes n v) = Z.of_nat n.
Proof. unfold zlen. by rewrite length_be. Qed.

Lemma be_snoc b x : be (b ++ [x]) = be b * 256 + x.
Proof. unfold be. by rewrite fold_left_app. Qed.

Lemma be_be_bytes n v : 0 <= v < 256 ^ Z.of_nat n -> be (be_bytes n v) = v.
Proof.
  revert v. induction n as [|n IH]; intros v Hv; [change (256 ^ Z.of_nat 0) with 1 in Hv; cbn; lia|].
  cbn [be_bytes]. rewrite Nat2Z.inj_succ, Z.pow_succ_r in Hv by lia.
  rewrite be_snoc, IH by (split; [apply Z.div_pos; lia|apply Z.div_lt_upper_bound; lia]).
  pose proof (Z.div_mod v 256). lia.
Qed.

Lemma be_u16 v : in_u16 v -> be (be_bytes 2 v) = v.
Proof. intros. by apply be_be_bytes. Qed.
Lemma be_u32 v : in_u32 v -> be (be_bytes 4 v) = v.
Proof. intros. by apply be_be_bytes. Qed.
Lemma be_u64 v : in_u64 v -> be (be_bytes 8 v) = v.
Proof. intros. by apply be_be_bytes. Qed.

Lemma be_range b : is_bytes b -> 0 <= be b < 256 ^ zlen b.
Proof.
  induction b as [|x b IH] using rev_ind; intros Hb; [done|].
  apply Forall_app in Hb as [Hb Hx]. apply Forall_inv in Hx. rewrite be_snoc, zlen_app. change (zlen [x]) with 1.
  specialize (IH Hb). unfold in_u8 in Hx. rewrite Z.pow_add_r by (apply zlen_nonneg || lia). change (256 ^ 1) with 256. lia.
Qed.

Lemma be_bytes_be b : is_bytes b -> be_bytes (length b) (be b) = b.
Proof.
  induction b as [|x b IH] using rev_ind; intros Hb; [done|].
  apply Forall_app in Hb as [Hb Hx]. apply Forall_inv in Hx. unfold in_u8 in Hx.
  rewrite length_app, Nat.add_1_r, be_snoc. cbn [be_bytes].
  rewrite Z.div_add_l, (Z.div_small x 256), Z.add_0_r, IH by (lia || done). f_equal.
  rewrite Z.add_comm, Z.mod_add, Z.mod_small by lia. done.
Qed.

Lemma be_bytes_typed n v : is_bytes (be_bytes n v).
Proof.
  revert v. induction n as [|n IH]; intros v; [constructor|]. cbn. apply Forall_app. split; [apply IH|].
  repeat constructor; pose proof (Z.mod_pos_bound v 256); lia.
Qed.

Section reads.
Context {E : Type}.
Implicit Types b : bytes.

Lemma slc_app_l A t i j : j <= zlen A -> slc (E:=E) (A ++ t) i j = slc A i j.
Proof.
  intros Hj. unfold slc. rewrite zlen_app. pose proof (zlen_nonneg t).
  destruct (Z.leb_spec 0 i); [|done]. destruct (Z.leb_spec i j); [|done]. cbn [andb].
  rewrite !(proj2 (Z.leb_le _ _)) by lia. by rewrite take_app_le by (unfold zlen in *; lia).
Qed.

Lemma slc_app_r A t i j : zlen A <= i -> slc (E:=E) (A ++ t) i j = slc t (i - zlen A) (j - zlen A).
Proof.
  intros Hi. unfold slc. rewrite zlen_app. pose proof (zlen_nonneg A).
  destruct (Z.leb_spec 0 i); [|lia]. destruct (Z.leb_spec 0 (i - zlen A)); [|lia]. cbn [andb].
  destruct (Z.leb_spec i j); destruct (Z.leb_spec (i - zlen A) (j - zlen A)); try lia; [|done]. cbn [andb].
  destruct (Z.leb_spec j (zlen A + zlen t)); destruct (Z.leb_spec (j - zlen A) (zlen t)); try lia; [|done].
  f_equal. unfold zlen in *. rewrite take_app_ge, drop_app_ge by (rewrite ?length_take; lia).
  f_equal; [lia|]. f_equal. lia.
Qed.

Lemma slc_all b : slc (E:=E) b 0 (zlen b) = Ok b.
Proof.
  unfold slc. pose proof (zlen_nonneg b). rewrite !(proj2 (Z.leb_le _ _)) by lia. cbn [andb].
  unfold zlen. rewrite Nat2Z.id, take_ge by lia. done.
Qed.

Lemma slc_here xs t n : n = zlen xs -> slc (E:=E) (xs ++ t) 0 n = Ok xs.
Proof. intros ->. rewrite slc_app_l by lia. apply slc_all. Qed.

(** A read of a chunk at a known offset. *)
Lemma slc_chunk A xs B i j : i = zlen A -> j = i + zlen xs -> slc (E:=E) (A ++ xs ++ B) i j = Ok xs.
Proof. intros -> ->. rewrite slc_app_r by lia. rewrite Z.sub_diag. apply slc_here. lia. Qed.

(** A slice expression within bounds does not panic. *)
Lemma slc_ok b i j : 0 <= i <= j -> j <= zlen b ->
  exists x, slc (E:=E) b i j = Ok x /\ zlen x = j - i /\ (is_bytes b -> is_bytes x).
Proof.
  intros Hi Hj. unfold slc. rewrite !(proj2 (Z.leb_le _ _)) by lia. cbn [andb].
  eexists. split; [done|]. unfold zlen in *. rewrite length_drop, length_take. split; [lia|].
  intros Hb. by apply Forall_drop, Forall_take.
Qed.

Lemma slc_from_app A B i : i = zlen A -> slc_from (E:=E) (A ++ B) i = Ok B.
Proof.
  intros ->. unfold slc_from. rewrite slc_app_r by lia. rewrite Z.sub_diag, zlen_app.
  replace (zlen A + zlen B - zlen A) with (zlen B) by lia. apply slc_all.
Qed.

Lemma slc_from_ok b i : 0 <= i <= zlen b ->
  exists x, slc_from (E:=E) b i = Ok x /\ zlen x = zlen b - i /\ (is_bytes b -> is_bytes x).
Proof. intros. by apply slc_ok. Qed.

Lemma idx_ok b i : 0 <= i < zlen b -> exists x, idx (E:=E) b i = Ok x /\ (is_bytes b -> in_u8 x).
Proof.
  intros Hi. unfold idx. destruct (Z.ltb_spec i 0); [lia|].
  destruct (b !! Z.to_nat i) as [x|] eqn:Hx.
  - exists x. split; [done|]. intros Hb. by eapply Forall_lookup_1 in Hx.
  - apply lookup_ge_None in Hx. unfold zlen in Hi. lia.
Qed.

Lemma idx_app A x t i : i = zlen A -> idx (E:=E) (A ++ x :: t) i = Ok x.
Proof.
  intros ->. unfold idx, zlen. destruct (Z.ltb_spec (Z.of_nat (length A)) 0); [lia|].
  rewrite Nat2Z.id, lookup_app_r, Nat.sub_diag by lia. done.
Qed.

Lemma Uint16_app xs t : zlen xs = 2 -> Uint16 (E:=E) (xs ++ t) = Ok (be xs).
Proof. intros H. unfold Uint16. by rewrite slc_here. Qed.
Lemma Uint32_app xs t : zlen xs = 4 -> Uint32 (E:=E) (xs ++ t) = Ok (be xs).
Proof. intros H. unfold Uint32. by rewrite slc_here. Qed.
Lemma Uint16_all xs : zlen xs = 2 -> Uint16 (E:=E) xs = Ok (be xs).
Proof. intros H. unfold Uint16. by rewrite <-H, slc_all. Qed.
Lemma Uint32_all xs : zlen xs = 4 -> Uint32 (E:=E) xs = Ok (be xs).
Proof. intros H. unfold Uint32. by rewrite <-H, slc_all. Qed.
Lemma Uint64_all xs : zlen xs = 8 -> Uint64 (E:=E) xs = Ok (be xs).
Proof. intros H. unfold Uint64. by rewrite <-H, slc_all. Qed.

(** Writing the next bytes of a buffer whose front [P] is done. *)
Lemma put_next P t off xs :
  off = zlen P -> zlen xs <= zlen t -> put (E:=E) (P ++ t) off xs = Ok ((P ++ xs) ++ drop (length xs) t).
Proof.
  intros -> Hx. unfold put. rewrite zlen_app. pose proof (zlen_nonneg P). rewrite !(proj2 (Z.leb_le _ _)) by lia. cbn [andb].
  unfold zlen. rewrite Nat2Z.id, take_app_length, drop_app_ge by lia.
  rewrite <-app_assoc. do 3 f_equal. f_equal. lia.
Qed.

Lemma copy_next P t off xs :
  off = zlen P -> zlen xs <= zlen t -> copy_at (E:=E) (P ++ t) off xs = Ok (zlen xs, (P ++ xs) ++ drop (length xs) t).
Proof.
  intros -> Hx. unfold copy_at. rewrite zlen_app. pose proof (zlen_nonneg P). pose proof (zlen_nonneg t).
  rewrite !(proj2 (Z.leb_le _ _)) by lia. cbn [andb].
  rewrite take_ge by (rewrite length_app; unfold zlen in *; lia). by rewrite put_next.
Qed.

Lemma wr_next P t off xs :
  off = zlen P -> zlen xs <= zlen t -> wr (E:=E) off xs (P ++ t) = (Ok tt, (P ++ xs) ++ drop (length xs) t).
Proof. intros. unfold wr. by rewrite put_next. Qed.

Lemma wr_copy_next P t off xs :
  off = zlen P -> zlen xs <= zlen t -> wr_copy (E:=E) off xs (P ++ t) = (Ok (zlen xs), (P ++ xs) ++ drop (length xs) t).
Proof. intros. unfold wr_copy. by rewrite copy_next. Qed.

Lemma zero_from_next P t : zero_from (P ++ t) (zlen P) = P ++ replicate (length t) 0.
Proof.
  unfold zero_from, zlen. rewrite Nat2Z.id, take_app_length, length_app. do 2 f_equal. lia.
Qed.
End reads.

Lemma zlen_drop {A} n (l : list A) : zlen (drop n l) = Z.max 0 (zlen l - Z.of_nat n).
Proof. unfold zlen. rewrite length_drop. lia. Qed.

Lemma zlen_replicate {A} n (x : A) : zlen (replicate n x) = Z.of_nat n.
Proof. unfold zlen. by rewrite length_replicate. Qed.

(** Lengths of the byte strings the codecs build. *)
Ltac zlens :=
  cbn [length]; repeat first [rewrite zlen_drop|rewrite zlen_app|rewrite zlen_be|rewrite zlen_cons|rewrite zlen_replicate|rewrite length_be|rewrite length_app|rewrite length_replicate];
  change (zlen (@nil Z)) with 0; cbn [length];
  repeat match goal with |- context [Z.of_nat (length ?l)] => change (Z.of_nat (length l)) with (zlen l) end.

(** The next write of a chain that fills a buffer front to back. *)
Ltac put_step := rewrite put_next by (zlens; lia); cbn [mbind res_bind].

(** A buffer written to its end. *)
Lemma app_full (P t : bytes) : zlen t = 0 -> P ++ t = P.
Proof. intros H. destruct t; [by rewrite app_nil_r|]. rewrite zlen_cons in H. pose proof (zlen_nonneg t). lia. Qed.

Ltac put_done := rewrite put_next by (zlens; lia); f_equal; rewrite app_full by (zlens; lia); by rewrite <-?app_assoc.

(** ** Sequencing *)

Lemma sbind_ok {S E A B} (m : sres S E A) (k : A -> sres S E B) s s' a : m s = (Ok a, s') -> (m ≫= k) s = k a s'.
Proof. intros H. unfold mbind, sres_bind. by rewrite H. Qed.

Lemma sbind_lift {S E A B} (r : res E A) (k : A -> sres S E B) s a : r = Ok a -> (lift r ≫= k) s = k a s.
Proof. by intros ->. Qed.

(** One more write of a chain that fills the buffer of the state front to back. *)
Ltac wr_step := erewrite sbind_ok by (apply wr_next; zlens; lia).

(** ** Reading a layout back *)

(** The bytes [c] lie at offset [i] of [b]. *)
Definition At (b : bytes) (i : Z) (c : bytes) : Prop := exists A B, b = A ++ c ++ B /\ zlen A = i.

Lemma at_here c B i : i = 0 -> At (c ++ B) i c.
Proof. intros ->. by exists [], B. Qed.

Lemma at_end c i : i = 0 -> At c i c.
Proof. intros ->. exists [], []. by rewrite app_nil_r. Qed.

Lemma at_skip A B i c : At B (i - zlen A) c -> At (A ++ B) i c.
Proof. intros (A' & B' & -> & H). exists (A ++ A'), B'. rewrite <-app_assoc. split; [done|]. rewrite zlen_app. lia. Qed.

Lemma at_split b i c d : At b i (c ++ d) -> At b i c /\ At b (i + zlen c) d.
Proof.
  intros (A & B & -> & <-). split; [exists A, (d ++ B); by rewrite <-app_assoc|].
  exists (A ++ c), B. rewrite <-!app_assoc, zlen_app. done.
Qed.

Lemma at_join b i c d : At b i c -> At b (i + zlen c) d -> At b i (c ++ d).
Proof.
  intros (A & B & -> & <-) (A2 & B2 & E & H). exists A, B2. split; [|done].
  assert (E2 : (A ++ c) ++ B = A2 ++ d ++ B2) by (by rewrite <-app_assoc).
  apply app_inj_1 in E2 as [<- ->]; [by rewrite <-!app_assoc|]. rewrite <-zlen_app in H. unfold zlen in H. lia.
Qed.

(** Find a chunk in a concatenation of chunks of known lengths. *)
Ltac at_solve :=
  lazymatch goal with
  | |- At (?A ++ ?B) ?i ?c =>
      tryif (assert_succeeds (assert (i = 0) by (zlens; lia)))
      then (apply at_here; zlens; lia) else (apply at_skip; at_solve)
  | |- At _ _ _ => apply at_end; zlens; lia
  end.

Section layout.
Context {E : Type}.

Lemma at_slc b i c j : At b i c -> j = i + zlen c -> slc (E:=E) b i j = Ok c.
Proof. intros (A & B & -> & <-) ->. by apply slc_chunk. Qed.

(** A slice expression within bounds, and what it reads. *)
Lemma slc_at b i j : 0 <= i <= j -> j <= zlen b -> exists c, slc (E:=E) b i j = Ok c /\ At b i c /\ zlen c = j - i.
Proof.
  intros Hi Hj. exists (drop (Z.to_nat i) (take (Z.to_nat j) b)). unfold slc. rewrite !(proj2 (Z.leb_le _ _)) by lia.
  split; [done|]. unfold zlen in *. rewrite length_drop, length_take. split; [|lia].
  exists (take (Z.to_nat i) b), (drop (Z.to_nat j) b). unfold zlen. rewrite length_take. split; [|lia].
  rewrite app_assoc. transitivity (take (Z.to_nat j) b ++ drop (Z.to_nat j) b); [by rewrite take_drop|]. f_equal.
  rewrite <-(take_drop (Z.to_nat i) (take (Z.to_nat j) b)) at 1. by rewrite take_take, Nat.min_l by lia.
Qed.

Lemma at_idx b i x : At b i [x] -> idx (E:=E) b i = Ok x.
Proof. intros (A & B & -> & <-). by apply idx_app. Qed.

Lemma at_u16 b i x j : At b i (be_bytes 2 x) -> in_u16 x -> j = i + 2 -> (t ← slc b i j; Uint16 t) = Ok (E:=E) x.
Proof.
  intros H Hx Hj. rewrite (at_slc _ _ _ _ H) by (by rewrite zlen_be). cbn [mbind res_bind].
  by rewrite Uint16_all, be_u16 by (by rewrite ?zlen_be).
Qed.

Lemma at_u32 b i x j : At b i (be_bytes 4 x) -> in_u32 x -> j = i + 4 -> (t ← slc b i j; Uint32 t) = Ok (E:=E) x.
Proof.
  intros H Hx Hj. rewrite (at_slc _ _ _ _ H) by (by rewrite zlen_be). cbn [mbind res_bind].
  by rewrite Uint32_all, be_u32 by (by rewrite ?zlen_be).
Qed.

Lemma at_u64 b i x j : At b i (be_bytes 8 x) -> in_u64 x -> j = i + 8 -> (t ← slc b i j; Uint64 t) = Ok (E:=E) x.
Proof.
  intros H Hx Hj. rewrite (at_slc _ _ _ _ H) by (by rewrite zlen_be). cbn [mbind res_bind].
  by rewrite Uint64_all, be_u64 by (by rewrite ?zlen_be).
Qed.

Lemma at_u16_from b i x : At b i (be_bytes 2 x) -> in_u16 x -> (t ← slc_from b i; Uint16 t) = Ok (E:=E) x.
Proof.
  intros (A & B & -> & <-) Hx. rewrite slc_from_app by done. cbn [mbind res_bind].
  by rewrite Uint16_app, be_u16 by (by rewrite ?zlen_be).
Qed.

Lemma at_u32_from b i x : At b i (be_bytes 4 x) -> in_u32 x -> (t ← slc_from b i; Uint32 t) = Ok (E:=E) x.
Proof.
  intros (A & B & -> & <-) Hx. rewrite slc_from_app by done. cbn [mbind res_bind].
  by rewrite Uint32_app, be_u32 by (by rewrite ?zlen_be).
Qed.
End layout.

(** Byte strings cut into chunks. *)
Lemma bytes_cut b n : is_bytes b -> Z.of_nat n <= zlen b -> exists c r, b = c ++ r /\ length c = n /\ is_bytes c /\ is_bytes r.
Proof.
  intros Hb Hn. exists (take n b), (drop n b). rewrite take_drop, length_take. unfold zlen in Hn.
  split_and!; [done|lia|by apply Forall_take|by apply Forall_drop].
Qed.

Lemma bytes_int n b :
  is_bytes b -> Z.of_nat n <= zlen b -> exists v r, b = be_bytes n v ++ r /\ 0 <= v < 256 ^ Z.of_nat n /\ is_bytes r.
Proof.
  intros Hb Hn. destruct (bytes_cut b n Hb Hn) as (c & r & -> & <- & Hc & Hr). exists (be c), r.
  rewrite be_bytes_be by done. split_and!; try done; pose proof (be_range c Hc); unfold zlen in *; lia.
Qed.

Lemma bytes_byte b : is_bytes b -> 1 <= zlen b -> exists x r, b = [x] ++ r /\ in_u8 x /\ is_bytes r.
Proof. destruct b as [|x r]; [done|]. intros Hb _. inversion Hb; subst. by exists x, r. Qed.

(** A property of a byte checked on all 256 of them. *)
Lemma byte_cases (P : Z -> bool) x : forallb P (seqZ 0 256) = true -> in_u8 x -> P x = true.
Proof. intros HP Hx. rewrite forallb_forall in HP. apply HP, list_elem_of_In, elem_of_seqZ. unfold in_u8 in Hx. lia. Qed.

(** Reads within bounds of arbitrary bytes. *)
Section total_reads.
Context {E : Type}.

Lemma rd_u16 b i j : is_bytes b -> 0 <= i -> j = i + 2 -> j <= zlen b -> exists v, (t ← slc b i j; Uint16 t) = Ok (E:=E) v /\ in_u16 v.
Proof.
  intros Hb Hi -> Hj. destruct (slc_ok (E:=E) b i (i + 2)) as (x & -> & Hx & Hbx); [lia|lia|]. cbn [mbind res_bind].
  rewrite Uint16_all by lia. eexists. split; [done|]. pose proof (be_range x (Hbx Hb)) as Hr. replace (zlen x) with 2 in Hr by lia. exact Hr.
Qed.

Lemma rd_u32 b i j : is_bytes b -> 0 <= i -> j = i + 4 -> j <= zlen b -> exists v, (t ← slc b i j; Uint32 t) = Ok (E:=E) v /\ in_u32 v.
Proof.
  intros Hb Hi -> Hj. destruct (slc_ok (E:=E) b i (i + 4)) as (x & -> & Hx & Hbx); [lia|lia|]. cbn [mbind res_bind].
  rewrite Uint32_all by lia. eexists. split; [done|]. pose proof (be_range x (Hbx Hb)) as Hr. replace (zlen x) with 4 in Hr by lia. exact Hr.
Qed.

Lemma rd_byte b i : is_bytes b -> 0 <= i < zlen b -> exists v, idx b i = Ok (E:=E) v /\ in_u8 v.
Proof. intros Hb Hi. destruct (idx_ok (E:=E) b i Hi) as (v & E1 & Hv). exists v. split; [done|by apply Hv]. Qed.
End total_reads.
