(* ===== verification/Rtp.v ===== *)
(** * RTP packets: internal/rtp (rtp.go, ssrc.go)

    The codec of every media packet of the Simple and Main profiles.  Decoding works on arbitrary bytes and is shown
    never to panic; encoding then decoding gives the packet back; re-encoding a decoded packet gives the datagram back
    up to the padding filler; and growing a reused buffer never leaks its stale bytes. *)

From S2P Require Import Prelude Bytes.

(** ** Constants and data *)

Inductive rtpError :=
  | ErrHeaderTooShort | ErrExtensionTooShort | ErrPacketTooShort | ErrInvalidPadding | ErrShortBuffer
  | ErrInvalidVersion | ErrTooManyCSRC | ErrExtensionNotAligned | ErrExtensionTooLong.

Definition FixedHeaderSize : Z := 12.
Definition MaxCSRC : Z := 15.
Definition ExtensionProfileRIST : Z := 0x5249.
Definition PayloadTypeMPEGTS : Z := 0x21.

Definition versionShift : Z := 6.
Definition versionMask : Z := 3.
Definition paddingShift : Z := 5.
Definition extensionShift : Z := 4.
Definition ccMask : Z := 15.
Definition markerShift : Z := 7.
Definition ptMask : Z := 127.
Definition csrcOffset : Z := 12.
Definition csrcLength : Z := 4.
Definition extHeaderSize : Z := 4.

Record Header := mkHeader {
  Version : Z; Padding : bool; Extension : bool; CSRCCount : Z; Marker : bool; PayloadType : Z;
  SequenceNumber : Z; RTPTimestamp : Z; RTPSSRC : Z; CSRC : list Z;
  ExtensionProfile : Z; ExtensionPayload : bytes }.

#[export] Instance eta_Header : Eta Header := fun h =>
  mkHeader (Version h) (Padding h) (Extension h) (CSRCCount h) (Marker h) (PayloadType h)
    (SequenceNumber h) (RTPTimestamp h) (RTPSSRC h) (CSRC h) (ExtensionProfile h) (ExtensionPayload h).

Record Packet := mkPacket { p_Header : Header; p_Payload : bytes; PaddingSize : Z }.

#[export] Instance eta_Packet : Eta Packet := fun p => mkPacket (p_Header p) (p_Payload p) (PaddingSize p).

(** ** Decoding *)

(** The loop over the CSRC list. *)
Fixpoint read_csrc (buf : bytes) (off : Z) (n : nat) : res rtpError (list Z) :=
  match n with
  | O => Ok []
  | S n => t ← slc_from buf off; x ← Uint32 t; xs ← read_csrc buf (off + csrcLength) n; Ok (x :: xs)
  end.

(** The header extension, from offset [n] on. *)
Definition unmarshal_ext (buf : bytes) (n : Z) : sres Header rtpError Z :=
  if zlen buf <? n + extHeaderSize then fail ErrExtensionTooShort else
  profile ← lift (t ← slc_from buf n; Uint16 t);
  modify (fun h => h <| ExtensionProfile := profile |>);;
  words ← lift (t ← slc_from buf (n + 2); Uint16 t);
  let extLen := words * 4 in
  let n := n + extHeaderSize in
  if zlen buf <? n + extLen then fail ErrExtensionTooShort else
  payload ← lift (slc buf n (n + extLen));
  modify (fun h => h <| ExtensionPayload := payload |>);;
  mret (n + extLen).

(** What follows the fixed header. *)
Definition unmarshal_rest (buf : bytes) (nCSRC : Z) (ext : bool) : sres Header rtpError Z :=
  let n := csrcOffset + nCSRC * csrcLength in
  if zlen buf <? n then fail ErrHeaderTooShort else
  csrc ← lift (read_csrc buf csrcOffset (Z.to_nat nCSRC));
  modify (fun h => h <| CSRC := csrc |> <| ExtensionProfile := 0 |> <| ExtensionPayload := [] |>);;
  if ext then unmarshal_ext buf n else mret n.

Definition set_fixed (b0 b1 seqn ts ssrc : Z) (h : Header) : Header :=
  h <| Version := Z.land (Z.shiftr b0 versionShift) versionMask |>
    <| Padding := negb (Z.land (Z.shiftr b0 paddingShift) 1 =? 0) |>
    <| Extension := negb (Z.land (Z.shiftr b0 extensionShift) 1 =? 0) |>
    <| CSRCCount := Z.land b0 ccMask |>
    <| Marker := negb (Z.shiftr b1 markerShift =? 0) |>
    <| PayloadType := Z.land b1 ptMask |>
    <| SequenceNumber := seqn |> <| RTPTimestamp := ts |> <| RTPSSRC := ssrc |>.

Definition header_Unmarshal (buf : bytes) : sres Header rtpError Z :=
  if zlen buf <? FixedHeaderSize then fail ErrHeaderTooShort else
  b0 ← lift (idx buf 0);
  b1 ← lift (idx buf 1);
  seqn ← lift (t ← slc buf 2 4; Uint16 t);
  ts ← lift (t ← slc buf 4 8; Uint32 t);
  ssrc ← lift (t ← slc buf 8 12; Uint32 t);
  modify (set_fixed b0 b1 seqn ts ssrc);;
  unmarshal_rest buf (Z.land b0 ccMask) (negb (Z.land (Z.shiftr b0 extensionShift) 1 =? 0)).

(** Run a header method on the header embedded in a packet. *)
Definition on_header {A} (m : sres Header rtpError A) : sres Packet rtpError A := fun p =>
  let '(r, h) := m (p_Header p) in (r, p <| p_Header := h |>).

Definition padded : sres Packet rtpError bool := fun p => (Ok (Padding (p_Header p)), p).

Definition packet_Unmarshal (buf : bytes) : sres Packet rtpError unit :=
  n ← on_header (header_Unmarshal buf);
  let end_ := zlen buf in
  pad ← padded;
  end_ ← (if (pad : bool) then
      if end_ <=? n then fail ErrPacketTooShort else
      pad ← lift (idx buf (end_ - 1));
      if pad =? 0 then fail ErrInvalidPadding else
      if end_ - n <? pad then fail ErrInvalidPadding else
      modify (fun p => p <| PaddingSize := pad |>);; mret (end_ - pad)
    else modify (fun p => p <| PaddingSize := 0 |>);; mret end_);
  payload ← lift (slc buf n end_);
  modify (fun p => p <| p_Payload := payload |>).

(** ** Encoding *)

Definition header_MarshalSize (h : Header) : Z :=
  let size := FixedHeaderSize + zlen (CSRC h) * csrcLength in
  if Extension h then size + (extHeaderSize + zlen (ExtensionPayload h)) else size.

Definition first_octet (h : Header) : Z :=
  let b := Z.lor (u8 (Z.shiftl (Version h) versionShift)) (u8 (zlen (CSRC h))) in
  let b := if Padding h then Z.lor b (Z.shiftl 1 paddingShift) else b in
  if Extension h then Z.lor b (Z.shiftl 1 extensionShift) else b.

Definition second_octet (h : Header) : Z :=
  let b := Z.land (PayloadType h) ptMask in
  if Marker h then Z.lor b (Z.shiftl 1 markerShift) else b.

Fixpoint write_csrc (n : Z) (csrcs : list Z) : sres bytes rtpError Z :=
  match csrcs with
  | [] => mret n
  | csrc :: csrcs => wr n (be_bytes 4 csrc);; write_csrc (n + csrcLength) csrcs
  end.

(** The checks that precede any write. *)
Definition header_check (h : Header) : option rtpError :=
  if versionMask <? Version h then Some ErrInvalidVersion else
  if MaxCSRC <? zlen (CSRC h) then Some ErrTooManyCSRC else
  if Extension h && negb (zlen (ExtensionPayload h) %g 4 =? 0) then Some ErrExtensionNotAligned else
  if Extension h && (65535 <? zlen (ExtensionPayload h) /g 4) then Some ErrExtensionTooLong else None.

Definition header_MarshalTo (h : Header) : sres bytes rtpError Z :=
  match header_check h with
  | Some e => fail e
  | None =>
      len ← buflen;
      if len <? header_MarshalSize h then fail ErrShortBuffer else
      wr 0 [first_octet h];;
      wr 1 [second_octet h];;
      wr 2 (be_bytes 2 (SequenceNumber h));;
      wr 4 (be_bytes 4 (RTPTimestamp h));;
      wr 8 (be_bytes 4 (RTPSSRC h));;
      n ← write_csrc csrcOffset (CSRC h);
      if Extension h then
        wr n (be_bytes 2 (ExtensionProfile h));;
        wr (n + 2) (be_bytes 2 (u16 (zlen (ExtensionPayload h) /g 4)));;
        k ← wr_copy (n + extHeaderSize) (ExtensionPayload h);
        mret (n + extHeaderSize + k)
      else mret n
  end.

Definition packet_MarshalSize (p : Packet) : Z :=
  header_MarshalSize (p_Header p) + zlen (p_Payload p) + PaddingSize p.

Definition packet_MarshalTo (p : Packet) : sres bytes rtpError Z :=
  if negb (Bool.eqb (Padding (p_Header p)) (0 <? PaddingSize p)) then fail ErrInvalidPadding else
  n ← header_MarshalTo (p_Header p);
  len ← buflen;
  if len <? n + zlen (p_Payload p) + PaddingSize p then fail ErrShortBuffer else
  k ← wr_copy n (p_Payload p);
  let n := n + k in
  if 0 <? PaddingSize p then
    wr n (replicate (Z.to_nat (PaddingSize p - 1)) 0);;
    wr (n + PaddingSize p - 1) [PaddingSize p];;
    mret (n + PaddingSize p)
  else mret n.

(** The slice extended by [size] bytes: spare capacity as it is, or a fresh zeroed array. *)
Definition growSlice (s : slice) (size : Z) : slice :=
  if size <=? zlen (spare s)
  then mkSlice (data s ++ take (Z.to_nat size) (spare s)) (drop (Z.to_nat size) (spare s))
  else mkSlice (data s ++ replicate (Z.to_nat size) 0) [].

(** [AppendTo] of a header and of a packet: marshal into the bytes past the old length. *)
Definition append_with (size : Z) (m : sres bytes rtpError Z) (s : slice) : res rtpError unit * slice :=
  let n := length (data s) in
  let g := growSlice s size in
  match m (drop n (data g)) with
  | (Ok _, w) => (Ok tt, mkSlice (take n (data g) ++ w) (spare g))
  | (Err e, w) => (Err e, mkSlice (take n (data g)) (w ++ spare g))
  | (Panic, w) => (Panic, mkSlice (take n (data g) ++ w) (spare g))
  end.

Definition header_AppendTo (h : Header) : slice -> res rtpError unit * slice :=
  append_with (header_MarshalSize h) (header_MarshalTo h).
Definition packet_AppendTo (p : Packet) : slice -> res rtpError unit * slice :=
  append_with (packet_MarshalSize p) (packet_MarshalTo p).

(** ** ssrc.go *)

Definition NormalizeSSRC (ssrc : Z) : Z := Z.ldiff ssrc 1.
Definition MarkRetransmit (ssrc : Z) : Z := Z.lor ssrc 1.
Definition IsRetransmit (ssrc : Z) : bool := negb (Z.land ssrc 1 =? 0).

(** ** The encoding as a byte string *)

Definition enc_csrc (csrcs : list Z) : bytes := concat (be_bytes 4 <$> csrcs).
Definition enc_ext (h : Header) : bytes :=
  if Extension h then be_bytes 2 (ExtensionProfile h) ++ be_bytes 2 (zlen (ExtensionPayload h) / 4) ++ ExtensionPayload h else [].
Definition enc_header (h : Header) : bytes :=
  [first_octet h] ++ [second_octet h] ++ be_bytes 2 (SequenceNumber h) ++ be_bytes 4 (RTPTimestamp h) ++
  be_bytes 4 (RTPSSRC h) ++ enc_csrc (CSRC h) ++ enc_ext h.
Definition enc_pad (n : Z) : bytes := if 0 <? n then replicate (Z.to_nat (n - 1)) 0 ++ [n] else [].
Definition enc_packet (p : Packet) : bytes := enc_header (p_Header p) ++ p_Payload p ++ enc_pad (PaddingSize p).

(** The fields hold values of their Go types. *)
Record header_typed (h : Header) : Prop := {
  ht_version : in_u8 (Version h);
  ht_pt : in_u8 (PayloadType h);
  ht_seq : in_u16 (SequenceNumber h);
  ht_ts : in_u32 (RTPTimestamp h);
  ht_ssrc : in_u32 (RTPSSRC h);
  ht_csrc : Forall in_u32 (CSRC h);
  ht_profile : in_u16 (ExtensionProfile h);
  ht_ext : is_bytes (ExtensionPayload h) }.

(** What decoding makes of a header: the fields the wire does not carry are derived or cleared. *)
Definition norm_header (h : Header) : Header :=
  mkHeader (Version h) (Padding h) (Extension h) (zlen (CSRC h)) (Marker h) (Z.land (PayloadType h) ptMask)
    (SequenceNumber h) (RTPTimestamp h) (RTPSSRC h) (CSRC h)
    (if Extension h then ExtensionProfile h else 0) (if Extension h then ExtensionPayload h else []).

Lemma length_enc_csrc cs : length (enc_csrc cs) = (4 * length cs)%nat.
Proof. unfold enc_csrc. induction cs as [|c cs IH]; [done|]. cbn [fmap list_fmap concat]. rewrite length_app, IH, length_be. simpl. lia. Qed.

Lemma zlen_enc_csrc cs : zlen (enc_csrc cs) = 4 * zlen cs.
Proof. unfold zlen. rewrite length_enc_csrc. lia. Qed.

Lemma header_check_none h :
  header_check h = None ->
  Version h <= 3 /\ zlen (CSRC h) <= 15 /\
  (Extension h = true -> zlen (ExtensionPayload h) mod 4 = 0 /\ zlen (ExtensionPayload h) / 4 <= 65535).
Proof.
  unfold header_check, versionMask, MaxCSRC. pose proof (zlen_nonneg (ExtensionPayload h)).
  rewrite Z.rem_mod_nonneg, Z.quot_div_nonneg by lia.
  destruct (Z.ltb_spec 3 (Version h)); [done|]. destruct (Z.ltb_spec 15 (zlen (CSRC h))); [done|].
  destruct (Extension h); cbn [andb].
  - destruct (Z.eqb_spec (zlen (ExtensionPayload h) mod 4) 0); [|done]. cbn [negb].
    destruct (Z.ltb_spec 65535 (zlen (ExtensionPayload h) / 4)); [done|]. intros _. split_and!; [lia..|]. intros _. lia.
  - intros _. split_and!; [lia..|done].
Qed.

Lemma zlen_enc_header h : header_check h = None -> zlen (enc_header h) = header_MarshalSize h.
Proof.
  intros Hc. unfold enc_header, header_MarshalSize, enc_ext, FixedHeaderSize, csrcLength, extHeaderSize.
  rewrite !zlen_app, !zlen_be, zlen_enc_csrc. change (zlen [first_octet h]) with 1. change (zlen [second_octet h]) with 1.
  destruct (Extension h); [rewrite !zlen_app, !zlen_be|change (zlen (@nil Z)) with 0]; lia.
Qed.

Lemma write_csrc_spec cs n P t :
  n = zlen P -> 4 * zlen cs <= zlen t ->
  write_csrc n cs (P ++ t) = (Ok (n + 4 * zlen cs), (P ++ enc_csrc cs) ++ drop (length (enc_csrc cs)) t).
Proof.
  revert n P t. induction cs as [|c cs IH]; intros n P t Hn Ht; cbn [write_csrc].
  - unfold enc_csrc. simpl. rewrite app_nil_r. change (zlen (@nil Z)) with 0. by rewrite Z.mul_0_r, Z.add_0_r.
  - rewrite zlen_cons in *. pose proof (zlen_nonneg cs). wr_step. unfold csrcLength.
    rewrite IH by (zlens; lia). f_equal; [f_equal; lia|].
    change (enc_csrc (c :: cs)) with (be_bytes 4 c ++ enc_csrc cs). rewrite length_app, length_be, drop_drop, app_assoc. done.
Qed.

Lemma header_MarshalTo_spec h w :
  header_check h = None -> header_MarshalSize h <= zlen w ->
  header_MarshalTo h w = (Ok (header_MarshalSize h), enc_header h ++ drop (length (enc_header h)) w).
Proof.
  intros Hc Hw. pose proof (header_check_none h Hc) as (_ & Hn & Hx). pose proof (zlen_enc_header h Hc) as Hz.
  unfold header_MarshalTo. rewrite Hc. erewrite sbind_ok by done. destruct (Z.ltb_spec (zlen w) (header_MarshalSize h)); [lia|].
  assert (Hs : 12 + 4 * zlen (CSRC h) <= header_MarshalSize h).
  { unfold header_MarshalSize, FixedHeaderSize, csrcLength, extHeaderSize. pose proof (zlen_nonneg (ExtensionPayload h)). destruct (Extension h); lia. }
  pose proof (zlen_nonneg (CSRC h)).
  change w with ([] ++ w) at 1. do 5 wr_step. erewrite sbind_ok by (apply write_csrc_spec; [zlens; done|zlens; lia]).
  unfold enc_header, enc_ext, header_MarshalSize, FixedHeaderSize, csrcLength, csrcOffset, extHeaderSize in *.
  pose proof (zlen_nonneg (ExtensionPayload h)). pose proof (length_enc_csrc (CSRC h)). pose proof (zlen_enc_csrc (CSRC h)).
  destruct (Extension h).
  - assert (Hu : u16 (zlen (ExtensionPayload h) /g 4) = zlen (ExtensionPayload h) / 4).
    { rewrite Z.quot_div_nonneg by lia. apply (uwrap_id 16). split; [apply Z.div_pos; lia|]. specialize (Hx eq_refl). lia. }
    rewrite Hu. do 2 wr_step. erewrite sbind_ok by (apply wr_copy_next; zlens; lia). unfold mret, sres_ret.
    rewrite !drop_drop, !length_app, !length_be, <-!app_assoc. cbn [app length]. apply f_equal2; [f_equal; lia|].
    do 20 f_equal; lia.
  - unfold mret, sres_ret. rewrite !drop_drop, !length_app, !length_be, <-!app_assoc, ?app_nil_r. cbn [app length]. apply f_equal2; [f_equal; lia|].
    do 20 f_equal; lia.
Qed.

(** The first two octets carry the flag, count and type fields exactly. *)
Lemma first_octet_fields h :
  in_u8 (Version h) -> Version h <= 3 -> zlen (CSRC h) <= 15 ->
  in_u8 (first_octet h) /\
  Z.land (Z.shiftr (first_octet h) 6) 3 = Version h /\
  negb (Z.land (Z.shiftr (first_octet h) 5) 1 =? 0) = Padding h /\
  negb (Z.land (Z.shiftr (first_octet h) 4) 1 =? 0) = Extension h /\
  Z.land (first_octet h) 15 = zlen (CSRC h).
Proof.
  intros Hv Hv3 Hc. pose proof (zlen_nonneg (CSRC h)) as Hc0. unfold first_octet, versionShift, paddingShift, extensionShift.
  generalize dependent (zlen (CSRC h)). generalize dependent (Version h). unfold in_u8. intros v Hv Hv3 n Hn Hn0.
  assert (Hin : In v [0; 1; 2; 3]) by (assert (v = 0 \/ v = 1 \/ v = 2 \/ v = 3) as [->|[->|[->| ->]]] by lia; simpl; tauto).
  assert (Hnn : exists k : nat, n = Z.of_nat k /\ (k < 16)%nat) by (exists (Z.to_nat n); lia). destruct Hnn as (k & -> & Hk).
  destruct Hin as [<-|[<-|[<-|[<-|[]]]]]; destruct (Padding h), (Extension h);
    do 16 (destruct k as [|k]; [vm_compute; intuition congruence|]); lia.
Qed.

Lemma second_octet_fields h :
  in_u8 (PayloadType h) ->
  in_u8 (second_octet h) /\ negb (Z.shiftr (second_octet h) 7 =? 0) = Marker h /\
  Z.land (second_octet h) 127 = Z.land (PayloadType h) 127.
Proof.
  intros Hp. unfold second_octet, ptMask, markerShift.
  change 127 with (Z.ones 7). rewrite !Z.land_ones by lia. change (2 ^ 7) with 128.
  pose proof (Z.mod_pos_bound (PayloadType h) 128). set (m := PayloadType h mod 128) in *.
  destruct (Marker h).
  - rewrite Z.lor_comm, (lor_shiftl_add 1 m 7) by lia. unfold in_u8. split; [lia|]. split.
    + rewrite Z.shiftr_div_pow2 by lia. replace (1 * 2 ^ 7 + m) with (m + 1 * 2 ^ 7) by lia. rewrite Z.div_add, Z.div_small by lia. done.
    + replace (1 * 2 ^ 7 + m) with (m + 1 * 128) by lia. rewrite Z.mod_add by lia. rewrite Z.mod_small; lia.
  - unfold in_u8. split; [lia|]. rewrite Z.shiftr_div_pow2, Z.div_small by lia. split; [done|]. rewrite Z.mod_small; lia.
Qed.

Lemma read_csrc_spec cs b off : At b off (enc_csrc cs) -> Forall in_u32 cs -> read_csrc b off (length cs) = Ok cs.
Proof.
  intros Ha Hcs. revert off Ha. induction Hcs as [|c cs Hc Hcs IH]; intros off Ha; [done|].
  change (enc_csrc (c :: cs)) with (be_bytes 4 c ++ enc_csrc cs) in Ha. apply at_split in Ha as [H1 H2]. rewrite zlen_be in H2.
  destruct H1 as (A & B & -> & <-). cbn [read_csrc length].
  rewrite slc_from_app by done. cbn [mbind res_bind]. rewrite Uint32_app by (by rewrite zlen_be). cbn [mbind res_bind].
  change csrcLength with (Z.of_nat 4). rewrite (IH _ H2). cbn [mbind res_bind]. by rewrite be_u32.
Qed.

Lemma enc_ext_on h :
  Extension h = true -> enc_ext h = be_bytes 2 (ExtensionProfile h) ++ be_bytes 2 (zlen (ExtensionPayload h) / 4) ++ ExtensionPayload h.
Proof. unfold enc_ext. by intros ->. Qed.

(** The three parts of decoding, each on the bytes it reads. *)
Lemma header_Unmarshal_fixed x0 x1 s t ss r h0 :
  in_u16 s -> in_u32 t -> in_u32 ss ->
  header_Unmarshal ([x0] ++ [x1] ++ be_bytes 2 s ++ be_bytes 4 t ++ be_bytes 4 ss ++ r) h0 =
  unmarshal_rest ([x0] ++ [x1] ++ be_bytes 2 s ++ be_bytes 4 t ++ be_bytes 4 ss ++ r) (Z.land x0 15)
    (negb (Z.land (Z.shiftr x0 4) 1 =? 0)) (set_fixed x0 x1 s t ss h0).
Proof.
  intros Hs Ht Hss. set (buf := [x0] ++ _). unfold header_Unmarshal, FixedHeaderSize.
  assert (Hl : zlen buf = 12 + zlen r) by (subst buf; zlens; lia). pose proof (zlen_nonneg r).
  rewrite Hl. destruct (Z.ltb_spec (12 + zlen r) 12); [lia|].
  rewrite (sbind_lift _ _ _ x0) by (apply at_idx; subst buf; at_solve).
  rewrite (sbind_lift _ _ _ x1) by (apply at_idx; subst buf; at_solve).
  rewrite (sbind_lift _ _ _ s) by (apply at_u16; [subst buf; at_solve|done..]).
  rewrite (sbind_lift _ _ _ t) by (apply at_u32; [subst buf; at_solve|done..]).
  by rewrite (sbind_lift _ _ _ ss) by (apply at_u32; [subst buf; at_solve|done..]).
Qed.

Lemma unmarshal_rest_csrc buf cs ext h0 :
  At buf 12 (enc_csrc cs) -> Forall in_u32 cs -> 12 + 4 * zlen cs <= zlen buf ->
  unmarshal_rest buf (zlen cs) ext h0 =
  (if ext then unmarshal_ext buf (12 + 4 * zlen cs) else mret (12 + 4 * zlen cs))
    (h0 <| CSRC := cs |> <| ExtensionProfile := 0 |> <| ExtensionPayload := [] |>).
Proof.
  intros Ha Hcs Hl. unfold unmarshal_rest, csrcOffset, csrcLength. rewrite (Z.mul_comm (zlen cs)).
  destruct (Z.ltb_spec (zlen buf) (12 + 4 * zlen cs)); [lia|].
  rewrite (sbind_lift _ _ _ cs) by (unfold zlen; rewrite Nat2Z.id; by apply read_csrc_spec).
  erewrite sbind_ok by done. done.
Qed.

Lemma unmarshal_ext_head buf n prof words h0 :
  At buf n (be_bytes 2 prof ++ be_bytes 2 words) -> in_u16 prof -> in_u16 words -> n + 4 <= zlen buf ->
  (forall e, At buf (n + 4) e -> zlen e = words * 4 ->
    unmarshal_ext buf n h0 = (Ok (n + 4 + words * 4), h0 <| ExtensionProfile := prof |> <| ExtensionPayload := e |>)) /\
  (zlen buf < n + 4 + words * 4 -> unmarshal_ext buf n h0 = (Err ErrExtensionTooShort, h0 <| ExtensionProfile := prof |>)).
Proof.
  intros [H1 H2]%at_split Hp Hw Hl. rewrite zlen_be in H2. change (Z.of_nat 2) with 2 in H2.
  assert (Hn : 0 <= n) by (destruct H1 as (A & _ & _ & <-); apply zlen_nonneg).
  unfold unmarshal_ext, extHeaderSize. destruct (Z.ltb_spec (zlen buf) (n + 4)); [lia|].
  rewrite (sbind_lift _ _ _ prof) by (by apply at_u16_from). erewrite sbind_ok by done.
  rewrite (sbind_lift _ _ _ words) by (by apply at_u16_from). unfold in_u16 in Hw.
  split.
  - intros e He Hz. assert (n + 4 + zlen e <= zlen buf).
    { destruct He as (A & B & -> & HA). pose proof (zlen_nonneg B). zlens. lia. }
    destruct (Z.ltb_spec (zlen buf) (n + 4 + words * 4)); [lia|].
    rewrite (sbind_lift _ _ _ e) by (apply at_slc; [done|lia]). erewrite sbind_ok by done. done.
  - intros Hc. by destruct (Z.ltb_spec (zlen buf) (n + 4 + words * 4)); [|lia].
Qed.

Lemma words_csrc k c : is_bytes c -> length c = (4 * k)%nat -> exists cs, c = enc_csrc cs /\ length cs = k /\ Forall in_u32 cs.
Proof.
  revert c. induction k as [|k IH]; intros c Hc Hl.
  { exists []. split; [|done]. by destruct c. }
  destruct (bytes_int 4 c Hc) as (v & r & -> & Hv & Hr); [unfold zlen; lia|].
  destruct (IH r Hr) as (cs & -> & Hk & Hcs); [rewrite length_app, length_be in Hl; lia|].
  exists (v :: cs). split_and!; [done|by cbn; f_equal|by constructor].
Qed.

(** Rebuilding the flag octets from their fields. *)
Lemma first_octet_rebuild x h :
  in_u8 x -> Version h = Z.land (Z.shiftr x 6) 3 -> Padding h = negb (Z.land (Z.shiftr x 5) 1 =? 0) ->
  Extension h = negb (Z.land (Z.shiftr x 4) 1 =? 0) -> zlen (CSRC h) = Z.land x 15 -> first_octet h = x.
Proof.
  intros Hx H1 H2 H3 H4. unfold first_octet. rewrite H1, H2, H3, H4. apply Z.eqb_eq.
  refine (byte_cases (fun x => (let b := Z.lor (u8 (Z.shiftl (Z.land (Z.shiftr x 6) 3) versionShift)) (u8 (Z.land x 15)) in
    let b := if negb (Z.land (Z.shiftr x 5) 1 =? 0) then Z.lor b (Z.shiftl 1 paddingShift) else b in
    if negb (Z.land (Z.shiftr x 4) 1 =? 0) then Z.lor b (Z.shiftl 1 extensionShift) else b) =? x) x _ Hx).
  vm_compute. reflexivity.
Qed.

Lemma second_octet_rebuild x h :
  in_u8 x -> PayloadType h = Z.land x 127 -> Marker h = negb (Z.shiftr x 7 =? 0) -> second_octet h = x.
Proof.
  intros Hx H1 H2. unfold second_octet. rewrite H1, H2. apply Z.eqb_eq.
  refine (byte_cases (fun x => (let b := Z.land (Z.land x 127) ptMask in
    if negb (Z.shiftr x 7 =? 0) then Z.lor b (Z.shiftl 1 markerShift) else b) =? x) x _ Hx).
  vm_compute. reflexivity.
Qed.

(** The fields of an octet are in range. *)
Lemma octet_ranges x : in_u8 x ->
  in_u8 (Z.land (Z.shiftr x 6) 3) /\ Z.land (Z.shiftr x 6) 3 <= 3 /\ 0 <= Z.land x 15 <= 15 /\
  in_u8 (Z.land x 127) /\ Z.land (Z.land x 127) 127 = Z.land x 127.
Proof.
  intros Hx. change 3 with (Z.ones 2) at 1 2. change 15 with (Z.ones 4) at 1 2. change 127 with (Z.ones 7). rewrite !Z.land_ones by lia.
  change (2 ^ 2) with 4. change (2 ^ 4) with 16. change (2 ^ 7) with 128.
  rewrite Z.mod_mod by lia. unfold in_u8. pose proof (Z.mod_pos_bound (Z.shiftr x 6) 4).
  pose proof (Z.mod_pos_bound x 16). pose proof (Z.mod_pos_bound x 128). lia.
Qed.

(** Decoding an encoded header, whatever follows it and whatever the target held. *)
Lemma header_Unmarshal_enc h rest h0 :
  header_typed h -> header_check h = None ->
  header_Unmarshal (enc_header h ++ rest) h0 = (Ok (header_MarshalSize h), norm_header h).
Proof.
  intros [] Hc. pose proof (header_check_none h Hc) as (Hv & Hn & Hx). pose proof (zlen_enc_header h Hc) as Hz.
  destruct (first_octet_fields h) as (Ho1 & F1 & F2 & F3 & F4); [done..|]. destruct (second_octet_fields h) as (Ho2 & S1 & S2); [done|].
  pose proof (zlen_nonneg rest). pose proof (zlen_nonneg (CSRC h)). pose proof (zlen_nonneg (ExtensionPayload h)).
  pose proof (zlen_enc_csrc (CSRC h)) as Hcl.
  assert (Hsz : header_MarshalSize h = 12 + 4 * zlen (CSRC h) + (if Extension h then 4 + zlen (ExtensionPayload h) else 0)).
  { unfold header_MarshalSize, FixedHeaderSize, csrcLength, extHeaderSize. destruct (Extension h); lia. }
  assert (Hbl : zlen (enc_header h ++ rest) = header_MarshalSize h + zlen rest) by (rewrite zlen_app; lia).
  unfold enc_header in *. rewrite <-!app_assoc in *. rewrite header_Unmarshal_fixed by done. rewrite F4, F3. clear Hz. set (buf := [first_octet h] ++ _) in *.
  rewrite unmarshal_rest_csrc; [|subst buf; at_solve|done|destruct (Extension h); lia]. unfold norm_header, set_fixed, versionShift, versionMask, paddingShift, extensionShift, ccMask, markerShift, ptMask.
  rewrite F1, F2, F3, F4, S1, S2.
  destruct (Extension h) eqn:Hext.
  2:{ rewrite Hsz, Z.add_0_r. destruct h0. reflexivity. }
  destruct (Hx eq_refl) as [Hm Hw]. pose proof (Z.div_mod (zlen (ExtensionPayload h)) 4).
  assert (0 <= zlen (ExtensionPayload h) / 4) by (apply Z.div_pos; lia).
  assert (Hat : At buf (12 + 4 * zlen (CSRC h)) (enc_ext h)) by (subst buf; at_solve). rewrite (enc_ext_on h Hext) in Hat.
  rewrite app_assoc in Hat. apply at_split in Hat as [Hat1 Hat2].
  match goal with |- unmarshal_ext _ _ ?hh = _ => destruct (unmarshal_ext_head _ _ _ _ hh Hat1) as [Hok _]; [done|unfold in_u16; lia|lia|] end.
  rewrite zlen_app, !zlen_be in Hat2. rewrite (Hok (ExtensionPayload h)); [|exact Hat2|lia].
  apply f_equal2; [f_equal; lia|]. destruct h0. reflexivity.
Qed.

Lemma header_check_ok h :
  Version h <= 3 -> zlen (CSRC h) <= 15 ->
  (Extension h = true -> zlen (ExtensionPayload h) mod 4 = 0 /\ zlen (ExtensionPayload h) / 4 <= 65535) -> header_check h = None.
Proof.
  intros Hv Hc Hx. unfold header_check, versionMask, MaxCSRC. pose proof (zlen_nonneg (ExtensionPayload h)).
  rewrite Z.rem_mod_nonneg, Z.quot_div_nonneg by lia.
  destruct (Z.ltb_spec 3 (Version h)); [lia|]. destruct (Z.ltb_spec 15 (zlen (CSRC h))); [lia|].
  destruct (Extension h); [|done]. destruct (Hx eq_refl) as [-> Hl]. cbn. by destruct (Z.ltb_spec 65535 (zlen (ExtensionPayload h) / 4)); [lia|].
Qed.

(** The header a decoder reads. *)
Definition read_header (x0 x1 s t ss : Z) (cs : list Z) (prof : Z) (e : bytes) : Header :=
  mkHeader (Z.land (Z.shiftr x0 6) 3) (negb (Z.land (Z.shiftr x0 5) 1 =? 0)) (negb (Z.land (Z.shiftr x0 4) 1 =? 0)) (Z.land x0 15)
    (negb (Z.shiftr x1 7 =? 0)) (Z.land x1 127) s t ss cs prof e.

Lemma read_header_ok x0 x1 s t ss cs prof e :
  in_u8 x0 -> in_u8 x1 -> in_u16 s -> in_u32 t -> in_u32 ss -> Forall in_u32 cs -> zlen cs = Z.land x0 15 -> in_u16 prof ->
  is_bytes e -> zlen e mod 4 = 0 -> zlen e / 4 <= 65535 ->
  let h := read_header x0 x1 s t ss cs prof e in
  header_typed h /\ header_check h = None /\ first_octet h = x0 /\ second_octet h = x1.
Proof.
  intros H0 H1 Hs Ht Hss Hcs Hn Hp He Hm Hl. destruct (octet_ranges x0 H0) as (R1 & R2 & R3 & _). destruct (octet_ranges x1 H1) as (_ & _ & _ & R4 & _).
  cbn zeta. split; [by split|]. split; [apply header_check_ok; cbn; [done|lia|done]|].
  split; [by apply first_octet_rebuild|by apply second_octet_rebuild].
Qed.

(** Every byte string is refused, or is an encoded header and the rest, and decodes to it. *)
Lemma header_view b h0 :
  is_bytes b ->
  (exists e h', header_Unmarshal b h0 = (Err e, h')) \/
  exists h rest, b = enc_header h ++ rest /\ is_bytes rest /\ header_typed h /\ header_check h = None /\
    header_Unmarshal b h0 = (Ok (header_MarshalSize h), h).
Proof.
  intros Hb. destruct (Z.ltb_spec (zlen b) 12) as [Hs|Hl].
  { left. unfold header_Unmarshal, FixedHeaderSize. destruct (Z.ltb_spec (zlen b) 12); [|lia]. by eexists _, _. }
  destruct (bytes_byte b Hb) as (x0 & b1 & -> & Hx0 & Hb1); [lia|]. rewrite zlen_app in Hl. change (zlen [x0]) with 1 in Hl.
  destruct (bytes_byte b1 Hb1) as (x1 & b2 & -> & Hx1 & Hb2); [lia|]. rewrite zlen_app in Hl. change (zlen [x1]) with 1 in Hl.
  destruct (bytes_int 2 b2 Hb2) as (s & b3 & -> & Hs & Hb3); [lia|]. rewrite zlen_app, zlen_be in Hl.
  destruct (bytes_int 4 b3 Hb3) as (t & b4 & -> & Ht & Hb4); [lia|]. rewrite zlen_app, zlen_be in Hl.
  destruct (bytes_int 4 b4 Hb4) as (ss & r & -> & Hss & Hr); [lia|]. clear Hl.
  rewrite header_Unmarshal_fixed by done. destruct (octet_ranges x0 Hx0) as (_ & _ & Hn & _).
  set (buf := [x0] ++ _). assert (Hbl : zlen buf = 12 + zlen r) by (subst buf; zlens; lia).
  destruct (Z.ltb_spec (zlen r) (4 * Z.land x0 15)) as [Hsh|Hlc].
  { left. unfold unmarshal_rest, csrcOffset, csrcLength. destruct (Z.ltb_spec (zlen buf) (12 + Z.land x0 15 * 4)); [|lia]. by eexists _, _. }
  destruct (bytes_cut r (4 * Z.to_nat (Z.land x0 15)) Hr) as (c & r2 & -> & Hc & Hcb & Hr2); [lia|].
  destruct (words_csrc _ c Hcb Hc) as (cs & -> & Hcl & Hcs).
  assert (Hz : zlen cs = Z.land x0 15) by (unfold zlen; lia). rewrite <-Hz in *. rewrite zlen_app, zlen_enc_csrc in Hbl, Hlc.
  rewrite unmarshal_rest_csrc; [|subst buf; at_solve|done|pose proof (zlen_nonneg r2); lia].
  destruct (negb (Z.land (Z.shiftr x0 4) 1 =? 0)) eqn:Hext.
  - pose proof (zlen_enc_csrc cs). destruct (Z.ltb_spec (zlen r2) 4).
    { left. unfold unmarshal_ext, extHeaderSize. destruct (Z.ltb_spec (zlen buf) (12 + 4 * zlen cs + 4)); [|lia]. by eexists _, _. }
    destruct (bytes_int 2 r2 Hr2) as (prof & r3 & -> & Hprof & Hr3); [lia|]. rewrite zlen_app, zlen_be in *.
    destruct (bytes_int 2 r3 Hr3) as (words & r4 & -> & Hwords & Hr4); [lia|]. rewrite zlen_app, zlen_be in *.
    change (256 ^ Z.of_nat 2) with 65536 in *.
    match goal with |- context [unmarshal_ext _ _ ?hh] => destruct (unmarshal_ext_head buf (12 + 4 * zlen cs) prof words hh) as [Hok Hbad] end;
      [apply at_join; subst buf; [at_solve|]; rewrite zlen_be; at_solve|done..|lia|].
    destruct (Z.ltb_spec (zlen r4) (words * 4)); [left; rewrite Hbad by lia; by eexists _, _|].
    destruct (bytes_cut r4 (Z.to_nat (words * 4)) Hr4) as (e & r5 & -> & He & Heb & Hr5); [lia|].
    assert (Hez : zlen e = words * 4) by (unfold zlen; lia).
    destruct (read_header_ok x0 x1 s t ss cs prof e) as (T & C & O1 & O2); try done.
    { rewrite Hez. apply Z.mod_mul. lia. } { rewrite Hez, Z.div_mul; lia. }
    right. exists (read_header x0 x1 s t ss cs prof e), r5. split_and!; [|done..|].
    + unfold enc_header, enc_ext. rewrite O1, O2. cbn [read_header Extension SequenceNumber RTPTimestamp RTPSSRC CSRC ExtensionProfile ExtensionPayload]. rewrite Hext.
      subst buf. rewrite <-!app_assoc. replace (zlen e / 4) with words; [done|]. rewrite Hez, Z.div_mul; lia.
    + rewrite (Hok e); [|subst buf; at_solve|done]. apply f_equal2; [|by destruct h0].
      unfold header_MarshalSize, FixedHeaderSize, csrcLength, extHeaderSize. cbn [read_header Extension CSRC ExtensionPayload]. rewrite Hext. f_equal. lia.
  - right. destruct (read_header_ok x0 x1 s t ss cs 0 []) as (T & C & O1 & O2); try done; [constructor|].
    exists (read_header x0 x1 s t ss cs 0 []), r2. split_and!; [|done..|].
    + unfold enc_header, enc_ext. rewrite O1, O2. cbn [read_header Extension SequenceNumber RTPTimestamp RTPSSRC CSRC]. rewrite Hext.
      subst buf. by rewrite app_nil_r, <-!app_assoc.
    + unfold mret, sres_ret. apply f_equal2; [|by destruct h0].
      unfold header_MarshalSize, FixedHeaderSize, csrcLength. cbn [read_header Extension CSRC]. rewrite Hext. f_equal. lia.
Qed.

(** ** Packets *)

Record packet_typed (p : Packet) : Prop := {
  pt_header : header_typed (p_Header p);
  pt_payload : is_bytes (p_Payload p);
  pt_padding : in_u8 (PaddingSize p) }.

(** What [MarshalTo] accepts. *)
Definition packet_ok (p : Packet) : Prop :=
  header_check (p_Header p) = None /\ Padding (p_Header p) = (0 <? PaddingSize p).

Definition norm_packet (p : Packet) : Packet := mkPacket (norm_header (p_Header p)) (p_Payload p) (PaddingSize p).

Lemma zlen_enc_pad n : 0 <= n -> zlen (enc_pad n) = n.
Proof. intros Hn. unfold enc_pad. destruct (Z.ltb_spec 0 n); [zlens; lia|]. change (zlen (@nil Z)) with 0. lia. Qed.

Lemma zlen_enc_packet p : packet_typed p -> packet_ok p -> zlen (enc_packet p) = packet_MarshalSize p.
Proof.
  intros [_ _ Hp] [Hc _]. unfold enc_packet, packet_MarshalSize. rewrite !zlen_app, zlen_enc_header by done.
  unfold in_u8 in Hp. rewrite zlen_enc_pad by lia. lia.
Qed.

Lemma packet_MarshalTo_spec p w :
  packet_typed p -> packet_ok p -> zlen w = packet_MarshalSize p ->
  packet_MarshalTo p w = (Ok (packet_MarshalSize p), enc_packet p).
Proof.
  intros Ht Hok Hw. pose proof (zlen_enc_packet p Ht Hok) as Hz. destruct Ht as [_ _ Hp], Hok as [Hc He]. unfold in_u8 in Hp.
  unfold packet_MarshalTo. rewrite He, Bool.eqb_reflx. cbn [negb]. unfold packet_MarshalSize in *. pose proof (zlen_nonneg (p_Payload p)).
  rewrite (sbind_ok _ _ _ _ _ (header_MarshalTo_spec (p_Header p) w Hc ltac:(lia))). pose proof (zlen_enc_header _ Hc) as Hh.
  erewrite sbind_ok by done.
  destruct (Z.ltb_spec (zlen (enc_header (p_Header p) ++ drop (length (enc_header (p_Header p))) w))
    (header_MarshalSize (p_Header p) + zlen (p_Payload p) + PaddingSize p)) as [Hs|_]; [revert Hs; zlens; lia|].
  erewrite sbind_ok by (apply wr_copy_next; zlens; lia).
  assert (Hend : forall P (t : bytes), zlen (P ++ t) = zlen P -> P ++ t = P).
  { intros P t E. rewrite zlen_app in E. destruct t; [by rewrite app_nil_r|]. unfold zlen in E. cbn in E. lia. }
  unfold enc_packet, enc_pad in *. destruct (Z.ltb_spec 0 (PaddingSize p)).
  - wr_step. wr_step. unfold mret, sres_ret. rewrite Hend; [by rewrite <-!app_assoc|]. zlens. lia.
  - unfold mret, sres_ret. rewrite Hend; [|zlens; lia]. rewrite app_nil_r. apply f_equal2; [f_equal; lia|done].
Qed.

Lemma append_with_spec size (m : sres bytes rtpError Z) e s :
  0 <= size -> (forall w, zlen w = size -> exists n, m w = (Ok n, e)) ->
  exists sp, append_with size m s = (Ok tt, mkSlice (data s ++ e) sp).
Proof.
  intros Hs Hm. unfold append_with, growSlice. destruct (Z.leb_spec size (zlen (spare s))); cbn [data spare];
    rewrite drop_app_length, take_app_length.
  - destruct (Hm (take (Z.to_nat size) (spare s))) as [n ->]; [unfold zlen in *; rewrite length_take; lia|]. by eexists.
  - destruct (Hm (replicate (Z.to_nat size) 0)) as [n ->]; [zlens; lia|]. by eexists.
Qed.

Lemma norm_header_pad h : Padding (norm_header h) = Padding h.
Proof. done. Qed.

(** Decoding: past the header, whatever header it was. *)
Lemma packet_Unmarshal_rest e h rest p0 :
  header_Unmarshal (e ++ rest) (p_Header p0) = (Ok (zlen e), h) -> is_bytes rest ->
  (Padding h = false -> packet_Unmarshal (e ++ rest) p0 = (Ok tt, mkPacket h rest 0)) /\
  (Padding h = true -> forall pl pad, rest = pl ++ [pad] ->
     (pad = 0 \/ zlen rest < pad -> packet_Unmarshal (e ++ rest) p0 = (Err ErrInvalidPadding, p0 <| p_Header := h |>)) /\
     (0 < pad <= zlen rest -> packet_Unmarshal (e ++ rest) p0 = (Ok tt, mkPacket h (take (Z.to_nat (zlen rest - pad)) rest) pad))) /\
  (Padding h = true -> rest = [] -> packet_Unmarshal (e ++ rest) p0 = (Err ErrPacketTooShort, p0 <| p_Header := h |>)).
Proof.
  intros Hh Hr. unfold packet_Unmarshal, on_header. pose proof (zlen_nonneg e). pose proof (zlen_nonneg rest).
  assert (Hpd : forall b, Padding h = b -> forall k : bool -> sres Packet rtpError unit,
    (padded ≫= k) (p0 <| p_Header := h |>) = k b (p0 <| p_Header := h |>)) by (by intros b <- k). split_and!.
  - intros Hp. erewrite sbind_ok by (by rewrite Hh). rewrite (Hpd _ Hp).
    erewrite (sbind_ok (modify _ ≫= _)) by done.
    rewrite (sbind_lift _ _ _ rest) by (rewrite <-(app_nil_r rest) at 1; apply slc_chunk; [done|by rewrite zlen_app]). by destruct p0.
  - intros Hp pl pad Hrest. assert (Hi : idx (E:=rtpError) (e ++ rest) (zlen (e ++ rest) - 1) = Ok pad).
    { rewrite Hrest, app_assoc. apply idx_app. zlens. lia. }
    assert (Hpl : 1 <= zlen rest) by (rewrite Hrest; zlens; pose proof (zlen_nonneg pl); lia).
    split; intros Hpad.
    + erewrite sbind_ok by (by rewrite Hh). rewrite (Hpd _ Hp).
      destruct (Z.leb_spec (zlen (e ++ rest)) (zlen e)) as [Hle|_]; [revert Hle; zlens; lia|].
      unfold mbind at 1, sres_bind at 1. rewrite (sbind_lift _ _ _ pad) by done.
      destruct (Z.eqb_spec pad 0); [done|]. destruct (Z.ltb_spec (zlen (e ++ rest) - zlen e) pad) as [|Hge]; [done|revert Hge; zlens; lia].
    + erewrite sbind_ok by (by rewrite Hh). rewrite (Hpd _ Hp).
      destruct (Z.leb_spec (zlen (e ++ rest)) (zlen e)) as [Hle|_]; [revert Hle; zlens; lia|].
      erewrite sbind_ok; [|rewrite (sbind_lift _ _ _ pad) by done; destruct (Z.eqb_spec pad 0); [lia|];
        destruct (Z.ltb_spec (zlen (e ++ rest) - zlen e) pad) as [Hlt|_]; [revert Hlt; zlens; lia|]; done].
      rewrite (sbind_lift _ _ _ (take (Z.to_nat (zlen rest - pad)) rest)); [by destruct p0|].
      rewrite <-(take_drop (Z.to_nat (zlen rest - pad)) rest) at 1. apply slc_chunk; [done|]. zlens. unfold zlen. rewrite length_take. unfold zlen in *. lia.
  - intros Hp ->. erewrite sbind_ok by (by rewrite Hh). rewrite (Hpd _ Hp), app_nil_r.
    destruct (Z.leb_spec (zlen e) (zlen e)); [done|lia].
Qed.

Lemma packet_AppendTo_spec p s :
  packet_typed p -> packet_ok p -> exists sp, packet_AppendTo p s = (Ok tt, mkSlice (data s ++ enc_packet p) sp).
Proof.
  intros Ht Hok. pose proof (zlen_enc_packet p Ht Hok) as Hz.
  apply append_with_spec; [rewrite <-Hz; apply zlen_nonneg|]. intros w Hw. eexists. by apply packet_MarshalTo_spec.
Qed.

Lemma packet_Unmarshal_enc p p0 :
  packet_typed p -> packet_ok p -> packet_Unmarshal (enc_packet p) p0 = (Ok tt, norm_packet p).
Proof.
  intros Ht Hok.
  destruct Ht as [Hh Hpl Hpad], Hok as [Hc He]. unfold in_u8 in Hpad. unfold enc_packet. set (rest := p_Payload p ++ _).
  assert (Hrest : is_bytes rest).
  { subst rest. apply Forall_app. split; [done|]. unfold enc_pad. destruct (0 <? PaddingSize p); [|constructor].
    apply Forall_app. split; [by apply Forall_replicate|]. repeat constructor; lia. }
  pose proof (header_Unmarshal_enc (p_Header p) rest (p_Header p0) Hh Hc) as Hd. rewrite <-zlen_enc_header in Hd by done.
  destruct (packet_Unmarshal_rest _ _ _ _ Hd Hrest) as (H1 & H2 & _). rewrite norm_header_pad, He in *.
  subst rest. unfold norm_packet, enc_pad in *. destruct (Z.ltb_spec 0 (PaddingSize p)).
  + destruct (H2 eq_refl (p_Payload p ++ replicate (Z.to_nat (PaddingSize p - 1)) 0) (PaddingSize p)) as [_ ->];
      [by rewrite app_assoc| |zlens; pose proof (zlen_nonneg (p_Payload p)); lia].
    do 3 f_equal. zlens. rewrite take_app_le, take_ge; unfold zlen; lia || done.
  + rewrite (H1 eq_refl), app_nil_r. do 2 f_equal. lia.
Qed.

(** ** Properties *)

(** RTP round trip: a packet [MarshalTo] accepts is appended to any buffer, reused or not, as exactly its encoding
    (no stale byte of the buffer survives), of the announced size; decoding that encoding, into whatever target,
    returns every field, the payload and the padding count of the packet. *)
Theorem rtp_round_trip p s p0 :
  packet_typed p -> packet_ok p ->
  (exists sp, packet_AppendTo p s = (Ok tt, mkSlice (data s ++ enc_packet p) sp)) /\
  zlen (enc_packet p) = packet_MarshalSize p /\
  packet_Unmarshal (enc_packet p) p0 = (Ok tt, norm_packet p).
Proof.
  intros Ht Hok. split_and!; [by apply packet_AppendTo_spec|by apply zlen_enc_packet|by apply packet_Unmarshal_enc].
Qed.

(** RTP decoding of arbitrary bytes never panics, and what it accepts it understands in full: the packet it returns
    is well typed, can be encoded again, decodes to itself, and its encoding is the datagram itself but for the
    filler octets of the padding, which are as many. *)
Theorem rtp_decode_total b p0 :
  is_bytes b ->
  match packet_Unmarshal b p0 with
  | (Ok _, p) =>
      packet_typed p /\ packet_ok p /\ norm_packet p = p /\
      exists fill, b = enc_header (p_Header p) ++ p_Payload p ++ fill /\ zlen fill = PaddingSize p /\
        zlen b = zlen (enc_packet p)
  | (Err _, _) => True
  | (Panic, _) => False
  end.
Proof.
  intros Hb. destruct (header_view b (p_Header p0) Hb) as [(e & h' & E)|(h & rest & -> & Hr & Ht & Hc & Hd)].
  { unfold packet_Unmarshal, on_header, mbind at 1, sres_bind at 1. by rewrite E. }
  assert (Hnorm : norm_header h = h).
  { pose proof (header_Unmarshal_enc h rest (p_Header p0) Ht Hc) as E. congruence. }
  rewrite <-zlen_enc_header in Hd by done. destruct (packet_Unmarshal_rest _ _ _ _ Hd Hr) as (H1 & H2 & H3).
  destruct (Padding h) eqn:Hp.
  - destruct (decide (rest = [])) as [->|Hne]; [by rewrite H3|].
    destruct (exists_last Hne) as (pl & pad & Hrest). destruct (H2 eq_refl pl pad Hrest) as [Hbad Hgood].
    assert (Hpad : in_u8 pad) by (subst rest; apply Forall_app in Hr as [_ Hr]; by inversion Hr). unfold in_u8 in Hpad.
    destruct (decide (0 < pad <= zlen rest)) as [Hin|Hout]; [|rewrite Hbad by lia; done]. rewrite Hgood by done.
    assert (Hk : packet_ok (mkPacket h (take (Z.to_nat (zlen rest - pad)) rest) pad)).
    { split; [done|]. cbn [p_Header PaddingSize]. rewrite Hp. symmetry. apply Z.ltb_lt. lia. }
    assert (Hty : packet_typed (mkPacket h (take (Z.to_nat (zlen rest - pad)) rest) pad)).
    { split; [done|by apply Forall_take|unfold in_u8; cbn; lia]. }
    split_and!; [done|done|by unfold norm_packet; cbn; rewrite Hnorm|].
    exists (drop (Z.to_nat (zlen rest - pad)) rest). cbn [p_Header p_Payload PaddingSize]. rewrite take_drop. split; [done|].
    rewrite zlen_enc_packet by done. unfold packet_MarshalSize. cbn [p_Header p_Payload PaddingSize].
    rewrite zlen_app, zlen_enc_header by done. unfold zlen in *. rewrite length_drop, length_take. lia.
  - rewrite H1 by done.
    assert (Hk : packet_ok (mkPacket h rest 0)) by (by split).
    assert (Hty : packet_typed (mkPacket h rest 0)) by (by split).
    split_and!; [done|done|by unfold norm_packet; cbn; rewrite Hnorm|].
    exists []. cbn [p_Header p_Payload PaddingSize]. rewrite app_nil_r. split; [done|].
    rewrite zlen_enc_packet by done. unfold packet_MarshalSize. cbn [p_Header p_Payload PaddingSize].
    rewrite zlen_app, zlen_enc_header by done. split; [done|lia].
Qed.

(** A media packet with an extension and padding. *)
Definition demo_packet : Packet :=
  mkPacket (mkHeader 2 true true 1 true 33 65535 4294967295 7 [9] ExtensionProfileRIST [1; 2; 3; 4]) [71; 72] 3.

Lemma rtp_round_trip_witness :
  packet_Unmarshal (enc_packet demo_packet) (mkPacket (norm_header (p_Header demo_packet)) [1; 2; 3] 200) = (Ok tt, demo_packet).
Proof.
  apply (rtp_round_trip demo_packet (mkSlice [] [5; 5; 5]));
    [repeat split; try (repeat constructor); try discriminate|split; reflexivity].
Defined.

Lemma rtp_decode_total_witness :
  match packet_Unmarshal (enc_packet demo_packet) demo_packet with
  | (Ok _, p) =>
      packet_typed p /\ packet_ok p /\ norm_packet p = p /\
      exists fill, enc_packet demo_packet = enc_header (p_Header p) ++ p_Payload p ++ fill /\ zlen fill = PaddingSize p /\
        zlen (enc_packet demo_packet) = zlen (enc_packet p)
  | (Err _, _) => True
  | (Panic, _) => False
  end.
Proof. apply (rtp_decode_total (enc_packet demo_packet) demo_packet). repeat constructor; discriminate. Defined.
