(* ===== verification/Rtcp.v ===== *)
(** * Compound RTCP: internal/rtcp (rtcp.go, report.go, sdes.go, nack.go, extseq.go, echo.go, compound.go)

    The codec of every RIST control packet.  Each of the eleven packet shapes is encoded into a buffer that grows over
    stale bytes, and decoded from arbitrary bytes with every read bounds-checked; a compound is a concatenation in
    the order the profile fixes.  The NACK packers are in file RtcpNack. *)

From S2P Require Import Prelude Bytes.

Module rtcp.

Definition PTSenderReport : Z := 200.
Definition PTReceiverReport : Z := 201.
Definition PTSDES : Z := 202.
Definition PTApp : Z := 204.
Definition PTTransportFeedback : Z := 205.

Definition AppSubtypeRangeNACK : Z := 0.
Definition AppSubtypeExtSeq : Z := 1.
Definition AppSubtypeEchoRequest : Z := 2.
Definition AppSubtypeEchoResponse : Z := 3.

Definition FMTGenericNACK : Z := 1.
Definition NameRIST : Z := 0x52495354.
Definition headerSize : Z := 4.
Definition appFixedSize : Z := 12.
Definition versionFlag : Z := 128.

Definition senderReportSize : Z := 28.
Definition emptyRRSize : Z := 8.
Definition receiverReportSize : Z := 32.
Definition LQMExtensionSize : Z := 44.
Definition lqmReportSize : Z := emptyRRSize + LQMExtensionSize.
Definition sdesFixedSize : Z := 10.
Definition sdesItemCNAME : Z := 1.
Definition maxCNAMELen : Z := 255.
Definition extSeqSize : Z := 16.
Definition echoFixedSize : Z := 24.

Inductive error := ErrShortPacket | ErrBadVersion | ErrEmptyCompound | ErrCompoundOrder.

Record NackRange := mkNackRange { Start : Z; Extra : Z }.
Record NackPair := mkNackPair { PID : Z; BLP : Z }.

(** The packet shapes; strings and padding as bytes. *)
Inductive Packet :=
  | SenderReport (SSRC NTP RTPTime PacketCount OctetCount : Z)
  | EmptyReceiverReport (SSRC : Z)
  | ReceiverReport (SenderSSRC MediaSSRC FractionLost CumulativeLost HighestSeq Jitter LSR DLSR : Z)
  | LinkQualityReport (SSRC : Z) (LQM : bytes)
  | SDES (SSRC : Z) (CNAME : bytes)
  | RangeNACK (MediaSSRC : Z) (Ranges : list NackRange)
  | BitmaskNACK (SenderSSRC MediaSSRC : Z) (FCIs : list NackPair)
  | ExtSeq (SSRC SeqHigh : Z)
  | EchoRequest (SSRC Timestamp : Z) (Padding : bytes)
  | EchoResponse (SSRC Timestamp ProcessingDelay : Z) (Padding : bytes)
  | Raw (b : bytes).

(** ** Encoding *)

Definition padTo4 (n : Z) : Z := Z.ldiff (n + 3) 3.
Definition sdesSize (n : Z) : Z := Z.ldiff (sdesFixedSize + n + 1 + 3) 3.

Definition MarshalSize (p : Packet) : Z :=
  match p with
  | SenderReport _ _ _ _ _ => senderReportSize
  | EmptyReceiverReport _ => emptyRRSize
  | ReceiverReport _ _ _ _ _ _ _ _ => receiverReportSize
  | LinkQualityReport _ _ => lqmReportSize
  | SDES _ cname => sdesSize (Z.min (zlen cname) maxCNAMELen)
  | RangeNACK _ ranges => appFixedSize + 4 * zlen ranges
  | BitmaskNACK _ _ fcis => appFixedSize + 4 * zlen fcis
  | ExtSeq _ _ => extSeqSize
  | EchoRequest _ _ padding => echoFixedSize + padTo4 (zlen padding)
  | EchoResponse _ _ _ padding => echoFixedSize + padTo4 (zlen padding)
  | Raw b => zlen b
  end.

Definition appendHeader (s : slice) (count pt words : Z) : slice :=
  append s [Z.lor versionFlag count; pt; u8 (Z.shiftr words 8); u8 words].

(** [grow]: the window is whatever lies past the length, and zeros past the capacity. *)
Definition grow (s : slice) (n : Z) : bytes := take (Z.to_nat n) (spare s ++ replicate (Z.to_nat n) 0).

(** Fill the window of [n] bytes past the end with [f]. *)
Definition fill (s : slice) (n : Z) (f : bytes -> res error bytes) : res error slice :=
  w ← f (grow s n); Ok (mkSlice (data s ++ w) (drop (Z.to_nat n) (spare s))).

(** The loop that writes records of two 16-bit fields from offset [off] on. *)
Fixpoint write_records (rs : list (Z * Z)) (off : Z) (w : bytes) : res error bytes :=
  match rs with
  | [] => Ok w
  | (a, b) :: rs =>
      w ← put w off (be_bytes 2 a); w ← put w (off + 2) (be_bytes 2 b); write_records rs (off + 4) w
  end.

Definition range_fields (r : NackRange) : Z * Z := (Start r, Extra r).
Definition pair_fields (p : NackPair) : Z * Z := (PID p, BLP p).

Definition appendEcho (s : slice) (subtype ssrc ts delay : Z) (padding : bytes) : res error slice :=
  let pad := padTo4 (zlen padding) in
  let s := appendHeader s subtype PTApp (u16 (5 + pad /g 4)) in
  fill s (echoFixedSize - headerSize + pad) (fun w =>
    w ← put w 0 (be_bytes 4 ssrc);
    w ← put w 4 (be_bytes 4 NameRIST);
    w ← put w 8 (be_bytes 8 ts);
    w ← put w 16 (be_bytes 4 delay);
    '(n, w) ← copy_at w 20 padding;
    Ok (zero_from w (20 + n))).

(** One function per packet type, the [AppendTo] methods of the source. *)
Definition appendSenderReport (s : slice) (ssrc ntp rtptime pc oc : Z) : res error slice :=
  fill (appendHeader s 0 PTSenderReport 6) (senderReportSize - headerSize) (fun w =>
    w ← put w 0 (be_bytes 4 ssrc); w ← put w 4 (be_bytes 8 ntp); w ← put w 12 (be_bytes 4 rtptime);
    w ← put w 16 (be_bytes 4 pc); put w 20 (be_bytes 4 oc)).

Definition appendEmptyReceiverReport (s : slice) (ssrc : Z) : res error slice :=
  fill (appendHeader s 0 PTReceiverReport 1) (emptyRRSize - headerSize) (fun w => put w 0 (be_bytes 4 ssrc)).

Definition appendReceiverReport (s : slice) (sssrc mssrc fl cl hs j lsr dlsr : Z) : res error slice :=
  fill (appendHeader s 1 PTReceiverReport 7) (receiverReportSize - headerSize) (fun w =>
    w ← put w 0 (be_bytes 4 sssrc); w ← put w 4 (be_bytes 4 mssrc);
    w ← put w 8 (be_bytes 4 (Z.land cl 16777215)); w ← put w 8 [fl];
    w ← put w 12 (be_bytes 4 hs); w ← put w 16 (be_bytes 4 j);
    w ← put w 20 (be_bytes 4 lsr); put w 24 (be_bytes 4 dlsr)).

Definition appendLinkQualityReport (s : slice) (ssrc : Z) (lqm : bytes) : res error slice :=
  fill (appendHeader s 0 PTReceiverReport (lqmReportSize /g 4 - 1)) (lqmReportSize - headerSize) (fun w =>
    w ← put w 0 (be_bytes 4 ssrc); '(_, w) ← copy_at w 4 lqm; Ok w).

Definition appendSDES (s : slice) (ssrc : Z) (cname : bytes) : res error slice :=
  let name := if maxCNAMELen <? zlen cname then take (Z.to_nat maxCNAMELen) cname else cname in
  let size := sdesSize (zlen name) in
  fill (appendHeader s 1 PTSDES (u16 (size /g 4 - 1))) (size - headerSize) (fun w =>
    w ← put w 0 (be_bytes 4 ssrc); w ← put w 4 [sdesItemCNAME]; w ← put w 5 [u8 (zlen name)];
    '(_, w) ← copy_at w 6 name; Ok (zero_from w (6 + zlen name))).

Definition appendRangeNACK (s : slice) (mssrc : Z) (ranges : list NackRange) : res error slice :=
  fill (appendHeader s AppSubtypeRangeNACK PTApp (u16 (2 + zlen ranges)))
    (appFixedSize - headerSize + 4 * zlen ranges) (fun w =>
    w ← put w 0 (be_bytes 4 mssrc); w ← put w 4 (be_bytes 4 NameRIST); write_records (range_fields <$> ranges) 8 w).

Definition appendBitmaskNACK (s : slice) (sssrc mssrc : Z) (fcis : list NackPair) : res error slice :=
  fill (appendHeader s FMTGenericNACK PTTransportFeedback (u16 (2 + zlen fcis)))
    (appFixedSize - headerSize + 4 * zlen fcis) (fun w =>
    w ← put w 0 (be_bytes 4 sssrc); w ← put w 4 (be_bytes 4 mssrc); write_records (pair_fields <$> fcis) 8 w).

Definition appendExtSeq (s : slice) (ssrc sh : Z) : res error slice :=
  fill (appendHeader s AppSubtypeExtSeq PTApp 3) (extSeqSize - headerSize) (fun w =>
    w ← put w 0 (be_bytes 4 ssrc); w ← put w 4 (be_bytes 4 NameRIST); w ← put w 8 (be_bytes 2 sh);
    w ← put w 10 [0]; put w 11 [0]).

Definition appendEchoRequest (s : slice) (ssrc ts : Z) (padding : bytes) : res error slice :=
  appendEcho s AppSubtypeEchoRequest ssrc ts 0 padding.

Definition appendEchoResponse (s : slice) (ssrc ts delay : Z) (padding : bytes) : res error slice :=
  appendEcho s AppSubtypeEchoResponse ssrc ts delay padding.

Definition AppendTo (p : Packet) (s : slice) : res error slice :=
  match p with
  | SenderReport ssrc ntp rtptime pc oc => appendSenderReport s ssrc ntp rtptime pc oc
  | EmptyReceiverReport ssrc => appendEmptyReceiverReport s ssrc
  | ReceiverReport sssrc mssrc fl cl hs j lsr dlsr => appendReceiverReport s sssrc mssrc fl cl hs j lsr dlsr
  | LinkQualityReport ssrc lqm => appendLinkQualityReport s ssrc lqm
  | SDES ssrc cname => appendSDES s ssrc cname
  | RangeNACK mssrc ranges => appendRangeNACK s mssrc ranges
  | BitmaskNACK sssrc mssrc fcis => appendBitmaskNACK s sssrc mssrc fcis
  | ExtSeq ssrc sh => appendExtSeq s ssrc sh
  | EchoRequest ssrc ts padding => appendEchoRequest s ssrc ts padding
  | EchoResponse ssrc ts delay padding => appendEchoResponse s ssrc ts delay padding
  | Raw b => Ok (append s b)
  end.

(** ** Decoding *)

Record header := mkHeader { count : Z; pt : Z; size : Z }.

Definition parseHeader (b : bytes) : res error header :=
  if zlen b <? headerSize then Err ErrShortPacket else
  b0 ← idx b 0;
  if negb (Z.shiftr b0 6 =? 2) then Err ErrBadVersion else
  words ← (t ← slc b 2 4; Uint16 t);
  let size := (words + 1) * 4 in
  if zlen b <? size then Err ErrShortPacket else
  b1 ← idx b 1;
  Ok (mkHeader (Z.land b0 31) b1 size).

Definition u32_at (b : bytes) (i : Z) : res error Z := t ← slc b i (i + 4); Uint32 t.
Definition u64_at (b : bytes) (i : Z) : res error Z := t ← slc b i (i + 8); Uint64 t.
Definition u16_from (b : bytes) (i : Z) : res error Z := t ← slc_from b i; Uint16 t.

Definition decodeSenderReport (h : header) (body : bytes) : res error (option Packet) :=
  if negb (count h =? 0) || negb (size h =? senderReportSize) then Ok None else
  ssrc ← u32_at body 4; ntp ← u64_at body 8; rtptime ← u32_at body 16; pc ← u32_at body 20; oc ← u32_at body 24;
  Ok (Some (SenderReport ssrc ntp rtptime pc oc)).

Definition decodeReceiverReport (h : header) (body : bytes) : res error (option Packet) :=
  if (count h =? 0) && (size h =? emptyRRSize) then
    ssrc ← u32_at body 4; Ok (Some (EmptyReceiverReport ssrc))
  else if (count h =? 1) && (size h =? receiverReportSize) then
    sssrc ← u32_at body 4; mssrc ← u32_at body 8; fl ← idx body 12; cl ← u32_at body 12;
    hs ← u32_at body 16; j ← u32_at body 20; lsr ← u32_at body 24; dlsr ← u32_at body 28;
    Ok (Some (ReceiverReport sssrc mssrc fl (Z.land cl 16777215) hs j lsr dlsr))
  else if (count h =? 0) && (size h =? lqmReportSize) then
    ssrc ← u32_at body 4; lqm ← slc body 8 lqmReportSize; Ok (Some (LinkQualityReport ssrc lqm))
  else Ok None.

Definition decodeSDES (h : header) (body : bytes) : res error (option Packet) :=
  if negb (count h =? 1) || (size h <? sdesFixedSize + 1) then Ok None else
  item ← idx body 8;
  if negb (item =? sdesItemCNAME) then Ok None else
  n ← idx body 9;
  if size h <? sdesFixedSize + n + 1 then Ok None else
  tail ← slc_from body (sdesFixedSize + n);
  if negb (forallb (fun b => b =? 0) tail) then Ok None else
  ssrc ← u32_at body 4; name ← slc body sdesFixedSize (sdesFixedSize + n);
  Ok (Some (SDES ssrc name)).

(** The loop that reads [n] records of two 16-bit fields from offset [off] on. *)
Fixpoint read_records (body : bytes) (off : Z) (n : nat) : res error (list (Z * Z)) :=
  match n with
  | O => Ok []
  | S n => a ← u16_from body off; b ← u16_from body (off + 2); rs ← read_records body (off + 4) n; Ok ((a, b) :: rs)
  end.

Definition decodeRangeNACK (body : bytes) : res error (option Packet) :=
  let n := (zlen body - appFixedSize) /g 4 in
  mssrc ← u32_at body 4;
  rs ← read_records body appFixedSize (Z.to_nat n);
  Ok (Some (RangeNACK mssrc ((fun '(a, b) => mkNackRange a b) <$> rs))).

Definition decodeBitmaskNACK (h : header) (body : bytes) : res error (option Packet) :=
  if negb (count h =? FMTGenericNACK) || (size h <? appFixedSize) then Ok None else
  let n := (size h - appFixedSize) /g 4 in
  sssrc ← u32_at body 4; mssrc ← u32_at body 8;
  rs ← read_records body appFixedSize (Z.to_nat n);
  Ok (Some (BitmaskNACK sssrc mssrc ((fun '(a, b) => mkNackPair a b) <$> rs))).

Definition decodeExtSeq (body : bytes) : res error (option Packet) :=
  if negb (zlen body =? extSeqSize) then Ok None else
  ssrc ← u32_at body 4; sh ← (t ← slc body 12 14; Uint16 t); Ok (Some (ExtSeq ssrc sh)).

Definition decodeEcho (subtype : Z) (body : bytes) : res error (option Packet) :=
  if zlen body <? echoFixedSize then Ok None else
  ssrc ← u32_at body 4; ts ← u64_at body 12; padding ← slc_from body echoFixedSize;
  if subtype =? AppSubtypeEchoRequest then Ok (Some (EchoRequest ssrc ts padding))
  else delay ← u32_at body 20; Ok (Some (EchoResponse ssrc ts delay padding)).

Definition decodeApp (h : header) (body : bytes) : res error (option Packet) :=
  if zlen body <? appFixedSize then Ok None else
  name ← u32_at body 8;
  if negb (name =? NameRIST) then Ok None
  else if count h =? AppSubtypeRangeNACK then decodeRangeNACK body
  else if count h =? AppSubtypeExtSeq then decodeExtSeq body
  else if (count h =? AppSubtypeEchoRequest) || (count h =? AppSubtypeEchoResponse) then decodeEcho (count h) body
  else Ok None.

Definition decodeTyped (h : header) (body : bytes) : res error (option Packet) :=
  if pt h =? PTSenderReport then decodeSenderReport h body
  else if pt h =? PTReceiverReport then decodeReceiverReport h body
  else if pt h =? PTSDES then decodeSDES h body
  else if pt h =? PTApp then decodeApp h body
  else if pt h =? PTTransportFeedback then decodeBitmaskNACK h body
  else Ok None.

Definition Parse (b : bytes) : res error (Packet * Z) :=
  h ← parseHeader b;
  body ← slc b 0 (size h);
  b0 ← idx b 0;
  typed ← (if Z.land b0 32 =? 0 then decodeTyped h body else Ok None);
  Ok (match typed with Some p => p | None => Raw body end, size h).

(** ** Compounds *)

(** The loop of [ParseCompound] on the bytes left; [None] is running out of fuel. *)
Fixpoint parse_loop (fuel : nat) (b : bytes) : option (res error (list Packet)) :=
  match fuel with
  | O => None
  | S fuel =>
      if zlen b =? 0 then Some (Ok []) else
      match Parse b with
      | Ok (p, n) =>
          match slc_from b n with
          | Ok b => match parse_loop fuel b with Some r => Some (ps ← r; Ok (p :: ps)) | None => None end
          | Err e => Some (Err e)
          | Panic => Some Panic
          end
      | Err e => Some (Err e)
      | Panic => Some Panic
      end
  end.

Definition ParseCompound (b : bytes) : option (res error (list Packet)) :=
  if zlen b =? 0 then Some (Err ErrEmptyCompound) else parse_loop (S (length b)) b.

Definition CompoundMarshalSize (pkts : list Packet) : Z := fold_left (fun size p => size + MarshalSize p) pkts 0.

Definition is_nack (p : Packet) : bool :=
  match p with RangeNACK _ _ | BitmaskNACK _ _ _ => true | _ => false end.

Definition is_report (p : Packet) : bool :=
  match p with SenderReport _ _ _ _ _ | ReceiverReport _ _ _ _ _ _ _ _ | EmptyReceiverReport _ | LinkQualityReport _ _ => true | _ => false end.

Definition is_sdes (p : Packet) : bool := match p with SDES _ _ => true | _ => false end.

Definition classFeedback : Z := 0.
Definition classEcho : Z := 1.

(** The loop over the packets after the first two. *)
Fixpoint order_loop (class : Z) (pkts : list Packet) : bool :=
  match pkts with
  | [] => true
  | p :: pkts =>
      let c := match p with
               | ExtSeq _ _ => match pkts with q :: _ => if is_nack q then Some classFeedback else None | [] => None end
               | RangeNACK _ _ | BitmaskNACK _ _ _ | Raw _ => Some classFeedback
               | EchoRequest _ _ _ | EchoResponse _ _ _ _ => Some classEcho
               | _ => None
               end in
      match c with
      | None => false
      | Some c => if c <? class then false else order_loop c pkts
      end
  end.

Definition checkCompoundOrder (pkts : list Packet) : bool :=
  match pkts with
  | p0 :: p1 :: pkts => is_report p0 && is_sdes p1 && order_loop classFeedback pkts
  | _ => false
  end.

Fixpoint append_all (pkts : list Packet) (s : slice) : res error slice :=
  match pkts with [] => Ok s | p :: pkts => s ← AppendTo p s; append_all pkts s end.

Definition BuildCompound (s : slice) (pkts : list Packet) : res error slice :=
  if checkCompoundOrder pkts then append_all pkts s else Err ErrCompoundOrder.

(** ** The encoding as a byte string *)

Definition hdr (count pt words : Z) : bytes := [Z.lor versionFlag count] ++ [pt] ++ be_bytes 2 words.
Definition enc_records (rs : list (Z * Z)) : bytes := concat ((fun '(a, b) => be_bytes 2 a ++ be_bytes 2 b) <$> rs).
Definition pad4 (l : bytes) : bytes := l ++ replicate (Z.to_nat (padTo4 (zlen l) - zlen l)) 0.

Definition enc_echo (subtype ssrc ts delay : Z) (padding : bytes) : bytes :=
  hdr subtype PTApp (5 + padTo4 (zlen padding) / 4) ++ be_bytes 4 ssrc ++ be_bytes 4 NameRIST ++ be_bytes 8 ts ++ be_bytes 4 delay ++ pad4 padding.

Definition trim (cname : bytes) : bytes := take 255 cname.

Definition enc (p : Packet) : bytes :=
  match p with
  | SenderReport ssrc ntp rtptime pc oc =>
      hdr 0 PTSenderReport 6 ++ be_bytes 4 ssrc ++ be_bytes 8 ntp ++ be_bytes 4 rtptime ++ be_bytes 4 pc ++ be_bytes 4 oc
  | EmptyReceiverReport ssrc => hdr 0 PTReceiverReport 1 ++ be_bytes 4 ssrc
  | ReceiverReport sssrc mssrc fl cl hs j lsr dlsr =>
      hdr 1 PTReceiverReport 7 ++ be_bytes 4 sssrc ++ be_bytes 4 mssrc ++ [fl] ++ be_bytes 3 cl ++
      be_bytes 4 hs ++ be_bytes 4 j ++ be_bytes 4 lsr ++ be_bytes 4 dlsr
  | LinkQualityReport ssrc lqm => hdr 0 PTReceiverReport 12 ++ be_bytes 4 ssrc ++ lqm
  | SDES ssrc cname =>
      let name := trim cname in
      hdr 1 PTSDES (sdesSize (zlen name) / 4 - 1) ++ be_bytes 4 ssrc ++ [sdesItemCNAME] ++ [zlen name] ++ name ++
      replicate (Z.to_nat (sdesSize (zlen name) - sdesFixedSize - zlen name)) 0
  | RangeNACK mssrc ranges =>
      hdr AppSubtypeRangeNACK PTApp (2 + zlen ranges) ++ be_bytes 4 mssrc ++ be_bytes 4 NameRIST ++ enc_records (range_fields <$> ranges)
  | BitmaskNACK sssrc mssrc fcis =>
      hdr FMTGenericNACK PTTransportFeedback (2 + zlen fcis) ++ be_bytes 4 sssrc ++ be_bytes 4 mssrc ++ enc_records (pair_fields <$> fcis)
  | ExtSeq ssrc sh => hdr AppSubtypeExtSeq PTApp 3 ++ be_bytes 4 ssrc ++ be_bytes 4 NameRIST ++ be_bytes 2 sh ++ [0] ++ [0]
  | EchoRequest ssrc ts padding => enc_echo AppSubtypeEchoRequest ssrc ts 0 padding
  | EchoResponse ssrc ts delay padding => enc_echo AppSubtypeEchoResponse ssrc ts delay padding
  | Raw b => b
  end.

Definition range_typed (r : NackRange) : Prop := in_u16 (Start r) /\ in_u16 (Extra r).
Definition pair_typed (p : NackPair) : Prop := in_u16 (PID p) /\ in_u16 (BLP p).

(** The bytes of a raw packet frame it: version 2, the length field its own, and not one of the shapes. *)
Definition raw_framed (b : bytes) : Prop :=
  exists b0 b1 words rest h,
    b = [b0] ++ [b1] ++ be_bytes 2 words ++ rest /\ in_u8 b0 /\ in_u16 words /\ Z.shiftr b0 6 = 2 /\ zlen b = (words + 1) * 4 /\
    h = mkHeader (Z.land b0 31) b1 (zlen b) /\ (Z.land b0 32 <> 0 \/ decodeTyped h b = Ok None).

(** Field values of their Go types, within the documented bounds of the 16-bit length field. *)
Definition valid (p : Packet) : Prop :=
  match p with
  | SenderReport ssrc ntp rtptime pc oc => in_u32 ssrc /\ in_u64 ntp /\ in_u32 rtptime /\ in_u32 pc /\ in_u32 oc
  | EmptyReceiverReport ssrc => in_u32 ssrc
  | ReceiverReport sssrc mssrc fl cl hs j lsr dlsr =>
      in_u32 sssrc /\ in_u32 mssrc /\ in_u8 fl /\ in_u32 cl /\ in_u32 hs /\ in_u32 j /\ in_u32 lsr /\ in_u32 dlsr
  | LinkQualityReport ssrc lqm => in_u32 ssrc /\ is_bytes lqm /\ zlen lqm = LQMExtensionSize
  | SDES ssrc cname => in_u32 ssrc /\ is_bytes cname
  | RangeNACK mssrc ranges => in_u32 mssrc /\ Forall range_typed ranges /\ zlen ranges <= 65533
  | BitmaskNACK sssrc mssrc fcis => in_u32 sssrc /\ in_u32 mssrc /\ Forall pair_typed fcis /\ zlen fcis <= 65533
  | ExtSeq ssrc sh => in_u32 ssrc /\ in_u16 sh
  | EchoRequest ssrc ts padding => in_u32 ssrc /\ in_u64 ts /\ is_bytes padding /\ padTo4 (zlen padding) / 4 <= 65530
  | EchoResponse ssrc ts delay padding =>
      in_u32 ssrc /\ in_u64 ts /\ in_u32 delay /\ is_bytes padding /\ padTo4 (zlen padding) / 4 <= 65530
  | Raw b => raw_framed b
  end.

(** What the wire keeps of a packet. *)
Definition norm (p : Packet) : Packet :=
  match p with
  | ReceiverReport sssrc mssrc fl cl hs j lsr dlsr => ReceiverReport sssrc mssrc fl (Z.land cl 16777215) hs j lsr dlsr
  | SDES ssrc cname => SDES ssrc (trim cname)
  | EchoRequest ssrc ts padding => EchoRequest ssrc ts (pad4 padding)
  | EchoResponse ssrc ts delay padding => EchoResponse ssrc ts delay (pad4 padding)
  | p => p
  end.

(** ** Sizes *)

Lemma ldiff3 n : Z.ldiff n 3 = n - n mod 4.
Proof.
  change 3 with (Z.ones 2). rewrite Z.ldiff_ones_r, Z.shiftl_mul_pow2, Z.shiftr_div_pow2 by lia. change (2 ^ 2) with 4.
  pose proof (Z.div_mod n 4). lia.
Qed.

Lemma padTo4_spec n : padTo4 n mod 4 = 0 /\ n <= padTo4 n < n + 4.
Proof.
  unfold padTo4. rewrite ldiff3. pose proof (Z.mod_pos_bound (n + 3) 4). split; [|lia].
  replace (n + 3 - (n + 3) mod 4) with (0 + (n + 3) / 4 * 4) by (pose proof (Z.div_mod (n + 3) 4); lia). by rewrite Z.mod_add.
Qed.

Lemma padTo4_id n : n mod 4 = 0 -> padTo4 n = n.
Proof. intros Hn. destruct (padTo4_spec n) as [H1 H2]. pose proof (Z.div_mod n 4). pose proof (Z.div_mod (padTo4 n) 4). lia. Qed.

Lemma sdesSize_pad n : sdesSize n = padTo4 (n + 11).
Proof. unfold sdesSize, padTo4, sdesFixedSize. f_equal. lia. Qed.

Lemma zlen_hdr c pt w : zlen (hdr c pt w) = 4.
Proof. unfold hdr. by zlens. Qed.

Lemma length_enc_records rs : length (enc_records rs) = (4 * length rs)%nat.
Proof.
  unfold enc_records. induction rs as [|[a b] rs IH]; [done|]. cbn [fmap list_fmap concat length]. rewrite !length_app, !length_be, IH. lia.
Qed.

Lemma zlen_enc_records rs : zlen (enc_records rs) = 4 * zlen rs.
Proof. unfold zlen. rewrite length_enc_records. lia. Qed.

Lemma zlen_fmap {A B} (f : A -> B) l : zlen (f <$> l) = zlen l.
Proof. unfold zlen. by rewrite length_fmap. Qed.

Lemma zlen_pad4 l : zlen (pad4 l) = padTo4 (zlen l).
Proof. unfold pad4. destruct (padTo4_spec (zlen l)). zlens. lia. Qed.

Lemma zlen_trim l : zlen (trim l) = Z.min (zlen l) 255.
Proof. unfold trim, zlen. rewrite length_take. lia. Qed.

Lemma trim_code l : (if maxCNAMELen <? zlen l then take (Z.to_nat maxCNAMELen) l else l) = trim l.
Proof.
  unfold maxCNAMELen, trim. destruct (Z.ltb_spec 255 (zlen l)) as [|H]; [done|]. rewrite take_ge; [done|]. unfold zlen in H. lia.
Qed.

Lemma zlen_enc p : valid p -> zlen (enc p) = MarshalSize p.
Proof.
  destruct p; cbn [valid enc MarshalSize]; intros Hv; rewrite ?zlen_app, ?zlen_hdr, ?zlen_be, ?zlen_enc_records, ?zlen_fmap; try done.
  - destruct Hv as (_ & _ & ->). done.
  - rewrite !zlen_replicate, zlen_trim. unfold maxCNAMELen, sdesFixedSize. rewrite !sdesSize_pad.
    destruct (padTo4_spec (Z.min (zlen CNAME) 255 + 11)). change (zlen [sdesItemCNAME]) with 1.
    change (zlen [Z.min (zlen CNAME) 255]) with 1. lia.
  - unfold appFixedSize. lia.
  - unfold appFixedSize. lia.
  - unfold enc_echo, echoFixedSize. rewrite !zlen_app, zlen_hdr, !zlen_be, zlen_pad4. lia.
  - unfold enc_echo, echoFixedSize. rewrite !zlen_app, zlen_hdr, !zlen_be, zlen_pad4. lia.
Qed.

(** ** Encoding writes the byte string *)

Lemma appendHeader_spec s c pt w : data (appendHeader s c pt w) = data s ++ hdr c pt w.
Proof. unfold appendHeader, hdr, append. cbn [data be_bytes app]. unfold u8, uwrap. by rewrite Z.shiftr_div_pow2. Qed.

Lemma fill_spec s n f e :
  0 <= n -> (forall w, zlen w = n -> f w = Ok e) -> exists sp, fill s n f = Ok (mkSlice (data s ++ e) sp).
Proof.
  intros Hn Hf. unfold fill. rewrite Hf; [by eexists|]. unfold grow, zlen. rewrite length_take, length_app, length_replicate. lia.
Qed.

(** Appending a header and a window. *)
Lemma append_spec s c pt w n f e :
  0 <= n -> (forall w, zlen w = n -> f w = Ok e) ->
  exists sp, fill (appendHeader s c pt w) n f = Ok (mkSlice (data s ++ hdr c pt w ++ e) sp).
Proof.
  intros Hn Hf. destruct (fill_spec (appendHeader s c pt w) n f e Hn Hf) as [sp ->]. exists sp.
  by rewrite appendHeader_spec, <-app_assoc.
Qed.

Lemma write_records_spec rs off P t :
  off = zlen P -> 4 * zlen rs = zlen t -> write_records rs off (P ++ t) = Ok (P ++ enc_records rs).
Proof.
  revert off P t. induction rs as [|[a b] rs IH]; intros off P t Ho Ht; cbn [write_records].
  - change (zlen (@nil (Z * Z))) with 0 in Ht. rewrite app_full by lia. change (enc_records []) with (@nil Z). by rewrite app_nil_r.
  - rewrite zlen_cons in Ht. pose proof (zlen_nonneg rs). do 2 put_step. rewrite IH by (zlens; lia).
    change (enc_records ((a, b) :: rs)) with ((be_bytes 2 a ++ be_bytes 2 b) ++ enc_records rs). by rewrite <-!app_assoc.
Qed.

Lemma zero_from_end P t off : off = zlen P -> zero_from (P ++ t) off = P ++ replicate (Z.to_nat (zlen t)) 0.
Proof. intros ->. rewrite zero_from_next. unfold zlen. by rewrite Nat2Z.id. Qed.

Lemma be4_low v : be_bytes 4 (Z.land v 16777215) = [0] ++ be_bytes 3 v.
Proof.
  change 16777215 with (Z.ones 24). rewrite Z.land_ones by lia. set (m := v mod 2 ^ 24).
  assert (Hm : 0 <= m < 2 ^ 24) by (apply Z.mod_pos_bound; lia). cbn [be_bytes app].
  assert (E : v = m + v / 2 ^ 24 * 256 * 65536) by (subst m; pose proof (Z.div_mod v (2 ^ 24)); lia).
  assert (E3 : m / 256 / 256 / 256 = 0) by (rewrite !Z.div_div by lia; apply Z.div_small; lia). rewrite E3.
  rewrite E. set (k := v / 2 ^ 24).
  replace (m + k * 256 * 65536) with (m + k * 65536 * 256) by lia. rewrite Z.mod_add, Z.div_add by lia.
  replace (m / 256 + k * 65536) with (m / 256 + k * 256 * 256) by lia. rewrite Z.mod_add, Z.div_add by lia.
  by rewrite Z.mod_add.
Qed.

(** Overwriting the first byte of what was written last. *)
Lemma put_over {E} P x y l t off : off = zlen P -> put (E:=E) ((P ++ x :: l) ++ t) off [y] = Ok ((P ++ y :: l) ++ t).
Proof.
  intros ->. unfold put. pose proof (zlen_nonneg P). pose proof (zlen_nonneg t). pose proof (zlen_nonneg l).
  rewrite !(proj2 (Z.leb_le _ _)) by (zlens; lia). cbn [andb]. unfold zlen. rewrite Nat2Z.id, <-!app_assoc, take_app_length.
  cbn [length]. rewrite drop_app_ge by lia. replace (length P + 1 - length P)%nat with 1%nat by lia. done.
Qed.

Lemma appendEcho_spec s c ssrc ts delay padding :
  padTo4 (zlen padding) / 4 <= 65530 ->
  exists sp, appendEcho s c ssrc ts delay padding = Ok (mkSlice (data s ++ enc_echo c ssrc ts delay padding) sp).
Proof.
  intros Hp. unfold appendEcho, enc_echo, echoFixedSize, headerSize. pose proof (zlen_nonneg padding). destruct (padTo4_spec (zlen padding)) as [Hm Hr].
  rewrite Z.quot_div_nonneg by lia. pose proof (Z.div_pos (padTo4 (zlen padding)) 4).
  rewrite (uwrap_id 16) by lia. apply append_spec; [lia|].
  intros w Hw. change w with ([] ++ w). do 4 put_step. rewrite copy_next by (zlens; lia). cbn [mbind res_bind].
  rewrite zero_from_end by (zlens; lia). rewrite app_nil_l, <-!app_assoc. unfold pad4. zlens. do 8 f_equal. lia.
Qed.

Lemma AppendTo_spec p s : valid p -> exists sp, AppendTo p s = Ok (mkSlice (data s ++ enc p) sp).
Proof.
  destruct p; cbn [valid enc AppendTo]; intros Hv;
    unfold appendSenderReport, appendEmptyReceiverReport, appendReceiverReport, appendLinkQualityReport, appendSDES, appendRangeNACK,
      appendBitmaskNACK, appendExtSeq, appendEchoRequest, appendEchoResponse.
  - apply append_spec; [done|]. unfold senderReportSize, headerSize. intros w Hw. change w with ([] ++ w). do 4 put_step. put_done.
  - apply append_spec; [done|]. unfold emptyRRSize, headerSize. intros w Hw. change w with ([] ++ w). put_done.
  - apply append_spec; [done|]. unfold receiverReportSize, headerSize. intros w Hw. change w with ([] ++ w). do 2 put_step.
    rewrite be4_low. put_step. cbn [app]. rewrite put_over by (zlens; lia). cbn [mbind res_bind]. do 3 put_step. put_done.
  - destruct Hv as (_ & _ & Hl). unfold LQMExtensionSize in Hl. apply append_spec; [done|]. unfold lqmReportSize, emptyRRSize, LQMExtensionSize, headerSize.
    intros w Hw. change w with ([] ++ w). put_step. rewrite copy_next by (zlens; lia). cbn [mbind res_bind]. f_equal. rewrite app_full by (zlens; lia). done.
  - rewrite trim_code. pose proof (zlen_trim CNAME) as Ht. pose proof (zlen_nonneg CNAME). rewrite sdesSize_pad. set (name := trim CNAME) in *.
    destruct (padTo4_spec (zlen name + 11)) as [Hm Hr]. unfold headerSize, sdesFixedSize. rewrite Z.quot_div_nonneg by lia.
    pose proof (Z.div_mod (padTo4 (zlen name + 11)) 4). rewrite (uwrap_id 16) by lia.
    apply append_spec; [lia|]. intros w Hw. change w with ([] ++ w). do 3 put_step. rewrite copy_next by (zlens; lia). cbn [mbind res_bind].
    rewrite zero_from_end by (zlens; lia). rewrite (uwrap_id 8) by lia. rewrite app_nil_l, <-!app_assoc. zlens. do 8 f_equal. lia.
  - destruct Hv as (_ & _ & Hl). pose proof (zlen_nonneg Ranges). rewrite (uwrap_id 16) by lia. apply append_spec; [unfold appFixedSize, headerSize; lia|].
    unfold appFixedSize, headerSize. intros w Hw. change w with ([] ++ w). do 2 put_step. rewrite write_records_spec; [by rewrite <-!app_assoc|by zlens|rewrite zlen_fmap; zlens; lia].
  - destruct Hv as (_ & _ & _ & Hl). pose proof (zlen_nonneg FCIs). rewrite (uwrap_id 16) by lia. apply append_spec; [unfold appFixedSize, headerSize; lia|].
    unfold appFixedSize, headerSize. intros w Hw. change w with ([] ++ w). do 2 put_step. rewrite write_records_spec; [by rewrite <-!app_assoc|by zlens|rewrite zlen_fmap; zlens; lia].
  - apply append_spec; [done|]. unfold extSeqSize, headerSize. intros w Hw. change w with ([] ++ w). do 4 put_step. put_done.
  - apply appendEcho_spec. tauto.
  - apply appendEcho_spec. tauto.
  - by eexists.
Qed.

(** ** Decoding reads it back *)

Lemma u32_at_ok b i x : At b i (be_bytes 4 x) -> in_u32 x -> u32_at b i = Ok x.
Proof. intros. by apply at_u32. Qed.
Lemma u64_at_ok b i x : At b i (be_bytes 8 x) -> in_u64 x -> u64_at b i = Ok x.
Proof. intros. by apply at_u64. Qed.
Lemma u16_from_ok b i x : At b i (be_bytes 2 x) -> in_u16 x -> u16_from b i = Ok x.
Proof. intros. by apply at_u16_from. Qed.

(** The framing of a packet at the front of a buffer. *)
Lemma parseHeader_ok b0 b1 words body rest :
  in_u8 b0 -> Z.shiftr b0 6 = 2 -> in_u16 words -> zlen ([b0] ++ [b1] ++ be_bytes 2 words ++ body) = (words + 1) * 4 ->
  parseHeader (([b0] ++ [b1] ++ be_bytes 2 words ++ body) ++ rest) = Ok (mkHeader (Z.land b0 31) b1 ((words + 1) * 4)).
Proof.
  intros Hb Hv Hw Hl. set (p := [b0] ++ _) in *. pose proof (zlen_nonneg rest). pose proof (zlen_nonneg body).
  assert (4 <= zlen p) by (subst p; zlens; lia). unfold parseHeader, headerSize. rewrite zlen_app.
  destruct (Z.ltb_spec (zlen p + zlen rest) 4); [lia|]. rewrite Hl. subst p. rewrite <-!app_assoc. set (buf := [b0] ++ _).
  rewrite (at_idx buf 0 b0) by (subst buf; at_solve). cbn [mbind res_bind]. rewrite Hv. cbn [Z.eqb negb Pos.eqb].
  rewrite (at_u16 buf 2 words) by (done || (subst buf; at_solve)). cbn [mbind res_bind].
  destruct (Z.ltb_spec ((words + 1) * 4 + zlen rest) ((words + 1) * 4)); [lia|].
  by rewrite (at_idx buf 1 b1) by (subst buf; at_solve).
Qed.

Definition pick (o : option Packet) (b : bytes) : Packet := match o with Some p => p | None => Raw b end.

Lemma Parse_framed b0 b1 words body rest o :
  let b := [b0] ++ [b1] ++ be_bytes 2 words ++ body in
  in_u8 b0 -> Z.shiftr b0 6 = 2 -> in_u16 words -> zlen b = (words + 1) * 4 ->
  (if Z.land b0 32 =? 0 then decodeTyped (mkHeader (Z.land b0 31) b1 (zlen b)) b else Ok None) = Ok o ->
  Parse (b ++ rest) = Ok (pick o b, zlen b).
Proof.
  intros b Hb Hv Hw Hl Hd. unfold Parse. subst b. rewrite parseHeader_ok by done. cbn [mbind res_bind size]. rewrite <-Hl.
  set (b := [b0] ++ _) in *. rewrite slc_here by done. cbn [mbind res_bind].
  rewrite (at_idx _ 0 b0) by (subst b; rewrite <-!app_assoc; at_solve). cbn [mbind res_bind]. rewrite Hd. done.
Qed.

(** A packet of one of the shapes, whose flags octet is the version and the count. *)
Lemma Parse_hdr c pt words body rest o :
  0 <= c < 4 -> in_u16 words -> zlen body = words * 4 ->
  (forall h, h = mkHeader c pt (4 + zlen body) -> decodeTyped h (hdr c pt words ++ body) = Ok o) ->
  Parse ((hdr c pt words ++ body) ++ rest) = Ok (pick o (hdr c pt words ++ body), 4 + zlen body).
Proof.
  intros Hc Hw Hl Hd. assert (Hz : zlen (hdr c pt words ++ body) = 4 + zlen body) by (by rewrite zlen_app, zlen_hdr).
  rewrite <-Hz. unfold hdr in *. rewrite <-!app_assoc in *.
  assert (Hcc : c = 0 \/ c = 1 \/ c = 2 \/ c = 3) by lia.
  apply (Parse_framed (Z.lor versionFlag c) pt words body rest o); [..|done| |].
  - destruct Hcc as [->|[->|[->| ->]]]; split; done.
  - destruct Hcc as [->|[->|[->| ->]]]; done.
  - lia.
  - assert (E : Z.land (Z.lor versionFlag c) 32 = 0 /\ Z.land (Z.lor versionFlag c) 31 = c) by (by destruct Hcc as [->|[->|[->| ->]]]).
    destruct E as [-> ->]. cbn [Z.eqb]. apply Hd. by rewrite Hz.
Qed.

Lemma read_records_spec rs b off :
  At b off (enc_records rs) -> Forall (fun '(x, y) => in_u16 x /\ in_u16 y) rs -> read_records b off (length rs) = Ok rs.
Proof.
  intros Ha Hrs. revert off Ha. induction Hrs as [|[x y] rs [Hx Hy] Hrs IH]; intros off Ha; [done|].
  change (enc_records ((x, y) :: rs)) with ((be_bytes 2 x ++ be_bytes 2 y) ++ enc_records rs) in Ha.
  apply at_split in Ha as [H1 H2]. apply at_split in H1 as [H1 H3]. rewrite zlen_app, !zlen_be in *.
  change (Z.of_nat 2 + Z.of_nat 2) with 4 in H2. change (Z.of_nat 2) with 2 in H3. cbn [read_records length].
  rewrite (u16_from_ok _ _ _ H1 Hx). cbn [mbind res_bind]. rewrite (u16_from_ok _ _ _ H3 Hy). cbn [mbind res_bind].
  rewrite (IH _ H2). done.
Qed.

(** Reading the fields of a shape from its layout. *)
Ltac rd32 := erewrite u32_at_ok; [cbn [mbind res_bind]|unfold hdr; rewrite <-?app_assoc; at_solve|done].
Ltac rd64 := erewrite u64_at_ok; [cbn [mbind res_bind]|unfold hdr; rewrite <-?app_assoc; at_solve|done].

Lemma name_rist : in_u32 NameRIST.
Proof. done. Qed.
#[local] Hint Resolve name_rist : core.

Lemma decode_app_prefix c words ssrc t :
  let b := hdr c PTApp words ++ be_bytes 4 ssrc ++ be_bytes 4 NameRIST ++ t in
  forall n, decodeTyped (mkHeader c PTApp n) b =
    if c =? AppSubtypeRangeNACK then decodeRangeNACK b
    else if c =? AppSubtypeExtSeq then decodeExtSeq b
    else if (c =? AppSubtypeEchoRequest) || (c =? AppSubtypeEchoResponse) then decodeEcho c b
    else Ok None.
Proof.
  intros b n. unfold decodeTyped. cbn [pt]. unfold decodeApp. cbn [count Z.eqb Pos.eqb].
  assert (Hl : 12 <= zlen b) by (subst b; unfold hdr; zlens; pose proof (zlen_nonneg t); lia).
  change (PTApp =? PTSenderReport) with false. change (PTApp =? PTReceiverReport) with false. change (PTApp =? PTSDES) with false.
  change (PTApp =? PTApp) with true. cbn match. unfold appFixedSize. destruct (Z.ltb_spec (zlen b) 12); [lia|].
  subst b. rewrite (u32_at_ok _ 8 NameRIST) by (done || (unfold hdr; rewrite <-?app_assoc; at_solve)). cbn [mbind res_bind].
  rewrite Z.eqb_refl. done.
Qed.

Lemma decode_echo_body c words ssrc ts delay pad :
  in_u32 ssrc -> in_u64 ts -> in_u32 delay -> (c = 2 \/ c = 3) ->
  let b := hdr c PTApp words ++ be_bytes 4 ssrc ++ be_bytes 4 NameRIST ++ be_bytes 8 ts ++ be_bytes 4 delay ++ pad in
  decodeEcho c b = Ok (Some (if c =? 2 then EchoRequest ssrc ts pad else EchoResponse ssrc ts delay pad)).
Proof.
  intros Hs Ht Hd Hc b. assert (Hl : zlen b = 24 + zlen pad) by (subst b; unfold hdr; zlens; lia). pose proof (zlen_nonneg pad).
  unfold decodeEcho, echoFixedSize. destruct (Z.ltb_spec (zlen b) 24); [lia|].
  rewrite (u32_at_ok _ 4 ssrc) by (done || (subst b; unfold hdr; rewrite <-?app_assoc; at_solve)). cbn [mbind res_bind].
  rewrite (u64_at_ok _ 12 ts) by (done || (subst b; unfold hdr; rewrite <-?app_assoc; at_solve)). cbn [mbind res_bind].
  assert (E : slc_from (E:=error) b 24 = Ok pad).
  { unfold slc_from. apply at_slc; [subst b; unfold hdr; rewrite <-?app_assoc; at_solve|lia]. }
  rewrite E. cbn [mbind res_bind]. unfold AppSubtypeEchoRequest. destruct Hc as [->| ->]; cbn [Z.eqb Pos.eqb]; [done|].
  by rewrite (u32_at_ok _ 20 delay) by (done || (subst b; unfold hdr; rewrite <-?app_assoc; at_solve)).
Qed.

Lemma Parse_enc_echo c ssrc ts delay padding rest :
  in_u32 ssrc -> in_u64 ts -> in_u32 delay -> padTo4 (zlen padding) / 4 <= 65530 -> (c = 2 \/ c = 3) ->
  Parse (enc_echo c ssrc ts delay padding ++ rest) =
    Ok (if c =? 2 then EchoRequest ssrc ts (pad4 padding) else EchoResponse ssrc ts delay (pad4 padding), echoFixedSize + padTo4 (zlen padding)).
Proof.
  intros Hs Ht Hd Hp Hc. unfold enc_echo. destruct (padTo4_spec (zlen padding)) as [Hm Hr]. pose proof (zlen_nonneg padding).
  pose proof (Z.div_mod (padTo4 (zlen padding)) 4). pose proof (Z.div_pos (padTo4 (zlen padding)) 4).
  set (body := be_bytes 4 ssrc ++ _). assert (Hb : zlen body = 20 + padTo4 (zlen padding)) by (subst body; zlens; rewrite zlen_pad4; lia).
  rewrite (Parse_hdr c PTApp _ body rest (Some (if c =? 2 then EchoRequest ssrc ts (pad4 padding) else EchoResponse ssrc ts delay (pad4 padding)))).
  - rewrite Hb. unfold pick, echoFixedSize. do 2 f_equal. lia.
  - lia.
  - unfold in_u16. lia.
  - lia.
  - intros h ->. subst body. rewrite decode_app_prefix.
    assert (E1 : (c =? AppSubtypeRangeNACK) = false) by (by destruct Hc as [->| ->]).
    assert (E2 : (c =? AppSubtypeExtSeq) = false) by (by destruct Hc as [->| ->]).
    assert (E3 : (c =? AppSubtypeEchoRequest) || (c =? AppSubtypeEchoResponse) = true) by (by destruct Hc as [->| ->]).
    rewrite E1, E2, E3. by apply decode_echo_body.
Qed.

Lemma ranges_of_fields (ranges : list NackRange) : ((fun '(a, b) => mkNackRange a b) <$> (range_fields <$> ranges)) = ranges.
Proof. induction ranges as [|[] rs IH]; cbn; [done|]. by rewrite IH. Qed.
Lemma pairs_of_fields (fcis : list NackPair) : ((fun '(a, b) => mkNackPair a b) <$> (pair_fields <$> fcis)) = fcis.
Proof. induction fcis as [|[] rs IH]; cbn; [done|]. by rewrite IH. Qed.
Lemma ranges_typed ranges : Forall range_typed ranges -> Forall (fun '(x, y) => in_u16 x /\ in_u16 y) (range_fields <$> ranges).
Proof. induction 1 as [|[] rs H]; cbn; by constructor. Qed.
Lemma pairs_typed fcis : Forall pair_typed fcis -> Forall (fun '(x, y) => in_u16 x /\ in_u16 y) (pair_fields <$> fcis).
Proof. induction 1 as [|[] rs H]; cbn; by constructor. Qed.

Lemma be3_low v : 0 <= v -> be ([0] ++ be_bytes 3 v) = Z.land v 16777215.
Proof. intros Hv. rewrite <-be4_low. apply be_u32. change 16777215 with (Z.ones 24). rewrite Z.land_ones by lia. pose proof (Z.mod_pos_bound v (2 ^ 24)). unfold in_u32. lia. Qed.

(** The 32-bit word whose high byte is the fraction lost. *)
Lemma lost_word x v : in_u8 x -> 0 <= v -> Z.land (be ([x] ++ be_bytes 3 v)) 16777215 = Z.land v 16777215.
Proof.
  intros Hx Hv. assert (E : be ([x] ++ be_bytes 3 v) = x * 2 ^ 24 + be ([0] ++ be_bytes 3 v)).
  { unfold be. cbn [be_bytes app fold_left]. lia. }
  rewrite E, be3_low by done. change 16777215 with (Z.ones 24). rewrite !Z.land_ones by lia.
  rewrite Z.add_comm, Z.mod_add by lia. apply Z.mod_mod. lia.
Qed.

Lemma Parse_sdes ssrc cname rest :
  in_u32 ssrc -> Parse (enc (SDES ssrc cname) ++ rest) = Ok (SDES ssrc (trim cname), MarshalSize (SDES ssrc cname)).
Proof.
  intros Hs. cbn [enc MarshalSize]. pose proof (zlen_trim cname) as Ht. pose proof (zlen_nonneg cname). unfold maxCNAMELen. rewrite <-Ht.
  set (name := trim cname) in *. rewrite sdesSize_pad. unfold sdesFixedSize. destruct (padTo4_spec (zlen name + 11)) as [Hm Hr].
  pose proof (Z.div_mod (padTo4 (zlen name + 11)) 4). set (body := be_bytes 4 ssrc ++ _).
  assert (Hb : zlen body = padTo4 (zlen name + 11) - 4) by (subst body; zlens; lia).
  rewrite (Parse_hdr 1 PTSDES _ body rest (Some (SDES ssrc name))); [|lia|unfold in_u16; lia|lia|].
  { rewrite Hb. unfold pick. do 2 f_equal. lia. }
  intros h ->. unfold decodeTyped. cbn [pt]. change (PTSDES =? PTSenderReport) with false. change (PTSDES =? PTReceiverReport) with false.
  change (PTSDES =? PTSDES) with true. cbn match. unfold decodeSDES. cbn [count size Z.eqb Pos.eqb negb orb]. unfold sdesFixedSize.
  destruct (Z.ltb_spec (4 + zlen body) (10 + 1)); [lia|]. set (b := hdr _ _ _ ++ body).
  rewrite (at_idx b 8 sdesItemCNAME) by (subst b body; unfold hdr; rewrite <-?app_assoc; at_solve). cbn [mbind res_bind].
  rewrite Z.eqb_refl. cbn [negb]. rewrite (at_idx b 9 (zlen name)) by (subst b body; unfold hdr; rewrite <-?app_assoc; at_solve). cbn [mbind res_bind].
  destruct (Z.ltb_spec (4 + zlen body) (10 + zlen name + 1)); [lia|].
  set (z := replicate _ 0) in body. assert (E : slc_from (E:=error) b (10 + zlen name) = Ok z).
  { unfold slc_from. apply at_slc; [subst b body; unfold hdr; rewrite <-?app_assoc; at_solve|]. subst b body. unfold hdr. zlens. lia. }
  rewrite E. cbn [mbind res_bind]. assert (Ez : forallb (fun b => b =? 0) z = true).
  { apply forallb_forall. intros x Hx. apply list_elem_of_In, elem_of_replicate in Hx as [-> _]. done. }
  rewrite Ez. cbn [negb]. rewrite (u32_at_ok b 4 ssrc) by (done || (subst b body; unfold hdr; rewrite <-?app_assoc; at_solve)). cbn [mbind res_bind].
  by rewrite (at_slc b 10 name) by (done || (subst b body; unfold hdr; rewrite <-?app_assoc; at_solve)).
Qed.

Lemma Parse_reports p rest :
  is_report p = true -> valid p -> Parse (enc p ++ rest) = Ok (norm p, MarshalSize p).
Proof.
  destruct p; try done; intros _ Hv.
  - destruct Hv as (H1 & H2 & H3 & H4 & H5). cbn [enc].
    rewrite (Parse_hdr 0 PTSenderReport 6 _ rest (Some (SenderReport SSRC NTP RTPTime PacketCount OctetCount))); [by zlens|done|done|by zlens|intros h ->].
    unfold decodeTyped. cbn [pt]. change (PTSenderReport =? PTSenderReport) with true. cbn match.
    unfold decodeSenderReport. cbn [count size]. zlens. cbn [Z.eqb negb orb]. 
    change (negb (4 + (Z.of_nat 4 + (Z.of_nat 8 + (Z.of_nat 4 + (Z.of_nat 4 + Z.of_nat 4)))) =? senderReportSize)) with false. cbn match.
    rd32. rd64. do 3 rd32. done.
  - cbn in Hv. cbn [enc].
    rewrite (Parse_hdr 0 PTReceiverReport 1 _ rest (Some (EmptyReceiverReport SSRC))); [by zlens|done|done|by zlens|intros h ->].
    unfold decodeTyped. cbn [pt]. change (PTReceiverReport =? PTSenderReport) with false. change (PTReceiverReport =? PTReceiverReport) with true. cbn match.
    unfold decodeReceiverReport. cbn [count size]. rewrite zlen_be. change ((0 =? 0) && (4 + Z.of_nat 4 =? emptyRRSize)) with true. cbn match. rd32. done.
  - destruct Hv as (H1 & H2 & H3 & H4 & H5 & H6 & H7 & H8). cbn [enc norm].
    set (body := be_bytes 4 SenderSSRC ++ _). assert (Hb : zlen body = 28) by (subst body; by zlens).
    rewrite (Parse_hdr 1 PTReceiverReport 7 _ rest (Some (ReceiverReport SenderSSRC MediaSSRC FractionLost (Z.land CumulativeLost 16777215) HighestSeq Jitter LSR DLSR))); [by rewrite Hb|done|done|by rewrite Hb|intros h ->].
    unfold decodeTyped. cbn [pt]. change (PTReceiverReport =? PTSenderReport) with false. change (PTReceiverReport =? PTReceiverReport) with true. cbn match.
    unfold decodeReceiverReport. cbn [count size]. rewrite Hb. change ((1 =? 0) && (4 + 28 =? emptyRRSize)) with false.
    change ((1 =? 1) && (4 + 28 =? receiverReportSize)) with true. cbn match. subst body. do 2 rd32.
    rewrite (at_idx _ 12 FractionLost) by (unfold hdr; rewrite <-?app_assoc; at_solve). cbn [mbind res_bind].
    assert (E : u32_at (hdr 1 PTReceiverReport 7 ++ be_bytes 4 SenderSSRC ++ be_bytes 4 MediaSSRC ++ [FractionLost] ++ be_bytes 3 CumulativeLost ++
      be_bytes 4 HighestSeq ++ be_bytes 4 Jitter ++ be_bytes 4 LSR ++ be_bytes 4 DLSR) 12 = Ok (be ([FractionLost] ++ be_bytes 3 CumulativeLost))).
    { unfold u32_at. rewrite (at_slc _ 12 ([FractionLost] ++ be_bytes 3 CumulativeLost)).
      - cbn [mbind res_bind]. apply Uint32_all. by zlens.
      - unfold hdr. rewrite <-!app_assoc. apply at_join; at_solve.
      - by zlens. }
    rewrite E. cbn [mbind res_bind]. rewrite lost_word by (done || (unfold in_u32 in *; lia)). do 4 rd32. done.
  - destruct Hv as (H1 & H2 & H3). unfold LQMExtensionSize in H3. cbn [enc norm].
    rewrite (Parse_hdr 0 PTReceiverReport 12 _ rest (Some (LinkQualityReport SSRC LQM))); [zlens; by rewrite H3|done|done|zlens; lia|intros h ->].
    unfold decodeTyped. cbn [pt]. change (PTReceiverReport =? PTSenderReport) with false. change (PTReceiverReport =? PTReceiverReport) with true. cbn match.
    unfold decodeReceiverReport. cbn [count size]. rewrite zlen_app, zlen_be, H3. change ((0 =? 0) && (4 + (Z.of_nat 4 + 44) =? emptyRRSize)) with false.
    change ((0 =? 1) && (4 + (Z.of_nat 4 + 44) =? receiverReportSize)) with false. change ((0 =? 0) && (4 + (Z.of_nat 4 + 44) =? lqmReportSize)) with true.
    cbn match. rd32. rewrite (at_slc _ 8 LQM); [done|unfold hdr; rewrite <-?app_assoc; at_solve|rewrite H3; done].
Qed.

(** Decoding an encoded packet, whatever follows it. *)
Lemma Parse_enc p rest : valid p -> Parse (enc p ++ rest) = Ok (norm p, MarshalSize p).
Proof.
  intros Hv. destruct p; try (by apply Parse_reports).
  - apply Parse_sdes, Hv.
  - destruct Hv as (H1 & H2 & H3). cbn [enc norm]. pose proof (zlen_nonneg Ranges). set (rs := range_fields <$> Ranges).
    assert (Hrs : zlen (enc_records rs) = 4 * zlen Ranges) by (by subst rs; rewrite zlen_enc_records, zlen_fmap).
    rewrite (Parse_hdr 0 PTApp _ _ rest (Some (RangeNACK MediaSSRC Ranges))); [|done|unfold in_u16; lia|zlens; lia|intros h ->].
    { cbn [MarshalSize]. unfold appFixedSize. zlens. unfold pick. do 2 f_equal. lia. }
    rewrite decode_app_prefix. change (0 =? AppSubtypeRangeNACK) with true. cbn match. unfold decodeRangeNACK, appFixedSize. rd32.
    assert (Hn : Z.to_nat ((zlen (hdr 0 PTApp (2 + zlen Ranges) ++ be_bytes 4 MediaSSRC ++ be_bytes 4 NameRIST ++ enc_records rs) - 12) /g 4) = length rs).
    { unfold hdr. zlens. rewrite Hrs. replace (_ - 12) with (zlen Ranges * 4) by lia. rewrite Z.quot_mul by lia. subst rs. rewrite length_fmap. unfold zlen. lia. }
    rewrite Hn, read_records_spec; [|unfold hdr; rewrite <-?app_assoc; at_solve|by apply ranges_typed].
    cbn [mbind res_bind]. subst rs. by rewrite ranges_of_fields.
  - destruct Hv as (H1 & H2 & H3 & H4). cbn [enc norm]. pose proof (zlen_nonneg FCIs). set (rs := pair_fields <$> FCIs).
    assert (Hrs : zlen (enc_records rs) = 4 * zlen FCIs) by (by subst rs; rewrite zlen_enc_records, zlen_fmap).
    set (body := be_bytes 4 SenderSSRC ++ _). assert (Hb : zlen body = 8 + 4 * zlen FCIs) by (subst body; zlens; lia).
    rewrite (Parse_hdr 1 PTTransportFeedback _ body rest (Some (BitmaskNACK SenderSSRC MediaSSRC FCIs))); [|done|unfold in_u16; lia|lia|intros h ->].
    { cbn [MarshalSize]. unfold appFixedSize. rewrite Hb. unfold pick. do 2 f_equal. lia. }
    unfold decodeTyped. cbn [pt]. change (PTTransportFeedback =? PTSenderReport) with false. change (PTTransportFeedback =? PTReceiverReport) with false.
    change (PTTransportFeedback =? PTSDES) with false. change (PTTransportFeedback =? PTApp) with false. change (PTTransportFeedback =? PTTransportFeedback) with true. cbn match.
    unfold decodeBitmaskNACK, appFixedSize. cbn [count size]. rewrite Hb. change (negb (1 =? FMTGenericNACK)) with false. cbn [orb].
    destruct (Z.ltb_spec (4 + (8 + 4 * zlen FCIs)) 12); [lia|]. subst body. do 2 rd32.
    assert (Hn : Z.to_nat ((4 + (8 + 4 * zlen FCIs) - 12) /g 4) = length rs).
    { replace (_ - 12) with (zlen FCIs * 4) by lia. rewrite Z.quot_mul by lia. subst rs. rewrite length_fmap. unfold zlen. lia. }
    rewrite Hn, read_records_spec; [|unfold hdr; rewrite <-?app_assoc; at_solve|by apply pairs_typed].
    cbn [mbind res_bind]. subst rs. by rewrite pairs_of_fields.
  - destruct Hv as (H1 & H2). cbn [enc norm].
    rewrite (Parse_hdr 1 PTApp 3 _ rest (Some (ExtSeq SSRC SeqHigh))); [by zlens|done|done|by zlens|intros h ->].
    rewrite decode_app_prefix. change (1 =? AppSubtypeRangeNACK) with false. change (1 =? AppSubtypeExtSeq) with true. cbn match.
    unfold decodeExtSeq. assert (Hz : forall t, zlen t = 4 -> (zlen (hdr 1 PTApp 3 ++ be_bytes 4 SSRC ++ be_bytes 4 NameRIST ++ t) =? extSeqSize) = true).
    { intros t Ht. unfold hdr. zlens. rewrite Ht. done. }
    rewrite Hz by (by zlens). cbn [negb]. rd32. erewrite at_u16; [|unfold hdr; rewrite <-?app_assoc; at_solve|done|done]. done.
  - destruct Hv as (H1 & H2 & H3 & H4). apply (Parse_enc_echo 2); try done. by left.
  - destruct Hv as (H1 & H2 & H3 & H4 & H5). apply (Parse_enc_echo 3); try done. by right.
  - destruct Hv as (b0 & b1 & words & t & h & -> & Hb0 & Hw & Hv & Hl & -> & Hd). cbn [enc norm MarshalSize].
    apply (Parse_framed b0 b1 words t rest None); try done. destruct Hd as [Hd|Hd]; [by rewrite (proj2 (Z.eqb_neq _ _) Hd)|].
    rewrite Hd. by destruct (_ =? 0).
Qed.

(** ** Decoding arbitrary bytes *)

Lemma u32_at_any b i : is_bytes b -> 0 <= i -> i + 4 <= zlen b -> exists x, u32_at b i = Ok x /\ in_u32 x.
Proof.
  intros Hb Hi Hl. unfold u32_at. destruct (slc_ok (E:=error) b i (i + 4)) as (c & -> & Hc & Ht); [lia..|]. cbn [mbind res_bind].
  rewrite Uint32_all by lia. eexists. split; [done|]. pose proof (be_range c (Ht Hb)) as Hr. rewrite Hc in Hr. by replace (i + 4 - i) with 4 in Hr by lia.
Qed.

Lemma u64_at_any b i : is_bytes b -> 0 <= i -> i + 8 <= zlen b -> exists x, u64_at b i = Ok x /\ in_u64 x.
Proof.
  intros Hb Hi Hl. unfold u64_at. destruct (slc_ok (E:=error) b i (i + 8)) as (c & -> & Hc & Ht); [lia..|]. cbn [mbind res_bind].
  rewrite Uint64_all by lia. eexists. split; [done|]. pose proof (be_range c (Ht Hb)) as Hr. rewrite Hc in Hr. by replace (i + 8 - i) with 8 in Hr by lia.
Qed.

Lemma u16_slc_any b i : is_bytes b -> 0 <= i -> i + 2 <= zlen b -> exists x, (t ← slc b i (i + 2); Uint16 t) = Ok (E:=error) x /\ in_u16 x.
Proof.
  intros Hb Hi Hl. destruct (slc_ok (E:=error) b i (i + 2)) as (c & -> & Hc & Ht); [lia..|]. cbn [mbind res_bind].
  rewrite Uint16_all by lia. eexists. split; [done|]. pose proof (be_range c (Ht Hb)) as Hr. rewrite Hc in Hr. by replace (i + 2 - i) with 2 in Hr by lia.
Qed.

Lemma u16_from_any b i : is_bytes b -> 0 <= i -> i + 2 <= zlen b -> exists x, u16_from b i = Ok x /\ in_u16 x.
Proof.
  intros Hb Hi Hl. unfold u16_from. destruct (slc_from_ok (E:=error) b i) as (c & -> & Hc & Ht); [lia|]. cbn [mbind res_bind].
  unfold Uint16. destruct (slc_ok (E:=error) c 0 2) as (d & -> & Hd & Htd); [lia..|]. cbn [mbind res_bind]. eexists. split; [done|].
  pose proof (be_range d (Htd (Ht Hb))) as Hr. rewrite Hd in Hr. done.
Qed.

Lemma read_records_any b off n :
  is_bytes b -> 0 <= off -> off + 4 * Z.of_nat n <= zlen b ->
  exists rs, read_records b off n = Ok rs /\ length rs = n /\ Forall (fun '(x, y) => in_u16 x /\ in_u16 y) rs.
Proof.
  intros Hb. revert off. induction n as [|n IH]; intros off Ho Hl; cbn [read_records]; [by exists []|].
  destruct (u16_from_any b off) as (x & -> & Hx); [done|lia..|]. cbn [mbind res_bind].
  destruct (u16_from_any b (off + 2)) as (y & -> & Hy); [done|lia..|]. cbn [mbind res_bind].
  destruct (IH (off + 4)) as (rs & -> & Hn & Hrs); [lia..|]. cbn [mbind res_bind]. exists ((x, y) :: rs). split_and!; [done|by cbn; f_equal|by constructor].
Qed.

(** What every decoder promises on the body of a framed packet. *)
Definition decoded (r : res error (option Packet)) : Prop :=
  exists o, r = Ok o /\ forall p, o = Some p -> valid p /\ norm p = p.

Lemma decoded_none : decoded (Ok None).
Proof. by exists None. Qed.
Lemma decoded_some p : valid p -> norm p = p -> decoded (Ok (Some p)).
Proof. intros Hv Hn. exists (Some p). split; [done|]. by intros ? [= <-]. Qed.
#[local] Hint Resolve decoded_none : core.

Section body.
Context (h : header) (b : bytes) (words : Z).
Hypothesis (Hb : is_bytes b) (Hw : in_u16 words) (Hl : zlen b = (words + 1) * 4) (Hs : size h = zlen b).

Tactic Notation "get32" constr(i) := destruct (u32_at_any b i Hb) as (? & -> & ?); [lia|lia|]; cbn [mbind res_bind].
Tactic Notation "get64" constr(i) := destruct (u64_at_any b i Hb) as (? & -> & ?); [lia|lia|]; cbn [mbind res_bind].

Lemma decodeSenderReport_any : decoded (decodeSenderReport h b).
Proof.
  unfold decodeSenderReport, senderReportSize. rewrite Hs. destruct (negb (count h =? 0)); [done|]. cbn [orb].
  destruct (Z.eqb_spec (zlen b) 28); [|done]. cbn [negb]. get32 4. get64 8. get32 16. get32 20. get32 24. by apply decoded_some.
Qed.

Lemma land24 v : in_u32 v -> in_u32 (Z.land v 16777215) /\ Z.land (Z.land v 16777215) 16777215 = Z.land v 16777215.
Proof.
  intros Hv. change 16777215 with (Z.ones 24). rewrite !Z.land_ones by lia. rewrite Z.mod_mod by lia. split; [|done].
  pose proof (Z.mod_pos_bound v (2 ^ 24)). unfold in_u32. lia.
Qed.

Lemma decodeReceiverReport_any : decoded (decodeReceiverReport h b).
Proof.
  unfold decodeReceiverReport, emptyRRSize, receiverReportSize, lqmReportSize, emptyRRSize, LQMExtensionSize. rewrite Hs.
  destruct ((count h =? 0) && (zlen b =? 8)) eqn:E1.
  { apply andb_true_iff in E1 as [_ E1%Z.eqb_eq]. get32 4. by apply decoded_some. }
  destruct ((count h =? 1) && (zlen b =? 32)) eqn:E2.
  { apply andb_true_iff in E2 as [_ E2%Z.eqb_eq]. get32 4. get32 8. destruct (idx_ok (E:=error) b 12) as (fl & -> & Hfl); [lia|]. cbn [mbind res_bind].
    destruct (u32_at_any b 12 Hb) as (cl & -> & Hcl); [lia..|]. cbn [mbind res_bind]. get32 16. get32 20. get32 24. get32 28. destruct (land24 cl Hcl).
    apply decoded_some; [cbn; split_and!; try done; by apply Hfl|]. cbn. congruence. }
  destruct ((count h =? 0) && (zlen b =? 8 + 44)) eqn:E3; [|done].
  apply andb_true_iff in E3 as [_ E3%Z.eqb_eq]. get32 4. destruct (slc_ok (E:=error) b 8 (8 + 44)) as (l & -> & Hll & Hlb); [lia..|]. cbn [mbind res_bind].
  apply decoded_some; [|done]. cbn. unfold LQMExtensionSize. split_and!; [done|by apply Hlb|lia].
Qed.

Lemma decodeSDES_any : decoded (decodeSDES h b).
Proof.
  unfold decodeSDES, sdesFixedSize. rewrite Hs. destruct (negb (count h =? 1)); [done|]. cbn [orb]. destruct (Z.ltb_spec (zlen b) (10 + 1)); [done|].
  destruct (idx_ok (E:=error) b 8) as (it & -> & _); [lia|]. cbn [mbind res_bind]. destruct (negb (it =? sdesItemCNAME)); [done|].
  destruct (idx_ok (E:=error) b 9) as (n & -> & Hn); [lia|]. cbn [mbind res_bind]. specialize (Hn Hb). unfold in_u8 in Hn.
  destruct (Z.ltb_spec (zlen b) (10 + n + 1)); [done|]. destruct (slc_from_ok (E:=error) b (10 + n)) as (t & -> & _); [lia|]. cbn [mbind res_bind].
  destruct (negb (forallb _ t)); [done|]. get32 4. destruct (slc_ok (E:=error) b 10 (10 + n)) as (name & -> & Hnl & Hnb); [lia..|]. cbn [mbind res_bind].
  apply decoded_some; [cbn; split; [done|by apply Hnb]|]. cbn. unfold trim. rewrite take_ge; [done|]. unfold zlen in Hnl. lia.
Qed.

Lemma decodeRangeNACK_any : 12 <= zlen b -> decoded (decodeRangeNACK b).
Proof.
  intros H12. unfold decodeRangeNACK, appFixedSize. get32 4. unfold in_u16 in Hw. rewrite Z.quot_div_nonneg by lia. replace (zlen b - 12) with ((words - 2) * 4) by lia.
  rewrite Z.div_mul by lia. destruct (read_records_any b 12 (Z.to_nat (words - 2)) Hb) as (rs & -> & Hn & Hrs); [lia..|]. cbn [mbind res_bind].
  apply decoded_some; [|done]. cbn. split_and!; [done| |rewrite zlen_fmap; unfold zlen; lia]. apply Forall_fmap. eapply Forall_impl; [exact Hrs|]. by intros [].
Qed.

Lemma decodeBitmaskNACK_any : decoded (decodeBitmaskNACK h b).
Proof.
  unfold decodeBitmaskNACK, appFixedSize. rewrite Hs. destruct (negb (count h =? FMTGenericNACK)); [done|]. cbn [orb]. destruct (Z.ltb_spec (zlen b) 12); [done|].
  get32 4. get32 8. unfold in_u16 in Hw. rewrite Z.quot_div_nonneg by lia. replace (zlen b - 12) with ((words - 2) * 4) by lia.
  rewrite Z.div_mul by lia. destruct (read_records_any b 12 (Z.to_nat (words - 2)) Hb) as (rs & -> & Hn & Hrs); [lia..|]. cbn [mbind res_bind].
  apply decoded_some; [|done]. cbn. split_and!; [done|done| |rewrite zlen_fmap; unfold zlen; lia]. apply Forall_fmap. eapply Forall_impl; [exact Hrs|]. by intros [].
Qed.

Lemma decodeExtSeq_any : decoded (decodeExtSeq b).
Proof.
  unfold decodeExtSeq, extSeqSize. destruct (Z.eqb_spec (zlen b) 16); [|done]. cbn [negb]. get32 4.
  destruct (u16_slc_any b 12 Hb) as (sh & E & Hx); [lia..|]. change (12 + 2) with 14 in E. rewrite E. cbn [mbind res_bind]. by apply decoded_some.
Qed.

Lemma decodeEcho_any c : decoded (decodeEcho c b).
Proof.
  unfold decodeEcho, echoFixedSize. destruct (Z.ltb_spec (zlen b) 24); [done|]. get32 4. get64 12.
  destruct (slc_from_ok (E:=error) b 24) as (pad & -> & Hp & Hpb); [lia|]. cbn [mbind res_bind]. unfold in_u16 in Hw.
  assert (Hpz : zlen pad = (words - 5) * 4) by lia. assert (Hm : zlen pad mod 4 = 0) by (rewrite Hpz; apply Z.mod_mul; lia).
  assert (Hid : padTo4 (zlen pad) = zlen pad) by (by apply padTo4_id).
  assert (Hn : pad4 pad = pad) by (unfold pad4; rewrite Hid, Z.sub_diag; apply app_nil_r).
  assert (H30 : padTo4 (zlen pad) / 4 <= 65530) by (rewrite Hid, Hpz, Z.div_mul; lia).
  destruct (c =? AppSubtypeEchoRequest).
  - apply decoded_some; cbn; [split_and!; try done; by apply Hpb|by rewrite Hn].
  - get32 20. apply decoded_some; cbn; [split_and!; try done; by apply Hpb|by rewrite Hn].
Qed.

Lemma decodeTyped_any : decoded (decodeTyped h b).
Proof.
  unfold decodeTyped. destruct (pt h =? PTSenderReport); [apply decodeSenderReport_any|]. destruct (pt h =? PTReceiverReport); [apply decodeReceiverReport_any|].
  destruct (pt h =? PTSDES); [apply decodeSDES_any|]. destruct (pt h =? PTApp); [|destruct (pt h =? PTTransportFeedback); [apply decodeBitmaskNACK_any|done]].
  unfold decodeApp, appFixedSize. destruct (Z.ltb_spec (zlen b) 12); [done|]. destruct (u32_at_any b 8 Hb) as (nm & -> & _); [lia..|]. cbn [mbind res_bind].
  destruct (negb (nm =? NameRIST)); [done|]. destruct (count h =? AppSubtypeRangeNACK); [by apply decodeRangeNACK_any|].
  destruct (count h =? AppSubtypeExtSeq); [apply decodeExtSeq_any|]. destruct (_ || _); [apply decodeEcho_any|done].
Qed.
End body.

(** The size the length field of a buffer declares. *)
Definition declared (b : bytes) : Z := (be (take 2 (drop 2 b)) + 1) * 4.

(** Every buffer is refused for one of the three framing reasons, or its first packet decodes. *)
Lemma Parse_view b :
  is_bytes b ->
  (zlen b < 4 /\ Parse b = Err ErrShortPacket) \/
  (4 <= zlen b /\ Z.shiftr (default 0 (b !! 0%nat)) 6 <> 2 /\ Parse b = Err ErrBadVersion) \/
  (4 <= zlen b /\ Z.shiftr (default 0 (b !! 0%nat)) 6 = 2 /\ zlen b < declared b /\ Parse b = Err ErrShortPacket) \/
  (4 <= zlen b /\ Z.shiftr (default 0 (b !! 0%nat)) 6 = 2 /\ declared b <= zlen b /\ 4 <= declared b /\ declared b mod 4 = 0 /\
    exists p, Parse b = Ok (p, declared b) /\ valid p /\ norm p = p).
Proof.
  intros Hb. destruct (Z.ltb_spec (zlen b) 4) as [Hs|Hl].
  { left. split; [done|]. unfold Parse, parseHeader, headerSize. by rewrite (proj2 (Z.ltb_lt _ _) Hs). }
  right. destruct (bytes_byte b Hb) as (b0 & r0 & -> & Hb0 & Hr0); [lia|]. rewrite zlen_app in Hl. change (zlen [b0]) with 1 in Hl.
  destruct (bytes_byte r0 Hr0) as (b1 & r1 & -> & Hb1 & Hr1); [lia|]. rewrite zlen_app in Hl. change (zlen [b1]) with 1 in Hl.
  destruct (bytes_int 2 r1 Hr1) as (words & r & -> & Hw & Hr); [lia|]. clear Hl. change (256 ^ Z.of_nat 2) with 65536 in Hw.
  assert (Hd : declared ([b0] ++ [b1] ++ be_bytes 2 words ++ r) = (words + 1) * 4).
  { unfold declared. change (drop 2 ([b0] ++ [b1] ++ be_bytes 2 words ++ r)) with (be_bytes 2 words ++ r). rewrite take_app_length' by (by rewrite length_be). by rewrite be_u16. }
  assert (H0 : default 0 (([b0] ++ [b1] ++ be_bytes 2 words ++ r) !! 0%nat) = b0) by done. rewrite H0, Hd.
  set (b := [b0] ++ _) in *. assert (Hbl : zlen b = 4 + zlen r) by (subst b; zlens; lia). pose proof (zlen_nonneg r).
  assert (Hi : idx (E:=error) b 0 = Ok b0) by (apply at_idx; subst b; at_solve).
  assert (Hu : (t ← slc b 2 4; Uint16 t) = Ok (E:=error) words) by (apply at_u16; [subst b; at_solve|done..]).
  destruct (Z.eqb_spec (Z.shiftr b0 6) 2) as [Hv|Hv]; cbn [negb]; [right|left].
  2:{ split_and!; [lia|done|]. unfold Parse, parseHeader, headerSize. destruct (Z.ltb_spec (zlen b) 4); [lia|]. rewrite Hi. cbn [mbind res_bind].
      by rewrite (proj2 (Z.eqb_neq _ _) Hv). }
  destruct (Z.ltb_spec (zlen b) ((words + 1) * 4)) as [Hlt|Hge]; [left|right].
  { split_and!; [lia|done|done|]. unfold Parse, parseHeader, headerSize. destruct (Z.ltb_spec (zlen b) 4); [lia|]. rewrite Hi. cbn [mbind res_bind].
    rewrite Hv. cbn [Z.eqb Pos.eqb negb]. rewrite Hu. cbn [mbind res_bind]. by rewrite (proj2 (Z.ltb_lt _ _) Hlt). }
  split_and!; [lia|done|done|lia|apply Z.mod_mul; lia|].
  destruct (bytes_cut r (Z.to_nat (words * 4)) Hr) as (body & rest & -> & Hlen & Hbb & _); [lia|].
  assert (Hlb : zlen body = words * 4) by (unfold zlen; lia).
  set (q := [b0] ++ [b1] ++ be_bytes 2 words ++ body). assert (Eb : b = q ++ rest) by (subst b q; by rewrite <-!app_assoc).
  assert (Hq : zlen q = (words + 1) * 4) by (subst q; zlens; lia).
  assert (Hqb : is_bytes q) by (rewrite Eb in Hb; by apply Forall_app in Hb as [? _]).
  set (h := mkHeader (Z.land b0 31) b1 (zlen q)).
  destruct (decodeTyped_any h q words Hqb Hw Hq eq_refl) as (o & Eo & Ho).
  set (o' := if Z.land b0 32 =? 0 then o else None). exists (pick o' q). split.
  { rewrite Eb, <-Hq. apply (Parse_framed b0 b1 words body rest o'); try done. subst o'. fold q. fold h. rewrite Eo. by destruct (_ =? 0). }
  subst o'. destruct (Z.eqb_spec (Z.land b0 32) 0).
  - destruct o as [p|]; [by apply Ho|]. split; [|done]. exists b0, b1, words, body, h. split_and!; try done. by right.
  - split; [|done]. exists b0, b1, words, body, h. split_and!; try done. by left.
Qed.

(** ** Compounds *)

Definition is_raw (p : Packet) : bool := match p with Raw _ => true | _ => false end.
Definition is_echo (p : Packet) : bool := match p with EchoRequest _ _ _ | EchoResponse _ _ _ _ => true | _ => false end.

(** The feedback zone: NACKs and foreign packets, and sequence extensions each directly before its NACK. *)
Inductive feedback : list Packet -> Prop :=
  | feedback_nil : feedback []
  | feedback_one p ps : is_nack p || is_raw p = true -> feedback ps -> feedback (p :: ps)
  | feedback_ext ssrc sh p ps : is_nack p = true -> feedback ps -> feedback (ExtSeq ssrc sh :: p :: ps).

(** The order TR-06-1 fixes: a report, the SDES, the feedback zone, the echoes. *)
Definition compound_order (pkts : list Packet) : Prop :=
  exists lead sdes fbs echoes, pkts = lead :: sdes :: fbs ++ echoes /\
    is_report lead = true /\ is_sdes sdes = true /\ feedback fbs /\ forallb is_echo echoes = true.

Lemma order_loop_echo ps : order_loop classEcho ps = forallb is_echo ps.
Proof. induction ps as [|p ps IH]; [done|]. cbn [order_loop forallb]. destruct p; try done; cbn; [|by rewrite <-IH..]. by destruct ps as [|q ?]; [|destruct (is_nack q)]. Qed.

Lemma order_loop_echoes p ps : is_echo p = true -> order_loop classFeedback (p :: ps) = order_loop classEcho (p :: ps).
Proof. by destruct p. Qed.

Lemma order_loop_feedback fbs echoes : feedback fbs -> forallb is_echo echoes = true -> order_loop classFeedback (fbs ++ echoes) = true.
Proof.
  intros Hf He. induction Hf as [|p ps Hp Hf IH|ssrc sh p ps Hp Hf IH].
  - destruct echoes as [|p ps]; [done|]. pose proof He as He'. cbn in He'. apply andb_true_iff in He' as [Hp _].
    cbn [app]. rewrite order_loop_echoes, order_loop_echo; done.
  - by destruct p.
  - cbn [app order_loop]. rewrite Hp. cbn. by destruct p.
Qed.

Lemma order_loop_inv k ps :
  (length ps <= k)%nat -> order_loop classFeedback ps = true -> exists fbs echoes, ps = fbs ++ echoes /\ feedback fbs /\ forallb is_echo echoes = true.
Proof.
  revert ps. induction k as [|k IH]; intros [|p ps] Hk Ho; cbn [length] in Hk; try lia; [by exists [], []; repeat constructor..|].
  destruct (is_echo p) eqn:He.
  { exists [], (p :: ps). rewrite <-order_loop_echo, <-order_loop_echoes by done. repeat constructor. done. }
  destruct (is_nack p || is_raw p) eqn:Hn.
  { destruct (IH ps) as (fbs & echoes & -> & Hf & Hes); [lia|by destruct p|]. exists (p :: fbs), echoes. by repeat constructor. }
  destruct p; try done. cbn [order_loop] in Ho. destruct ps as [|q ps]; [done|]. destruct (is_nack q) eqn:Hq; [|done]. cbn in Hk.
  destruct (IH ps) as (fbs & echoes & -> & Hf & Hes); [lia|by destruct q|]. exists (ExtSeq SSRC SeqHigh :: q :: fbs), echoes. by repeat constructor.
Qed.

Lemma checkCompoundOrder_spec pkts : checkCompoundOrder pkts = true <-> compound_order pkts.
Proof.
  split.
  - destruct pkts as [|p0 [|p1 ps]]; try done. cbn [checkCompoundOrder]. intros [[H0 H1]%andb_true_iff Ho]%andb_true_iff.
    destruct (order_loop_inv _ ps (le_n _) Ho) as (fbs & echoes & -> & Hf & He). by exists p0, p1, fbs, echoes.
  - intros (p0 & p1 & fbs & echoes & -> & H0 & H1 & Hf & He). cbn [checkCompoundOrder]. by rewrite H0, H1, order_loop_feedback.
Qed.

Definition enc_all (pkts : list Packet) : bytes := concat (enc <$> pkts).

Lemma append_all_spec pkts s : Forall valid pkts -> exists sp, append_all pkts s = Ok (mkSlice (data s ++ enc_all pkts) sp).
Proof.
  intros Hv. revert s. induction Hv as [|p pkts Hp Hv IH]; intros s; cbn [append_all].
  - exists (spare s). unfold enc_all. cbn. rewrite app_nil_r. by destruct s.
  - destruct (AppendTo_spec p s Hp) as [sp ->]. cbn [mbind res_bind]. destruct (IH (mkSlice (data s ++ enc p) sp)) as [sp' ->].
    exists sp'. unfold enc_all. cbn. by rewrite app_assoc.
Qed.

Lemma CompoundMarshalSize_spec pkts : Forall valid pkts -> zlen (enc_all pkts) = CompoundMarshalSize pkts.
Proof.
  intros Hv. unfold CompoundMarshalSize. assert (E : forall a, fold_left (fun size p => size + MarshalSize p) pkts a = a + zlen (enc_all pkts)); [|by rewrite E].
  induction Hv as [|p pkts Hp Hv IH]; intros a; cbn; [change (zlen (@nil Z)) with 0; lia|]. rewrite IH. unfold enc_all. cbn. rewrite zlen_app, zlen_enc by done. unfold enc_all. lia.
Qed.

Lemma MarshalSize_pos p : valid p -> 4 <= MarshalSize p.
Proof.
  destruct p; cbn [valid MarshalSize]; try done.
  - intros _. rewrite sdesSize_pad. destruct (padTo4_spec (Z.min (zlen CNAME) maxCNAMELen + 11)). pose proof (zlen_nonneg CNAME). unfold maxCNAMELen in *. lia.
  - unfold appFixedSize. pose proof (zlen_nonneg Ranges). lia.
  - unfold appFixedSize. pose proof (zlen_nonneg FCIs). lia.
  - unfold echoFixedSize. destruct (padTo4_spec (zlen Padding)). pose proof (zlen_nonneg Padding). lia.
  - unfold echoFixedSize. destruct (padTo4_spec (zlen Padding)). pose proof (zlen_nonneg Padding). lia.
  - intros (b0 & b1 & words & t & h & -> & _ & Hw & _ & -> & _). unfold in_u16 in Hw. lia.
Qed.

Lemma parse_loop_enc pkts fuel :
  Forall valid pkts -> (length pkts < fuel)%nat -> parse_loop fuel (enc_all pkts) = Some (Ok (norm <$> pkts)).
Proof.
  intros Hv. revert fuel. induction Hv as [|p pkts Hp Hv IH]; intros [|fuel] Hf; cbn [length] in Hf; try lia; [done|].
  change (enc_all (p :: pkts)) with (enc p ++ enc_all pkts). cbn [parse_loop]. pose proof (MarshalSize_pos p Hp). pose proof (zlen_enc p Hp).
  pose proof (zlen_nonneg (enc_all pkts)). destruct (Z.eqb_spec (zlen (enc p ++ enc_all pkts)) 0) as [E|_]; [rewrite zlen_app in E; lia|].
  rewrite Parse_enc, slc_from_app by done. by rewrite IH by lia.
Qed.

(** The loop terminates on any bytes, without a panic, and yields only packets the encoder reproduces. *)
Lemma parse_loop_any fuel b :
  is_bytes b -> (length b < fuel)%nat ->
  exists r, parse_loop fuel b = Some r /\
    match r with Ok ps => Forall (fun p => valid p /\ norm p = p) ps | Err e => e = ErrShortPacket \/ e = ErrBadVersion | Panic => False end.
Proof.
  revert b. induction fuel as [|fuel IH]; intros b Hb Hf; [lia|]. cbn [parse_loop].
  destruct (Z.eqb_spec (zlen b) 0); [eexists; split; [done|constructor]|].
  destruct (Parse_view b Hb) as [[_ ->]|[(_ & _ & ->)|[(_ & _ & _ & ->)|(_ & _ & Hd & Hd4 & _ & p & -> & Hp)]]]; [eexists; split; [done|cbn; tauto]..|]. cbn match.
  destruct (slc_from_ok (E:=error) b (declared b)) as (t & -> & Ht & Htb); [lia|].
  destruct (IH t) as (r & -> & Hr); [by apply Htb|unfold zlen in Ht; lia|]. eexists. split; [done|].
  destruct r as [ps|e|]; [by constructor|done|done].
Qed.

Lemma compound_ok pkts s :
  Forall valid pkts -> compound_order pkts ->
  (exists sp, BuildCompound s pkts = Ok (mkSlice (data s ++ enc_all pkts) sp)) /\ ParseCompound (enc_all pkts) = Some (Ok (norm <$> pkts)).
Proof.
  intros Hv Ho. apply checkCompoundOrder_spec in Ho. unfold BuildCompound. rewrite Ho. split; [by apply append_all_spec|].
  unfold ParseCompound. assert (Hlen : (4 * length pkts <= length (enc_all pkts))%nat).
  { clear Ho. induction Hv as [|p pkts Hp Hv IH]; [done|]. change (enc_all (p :: pkts)) with (enc p ++ enc_all pkts).
    rewrite length_app. cbn [length]. pose proof (MarshalSize_pos p Hp). pose proof (zlen_enc p Hp). unfold zlen in *. lia. }
  destruct (Z.eqb_spec (zlen (enc_all pkts)) 0) as [E|_]; [|apply parse_loop_enc; [done|lia]].
  destruct pkts; [done|]. unfold zlen in E. cbn [length] in *. lia.
Qed.

Lemma parse_compound_any b :
  is_bytes b -> exists r, ParseCompound b = Some r /\
    match r with
    | Ok ps => Forall (fun p => valid p /\ norm p = p) ps
    | Err e => e = ErrEmptyCompound \/ e = ErrShortPacket \/ e = ErrBadVersion
    | Panic => False
    end.
Proof.
  intros Hb. unfold ParseCompound. destruct (Z.eqb_spec (zlen b) 0); [eexists; split; [done|cbn; tauto]|].
  destruct (parse_loop_any (S (length b)) b Hb) as (r & -> & Hr); [lia|]. eexists. split; [done|]. destruct r as [ps|e|]; [done|tauto|done].
Qed.

Lemma Parse_stable p : valid p -> norm p = p -> Parse (enc p) = Ok (p, zlen (enc p)).
Proof. intros Hp Hn. pose proof (Parse_enc p [] Hp) as E. by rewrite app_nil_r, Hn, <-zlen_enc in E. Qed.

(** ** Properties *)

(** RTCP round trip: every packet shape within its documented bounds is appended to any buffer as exactly its
    encoding, whatever stale bytes the buffer exposes, in the announced size, a multiple of the packet
    header; and [Parse] reads it back from the front of any datagram, consuming exactly that size. *)
Theorem rtcp_round_trip p s rest :
  valid p ->
  (exists sp, AppendTo p s = Ok (mkSlice (data s ++ enc p) sp)) /\ zlen (enc p) = MarshalSize p /\
  Parse (enc p ++ rest) = Ok (norm p, MarshalSize p).
Proof. intros Hv. split_and!; [by apply AppendTo_spec|by apply zlen_enc|by apply Parse_enc]. Qed.

(** Decoding arbitrary bytes never panics and is stable: [Parse] refuses a datagram exactly when it is shorter than a
    header, its version is not 2 or its length field overruns it; otherwise it consumes the declared size and
    returns a packet, typed or raw, that encodes and decodes to itself. *)
Theorem rtcp_parse_total b :
  is_bytes b ->
  match Parse b with
  | Ok (p, n) =>
      4 <= zlen b /\ Z.shiftr (default 0 (b !! 0%nat)) 6 = 2 /\ n = declared b /\ 4 <= n <= zlen b /\ n mod 4 = 0 /\
      valid p /\ Parse (enc p) = Ok (p, zlen (enc p))
  | Err ErrShortPacket => zlen b < 4 \/ (Z.shiftr (default 0 (b !! 0%nat)) 6 = 2 /\ zlen b < declared b)
  | Err ErrBadVersion => 4 <= zlen b /\ Z.shiftr (default 0 (b !! 0%nat)) 6 <> 2
  | _ => False
  end.
Proof.
  intros Hb. destruct (Parse_view b Hb) as [[? ->]|[(? & ? & ->)|[(? & ? & ? & ->)|(? & ? & Hd & Hd4 & Hdm & p & -> & Hp & Hn)]]]; [by left|done|by right|].
  split_and!; try done. by apply Parse_stable.
Qed.

(** Compounds: [BuildCompound] accepts exactly the order the profile fixes, and then appends the packets' encodings,
    in the announced total size, from which [ParseCompound] recovers the packets in order; any other
    order it refuses.  [ParseCompound] itself returns on any bytes, without a panic, and every packet it returns
    encodes to bytes that decode to it. *)
Theorem compound_round_trip pkts s :
  Forall valid pkts ->
  (compound_order pkts ->
    (exists sp, BuildCompound s pkts = Ok (mkSlice (data s ++ enc_all pkts) sp)) /\
    zlen (enc_all pkts) = CompoundMarshalSize pkts /\ ParseCompound (enc_all pkts) = Some (Ok (norm <$> pkts))) /\
  (~ compound_order pkts -> BuildCompound s pkts = Err ErrCompoundOrder) /\
  (forall b, is_bytes b -> exists r, ParseCompound b = Some r /\
    match r with
    | Ok ps => Forall (fun p => valid p /\ Parse (enc p) = Ok (p, zlen (enc p))) ps
    | Err e => e = ErrEmptyCompound \/ e = ErrShortPacket \/ e = ErrBadVersion
    | Panic => False
    end).
Proof.
  intros Hv. split_and!.
  - intros Ho. destruct (compound_ok pkts s Hv Ho). split_and!; [done|by apply CompoundMarshalSize_spec|done].
  - intros Ho. unfold BuildCompound. destruct (checkCompoundOrder pkts) eqn:E; [|done]. by apply checkCompoundOrder_spec in E.
  - intros b Hb. destruct (parse_compound_any b Hb) as (r & -> & Hr). exists r. split; [done|]. destruct r as [ps|e|]; [|done..].
    eapply Forall_impl; [exact Hr|]. intros p [Hp Hn]. split; [done|by apply Parse_stable].
Qed.

Definition demo_compound : list Packet :=
  [EmptyReceiverReport 7; SDES 7 [114; 105; 115; 116]; ExtSeq 8 3; RangeNACK 8 [mkNackRange 65535 2]; EchoRequest 7 99 [1]].

Lemma rtcp_round_trip_witness :
  Parse (enc (EchoRequest 7 99 [1]) ++ [5]) = Ok (EchoRequest 7 99 [1; 0; 0; 0], 28).
Proof.
  apply (rtcp_round_trip (EchoRequest 7 99 [1]) (mkSlice [3] [9; 9]) [5]).
  split_and!; [split; [discriminate|reflexivity]..|repeat constructor; discriminate|vm_compute; discriminate].
Defined.

Lemma rtcp_parse_total_witness :
  4 <= zlen [128; 201; 0; 1; 0; 0; 0; 7; 1] /\ Parse [128; 201; 0; 1; 0; 0; 0; 7] = Ok (EmptyReceiverReport 7, 8).
Proof.
  pose proof (rtcp_parse_total [128; 201; 0; 1; 0; 0; 0; 7; 1]) as H. assert (Hb : is_bytes [128; 201; 0; 1; 0; 0; 0; 7; 1]) by (repeat constructor; discriminate).
  specialize (H Hb). destruct H as (H1 & _ & _ & _ & _ & _ & H2). split; [exact H1|exact H2].
Defined.

Lemma compound_round_trip_witness :
  ParseCompound (enc_all demo_compound) = Some (Ok (norm <$> demo_compound)).
Proof.
  assert (Hv : Forall valid demo_compound) by (repeat constructor; try discriminate; vm_compute; discriminate).
  assert (Ho : compound_order demo_compound).
  { exists (EmptyReceiverReport 7), (SDES 7 [114; 105; 115; 116]), [ExtSeq 8 3; RangeNACK 8 [mkNackRange 65535 2]], [EchoRequest 7 99 [1]].
    split_and!; [reflexivity|reflexivity|reflexivity|apply feedback_ext; [reflexivity|constructor]|reflexivity]. }
  exact (proj2 (proj2 (proj1 (compound_round_trip demo_compound (mkSlice [] []) Hv) Ho))).
Defined.

End rtcp.
