(* ===== verification/RtcpNack.v ===== *)
(** * NACK packing: internal/rtcp/nack.go

    The two encodings of a retransmission request: runs as {start, extra} records and 17-packet windows as a base and
    a bit mask, at most 16 records to a packet.  Packing then expanding gives the requested sequences back,
    and no datagram can make the expansion longer than the 16-bit sequence space. *)

From stdpp Require Import sets sorting.
From S2P Require Import Prelude Bytes Rtcp.
Import rtcp.

Definition MaxNackRecordsPerPacket : Z := 16.
Definition maxNackExpand : Z := Z.shiftl 1 16.

(** ** Expansion *)

(** The loop over one range: [k] more sequences from [s]; the flag is false once the guard returns. *)
Fixpoint expand_range (k : nat) (s : Z) (dst : list Z) (appended : Z) : list Z * Z * bool :=
  match k with
  | O => (dst, appended, true)
  | S k =>
      if maxNackExpand <=? appended then (dst, appended, false)
      else expand_range k (u16 (s + 1)) (dst ++ [s]) (appended + 1)
  end.

Fixpoint expand_ranges (ranges : list NackRange) (dst : list Z) (appended : Z) : list Z :=
  match ranges with
  | [] => dst
  | r :: ranges =>
      let '(dst, appended, go) := expand_range (Z.to_nat (Extra r + 1)) (Start r) dst appended in
      if (go : bool) then expand_ranges ranges dst appended else dst
  end.

(** RangeNACK.AppendMissingSeqs *)
Definition range_AppendMissingSeqs (ranges : list NackRange) (dst : list Z) : list Z := expand_ranges ranges dst 0.

(** The loop over the mask bits of one FCI; the flag is false once the guard returns. *)
Fixpoint expand_bits (bits : list Z) (f : NackPair) (dst : list Z) : list Z * bool :=
  match bits with
  | [] => (dst, true)
  | i :: bits =>
      if Z.land (BLP f) (Z.shiftl 1 i) =? 0 then expand_bits bits f dst
      else if maxNackExpand <=? zlen dst then (dst, false)
      else expand_bits bits f (dst ++ [u16 (PID f + i + 1)])
  end.

(** BitmaskNACK.AppendMissingSeqs *)
Fixpoint bitmask_AppendMissingSeqs (fcis : list NackPair) (dst : list Z) : list Z :=
  match fcis with
  | [] => dst
  | f :: fcis =>
      if maxNackExpand <=? zlen dst then dst else
      let '(dst, go) := expand_bits (seqZ 0 16) f (dst ++ [PID f]) in
      if (go : bool) then bitmask_AppendMissingSeqs fcis dst else dst
  end.

(** NackPair.AppendSeqs, without the guard. *)
Definition AppendSeqs (f : NackPair) (dst : list Z) : list Z :=
  dst ++ [PID f] ++ ((fun i => u16 (PID f + i + 1)) <$> List.filter (fun i => negb (Z.land (BLP f) (Z.shiftl 1 i) =? 0)) (seqZ 0 16)).

(** DecodeNACK, with [MissingSeqs] of either packet. *)
Definition DecodeNACK (p : Packet) : option (list Z) :=
  match p with
  | RangeNACK _ ranges => Some (range_AppendMissingSeqs ranges [])
  | BitmaskNACK _ _ fcis => Some (bitmask_AppendMissingSeqs fcis [])
  | _ => None
  end.

(** ** Packing *)

Record range_state := mkRangeState { rg_pkts : list Packet; rg_ranges : list NackRange; rg_cur : NackRange; rg_last : Z }.

Definition flushRange (mediaSSRC : Z) (st : range_state) : range_state :=
  let ranges := rg_ranges st ++ [rg_cur st] in
  if zlen ranges =? MaxNackRecordsPerPacket
  then mkRangeState (rg_pkts st ++ [RangeNACK mediaSSRC ranges]) [] (rg_cur st) (rg_last st)
  else mkRangeState (rg_pkts st) ranges (rg_cur st) (rg_last st).

(** One iteration of the loop over [missing[1:]]. *)
Definition range_step (mediaSSRC : Z) (st : range_state) (m : Z) : range_state :=
  let s := u16 m in
  let cur := rg_cur st in
  if (s =? u16 (rg_last st + 1)) && (Extra cur <? 65535)
  then mkRangeState (rg_pkts st) (rg_ranges st) (mkNackRange (Start cur) (Extra cur + 1)) s
  else
    let st := flushRange mediaSSRC st in
    mkRangeState (rg_pkts st) (rg_ranges st) (mkNackRange s 0) s.

Definition EncodeRangeNACK (senderSSRC mediaSSRC : Z) (missing : list Z) : list Packet :=
  match missing with
  | [] => []
  | m :: missing =>
      let st := fold_left (range_step mediaSSRC) missing (mkRangeState [] [] (mkNackRange (u16 m) 0) (u16 m)) in
      let st := flushRange mediaSSRC st in
      if 0 <? zlen (rg_ranges st) then rg_pkts st ++ [RangeNACK mediaSSRC (rg_ranges st)] else rg_pkts st
  end.

(** One iteration of [nackPairsFromSequenceNumbers]. *)
Definition pair_step (st : list NackPair * NackPair) (m : Z) : list NackPair * NackPair :=
  let '(pairs, cur) := st in
  let s := u16 m in
  let d := u16 (s - PID cur) in
  if (1 <=? d) && (d <=? 16) then (pairs, mkNackPair (PID cur) (Z.lor (BLP cur) (u16 (Z.shiftl 1 (d - 1)))))
  else (pairs ++ [cur], mkNackPair s 0).

Definition nackPairsFromSequenceNumbers (missing : list Z) : list NackPair :=
  match missing with
  | [] => []
  | m :: missing =>
      let '(pairs, cur) := fold_left pair_step missing ([], mkNackPair (u16 m) 0) in pairs ++ [cur]
  end.

(** One iteration of the loop over the pairs: the last packet takes the pair, or a new one is started; the packets
    are kept last first. *)
Definition pack_pair (senderSSRC mediaSSRC : Z) (pkts : list (list NackPair)) (pair : NackPair) : list (list NackPair) :=
  match pkts with
  | [] => [[pair]]
  | p :: pkts => if zlen p =? MaxNackRecordsPerPacket then [pair] :: p :: pkts else (p ++ [pair]) :: pkts
  end.

Definition EncodeBitmaskNACK (senderSSRC mediaSSRC : Z) (missing : list Z) : list Packet :=
  BitmaskNACK senderSSRC mediaSSRC <$>
    rev (fold_left (pack_pair senderSSRC mediaSSRC) (nackPairsFromSequenceNumbers missing) []).

(** ** Ranges *)

(** [k] consecutive 16-bit sequences from [s]. *)
Fixpoint run (s : Z) (k : nat) : list Z :=
  match k with O => [] | S k => s :: run (u16 (s + 1)) k end.

Definition expand (r : NackRange) : list Z := run (Start r) (Z.to_nat (Extra r + 1)).

Lemma u16_range z : in_u16 (u16 z).
Proof. apply (uwrap_range 16); lia. Qed.

Lemma u16_add_l a b : u16 (u16 a + b) = u16 (a + b).
Proof. unfold u16, uwrap. apply Z.add_mod_idemp_l. lia. Qed.

Lemma u16_id z : in_u16 z -> u16 z = z.
Proof. apply (uwrap_id 16). Qed.

Lemma run_snoc s k : in_u16 s -> run s (S k) = run s k ++ [u16 (s + Z.of_nat k)].
Proof.
  revert s. induction k as [|k IH]; intros s Hs; [cbn; by rewrite Z.add_0_r, u16_id|].
  change (run s (S (S k))) with (s :: run (u16 (s + 1)) (S k)). rewrite IH by apply u16_range. cbn [run app]. do 3 f_equal.
  rewrite u16_add_l. f_equal. lia.
Qed.

Lemma length_run s k : length (run s k) = k.
Proof. revert s. induction k as [|k IH]; intros s; [done|]. cbn. by rewrite IH. Qed.

Lemma expand_range_ok k s dst a :
  0 <= a -> a + Z.of_nat k <= maxNackExpand -> expand_range k s dst a = (dst ++ run s k, a + Z.of_nat k, true).
Proof.
  change maxNackExpand with 65536. revert s dst a. induction k as [|k IH]; intros s dst a Ha Hk; cbn [expand_range run]; [by rewrite app_nil_r, Z.add_0_r|].
  change maxNackExpand with 65536. destruct (Z.leb_spec 65536 a); [lia|]. rewrite IH by lia. rewrite <-app_assoc. do 2 f_equal. lia.
Qed.

Lemma expand_ranges_ok rs dst a :
  0 <= a -> a + zlen (concat (expand <$> rs)) <= maxNackExpand -> expand_ranges rs dst a = dst ++ concat (expand <$> rs).
Proof.
  revert dst a. induction rs as [|r rs IH]; intros dst a Ha Hl; cbn [expand_ranges fmap list_fmap concat]; [by rewrite app_nil_r|].
  cbn [fmap list_fmap concat] in Hl. rewrite zlen_app in Hl. pose proof (zlen_nonneg (concat (expand <$> rs))).
  assert (Hr : zlen (expand r) = Z.of_nat (Z.to_nat (Extra r + 1))) by (unfold zlen, expand; by rewrite length_run).
  rewrite expand_range_ok by lia. rewrite IH by (unfold fmap in *; lia). by rewrite <-app_assoc.
Qed.

(** The guard: an expansion never grows past the sequence space. *)
Lemma expand_range_bound k s dst a :
  0 <= a <= maxNackExpand -> let '(dst', a', _) := expand_range k s dst a in
  a <= a' <= maxNackExpand /\ zlen dst' - a' = zlen dst - a.
Proof.
  change maxNackExpand with 65536. revert s dst a. induction k as [|k IH]; intros s dst a Ha; cbn [expand_range]; [lia|].
  change maxNackExpand with 65536. destruct (Z.leb_spec 65536 a); [lia|]. specialize (IH (u16 (s + 1)) (dst ++ [s]) (a + 1)).
  destruct (expand_range k _ _ _) as [[dst' a'] go]. rewrite zlen_app in IH. change (zlen [s]) with 1 in IH. lia.
Qed.

Lemma expand_ranges_bound rs dst a :
  0 <= a <= maxNackExpand -> zlen (expand_ranges rs dst a) <= zlen dst + maxNackExpand - a.
Proof.
  revert dst a. induction rs as [|r rs IH]; intros dst a Ha; cbn [expand_ranges]; [lia|].
  pose proof (expand_range_bound (Z.to_nat (Extra r + 1)) (Start r) dst a Ha) as Hb. destruct (expand_range _ _ _ _) as [[dst' a'] go].
  destruct go; [|lia]. specialize (IH dst' a' ltac:(lia)). lia.
Qed.

Definition ranges_of (p : Packet) : list NackRange := match p with RangeNACK _ rs => rs | _ => [] end.

(** A full packet of range records. *)
Definition range_packet (mediaSSRC : Z) (p : Packet) : Prop :=
  exists rs, p = RangeNACK mediaSSRC rs /\ Forall range_typed rs /\ 0 < zlen rs <= MaxNackRecordsPerPacket.

(** The packer has covered exactly [xs]. *)
Record range_inv (mediaSSRC : Z) (xs : list Z) (st : range_state) : Prop := {
  ri_cover : concat (expand <$> ((rg_pkts st ≫= ranges_of) ++ rg_ranges st ++ [rg_cur st])) = xs;
  ri_pkts : Forall (range_packet mediaSSRC) (rg_pkts st);
  ri_ranges : Forall range_typed (rg_ranges st) /\ zlen (rg_ranges st) < MaxNackRecordsPerPacket;
  ri_cur : range_typed (rg_cur st);
  ri_last : rg_last st = u16 (Start (rg_cur st) + Extra (rg_cur st)) }.

(** What flushing leaves: the current range has joined the others. *)
Lemma flushRange_spec ms xs st :
  range_inv ms xs st ->
  concat (expand <$> ((rg_pkts (flushRange ms st) ≫= ranges_of) ++ rg_ranges (flushRange ms st))) = xs /\
  Forall (range_packet ms) (rg_pkts (flushRange ms st)) /\
  Forall range_typed (rg_ranges (flushRange ms st)) /\ zlen (rg_ranges (flushRange ms st)) < MaxNackRecordsPerPacket.
Proof.
  intros [Hc Hp [Hr Hn] Hcur _]. unfold flushRange, MaxNackRecordsPerPacket in *.
  assert (Ht : Forall range_typed (rg_ranges st ++ [rg_cur st])) by (apply Forall_app; split; [done|by apply Forall_singleton]).
  assert (Hz : zlen (rg_ranges st ++ [rg_cur st]) = zlen (rg_ranges st) + 1) by (by rewrite zlen_app).
  destruct (Z.eqb_spec (zlen (rg_ranges st ++ [rg_cur st])) 16) as [E|E]; cbn [rg_pkts rg_ranges].
  - split_and!; [|apply Forall_app; split; [done|]; apply Forall_singleton; exists (rg_ranges st ++ [rg_cur st]); split_and!; try done; unfold MaxNackRecordsPerPacket; lia|constructor|done].
    rewrite app_nil_r, bind_app. cbn. by rewrite app_nil_r.
  - split_and!; [done|done|done|lia].
Qed.

Lemma range_step_inv ms xs st m : range_inv ms xs st -> range_inv ms (xs ++ [u16 m]) (range_step ms st m).
Proof.
  intros Hi. pose proof Hi as [Hc Hp Hr [Hs He] Hl]. unfold range_step. destruct ((u16 m =? u16 (rg_last st + 1)) && (Extra (rg_cur st) <? 65535)) eqn:E.
  - apply andb_true_iff in E as [E1%Z.eqb_eq E2%Z.ltb_lt]. split; cbn [rg_pkts rg_ranges rg_cur rg_last]; try done.
    + rewrite <-Hc. rewrite !fmap_app, !concat_app, <-!app_assoc. do 2 f_equal. cbn. rewrite !app_nil_r. unfold expand. cbn [Start Extra].
      unfold in_u16 in He. replace (Z.to_nat (Extra (rg_cur st) + 1 + 1)) with (S (Z.to_nat (Extra (rg_cur st) + 1))) by lia.
      rewrite run_snoc by done. do 2 f_equal. rewrite E1, Hl, u16_add_l. f_equal. lia.
    + split; cbn; [done|]. unfold in_u16 in *. lia.
    + cbn. rewrite E1, Hl, u16_add_l. f_equal. lia.
  - destruct (flushRange_spec ms xs st Hi) as (F1 & F2 & F3 & F4). split; cbn [rg_pkts rg_ranges rg_cur rg_last]; try done.
    + rewrite app_assoc, fmap_app, concat_app, F1. cbn. done.
    + split; cbn; [apply u16_range|done].
    + cbn. rewrite Z.add_0_r. symmetry. apply u16_id, u16_range.
Qed.

Lemma range_fold_inv ms missing xs st :
  range_inv ms xs st -> range_inv ms (xs ++ (u16 <$> missing)) (fold_left (range_step ms) missing st).
Proof.
  revert xs st. induction missing as [|m missing IH]; intros xs st Hi; cbn [fold_left fmap list_fmap]; [by rewrite app_nil_r|].
  specialize (IH _ _ (range_step_inv ms xs st m Hi)). by rewrite <-app_assoc in IH.
Qed.

Lemma range_init ms m : range_inv ms [u16 m] (mkRangeState [] [] (mkNackRange (u16 m) 0) (u16 m)).
Proof.
  split; cbn; try done; [split; cbn; [apply u16_range|done]|]. rewrite Z.add_0_r. symmetry. apply u16_id, u16_range.
Qed.

Lemma encode_ranges_cover ss ms missing :
  Forall (range_packet ms) (EncodeRangeNACK ss ms missing) /\
  concat (expand <$> (EncodeRangeNACK ss ms missing ≫= ranges_of)) = (u16 <$> missing).
Proof.
  destruct missing as [|m missing]; [done|]. cbn [EncodeRangeNACK].
  pose proof (range_fold_inv ms missing _ _ (range_init ms m)) as Hi. set (st := fold_left _ _ _) in *.
  destruct (flushRange_spec ms _ st Hi) as (F1 & F2 & F3 & F4). destruct (Z.ltb_spec 0 (zlen (rg_ranges (flushRange ms st)))) as [H|H].
  - split; [apply Forall_app; split; [done|]; apply Forall_singleton; exists (rg_ranges (flushRange ms st)); split_and!; try done; lia|].
    rewrite bind_app. cbn [mbind list_bind ranges_of]. rewrite app_nil_r. exact F1.
  - split; [done|]. pose proof (zlen_nonneg (rg_ranges (flushRange ms st))).
    assert (E : rg_ranges (flushRange ms st) = []) by (destruct (rg_ranges (flushRange ms st)); [done|unfold zlen in *; cbn in *; lia]).
    rewrite E, app_nil_r in F1. exact F1.
Qed.

(** What a list of NACK packets requests. *)
Definition requested (pkts : list Packet) : list Z := concat ((fun p => default [] (DecodeNACK p)) <$> pkts).

Lemma requested_ranges ms pkts :
  Forall (range_packet ms) pkts -> zlen (concat (expand <$> (pkts ≫= ranges_of))) <= maxNackExpand ->
  requested pkts = concat (expand <$> (pkts ≫= ranges_of)).
Proof.
  intros Hp. induction Hp as [|p pkts (rs & -> & _ & _) Hp IH]; intros Hl; [done|]. cbn [mbind list_bind ranges_of] in *.
  rewrite fmap_app, concat_app in *. rewrite zlen_app in Hl. pose proof (zlen_nonneg (concat (expand <$> rs))). pose proof (zlen_nonneg (concat (expand <$> (pkts ≫= ranges_of)))).
  unfold requested in *. cbn [fmap list_fmap concat DecodeNACK default]. rewrite IH by (unfold mbind in *; lia). f_equal.
  apply (expand_ranges_ok rs [] 0); lia.
Qed.

(** ** Bit masks *)

Definition bits (b : Z) : list Z := List.filter (fun i => Z.testbit b i) (seqZ 0 16).
Definition expand_pair (f : NackPair) : list Z := PID f :: ((fun i => u16 (PID f + i + 1)) <$> bits (BLP f)).

Lemma bit_test b i : 0 <= i -> (Z.land b (Z.shiftl 1 i) =? 0) = negb (Z.testbit b i).
Proof. intros Hi. rewrite Z.shiftl_mul_pow2, Z.mul_1_l by done. by apply land_pow2_zero. Qed.

Lemma AppendSeqs_spec f dst : AppendSeqs f dst = dst ++ expand_pair f.
Proof.
  unfold AppendSeqs, expand_pair, bits. cbn [app]. do 3 f_equal. apply List.filter_ext_in. intros i Hi%list_elem_of_In%elem_of_seqZ.
  rewrite bit_test by lia. by destruct (Z.testbit _ _).
Qed.

Lemma expand_bits_ok l f dst :
  Forall (fun i => 0 <= i) l -> zlen dst + zlen (List.filter (fun i => Z.testbit (BLP f) i) l) <= maxNackExpand ->
  expand_bits l f dst = (dst ++ ((fun i => u16 (PID f + i + 1)) <$> List.filter (fun i => Z.testbit (BLP f) i) l), true).
Proof.
  intros Hl. revert dst. induction Hl as [|i l Hi Hl IH]; intros dst Hd; cbn [expand_bits List.filter]; [cbn; by rewrite app_nil_r|].
  rewrite bit_test by done. cbn [List.filter] in Hd. destruct (Z.testbit (BLP f) i); cbn [negb]; [|by rewrite IH].
  rewrite zlen_cons in Hd. match type of Hd with context [zlen (List.filter ?g ?k)] => pose proof (zlen_nonneg (List.filter g k)) end.
  destruct (Z.leb_spec maxNackExpand (zlen dst)); [lia|]. rewrite IH by (rewrite zlen_app; change (zlen [_]) with 1; lia). by rewrite <-app_assoc.
Qed.

Lemma bitmask_ok fcis dst :
  zlen dst + zlen (concat (expand_pair <$> fcis)) <= maxNackExpand ->
  bitmask_AppendMissingSeqs fcis dst = dst ++ concat (expand_pair <$> fcis).
Proof.
  revert dst. induction fcis as [|f fcis IH]; intros dst Hl; cbn [bitmask_AppendMissingSeqs fmap list_fmap concat]; [by rewrite app_nil_r|].
  cbn [fmap list_fmap concat] in Hl. rewrite zlen_app in Hl. pose proof (zlen_nonneg (concat (expand_pair <$> fcis))).
  assert (Hf : zlen (expand_pair f) = 1 + zlen (bits (BLP f))) by (unfold expand_pair; rewrite zlen_cons; f_equal; unfold zlen; by rewrite length_fmap).
  pose proof (zlen_nonneg (bits (BLP f))). destruct (Z.leb_spec maxNackExpand (zlen dst)); [unfold fmap in *; lia|].
  rewrite expand_bits_ok; [|apply Forall_forall; intros i Hi%elem_of_seqZ; lia|rewrite zlen_app; change (zlen [PID f]) with 1; unfold bits, fmap in *; lia].
  rewrite IH; [by rewrite <-!app_assoc|]. rewrite !zlen_app, zlen_fmap. change (zlen [PID f]) with 1. fold (bits (BLP f)). unfold fmap in *. lia.
Qed.

Lemma expand_bits_bound l f dst : zlen dst <= maxNackExpand -> zlen (expand_bits l f dst).1 <= maxNackExpand.
Proof.
  change maxNackExpand with 65536. revert dst. induction l as [|i l IH]; intros dst Hd; cbn [expand_bits fst]; [lia|]. destruct (_ =? 0); [by apply IH|].
  change maxNackExpand with 65536. destruct (Z.leb_spec 65536 (zlen dst)); cbn [fst]; [lia|]. apply IH. rewrite zlen_app. change (zlen [_]) with 1. lia.
Qed.

Lemma bitmask_bound fcis dst : zlen dst <= maxNackExpand -> zlen (bitmask_AppendMissingSeqs fcis dst) <= maxNackExpand.
Proof.
  revert dst. induction fcis as [|f fcis IH]; intros dst Hd; cbn [bitmask_AppendMissingSeqs]; [lia|]. destruct (Z.leb_spec maxNackExpand (zlen dst)) as [|Hlt]; [lia|].
  pose proof (expand_bits_bound (seqZ 0 16) f (dst ++ [PID f])) as Hb. destruct (expand_bits _ _ _) as [dst' go]. cbn [fst] in Hb.
  rewrite zlen_app in Hb. change (zlen [PID f]) with 1 in Hb. destruct go; [apply IH|]; lia.
Qed.

(** Setting one more bit of a mask. *)
Lemma bits_in b i : i ∈ bits b <-> 0 <= i < 16 /\ Z.testbit b i = true.
Proof. unfold bits. rewrite list_elem_of_In, filter_In, <-list_elem_of_In, elem_of_seqZ. tauto. Qed.

Lemma bits_add b k : 0 <= k < 16 -> forall i, i ∈ bits (Z.lor b (2 ^ k)) <-> i ∈ bits b \/ i = k.
Proof.
  intros Hk i. rewrite !bits_in. split.
  - intros [Hi Ht]. rewrite testbit_lor_pow2 in Ht by lia. apply orb_true_iff in Ht as [Ht|Ht%Z.eqb_eq]; [by left|by right].
  - intros [[Hi Ht]| ->]; (split; [lia|]); rewrite testbit_lor_pow2 by lia; [by rewrite Ht|by rewrite Z.eqb_refl, orb_true_r].
Qed.

Lemma bits_add_top b k : 0 <= k < 16 -> (forall i, i ∈ bits b -> i < k) -> bits (Z.lor b (2 ^ k)) = bits b ++ [k].
Proof.
  intros Hk Hb. unfold bits. assert (E : seqZ 0 16 = seqZ 0 k ++ [k] ++ seqZ (k + 1) (15 - k)).
  { replace 16 with (k + (1 + (15 - k))) by lia. rewrite seqZ_app, Z.add_0_l, seqZ_app by lia. done. }
  assert (Hge : forall i, k <= i < 16 -> Z.testbit b i = false).
  { intros i Hi. destruct (Z.testbit b i) eqn:Et; [|done]. assert (i < k) by (apply Hb, bits_in; split; [lia|done]). lia. }
  rewrite E, !List.filter_app. cbn [List.filter]. rewrite testbit_lor_pow2, Z.eqb_refl, orb_true_r, (Hge k) by lia. cbn [app].
  rewrite (List.filter_ext_in (fun i => Z.testbit (Z.lor b (2 ^ k)) i) (fun i => Z.testbit b i) (seqZ 0 k)).
  2:{ intros i Hi%list_elem_of_In%elem_of_seqZ. rewrite testbit_lor_pow2 by lia. destruct (Z.eqb_spec k i); [lia|]. by rewrite orb_false_r. }
  assert (F : forall c, (forall i, k < i < 16 -> Z.testbit c i = false) -> List.filter (fun i => Z.testbit c i) (seqZ (k + 1) (15 - k)) = []).
  { intros c Hc. destruct (List.filter _ _) as [|x xs] eqn:Ef; [done|]. assert (Hx : In x (x :: xs)) by (by left). rewrite <-Ef in Hx.
    apply filter_In in Hx as [Hx%list_elem_of_In%elem_of_seqZ Ht]. rewrite Hc in Ht by lia. done. }
  rewrite !F; [by rewrite app_nil_r| |].
  - intros i Hi. apply Hge. lia.
  - intros i Hi. rewrite testbit_lor_pow2, Hge by lia. by apply Z.eqb_neq; lia.
Qed.

(** The pairs cover exactly the set [xs], with no more requests than [xs] has. *)
Record pair_inv (xs : list Z) (st : list NackPair * NackPair) : Prop := {
  pi_set : forall x, x ∈ concat (expand_pair <$> (st.1 ++ [st.2])) <-> x ∈ xs;
  pi_len : zlen (concat (expand_pair <$> (st.1 ++ [st.2]))) <= zlen xs;
  pi_typed : Forall pair_typed (st.1 ++ [st.2]) }.

Lemma u16_step pid d : in_u16 pid -> in_u16 d -> u16 (pid + (u16 (d - pid) - 1) + 1) = d.
Proof.
  intros Hp Hd. replace (pid + (u16 (d - pid) - 1) + 1) with (u16 (d - pid) + pid) by lia. rewrite u16_add_l.
  replace (d - pid + pid) with d by lia. by apply u16_id.
Qed.

Lemma mask_bit d : 1 <= d <= 16 -> u16 (Z.shiftl 1 (d - 1)) = 2 ^ (d - 1).
Proof.
  intros Hd. rewrite Z.shiftl_mul_pow2, Z.mul_1_l by lia. apply u16_id. unfold in_u16.
  pose proof (Z.pow_pos_nonneg 2 (d - 1)). pose proof (Z.pow_le_mono_r 2 (d - 1) 15). change (2 ^ 15) with 32768 in *. lia.
Qed.

Lemma lor_u16 a b : in_u16 a -> in_u16 b -> in_u16 (Z.lor a b).
Proof.
  unfold in_u16. intros Ha Hb. split; [apply Z.lor_nonneg; lia|]. destruct (Z.eq_dec (Z.lor a b) 0) as [->|Hn]; [lia|].
  assert (0 <= Z.lor a b) by (apply Z.lor_nonneg; lia). change 65536 with (2 ^ 16). apply Z.log2_lt_pow2; [lia|].
  rewrite Z.log2_lor by lia. apply Z.max_lub_lt; (destruct (Z.eq_dec a 0) as [->|]; destruct (Z.eq_dec b 0) as [->|]; try (cbn; lia); apply Z.log2_lt_pow2; lia).
Qed.

Lemma filter_or_length (f : Z -> bool) (k : Z) (l : list Z) :
  NoDup l -> (length (List.filter (fun i => f i || (k =? i)%Z) l) <= S (length (List.filter f l)))%nat.
Proof.
  intros Hl. assert (H : (length (List.filter (fun i => f i || (k =? i)%Z) l) <= length (List.filter f l) + length (List.filter (fun i => (k =? i)%Z) l))%nat).
  { clear Hl. induction l as [|x l IH]; [done|]. cbn [List.filter]. destruct (f x), (k =? x); cbn [orb length]; lia. }
  assert (H1 : (length (List.filter (fun i => (k =? i)%Z) l) <= 1)%nat); [|lia]. clear H.
  induction Hl as [|x l Hx Hl IH]; [cbn; lia|]. cbn [List.filter]. destruct (Z.eqb_spec k x) as [->|]; [|done]. cbn [length].
  assert (E : List.filter (fun i => x =? i) l = []); [|rewrite E; cbn; lia].
  destruct (List.filter _ _) as [|y ys] eqn:Ef; [done|]. assert (Hy : In y (y :: ys)) by (by left). rewrite <-Ef in Hy.
  apply filter_In in Hy as [Hy Ey%Z.eqb_eq]. subst. by apply list_elem_of_In in Hy.
Qed.

Lemma bits_add_length b k : 0 <= k < 16 -> (length (bits (Z.lor b (2 ^ k))) <= S (length (bits b)))%nat.
Proof.
  intros Hk. unfold bits. rewrite (List.filter_ext_in _ (fun i => Z.testbit b i || (k =? i))).
  - apply filter_or_length, NoDup_seqZ.
  - intros i Hi%list_elem_of_In%elem_of_seqZ. by rewrite testbit_lor_pow2 by lia.
Qed.

Lemma pairs_snoc (ps : list NackPair) c : concat (expand_pair <$> (ps ++ [c])) = concat (expand_pair <$> ps) ++ expand_pair c.
Proof. rewrite fmap_app, concat_app. cbn. by rewrite app_nil_r. Qed.

Lemma expand_pair_add pid b k x :
  0 <= k < 16 -> x ∈ expand_pair (mkNackPair pid (Z.lor b (2 ^ k))) <-> x ∈ expand_pair (mkNackPair pid b) \/ x = u16 (pid + k + 1).
Proof.
  intros Hk. unfold expand_pair. cbn [PID BLP]. rewrite !elem_of_cons, !list_elem_of_fmap. split.
  - intros [->|(i & -> & [Hi| ->]%(bits_add _ _ Hk))]; [by left; left|left; right; by exists i|by right].
  - intros [[->|(i & -> & Hi)]| ->]; [by left|right; exists i; split; [done|apply bits_add; [done|by left]]|right; exists k; split; [done|apply bits_add; [done|by right]]].
Qed.

Lemma pair_step_inv xs st m : pair_inv xs st -> pair_inv (xs ++ [u16 m]) (pair_step st m).
Proof.
  destruct st as [ps cur]. intros [Hs Hl Ht]. cbn [fst snd] in *. apply Forall_app in Ht as [Hps Hc]. apply Forall_singleton in Hc as [Hpid Hblp].
  rewrite pairs_snoc in *. unfold pair_step. destruct ((1 <=? u16 (u16 m - PID cur)) && (u16 (u16 m - PID cur) <=? 16)) eqn:E.
  - apply andb_true_iff in E as [E1%Z.leb_le E2%Z.leb_le]. set (d := u16 (u16 m - PID cur)) in *. rewrite mask_bit by lia.
    assert (Hd : u16 (PID cur + (d - 1) + 1) = u16 m) by (subst d; apply u16_step; [done|apply u16_range]).
    split; cbn [fst snd]; rewrite ?pairs_snoc.
    + intros x. rewrite !elem_of_app, list_elem_of_singleton, <-Hs, elem_of_app, expand_pair_add, Hd by lia. destruct cur. tauto.
    + rewrite !zlen_app in *. unfold expand_pair in *. cbn [PID BLP]. rewrite !zlen_cons, !zlen_fmap in *. change (zlen [u16 m]) with 1.
      pose proof (bits_add_length (BLP cur) (d - 1) ltac:(lia)). unfold zlen in *. lia.
    + apply Forall_app. split; [done|]. apply Forall_singleton. split; cbn; [done|]. apply lor_u16; [done|].
      unfold in_u16. pose proof (Z.pow_pos_nonneg 2 (d - 1)). pose proof (Z.pow_le_mono_r 2 (d - 1) 15). change (2 ^ 15) with 32768 in *. lia.
  - split; cbn [fst snd]; rewrite ?pairs_snoc.
    + intros x. change (expand_pair (mkNackPair (u16 m) 0)) with [u16 m]. rewrite (elem_of_app xs), <-Hs, (elem_of_app _ [u16 m]). done.
    + rewrite !zlen_app in *. change (zlen (expand_pair (mkNackPair (u16 m) 0))) with 1. change (zlen [u16 m]) with 1. lia.
    + apply Forall_app. split; [apply Forall_app; split; [done|by apply Forall_singleton]|]. apply Forall_singleton. split; cbn; [apply u16_range|done].
Qed.

Lemma pair_fold_inv missing xs st : pair_inv xs st -> pair_inv (xs ++ (u16 <$> missing)) (fold_left pair_step missing st).
Proof.
  revert xs st. induction missing as [|m missing IH]; intros xs st Hi; cbn [fold_left fmap list_fmap]; [by rewrite app_nil_r|].
  specialize (IH _ _ (pair_step_inv xs st m Hi)). by rewrite <-app_assoc in IH.
Qed.

(** Sequences in ascending circular order, each less than half the space after the one before. *)
Definition ascending : list Z -> Prop := Sorted (fun a b => 1 <= u16 (b - a) <= 32768).

(** On such lists the pairs give the sequences in order: the set bits of the current pair lie below its newest one. *)
Record asc_inv (xs : list Z) (lst : Z) (st : list NackPair * NackPair) : Prop := {
  ai_list : concat (expand_pair <$> (st.1 ++ [st.2])) = xs;
  ai_pid : in_u16 (PID st.2);
  ai_top : exists top, 0 <= top <= 16 /\ u16 lst = u16 (PID st.2 + top) /\ forall i, i ∈ bits (BLP st.2) -> i < top }.

Lemma asc_step xs lst st m : asc_inv xs lst st -> 1 <= u16 (m - lst) <= 32768 -> asc_inv (xs ++ [u16 m]) m (pair_step st m).
Proof.
  destruct st as [ps cur]. intros [Hl Hpid (top & Htop & Hlst & Hbits)] Hm. cbn [fst snd] in *. rewrite pairs_snoc in Hl.
  assert (Hd : u16 (u16 m - PID cur) = top + u16 (m - lst)).
  { assert (E : u16 (u16 m - PID cur) = u16 (top + u16 (m - lst))); [|rewrite E; apply u16_id; unfold in_u16; lia].
    destruct (uwrap_spec 16 m) as [k1 K1]; [lia|]. destruct (uwrap_spec 16 (m - lst)) as [k2 K2]; [lia|].
    destruct (uwrap_spec 16 lst) as [k3 K3]; [lia|]. destruct (uwrap_spec 16 (PID cur + top)) as [k4 K4]; [lia|].
    fold (u16 m) (u16 (m - lst)) (u16 lst) (u16 (PID cur + top)) in *. rewrite K1, K2. apply (uwrap_cong 16); [lia|].
    exists (k2 - k1 + k3 - k4). lia. }
  unfold pair_step. rewrite Hd. destruct (Z.leb_spec 1 (top + u16 (m - lst))); [|lia]. cbn [andb].
  destruct (Z.leb_spec (top + u16 (m - lst)) 16).
  - set (d := top + u16 (m - lst)) in *. rewrite mask_bit by lia.
    assert (Hu : u16 (PID cur + (d - 1) + 1) = u16 m) by (rewrite <-Hd; apply u16_step; [done|apply u16_range]).
    split; cbn [fst snd PID BLP]; [|done|].
    + rewrite pairs_snoc, <-Hl, <-app_assoc. f_equal. unfold expand_pair. cbn [PID BLP].
      rewrite bits_add_top by (lia || (intros i Hi; specialize (Hbits i Hi); lia)). rewrite fmap_app. cbn. by rewrite Hu.
    + exists d. split; [lia|]. split.
      * rewrite <-Hu. replace (PID cur + (d - 1) + 1) with (PID cur + d) by lia. symmetry. apply u16_id, u16_range || done.
      * intros i [Hi| ->]%(bits_add (BLP cur) (d - 1) ltac:(lia)); [specialize (Hbits i Hi)|]; lia.
  - split; cbn [fst snd PID BLP]; [|apply u16_range|].
    + by rewrite !pairs_snoc, Hl.
    + exists 0. split; [lia|]. rewrite Z.add_0_r, (u16_id (u16 m)) by apply u16_range. split; [done|]. intros i [_ Hi]%bits_in. by rewrite Z.bits_0 in Hi.
Qed.

Lemma asc_fold missing xs lst st :
  asc_inv xs lst st -> ascending (lst :: missing) -> concat (expand_pair <$> ((fold_left pair_step missing st).1 ++ [(fold_left pair_step missing st).2])) = xs ++ (u16 <$> missing).
Proof.
  revert xs lst st. induction missing as [|m missing IH]; intros xs lst st Hi Ha; cbn [fold_left fmap list_fmap]; [rewrite app_nil_r; apply Hi|].
  inversion_clear Ha as [|? ? Hs Hh]. inversion_clear Hh as [|? ? Hm]. rewrite (IH _ _ _ (asc_step xs lst st m Hi Hm) Hs). by rewrite <-app_assoc.
Qed.

(** Filling packets loses no pair. *)
Definition bitmask_packet (ss ms : Z) (p : Packet) : Prop :=
  exists fcis, p = BitmaskNACK ss ms fcis /\ Forall pair_typed fcis /\ 0 < zlen fcis <= MaxNackRecordsPerPacket.

Lemma pack_spec ss ms pairs acc :
  Forall (fun p => 0 < zlen p <= 16) acc ->
  Forall (fun p => 0 < zlen p <= 16) (fold_left (pack_pair ss ms) pairs acc) /\
  concat (rev (fold_left (pack_pair ss ms) pairs acc)) = concat (rev acc) ++ pairs.
Proof.
  revert acc. induction pairs as [|c pairs IH]; intros acc Ha; cbn [fold_left]; [by rewrite app_nil_r|].
  destruct (IH (pack_pair ss ms acc c)) as [I1 I2].
  { unfold pack_pair. destruct acc as [|p acc]; [by apply Forall_singleton|]. apply Forall_cons in Ha as [Hp Ha]. unfold MaxNackRecordsPerPacket. destruct (Z.eqb_spec (zlen p) 16).
    - constructor; [change (zlen [c]) with 1; lia|by constructor].
    - constructor; [|done]. rewrite zlen_app. change (zlen [c]) with 1. lia. }
  split; [exact I1|]. rewrite I2. unfold pack_pair. destruct acc as [|p acc]; [done|]. destruct (_ =? _); cbn [rev]; rewrite !concat_app; cbn; rewrite !app_nil_r, <-!app_assoc; done.
Qed.

Lemma encode_pairs ss ms missing :
  EncodeBitmaskNACK ss ms missing = BitmaskNACK ss ms <$> rev (fold_left (pack_pair ss ms) (nackPairsFromSequenceNumbers missing) []) /\
  Forall (fun p => 0 < zlen p <= 16) (rev (fold_left (pack_pair ss ms) (nackPairsFromSequenceNumbers missing) [])) /\
  concat (rev (fold_left (pack_pair ss ms) (nackPairsFromSequenceNumbers missing) [])) = nackPairsFromSequenceNumbers missing.
Proof.
  split; [done|]. destruct (pack_spec ss ms (nackPairsFromSequenceNumbers missing) [] (Forall_nil_2 _)) as [H1 H2]. split; [|exact H2].
  apply Forall_rev. exact H1.
Qed.

Lemma requested_pairs ss ms groups :
  zlen (concat (expand_pair <$> concat groups)) <= maxNackExpand ->
  requested (BitmaskNACK ss ms <$> groups) = concat (expand_pair <$> concat groups).
Proof.
  induction groups as [|g groups IH]; intros Hl; [done|]. cbn [concat] in *. rewrite fmap_app, concat_app, zlen_app in *.
  pose proof (zlen_nonneg (concat (expand_pair <$> g))). pose proof (zlen_nonneg (concat (expand_pair <$> concat groups))).
  unfold requested in *. cbn [fmap list_fmap concat DecodeNACK default]. unfold fmap in *. rewrite IH by lia. f_equal.
  apply (bitmask_ok g []). change (zlen (@nil Z)) with 0. unfold fmap. lia.
Qed.

Lemma encode_bitmask_cover ss ms missing :
  in_u32 ss -> in_u32 ms -> zlen missing <= maxNackExpand ->
  (forall x, x ∈ requested (EncodeBitmaskNACK ss ms missing) <-> x ∈ (u16 <$> missing)) /\
  (ascending missing -> requested (EncodeBitmaskNACK ss ms missing) = (u16 <$> missing)) /\
  Forall (fun p => valid p /\ exists fcis, p = BitmaskNACK ss ms fcis /\ 0 < zlen fcis <= MaxNackRecordsPerPacket) (EncodeBitmaskNACK ss ms missing) /\
  (forall fcis, zlen (bitmask_AppendMissingSeqs fcis []) <= maxNackExpand).
Proof.
  intros Hss Hms Hl. destruct missing as [|m missing].
  { split_and!; [done..|]. intros fcis. by apply bitmask_bound. }
  destruct (encode_pairs ss ms (m :: missing)) as (-> & Hn & Hc). set (groups := rev _) in *. cbn [nackPairsFromSequenceNumbers] in Hc.
  assert (Hi : pair_inv [u16 m] ([], mkNackPair (u16 m) 0)).
  { split; cbn; [done|done|]. apply Forall_singleton. split; cbn; [apply u16_range|done]. }
  apply (pair_fold_inv missing) in Hi. pose proof (asc_fold missing [u16 m] m ([], mkNackPair (u16 m) 0)) as Ha.
  destruct (fold_left pair_step missing _) as [pairs cur] eqn:Ef. destruct Hi as [Hs Hlen Ht]. cbn [fst snd] in *.
  change ([u16 m] ++ (u16 <$> missing)) with (u16 <$> (m :: missing)) in *. rewrite zlen_fmap in Hlen.
  assert (Hr : requested (BitmaskNACK ss ms <$> groups) = concat (expand_pair <$> (pairs ++ [cur]))).
  { rewrite requested_pairs; rewrite Hc; [done|lia]. }
  rewrite Hr. split_and!; [exact Hs| | |intros fcis; by apply bitmask_bound].
  - intros Hasc. apply Ha; [|exact Hasc]. split; cbn; [done|apply u16_range|]. exists 0. split; [lia|].
    split; [by rewrite Z.add_0_r, (u16_id (u16 m)) by apply u16_range|]. intros i [_ Hb]%bits_in. by rewrite Z.bits_0 in Hb.
  - assert (Htg : Forall (Forall pair_typed) groups).
    { clear -Ht Hc. rewrite <-Hc in Ht. clear Hc. induction groups as [|g groups IH]; [constructor|]. cbn in Ht. apply Forall_app in Ht as [? ?]. constructor; auto. }
    apply Forall_fmap, Forall_forall. intros g Hg. rewrite Forall_forall in Hn, Htg. specialize (Hn g Hg). specialize (Htg g Hg). cbn in Hn.
    unfold MaxNackRecordsPerPacket. split; [cbn; split_and!; [done..|lia]|by exists g].
Qed.

Lemma encode_ranges_requested ss ms missing :
  in_u32 ms -> zlen missing <= maxNackExpand ->
  requested (EncodeRangeNACK ss ms missing) = (u16 <$> missing) /\
  Forall (fun p => valid p /\ exists rs, p = RangeNACK ms rs /\ 0 < zlen rs <= MaxNackRecordsPerPacket) (EncodeRangeNACK ss ms missing).
Proof.
  intros Hms Hl. destruct (encode_ranges_cover ss ms missing) as [Hp Hc]. split.
  - rewrite (requested_ranges ms) by (done || rewrite Hc, zlen_fmap; done). done.
  - eapply Forall_impl; [exact Hp|]. intros p (rs & -> & Ht & Hn). split; [|by exists rs]. cbn. unfold MaxNackRecordsPerPacket in Hn. split_and!; [done|done|lia].
Qed.

(** ** Requests that fit one packet *)

Definition records (st : range_state) : Z := 16 * zlen (rg_pkts st) + zlen (rg_ranges st).

Lemma flushRange_records ms st : records (flushRange ms st) = records st + 1.
Proof. unfold flushRange, records, MaxNackRecordsPerPacket. destruct (Z.eqb_spec (zlen (rg_ranges st ++ [rg_cur st])) 16) as [E|E]; cbn [rg_pkts rg_ranges]; rewrite !zlen_app in *; change (zlen [_]) with 1 in *; [change (zlen []) with 0|]; lia. Qed.

Lemma range_fold_records ms missing st : records (fold_left (range_step ms) missing st) <= records st + zlen missing.
Proof.
  revert st. induction missing as [|m missing IH]; intros st; cbn [fold_left]; [change (zlen []) with 0; lia|]. rewrite zlen_cons. specialize (IH (range_step ms st m)).
  assert (H : records (range_step ms st m) <= records st + 1); [|lia]. unfold range_step. destruct (_ && _); [unfold records; cbn; lia|]. pose proof (flushRange_records ms st). unfold records in *. cbn. lia.
Qed.

Lemma encode_ranges_one ss ms missing : zlen missing <= MaxNackRecordsPerPacket -> (length (EncodeRangeNACK ss ms missing) <= 1)%nat.
Proof.
  intros Hl. unfold MaxNackRecordsPerPacket in Hl. destruct missing as [|m missing]; [cbn; lia|]. rewrite zlen_cons in Hl. cbn [EncodeRangeNACK]. set (st0 := mkRangeState _ _ _ _). pose proof (range_fold_records ms missing st0) as H.
  set (st := fold_left _ _ _) in *. pose proof (flushRange_records ms st) as Hf. change (records st0) with 0 in H. set (st' := flushRange ms st) in *. clearbody st'. unfold records in *.
  pose proof (zlen_nonneg (rg_ranges st')). destruct (Z.ltb_spec 0 (zlen (rg_ranges st'))); [rewrite length_app; cbn|]; unfold zlen in *; lia.
Qed.

Lemma pair_fold_length missing st : (length (fold_left pair_step missing st).1 <= length st.1 + length missing)%nat.
Proof.
  revert st. induction missing as [|m missing IH]; intros [pairs cur]; cbn [fold_left fst length]; [lia|]. specialize (IH (pair_step (pairs, cur) m)). unfold pair_step in *. destruct (_ && _); cbn [fst] in *; [lia|]. rewrite length_app in IH. cbn [length] in IH. lia.
Qed.

Lemma pack_one ss ms pairs p : zlen p + zlen pairs <= MaxNackRecordsPerPacket -> fold_left (pack_pair ss ms) pairs [p] = [p ++ pairs].
Proof.
  revert p. unfold MaxNackRecordsPerPacket. induction pairs as [|c pairs IH]; intros p Hl; cbn [fold_left]; [by rewrite app_nil_r|]. rewrite zlen_cons in Hl. pose proof (zlen_nonneg pairs). unfold pack_pair at 2, MaxNackRecordsPerPacket.
  destruct (Z.eqb_spec (zlen p) 16); [lia|]. rewrite IH by (rewrite zlen_app; change (zlen [c]) with 1; lia). by rewrite <-app_assoc.
Qed.

Lemma encode_bitmask_one ss ms missing : zlen missing <= MaxNackRecordsPerPacket -> (length (EncodeBitmaskNACK ss ms missing) <= 1)%nat.
Proof.
  intros Hl. destruct missing as [|m missing]; [cbn; lia|]. unfold EncodeBitmaskNACK. rewrite length_fmap, length_rev. cbn [nackPairsFromSequenceNumbers]. rewrite zlen_cons in Hl.
  pose proof (pair_fold_length missing ([], mkNackPair (u16 m) 0)) as H. destruct (fold_left pair_step missing _) as [pairs cur]. cbn [fst length] in H.
  destruct (pairs ++ [cur]) as [|p ps] eqn:E; [cbn; lia|]. cbn [fold_left]. change (pack_pair ss ms [] p) with [[p]]. rewrite pack_one; [done|].
  assert (Hz : zlen (p :: ps) = zlen pairs + 1) by (rewrite <-E, zlen_app; done). rewrite zlen_cons in Hz. change (zlen [p]) with 1. unfold zlen in *. lia.
Qed.

(** ** Properties *)

(** Range NACKs request exactly what is missing: for any list of at most 65536 sequences, in any order, the packets
    built carry 1 to 16 well-typed records each (so they encode), and expanding them in order gives the
    16-bit sequences of the list, in order and with repetitions; and whatever records a packet
    carries, its expansion has at most 65536 entries. *)
Theorem range_nack_exact ss ms missing :
  in_u32 ms -> zlen missing <= maxNackExpand ->
  requested (EncodeRangeNACK ss ms missing) = (u16 <$> missing) /\
  Forall (fun p => valid p /\ exists rs, p = RangeNACK ms rs /\ 0 < zlen rs <= MaxNackRecordsPerPacket) (EncodeRangeNACK ss ms missing) /\
  (forall rs, zlen (range_AppendMissingSeqs rs []) <= maxNackExpand).
Proof.
  intros Hms Hl. destruct (encode_ranges_requested ss ms missing Hms Hl) as [H1 H2]. split_and!; [done|done|].
  intros rs. pose proof (expand_ranges_bound rs [] 0) as Hb. change maxNackExpand with 65536 in *. change (zlen (@nil Z)) with 0 in Hb. unfold range_AppendMissingSeqs. lia.
Qed.

(** Bitmask NACKs request exactly what is missing: for any list of at most 65536 sequences the packets built carry 1 to 16
    well-typed FCIs each and together request exactly the set of 16-bit sequences of the list; when
    the list is in ascending circular order, across the wrap, they request it in order, each once; and
    whatever FCIs a packet carries, its expansion has at most 65536 entries. *)
Theorem bitmask_nack_exact ss ms missing :
  in_u32 ss -> in_u32 ms -> zlen missing <= maxNackExpand ->
  (forall x, x ∈ requested (EncodeBitmaskNACK ss ms missing) <-> x ∈ (u16 <$> missing)) /\
  (ascending missing -> requested (EncodeBitmaskNACK ss ms missing) = (u16 <$> missing)) /\
  Forall (fun p => valid p /\ exists fcis, p = BitmaskNACK ss ms fcis /\ 0 < zlen fcis <= MaxNackRecordsPerPacket) (EncodeBitmaskNACK ss ms missing) /\
  (forall fcis, zlen (bitmask_AppendMissingSeqs fcis []) <= maxNackExpand).
Proof. apply encode_bitmask_cover. Qed.

Lemma range_nack_exact_witness :
  requested (EncodeRangeNACK 0 8 [65534; 65535; 65536; 7; 7; 5]) = [65534; 65535; 0; 7; 7; 5].
Proof. apply (range_nack_exact 0 8 [65534; 65535; 65536; 7; 7; 5]); [split; [discriminate|reflexivity]|vm_compute; discriminate]. Defined.

Lemma bitmask_nack_exact_witness :
  requested (EncodeBitmaskNACK 0 8 [65534; 65535; 2; 14; 15; 100]) = [65534; 65535; 2; 14; 15; 100].
Proof.
  apply (bitmask_nack_exact 0 8 [65534; 65535; 2; 14; 15; 100]); [split; [discriminate|reflexivity]..|vm_compute; discriminate|].
  repeat constructor; vm_compute; discriminate.
Defined.
