(* ===== verification/Rtt.v ===== *)
(** * The round-trip-time estimator: internal/rtt/rtt.go

    The premultiplied EWMA, the raw last sample, the clamp applied at
    every read, and the 1.1x retry interval.  The theorems bound the estimator: it
    never leaves the range of its seed and samples, every clamped read is at
    least the 3 ms floor, and the retry interval is the integer [rtt + rtt/10]. *)

From S2P Require Import Prelude GoFloat Clock.

Definition ristRTTMinFloorMs : Z := 3.
Definition rttMinFloor : Z := ristRTTMinFloorMs * Millisecond.

Definition effectiveRTTMin (rttMin : Z) : Z := if rttMin <? rttMinFloor then rttMinFloor else rttMin.

Record Estimator := mkEstimator { eightTimesRTT : Z; lastSample : Z }.

#[export] Instance eta_Estimator : Eta Estimator := fun e => mkEstimator (eightTimesRTT e) (lastSample e).

(** [rtt.New]. *)
Definition rtt_New (rttMin : Z) : Estimator :=
  let rttMin := if rttMin <? 0 then 0 else rttMin in
  mkEstimator (i64 (rttMin * 8)) 0.

Definition clamp (rtt rttMin rttMax : Z) : Z :=
  if rtt <? rttMin then rttMin else if rttMax <? rtt then rttMax else rtt.

Module Estimator.
Definition Observe (e : Estimator) (sample : Z) : Estimator :=
  let sample := if sample <? 0 then 0 else sample in
  let e := e <| lastSample := sample |> in
  let e := e <| eightTimesRTT ::= fun x => i64 (x - x /g 8) |> in
  e <| eightTimesRTT ::= fun x => i64 (x + sample) |>.

Definition Smoothed (e : Estimator) : Z := eightTimesRTT e /g 8.

Definition Clamped (e : Estimator) (rttMin rttMax : Z) : Z :=
  clamp (Smoothed e) (effectiveRTTMin rttMin) rttMax.

Definition Last (e : Estimator) : Z := lastSample e.

Definition LastClamped (e : Estimator) (rttMin rttMax : Z) : Z :=
  clamp (lastSample e) (effectiveRTTMin rttMin) rttMax.

Definition RetryInterval (e : Estimator) (rttMin rttMax : Z) : Z := mul_1_1 (Clamped e rttMin rttMax).
End Estimator.

(** ** Lemmas *)

Lemma clamp_bounds rtt lo hi : lo <= hi -> lo <= clamp rtt lo hi <= hi.
Proof. unfold clamp. case_cmp; lia. Qed.

Lemma effectiveRTTMin_floor m : rttMinFloor <= effectiveRTTMin m /\ m <= effectiveRTTMin m.
Proof. unfold effectiveRTTMin. case_cmp; lia. Qed.

(** One EWMA step keeps the premultiplied estimate between eight times any bounds of the estimate and the sample. *)
Lemma observe_between lo hi e s :
  0 <= lo -> hi <= 2 ^ 56 -> lo <= s <= hi -> 8 * lo <= eightTimesRTT e <= 8 * hi ->
  8 * lo <= eightTimesRTT (Estimator.Observe e s) <= 8 * hi /\
  lastSample (Estimator.Observe e s) = s.
Proof.
  intros Hlo Hhi Hs He. unfold Estimator.Observe. simpl.
  destruct (Z.ltb_spec s 0); [lia|]. set (x := eightTimesRTT e) in *.
  rewrite (Z.quot_div_nonneg x 8) by lia.
  assert (Hq := Z.div_mod x 8 ltac:(lia)). assert (Hr := Z.mod_pos_bound x 8 ltac:(lia)).
  set (q := x / 8) in *. nowrap. split; [lia|done].
Qed.

(** A clamped read is at least the 3 ms floor and at most the configured maximum above it. *)
Lemma clamped_floor e rttMin rttMax :
  rttMinFloor <= rttMax -> rttMin <= rttMax ->
  rttMinFloor <= Estimator.Clamped e rttMin rttMax <= rttMax /\
  rttMinFloor <= Estimator.LastClamped e rttMin rttMax <= rttMax.
Proof.
  intros H1 H2. assert (effectiveRTTMin rttMin <= rttMax) by (unfold effectiveRTTMin; case_cmp; lia).
  pose proof (effectiveRTTMin_floor rttMin).
  pose proof (clamp_bounds (Estimator.Smoothed e) _ _ H). pose proof (clamp_bounds (lastSample e) _ _ H).
  unfold Estimator.Clamped, Estimator.LastClamped. lia.
Qed.

(** ** Properties *)

(** Whatever sequence of samples an estimator folds, its smoothed RTT stays between the smallest and the
    largest of the seed and the samples, and its last sample is the last one folded; no intermediate
    value overflows int64 for samples up to 2^56 microseconds. *)
Theorem ewma_stays_in_range lo hi rttMin samples :
  0 <= lo -> hi <= 2 ^ 56 -> lo <= rttMin <= hi -> Forall (fun s => lo <= s <= hi) samples ->
  let e := foldl Estimator.Observe (rtt_New rttMin) samples in
  lo <= Estimator.Smoothed e <= hi /\ Estimator.Last e = default 0 (last samples).
Proof.
  intros Hlo Hhi Hm Hs. cbv zeta.
  assert (Hinv : forall e, 8 * lo <= eightTimesRTT e <= 8 * hi ->
    8 * lo <= eightTimesRTT (foldl Estimator.Observe e samples) <= 8 * hi).
  { clear Hm. induction Hs as [|s l Hs Hl IH]; intros e He; simpl; [done|]. apply IH.
    by apply observe_between. }
  assert (Hseed : 8 * lo <= eightTimesRTT (rtt_New rttMin) <= 8 * hi).
  { unfold rtt_New. simpl. destruct (Z.ltb_spec rttMin 0); nowrap; lia. }
  split.
  - unfold Estimator.Smoothed. specialize (Hinv _ Hseed).
    rewrite Z.quot_div_nonneg by lia. split; [apply Z.div_le_lower_bound; lia|].
    apply Z.div_le_upper_bound; lia.
  - unfold Estimator.Last. destruct samples as [|s l _] using rev_ind; [done|].
    rewrite foldl_app, last_snoc. simpl. apply Forall_app in Hs as [_ Hs]. inv Hs.
    destruct (Z.ltb_spec s 0); [lia|done].
Qed.

Lemma ewma_stays_in_range_witness :
  let e := foldl Estimator.Observe (rtt_New 5000) [20000; 80000; 3000] in
  3000 <= Estimator.Smoothed e <= 80000 /\ Estimator.Last e = 3000.
Proof. apply (ewma_stays_in_range 3000 80000 5000 [20000; 80000; 3000]); [lia..|repeat constructor; lia]. Defined.

(** The NACK retry spacing, a float64 multiply and a truncation in the code, is the integer
    [rtt + rtt/10] of the clamped RTT, which is at least the 3 ms floor, for every estimator state and
    every configured maximum below 2^48 microseconds. *)
Theorem retry_interval_is_integer e rttMin rttMax :
  rttMinFloor <= rttMax < 2 ^ 48 -> rttMin <= rttMax ->
  let rtt := Estimator.Clamped e rttMin rttMax in
  rttMinFloor <= rtt <= rttMax /\
  Estimator.RetryInterval e rttMin rttMax = rtt + rtt / 10.
Proof.
  intros H1 H2. cbv zeta. pose proof (clamped_floor e rttMin rttMax) as Hc.
  assert (0 < rttMinFloor) by done. split; [lia|].
  unfold Estimator.RetryInterval. apply mul_1_1_trunc. lia.
Qed.

Lemma retry_interval_is_integer_witness :
  let rtt := Estimator.Clamped (mkEstimator 123456 0) 5000 500000 in
  Estimator.RetryInterval (mkEstimator 123456 0) 5000 500000 = rtt + rtt / 10.
Proof. apply (retry_interval_is_integer (mkEstimator 123456 0) 5000 500000); vm_compute; intuition congruence. Defined.
