(* ===== verification/FlowTypes.v ===== *)
(** * The data of the flow core: internal/flow (flow.go, effects.go, and the state records)

    Config, the declarative effects and events, the counters, the receiver ring
    and its cursors, the sender history, and the [Flow] record that holds them.
    Pointers into a ring become indices, the singly linked missing queue becomes
    a list with its separate counter, and the [fifo] keeps its backing slice and head. *)

From S2P Require Import Prelude GoFloat Clock Wire Rtt.

(** ** effects.go *)

Definition TimerPlayout : Z := 0.
Definition TimerNack : Z := 1.
Definition TimerRttEcho : Z := 2.

Inductive Output :=
  | SendMedia (path : Z) (pkt : MediaPacket)
  | SendFeedback (path : Z) (fb : Feedback)
  | SetTimer (id deadline : Z)
  | ClearTimer (id : Z).

Record Event := Deliver {
  ev_Seq : Z;
  ev_SourceTime : Z;
  ev_Payload : bytes;
  ev_Discontinuity : bool;
  ev_Frag : FragRole;
  ev_VirtSrcPort : Z;
  ev_VirtDstPort : Z }.

Record Stats := mkStats {
  StReceived : Z; StReceivedBytes : Z;
  StSmoothedRTTUs : Z; StDataBitrateBps : Z; StRetryBitrateBps : Z;
  StIpsMinUs : Z; StIpsCurUs : Z; StIpsMaxUs : Z; StAvgBufferTimeUs : Z;
  StDuplicates : Z; StReordered : Z; StRetransmittedReceived : Z; StOverwritten : Z;
  StTooLate : Z; StTooLateRetransmit : Z; StMissing : Z; StNacksSent : Z; StRecovered : Z;
  StRecoveredOneRetry : Z; StRecoveredTwoNacks : Z; StRecoveredThreeNacks : Z;
  StRecoveredFourNacks : Z; StRecoveredMoreNacks : Z;
  StAbandoned : Z; StDelivered : Z; StLost : Z; StDiscontinuities : Z; StIgnoredFeedback : Z;
  StClockResync : Z; StFlowResets : Z; StFramingResets : Z;
  StSent : Z; StSentBytes : Z; StRetransmitted : Z; StRetransmittedBytes : Z;
  StRetransmitSkipped : Z; StRetransmitSuppressed : Z; StRetransmitExhausted : Z;
  StBandwidthSkipped : Z;
  StAnchored : bool; StShortSeq : bool }.

#[export] Instance eta_Stats : Eta Stats := fun s =>
  mkStats (StReceived s) (StReceivedBytes s)
    (StSmoothedRTTUs s) (StDataBitrateBps s) (StRetryBitrateBps s)
    (StIpsMinUs s) (StIpsCurUs s) (StIpsMaxUs s) (StAvgBufferTimeUs s)
    (StDuplicates s) (StReordered s) (StRetransmittedReceived s) (StOverwritten s)
    (StTooLate s) (StTooLateRetransmit s) (StMissing s) (StNacksSent s) (StRecovered s)
    (StRecoveredOneRetry s) (StRecoveredTwoNacks s) (StRecoveredThreeNacks s)
    (StRecoveredFourNacks s) (StRecoveredMoreNacks s)
    (StAbandoned s) (StDelivered s) (StLost s) (StDiscontinuities s) (StIgnoredFeedback s)
    (StClockResync s) (StFlowResets s) (StFramingResets s)
    (StSent s) (StSentBytes s) (StRetransmitted s) (StRetransmittedBytes s)
    (StRetransmitSkipped s) (StRetransmitSuppressed s) (StRetransmitExhausted s)
    (StBandwidthSkipped s) (StAnchored s) (StShortSeq s).

Definition Stats_zero : Stats :=
  mkStats 0 0 0 0 0 0 0 0 0 0 0 0 0 0 0 0 0 0 0 0 0 0 0 0 0 0 0 0 0 0 0 0 0 0 0 0 0 0 0 false false.

(** ** flow.go: the slice-backed FIFO *)

Record fifo (T : Type) := mkFifo { items : list T; head : nat }.
Arguments mkFifo {T} _ _.
Arguments items {T} _.
Arguments head {T} _.

Definition fifo_empty {T} : fifo T := mkFifo [] 0.

Definition fifo_push {T} (v : T) (q : fifo T) : fifo T := mkFifo (items q ++ [v]) (head q).

(** Popped slots are overwritten with the zero value [zero]; the backing slice
    is reused once the head reaches its end. *)
Definition fifo_pop {T} (zero : T) (q : fifo T) : option T * fifo T :=
  match items q !! head q with
  | None => (None, q)
  | Some v =>
      let its := <[head q := zero]> (items q) in
      let hd := S (head q) in
      (Some v, if (hd =? length its)%nat then mkFifo [] 0 else mkFifo its hd)
  end.

(** The queue a [fifo] stands for. *)
Definition pending {T} (q : fifo T) : list T := drop (head q) (items q).

(** ** flow.go: Config *)

Inductive Role := RoleSender | RoleReceiver.
Inductive CongestionMode := CongestionOff | CongestionNormal | CongestionAggressive.
Inductive TimingMode := TimingSource | TimingArrival | TimingRTC.

#[export] Instance Role_eq_dec : EqDecision Role.
Proof. solve_decision. Defined.
#[export] Instance CongestionMode_eq_dec : EqDecision CongestionMode.
Proof. solve_decision. Defined.
#[export] Instance TimingMode_eq_dec : EqDecision TimingMode.
Proof. solve_decision. Defined.

Record Config := mkConfig {
  RecoveryBufferMin : Z; RecoveryBufferMax : Z; ReorderBuffer : Z; RTTMin : Z; RTTMax : Z;
  RTTMultiplier : Z; MinRetries : Z; MaxRetries : Z; RecoveryMaxBitrate : Z;
  CongestionControl : CongestionMode; ReturnMaxBitrate : Z; RingSize : Z; RecoveryDepth : Z;
  cfg_SSRC : Z; StartSeq : Z; cfg_TimingMode : TimingMode; NoRecovery : bool }.

#[export] Instance eta_Config : Eta Config := fun c =>
  mkConfig (RecoveryBufferMin c) (RecoveryBufferMax c) (ReorderBuffer c) (RTTMin c) (RTTMax c)
    (RTTMultiplier c) (MinRetries c) (MaxRetries c) (RecoveryMaxBitrate c)
    (CongestionControl c) (ReturnMaxBitrate c) (RingSize c) (RecoveryDepth c)
    (cfg_SSRC c) (StartSeq c) (cfg_TimingMode c) (NoRecovery c).

Definition DefaultRingSize : Z := Z.shiftl 1 16.
Definition maxDerivedRingSize : Z := Z.shiftl 1 21.
Definition ringPacketBytes : Z := 1100.
Definition nackCadence : Z := 5 * Millisecond.
Definition rttEchoInterval : Z := 100 * Millisecond.

Definition DefaultConfig : Config :=
  mkConfig (1000 * Millisecond) (1000 * Millisecond) (15 * Millisecond) (5 * Millisecond) (500 * Millisecond)
    7 6 20 100000 CongestionNormal 0 DefaultRingSize 0 0 0 TimingSource false.

(** Config.RecoveryBuffer *)
Definition RecoveryBuffer (c : Config) : Z :=
  i64 (i64 (RecoveryBufferMax c - RecoveryBufferMin c) /g 2 + RecoveryBufferMin c).

Definition mul110 (d : Z) : Z := mul_1_1 d.

(** ** receiver.go: the ring, the missing queue, and the receiver state *)

Inductive slotState := slotEmpty | slotFilled.
#[export] Instance slotState_eq_dec : EqDecision slotState.
Proof. solve_decision. Defined.

Record slot := mkSlot {
  s_payload : bytes; s_sourceTime : Z; s_arrival : Z; s_packetTime : Z; s_outputTime : Z;
  s_pathSeen : Z; s_seq : Z; s_frag : FragRole; s_virtSrcPort : Z; s_virtDstPort : Z;
  s_state : slotState }.

#[export] Instance eta_slot : Eta slot := fun s =>
  mkSlot (s_payload s) (s_sourceTime s) (s_arrival s) (s_packetTime s) (s_outputTime s)
    (s_pathSeen s) (s_seq s) (s_frag s) (s_virtSrcPort s) (s_virtDstPort s) (s_state s).

(** [slot{}] *)
Definition slot_zero : slot := mkSlot [] 0 0 0 0 0 0 FragStandalone 0 0 slotEmpty.

Definition filled (s : slot) : bool := bool_decide (s_state s = slotFilled).

Record missingEntry := mkMissing {
  me_seq : Z; me_path : Z; nackCount : Z; insertionTime : Z; nextNack : Z }.

#[export] Instance eta_missingEntry : Eta missingEntry := fun e =>
  mkMissing (me_seq e) (me_path e) (nackCount e) (insertionTime e) (nextNack e).

Record receiverState := mkReceiver {
  ring : list slot; mask : Z; started : bool; offset : Z; ssrc : Z; shortSeq : bool;
  lastFound : Z; maxSourceTime : Z; lastPacketTime : Z; lastResync : Z; highest : Z;
  deliverNext : Z; pendingDiscontinuity : bool; lastPath : Z;
  missing : list missingEntry; missingCount : Z;
  playoutArmed : bool; playoutDeadline : Z; nackArmed : bool;
  nackSeqsPerSec : f64; nackTokenBurst : f64; nackTokens : f64; nackTokensTime : Z;
  senderMaxBuffer : Z; lossSnap : Z; recoveredSnap : Z;
  ipsLastArrival : Z; ipsMinUs : Z; ipsCurUs : Z; ipsMaxUs : Z;
  bufferTimeSum : Z; bufferTimeSamples : Z }.

#[export] Instance eta_receiverState : Eta receiverState := fun r =>
  mkReceiver (ring r) (mask r) (started r) (offset r) (ssrc r) (shortSeq r)
    (lastFound r) (maxSourceTime r) (lastPacketTime r) (lastResync r) (highest r)
    (deliverNext r) (pendingDiscontinuity r) (lastPath r) (missing r) (missingCount r)
    (playoutArmed r) (playoutDeadline r) (nackArmed r)
    (nackSeqsPerSec r) (nackTokenBurst r) (nackTokens r) (nackTokensTime r)
    (senderMaxBuffer r) (lossSnap r) (recoveredSnap r)
    (ipsLastArrival r) (ipsMinUs r) (ipsCurUs r) (ipsMaxUs r)
    (bufferTimeSum r) (bufferTimeSamples r).

Definition f64_zero : f64 := f64_of_Z 0.

Definition receiver_zero : receiverState :=
  mkReceiver [] 0 false 0 0 false 0 0 0 0 0 0 false 0 [] 0 false 0 false
    f64_zero f64_zero f64_zero 0 0 0 0 0 0 0 0 0 0.

(** ** congestion.go: the bitrate EWMAs *)

Record bitrateEWMA := mkBitrate {
  bytesSlow : Z; bytesFast : Z; lastSlow : Z; lastFast : Z;
  eightTimesSlow : Z; eightTimesFast : Z; seeded : bool }.

#[export] Instance eta_bitrateEWMA : Eta bitrateEWMA := fun b =>
  mkBitrate (bytesSlow b) (bytesFast b) (lastSlow b) (lastFast b) (eightTimesSlow b) (eightTimesFast b) (seeded b).

Definition bitrate_zero : bitrateEWMA := mkBitrate 0 0 0 0 0 0 false.

(** ** sender.go: the history ring and the sender state *)

Record senderSlot := mkSenderSlot {
  ss_payload : bytes; ss_sourceTime : Z; ss_seq : Z; transmitCount : Z; lastRetry : Z;
  retried : bool; ss_frag : FragRole; ss_state : slotState }.

#[export] Instance eta_senderSlot : Eta senderSlot := fun s =>
  mkSenderSlot (ss_payload s) (ss_sourceTime s) (ss_seq s) (transmitCount s) (lastRetry s)
    (retried s) (ss_frag s) (ss_state s).

Definition senderSlot_zero : senderSlot := mkSenderSlot [] 0 0 0 0 false FragStandalone slotEmpty.

Record senderState := mkSender {
  s_ring : list senderSlot; s_mask : Z; s_started : bool; s_ssrc : Z; nextSeq : Z; txPath : Z;
  dataBW : bitrateEWMA; retryBW : bitrateEWMA }.

#[export] Instance eta_senderState : Eta senderState := fun s =>
  mkSender (s_ring s) (s_mask s) (s_started s) (s_ssrc s) (nextSeq s) (txPath s) (dataBW s) (retryBW s).

Definition sender_zero : senderState := mkSender [] 0 false 0 0 0 bitrate_zero bitrate_zero.

(** ** flow.go: the Flow *)

Record Flow := mkFlow {
  role : Role; cfg : Config; recoveryBuffer : Z; recoveryBuffer110 : Z;
  missingCounterMax : Z; maxNacksPerLoop : Z; est : Estimator;
  outputs : fifo Output; events : fifo Event; stats : Stats;
  receiver : receiverState; sender : senderState }.

#[export] Instance eta_Flow : Eta Flow := fun f =>
  mkFlow (role f) (cfg f) (recoveryBuffer f) (recoveryBuffer110 f) (missingCounterMax f)
    (maxNacksPerLoop f) (est f) (outputs f) (events f) (stats f) (receiver f) (sender f).

(** The three ways the handlers touch the flow besides their own half:
    queue an effect, queue an event, add to a counter. *)
Definition emit (o : Output) (f : Flow) : Flow := f <| outputs ::= fifo_push o |>.
Definition raise (e : Event) (f : Flow) : Flow := f <| events ::= fifo_push e |>.
Definition count_by (g : Stats -> Z) `{!Setter g} (n : Z) (f : Flow) : Flow :=
  f <| stats ::= upd g (fun x => u64 (x + n)) |>.
Definition count (g : Stats -> Z) `{!Setter g} (f : Flow) : Flow := count_by g 1 f.
Definition on_receiver (g : receiverState -> receiverState) (f : Flow) : Flow := f <| receiver ::= g |>.
Definition on_sender (g : senderState -> senderState) (f : Flow) : Flow := f <| sender ::= g |>.

(** ** The FIFO implements a queue *)

Definition fifo_wf {T} (q : fifo T) : Prop := (head q <= length (items q))%nat.

Lemma pending_push {T} (v : T) q : fifo_wf q -> pending (fifo_push v q) = pending q ++ [v].
Proof. intros H. unfold pending, fifo_push. simpl. by apply drop_app_le. Qed.

Lemma fifo_push_wf {T} (v : T) q : fifo_wf q -> fifo_wf (fifo_push v q).
Proof. unfold fifo_wf, fifo_push. simpl. rewrite length_app. simpl. lia. Qed.

Lemma fifo_pop_wf {T} (z : T) q : fifo_wf q -> fifo_wf (snd (fifo_pop z q)).
Proof.
  unfold fifo_wf, fifo_pop. intros H. destruct (items q !! head q) as [v|] eqn:E; [|done].
  apply lookup_lt_Some in E. cbn [snd]. rewrite length_insert.
  destruct (Nat.eqb_spec (S (head q)) (length (items q))); simpl; [lia|]. rewrite length_insert. lia.
Qed.

Lemma drop_insert_S {T} (l : list T) i (z : T) : drop (S i) (<[i := z]> l) = drop (S i) l.
Proof. apply drop_insert_lt. lia. Qed.

(** [pop] returns the oldest pending element and removes exactly it; it fails exactly on the empty queue. *)
Lemma fifo_pop_spec {T} (z : T) q :
  fifo_wf q ->
  fifo_pop z q = match pending q with
                 | [] => (None, q)
                 | v :: _ => (Some v, snd (fifo_pop z q))
                 end /\
  pending (snd (fifo_pop z q)) = tail (pending q).
Proof.
  intros Hwf. unfold pending, fifo_pop. destruct (items q !! head q) as [v|] eqn:E.
  - rewrite (drop_S _ v) by done. cbn [snd tail]. split; [done|]. rewrite length_insert.
    destruct (Nat.eqb_spec (S (head q)) (length (items q))) as [Hl|Hl]; simpl.
    + by rewrite drop_ge by lia.
    + apply drop_insert_S.
  - apply lookup_ge_None in E. rewrite drop_ge by lia. cbn [snd]. by rewrite drop_ge by lia.
Qed.
