(* ===== verification/Congestion.v ===== *)
(** * Sizing and pacing: internal/flow/congestion.go and the size derivations of flow.go

    Pure functions of [Config] (ring size, missing-queue bound, retransmit budget per
    pass) and the bitrate EWMAs behind the recovery_maxbitrate gate. *)

From S2P Require Import Prelude Clock FlowTypes.

Definition ristHeaderOverheadBytes : Z := 28.
Definition ristNackMtuAssumed : Z := 1400.
Definition ristMaxJitterMs : Z := 5.
Definition ristMaxNacks : Z := 200.
Definition ristNackBytesPerSeq : Z := 4.
Definition bitrateSlowWindowUs : Z := 1000000.
Definition bitrateFastWindowUs : Z := 100000.

Definition deriveMissingCounterMax (c : Config) : Z :=
  let recoveryMs := RecoveryBuffer c /g Millisecond in
  let mbps := RecoveryMaxBitrate c /g 1000 in
  let mbps := if mbps <? 1 then 1 else mbps in
  let v := i64 (recoveryMs * mbps) /g ristHeaderOverheadBytes in
  if v <? 0 then 0 else u32 v.

Definition deriveMaxNacksPerLoop (c : Config) : Z :=
  let kbps := if RecoveryMaxBitrate c <=? 0 then 100000 else RecoveryMaxBitrate c in
  let bufMaxMs := RecoveryBufferMax c /g Millisecond in
  let bufMaxMs := if bufMaxMs <=? 0 then 1000 else bufMaxMs in
  let n := i64 (kbps * ristMaxJitterMs) /g (8 * ristNackMtuAssumed) in
  let n := i64 (n * 1000) /g bufMaxMs in
  let n := if n =? 0 then 1 else n in
  i64 (n * 2).

Definition deriveRingSize (c : Config) : Z :=
  let windowUs := i64 (RecoveryBufferMax c + i64 (2 * RTTMin c)) in
  let windowUs := if windowUs <? RecoveryBuffer c then RecoveryBuffer c else windowUs in
  let kbps := if RecoveryMaxBitrate c <=? 0 then 100000 else RecoveryMaxBitrate c in
  let packets := i64 (windowUs * kbps) /g (8000 * ringPacketBytes) in
  let floor := DefaultRingSize in
  let floor :=
    if 0 <? RecoveryDepth c then
      let d := i64 (Z.shiftl DefaultRingSize (RecoveryDepth c)) in
      if floor <? d then d else floor
    else floor in
  let packets := if packets <? floor then floor else packets in
  if maxDerivedRingSize <? packets then maxDerivedRingSize else packets.

(** The doubling loop of nextPow2: 63 iterations reach 2^62, the largest power of two of an int. *)
Fixpoint nextPow2_loop (fuel : nat) (p n : Z) : option Z :=
  match fuel with
  | O => None
  | S fuel => if p <? n then nextPow2_loop fuel (i64 (Z.shiftl p 1)) n else Some p
  end.

Definition nextPow2 (n : Z) : Z := default 0 (nextPow2_loop 63 1 n).

(** The ring capacity [New] allocates. *)
Definition ringCapacity (c : Config) : Z :=
  nextPow2 (if RingSize c <=? 0 then deriveRingSize c else RingSize c).

Module bitrateEWMA.
(** One window of [feed]: fold the accumulated bytes once the window has elapsed. *)
Definition window_sample (byteCount elapsed eightTimes : Z) : Z :=
  let sample := i64 (i64 (8 * byteCount) * 1000000) /g elapsed in
  i64 (eightTimes + i64 (sample - eightTimes /g 8)).

Definition feed (now n : Z) (b : bitrateEWMA) : bitrateEWMA :=
  let b := if seeded b then b
           else b <| lastSlow := now |> <| lastFast := now |> <| seeded := true |> in
  let b := b <| bytesSlow ::= fun x => i64 (x + n) |> in
  let b := b <| bytesFast ::= fun x => i64 (x + n) |> in
  let elapsed := Timestamp.Sub now (lastSlow b) in
  let b := if bitrateSlowWindowUs <=? elapsed then
             b <| eightTimesSlow := window_sample (bytesSlow b) elapsed (eightTimesSlow b) |>
               <| lastSlow := now |> <| bytesSlow := 0 |>
           else b in
  let elapsed := Timestamp.Sub now (lastFast b) in
  if bitrateFastWindowUs <=? elapsed then
    b <| eightTimesFast := window_sample (bytesFast b) elapsed (eightTimesFast b) |>
      <| lastFast := now |> <| bytesFast := 0 |>
  else b.

Definition slowBps (b : bitrateEWMA) : Z := eightTimesSlow b /g 8.
Definition fastBps (b : bitrateEWMA) : Z := eightTimesFast b /g 8.
End bitrateEWMA.

Definition overBudget (mode : CongestionMode) (data retry : bitrateEWMA) (maxKbps : Z) : bool :=
  match mode with
  | CongestionOff => false
  | CongestionAggressive =>
      i64 (maxKbps * 1000) <? i64 (bitrateEWMA.fastBps data + bitrateEWMA.fastBps retry)
  | CongestionNormal =>
      i64 (maxKbps * 1000) <? i64 (bitrateEWMA.slowBps data + bitrateEWMA.fastBps retry)
  end.

Definition wireBytes (payloadLen : Z) : Z := i64 (payloadLen + ristHeaderOverheadBytes).

(** ** Lemmas *)

(** The doubling loop stops at the first power of two that is not below [n]. *)
Lemma nextPow2_loop_spec fuel k n :
  0 <= k -> 2 ^ k < 2 * n -> 0 < n <= 2 ^ (k + Z.of_nat fuel - 1) -> k + Z.of_nat fuel <= 63 ->
  exists j, k <= j <= 62 /\ nextPow2_loop fuel (2 ^ k) n = Some (2 ^ j) /\ n <= 2 ^ j < 2 * n.
Proof.
  revert k. induction fuel as [|fuel IH]; intros k Hk Hlo Hn Hf.
  { assert (2 ^ (k + Z.of_nat 0 - 1) * 2 <= 2 ^ k); [|lia].
    destruct (Z.eq_dec k 0) as [->|]; [simpl; lia|].
    rewrite Z.mul_comm, <-Z.pow_succ_r by lia. apply Z.pow_le_mono_r; lia. }
  cbn [nextPow2_loop]. destruct (Z.ltb_spec (2 ^ k) n).
  - rewrite Z.shiftl_mul_pow2 by lia. change (2 ^ 1) with 2.
    assert (2 ^ k * 2 = 2 ^ (k + 1)) as -> by (rewrite Z.pow_add_r; lia).
    assert (k + 1 <= 62).
    { destruct (Z.le_gt_cases (k + 1) 62); [done|]. assert (k = 62) as -> by lia.
      assert (fuel = 0%nat) as -> by lia. simpl in Hn. lia. }
    rewrite i64_id.
    + destruct (IH (k + 1)) as (j & ? & ? & ?).
      { lia. } { rewrite Z.pow_add_r by lia. lia. }
      { replace (k + 1 + Z.of_nat fuel - 1) with (k + Z.of_nat (S fuel) - 1) by lia. lia. } { lia. }
      exists j. split; [lia|done].
    + pose proof (Z.pow_le_mono_r 2 (k + 1) 62). pose proof (Z.pow_pos_nonneg 2 (k + 1)).
      unfold in_i64. lia.
  - exists k. split; [lia|done].
Qed.

Lemma nextPow2_spec n : 0 < n <= 2 ^ 62 -> exists j, 0 <= j <= 62 /\ nextPow2 n = 2 ^ j /\ n <= 2 ^ j < 2 * n.
Proof.
  intros Hn. destruct (nextPow2_loop_spec 63 0 n) as (j & Hj & E & Hb).
  { lia. } { simpl. lia. } { simpl. lia. } { lia. }
  exists j. unfold nextPow2. change 1 with (2 ^ 0). rewrite E. done.
Qed.

Lemma deriveRingSize_bounds c : DefaultRingSize <= deriveRingSize c <= maxDerivedRingSize.
Proof.
  unfold deriveRingSize. change DefaultRingSize with 65536. change maxDerivedRingSize with 2097152.
  cbv zeta. set (p := _ /g (8000 * ringPacketBytes)). clearbody p.
  set (fl := if 0 <? RecoveryDepth c then _ else _).
  assert (65536 <= fl) by (subst fl; set (d := i64 _); clearbody d; case_cmp; lia).
  clearbody fl. destruct (Z.ltb_spec p fl); case_cmp; lia.
Qed.

Lemma ringCapacity_spec c :
  RingSize c <= 2 ^ 62 ->
  exists j, 0 <= j <= 62 /\ ringCapacity c = 2 ^ j /\
    (0 < RingSize c -> RingSize c <= 2 ^ j < 2 * RingSize c) /\
    (RingSize c <= 0 -> 16 <= j <= 21).
Proof.
  intros Hr. unfold ringCapacity. destruct (Z.leb_spec (RingSize c) 0).
  - pose proof (deriveRingSize_bounds c) as Hd. change DefaultRingSize with (2 ^ 16) in Hd.
    change maxDerivedRingSize with (2 ^ 21) in Hd.
    destruct (nextPow2_spec (deriveRingSize c)) as (j & Hj & E & Hb); [lia|].
    exists j. split_and!; try done; try lia.
    + intros _. split.
      * apply (Z.pow_le_mono_r_iff 2); lia.
      * apply Z.lt_succ_r, (Z.pow_lt_mono_r_iff 2); [lia|lia|]. rewrite Z.pow_succ_r; lia.
  - destruct (nextPow2_spec (RingSize c)) as (j & Hj & E & Hb); [lia|]. exists j. split_and!; try done; lia.
Qed.

(** Above 2^62 the doubling overflows before it reaches [n]. *)
Lemma nextPow2_loop_diverges fuel p n :
  2 ^ 62 < n -> (exists k, 0 <= k <= 62 /\ p = 2 ^ k) \/ p = - 2 ^ 63 \/ p = 0 -> nextPow2_loop fuel p n = None.
Proof.
  intros Hn. revert p. induction fuel as [|fuel IH]; intros p Hp; [done|]. cbn [nextPow2_loop].
  destruct (Z.ltb_spec p n) as [_|Hge].
  - apply IH. rewrite Z.shiftl_mul_pow2 by lia. change (2 ^ 1) with 2. destruct Hp as [(k & Hk & ->)|[-> | ->]].
    + destruct (Z.eq_dec k 62) as [->|]; [right; by left|left]. exists (k + 1). split; [lia|].
      pose proof (Z.pow_le_mono_r 2 k 61). pose proof (Z.pow_pos_nonneg 2 k).
      rewrite Z.pow_add_r, i64_id; unfold in_i64; lia.
    + right. by right.
    + right. by right.
  - exfalso. destruct Hp as [(k & Hk & ->)|[-> | ->]]; [|lia..]. pose proof (Z.pow_le_mono_r 2 k 62). lia.
Qed.

(** ** Properties *)

(** The ring [New] allocates always has a power-of-two capacity that covers the request: the least power
    of two above an explicit size up to 2^62, and between 2^16 and 2^21 slots when the size is derived from the
    recovery window, bitrate and depth, whatever those are. *)
Theorem ring_capacity_pow2 c :
  RingSize c <= 2 ^ 62 ->
  exists j, 0 <= j <= 62 /\ ringCapacity c = 2 ^ j /\
    (0 < RingSize c -> RingSize c <= 2 ^ j < 2 * RingSize c) /\
    (RingSize c <= 0 -> 16 <= j <= 21).
Proof. apply ringCapacity_spec. Qed.

Lemma ring_capacity_pow2_witness : exists j, 0 <= j <= 62 /\ ringCapacity DefaultConfig = 2 ^ j.
Proof.
  destruct (ring_capacity_pow2 DefaultConfig) as (j & H1 & H2 & _); [vm_compute; congruence|].
  exists j. split; [exact H1|exact H2].
Defined.

(** The bound is sharp: for a size above 2^62 the doubling wraps to the most negative int and then to zero, and
    the loop of nextPow2 never exits. *)
Theorem nextPow2_never_exits n : 2 ^ 62 < n -> forall fuel, nextPow2_loop fuel 1 n = None.
Proof. intros Hn fuel. apply nextPow2_loop_diverges; [done|]. left. exists 0. split; [lia|done]. Qed.

Lemma nextPow2_never_exits_witness : nextPow2_loop 1000 1 (2 ^ 62 + 1) = None.
Proof. apply (nextPow2_never_exits (2 ^ 62 + 1)). lia. Defined.
