(* ===== verification/FlowNew.v ===== *)
(** * Construction of a flow: New of internal/flow/flow.go *)

From S2P Require Import Prelude GoFloat Clock Wire Rtt FlowTypes Congestion.

(** [math.MaxInt64], the inter-packet spacing sentinel. *)
Definition MaxInt64 : Z := 9223372036854775807.

(** The receiver half [New] allocates: an empty ring, and the return-rate token bucket, full, when a
    return bitrate is configured. *)
Definition new_receiver (size : Z) (c : Config) : receiverState :=
  let r := receiver_zero <| ring := replicate (Z.to_nat size) slot_zero |>
             <| mask := u32 (size - 1) |> <| ipsMinUs := MaxInt64 |> in
  if 0 <? ReturnMaxBitrate c then
    let rate := f64_div (f64_div (f64_mul (f64_of_Z (ReturnMaxBitrate c)) (f64_of_Z 1000)) (f64_of_Z 8))
                  (f64_of_Z ristNackBytesPerSeq) in
    r <| nackSeqsPerSec := rate |> <| nackTokenBurst := f64_of_Z ristMaxNacks |>
      <| nackTokens := f64_of_Z ristMaxNacks |>
  else r.

Definition new_sender (size : Z) (c : Config) : senderState :=
  sender_zero <| s_ring := replicate (Z.to_nat size) senderSlot_zero |> <| s_mask := u32 (size - 1) |>
    <| s_ssrc := cfg_SSRC c |> <| nextSeq := StartSeq c |>.

Definition New (ro : Role) (c : Config) : Flow :=
  let rb := RecoveryBuffer c in
  let f := mkFlow ro c rb (mul110 rb) (deriveMissingCounterMax c) (deriveMaxNacksPerLoop c)
             (rtt_New (RTTMin c)) fifo_empty fifo_empty Stats_zero receiver_zero sender_zero in
  let size := ringCapacity c in
  match ro with
  | RoleReceiver => f <| receiver := new_receiver size c |>
  | RoleSender => f <| sender := new_sender size c |>
  end.

(** A small configuration the examples of the later files run: the defaults with a four-slot ring. *)
Definition demo_config : Config := DefaultConfig <| RingSize := 4 |>.
