(* ===== verification/Sender.v ===== *)
(** * The sender half of a flow: internal/flow/sender.go

    First transmissions ([pushAppBlock]) enter a history ring; a NACK is served from it through the
    gates of [serviceNack].  The theorems: the history keeps the last ring-size transmissions, every
    sequence of a NACK is accounted for by exactly one counter, the per-pass budget and the
    retry cap hold, one pass never sends a sequence twice, and what is resent is what was sent. *)

From S2P Require Import Prelude Clock Wire Rtt FlowTypes Congestion FlowNew.

(** ** The history ring *)

(** Total, as the receiver's ring access; [FlowChecked] has the panic of an index out of range. *)
Definition hidx (s : senderState) (n : Z) : nat := Z.to_nat (Z.land n (s_mask s)).
Definition history_at (s : senderState) (n : Z) : senderSlot := default senderSlot_zero (s_ring s !! hidx s n).
Definition set_history (n : Z) (sl : senderSlot) (s : senderState) : senderState :=
  s <| s_ring ::= <[hidx s n := sl]> |>.

(** The test [sl.state == slotFilled && sl.seq == n]. *)
Definition keeps (sl : senderSlot) (n : Z) : bool :=
  bool_decide (ss_state sl = slotFilled) && (ss_seq sl =? n).

(** ** Transmission *)

(** The packet of a history slot, as a first transmission or a retransmission. *)
Definition media_of (s : senderState) (sl : senderSlot) (re : bool) : MediaPacket :=
  mkMediaPacket (ss_seq sl) (ss_sourceTime sl) (s_ssrc s) (ss_payload sl) re (txPath s) (ss_frag sl) 0 0 false.

Definition pushAppBlock (now : Z) (payload : bytes) (frag : FragRole) (seqOpt sourceTime : option Z) (f : Flow) : Flow :=
  let f :=
    if s_started (sender f) then f else
    let f := on_sender (fun s => s <| s_started := true |>) f in
    if NoRecovery (cfg f) then f else emit (SetTimer TimerRttEcho (Timestamp.Add now rttEchoInterval)) f in
  let seqn := default (nextSeq (sender f)) seqOpt in
  let f := on_sender (fun s => s <| nextSeq := u32 (seqn + 1) |>) f in
  let srcTime := default (NTPTimeFromTimestamp now) sourceTime in
  let sl := mkSenderSlot payload srcTime seqn 0 0 false frag slotFilled in
  let f := if NoRecovery (cfg f) then f else on_sender (set_history seqn sl) f in
  let f := emit (SendMedia (txPath (sender f)) (media_of (sender f) sl false)) f in
  let f := on_sender (fun s => s <| dataBW ::= bitrateEWMA.feed now (wireBytes (zlen payload)) |>) f in
  count_by StSentBytes (zlen payload) (count StSent f).

Definition pushApp (now : Z) (payload : bytes) (frag : FragRole) (f : Flow) : Flow :=
  pushAppBlock now payload frag None None f.

(** ** Retransmission *)

(** The default case of the gate: mark the slot, send it again, account for it. *)
Definition resend (now n : Z) (f : Flow) : Flow :=
  let sl := history_at (sender f) n <| lastRetry := now |> <| retried := true |> <| transmitCount ::= fun n => i64 (n + 1) |> in
  let f := on_sender (set_history n sl) f in
  let f := emit (SendMedia (txPath (sender f)) (media_of (sender f) sl true)) f in
  let f := on_sender (fun s => s <| retryBW ::= bitrateEWMA.feed now (wireBytes (zlen (ss_payload sl))) |>) f in
  count_by StRetransmittedBytes (zlen (ss_payload sl)) (count StRetransmitted f).

(** The gates, in the order of the switch: the counter an unserved sequence goes to. *)
Inductive gate := GateSkipped | GateSuppressed | GateBandwidth | GateExhausted | GateSend.

Definition nack_gate (now rtt : Z) (f : Flow) (n : Z) : gate :=
  let sl := history_at (sender f) n in
  if negb (keeps sl n) then GateSkipped
  else if retried sl && (Timestamp.Sub now (lastRetry sl) <? rtt) then GateSuppressed
  else if overBudget (CongestionControl (cfg f)) (dataBW (sender f)) (retryBW (sender f)) (RecoveryMaxBitrate (cfg f))
  then GateBandwidth
  else if MaxRetries (cfg f) <=? transmitCount sl then GateExhausted
  else GateSend.

(** The loop over the requested sequences; it returns early once the pass has emitted its budget. *)
Fixpoint service_loop (now rtt : Z) (missing : list Z) (emitted : Z) (f : Flow) : Flow :=
  match missing with
  | [] => f
  | n :: missing =>
      match nack_gate now rtt f n with
      | GateSkipped => service_loop now rtt missing emitted (count StRetransmitSkipped f)
      | GateSuppressed => service_loop now rtt missing emitted (count StRetransmitSuppressed f)
      | GateBandwidth => service_loop now rtt missing emitted (count StBandwidthSkipped f)
      | GateExhausted => service_loop now rtt missing emitted (count StRetransmitExhausted f)
      | GateSend =>
          let f := resend now n f in
          let emitted := i64 (emitted + 1) in
          if maxNacksPerLoop f <=? emitted then f else service_loop now rtt missing emitted f
      end
  end.

Definition retransmit_spacing (f : Flow) : Z :=
  let rtt := Estimator.LastClamped (est f) (RTTMin (cfg f)) (RTTMax (cfg f)) in
  if bool_decide (CongestionControl (cfg f) = CongestionAggressive) then i64 (rtt * 2) else rtt.

Definition serviceNack (now : Z) (missing : list Z) (f : Flow) : Flow :=
  let rtt := retransmit_spacing f in
  let f := on_sender (fun s => s <| dataBW ::= bitrateEWMA.feed now 0 |> <| retryBW ::= bitrateEWMA.feed now 0 |>) f in
  service_loop now rtt missing 0 f.

(** ** Timer *)

Definition senderHandleTimer (now id : Z) (f : Flow) : Flow :=
  if id =? TimerRttEcho then
    if s_started (sender f) then
      let f := emit (SendFeedback (txPath (sender f)) (RttEchoRequest 0 (NTPTimeFromTimestamp now))) f in
      emit (SetTimer TimerRttEcho (Timestamp.Add now rttEchoInterval)) f
    else f
  else f.

(** ** The history as a map *)

(** The transmission the history keeps for sequence [n], if any. *)
Definition hist (s : senderState) (n : Z) : option senderSlot :=
  if keeps (history_at s n) n then Some (history_at s n) else None.

Definition hist_shape (k : Z) (s : senderState) : Prop :=
  0 <= k <= 32 /\ zlen (s_ring s) = 2 ^ k /\ s_mask s = 2 ^ k - 1.

Record send_inv (k : Z) (f : Flow) : Prop := {
  sv_shape : hist_shape k (sender f);
  sv_next : in_u32 (nextSeq (sender f));
  sv_retries : MaxRetries (cfg f) < 2 ^ 62;
  sv_count : forall n sl, hist (sender f) n = Some sl -> 0 <= transmitCount sl <= Z.max 0 (MaxRetries (cfg f));
  sv_outputs : fifo_wf (outputs f);
  sv_events : fifo_wf (events f) }.

Lemma hidx_mod k s n : hist_shape k s -> hidx s n = Z.to_nat (n mod 2 ^ k).
Proof.
  intros (Hk & _ & Hm). unfold hidx. by rewrite Hm, <-Z.land_ones, Z.ones_equiv, Z.sub_1_r by lia.
Qed.

Lemma hidx_lt k s n : hist_shape k s -> (hidx s n < length (s_ring s))%nat.
Proof.
  intros Hs. rewrite (hidx_mod k) by done. destruct Hs as (Hk & Hl & _). unfold zlen in Hl.
  pose proof (Z.mod_pos_bound n (2 ^ k)). pose proof (Z.pow_pos_nonneg 2 k). lia.
Qed.

(** Sequences less than a ring apart do not share a slot. *)
Lemma hidx_inj k s a i j :
  hist_shape k s -> Z.abs (i - j) < 2 ^ k -> hidx s (u32 (a + i)) = hidx s (u32 (a + j)) -> i = j.
Proof.
  intros Hs Hd. rewrite !(hidx_mod k) by done. destruct Hs as (Hk & _).
  pose proof (Z.pow_pos_nonneg 2 k). pose proof (Z.mod_pos_bound (u32 (a + i)) (2 ^ k)).
  pose proof (Z.mod_pos_bound (u32 (a + j)) (2 ^ k)). intros E%Z2Nat.inj; [|lia..].
  assert (Hu : forall z, u32 z mod 2 ^ k = z mod 2 ^ k).
  { intros z. unfold u32, uwrap. apply Z.mod_mod_divide. exists (2 ^ (32 - k)). rewrite <-Z.pow_add_r by lia. f_equal. lia. }
  rewrite !Hu in E. apply mod_eq_close in E; lia.
Qed.

Lemma keeps_true sl n : keeps sl n = true <-> ss_state sl = slotFilled /\ ss_seq sl = n.
Proof. unfold keeps. by rewrite andb_true_iff, bool_decide_eq_true, Z.eqb_eq. Qed.

Lemma hist_keeps s n sl : hist s n = Some sl -> sl = history_at s n /\ ss_state sl = slotFilled /\ ss_seq sl = n.
Proof. unfold hist. case_match eqn:E; [|done]. intros [= <-]. split; [done|]. by apply keeps_true. Qed.

Lemma set_history_shape k n sl s : hist_shape k s -> hist_shape k (set_history n sl s).
Proof. unfold hist_shape, set_history, zlen. simpl. by rewrite length_insert. Qed.

Lemma hist_ext s s' n : s_ring s' = s_ring s -> s_mask s' = s_mask s -> hist s' n = hist s n.
Proof. unfold hist, history_at, hidx. by intros -> ->. Qed.

Lemma hist_set k n sl s m :
  hist_shape k s ->
  hist (set_history n sl s) m =
    if decide (hidx s m = hidx s n) then (if keeps sl m then Some sl else None) else hist s m.
Proof.
  intros Hs. unfold hist, history_at, set_history, hidx. simpl. fold (hidx s m) (hidx s n).
  destruct (decide (hidx s m = hidx s n)) as [->|Hne].
  - rewrite list_lookup_insert_eq by (by eapply hidx_lt). done.
  - by rewrite list_lookup_insert_ne by done.
Qed.

(** Rewriting the slot of a kept sequence changes the entry of that sequence only. *)
Lemma hist_update k n sl s m :
  hist_shape k s -> keeps (history_at s n) n = true -> keeps sl n = true ->
  hist (set_history n sl s) m = if decide (m = n) then Some sl else hist s m.
Proof.
  intros Hs Hk Hsl. rewrite (hist_set k) by done. apply keeps_true in Hk as [_ Hk]. apply keeps_true in Hsl as [Hf Hsl].
  destruct (decide (hidx s m = hidx s n)) as [E|E]; [|rewrite decide_False; [done|by intros ->]].
  assert (Hseq : forall t, keeps t m = true -> ss_seq t = m) by (intros t [_ ?]%keeps_true; done).
  case_decide as Em; [subst m; by rewrite (proj2 (keeps_true sl n))|].
  destruct (keeps sl m) eqn:E1; [apply Hseq in E1; congruence|]. symmetry. unfold hist.
  replace (history_at s m) with (history_at s n) by (unfold history_at; by rewrite E).
  destruct (keeps (history_at s n) m) eqn:E2; [apply Hseq in E2; congruence|done].
Qed.

(** ** One pass over a NACK *)

(** Two slots keep the same transmission. *)
Definition same_tx (a b : senderSlot) : Prop :=
  ss_payload b = ss_payload a /\ ss_sourceTime b = ss_sourceTime a /\ ss_seq b = ss_seq a /\ ss_frag b = ss_frag a.

(** The fields a pass leaves alone. *)
Record same_sender (f f' : Flow) : Prop := {
  ss_cfg : cfg f' = cfg f;
  ss_est : est f' = est f;
  ss_role : role f' = role f;
  ss_budget : maxNacksPerLoop f' = maxNacksPerLoop f;
  ss_events : events f' = events f;
  ss_receiver : receiver f' = receiver f;
  ss_ssrc' : s_ssrc (sender f') = s_ssrc (sender f);
  ss_path : txPath (sender f') = txPath (sender f);
  ss_next : nextSeq (sender f') = nextSeq (sender f);
  ss_begun : s_started (sender f') = s_started (sender f) }.

#[export] Instance same_sender_preorder : PreOrder same_sender.
Proof. split; [by intros f; split|]. intros f g h [] []. split; congruence. Qed.

(** The five ways a requested sequence is accounted for. *)
Definition nack_outcomes (s : Stats) : Z :=
  StRetransmitSkipped s + StRetransmitSuppressed s + StBandwidthSkipped s + StRetransmitExhausted s + StRetransmitted s.

Definition marked (now : Z) (sl : senderSlot) : Prop := retried sl = true /\ lastRetry sl = now.

(** What a pass at [now] over [missing] does to [f], having emitted [emitted] already. *)
Record service_spec (k now rtt : Z) (missing : list Z) (emitted : Z) (f f' : Flow)
    (served : list Z) (sent : list MediaPacket) : Prop := {
  sp_prefix : exists rest, missing = served ++ rest /\ (rest <> [] -> maxNacksPerLoop f <= emitted + zlen sent);
  sp_out : pending (outputs f') = pending (outputs f) ++ (SendMedia (txPath (sender f)) <$> sent);
  sp_cap : emitted + zlen sent <= Z.max (emitted + 1) (maxNacksPerLoop f);
  sp_served : u64 (nack_outcomes (stats f')) = u64 (nack_outcomes (stats f) + zlen served);
  sp_sent : u64 (StRetransmitted (stats f')) = u64 (StRetransmitted (stats f) + zlen sent);
  sp_sub : (Seq <$> sent) `sublist_of` served;
  sp_from : Forall (fun p => exists sl, hist (sender f) (Seq p) = Some sl /\ p = media_of (sender f) sl true /\
                             transmitCount sl < MaxRetries (cfg f)) sent;
  sp_nodup : 0 < rtt -> NoDup (Seq <$> sent) /\
             forall n sl, hist (sender f) n = Some sl -> marked now sl -> n ∉ (Seq <$> sent);
  sp_hist : forall n sl', hist (sender f') n = Some sl' -> exists sl, hist (sender f) n = Some sl /\ same_tx sl sl';
  sp_same : same_sender f f';
  sp_inv : send_inv k f' }.

Section counted.
Context (k now rtt n : Z) (missing : list Z) (emitted : Z) (f f1 f' : Flow) (served : list Z) (sent : list MediaPacket).
Hypothesis (Hsend : sender f1 = sender f) (Hout : outputs f1 = outputs f) (Hsame : same_sender f f1).
Hypothesis (Hcount : u64 (nack_outcomes (stats f1)) = u64 (nack_outcomes (stats f) + 1)).
Hypothesis (Hre : StRetransmitted (stats f1) = StRetransmitted (stats f)).

(** A gate that refuses a sequence only counts it. *)
Lemma service_counted :
  service_spec k now rtt missing emitted f1 f' served sent ->
  service_spec k now rtt (n :: missing) emitted f f' (n :: served) sent.
Proof.
  intros [(rest & E & Hr) P2 P3 P4 P5 P6 P7 P8 P9 P10 P11]. rewrite Hsend, ?Hout, ?(ss_budget _ _ Hsame), ?(ss_cfg _ _ Hsame) in *.
  split; try done.
  - exists rest. by rewrite E.
  - rewrite P4, <-u64_add_l, Hcount, u64_add_l. f_equal. unfold zlen. simpl. lia.
  - by rewrite P5, Hre.
  - by apply sublist_cons.
  - by etrans.
Qed.
End counted.

Lemma service_stop k now rtt missing emitted f :
  send_inv k f -> (missing <> [] -> maxNacksPerLoop f <= emitted) ->
  service_spec k now rtt missing emitted f f [] [].
Proof.
  intros Hi Hm. assert (H0 : zlen (@nil MediaPacket) = 0) by done. split; try done; rewrite ?H0, ?Z.add_0_r; try done.
  - by exists missing.
  - by rewrite app_nil_r.
  - lia.
  - intros _. split; [constructor|]. intros n sl _ _ H. by apply elem_of_nil in H.
  - intros n sl' H. by exists sl'.
Qed.

(** A slot after it has been resent. *)
Definition remark (now : Z) (sl : senderSlot) : senderSlot :=
  sl <| lastRetry := now |> <| retried := true |> <| transmitCount ::= fun n => i64 (n + 1) |>.

Lemma u64_sum_last a b : u64 (a + u64 (b + 1)) = u64 (a + b + 1).
Proof. rewrite Z.add_comm, u64_add_l. f_equal. lia. Qed.

Lemma resend_frame now n f :
  let sl := history_at (sender f) n in let f1 := resend now n f in
  same_sender f f1 /\ s_ring (sender f1) = s_ring (set_history n (remark now sl) (sender f)) /\
  s_mask (sender f1) = s_mask (sender f) /\
  outputs f1 = fifo_push (SendMedia (txPath (sender f)) (media_of (sender f) sl true)) (outputs f) /\
  StRetransmitted (stats f1) = u64 (StRetransmitted (stats f) + 1) /\
  u64 (nack_outcomes (stats f1)) = u64 (nack_outcomes (stats f) + 1).
Proof.
  cbv zeta. split_and!; try done. unfold nack_outcomes.
  change (stats (resend now n f)) with
    (stats f <| StRetransmitted ::= fun x => u64 (x + 1) |>
       <| StRetransmittedBytes ::= fun x => u64 (x + zlen (ss_payload (history_at (sender f) n))) |>).
  apply u64_sum_last.
Qed.

Section resent.
Context (k now rtt n : Z) (f : Flow) (sl : senderSlot).
Hypothesis (Hi : send_inv k f) (Hh : hist (sender f) n = Some sl) (Hr : transmitCount sl < MaxRetries (cfg f)).

Lemma resend_hist m :
  hist (sender (resend now n f)) m = if decide (m = n) then Some (remark now sl) else hist (sender f) m.
Proof using Hi Hh.
  destruct (hist_keeps _ _ _ Hh) as (E & Hf & Hs).
  rewrite <-(hist_update k n (remark now sl) (sender f)).
  - destruct (resend_frame now n f) as (_ & E1 & E2 & _). rewrite <-E in E1. by apply hist_ext.
  - apply Hi.
  - rewrite <-E. by apply keeps_true.
  - by apply keeps_true.
Qed.

Lemma resend_inv : send_inv k (resend now n f).
Proof using Hi Hh Hr.
  destruct (resend_frame now n f) as ([] & E1 & E2 & E3 & _). pose proof Hi as [Hsh ? Hmr Hc ? ?].
  split; rewrite ?ss_cfg0, ?ss_events0, ?ss_next0, ?E3; try done.
  - pose proof (set_history_shape k n (remark now (history_at (sender f) n)) _ Hsh) as Hsh'.
    unfold hist_shape in *. by rewrite E1, E2.
  - intros m t. rewrite resend_hist. case_decide; [|apply Hc]. intros [= <-].
    specialize (Hc n sl Hh). change (transmitCount (remark now sl)) with (i64 (transmitCount sl + 1)). nowrap. lia.
  - by apply fifo_push_wf.
Qed.

(** A slot seen after the resend is the slot before it, up to its retry marks. *)
Lemma resend_hist_inv m t :
  hist (sender (resend now n f)) m = Some t ->
  exists t0, hist (sender f) m = Some t0 /\ same_tx t0 t /\ transmitCount t0 <= transmitCount t /\
    (m <> n -> t = t0).
Proof using Hi Hh Hr.
  rewrite resend_hist. case_decide as E; [|by exists t]. intros [= <-]. subst m. exists sl. split_and!; try done.
  pose proof (sv_count _ _ Hi n sl Hh). pose proof (sv_retries _ _ Hi).
  change (transmitCount (remark now sl)) with (i64 (transmitCount sl + 1)). nowrap. lia.
Qed.

(** The rest of the pass, seen from before the resend. *)
Lemma service_resent missing emitted f' served sent :
  retried sl && (Timestamp.Sub now (lastRetry sl) <? rtt) = false ->
  emitted + 1 < maxNacksPerLoop f \/ sent = [] ->
  service_spec k now rtt missing (emitted + 1) (resend now n f) f' served sent ->
  service_spec k now rtt (n :: missing) emitted f f' (n :: served) (media_of (sender f) sl true :: sent).
Proof using Hi Hh Hr.
  intros Hgate Hcap [(rest & E & Hrest) P2 P3 P4 P5 P6 P7 P8 P9 P10 P11].
  destruct (resend_frame now n f) as (Hs & _ & _ & Eo & S1 & S2). pose proof Hs as [C1 C2 C3 C4 C5 C6 C7 C8 C9].
  destruct (hist_keeps _ _ _ Hh) as (Esl & _ & Hseq). rewrite <-Esl in Eo. rewrite C4 in *. rewrite C8 in *.
  assert (Hz : forall p : MediaPacket, zlen (p :: sent) = zlen sent + 1) by (intros p; unfold zlen; simpl; lia).
  assert (Hmo : Seq (media_of (sender f) sl true) = n) by done.
  split.
  - exists rest. split; [by rewrite E|]. rewrite Hz. intros Hne. specialize (Hrest Hne). lia.
  - rewrite P2, Eo, pending_push, <-app_assoc by apply Hi. done.
  - rewrite Hz. destruct Hcap as [?| ->]; [lia|]. change (zlen (@nil MediaPacket)) with 0. lia.
  - rewrite P4, <-u64_add_l, S2, u64_add_l. f_equal. unfold zlen. simpl. lia.
  - rewrite P5, S1, u64_add_l, Hz. f_equal. lia.
  - cbn [fmap list_fmap]. rewrite Hmo. by apply sublist_skip.
  - constructor; [exists sl; by rewrite Hmo|]. eapply Forall_impl; [exact P7|]. intros p (t & Ht & Ep & Hlt).
    destruct (resend_hist_inv _ _ Ht) as (t0 & Ht0 & (T1 & T2 & T3 & T4) & T5 & _). exists t0.
    split; [done|]. rewrite C1 in Hlt. split; [|lia]. rewrite Ep. unfold media_of. by rewrite C7, C8, T1, T2, T3, T4.
  - intros Hrtt. destruct (P8 Hrtt) as [P8a P8b]. cbn [fmap list_fmap]. rewrite Hmo. split.
    + constructor; [|done]. apply (P8b n (remark now sl)); [|done]. by rewrite resend_hist, decide_True.
    + intros m t Hm Hmk [->|Hin]%elem_of_cons.
      * rewrite Hh in Hm. injection Hm as <-. destruct Hmk as [Hm1 Hm2]. rewrite Hm1, Hm2 in Hgate.
        unfold Timestamp.Sub in Hgate. rewrite Z.sub_diag in Hgate. change (i64 0) with 0 in Hgate. simpl in Hgate. lia.
      * destruct (decide (m = n)) as [->|Hne].
        { revert Hin. apply (P8b n (remark now sl)); [|done]. by rewrite resend_hist, decide_True. }
        revert Hin. apply (P8b m t); [|done]. by rewrite resend_hist, decide_False.
  - intros m t Ht. destruct (P9 m t Ht) as (t1 & Ht1 & Hsm). destruct (resend_hist_inv _ _ Ht1) as (t0 & Ht0 & Hs0 & _).
    exists t0. split; [done|]. unfold same_tx in *. intuition congruence.
  - by etrans.
  - done.
Qed.
End resent.

(** ** The loop *)

Lemma service_loop_spec k now rtt missing emitted f :
  send_inv k f -> 0 <= emitted < 2 ^ 62 -> maxNacksPerLoop f < 2 ^ 62 ->
  exists served sent, service_spec k now rtt missing emitted f (service_loop now rtt missing emitted f) served sent.
Proof.
  revert emitted f. induction missing as [|n missing IH]; intros emitted f Hi He Hm.
  { exists [], []. by apply service_stop. }
  cbn [service_loop].
  assert (Hstep : forall g : Flow -> Flow, send_inv k (g f) -> sender (g f) = sender f -> outputs (g f) = outputs f -> same_sender f (g f) ->
    u64 (nack_outcomes (stats (g f))) = u64 (nack_outcomes (stats f) + 1) ->
    StRetransmitted (stats (g f)) = StRetransmitted (stats f) ->
    exists served sent, service_spec k now rtt (n :: missing) emitted f (service_loop now rtt missing emitted (g f)) served sent).
  { intros g G1 G2 G3 G4 G5 G6. destruct (IH emitted (g f)) as (served & sent & Hs); [done..|by rewrite (ss_budget _ _ G4)|].
    exists (n :: served), sent. by eapply service_counted. }
  unfold nack_gate. destruct (keeps (history_at (sender f) n) n) eqn:Ek; cbn [negb].
  2:{ apply (Hstep (count StRetransmitSkipped)); try done; try (by destruct Hi; split). unfold nack_outcomes. simpl. u64_inner. }
  destruct (retried _ && _) eqn:Eg.
  { apply (Hstep (count StRetransmitSuppressed)); try done; try (by destruct Hi; split). unfold nack_outcomes. simpl. u64_inner. }
  destruct (overBudget _ _ _ _).
  { apply (Hstep (count StBandwidthSkipped)); try done; try (by destruct Hi; split). unfold nack_outcomes. simpl. u64_inner. }
  destruct (Z.leb_spec (MaxRetries (cfg f)) (transmitCount (history_at (sender f) n))) as [Hle|Hlt].
  { apply (Hstep (count StRetransmitExhausted)); try done; try (by destruct Hi; split). unfold nack_outcomes. simpl. u64_inner. }
  assert (Hh : hist (sender f) n = Some (history_at (sender f) n)) by (unfold hist; by rewrite Ek).
  pose proof (resend_inv k now n f _ Hi Hh Hlt) as Hi1.
  pose proof (ss_budget _ _ (proj1 (resend_frame now n f))) as Hb. cbv zeta. rewrite Hb, i64_id by (unfold in_i64; lia).
  destruct (Z.leb_spec (maxNacksPerLoop f) (emitted + 1)) as [Hstop|Hgo].
  - exists (n :: []), (media_of (sender f) (history_at (sender f) n) true :: []).
    apply service_resent; try done; [by right|]. apply service_stop; [done|]. by rewrite Hb.
  - destruct (IH (emitted + 1) (resend now n f)) as (served & sent & Hs); [done|lia|by rewrite Hb|].
    exists (n :: served), (media_of (sender f) (history_at (sender f) n) true :: sent).
    apply service_resent; try done. by left.
Qed.

(** The refresh of the bitrate windows at the top of a pass. *)
Definition refresh_rates (now : Z) (f : Flow) : Flow :=
  on_sender (fun s => s <| dataBW ::= bitrateEWMA.feed now 0 |> <| retryBW ::= bitrateEWMA.feed now 0 |>) f.

Lemma refresh_hist now f n : hist (sender (refresh_rates now f)) n = hist (sender f) n.
Proof. by apply hist_ext. Qed.

Lemma refresh_inv k now f : send_inv k f -> send_inv k (refresh_rates now f).
Proof. intros []. by split. Qed.

Lemma serviceNack_spec k now missing f :
  send_inv k f -> maxNacksPerLoop f < 2 ^ 62 ->
  exists served sent, service_spec k now (retransmit_spacing f) missing 0 f (serviceNack now missing f) served sent.
Proof.
  intros Hi Hm. destruct (service_loop_spec k now (retransmit_spacing f) missing 0 (refresh_rates now f))
    as (served & sent & [P1 P2 P3 P4 P5 P6 P7 P8 P9 P10 P11]); [by apply refresh_inv|lia|done|].
  exists served, sent. split; try done. etrans; [|exact P10]. by split.
Qed.

(** ** Pushing *)

Record app_push := mkPush { pu_now : Z; pu_payload : bytes; pu_frag : FragRole }.

Definition push_all (ps : list app_push) (f : Flow) : Flow :=
  foldl (fun f p => pushApp (pu_now p) (pu_payload p) (pu_frag p) f) f ps.

(** The slot a push leaves in the history. *)
Definition pushed_slot (p : app_push) (n : Z) : senderSlot :=
  mkSenderSlot (pu_payload p) (NTPTimeFromTimestamp (pu_now p)) n 0 0 false (pu_frag p) slotFilled.

Lemma pushAppBlock_frame now payload frag seqOpt srcOpt f :
  let n := default (nextSeq (sender f)) seqOpt in
  let sl := mkSenderSlot payload (default (NTPTimeFromTimestamp now) srcOpt) n 0 0 false frag slotFilled in
  let f1 := pushAppBlock now payload frag seqOpt srcOpt f in
  cfg f1 = cfg f /\ est f1 = est f /\ role f1 = role f /\ maxNacksPerLoop f1 = maxNacksPerLoop f /\ events f1 = events f /\
  receiver f1 = receiver f /\ s_mask (sender f1) = s_mask (sender f) /\
  s_ssrc (sender f1) = s_ssrc (sender f) /\ txPath (sender f1) = txPath (sender f) /\
  nextSeq (sender f1) = u32 (n + 1) /\
  s_ring (sender f1) = s_ring (if NoRecovery (cfg f) then sender f else set_history n sl (sender f)) /\
  exists timer, (timer = [] \/ timer = [SetTimer TimerRttEcho (Timestamp.Add now rttEchoInterval)]) /\
    outputs f1 = foldl (fun q o => fifo_push o q) (outputs f)
      (timer ++ [SendMedia (txPath (sender f)) (media_of (sender f) sl false)]).
Proof.
  cbv zeta. unfold pushAppBlock. cbv zeta. destruct (s_started (sender f)), (NoRecovery (cfg f)) eqn:E;
    repeat (change (cfg (on_sender ?g ?h)) with (cfg h) || change (cfg (emit ?o ?h)) with (cfg h) || rewrite E);
    (split_and!; [done..|]).
  - exists []. split; [by left|done].
  - exists []. split; [by left|done].
  - exists []. split; [by left|done].
  - eexists [_]. split; [by right|done].
Qed.

(** What a push leaves of the history. *)
Lemma push_hist k now payload frag seqOpt srcOpt f m :
  send_inv k f ->
  let n := default (nextSeq (sender f)) seqOpt in
  let sl := mkSenderSlot payload (default (NTPTimeFromTimestamp now) srcOpt) n 0 0 false frag slotFilled in
  hist (sender (pushAppBlock now payload frag seqOpt srcOpt f)) m =
    if NoRecovery (cfg f) then hist (sender f) m
    else if decide (m = n) then Some sl
    else if decide (hidx (sender f) m = hidx (sender f) n) then None else hist (sender f) m.
Proof.
  intros Hi. cbv zeta.
  destruct (pushAppBlock_frame now payload frag seqOpt srcOpt f) as (_ & _ & _ & _ & _ & _ & Em & _ & _ & _ & Er & _).
  destruct (NoRecovery (cfg f)); [by apply hist_ext|].
  set (n := default _ seqOpt) in *. set (sl := mkSenderSlot _ _ _ _ _ _ _ _) in *.
  rewrite (hist_ext (set_history n sl (sender f))), (hist_set k) by (done || apply Hi).
  case_decide as E1.
  - destruct (decide (m = n)) as [->|Hne].
    + by rewrite (proj2 (keeps_true sl n)).
    + destruct (keeps sl m) eqn:Ek; [|done]. apply keeps_true in Ek as [_ Ek]. by destruct Hne.
  - rewrite decide_False; [done|]. by intros ->.
Qed.

Lemma foldl_push_wf {T} (l : list T) (q : fifo T) : fifo_wf q -> fifo_wf (foldl (fun q o => fifo_push o q) q l).
Proof. revert q. induction l as [|o l IH]; intros q Hq; simpl; [done|]. apply IH, fifo_push_wf, Hq. Qed.

Lemma foldl_push_pending {T} (l : list T) (q : fifo T) :
  fifo_wf q -> pending (foldl (fun q o => fifo_push o q) q l) = pending q ++ l.
Proof.
  revert q. induction l as [|o l IH]; intros q Hq; simpl; [by rewrite app_nil_r|].
  rewrite IH, pending_push, <-app_assoc by (done || by apply fifo_push_wf). done.
Qed.

Lemma push_inv k now payload frag seqOpt srcOpt f :
  send_inv k f -> send_inv k (pushAppBlock now payload frag seqOpt srcOpt f).
Proof.
  intros Hi. pose proof Hi as [].
  destruct (pushAppBlock_frame now payload frag seqOpt srcOpt f)
    as (E1 & _ & _ & _ & E5 & _ & E7 & _ & _ & E10 & E11 & timer & _ & E12).
  split; rewrite ?E1, ?E5, ?E10; try done.
  - unfold hist_shape in *. rewrite E7, E11. destruct (NoRecovery (cfg f)); [done|]. by apply set_history_shape.
  - apply u32_range.
  - intros m t. rewrite (push_hist k) by done. destruct (NoRecovery (cfg f)); [apply sv_count0|].
    case_decide; [intros [= <-]; simpl; lia|]. case_decide; [done|apply sv_count0].
  - rewrite E12. by apply foldl_push_wf.
Qed.

Lemma push_all_inv k ps f :
  send_inv k f ->
  send_inv k (push_all ps f) /\ cfg (push_all ps f) = cfg f /\ est (push_all ps f) = est f /\
  maxNacksPerLoop (push_all ps f) = maxNacksPerLoop f /\
  s_ssrc (sender (push_all ps f)) = s_ssrc (sender f) /\ txPath (sender (push_all ps f)) = txPath (sender f) /\
  nextSeq (sender (push_all ps f)) = u32 (nextSeq (sender f) + zlen ps).
Proof.
  intros Hi. induction ps as [|p ps IH] using rev_ind.
  { split_and!; try done. change (zlen (@nil app_push)) with 0. by rewrite Z.add_0_r, u32_id by apply Hi. }
  unfold push_all in *. rewrite foldl_app. cbn [foldl]. set (g := foldl _ f ps) in *. clearbody g.
  destruct IH as (I1 & I2 & I3 & I4 & I5 & I6 & I7).
  destruct (pushAppBlock_frame (pu_now p) (pu_payload p) (pu_frag p) None None g)
    as (E1 & E2 & _ & E4 & _ & _ & _ & E8 & E9 & E10 & _). unfold pushApp.
  split_and!; [by apply push_inv|congruence..|].
  rewrite E10. cbn [default]. rewrite I7, u32_add_l. f_equal. unfold zlen. rewrite length_app. simpl. lia.
Qed.

(** The history keeps every one of the last ring-size pushes. *)
Lemma push_all_hist k ps f i p :
  send_inv k f -> NoRecovery (cfg f) = false -> zlen ps <= 2 ^ k -> ps !! i = Some p ->
  hist (sender (push_all ps f)) (u32 (nextSeq (sender f) + Z.of_nat i)) =
    Some (pushed_slot p (u32 (nextSeq (sender f) + Z.of_nat i))).
Proof.
  intros Hi Hnr. induction ps as [|q ps IH] using rev_ind; [done|]. intros Hl Hp.
  unfold zlen in Hl. rewrite length_app in Hl. simpl in Hl.
  destruct (push_all_inv k ps f Hi) as (I1 & I2 & _ & _ & _ & _ & I7).
  unfold push_all in *. rewrite foldl_app. cbn [foldl]. unfold pushApp at 1. rewrite (push_hist k) by done.
  rewrite I2, Hnr. cbn [default]. rewrite I7. unfold zlen in *.
  apply lookup_app_Some in Hp as [Hp|[Hge Hp]].
  - apply lookup_lt_Some in Hp as Hlt.
    assert (Hne : hidx (sender (foldl (fun f p => pushApp (pu_now p) (pu_payload p) (pu_frag p) f) f ps))
      (u32 (nextSeq (sender f) + Z.of_nat i)) <>
      hidx (sender (foldl (fun f p => pushApp (pu_now p) (pu_payload p) (pu_frag p) f) f ps))
      (u32 (nextSeq (sender f) + Z.of_nat (length ps)))).
    { intros E. apply (hidx_inj k) in E; [lia|apply I1|lia]. }
    rewrite decide_False by (intros E; by rewrite E in Hne). rewrite decide_False by done. apply IH; [lia|done].
  - apply list_lookup_singleton_Some in Hp as [Hi0 <-]. assert (i = length ps) as -> by lia.
    by rewrite decide_True.
Qed.

(** ** Properties *)

(** C6: One NACK: the pass walks a prefix of the requested sequences and stops early only once it has emitted its
    budget; it emits at most the budget (and at least may emit one), each requested sequence at most once
    and in request order; every retransmission is the packet the history keeps for that sequence with the
    retransmit mark set, and had been resent fewer than MaxRetries times; and each walked sequence is
    counted by exactly one of the five outcome counters. *)
Theorem nack_service k now missing f :
  send_inv k f -> maxNacksPerLoop f < 2 ^ 62 -> 0 < retransmit_spacing f ->
  exists served rest sent,
    missing = served ++ rest /\ (rest <> [] -> maxNacksPerLoop f <= zlen sent) /\
    zlen sent <= Z.max 1 (maxNacksPerLoop f) /\
    pending (outputs (serviceNack now missing f)) = pending (outputs f) ++ (SendMedia (txPath (sender f)) <$> sent) /\
    (Seq <$> sent) `sublist_of` served /\ NoDup (Seq <$> sent) /\
    Forall (fun p => exists sl, hist (sender f) (Seq p) = Some sl /\ p = media_of (sender f) sl true /\
                       transmitCount sl < MaxRetries (cfg f)) sent /\
    u64 (nack_outcomes (stats (serviceNack now missing f))) = u64 (nack_outcomes (stats f) + zlen served) /\
    u64 (StRetransmitted (stats (serviceNack now missing f))) = u64 (StRetransmitted (stats f) + zlen sent).
Proof.
  intros Hi Hm Hs. destruct (serviceNack_spec k now missing f Hi Hm)
    as (served & sent & [(rest & E & Hr) P2 P3 P4 P5 P6 P7 P8 _ _ _]).
  exists served, rest, sent. split_and!; try done. by apply P8.
Qed.

(** C9: A push can be recovered for as long as the history holds it.  From a sender state of the history invariant, with
    recovery on and a positive retry limit, after at most a ring of pushes, a NACK for the sequence of any one of
    them, served while the sender is not over its bitrate budget, is answered by exactly that payload, source time and
    fragment role under the same sequence, with the retransmit mark set. *)
Theorem push_nack_round_trip k ps f i p now :
  send_inv k f -> NoRecovery (cfg f) = false -> zlen ps <= 2 ^ k -> ps !! i = Some p -> 0 < MaxRetries (cfg f) ->
  let g := push_all ps f in
  overBudget (CongestionControl (cfg f)) (bitrateEWMA.feed now 0 (dataBW (sender g)))
    (bitrateEWMA.feed now 0 (retryBW (sender g))) (RecoveryMaxBitrate (cfg f)) = false ->
  let n := u32 (nextSeq (sender f) + Z.of_nat i) in
  pending (outputs (serviceNack now [n] g)) =
    pending (outputs g) ++
      [SendMedia (txPath (sender f))
         (mkMediaPacket n (NTPTimeFromTimestamp (pu_now p)) (s_ssrc (sender f)) (pu_payload p) true
            (txPath (sender f)) (pu_frag p) 0 0 false)].
Proof.
  intros Hi Hnr Hl Hp Hmr. cbv zeta. intros Hb.
  destruct (push_all_inv k ps f Hi) as (I1 & I2 & _ & _ & I5 & I6 & _).
  pose proof (push_all_hist k ps f i p Hi Hnr Hl Hp) as Hh. destruct (hist_keeps _ _ _ Hh) as (E & _).
  unfold hist in Hh. set (n := u32 _) in *. set (g := push_all ps f) in *. clearbody g n.
  destruct (keeps (history_at (sender g) n) n) eqn:Ek; [|done]. unfold serviceNack. cbn [service_loop].
  change (on_sender _ g) with (refresh_rates now g).
  assert (Hat : history_at (sender (refresh_rates now g)) n = pushed_slot p n) by done.
  unfold nack_gate. rewrite Hat, <-E, Ek in *. cbn [negb retried pushed_slot andb transmitCount].
  change (cfg (refresh_rates now g)) with (cfg g). rewrite I2.
  change (dataBW (sender (refresh_rates now g))) with (bitrateEWMA.feed now 0 (dataBW (sender g))).
  change (retryBW (sender (refresh_rates now g))) with (bitrateEWMA.feed now 0 (retryBW (sender g))).
  rewrite Hb, (proj2 (Z.leb_gt _ _) Hmr).
  destruct (resend_frame now n (refresh_rates now g)) as (_ & _ & _ & Eo & _).
  assert (Hfin : pending (outputs (resend now n (refresh_rates now g))) = pending (outputs g) ++
     [SendMedia (txPath (sender g)) (media_of (sender g) (pushed_slot p n) true)]).
  { rewrite Eo, pending_push by apply I1. by rewrite Hat. }
  rewrite <-I5, <-I6. by destruct (_ <=? _).
Qed.
