(* ===== verification/Receiver.v ===== *)
(** * The receiver half of a flow: internal/flow/receiver.go

    Every function of receiver.go, as state transformers of [Flow]: ingestion
    ([feed], [start], [resetReceiver]), gap detection ([markMissing],
    [addMissing]), the NACK pass ([processNacks]), time-driven playout
    ([deliverDue], [emitDeliver], [skipTo]), the timers, and the recovery-buffer
    auto-scaling.  The theorems about them are in Window, Playout, Nack and FlowInv. *)

From S2P Require Import Prelude GoFloat Seq Clock Wire Rtt FlowTypes Congestion.

(** ** Constants *)

Definition srcWrapPeriodNTP : Z := Z.shiftl 4294967295 32 / 90000.
Definition srcWrapHalfNTP : Z := srcWrapPeriodNTP / 2.
Definition srcWrapPeriodMicros : Z := (Z.shiftl 1 32 * 100) /g 9.
Definition bufferDecreaseStep : Z := 50 * Millisecond.
Definition bufferHighLossThreshold : Z := 25.

(** [pathBit]: bit [path & 63] of a 64-bit set. *)
Definition pathBit (path : Z) : Z := u64 (Z.shiftl 1 (Z.land path 63)).

(** ** Ring access: [&r.ring[n & r.mask]]

    The lookup is total here: out of range it reads an empty slot and writes nothing, where Go panics.  [FlowChecked] repeats each operation that indexes a ring with the panic, proves
    that it never happens ([flow_never_panics]) and that the results agree; the sessions call those. *)

Definition ridx (r : receiverState) (n : Z) : nat := Z.to_nat (Z.land n (mask r)).
Definition slot_at (r : receiverState) (n : Z) : slot := default slot_zero (ring r !! ridx r n).
Definition set_slot (n : Z) (s : slot) (r : receiverState) : receiverState :=
  r <| ring ::= <[ridx r n := s]> |>.

(** The test [s.state == slotFilled && s.seq == n]. *)
Definition holds (s : slot) (n : Z) : bool := filled s && (s_seq s =? n).

(** [s.state = slotEmpty; s.payload = nil] *)
Definition clear_slot (s : slot) : slot := s <| s_state := slotEmpty |> <| s_payload := [] |>.

(** ** Timers *)

Definition armPlayout (deadline : Z) (f : Flow) : Flow :=
  let r := receiver f in
  if playoutArmed r && negb (Timestamp.Before deadline (playoutDeadline r)) then f else
  let f := on_receiver (fun r => r <| playoutArmed := true |> <| playoutDeadline := deadline |>) f in
  emit (SetTimer TimerPlayout deadline) f.

Definition disarmPlayout (f : Flow) : Flow :=
  if negb (playoutArmed (receiver f)) then f else
  let f := on_receiver (fun r => r <| playoutArmed := false |>) f in
  emit (ClearTimer TimerPlayout) f.

Definition scheduleNack (now : Z) (f : Flow) : Flow :=
  let r := receiver f in
  if (missingCount r =? 0) || nackArmed r then f else
  let f := on_receiver (fun r => r <| nackArmed := true |>) f in
  emit (SetTimer TimerNack (Timestamp.Add now nackCadence)) f.

(** ** Missing detection *)

Definition addMissing (now path missingSeq nackTime : Z) (f : Flow) : Flow :=
  let insertion :=
    if Timestamp.After nackTime now then now
    else if Timestamp.Before nackTime (Timestamp.Add now (i64 (- recoveryBuffer f))) then now
    else nackTime in
  let firstRTT := Estimator.Clamped (est f) (RTTMin (cfg f)) (RTTMax (cfg f)) /g 2 in
  let firstRTT := if firstRTT <? ReorderBuffer (cfg f) then ReorderBuffer (cfg f) else firstRTT in
  let e := mkMissing missingSeq path 0 insertion (Timestamp.Add now firstRTT) in
  let f := on_receiver (fun r => r <| missing ::= fun l => l ++ [e] |>
                                   <| missingCount ::= fun n => i64 (n + 1) |>) f in
  count StMissing f.

(** The walk of markMissing from [m] up to [current]; [fuel] bounds it by the
    gap, which is the number of increments from lastFound to current. *)
Fixpoint markMissing_loop (fuel : nat) (now path current interpacket m nackTime cnt : Z) (f : Flow) : Flow :=
  match fuel with
  | O => f
  | S fuel =>
      if m =? current then f else
      if missingCounterMax f <? missingCount (receiver f) then f else
      let nackTime := Timestamp.Add nackTime interpacket in
      let f := addMissing now path m nackTime f in
      let cnt := u64 (cnt + 1) in
      if cnt =? zlen (ring (receiver f)) then f else
      markMissing_loop fuel now path current interpacket (u32 (m + 1)) nackTime cnt f
  end.

Definition markMissing (now path current packetTimeNow : Z) (f : Flow) : Flow :=
  let r := receiver f in
  if NoRecovery (cfg f) then f else
  let gap := u32 (current - lastFound r) in
  let maxGap := if shortSeq r then MaxGap16 else zlen (ring r) / 2 in
  if maxGap <? gap then f else
  if gap =? 0 then f else
  let ls := slot_at r (lastFound r) in
  let packetTimeLast := if holds ls (lastFound r) then s_packetTime ls else now in
  let delta := Timestamp.Sub packetTimeNow packetTimeLast in
  let delta := if delta <? 0 then 0 else delta in
  let interpacket := delta /g (gap + 1) in
  markMissing_loop (Z.to_nat gap) now path current interpacket (u32 (lastFound r + 1)) packetTimeLast 1 f.

(** ** Ingestion *)

(** Inter-packet arrival spacing, sampled on every packet. *)
Definition feed_ips (now : Z) (f : Flow) : Flow :=
  let r := receiver f in
  let f :=
    if started r then
      let delta := Timestamp.Sub now (ipsLastArrival r) in
      on_receiver (fun r => r <| ipsCurUs := delta |>
        <| ipsMinUs ::= (fun m => if delta <? m then delta else m) |>
        <| ipsMaxUs ::= (fun m => if m <? delta then delta else m) |>) f
    else f in
  on_receiver (fun r => r <| ipsLastArrival := now |>) f.

Definition resetReceiver (f : Flow) : Flow :=
  on_receiver (fun r =>
    r <| ring ::= fmap (fun _ => slot_zero) |>
      <| missing := [] |> <| missingCount := 0 |>
      <| started := false |> <| pendingDiscontinuity := false |>
      <| playoutArmed := false |> <| nackArmed := false |>) f.

(** A fresh packet of another flow id (the SSRC without its retransmit bit) resets the receiver. *)
Definition feed_flow_change (pkt : MediaPacket) (f : Flow) : Flow :=
  let r := receiver f in
  if started r && negb (Retransmit pkt) && negb (Z.ldiff (SSRC pkt) 1 =? Z.ldiff (ssrc r) 1)
  then count StFlowResets (resetReceiver f) else f.

(** A fresh packet of the other framing re-locks the timing baseline and keeps the ring. *)
Definition feed_framing_change (now : Z) (pkt : MediaPacket) (f : Flow) : Flow :=
  let r := receiver f in
  if started r && negb (Retransmit pkt) && negb (Bool.eqb (ShortSeq pkt) (shortSeq r)) then
    let src := NTPTime.toTimestamp (SourceTime pkt) in
    let f := on_receiver (fun r =>
      r <| offset := Timestamp.Sub now src |> <| maxSourceTime := SourceTime pkt |>
        <| lastPacketTime := now |> <| lastResync := now |> <| shortSeq := ShortSeq pkt |>) f in
    count StFramingResets f
  else f.

(** The slot a packet is stored in. *)
Definition packet_slot (now path : Z) (pkt : MediaPacket) (packetTime outputTime : Z) : slot :=
  mkSlot (Payload pkt) (SourceTime pkt) now packetTime outputTime (pathBit path) (Seq pkt)
    (Frag pkt) (VirtSrcPort pkt) (VirtDstPort pkt) slotFilled.

Definition start (now path : Z) (pkt : MediaPacket) (f : Flow) : Flow :=
  let src := NTPTime.toTimestamp (SourceTime pkt) in
  let outputTime := Timestamp.Add now (recoveryBuffer f) in
  let f := on_receiver (fun r =>
    r <| offset := Timestamp.Sub now src |> <| started := true |> <| ssrc := SSRC pkt |>
      <| shortSeq := ShortSeq pkt |> <| lastFound := Seq pkt |> <| maxSourceTime := SourceTime pkt |>
      <| lastPacketTime := now |> <| lastResync := now |> <| highest := Seq pkt |>
      <| deliverNext := Seq pkt |> <| lastPath := path |>) f in
  let f := on_receiver (set_slot (Seq pkt) (packet_slot now path pkt now outputTime)) f in
  let f := count_by StReceivedBytes (zlen (Payload pkt)) (count StReceived f) in
  let f := armPlayout outputTime f in
  if NoRecovery (cfg f) then f
  else emit (SetTimer TimerRttEcho (Timestamp.Add now rttEchoInterval)) f.

Definition mapSourceTime (sourceTime : Z) (f : Flow) : Z :=
  Timestamp.Add (NTPTime.toTimestamp sourceTime) (offset (receiver f)).

(** The wrap re-anchor condition: a fresh packet whose source time fell back by more than half a wrap,
    outside the dwell window. *)
Definition wraps_back (now : Z) (pkt : MediaPacket) (f : Flow) : bool :=
  let r := receiver f in
  bool_decide (cfg_TimingMode (cfg f) = TimingSource) && negb (Retransmit pkt) &&
  (SourceTime pkt <? maxSourceTime r) &&
  (srcWrapHalfNTP <? u64 (maxSourceTime r - SourceTime pkt)) &&
  (i64 (3 * recoveryBuffer f) <=? Timestamp.Sub now (lastResync r)).

(** The local instant playout is scheduled from, with the re-anchor. *)
Definition feed_packet_time (now : Z) (pkt : MediaPacket) (f : Flow) : Z * Flow :=
  if bool_decide (cfg_TimingMode (cfg f) = TimingArrival) then (now, f) else
  let packetTime := mapSourceTime (SourceTime pkt) f in
  if wraps_back now pkt f then
    let f := on_receiver (fun r => r <| offset ::= fun o => i64 (o + srcWrapPeriodMicros) |>) f in
    let packetTime := mapSourceTime (SourceTime pkt) f in
    let f := on_receiver (fun r =>
      r <| maxSourceTime := SourceTime pkt |> <| lastPacketTime := packetTime |> <| lastResync := now |>) f in
    (packetTime, count StClockResync f)
  else (packetTime, f).

Definition feed_track (pkt : MediaPacket) (packetTime : Z) (f : Flow) : Flow :=
  if maxSourceTime (receiver f) <? SourceTime pkt
  then on_receiver (fun r => r <| maxSourceTime := SourceTime pkt |> <| lastPacketTime := packetTime |>) f
  else f.

(** Older than the newest packet time and not the immediate successor of lastFound. *)
Definition behind_source (pkt : MediaPacket) (packetTime : Z) (f : Flow) : bool :=
  let r := receiver f in
  negb (bool_decide (cfg_TimingMode (cfg f) = TimingArrival)) &&
  Timestamp.Before packetTime (lastPacketTime r) && negb (Seq pkt =? u32 (lastFound r + 1)).

Definition too_late (pkt : MediaPacket) (f : Flow) : Flow :=
  let f := count StTooLate f in
  if Retransmit pkt then count StTooLateRetransmit f else f.

(** Store an accepted packet and advance [highest]. *)
Definition feed_store (now path : Z) (pkt : MediaPacket) (packetTime outputTime : Z) (outOfOrder : bool) (f : Flow) : Flow :=
  let f := if filled (slot_at (receiver f) (Seq pkt)) then count StOverwritten f else f in
  let f := on_receiver (set_slot (Seq pkt) (packet_slot now path pkt packetTime outputTime)) f in
  let f := count_by StReceivedBytes (zlen (Payload pkt)) (count StReceived f) in
  let f := if outOfOrder then count StReordered f else f in
  let f := if Num32.Less (highest (receiver f)) (Seq pkt)
           then on_receiver (fun r => r <| highest := Seq pkt |>) f else f in
  on_receiver (fun r => r <| lastPath := path |>) f.

(** Missing detection on a fresh packet, and the advance of [lastFound]. *)
Definition feed_detect (now path : Z) (pkt : MediaPacket) (packetTime : Z) (outOfOrder : bool) (f : Flow) : Flow :=
  if Retransmit pkt then f else
  let f := if negb outOfOrder && negb (u32 (Seq pkt - 1) =? lastFound (receiver f))
           then markMissing now path (Seq pkt) packetTime f else f in
  if outOfOrder then f else on_receiver (fun r => r <| lastFound := Seq pkt |>) f.

(** The accepted packet: dedup, store, cursors, missing detection, timers. *)
Definition feed_insert (now path : Z) (pkt : MediaPacket) (packetTime : Z) (outOfOrder : bool) (f : Flow) : Flow :=
  let s := slot_at (receiver f) (Seq pkt) in
  if holds s (Seq pkt) && (s_sourceTime s =? SourceTime pkt) then
    let s := s <| s_pathSeen ::= Z.lor (pathBit path) |> in
    count StDuplicates (on_receiver (set_slot (Seq pkt) s) f)
  else
  let outputTime := Timestamp.Add packetTime (recoveryBuffer f) in
  let f := feed_store now path pkt packetTime outputTime outOfOrder f in
  let f := feed_detect now path pkt packetTime outOfOrder f in
  scheduleNack now (armPlayout outputTime f).

Definition feed (now path : Z) (pkt : MediaPacket) (f : Flow) : Flow :=
  let f := feed_ips now f in
  let f := feed_flow_change pkt f in
  let f := feed_framing_change now pkt f in
  if negb (started (receiver f)) then
    if Retransmit pkt then f else start now path pkt f
  else
  let f := if Retransmit pkt then count StRetransmittedReceived f else f in
  let '(packetTime, f) := feed_packet_time now pkt f in
  let f := feed_track pkt packetTime f in
  let late := behind_source pkt packetTime f in
  if late && Timestamp.After now (Timestamp.Add packetTime (recoveryBuffer110 f)) then too_late pkt f
  else
  let outOfOrder := late && negb (Retransmit pkt) in
  if Num32.Less (Seq pkt) (deliverNext (receiver f)) then too_late pkt f
  else feed_insert now path pkt packetTime outOfOrder f.

(** ** The NACK pass *)

(** Counters of one recovered entry, bucketed by the number of NACKs it took. *)
Definition count_recovered (e : missingEntry) (f : Flow) : Flow :=
  if 0 <? nackCount e then
    let f := count StRecovered f in
    if nackCount e =? 1 then count StRecoveredOneRetry f
    else if nackCount e =? 2 then count StRecoveredTwoNacks f
    else if nackCount e =? 3 then count StRecoveredThreeNacks f
    else if nackCount e =? 4 then count StRecoveredFourNacks f
    else count StRecoveredMoreNacks f
  else f.

(** Whether the pass may still request a sequence: RIST_MAX_NACKS and the token budget. *)
Definition nack_budget (batch : list Z) (r : receiverState) : bool :=
  (zlen batch <? ristMaxNacks) &&
  (f64_eqb (nackSeqsPerSec r) f64_zero || f64_leb (f64_of_Z 1) (nackTokens r)).

(** One entry of the walk: the entry if it stays queued, the flow, the batch. *)
Definition nack_entry (now : Z) (e : missingEntry) (batch : list Z) (f : Flow)
    : option missingEntry * Flow * list Z :=
  let r := receiver f in
  let s := slot_at r (me_seq e) in
  if holds s (me_seq e) then (None, count_recovered e f, batch)
  else if filled s then (None, f, batch)
  else if MaxRetries (cfg f) <=? nackCount e then (None, count StAbandoned f, batch)
  else if recoveryBuffer110 f <? Timestamp.Sub now (insertionTime e) then (None, count StAbandoned f, batch)
  else if negb (Timestamp.Before now (nextNack e)) && nack_budget batch r then
    let e := e <| nextNack := Timestamp.Add now (Estimator.RetryInterval (est f) (RTTMin (cfg f)) (RTTMax (cfg f))) |>
               <| nackCount ::= fun n => i64 (n + 1) |> in
    let f := count StNacksSent f in
    let f := if f64_ltb f64_zero (nackSeqsPerSec r)
             then on_receiver (fun r => r <| nackTokens ::= fun t => f64_sub t (f64_of_Z 1) |>) f else f in
    (Some e, f, batch ++ [me_seq e])
  else (Some e, f, batch).

Fixpoint nack_walk (now : Z) (es : list missingEntry) (batch : list Z) (f : Flow)
    : list missingEntry * Flow * list Z :=
  match es with
  | [] => ([], f, batch)
  | e :: es =>
      let '(kept, f, batch) := nack_entry now e batch f in
      let f := match kept with
               | Some _ => f
               | None => on_receiver (fun r => r <| missingCount ::= fun n => i64 (n - 1) |>) f
               end in
      let '(rest, f, batch) := nack_walk now es batch f in
      (match kept with Some e => e :: rest | None => rest end, f, batch)
  end.

Definition refill_tokens (now : Z) (r : receiverState) : receiverState :=
  if f64_ltb f64_zero (nackSeqsPerSec r) then
    let elapsed := Timestamp.Sub now (nackTokensTime r) in
    let r := if 0 <? elapsed then
        let t := f64_add (nackTokens r)
                   (f64_mul (f64_div (f64_of_Z elapsed) (f64_of_Z 1000000)) (nackSeqsPerSec r)) in
        r <| nackTokens := if f64_ltb (nackTokenBurst r) t then nackTokenBurst r else t |>
      else r in
    r <| nackTokensTime := now |>
  else r.

Definition processNacks (now : Z) (f : Flow) : Flow :=
  if missingCount (receiver f) =? 0 then f else
  let f := on_receiver (refill_tokens now) f in
  let '(kept, f, batch) := nack_walk now (missing (receiver f)) [] f in
  let f := on_receiver (fun r => r <| missing := kept |>) f in
  match batch with
  | [] => f
  | _ => emit (SendFeedback (lastPath (receiver f)) (NackRequest (ssrc (receiver f)) batch)) f
  end.

(** ** Playout *)

Definition emitDeliver (f : Flow) : Flow :=
  let r := receiver f in
  let s := slot_at r (deliverNext r) in
  let f := raise (Deliver (s_seq s) (s_sourceTime s) (s_payload s) (pendingDiscontinuity r)
                    (s_frag s) (s_virtSrcPort s) (s_virtDstPort s)) f in
  let f := count StDelivered (on_receiver (fun r => r <| pendingDiscontinuity := false |>) f) in
  on_receiver (fun r => set_slot (deliverNext r) (clear_slot s) r <| deliverNext ::= fun n => u32 (n + 1) |>) f.

(** Clear the slots of the [k] sequences from [n] on, whatever they hold. *)
Fixpoint clear_range (k : nat) (n : Z) (r : receiverState) : receiverState :=
  match k with
  | O => r
  | S k =>
      let s := slot_at r n in
      let r := if filled s then set_slot n (clear_slot s) r else r in
      clear_range k (u32 (n + 1)) r
  end.

Definition skipTo (target : Z) (f : Flow) : Flow :=
  let r := receiver f in
  let lost := u32 (target - deliverNext r) in
  let f := on_receiver (fun r => clear_range (Z.to_nat lost) (deliverNext r) r
             <| deliverNext := target |> <| pendingDiscontinuity := true |>) f in
  count StDiscontinuities (count_by StLost lost f).

(** The first buffered sequence among the [n] that follow [from]. *)
Fixpoint find_next (n : nat) (from : Z) (r : receiverState) : option Z :=
  match n with
  | O => None
  | S n =>
      let m := u32 (from + 1) in
      if holds (slot_at r m) m then Some m else find_next n m r
  end.

(** One iteration of the playout loop: the new flow, and whether the loop goes on. *)
Definition deliver_step (now : Z) (f : Flow) : bool * Flow :=
  let r := receiver f in
  let s := slot_at r (deliverNext r) in
  if holds s (deliverNext r) then
    if Timestamp.Before now (s_outputTime s) then (false, armPlayout (s_outputTime s) f)
    else (true, emitDeliver f)
  else
  let dist := Num32.Distance (deliverNext r) (highest r) in
  if dist <=? 0 then (false, disarmPlayout f) else
  let ringN := zlen (ring r) in
  let limit := if ringN <? dist then ringN else dist in
  match find_next (Z.to_nat limit) (deliverNext r) r with
  | None =>
      if ringN <? dist then (true, skipTo (u32 (deliverNext r + u32 ringN)) f)
      else (false, disarmPlayout f)
  | Some foundSeq =>
      let sl := slot_at r foundSeq in
      if Timestamp.Before now (s_outputTime sl) then (false, armPlayout (s_outputTime sl) f)
      else (true, skipTo foundSeq f)
  end.

(** The loop; [None] is running out of fuel. *)
Fixpoint deliver_loop (fuel : nat) (now : Z) (f : Flow) : option Flow :=
  match fuel with
  | O => None
  | S fuel =>
      let '(continue, f) := deliver_step now f in
      if continue then deliver_loop fuel now f else Some f
  end.

(** Every iteration that goes on moves the cursor toward [highest], so the
    distance between them bounds the iterations ([Playout.deliver_loop_total]). *)
Definition deliver_fuel (r : receiverState) : nat :=
  Z.to_nat (Num32.Distance (deliverNext r) (highest r) + 3).

Definition deliverDue (now : Z) (f : Flow) : Flow :=
  if negb (started (receiver f)) then f
  else default f (deliver_loop (deliver_fuel (receiver f)) now f).

(** ** Recovery-buffer auto-scaling *)

Definition SetSenderMaxBuffer (maxBuffer : Z) (f : Flow) : Flow :=
  if negb (bool_decide (role f = RoleReceiver)) then f else
  if maxBuffer <? RecoveryBufferMin (cfg f)
  then on_receiver (fun r => r <| senderMaxBuffer := 0 |>) f else
  let f := if senderMaxBuffer (receiver f) =? 0
           then on_receiver (fun r => r <| lossSnap := StLost (stats f) |>
                                        <| recoveredSnap := StRecovered (stats f) |>) f else f in
  on_receiver (fun r => r <| senderMaxBuffer := maxBuffer |>) f.

Definition CurrentRecoveryBuffer (f : Flow) : Z := recoveryBuffer f.

(** The scaled, loss-grown, rate-limited, clamped buffer of one recalculation. *)
Definition desiredBuffer (f : Flow) : Z :=
  let senderMax := senderMaxBuffer (receiver f) in
  let desired := i64 (i64 (Estimator.Smoothed (est f) * RTTMultiplier (cfg f)) + ReorderBuffer (cfg f)) in
  let lostDelta := u64 (StLost (stats f) - lossSnap (receiver f)) in
  let recoveredDelta := u64 (StRecovered (stats f) - recoveredSnap (receiver f)) in
  let modifier := f64_add (f64_add (f64_of_Z 1) (f64_mul (f64_of_Z lostDelta) f64_0_05))
                    (f64_mul (f64_of_Z recoveredDelta) f64_0_02) in
  let desired := f64_to_i64 (f64_mul (f64_of_Z desired) modifier) in
  let desired := if bufferHighLossThreshold <? lostDelta then senderMax else desired in
  let cur := recoveryBuffer f in
  let desired := if (desired <? cur) && (bufferDecreaseStep <? i64 (cur - desired))
                 then i64 (cur - bufferDecreaseStep) else desired in
  let desired := if desired <? RecoveryBufferMin (cfg f) then RecoveryBufferMin (cfg f)
                 else if RecoveryBufferMax (cfg f) <? desired then RecoveryBufferMax (cfg f) else desired in
  if senderMax <? desired then senderMax else desired.

Definition autoScaleBuffer (f : Flow) : Flow :=
  if negb (bool_decide (role f = RoleReceiver)) then f else
  let f := on_receiver (fun r => r <| bufferTimeSum ::= (fun n => i64 (n + recoveryBuffer f)) |>
                                   <| bufferTimeSamples ::= (fun n => u64 (n + 1)) |>) f in
  if RTTMultiplier (cfg f) <=? 0 then f else
  if RecoveryBufferMin (cfg f) =? RecoveryBufferMax (cfg f) then f else
  if senderMaxBuffer (receiver f) <=? 0 then f else
  let desired := desiredBuffer f in
  let f := f <| recoveryBuffer := desired |> <| recoveryBuffer110 := mul110 desired |> in
  on_receiver (fun r => r <| lossSnap := StLost (stats f) |> <| recoveredSnap := StRecovered (stats f) |>) f.
