(* ===== verification/Flow.v ===== *)
(** * The entry points of a flow: internal/flow/flow.go

    The methods a host calls, composed from the receiver and sender halves, and the executions they
    make: a [World] is a flow with the effects and events its host has polled so far, and [exec]
    is one call of the host.  The invariants and the end-to-end properties are in FlowInv and Delivery. *)

From S2P Require Import Prelude GoFloat Clock Wire Rtt FlowTypes Congestion FlowNew Sender Receiver.

(** ** Methods *)

Definition SetRTTMultiplier (multiplier : Z) (f : Flow) : Flow := f <| cfg ::= upd RTTMultiplier (fun _ => multiplier) |>.

Definition avgBufferTimeUs (f : Flow) : Z :=
  if negb (bool_decide (role f = RoleReceiver)) then 0
  else if bufferTimeSamples (receiver f) =? 0 then recoveryBuffer f
  else bufferTimeSum (receiver f) /g i64 (bufferTimeSamples (receiver f)).

(** Flow.Stats: the counters with the live gauges filled in. *)
Definition stats_snapshot (f : Flow) : Stats :=
  let r := receiver f in
  let s := stats f <| StSmoothedRTTUs := Estimator.Smoothed (est f) |>
    <| StDataBitrateBps := bitrateEWMA.slowBps (dataBW (sender f)) |>
    <| StRetryBitrateBps := bitrateEWMA.slowBps (retryBW (sender f)) |> in
  let s := if negb (ipsMinUs r =? MaxInt64) then s <| StIpsMinUs := ipsMinUs r |> else s in
  s <| StIpsCurUs := ipsCurUs r |> <| StIpsMaxUs := ipsMaxUs r |> <| StAvgBufferTimeUs := avgBufferTimeUs f |>
    <| StAnchored := started r |> <| StShortSeq := shortSeq r |>.

Definition Feed (now path : Z) (pkt : MediaPacket) (f : Flow) : Flow :=
  match role f with RoleReceiver => feed now path pkt f | RoleSender => f end.

Definition feedbackPath (f : Flow) : Z :=
  match role f with RoleSender => txPath (sender f) | RoleReceiver => lastPath (receiver f) end.

Definition FeedFeedback (now : Z) (fb : Feedback) (f : Flow) : Flow :=
  match fb with
  | RttEchoRequest ssrc timestamp => emit (SendFeedback (feedbackPath f) (RttEchoResponse ssrc timestamp 0)) f
  | RttEchoResponse _ timestamp processingDelay =>
      let sent := NTPTime.toTimestamp timestamp in
      let sample := i64 (Timestamp.Sub now sent - processingDelay) in
      f <| est ::= fun e => Estimator.Observe e sample |>
  | NackRequest _ missing =>
      match role f with RoleSender => serviceNack now missing f | RoleReceiver => count StIgnoredFeedback f end
  | _ => count StIgnoredFeedback f
  end.

Definition PushAppFrag (now : Z) (payload : bytes) (frag : FragRole) (f : Flow) : Flow :=
  match role f with RoleSender => pushApp now payload frag f | RoleReceiver => f end.

Definition PushApp (now : Z) (payload : bytes) (f : Flow) : Flow := PushAppFrag now payload FragStandalone f.

Definition PushAppBlock (now : Z) (payload : bytes) (frag : FragRole) (seqOpt sourceTime : option Z) (f : Flow) : Flow :=
  match role f with RoleSender => pushAppBlock now payload frag seqOpt sourceTime f | RoleReceiver => f end.

(** The TimerRttEcho case of HandleTimer on a receiver. *)
Definition receiver_echo (now : Z) (f : Flow) : Flow :=
  if started (receiver f) then
    let f := emit (SendFeedback (lastPath (receiver f)) (RttEchoRequest 0 (NTPTimeFromTimestamp now))) f in
    let f := emit (SetTimer TimerRttEcho (Timestamp.Add now rttEchoInterval)) f in
    autoScaleBuffer f
  else f.

Definition HandleTimer (now id : Z) (f : Flow) : Flow :=
  match role f with
  | RoleSender => senderHandleTimer now id f
  | RoleReceiver =>
      if id =? TimerPlayout then deliverDue now (on_receiver (fun r => r <| playoutArmed := false |>) f)
      else if id =? TimerNack then
        scheduleNack now (processNacks now (on_receiver (fun r => r <| nackArmed := false |>) f))
      else if id =? TimerRttEcho then receiver_echo now f
      else f
  end.

Definition Tick (now : Z) (f : Flow) : Flow :=
  match role f with RoleReceiver => processNacks now (deliverDue now f) | RoleSender => f end.

(** The zero values left in popped slots: the nil interface, which nothing reads. *)
Definition Output_nil : Output := ClearTimer 0.
Definition Event_nil : Event := Deliver 0 0 [] false FragStandalone 0 0.

Definition PollOutput (f : Flow) : option Output * Flow :=
  let '(o, q) := fifo_pop Output_nil (outputs f) in (o, f <| outputs := q |>).
Definition PollEvent (f : Flow) : option Event * Flow :=
  let '(e, q) := fifo_pop Event_nil (events f) in (e, f <| events := q |>).

(** ** Executions *)

(** The calls a host makes. *)
Inductive Call :=
  | CFeed (now path : Z) (pkt : MediaPacket)
  | CFeedFeedback (now : Z) (fb : Feedback)
  | CPushApp (now : Z) (payload : bytes)
  | CPushAppFrag (now : Z) (payload : bytes) (frag : FragRole)
  | CPushAppBlock (now : Z) (payload : bytes) (frag : FragRole) (seqOpt sourceTime : option Z)
  | CHandleTimer (now id : Z)
  | CTick (now : Z)
  | CSetRTTMultiplier (multiplier : Z)
  | CSetSenderMaxBuffer (maxBuffer : Z)
  | CPollOutput
  | CPollEvent.

(** A flow, and what its host has polled from it. *)
Record World := mkWorld { w_flow : Flow; w_outputs : list Output; w_events : list Event }.

Definition exec (c : Call) (w : World) : World :=
  let go g := mkWorld (g (w_flow w)) (w_outputs w) (w_events w) in
  match c with
  | CFeed now path pkt => go (Feed now path pkt)
  | CFeedFeedback now fb => go (FeedFeedback now fb)
  | CPushApp now payload => go (PushApp now payload)
  | CPushAppFrag now payload frag => go (PushAppFrag now payload frag)
  | CPushAppBlock now payload frag n st => go (PushAppBlock now payload frag n st)
  | CHandleTimer now id => go (HandleTimer now id)
  | CTick now => go (Tick now)
  | CSetRTTMultiplier m => go (SetRTTMultiplier m)
  | CSetSenderMaxBuffer b => go (SetSenderMaxBuffer b)
  | CPollOutput => let '(o, f) := PollOutput (w_flow w) in mkWorld f (w_outputs w ++ option_list o) (w_events w)
  | CPollEvent => let '(e, f) := PollEvent (w_flow w) in mkWorld f (w_outputs w) (w_events w ++ option_list e)
  end.

Definition run (cs : list Call) (w : World) : World := foldl (fun w c => exec c w) w cs.

Definition new_world (ro : Role) (c : Config) : World := mkWorld (New ro c) [] [].

(** Everything the flow has produced: what was polled, and what is still queued. *)
Definition all_outputs (w : World) : list Output := w_outputs w ++ pending (outputs (w_flow w)).
Definition all_events (w : World) : list Event := w_events w ++ pending (events (w_flow w)).

(** The value ranges Go's types impose on a call. *)
Definition call_typed (c : Call) : Prop :=
  match c with
  | CFeed _ _ pkt => packet_typed pkt
  | CPushAppBlock _ _ _ (Some n) _ => in_u32 n
  | _ => True
  end.
