(* ===== verification/Window.v ===== *)
(** * The receiver ring as a window of sequence numbers

    The invariant of the receiver ring and the lemmas the playout and ingestion
    proofs share.  [buffered r n] is the packet the ring holds for sequence [n];
    under the invariant every filled slot is buffered at its own sequence, and the
    buffered sequences lie between the playout cursor and the newest sequence. *)

From S2P Require Import Prelude Seq Clock Wire FlowTypes Receiver.

(** ** Definitions *)

(** The packet held for sequence [n], if any. *)
Definition buffered (r : receiverState) (n : Z) : option slot :=
  if holds (slot_at r n) n then Some (slot_at r n) else None.

(** How far ahead of the cursor a sequence is. *)
Definition ahead (r : receiverState) (n : Z) : Z := u32 (n - deliverNext r).

(** The signed distance from the cursor to the newest sequence. *)
Definition lead (r : receiverState) : Z := Num32.Distance (deliverNext r) (highest r).

(** The ring is a power of two long and [mask] selects its index bits. *)
Definition ring_shape (k : Z) (r : receiverState) : Prop :=
  0 <= k <= 31 /\ zlen (ring r) = 2 ^ k /\ mask r = 2 ^ k - 1.

(** Every filled slot sits at the index of its own sequence. *)
Definition ring_home (r : receiverState) : Prop :=
  forall i s, ring r !! i = Some s -> filled s = true -> in_u32 (s_seq s) /\ ridx r (s_seq s) = i.

(** Before the first packet the ring is empty; afterwards the buffered sequences
    lie between the cursor and [highest], less than half the sequence space apart. *)
Definition ring_window (r : receiverState) : Prop :=
  if started r
  then -1 <= lead r < 2 ^ 31 /\ forall n s, buffered r n = Some s -> ahead r n <= lead r
  else forall n, buffered r n = None.

Record ring_inv (k : Z) (r : receiverState) : Prop := {
  ri_shape : ring_shape k r;
  ri_home : ring_home r;
  ri_cursor : in_u32 (deliverNext r);
  ri_highest : in_u32 (highest r);
  ri_window : ring_window r }.

(** The buffered packets in sequence order. *)
Definition window (r : receiverState) : list slot :=
  omap (fun i => buffered r (u32 (deliverNext r + Z.of_nat i))) (seq 0 (Z.to_nat (lead r + 1))).

(** ** Slots and indices *)

Lemma holds_true s n : holds s n = true <-> s_state s = slotFilled /\ s_seq s = n.
Proof.
  unfold holds, filled. rewrite andb_true_iff, bool_decide_eq_true, Z.eqb_eq. done.
Qed.

Lemma holds_filled s n : holds s n = true -> filled s = true.
Proof. unfold holds. by intros [? _]%andb_true_iff. Qed.

Lemma clear_slot_empty s : filled (clear_slot s) = false.
Proof. done. Qed.

Lemma ridx_mod k r n : ring_shape k r -> ridx r n = Z.to_nat (n mod 2 ^ k).
Proof.
  intros (Hk & _ & Hm). unfold ridx. rewrite Hm. f_equal.
  rewrite <-Z.land_ones, Z.ones_equiv, Z.sub_1_r by lia. done.
Qed.

Lemma ridx_lt k r n : ring_shape k r -> (ridx r n < length (ring r))%nat.
Proof.
  intros Hs. rewrite (ridx_mod k) by done. destruct Hs as (Hk & Hl & _). unfold zlen in Hl.
  pose proof (Z.mod_pos_bound n (2 ^ k)). pose proof (Z.pow_pos_nonneg 2 k). lia.
Qed.

Lemma ring_lookup k r n : ring_shape k r -> ring r !! ridx r n = Some (slot_at r n).
Proof.
  intros Hs. unfold slot_at. destruct (lookup_lt_is_Some_2 (ring r) (ridx r n)) as [s Hr].
  { by eapply ridx_lt. } by rewrite Hr.
Qed.

(** Sequences share a slot exactly when they agree modulo the ring size. *)
Lemma ridx_eq k r m n : ring_shape k r -> ridx r m = ridx r n <-> m mod 2 ^ k = n mod 2 ^ k.
Proof.
  intros Hs. rewrite !(ridx_mod k) by done. destruct Hs as (Hk & _).
  pose proof (Z.pow_pos_nonneg 2 k). pose proof (Z.mod_pos_bound m (2 ^ k)).
  pose proof (Z.mod_pos_bound n (2 ^ k)). split; [|congruence]. intros E%Z2Nat.inj; lia.
Qed.

(** Two sequences less than a ring apart that share a slot are the same. *)
Lemma ridx_inj k r a b :
  ring_shape k r -> 0 <= a < 2 ^ k -> 0 <= b < 2 ^ k ->
  ridx r (u32 (deliverNext r + a)) = ridx r (u32 (deliverNext r + b)) -> a = b.
Proof.
  intros Hs Ha Hb. rewrite (ridx_eq k) by done. destruct Hs as (Hk & _).
  rewrite !u32_mod_pow2 by lia. intros E.
  apply mod_eq_close in E; [lia|apply Z.pow_pos_nonneg; lia|lia].
Qed.

(** ** [buffered] through ring updates *)

Lemma buffered_Some k r n s :
  ring_shape k r -> buffered r n = Some s <-> ring r !! ridx r n = Some s /\ holds s n = true.
Proof.
  intros Hs. unfold buffered. rewrite (ring_lookup k) by done.
  destruct (holds (slot_at r n) n) eqn:E; split; try done; [by intros [= <-]|by intros [[= <-] _]|].
  intros [[= <-] ?]; congruence.
Qed.

Lemma buffered_seq r n s : buffered r n = Some s -> s_seq s = n.
Proof. unfold buffered. case_match eqn:E; [|done]. intros [= <-]. by apply holds_true in E as [_ ?]. Qed.

Lemma buffered_holds r n : holds (slot_at r n) n = true <-> buffered r n = Some (slot_at r n).
Proof. unfold buffered. by case_match. Qed.

Lemma buffered_None r n : holds (slot_at r n) n = false <-> buffered r n = None.
Proof. unfold buffered. by case_match. Qed.

(** [buffered] only reads the ring and its mask. *)
Lemma buffered_ext r r' n : ring r' = ring r -> mask r' = mask r -> buffered r' n = buffered r n.
Proof. intros H1 H2. unfold buffered, slot_at, ridx. by rewrite H1, H2. Qed.

Lemma set_slot_shape k n s r : ring_shape k r -> ring_shape k (set_slot n s r).
Proof. unfold ring_shape, set_slot, zlen. simpl. by rewrite length_insert. Qed.

Lemma buffered_set_slot k n s r m :
  ring_shape k r ->
  buffered (set_slot n s r) m =
    if decide (ridx r m = ridx r n) then (if holds s m then Some s else None) else buffered r m.
Proof.
  intros Hs. unfold buffered, slot_at, set_slot, ridx. simpl. fold (ridx r m) (ridx r n).
  destruct (decide (ridx r m = ridx r n)) as [->|Hne].
  - rewrite list_lookup_insert_eq by (by eapply ridx_lt). done.
  - by rewrite list_lookup_insert_ne by done.
Qed.

(** Clearing the slot of [n] removes what it held and nothing else. *)
Lemma buffered_clear k n s r m :
  ring_shape k r ->
  buffered (set_slot n (clear_slot s) r) m =
    if decide (ridx r m = ridx r n) then None else buffered r m.
Proof. intros Hs. by rewrite (buffered_set_slot k). Qed.

Lemma set_slot_home k n s r :
  ring_shape k r -> ring_home r -> (filled s = true -> in_u32 (s_seq s) /\ ridx r (s_seq s) = ridx r n) ->
  ring_home (set_slot n s r).
Proof.
  intros Hs Hh Hns i t. unfold set_slot. simpl.
  change (ridx (r <| ring ::= <[ridx r n := s]> |>)) with (ridx r).
  intros Hl Hf. apply list_lookup_insert_Some in Hl as [(<- & <- & _)|(Hne & Hl)].
  - by apply Hns.
  - by apply Hh.
Qed.

(** ** [clear_range] *)

Lemma clear_range_shape k j n r : ring_shape k r -> ring_shape k (clear_range j n r).
Proof.
  revert n r. induction j as [|j IH]; intros n r Hs; simpl; [done|]. apply IH.
  case_match; [by apply set_slot_shape|done].
Qed.

Lemma clear_range_home k j n r : ring_shape k r -> ring_home r -> ring_home (clear_range j n r).
Proof.
  revert n r. induction j as [|j IH]; intros n r Hs Hh; simpl; [done|].
  case_match; apply IH; try done; [by apply set_slot_shape|]. by eapply set_slot_home.
Qed.

(** Everything but the ring is untouched. *)
Lemma clear_range_frame j n r : clear_range j n r = r <| ring := ring (clear_range j n r) |>.
Proof.
  revert n r. induction j as [|j IH]; intros n r; simpl; [by destruct r|].
  rewrite IH. case_match; done.
Qed.

Lemma clear_range_None k j n r m :
  ring_shape k r -> buffered r m = None -> buffered (clear_range j n r) m = None.
Proof.
  revert n r. induction j as [|j IH]; intros n r Hs Hn; simpl; [done|].
  apply IH; case_match; try done; [by apply set_slot_shape|].
  rewrite (buffered_clear k) by done. by case_decide.
Qed.

(** [clear_range] empties the slots of the [j] sequences from [n] on... *)
Lemma clear_range_hit k j n r m :
  ring_shape k r -> (exists i, (i < j)%nat /\ ridx r m = ridx r (u32 (n + Z.of_nat i))) ->
  buffered (clear_range j n r) m = None.
Proof.
  revert n r. induction j as [|j IH]; intros n r Hs (i & Hi & E); [lia|]. cbn [clear_range].
  set (r' := if filled (slot_at r n) then _ else r).
  assert (Hs' : ring_shape k r') by (subst r'; case_match; [by apply set_slot_shape|done]).
  assert (Hidx : forall x, ridx r' x = ridx r x) by (subst r'; case_match; done).
  destruct (decide (ridx r m = ridx r n)) as [En|En].
  - assert (Hn : buffered r' m = None).
    { subst r'. case_match eqn:Ef; [by rewrite (buffered_clear k), decide_True|].
      unfold buffered, slot_at in *. rewrite En. unfold holds. by rewrite Ef. }
    by eapply clear_range_None.
  - apply IH; [done|]. destruct i as [|i].
    + exfalso. apply En. rewrite E. rewrite !(ridx_mod k) by done. rewrite u32_mod_pow2 by apply Hs.
      by rewrite Z.add_0_r.
    + exists i. split; [lia|]. rewrite !Hidx, E, u32_add_l. do 2 f_equal. lia.
Qed.

(** ...and keeps the others. *)
Lemma clear_range_miss k j n r m :
  ring_shape k r -> (forall i, (i < j)%nat -> ridx r m <> ridx r (u32 (n + Z.of_nat i))) ->
  buffered (clear_range j n r) m = buffered r m.
Proof.
  revert n r. induction j as [|j IH]; intros n r Hs Hm; [done|]. cbn [clear_range].
  assert (H0 : ridx r m <> ridx r n).
  { intros E. apply (Hm 0%nat); [lia|]. rewrite E, Z.add_0_r, !(ridx_mod k), u32_mod_pow2 by (done || apply Hs). done. }
  set (r' := if filled (slot_at r n) then _ else r).
  assert (Hs' : ring_shape k r') by (subst r'; case_match; [by apply set_slot_shape|done]).
  assert (Hidx : forall x, ridx r' x = ridx r x) by (subst r'; case_match; done).
  rewrite IH; [|done|].
  - subst r'. case_match; [|done]. by rewrite (buffered_clear k), decide_False.
  - intros i Hi. rewrite !Hidx. intros E. apply (Hm (S i)); [lia|].
    rewrite E, u32_add_l. do 2 f_equal. lia.
Qed.

(** ** Moving the cursor *)

Lemma lead_spec r :
  in_u32 (highest r) -> u32 (deliverNext r + lead r) = highest r /\ - 2 ^ 31 < lead r <= 2 ^ 31.
Proof.
  intros Hh. unfold lead, Num32.Distance. split; [by apply (distance_add 32)|].
  apply (distance_range 32).
Qed.

Lemma lead_advance r r' j :
  in_u32 (highest r) -> highest r' = highest r -> deliverNext r' = u32 (deliverNext r + j) ->
  0 <= j <= lead r + 1 -> lead r < 2 ^ 31 -> lead r' = lead r - j.
Proof.
  intros Hh Hh' Hd Hj Hl. unfold lead at 1, Num32.Distance. rewrite Hh', Hd.
  destruct (lead_spec r Hh) as [Hs _]. apply distance_unique; [apply numeric_32|lia|done|].
  change (uwrap 32) with u32. rewrite u32_add_l, <-Hs. f_equal. lia.
Qed.

Lemma ahead_range r n : in_u32 (ahead r n).
Proof. apply u32_range. Qed.

Lemma ahead_seq r n : in_u32 n -> n = u32 (deliverNext r + ahead r n).
Proof. intros Hn. unfold ahead. rewrite u32_add_r. symmetry. apply u32_eq; [done|]. exists 0. lia. Qed.

Lemma ahead_of_seq r i : in_u32 i -> ahead r (u32 (deliverNext r + i)) = i.
Proof. intros Hi. unfold ahead. rewrite u32_sub_l. apply u32_eq; [done|]. exists 0. lia. Qed.

Lemma ahead_advance r r' n j :
  deliverNext r' = u32 (deliverNext r + j) -> 0 <= j <= ahead r n -> ahead r' n = ahead r n - j.
Proof.
  intros Hd Hj. pose proof (ahead_range r n) as Hr. unfold ahead in *. rewrite Hd. u32_lia.
Qed.

(** The invariant only reads the ring, the mask and the cursors. *)
Lemma ring_inv_ext k r r' :
  ring r' = ring r -> mask r' = mask r -> started r' = started r ->
  deliverNext r' = deliverNext r -> highest r' = highest r -> ring_inv k r -> ring_inv k r'.
Proof.
  intros E1 E2 E3 E4 E5 [Hs Hh Hc Hi Hw]. split.
  - unfold ring_shape in *. by rewrite E1, E2.
  - unfold ring_home, ridx in *. by rewrite E1, E2.
  - by rewrite E4.
  - by rewrite E5.
  - unfold ring_window, lead, ahead in *. rewrite E3, E4, E5.
    destruct (started r); [|intros n; rewrite (buffered_ext r) by done; apply Hw].
    destruct Hw as [H1 H2]. split; [done|]. intros n s. rewrite (buffered_ext r) by done. apply H2.
Qed.

Lemma window_ext r r' :
  ring r' = ring r -> mask r' = mask r ->
  deliverNext r' = deliverNext r -> highest r' = highest r -> window r' = window r.
Proof.
  intros E1 E2 E3 E4. unfold window, lead. rewrite E3, E4.
  apply list_omap_ext, Forall_Forall2_diag, Forall_true. intros i. by apply buffered_ext.
Qed.

Section cursor.
Context (k : Z) (r : receiverState).
Hypothesis (Hinv : ring_inv k r) (Hst : started r = true).

Lemma lead_range : -1 <= lead r < 2 ^ 31.
Proof. destruct Hinv as [_ _ _ _ Hw]. unfold ring_window in Hw. rewrite Hst in Hw. apply Hw. Qed.

Lemma buffered_in_u32 n s : buffered r n = Some s -> in_u32 n.
Proof.
  intros Hb. pose proof (buffered_seq _ _ _ Hb) as <-.
  apply (buffered_Some k) in Hb as [Hl Hh]; [|apply Hinv].
  eapply Hinv; [done|]. by eapply holds_filled.
Qed.

Lemma buffered_ahead n s : buffered r n = Some s -> 0 <= ahead r n <= lead r.
Proof.
  intros Hb. split; [apply ahead_range|]. destruct Hinv as [_ _ _ _ Hw].
  unfold ring_window in Hw. rewrite Hst in Hw. by eapply Hw.
Qed.

(** Skipping [j] sequences: whatever they held is dropped, the rest stays buffered and closer. *)
Lemma advance_inv j r' :
  0 <= j <= lead r + 1 ->
  ring r' = ring (clear_range (Z.to_nat j) (deliverNext r) r) -> mask r' = mask r ->
  started r' = true -> highest r' = highest r -> deliverNext r' = u32 (deliverNext r + j) ->
  ring_inv k r' /\ lead r' = lead r - j.
Proof.
  intros Hj Er Em Es Eh Ed. pose proof lead_range as Hl.
  assert (Hlead : lead r' = lead r - j) by (apply lead_advance; [apply Hinv|done..|lia]).
  split; [|done].
  assert (Em' : mask (clear_range (Z.to_nat j) (deliverNext r) r) = mask r)
    by (rewrite clear_range_frame; done).
  assert (Hsh := clear_range_shape k (Z.to_nat j) (deliverNext r) r (ri_shape _ _ Hinv)).
  assert (Hho := clear_range_home k (Z.to_nat j) (deliverNext r) r (ri_shape _ _ Hinv) (ri_home _ _ Hinv)).
  split.
  - unfold ring_shape in *. by rewrite Er, Em, <-Em'.
  - unfold ring_home, ridx in *. by rewrite Er, Em, <-Em'.
  - rewrite Ed. apply u32_range.
  - rewrite Eh. apply Hinv.
  - unfold ring_window. rewrite Es, Hlead. split; [lia|]. intros n s Hb.
    rewrite (buffered_ext (clear_range (Z.to_nat j) (deliverNext r) r)) in Hb by congruence.
    assert (Hb0 : exists s0, buffered r n = Some s0).
    { destruct (buffered r n) eqn:E; [eauto|]. by rewrite (clear_range_None k) in Hb by (done || apply Hinv). }
    destruct Hb0 as [s0 Hb0]. pose proof (buffered_ahead _ _ Hb0).
    destruct (Z.lt_ge_cases (ahead r n) j) as [Hlt|Hge].
    + rewrite (clear_range_hit k) in Hb; [done|apply Hinv|].
      exists (Z.to_nat (ahead r n)). split; [lia|].
      rewrite Z2Nat.id, <-ahead_seq by (lia || by eapply buffered_in_u32). done.
    + rewrite (ahead_advance r r' n j) by (done || lia). lia.
Qed.

(** The window, when the ring can hold it. *)
Hypothesis Hfit : lead r < 2 ^ k.

Lemma advance_buffered j r' i :
  0 <= j <= lead r + 1 -> 0 <= i <= lead r - j ->
  ring r' = ring (clear_range (Z.to_nat j) (deliverNext r) r) -> mask r' = mask r ->
  deliverNext r' = u32 (deliverNext r + j) ->
  buffered r' (u32 (deliverNext r' + i)) = buffered r (u32 (deliverNext r + (j + i))).
Proof.
  intros Hj Hi Er Em Ed. rewrite Ed, u32_add_l.
  rewrite (buffered_ext (clear_range (Z.to_nat j) (deliverNext r) r)) by (done || by rewrite clear_range_frame).
  rewrite <-Z.add_assoc. apply (clear_range_miss k); [apply Hinv|]. intros i' Hi' E.
  apply (ridx_inj k) in E; [lia|apply Hinv|lia|lia].
Qed.
End cursor.

Lemma omap_seq_app {A} (f : nat -> option A) j n :
  omap f (seq 0 (j + n)) = omap f (seq 0 j) ++ omap (fun i => f (j + i)%nat) (seq 0 n).
Proof.
  rewrite seq_app, omap_app. f_equal. rewrite Nat.add_0_l.
  rewrite <-(Nat.add_0_r j) at 1. rewrite <-fmap_add_seq.
  induction (seq 0 n) as [|x l IH]; csimpl; [done|]. by rewrite IH.
Qed.

Lemma omap_None {A B} (f : A -> option B) l : (forall x, x ∈ l -> f x = None) -> omap f l = [].
Proof.
  induction l as [|x l IH]; intros Hn; simpl; [done|].
  rewrite Hn by (by left). apply IH. intros y Hy. apply Hn. by right.
Qed.

(** The window after skipping [j] sequences is what remains of the window. *)
Lemma advance_window k r r' j :
  ring_inv k r -> started r = true -> lead r < 2 ^ k -> 0 <= j <= lead r + 1 ->
  ring r' = ring (clear_range (Z.to_nat j) (deliverNext r) r) -> mask r' = mask r ->
  highest r' = highest r -> deliverNext r' = u32 (deliverNext r + j) ->
  window r = omap (fun i => buffered r (u32 (deliverNext r + Z.of_nat i))) (seq 0 (Z.to_nat j)) ++ window r'.
Proof.
  intros Hinv Hst Hfit Hj Er Em Eh Ed. pose proof (lead_range k r Hinv Hst) as Hl.
  assert (Hlead : lead r' = lead r - j) by (apply lead_advance; [apply Hinv|done..|lia]).
  unfold window. rewrite Hlead.
  replace (Z.to_nat (lead r + 1)) with (Z.to_nat j + Z.to_nat (lead r - j + 1))%nat by lia.
  rewrite omap_seq_app. f_equal.
  apply list_omap_ext, Forall_Forall2_diag, Forall_forall. intros i [_ Hi]%elem_of_seq. symmetry.
  rewrite (advance_buffered k r Hinv Hfit j) by (done || lia). do 3 f_equal. lia.
Qed.
