(* ===== verification/Playout.v ===== *)
(** * Time-driven playout: deliverDue of internal/flow/receiver.go

    [deliverDue] scans the ring from its cursor; the specification [playout]
    walks the buffered packets in sequence order and delivers the ones that are due.
    The loop terminates from every state that satisfies the ring invariant, and,
    while the buffered span fits the ring, it delivers exactly what the
    specification does. *)

From S2P Require Import Prelude Seq Clock Wire FlowTypes Receiver Window.

(** ** Specification *)

(** The event that hands packet [s] over, flagged when a gap precedes it. *)
Definition deliver_event (disc : bool) (s : slot) : Event :=
  Deliver (s_seq s) (s_sourceTime s) (s_payload s) disc (s_frag s) (s_virtSrcPort s) (s_virtDstPort s).

Record playout_result := mkPlayout {
  po_events : list Event;   (** what is delivered *)
  po_cursor : Z;            (** the next sequence to deliver *)
  po_lost : Z;              (** the sequences skipped *)
  po_gaps : Z;              (** the runs of skipped sequences *)
  po_pending : bool;        (** whether a gap is still to be reported *)
  po_window : list slot }.  (** what stays buffered *)

(** Deliver the packets of the window in order, each once it is due, and stop at the first that is not. *)
Fixpoint playout (now cursor : Z) (pend : bool) (w : list slot) : playout_result :=
  match w with
  | [] => mkPlayout [] cursor 0 0 pend []
  | s :: w' =>
      if now <? s_outputTime s then mkPlayout [] cursor 0 0 pend w
      else
        let gap := negb (s_seq s =? cursor) in
        let p := playout now (u32 (s_seq s + 1)) false w' in
        mkPlayout (deliver_event (pend || gap) s :: po_events p) (po_cursor p)
          (u32 (s_seq s - cursor) + po_lost p) ((if gap then 1 else 0) + po_gaps p)
          (po_pending p) (po_window p)
  end.

(** ** The iterations of the loop *)

Lemma find_next_Some n from r m :
  find_next n from r = Some m ->
  exists j s, (1 <= j <= n)%nat /\ m = u32 (from + Z.of_nat j) /\ buffered r m = Some s /\ s = slot_at r m /\
    forall i, (1 <= i < j)%nat -> buffered r (u32 (from + Z.of_nat i)) = None.
Proof.
  revert from. induction n as [|n IH]; intros from; cbn [find_next]; [done|].
  destruct (holds _ _) eqn:E.
  - intros [= <-]. exists 1%nat, (slot_at r (u32 (from + 1))). split_and!; try done; try lia. by apply buffered_holds.
  - intros (j & s & Hj & -> & Hb & Hs & Hn)%IH. rewrite u32_add_l in Hb, Hs |- *.
    exists (S j), s. replace (from + Z.of_nat (S j)) with (from + 1 + Z.of_nat j) by lia.
    split_and!; try done; try lia. intros [|[|i]] Hi; [lia|by apply buffered_None|].
    specialize (Hn (S i) ltac:(lia)). rewrite u32_add_l in Hn. rewrite <-Hn. do 2 f_equal. lia.
Qed.

Lemma find_next_None n from r :
  find_next n from r = None -> forall i, (1 <= i <= n)%nat -> buffered r (u32 (from + Z.of_nat i)) = None.
Proof.
  revert from. induction n as [|n IH]; intros from; cbn [find_next]; [lia|].
  destruct (holds _ _) eqn:E; [done|]. intros H [|[|i]] Hi; [lia|by apply buffered_None|].
  specialize (IH _ H (S i) ltac:(lia)). rewrite u32_add_l in IH. rewrite <-IH. do 2 f_equal. lia.
Qed.

(** Nothing is buffered at the first [n] sequences from the cursor on. *)
Definition hole (r : receiverState) (n : Z) : Prop :=
  forall i, 0 <= i < n -> buffered r (u32 (deliverNext r + i)) = None.

(** What one iteration can do, and when. *)
Inductive playout_case (k now : Z) (f : Flow) : bool * Flow -> Prop :=
  | pc_wait j s :
      0 <= j <= lead (receiver f) -> hole (receiver f) j ->
      buffered (receiver f) (u32 (deliverNext (receiver f) + j)) = Some s -> now < s_outputTime s ->
      playout_case k now f (false, armPlayout (s_outputTime s) f)
  | pc_deliver s :
      buffered (receiver f) (deliverNext (receiver f)) = Some s -> s_outputTime s <= now ->
      playout_case k now f (true, emitDeliver f)
  | pc_skip j s :
      0 < j <= lead (receiver f) -> j <= 2 ^ k -> hole (receiver f) j ->
      buffered (receiver f) (u32 (deliverNext (receiver f) + j)) = Some s -> s_outputTime s <= now ->
      playout_case k now f (true, skipTo (u32 (deliverNext (receiver f) + j)) f)
  | pc_idle :
      (forall n, buffered (receiver f) n = None) -> playout_case k now f (false, disarmPlayout f)
  | pc_lap :
      2 ^ k < lead (receiver f) -> hole (receiver f) (2 ^ k + 1) ->
      playout_case k now f (true, skipTo (u32 (deliverNext (receiver f) + 2 ^ k)) f).

Lemma hole_empty k r n :
  ring_inv k r -> started r = true -> hole r n -> lead r < n -> forall m, buffered r m = None.
Proof.
  intros Hinv Hst Hh Hn m. destruct (buffered r m) as [s|] eqn:E; [|done].
  pose proof (buffered_ahead k r Hinv Hst _ _ E). rewrite <-(Hh (ahead r m)) by lia.
  rewrite <-ahead_seq by (by eapply buffered_in_u32). congruence.
Qed.

Lemma deliver_step_case k now f :
  ring_inv k (receiver f) -> started (receiver f) = true -> playout_case k now f (deliver_step now f).
Proof.
  intros Hinv Hst. set (r := receiver f) in *. pose proof (lead_range k r Hinv Hst) as Hl.
  unfold deliver_step. fold r. fold (lead r).
  assert (H0 : u32 (deliverNext r + 0) = deliverNext r) by (rewrite Z.add_0_r; apply u32_id, Hinv).
  destruct (holds (slot_at r (deliverNext r)) (deliverNext r)) eqn:Eh.
  { apply buffered_holds in Eh as Hb. unfold Timestamp.Before. destruct (Z.ltb_spec now (s_outputTime (slot_at r (deliverNext r)))).
    - apply (pc_wait _ _ _ 0); fold r; [|intros i; lia|by rewrite H0|done].
      pose proof (buffered_ahead k r Hinv Hst _ _ Hb). lia.
    - by eapply pc_deliver. }
  apply buffered_None in Eh.
  assert (Hhole : forall n, (forall i, (1 <= i <= Z.to_nat n)%nat -> buffered r (u32 (deliverNext r + Z.of_nat i)) = None)
            -> hole r (n + 1)).
  { intros n Hn i Hi. destruct (Z.eq_dec i 0) as [->|]; [by rewrite H0|].
    rewrite <-(Z2Nat.id i) by lia. apply Hn. lia. }
  destruct (Z.leb_spec (lead r) 0) as [Hle|Hgt].
  { apply pc_idle. fold r. apply (hole_empty k r (0 + 1)); [done..| |lia]. apply Hhole. lia. }
  destruct (ri_shape k r Hinv) as (Hk & Hlen & _). rewrite Hlen.
  pose proof (Z.pow_pos_nonneg 2 k ltac:(lia) ltac:(lia)) as HP.
  pose proof (Z.pow_le_mono_r 2 k 31 ltac:(lia) ltac:(lia)) as HP31.
  set (limit := if 2 ^ k <? lead r then 2 ^ k else lead r).
  assert (Hlim : 0 < limit <= lead r /\ limit <= 2 ^ k) by (subst limit; case_cmp; lia).
  destruct (find_next (Z.to_nat limit) (deliverNext r) r) as [m|] eqn:Ef.
  - apply find_next_Some in Ef as (j & s & Hj & -> & Hb & Hs & Hn). rewrite <-Hs. unfold Timestamp.Before.
    assert (hole r (Z.of_nat j)).
    { replace (Z.of_nat j) with (Z.of_nat (j - 1) + 1) by lia. apply Hhole. intros i Hi. apply Hn. lia. }
    destruct (Z.ltb_spec now (s_outputTime s)); [eapply pc_wait|eapply pc_skip]; try done; fold r; lia.
  - assert (Hh := Hhole _ (find_next_None _ _ _ Ef)). subst limit.
    destruct (Z.ltb_spec (2 ^ k) (lead r)).
    + rewrite (u32_id (2 ^ k)) by (unfold in_u32; lia). by apply pc_lap.
    + apply pc_idle. by apply (hole_empty k r (lead r + 1)); [..|lia].
Qed.

(** ** The ring through one iteration *)

Lemma armPlayout_ring d f :
  let r := receiver f in let r' := receiver (armPlayout d f) in
  ring r' = ring r /\ mask r' = mask r /\ started r' = started r /\
  deliverNext r' = deliverNext r /\ highest r' = highest r.
Proof. cbv zeta. unfold armPlayout. by case_match. Qed.

Lemma disarmPlayout_ring f :
  let r := receiver f in let r' := receiver (disarmPlayout f) in
  ring r' = ring r /\ mask r' = mask r /\ started r' = started r /\
  deliverNext r' = deliverNext r /\ highest r' = highest r.
Proof. cbv zeta. unfold disarmPlayout. by case_match. Qed.

Lemma emitDeliver_ring f s :
  let r := receiver f in let r' := receiver (emitDeliver f) in
  buffered r (deliverNext r) = Some s ->
  ring r' = ring (clear_range (Z.to_nat 1) (deliverNext r) r) /\ mask r' = mask r /\
  started r' = started r /\ highest r' = highest r /\ deliverNext r' = u32 (deliverNext r + 1).
Proof.
  cbv zeta. intros Hb. change (Z.to_nat 1) with 1%nat. cbn [clear_range].
  assert (Hf : filled (slot_at (receiver f) (deliverNext (receiver f))) = true).
  { unfold buffered in Hb. case_match eqn:E; [|done]. by eapply holds_filled. }
  by rewrite Hf.
Qed.

Lemma skipTo_ring f j :
  0 <= j < 2 ^ 32 ->
  let r := receiver f in let r' := receiver (skipTo (u32 (deliverNext r + j)) f) in
  ring r' = ring (clear_range (Z.to_nat j) (deliverNext r) r) /\ mask r' = mask r /\
  started r' = started r /\ highest r' = highest r /\ deliverNext r' = u32 (deliverNext r + j).
Proof.
  intros Hj. cbv zeta. unfold skipTo. set (r := receiver f).
  assert (u32 (u32 (deliverNext r + j) - deliverNext r) = j) as ->
    by (rewrite u32_sub_l; apply u32_eq; [done|exists 0; lia]).
  simpl. fold r. pose proof (clear_range_frame (Z.to_nat j) (deliverNext r) r) as E.
  split_and!; try done; rewrite E; done.
Qed.

(** An iteration keeps the invariant, and one that goes on brings the cursor closer to the newest packet. *)
Lemma playout_case_inv k now f b f' :
  ring_inv k (receiver f) -> started (receiver f) = true -> playout_case k now f (b, f') ->
  ring_inv k (receiver f') /\ started (receiver f') = true /\
  (b = true -> lead (receiver f') < lead (receiver f)).
Proof.
  intros Hinv Hst Hc. pose proof (lead_range k _ Hinv Hst) as Hl.
  pose proof (ri_shape _ _ Hinv) as (Hk & _). pose proof (Z.pow_le_mono_r 2 k 31 ltac:(lia) ltac:(lia)).
  pose proof (Z.pow_pos_nonneg 2 k ltac:(lia) ltac:(lia)).
  inv Hc as [j s Hj Hh Hb Ho|s Hb Ho|j s Hj Hjk Hh Hb Ho|Hn|Hlap Hh].
  - destruct (armPlayout_ring (s_outputTime s) f) as (? & ? & ? & ? & ?).
    split; [by eapply ring_inv_ext|]. split; [congruence|done].
  - destruct (emitDeliver_ring f s) as (? & ? & ? & ? & ?); [done|].
    pose proof (buffered_ahead k _ Hinv Hst _ _ Hb).
    destruct (advance_inv k (receiver f) Hinv Hst 1 (receiver (emitDeliver f))) as [Hi Hlead];
      [lia|done|done|congruence|done|done|].
    split; [done|]. split; [congruence|]. lia.
  - destruct (skipTo_ring f j) as (? & ? & ? & ? & ?); [lia|].
    destruct (advance_inv k (receiver f) Hinv Hst j (receiver (skipTo (u32 (deliverNext (receiver f) + j)) f)))
      as [Hi Hlead]; [lia|done|done|congruence|done|done|].
    split; [done|]. split; [congruence|]. lia.
  - destruct (disarmPlayout_ring f) as (? & ? & ? & ? & ?).
    split; [by eapply ring_inv_ext|]. split; [congruence|done].
  - destruct (skipTo_ring f (2 ^ k)) as (? & ? & ? & ? & ?); [lia|].
    destruct (advance_inv k (receiver f) Hinv Hst (2 ^ k) (receiver (skipTo (u32 (deliverNext (receiver f) + 2 ^ k)) f)))
      as [Hi Hlead]; [lia|done|done|congruence|done|done|].
    split; [done|]. split; [congruence|]. lia.
Qed.

(** ** Termination and induction over the loop *)

Lemma deliver_loop_total k now fuel f :
  ring_inv k (receiver f) -> started (receiver f) = true ->
  lead (receiver f) + 2 <= Z.of_nat fuel -> exists f', deliver_loop fuel now f = Some f'.
Proof.
  revert f. induction fuel as [|fuel IH]; intros f Hinv Hst Hf.
  { pose proof (lead_range k _ Hinv Hst). lia. }
  cbn [deliver_loop]. pose proof (deliver_step_case k now f Hinv Hst) as Hc.
  destruct (deliver_step now f) as [b f1].
  destruct (playout_case_inv k now f b f1 Hinv Hst Hc) as (Hinv1 & Hst1 & Hlt).
  destruct b; [|eauto]. apply IH; [done..|]. specialize (Hlt eq_refl). lia.
Qed.

(** The result does not depend on the fuel once it suffices. *)
Lemma deliver_loop_mono now fuel fuel' f f' :
  deliver_loop fuel now f = Some f' -> (fuel <= fuel')%nat -> deliver_loop fuel' now f = Some f'.
Proof.
  revert fuel' f. induction fuel as [|fuel IH]; intros [|fuel'] f; cbn [deliver_loop]; try done; [lia|].
  destruct (deliver_step now f) as [[] f1]; [|done]. intros ? ?. apply IH; [done|lia].
Qed.

(** To prove a relation between the flow before and after [deliverDue], show it
    of a last iteration and that the iterations that go on prepend to it. *)
Lemma deliverDue_ind k now (P : Flow -> Flow -> Prop) :
  (forall f f', ring_inv k (receiver f) -> started (receiver f) = true ->
     playout_case k now f (false, f') -> P f f') ->
  (forall f f1 f', ring_inv k (receiver f) -> started (receiver f) = true ->
     playout_case k now f (true, f1) -> ring_inv k (receiver f1) -> P f1 f' -> P f f') ->
  forall f, ring_inv k (receiver f) -> started (receiver f) = true -> P f (deliverDue now f).
Proof.
  intros Hstop Hgo f Hinv Hst. unfold deliverDue. rewrite Hst. simpl.
  destruct (deliver_loop_total k now (deliver_fuel (receiver f)) f Hinv Hst) as [f' Hf'].
  { pose proof (lead_range k _ Hinv Hst). unfold deliver_fuel. fold (lead (receiver f)). lia. }
  rewrite Hf'. simpl. generalize dependent (deliver_fuel (receiver f)). intros fuel Hf'. revert f Hinv Hst Hf'.
  induction fuel as [|fuel IH]; intros f Hinv Hst; cbn [deliver_loop]; [done|].
  pose proof (deliver_step_case k now f Hinv Hst) as Hc. destruct (deliver_step now f) as [b f1].
  destruct (playout_case_inv k now f b f1 Hinv Hst Hc) as (Hinv1 & Hst1 & _).
  destruct b; [|intros [= <-]; by apply Hstop]. intros Hf'. by eapply Hgo; eauto.
Qed.

Lemma deliverDue_inv k now f : ring_inv k (receiver f) -> ring_inv k (receiver (deliverDue now f)).
Proof.
  intros Hinv. destruct (started (receiver f)) eqn:Hst; [|unfold deliverDue; by rewrite Hst].
  revert f Hinv Hst. apply (deliverDue_ind k now (fun _ f' => ring_inv k (receiver f'))); [|done].
  intros f f' Hinv Hst Hc. by destruct (playout_case_inv k now f false f' Hinv Hst Hc).
Qed.

Lemma deliverDue_started now k f :
  ring_inv k (receiver f) -> started (receiver (deliverDue now f)) = started (receiver f).
Proof.
  intros Hinv. destruct (started (receiver f)) eqn:Hst; [|unfold deliverDue; by rewrite Hst].
  revert f Hinv Hst. apply (deliverDue_ind k now (fun _ f' => started (receiver f') = true)); [|done].
  intros f f' Hinv Hst Hc. by destruct (playout_case_inv k now f false f' Hinv Hst Hc) as (_ & ? & _).
Qed.

(** The iterations that suffice: one per sequence up to the newest packet, and the last. *)
Definition loop_bound (r : receiverState) : Z := lead r + 2.

(** ** What one iteration does to the window *)

Lemma window_hole k r j s :
  ring_inv k r -> started r = true -> 0 <= j <= lead r -> hole r j ->
  buffered r (u32 (deliverNext r + j)) = Some s ->
  exists w, window r = s :: w.
Proof.
  intros Hinv Hst Hj Hh Hb. unfold window.
  replace (Z.to_nat (lead r + 1)) with (Z.to_nat j + (1 + Z.to_nat (lead r - j)))%nat by lia.
  rewrite omap_seq_app, omap_None.
  - cbn [seq omap list_omap Nat.add app]. rewrite Nat.add_0_r, Z2Nat.id, Hb by lia. eauto.
  - intros i [_ Hi]%elem_of_seq. apply Hh. lia.
Qed.

Lemma window_empty r : (forall n, buffered r n = None) -> window r = [].
Proof. intros Hn. unfold window. apply omap_None. auto. Qed.

(** Delivery takes the head of the window. *)
Lemma window_emit k f s :
  ring_inv k (receiver f) -> started (receiver f) = true -> lead (receiver f) < 2 ^ k ->
  buffered (receiver f) (deliverNext (receiver f)) = Some s ->
  window (receiver f) = s :: window (receiver (emitDeliver f)).
Proof.
  intros Hinv Hst Hfit Hb. destruct (emitDeliver_ring f s) as (? & ? & ? & ? & ?); [done|].
  pose proof (buffered_ahead k _ Hinv Hst _ _ Hb).
  rewrite (advance_window k _ (receiver (emitDeliver f)) 1) by (done || lia).
  change (Z.to_nat 1) with 1%nat. cbn [seq omap list_omap Z.of_nat].
  rewrite Z.add_0_r, u32_id, Hb by apply Hinv. done.
Qed.

(** Skipping a hole leaves the window as it is. *)
Lemma window_skip k f j :
  ring_inv k (receiver f) -> started (receiver f) = true -> lead (receiver f) < 2 ^ k ->
  0 <= j <= lead (receiver f) -> hole (receiver f) j ->
  window (receiver (skipTo (u32 (deliverNext (receiver f) + j)) f)) = window (receiver f).
Proof.
  intros Hinv Hst Hfit Hj Hh. pose proof (lead_range k _ Hinv Hst).
  destruct (skipTo_ring f j) as (? & ? & ? & ? & ?); [lia|]. symmetry.
  rewrite (advance_window k _ (receiver (skipTo (u32 (deliverNext (receiver f) + j)) f)) j) by (done || lia).
  rewrite omap_None; [done|]. intros i [_ Hi]%elem_of_seq. apply Hh. lia.
Qed.

(** ** Events and counters of one iteration *)

Lemma armPlayout_frame d f :
  events (armPlayout d f) = events f /\ stats (armPlayout d f) = stats f /\
  pendingDiscontinuity (receiver (armPlayout d f)) = pendingDiscontinuity (receiver f).
Proof. unfold armPlayout. by case_match. Qed.

Lemma disarmPlayout_frame f :
  events (disarmPlayout f) = events f /\ stats (disarmPlayout f) = stats f /\
  pendingDiscontinuity (receiver (disarmPlayout f)) = pendingDiscontinuity (receiver f).
Proof. unfold disarmPlayout. by case_match. Qed.

(** The agreement between a flow, the flow [deliverDue] makes of it, and a result of the specification. *)
Definition agrees (f f' : Flow) (p : playout_result) : Prop :=
  pending (events f') = pending (events f) ++ po_events p /\
  deliverNext (receiver f') = po_cursor p /\
  window (receiver f') = po_window p /\
  pendingDiscontinuity (receiver f') = po_pending p /\
  StDelivered (stats f') = u64 (StDelivered (stats f) + zlen (po_events p)) /\
  StLost (stats f') = u64 (StLost (stats f) + po_lost p) /\
  StDiscontinuities (stats f') = u64 (StDiscontinuities (stats f) + po_gaps p).

(** The counters of a flow are uint64 values. *)
Definition stats_typed (s : Stats) : Prop :=
  in_u64 (StDelivered s) /\ in_u64 (StLost s) /\ in_u64 (StDiscontinuities s).

Definition playout_of (now : Z) (f : Flow) : playout_result :=
  playout now (deliverNext (receiver f)) (pendingDiscontinuity (receiver f)) (window (receiver f)).

Lemma agrees_stop f f' :
  stats_typed (stats f) -> events f' = events f -> stats f' = stats f ->
  pendingDiscontinuity (receiver f') = pendingDiscontinuity (receiver f) ->
  deliverNext (receiver f') = deliverNext (receiver f) -> window (receiver f') = window (receiver f) ->
  agrees f f' (mkPlayout [] (deliverNext (receiver f)) 0 0 (pendingDiscontinuity (receiver f)) (window (receiver f))).
Proof.
  intros (H1 & H2 & H3) Ee Es Ep Ed Ew. unfold agrees. rewrite Ee, Es, Ep, Ed, Ew. cbn [po_events po_lost po_gaps zlen length].
  rewrite app_nil_r, !Z.add_0_r, !u64_id by done. done.
Qed.

Lemma emitDeliver_effects f s :
  buffered (receiver f) (deliverNext (receiver f)) = Some s ->
  events (emitDeliver f) = fifo_push (deliver_event (pendingDiscontinuity (receiver f)) s) (events f) /\
  pendingDiscontinuity (receiver (emitDeliver f)) = false /\
  StDelivered (stats (emitDeliver f)) = u64 (StDelivered (stats f) + 1) /\
  StLost (stats (emitDeliver f)) = StLost (stats f) /\
  StDiscontinuities (stats (emitDeliver f)) = StDiscontinuities (stats f).
Proof. unfold buffered. case_match; [|done]. by intros [= <-]. Qed.

Lemma skipTo_effects f j :
  0 <= j < 2 ^ 32 -> let f' := skipTo (u32 (deliverNext (receiver f) + j)) f in
  events f' = events f /\ pendingDiscontinuity (receiver f') = true /\
  StDelivered (stats f') = StDelivered (stats f) /\
  StLost (stats f') = u64 (StLost (stats f) + j) /\
  StDiscontinuities (stats f') = u64 (StDiscontinuities (stats f) + 1).
Proof.
  intros Hj. cbv zeta. unfold skipTo.
  assert (u32 (u32 (deliverNext (receiver f) + j) - deliverNext (receiver f)) = j) as ->
    by (rewrite u32_sub_l; apply u32_eq; [done|exists 0; lia]).
  done.
Qed.

(** The specification on a window that starts with a due packet. *)
Lemma playout_due now c pend s w :
  s_outputTime s <= now ->
  playout now c pend (s :: w) =
    let p := playout now (u32 (s_seq s + 1)) false w in
    mkPlayout (deliver_event (pend || negb (s_seq s =? c)) s :: po_events p) (po_cursor p)
      (u32 (s_seq s - c) + po_lost p) ((if negb (s_seq s =? c) then 1 else 0) + po_gaps p)
      (po_pending p) (po_window p).
Proof. intros Hdue. cbn [playout]. apply Z.ltb_ge in Hdue as ->. done. Qed.

Lemma playout_wait now c pend s w :
  now < s_outputTime s -> playout now c pend (s :: w) = mkPlayout [] c 0 0 pend (s :: w).
Proof. intros Hw. cbn [playout]. apply Z.ltb_lt in Hw as ->. done. Qed.

(** Composing one iteration with what the rest of the loop does. *)
Lemma agrees_prepend f f1 f' p evs lost gaps :
  fifo_wf (events f) ->
  pending (events f1) = pending (events f) ++ evs ->
  StDelivered (stats f1) = u64 (StDelivered (stats f) + zlen evs) ->
  StLost (stats f1) = u64 (StLost (stats f) + lost) ->
  StDiscontinuities (stats f1) = u64 (StDiscontinuities (stats f) + gaps) ->
  agrees f1 f' p ->
  agrees f f' (mkPlayout (evs ++ po_events p) (po_cursor p) (lost + po_lost p) (gaps + po_gaps p)
                 (po_pending p) (po_window p)).
Proof.
  intros Hwf Hev S1 S2 S3 (E1 & E2 & E3 & E4 & E5 & E6 & E7). unfold agrees.
  cbn [po_events po_cursor po_lost po_gaps po_pending po_window]. unfold zlen in *. rewrite length_app.
  rewrite E1, E5, E6, E7, Hev, S1, S2, S3, !u64_add_l, <-!app_assoc.
  split_and!; try done; f_equal; lia.
Qed.

(** A delivery is the head of the window, without a gap. *)
Lemma agrees_deliver k now f f' s :
  ring_inv k (receiver f) -> started (receiver f) = true -> lead (receiver f) < 2 ^ k ->
  fifo_wf (events f) -> stats_typed (stats f) ->
  buffered (receiver f) (deliverNext (receiver f)) = Some s -> s_outputTime s <= now ->
  agrees (emitDeliver f) f' (playout_of now (emitDeliver f)) -> agrees f f' (playout_of now f).
Proof.
  intros Hinv Hst Hfit Hwf (T1 & T2 & T3) Hb Hdue.
  destruct (emitDeliver_effects f s Hb) as (He & Hp & S1 & S2 & S3).
  destruct (emitDeliver_ring f s Hb) as (_ & _ & _ & _ & Hd).
  unfold playout_of. rewrite (window_emit k f s Hinv Hst Hfit Hb), playout_due, Hp, Hd by done.
  rewrite (buffered_seq _ _ _ Hb), Z.eqb_refl, Z.sub_diag, orb_false_r. change (u32 0) with 0.
  generalize (window (receiver (emitDeliver f))). intros w Ha. cbv zeta. cbn [negb].
  apply (agrees_prepend f _ f' _ [deliver_event (pendingDiscontinuity (receiver f)) s] 0 0) in Ha; try done.
  - by rewrite He, pending_push.
  - by rewrite S2, Z.add_0_r, u64_id.
  - by rewrite S3, Z.add_0_r, u64_id.
Qed.

(** Skipping a hole in front of a due packet is the gap the specification reports with that packet. *)
Lemma agrees_skip k now f f' j s :
  ring_inv k (receiver f) -> started (receiver f) = true -> lead (receiver f) < 2 ^ k ->
  fifo_wf (events f) -> stats_typed (stats f) ->
  0 < j <= lead (receiver f) -> hole (receiver f) j ->
  buffered (receiver f) (u32 (deliverNext (receiver f) + j)) = Some s -> s_outputTime s <= now ->
  agrees (skipTo (u32 (deliverNext (receiver f) + j)) f) f'
    (playout_of now (skipTo (u32 (deliverNext (receiver f) + j)) f)) ->
  agrees f f' (playout_of now f).
Proof.
  intros Hinv Hst Hfit Hwf (T1 & T2 & T3) Hj Hh Hb Hdue. pose proof (lead_range k _ Hinv Hst).
  destruct (skipTo_effects f j ltac:(lia)) as (He & Hp & S1 & S2 & S3).
  destruct (skipTo_ring f j ltac:(lia)) as (_ & _ & _ & _ & Hd).
  pose proof (buffered_seq _ _ _ Hb) as Hseq.
  assert (Hj' : u32 (s_seq s - deliverNext (receiver f)) = j)
    by (rewrite Hseq, u32_sub_l; apply u32_eq; [unfold in_u32; lia|exists 0; lia]).
  assert (Hne : (s_seq s =? deliverNext (receiver f)) = false)
    by (apply Z.eqb_neq; intros E; rewrite E, Z.sub_diag in Hj'; change (u32 0) with 0 in Hj'; lia).
  unfold playout_of. rewrite (window_skip k f j Hinv Hst Hfit) by (done || lia).
  destruct (window_hole k _ j s Hinv Hst ltac:(lia) Hh Hb) as [w ->].
  rewrite Hp, Hd, !playout_due, <-Hseq, Z.eqb_refl, Z.sub_diag, Hne, Hj', orb_true_r by done.
  change (u32 0) with 0. cbv zeta. generalize (playout now (u32 (s_seq s + 1)) false w). intros p. cbn [negb orb].
  rewrite Hseq. intros Ha. apply (agrees_prepend f _ f' _ [] j 1) in Ha; try done.
  - by rewrite He, app_nil_r.
  - by rewrite S1, Z.add_0_r, u64_id.
Qed.

(** ** Properties *)

(** C11: Playout terminates: the loop of deliverDue returns from every started state of the ring
    invariant, within the distance to the newest packet plus two iterations, and more fuel does not
    change the result. *)
Theorem deliverDue_terminates k now f :
  ring_inv k (receiver f) -> started (receiver f) = true ->
  exists f', deliverDue now f = f' /\
    forall fuel, loop_bound (receiver f) <= Z.of_nat fuel -> deliver_loop fuel now f = Some f'.
Proof.
  unfold loop_bound. intros Hinv Hst. set (n := Z.to_nat (lead (receiver f) + 2)).
  pose proof (lead_range k _ Hinv Hst).
  destruct (deliver_loop_total k now n f Hinv Hst) as [f' Hf']; [lia|]. exists f'. split.
  - unfold deliverDue. rewrite Hst. simpl.
    rewrite (deliver_loop_mono now n _ f f'); [done|done|]. unfold deliver_fuel. fold (lead (receiver f)). lia.
  - intros fuel Hfuel. apply (deliver_loop_mono now n); [done|lia].
Qed.

(** C3: Playout refines its specification: while the span from the cursor to the newest packet fits the
    ring, deliverDue delivers exactly the longest due prefix of the buffered packets in
    sequence order, flags a discontinuity exactly at a gap, counts exactly the
    skipped sequences as lost, and leaves the rest of the window buffered. *)
Theorem deliverDue_refines k now f :
  ring_inv k (receiver f) -> started (receiver f) = true -> lead (receiver f) < 2 ^ k ->
  fifo_wf (events f) -> stats_typed (stats f) ->
  agrees f (deliverDue now f) (playout_of now f).
Proof.
  intros Hinv Hst. revert f Hinv Hst.
  apply (deliverDue_ind k now (fun f f' => lead (receiver f) < 2 ^ k -> fifo_wf (events f) ->
    stats_typed (stats f) -> agrees f f' (playout_of now f))).
  - intros f f' Hinv Hst Hc Hfit Hwf Hty. inv Hc as [j s Hj Hh Hb Ho| | |Hn| ].
    + destruct (armPlayout_ring (s_outputTime s) f) as (? & ? & ? & ? & ?).
      destruct (armPlayout_frame (s_outputTime s) f) as (? & ? & ?).
      destruct (window_hole k _ j s Hinv Hst Hj Hh Hb) as [w Hw].
      unfold playout_of. rewrite Hw, playout_wait, <-Hw by done. apply agrees_stop; try done. by apply window_ext.
    + destruct (disarmPlayout_ring f) as (? & ? & ? & ? & ?). destruct (disarmPlayout_frame f) as (? & ? & ?).
      unfold playout_of. rewrite window_empty by done. cbn [playout].
      rewrite <-(window_empty _ Hn). apply agrees_stop; try done. by apply window_ext.
  - intros f f1 f' Hinv Hst Hc Hinv1 Ha Hfit Hwf Hty.
    destruct (playout_case_inv k now f true f1 Hinv Hst Hc) as (_ & _ & Hlt). specialize (Hlt eq_refl).
    inv Hc as [|s Hb Ho|j s Hj Hjk Hh Hb Ho| |Hlap Hh].
    + eapply agrees_deliver; try done. destruct (emitDeliver_effects f s Hb) as (He & _ & S1 & S2 & S3).
      apply Ha; [lia|rewrite He; by apply fifo_push_wf|].
      destruct Hty as (? & ? & ?). unfold stats_typed. rewrite S1, S2, S3. auto with goint.
    + eapply agrees_skip; try done. pose proof (lead_range k _ Hinv Hst).
      destruct (skipTo_effects f j ltac:(lia)) as (He & _ & S1 & S2 & S3). apply Ha; [lia|by rewrite He|].
      destruct Hty as (? & ? & ?). unfold stats_typed. rewrite S1, S2, S3. auto with goint.
    + lia.
Qed.
