(* ===== verification/FeedInv.v ===== *)
(** * The invariant of the receiver half, and that ingestion keeps it

    [recv_inv] collects what every handler of the receiver relies on: the ring
    invariant, the agreement of the missing queue with its counter and its bound, the NACK
    budget of each queued entry, and that a timer is armed whenever there is
    work for it.  This file proves it of [feed] and of the small handlers. *)

From S2P Require Import Prelude GoFloat Seq Clock Wire Rtt FlowTypes Congestion Receiver Window Playout.

(** ** Definitions *)

(** An entry has been NACKed between zero and MaxRetries times. *)
Definition entry_ok (c : Config) (e : missingEntry) : Prop :=
  in_u32 (me_seq e) /\ 0 <= nackCount e <= Z.max 0 (MaxRetries c).

Definition empty_ring (r : receiverState) : Prop := forall n, buffered r n = None.

Record recv_core (k : Z) (f : Flow) : Prop := {
  rv_ring : ring_inv k (receiver f);
  rv_lastFound : in_u32 (lastFound (receiver f));
  rv_max : 0 <= missingCounterMax f < 2 ^ 32;
  rv_retries : MaxRetries (cfg f) < 2 ^ 62;
  rv_count : missingCount (receiver f) = zlen (missing (receiver f));
  rv_bound : missingCount (receiver f) <= missingCounterMax f + 1;
  rv_entries : Forall (entry_ok (cfg f)) (missing (receiver f));
  rv_idle : started (receiver f) = false -> missing (receiver f) = [];
  rv_events : fifo_wf (events f);
  rv_outputs : fifo_wf (outputs f) }.

Record recv_inv (k : Z) (f : Flow) : Prop := {
  rv_core :> recv_core k f;
  rv_nack : missing (receiver f) <> [] -> nackArmed (receiver f) = true;
  rv_playout : playoutArmed (receiver f) = true \/ empty_ring (receiver f) }.

(** The fields of the flow a handler leaves alone, apart from timers, counters and effects. *)
Record same_core (f f' : Flow) : Prop := {
  sc_cfg : cfg f' = cfg f;
  sc_max : missingCounterMax f' = missingCounterMax f;
  sc_ring : ring (receiver f') = ring (receiver f);
  sc_mask : mask (receiver f') = mask (receiver f);
  sc_started : started (receiver f') = started (receiver f);
  sc_cursor : deliverNext (receiver f') = deliverNext (receiver f);
  sc_highest : highest (receiver f') = highest (receiver f);
  sc_events : events f' = events f }.

#[export] Instance same_core_preorder : PreOrder same_core.
Proof. split; [by intros f; split|]. intros f g h [] []. split; congruence. Qed.

Lemma same_core_ring_inv k f f' : same_core f f' -> ring_inv k (receiver f) -> ring_inv k (receiver f').
Proof. intros []. by apply ring_inv_ext. Qed.

Lemma same_core_buffered f f' n : same_core f f' -> buffered (receiver f') n = buffered (receiver f) n.
Proof. intros []. by apply buffered_ext. Qed.

(** ** Small handlers *)

Ltac solve_same := split; repeat case_match; done.

Lemma armPlayout_same d f : same_core f (armPlayout d f).
Proof. unfold armPlayout. solve_same. Qed.

Lemma disarmPlayout_same f : same_core f (disarmPlayout f).
Proof. unfold disarmPlayout. solve_same. Qed.

Lemma scheduleNack_same now f : same_core f (scheduleNack now f).
Proof. unfold scheduleNack. solve_same. Qed.

Lemma addMissing_same now path m t f : same_core f (addMissing now path m t f).
Proof. split; done. Qed.

Lemma markMissing_loop_same fuel now path cur ip m t cnt f :
  same_core f (markMissing_loop fuel now path cur ip m t cnt f).
Proof.
  revert m t cnt f. induction fuel as [|fuel IH]; intros m t cnt f; cbn [markMissing_loop]; [done|].
  destruct (m =? cur); [done|]. destruct (_ <? _); [done|].
  destruct (_ =? _); [apply addMissing_same|]. etrans; [apply addMissing_same|apply IH].
Qed.

Lemma markMissing_cases now path cur t f :
  markMissing now path cur t f = f \/
  exists fuel ip t0, markMissing now path cur t f =
    markMissing_loop fuel now path cur ip (u32 (lastFound (receiver f) + 1)) t0 1 f.
Proof.
  unfold markMissing. destruct (NoRecovery _); [by left|]. destruct (_ <? u32 _); [by left|].
  destruct (u32 _ =? 0); [by left|]. right. eauto.
Qed.

Lemma markMissing_same now path cur t f : same_core f (markMissing now path cur t f).
Proof.
  destruct (markMissing_cases now path cur t f) as [->|(? & ? & ? & ->)]; [done|].
  apply markMissing_loop_same.
Qed.

Lemma armPlayout_armed d f : playoutArmed (receiver (armPlayout d f)) = true.
Proof. unfold armPlayout. destruct (playoutArmed (receiver f)) eqn:E; simpl; [case_match|]; done. Qed.

(** [armPlayout] and [scheduleNack] only touch their timer and the effect queue. *)
Lemma armPlayout_missing d f :
  let r := receiver f in let r' := receiver (armPlayout d f) in
  missing r' = missing r /\ missingCount r' = missingCount r /\ nackArmed r' = nackArmed r /\ lastFound r' = lastFound r.
Proof. cbv zeta. unfold armPlayout. by case_match. Qed.

Lemma armPlayout_outputs d f : fifo_wf (outputs f) -> fifo_wf (outputs (armPlayout d f)).
Proof. unfold armPlayout. case_match; [done|]. apply fifo_push_wf. Qed.

Lemma scheduleNack_missing now f :
  let r := receiver f in let r' := receiver (scheduleNack now f) in
  missing r' = missing r /\ missingCount r' = missingCount r /\ playoutArmed r' = playoutArmed r /\ lastFound r' = lastFound r.
Proof. cbv zeta. unfold scheduleNack. by case_match. Qed.

Lemma scheduleNack_outputs now f : fifo_wf (outputs f) -> fifo_wf (outputs (scheduleNack now f)).
Proof. unfold scheduleNack. case_match; [done|]. apply fifo_push_wf. Qed.

Lemma scheduleNack_armed now f :
  missingCount (receiver f) = zlen (missing (receiver f)) ->
  missing (receiver f) <> [] -> nackArmed (receiver (scheduleNack now f)) = true.
Proof.
  intros Hc Hm. unfold scheduleNack. destruct (nackArmed (receiver f)) eqn:E; [by rewrite orb_true_r|].
  rewrite Hc, orb_false_r. destruct (Z.eqb_spec (zlen (missing (receiver f))) 0) as [E0|]; [|done].
  unfold zlen in E0. destruct (missing (receiver f)); [done|]. simpl in E0. lia.
Qed.

(** ** Missing detection *)

Lemma markMissing_loop_missing fuel now path cur ip m t cnt f :
  in_u32 m -> 0 <= missingCounterMax f < 2 ^ 32 ->
  missingCount (receiver f) = zlen (missing (receiver f)) ->
  missingCount (receiver f) <= missingCounterMax f + 1 ->
  let f' := markMissing_loop fuel now path cur ip m t cnt f in
  exists es, missing (receiver f') = missing (receiver f) ++ es /\
    Forall (fun e => in_u32 (me_seq e) /\ nackCount e = 0) es /\
    missingCount (receiver f') = zlen (missing (receiver f')) /\
    missingCount (receiver f') <= missingCounterMax f + 1 /\
    lastFound (receiver f') = lastFound (receiver f) /\ outputs f' = outputs f /\
    playoutArmed (receiver f') = playoutArmed (receiver f) /\ lastPath (receiver f') = lastPath (receiver f).
Proof.
  revert m t cnt f. induction fuel as [|fuel IH]; intros m t cnt f Hm Hmax Hc Hb; cbv zeta; cbn [markMissing_loop].
  { exists []. by rewrite app_nil_r. }
  destruct (m =? cur); [exists []; by rewrite app_nil_r|].
  destruct (Z.ltb_spec (missingCounterMax f) (missingCount (receiver f))) as [Hlt|Hge];
    [exists []; by rewrite app_nil_r|].
  set (f1 := addMissing now path m (Timestamp.Add t ip) f).
  assert (H1 : exists e, missing (receiver f1) = missing (receiver f) ++ [e] /\ me_seq e = m /\ nackCount e = 0
    /\ missingCount (receiver f1) = missingCount (receiver f) + 1).
  { eexists. split; [done|]. split_and!; try done.
    change (missingCount (receiver f1)) with (i64 (missingCount (receiver f) + 1)).
    assert (0 <= missingCount (receiver f)) by (rewrite Hc; unfold zlen; lia). nowrap. done. }
  destruct H1 as (e & He & Hes & Hen & Hec).
  assert (Hc1 : missingCount (receiver f1) = zlen (missing (receiver f1)))
    by (rewrite Hec, He, Hc; unfold zlen; rewrite length_app; simpl; lia).
  destruct (u64 (cnt + 1) =? _).
  - exists [e]. split_and!; try done; [|rewrite Hec; lia]. apply Forall_singleton. by rewrite Hes.
  - destruct (IH (u32 (m + 1)) (Timestamp.Add t ip) (u64 (cnt + 1)) f1) as (es & E1 & E2 & E3 & E4 & E5 & E6 & E7 & E8).
    { apply u32_range. } { done. } { done. } { rewrite Hec. change (missingCounterMax f1) with (missingCounterMax f). lia. }
    exists (e :: es). split_and!; try done.
    + rewrite E1, He, <-app_assoc. done.
    + constructor; [by rewrite Hes|done].
Qed.

Lemma markMissing_missing now path cur t f :
  0 <= missingCounterMax f < 2 ^ 32 ->
  missingCount (receiver f) = zlen (missing (receiver f)) ->
  missingCount (receiver f) <= missingCounterMax f + 1 ->
  let f' := markMissing now path cur t f in
  exists es, missing (receiver f') = missing (receiver f) ++ es /\
    Forall (fun e => in_u32 (me_seq e) /\ nackCount e = 0) es /\
    missingCount (receiver f') = zlen (missing (receiver f')) /\
    missingCount (receiver f') <= missingCounterMax f + 1 /\
    lastFound (receiver f') = lastFound (receiver f) /\ outputs f' = outputs f /\
    playoutArmed (receiver f') = playoutArmed (receiver f) /\ lastPath (receiver f') = lastPath (receiver f).
Proof.
  intros Hmax Hc Hb. cbv zeta. destruct (markMissing_cases now path cur t f) as [->|(? & ? & ? & ->)].
  - exists []. by rewrite app_nil_r.
  - apply markMissing_loop_missing; [apply u32_range|done..].
Qed.

(** ** Inserting one packet *)

(** An update that changes neither the buffer nor the missing queue keeps the invariant. *)
Lemma recv_core_frame k f f' :
  recv_core k f -> same_core f f' ->
  missing (receiver f') = missing (receiver f) -> missingCount (receiver f') = missingCount (receiver f) ->
  lastFound (receiver f') = lastFound (receiver f) -> fifo_wf (outputs f') -> recv_core k f'.
Proof.
  intros Hi Hsc E1 E2 E5 Hout. pose proof Hsc as [Hc Hm ? ? Hs ? ? Hev]. pose proof Hi as [].
  split; rewrite ?E1, ?E2, ?E5, ?Hev, ?Hc, ?Hm, ?Hs; try done. by eapply same_core_ring_inv.
Qed.

Lemma recv_inv_frame k f f' :
  recv_inv k f -> same_core f f' ->
  missing (receiver f') = missing (receiver f) -> missingCount (receiver f') = missingCount (receiver f) ->
  nackArmed (receiver f') = nackArmed (receiver f) -> playoutArmed (receiver f') = playoutArmed (receiver f) ->
  lastFound (receiver f') = lastFound (receiver f) -> fifo_wf (outputs f') -> recv_inv k f'.
Proof.
  intros [Hi Hn Hp] Hsc E1 E2 E3 E4 E5 Hout. split; [by eapply recv_core_frame|by rewrite E1, E3|].
  rewrite E4. destruct Hp as [?|He]; [by left|right]. intros n. rewrite (same_core_buffered f) by done. apply He.
Qed.

(** Arming both timers restores the invariant. *)
Lemma arm_inv k now d f : recv_core k f -> recv_inv k (scheduleNack now (armPlayout d f)).
Proof.
  intros Hi. destruct (armPlayout_missing d f) as (M1 & M2 & _ & M4).
  destruct (scheduleNack_missing now (armPlayout d f)) as (N1 & N2 & N3 & N4). split.
  - apply (recv_core_frame k f); [done|etrans; [apply armPlayout_same|apply scheduleNack_same]|congruence..|].
    apply scheduleNack_outputs, armPlayout_outputs, Hi.
  - rewrite N1. intros Hm. apply scheduleNack_armed; [|done]. rewrite M2, M1. apply Hi.
  - left. rewrite N3. apply armPlayout_armed.
Qed.

(** Storing a packet the cursor has not passed keeps the ring invariant, with [highest] the farther of the two. *)
Lemma insert_ring_inv k r s :
  ring_inv k r -> started r = true -> in_u32 (s_seq s) -> s_state s = slotFilled ->
  Num32.Less (s_seq s) (deliverNext r) = false ->
  let r1 := set_slot (s_seq s) s r in
  ring_inv k (if Num32.Less (highest r) (s_seq s) then r1 <| highest := s_seq s |> else r1).
Proof.
  intros Hinv Hst Hn Hf Hless. cbv zeta. pose proof (lead_range k r Hinv Hst) as Hl.
  destruct (lead_spec r (ri_highest _ _ Hinv)) as [Hhigh _].
  set (a := ahead r (s_seq s)). assert (Ha : s_seq s = u32 (deliverNext r + a)) by (by apply ahead_seq).
  assert (Ha31 : 0 <= a < 2 ^ 31).
  { split; [apply u32_range|]. pose proof (u32_range (s_seq s - deliverNext r)). unfold Num32.Less, less in Hless.
    rewrite (half_eq 32) in Hless. change (uwrap 32) with u32 in Hless. unfold a, ahead. pose proof (ri_cursor _ _ Hinv).
    destruct (Z.eqb_spec (u32 (deliverNext r - s_seq s)) 0); destruct (Z.leb_spec (u32 (deliverNext r - s_seq s)) (2 ^ (32 - 1)));
      simpl in Hless; try done; u32_lia. }
  assert (Hfar : Num32.Less (highest r) (s_seq s) = (lead r <? a)).
  { unfold Num32.Less. rewrite (less_distance 32), (distance_unique 32 _ _ (a - lead r)); [case_cmp; lia|lia|done|].
    change (uwrap 32) with u32. rewrite <-Hhigh, u32_add_l, Ha. f_equal. lia. }
  assert (Hr1 : ring_shape k (set_slot (s_seq s) s r) /\ ring_home (set_slot (s_seq s) s r)).
  { split; [apply set_slot_shape, Hinv|]. eapply set_slot_home; [apply Hinv..|done]. }
  destruct Hr1 as [Hsh Hho].
  assert (Hb : forall n t, buffered (set_slot (s_seq s) s r) n = Some t -> ahead r n <= Z.max (lead r) a).
  { intros n t. rewrite (buffered_set_slot k) by apply Hinv. case_decide as E.
    - destruct (holds s n) eqn:Eh; [|done]. intros _. apply holds_true in Eh as [_ <-]. fold a. lia.
    - intros Hbn. pose proof (buffered_ahead k r Hinv Hst _ _ Hbn). lia. }
  rewrite Hfar. destruct (Z.ltb_spec (lead r) a) as [Hlt|Hge].
  - set (r' := set_slot (s_seq s) s r <| highest := s_seq s |>).
    assert (Hlead : lead r' = a).
    { unfold lead, Num32.Distance. apply distance_unique; [apply numeric_32|lia|done|].
      change (uwrap 32) with u32. symmetry. exact Ha. }
    split; [exact Hsh|exact Hho|apply Hinv|done|]. unfold ring_window. change (started r') with (started r).
    rewrite Hst, Hlead. split; [lia|]. intros n t Hn'. specialize (Hb n t Hn'). change (ahead r' n) with (ahead r n). lia.
  - split; [exact Hsh|exact Hho|apply Hinv|apply Hinv|]. unfold ring_window. change (started (set_slot _ _ r)) with (started r).
    rewrite Hst. change (lead (set_slot (s_seq s) s r)) with (lead r). split; [lia|].
    intros n t Hn'. specialize (Hb n t Hn'). change (ahead (set_slot (s_seq s) s r) n) with (ahead r n). lia.
Qed.

(** The timer flags two flows share. *)
Definition same_timers (f f' : Flow) : Prop :=
  playoutArmed (receiver f') = playoutArmed (receiver f) /\ nackArmed (receiver f') = nackArmed (receiver f).

(** ** The steps of feed *)

Ltac frame :=
  match goal with H : recv_inv ?k ?f |- recv_inv ?k _ =>
    eapply (recv_inv_frame k f); [exact H|split; done|done..|first [by apply (rv_outputs k f), H|apply fifo_push_wf; by apply (rv_outputs k f), H]]
  end.

Lemma feed_ips_inv k now f : recv_inv k f -> recv_inv k (feed_ips now f).
Proof. intros H. unfold feed_ips. destruct (started (receiver f)); frame. Qed.

Lemma feed_framing_change_inv k now pkt f : recv_inv k f -> recv_inv k (feed_framing_change now pkt f).
Proof. intros H. unfold feed_framing_change. destruct (_ && _ && _); [frame|done]. Qed.

Lemma too_late_inv k pkt f : recv_inv k f -> recv_inv k (too_late pkt f).
Proof. intros H. unfold too_late. destruct (Retransmit pkt); frame. Qed.

Lemma feed_track_inv k pkt t f : recv_inv k f -> recv_inv k (feed_track pkt t f).
Proof. intros H. unfold feed_track. destruct (_ <? _); [frame|done]. Qed.

Lemma feed_packet_time_inv k now pkt f : recv_inv k f -> recv_inv k (feed_packet_time now pkt f).2.
Proof.
  intros H. unfold feed_packet_time. destruct (bool_decide _); [done|].
  destruct (wraps_back now pkt f); cbn [snd]; [frame|done].
Qed.

Lemma zeroed_buffered r n : buffered (r <| ring ::= fmap (fun _ => slot_zero) |>) n = None.
Proof.
  unfold buffered, slot_at. set (r' := upd _ _ _). change (ring r') with ((fun _ => slot_zero) <$> ring r).
  rewrite list_lookup_fmap. by destruct (ring r !! _).
Qed.

(** A reset empties the buffer and the missing queue, and keeps the ring. *)
Lemma resetReceiver_frame f :
  let f' := resetReceiver f in
  ring (receiver f') = (fun _ => slot_zero) <$> ring (receiver f) /\ mask (receiver f') = mask (receiver f) /\
  started (receiver f') = false /\ deliverNext (receiver f') = deliverNext (receiver f) /\
  highest (receiver f') = highest (receiver f) /\ lastFound (receiver f') = lastFound (receiver f) /\
  missing (receiver f') = [] /\ missingCount (receiver f') = 0 /\ cfg f' = cfg f /\
  missingCounterMax f' = missingCounterMax f /\ events f' = events f /\ outputs f' = outputs f.
Proof. by split_and!. Qed.

Lemma resetReceiver_inv k f : recv_inv k f -> recv_inv k (resetReceiver f).
Proof.
  intros [[[Hsh _ Hc Hh _] ?] _ _].
  destruct (resetReceiver_frame f) as (E1 & E2 & E3 & E4 & E5 & E6 & E7 & E8 & E9 & E10 & E11 & E12).
  generalize dependent (resetReceiver f). intros f' E1 E2 E3 E4 E5 E6 E7 E8 E9 E10 E11 E12.
  assert (Hn : forall n, buffered (receiver f') n = None).
  { intros n. rewrite (buffered_ext (receiver f <| ring ::= fmap (fun _ => slot_zero) |>)) by done. apply zeroed_buffered. }
  split; [|by rewrite E7|by right]. split; rewrite ?E3, ?E6, ?E7, ?E8, ?E9, ?E10, ?E11, ?E12; try done; try lia.
  split; [| |by rewrite E4|by rewrite E5|unfold ring_window; by rewrite E3].
  - unfold ring_shape, zlen in *. by rewrite E1, E2, length_fmap.
  - intros i s Hl. rewrite E1, list_lookup_fmap in Hl. by destruct (ring (receiver f) !! i); simplify_eq/=.
Qed.

Lemma feed_flow_change_inv k pkt f : recv_inv k f -> recv_inv k (feed_flow_change pkt f).
Proof.
  intros H. unfold feed_flow_change. destruct (_ && _ && _); [|done].
  apply resetReceiver_inv in H. frame.
Qed.

(** [start] writes the anchor and the packet, arms the playout timer, and perhaps the echo timer. *)
Lemma start_split now path pkt f :
  let d := Timestamp.Add now (recoveryBuffer f) in
  exists f0, (start now path pkt f = armPlayout d f0 \/ exists o, start now path pkt f = emit o (armPlayout d f0)) /\
    same_timers f f0 /\
    ring (receiver f0) = ring (set_slot (Seq pkt) (packet_slot now path pkt now d) (receiver f)) /\
    mask (receiver f0) = mask (receiver f) /\ started (receiver f0) = true /\
    deliverNext (receiver f0) = Seq pkt /\ highest (receiver f0) = Seq pkt /\ lastFound (receiver f0) = Seq pkt /\
    missing (receiver f0) = missing (receiver f) /\ missingCount (receiver f0) = missingCount (receiver f) /\
    cfg f0 = cfg f /\ missingCounterMax f0 = missingCounterMax f /\ events f0 = events f /\ outputs f0 = outputs f.
Proof.
  cbv zeta. unfold start. cbv zeta. set (f0 := count_by _ _ _). exists f0. split; [|by unfold same_timers].
  destruct (NoRecovery _); eauto.
Qed.

(** The first packet anchors the flow: it is the only one buffered, at the cursor. *)
Lemma start_inv k now path pkt f :
  recv_inv k f -> started (receiver f) = false -> in_u32 (Seq pkt) -> recv_inv k (start now path pkt f).
Proof.
  intros Hi Hst Hseq. pose proof Hi as [[Hr ?] _ _].
  set (s := packet_slot now path pkt now (Timestamp.Add now (recoveryBuffer f))).
  set (f1 := start now path pkt f).
  assert (Hm : missing (receiver f) = []) by auto.
  assert (Hb : forall n, buffered (receiver f) n = None) by (destruct Hr as [_ _ _ _ Hw]; unfold ring_window in Hw; by rewrite Hst in Hw).
  assert (E : ring (receiver f1) = ring (set_slot (Seq pkt) s (receiver f)) /\ mask (receiver f1) = mask (receiver f) /\
    started (receiver f1) = true /\ deliverNext (receiver f1) = Seq pkt /\ highest (receiver f1) = Seq pkt /\
    lastFound (receiver f1) = Seq pkt /\ missing (receiver f1) = missing (receiver f) /\
    missingCount (receiver f1) = missingCount (receiver f) /\ cfg f1 = cfg f /\
    missingCounterMax f1 = missingCounterMax f /\ events f1 = events f /\ playoutArmed (receiver f1) = true /\
    fifo_wf (outputs f1)).
  { destruct (start_split now path pkt f) as (f0 & E0 & Hd & H1 & H2 & H3 & H4 & H5 & H6 & H7 & H8 & H9 & H10 & H11 & H12).
    fold f1 in E0. fold s in H1. set (d := Timestamp.Add now (recoveryBuffer f)) in *.
    destruct (armPlayout_same d f0) as [C1 C2 C3 C4 C5 C6 C7 C8].
    destruct (armPlayout_missing d f0) as (M1 & M2 & _ & M4). pose proof (armPlayout_armed d f0) as Ha.
    assert (Hout : fifo_wf (outputs (armPlayout d f0))) by (apply armPlayout_outputs; by rewrite H12).
    destruct E0 as [-> | [o ->]]; [split_and!; congruence|].
    change (receiver (emit o ?g)) with (receiver g). change (cfg (emit o ?g)) with (cfg g).
    change (missingCounterMax (emit o ?g)) with (missingCounterMax g). change (events (emit o ?g)) with (events g).
    split_and!; try congruence. by apply fifo_push_wf. }
  destruct E as (E1 & E2 & E3 & E4 & E5 & E6 & E7 & E8 & E9 & E10 & E11 & E12 & E13).
  split; [|by rewrite E7|by left]. split; rewrite ?E3, ?E6, ?E7, ?E8, ?E9, ?E10, ?E11; try done.
  assert (Hsl := set_slot_shape k (Seq pkt) s _ (ri_shape _ _ Hr)).
  assert (Hho : ring_home (set_slot (Seq pkt) s (receiver f))) by (eapply set_slot_home; [apply Hr..|done]).
  split.
  - unfold ring_shape in *. by rewrite E1, E2.
  - unfold ring_home, ridx in *. by rewrite E1, E2.
  - by rewrite E4.
  - by rewrite E5.
  - unfold ring_window. rewrite E3. assert (Hl : lead (receiver f1) = 0).
    { unfold lead. rewrite E4, E5. apply distance_unique; [apply numeric_32|lia|done|]. change (uwrap 32) with u32. by rewrite Z.add_0_r, u32_id. }
    rewrite Hl. split; [lia|]. intros n t. rewrite (buffered_ext (set_slot (Seq pkt) s (receiver f))) by done.
    rewrite (buffered_set_slot k) by apply Hr. rewrite Hb. case_decide; [|done].
    destruct (holds s n) eqn:Eh; [|done]. intros _. apply holds_true in Eh as [_ <-].
    unfold ahead. rewrite E4. change (s_seq s) with (Seq pkt). by rewrite Z.sub_diag.
Qed.

(** What [feed_store] leaves of the flow. *)
Lemma feed_store_frame now path pkt t ot ooo f :
  let r1 := set_slot (Seq pkt) (packet_slot now path pkt t ot) (receiver f) in
  let r2 := if Num32.Less (highest (receiver f)) (Seq pkt) then r1 <| highest := Seq pkt |> else r1 in
  let f' := feed_store now path pkt t ot ooo f in
  receiver f' = r2 <| lastPath := path |> /\ cfg f' = cfg f /\ missingCounterMax f' = missingCounterMax f /\
  events f' = events f /\ outputs f' = outputs f /\ est f' = est f /\ recoveryBuffer f' = recoveryBuffer f.
Proof.
  cbv zeta. unfold feed_store. destruct (filled _), ooo; cbv zeta;
    change (highest (receiver (count_by ?g ?n ?x))) with (highest (receiver x));
    destruct (Num32.Less (highest (receiver f)) (Seq pkt)) eqn:E;
    (destruct (Num32.Less (highest (receiver _)) (Seq pkt)) eqn:E2; [|]; try by (split_and!; done)); exfalso;
    match type of E2 with Num32.Less ?x _ = _ => change x with (highest (receiver f)) in E2 end; congruence.
Qed.

Lemma feed_store_started now path pkt t ot ooo f :
  started (receiver (feed_store now path pkt t ot ooo f)) = started (receiver f).
Proof.
  destruct (feed_store_frame now path pkt t ot ooo f) as (-> & _).
  by destruct (Num32.Less (highest (receiver f)) (Seq pkt)).
Qed.

Lemma feed_store_core k now path pkt t ot ooo f :
  recv_core k f -> started (receiver f) = true -> in_u32 (Seq pkt) ->
  Num32.Less (Seq pkt) (deliverNext (receiver f)) = false ->
  recv_core k (feed_store now path pkt t ot ooo f).
Proof.
  intros Hi Hst Hseq Hless.
  destruct (feed_store_frame now path pkt t ot ooo f) as (Er & Ec & Em & Ee & Eo & _). pose proof Hi as [Hr ?].
  pose proof (insert_ring_inv k (receiver f) (packet_slot now path pkt t ot) Hr Hst Hseq eq_refl Hless) as Hri.
  cbv zeta in Hri. change (s_seq (packet_slot now path pkt t ot)) with (Seq pkt) in Hri.
  assert (Hf : let r2 := receiver (feed_store now path pkt t ot ooo f) in
    lastFound r2 = lastFound (receiver f) /\ missing r2 = missing (receiver f) /\
    missingCount r2 = missingCount (receiver f) /\ started r2 = true /\ ring_inv k r2).
  { cbv zeta. rewrite Er. destruct (Num32.Less (highest (receiver f)) (Seq pkt));
      (split_and!; [done..|]; eapply ring_inv_ext; [..|exact Hri]; done). }
  destruct Hf as (F1 & F2 & F3 & F4 & F5).
  split; rewrite ?F1, ?F2, ?F3, ?F4, ?Ec, ?Em, ?Ee, ?Eo; try done.
Qed.

Lemma entry_fresh c e : in_u32 (me_seq e) /\ nackCount e = 0 -> entry_ok c e.
Proof. intros [? E]. split; [done|rewrite E; lia]. Qed.

Lemma markMissing_core k now path cur t f :
  recv_core k f -> started (receiver f) = true -> recv_core k (markMissing now path cur t f).
Proof.
  intros Hi Hst. pose proof Hi as []. destruct (markMissing_same now path cur t f) as [Ec Em E1 E2 E3 E4 E5 E6].
  destruct (markMissing_missing now path cur t f) as (es & M1 & M2 & M3 & M4 & M5 & M6 & _); [done..|].
  split; rewrite ?Ec, ?Em, ?E3, ?E6, ?M5, ?M6; try done.
  - by eapply ring_inv_ext; [..|apply rv_ring0].
  - rewrite M1. apply Forall_app. split; [done|]. eapply Forall_impl; [exact M2|]. apply entry_fresh.
  - by rewrite Hst.
Qed.

Lemma lastFound_core k n f :
  recv_core k f -> in_u32 n -> recv_core k (on_receiver (fun r => r <| lastFound := n |>) f).
Proof. intros [] Hn. split; try done. by eapply ring_inv_ext; [..|apply rv_ring0]. Qed.

Lemma feed_detect_core k now path pkt t ooo f :
  recv_core k f -> started (receiver f) = true -> in_u32 (Seq pkt) ->
  recv_core k (feed_detect now path pkt t ooo f).
Proof.
  intros Hi Hst Hseq. unfold feed_detect. destruct (Retransmit pkt); [done|].
  destruct ooo; [done|]. cbn [negb andb]. apply lastFound_core; [|done].
  destruct (negb _); [by apply markMissing_core|done].
Qed.

(** A copy of a buffered packet only marks the path it came on. *)
Lemma duplicate_inv k path n f :
  recv_inv k f -> holds (slot_at (receiver f) n) n = true ->
  recv_inv k (on_receiver (set_slot n (slot_at (receiver f) n <| s_pathSeen ::= Z.lor (pathBit path) |>)) f).
Proof.
  intros Hi Hh. pose proof (proj1 (buffered_holds _ _) Hh) as Hb. apply holds_true in Hh as [Hf Hs].
  pose proof Hi as [[[Hsh Hho ? ? Hw] ?] ? Hp]. set (s := slot_at (receiver f) n) in *.
  set (s' := s <| s_pathSeen ::= _ |>).
  assert (Hbuf : forall m t, buffered (set_slot n s' (receiver f)) m = Some t -> exists t0, buffered (receiver f) m = Some t0).
  { intros m t. rewrite (buffered_set_slot k) by done. case_decide; [|eauto].
    destruct (holds s' m) eqn:Em; [|done]. apply holds_true in Em as [_ <-]. change (s_seq s') with (s_seq s). rewrite Hs. eauto. }
  split; [|done|].
  - split; try done. split; try done.
    + by apply set_slot_shape.
    + eapply set_slot_home; [done..|]. intros _. change (s_seq s') with (s_seq s).
      destruct (Hho (ridx (receiver f) n) s) as [? ?]; [by eapply ring_lookup|by unfold filled; rewrite Hf|]. done.
    + unfold ring_window in *. change (started (receiver (on_receiver ?g f))) with (started (receiver f)).
      destruct (started (receiver f)).
      * destruct Hw as [? Hw]. split; [done|]. intros m t Hm. destruct (Hbuf m t Hm) as [t0 Hm0]. by apply (Hw m t0).
      * intros m. by rewrite Hw in Hb.
  - destruct Hp as [?|He]; [by left|]. by rewrite He in Hb.
Qed.

Lemma feed_insert_inv k now path pkt t ooo f :
  recv_inv k f -> started (receiver f) = true -> in_u32 (Seq pkt) ->
  Num32.Less (Seq pkt) (deliverNext (receiver f)) = false ->
  recv_inv k (feed_insert now path pkt t ooo f).
Proof.
  intros Hi Hst Hseq Hless. unfold feed_insert. destruct (holds _ _ && _) eqn:E.
  - apply andb_true_iff in E as [Hh _]. apply (duplicate_inv k path) in Hh; [|done]. cbv zeta.
    generalize dependent (on_receiver (set_slot (Seq pkt) (slot_at (receiver f) (Seq pkt) <| s_pathSeen ::= Z.lor (pathBit path) |>)) f).
    intros f' Hf'. frame.
  - apply arm_inv, feed_detect_core; [apply feed_store_core; [apply Hi|done..]|by rewrite feed_store_started|done].
Qed.

Lemma feed_packet_time_same now pkt f : same_core f (feed_packet_time now pkt f).2.
Proof.
  unfold feed_packet_time. destruct (bool_decide _); [done|]. destruct (wraps_back now pkt f); [split; done|done].
Qed.

Lemma feed_track_same pkt t f : same_core f (feed_track pkt t f).
Proof. unfold feed_track. destruct (_ <? _); [split; done|done]. Qed.

(** What [feed] does once the flow is anchored. *)
Lemma feed_started_inv k now path pkt f :
  recv_inv k f -> started (receiver f) = true -> in_u32 (Seq pkt) ->
  recv_inv k (let '(packetTime, f) := feed_packet_time now pkt f in
    let f := feed_track pkt packetTime f in
    let late := behind_source pkt packetTime f in
    if late && Timestamp.After now (Timestamp.Add packetTime (recoveryBuffer110 f)) then too_late pkt f
    else if Num32.Less (Seq pkt) (deliverNext (receiver f)) then too_late pkt f
    else feed_insert now path pkt packetTime (late && negb (Retransmit pkt)) f).
Proof.
  intros Hi Hst Hseq. pose proof (feed_packet_time_inv k now pkt f Hi) as H1.
  pose proof (sc_started _ _ (feed_packet_time_same now pkt f)) as S1.
  destruct (feed_packet_time now pkt f) as [t f1]. cbn [snd] in H1, S1. cbv zeta.
  pose proof (feed_track_inv k pkt t f1 H1) as H2. pose proof (sc_started _ _ (feed_track_same pkt t f1)) as S2.
  generalize dependent (feed_track pkt t f1). intros f2 H2 S2.
  destruct (_ && Timestamp.After _ _); [by apply too_late_inv|].
  destruct (Num32.Less _ _) eqn:E; [by apply too_late_inv|]. apply feed_insert_inv; [done|congruence|done..].
Qed.

Lemma feed_inv k now path pkt f : recv_inv k f -> in_u32 (Seq pkt) -> recv_inv k (feed now path pkt f).
Proof.
  intros Hi Hseq. unfold feed. apply (feed_ips_inv k now) in Hi. generalize dependent (feed_ips now f). clear f. intros f Hi.
  apply (feed_flow_change_inv k pkt) in Hi. generalize dependent (feed_flow_change pkt f). clear f. intros f Hi.
  apply (feed_framing_change_inv k now pkt) in Hi. generalize dependent (feed_framing_change now pkt f). clear f. intros f Hi.
  destruct (started (receiver f)) eqn:Hst; cbn [negb].
  - assert (H1 : recv_inv k (if Retransmit pkt then count StRetransmittedReceived f else f)) by (destruct (Retransmit pkt); [frame|done]).
    apply (feed_started_inv k now path pkt) in H1; [exact H1|by destruct (Retransmit pkt)|done].
  - destruct (Retransmit pkt); [done|by apply start_inv].
Qed.

(** ** Playout *)

(** The fields playout leaves alone. *)
Record same_nack (f f' : Flow) : Prop := {
  sn_cfg : cfg f' = cfg f;
  sn_max : missingCounterMax f' = missingCounterMax f;
  sn_lastFound : lastFound (receiver f') = lastFound (receiver f);
  sn_missing : missing (receiver f') = missing (receiver f);
  sn_count : missingCount (receiver f') = missingCount (receiver f);
  sn_nackArmed : nackArmed (receiver f') = nackArmed (receiver f);
  sn_started : started (receiver f') = started (receiver f) }.

Lemma skipTo_same n f : same_nack f (skipTo n f).
Proof.
  unfold skipTo. cbv zeta. set (j := Z.to_nat _). clearbody j.
  pose proof (clear_range_frame j (deliverNext (receiver f)) (receiver f)) as E.
  split; try done; simpl; rewrite E; done.
Qed.

(** The invariant without the playout timer, which [deliverDue] leaves as the buffer needs it. *)
Definition pre_playout (k : Z) (f : Flow) : Prop :=
  recv_core k f /\ (missing (receiver f) <> [] -> nackArmed (receiver f) = true).

Lemma pre_playout_step k f f' :
  pre_playout k f -> same_nack f f' -> ring_inv k (receiver f') -> fifo_wf (events f') -> fifo_wf (outputs f') ->
  pre_playout k f'.
Proof.
  intros [[] Hn] [E1 E2 E3 E4 E5 E6 E7] Hr He Ho.
  split; [split|]; rewrite ?E1, ?E2, ?E3, ?E4, ?E5, ?E6, ?E7; done.
Qed.

Lemma emitDeliver_pre k f s :
  buffered (receiver f) (deliverNext (receiver f)) = Some s -> ring_inv k (receiver (emitDeliver f)) ->
  pre_playout k f -> pre_playout k (emitDeliver f).
Proof.
  intros Hb Hr Hp. apply (pre_playout_step k f); [done|split; done|done| |apply Hp].
  destruct (emitDeliver_effects f s Hb) as (-> & _). apply fifo_push_wf, Hp.
Qed.

Lemma skipTo_pre k n f : ring_inv k (receiver (skipTo n f)) -> pre_playout k f -> pre_playout k (skipTo n f).
Proof. intros Hr Hp. apply (pre_playout_step k f); [done|apply skipTo_same|done|apply Hp..]. Qed.

Lemma disarmPlayout_pre k f : pre_playout k f -> pre_playout k (disarmPlayout f).
Proof.
  intros Hp. apply (pre_playout_step k f); [done|unfold disarmPlayout; solve_same| | |].
  - destruct (disarmPlayout_ring f) as (? & ? & ? & ? & ?). eapply ring_inv_ext; [done..|apply Hp].
  - rewrite (sc_events _ _ (disarmPlayout_same f)). apply Hp.
  - unfold disarmPlayout. destruct (negb _); [apply Hp|apply fifo_push_wf, Hp].
Qed.

Lemma armPlayout_pre k d f : pre_playout k f -> pre_playout k (armPlayout d f).
Proof.
  intros Hp. apply (pre_playout_step k f); [done|unfold armPlayout; solve_same| | |].
  - destruct (armPlayout_ring d f) as (? & ? & ? & ? & ?). eapply ring_inv_ext; [done..|apply Hp].
  - rewrite (sc_events _ _ (armPlayout_same d f)). apply Hp.
  - apply armPlayout_outputs, Hp.
Qed.

(** [deliverDue] keeps the invariant, and arms the playout timer exactly while something is buffered. *)
Lemma deliverDue_recv k now f : pre_playout k f -> recv_inv k (deliverDue now f).
Proof.
  intros Hp. destruct (started (receiver f)) eqn:Hst.
  - pose proof (rv_ring _ _ (proj1 Hp)) as Hr. revert f Hr Hst Hp.
    apply (deliverDue_ind k now (fun f f' => pre_playout k f -> recv_inv k f')).
    + intros f f' Hr Hst Hc Hp. inv Hc as [j s _ _ _ _| | |Hn| ].
      * destruct (armPlayout_pre k (s_outputTime s) f Hp). split; [done..|]. left. apply armPlayout_armed.
      * destruct (disarmPlayout_pre k f Hp). split; [done..|]. right. intros n.
        rewrite (same_core_buffered f) by apply disarmPlayout_same. apply Hn.
    + intros f f1 f' Hr Hst Hc Hr1 Ha Hp. apply Ha.
      inv Hc as [|s Hb Ho|j s Hj Hjk Hh Hb Ho| |Hlap Hh]; [by eapply emitDeliver_pre|by apply skipTo_pre..].
  - unfold deliverDue. rewrite Hst. cbn [negb]. destruct Hp as [Hc Hn]. split; [done..|]. right.
    pose proof (ri_window _ _ (rv_ring _ _ Hc)) as Hw. unfold ring_window in Hw. by rewrite Hst in Hw.
Qed.
