(* ===== verification/Missing.v ===== *)
(** * Gap detection: markMissing and addMissing of internal/flow/receiver.go

    On a gap within bounds, exactly the sequences between the last one found and the new one are queued, in
    order, each as a fresh entry whose first request is due half a clamped RTT (at least the
    reorder window) later. *)

From S2P Require Import Prelude GoFloat Seq Clock Wire Rtt FlowTypes Congestion Receiver Window Playout FeedInv.

(** The delay before the first request for a missing packet. *)
Definition first_nack_delay (f : Flow) : Z :=
  let half := Estimator.Clamped (est f) (RTTMin (cfg f)) (RTTMax (cfg f)) /g 2 in
  if half <? ReorderBuffer (cfg f) then ReorderBuffer (cfg f) else half.

(** An entry fresh from the gap detection of [f] at [now]. *)
Definition fresh_entry (now path : Z) (f : Flow) (e : missingEntry) : Prop :=
  me_path e = path /\ nackCount e = 0 /\ nextNack e = Timestamp.Add now (first_nack_delay f) /\
  now - recoveryBuffer f <= insertionTime e <= now.

(** The fields gap detection reads. *)
Definition same_gap (f f' : Flow) : Prop :=
  est f' = est f /\ cfg f' = cfg f /\ recoveryBuffer f' = recoveryBuffer f /\
  missingCounterMax f' = missingCounterMax f /\ ring (receiver f') = ring (receiver f).

Lemma addMissing_spec now path m t f :
  in_i64 (now - recoveryBuffer f) -> 0 <= recoveryBuffer f ->
  -1 <= missingCount (receiver f) < 2 ^ 33 -> let f' := addMissing now path m t f in
  exists e, missing (receiver f') = missing (receiver f) ++ [e] /\ me_seq e = m /\ fresh_entry now path f e /\
    missingCount (receiver f') = missingCount (receiver f) + 1 /\ same_gap f f' /\
    StMissing (stats f') = u64 (StMissing (stats f) + 1).
Proof.
  intros Hr Hrb Hc. cbv zeta. eexists. split; [done|]. split_and!; try done.
  - split_and!; try done; cbn [insertionTime]; unfold Timestamp.After, Timestamp.Before, Timestamp.Add;
      rewrite i64_add_r, Z.add_opp_r, i64_id by done; case_cmp; lia.
  - change (missingCount (receiver (addMissing now path m t f))) with (i64 (missingCount (receiver f) + 1)).
    apply i64_id. unfold in_i64. lia.
Qed.

Lemma same_gap_fresh f f' now path e : same_gap f f' -> fresh_entry now path f' e -> fresh_entry now path f e.
Proof. unfold fresh_entry, first_nack_delay. intros (-> & -> & -> & _). done. Qed.

(** The walk from [a + i] to [a + g] queues exactly the sequences on the way. *)
Lemma markMissing_loop_exact now path ip a g fuel i t f :
  0 < i <= g -> g < 2 ^ 32 -> g - i <= Z.of_nat fuel -> g <= zlen (ring (receiver f)) ->
  in_i64 (now - recoveryBuffer f) -> 0 <= recoveryBuffer f ->
  0 <= missingCount (receiver f) -> missingCount (receiver f) + (g - i) <= missingCounterMax f + 1 ->
  missingCounterMax f < 2 ^ 32 ->
  let f' := markMissing_loop fuel now path (u32 (a + g)) ip (u32 (a + i)) t i f in
  exists es, missing (receiver f') = missing (receiver f) ++ es /\
    me_seq <$> es = (fun j => u32 (a + j)) <$> seqZ i (g - i) /\ Forall (fresh_entry now path f) es /\
    u64 (StMissing (stats f')) = u64 (StMissing (stats f) + (g - i)).
Proof.
  revert i t f. induction fuel as [|fuel IH]; intros i t f Hi Hg Hf Hring Hr Hrb Hc0 Hc Hmax; cbv zeta; cbn [markMissing_loop].
  { assert (i = g) as -> by lia. exists []. rewrite app_nil_r, Z.sub_diag, Z.add_0_r. done. }
  destruct (Z.eqb_spec (u32 (a + i)) (u32 (a + g))) as [E|Hne].
  { assert (i = g) as -> by u32_lia. exists []. rewrite app_nil_r, Z.sub_diag, Z.add_0_r. done. }
  assert (i <> g) by (intros ->; done).
  destruct (Z.ltb_spec (missingCounterMax f) (missingCount (receiver f))); [lia|].
  destruct (addMissing_spec now path (u32 (a + i)) (Timestamp.Add t ip) f) as (e & M1 & M2 & M3 & M4 & M5 & M6); [done..|lia|].
  set (f1 := addMissing now path (u32 (a + i)) (Timestamp.Add t ip) f) in *. clearbody f1.
  pose proof M5 as (G1 & G2 & G3 & G4 & G5). rewrite G5, (u64_id (i + 1)) by (unfold in_u64; lia).
  assert (Hseq : seqZ i (g - i) = i :: seqZ (i + 1) (g - (i + 1)))
    by (rewrite (seqZ_cons i (g - i)) by lia; do 2 f_equal; lia). rewrite Hseq.
  destruct (Z.eqb_spec (i + 1) (zlen (ring (receiver f)))) as [Eb|_].
  - assert (g - (i + 1) = 0) as -> by lia. exists [e]. split_and!; [done|simpl; by rewrite M2|by constructor|].
    rewrite M6, u64_idem. f_equal. lia.
  - rewrite u32_add_l, <-Z.add_assoc.
    destruct (IH (i + 1) (Timestamp.Add t ip) f1) as (es & E1 & E2 & E3 & E4);
      [lia|lia|lia|by rewrite G5|by rewrite G3|by rewrite G3|rewrite M4; lia|rewrite M4, G4; lia|by rewrite G4|].
    exists (e :: es). split_and!.
    + by rewrite E1, M1, <-app_assoc.
    + cbn [fmap list_fmap]. f_equal; [done|exact E2].
    + constructor; [done|]. eapply Forall_impl; [exact E3|]. intros x. by apply same_gap_fresh.
    + rewrite E4, M6, u64_add_l. f_equal. lia.
Qed.

(** ** Properties *)

(** C10: Gap detection is exact.  With recovery on, take a packet [gap] sequences after the last one found, with the gap
    at most the ring and at most [MaxGap16] (16-bit sequences) or half the ring (32-bit), room for it in the queue, whose bound is below 2^32, and a
    recovery buffer that is not negative and can be subtracted from [now].  markMissing appends one entry per sequence strictly
    in between, in sequence order and across the 32-bit wrap, each fresh, stamped on the arriving path, aged no more than
    one recovery buffer, and first due at [now] plus the larger of half the clamped RTT and the reorder buffer (a comment in
    rtt.go says insertion time plus the smoothed RTT; the code does not); the Missing counter grows by exactly their number. *)
Theorem gap_detection_exact now path f gap packetTime :
  NoRecovery (cfg f) = false -> 0 < gap < 2 ^ 32 ->
  gap <= (if shortSeq (receiver f) then MaxGap16 else zlen (ring (receiver f)) / 2) ->
  gap <= zlen (ring (receiver f)) ->
  in_i64 (now - recoveryBuffer f) -> 0 <= recoveryBuffer f ->
  0 <= missingCount (receiver f) -> missingCount (receiver f) + (gap - 1) <= missingCounterMax f + 1 ->
  missingCounterMax f < 2 ^ 32 ->
  let last := lastFound (receiver f) in
  let f' := markMissing now path (u32 (last + gap)) packetTime f in
  exists es, missing (receiver f') = missing (receiver f) ++ es /\
    me_seq <$> es = (fun j => u32 (last + j)) <$> seqZ 1 (gap - 1) /\ Forall (fresh_entry now path f) es /\
    u64 (StMissing (stats f')) = u64 (StMissing (stats f) + (gap - 1)).
Proof.
  intros Hnr Hg Hmg Hring Hr Hrb Hc0 Hc Hmax. cbv zeta. unfold markMissing. rewrite Hnr.
  assert (Hgap : u32 (u32 (lastFound (receiver f) + gap) - lastFound (receiver f)) = gap)
    by (rewrite u32_sub_l; apply u32_eq; [unfold in_u32; lia|exists 0; lia]).
  rewrite Hgap. destruct (Z.ltb_spec (if shortSeq (receiver f) then MaxGap16 else zlen (ring (receiver f)) / 2) gap); [lia|].
  destruct (Z.eqb_spec gap 0); [lia|]. apply markMissing_loop_exact; try done; lia.
Qed.
