(* ===== verification/Nack.v ===== *)
(** * The NACK pass: processNacks of internal/flow/receiver.go

    The specification walks the missing queue with a request budget: settled entries leave the
    queue, the first entries that are due, up to the budget, are requested and
    rescheduled, and the others stay as they are.  [processNacks] implements it with a budget
    of at most RIST_MAX_NACKS, and exactly that many when the return rate is not limited. *)

From S2P Require Import Prelude GoFloat Seq Clock Wire Rtt FlowTypes Congestion Receiver Window Playout FeedInv.

(** ** Specification *)

(** The entry is done with: its packet arrived, its slot was taken over, or its retries or its age ran out. *)
Definition settled (now : Z) (f : Flow) (e : missingEntry) : bool :=
  let s := slot_at (receiver f) (me_seq e) in
  filled s || (MaxRetries (cfg f) <=? nackCount e) ||
  (recoveryBuffer110 f <? Timestamp.Sub now (insertionTime e)).

(** The entry is to be requested at [now]. *)
Definition nack_due (now : Z) (f : Flow) (e : missingEntry) : bool :=
  negb (settled now f e) && (nextNack e <=? now).

(** An entry after it has been requested. *)
Definition renew (now : Z) (f : Flow) (e : missingEntry) : missingEntry :=
  e <| nextNack := Timestamp.Add now (Estimator.RetryInterval (est f) (RTTMin (cfg f)) (RTTMax (cfg f))) |>
    <| nackCount ::= fun n => i64 (n + 1) |>.

(** The queue after a pass with [n] requests to spend. *)
Fixpoint nack_queue (now : Z) (f : Flow) (n : nat) (es : list missingEntry) : list missingEntry :=
  match es with
  | [] => []
  | e :: es =>
      if settled now f e then nack_queue now f n es
      else if nextNack e <=? now then
        match n with
        | O => e :: nack_queue now f O es
        | S n => renew now f e :: nack_queue now f n es
        end
      else e :: nack_queue now f n es
  end.

(** The sequences such a pass requests. *)
Definition nack_requests (now : Z) (f : Flow) (n : nat) (es : list missingEntry) : list Z :=
  take n (me_seq <$> filter (fun e => nack_due now f e = true) es).

(** What the pass may change: the queue, its counter, the tokens, the counters and the effects. *)
Record same_pass (f f' : Flow) : Prop := {
  sp_core : same_core f f';
  sp_est : est f' = est f;
  sp_buf : recoveryBuffer110 f' = recoveryBuffer110 f;
  sp_rate : nackSeqsPerSec (receiver f') = nackSeqsPerSec (receiver f);
  sp_lastFound : lastFound (receiver f') = lastFound (receiver f);
  sp_path : lastPath (receiver f') = lastPath (receiver f);
  sp_ssrc : ssrc (receiver f') = ssrc (receiver f);
  sp_nack : nackArmed (receiver f') = nackArmed (receiver f);
  sp_playout : playoutArmed (receiver f') = playoutArmed (receiver f);
  sp_outputs : outputs f' = outputs f }.

#[export] Instance same_pass_preorder : PreOrder same_pass.
Proof.
  split; [by intros f; split|]. intros f g h [] []. split; try congruence. by etrans.
Qed.

Section same_pass.
Context (now : Z) (f f' : Flow) (Hs : same_pass f f').

Lemma slot_at_same n : slot_at (receiver f') n = slot_at (receiver f) n.
Proof. destruct Hs as [[]]. unfold slot_at, ridx. congruence. Qed.

Lemma settled_same e : settled now f' e = settled now f e.
Proof. unfold settled. rewrite slot_at_same. destruct Hs as [[-> ] ? -> ]. done. Qed.

Lemma nack_due_same e : nack_due now f' e = nack_due now f e.
Proof. unfold nack_due. by rewrite settled_same. Qed.

Lemma renew_same e : renew now f' e = renew now f e.
Proof. unfold renew. destruct Hs as [[-> ] -> ]. done. Qed.

Lemma nack_queue_same n es : nack_queue now f' n es = nack_queue now f n es.
Proof.
  revert n. induction es as [|e es IH]; intros n; cbn [nack_queue]; [done|].
  rewrite settled_same, renew_same, IH. destruct n; by rewrite ?IH.
Qed.

Lemma nack_requests_same n es : nack_requests now f' n es = nack_requests now f n es.
Proof.
  unfold nack_requests. do 2 f_equal. apply list_filter_iff. intros e. by rewrite nack_due_same.
Qed.
End same_pass.

(** ** One entry *)

Lemma count_recovered_same e f : same_pass f (count_recovered e f).
Proof. unfold count_recovered. repeat case_match; by (split; [split|..]). Qed.

(** The packet of the entry arrived after it had been requested. *)
Definition recovered (f : Flow) (e : missingEntry) : bool :=
  holds (slot_at (receiver f) (me_seq e)) (me_seq e) && (0 <? nackCount e).

(** The entry is given up on. *)
Definition abandoned (now : Z) (f : Flow) (e : missingEntry) : bool :=
  settled now f e && negb (filled (slot_at (receiver f) (me_seq e))).

(** The recoveries the five per-depth counters add up to. *)
Definition bucket_sum (s : Stats) : Z :=
  StRecoveredOneRetry s + StRecoveredTwoNacks s + StRecoveredThreeNacks s + StRecoveredFourNacks s + StRecoveredMoreNacks s.

(** The counters of [f'] are those of [f] plus [sent] requests, [ab] abandonments and [rec] recoveries, the
    last in the total and in the per-depth counters alike (all modulo 2^64). *)
Definition tallied (f f' : Flow) (sent ab rec : Z) : Prop :=
  u64 (StNacksSent (stats f')) = u64 (StNacksSent (stats f) + sent) /\
  u64 (StAbandoned (stats f')) = u64 (StAbandoned (stats f) + ab) /\
  u64 (StRecovered (stats f')) = u64 (StRecovered (stats f) + rec) /\
  u64 (bucket_sum (stats f')) = u64 (bucket_sum (stats f) + rec).

Lemma tallied_refl f : tallied f f 0 0 0.
Proof. unfold tallied. by rewrite !Z.add_0_r. Qed.

Lemma tallied_trans f g h a b c a' b' c' :
  tallied f g a b c -> tallied g h a' b' c' -> tallied f h (a + a') (b + b') (c + c').
Proof.
  intros (A1 & A2 & A3 & A4) (B1 & B2 & B3 & B4). unfold tallied.
  rewrite B1, B2, B3, B4, !Z.add_assoc, <-!(u64_add_l (_ + _)), <-A1, <-A2, <-A3, <-A4, !u64_add_l. done.
Qed.

Lemma count_recovered_tally e f : tallied f (count_recovered e f) 0 0 (if 0 <? nackCount e then 1 else 0).
Proof.
  unfold count_recovered. destruct (0 <? nackCount e); [|apply tallied_refl]. cbv zeta.
  set (g := count StRecovered f).
  destruct (_ =? 1); [|destruct (_ =? 2); [|destruct (_ =? 3); [|destruct (_ =? 4)]]];
    unfold tallied, bucket_sum; simpl; rewrite ?Z.add_0_r, ?u64_idem; split_and!; done || u64_inner.
Qed.

(** What the walk does with one entry. *)
Inductive entry_case (now : Z) (e : missingEntry) (batch : list Z) (f : Flow)
    : option missingEntry * Flow * list Z -> Prop :=
  | ec_settled f1 :
      settled now f e = true -> same_pass f f1 -> receiver f1 = receiver f ->
      tallied f f1 0 (if abandoned now f e then 1 else 0) (if recovered f e then 1 else 0) ->
      entry_case now e batch f (None, f1, batch)
  | ec_wait :
      settled now f e = false -> ((nextNack e <=? now) = true -> nack_budget batch (receiver f) = false) ->
      entry_case now e batch f (Some e, f, batch)
  | ec_request f1 :
      nack_due now f e = true -> nack_budget batch (receiver f) = true ->
      same_pass f f1 -> missingCount (receiver f1) = missingCount (receiver f) -> tallied f f1 1 0 0 ->
      entry_case now e batch f (Some (renew now f e), f1, batch ++ [me_seq e]).

Lemma settled_filled now f e : filled (slot_at (receiver f) (me_seq e)) = true -> settled now f e = true.
Proof. unfold settled. by intros ->. Qed.

Lemma nack_entry_case now e batch f : entry_case now e batch f (nack_entry now e batch f).
Proof.
  unfold nack_entry. cbv zeta. destruct (holds _ _) eqn:Eh.
  { pose proof (holds_filled _ _ Eh) as Ef. apply ec_settled.
    - by apply settled_filled.
    - apply count_recovered_same.
    - unfold count_recovered. by repeat case_match.
    - unfold abandoned, recovered. rewrite Ef, Eh, andb_false_r. apply count_recovered_tally. }
  destruct (filled _) eqn:Ef.
  { apply ec_settled; [by apply settled_filled|done..|]. unfold abandoned, recovered.
    rewrite Ef, Eh, andb_false_r. apply tallied_refl. }
  assert (Hab : settled now f e = true -> entry_case now e batch f (None, count StAbandoned f, batch)).
  { intros Hse. apply ec_settled; [done|by split; [split|..]|done|]. unfold abandoned, recovered. rewrite Hse, Ef, Eh.
    unfold tallied. simpl. by rewrite !Z.add_0_r, u64_idem. }
  destruct (MaxRetries (cfg f) <=? nackCount e) eqn:Er.
  { apply Hab. unfold settled. by rewrite Ef, Er. }
  destruct (recoveryBuffer110 f <? _) eqn:Ea.
  { apply Hab. unfold settled. by rewrite Ef, Er, Ea. }
  assert (Hse : settled now f e = false) by (unfold settled; by rewrite Ef, Er, Ea).
  unfold Timestamp.Before. rewrite <-Z.leb_antisym.
  destruct (nextNack e <=? now) eqn:En; [|apply ec_wait; [done|congruence]]. cbn [andb].
  destruct (nack_budget batch (receiver f)) eqn:Eb; [|apply ec_wait; [done|congruence]].
  match goal with |- entry_case _ _ _ _ (_, ?g, _) => apply (ec_request now e batch f g) end; try done.
  - unfold nack_due. by rewrite Hse, En.
  - destruct (f64_ltb _ _); by (split; [split|..]).
  - by destruct (f64_ltb _ _).
  - destruct (f64_ltb _ _); unfold tallied; simpl; by rewrite !Z.add_0_r, u64_idem.
Qed.

(** ** The walk *)

Definition tally (p : missingEntry -> bool) (es : list missingEntry) : Z := zlen (filter (fun e => p e = true) es).

Lemma tally_cons p e es : tally p (e :: es) = (if p e then 1 else 0) + tally p es.
Proof.
  unfold tally, zlen. rewrite filter_cons. destruct (p e) eqn:E.
  - rewrite decide_True by done. simpl. lia.
  - rewrite decide_False by congruence. lia.
Qed.

Lemma tally_ext p q es : (forall e, p e = q e) -> tally p es = tally q es.
Proof. intros H. unfold tally. do 2 f_equal. apply list_filter_iff. intros e. by rewrite H. Qed.

Lemma nack_requests_cons now f n e es :
  nack_requests now f n (e :: es) =
    if nack_due now f e then match n with O => [] | S m => me_seq e :: nack_requests now f m es end
    else nack_requests now f n es.
Proof.
  unfold nack_requests. rewrite filter_cons. destruct (nack_due now f e) eqn:E.
  - rewrite decide_True by done. by destruct n.
  - by rewrite decide_False by congruence.
Qed.

Lemma nack_due_settled now f e : settled now f e = true -> nack_due now f e = false.
Proof. unfold nack_due. by intros ->. Qed.

Lemma nack_requests_len now f n es : (length (nack_requests now f n es) <= n)%nat.
Proof. unfold nack_requests. rewrite length_take. lia. Qed.

(** The walk spends [n] requests, where [n] is what the batch limit and the tokens leave. *)
Record walk_spec (now : Z) (es : list missingEntry) (batch : list Z) (f : Flow) (n : nat)
    (res : list missingEntry * Flow * list Z) : Prop := {
  ws_limit : Z.of_nat n <= Z.max 0 (ristMaxNacks - zlen batch);
  ws_spent : nack_budget batch (receiver f) = false -> n = 0%nat;
  ws_free : f64_eqb (nackSeqsPerSec (receiver f)) f64_zero = true -> n = Z.to_nat (ristMaxNacks - zlen batch);
  ws_queue : res.1.1 = nack_queue now f n es;
  ws_batch : res.2 = batch ++ nack_requests now f n es;
  ws_same : same_pass f res.1.2;
  ws_count : missingCount (receiver res.1.2) = missingCount (receiver f) - (zlen es - zlen res.1.1);
  ws_tally : tallied f res.1.2 (zlen (nack_requests now f n es)) (tally (abandoned now f) es) (tally (recovered f) es) }.

Lemma abandoned_same now f f' e : same_pass f f' -> abandoned now f' e = abandoned now f e.
Proof. intros H. unfold abandoned. by rewrite (settled_same now f f'), (slot_at_same f f'). Qed.

Lemma recovered_same f f' e : same_pass f f' -> recovered f' e = recovered f e.
Proof. intros H. unfold recovered. by rewrite (slot_at_same f f'). Qed.

Lemma tallies_same now f f' g n es :
  same_pass f f' ->
  tallied f' g (zlen (nack_requests now f' n es)) (tally (abandoned now f') es) (tally (recovered f') es) =
  tallied f' g (zlen (nack_requests now f n es)) (tally (abandoned now f) es) (tally (recovered f) es).
Proof.
  intros H. rewrite (nack_requests_same now f f') by done. f_equal; [apply tally_ext..]; intros e.
  - by apply abandoned_same.
  - by apply recovered_same.
Qed.

Lemma nack_budget_receiver batch r r' :
  nackSeqsPerSec r' = nackSeqsPerSec r -> nackTokens r' = nackTokens r -> nack_budget batch r' = nack_budget batch r.
Proof. unfold nack_budget. by intros -> ->. Qed.

Lemma nack_queue_len now f n es : zlen (nack_queue now f n es) <= zlen es.
Proof.
  revert n. unfold zlen. induction es as [|e es IH]; intros n; simpl; [lia|].
  pose proof (IH n). pose proof (IH 0%nat). destruct (settled now f e); [lia|].
  destruct (nextNack e <=? now); [destruct n as [|n]; [|specialize (IH n)]|]; simpl; lia.
Qed.

(** A budget that is spent and a return rate that is not limited leave no room in the batch. *)
Lemma nack_budget_free batch r :
  nack_budget batch r = false -> f64_eqb (nackSeqsPerSec r) f64_zero = true -> ristMaxNacks <= zlen batch.
Proof. unfold nack_budget. intros H E. rewrite E, andb_true_r in H. by apply Z.ltb_ge. Qed.

Lemma nack_walk_nil now batch f : exists n, walk_spec now [] batch f n (nack_walk now [] batch f).
Proof.
  exists (if nack_budget batch (receiver f) then Z.to_nat (ristMaxNacks - zlen batch) else 0%nat).
  assert (Hreq : forall n, nack_requests now f n [] = []) by (intros []; done).
  split; cbn [nack_walk fst snd nack_queue]; rewrite ?Hreq, ?app_nil_r; try done.
  - destruct (nack_budget _ _); lia.
  - by intros ->.
  - intros Hf. destruct (nack_budget batch (receiver f)) eqn:Eb; [done|].
    pose proof (nack_budget_free _ _ Eb Hf). lia.
  - unfold zlen. simpl. lia.
  - apply tallied_refl.
Qed.

Lemma zlen_succ {A} (x : A) l : zlen (x :: l) = zlen l + 1.
Proof. unfold zlen. simpl. lia. Qed.

Lemma unsettled_not_held now f e : settled now f e = false -> holds (slot_at (receiver f) (me_seq e)) (me_seq e) = false.
Proof. intros Hse. destruct (holds _ _) eqn:E; [|done]. apply holds_filled in E. by rewrite settled_filled in Hse. Qed.

(** Prepending an entry to a walk, in each of the three cases. *)
Section prepend.
Context (now : Z) (e : missingEntry) (es : list missingEntry) (batch : list Z) (f f1 : Flow) (n : nat).
Context (rest : list missingEntry) (f3 : Flow) (batch3 : list Z).

Lemma walk_settled :
  settled now f e = true -> same_pass f f1 -> nackTokens (receiver f1) = nackTokens (receiver f) ->
  missingCount (receiver f1) = missingCount (receiver f) - 1 ->
  tallied f f1 0 (if abandoned now f e then 1 else 0) (if recovered f e then 1 else 0) ->
  walk_spec now es batch f1 n (rest, f3, batch3) -> walk_spec now (e :: es) batch f n (rest, f3, batch3).
Proof.
  intros Hse Hs Htok Hm Ht [W1 W2 W3 W4 W5 W6 W7 W8]. cbn [fst snd] in *.
  rewrite (nack_budget_receiver batch (receiver f)) in W2 by (done || apply Hs).
  split; cbn [fst snd nack_queue]; rewrite ?Hse, ?nack_requests_cons, ?(nack_due_settled _ _ _ Hse); try done.
  - by rewrite <-(sp_rate _ _ Hs).
  - by rewrite W4, (nack_queue_same now f).
  - by rewrite W5, (nack_requests_same now f).
  - by etrans.
  - rewrite W7, Hm, zlen_succ. lia.
  - rewrite !tally_cons, <-(Z.add_0_l (zlen _)). eapply tallied_trans; [exact Ht|].
    rewrite (tallies_same now f f1) in W8 by done. exact W8.
Qed.

Lemma walk_wait :
  settled now f e = false -> ((nextNack e <=? now) = true -> nack_budget batch (receiver f) = false) ->
  walk_spec now es batch f n (rest, f3, batch3) -> walk_spec now (e :: es) batch f n (e :: rest, f3, batch3).
Proof.
  intros Hse Hb [W1 W2 W3 W4 W5 W6 W7 W8]. cbn [fst snd] in *.
  assert (Hq : nack_queue now f n (e :: es) = e :: nack_queue now f n es).
  { cbn [nack_queue]. rewrite Hse. destruct (nextNack e <=? now); [|done]. by rewrite (W2 (Hb eq_refl)). }
  assert (Hr : nack_requests now f n (e :: es) = nack_requests now f n es).
  { rewrite nack_requests_cons. unfold nack_due. rewrite Hse. cbn [negb andb].
    destruct (nextNack e <=? now); [|done]. by rewrite (W2 (Hb eq_refl)). }
  split; cbn [fst snd]; rewrite ?Hq, ?Hr, ?W4; try done.
  - rewrite W7, W4, !zlen_succ. lia.
  - rewrite !tally_cons. unfold abandoned at 1, recovered at 1. by rewrite Hse, (unsettled_not_held now).
Qed.

Lemma walk_request :
  nack_due now f e = true -> nack_budget batch (receiver f) = true ->
  same_pass f f1 -> missingCount (receiver f1) = missingCount (receiver f) -> tallied f f1 1 0 0 ->
  walk_spec now es (batch ++ [me_seq e]) f1 n (rest, f3, batch3) ->
  walk_spec now (e :: es) batch f (S n) (renew now f e :: rest, f3, batch3).
Proof.
  intros Hdue Hb Hs Hm Ht [W1 W2 W3 W4 W5 W6 W7 W8]. cbn [fst snd] in *.
  pose proof (andb_prop _ _ Hb) as [Hlt%Z.ltb_lt _]. pose proof (andb_prop _ _ Hdue) as [Hse%negb_true_iff Hnx].
  assert (Hlb : zlen (batch ++ [me_seq e]) = zlen batch + 1) by (unfold zlen; rewrite length_app; simpl; lia).
  rewrite Hlb in W1, W3.
  split; cbn [fst snd nack_queue]; rewrite ?nack_requests_cons, ?Hdue, ?Hse, ?Hnx; try done.
  - lia.
  - by rewrite Hb.
  - rewrite <-(sp_rate _ _ Hs). intros Hf. specialize (W3 Hf). lia.
  - by rewrite W4, (nack_queue_same now f).
  - by rewrite W5, <-app_assoc, (nack_requests_same now f).
  - by etrans.
  - rewrite W7, Hm, !zlen_succ. lia.
  - rewrite !tally_cons, (tallies_same now f f1) in * by done. unfold abandoned at 1, recovered at 1.
    rewrite Hse, (unsettled_not_held now), zlen_succ, Z.add_comm by done. by eapply tallied_trans.
Qed.
End prepend.

Lemma nack_walk_spec now es batch f :
  zlen es <= missingCount (receiver f) < 2 ^ 33 ->
  exists n, walk_spec now es batch f n (nack_walk now es batch f).
Proof.
  revert batch f. induction es as [|e es IH]; intros batch f Hc; [apply nack_walk_nil|].
  rewrite zlen_succ in Hc. assert (H0 : 0 <= zlen es) by (unfold zlen; lia). cbn [nack_walk].
  pose proof (nack_entry_case now e batch f) as Hcase.
  inv Hcase as [f1 Hse Hs Er Ht Eq|Hse Hb Eq|f1 Hdue Hb Hs Em Ht Eq].
  - set (f2 := on_receiver (fun r => r <| missingCount ::= fun n => i64 (n - 1) |>) f1).
    assert (Hm : missingCount (receiver f2) = missingCount (receiver f) - 1).
    { change (missingCount (receiver f2)) with (i64 (missingCount (receiver f1) - 1)). rewrite Er. nowrap. done. }
    destruct (IH batch f2) as [n Hw]; [lia|]. destruct (nack_walk now es batch f2) as [[rest f3] batch3].
    exists n. apply (walk_settled now e es batch f f2); try done.
    + etrans; [exact Hs|by split; [split|..]].
    + change (nackTokens (receiver f2)) with (nackTokens (receiver f1)). by rewrite Er.
  - destruct (IH batch f) as [n Hw]; [lia|]. destruct (nack_walk now es batch f) as [[rest f3] batch3].
    exists n. by apply walk_wait.
  - destruct (IH (batch ++ [me_seq e]) f1) as [n Hw]; [lia|].
    destruct (nack_walk now es (batch ++ [me_seq e]) f1) as [[rest f3] batch3]. exists (S n). by eapply walk_request.
Qed.

(** ** The pass *)

Lemma refill_same now f : same_pass f (on_receiver (refill_tokens now) f).
Proof.
  unfold refill_tokens, on_receiver. split; [split|..]; cbn; repeat case_match; done.
Qed.

Lemma refill_missing now f :
  missing (receiver (on_receiver (refill_tokens now) f)) = missing (receiver f) /\
  missingCount (receiver (on_receiver (refill_tokens now) f)) = missingCount (receiver f) /\
  stats (on_receiver (refill_tokens now) f) = stats f.
Proof. unfold refill_tokens, on_receiver. cbn. by repeat case_match. Qed.

(** The effect of a pass that requests [reqs]. *)
Definition nack_effects (f : Flow) (reqs : list Z) : list Output :=
  match reqs with
  | [] => []
  | _ => [SendFeedback (lastPath (receiver f)) (NackRequest (ssrc (receiver f)) reqs)]
  end.

Record pass_spec (now : Z) (f : Flow) (n : nat) (f' : Flow) : Prop := {
  ps_limit : Z.of_nat n <= ristMaxNacks;
  ps_free : f64_eqb (nackSeqsPerSec (receiver f)) f64_zero = true -> Z.of_nat n = ristMaxNacks;
  ps_queue : missing (receiver f') = nack_queue now f n (missing (receiver f));
  ps_count : missingCount (receiver f') = zlen (missing (receiver f'));
  ps_outputs : pending (outputs f') = pending (outputs f) ++ nack_effects f (nack_requests now f n (missing (receiver f)));
  ps_tally : tallied f f' (zlen (nack_requests now f n (missing (receiver f))))
               (tally (abandoned now f) (missing (receiver f))) (tally (recovered f) (missing (receiver f))) }.

Lemma processNacks_spec now f :
  missingCount (receiver f) = zlen (missing (receiver f)) -> missingCount (receiver f) < 2 ^ 33 ->
  fifo_wf (outputs f) ->
  exists n, pass_spec now f n (processNacks now f) /\ same_core f (processNacks now f) /\
    fifo_wf (outputs (processNacks now f)) /\ lastFound (receiver (processNacks now f)) = lastFound (receiver f) /\
    nackArmed (receiver (processNacks now f)) = nackArmed (receiver f) /\
    playoutArmed (receiver (processNacks now f)) = playoutArmed (receiver f).
Proof.
  intros Hc Hb Hwf. unfold processNacks. destruct (Z.eqb_spec (missingCount (receiver f)) 0) as [E0|Hne].
  { assert (Hm : missing (receiver f) = []) by (rewrite E0 in Hc; unfold zlen in Hc; by destruct (missing (receiver f))).
    exists 200%nat. split_and!; try done. split; rewrite ?Hm; try done; [by rewrite app_nil_r|apply tallied_refl]. }
  pose proof (refill_same now f) as Hs. destruct (refill_missing now f) as (R1 & R2 & R3).
  set (g := on_receiver (refill_tokens now) f) in *. cbv zeta. rewrite R1.
  destruct (nack_walk_spec now (missing (receiver f)) [] g) as [n [W1 W2 W3 W4 W5 W6 W7 W8]]; [lia|].
  destruct (nack_walk now (missing (receiver f)) [] g) as [[kept f1] batch]. cbn [fst snd app] in *.
  rewrite (nack_queue_same now f) in W4 by done. rewrite (nack_requests_same now f) in W5 by done.
  rewrite (tallies_same now f) in W8 by done.
  assert (Ht : tallied f f1 (zlen (nack_requests now f n (missing (receiver f))))
    (tally (abandoned now f) (missing (receiver f))) (tally (recovered f) (missing (receiver f))))
    by (unfold tallied in *; by rewrite R3 in W8).
  assert (Hs1 : same_pass f f1) by (by etrans). destruct Hs1 as [Hcore _ _ Hrate Hl Hp Hss Hn Hpl Ho].
  set (f2 := on_receiver (fun r => r <| missing := kept |>) f1).
  assert (Hcore2 : same_core f f2) by (etrans; [exact Hcore|by split]).
  assert (Hcount : missingCount (receiver f1) = zlen kept) by lia.
  exists n. rewrite <-W5 in *. change ristMaxNacks with 200 in *. change (zlen []) with 0 in *.
  assert (Hlim : Z.of_nat n <= 200) by lia.
  assert (Hfree : f64_eqb (nackSeqsPerSec (receiver f)) f64_zero = true -> Z.of_nat n = 200)
    by (rewrite <-(sp_rate _ _ Hs); intros Hf; specialize (W3 Hf); lia).
  destruct batch as [|b batch].
  - split_and!; try done; [|by rewrite <-Ho in Hwf]. split; rewrite <-?W5; try done.
    rewrite app_nil_r. change (outputs f2) with (outputs f1). by rewrite Ho.
  - split_and!; try done; [|etrans; [exact Hcore2|by split]|apply fifo_push_wf; by rewrite <-Ho in Hwf].
    split; rewrite <-?W5; try done. cbn [nack_effects]. rewrite <-Hp, <-Hss, <-Ho.
    apply pending_push. by rewrite Ho.
Qed.

Lemma nack_queue_entries now f n es :
  MaxRetries (cfg f) < 2 ^ 62 -> Forall (entry_ok (cfg f)) es -> Forall (entry_ok (cfg f)) (nack_queue now f n es).
Proof.
  intros Hmax Hes. revert n. induction Hes as [|e es [He1 He2] Hes IH]; intros n; cbn [nack_queue]; [done|].
  destruct (settled now f e) eqn:Hse; [done|].
  assert (He : entry_ok (cfg f) e) by done. destruct (nextNack e <=? now); [destruct n as [|n]|]; constructor; try done.
  split; [done|]. change (nackCount (renew now f e)) with (i64 (nackCount e + 1)).
  unfold settled in Hse. apply orb_false_iff in Hse as [[_ Hr%Z.leb_gt]%orb_false_iff _]. nowrap. lia.
Qed.

Lemma nack_queue_nil now f n : nack_queue now f n [] = [].
Proof. done. Qed.

Lemma processNacks_core k now f : recv_core k f -> recv_core k (processNacks now f).
Proof.
  intros Hi. pose proof Hi as []. destruct (processNacks_spec now f) as (n & [] & Hs & Ho & Hl & _); [done|lia|done|].
  pose proof Hs as [Ec Em ? ? Est ? ? Eev].
  split; rewrite ?Ec, ?Em, ?Est, ?Eev, ?Hl; try done.
  - by eapply same_core_ring_inv.
  - rewrite ps_count0, ps_queue0. pose proof (nack_queue_len now f n (missing (receiver f))). lia.
  - rewrite ps_queue0. by apply nack_queue_entries.
  - intros Hst. by rewrite ps_queue0, rv_idle.
Qed.

Lemma processNacks_recv k now f : recv_inv k f -> recv_inv k (processNacks now f).
Proof.
  intros [Hc Hn Hp]. pose proof Hc as []. split; [by apply processNacks_core|..];
    destruct (processNacks_spec now f) as (n & [] & Hs & _ & _ & Ha & Hpl); try done; try lia.
  - rewrite ps_queue0, Ha. intros Hm. apply Hn. intros E. by rewrite E in Hm.
  - rewrite Hpl. destruct Hp as [?|He]; [by left|right]. intros m. rewrite (same_core_buffered f) by done. apply He.
Qed.

(** ** Properties *)

(** C5: A NACK pass refines its specification: settled entries leave the queue, the first [n] due entries are requested in one
    NackRequest on the newest media path and rescheduled, and the rest stay untouched; [n] is at
    most RIST_MAX_NACKS and exactly that when no return bitrate is configured.  The counters account for
    every request, abandonment and recovery, and the per-depth recovery counters add up to the total. *)
Theorem nack_pass k now f :
  recv_inv k f ->
  let f' := processNacks now f in let es := missing (receiver f) in
  exists n, Z.of_nat n <= ristMaxNacks /\
    (f64_eqb (nackSeqsPerSec (receiver f)) f64_zero = true -> Z.of_nat n = ristMaxNacks) /\
    missing (receiver f') = nack_queue now f n es /\
    missingCount (receiver f') = zlen (missing (receiver f')) /\
    pending (outputs f') = pending (outputs f) ++ nack_effects f (nack_requests now f n es) /\
    tallied f f' (zlen (nack_requests now f n es)) (tally (abandoned now f) es) (tally (recovered f) es).
Proof.
  intros [Hc _ _]. cbv zeta. pose proof Hc as [].
  destruct (processNacks_spec now f) as (n & [] & _); [done|lia|done|]. by exists n.
Qed.
