(* ===== verification/FlowInv.v ===== *)
(** * The invariant of a flow over every execution

    [flow_inv] is the receiver invariant on a receiver and the sender invariant on a sender.  [New] establishes it and
    every call of a host preserves it, so it holds of every reachable flow; the auto-scaled buffer
    stays in its window.  That the timer flags the invariant speaks of are those of the host is in FlowTimers. *)

From S2P Require Import Prelude GoFloat Seq Clock Wire Rtt FlowTypes Congestion FlowNew Sender.
From S2P Require Import Receiver Flow Window Playout FeedInv Nack.

(** ** Definitions *)

(** The configurations considered: what the host validates, as far as the flow relies on it. *)
Record config_ok (c : Config) : Prop := {
  co_ring : RingSize c <= 2 ^ 31;
  co_retries : MaxRetries c < 2 ^ 62;
  co_budget : deriveMaxNacksPerLoop c < 2 ^ 62;
  co_start : in_u32 (StartSeq c) }.

Definition flow_inv (k : Z) (f : Flow) : Prop :=
  match role f with
  | RoleReceiver => recv_inv k f
  | RoleSender => send_inv k f /\ maxNacksPerLoop f < 2 ^ 62
  end.

(** The recovery buffer is inside its window, its 110% companion follows it, and a negotiated sender
    maximum is not below the minimum. *)
Record buffer_inv (f : Flow) : Prop := {
  bi_window : RecoveryBufferMin (cfg f) <= recoveryBuffer f <= RecoveryBufferMax (cfg f);
  bi_110 : recoveryBuffer110 f = mul110 (recoveryBuffer f);
  bi_sender : senderMaxBuffer (receiver f) = 0 \/ RecoveryBufferMin (cfg f) <= senderMaxBuffer (receiver f) }.

(** ** [New] *)

Lemma ring_capacity_31 c : RingSize c <= 2 ^ 31 -> exists k, 0 <= k <= 31 /\ ringCapacity c = 2 ^ k.
Proof.
  intros Hr. destruct (ringCapacity_spec c) as (j & Hj & E & H1 & H2); [lia|]. exists j. split; [|done]. split; [lia|].
  destruct (Z.le_gt_cases (RingSize c) 0) as [Hle|Hgt]; [specialize (H2 Hle); lia|]. specialize (H1 Hgt).
  apply Z.lt_succ_r, (Z.pow_lt_mono_r_iff 2); lia.
Qed.

Lemma new_receiver_fields size c :
  let r := new_receiver size c in
  ring r = replicate (Z.to_nat size) slot_zero /\ mask r = u32 (size - 1) /\ started r = false /\
  deliverNext r = 0 /\ highest r = 0 /\ lastFound r = 0 /\ missing r = [] /\ missingCount r = 0 /\ senderMaxBuffer r = 0.
Proof. cbv zeta. unfold new_receiver. destruct (0 <? _); by split_and!. Qed.

Lemma empty_slots r size n : ring r = replicate size slot_zero -> buffered r n = None.
Proof.
  intros E. unfold buffered, slot_at. rewrite E. destruct (replicate size slot_zero !! ridx r n) eqn:El; [|done].
  by apply lookup_replicate in El as [-> _].
Qed.

Lemma pow2_mask k : 0 <= k <= 32 -> u32 (2 ^ k - 1) = 2 ^ k - 1.
Proof.
  intros Hk. apply u32_id. pose proof (Z.pow_pos_nonneg 2 k). pose proof (Z.pow_le_mono_r 2 k 32). unfold in_u32. lia.
Qed.

Lemma deriveMissingCounterMax_range c : 0 <= deriveMissingCounterMax c < 2 ^ 32.
Proof. unfold deriveMissingCounterMax. destruct (_ <? 0); [lia|apply u32_range]. Qed.

Lemma new_ring_inv k size c :
  0 <= k <= 31 -> size = 2 ^ k -> ring_inv k (new_receiver size c).
Proof.
  intros Hk ->. destruct (new_receiver_fields (2 ^ k) c) as (E1 & E2 & E3 & E4 & E5 & _).
  pose proof (Z.pow_pos_nonneg 2 k). split.
  - unfold ring_shape, zlen. rewrite E1, E2, length_replicate, pow2_mask by lia. split; [done|split; [lia|done]].
  - intros i s Hl Hf. rewrite E1 in Hl. by apply lookup_replicate in Hl as [-> _].
  - by rewrite E4.
  - by rewrite E5.
  - unfold ring_window. rewrite E3. intros n. by eapply empty_slots.
Qed.

Lemma new_sender_inv k c :
  0 <= k <= 32 -> hist_shape k (new_sender (2 ^ k) c) /\ forall n, hist (new_sender (2 ^ k) c) n = None.
Proof.
  intros Hk. pose proof (Z.pow_pos_nonneg 2 k). set (s := new_sender (2 ^ k) c).
  assert (E1 : s_ring s = replicate (Z.to_nat (2 ^ k)) senderSlot_zero) by done.
  assert (E2 : s_mask s = u32 (2 ^ k - 1)) by done. clearbody s. split.
  - unfold hist_shape, zlen. rewrite E1, E2, length_replicate, pow2_mask by lia. split; [done|split; [lia|done]].
  - intros n. unfold hist, history_at. rewrite E1. destruct (replicate _ _ !! _) eqn:El; [|done].
    by apply lookup_replicate in El as [-> _].
Qed.

Lemma recv_inv_new k c f :
  0 <= k <= 31 -> receiver f = new_receiver (2 ^ k) c -> 0 <= missingCounterMax f < 2 ^ 32 ->
  MaxRetries (cfg f) < 2 ^ 62 -> events f = fifo_empty -> outputs f = fifo_empty -> recv_inv k f.
Proof.
  intros Hk Er Hm Hr He Ho. destruct (new_receiver_fields (2 ^ k) c) as (E1 & _ & _ & _ & _ & E6 & E7 & E8 & _).
  pose proof (new_ring_inv k (2 ^ k) c Hk eq_refl) as Hri.
  split; [split|..]; rewrite ?Er, ?He, ?Ho, ?E6, ?E7, ?E8; try done; try by constructor.
  - lia.
  - right. intros n. by eapply empty_slots.
Qed.

Lemma New_inv ro c : config_ok c -> exists k, 0 <= k <= 31 /\ ringCapacity c = 2 ^ k /\ flow_inv k (New ro c).
Proof.
  intros [Hr Hm Hb Hs]. destruct (ring_capacity_31 c Hr) as (k & Hk & E). exists k. split; [done|]. split; [done|].
  unfold flow_inv, New. rewrite E. destruct ro; cbn [role].
  - destruct (new_sender_inv k c) as [Hsh Hn]; [lia|]. split; [|exact Hb].
    split; [exact Hsh|exact Hs|exact Hm| |constructor|constructor].
    intros n sl Hnn. change (hist (new_sender (2 ^ k) c) n = Some sl) in Hnn. by rewrite Hn in Hnn.
  - apply (recv_inv_new k c); try done. apply deriveMissingCounterMax_range.
Qed.

Lemma New_fields ro c :
  role (New ro c) = ro /\ cfg (New ro c) = c /\ missingCounterMax (New ro c) = deriveMissingCounterMax c.
Proof. unfold New. by destruct ro. Qed.

(** ** What no handler but the auto-scaling touches *)

Record same_conf (f f' : Flow) : Prop := {
  cf_role : role f' = role f;
  cf_cfg : cfg f' = cfg f;
  cf_buffer : recoveryBuffer f' = recoveryBuffer f;
  cf_110 : recoveryBuffer110 f' = recoveryBuffer110 f;
  cf_max : missingCounterMax f' = missingCounterMax f;
  cf_loop : maxNacksPerLoop f' = maxNacksPerLoop f;
  cf_sender : senderMaxBuffer (receiver f') = senderMaxBuffer (receiver f) }.

#[export] Instance same_conf_preorder : PreOrder same_conf.
Proof. split; [by intros f; split|]. intros f g h [] []. split; congruence. Qed.

Ltac conf_step H := etrans; [apply H|].

Lemma emit_conf o f : same_conf f (emit o f).
Proof. by split. Qed.

Lemma count_by_conf g `{!Setter g} n f : same_conf f (count_by g n f).
Proof. by split. Qed.

Lemma on_receiver_conf g f : senderMaxBuffer (g (receiver f)) = senderMaxBuffer (receiver f) -> same_conf f (on_receiver g f).
Proof. intros E. split; [done..|exact E]. Qed.

Lemma armPlayout_conf d f : same_conf f (armPlayout d f).
Proof. unfold armPlayout. destruct (_ && _); by split. Qed.

Lemma disarmPlayout_conf f : same_conf f (disarmPlayout f).
Proof. unfold disarmPlayout. destruct (negb _); by split. Qed.

Lemma scheduleNack_conf now f : same_conf f (scheduleNack now f).
Proof. unfold scheduleNack. destruct (_ || _); by split. Qed.

Lemma markMissing_conf now path cur t f : same_conf f (markMissing now path cur t f).
Proof.
  destruct (markMissing_cases now path cur t f) as [->|(fuel & ip & t0 & ->)]; [done|].
  generalize 1 at 2. generalize (u32 (lastFound (receiver f) + 1)). intros m cnt. revert m t0 cnt f.
  induction fuel as [|fuel IH]; intros m t0 cnt f; cbn [markMissing_loop]; [done|].
  destruct (m =? cur); [done|]. destruct (_ <? _); [done|]. destruct (_ =? _); [by split|].
  etrans; [|apply IH]. by split.
Qed.

Lemma start_conf now path pkt f : same_conf f (start now path pkt f).
Proof.
  unfold start. cbv zeta. set (g := count_by _ _ _). assert (Hg : same_conf f g) by (by split). clearbody g.
  destruct (NoRecovery _); [|etrans; [|apply emit_conf]]; (etrans; [exact Hg|apply armPlayout_conf]).
Qed.

Lemma feed_store_conf now path pkt t ot ooo f : same_conf f (feed_store now path pkt t ot ooo f).
Proof. unfold feed_store. cbv zeta. destruct (filled _), ooo; destruct (Num32.Less _ _); by split. Qed.

Lemma feed_detect_conf now path pkt t ooo f : same_conf f (feed_detect now path pkt t ooo f).
Proof.
  unfold feed_detect. destruct (Retransmit pkt); [done|]. cbv zeta.
  set (g := if _ && _ then _ else f). assert (Hg : same_conf f g) by (subst g; destruct (_ && _); [apply markMissing_conf|done]).
  clearbody g. destruct ooo; [done|]. etrans; [exact Hg|by split].
Qed.

Lemma feed_insert_conf now path pkt t ooo f : same_conf f (feed_insert now path pkt t ooo f).
Proof.
  unfold feed_insert. cbv zeta. destruct (_ && _); [by split|].
  conf_step feed_store_conf. conf_step feed_detect_conf. conf_step armPlayout_conf. apply scheduleNack_conf.
Qed.

Lemma feed_prelude_conf now pkt f :
  same_conf f (feed_framing_change now pkt (feed_flow_change pkt (feed_ips now f))).
Proof.
  transitivity (feed_ips now f); [unfold feed_ips; destruct (started _); by split|]. generalize (feed_ips now f). clear f. intros f.
  transitivity (feed_flow_change pkt f); [unfold feed_flow_change; destruct (_ && _ && _); by split|].
  generalize (feed_flow_change pkt f). clear f. intros f. unfold feed_framing_change. destruct (_ && _ && _); by split.
Qed.

Lemma feed_packet_time_conf now pkt f : same_conf f (feed_packet_time now pkt f).2.
Proof. unfold feed_packet_time. destruct (bool_decide _); [done|]. destruct (wraps_back now pkt f); by split. Qed.

Lemma feed_conf now path pkt f : same_conf f (feed now path pkt f).
Proof.
  unfold feed. cbv zeta. conf_step (feed_prelude_conf now pkt). generalize (feed_framing_change now pkt (feed_flow_change pkt (feed_ips now f))).
  clear f. intros f. destruct (negb _); [destruct (Retransmit pkt); [done|apply start_conf]|].
  set (g := if Retransmit pkt then _ else f). assert (Hg : same_conf f g) by (subst g; destruct (Retransmit pkt); by split).
  clearbody g. conf_step Hg. pose proof (feed_packet_time_conf now pkt g) as Ht.
  destruct (feed_packet_time now pkt g) as [t g1]. cbn [snd] in Ht. conf_step Ht.
  assert (Hk : same_conf g1 (feed_track pkt t g1)) by (unfold feed_track; destruct (_ <? _); by split). conf_step Hk.
  assert (Hl : forall x, same_conf x (too_late pkt x)) by (intros x; unfold too_late; destruct (Retransmit pkt); by split).
  destruct (_ && _); [apply Hl|]. destruct (Num32.Less _ _); [apply Hl|apply feed_insert_conf].
Qed.

Lemma deliver_step_conf now f : same_conf f (deliver_step now f).2.
Proof.
  assert (Hskip : forall n, same_conf f (skipTo n f)).
  { intros n. unfold skipTo. cbv zeta. set (j := Z.to_nat _). clearbody j.
    pose proof (clear_range_frame j (deliverNext (receiver f)) (receiver f)) as E. split; try done; simpl; by rewrite E. }
  unfold deliver_step. cbv zeta. destruct (holds _ _).
  - destruct (Timestamp.Before _ _); cbn [snd]; [apply armPlayout_conf|by split].
  - destruct (_ <=? 0); cbn [snd]; [apply disarmPlayout_conf|]. destruct (find_next _ _ _).
    + destruct (Timestamp.Before _ _); cbn [snd]; [apply armPlayout_conf|apply Hskip].
    + destruct (_ <? _); cbn [snd]; [apply Hskip|apply disarmPlayout_conf].
Qed.

Lemma deliverDue_conf now f : same_conf f (deliverDue now f).
Proof.
  unfold deliverDue. destruct (negb _); [done|]. generalize (deliver_fuel (receiver f)). intros fuel.
  destruct (deliver_loop fuel now f) as [f'|] eqn:E; [|done]. cbn [default]. revert f E.
  induction fuel as [|fuel IH]; intros f; cbn [deliver_loop]; [done|].
  pose proof (deliver_step_conf now f) as Hs. destruct (deliver_step now f) as [[] f1]; cbn [snd] in Hs.
  - intros E. conf_step Hs. by apply IH.
  - by intros [= <-].
Qed.

Lemma nack_entry_conf now e batch f : same_conf f (nack_entry now e batch f).1.2.
Proof.
  unfold nack_entry. cbv zeta. destruct (holds _ _); [unfold count_recovered; cbn [fst snd]; repeat case_match; by split|].
  destruct (filled _); [done|]. destruct (_ <=? _); [by split|]. destruct (_ <? _); [by split|].
  destruct (_ && _); [|done]. cbn [fst snd]. destruct (f64_ltb _ _); by split.
Qed.

Lemma nack_walk_conf now es batch f : same_conf f (nack_walk now es batch f).1.2.
Proof.
  revert batch f. induction es as [|e es IH]; intros batch f; cbn [nack_walk]; [done|].
  pose proof (nack_entry_conf now e batch f) as He. destruct (nack_entry now e batch f) as [[kept f1] b1]. cbn [fst snd] in He.
  set (f2 := match kept with Some _ => f1 | None => _ end).
  assert (H2 : same_conf f f2) by (subst f2; destruct kept; [done|]; etrans; [exact He|by split]). clearbody f2.
  specialize (IH b1 f2). destruct (nack_walk now es b1 f2) as [[rest f3] b3]. cbn [fst snd] in *. by etrans.
Qed.

Lemma processNacks_conf now f : same_conf f (processNacks now f).
Proof.
  unfold processNacks. destruct (_ =? 0); [done|]. cbv zeta.
  assert (Hr : same_conf f (on_receiver (refill_tokens now) f)).
  { apply on_receiver_conf. unfold refill_tokens. by repeat case_match. }
  conf_step Hr. generalize (on_receiver (refill_tokens now) f). clear f Hr. intros f.
  pose proof (nack_walk_conf now (missing (receiver f)) [] f) as Hw.
  destruct (nack_walk now (missing (receiver f)) [] f) as [[kept f1] batch]. cbn [fst snd] in Hw. conf_step Hw.
  destruct batch; by split.
Qed.

Lemma service_loop_conf now rtt missing emitted f : same_conf f (service_loop now rtt missing emitted f).
Proof.
  revert emitted f. induction missing as [|n missing IH]; intros emitted f; cbn [service_loop]; [done|].
  destruct (nack_gate now rtt f n); [(etrans; [|apply IH]); by split..|].
  destruct (_ <=? _); [by split|]. etrans; [|apply IH]. by split.
Qed.

Lemma pushAppBlock_conf now payload frag n st f : same_conf f (pushAppBlock now payload frag n st f).
Proof.
  unfold pushAppBlock. cbv zeta. destruct (s_started _), (NoRecovery (cfg f)); repeat case_match; by split.
Qed.

Lemma Feed_conf now path pkt f : same_conf f (Feed now path pkt f).
Proof. unfold Feed. destruct (role f); [done|apply feed_conf]. Qed.

Lemma FeedFeedback_conf now fb f : same_conf f (FeedFeedback now fb f).
Proof.
  unfold FeedFeedback. destruct fb; try by split. destruct (role f); [|by split].
  unfold serviceNack. cbv zeta. etrans; [|apply service_loop_conf]. by split.
Qed.

(** ** Every call keeps the invariant *)

Lemma autoScaleBuffer_recv k f : recv_inv k f -> recv_inv k (autoScaleBuffer f).
Proof.
  intros H. unfold autoScaleBuffer. destruct (negb _); [done|]. cbv zeta.
  destruct (_ <=? 0); [frame|]. destruct (_ =? _); [frame|]. destruct (_ <=? 0); frame.
Qed.

Lemma receiver_echo_recv k now f : recv_inv k f -> recv_inv k (receiver_echo now f).
Proof.
  intros H. unfold receiver_echo. destruct (started _); [|done]. apply autoScaleBuffer_recv.
  eapply (recv_inv_frame k f); [done|by split|done..|]. do 2 apply fifo_push_wf. apply (rv_outputs k f), H.
Qed.

Lemma scheduleNack_recv k now f :
  recv_core k f -> playoutArmed (receiver f) = true \/ empty_ring (receiver f) -> recv_inv k (scheduleNack now f).
Proof.
  intros Hi Hp. destruct (scheduleNack_missing now f) as (N1 & N2 & N3 & N4). pose proof (scheduleNack_same now f) as Hs. split.
  - apply (recv_core_frame k f); try done. apply scheduleNack_outputs, Hi.
  - rewrite N1. intros Hm. apply scheduleNack_armed; [apply Hi|done].
  - rewrite N3. destruct Hp as [?|He]; [by left|right]. intros n. rewrite (same_core_buffered f) by done. apply He.
Qed.

Lemma nack_timer_recv k now f :
  recv_inv k f ->
  recv_inv k (scheduleNack now (processNacks now (on_receiver (fun r => r <| nackArmed := false |>) f))).
Proof.
  intros [Hc Hn Hp]. set (g := on_receiver _ f).
  assert (Hg : recv_core k g) by (by apply (recv_core_frame k f); [..|apply (rv_outputs k f)]).
  apply scheduleNack_recv; [by apply processNacks_core|].
  destruct (processNacks_spec now g) as (n & _ & Hs & _ & _ & _ & Hpl).
  { apply Hg. } { pose proof (rv_bound _ _ Hg). pose proof (rv_max _ _ Hg). lia. } { apply Hg. }
  rewrite Hpl. destruct Hp as [?|He]; [by left|right]. intros m. rewrite (same_core_buffered g) by done. apply He.
Qed.

Lemma HandleTimer_recv k now id f :
  recv_inv k f -> role f = RoleReceiver -> recv_inv k (HandleTimer now id f).
Proof.
  intros Hi Hr. unfold HandleTimer. rewrite Hr. destruct (id =? TimerPlayout).
  - apply deliverDue_recv. destruct Hi as [Hc Hn _]. split; [|done].
    by apply (recv_core_frame k f); [..|apply (rv_outputs k f)].
  - destruct (id =? TimerNack); [by apply nack_timer_recv|]. destruct (_ =? _); [by apply receiver_echo_recv|done].
Qed.

Lemma Tick_recv k now f : recv_inv k f -> role f = RoleReceiver -> recv_inv k (Tick now f).
Proof.
  intros Hi Hr. unfold Tick. rewrite Hr. apply processNacks_recv, deliverDue_recv. destruct Hi. by split.
Qed.

Lemma FeedFeedback_recv k now fb f : recv_inv k f -> role f = RoleReceiver -> recv_inv k (FeedFeedback now fb f).
Proof. intros H Hr. unfold FeedFeedback. rewrite Hr. destruct fb; frame. Qed.

Lemma SetRTTMultiplier_recv k m f : recv_inv k f -> recv_inv k (SetRTTMultiplier m f).
Proof. intros [[] ? ?]. split; [by split|done..]. Qed.

Lemma SetSenderMaxBuffer_recv k b f : recv_inv k f -> recv_inv k (SetSenderMaxBuffer b f).
Proof.
  intros H. unfold SetSenderMaxBuffer. destruct (negb _); [done|]. destruct (_ <? _); [frame|].
  destruct (_ =? _); frame.
Qed.

Lemma FeedFeedback_send k now fb f :
  send_inv k f -> maxNacksPerLoop f < 2 ^ 62 -> role f = RoleSender -> send_inv k (FeedFeedback now fb f).
Proof.
  intros H Hm Hr. unfold FeedFeedback. rewrite Hr. destruct fb; try (by destruct H; split).
  - by destruct (serviceNack_spec k now missing f H Hm) as (? & ? & []).
  - destruct H. split; try done. by apply fifo_push_wf.
Qed.

Lemma HandleTimer_send k now id f : send_inv k f -> role f = RoleSender -> send_inv k (HandleTimer now id f).
Proof.
  intros H Hr. unfold HandleTimer, senderHandleTimer. rewrite Hr. destruct (_ =? _); [|done]. destruct (s_started _); [|done].
  destruct H. split; try done. by do 2 apply fifo_push_wf.
Qed.

(** Popping a queue keeps the invariant. *)
Lemma set_queues_inv k q e f :
  flow_inv k f -> fifo_wf q -> fifo_wf e -> flow_inv k (f <| outputs := q |> <| events := e |>).
Proof.
  unfold flow_inv. change (role (f <| outputs := q |> <| events := e |>)) with (role f). destruct (role f).
  - intros [[] ?] ? ?. split; [by split|done].
  - intros [[] ? ?] ? ?. split; [by split|done..].
Qed.

Lemma flow_inv_queues k f : flow_inv k f -> fifo_wf (outputs f) /\ fifo_wf (events f).
Proof. unfold flow_inv. destruct (role f); [intros [[] ?]|intros [[] ? ?]]; done. Qed.

Lemma PollOutput_inv k f : flow_inv k f -> flow_inv k (PollOutput f).2.
Proof.
  intros Hi. destruct (flow_inv_queues k f Hi) as [Ho He]. pose proof (fifo_pop_wf Output_nil _ Ho) as Hp.
  unfold PollOutput. destruct (fifo_pop _ _) as [o q]. cbn [snd] in *.
  apply (set_queues_inv k q (events f) f) in Hi; [|done..]. by destruct f.
Qed.

Lemma PollEvent_inv k f : flow_inv k f -> flow_inv k (PollEvent f).2.
Proof.
  intros Hi. destruct (flow_inv_queues k f Hi) as [Ho He]. pose proof (fifo_pop_wf Event_nil _ He) as Hp.
  unfold PollEvent. destruct (fifo_pop _ _) as [o q]. cbn [snd] in *.
  apply (set_queues_inv k (outputs f) q f) in Hi; [|done..]. by destruct f.
Qed.

Lemma flow_inv_receiver k f f' : same_conf f f' -> role f = RoleReceiver -> recv_inv k f' -> flow_inv k f'.
Proof. intros Hc Hr Hi. unfold flow_inv. by rewrite (cf_role _ _ Hc), Hr. Qed.

Lemma flow_inv_sender k f f' :
  same_conf f f' -> role f = RoleSender -> maxNacksPerLoop f < 2 ^ 62 -> send_inv k f' -> flow_inv k f'.
Proof. intros Hc Hr Hm Hi. unfold flow_inv. by rewrite (cf_role _ _ Hc), (cf_loop _ _ Hc), Hr. Qed.

Lemma autoScaleBuffer_role f : role (autoScaleBuffer f) = role f.
Proof.
  unfold autoScaleBuffer. destruct (negb _); [done|]. cbv zeta. destruct (_ <=? 0); [done|].
  destruct (_ =? _); [done|]. by destruct (_ <=? 0).
Qed.

Lemma senderHandleTimer_conf now id f : same_conf f (senderHandleTimer now id f).
Proof. unfold senderHandleTimer. destruct (_ =? _); [|done]. destruct (s_started _); by split. Qed.

Lemma HandleTimer_role now id f : role (HandleTimer now id f) = role f.
Proof.
  unfold HandleTimer. destruct (role f) eqn:E; [by rewrite (cf_role _ _ (senderHandleTimer_conf now id f))|].
  destruct (_ =? _); [by rewrite (cf_role _ _ (deliverDue_conf now _))|].
  destruct (_ =? _); [by rewrite (cf_role _ _ (scheduleNack_conf now _)), (cf_role _ _ (processNacks_conf now _))|].
  destruct (_ =? _); [|done]. unfold receiver_echo. destruct (started _); [|done]. by rewrite autoScaleBuffer_role.
Qed.

Lemma Tick_conf now f : same_conf f (Tick now f).
Proof. unfold Tick. destruct (role f); [done|]. conf_step (deliverDue_conf now). apply processNacks_conf. Qed.

Lemma SetSenderMaxBuffer_role b f : role (SetSenderMaxBuffer b f) = role f.
Proof. unfold SetSenderMaxBuffer. destruct (negb _); [done|]. destruct (_ <? _); [done|]. by destruct (_ =? _). Qed.

(** The flow of a world after one call, without the polls. *)
Lemma exec_receiver k c w :
  recv_inv k (w_flow w) -> role (w_flow w) = RoleReceiver -> call_typed c -> flow_inv k (w_flow (exec c w)).
Proof.
  intros Hi Hr Hc. assert (Hf : flow_inv k (w_flow w)) by (unfold flow_inv; by rewrite Hr).
  destruct c; cbn [exec w_flow].
  - eapply flow_inv_receiver; [apply Feed_conf|done|]. unfold Feed. rewrite Hr. apply feed_inv; [done|apply Hc].
  - eapply flow_inv_receiver; [apply FeedFeedback_conf|done|]. by apply FeedFeedback_recv.
  - unfold PushApp, PushAppFrag. by rewrite Hr.
  - unfold PushAppFrag. by rewrite Hr.
  - unfold PushAppBlock. by rewrite Hr.
  - unfold flow_inv. rewrite HandleTimer_role, Hr. by apply HandleTimer_recv.
  - eapply flow_inv_receiver; [apply Tick_conf|done|]. by apply Tick_recv.
  - unfold flow_inv. change (role (SetRTTMultiplier _ _)) with (role (w_flow w)). rewrite Hr. by apply SetRTTMultiplier_recv.
  - unfold flow_inv. rewrite SetSenderMaxBuffer_role, Hr. by apply SetSenderMaxBuffer_recv.
  - pose proof (PollOutput_inv k _ Hf). by destruct (PollOutput (w_flow w)).
  - pose proof (PollEvent_inv k _ Hf). by destruct (PollEvent (w_flow w)).
Qed.

Lemma exec_sender k c w :
  send_inv k (w_flow w) -> maxNacksPerLoop (w_flow w) < 2 ^ 62 -> role (w_flow w) = RoleSender ->
  flow_inv k (w_flow (exec c w)).
Proof.
  intros Hi Hm Hr. assert (Hf : flow_inv k (w_flow w)) by (unfold flow_inv; by rewrite Hr).
  assert (Hpush : forall now payload frag n st, flow_inv k (pushAppBlock now payload frag n st (w_flow w))).
  { intros. eapply flow_inv_sender; [apply pushAppBlock_conf|done..|]. by apply push_inv. }
  destruct c; cbn [exec w_flow].
  - unfold Feed. by rewrite Hr.
  - eapply flow_inv_sender; [apply FeedFeedback_conf|done..|]. by apply FeedFeedback_send.
  - unfold PushApp, PushAppFrag, pushApp. rewrite Hr. apply Hpush.
  - unfold PushAppFrag, pushApp. rewrite Hr. apply Hpush.
  - unfold PushAppBlock. rewrite Hr. apply Hpush.
  - pose proof (HandleTimer_send k now id _ Hi Hr) as Ht. unfold HandleTimer in *. rewrite Hr in *.
    by eapply flow_inv_sender; [apply senderHandleTimer_conf|..].
  - unfold Tick. by rewrite Hr.
  - unfold flow_inv. change (role (SetRTTMultiplier _ _)) with (role (w_flow w)). rewrite Hr. split; [by destruct Hi; split|done].
  - unfold SetSenderMaxBuffer. by rewrite Hr.
  - pose proof (PollOutput_inv k _ Hf). by destruct (PollOutput (w_flow w)).
  - pose proof (PollEvent_inv k _ Hf). by destruct (PollEvent (w_flow w)).
Qed.

Lemma exec_inv k c w : flow_inv k (w_flow w) -> call_typed c -> flow_inv k (w_flow (exec c w)).
Proof.
  intros Hi Hc. unfold flow_inv in Hi. destruct (role (w_flow w)) eqn:E.
  - destruct Hi. by apply exec_sender.
  - by apply exec_receiver.
Qed.

Lemma run_inv k cs w : flow_inv k (w_flow w) -> Forall call_typed cs -> flow_inv k (w_flow (run cs w)).
Proof.
  intros Hi Hcs. revert w Hi. induction Hcs as [|c cs Hc Hcs IH]; intros w Hi; [done|].
  cbn [run foldl]. apply IH. by apply exec_inv.
Qed.

Lemma exec_role c w : role (w_flow (exec c w)) = role (w_flow w).
Proof.
  destruct c; cbn [exec w_flow]; try done.
  - apply Feed_conf.
  - apply FeedFeedback_conf.
  - unfold PushApp, PushAppFrag, pushApp. destruct (role (w_flow w)) eqn:E; [by rewrite (cf_role _ _ (pushAppBlock_conf _ _ _ _ _ _))|done].
  - unfold PushAppFrag, pushApp. destruct (role (w_flow w)) eqn:E; [by rewrite (cf_role _ _ (pushAppBlock_conf _ _ _ _ _ _))|done].
  - unfold PushAppBlock. destruct (role (w_flow w)) eqn:E; [by rewrite (cf_role _ _ (pushAppBlock_conf _ _ _ _ _ _))|done].
  - apply HandleTimer_role.
  - apply Tick_conf.
  - apply SetSenderMaxBuffer_role.
  - unfold PollOutput. by destruct (fifo_pop _ _).
  - unfold PollEvent. by destruct (fifo_pop _ _).
Qed.

Lemma run_role cs w : role (w_flow (run cs w)) = role (w_flow w).
Proof. revert w. induction cs as [|c cs IH]; intros w; [done|]. cbn [run foldl]. fold (run cs (exec c w)). by rewrite IH, exec_role. Qed.

(** Reachable receivers and senders, by role. *)
Lemma run_receiver k cs c :
  flow_inv k (New RoleReceiver c) -> Forall call_typed cs -> recv_inv k (w_flow (run cs (new_world RoleReceiver c))).
Proof.
  intros Hi Hcs. pose proof (run_inv k cs (new_world RoleReceiver c) Hi Hcs) as H. unfold flow_inv in H.
  rewrite run_role in H. cbn [new_world w_flow] in H. by rewrite (proj1 (New_fields RoleReceiver c)) in H.
Qed.

Lemma run_sender k cs c :
  flow_inv k (New RoleSender c) -> Forall call_typed cs -> send_inv k (w_flow (run cs (new_world RoleSender c))).
Proof.
  intros Hi Hcs. pose proof (run_inv k cs (new_world RoleSender c) Hi Hcs) as H. unfold flow_inv in H.
  rewrite run_role in H. cbn [new_world w_flow] in H. rewrite (proj1 (New_fields RoleSender c)) in H. apply H.
Qed.

(** The configuration, up to the multiplier, and the queue bound do not change over an execution. *)
Lemma exec_const c w :
  let f := w_flow w in let f' := w_flow (exec c w) in
  (exists m, cfg f' = cfg f <| RTTMultiplier := m |>) /\ missingCounterMax f' = missingCounterMax f.
Proof.
  cbv zeta. assert (Hcf : forall f', same_conf (w_flow w) f' ->
    (exists m, cfg f' = cfg (w_flow w) <| RTTMultiplier := m |>) /\ missingCounterMax f' = missingCounterMax (w_flow w)).
  { intros f' [_ E1 _ _ E2 _ _]. rewrite E1, E2. split; [|done]. exists (RTTMultiplier (cfg (w_flow w))). by destruct (cfg (w_flow w)). }
  assert (Hsame : forall f', cfg f' = cfg (w_flow w) -> missingCounterMax f' = missingCounterMax (w_flow w) ->
    (exists m, cfg f' = cfg (w_flow w) <| RTTMultiplier := m |>) /\ missingCounterMax f' = missingCounterMax (w_flow w)).
  { intros f' E1 E2. rewrite E1, E2. split; [|done]. exists (RTTMultiplier (cfg (w_flow w))). by destruct (cfg (w_flow w)). }
  destruct c; cbn [exec w_flow].
  - apply Hcf, Feed_conf.
  - apply Hcf, FeedFeedback_conf.
  - unfold PushApp, PushAppFrag, pushApp. destruct (role _); [apply Hcf, pushAppBlock_conf|by apply Hsame].
  - unfold PushAppFrag, pushApp. destruct (role _); [apply Hcf, pushAppBlock_conf|by apply Hsame].
  - unfold PushAppBlock. destruct (role _); [apply Hcf, pushAppBlock_conf|by apply Hsame].
  - unfold HandleTimer. destruct (role _); [apply Hcf, senderHandleTimer_conf|].
    destruct (id =? TimerPlayout); [apply Hcf; etrans; [|apply deliverDue_conf]; by split|].
    destruct (id =? TimerNack); [apply Hcf; etrans; [|apply scheduleNack_conf]; etrans; [|apply processNacks_conf]; by split|].
    destruct (_ =? _); [|by apply Hsame]. unfold receiver_echo. destruct (started _); [|by apply Hsame].
    unfold autoScaleBuffer. destruct (negb _); [by apply Hsame|]. cbv zeta.
    destruct (_ <=? 0); [by apply Hsame|]. destruct (_ =? _); [by apply Hsame|]. destruct (_ <=? 0); by apply Hsame.
  - apply Hcf, Tick_conf.
  - split; [by eexists|done].
  - unfold SetSenderMaxBuffer. destruct (negb _); [by apply Hsame|]. destruct (_ <? _); [by apply Hsame|].
    destruct (_ =? _); by apply Hsame.
  - unfold PollOutput. destruct (fifo_pop _ _). by apply Hsame.
  - unfold PollEvent. destruct (fifo_pop _ _). by apply Hsame.
Qed.

Lemma run_const cs w :
  let f := w_flow w in let f' := w_flow (run cs w) in
  (exists m, cfg f' = cfg f <| RTTMultiplier := m |>) /\ missingCounterMax f' = missingCounterMax f.
Proof.
  cbv zeta. revert w. induction cs as [|c cs IH]; intros w.
  { change (run [] w) with w. split; [|done]. exists (RTTMultiplier (cfg (w_flow w))). by destruct (cfg (w_flow w)). }
  cbn [run foldl]. fold (run cs (exec c w)). destruct (IH (exec c w)) as [[m E1] E2].
  destruct (exec_const c w) as [[m' E3] E4]. rewrite E1, E2, E3, E4. split; [exists m; reflexivity|reflexivity].
Qed.

(** ** The recovery buffer *)

Lemma same_conf_buffer f f' : same_conf f f' -> buffer_inv f -> buffer_inv f'.
Proof. intros [? E1 E2 E3 ? ? E4] []. split; rewrite ?E1, ?E2, ?E3, ?E4; done. Qed.

Lemma desiredBuffer_window f :
  RecoveryBufferMin (cfg f) <= RecoveryBufferMax (cfg f) ->
  RecoveryBufferMin (cfg f) <= senderMaxBuffer (receiver f) ->
  RecoveryBufferMin (cfg f) <= desiredBuffer f <= RecoveryBufferMax (cfg f) /\ desiredBuffer f <= senderMaxBuffer (receiver f).
Proof.
  intros Hw Hs. unfold desiredBuffer. cbv zeta. set (d := if (_ <? recoveryBuffer f) && _ then _ else _). clearbody d.
  set (e := if d <? _ then _ else _).
  assert (RecoveryBufferMin (cfg f) <= e <= RecoveryBufferMax (cfg f)) by (subst e; case_cmp; lia).
  clearbody e. case_cmp; lia.
Qed.

Lemma autoScaleBuffer_buffer f : buffer_inv f -> buffer_inv (autoScaleBuffer f).
Proof.
  intros Hb. unfold autoScaleBuffer. destruct (negb _); [done|]. cbv zeta. set (g := on_receiver _ f).
  assert (Hg : buffer_inv g) by (by apply (same_conf_buffer f); [split|]). clearbody g.
  destruct (_ <=? 0); [done|]. destruct (_ =? _); [done|].
  destruct (Z.leb_spec (senderMaxBuffer (receiver g)) 0); [done|].
  destruct Hg as [H1 H2 H3]. destruct (desiredBuffer_window g) as [? ?]; [lia|lia|].
  split; [done|done|]. right. destruct H3 as [?|H3]; [lia|exact H3].
Qed.

Lemma SetSenderMaxBuffer_buffer b f : buffer_inv f -> buffer_inv (SetSenderMaxBuffer b f).
Proof.
  intros []. unfold SetSenderMaxBuffer. destruct (negb _); [done|].
  destruct (Z.ltb_spec b (RecoveryBufferMin (cfg f))); [split; [done..|by left]|].
  cbv zeta. destruct (_ =? 0); (split; [done..|by right]).
Qed.

Lemma exec_buffer c w : buffer_inv (w_flow w) -> buffer_inv (w_flow (exec c w)).
Proof.
  intros Hb. assert (Hcf : forall f', same_conf (w_flow w) f' -> buffer_inv f') by (intros f' Hf'; by eapply same_conf_buffer).
  destruct c; cbn [exec w_flow].
  - apply Hcf, Feed_conf.
  - apply Hcf, FeedFeedback_conf.
  - unfold PushApp, PushAppFrag, pushApp. destruct (role _); [apply Hcf, pushAppBlock_conf|done].
  - unfold PushAppFrag, pushApp. destruct (role _); [apply Hcf, pushAppBlock_conf|done].
  - unfold PushAppBlock. destruct (role _); [apply Hcf, pushAppBlock_conf|done].
  - unfold HandleTimer. destruct (role _); [apply Hcf, senderHandleTimer_conf|].
    destruct (id =? TimerPlayout); [apply Hcf; etrans; [|apply deliverDue_conf]; by split|].
    destruct (id =? TimerNack); [apply Hcf; etrans; [|apply scheduleNack_conf]; etrans; [|apply processNacks_conf]; by split|].
    destruct (_ =? _); [|done]. unfold receiver_echo. destruct (started _); [|done]. apply autoScaleBuffer_buffer, Hcf. by split.
  - apply Hcf, Tick_conf.
  - destruct Hb. by split.
  - by apply SetSenderMaxBuffer_buffer.
  - unfold PollOutput. destruct (fifo_pop _ _). apply Hcf. by split.
  - unfold PollEvent. destruct (fifo_pop _ _). apply Hcf. by split.
Qed.

Lemma run_buffer cs w : buffer_inv (w_flow w) -> buffer_inv (w_flow (run cs w)).
Proof.
  revert w. induction cs as [|c cs IH]; intros w Hb; [done|]. cbn [run foldl]. by apply IH, exec_buffer.
Qed.

Lemma New_buffer ro c : 0 <= RecoveryBufferMin c <= RecoveryBufferMax c -> RecoveryBufferMax c < 2 ^ 62 -> buffer_inv (New ro c).
Proof.
  intros Hw Hm.
  assert (Hb : RecoveryBufferMin c <= RecoveryBuffer c <= RecoveryBufferMax c).
  { unfold RecoveryBuffer. rewrite (i64_id (RecoveryBufferMax c - RecoveryBufferMin c)) by (unfold in_i64; lia).
    rewrite Z.quot_div_nonneg by lia. pose proof (Z.div_mod (RecoveryBufferMax c - RecoveryBufferMin c) 2 ltac:(lia)).
    pose proof (Z.mod_pos_bound (RecoveryBufferMax c - RecoveryBufferMin c) 2 ltac:(lia)).
    rewrite i64_id by (unfold in_i64; lia). lia. }
  destruct (new_receiver_fields (ringCapacity c) c) as (_ & _ & _ & _ & _ & _ & _ & _ & E).
  unfold New. destruct ro; (split; [done|done|left]); [done|exact E].
Qed.

(** ** Properties *)

(** C4: The invariant holds of every flow a host can reach: from [New] with a validated configuration, after any
    sequence of calls with any arguments, on either role. *)
Theorem flow_invariant ro c cs :
  config_ok c -> Forall call_typed cs ->
  exists k, ringCapacity c = 2 ^ k /\ flow_inv k (w_flow (run cs (new_world ro c))).
Proof.
  intros Hc Hcs. destruct (New_inv ro c Hc) as (k & _ & E & Hi). exists k. split; [done|]. by apply run_inv.
Qed.

(** The auto-scaled recovery buffer never leaves its configured window, whatever the losses, the RTT samples, the
    negotiated sender maximum or the multiplier, and the 110% age bound is always that of the current buffer. *)
Theorem buffer_stays_in_window ro c cs :
  0 <= RecoveryBufferMin c <= RecoveryBufferMax c -> RecoveryBufferMax c < 2 ^ 62 ->
  let f := w_flow (run cs (new_world ro c)) in
  buffer_inv f /\ RecoveryBufferMin c <= CurrentRecoveryBuffer f <= RecoveryBufferMax c /\
  recoveryBuffer110 f = mul110 (CurrentRecoveryBuffer f).
Proof.
  intros Hw Hm. cbv zeta. pose proof (run_buffer cs (new_world ro c) (New_buffer ro c Hw Hm)) as Hb.
  split; [exact Hb|]. destruct Hb as [H1 H2 _].
  destruct (run_const cs (new_world ro c)) as [[m E1] _]. cbn [new_world w_flow] in *.
  rewrite E1 in H1. by destruct ro.
Qed.
