(* ===== verification/FlowChecked.v ===== *)
(** * The flow core with Go's index checks: internal/flow (receiver.go, sender.go, flow.go)

    The functions of Receiver and Sender read a ring through a total lookup.  Here the same functions take [&ring[n & mask]] the way Go does: an index outside the
    slice is a panic, [None].  Each checked function is proved to return what its total companion returns on every flow whose ring has the shape [New] gives it, and
    to keep that shape, so that no sequence of calls of a host panics; the session layer calls the checked functions. *)

From stdpp Require Import option.
From S2P Require Import Prelude GoFloat Seq Clock Wire Rtt FlowTypes Congestion FlowNew Sender Receiver Flow Window FlowInv.

(** ** The pointers *)

(** [&r.ring[n & r.mask]] and [&s.ring[n & s.mask]]; [None] is the run-time panic. *)
Definition slot_ptr (r : receiverState) (n : Z) : option slot := ring r !! ridx r n.
Definition history_ptr (s : senderState) (n : Z) : option senderSlot := s_ring s !! hidx s n.

(** ** receiver.go *)

Definition start_chk (now path : Z) (pkt : MediaPacket) (f : Flow) : option Flow :=
  _ ← slot_ptr (receiver f) (Seq pkt); Some (start now path pkt f).

Definition markMissing_chk (now path current packetTimeNow : Z) (f : Flow) : option Flow :=
  let r := receiver f in
  if NoRecovery (cfg f) then Some f else
  let gap := u32 (current - lastFound r) in
  let maxGap := if shortSeq r then MaxGap16 else zlen (ring r) / 2 in
  if maxGap <? gap then Some f else
  if gap =? 0 then Some f else
  ls ← slot_ptr r (lastFound r);
  let packetTimeLast := if holds ls (lastFound r) then s_packetTime ls else now in
  let delta := Timestamp.Sub packetTimeNow packetTimeLast in
  let delta := if delta <? 0 then 0 else delta in
  let interpacket := delta /g (gap + 1) in
  Some (markMissing_loop (Z.to_nat gap) now path current interpacket (u32 (lastFound r + 1)) packetTimeLast 1 f).

Definition feed_detect_chk (now path : Z) (pkt : MediaPacket) (packetTime : Z) (outOfOrder : bool) (f : Flow) : option Flow :=
  if Retransmit pkt then Some f else
  f ← (if negb outOfOrder && negb (u32 (Seq pkt - 1) =? lastFound (receiver f)) then markMissing_chk now path (Seq pkt) packetTime f else Some f);
  Some (if outOfOrder then f else on_receiver (fun r => r <| lastFound := Seq pkt |>) f).

(** The slot taken first is the one the packet is compared with and stored in. *)
Definition feed_insert_chk (now path : Z) (pkt : MediaPacket) (packetTime : Z) (outOfOrder : bool) (f : Flow) : option Flow :=
  s ← slot_ptr (receiver f) (Seq pkt);
  if holds s (Seq pkt) && (s_sourceTime s =? SourceTime pkt) then
    let s := s <| s_pathSeen ::= Z.lor (pathBit path) |> in
    Some (FlowTypes.count StDuplicates (on_receiver (set_slot (Seq pkt) s) f))
  else
  let outputTime := Timestamp.Add packetTime (recoveryBuffer f) in
  let f := feed_store now path pkt packetTime outputTime outOfOrder f in
  f ← feed_detect_chk now path pkt packetTime outOfOrder f;
  Some (scheduleNack now (armPlayout outputTime f)).

Definition feed_chk (now path : Z) (pkt : MediaPacket) (f : Flow) : option Flow :=
  let f := feed_ips now f in
  let f := feed_flow_change pkt f in
  let f := feed_framing_change now pkt f in
  if negb (started (receiver f)) then
    if Retransmit pkt then Some f else start_chk now path pkt f
  else
  let f := if Retransmit pkt then FlowTypes.count StRetransmittedReceived f else f in
  let '(packetTime, f) := feed_packet_time now pkt f in
  let f := feed_track pkt packetTime f in
  let late := behind_source pkt packetTime f in
  if late && Timestamp.After now (Timestamp.Add packetTime (recoveryBuffer110 f)) then Some (too_late pkt f)
  else
  let outOfOrder := late && negb (Retransmit pkt) in
  if Num32.Less (Seq pkt) (deliverNext (receiver f)) then Some (too_late pkt f)
  else feed_insert_chk now path pkt packetTime outOfOrder f.

Definition nack_entry_chk (now : Z) (e : missingEntry) (batch : list Z) (f : Flow) : option (option missingEntry * Flow * list Z) :=
  _ ← slot_ptr (receiver f) (me_seq e); Some (nack_entry now e batch f).

Fixpoint nack_walk_chk (now : Z) (es : list missingEntry) (batch : list Z) (f : Flow) : option (list missingEntry * Flow * list Z) :=
  match es with
  | [] => Some ([], f, batch)
  | e :: es =>
      '(kept, f, batch) ← nack_entry_chk now e batch f;
      let f := match kept with
               | Some _ => f
               | None => on_receiver (fun r => r <| missingCount ::= fun n => i64 (n - 1) |>) f
               end in
      '(rest, f, batch) ← nack_walk_chk now es batch f;
      Some (match kept with Some e => e :: rest | None => rest end, f, batch)
  end.

Definition processNacks_chk (now : Z) (f : Flow) : option Flow :=
  if missingCount (receiver f) =? 0 then Some f else
  let f := on_receiver (refill_tokens now) f in
  '(kept, f, batch) ← nack_walk_chk now (missing (receiver f)) [] f;
  let f := on_receiver (fun r => r <| missing := kept |>) f in
  Some match batch with
       | [] => f
       | _ => emit (SendFeedback (lastPath (receiver f)) (NackRequest (ssrc (receiver f)) batch)) f
       end.

Fixpoint clear_range_chk (k : nat) (n : Z) (r : receiverState) : option receiverState :=
  match k with
  | O => Some r
  | S k =>
      s ← slot_ptr r n;
      let r := if filled s then set_slot n (clear_slot s) r else r in
      clear_range_chk k (u32 (n + 1)) r
  end.

Definition skipTo_chk (target : Z) (f : Flow) : option Flow :=
  let r := receiver f in
  let lost := u32 (target - deliverNext r) in
  r ← clear_range_chk (Z.to_nat lost) (deliverNext r) r;
  let f := on_receiver (fun _ => r <| deliverNext := target |> <| pendingDiscontinuity := true |>) f in
  Some (FlowTypes.count StDiscontinuities (count_by StLost lost f)).

Fixpoint find_next_chk (n : nat) (from : Z) (r : receiverState) : option (option Z) :=
  match n with
  | O => Some None
  | S n =>
      let m := u32 (from + 1) in
      sl ← slot_ptr r m;
      if holds sl m then Some (Some m) else find_next_chk n m r
  end.

Definition deliver_step_chk (now : Z) (f : Flow) : option (bool * Flow) :=
  let r := receiver f in
  s ← slot_ptr r (deliverNext r);
  if holds s (deliverNext r) then
    Some (if Timestamp.Before now (s_outputTime s) then (false, armPlayout (s_outputTime s) f) else (true, emitDeliver f))
  else
  let dist := Num32.Distance (deliverNext r) (highest r) in
  if dist <=? 0 then Some (false, disarmPlayout f) else
  let ringN := zlen (ring r) in
  let limit := if ringN <? dist then ringN else dist in
  found ← find_next_chk (Z.to_nat limit) (deliverNext r) r;
  match found with
  | None =>
      if ringN <? dist then f ← skipTo_chk (u32 (deliverNext r + u32 ringN)) f; Some (true, f)
      else Some (false, disarmPlayout f)
  | Some foundSeq =>
      sl ← slot_ptr r foundSeq;
      if Timestamp.Before now (s_outputTime sl) then Some (false, armPlayout (s_outputTime sl) f)
      else f ← skipTo_chk foundSeq f; Some (true, f)
  end.

(** The outer option is the panic; the inner one is running out of fuel, as in [deliver_loop]. *)
Fixpoint deliver_loop_chk (fuel : nat) (now : Z) (f : Flow) : option (option Flow) :=
  match fuel with
  | O => Some None
  | S fuel =>
      '(continue, f) ← deliver_step_chk now f;
      if continue : bool then deliver_loop_chk fuel now f else Some (Some f)
  end.

Definition deliverDue_chk (now : Z) (f : Flow) : option Flow :=
  if negb (started (receiver f)) then Some f
  else done ← deliver_loop_chk (deliver_fuel (receiver f)) now f; Some (default f done).

(** ** sender.go *)

(** The slot is taken only when the history is kept. *)
Definition pushAppBlock_chk (now : Z) (payload : bytes) (frag : FragRole) (seqOpt sourceTime : option Z) (f : Flow) : option Flow :=
  if NoRecovery (cfg f) then Some (pushAppBlock now payload frag seqOpt sourceTime f) else
  _ ← history_ptr (sender f) (default (nextSeq (sender f)) seqOpt);
  Some (pushAppBlock now payload frag seqOpt sourceTime f).

Fixpoint service_loop_chk (now rtt : Z) (missing : list Z) (emitted : Z) (f : Flow) : option Flow :=
  match missing with
  | [] => Some f
  | n :: missing =>
      _ ← history_ptr (sender f) n;
      match nack_gate now rtt f n with
      | GateSkipped => service_loop_chk now rtt missing emitted (FlowTypes.count StRetransmitSkipped f)
      | GateSuppressed => service_loop_chk now rtt missing emitted (FlowTypes.count StRetransmitSuppressed f)
      | GateBandwidth => service_loop_chk now rtt missing emitted (FlowTypes.count StBandwidthSkipped f)
      | GateExhausted => service_loop_chk now rtt missing emitted (FlowTypes.count StRetransmitExhausted f)
      | GateSend =>
          let f := resend now n f in
          let emitted := i64 (emitted + 1) in
          if maxNacksPerLoop f <=? emitted then Some f else service_loop_chk now rtt missing emitted f
      end
  end.

Definition serviceNack_chk (now : Z) (missing : list Z) (f : Flow) : option Flow :=
  let rtt := retransmit_spacing f in
  let f := on_sender (fun s => s <| dataBW ::= bitrateEWMA.feed now 0 |> <| retryBW ::= bitrateEWMA.feed now 0 |>) f in
  service_loop_chk now rtt missing 0 f.

(** ** flow.go *)

Definition Feed_chk (now path : Z) (pkt : MediaPacket) (f : Flow) : option Flow :=
  match role f with RoleReceiver => feed_chk now path pkt f | RoleSender => Some f end.

Definition FeedFeedback_chk (now : Z) (fb : Feedback) (f : Flow) : option Flow :=
  match fb with
  | NackRequest _ missing =>
      match role f with RoleSender => serviceNack_chk now missing f | RoleReceiver => Some (FlowTypes.count StIgnoredFeedback f) end
  | _ => Some (FeedFeedback now fb f)
  end.

Definition PushAppBlock_chk (now : Z) (payload : bytes) (frag : FragRole) (seqOpt sourceTime : option Z) (f : Flow) : option Flow :=
  match role f with RoleSender => pushAppBlock_chk now payload frag seqOpt sourceTime f | RoleReceiver => Some f end.
Definition PushAppFrag_chk (now : Z) (payload : bytes) (frag : FragRole) (f : Flow) : option Flow :=
  PushAppBlock_chk now payload frag None None f.

Definition HandleTimer_chk (now id : Z) (f : Flow) : option Flow :=
  match role f with
  | RoleSender => Some (senderHandleTimer now id f)
  | RoleReceiver =>
      if id =? TimerPlayout then deliverDue_chk now (on_receiver (fun r => r <| playoutArmed := false |>) f)
      else if id =? TimerNack then
        f ← processNacks_chk now (on_receiver (fun r => r <| nackArmed := false |>) f); Some (scheduleNack now f)
      else if id =? TimerRttEcho then Some (receiver_echo now f)
      else Some f
  end.

Definition Tick_chk (now : Z) (f : Flow) : option Flow :=
  match role f with RoleReceiver => f ← deliverDue_chk now f; processNacks_chk now f | RoleSender => Some f end.

(** One call of a host, and a sequence of them, with their panics. *)
Definition exec_chk (c : Call) (w : World) : option World :=
  let go g := f ← g (w_flow w); Some (mkWorld f (w_outputs w) (w_events w)) in
  match c with
  | CFeed now path pkt => go (Feed_chk now path pkt)
  | CFeedFeedback now fb => go (FeedFeedback_chk now fb)
  | CPushApp now payload => go (PushAppFrag_chk now payload FragStandalone)
  | CPushAppFrag now payload frag => go (PushAppFrag_chk now payload frag)
  | CPushAppBlock now payload frag n st => go (PushAppBlock_chk now payload frag n st)
  | CHandleTimer now id => go (HandleTimer_chk now id)
  | CTick now => go (Tick_chk now)
  | c => Some (exec c w)
  end.

Fixpoint run_chk (cs : list Call) (w : World) : option World :=
  match cs with [] => Some w | c :: cs => w ← exec_chk c w; run_chk cs w end.

(** ** Shape *)

(** The extents a handler never changes. *)
Definition dims (f : Flow) : Role * (nat * Z) * (nat * Z) :=
  (role f, (length (ring (receiver f)), mask (receiver f)), (length (s_ring (sender f)), s_mask (sender f))).

(** Every index of the role's own ring is inside it. *)
Definition flow_shape (f : Flow) : Prop :=
  match role f with
  | RoleReceiver => exists k, ring_shape k (receiver f)
  | RoleSender => exists k, hist_shape k (sender f)
  end.

Lemma dims_shape f f' : dims f' = dims f -> flow_shape f -> flow_shape f'.
Proof.
  unfold dims, flow_shape, ring_shape, hist_shape, zlen. intros [= E1 E2 E3 E4 E5]. by rewrite E1, E2, E3, E4, E5.
Qed.

Lemma dims_receiver g f : (forall r, length (ring (g r)) = length (ring r)) -> (forall r, mask (g r) = mask r) -> dims (on_receiver g f) = dims f.
Proof. intros Hl Hm. unfold dims. simpl. by rewrite Hl, Hm. Qed.
Lemma dims_sender g f : (forall s, length (s_ring (g s)) = length (s_ring s)) -> (forall s, s_mask (g s) = s_mask s) -> dims (on_sender g f) = dims f.
Proof. intros Hl Hm. unfold dims. simpl. by rewrite Hl, Hm. Qed.
Lemma dims_emit o f : dims (emit o f) = dims f.
Proof. done. Qed.
Lemma dims_raise e f : dims (raise e f) = dims f.
Proof. done. Qed.
Lemma dims_count_by g `{!Setter g} n f : dims (count_by g n f) = dims f.
Proof. done. Qed.
Lemma dims_count g `{!Setter g} f : dims (FlowTypes.count g f) = dims f.
Proof. done. Qed.
Create Rewrite HintDb dims.
#[local] Hint Rewrite dims_emit dims_raise @dims_count_by @dims_count : dims.

(** The dimensions of a flow a handler has run on. *)
Ltac dims := repeat (autorewrite with dims; match goal with
  | |- ?x = ?x => reflexivity
  | |- context [if ?b then _ else _] => destruct b
  | |- context [dims (on_receiver _ _)] => rewrite dims_receiver; [|intros r; by cbn; rewrite ?length_insert, ?length_fmap|by intros r]
  | |- context [dims (on_sender _ _)] => rewrite dims_sender; [|intros r; by cbn; rewrite ?length_insert|by intros r]
  end).

Lemma dims_armPlayout d f : dims (armPlayout d f) = dims f.
Proof. unfold armPlayout. dims. Qed.
Lemma dims_disarmPlayout f : dims (disarmPlayout f) = dims f.
Proof. unfold disarmPlayout. dims. Qed.
Lemma dims_scheduleNack now f : dims (scheduleNack now f) = dims f.
Proof. unfold scheduleNack. dims. Qed.
#[local] Hint Rewrite dims_armPlayout dims_disarmPlayout dims_scheduleNack : dims.

Lemma dims_addMissing now path n t f : dims (addMissing now path n t f) = dims f.
Proof. unfold addMissing. cbv zeta. dims. Qed.
#[local] Hint Rewrite dims_addMissing : dims.
Lemma dims_missing_loop fuel now path cur ip m t c f : dims (markMissing_loop fuel now path cur ip m t c f) = dims f.
Proof. revert m t c f. induction fuel as [|fuel IH]; intros m t c f; cbn [markMissing_loop]; [done|]. cbv zeta. repeat case_match; rewrite ?IH; dims. Qed.
Lemma dims_markMissing now path cur t f : dims (markMissing now path cur t f) = dims f.
Proof. unfold markMissing. cbv zeta. repeat case_match; rewrite ?dims_missing_loop; done. Qed.
#[local] Hint Rewrite dims_missing_loop dims_markMissing : dims.

Lemma dims_feed_ips now f : dims (feed_ips now f) = dims f.
Proof. unfold feed_ips. cbv zeta. dims. Qed.
Lemma dims_flow_change pkt f : dims (feed_flow_change pkt f) = dims f.
Proof. unfold feed_flow_change, resetReceiver. cbv zeta. dims. Qed.
Lemma dims_framing_change now pkt f : dims (feed_framing_change now pkt f) = dims f.
Proof. unfold feed_framing_change. cbv zeta. dims. Qed.
Lemma dims_start now path pkt f : dims (start now path pkt f) = dims f.
Proof. unfold start. cbv zeta. dims. Qed.
Lemma dims_packet_time now pkt f : dims (feed_packet_time now pkt f).2 = dims f.
Proof. unfold feed_packet_time. cbv zeta. repeat case_match; cbn [snd]; dims. Qed.
Lemma dims_track pkt t f : dims (feed_track pkt t f) = dims f.
Proof. unfold feed_track. dims. Qed.
Lemma dims_too_late pkt f : dims (too_late pkt f) = dims f.
Proof. unfold too_late. dims. Qed.
Lemma dims_store now path pkt t o ooo f : dims (feed_store now path pkt t o ooo f) = dims f.
Proof. unfold feed_store. cbv zeta. dims. Qed.
#[local] Hint Rewrite dims_feed_ips dims_flow_change dims_framing_change dims_start dims_track dims_too_late dims_store : dims.

(** ** The receiver's functions return *)

Lemma slot_ptr_ok k r n : ring_shape k r -> slot_ptr r n = Some (slot_at r n).
Proof. intros Hs. unfold slot_ptr, slot_at. destruct (lookup_lt_is_Some_2 (ring r) (ridx r n) (ridx_lt k r n Hs)) as [s ->]. done. Qed.
Lemma history_ptr_ok k s n : hist_shape k s -> history_ptr s n = Some (history_at s n).
Proof. intros Hs. unfold history_ptr, history_at. destruct (lookup_lt_is_Some_2 (s_ring s) (hidx s n) (hidx_lt k s n Hs)) as [sl ->]. done. Qed.

Definition recv_shape (f : Flow) : Prop := exists k, ring_shape k (receiver f).
Definition send_shape (f : Flow) : Prop := exists k, hist_shape k (sender f).

Lemma dims_recv f f' : dims f' = dims f -> recv_shape f -> recv_shape f'.
Proof. unfold dims, recv_shape, ring_shape, zlen. intros [= E1 E2 E3 E4 E5]. by rewrite E2, E3. Qed.
Lemma dims_send f f' : dims f' = dims f -> send_shape f -> send_shape f'.
Proof. unfold dims, send_shape, hist_shape, zlen. intros [= E1 E2 E3 E4 E5]. by rewrite E4, E5. Qed.
Ltac shape := match goal with H : recv_shape ?f |- recv_shape _ => apply (dims_recv f); [dims|exact H] | H : send_shape ?f |- send_shape _ => apply (dims_send f); [dims|exact H] end.

Lemma ptr_ok f n : recv_shape f -> slot_ptr (receiver f) n = Some (slot_at (receiver f) n).
Proof. intros [k Hk]. by apply (slot_ptr_ok k). Qed.
Lemma hptr_ok f n : send_shape f -> history_ptr (sender f) n = Some (history_at (sender f) n).
Proof. intros [k Hk]. by apply (history_ptr_ok k). Qed.

Lemma start_returns now path pkt f : recv_shape f -> start_chk now path pkt f = Some (start now path pkt f).
Proof. intros H. unfold start_chk. by rewrite ptr_ok. Qed.
Lemma markMissing_returns now path cur t f : recv_shape f -> markMissing_chk now path cur t f = Some (markMissing now path cur t f).
Proof. intros H. unfold markMissing_chk, markMissing. cbv zeta. rewrite ptr_ok by done. cbn [mbind option_bind]. repeat match goal with |- context [if ?b then Some f else _] => destruct b; [done|] end. done. Qed.
Lemma detect_returns now path pkt t ooo f : recv_shape f -> feed_detect_chk now path pkt t ooo f = Some (feed_detect now path pkt t ooo f).
Proof. intros H. unfold feed_detect_chk, feed_detect. destruct (Retransmit pkt); [done|]. rewrite markMissing_returns by done. by destruct (negb ooo && _). Qed.
Lemma insert_returns now path pkt t ooo f : recv_shape f -> feed_insert_chk now path pkt t ooo f = Some (feed_insert now path pkt t ooo f).
Proof.
  intros H. unfold feed_insert_chk, feed_insert. rewrite ptr_ok by done. cbn [mbind option_bind]. cbv zeta. destruct (holds _ _ && _); [done|]. rewrite detect_returns; [done|]. shape.
Qed.
Lemma dims_detect now path pkt t ooo f : dims (feed_detect now path pkt t ooo f) = dims f.
Proof. unfold feed_detect. cbv zeta. dims. Qed.
#[local] Hint Rewrite dims_detect : dims.
Lemma dims_insert now path pkt t ooo f : dims (feed_insert now path pkt t ooo f) = dims f.
Proof. unfold feed_insert. cbv zeta. dims. Qed.
#[local] Hint Rewrite dims_insert : dims.

(** The packet after its timing: what [feed] goes on with. *)
Lemma feed_returns now path pkt f : recv_shape f -> feed_chk now path pkt f = Some (feed now path pkt f) /\ dims (feed now path pkt f) = dims f.
Proof.
  intros H. unfold feed_chk, feed. cbv zeta. set (f1 := feed_framing_change now pkt _). assert (E1 : dims f1 = dims f) by (unfold f1; dims). clearbody f1.
  assert (H1 : recv_shape f1) by (by apply (dims_recv f)). destruct (negb (started _)).
  { destruct (Retransmit pkt); [done|]. rewrite start_returns by done. split; [done|]. by rewrite dims_start. }
  set (f2 := if Retransmit pkt then _ else f1). assert (E2 : dims f2 = dims f1) by (unfold f2; dims). clearbody f2. pose proof (dims_packet_time now pkt f2) as E3. destruct (feed_packet_time now pkt f2) as [t f3]. cbn [snd] in E3.
  set (f4 := feed_track pkt t f3). assert (E4 : dims f4 = dims f3) by apply dims_track. clearbody f4. assert (H4 : recv_shape f4) by (apply (dims_recv f); congruence).
  destruct (_ && Timestamp.After _ _); [|destruct (Num32.Less _ _)]; [..|rewrite insert_returns by done]; (split; [done|]); rewrite ?dims_too_late, ?dims_insert; congruence.
Qed.

Lemma dims_count_recovered e f : dims (count_recovered e f) = dims f.
Proof. unfold count_recovered. cbv zeta. dims. Qed.
#[local] Hint Rewrite dims_count_recovered : dims.
Lemma dims_nack_entry now e batch f : dims (nack_entry now e batch f).1.2 = dims f.
Proof. unfold nack_entry. cbv zeta. repeat match goal with |- context [if ?b then (_, _, _) else _] => destruct b end; cbn [fst snd]; dims. Qed.
Lemma walk_returns now es : forall batch f, recv_shape f -> nack_walk_chk now es batch f = Some (nack_walk now es batch f) /\ dims (nack_walk now es batch f).1.2 = dims f.
Proof.
  induction es as [|e es IH]; intros batch f H; cbn [nack_walk_chk nack_walk]; [done|]. unfold nack_entry_chk. rewrite ptr_ok by done. cbn [mbind option_bind]. pose proof (dims_nack_entry now e batch f) as E. destruct (nack_entry now e batch f) as [[kept f1] b1]. cbn [fst snd] in E.
  set (f2 := match kept with Some _ => f1 | None => _ end). assert (E2 : dims f2 = dims f) by (unfold f2; destruct kept; dims; done). clearbody f2. destruct (IH b1 f2) as [-> E3]; [by apply (dims_recv f)|]. cbn [mbind option_bind]. destruct (nack_walk now es b1 f2) as [[rest f3] b3]. cbn [fst snd] in *. split; [done|congruence].
Qed.
Lemma nacks_return now f : recv_shape f -> processNacks_chk now f = Some (processNacks now f) /\ dims (processNacks now f) = dims f.
Proof.
  intros H. unfold processNacks_chk, processNacks. destruct (_ =? 0); [done|]. cbv zeta. set (f1 := on_receiver (refill_tokens now) f).
  assert (E1 : dims f1 = dims f) by (apply dims_receiver; intros r; unfold refill_tokens; cbv zeta; repeat case_match; done). clearbody f1.
  destruct (walk_returns now (missing (receiver f1)) [] f1) as [-> E2]; [by apply (dims_recv f)|]. cbn [mbind option_bind]. destruct (nack_walk now _ _ f1) as [[kept f2] batch]. cbn [fst snd] in E2. split; [done|]. destruct batch; dims; congruence.
Qed.

Lemma clear_returns k : forall n r, (exists j, ring_shape j r) -> clear_range_chk k n r = Some (clear_range k n r) /\ (length (ring (clear_range k n r)), mask (clear_range k n r)) = (length (ring r), mask r).
Proof.
  induction k as [|k IH]; intros n r [j Hj]; cbn [clear_range_chk clear_range]; [done|]. rewrite (slot_ptr_ok j) by done. cbn [mbind option_bind]. cbv zeta. set (r1 := if filled _ then _ else r).
  assert (E : (length (ring r1), mask r1) = (length (ring r), mask r)) by (unfold r1; destruct (filled _); cbn; by rewrite ?length_insert). clearbody r1. injection E as E1 E2.
  destruct (IH (u32 (n + 1)) r1) as [-> ->]; [exists j; unfold ring_shape, zlen in *; by rewrite E1, E2|]. by rewrite E1, E2.
Qed.
Lemma skipTo_returns target f : recv_shape f -> skipTo_chk target f = Some (skipTo target f) /\ dims (skipTo target f) = dims f.
Proof.
  intros H. unfold skipTo_chk, skipTo. cbv zeta. destruct (clear_returns (Z.to_nat (u32 (target - deliverNext (receiver f)))) (deliverNext (receiver f)) (receiver f) H) as [-> E]. cbn [mbind option_bind]. split; [done|].
  autorewrite with dims. unfold dims. cbn. injection E as -> ->. done.
Qed.
Lemma find_returns n : forall m r, (exists k, ring_shape k r) -> find_next_chk n m r = Some (find_next n m r).
Proof.
  induction n as [|n IH]; intros m r Hr; cbn [find_next_chk find_next]; [done|]. cbv zeta. destruct Hr as [k Hk]. rewrite (slot_ptr_ok k) by done. cbn [mbind option_bind]. destruct (holds _ _); [done|]. by apply IH; exists k.
Qed.
Lemma dims_emitDeliver f : dims (emitDeliver f) = dims f.
Proof. unfold emitDeliver. cbv zeta. dims. Qed.
#[local] Hint Rewrite dims_emitDeliver : dims.

Lemma step_returns now f : recv_shape f -> deliver_step_chk now f = Some (deliver_step now f) /\ dims (deliver_step now f).2 = dims f.
Proof.
  intros H. unfold deliver_step_chk, deliver_step. cbv zeta. rewrite ptr_ok by done. cbn [mbind option_bind]. destruct (holds _ _).
  { split; [done|]. destruct (Timestamp.Before _ _); cbn [snd]; dims. }
  destruct (_ <=? 0); [split; [done|]; cbn [snd]; dims|]. rewrite find_returns by done. cbn [mbind option_bind]. destruct (find_next _ _ _) as [n|].
  - rewrite ptr_ok by done. cbn [mbind option_bind]. destruct (Timestamp.Before _ _); [split; [done|]; cbn [snd]; dims|]. by destruct (skipTo_returns n f H) as [-> E].
  - destruct (_ <? _); [|split; [done|]; cbn [snd]; dims]. by destruct (skipTo_returns (u32 (deliverNext (receiver f) + u32 (zlen (ring (receiver f))))) f H) as [-> E].
Qed.
Lemma loop_returns now fuel : forall f, recv_shape f -> deliver_loop_chk fuel now f = Some (deliver_loop fuel now f) /\ forall f', deliver_loop fuel now f = Some f' -> dims f' = dims f.
Proof.
  induction fuel as [|fuel IH]; intros f H; cbn [deliver_loop_chk deliver_loop]; [done|]. destruct (step_returns now f H) as [-> E]. cbn [mbind option_bind]. destruct (deliver_step now f) as [[] f1]; cbn [snd] in E; [|by split; [|intros f' [= <-]]].
  destruct (IH f1) as [-> Hd]; [by apply (dims_recv f)|]. split; [done|]. intros f' Hf. by rewrite (Hd f' Hf).
Qed.
Lemma due_returns now f : recv_shape f -> deliverDue_chk now f = Some (deliverDue now f) /\ dims (deliverDue now f) = dims f.
Proof.
  intros H. unfold deliverDue_chk, deliverDue. destruct (negb _); [done|]. destruct (loop_returns now (deliver_fuel (receiver f)) f H) as [-> Hd]. cbn [mbind option_bind]. split; [done|]. destruct (deliver_loop _ _ _) as [f'|]; [by apply Hd|done].
Qed.

(** ** The sender's functions return *)

Lemma dims_pushAppBlock now p frag n st f : dims (pushAppBlock now p frag n st f) = dims f.
Proof. unfold pushAppBlock. cbv zeta. dims. Qed.
Lemma dims_resend now n f : dims (resend now n f) = dims f.
Proof. unfold resend. cbv zeta. dims. Qed.
#[local] Hint Rewrite dims_pushAppBlock dims_resend : dims.
Lemma push_returns now p frag n st f : send_shape f -> pushAppBlock_chk now p frag n st f = Some (pushAppBlock now p frag n st f).
Proof. intros H. unfold pushAppBlock_chk. rewrite hptr_ok by done. by destruct (NoRecovery _). Qed.
Lemma service_returns now rtt ms : forall em f, send_shape f -> service_loop_chk now rtt ms em f = Some (service_loop now rtt ms em f) /\ dims (service_loop now rtt ms em f) = dims f.
Proof.
  induction ms as [|n ms IH]; intros em f H; cbn [service_loop_chk service_loop]; [done|]. rewrite hptr_ok by done. cbn [mbind option_bind].
  destruct (nack_gate now rtt f n); [by apply (IH em (FlowTypes.count _ f))..|]. cbv zeta. destruct (_ <=? _); [by rewrite dims_resend|]. destruct (IH (i64 (em + 1)) (resend now n f)) as [-> ->]; [by shape|by rewrite dims_resend].
Qed.
Lemma nack_returns now ms f : send_shape f -> serviceNack_chk now ms f = Some (serviceNack now ms f) /\ dims (serviceNack now ms f) = dims f.
Proof. intros H. unfold serviceNack_chk, serviceNack. cbv zeta. set (f1 := on_sender _ f). assert (E : dims f1 = dims f) by (apply dims_sender; by intros s). destruct (service_returns now (retransmit_spacing f) ms 0 f1) as [-> ->]; [by apply (dims_send f)|done]. Qed.

(** ** The entry points return *)

Lemma shape_recv f : role f = RoleReceiver -> flow_shape f -> recv_shape f.
Proof. unfold flow_shape. by intros ->. Qed.
Lemma shape_send f : role f = RoleSender -> flow_shape f -> send_shape f.
Proof. unfold flow_shape. by intros ->. Qed.

Lemma Feed_returns now path pkt f : flow_shape f -> Feed_chk now path pkt f = Some (Feed now path pkt f) /\ dims (Feed now path pkt f) = dims f.
Proof. intros H. unfold Feed_chk, Feed. destruct (role f) eqn:E; [done|]. apply feed_returns. by apply shape_recv. Qed.
Lemma FeedFeedback_returns now fb f : flow_shape f -> FeedFeedback_chk now fb f = Some (FeedFeedback now fb f) /\ dims (FeedFeedback now fb f) = dims f.
Proof. intros H. unfold FeedFeedback_chk. destruct fb; try (by split). unfold FeedFeedback. destruct (role f) eqn:E; [|done]. apply nack_returns. by apply shape_send. Qed.
Lemma PushAppBlock_returns now p frag n st f : flow_shape f -> PushAppBlock_chk now p frag n st f = Some (PushAppBlock now p frag n st f) /\ dims (PushAppBlock now p frag n st f) = dims f.
Proof. intros H. unfold PushAppBlock_chk, PushAppBlock. destruct (role f) eqn:E; [|done]. split; [by apply push_returns, shape_send|apply dims_pushAppBlock]. Qed.
Lemma PushAppFrag_returns now p frag f : flow_shape f -> PushAppFrag_chk now p frag f = Some (PushAppFrag now p frag f) /\ dims (PushAppFrag now p frag f) = dims f.
Proof.
  intros H. assert (E : PushAppFrag now p frag f = PushAppBlock now p frag None None f) by (unfold PushAppFrag, PushAppBlock, pushApp; by destruct (role f)).
  rewrite E. exact (PushAppBlock_returns now p frag None None f H).
Qed.
Lemma dims_echo now f : dims (receiver_echo now f) = dims f.
Proof. unfold receiver_echo, autoScaleBuffer. cbv zeta. repeat case_match; done. Qed.
Lemma HandleTimer_returns now id f : flow_shape f -> HandleTimer_chk now id f = Some (HandleTimer now id f) /\ dims (HandleTimer now id f) = dims f.
Proof.
  intros H. unfold HandleTimer_chk, HandleTimer. destruct (role f) eqn:E.
  { split; [done|]. unfold senderHandleTimer. repeat case_match; done. }
  apply shape_recv in H; [|done]. destruct (_ =? TimerPlayout); [|destruct (_ =? TimerNack)].
  - set (f1 := on_receiver _ f). assert (E1 : dims f1 = dims f) by (apply dims_receiver; by intros r). destruct (due_returns now f1) as [-> ->]; [by apply (dims_recv f)|done].
  - set (f1 := on_receiver _ f). assert (E1 : dims f1 = dims f) by (apply dims_receiver; by intros r). destruct (nacks_return now f1) as [-> E2]; [by apply (dims_recv f)|]. cbn [mbind option_bind]. split; [done|]. by rewrite dims_scheduleNack, E2.
  - destruct (_ =? TimerRttEcho); [|done]. split; [done|apply dims_echo].
Qed.
Lemma Tick_returns now f : flow_shape f -> Tick_chk now f = Some (Tick now f) /\ dims (Tick now f) = dims f.
Proof.
  intros H. unfold Tick_chk, Tick. destruct (role f) eqn:E; [done|]. apply shape_recv in H; [|done]. destruct (due_returns now f H) as [-> E1]. cbn [mbind option_bind]. destruct (nacks_return now (deliverDue now f)) as [-> E2]; [by apply (dims_recv f)|]. split; [done|congruence].
Qed.

Lemma dims_PollOutput f : dims (PollOutput f).2 = dims f.
Proof. unfold PollOutput. by destruct (fifo_pop _ _). Qed.
Lemma dims_PollEvent f : dims (PollEvent f).2 = dims f.
Proof. unfold PollEvent. by destruct (fifo_pop _ _). Qed.
Lemma dims_senderMax n f : dims (SetSenderMaxBuffer n f) = dims f.
Proof. unfold SetSenderMaxBuffer. repeat case_match; done. Qed.
Lemma exec_returns c w : flow_shape (w_flow w) -> exec_chk c w = Some (exec c w) /\ dims (w_flow (exec c w)) = dims (w_flow w).
Proof.
  intros H. unfold exec_chk, exec. destruct c; cbv zeta; cbn [w_flow].
  - by destruct (Feed_returns now path pkt _ H) as [-> E].
  - by destruct (FeedFeedback_returns now fb _ H) as [-> E].
  - by destruct (PushAppFrag_returns now payload FragStandalone _ H) as [-> E].
  - by destruct (PushAppFrag_returns now payload frag _ H) as [-> E].
  - by destruct (PushAppBlock_returns now payload frag seqOpt sourceTime _ H) as [-> E].
  - by destruct (HandleTimer_returns now id _ H) as [-> E].
  - by destruct (Tick_returns now _ H) as [-> E].
  - done.
  - split; [done|apply dims_senderMax].
  - split; [done|]. pose proof (dims_PollOutput (w_flow w)). by destruct (PollOutput _).
  - split; [done|]. pose proof (dims_PollEvent (w_flow w)). by destruct (PollEvent _).
Qed.

Lemma New_shape ro c : RingSize c <= 2 ^ 31 -> flow_shape (New ro c).
Proof.
  intros Hr. destruct (ring_capacity_31 c Hr) as (k & Hk & E). unfold flow_shape, New. rewrite E. destruct ro; cbn [role]; exists k.
  - apply new_sender_inv. lia.
  - apply (new_ring_inv k (2 ^ k) c Hk eq_refl).
Qed.

Lemma run_returns cs : forall w, flow_shape (w_flow w) -> run_chk cs w = Some (run cs w) /\ dims (w_flow (run cs w)) = dims (w_flow w).
Proof.
  induction cs as [|c cs IH]; intros w H; [done|]. cbn [run_chk run foldl]. destruct (exec_returns c w H) as [-> E]. cbn [mbind option_bind]. destruct (IH (exec c w)) as [E1 E2]; [by apply (dims_shape (w_flow w))|]. split; [done|]. fold (run cs (exec c w)). congruence.
Qed.

(** ** Properties *)

(** The flow core never indexes its rings out of range.  For every role, every configuration whose ring size is at most 2^31, and every sequence of calls a host makes on the flow [New]
    returns, with any arguments, the execution whose ring accesses panic when out of range does not panic, and is the execution of the total functions the other theorems are about. *)
Theorem flow_never_panics ro c cs : RingSize c <= 2 ^ 31 -> run_chk cs (new_world ro c) = Some (run cs (new_world ro c)).
Proof. intros Hr. apply run_returns. by apply New_shape. Qed.

(** A packet, a gap, and the timers. *)
Definition checked_calls : list Call :=
  [CFeed 1000 0 (mkMediaPacket 7 0 4 [1] false 0 FragStandalone 0 0 false); CFeed 1100 0 (mkMediaPacket 10 0 4 [2] false 0 FragStandalone 0 0 false); CHandleTimer 3000000 TimerNack; CHandleTimer 9000000 TimerPlayout; CTick 9000001].
Lemma flow_never_panics_witness : run_chk checked_calls (new_world RoleReceiver demo_config) = Some (run checked_calls (new_world RoleReceiver demo_config)).
Proof. apply (flow_never_panics RoleReceiver demo_config checked_calls). vm_compute. discriminate. Defined.

(** The checks are there: the receiver's handler panics on the flow of a sender, whose receiver half has no ring. *)
Example feed_without_role_guard : feed_chk 1000 0 (mkMediaPacket 7 0 4 [1] false 0 FragStandalone 0 0 false) (New RoleSender demo_config) = None.
Proof. reflexivity. Qed.
