(* ===== verification/FlowTimers.v ===== *)
(** * The timers of a host: internal/flow (the SetTimer and ClearTimer effects of receiver.go and flow.go)

    The flow core keeps no timers: it emits SetTimer and ClearTimer effects, which the host applies, and remembers in two flags what it believes is set.  Here the host's timers are
    the map those effects make of it, and the flags are shown to be right about it: whatever the host calls, a receiver with a packet to play has the playout timer set at its host, and one
    with a gap to request has the NACK timer set. *)

From stdpp Require Import gmap.
From S2P Require Import Prelude GoFloat Seq Clock Wire Rtt FlowTypes Congestion FlowNew Sender Receiver Flow Window Playout FeedInv FlowInv.

(** ** The host *)

(** What an effect does to the host's timers (session.go, [drain]). *)
Definition apply_timer (ts : gmap Z Z) (o : Output) : gmap Z Z :=
  match o with SetTimer id d => <[id := d]> ts | ClearTimer id => delete id ts | _ => ts end.

(** A timer is taken out before it is handled (session.go, [fireTimers]). *)
Definition taken (c : Call) (ts : gmap Z Z) : gmap Z Z := match c with CHandleTimer _ id => delete id ts | _ => ts end.

(** One turn of a host: some calls, the timers it hands over taken out as it does, and then the effects of all of them applied, in the order they were emitted (the loop
    of a session: a handler, [fireTimers], [drain]). *)
Definition turn (cs : list Call) (w : World) (ts : gmap Z Z) : gmap Z Z :=
  foldl apply_timer (foldl (flip taken) ts cs) (drop (length (all_outputs w)) (all_outputs (run cs w))).

(** The timers of a host after its turns. *)
Fixpoint host_timers (turns : list (list Call)) (w : World) (ts : gmap Z Z) : gmap Z Z :=
  match turns with
  | [] => ts
  | cs :: turns => host_timers turns (run cs w) (turn cs w ts)
  end.

(** The same when the effects are applied after each call. *)
Fixpoint prompt_timers (cs : list Call) (w : World) (ts : gmap Z Z) : gmap Z Z :=
  match cs with
  | [] => ts
  | c :: cs => prompt_timers cs (exec c w) (turn [c] w ts)
  end.

(** ** The flags are right *)

Record timers_ok (r : receiverState) (ts : gmap Z Z) : Prop := {
  to_playout : playoutArmed r = true -> ts !! TimerPlayout = Some (playoutDeadline r);
  to_nack : nackArmed r = true -> is_Some (ts !! TimerNack) }.

(** What a handler emits keeps the flags right. *)
Definition honest (f f' : Flow) : Prop := exists os, items (outputs f') = items (outputs f) ++ os /\ head (outputs f') = head (outputs f) /\
  forall ts, timers_ok (receiver f) ts -> timers_ok (receiver f') (foldl apply_timer ts os).

#[local] Instance honest_pre : PreOrder honest.
Proof.
  split; [intros f; exists []; by rewrite app_nil_r|]. intros f g h (os & E1 & E2 & H) (os' & E1' & E2' & H'). exists (os ++ os'). split; [by rewrite E1', E1, app_assoc|]. split; [congruence|].
  intros ts Ht. rewrite foldl_app. by apply H', H.
Qed.

(** Flags may be dropped, the rest stays. *)
Definition quiet (r r' : receiverState) : Prop := (playoutArmed r' = true -> playoutArmed r = true /\ playoutDeadline r' = playoutDeadline r) /\ (nackArmed r' = true -> nackArmed r = true).
Lemma quiet_ok r r' ts : quiet r r' -> timers_ok r ts -> timers_ok r' ts.
Proof. intros [H1 H2] [T1 T2]. split; [intros H; destruct (H1 H) as [H3 ->]; by apply T1|intros H; by apply T2, H2]. Qed.

Lemma honest_receiver g f : (forall r, quiet r (g r)) -> honest f (on_receiver g f).
Proof. intros Hg. exists []. rewrite app_nil_r. split_and!; [done..|]. intros ts. apply quiet_ok, Hg. Qed.
Lemma honest_frame f f' : outputs f' = outputs f -> receiver f' = receiver f -> honest f f'.
Proof. intros E1 E2. exists []. rewrite app_nil_r, E1, E2. done. Qed.
Lemma honest_emit o f : (forall r ts, timers_ok r ts -> timers_ok r (apply_timer ts o)) -> honest f (emit o f).
Proof. intros H. exists [o]. split_and!; [done..|]. intros ts. apply H. Qed.
Lemma honest_count_by g `{!Setter g} n f : honest f (count_by g n f).
Proof. by apply honest_frame. Qed.
Lemma honest_count g `{!Setter g} f : honest f (FlowTypes.count g f).
Proof. by apply honest_frame. Qed.
Lemma honest_raise e f : honest f (raise e f).
Proof. by apply honest_frame. Qed.

(** Effects that are not about the two timers. *)
Definition other (o : Output) : Prop := match o with SetTimer id _ | ClearTimer id => id <> TimerPlayout /\ id <> TimerNack | _ => True end.
Lemma honest_other o f : other o -> honest f (emit o f).
Proof.
  intros Ho. apply honest_emit. intros r ts [T1 T2]. destruct o as [| |id d|id]; try done; destruct Ho as [H1 H2]; split; cbn.
  - intros H. rewrite lookup_insert_ne by done. by apply T1.
  - intros H. rewrite lookup_insert_ne by done. by apply T2.
  - intros H. rewrite lookup_delete_ne by done. by apply T1.
  - intros H. rewrite lookup_delete_ne by done. by apply T2.
Qed.

Lemma honest_armPlayout d f : honest f (armPlayout d f).
Proof.
  unfold armPlayout. destruct (_ && _); [reflexivity|]. exists [SetTimer TimerPlayout d]. split_and!; [done..|]. intros ts [T1 T2]. split; cbn.
  - intros _. apply lookup_insert_eq.
  - intros H. rewrite lookup_insert_ne by done. by apply T2.
Qed.
Lemma honest_disarmPlayout f : honest f (disarmPlayout f).
Proof.
  unfold disarmPlayout. destruct (negb _); [reflexivity|]. exists [ClearTimer TimerPlayout]. split_and!; [done..|]. intros ts [T1 T2]. split; cbn; [done|]. intros H. rewrite lookup_delete_ne by done. by apply T2.
Qed.
Lemma honest_scheduleNack now f : honest f (scheduleNack now f).
Proof.
  unfold scheduleNack. destruct (_ || _); [reflexivity|]. exists [SetTimer TimerNack (Timestamp.Add now nackCadence)]. split_and!; [done..|]. intros ts [T1 T2]. split; cbn.
  - intros H. rewrite lookup_insert_ne by done. by apply T1.
  - intros _. rewrite lookup_insert_eq. by eexists.
Qed.

(** Peel the steps of a handler off, the last one first. *)
Create HintDb honest.
#[local] Hint Resolve honest_count_by honest_count honest_raise honest_armPlayout honest_disarmPlayout honest_scheduleNack : honest.
Ltac quietly := apply honest_receiver; intros r; split; cbn; repeat case_match; done.
Ltac peel := repeat match goal with
  | |- honest ?f ?f => reflexivity
  | |- honest _ (if ?b then _ else _) => destruct b
  | |- honest _ (match ?x with _ => _ end) => destruct x
  | |- honest _ (_ ?g) => etransitivity; [|solve [eauto with honest|quietly|apply honest_other; done]]
  end.

Lemma honest_addMissing now path n t f : honest f (addMissing now path n t f).
Proof. unfold addMissing. cbv zeta. peel. Qed.
#[local] Hint Resolve honest_addMissing : honest.
Lemma honest_missing_loop fuel now path cur ip m t c f : honest f (markMissing_loop fuel now path cur ip m t c f).
Proof. revert m t c f. induction fuel as [|fuel IH]; intros m t c f; cbn [markMissing_loop]; [reflexivity|]. cbv zeta. repeat case_match; try reflexivity; [|etransitivity; [|apply IH]]; apply honest_addMissing. Qed.
#[local] Hint Resolve honest_missing_loop : honest.
Lemma honest_markMissing now path cur t f : honest f (markMissing now path cur t f).
Proof. unfold markMissing. cbv zeta. repeat match goal with |- honest f (if ?b then f else _) => destruct b; [reflexivity|] end. apply honest_missing_loop. Qed.
#[local] Hint Resolve honest_markMissing : honest.

Lemma honest_ips now f : honest f (feed_ips now f).
Proof. unfold feed_ips. cbv zeta. peel. Qed.
Lemma honest_flow_change pkt f : honest f (feed_flow_change pkt f).
Proof. unfold feed_flow_change, resetReceiver. cbv zeta. peel. Qed.
Lemma honest_framing_change now pkt f : honest f (feed_framing_change now pkt f).
Proof. unfold feed_framing_change. cbv zeta. peel. Qed.
Lemma honest_packet_time now pkt f : honest f (feed_packet_time now pkt f).2.
Proof. unfold feed_packet_time. cbv zeta. destruct (bool_decide _); [reflexivity|]. destruct (wraps_back _ _ _); cbn [snd]; peel. Qed.
Lemma honest_track pkt t f : honest f (feed_track pkt t f).
Proof. unfold feed_track. peel. Qed.
Lemma honest_too_late pkt f : honest f (too_late pkt f).
Proof. unfold too_late. cbv zeta. peel. Qed.
Lemma honest_start now path pkt f : honest f (start now path pkt f).
Proof. unfold start. cbv zeta. peel. Qed.
Lemma honest_store now path pkt t o ooo f : honest f (feed_store now path pkt t o ooo f).
Proof. unfold feed_store. cbv zeta. peel. Qed.
Lemma honest_detect now path pkt t ooo f : honest f (feed_detect now path pkt t ooo f).
Proof. unfold feed_detect. cbv zeta. peel. Qed.
#[local] Hint Resolve honest_ips honest_flow_change honest_framing_change honest_track honest_too_late honest_start honest_store honest_detect : honest.
Lemma honest_insert now path pkt t ooo f : honest f (feed_insert now path pkt t ooo f).
Proof. unfold feed_insert. cbv zeta. peel. Qed.
#[local] Hint Resolve honest_insert : honest.
Lemma honest_feed now path pkt f : honest f (feed now path pkt f).
Proof.
  unfold feed. cbv zeta. set (f1 := feed_framing_change now pkt _). assert (H1 : honest f f1) by (unfold f1; peel). clearbody f1. etransitivity; [exact H1|]. clear H1. destruct (negb (started _)).
  { destruct (Retransmit pkt); [reflexivity|apply honest_start]. }
  set (f2 := if Retransmit pkt then _ else f1). assert (H2 : honest f1 f2) by (unfold f2; peel). clearbody f2. etransitivity; [exact H2|]. clear H2. pose proof (honest_packet_time now pkt f2) as H3. destruct (feed_packet_time now pkt f2) as [t f3]. cbn [snd] in H3. etransitivity; [exact H3|].
  etransitivity; [apply (honest_track pkt t)|]. generalize (feed_track pkt t f3). intros f4. destruct (_ && Timestamp.After _ _); [apply honest_too_late|]. destruct (Num32.Less _ _); [apply honest_too_late|apply honest_insert].
Qed.

Lemma honest_nack_entry now e batch f : honest f (nack_entry now e batch f).1.2.
Proof. unfold nack_entry, count_recovered. cbv zeta. repeat match goal with |- context [if ?b then (_, _, _) else _] => destruct b end; cbn [fst snd]; peel. Qed.
Lemma honest_walk now es : forall batch f, honest f (nack_walk now es batch f).1.2.
Proof.
  induction es as [|e es IH]; intros batch f; cbn [nack_walk]; [reflexivity|]. pose proof (honest_nack_entry now e batch f) as H1. destruct (nack_entry now e batch f) as [[kept f1] b1]. cbn [fst snd] in H1.
  set (f2 := match kept with Some _ => f1 | None => _ end). assert (H2 : honest f1 f2) by (unfold f2; peel). clearbody f2. specialize (IH b1 f2). destruct (nack_walk now es b1 f2) as [[rest f3] b3]. cbn [fst snd] in *. by do 2 (etransitivity; [eassumption|]).
Qed.
Lemma honest_refill now f : honest f (on_receiver (refill_tokens now) f).
Proof. apply honest_receiver. intros r. unfold refill_tokens. cbv zeta. split; repeat case_match; done. Qed.
Lemma honest_nacks now f : honest f (processNacks now f).
Proof.
  unfold processNacks. destruct (_ =? 0); [reflexivity|]. cbv zeta. etransitivity; [apply (honest_refill now)|]. generalize (on_receiver (refill_tokens now) f). intros f1. pose proof (honest_walk now (missing (receiver f1)) [] f1) as H. destruct (nack_walk now _ [] f1) as [[kept f2] batch]. cbn [fst snd] in H.
  etransitivity; [exact H|]. peel.
Qed.
Lemma quiet_clear k : forall n r, quiet r (clear_range k n r).
Proof.
  induction k as [|k IH]; intros n r; cbn [clear_range]; [done|]. cbv zeta. set (r1 := if filled _ then _ else r). assert (H1 : quiet r r1) by (unfold r1; by destruct (filled _)). clearbody r1. destruct (IH (u32 (n + 1)) r1) as [H2 H3]. destruct H1 as [H4 H5]. split.
  - intros H. destruct (H2 H) as [H6 ->]. by apply H4.
  - intros H. by apply H5, H3.
Qed.
Lemma honest_skipTo target f : honest f (skipTo target f).
Proof.
  unfold skipTo. cbv zeta. etransitivity; [|apply honest_count]. etransitivity; [|apply honest_count_by]. exists []. rewrite app_nil_r. split_and!; [done..|]. intros ts. apply quiet_ok. exact (quiet_clear _ (deliverNext (receiver f)) (receiver f)).
Qed.
Lemma honest_emitDeliver f : honest f (emitDeliver f).
Proof. unfold emitDeliver. cbv zeta. peel. Qed.
#[local] Hint Resolve honest_skipTo honest_emitDeliver : honest.
Lemma honest_step now f : honest f (deliver_step now f).2.
Proof.
  unfold deliver_step. cbv zeta. destruct (holds _ _); [destruct (Timestamp.Before _ _); cbn [snd]; auto with honest|]. destruct (_ <=? 0); [cbn [snd]; auto with honest|]. destruct (find_next _ _ _) as [n|]; [destruct (Timestamp.Before _ _)|destruct (_ <? _)]; cbn [snd]; auto with honest.
Qed.
Lemma honest_loop now fuel : forall f f', deliver_loop fuel now f = Some f' -> honest f f'.
Proof.
  induction fuel as [|fuel IH]; intros f f'; cbn [deliver_loop]; [done|]. pose proof (honest_step now f) as H. destruct (deliver_step now f) as [[] f1]; cbn [snd] in H; [intros Hl; etransitivity; [exact H|by apply IH]|by intros [= <-]].
Qed.
Lemma honest_due now f : honest f (deliverDue now f).
Proof. unfold deliverDue. destruct (negb _); [reflexivity|]. destruct (deliver_loop _ _ _) as [f'|] eqn:E; [by apply (honest_loop now _ f f' E)|reflexivity]. Qed.

(** ** Calls *)

Lemma honest_echo now f : honest f (receiver_echo now f).
Proof.
  unfold receiver_echo. destruct (started _); [|reflexivity]. cbv zeta. etransitivity; [apply (honest_other (SendFeedback (lastPath (receiver f)) (RttEchoRequest 0 (NTPTimeFromTimestamp now)))); done|].
  etransitivity; [apply (honest_other (SetTimer TimerRttEcho (Timestamp.Add now rttEchoInterval))); done|]. generalize (emit (SetTimer TimerRttEcho (Timestamp.Add now rttEchoInterval)) (emit (SendFeedback (lastPath (receiver f)) (RttEchoRequest 0 (NTPTimeFromTimestamp now))) f)).
  intros g. unfold autoScaleBuffer. destruct (negb _); [reflexivity|]. cbv zeta. etransitivity; [apply (honest_receiver (fun r => r <| bufferTimeSum ::= (fun n => i64 (n + recoveryBuffer g)) |> <| bufferTimeSamples ::= (fun n => u64 (n + 1)) |>)); done|].
  generalize (on_receiver (fun r => r <| bufferTimeSum ::= (fun n => i64 (n + recoveryBuffer g)) |> <| bufferTimeSamples ::= (fun n => u64 (n + 1)) |>) g). intros h. destruct (_ <=? 0); [reflexivity|]. destruct (_ =? _); [reflexivity|]. destruct (_ <=? 0); [reflexivity|].
  etransitivity; [by apply (honest_frame h (h <| recoveryBuffer := desiredBuffer h |> <| recoveryBuffer110 := mul110 (desiredBuffer h) |>))|]. quietly.
Qed.

(** A call of the host: what it emits, applied to the timers the call leaves. *)
Lemma exec_honest c w ts : role (w_flow w) = RoleReceiver -> fifo_wf (outputs (w_flow w)) -> fifo_wf (outputs (w_flow (exec c w))) -> timers_ok (receiver (w_flow w)) ts ->
  all_outputs w `prefix_of` all_outputs (exec c w) /\ timers_ok (receiver (w_flow (exec c w))) (turn [c] w ts).
Proof.
  unfold turn. cbn [run foldl flip]. intros Hr Hwf Hwf' HT. set (f := w_flow w) in *.
  assert (HG : forall g f', w_outputs (exec c w) = w_outputs w -> w_flow (exec c w) = f' -> honest g f' -> outputs g = outputs f -> timers_ok (receiver g) (taken c ts) -> all_outputs w `prefix_of` all_outputs (exec c w) /\ timers_ok (receiver f') (foldl apply_timer (taken c ts) (drop (length (all_outputs w)) (all_outputs (exec c w))))).
  { intros g f' E1 E2 (os & E3 & E4 & H) E5 Hg. unfold all_outputs. rewrite E1, E2. unfold pending. rewrite E3, E4, E5. fold f. rewrite (drop_app_le (items (outputs f)) os (head (outputs f))) by exact Hwf. rewrite app_assoc. split; [by eexists|]. rewrite drop_app_length. by apply H. }
  assert (HS : forall f', w_outputs (exec c w) = w_outputs w -> w_flow (exec c w) = f' -> honest f f' -> taken c ts = ts -> all_outputs w `prefix_of` all_outputs (exec c w) /\ timers_ok (receiver f') (foldl apply_timer (taken c ts) (drop (length (all_outputs w)) (all_outputs (exec c w))))) by (intros f' E1 E2 H E; apply (HG f); try done; by rewrite E).
  destruct c as [now path pkt|now fb|now p|now p frag|now p frag sq st|now id|now|mult|mb| |].
  - apply HS; try done. cbn [exec w_flow]. fold f. unfold Feed. rewrite Hr. apply honest_feed.
  - apply HS; try done. cbn [exec w_flow]. fold f. unfold FeedFeedback. rewrite Hr. destruct fb; try apply honest_count; [by apply honest_other|by apply honest_frame].
  - apply HS; try done. cbn [exec w_flow]. fold f. unfold PushApp, PushAppFrag. by rewrite Hr.
  - apply HS; try done. cbn [exec w_flow]. fold f. unfold PushAppFrag. by rewrite Hr.
  - apply HS; try done. cbn [exec w_flow]. fold f. unfold PushAppBlock. by rewrite Hr.
  - destruct HT as [T1 T2]. assert (EH : w_flow (exec (CHandleTimer now id) w) = HandleTimer now id f) by done. rewrite EH. unfold HandleTimer in EH |- *. rewrite Hr in EH |- *. destruct (Z.eqb_spec id TimerPlayout) as [->|Hp]; [|destruct (Z.eqb_spec id TimerNack) as [->|Hn]].
    + apply (HG (on_receiver (fun r => r <| playoutArmed := false |>) f)); try done; [apply honest_due|]. split; cbn; [done|]. intros H. rewrite lookup_delete_ne by done. by apply T2.
    + apply (HG (on_receiver (fun r => r <| nackArmed := false |>) f)); try done; [etransitivity; [apply honest_nacks|apply honest_scheduleNack]|]. split; cbn; [|done]. intros H. rewrite lookup_delete_ne by done. by apply T1.
    + apply (HG f); try done; [destruct (id =? TimerRttEcho); [apply honest_echo|reflexivity]|]. split; cbn; intros H; rewrite lookup_delete_ne by done; [by apply T1|by apply T2].
  - apply HS; try done. cbn [exec w_flow]. fold f. unfold Tick. rewrite Hr. etransitivity; [apply honest_due|apply honest_nacks].
  - apply HS; try done. by apply honest_frame.
  - apply HS; try done. cbn [exec w_flow]. fold f. unfold SetSenderMaxBuffer. destruct (negb _); [reflexivity|]. destruct (_ <? _); [quietly|]. cbv zeta. etransitivity; [|quietly]. destruct (_ =? 0); [quietly|reflexivity].
  - assert (E : all_outputs (exec CPollOutput w) = all_outputs w /\ receiver (w_flow (exec CPollOutput w)) = receiver f); [|destruct E as [-> ->]; split; [done|by rewrite drop_all]].
    cbn [exec]. unfold PollOutput. destruct (fifo_pop_spec Output_nil (outputs (w_flow w)) Hwf) as [E1 E2]. destruct (fifo_pop Output_nil (outputs (w_flow w))) as [o q]. cbn [snd] in E2. split; [|done]. unfold all_outputs. cbn [w_outputs w_flow outputs]. change (outputs (w_flow w <| outputs := q |>)) with q. rewrite E2, <-app_assoc. f_equal. destruct (pending (outputs (w_flow w))) as [|v l]; injection E1 as ->; [by subst|done].
  - assert (E : all_outputs (exec CPollEvent w) = all_outputs w /\ receiver (w_flow (exec CPollEvent w)) = receiver f); [|destruct E as [-> ->]; split; [done|by rewrite drop_all]].
    cbn [exec]. unfold PollEvent. by destruct (fifo_pop Event_nil (events (w_flow w))) as [e q].
Qed.

Lemma timers_ok_sub r ts ts' : ts ⊆ ts' -> timers_ok r ts -> timers_ok r ts'.
Proof. intros Hs [T1 T2]. split; intros H; [by eapply lookup_weaken; [apply T1|]|]. destruct (T2 H) as [d E]. exists d. by eapply lookup_weaken. Qed.

(** A timer that is taken out late is set at least where one taken out in time is. *)
Lemma apply_mono ts ts' o : ts ⊆ ts' -> apply_timer ts o ⊆ apply_timer ts' o.
Proof. intros H. destruct o; cbn; [done|done|by apply insert_mono|by apply delete_mono]. Qed.
Lemma effects_mono os : forall ts ts', ts ⊆ ts' -> foldl apply_timer ts os ⊆ foldl apply_timer ts' os.
Proof. induction os as [|o os IH]; intros ts ts' H; [done|]. cbn. by apply IH, apply_mono. Qed.
Lemma taken_mono c ts ts' : ts ⊆ ts' -> taken c ts ⊆ taken c ts'.
Proof. intros H. destruct c; cbn; try done. by apply delete_mono. Qed.
Lemma taken_late c os : forall ts, taken c (foldl apply_timer ts os) ⊆ foldl apply_timer (taken c ts) os.
Proof.
  induction os as [|o os IH]; intros ts; [done|]. cbn [foldl]. etransitivity; [apply IH|]. apply effects_mono. destruct c; try done. cbn. destruct o as [| |j d|j]; cbn; [done|done| |by rewrite delete_delete].
  destruct (decide (id = j)) as [->|Hne]; [rewrite delete_insert_eq; apply insert_subseteq, lookup_delete_eq|by rewrite delete_insert_ne].
Qed.
Lemma takens_mono cs : forall ts ts', ts ⊆ ts' -> foldl (flip taken) ts cs ⊆ foldl (flip taken) ts' cs.
Proof. induction cs as [|c cs IH]; intros ts ts' H; [done|]. cbn. by apply IH, taken_mono. Qed.
Lemma takens_late cs : forall ts os, foldl (flip taken) (foldl apply_timer ts os) cs ⊆ foldl apply_timer (foldl (flip taken) ts cs) os.
Proof. induction cs as [|c cs IH]; intros ts os; [done|]. cbn. etransitivity; [apply takens_mono, taken_late|apply IH]. Qed.

Section turns.
Context (k : Z).
Let good (w : World) : Prop := role (w_flow w) = RoleReceiver /\ flow_inv k (w_flow w).

Lemma good_exec c w : good w -> call_typed c -> good (exec c w).
Proof. intros [Hr Hi] Hc. split; [by rewrite exec_role|by apply exec_inv]. Qed.
Lemma good_wf w : good w -> fifo_wf (outputs (w_flow w)).
Proof. intros [Hr Hi]. unfold flow_inv in Hi. rewrite Hr in Hi. by destruct Hi as [[] _ _]. Qed.
Lemma good_honest c w ts : good w -> call_typed c -> timers_ok (receiver (w_flow w)) ts -> timers_ok (receiver (w_flow (exec c w))) (turn [c] w ts).
Proof. intros Hg Hc HT. apply exec_honest; [apply Hg|by apply good_wf|by apply good_wf, good_exec|done]. Qed.
Lemma good_prefix c w : good w -> call_typed c -> all_outputs w `prefix_of` all_outputs (exec c w).
Proof.
  intros Hg Hc. pose proof Hg as [Hr _]. assert (HT : timers_ok (receiver (w_flow w)) (<[TimerPlayout := playoutDeadline (receiver (w_flow w))]> (<[TimerNack := 0]> ∅))) by (split; intros _; [by rewrite lookup_insert_eq|rewrite lookup_insert_ne, lookup_insert_eq by done; by eexists]).
  eapply exec_honest; [done|by apply good_wf|by apply good_wf, good_exec|exact HT].
Qed.
Lemma good_run cs : forall w, good w -> Forall call_typed cs -> good (run cs w) /\ all_outputs w `prefix_of` all_outputs (run cs w).
Proof.
  induction cs as [|c cs IH]; intros w Hg Hcs; [done|]. apply Forall_cons in Hcs as [Hc Hcs]. destruct (IH (exec c w)) as [H1 H2]; [by apply good_exec|done|]. split; [done|]. etransitivity; [by apply good_prefix|exact H2].
Qed.

Lemma prompt_sub cs : forall w ts, good w -> Forall call_typed cs -> prompt_timers cs w ts ⊆ turn cs w ts.
Proof.
  induction cs as [|c cs IH]; intros w ts Hg Hcs; [unfold turn; cbn; by rewrite drop_all|]. apply Forall_cons in Hcs as [Hc Hcs]. cbn [prompt_timers]. etransitivity; [apply IH; [by apply good_exec|done]|]. unfold turn.
  change (run (c :: cs) w) with (run cs (exec c w)). change (run [c] w) with (exec c w). destruct (good_prefix c w Hg Hc) as [o1 E1]. destruct (good_run cs (exec c w)) as [_ [o2 E2]]; [by apply good_exec|done|].
  rewrite E2, drop_app_length, E1, <-app_assoc, !drop_app_length, foldl_app. apply effects_mono. cbn [foldl]. apply takens_late.
Qed.

Lemma prompt_ok cs : forall w ts, good w -> Forall call_typed cs -> timers_ok (receiver (w_flow w)) ts -> timers_ok (receiver (w_flow (run cs w))) (prompt_timers cs w ts).
Proof.
  induction cs as [|c cs IH]; intros w ts Hg Hcs HT; [done|]. apply Forall_cons in Hcs as [Hc Hcs]. apply (IH (exec c w)); [by apply good_exec|done|by apply good_honest].
Qed.

Lemma turns_ok turns : forall w ts, good w -> Forall (Forall call_typed) turns -> timers_ok (receiver (w_flow w)) ts -> timers_ok (receiver (w_flow (run (concat turns) w))) (host_timers turns w ts).
Proof.
  induction turns as [|cs turns IH]; intros w ts Hg Hcs HT; [done|]. apply Forall_cons in Hcs as [Hc Hcs]. cbn [concat host_timers]. unfold run at 1. rewrite foldl_app. apply (IH (run cs w)); [by apply good_run|done|].
  eapply timers_ok_sub; [by apply prompt_sub|by apply prompt_ok].
Qed.
End turns.

(** ** Properties *)

(** C8: No receiver stalls.  For a validated configuration and any sequence of calls with well-typed arguments, let the host group its calls into turns as it likes: it takes a timer out when it hands
    it to the flow, and at the end of a turn it sets and clears its timers as the effects emitted in the turn say, in their order.  Then at the end of every turn, if the receiver holds a packet to play,
    the host's playout timer is set, for the deadline the receiver records, and if a sequence is queued to be requested, the host's NACK timer is set. *)
Theorem receiver_never_stalls c turns : config_ok c -> Forall (Forall call_typed) turns ->
  let r := receiver (w_flow (run (concat turns) (new_world RoleReceiver c))) in
  let ts := host_timers turns (new_world RoleReceiver c) ∅ in
  (forall n s, buffered r n = Some s -> ts !! TimerPlayout = Some (playoutDeadline r)) /\ (missing r <> [] -> is_Some (ts !! TimerNack)).
Proof.
  intros Hc Hcs. cbv zeta. destruct (New_inv RoleReceiver c Hc) as (k & _ & _ & Hi). pose proof (run_receiver k (concat turns) c Hi (proj2 (Forall_concat _ _) Hcs)) as [_ Hn Hp].
  destruct (turns_ok k turns (new_world RoleReceiver c) ∅) as [T1 T2]; [split; [apply (New_fields RoleReceiver c)|done]|done| |].
  { assert (E : playoutArmed (receiver (New RoleReceiver c)) = false /\ nackArmed (receiver (New RoleReceiver c)) = false) by (unfold New, new_receiver; cbn; by destruct (0 <? _)). destruct E as [E1 E2]. split; cbn [new_world w_flow]; intros H; congruence. }
  split.
  - intros n s Hb. apply T1. destruct Hp as [?|He]; [done|]. by rewrite He in Hb.
  - intros Hm. by apply T2, Hn.
Qed.
