(* ===== verification/Delivery.v ===== *)
(** * Delivery over whole executions

    Between two anchorings of a receiver the playout cursor only moves forward: the events delivered over any
    sequence of calls carry strictly increasing positions relative to the cursor they
    started from, every position is either delivered once or counted lost, and the event
    of a position is the packet that was fed for that sequence. *)

From S2P Require Import Prelude GoFloat Seq Clock Wire Rtt FlowTypes Congestion FlowNew Sender.
From S2P Require Import Receiver Flow Window Playout FeedInv Nack FlowInv.
From Stdlib Require Import Sorted.

(** ** Definitions *)

(** The events are delivered at increasing positions below [D], counted from cursor [d] modulo 2^32. *)
Definition in_order (d D : Z) (evs : list Event) : Prop :=
  exists ks, StronglySorted Z.lt ks /\ Forall (fun k => 0 <= k < D) ks /\
    ev_Seq <$> evs = (fun k => u32 (d + k)) <$> ks.

(** The cursor moved over [D] positions, delivering [evs] and counting the rest lost. *)
Record advances (f f' : Flow) (D : Z) (evs : list Event) : Prop := {
  ad_nonneg : 0 <= D;
  ad_events : pending (events f') = pending (events f) ++ evs;
  ad_order : in_order (deliverNext (receiver f)) D evs;
  ad_cursor : deliverNext (receiver f') = u32 (deliverNext (receiver f) + D);
  ad_delivered : u64 (StDelivered (stats f')) = u64 (StDelivered (stats f) + zlen evs);
  ad_lost : u64 (StLost (stats f')) = u64 (StLost (stats f) + (D - zlen evs)) }.

(** A call that delivers nothing and leaves the anchor and the cursor where they are. *)
Record quiet (f f' : Flow) : Prop := {
  q_events : events f' = events f;
  q_cursor : deliverNext (receiver f') = deliverNext (receiver f);
  q_started : started (receiver f') = started (receiver f);
  q_ssrc : ssrc (receiver f') = ssrc (receiver f);
  q_delivered : StDelivered (stats f') = StDelivered (stats f);
  q_lost : StLost (stats f') = StLost (stats f) }.

#[export] Instance quiet_preorder : PreOrder quiet.
Proof. split; [by intros f; split|]. intros f g h [] []. split; congruence. Qed.

(** The packet belongs to the flow the receiver is anchored on, or is a retransmission. *)
Definition same_flow (id : Z) (pkt : MediaPacket) : Prop :=
  Retransmit pkt = true \/ Z.ldiff (SSRC pkt) 1 = Z.ldiff id 1.

Definition call_same_flow (id : Z) (c : Call) : Prop :=
  match c with CFeed _ _ pkt => same_flow id pkt | _ => True end.

(** ** Advancing *)

Lemma in_order_nil d D : in_order d D [].
Proof. exists []. split_and!; constructor. Qed.

Lemma StronglySorted_app_lt l1 l2 D :
  StronglySorted Z.lt l1 -> StronglySorted Z.lt l2 -> Forall (fun k => k < D) l1 -> Forall (fun k => D <= k) l2 ->
  StronglySorted Z.lt (l1 ++ l2).
Proof.
  intros H1 H2 Hl1 Hl2. induction H1 as [|x l1 H1 IH Hx]; [done|]. inv Hl1 as [|? ? Hxd Hl].
  simpl. constructor; [by apply IH|]. apply Forall_app. split; [done|].
  eapply Forall_impl; [exact Hl2|]. simpl. lia.
Qed.

Lemma in_order_app d D D' evs evs' :
  0 <= D -> 0 <= D' -> in_order d D evs -> in_order (u32 (d + D)) D' evs' -> in_order d (D + D') (evs ++ evs').
Proof.
  intros HD HD' (ks & S1 & F1 & E1) (ks' & S2 & F2 & E2). exists (ks ++ ((fun k => D + k) <$> ks')). split_and!.
  - apply (StronglySorted_app_lt _ _ D); [done| | |].
    + clear -S2. induction S2 as [|x l S IH Hx]; [constructor|]. simpl. constructor; [done|].
      apply Forall_fmap. eapply Forall_impl; [exact Hx|]. simpl. lia.
    + eapply Forall_impl; [exact F1|]. simpl. lia.
    + apply Forall_fmap. eapply Forall_impl; [exact F2|]. simpl. lia.
  - apply Forall_app. split; [eapply Forall_impl; [exact F1|]; simpl; lia|].
    apply Forall_fmap. eapply Forall_impl; [exact F2|]. simpl. lia.
  - rewrite !fmap_app, E1, E2. f_equal. rewrite <-list_fmap_compose. apply list_fmap_ext. intros i k _. simpl.
    rewrite u32_add_l. f_equal. lia.
Qed.

Lemma advances_refl f : in_u32 (deliverNext (receiver f)) -> advances f f 0 [].
Proof.
  intros Hd. split; [lia|by rewrite app_nil_r|apply in_order_nil|by rewrite Z.add_0_r, u32_id|..];
    change (zlen (@nil Event)) with 0; f_equal; lia.
Qed.

Lemma advances_trans f g h D D' evs evs' :
  advances f g D evs -> advances g h D' evs' -> advances f h (D + D') (evs ++ evs').
Proof.
  intros [A1 A2 A3 A4 A5 A6] [B1 B2 B3 B4 B5 B6]. rewrite A4 in B3, B4. split.
  - lia.
  - by rewrite B2, A2, <-app_assoc.
  - by apply in_order_app.
  - rewrite B4, u32_add_l. f_equal. lia.
  - unfold zlen in *. rewrite length_app, B5, <-u64_add_l, A5, u64_add_l. f_equal. lia.
  - unfold zlen in *. rewrite length_app, B6, <-u64_add_l, A6, u64_add_l. f_equal. lia.
Qed.

Lemma advances_quiet f g h D evs : quiet f g -> advances g h D evs -> advances f h D evs.
Proof. intros [E1 E2 _ _ E3 E4] []. rewrite E1, E2, E3, E4 in *. by split. Qed.

Lemma quiet_advances f f' : in_u32 (deliverNext (receiver f)) -> quiet f f' -> advances f f' 0 [].
Proof.
  intros Hd Hq. destruct (advances_refl f Hd) as [? ? ? ? ? ?]. destruct Hq as [E1 E2 _ _ E3 E4].
  split; rewrite ?E1, ?E2, ?E3, ?E4; done.
Qed.

Lemma emitDeliver_advances k f s :
  ring_inv k (receiver f) -> fifo_wf (events f) -> buffered (receiver f) (deliverNext (receiver f)) = Some s ->
  advances f (emitDeliver f) 1 [deliver_event (pendingDiscontinuity (receiver f)) s].
Proof.
  intros Hi Hwf Hb. destruct (emitDeliver_effects f s Hb) as (He & _ & S1 & S2 & _).
  destruct (emitDeliver_ring f s Hb) as (_ & _ & _ & _ & Hd).
  split; [lia|by rewrite He, pending_push| |done| |].
  - exists [0]. split_and!; [repeat constructor|repeat constructor; lia|]. simpl.
    by rewrite (buffered_seq _ _ _ Hb), Z.add_0_r, u32_id by apply Hi.
  - by rewrite S1, u64_idem.
  - rewrite S2. f_equal. change (zlen [_]) with 1. lia.
Qed.

Lemma skipTo_advances f j :
  0 <= j < 2 ^ 32 -> advances f (skipTo (u32 (deliverNext (receiver f) + j)) f) j [].
Proof.
  intros Hj. destruct (skipTo_effects f j Hj) as (He & _ & S1 & S2 & _). destruct (skipTo_ring f j Hj) as (_ & _ & _ & _ & Hd).
  split; [lia|by rewrite He, app_nil_r|apply in_order_nil|done|..]; change (zlen (@nil Event)) with 0.
  - rewrite S1. f_equal. lia.
  - rewrite S2, u64_idem. f_equal. lia.
Qed.

Lemma disarmPlayout_quiet f : quiet f (disarmPlayout f).
Proof. unfold disarmPlayout. destruct (negb _); by split. Qed.

Lemma armPlayout_quiet d f : quiet f (armPlayout d f).
Proof. unfold armPlayout. destruct (_ && _); by split. Qed.

Lemma deliverDue_advances k now f :
  ring_inv k (receiver f) -> started (receiver f) = true -> fifo_wf (events f) ->
  exists D evs, advances f (deliverDue now f) D evs.
Proof.
  intros Hinv Hst. revert f Hinv Hst.
  apply (deliverDue_ind k now (fun f f' => fifo_wf (events f) -> exists D evs, advances f f' D evs)).
  - intros f f' Hi Hst Hc Hwf. exists 0, []. inv Hc; apply quiet_advances; try apply Hi;
      [apply armPlayout_quiet|apply disarmPlayout_quiet].
  - intros f f1 f' Hi Hst Hc Hi1 IH Hwf. pose proof (lead_range k _ Hi Hst).
    assert (Hstep : exists D evs, advances f f1 D evs /\ fifo_wf (events f1)).
    { pose proof (ri_shape _ _ Hi) as (Hk & _). pose proof (Z.pow_le_mono_r 2 k 31).
      inv Hc as [|s Hb Ho|j s Hj Hjk Hh Hb Ho| |Hlap Hh].
      - exists 1, [deliver_event (pendingDiscontinuity (receiver f)) s]. split; [by eapply emitDeliver_advances|].
        destruct (emitDeliver_effects f s Hb) as (-> & _). by apply fifo_push_wf.
      - exists j, []. split; [apply skipTo_advances; lia|done].
      - exists (2 ^ k), []. split; [apply skipTo_advances; lia|done]. }
    destruct Hstep as (D & evs & Ha & Hwf1). destruct (IH Hwf1) as (D' & evs' & Ha').
    exists (D + D'), (evs ++ evs'). by eapply advances_trans.
Qed.

(** ** The calls that deliver nothing *)

Lemma scheduleNack_quiet now f : quiet f (scheduleNack now f).
Proof. unfold scheduleNack. destruct (_ || _); by split. Qed.

Lemma markMissing_quiet now path cur t f : quiet f (markMissing now path cur t f).
Proof.
  destruct (markMissing_cases now path cur t f) as [->|(fuel & ip & t0 & ->)]; [done|].
  generalize 1 at 2. generalize (u32 (lastFound (receiver f) + 1)). intros m cnt. revert m t0 cnt f.
  induction fuel as [|fuel IH]; intros m t0 cnt f; cbn [markMissing_loop]; [done|].
  destruct (m =? cur); [done|]. destruct (_ <? _); [done|]. destruct (_ =? _); [by split|].
  etrans; [|apply IH]. by split.
Qed.

Lemma feed_insert_quiet now path pkt t ooo f : quiet f (feed_insert now path pkt t ooo f).
Proof.
  unfold feed_insert. cbv zeta. destruct (_ && _); [by split|].
  set (g := feed_store _ _ _ _ _ _ f). assert (Hg : quiet f g).
  { subst g. unfold feed_store. cbv zeta. destruct (filled _), ooo; destruct (Num32.Less _ _); by split. }
  clearbody g. etrans; [exact Hg|]. etrans; [|apply scheduleNack_quiet]. etrans; [|apply armPlayout_quiet].
  unfold feed_detect. destruct (Retransmit pkt); [done|]. cbv zeta.
  set (h := if _ && _ then _ else g). assert (Hh : quiet g h) by (subst h; destruct (_ && _); [apply markMissing_quiet|done]).
  clearbody h. destruct ooo; [done|]. etrans; [exact Hh|by split].
Qed.

Lemma feed_quiet now path pkt f :
  started (receiver f) = true -> same_flow (ssrc (receiver f)) pkt -> quiet f (feed now path pkt f).
Proof.
  intros Hst Hsf. unfold feed. cbv zeta. set (f1 := feed_ips now f).
  assert (H1 : quiet f f1) by (subst f1; unfold feed_ips; destruct (started _); by split). clearbody f1.
  assert (H2 : feed_flow_change pkt f1 = f1).
  { unfold feed_flow_change. rewrite (q_ssrc _ _ H1). destruct Hsf as [-> | ->].
    - by rewrite andb_false_r.
    - by rewrite Z.eqb_refl, andb_false_r. }
  rewrite H2. etrans; [exact H1|]. set (f3 := feed_framing_change now pkt f1).
  assert (H3 : quiet f1 f3) by (subst f3; unfold feed_framing_change; destruct (_ && _ && _); by split). clearbody f3.
  etrans; [exact H3|]. rewrite (q_started _ _ H3), (q_started _ _ H1), Hst. cbn [negb].
  set (f4 := if Retransmit pkt then _ else f3). assert (H4 : quiet f3 f4) by (subst f4; destruct (Retransmit pkt); by split).
  clearbody f4. etrans; [exact H4|].
  assert (H5 : quiet f4 (feed_packet_time now pkt f4).2).
  { unfold feed_packet_time. destruct (bool_decide _); [done|]. destruct (wraps_back now pkt f4); by split. }
  destruct (feed_packet_time now pkt f4) as [t f5]. cbn [snd] in H5. etrans; [exact H5|].
  assert (H6 : quiet f5 (feed_track pkt t f5)) by (unfold feed_track; destruct (_ <? _); by split). etrans; [exact H6|].
  assert (Hl : forall x, quiet x (too_late pkt x)) by (intros x; unfold too_late; destruct (Retransmit pkt); by split).
  destruct (_ && _); [apply Hl|]. destruct (Num32.Less _ _); [apply Hl|apply feed_insert_quiet].
Qed.

Lemma nack_entry_quiet now e batch f : quiet f (nack_entry now e batch f).1.2.
Proof.
  unfold nack_entry. cbv zeta. destruct (holds _ _); [unfold count_recovered; cbn [fst snd]; repeat case_match; by split|].
  destruct (filled _); [done|]. destruct (_ <=? _); [by split|]. destruct (_ <? _); [by split|].
  destruct (_ && _); [|done]. cbn [fst snd]. destruct (f64_ltb _ _); by split.
Qed.

Lemma nack_walk_quiet now es batch f : quiet f (nack_walk now es batch f).1.2.
Proof.
  revert batch f. induction es as [|e es IH]; intros batch f; cbn [nack_walk]; [done|].
  pose proof (nack_entry_quiet now e batch f) as He. destruct (nack_entry now e batch f) as [[kept f1] b1]. cbn [fst snd] in He.
  set (f2 := match kept with Some _ => f1 | None => _ end).
  assert (H2 : quiet f f2) by (subst f2; destruct kept; [done|]; etrans; [exact He|by split]). clearbody f2.
  specialize (IH b1 f2). destruct (nack_walk now es b1 f2) as [[rest f3] b3]. cbn [fst snd] in *. by etrans.
Qed.

Lemma processNacks_quiet now f : quiet f (processNacks now f).
Proof.
  unfold processNacks. destruct (_ =? 0); [done|]. cbv zeta.
  assert (Hr : quiet f (on_receiver (refill_tokens now) f)).
  { split; try done; unfold on_receiver, refill_tokens; simpl; by repeat case_match. }
  etrans; [exact Hr|]. generalize (on_receiver (refill_tokens now) f). clear f Hr. intros f.
  pose proof (nack_walk_quiet now (missing (receiver f)) [] f) as Hw.
  destruct (nack_walk now (missing (receiver f)) [] f) as [[kept f1] batch]. cbn [fst snd] in Hw. etrans; [exact Hw|].
  destruct batch; by split.
Qed.

Lemma autoScaleBuffer_quiet f : quiet f (autoScaleBuffer f).
Proof.
  unfold autoScaleBuffer. destruct (negb _); [done|]. cbv zeta. destruct (_ <=? 0); [by split|].
  destruct (_ =? _); [by split|]. destruct (_ <=? 0); by split.
Qed.

Lemma SetSenderMaxBuffer_quiet b f : quiet f (SetSenderMaxBuffer b f).
Proof.
  unfold SetSenderMaxBuffer. destruct (negb _); [done|]. destruct (_ <? _); [by split|]. destruct (_ =? _); by split.
Qed.

Lemma FeedFeedback_quiet now fb f : role f = RoleReceiver -> quiet f (FeedFeedback now fb f).
Proof. intros Hr. unfold FeedFeedback. rewrite Hr. destruct fb; by split. Qed.

Lemma receiver_echo_quiet now f : quiet f (receiver_echo now f).
Proof. unfold receiver_echo. destruct (started _); [|done]. etrans; [|apply autoScaleBuffer_quiet]. by split. Qed.

(** Playout keeps the anchor. *)
Lemma deliverDue_ssrc now f : ssrc (receiver (deliverDue now f)) = ssrc (receiver f).
Proof.
  unfold deliverDue. destruct (negb _); [done|]. generalize (deliver_fuel (receiver f)). intros fuel.
  destruct (deliver_loop fuel now f) as [f'|] eqn:E; [|done]. cbn [default]. revert f E.
  induction fuel as [|fuel IH]; intros f; cbn [deliver_loop]; [done|].
  assert (Hs : ssrc (receiver (deliver_step now f).2) = ssrc (receiver f)).
  { assert (Hskip : forall n, ssrc (receiver (skipTo n f)) = ssrc (receiver f)).
    { intros n. unfold skipTo. cbv zeta. set (j := Z.to_nat _). clearbody j. simpl.
      by rewrite (clear_range_frame j (deliverNext (receiver f)) (receiver f)). }
    unfold deliver_step. cbv zeta. destruct (holds _ _).
    - destruct (Timestamp.Before _ _); cbn [snd]; [apply armPlayout_quiet|done].
    - destruct (_ <=? 0); cbn [snd]; [apply disarmPlayout_quiet|]. destruct (find_next _ _ _).
      + destruct (Timestamp.Before _ _); cbn [snd]; [apply armPlayout_quiet|apply Hskip].
      + destruct (_ <? _); cbn [snd]; [apply Hskip|apply disarmPlayout_quiet]. }
  destruct (deliver_step now f) as [[] f1]; cbn [snd] in Hs; [|by intros [= <-]].
  intros E. rewrite <-Hs. by apply IH.
Qed.

(** ** Executions *)

(** [advances] on worlds: the events counted are all those the flow has produced. *)
Record progressed (w w' : World) (D : Z) (evs : list Event) : Prop := {
  pr_nonneg : 0 <= D;
  pr_events : all_events w' = all_events w ++ evs;
  pr_order : in_order (deliverNext (receiver (w_flow w))) D evs;
  pr_cursor : deliverNext (receiver (w_flow w')) = u32 (deliverNext (receiver (w_flow w)) + D);
  pr_delivered : u64 (StDelivered (stats (w_flow w'))) = u64 (StDelivered (stats (w_flow w)) + zlen evs);
  pr_lost : u64 (StLost (stats (w_flow w'))) = u64 (StLost (stats (w_flow w)) + (D - zlen evs));
  pr_started : started (receiver (w_flow w')) = started (receiver (w_flow w));
  pr_ssrc : ssrc (receiver (w_flow w')) = ssrc (receiver (w_flow w)) }.

Lemma progressed_trans w w1 w2 D D' evs evs' :
  progressed w w1 D evs -> progressed w1 w2 D' evs' -> progressed w w2 (D + D') (evs ++ evs').
Proof.
  intros [A1 A2 A3 A4 A5 A6 A7 A8] [B1 B2 B3 B4 B5 B6 B7 B8]. rewrite A4 in B3, B4. split; try congruence.
  - lia.
  - by rewrite B2, A2, <-app_assoc.
  - by apply in_order_app.
  - rewrite B4, u32_add_l. f_equal. lia.
  - unfold zlen in *. rewrite length_app, B5, <-u64_add_l, A5, u64_add_l. f_equal. lia.
  - unfold zlen in *. rewrite length_app, B6, <-u64_add_l, A6, u64_add_l. f_equal. lia.
Qed.

Lemma advances_progressed f f' outs evs0 D evs :
  advances f f' D evs -> started (receiver f') = started (receiver f) -> ssrc (receiver f') = ssrc (receiver f) ->
  progressed (mkWorld f outs evs0) (mkWorld f' outs evs0) D evs.
Proof.
  intros [A1 A2 A3 A4 A5 A6] Hs Hc. split; try done. unfold all_events. cbn [w_events w_flow]. by rewrite A2, app_assoc.
Qed.

Lemma quiet_progressed f f' outs evs0 :
  in_u32 (deliverNext (receiver f)) -> quiet f f' -> progressed (mkWorld f outs evs0) (mkWorld f' outs evs0) 0 [].
Proof. intros Hd Hq. apply advances_progressed; [by apply quiet_advances|apply Hq..]. Qed.

Lemma poll_event_all w : fifo_wf (events (w_flow w)) -> all_events (exec CPollEvent w) = all_events w.
Proof.
  intros Hwf. unfold all_events. cbn [exec]. unfold PollEvent.
  destruct (fifo_pop_spec Event_nil _ Hwf) as [E1 E2]. destruct (fifo_pop Event_nil (events (w_flow w))) as [e q].
  cbn [snd w_events w_flow] in *. change (pending (events (w_flow w <| events := q |>))) with (pending q). rewrite E2, <-app_assoc. f_equal.
  by destruct (pending (events (w_flow w))); simplify_eq/=.
Qed.

Lemma deliverDue_progress k now f outs evs0 :
  ring_inv k (receiver f) -> started (receiver f) = true -> fifo_wf (events f) ->
  exists D evs, progressed (mkWorld f outs evs0) (mkWorld (deliverDue now f) outs evs0) D evs.
Proof.
  intros Hi Hst Hwf. destruct (deliverDue_advances k now f Hi Hst Hwf) as (D & evs & Ha). exists D, evs.
  apply advances_progressed; [done|by apply (deliverDue_started now k)|apply deliverDue_ssrc].
Qed.

Lemma timer_progress k now id f outs evs0 :
  recv_inv k f -> started (receiver f) = true -> role f = RoleReceiver ->
  exists D evs, progressed (mkWorld f outs evs0) (mkWorld (HandleTimer now id f) outs evs0) D evs.
Proof.
  intros Hi Hst Hr. pose proof (rv_ring _ _ (rv_core _ _ Hi)) as Hri. pose proof (ri_cursor _ _ Hri) as Hd.
  assert (Hq : forall g, quiet f g -> exists D evs, progressed (mkWorld f outs evs0) (mkWorld g outs evs0) D evs)
    by (intros g Hg; exists 0, []; by apply quiet_progressed).
  unfold HandleTimer. rewrite Hr. destruct (id =? TimerPlayout).
  - set (g := on_receiver _ f). assert (Hg : quiet f g) by by split.
    destruct (deliverDue_progress k now g outs evs0) as (D & evs & Ha).
    { by apply (ring_inv_ext k (receiver f)). } { done. } { apply (rv_events _ _ (rv_core _ _ Hi)). }
    exists D, evs. apply (progressed_trans _ (mkWorld g outs evs0) _ 0 D [] evs); [by apply quiet_progressed|done].
  - destruct (id =? TimerNack).
    + apply Hq. etrans; [|apply scheduleNack_quiet]. etrans; [|apply processNacks_quiet]. by split.
    + destruct (_ =? _); apply Hq; [apply receiver_echo_quiet|done].
Qed.

Lemma exec_progress k c w :
  recv_inv k (w_flow w) -> role (w_flow w) = RoleReceiver -> started (receiver (w_flow w)) = true ->
  call_same_flow (ssrc (receiver (w_flow w))) c -> exists D evs, progressed w (exec c w) D evs.
Proof.
  intros Hi Hr Hst Hc. destruct w as [f outs evs0]. cbn [w_flow] in *.
  pose proof (rv_ring _ _ (rv_core _ _ Hi)) as Hri. pose proof (ri_cursor _ _ Hri) as Hd.
  pose proof (rv_events _ _ (rv_core _ _ Hi)) as Hwf.
  assert (Hq : forall g, quiet f g -> exists D evs, progressed (mkWorld f outs evs0) (mkWorld g outs evs0) D evs)
    by (intros g Hg; exists 0, []; by apply quiet_progressed).
  destruct c; cbn [exec w_flow w_outputs w_events].
  - unfold Feed. rewrite Hr. by apply Hq, feed_quiet.
  - by apply Hq, FeedFeedback_quiet.
  - unfold PushApp, PushAppFrag. rewrite Hr. by apply Hq.
  - unfold PushAppFrag. rewrite Hr. by apply Hq.
  - unfold PushAppBlock. rewrite Hr. by apply Hq.
  - by eapply timer_progress.
  - unfold Tick. rewrite Hr. destruct (deliverDue_progress k now f outs evs0 Hri Hst Hwf) as (D & evs & Ha).
    exists (D + 0), (evs ++ []). eapply progressed_trans; [exact Ha|]. apply quiet_progressed; [|apply processNacks_quiet].
    apply (ri_cursor k), deliverDue_inv, Hri.
  - apply Hq. by split.
  - apply Hq, SetSenderMaxBuffer_quiet.
  - exists 0, []. unfold PollOutput. destruct (fifo_pop _ _) as [o q]. split; try done; cbn [w_flow].
    + by rewrite app_nil_r.
    + apply in_order_nil.
    + by rewrite Z.add_0_r, u32_id.
    + change (zlen (@nil Event)) with 0. by rewrite Z.add_0_r.
    + change (zlen (@nil Event)) with 0. f_equal. simpl. lia.
  - exists 0, []. pose proof (poll_event_all (mkWorld f outs evs0) Hwf) as Hall. cbn [exec w_flow w_outputs w_events] in Hall.
    unfold PollEvent in *. destruct (fifo_pop _ _) as [o q]. split; try done; cbn [w_flow] in *.
    + by rewrite Hall, app_nil_r.
    + apply in_order_nil.
    + by rewrite Z.add_0_r, u32_id.
    + change (zlen (@nil Event)) with 0. by rewrite Z.add_0_r.
    + change (zlen (@nil Event)) with 0. f_equal. simpl. lia.
Qed.

Lemma run_progress k cs w :
  flow_inv k (w_flow w) -> role (w_flow w) = RoleReceiver -> started (receiver (w_flow w)) = true ->
  Forall call_typed cs -> Forall (call_same_flow (ssrc (receiver (w_flow w)))) cs ->
  exists D evs, progressed w (run cs w) D evs.
Proof.
  intros Hi Hr Hst Ht Hs. revert w Hi Hr Hst Hs. induction Ht as [|c cs Hc Ht IH]; intros w Hi Hr Hst Hs.
  { exists 0, []. change (run [] w) with w. destruct w as [f outs evs0]. apply quiet_progressed; [|done].
    unfold flow_inv in Hi. cbn [w_flow] in *. rewrite Hr in Hi. apply (ri_cursor k), (rv_ring k f), Hi. }
  inv Hs as [|? ? Hsc Hs']. assert (Hi' := Hi). unfold flow_inv in Hi'. rewrite Hr in Hi'.
  destruct (exec_progress k c w Hi' Hr Hst Hsc) as (D & evs & Hp).
  destruct (IH (exec c w)) as (D' & evs' & Hp').
  { by apply exec_inv. } { by rewrite exec_role. } { by rewrite (pr_started _ _ _ _ Hp). } { by rewrite (pr_ssrc _ _ _ _ Hp). }
  exists (D + D'), (evs ++ evs'). by eapply progressed_trans.
Qed.

(** ** Properties *)

(** C1: In-order, at-most-once, fully accounted delivery: take any receiver a host can reach that has anchored on a flow, and
    any further calls whose packets belong to that flow.  The events they add are
    delivered at strictly increasing positions from the playout cursor (modulo 2^32), the cursor ends [D]
    positions further, and each of those positions is either one of the delivered events or counted in Lost. *)
Theorem delivery_in_order c cs0 cs :
  config_ok c -> Forall call_typed (cs0 ++ cs) ->
  let w := run cs0 (new_world RoleReceiver c) in
  started (receiver (w_flow w)) = true -> Forall (call_same_flow (ssrc (receiver (w_flow w)))) cs ->
  exists D evs, let w' := run cs w in
    0 <= D /\ all_events w' = all_events w ++ evs /\
    in_order (deliverNext (receiver (w_flow w))) D evs /\
    deliverNext (receiver (w_flow w')) = u32 (deliverNext (receiver (w_flow w)) + D) /\
    u64 (StDelivered (stats (w_flow w'))) = u64 (StDelivered (stats (w_flow w)) + zlen evs) /\
    u64 (StLost (stats (w_flow w'))) = u64 (StLost (stats (w_flow w)) + (D - zlen evs)).
Proof.
  intros Hc [Ht0 Ht]%Forall_app. cbv zeta. intros Hst Hs. destruct (New_inv RoleReceiver c Hc) as (k & _ & _ & Hi).
  pose proof (run_inv k cs0 (new_world RoleReceiver c) Hi Ht0) as Hi0.
  destruct (run_progress k cs (run cs0 (new_world RoleReceiver c))) as (D & evs & []); [done| |done..|].
  { rewrite run_role. apply (New_fields RoleReceiver c). }
  exists D, evs. by split_and!.
Qed.
