(* ===== verification/Provenance.v ===== *)
(** * What leaves a flow came into it

    On a receiver, every delivered event carries exactly the fields of a packet the host fed; on a sender, every
    retransmission is an earlier first transmission with the retransmit mark; and a copy of a
    buffered packet, from the same path or another, changes nothing but counters and
    the set of paths the packet was seen on (the SMPTE ST 2022-7 merge). *)

From stdpp Require Import sets.
From S2P Require Import Prelude GoFloat Seq Clock Wire Rtt FlowTypes Congestion FlowNew Sender Receiver.
From S2P Require Import Flow Window Playout FeedInv Nack FlowInv Delivery.

(** ** Definitions *)

(** The slot holds the content of the packet. *)
Definition carries (pkt : MediaPacket) (s : slot) : Prop :=
  s_seq s = Seq pkt /\ s_sourceTime s = SourceTime pkt /\ s_payload s = Payload pkt /\ s_frag s = Frag pkt /\
  s_virtSrcPort s = VirtSrcPort pkt /\ s_virtDstPort s = VirtDstPort pkt.

(** The event that delivers the packet. *)
Definition event_of (pkt : MediaPacket) (disc : bool) : Event :=
  Deliver (Seq pkt) (SourceTime pkt) (Payload pkt) disc (Frag pkt) (VirtSrcPort pkt) (VirtDstPort pkt).

(** Every filled slot satisfies [P]. *)
Definition ring_all (P : slot -> Prop) (r : receiverState) : Prop :=
  forall i s, ring r !! i = Some s -> filled s = true -> P s.

(** The packets a host has fed. *)
Definition fed (cs : list Call) : list MediaPacket :=
  omap (fun c => match c with CFeed _ _ pkt => Some pkt | _ => None end) cs.

(** [P] does not depend on the paths a packet was seen on. *)
Definition path_blind (P : slot -> Prop) : Prop := forall s b, P s -> P (s <| s_pathSeen ::= Z.lor b |>).

(** ** Ring contents *)

Section ring_all.
Context (P : slot -> Prop).

Lemma ring_all_ext r r' : ring r' = ring r -> ring_all P r -> ring_all P r'.
Proof. unfold ring_all. by intros ->. Qed.

Lemma ring_all_set n s r : ring_all P r -> (filled s = true -> P s) -> ring_all P (set_slot n s r).
Proof. intros Hr Hs i t Hl. apply list_lookup_insert_Some in Hl as [(_ & <- & _)|(_ & Hl)]; [done|by apply (Hr i)]. Qed.

Lemma ring_all_clear_range j n r : ring_all P r -> ring_all P (clear_range j n r).
Proof.
  revert n r. induction j as [|j IH]; intros n r Hr; cbn [clear_range]; [done|]. apply IH.
  destruct (filled _); [|done]. apply ring_all_set; [done|by rewrite clear_slot_empty].
Qed.

Lemma ring_all_reset f : ring_all P (receiver (resetReceiver f)).
Proof.
  intros i s Hl. destruct (resetReceiver_frame f) as (E & _). rewrite E, list_lookup_fmap in Hl.
  by destruct (ring (receiver f) !! i); simplify_eq/=.
Qed.

Lemma ring_all_slot r n s : ring_all P r -> buffered r n = Some s -> P s.
Proof.
  intros Hr. unfold buffered, slot_at. destruct (ring r !! ridx r n) as [t|] eqn:E; simpl; [|done].
  destruct (holds t n) eqn:Eh; [|done]. intros [= <-]. eapply Hr; [done|]. by eapply holds_filled.
Qed.

Lemma ring_all_start now path pkt f :
  (forall t ot, P (packet_slot now path pkt t ot)) -> ring_all P (receiver f) -> ring_all P (receiver (start now path pkt f)).
Proof.
  intros Hp Hr. destruct (start_split now path pkt f) as (f0 & E0 & _ & E1 & _).
  assert (H0 : ring_all P (receiver f0)) by (apply (ring_all_ext _ _ E1); by apply ring_all_set).
  assert (Ha := ring_all_ext _ _ (sc_ring _ _ (armPlayout_same (Timestamp.Add now (recoveryBuffer f)) f0)) H0).
  by destruct E0 as [-> | [o ->]].
Qed.

Lemma feed_detect_same now path pkt t ooo f : ring (receiver (feed_detect now path pkt t ooo f)) = ring (receiver f).
Proof.
  unfold feed_detect. destruct (Retransmit pkt); [done|]. cbv zeta. set (g := if _ && _ then _ else f).
  assert (Hg : ring (receiver g) = ring (receiver f)) by (subst g; destruct (_ && _); [apply markMissing_same|done]).
  clearbody g. by destruct ooo.
Qed.

Lemma ring_all_insert now path pkt t ooo f :
  path_blind P -> (forall t ot, P (packet_slot now path pkt t ot)) -> ring_all P (receiver f) ->
  ring_all P (receiver (feed_insert now path pkt t ooo f)).
Proof.
  intros Hb Hp Hr. unfold feed_insert. cbv zeta. destruct (holds _ _ && _) eqn:E.
  - apply andb_true_iff in E as [Hh _]. apply (ring_all_ext (set_slot (Seq pkt)
      (slot_at (receiver f) (Seq pkt) <| s_pathSeen ::= Z.lor (pathBit path) |>) (receiver f))); [done|].
    apply ring_all_set; [done|]. intros _. apply Hb. apply (ring_all_slot (receiver f) (Seq pkt)); [done|]. by apply buffered_holds.
  - eapply ring_all_ext; [etrans; [apply scheduleNack_same|]; etrans; [apply armPlayout_same|apply feed_detect_same]|].
    destruct (feed_store_frame now path pkt t (Timestamp.Add t (recoveryBuffer f)) ooo f) as (-> & _).
    apply (ring_all_ext (set_slot (Seq pkt) (packet_slot now path pkt t (Timestamp.Add t (recoveryBuffer f))) (receiver f)));
      [by destruct (Num32.Less _ _)|]. by apply ring_all_set.
Qed.

Lemma ring_all_feed now path pkt f :
  path_blind P -> (forall t ot, P (packet_slot now path pkt t ot)) -> ring_all P (receiver f) ->
  ring_all P (receiver (feed now path pkt f)).
Proof.
  intros Hb Hp Hr. unfold feed. cbv zeta.
  assert (H1 : ring_all P (receiver (feed_ips now f))) by (unfold feed_ips; by destruct (started _)).
  generalize dependent (feed_ips now f). clear f Hr. intros f Hr.
  assert (H1 : ring_all P (receiver (feed_flow_change pkt f)))
    by (unfold feed_flow_change; destruct (_ && _ && _); [apply (ring_all_reset f)|done]).
  generalize dependent (feed_flow_change pkt f). clear f Hr. intros f Hr.
  assert (H1 : ring_all P (receiver (feed_framing_change now pkt f))) by (unfold feed_framing_change; by destruct (_ && _ && _)).
  generalize dependent (feed_framing_change now pkt f). clear f Hr. intros f Hr.
  destruct (negb _); [destruct (Retransmit pkt); [done|by apply ring_all_start]|].
  set (g := if Retransmit pkt then _ else f). assert (Hg : ring_all P (receiver g)) by (subst g; by destruct (Retransmit pkt)).
  clearbody g. pose proof (sc_ring _ _ (feed_packet_time_same now pkt g)) as E1.
  destruct (feed_packet_time now pkt g) as [t g1]. cbn [snd] in E1.
  assert (Hk : ring_all P (receiver (feed_track pkt t g1)))
    by (apply (ring_all_ext (receiver g)); [by rewrite (sc_ring _ _ (feed_track_same pkt t g1))|done]).
  generalize dependent (feed_track pkt t g1). intros h Hh.
  assert (Hl : ring_all P (receiver (too_late pkt h))) by (unfold too_late; by destruct (Retransmit pkt)).
  destruct (_ && _); [done|]. destruct (Num32.Less _ _); [done|by apply ring_all_insert].
Qed.

(** Playout only delivers slots of the ring, and only empties others. *)
Lemma ring_all_deliver k now f :
  ring_inv k (receiver f) -> started (receiver f) = true -> fifo_wf (events f) -> ring_all P (receiver f) ->
  ring_all P (receiver (deliverDue now f)) /\
  exists evs, pending (events (deliverDue now f)) = pending (events f) ++ evs /\
    Forall (fun e => exists disc s, P s /\ e = deliver_event disc s) evs.
Proof.
  intros Hinv Hst. revert f Hinv Hst.
  apply (deliverDue_ind k now (fun f f' => fifo_wf (events f) -> ring_all P (receiver f) -> ring_all P (receiver f') /\
    exists evs, pending (events f') = pending (events f) ++ evs /\
      Forall (fun e => exists disc s, P s /\ e = deliver_event disc s) evs)).
  - intros f f' Hi Hst Hc Hwf Hr. inv Hc.
    + pose proof (armPlayout_same (s_outputTime s) f) as Hs. split; [apply (ring_all_ext _ _ (sc_ring _ _ Hs) Hr)|].
      exists []. by rewrite (sc_events _ _ Hs), app_nil_r.
    + pose proof (disarmPlayout_same f) as Hs. split; [apply (ring_all_ext _ _ (sc_ring _ _ Hs) Hr)|].
      exists []. by rewrite (sc_events _ _ Hs), app_nil_r.
  - intros f f1 f' Hi Hst Hc Hi1 IH Hwf Hr. pose proof (lead_range k _ Hi Hst).
    assert (Hskip : forall j, 0 <= j < 2 ^ 32 -> f1 = skipTo (u32 (deliverNext (receiver f) + j)) f ->
      ring_all P (receiver f') /\ exists evs, pending (events f') = pending (events f) ++ evs /\
      Forall (fun e => exists disc s, P s /\ e = deliver_event disc s) evs).
    { intros j Hj ->. destruct (skipTo_effects f j Hj) as (He & _). destruct (skipTo_ring f j Hj) as (Er & _).
      rewrite He in IH. apply IH; [done|]. apply (ring_all_ext _ _ Er). by apply ring_all_clear_range. }
    pose proof (ri_shape _ _ Hi) as (Hk & _). pose proof (Z.pow_le_mono_r 2 k 31).
    inv Hc as [|s Hb Ho|j s Hj Hjk Hh Hb Ho| |Hlap Hh]; [|apply (Hskip j); [lia|done]|apply (Hskip (2 ^ k)); [lia|done]].
    destruct (emitDeliver_effects f s Hb) as (He & _). destruct (emitDeliver_ring f s Hb) as (Er & _).
    destruct IH as (Hr' & evs & E & Hev); [rewrite He; by apply fifo_push_wf|apply (ring_all_ext _ _ Er); by apply ring_all_clear_range|].
    split; [done|]. exists (deliver_event (pendingDiscontinuity (receiver f)) s :: evs). split.
    + by rewrite E, He, pending_push, <-app_assoc.
    + constructor; [|done]. eexists _, s. split; [|done]. exact (ring_all_slot _ _ _ Hr Hb).
Qed.
End ring_all.

(** ** Receivers deliver what they were fed *)

(** The packets [pkts] account for everything buffered and everything delivered. *)
Record sourced (pkts : list MediaPacket) (w : World) : Prop := {
  so_ring : ring_all (fun s => exists pkt, pkt ∈ pkts /\ carries pkt s) (receiver (w_flow w));
  so_events : Forall (fun e => exists pkt disc, pkt ∈ pkts /\ e = event_of pkt disc) (all_events w) }.

Lemma carries_event pkt disc s : carries pkt s -> deliver_event disc s = event_of pkt disc.
Proof. intros (E1 & E2 & E3 & E4 & E5 & E6). unfold deliver_event, event_of. by rewrite E1, E2, E3, E4, E5, E6. Qed.

Lemma sourced_mono pkts pkts' w : pkts ⊆ pkts' -> sourced pkts w -> sourced pkts' w.
Proof.
  intros Hs [Hr He]. split.
  - intros i s Hl Hf. destruct (Hr i s Hl Hf) as (pkt & Hp & Hc). exists pkt. split; [by apply Hs|done].
  - eapply Forall_impl; [exact He|]. intros e (pkt & disc & Hp & E). exists pkt, disc. split; [by apply Hs|done].
Qed.

(** A call that leaves the ring and the events alone. *)
Lemma sourced_frame pkts f f' outs evs :
  ring (receiver f') = ring (receiver f) -> events f' = events f ->
  sourced pkts (mkWorld f outs evs) -> sourced pkts (mkWorld f' outs evs).
Proof.
  intros E1 E2 [Hr He]. split; [by apply (ring_all_ext _ _ _ E1)|]. unfold all_events in *. cbn [w_flow w_events] in *. by rewrite E2.
Qed.

Lemma sourced_deliver k now pkts f outs evs :
  ring_inv k (receiver f) -> fifo_wf (events f) ->
  sourced pkts (mkWorld f outs evs) -> sourced pkts (mkWorld (deliverDue now f) outs evs).
Proof.
  intros Hi Hwf Hs. destruct (started (receiver f)) eqn:Hst; [|unfold deliverDue; by rewrite Hst]. destruct Hs as [Hr He].
  destruct (ring_all_deliver _ k now f Hi Hst Hwf Hr) as (Hr' & es & E & Hes). split; [done|].
  unfold all_events in *. cbn [w_flow w_events] in *. rewrite E, app_assoc. apply Forall_app. split; [done|].
  eapply Forall_impl; [exact Hes|]. intros e (disc & s & (pkt & Hp & Hc) & ->). exists pkt, disc. by rewrite (carries_event pkt).
Qed.

Lemma processNacks_ring now f : ring (receiver (processNacks now f)) = ring (receiver f).
Proof.
  unfold processNacks. destruct (_ =? 0); [done|]. cbv zeta.
  rewrite <-(sc_ring _ _ (sp_core _ _ (refill_same now f))).
  generalize (on_receiver (refill_tokens now) f). clear f. intros f.
  assert (Hw : forall es batch f, ring (receiver (nack_walk now es batch f).1.2) = ring (receiver f)).
  { clear f. intros es. induction es as [|e es IH]; intros batch f; cbn [nack_walk]; [done|].
    pose proof (nack_entry_case now e batch f) as Hc. destruct (nack_entry now e batch f) as [[kept f1] b1].
    set (f2 := match kept with Some _ => f1 | None => _ end).
    assert (H2 : ring (receiver f2) = ring (receiver f)) by
      (subst f2; inv Hc as [? _ Hs| |? _ _ Hs]; [apply (sc_ring _ _ (sp_core _ _ Hs))|done|apply (sc_ring _ _ (sp_core _ _ Hs))]).
    clearbody f2. specialize (IH b1 f2). destruct (nack_walk now es b1 f2) as [[rest f3] b3]. cbn [fst snd] in *. congruence. }
  specialize (Hw (missing (receiver f)) [] f). destruct (nack_walk _ _ _ f) as [[kept f1] batch]. cbn [fst snd] in Hw.
  by destruct batch.
Qed.

Lemma receiver_echo_ring now f : ring (receiver (receiver_echo now f)) = ring (receiver f).
Proof.
  unfold receiver_echo. destruct (started _); [|done]. unfold autoScaleBuffer. destruct (negb _); [done|]. cbv zeta.
  destruct (_ <=? 0); [done|]. destruct (_ =? _); [done|]. by destruct (_ <=? 0).
Qed.

(** Ingestion delivers nothing by itself. *)
Lemma feed_events now path pkt f : events (feed now path pkt f) = events f.
Proof.
  unfold feed. cbv zeta.
  assert (H1 : events (feed_framing_change now pkt (feed_flow_change pkt (feed_ips now f))) = events f).
  { unfold feed_framing_change. destruct (_ && _ && _); unfold feed_flow_change; destruct (_ && _ && _);
      unfold feed_ips; by destruct (started (receiver f)). }
  generalize dependent (feed_framing_change now pkt (feed_flow_change pkt (feed_ips now f))). intros g Hg. rewrite <-Hg. clear f Hg.
  destruct (negb _).
  { destruct (Retransmit pkt); [done|]. destruct (start_split now path pkt g) as (f0 & E0 & Ht).
    assert (He : events (armPlayout (Timestamp.Add now (recoveryBuffer g)) f0) = events g)
      by (rewrite (sc_events _ _ (armPlayout_same _ f0)); apply Ht). by destruct E0 as [-> | [o ->]]. }
  set (g1 := if Retransmit pkt then _ else g). assert (H1 : events g1 = events g) by (subst g1; by destruct (Retransmit pkt)).
  rewrite <-H1. clearbody g1. pose proof (sc_events _ _ (feed_packet_time_same now pkt g1)) as E1.
  destruct (feed_packet_time now pkt g1) as [t g2]. cbn [snd] in E1.
  pose proof (sc_events _ _ (feed_track_same pkt t g2)) as E2. rewrite <-E1, <-E2.
  assert (Hl : forall x, events (too_late pkt x) = events x) by (intros x; unfold too_late; by destruct (Retransmit pkt)).
  destruct (_ && _); [apply Hl|]. destruct (Num32.Less _ _); [apply Hl|apply feed_insert_quiet].
Qed.

Lemma fed_snoc cs c : fed (cs ++ [c]) = fed cs ++ fed [c].
Proof. unfold fed. by rewrite omap_app. Qed.

Lemma sourced_feed now path pkt pkts f outs evs :
  sourced pkts (mkWorld f outs evs) -> sourced (pkts ++ [pkt]) (mkWorld (feed now path pkt f) outs evs).
Proof.
  intros Hs. apply (sourced_mono _ (pkts ++ [pkt])) in Hs; [|set_solver]. destruct Hs as [Hr He]. split.
  - cbn [w_flow] in *. apply ring_all_feed; [| |done].
    + intros s b (p & Hp & Hc). by exists p.
    + intros t ot. exists pkt. split; [set_solver|done].
  - unfold all_events in *. cbn [w_flow w_events] in *. by rewrite feed_events.
Qed.

Lemma sourced_timer k now id pkts f outs evs :
  recv_inv k f -> role f = RoleReceiver ->
  sourced pkts (mkWorld f outs evs) -> sourced pkts (mkWorld (HandleTimer now id f) outs evs).
Proof.
  intros Hi Hr Hs. unfold HandleTimer. rewrite Hr. destruct (id =? TimerPlayout).
  - eapply sourced_deliver; [by eapply (ring_inv_ext k (receiver f)); [..|apply Hi]|apply (rv_events _ _ (rv_core _ _ Hi))|].
    by eapply sourced_frame; [..|exact Hs].
  - destruct (id =? TimerNack).
    + eapply sourced_frame; [..|exact Hs].
      * rewrite (sc_ring _ _ (scheduleNack_same now _)), processNacks_ring. done.
      * by rewrite (sc_events _ _ (scheduleNack_same now _)), (q_events _ _ (processNacks_quiet now _)).
    + destruct (_ =? _); [|done].
      eapply sourced_frame; [apply receiver_echo_ring|apply (q_events _ _ (receiver_echo_quiet now f))|exact Hs].
Qed.

Lemma exec_sourced k c pkts w :
  recv_inv k (w_flow w) -> role (w_flow w) = RoleReceiver -> sourced pkts w -> sourced (pkts ++ fed [c]) (exec c w).
Proof.
  intros Hi Hr Hs. destruct w as [f outs evs]. cbn [w_flow] in *.
  pose proof (rv_events _ _ (rv_core _ _ Hi)) as Hwf. pose proof (rv_ring _ _ (rv_core _ _ Hi)) as Hri.
  assert (Hq : forall f', ring (receiver f') = ring (receiver f) -> events f' = events f ->
    sourced (pkts ++ []) (mkWorld f' outs evs)) by (intros f' E1 E2; rewrite app_nil_r; by eapply sourced_frame).
  destruct c; cbn [exec w_flow w_outputs w_events fed omap list_omap].
  - unfold Feed. rewrite Hr. by apply sourced_feed.
  - unfold FeedFeedback. rewrite Hr. destruct fb; by apply Hq.
  - unfold PushApp, PushAppFrag. rewrite Hr. by apply Hq.
  - unfold PushAppFrag. rewrite Hr. by apply Hq.
  - unfold PushAppBlock. rewrite Hr. by apply Hq.
  - rewrite app_nil_r. by eapply sourced_timer.
  - unfold Tick. rewrite Hr, app_nil_r. eapply sourced_frame; [apply processNacks_ring|apply processNacks_quiet|].
    by eapply sourced_deliver.
  - by apply Hq.
  - apply Hq; [|apply SetSenderMaxBuffer_quiet]. unfold SetSenderMaxBuffer. destruct (negb _); [done|].
    destruct (_ <? _); [done|]. by destruct (_ =? _).
  - rewrite app_nil_r. unfold PollOutput. destruct (fifo_pop _ _) as [o q]. destruct Hs as [Hs1 Hs2]. by split.
  - rewrite app_nil_r. pose proof (poll_event_all (mkWorld f outs evs) Hwf) as Hall. cbn [exec w_flow w_outputs w_events] in Hall.
    unfold PollEvent in *. destruct (fifo_pop _ _) as [o q]. destruct Hs as [Hs1 Hs2]. split; [done|by rewrite Hall].
Qed.

Lemma run_sourced k cs pkts w :
  flow_inv k (w_flow w) -> role (w_flow w) = RoleReceiver -> Forall call_typed cs ->
  sourced pkts w -> sourced (pkts ++ fed cs) (run cs w).
Proof.
  intros Hi Hr Ht. revert pkts w Hi Hr. induction Ht as [|c cs Hc Ht IH]; intros pkts w Hi Hr Hs.
  { by rewrite app_nil_r. }
  assert (Hi' := Hi). unfold flow_inv in Hi'. rewrite Hr in Hi'. change (run (c :: cs) w) with (run cs (exec c w)).
  change (fed (c :: cs)) with (fed ([c] ++ cs)). unfold fed at 1. rewrite omap_app, app_assoc. apply IH.
  - by apply exec_inv.
  - by rewrite exec_role.
  - by eapply exec_sourced.
Qed.

(** ** Senders resend what they sent *)

(** The first transmission a retransmission repeats. *)
Definition original (p : MediaPacket) : MediaPacket := p <| Retransmit := false |>.

(** A retransmission of [o] is backed by a first transmission in [log]. *)
Definition backed (log : list Output) (o : Output) : Prop :=
  match o with
  | SendMedia path p => Retransmit p = true -> SendMedia path (original p) ∈ log
  | _ => True
  end.

(** Every retransmission of the log has its first transmission before it. *)
Definition faithful (log : list Output) : Prop :=
  forall l1 o l2, log = l1 ++ o :: l2 -> backed l1 o.

Lemma backed_mono log log' o : log ⊆ log' -> backed log o -> backed log' o.
Proof. intros Hs. destruct o; simpl; auto. Qed.

Lemma faithful_app log new : faithful log -> Forall (backed log) new -> faithful (log ++ new).
Proof.
  intros Hl Hn l1 o l2 E. destruct (decide (length log <= length l1)%nat) as [Hle|Hgt].
  - assert (exists l, l1 = log ++ l /\ new = l ++ o :: l2) as (l & -> & ->).
    { exists (drop (length log) l1). rewrite <-(take_drop (length log) l1) in E. rewrite <-app_assoc in E.
      assert (Ht : length (take (length log) l1) = length log) by (rewrite length_take; lia).
      destruct (app_inj_1 _ _ _ _ Ht (eq_sym E)) as [E1 E2]. split; [|by symmetry]. rewrite <-E1 at 1. by rewrite take_drop. }
    apply Forall_app in Hn as [_ Hn]. inv Hn as [|? ? Ho _]. eapply backed_mono; [|exact Ho]. set_solver.
  - assert (exists l, log = l1 ++ o :: l) as [l El]; [|by apply (Hl l1 o l)].
    assert (El : take (length log) (log ++ new) = log) by (by rewrite take_app_length). rewrite E in El.
    exists (take (length log - length l1 - 1) l2). rewrite <-El at 1. rewrite take_app_ge by lia.
    f_equal. destruct (length log - length l1)%nat as [|m] eqn:Em; [lia|]. simpl. do 2 f_equal. lia.
Qed.

Record logged (w : World) : Prop := {
  lg_hist : forall n sl, hist (sender (w_flow w)) n = Some sl ->
    SendMedia (txPath (sender (w_flow w))) (media_of (sender (w_flow w)) sl false) ∈ all_outputs w;
  lg_faithful : faithful (all_outputs w) }.

Lemma media_of_original s sl : original (media_of s sl true) = media_of s sl false.
Proof. done. Qed.

(** Emitting [new] effects, the history slots being backed by them or by earlier ones. *)
Lemma logged_step f f' outs evs new :
  logged (mkWorld f outs evs) -> pending (outputs f') = pending (outputs f) ++ new ->
  Forall (backed (all_outputs (mkWorld f outs evs))) new ->
  (forall n sl', hist (sender f') n = Some sl' ->
     SendMedia (txPath (sender f')) (media_of (sender f') sl' false) ∈ new \/
     exists n sl, hist (sender f) n = Some sl /\
       SendMedia (txPath (sender f')) (media_of (sender f') sl' false) = SendMedia (txPath (sender f)) (media_of (sender f) sl false)) ->
  logged (mkWorld f' outs evs).
Proof.
  intros [Lh Lf] Ep Hn Hh.
  assert (E : all_outputs (mkWorld f' outs evs) = all_outputs (mkWorld f outs evs) ++ new)
    by (unfold all_outputs; cbn [w_flow w_outputs]; by rewrite Ep, app_assoc).
  split; rewrite E; [|by apply faithful_app]. cbn [w_flow] in *. intros n sl' Hs. apply elem_of_app.
  destruct (Hh n sl' Hs) as [?|(m & sl & Hm & ->)]; [by right|left; by eapply Lh].
Qed.

Lemma logged_push k now payload frag n st f outs evs :
  send_inv k f -> logged (mkWorld f outs evs) -> logged (mkWorld (pushAppBlock now payload frag n st f) outs evs).
Proof.
  intros Hi Hl. destruct (pushAppBlock_frame now payload frag n st f)
    as (_ & _ & _ & _ & _ & _ & _ & E8 & E9 & _ & _ & timer & Ht & Eo).
  eapply logged_step; [exact Hl|by rewrite Eo, foldl_push_pending by apply Hi|..].
  - apply Forall_app. split; [by destruct Ht as [-> | ->]; repeat constructor|by repeat constructor].
  - intros m sl'. rewrite (push_hist k) by done. set (g := pushAppBlock now payload frag n st f) in *. clearbody g.
    assert (Hm : forall sl, media_of (sender g) sl false = media_of (sender f) sl false) by (intros sl; unfold media_of; by rewrite E8, E9).
    rewrite E9. destruct (NoRecovery (cfg f)); [intros Hs; right; exists m, sl'; by rewrite Hm|].
    case_decide; [intros [= <-]; left; rewrite Hm; apply elem_of_app; right; by left|].
    case_decide; [done|]. intros Hs. right. exists m, sl'. by rewrite Hm.
Qed.

Lemma logged_nack k now missing f outs evs :
  send_inv k f -> maxNacksPerLoop f < 2 ^ 62 ->
  logged (mkWorld f outs evs) -> logged (mkWorld (serviceNack now missing f) outs evs).
Proof.
  intros Hi Hm Hl. destruct (serviceNack_spec k now missing f Hi Hm) as (served & sent & Hsp).
  eapply logged_step; [exact Hl|apply Hsp|..].
  - apply Forall_fmap. eapply Forall_impl; [apply Hsp|]. intros p (sl & Hs & -> & _) _. simpl. rewrite media_of_original.
    by apply (lg_hist _ Hl (Seq (media_of (sender f) sl true))).
  - intros n sl' Hs. destruct (sp_hist _ _ _ _ _ _ _ _ _ Hsp n sl' Hs) as (sl & Hs0 & (T1 & T2 & T3 & T4)). right. exists n, sl.
    destruct (sp_same _ _ _ _ _ _ _ _ _ Hsp) as [_ _ _ _ _ _ E7 E8 _ _]. split; [done|]. unfold media_of.
    by rewrite E7, E8, T1, T2, T3, T4.
Qed.

Lemma logged_frame f f' outs evs new :
  logged (mkWorld f outs evs) -> pending (outputs f') = pending (outputs f) ++ new ->
  Forall (backed []) new -> sender f' = sender f -> logged (mkWorld f' outs evs).
Proof.
  intros Hl Ep Hn Es. eapply logged_step; [exact Hl|exact Ep|..].
  - eapply Forall_impl; [exact Hn|]. intros o. apply backed_mono. set_solver.
  - rewrite Es. intros n sl Hs. right. by exists n, sl.
Qed.

Lemma poll_output_all w : fifo_wf (outputs (w_flow w)) -> all_outputs (exec CPollOutput w) = all_outputs w.
Proof.
  intros Hwf. unfold all_outputs. cbn [exec]. unfold PollOutput.
  destruct (fifo_pop_spec Output_nil _ Hwf) as [E1 E2]. destruct (fifo_pop Output_nil (outputs (w_flow w))) as [e q].
  cbn [snd w_outputs w_flow] in *. change (pending (outputs (w_flow w <| outputs := q |>))) with (pending q). rewrite E2, <-app_assoc. f_equal.
  by destruct (pending (outputs (w_flow w))); simplify_eq/=.
Qed.

Lemma exec_logged k c w :
  send_inv k (w_flow w) -> maxNacksPerLoop (w_flow w) < 2 ^ 62 -> role (w_flow w) = RoleSender ->
  logged w -> logged (exec c w).
Proof.
  intros Hi Hm Hr Hl. destruct w as [f outs evs]. cbn [w_flow] in *. pose proof (sv_outputs _ _ Hi) as Hwf.
  assert (Hq : forall f', outputs f' = outputs f -> sender f' = sender f -> logged (mkWorld f' outs evs)).
  { intros f' E1 E2. apply (logged_frame f f' outs evs []); [done|by rewrite E1, app_nil_r|constructor|done]. }
  destruct c; cbn [exec w_flow w_outputs w_events].
  - unfold Feed. rewrite Hr. by apply Hq.
  - unfold FeedFeedback. rewrite Hr. destruct fb; [by eapply logged_nack| |by apply Hq..].
    eapply (logged_frame f); [exact Hl|apply pending_push, Hwf|by repeat constructor|done].
  - unfold PushApp, PushAppFrag, pushApp. rewrite Hr. by eapply logged_push.
  - unfold PushAppFrag, pushApp. rewrite Hr. by eapply logged_push.
  - unfold PushAppBlock. rewrite Hr. by eapply logged_push.
  - unfold HandleTimer, senderHandleTimer. rewrite Hr. destruct (_ =? _); [|done]. destruct (s_started _); [|done].
    eapply (logged_frame f); [exact Hl| |..].
    + change (outputs _) with (foldl (fun q o => fifo_push o q) (outputs f)
        [SendFeedback (txPath (sender f)) (RttEchoRequest 0 (NTPTimeFromTimestamp now)); SetTimer TimerRttEcho (Timestamp.Add now rttEchoInterval)]) at 1.
      by apply foldl_push_pending.
    + by repeat constructor.
    + done.
  - unfold Tick. rewrite Hr. by apply Hq.
  - by apply Hq.
  - unfold SetSenderMaxBuffer. rewrite Hr. by apply Hq.
  - pose proof (poll_output_all (mkWorld f outs evs) Hwf) as Hall. cbn [exec w_flow w_outputs w_events] in Hall.
    unfold PollOutput in *. destruct (fifo_pop _ _) as [o q]. destruct Hl as [L1 L2]. split; rewrite Hall; done.
  - unfold PollEvent. destruct (fifo_pop _ _) as [o q]. destruct Hl as [L1 L2]. by split.
Qed.

Lemma run_logged k cs w :
  flow_inv k (w_flow w) -> role (w_flow w) = RoleSender -> Forall call_typed cs -> logged w -> logged (run cs w).
Proof.
  intros Hi Hr Ht. revert w Hi Hr. induction Ht as [|c cs Hc Ht IH]; intros w Hi Hr Hl; [done|].
  assert (Hi' := Hi). unfold flow_inv in Hi'. rewrite Hr in Hi'. destruct Hi' as [Hi1 Hi2].
  change (run (c :: cs) w) with (run cs (exec c w)). apply IH; [by apply exec_inv|by rewrite exec_role|by eapply exec_logged].
Qed.

(** ** Copies of a buffered packet *)

(** The key the merge works on: the same sequence with the same source time. *)
Definition copy_of (s : slot) (pkt : MediaPacket) : Prop := s_seq s = Seq pkt /\ s_sourceTime s = SourceTime pkt.

(** Everything a copy of a packet leaves alone: all but timing baselines, spacing gauges and counters. *)
Record inert (f f' : Flow) : Prop := {
  in_ring : ring (receiver f') = ring (receiver f);
  in_mask : mask (receiver f') = mask (receiver f);
  in_started : started (receiver f') = started (receiver f);
  in_ssrc : ssrc (receiver f') = ssrc (receiver f);
  in_cursor : deliverNext (receiver f') = deliverNext (receiver f);
  in_highest : highest (receiver f') = highest (receiver f);
  in_lastFound : lastFound (receiver f') = lastFound (receiver f);
  in_missing : missing (receiver f') = missing (receiver f);
  in_count : missingCount (receiver f') = missingCount (receiver f);
  in_outputs : outputs f' = outputs f;
  in_events : events f' = events f;
  in_received : StReceived (stats f') = StReceived (stats f) }.

#[export] Instance inert_preorder : PreOrder inert.
Proof. split; [by intros f; split|]. intros f g h [] []. split; congruence. Qed.

Lemma inert_slot f f' n : inert f f' -> slot_at (receiver f') n = slot_at (receiver f) n.
Proof. intros []. unfold slot_at, ridx. congruence. Qed.

(** The copy is either too old and dropped, or recognised in the ring. *)
Lemma feed_copy now path pkt f :
  started (receiver f) = true -> same_flow (ssrc (receiver f)) pkt ->
  holds (slot_at (receiver f) (Seq pkt)) (Seq pkt) = true -> s_sourceTime (slot_at (receiver f) (Seq pkt)) = SourceTime pkt ->
  inert f (feed now path pkt f) \/
  exists g, inert f g /\ feed now path pkt f = count StDuplicates (on_receiver
    (set_slot (Seq pkt) (slot_at (receiver f) (Seq pkt) <| s_pathSeen ::= Z.lor (pathBit path) |>)) g).
Proof.
  intros Hst Hsf Hh Hsrc. unfold feed. cbv zeta. set (f1 := feed_ips now f).
  assert (H1 : inert f f1) by (subst f1; unfold feed_ips; destruct (started _); by split). clearbody f1.
  assert (H2 : feed_flow_change pkt f1 = f1).
  { unfold feed_flow_change. rewrite (in_ssrc _ _ H1). destruct Hsf as [-> | ->].
    - by rewrite andb_false_r.
    - by rewrite Z.eqb_refl, andb_false_r. }
  rewrite H2. set (f3 := feed_framing_change now pkt f1).
  assert (H3 : inert f f3) by (etrans; [exact H1|]; subst f3; unfold feed_framing_change; destruct (_ && _ && _); by split). clearbody f3.
  rewrite (in_started _ _ H3), Hst. cbn [negb]. set (f4 := if Retransmit pkt then _ else f3).
  assert (H4 : inert f f4) by (etrans; [exact H3|]; subst f4; destruct (Retransmit pkt); by split). clearbody f4.
  assert (H5 : inert f4 (feed_packet_time now pkt f4).2).
  { unfold feed_packet_time. destruct (bool_decide _); [done|]. destruct (wraps_back now pkt f4); by split. }
  destruct (feed_packet_time now pkt f4) as [t f5]. cbn [snd] in H5.
  assert (H6 : inert f (feed_track pkt t f5)).
  { etrans; [exact H4|]. etrans; [exact H5|]. unfold feed_track. destruct (_ <? _); by split. }
  generalize dependent (feed_track pkt t f5). intros g Hg.
  assert (Hl : inert f (too_late pkt g)) by (etrans; [exact Hg|]; unfold too_late; destruct (Retransmit pkt); by split).
  destruct (_ && Timestamp.After _ _); [by left|]. destruct (Num32.Less _ _); [by left|]. right. exists g. split; [done|].
  unfold feed_insert. by rewrite (inert_slot f g), Hh, Hsrc, Z.eqb_refl by done.
Qed.

(** ** Properties *)

(** C2: Delivery is authentic: whatever a host calls on a receiver, every event it ever produces has the
    sequence, source time, payload, fragment role and virtual ports of one packet the host fed; nothing is made up, merged or altered. *)
Theorem delivered_was_fed c cs :
  config_ok c -> Forall call_typed cs ->
  Forall (fun e => exists pkt disc, pkt ∈ fed cs /\ e = event_of pkt disc)
    (all_events (run cs (new_world RoleReceiver c))).
Proof.
  intros Hc Ht. destruct (New_inv RoleReceiver c Hc) as (k & _ & _ & Hi).
  destruct (new_receiver_fields (ringCapacity c) c) as (E1 & _).
  apply (so_events ([] ++ fed cs)). apply (run_sourced k); [done|apply (New_fields RoleReceiver c)|done|].
  split; [|constructor]. intros i s Hl Hf. change (ring (receiver _)) with (ring (new_receiver (ringCapacity c) c)) in Hl.
  rewrite E1 in Hl. by apply lookup_replicate in Hl as [-> _].
Qed.

(** C7: Retransmission is faithful: whatever a host calls on a sender, every retransmission it ever emits repeats, on the
    same path, with the same sequence, source time, SSRC, payload and fragment role, a first transmission it had emitted before. *)
Theorem retransmissions_repeat_originals c cs l1 path p l2 :
  config_ok c -> Forall call_typed cs ->
  all_outputs (run cs (new_world RoleSender c)) = l1 ++ SendMedia path p :: l2 -> Retransmit p = true ->
  SendMedia path (original p) ∈ l1.
Proof.
  intros Hc Ht E. destruct (New_inv RoleSender c Hc) as (k & Hk & Ek & Hi).
  apply (lg_faithful (run cs (new_world RoleSender c))) in E; [exact E|].
  apply (run_logged k); [done|apply (New_fields RoleSender c)|done|]. split.
  - intros n sl Hn. change (sender _) with (new_sender (ringCapacity c) c) in Hn. rewrite Ek in Hn.
    by rewrite (proj2 (new_sender_inv k c ltac:(lia))) in Hn.
  - intros l o l' E0. by destruct l.
Qed.

(** The multipath merge: a copy of a packet that is still buffered (same sequence, same source time, any
    path, first transmission or retransmission) emits nothing, delivers nothing, moves no cursor, queues nothing and is not
    counted as received; of the whole buffer it changes at most the path set of that one packet. *)
Theorem copies_merge k now path pkt f s :
  recv_inv k f -> started (receiver f) = true -> same_flow (ssrc (receiver f)) pkt ->
  buffered (receiver f) (Seq pkt) = Some s -> copy_of s pkt ->
  let f' := feed now path pkt f in
  outputs f' = outputs f /\ events f' = events f /\ StReceived (stats f') = StReceived (stats f) /\
  deliverNext (receiver f') = deliverNext (receiver f) /\ highest (receiver f') = highest (receiver f) /\
  lastFound (receiver f') = lastFound (receiver f) /\ missing (receiver f') = missing (receiver f) /\
  exists s', (s' = s \/ s' = s <| s_pathSeen ::= Z.lor (pathBit path) |>) /\
    forall n, buffered (receiver f') n = if decide (n = Seq pkt) then Some s' else buffered (receiver f) n.
Proof.
  intros Hi Hst Hsf Hb [_ Hsrc]. cbv zeta. pose proof Hb as Hb'. unfold buffered in Hb'.
  destruct (holds (slot_at (receiver f) (Seq pkt)) (Seq pkt)) eqn:Hh; [|done]. injection Hb' as Hsl.
  destruct (feed_copy now path pkt f) as [Hin|(g & Hin & E)]; [done..|by rewrite Hsl| |].
  - pose proof Hin as []. split_and!; try done. exists s. split; [by left|]. intros n.
    rewrite (buffered_ext (receiver f)) by done. by case_decide; subst.
  - rewrite Hsl in E. pose proof Hin as []. set (s' := s <| s_pathSeen ::= _ |>) in E. rewrite E. split_and!; try done.
    exists s'. split; [by right|]. intros n. assert (Hsh := ri_shape _ _ (rv_ring _ _ (rv_core _ _ Hi))).
    assert (Hshg : ring_shape k (receiver g)) by (unfold ring_shape in *; by rewrite in_ring0, in_mask0).
    rewrite (buffered_ext (set_slot (Seq pkt) s' (receiver g))), (buffered_set_slot k) by done.
    rewrite (buffered_ext (receiver f)) by done. apply buffered_seq in Hb as Hseq.
    assert (Hfill : s_state s = slotFilled) by (rewrite <-Hsl; by apply holds_true in Hh as [? _]).
    destruct (decide (n = Seq pkt)) as [->|Hne].
    + rewrite decide_True by done. by rewrite (proj2 (holds_true s' (Seq pkt))).
    + case_decide as Ei; [|done]. assert (holds s' n = false) as ->.
      { destruct (holds s' n) eqn:En; [|done]. apply holds_true in En as [_ En]. by destruct Hne; rewrite <-En, <-Hseq. }
      symmetry. unfold buffered. replace (slot_at (receiver f) n) with s.
      * destruct (holds s n) eqn:En; [|done]. apply holds_true in En as [_ En]. congruence.
      * rewrite <-Hsl. unfold slot_at, ridx in *. rewrite in_mask0 in Ei. by rewrite Ei.
Qed.
