(* ===== verification/Demo.v ===== *)
(** * Worked examples

    Small concrete flows, built by the entry points themselves, on which the properties of the flow
    core are instantiated, and the behaviour of playout when the buffered span exceeds the ring. *)

From stdpp Require Import gmap sets.
From S2P Require Import Prelude GoFloat Seq Clock Wire Rtt FlowTypes Congestion FlowNew Sender Receiver Flow.
From S2P Require Import Window Playout FeedInv Missing Nack FlowInv FlowTimers Delivery Provenance.

(** ** A four-slot receiver that has seen packets 0, 1 and 3 *)

Definition demo_packet (n : Z) : MediaPacket :=
  mkMediaPacket n (NTPTimeFromTimestamp (1000 * n)) 2 [n] false 0 FragStandalone 0 0 false.

Definition demo_calls : list Call :=
  [CFeed 5000 0 (demo_packet 0); CFeed 6000 0 (demo_packet 1); CFeed 8000 1 (demo_packet 3)].

Definition demo_world : World := run demo_calls (new_world RoleReceiver demo_config).
Definition demo_flow : Flow := w_flow demo_world.

Lemma demo_config_ok : config_ok demo_config.
Proof. by split. Qed.

Lemma demo_calls_typed : Forall call_typed demo_calls.
Proof. repeat constructor; done. Qed.

Lemma demo_new_inv ro : flow_inv 2 (New ro demo_config).
Proof.
  destruct (New_inv ro demo_config demo_config_ok) as (k & Hk & E & H).
  assert (k = 2) as -> by (apply (Z.pow_inj_r 2); [lia..|]; rewrite <-E; vm_compute; reflexivity). done.
Qed.

Lemma demo_inv : recv_inv 2 demo_flow.
Proof. exact (run_receiver 2 demo_calls demo_config (demo_new_inv RoleReceiver) demo_calls_typed). Qed.

(** ** Playout *)

Lemma deliverDue_terminates_witness :
  exists f', deliverDue 1007000 demo_flow = f' /\
    forall fuel, loop_bound (receiver demo_flow) <= Z.of_nat fuel -> deliver_loop fuel 1007000 demo_flow = Some f'.
Proof.
  apply (deliverDue_terminates 2 1007000 demo_flow); [exact (rv_ring _ _ (rv_core _ _ demo_inv))|vm_compute; reflexivity].
Defined.

(** At 1.007 s packets 0 and 1 are due and packet 3 is not. *)
Example demo_playout : ev_Seq <$> po_events (playout_of 1007000 demo_flow) = [0; 1].
Proof. vm_compute. reflexivity. Qed.

Lemma deliverDue_refines_witness : agrees demo_flow (deliverDue 1007000 demo_flow) (playout_of 1007000 demo_flow).
Proof.
  apply (deliverDue_refines 2 1007000 demo_flow).
  - exact (rv_ring _ _ (rv_core _ _ demo_inv)).
  - vm_compute. reflexivity.
  - vm_compute. reflexivity.
  - exact (rv_events _ _ (rv_core _ _ demo_inv)).
  - unfold stats_typed, in_u64. vm_compute. intuition congruence.
Defined.

(** ** Recovery *)

Definition demo_two : Flow := w_flow (run (take 2 demo_calls) (new_world RoleReceiver demo_config)).

Lemma gap_detection_exact_witness :
  exists es, missing (receiver (markMissing 8000 1 (u32 (lastFound (receiver demo_two) + 2)) 8000 demo_two)) =
      missing (receiver demo_two) ++ es /\
    me_seq <$> es = [u32 (lastFound (receiver demo_two) + 1)].
Proof.
  destruct (gap_detection_exact 8000 1 demo_two 2 8000) as (es & E1 & E2 & _);
    [vm_compute; intuition congruence..|]. exists es. exact (conj E1 E2).
Defined.

(** 15 ms after the gap appeared packet 2 is requested. *)
Example demo_request : nack_requests 25000 demo_flow 200 (missing (receiver demo_flow)) = [2].
Proof. vm_compute. reflexivity. Qed.

Lemma nack_pass_witness :
  missing (receiver (processNacks 25000 demo_flow)) = nack_queue 25000 demo_flow 200 (missing (receiver demo_flow)).
Proof.
  destruct (nack_pass 2 25000 demo_flow demo_inv) as (n & _ & Hn & Hq & _).
  assert (E : f64_eqb (nackSeqsPerSec (receiver demo_flow)) f64_zero = true) by (vm_compute; reflexivity).
  specialize (Hn E). change ristMaxNacks with 200 in Hn. assert (n = 200%nat) as -> by lia. exact Hq.
Defined.

(** ** A four-slot sender *)

Definition demo_pushes : list app_push :=
  [mkPush 1000 [10] FragStandalone; mkPush 2000 [11; 12] FragFirst; mkPush 3000 [13] FragLast].

Lemma demo_sender_inv : send_inv 2 (New RoleSender demo_config).
Proof. exact (run_sender 2 [] demo_config (demo_new_inv RoleSender) (Forall_nil_2 _)). Qed.

Definition demo_sender : Flow := push_all demo_pushes (New RoleSender demo_config).

Lemma nack_service_witness :
  exists served rest sent, [1; 1; 7; 2] = served ++ rest /\ zlen sent <= Z.max 1 (maxNacksPerLoop demo_sender) /\
    pending (outputs (serviceNack 40000 [1; 1; 7; 2] demo_sender)) =
      pending (outputs demo_sender) ++ (SendMedia (txPath (sender demo_sender)) <$> sent) /\ NoDup (Seq <$> sent).
Proof.
  destruct (nack_service 2 40000 [1; 1; 7; 2] demo_sender) as (served & rest & sent & H1 & _ & H3 & H4 & _ & H6 & _).
  - exact (proj1 (push_all_inv 2 demo_pushes _ demo_sender_inv)).
  - vm_compute. reflexivity.
  - vm_compute. reflexivity.
  - exists served, rest, sent. exact (conj H1 (conj H3 (conj H4 H6))).
Defined.

(** The repeated 1 is resent once, the unknown 7 is skipped. *)
Example demo_service :
  omap (fun o => match o with SendMedia _ p => Some (Seq p, Retransmit p) | _ => None end)
    (pending (outputs (serviceNack 40000 [1; 1; 7; 2] demo_sender))) =
  [(0, false); (1, false); (2, false); (1, true); (2, true)].
Proof. vm_compute. reflexivity. Qed.

Lemma push_nack_round_trip_witness :
  pending (outputs (serviceNack 40000 [1] demo_sender)) =
    pending (outputs demo_sender) ++
      [SendMedia 0 (mkMediaPacket 1 (NTPTimeFromTimestamp 2000) 0 [11; 12] true 0 FragFirst 0 0 false)].
Proof.
  refine (push_nack_round_trip 2 demo_pushes (New RoleSender demo_config) 1 (mkPush 2000 [11; 12] FragFirst) 40000
    demo_sender_inv _ _ _ _ _); vm_compute; congruence.
Defined.

(** ** Executions *)

Lemma flow_invariant_witness : exists k, ringCapacity demo_config = 2 ^ k /\ flow_inv k demo_flow.
Proof. exact (flow_invariant RoleReceiver demo_config demo_calls demo_config_ok demo_calls_typed). Defined.

Definition demo_turns : list (list Call) := [take 2 demo_calls; drop 2 demo_calls].

Lemma receiver_never_stalls_witness : let ts := host_timers demo_turns (new_world RoleReceiver demo_config) ∅ in
  (exists d, ts !! TimerPlayout = Some d) /\ is_Some (ts !! TimerNack).
Proof.
  destruct (receiver_never_stalls demo_config demo_turns demo_config_ok) as [H1 H2]; [constructor; [apply Forall_take, demo_calls_typed|constructor; [apply Forall_drop, demo_calls_typed|constructor]]|]. split; [|apply H2; vm_compute; discriminate].
  eexists. apply (H1 0 (slot_at (receiver (w_flow (run demo_calls (new_world RoleReceiver demo_config)))) 0)). vm_compute. reflexivity.
Defined.

(** A windowed buffer, a negotiated maximum, and an echo timer that rescales it. *)
Definition windowed_config : Config :=
  demo_config <| RecoveryBufferMin := 200000 |> <| RecoveryBufferMax := 1000000 |>.
Definition windowed_calls : list Call :=
  demo_calls ++ [CSetSenderMaxBuffer 700000; CHandleTimer 110000 TimerRttEcho].

Lemma buffer_stays_in_window_witness :
  let f := w_flow (run windowed_calls (new_world RoleReceiver windowed_config)) in
  200000 <= CurrentRecoveryBuffer f <= 1000000 /\ recoveryBuffer110 f = mul110 (CurrentRecoveryBuffer f).
Proof.
  destruct (buffer_stays_in_window RoleReceiver windowed_config windowed_calls) as (_ & H1 & H2);
    [vm_compute; intuition congruence..|exact (conj H1 H2)].
Defined.

Example demo_rescaled :
  CurrentRecoveryBuffer (w_flow (run windowed_calls (new_world RoleReceiver windowed_config))) = 550000.
Proof. vm_compute. reflexivity. Qed.

Definition demo_more : list Call := [CFeed 9000 0 (demo_packet 2); CHandleTimer 1009000 TimerPlayout; CPollEvent].

Lemma demo_more_typed : Forall call_typed (demo_calls ++ demo_more).
Proof. repeat constructor; done. Qed.

Lemma delivery_in_order_witness :
  exists D evs, all_events (run demo_more demo_world) = all_events demo_world ++ evs /\ in_order 0 D evs.
Proof.
  destruct (delivery_in_order demo_config demo_calls demo_more demo_config_ok demo_more_typed) as (D & evs & _ & H2 & H3 & _).
  - vm_compute. reflexivity.
  - apply Forall_cons. split; [right; vm_compute; reflexivity|repeat constructor].
  - exists D, evs. split; [exact H2|exact H3].
Defined.

(** The late packet 2 fills the gap and all four are delivered in order. *)
Example demo_delivery : ev_Seq <$> all_events (run demo_more demo_world) = [0; 1; 2; 3].
Proof. vm_compute. reflexivity. Qed.

Lemma delivered_was_fed_witness :
  Forall (fun e => exists pkt disc, pkt ∈ fed (demo_calls ++ demo_more) /\ e = event_of pkt disc)
    (all_events (run (demo_calls ++ demo_more) (new_world RoleReceiver demo_config))).
Proof. exact (delivered_was_fed demo_config (demo_calls ++ demo_more) demo_config_ok demo_more_typed). Defined.

Definition demo_sender_calls : list Call := [CPushApp 1000 [10]; CFeedFeedback 40000 (NackRequest 0 [0])].

Lemma retransmissions_repeat_originals_witness :
  exists l1 p l2, all_outputs (run demo_sender_calls (new_world RoleSender demo_config)) = l1 ++ SendMedia 0 p :: l2 /\
    Retransmit p = true /\ SendMedia 0 (original p) ∈ l1.
Proof.
  pose (w := run demo_sender_calls (new_world RoleSender demo_config)).
  pose (p := mkMediaPacket 0 (NTPTimeFromTimestamp 1000) 0 [10] true 0 FragStandalone 0 0 false).
  exists (take 2 (all_outputs w)), p, []. assert (E : all_outputs w = take 2 (all_outputs w) ++ [SendMedia 0 p]) by (vm_compute; reflexivity).
  split; [exact E|]. split; [reflexivity|].
  apply (retransmissions_repeat_originals demo_config demo_sender_calls (take 2 (all_outputs w)) 0 p []);
    [exact demo_config_ok|repeat constructor|exact E|reflexivity].
Defined.

Lemma copies_merge_witness :
  outputs (feed 9000 1 (demo_packet 1) demo_flow) = outputs demo_flow /\
  events (feed 9000 1 (demo_packet 1) demo_flow) = events demo_flow.
Proof.
  destruct (copies_merge 2 9000 1 (demo_packet 1) demo_flow (slot_at (receiver demo_flow) 1) demo_inv) as (H1 & H2 & _).
  - vm_compute. reflexivity.
  - right. vm_compute. reflexivity.
  - vm_compute. reflexivity.
  - vm_compute. split; reflexivity.
  - split; [exact H1|exact H2].
Defined.

(** ** A span longer than the ring *)

(** Packet 0 is delivered, then packet 10 arrives on a four-slot ring and becomes due. *)
Definition lapped_world : World :=
  run [CFeed 5000 0 (demo_packet 0); CHandleTimer 1006000 TimerPlayout; CFeed 1007000 0 (demo_packet 10)]
    (new_world RoleReceiver demo_config).

Example lapped_buffered :
  (s_seq <$> window (receiver (w_flow lapped_world))) = [10] /\
  (ev_Seq <$> po_events (playout_of 1016000 (w_flow lapped_world))) = [10].
Proof. vm_compute. split; reflexivity. Qed.

(** When more than a ring separates the cursor from a buffered packet, the skip over the hole clears the slot of that
    packet too (the slots are cleared by index, whatever sequence they hold): a packet that was received, is
    buffered and is due is dropped by deliverDue instead of delivered, which the specification would do. *)
Theorem lapped_packet_is_wiped :
  let f := w_flow lapped_world in let f' := deliverDue 1016000 f in
  ev_Seq <$> po_events (playout_of 1016000 f) = [10] /\
  events f' = events f /\ window (receiver f') = [] /\
  StReceived (stats f') = 2 /\ StDelivered (stats f') = 1 /\ StLost (stats f') = 8.
Proof. vm_compute. split_and!; reflexivity. Qed.
