(* ===== verification/Split.v ===== *)
(** * Packet split and merge: internal/split/split.go

    The sender half splits each payload in two, on consecutive sequences that start even; the receiver
    half ([Merger]) recombines an even packet with its successor of the same source time.  A stream that
    was split is restored exactly; whatever arrives, no byte is lost, duplicated or reordered, and
    the only concatenations made are of pairs. *)

From S2P Require Import Prelude.

Definition tsPacketLen : Z := 188.
Definition tsSyncByte : Z := 71.

Inductive SplitMode := SplitOff | SplitAuto | SplitHalf.
Inductive MergeMode := MergeOff | MergePairs | MergeAuto.

#[export] Instance SplitMode_eq_dec : EqDecision SplitMode.
Proof. solve_decision. Defined.

(** The lengths of the two halves, or [None] when the payload is not split. *)
Definition SplitPoint (mode : SplitMode) (payload : bytes) : option (Z * Z) :=
  let n := zlen payload in
  if bool_decide (mode = SplitOff) || (n <? 2) then None else
  let first :=
    if bool_decide (mode = SplitAuto) && (2 * tsPacketLen <=? n) && (n %g tsPacketLen =? 0) &&
       (default 0 (payload !! 0%nat) =? tsSyncByte) then
      let tsCount := n /g tsPacketLen in
      let f := tsCount /g 2 in
      let f := if f =? 0 then 1 else f in
      f * tsPacketLen
    else n /g 2 in
  Some (first, n - first).

Definition IsSplitPair (firstSeq firstSrc secondSeq secondSrc : Z) : bool :=
  (Z.land firstSeq 1 =? 0) && (secondSeq =? u32 (firstSeq + 1)) && (firstSrc =? secondSrc).

(** The halves, or [None] when the payload is sent whole. *)
Definition SplitPayload (mode : SplitMode) (payload : bytes) : option (bytes * bytes) :=
  if bool_decide (mode = SplitOff) || (zlen payload =? 0) then None else
  let at_ := match SplitPoint mode payload with Some (first, _) => first | None => 0 end in
  Some (take (Z.to_nat at_) payload, drop (Z.to_nat at_) payload).

Record Merger := mkMerger {
  mode : MergeMode; autoEnabled : bool; hasHeld : bool; heldSeq : Z; heldSrc : Z; heldPayload : bytes }.

#[export] Instance eta_Merger : Eta Merger := fun m =>
  mkMerger (mode m) (autoEnabled m) (hasHeld m) (heldSeq m) (heldSrc m) (heldPayload m).

Definition NewMerger (md : MergeMode) : Merger := mkMerger md false false 0 0 [].

Module Merger.
Definition SetAutoEnabled (on : bool) (m : Merger) : Merger := m <| autoEnabled := on |>.

Definition active (m : Merger) : bool :=
  match mode m with MergePairs => true | MergeAuto => autoEnabled m | MergeOff => false end.

Definition clearHeld (m : Merger) : Merger := m <| hasHeld := false |> <| heldPayload := [] |>.

Definition fresh (seqn srcTime : Z) (payload : bytes) (m : Merger) : list bytes * Merger :=
  if Z.land seqn 1 =? 0
  then ([], m <| hasHeld := true |> <| heldSeq := seqn |> <| heldSrc := srcTime |> <| heldPayload := payload |>)
  else ([payload], m).

Definition Deliver (seqn srcTime : Z) (payload : bytes) (discontinuity : bool) (m : Merger) : list bytes * Merger :=
  if negb (active m) then ([payload], m) else
  if hasHeld m then
    if negb discontinuity && IsSplitPair (heldSeq m) (heldSrc m) seqn srcTime
    then ([heldPayload m ++ payload], clearHeld m)
    else
      let orphan := heldPayload m in
      let '(out, m) := fresh seqn srcTime payload (clearHeld m) in
      (orphan :: out, m)
  else fresh seqn srcTime payload m.
End Merger.

(** ** Streams *)

(** One delivery of the flow core. *)
Record delivery := mkDelivery { dl_seq : Z; dl_src : Z; dl_payload : bytes; dl_disc : bool }.

Fixpoint deliver_all (ds : list delivery) (m : Merger) : list bytes * Merger :=
  match ds with
  | [] => ([], m)
  | d :: ds =>
      let '(out, m) := Merger.Deliver (dl_seq d) (dl_src d) (dl_payload d) (dl_disc d) m in
      let '(outs, m) := deliver_all ds m in
      (out ++ outs, m)
  end.

(** The packets of a split stream: each payload, with its source time, as a pair from sequence [n] on. *)
Fixpoint split_stream (md : SplitMode) (n : Z) (ps : list (Z * bytes)) : list delivery :=
  match ps with
  | [] => []
  | (src, p) :: ps =>
      match SplitPayload md p with
      | Some (a, b) => mkDelivery n src a false :: mkDelivery (u32 (n + 1)) src b false :: split_stream md (u32 (n + 2)) ps
      | None => mkDelivery n src p false :: split_stream md (u32 (n + 1)) ps
      end
  end.

(** The bytes a merger holds back. *)
Definition held (m : Merger) : bytes := if hasHeld m then heldPayload m else [].

(** ** Lemmas *)

Lemma land_1 n : Z.land n 1 = n mod 2.
Proof. change 1 with (Z.ones 1) at 1. by rewrite Z.land_ones by lia. Qed.

Lemma u32_even n : Z.land n 1 = 0 -> Z.land (u32 (n + 2)) 1 = 0 /\ Z.land (u32 (n + 1)) 1 = 1.
Proof.
  rewrite !land_1. intros Hn.
  assert (E : forall z, u32 z mod 2 = z mod 2) by (intros z; by apply (u32_mod_pow2 1)). rewrite !E.
  pose proof (Z.div_mod n 2). pose proof (Z.div_mod (n + 2) 2). pose proof (Z.div_mod (n + 1) 2).
  pose proof (Z.mod_pos_bound (n + 2) 2). pose proof (Z.mod_pos_bound (n + 1) 2). lia.
Qed.

Lemma merge_pair m n src a b :
  Merger.active m = true -> hasHeld m = false -> Z.land n 1 = 0 ->
  exists m1, Merger.Deliver n src a false m = ([], m1) /\
    exists m2, Merger.Deliver (u32 (n + 1)) src b false m1 = ([a ++ b], m2) /\
      Merger.active m2 = true /\ hasHeld m2 = false.
Proof.
  intros Ha Hh Hn. unfold Merger.Deliver at 1, Merger.fresh. rewrite Ha, Hh, Hn. cbn [negb Z.eqb]. eexists. split; [done|].
  unfold Merger.Deliver. set (m1 := m <| hasHeld := true |> <| heldSeq := n |> <| heldSrc := src |> <| heldPayload := a |>).
  change (Merger.active m1) with (Merger.active m). rewrite Ha. cbn [negb]. change (hasHeld m1) with true.
  unfold IsSplitPair. change (heldSeq m1) with n. change (heldSrc m1) with src. rewrite Hn, !Z.eqb_refl. cbn [andb Z.eqb].
  eexists. split; [done|]. by split.
Qed.

Lemma split_payload_pair md p : md <> SplitOff -> p <> [] -> exists a b, SplitPayload md p = Some (a, b) /\ a ++ b = p.
Proof.
  intros Hm Hp. unfold SplitPayload. rewrite (bool_decide_eq_false_2 _ Hm). cbn [orb].
  destruct (Z.eqb_spec (zlen p) 0) as [E|]; [by destruct p|]. eexists _, _. split; [done|]. apply take_drop.
Qed.

Lemma deliver_conserves seqn src p disc m :
  let '(out, m') := Merger.Deliver seqn src p disc m in
  (hasHeld m = true -> Merger.active m = true) ->
  concat out ++ held m' = held m ++ p /\ (hasHeld m' = true -> Merger.active m' = true) /\
  Merger.active m' = Merger.active m.
Proof.
  unfold Merger.Deliver. destruct (Merger.active m) eqn:Ha; cbn [negb].
  - destruct (hasHeld m) eqn:Hh.
    + destruct (negb disc && _).
      * intros _. unfold held. rewrite Hh. cbn [hasHeld]. simpl. by rewrite !app_nil_r.
      * unfold Merger.fresh. destruct (Z.land seqn 1 =? 0); intros _; unfold held; rewrite Hh; simpl; by rewrite ?app_nil_r.
    + unfold Merger.fresh. destruct (Z.land seqn 1 =? 0); intros _; unfold held; [by rewrite Hh|]. rewrite Hh. simpl.
      by rewrite !app_nil_r.
  - intros Hm. assert (Hh : hasHeld m = false) by (destruct (hasHeld m); [by discriminate Hm|done]). unfold held. rewrite Hh. simpl.
    by rewrite !app_nil_r.
Qed.

(** ** Properties *)

(** Splitting is lossless: an active mode pairs every non-empty payload, the halves concatenate to it, a payload of
    two bytes or more has two non-empty halves, and a transport-stream payload is cut on a packet boundary. *)
Theorem split_lossless md p :
  md <> SplitOff -> p <> [] ->
  exists a b, SplitPayload md p = Some (a, b) /\ a ++ b = p /\
    (2 <= zlen p -> a <> [] /\ b <> []) /\
    (md = SplitAuto -> 376 <= zlen p -> zlen p mod 188 = 0 -> p !! 0%nat = Some 71 -> zlen a mod 188 = 0).
Proof.
  intros Hm Hp. unfold SplitPayload. rewrite (bool_decide_eq_false_2 _ Hm). cbn [orb].
  assert (Hz : 0 < zlen p) by (unfold zlen; destruct p; [done|simpl; lia]).
  destruct (Z.eqb_spec (zlen p) 0); [lia|]. set (at_ := match SplitPoint md p with Some _ => _ | None => 0 end).
  exists (take (Z.to_nat at_) p), (drop (Z.to_nat at_) p). split; [done|]. split; [apply take_drop|].
  assert (Hat : (2 <= zlen p -> 0 < at_ < zlen p) /\
    (md = SplitAuto -> 376 <= zlen p -> zlen p mod 188 = 0 -> p !! 0%nat = Some 71 -> at_ mod 188 = 0 /\ 0 <= at_ <= zlen p)).
  { subst at_. unfold SplitPoint. rewrite (bool_decide_eq_false_2 _ Hm). cbn [orb].
    destruct (Z.ltb_spec (zlen p) 2); [split; lia|]. unfold tsPacketLen, tsSyncByte.
    rewrite Z.rem_mod_nonneg, (Z.quot_div_nonneg (zlen p) 188), (Z.quot_div_nonneg (zlen p) 2) by lia.
    rewrite (Z.quot_div_nonneg (zlen p / 188) 2) by (lia || (apply Z.div_pos; lia)).
    pose proof (Z.div_mod (zlen p) 188). pose proof (Z.mod_pos_bound (zlen p) 188).
    pose proof (Z.div_mod (zlen p / 188) 2). pose proof (Z.mod_pos_bound (zlen p / 188) 2).
    pose proof (Z.div_mod (zlen p) 2). pose proof (Z.mod_pos_bound (zlen p) 2).
    destruct (bool_decide (md = SplitAuto)) eqn:Ea; cbn [andb].
    - destruct (Z.leb_spec (2 * 188) (zlen p)); cbn [andb].
      + destruct (Z.eqb_spec (zlen p mod 188) 0); cbn [andb].
        * destruct (Z.eqb_spec (default 0 (p !! 0%nat)) 71).
          { destruct (Z.eqb_spec (zlen p / 188 / 2) 0); [lia|]. split; [lia|]. intros. rewrite Z.mod_mul by lia. lia. }
          split; [lia|]. intros _ _ _ E. by rewrite E in *.
        * split; lia.
      + split; lia.
    - apply bool_decide_eq_false in Ea. split; [lia|done]. }
  destruct Hat as [H1 H2]. clearbody at_. split.
  - intros H. specialize (H1 H). unfold zlen in H1. split; intros E; apply (f_equal length) in E;
      rewrite ?length_take, ?length_drop in E; simpl in E; lia.
  - intros E1 E2 E3 E4. destruct (H2 E1 E2 E3 E4) as [E5 E6]. unfold zlen in *. rewrite length_take, Nat.min_l, Z2Nat.id by lia. done.
Qed.

Lemma split_lossless_witness :
  exists a b, SplitPayload SplitHalf [1; 2; 3] = Some (a, b) /\ a ++ b = [1; 2; 3].
Proof.
  destruct (split_lossless SplitHalf [1; 2; 3]) as (a & b & H1 & H2 & _); [discriminate|discriminate|].
  exists a, b. split; [exact H1|exact H2].
Defined.

(** Split then merge is the identity on streams: the packets of any payloads split from an even sequence on, across
    the 32-bit wrap, merge back into exactly those payloads, in order, with nothing held back. *)
Theorem split_merge_round_trip md n ps m :
  md <> SplitOff -> Z.land n 1 = 0 -> Forall (fun sp => sp.2 <> []) ps ->
  Merger.active m = true -> hasHeld m = false ->
  (deliver_all (split_stream md n ps) m).1 = ps.*2 /\ hasHeld (deliver_all (split_stream md n ps) m).2 = false.
Proof.
  intros Hm Hn Hps. revert n m Hn. induction Hps as [|[src p] ps Hp Hps IH]; intros n m Hn Ha Hh; [done|].
  cbn [split_stream snd] in *. destruct (split_payload_pair md p Hm Hp) as (a & b & E & Hab). rewrite E. cbn [deliver_all dl_seq dl_src dl_payload dl_disc].
  destruct (merge_pair m n src a b Ha Hh Hn) as (m1 & E1 & m2 & E2 & Ha2 & Hh2). rewrite E1, E2.
  destruct (u32_even n Hn) as [Hn2 _]. destruct (IH (u32 (n + 2)) m2 Hn2 Ha2 Hh2) as [I1 I2].
  destruct (deliver_all _ m2) as [outs m3]. cbn [fst snd] in *. split; [|done]. simpl. by rewrite I1, Hab.
Qed.

Lemma split_merge_round_trip_witness :
  (deliver_all (split_stream SplitHalf 4294967294 [(5, [1; 2; 3]); (6, [4])]) (NewMerger MergePairs)).1 = [[1; 2; 3]; [4]].
Proof.
  apply (split_merge_round_trip SplitHalf 4294967294 [(5, [1; 2; 3]); (6, [4])] (NewMerger MergePairs));
    [discriminate|reflexivity|repeat constructor; discriminate|reflexivity|reflexivity].
Defined.

(** Merging conserves the byte stream: from any merger and any deliveries (lost, repeated or reordered packets
    included), the bytes handed on followed by the bytes still held are the bytes held before followed by
    the bytes delivered, in order. *)
Theorem merge_conserves_bytes ds m :
  (hasHeld m = true -> Merger.active m = true) ->
  concat (deliver_all ds m).1 ++ held (deliver_all ds m).2 = held m ++ concat (dl_payload <$> ds).
Proof.
  revert m. induction ds as [|d ds IH]; intros m Hm; cbn [deliver_all]; [simpl; by rewrite app_nil_r|].
  pose proof (deliver_conserves (dl_seq d) (dl_src d) (dl_payload d) (dl_disc d) m) as Hd.
  destruct (Merger.Deliver _ _ _ _ m) as [out m1]. destruct (Hd Hm) as (E1 & Hm1 & _). specialize (IH m1 Hm1).
  destruct (deliver_all ds m1) as [outs m2]. cbn [fst snd] in *.
  by rewrite concat_app, <-app_assoc, IH, app_assoc, E1, <-app_assoc.
Qed.

Lemma merge_conserves_bytes_witness :
  concat (deliver_all [mkDelivery 2 9 [1] false; mkDelivery 5 9 [2] true] (NewMerger MergePairs)).1 = [1; 2].
Proof.
  pose proof (merge_conserves_bytes [mkDelivery 2 9 [1] false; mkDelivery 5 9 [2] true] (NewMerger MergePairs)) as H.
  assert (E : hasHeld (NewMerger MergePairs) = true -> Merger.active (NewMerger MergePairs) = true) by discriminate.
  specialize (H E). exact H.
Defined.
