(* ===== verification/Reassembler.v ===== *)
(** * Fragment reassembly: internal/session/reassembler.go

    The Advanced profile splits a payload over consecutive sequences with first/middle/last roles.  The reassembler
    restores a payload of up to 64 fragments exactly, and a completed payload is always the concatenation of one
    unbroken run: what a loss interrupts is dropped, never spliced. *)

From S2P Require Import Prelude Wire.

Record fragReassembler := mkFrag { buf : bytes; active : bool; fr_count : Z }.

#[export] Instance eta_fragReassembler : Eta fragReassembler := fun r => mkFrag (buf r) (active r) (fr_count r).

Definition frag_zero : fragReassembler := mkFrag [] false 0.

Definition MaxReassemblyFragments : Z := 64.

Definition frag_reset (r : fragReassembler) : fragReassembler :=
  r <| buf := [] |> <| active := false |> <| fr_count := 0 |>.

(** fragReassembler.push *)
Definition frag_push (frag : FragRole) (payload : bytes) (discontinuity : bool) (r : fragReassembler)
    : option bytes * fragReassembler :=
  match frag with
  | FragFirst => (None, r <| buf := payload |> <| active := true |> <| fr_count := 1 |>)
  | FragMiddle =>
      if negb (active r) || discontinuity || (MaxReassemblyFragments <=? fr_count r) then (None, frag_reset r)
      else (None, r <| buf ::= (fun b => b ++ payload) |> <| fr_count ::= (fun n => i64 (n + 1)) |>)
  | FragLast =>
      if negb (active r) || discontinuity || (MaxReassemblyFragments <=? fr_count r) then (None, frag_reset r)
      else let r := r <| buf ::= (fun b => b ++ payload) |> <| active := false |> in (Some (buf r), r)
  | FragStandalone => (Some payload, frag_reset r)
  end.

Record fecCtrlReassembler := mkFecCtrl { fc_r : fragReassembler; fc_lastSeq : Z; fc_haveSeq : bool }.

(** fecCtrlReassembler.push *)
Definition fec_push (seqn : Z) (frag : FragRole) (payload : bytes) (f : fecCtrlReassembler)
    : option bytes * fecCtrlReassembler :=
  let discontinuity := fc_haveSeq f && negb (seqn =? u32 (fc_lastSeq f + 1)) in
  let '(out, r) := frag_push frag payload discontinuity (fc_r f) in
  (out, mkFecCtrl r seqn true).

(** ** Streams *)

(** A delivered fragment: role, payload, and whether a gap precedes it. *)
Record fragment := mkFragment { fg_role : FragRole; fg_payload : bytes; fg_disc : bool }.

Fixpoint push_frags (fs : list fragment) (r : fragReassembler) : list bytes * fragReassembler :=
  match fs with
  | [] => ([], r)
  | f :: fs =>
      let '(out, r) := frag_push (fg_role f) (fg_payload f) (fg_disc f) r in
      let '(outs, r) := push_frags fs r in
      (option_list out ++ outs, r)
  end.

(** The fragments of one payload cut into [pieces]. *)
Definition fragments (pieces : list bytes) : list fragment :=
  match pieces with
  | [] => []
  | [p] => [mkFragment FragStandalone p false]
  | p :: ps =>
      mkFragment FragFirst p false ::
      ((fun q => mkFragment FragMiddle q false) <$> removelast ps) ++ [mkFragment FragLast (List.last ps []) false]
  end.

(** ** Lemmas *)

(** The fragments an open run has absorbed. *)
Definition run_inv (r : fragReassembler) : Prop := if active r then 1 <= fr_count r <= 64 else 0 <= fr_count r <= 64.

Lemma frag_push_inv frag p disc r : run_inv r -> run_inv (frag_push frag p disc r).2.
Proof.
  unfold run_inv, frag_push, MaxReassemblyFragments. intros Hr. destruct frag; try (simpl; lia).
  - destruct (active r) eqn:Ea; simpl; [|lia]. destruct disc; simpl; [lia|].
    destruct (Z.leb_spec 64 (fr_count r)); simpl; [lia|]. rewrite Ea. nowrap. lia.
  - destruct (active r) eqn:Ea; simpl; [|lia]. destruct disc; simpl; [lia|].
    destruct (Z.leb_spec 64 (fr_count r)); simpl; lia.
Qed.

Lemma push_middles qs r :
  active r = true -> 1 <= fr_count r -> fr_count r + zlen qs <= 64 ->
  exists r', push_frags ((fun q => mkFragment FragMiddle q false) <$> qs) r = ([], r') /\
    active r' = true /\ fr_count r' = fr_count r + zlen qs /\ buf r' = buf r ++ concat qs.
Proof.
  revert r. induction qs as [|q qs IH]; intros r Ha Hc Hl.
  { exists r. cbn. rewrite app_nil_r. split_and!; try done. change (zlen (@nil bytes)) with 0. lia. }
  assert (Hz : zlen (q :: qs) = zlen qs + 1) by (unfold zlen; simpl; lia). assert (0 <= zlen qs) by (unfold zlen; lia).
  cbn [fmap list_fmap push_frags fg_role fg_payload fg_disc frag_push]. rewrite Ha. unfold MaxReassemblyFragments.
  destruct (Z.leb_spec 64 (fr_count r)); [lia|]. cbn [negb orb].
  set (r1 := r <| buf ::= _ |> <| fr_count ::= _ |>).
  assert (Hc1 : fr_count r1 = fr_count r + 1) by (change (fr_count r1) with (i64 (fr_count r + 1)); nowrap; done).
  destruct (IH r1) as (r' & E & A & C & B); [done|lia|lia|]. rewrite E. exists r'. split_and!; try done; [lia|].
  rewrite B. change (buf r1) with (buf r ++ q). simpl. by rewrite <-app_assoc.
Qed.

Lemma removelast_last_concat (ps : list bytes) : ps <> [] -> concat (removelast ps) ++ List.last ps [] = concat ps.
Proof.
  intros Hp. rewrite (app_removelast_last [] Hp) at 3. rewrite concat_app. simpl. by rewrite app_nil_r.
Qed.

Lemma push_frags_app fs gs r :
  push_frags (fs ++ gs) r =
    let '(o1, r1) := push_frags fs r in let '(o2, r2) := push_frags gs r1 in (o1 ++ o2, r2).
Proof.
  revert r. induction fs as [|f fs IH]; intros r; cbn [app push_frags]; [by destruct (push_frags gs r)|].
  destruct (frag_push _ _ _ r) as [o r1]. rewrite IH. destruct (push_frags fs r1) as [o1 r2].
  destruct (push_frags gs r2) as [o2 r3]. by rewrite app_assoc.
Qed.

Definition middle (q : bytes) : fragment := mkFragment FragMiddle q false.

(** An open run is the last first fragment and the unbroken middle fragments since. *)
Definition open_run (fs : list fragment) (r : fragReassembler) : Prop :=
  active r = true ->
  exists pre p0 d ms, fs = pre ++ mkFragment FragFirst p0 d :: (middle <$> ms) /\
    buf r = p0 ++ concat ms /\ fr_count r = 1 + zlen ms /\ fr_count r <= 64.

Lemma frag_push_open fs f r :
  open_run fs r -> open_run (fs ++ [f]) (frag_push (fg_role f) (fg_payload f) (fg_disc f) r).2.
Proof.
  intros Ho. destruct f as [role p d]. cbn [fg_role fg_payload fg_disc]. unfold open_run, frag_push. destruct role; try done.
  - intros _. exists fs, p, d, []. split_and!; try done. simpl. by rewrite app_nil_r.
  - destruct (active r) eqn:Ha; [|done]. destruct d; [done|]. unfold MaxReassemblyFragments. cbn [negb orb].
    destruct (Z.leb_spec 64 (fr_count r)); [done|]. intros _. destruct (Ho Ha) as (pre & p0 & d & ms & -> & Hb & Hc & Hm).
    assert (0 <= zlen ms) by (unfold zlen; lia).
    exists pre, p0, d, (ms ++ [p]). split_and!.
    + by rewrite fmap_app, <-app_assoc.
    + change (buf r ++ p = p0 ++ concat (ms ++ [p])). rewrite Hb, concat_app. simpl. by rewrite app_nil_r, <-app_assoc.
    + change (i64 (fr_count r + 1) = 1 + zlen (ms ++ [p])). unfold zlen in *. rewrite length_app. simpl. nowrap. lia.
    + change (i64 (fr_count r + 1) <= 64). nowrap. lia.
  - destruct (negb (active r) || d || _); done.
Qed.

Lemma push_frags_open fs0 fs r : open_run fs0 r -> open_run (fs0 ++ fs) (push_frags fs r).2.
Proof.
  revert fs0 r. induction fs as [|f fs IH]; intros fs0 r Ho; cbn [push_frags]; [by rewrite app_nil_r|].
  pose proof (frag_push_open fs0 f r Ho) as H1. destruct (frag_push _ _ _ r) as [o r1]. cbn [snd] in H1.
  specialize (IH (fs0 ++ [f]) r1 H1). destruct (push_frags fs r1) as [os r2]. cbn [snd] in *. by rewrite <-app_assoc in IH.
Qed.

(** ** Properties *)

(** Fragmenting then reassembling is the identity: a payload cut into 1 to 64 pieces and delivered without a gap
    comes out as exactly that payload, once, whatever run the reassembler had open before. *)
Theorem fragment_round_trip pieces r :
  pieces <> [] -> zlen pieces <= MaxReassemblyFragments ->
  (push_frags (fragments pieces) r).1 = [concat pieces].
Proof.
  unfold MaxReassemblyFragments. destruct pieces as [|p [|q ps]]; [done| |].
  { intros _ _. simpl. by rewrite app_nil_r. }
  intros _ Hl. set (qs := q :: ps) in *. assert (Hq : qs <> []) by done.
  change (fragments (p :: qs)) with (mkFragment FragFirst p false ::
    ((fun q => mkFragment FragMiddle q false) <$> removelast qs) ++ [mkFragment FragLast (List.last qs []) false]).
  cbn [push_frags fg_role fg_payload fg_disc frag_push]. rewrite push_frags_app.
  assert (Hlen : zlen (removelast qs) = zlen (p :: qs) - 2).
  { pose proof (f_equal length (app_removelast_last [] Hq)) as E. rewrite length_app in E.
    unfold zlen. cbn [length] in *. lia. }
  assert (0 <= zlen (removelast qs)) by (unfold zlen; lia).
  set (r1 := r <| buf := p |> <| active := true |> <| fr_count := 1 |>).
  destruct (push_middles (removelast qs) r1) as (r2 & -> & A & C & B); [done|done|change (fr_count r1) with 1; lia|].
  cbn [push_frags fg_role fg_payload fg_disc frag_push]. rewrite A. change (fr_count r1) with 1 in C.
  unfold MaxReassemblyFragments. destruct (Z.leb_spec 64 (fr_count r2)); [lia|]. cbn [negb orb option_list app fst].
  change (buf (r2 <| buf ::= (fun b => b ++ List.last qs []) |> <| active := false |>)) with (buf r2 ++ List.last qs []).
  rewrite B. change (buf r1) with p. by rewrite <-app_assoc, removelast_last_concat.
Qed.

Lemma fragment_round_trip_witness : (push_frags (fragments [[1]; [2; 3]; [4]]) (mkFrag [9; 9] true 7)).1 = [[1; 2; 3; 4]].
Proof. apply (fragment_round_trip [[1]; [2; 3]; [4]] (mkFrag [9; 9] true 7)); [discriminate|vm_compute; discriminate]. Defined.

(** Reassembly never splices: after any fragments at all, a payload that completes is either one standalone fragment, or the
    concatenation of the last first fragment, every fragment since, all of them middle fragments without a
    gap, and the closing last fragment, 64 at most. *)
Theorem reassembly_sound fs f x :
  (frag_push (fg_role f) (fg_payload f) (fg_disc f) (push_frags fs frag_zero).2).1 = Some x ->
  (fg_role f = FragStandalone /\ x = fg_payload f) \/
  exists pre p0 d ms, fs = pre ++ mkFragment FragFirst p0 d :: (middle <$> ms) /\
    fg_role f = FragLast /\ fg_disc f = false /\ x = p0 ++ concat ms ++ fg_payload f /\ zlen ms + 2 <= MaxReassemblyFragments.
Proof.
  assert (Ho : open_run fs (push_frags fs frag_zero).2) by (by apply (push_frags_open [])).
  generalize dependent (push_frags fs frag_zero).2. intros r Ho. destruct f as [role p d]. cbn [fg_role fg_payload fg_disc].
  unfold frag_push, MaxReassemblyFragments. destruct role; try done.
  - intros [= <-]. by left.
  - by destruct (negb (active r) || d || _).
  - destruct (active r) eqn:Ha; [|done]. destruct d; [done|]. cbn [negb orb].
    destruct (Z.leb_spec 64 (fr_count r)); [done|]. intros [= <-]. right.
    destruct (Ho Ha) as (pre & p0 & d & ms & -> & Hb & Hc & Hm). exists pre, p0, d, ms. split_and!; try done; [|lia].
    by rewrite Hb, <-app_assoc.
Qed.

Lemma reassembly_sound_witness :
  exists pre p0 d ms, [mkFragment FragMiddle [8] true; mkFragment FragFirst [1] true; mkFragment FragMiddle [2] false] =
      pre ++ mkFragment FragFirst p0 d :: (middle <$> ms) /\ [1; 2; 3] = p0 ++ concat ms ++ [3].
Proof.
  destruct (reassembly_sound [mkFragment FragMiddle [8] true; mkFragment FragFirst [1] true; mkFragment FragMiddle [2] false]
    (mkFragment FragLast [3] false) [1; 2; 3]) as [[H _]|(pre & p0 & d & ms & H1 & _ & _ & H4 & _)].
  - reflexivity.
  - discriminate H.
  - exists pre, p0, d, ms. split; [exact H1|exact H4].
Defined.
