(* ===== verification/Replay.v ===== *)
(** * DTLS anti-replay: internal/dtls/replay.go

    The 64-record sliding window.  The bitmap is an exact image of the accepted records near the right edge, so
    the window accepts a record exactly when it has not been accepted and is not more than 63 behind the newest. *)

From S2P Require Import Prelude.

Record replayWindow := mkReplay { right : Z; bitmap : Z; seen : bool }.

#[export] Instance eta_replayWindow : Eta replayWindow := fun w => mkReplay (right w) (bitmap w) (seen w).

Definition replay_zero : replayWindow := mkReplay 0 0 false.

Definition replayWindowSize : Z := 64.

Definition check (n : Z) (w : replayWindow) : bool :=
  if negb (seen w) || (right w <? n) then true else
  let diff := u64 (right w - n) in
  if replayWindowSize <=? diff then false else
  Z.land (bitmap w) (u64 (Z.shiftl 1 diff)) =? 0.

Definition mark (n : Z) (w : replayWindow) : replayWindow :=
  if negb (seen w) then w <| seen := true |> <| right := n |> <| bitmap := 1 |> else
  if right w <? n then
    let shift := u64 (n - right w) in
    let w := w <| bitmap := if replayWindowSize <=? shift then 1
                            else Z.lor (u64 (Z.shiftl (bitmap w) shift)) 1 |> in
    w <| right := n |>
  else
  let diff := u64 (right w - n) in
  if diff <? replayWindowSize then w <| bitmap ::= (fun b => Z.lor b (u64 (Z.shiftl 1 diff))) |> else w.

(** The record layer's use of the window: a record that passes [check] and authenticates is marked. *)
Definition accept (n : Z) (w : replayWindow) : bool * replayWindow :=
  if check n w then (true, mark n w) else (false, w).

Fixpoint accept_all (ns : list Z) (w : replayWindow) : list Z * replayWindow :=
  match ns with
  | [] => ([], w)
  | n :: ns =>
      let '(ok, w) := accept n w in
      let '(rest, w) := accept_all ns w in
      (if ok then n :: rest else rest, w)
  end.

(** ** The window as a set *)

(** [acc] is the set of accepted records, newest first does not matter: [right] is its maximum, and bit [i]
    of the bitmap tells whether [right - i] is in it. *)
Record replay_inv (acc : list Z) (w : replayWindow) : Prop := {
  rp_typed : Forall in_u64 acc;
  rp_seen : seen w = negb (bool_decide (acc = []));
  rp_right : acc <> [] -> right w ∈ acc;
  rp_max : Forall (fun n => n <= right w) acc;
  rp_bits : seen w = true -> forall i, 0 <= i < 64 -> Z.testbit (bitmap w) i = bool_decide (right w - i ∈ acc) }.

Lemma shiftl_1_pow i : 0 <= i < 64 -> u64 (Z.shiftl 1 i) = 2 ^ i.
Proof.
  intros Hi. rewrite Z.shiftl_mul_pow2, Z.mul_1_l by lia. apply u64_id. unfold in_u64.
  pose proof (Z.pow_pos_nonneg 2 i). pose proof (Z.pow_lt_mono_r 2 i 64). lia.
Qed.

Section accepted.
Context (acc : list Z) (w : replayWindow) (n : Z).
Hypothesis (Hi : replay_inv acc w) (Hn : in_u64 n).

Lemma right_typed : acc <> [] -> in_u64 (right w).
Proof using Hi. intros Ha. destruct Hi. by eapply (proj1 (Forall_forall _ _)); [exact rp_typed0|apply rp_right0]. Qed.

Lemma seen_acc : seen w = true <-> acc <> [].
Proof using Hi. destruct Hi. rewrite rp_seen0. destruct (bool_decide (acc = [])) eqn:E; [apply bool_decide_eq_true in E|apply bool_decide_eq_false in E]; done. Qed.

(** [check] is membership, up to the age limit. *)
Lemma check_spec :
  check n w = bool_decide (acc = []) || (right w <? n) || ((right w - n <? 64) && negb (bool_decide (n ∈ acc))).
Proof using Hi Hn.
  unfold check, replayWindowSize. destruct (seen w) eqn:Es.
  - assert (Ha : acc <> []) by (by apply seen_acc). rewrite (bool_decide_eq_false_2 _ Ha). cbn [negb orb].
    destruct (Z.ltb_spec (right w) n) as [|Hle]; [done|]. cbn [orb]. pose proof (right_typed Ha). unfold in_u64 in *.
    rewrite (u64_id (right w - n)) by (unfold in_u64; lia).
    destruct (Z.leb_spec 64 (right w - n)); destruct (Z.ltb_spec (right w - n) 64); try lia. cbn [andb].
    rewrite shiftl_1_pow, land_pow2_zero by lia. f_equal. rewrite (rp_bits _ _ Hi Es) by lia.
    by replace (right w - (right w - n)) with n by lia.
  - destruct (decide (acc = [])) as [->|Ha]; [done|]. apply seen_acc in Ha. congruence.
Qed.

(** The bitmap of the first record. *)
Lemma testbit_1 i : 0 <= i -> Z.testbit 1 i = (i =? 0).
Proof using Type. intros. change 1 with (2 ^ 0). rewrite Z.pow2_bits_eqb by lia. apply Z.eqb_sym. Qed.

(** A newer record slides the window. *)
Lemma slide_bits i :
  acc <> [] -> right w < n -> 0 <= i < 64 ->
  Z.testbit (if 64 <=? n - right w then 1 else Z.lor (u64 (Z.shiftl (bitmap w) (n - right w))) 1) i =
    bool_decide (n - i ∈ n :: acc).
Proof using Hi.
  intros Ha Hlt Hi64. assert (Hnot : forall m, m ∈ acc -> m <= right w) by (apply Forall_forall, Hi).
  destruct (Z.eqb_spec i 0) as [->|Hne].
  { assert (bool_decide (n - 0 ∈ n :: acc) = true) as -> by (apply bool_decide_eq_true, elem_of_cons; left; lia).
    destruct (_ <=? _); [done|]. rewrite Z.lor_spec. by rewrite orb_true_r. }
  assert (E : bool_decide (n - i ∈ n :: acc) = bool_decide (n - i ∈ acc)).
  { apply bool_decide_ext. rewrite elem_of_cons. split; [intros [?|?]; [lia|done]|by right]. }
  assert (E1 : Z.testbit 1 i = false) by (rewrite testbit_1 by lia; by apply Z.eqb_neq).
  rewrite E. destruct (Z.leb_spec 64 (n - right w)).
  { rewrite E1. symmetry. apply bool_decide_eq_false. intros Hin. apply Hnot in Hin. lia. }
  rewrite Z.lor_spec, E1, orb_false_r. unfold u64, uwrap. rewrite Z.mod_pow2_bits_low by lia.
  destruct (Z.lt_ge_cases i (n - right w)) as [Hl|Hg].
  - rewrite Z.shiftl_spec_low by lia. symmetry. apply bool_decide_eq_false. intros Hin. apply Hnot in Hin. lia.
  - rewrite Z.shiftl_spec, (rp_bits _ _ Hi) by (lia || by apply seen_acc).
    by replace (right w - (i - (n - right w))) with (n - i) by lia.
Qed.

(** An older record fills its bit. *)
Lemma fill_bits i :
  acc <> [] -> n <= right w -> right w - n < 64 -> 0 <= i < 64 ->
  Z.testbit (Z.lor (bitmap w) (2 ^ (right w - n))) i = bool_decide (right w - i ∈ n :: acc).
Proof using Hi.
  intros Ha Hle Hd Hi64. rewrite testbit_lor_pow2, (rp_bits _ _ Hi) by (lia || by apply seen_acc).
  destruct (Z.eqb_spec (right w - n) i) as [E|Hne].
  - rewrite orb_true_r. symmetry. apply bool_decide_eq_true, elem_of_cons. left. lia.
  - rewrite orb_false_r. apply bool_decide_ext. rewrite elem_of_cons. split; [by right|]. intros [?|?]; [lia|done].
Qed.

Lemma mark_inv : check n w = true -> replay_inv (n :: acc) (mark n w).
Proof using Hi Hn.
  intros Hc. pose proof Hi as []. unfold mark, replayWindowSize. destruct (seen w) eqn:Es; cbn [negb].
  - assert (Ha : acc <> []) by (by apply seen_acc). pose proof (right_typed Ha) as Hrt. unfold in_u64 in *.
    destruct (Z.ltb_spec (right w) n) as [Hlt|Hle].
    + rewrite (u64_id (n - right w)) by (unfold in_u64; lia). split; cbn; try done.
      * constructor; done.
      * intros _. by left.
      * constructor; [lia|]. eapply Forall_impl; [exact rp_max0|]. simpl. lia.
      * intros _ i Hi64. by apply slide_bits.
    + rewrite (u64_id (right w - n)) by (unfold in_u64; lia).
      rewrite check_spec, (bool_decide_eq_false_2 _ Ha) in Hc. destruct (Z.ltb_spec (right w) n); [lia|].
      apply andb_true_iff in Hc as [Hd%Z.ltb_lt _]. rewrite (proj2 (Z.ltb_lt _ _) Hd), shiftl_1_pow by lia. split; cbn; try done.
      * constructor; done.
      * intros _. right. by apply rp_right0.
      * constructor; [lia|done].
      * intros _ i Hi64. by apply fill_bits.
  - assert (E : acc = []) by (destruct (decide (acc = [])) as [?|Ha]; [done|]; apply seen_acc in Ha; congruence).
    subst acc. split; cbn; try done.
    + by constructor.
    + intros _. by left.
    + constructor; [lia|done].
    + intros _ i Hi64. rewrite testbit_1 by lia. destruct (Z.eqb_spec i 0) as [->|]; symmetry.
      * apply bool_decide_eq_true, elem_of_cons. left. lia.
      * apply bool_decide_eq_false. intros [?|Hin]%elem_of_cons; [lia|]. by apply elem_of_nil in Hin.
Qed.
End accepted.

Lemma replay_zero_inv : replay_inv [] replay_zero.
Proof. by split. Qed.

(** Processing records keeps the set exact, and only adds what was not in it. *)
Lemma accept_all_spec ns acc w :
  replay_inv acc w -> NoDup acc -> Forall in_u64 ns ->
  let '(out, w') := accept_all ns w in replay_inv (rev out ++ acc) w' /\ NoDup (rev out ++ acc).
Proof.
  intros Hi Hnd Hns. revert acc w Hi Hnd. induction Hns as [|n ns Hn Hns IH]; intros acc w Hi Hnd; cbn [accept_all]; [done|].
  unfold accept. destruct (check n w) eqn:Hc.
  - assert (Hnew : n ∉ acc).
    { rewrite (check_spec acc) in Hc by done. intros Hin. pose proof (rp_max _ _ Hi) as Hmax.
      rewrite Forall_forall in Hmax. specialize (Hmax n Hin). simpl in Hmax.
      rewrite (bool_decide_eq_true_2 (n ∈ acc)) in Hc by done. rewrite andb_false_r, orb_false_r in Hc.
      apply orb_true_iff in Hc as [Hc|Hc]; [|lia]. apply bool_decide_eq_true in Hc. subst acc. by apply elem_of_nil in Hin. }
    specialize (IH (n :: acc) (mark n w) (mark_inv acc w n Hi Hn Hc)).
    destruct (accept_all ns (mark n w)) as [rest w']. simpl. rewrite <-app_assoc. apply IH. by constructor.
  - specialize (IH acc w Hi Hnd). by destruct (accept_all ns w).
Qed.

(** ** Properties *)

(** No record is accepted twice and none is refused without cause: over any sequence of records, the accepted
    ones are all distinct, and the next record is accepted exactly when the window is empty, or it is
    newer than everything accepted, or it is less than 64 behind the newest and was not accepted before. *)
Theorem replay_exact ns n :
  Forall in_u64 ns -> in_u64 n ->
  let '(out, w) := accept_all ns replay_zero in
  NoDup out /\ Forall (fun m => m <= right w) out /\
  (check n w = true <-> out = [] \/ right w < n \/ (right w - n < replayWindowSize /\ n ∉ out)).
Proof.
  intros Hns Hn. pose proof (accept_all_spec ns [] replay_zero replay_zero_inv (NoDup_nil_2) Hns) as H.
  destruct (accept_all ns replay_zero) as [out w]. rewrite app_nil_r in H. destruct H as [Hi Hnd].
  assert (Hp : Permutation (rev out) out) by (symmetry; apply Permutation_rev).
  split; [by rewrite Hp in Hnd|]. split; [pose proof (rp_max _ _ Hi) as Hm; by rewrite Hp in Hm|].
  rewrite (check_spec _ _ _ Hi Hn), !orb_true_iff, andb_true_iff, negb_true_iff, bool_decide_eq_true, bool_decide_eq_false, !Z.ltb_lt.
  unfold replayWindowSize. assert (Hin : n ∈ rev out <-> n ∈ out) by (by rewrite Hp). rewrite Hin. assert (E : rev out = [] <-> out = []).
  { split; [|by intros ->]. intros E. apply (f_equal (@rev Z)) in E. by rewrite rev_involutive in E. }
  rewrite E. tauto.
Qed.

Lemma replay_exact_witness :
  let '(out, w) := accept_all [5; 3; 5; 200; 130; 140; 140; 5] replay_zero in
  NoDup out /\ Forall (fun m => m <= right w) out /\
  (check 141 w = true <-> out = [] \/ right w < 141 \/ (right w - 141 < replayWindowSize /\ 141 ∉ out)).
Proof.
  apply (replay_exact [5; 3; 5; 200; 130; 140; 140; 5] 141); [repeat constructor; discriminate|split; [discriminate|reflexivity]].
Defined.

(** In that stream the repeats of 5 and 140 and the stale 130 and 5 are refused. *)
Example replay_example : (accept_all [5; 3; 5; 200; 130; 140; 140; 5] replay_zero).1 = [5; 3; 200; 140].
Proof. vm_compute. reflexivity. Qed.
