(* ===== verification/Npd.v ===== *)
(** * Null-packet deletion (src/internal/npd/npd.go)

    A payload of up to seven MPEG-TS packets travels without its null packets, with a bitmap of where they were; the
    receiver puts them back.  The RIST RTP header extension carries the bitmap. *)

From stdpp Require Import sets.
From S2P Require Import Prelude Bytes.

Inductive npdError := ErrShortExt | ErrBadIdentifier | ErrBadLength | ErrPayloadSize | ErrTooManyPackets | ErrSyncByte | ErrTruncated.

Definition Identifier : Z := 0x5249.
Definition Length : Z := 1.
Definition ExtSize : Z := 8.
Definition FlagNPD : Z := Z.shiftl 1 7.
Definition NPDSize204 : Z := Z.shiftl 1 7.
Definition NullBitmapMask : Z := 127.
Definition MaxPackets : Z := 7.
Definition SizeTS188 : Z := 188.
Definition SizeTS204 : Z := 204.
Definition SyncByte : Z := 0x47.
Definition NullPID : Z := 0x1FFF.
Definition tsHeaderSize : Z := 4.
Definition flags2Bit4 : Z := Z.shiftl 1 4.

(** ** The header extension *)

Record Ext := mkExt { NPD : bool; Size204 : bool; NullBitmap : Z; SeqExt : Z }.

Definition NPDBits (size204 : bool) (bitmap : Z) : Z :=
  let b := Z.land bitmap NullBitmapMask in
  if size204 then Z.lor b NPDSize204 else b.

Definition ext_AppendTo (e : Ext) (dst : bytes) : bytes :=
  let flags := if NPD e then Z.lor 0 FlagNPD else 0 in
  let npdBits := Z.land (NullBitmap e) NullBitmapMask in
  let npdBits := if Size204 e then Z.lor npdBits NPDSize204 else npdBits in
  let dst := dst ++ be_bytes 2 Identifier in
  let dst := dst ++ be_bytes 2 Length in
  let dst := dst ++ [flags; npdBits] in
  dst ++ be_bytes 2 (SeqExt e).

Definition ParseExt (b : bytes) : res npdError (Ext * Z) :=
  if zlen b <? ExtSize then Err ErrShortExt else
  ident ← (t ← slc b 0 2; Uint16 t);
  if negb (ident =? Identifier) then Err ErrBadIdentifier else
  len ← (t ← slc b 2 4; Uint16 t);
  if negb (len =? Length) then Err ErrBadLength else
  flags ← idx b 4;
  npdBits ← idx b 5;
  seqExt ← (t ← slc b 6 8; Uint16 t);
  Ok (mkExt (negb (Z.land flags FlagNPD =? 0)) (negb (Z.land npdBits NPDSize204 =? 0)) (Z.land npdBits NullBitmapMask) seqExt, ExtSize).

(** ** Suppression *)

Definition packetSize (npdBits : Z) : Z :=
  if negb (Z.land npdBits NPDSize204 =? 0) then SizeTS204 else SizeTS188.

(** The first pass over the packets [ix]: sync bytes, bitmap and number of null packets. *)
Fixpoint suppress_scan (input : bytes) (size : Z) (ix : list Z) (npdBits suppressed : Z) : res npdError (Z * Z) :=
  match ix with
  | [] => Ok (npdBits, suppressed)
  | i :: ix =>
      let off := i * size in
      s ← idx input off;
      if negb (s =? SyncByte) then Err ErrSyncByte else
      pid ← (t ← slc input (off + 1) (off + 3); Uint16 t);
      if pid =? NullPID
      then suppress_scan input size ix (Z.lor npdBits (Z.shiftl 1 (6 - i))) (suppressed + 1)
      else suppress_scan input size ix npdBits suppressed
  end.

(** The second pass: append the packets the bitmap does not name. *)
Fixpoint suppress_copy (input : bytes) (size : Z) (ix : list Z) (npdBits : Z) (out : bytes) : res npdError bytes :=
  match ix with
  | [] => Ok out
  | i :: ix =>
      if Z.land npdBits (Z.shiftl 1 (6 - i)) =? 0 then
        let off := i * size in
        p ← slc input off (off + size); suppress_copy input size ix npdBits (out ++ p)
      else suppress_copy input size ix npdBits out
  end.

(** [dst] is the state: an error leaves it as it was. *)
Definition Suppress (input : bytes) : sres bytes npdError (Z * Z) := fun dst =>
  let '(size, npdBits) := if negb (zlen input %g SizeTS188 =? 0) then (SizeTS204, NPDSize204) else (SizeTS188, 0) in
  if negb (zlen input %g size =? 0) then (Err ErrPayloadSize, dst) else
  let count := zlen input /g size in
  if MaxPackets <? count then (Err ErrTooManyPackets, dst) else
  match suppress_scan input size (seqZ 0 count) npdBits 0 with
  | Err e => (Err e, dst)
  | Panic => (Panic, dst)
  | Ok (npdBits, suppressed) =>
      if suppressed =? 0 then (Ok (npdBits, 0), dst ++ input) else
      match suppress_copy input size (seqZ 0 count) npdBits dst with
      | Ok out => (Ok (npdBits, suppressed * size), out)
      | Err e => (Err e, dst)
      | Panic => (Panic, dst)
      end
  end.

(** ** Expansion *)

Definition appendNullPacket (dst : bytes) (size : Z) : bytes :=
  let dst := dst ++ [SyncByte] in
  let dst := dst ++ [31; 255] in
  let dst := dst ++ [flags2Bit4] in
  dst ++ replicate (Z.to_nat (size - tsHeaderSize)) 255.

(** [for b &= mask; b != 0; b &= b - 1]: a byte has at most eight bits to clear. *)
Fixpoint bits_loop (fuel : nat) (b n : Z) : option Z :=
  match fuel with
  | O => None
  | S fuel => if b =? 0 then Some n else bits_loop fuel (Z.land b (b - 1)) (n + 1)
  end.
Definition bitsSet (b : Z) : option Z := bits_loop 9 (Z.land b NullBitmapMask) 0.

Fixpoint expand_loop (input : bytes) (size bitmap : Z) (ix : list Z) (inOff : Z) (out : bytes) : res npdError bytes :=
  match ix with
  | [] => Ok out
  | i :: ix =>
      if Z.land bitmap (Z.shiftl 1 (6 - i)) =? 0 then
        if zlen input <? inOff + size then Err ErrTruncated else
        p ← slc input inOff (inOff + size);
        expand_loop input size bitmap ix (inOff + size) (out ++ p)
      else expand_loop input size bitmap ix inOff (appendNullPacket out size)
  end.

(** [None] would be a bit count out of fuel. *)
Definition Expand (input : bytes) (npdBits : Z) (dst : bytes) : option (res npdError unit * bytes) :=
  let size := packetSize npdBits in
  let tsCount := zlen input /g size in
  let bitmap := Z.land npdBits NullBitmapMask in
  nullCount ← bitsSet bitmap;
  if nullCount =? 0 then Some (Ok tt, dst ++ input) else
  let total := tsCount + nullCount in
  if MaxPackets <? total then Some (Err ErrTooManyPackets, dst) else
  match expand_loop input size bitmap (seqZ 0 total) 0 dst with
  | Ok out => Some (Ok tt, out)
  | Err e => Some (Err e, dst)
  | Panic => Some (Panic, dst)
  end.

(** ** What the two passes compute *)

(** A transport-stream packet, whether it is null, and the null packet of a size. *)
Definition ts_packet (size : Z) (p : bytes) : Prop := zlen p = size /\ head p = Some SyncByte.
Definition is_null (p : bytes) : bool := be (take 2 (drop 1 p)) =? NullPID.
Definition null_packet (size : Z) : bytes := [SyncByte; 31; 255; 16] ++ replicate (Z.to_nat (size - 4)) 255.
Definition canon (size : Z) (p : bytes) : bytes := if is_null p then null_packet size else p.

(** The bitmap of the nulls [ns] from position [i] on, and their number. *)
Fixpoint mark_nulls (i : Z) (ns : list bool) (b : Z) : Z :=
  match ns with [] => b | n :: ns => mark_nulls (i + 1) ns (if n then Z.lor b (Z.shiftl 1 (6 - i)) else b) end.
Definition nulls (ns : list bool) : Z := zlen (List.filter id ns).

Lemma chunk_at size pre p post :
  Forall (fun q => zlen q = size) pre -> At (concat (pre ++ p :: post)) (zlen pre * size) p.
Proof.
  intros Hpre. exists (concat pre), (concat post). rewrite concat_app. split; [done|]. induction Hpre as [|q pre Hq _ IH]; [done|].
  cbn [concat]. rewrite zlen_app, zlen_cons. lia.
Qed.

Lemma zlen_concat size ps : Forall (fun q : bytes => zlen q = size) ps -> zlen (concat ps) = zlen ps * size.
Proof. induction 1 as [|q ps Hq _ IH]; [done|]. cbn [concat]. rewrite zlen_app, zlen_cons. lia. Qed.

Lemma ts_sized size ps : Forall (ts_packet size) ps -> Forall (fun q => zlen q = size) ps.
Proof. intros H. eapply Forall_impl; [exact H|]. by intros p []. Qed.

(** Induction over the packets of a payload, past those already done. *)
Lemma seqZ_packets {A} i (p : A) ps : seqZ i (zlen (p :: ps)) = i :: seqZ (i + 1) (zlen ps).
Proof. pose proof (zlen_nonneg ps). rewrite zlen_cons, seqZ_cons by lia. do 2 f_equal; lia. Qed.

Lemma suppress_scan_spec size pre ps b s :
  3 <= size -> Forall (fun q => zlen q = size) pre -> Forall (ts_packet size) ps ->
  suppress_scan (concat (pre ++ ps)) size (seqZ (zlen pre) (zlen ps)) b s =
    Ok (mark_nulls (zlen pre) (is_null <$> ps) b, s + nulls (is_null <$> ps)).
Proof.
  intros Hsz Hpre Hps. revert pre b s Hpre. induction Hps as [|p ps [Hl Hs] Hps IH]; intros pre b s Hpre.
  - cbn. by rewrite Z.add_0_r.
  - rewrite seqZ_packets. cbn [suppress_scan]. pose proof (chunk_at size pre p ps Hpre) as Hat.
    destruct p as [|x [|y [|z t]]]; try (unfold zlen in Hl; cbn in Hl; lia). change (Some x = Some SyncByte) in Hs. injection Hs as ->.
    change (SyncByte :: y :: z :: t) with ([SyncByte] ++ [y; z] ++ t) in Hat. apply at_split in Hat as [H1 H2]. apply at_split in H2 as [H2 _].
    rewrite (at_idx _ _ _ H1). cbn [mbind res_bind]. rewrite Z.eqb_refl. cbn [negb].
    rewrite (at_slc _ _ _ _ H2) by (change (zlen [SyncByte]) with 1; change (zlen [y; z]) with 2; lia). cbn [mbind res_bind].
    rewrite Uint16_all by done. cbn [mbind res_bind].
    specialize (IH (pre ++ [SyncByte :: y :: z :: t])). rewrite <-app_assoc in IH. cbn [app] in IH.
    rewrite zlen_app in IH. change (zlen [SyncByte :: y :: z :: t]) with 1 in IH.
    cbn [fmap list_fmap]. change (is_null (SyncByte :: y :: z :: t)) with (be [y; z] =? NullPID). cbn [mark_nulls]. unfold nulls. cbn [List.filter].
    destruct (be [y; z] =? NullPID); cbn [id]; rewrite IH by (apply Forall_app; split; [done|by constructor]); unfold nulls; rewrite ?zlen_cons; do 2 f_equal; lia.
Qed.

Lemma suppress_copy_spec size bits pre ps out :
  0 <= size -> Forall (fun q => zlen q = size) (pre ++ ps) ->
  (forall k p, ps !! k = Some p -> (Z.land bits (Z.shiftl 1 (6 - (zlen pre + Z.of_nat k))) =? 0) = negb (is_null p)) ->
  suppress_copy (concat (pre ++ ps)) size (seqZ (zlen pre) (zlen ps)) bits out =
    Ok (out ++ concat (List.filter (fun p => negb (is_null p)) ps)).
Proof.
  intros Hsz Hall Hb. revert pre out Hall Hb. induction ps as [|p ps IH]; intros pre out Hall Hb.
  - change (seqZ (zlen pre) (zlen (@nil bytes))) with (@nil Z). cbn [suppress_copy List.filter concat]. by rewrite (app_nil_r out).
  - rewrite seqZ_packets. cbn [suppress_copy]. apply Forall_app in Hall as [Hpre Hps]. inversion Hps as [|? ? Hl Hps']; subst.
    pose proof (Hb 0%nat p eq_refl) as H0. rewrite Z.add_0_r in H0. rewrite H0.
    specialize (IH (pre ++ [p])). rewrite <-app_assoc in IH. cbn [app] in IH. rewrite zlen_app in IH. change (zlen [p]) with 1 in IH.
    assert (Hall : Forall (fun q => zlen q = zlen p) (pre ++ p :: ps)) by (apply Forall_app; split; [done|by constructor]).
    assert (Hb' : forall k q, ps !! k = Some q -> (Z.land bits (Z.shiftl 1 (6 - (zlen pre + 1 + Z.of_nat k))) =? 0) = negb (is_null q)).
    { intros k q Hk. rewrite <-Z.add_assoc. replace (1 + Z.of_nat k) with (Z.of_nat (S k)) by lia. by apply Hb. }
    cbn [List.filter]. destruct (is_null p); cbn [negb].
    + by rewrite IH.
    + rewrite (at_slc _ _ _ _ (chunk_at _ _ _ _ Hpre)) by done. cbn [mbind res_bind]. rewrite IH by done. cbn [concat]. by rewrite app_assoc.
Qed.

Lemma appendNullPacket_spec out size : appendNullPacket out size = out ++ null_packet size.
Proof. unfold appendNullPacket, null_packet. by rewrite <-!app_assoc. Qed.

(** Expansion from the kept packets: those done are [pre]. *)
Lemma expand_loop_spec size bm ps i pre out :
  0 <= size -> Forall (fun q => zlen q = size) pre -> Forall (fun q => zlen q = size) ps ->
  (forall k p, ps !! k = Some p -> (Z.land bm (Z.shiftl 1 (6 - (i + Z.of_nat k))) =? 0) = negb (is_null p)) ->
  expand_loop (concat (pre ++ List.filter (fun p => negb (is_null p)) ps)) size bm (seqZ i (zlen ps)) (zlen pre * size) out =
    Ok (out ++ concat (canon size <$> ps)).
Proof.
  intros Hsz Hpre Hps Hb. revert i pre out Hpre Hb. induction Hps as [|p ps Hl Hps IH]; intros i pre out Hpre Hb.
  - change (seqZ i (zlen (@nil bytes))) with (@nil Z). cbn [expand_loop List.filter concat fmap list_fmap]. by rewrite (app_nil_r out).
  - rewrite seqZ_packets. cbn [expand_loop List.filter fmap list_fmap]. pose proof (Hb 0%nat p eq_refl) as H0. rewrite Z.add_0_r in H0. rewrite H0.
    assert (Hb' : forall k q, ps !! k = Some q -> (Z.land bm (Z.shiftl 1 (6 - (i + 1 + Z.of_nat k))) =? 0) = negb (is_null q)).
    { intros k q Hk. rewrite <-Z.add_assoc. replace (1 + Z.of_nat k) with (Z.of_nat (S k)) by lia. by apply Hb. }
    unfold canon at 1. destruct (is_null p); cbn [negb concat].
    + rewrite IH by done. by rewrite appendNullPacket_spec, <-app_assoc.
    + assert (HP : Forall (fun q => zlen q = size) (pre ++ [p])) by (apply Forall_app; split; [done|by constructor]).
      assert (Hlen : zlen pre * size + size <= zlen (concat (pre ++ p :: List.filter (fun p => negb (is_null p)) ps))).
      { rewrite concat_app, zlen_app. cbn [concat]. rewrite zlen_app, (zlen_concat size pre Hpre). pose proof (zlen_nonneg (concat (List.filter (fun p => negb (is_null p)) ps))). lia. }
      destruct (Z.ltb_spec (zlen (concat (pre ++ p :: List.filter (fun p => negb (is_null p)) ps))) (zlen pre * size + size)); [lia|].
      rewrite (at_slc _ _ _ _ (chunk_at _ _ _ _ Hpre)) by lia. cbn [mbind res_bind].
      specialize (IH (i + 1) (pre ++ [p]) (out ++ p) HP Hb'). rewrite <-app_assoc, zlen_app in IH. cbn [app] in IH. change (zlen [p]) with 1 in IH.
      replace (zlen pre * size + size) with ((zlen pre + 1) * size) by lia. rewrite IH. by rewrite <-app_assoc.
Qed.

(** ** The bitmap *)

Definition ts_size (sz : bool) : Z := if sz then SizeTS204 else SizeTS188.
Definition bits_of (sz : bool) (ns : list bool) : Z := mark_nulls 0 ns (if sz then NPDSize204 else 0).
Definition ext_of (npdBits seqExt : Z) : Ext :=
  mkExt true (negb (Z.land npdBits NPDSize204 =? 0)) (Z.land npdBits NullBitmapMask) seqExt.

Fixpoint bool_lists (n : nat) : list (list bool) :=
  match n with O => [[]] | S n => [] :: concat ((fun l => [true :: l; false :: l]) <$> bool_lists n) end.

Lemma in_bool_lists n l : (length l <= n)%nat -> In l (bool_lists n).
Proof.
  revert l. induction n as [|n IH]; intros [|x l] Hl; cbn [length] in Hl; try lia; [by left|by left|]. right.
  apply in_concat. exists [true :: l; false :: l]. split; [|destruct x; cbn; tauto].
  apply (in_map (fun l => [true :: l; false :: l])), IH. lia.
Qed.

(** What the codec relies on, of the bitmap of at most seven positions. *)
Definition bits_check (sz : bool) (ns : list bool) : bool :=
  let b := bits_of sz ns in let bm := Z.land b NullBitmapMask in
  (0 <=? b) && (b <? 256) && (packetSize b =? ts_size sz) && (NPDBits (negb (Z.land b NPDSize204 =? 0)) bm =? b) &&
  bool_decide (bitsSet bm = Some (nulls ns)) &&
  forallb (fun k => match ns !! k with
    | Some n => Bool.eqb (Z.land b (Z.shiftl 1 (6 - Z.of_nat k)) =? 0) (negb n) && Bool.eqb (Z.land bm (Z.shiftl 1 (6 - Z.of_nat k)) =? 0) (negb n)
    | None => true end) (seq 0 7).

Lemma bits_checked sz ns : (length ns <= 7)%nat -> bits_check sz ns = true.
Proof.
  intros Hl. assert (H : forallb (fun l => bits_check true l && bits_check false l) (bool_lists 7) = true) by (vm_compute; reflexivity).
  rewrite forallb_forall in H. specialize (H ns (in_bool_lists 7 ns Hl)). apply andb_true_iff in H as []. by destruct sz.
Qed.

Record bitmap_facts (sz : bool) (ns : list bool) : Prop := {
  bf_u8 : in_u8 (bits_of sz ns);
  bf_size : packetSize (bits_of sz ns) = ts_size sz;
  bf_join : NPDBits (negb (Z.land (bits_of sz ns) NPDSize204 =? 0)) (Z.land (bits_of sz ns) NullBitmapMask) = bits_of sz ns;
  bf_count : bitsSet (Z.land (bits_of sz ns) NullBitmapMask) = Some (nulls ns);
  bf_bit : forall k n, ns !! k = Some n ->
    (Z.land (bits_of sz ns) (Z.shiftl 1 (6 - Z.of_nat k)) =? 0) = negb n /\
    (Z.land (Z.land (bits_of sz ns) NullBitmapMask) (Z.shiftl 1 (6 - Z.of_nat k)) =? 0) = negb n }.

Lemma bitmap sz ns : (length ns <= 7)%nat -> bitmap_facts sz ns.
Proof.
  intros Hl. pose proof (bits_checked sz ns Hl) as H. unfold bits_check in H. cbv zeta in H. rewrite !andb_true_iff in H.
  destruct H as (((((H1 & H2) & H3) & H4) & H5) & H6). split.
  - unfold in_u8. lia.
  - by apply Z.eqb_eq.
  - by apply Z.eqb_eq.
  - by apply bool_decide_eq_true in H5.
  - intros k n Hk. rewrite forallb_forall in H6. specialize (H6 k). rewrite Hk in H6.
    rewrite in_seq, andb_true_iff, !eqb_true_iff in H6. apply H6. apply lookup_lt_Some in Hk. lia.
Qed.

(** ** The whole of suppression and expansion *)

Lemma filter_all_kept ps : nulls (is_null <$> ps) = 0 -> List.filter (fun p => negb (is_null p)) ps = ps /\ forall size, canon size <$> ps = ps.
Proof.
  induction ps as [|p ps IH]; [done|]. unfold nulls, canon in *. cbn [fmap list_fmap List.filter]. destruct (is_null p); cbn [id negb].
  - rewrite zlen_cons. pose proof (zlen_nonneg (List.filter id (is_null <$> ps))). lia.
  - intros H. destruct (IH H) as [E1 E2]. split; [by rewrite E1|]. intros size. by rewrite E2.
Qed.

Lemma nulls_kept ps : nulls (is_null <$> ps) + zlen (List.filter (fun p => negb (is_null p)) ps) = zlen ps.
Proof.
  induction ps as [|p ps IH]; [done|]. unfold nulls in *. cbn [fmap list_fmap List.filter]. destruct (is_null p); cbn [id negb]; rewrite ?zlen_cons; lia.
Qed.

(** The payloads NPD takes: up to seven packets of one size. *)
Record ts_payload (sz : bool) (ps : list bytes) : Prop := {
  tp_packets : Forall (ts_packet (ts_size sz)) ps;
  tp_count : zlen ps <= 7;
  tp_some : sz = true -> ps <> [] }.

Lemma quot_packets size n : 0 < size -> 0 <= n -> (n * size) %g size = 0 /\ (n * size) /g size = n.
Proof. intros. split; [apply Z.rem_mul; lia|apply Z.quot_mul; lia]. Qed.

(** The size Suppress picks for a length of [n] packets. *)
Lemma pick_size (sz : bool) n : 0 <= n <= 7 -> (sz = true -> n <> 0) ->
  (if negb ((n * ts_size sz) %g SizeTS188 =? 0) then (SizeTS204, NPDSize204) else (SizeTS188, 0)) = (ts_size sz, if sz then NPDSize204 else 0).
Proof.
  intros Hn Hs. destruct sz.
  - assert (n ∈ seqZ 1 7) as Hin by (apply elem_of_seqZ; specialize (Hs eq_refl); lia). clear Hn Hs.
    repeat (apply elem_of_cons in Hin as [->|Hin]; [reflexivity|]). by apply elem_of_nil in Hin.
  - unfold ts_size, SizeTS188. by rewrite (proj1 (quot_packets 188 n ltac:(lia) ltac:(lia))).
Qed.

Lemma Suppress_spec sz ps dst : ts_payload sz ps ->
  Suppress (concat ps) dst =
    (Ok (bits_of sz (is_null <$> ps), nulls (is_null <$> ps) * ts_size sz), dst ++ concat (List.filter (fun p => negb (is_null p)) ps)).
Proof.
  intros [Hp Hn Hs]. pose proof (ts_sized _ _ Hp) as Hsz. unfold Suppress. rewrite (zlen_concat _ _ Hsz). pose proof (zlen_nonneg ps).
  assert (Hs' : sz = true -> zlen ps <> 0). { intros E E0. apply (Hs E). destruct ps; [done|]. rewrite zlen_cons in E0. pose proof (zlen_nonneg ps). lia. }
  rewrite (pick_size sz (zlen ps)) by (done || lia). assert (0 < ts_size sz) by (by destruct sz).
  destruct (quot_packets (ts_size sz) (zlen ps)) as [-> ->]; [done|lia|]. cbn [Z.eqb negb]. destruct (Z.ltb_spec MaxPackets (zlen ps)) as [Hgt|_]; [unfold MaxPackets in Hgt; lia|].
  pose proof (suppress_scan_spec (ts_size sz) [] ps (if sz then NPDSize204 else 0) 0 ltac:(by destruct sz) (Forall_nil_2 _) Hp) as E.
  cbn [app] in E. change (zlen (@nil bytes)) with 0 in E. rewrite E. fold (bits_of sz (is_null <$> ps)). rewrite Z.add_0_l.
  destruct (Z.eqb_spec (nulls (is_null <$> ps)) 0) as [E0|_].
  - rewrite E0. by rewrite (proj1 (filter_all_kept ps E0)).
  - destruct (bitmap sz (is_null <$> ps)) as [_ _ _ _ Hb]; [rewrite length_fmap; unfold zlen in *; lia|].
    pose proof (suppress_copy_spec (ts_size sz) (bits_of sz (is_null <$> ps)) [] ps dst ltac:(lia) Hsz) as E2.
    cbn [app] in E2. change (zlen (@nil bytes)) with 0 in E2. rewrite E2; [done|].
    intros k p Hk. apply (Hb k). by rewrite list_lookup_fmap, Hk.
Qed.

Lemma Expand_spec sz ps dst : ts_payload sz ps ->
  Expand (concat (List.filter (fun p => negb (is_null p)) ps)) (bits_of sz (is_null <$> ps)) dst = Some (Ok tt, dst ++ concat (canon (ts_size sz) <$> ps)).
Proof.
  intros [Hp Hn _]. pose proof (ts_sized _ _ Hp) as Hsz. assert (0 < ts_size sz) by (by destruct sz).
  destruct (bitmap sz (is_null <$> ps)) as [_ Hps _ Hc Hb]; [rewrite length_fmap; unfold zlen in *; lia|].
  unfold Expand. cbv zeta. rewrite Hc, Hps. cbn [mbind option_bind].
  destruct (Z.eqb_spec (nulls (is_null <$> ps)) 0) as [E0|_].
  - destruct (filter_all_kept ps E0) as [E1 E2]. by rewrite E1, E2.
  - assert (Hk : Forall (fun q => zlen q = ts_size sz) (List.filter (fun p => negb (is_null p)) ps)).
    { apply Forall_forall. intros q Hq. apply list_elem_of_In, filter_In in Hq as [Hq _]. rewrite Forall_forall in Hsz. by apply Hsz, list_elem_of_In. }
    rewrite (zlen_concat _ _ Hk). rewrite (proj2 (quot_packets (ts_size sz) _ ltac:(done) (zlen_nonneg _))).
    pose proof (nulls_kept ps). replace (zlen (List.filter (fun p => negb (is_null p)) ps) + nulls (is_null <$> ps)) with (zlen ps) by lia.
    destruct (Z.ltb_spec MaxPackets (zlen ps)) as [Hgt|_]; [unfold MaxPackets in Hgt; lia|].
    pose proof (expand_loop_spec (ts_size sz) (Z.land (bits_of sz (is_null <$> ps)) NullBitmapMask) ps 0 [] dst ltac:(lia) (Forall_nil_2 _) Hsz) as E.
    cbn [app] in E. change (zlen (@nil bytes) * ts_size sz) with 0 in E. rewrite E; [done|].
    intros k p Hpk. rewrite Z.add_0_l. apply (Hb k). by rewrite list_lookup_fmap, Hpk.
Qed.

(** A packet without its sync byte fails the scan, after any packets. *)
Lemma suppress_scan_bad size pre ps b s :
  3 <= size -> Forall (fun q => zlen q = size) pre -> Forall (fun q => zlen q = size) ps -> ~ Forall (ts_packet size) ps ->
  suppress_scan (concat (pre ++ ps)) size (seqZ (zlen pre) (zlen ps)) b s = Err ErrSyncByte.
Proof.
  intros Hsz Hpre Hps Hbad. revert pre b s Hpre Hbad. induction Hps as [|p ps Hl Hps IH]; intros pre b s Hpre Hbad; [by destruct Hbad|].
  rewrite seqZ_packets. cbn [suppress_scan]. pose proof (chunk_at size pre p ps Hpre) as Hat.
  destruct p as [|x [|y [|z t]]]; try (unfold zlen in Hl; cbn in Hl; lia).
  change (x :: y :: z :: t) with ([x] ++ [y; z] ++ t) in Hat. apply at_split in Hat as [H1 H2]. apply at_split in H2 as [H2 _].
  rewrite (at_idx _ _ _ H1). cbn [mbind res_bind]. destruct (Z.eqb_spec x SyncByte) as [->|_]; [|done]. cbn [negb].
  rewrite (at_slc _ _ _ _ H2) by (change (zlen [SyncByte]) with 1; change (zlen [y; z]) with 2; lia). cbn [mbind res_bind].
  rewrite Uint16_all by done. cbn [mbind res_bind].
  specialize (IH (pre ++ [SyncByte :: y :: z :: t])). rewrite <-app_assoc in IH. cbn [app] in IH.
  rewrite zlen_app in IH. change (zlen [SyncByte :: y :: z :: t]) with 1 in IH.
  destruct (be [y; z] =? NullPID); (apply IH; [apply Forall_app; split; [done|by constructor]|intros H; apply Hbad; constructor; [by split|done]]).
Qed.

Lemma chunks (size : Z) (n : nat) (b : bytes) : 0 < size -> zlen b = Z.of_nat n * size -> exists ps, b = concat ps /\ zlen ps = Z.of_nat n /\ Forall (fun q => zlen q = size) ps.
Proof.
  intros Hs. revert b. induction n as [|n IH]; intros b Hb.
  - exists []. destruct b; [done|]. rewrite zlen_cons in Hb. pose proof (zlen_nonneg b). lia.
  - destruct (IH (drop (Z.to_nat size) b)) as (ps & E & Hn & Hps); [rewrite zlen_drop; lia|].
    exists (take (Z.to_nat size) b :: ps). cbn [concat]. rewrite <-E, take_drop, zlen_cons. split_and!; [done|lia|].
    constructor; [|done]. unfold zlen in *. rewrite length_take. lia.
Qed.

(** What Suppress does with any payload: it is one of those it takes, or an error that leaves [dst] alone. *)
Lemma Suppress_cases input dst :
  (exists sz ps, ts_payload sz ps /\ input = concat ps) \/ (exists e, Suppress input dst = (Err e, dst)).
Proof.
  assert (Hsz : exists sz, (if negb (zlen input %g SizeTS188 =? 0) then (SizeTS204, NPDSize204) else (SizeTS188, 0)) = (ts_size sz, if sz then NPDSize204 else 0) /\
    (sz = true -> zlen input <> 0)).
  { destruct (Z.eqb_spec (zlen input %g SizeTS188) 0) as [_|Hne]; [by exists false|]. exists true. split; [done|]. intros _ E. by rewrite E in Hne. }
  destruct Hsz as (sz & Epick & Hne). unfold Suppress. rewrite Epick. cbv beta iota. assert (0 < ts_size sz) by (by destruct sz).
  pose proof (zlen_nonneg input). destruct (Z.eqb_spec (zlen input %g ts_size sz) 0) as [Er|_]; [|right; by eexists]. cbn [negb].
  destruct (Z.ltb_spec MaxPackets (zlen input /g ts_size sz)) as [_|Hc]; [right; by eexists|]. unfold MaxPackets in Hc.
  pose proof (Z.quot_rem' (zlen input) (ts_size sz)) as Hqr. pose proof (Z.quot_pos (zlen input) (ts_size sz)).
  destruct (chunks (ts_size sz) (Z.to_nat (zlen input /g ts_size sz)) input) as (ps & -> & Hn & Hps); [done|lia|]. rewrite Z2Nat.id in Hn by lia. rewrite <-Hn in *.
  destruct (decide (Forall (fun p => head p = Some SyncByte) ps)) as [Hall|Hbad].
  - left. exists sz, ps. split; [|done]. split; [|lia|].
    + apply Forall_forall. intros p Hp. rewrite Forall_forall in Hall, Hps. split; [by apply Hps|by apply Hall].
    + intros E ->. by apply (Hne E).
  - right. exists ErrSyncByte.
    pose proof (suppress_scan_bad (ts_size sz) [] ps (if sz then NPDSize204 else 0) 0 ltac:(by destruct sz) (Forall_nil_2 _) Hps) as E.
    cbn [app] in E. change (zlen (@nil bytes)) with 0 in E. rewrite E; [done|].
    intros H'. apply Hbad. eapply Forall_impl; [exact H'|]. by intros p [].
Qed.

Lemma expand_loop_total input size bm ix inOff out : 0 <= size -> 0 <= inOff ->
  expand_loop input size bm ix inOff out = Err ErrTruncated \/
  exists x, expand_loop input size bm ix inOff out = Ok (out ++ x) /\ (4 <= size -> zlen x = zlen ix * size).
Proof.
  intros Hs. revert inOff out. induction ix as [|i ix IH]; intros inOff out Ho; cbn [expand_loop].
  - right. exists []. rewrite app_nil_r. done.
  - destruct (Z.land bm (Z.shiftl 1 (6 - i)) =? 0).
    + destruct (Z.ltb_spec (zlen input) (inOff + size)); [by left|].
      destruct (slc_ok (E:=npdError) input inOff (inOff + size)) as (p & -> & Hp & _); [lia|lia|]. cbn [mbind res_bind].
      destruct (IH (inOff + size) (out ++ p) ltac:(lia)) as [->|(x & -> & Hx)]; [by left|]. right. exists (p ++ x).
      rewrite <-app_assoc, zlen_app, zlen_cons. split; [done|]. intros. rewrite Hx by lia. lia.
    + rewrite appendNullPacket_spec. destruct (IH inOff (out ++ null_packet size) Ho) as [->|(x & -> & Hx)]; [by left|]. right. exists (null_packet size ++ x).
      rewrite <-app_assoc, zlen_app, zlen_cons. split; [done|]. intros. rewrite Hx by lia. unfold null_packet. zlens. lia.
Qed.

Lemma bitsSet_byte b : in_u8 b -> exists n, bitsSet (Z.land b NullBitmapMask) = Some n /\ 0 <= n <= 7.
Proof.
  intros Hb. assert (H : forallb (fun b => match bitsSet (Z.land b NullBitmapMask) with Some n => (0 <=? n) && (n <=? 7) | None => false end) (seqZ 0 256) = true) by (vm_compute; reflexivity).
  pose proof (byte_cases _ b H Hb) as E. cbv beta in E. destruct (bitsSet (Z.land b NullBitmapMask)) as [n|]; [|done].
  exists n. split; [done|]. lia.
Qed.

(** The header extension round-trips, with the bitmap masked to its seven bits. *)
Lemma ext_round_trip e rest : in_u8 (NullBitmap e) -> in_u16 (SeqExt e) ->
  ParseExt (ext_AppendTo e [] ++ rest) = Ok (mkExt (NPD e) (Size204 e) (Z.land (NullBitmap e) NullBitmapMask) (SeqExt e), ExtSize).
Proof.
  intros Hb Hs. unfold ext_AppendTo, ParseExt. cbv zeta. rewrite app_nil_l, <-!app_assoc.
  set (f := if NPD e then _ else _). set (x := if Size204 e then _ else _). change [f; x] with ([f] ++ [x]). rewrite <-!app_assoc.
  set (b := be_bytes 2 Identifier ++ be_bytes 2 Length ++ [f] ++ [x] ++ be_bytes 2 (SeqExt e) ++ rest).
  pose proof (zlen_nonneg rest). destruct (Z.ltb_spec (zlen b) ExtSize) as [Hlt|_]; [unfold b, ExtSize in Hlt; revert Hlt; zlens; lia|].
  rewrite (at_u16 b 0 Identifier 2) by (done || (unfold b; at_solve)). cbn [mbind res_bind]. rewrite Z.eqb_refl. cbn [negb].
  rewrite (at_u16 b 2 Length 4) by (done || (unfold b; at_solve)). cbn [mbind res_bind]. rewrite Z.eqb_refl. cbn [negb].
  rewrite (at_idx b 4 f) by (unfold b; at_solve). cbn [mbind res_bind]. rewrite (at_idx b 5 x) by (unfold b; at_solve). cbn [mbind res_bind].
  rewrite (at_u16 b 6 (SeqExt e) 8) by (done || (unfold b; at_solve)). cbn [mbind res_bind]. do 3 f_equal.
  - unfold f. by destruct (NPD e).
  - assert (H2 : forallb (fun b => (Z.land (Z.land b 127) 128 =? 0) && negb (Z.land (Z.lor (Z.land b 127) 128) 128 =? 0)) (seqZ 0 256) = true) by (vm_compute; reflexivity).
    pose proof (byte_cases _ _ H2 Hb) as E. cbv beta in E. apply andb_true_iff in E as [E1 E2]. unfold x, NullBitmapMask, NPDSize204. change (Z.shiftl 1 7) with 128.
    destruct (Size204 e); [done|]. by rewrite E1.
  - assert (H2 : forallb (fun b => (Z.land (Z.land b 127) 127 =? Z.land b 127) && (Z.land (Z.lor (Z.land b 127) 128) 127 =? Z.land b 127)) (seqZ 0 256) = true) by (vm_compute; reflexivity).
    pose proof (byte_cases _ _ H2 Hb) as E. cbv beta in E. apply andb_true_iff in E as [E1 E2]. unfold x, NullBitmapMask, NPDSize204. change (Z.shiftl 1 7) with 128.
    destruct (Size204 e); by apply Z.eqb_eq.
Qed.

Lemma mask_u8 b : in_u8 (Z.land b NullBitmapMask).
Proof. unfold in_u8, NullBitmapMask. change 127 with (Z.ones 7). rewrite Z.land_ones by lia. pose proof (Z.mod_pos_bound b (2 ^ 7)). lia. Qed.

Lemma canon_id size ps : Forall (fun p => is_null p = true -> p = null_packet size) ps -> canon size <$> ps = ps.
Proof. induction 1 as [|p ps Hp _ IH]; [done|]. cbn [fmap list_fmap]. rewrite IH. f_equal. unfold canon. destruct (is_null p); [by rewrite Hp|done]. Qed.

Lemma NPDBits_u8 size204 bm : in_u8 (NPDBits size204 bm).
Proof.
  unfold NPDBits. destruct size204; [|apply mask_u8]. rewrite Z.lor_comm. change NPDSize204 with (Z.shiftl 1 7). unfold NullBitmapMask, in_u8. change 127 with (Z.ones 7).
  rewrite Z.land_ones by lia. pose proof (Z.mod_pos_bound bm (2 ^ 7) ltac:(lia)). rewrite lor_shiftl_add by lia. change (2 ^ 7) with 128 in *. lia.
Qed.

Lemma ParseExt_total b : is_bytes b -> returns (ParseExt b) (fun _ => True).
Proof.
  intros Hb. unfold ParseExt, ExtSize. destruct (Z.ltb_spec (zlen b) 8); [done|]. destruct (rd_u16 (E:=npdError) b 0 2 Hb ltac:(lia) ltac:(lia) ltac:(lia)) as (x & -> & _). cbn [mbind res_bind]. destruct (negb _); [done|].
  destruct (rd_u16 (E:=npdError) b 2 4 Hb ltac:(lia) ltac:(lia) ltac:(lia)) as (y & -> & _). cbn [mbind res_bind]. destruct (negb _); [done|].
  destruct (idx_ok (E:=npdError) b 4 ltac:(lia)) as (u & -> & _). destruct (idx_ok (E:=npdError) b 5 ltac:(lia)) as (v & -> & _). cbn [mbind res_bind].
  by destruct (rd_u16 (E:=npdError) b 6 8 Hb ltac:(lia) ltac:(lia) ltac:(lia)) as (z & -> & _).
Qed.

(** ** Properties *)

(** Null packets go and come back: any payload of at most seven transport-stream packets is cut by exactly its null packets, its bitmap
    survives the header extension, and the receiver rebuilds the payload with every null packet in canonical form, so the
    payload itself when its null packets were canonical. *)
Theorem npd_round_trip sz ps dst dst' seq rest :
  ts_payload sz ps -> in_u16 seq ->
  exists bits n out, Suppress (concat ps) dst = (Ok (bits, n), dst ++ out) /\ zlen out + n = zlen (concat ps) /\
    ParseExt (ext_AppendTo (ext_of bits seq) [] ++ rest) = Ok (ext_of bits seq, ExtSize) /\
    (let e := ext_of bits seq in Expand out (NPDBits (Size204 e) (NullBitmap e)) dst' = Some (Ok tt, dst' ++ concat (canon (ts_size sz) <$> ps))) /\
    (Forall (fun p => is_null p = true -> p = null_packet (ts_size sz)) ps -> concat (canon (ts_size sz) <$> ps) = concat ps).
Proof.
  intros Hp Hseq. pose proof (Suppress_spec sz ps dst Hp) as E1. pose proof (Expand_spec sz ps dst' Hp) as E2. destruct Hp as [Hp Hn _].
  pose proof (ts_sized _ _ Hp) as Hsz. destruct (bitmap sz (is_null <$> ps)) as [Hu8 _ Hj _ _]; [rewrite length_fmap; unfold zlen in *; lia|].
  set (bits := bits_of sz (is_null <$> ps)) in *. do 3 eexists. split; [exact E1|]. split_and!.
  - assert (Hk : Forall (fun q => zlen q = ts_size sz) (List.filter (fun p => negb (is_null p)) ps)).
    { apply Forall_forall. intros q Hq. apply list_elem_of_In, filter_In in Hq as [Hq _]. rewrite Forall_forall in Hsz. by apply Hsz, list_elem_of_In. }
    rewrite (zlen_concat _ _ Hsz), (zlen_concat _ _ Hk). pose proof (nulls_kept ps). lia.
  - rewrite ext_round_trip; [|cbn [ext_of NullBitmap]; by apply mask_u8|done]. cbn [ext_of NPD Size204 NullBitmap SeqExt].
    unfold ext_of. by rewrite <-Z.land_assoc, Z.land_diag.
  - cbn [ext_of Size204 NullBitmap]. cbv zeta. by rewrite Hj.
  - intros Hc. by rewrite (canon_id _ _ Hc).
Qed.

(** Null-packet deletion accepts exactly the payloads it documents, never panics on any, and leaves the output untouched on every error;
    expansion of any bytes under any bitmap byte returns a result, never a panic, and appends the input, or exactly the packets the counts
    announce, at most seven. *)
Theorem npd_total input npdBits dst :
  in_u8 npdBits ->
  ((exists e, Suppress input dst = (Err e, dst)) \/ (exists bits n out, Suppress input dst = (Ok (bits, n), dst ++ out))) /\
  ((exists bits n out, Suppress input dst = (Ok (bits, n), out)) <-> (exists sz ps, ts_payload sz ps /\ input = concat ps)) /\
  exists r out, Expand input npdBits dst = Some (r, out) /\
    match r with
    | Ok _ => exists x, out = dst ++ x /\ (x = input \/ exists n, 0 <= n <= MaxPackets /\ zlen x = n * packetSize npdBits)
    | Err e => (e = ErrTooManyPackets \/ e = ErrTruncated) /\ out = dst
    | Panic => False
    end.
Proof.
  intros Hb. split_and!.
  - destruct (Suppress_cases input dst) as [(sz & ps & Hp & ->)|H]; [right|by left]. rewrite (Suppress_spec sz ps dst Hp). by do 3 eexists.
  - split.
    + intros (bits & n & out & E). destruct (Suppress_cases input dst) as [H|(e & E')]; [done|]. by rewrite E in E'.
    + intros (sz & ps & Hp & ->). rewrite (Suppress_spec sz ps dst Hp). by do 3 eexists.
  - unfold Expand. cbv zeta. destruct (bitsSet_byte npdBits Hb) as (n & -> & Hn). cbn [mbind option_bind].
    destruct (n =? 0); [do 2 eexists; split; [done|]; exists input; by split; [|left]|].
    assert (0 < packetSize npdBits) by (unfold packetSize; by destruct (negb _)). pose proof (Z.quot_pos (zlen input) (packetSize npdBits) (zlen_nonneg _) ltac:(lia)).
    set (total := zlen input /g packetSize npdBits + n) in *.
    destruct (Z.ltb_spec MaxPackets total); [do 2 eexists; split; [done|]; by split; [left|]|].
    destruct (expand_loop_total input (packetSize npdBits) (Z.land npdBits NullBitmapMask) (seqZ 0 total) 0 dst) as [->|(x & -> & Hx)]; [lia|lia| |].
    + do 2 eexists. split; [done|]. by split; [right|].
    + do 2 eexists. split; [done|]. exists x. split; [done|]. right. exists total. split; [lia|].
      rewrite Hx by (unfold packetSize; by destruct (negb _)). f_equal. unfold zlen. rewrite length_seqZ. lia.
Qed.

Definition demo_ts (pid : Z) : bytes := [SyncByte] ++ be_bytes 2 pid ++ replicate 185 7.

Lemma npd_round_trip_witness :
  exists bits n out, Suppress (concat [demo_ts 256; null_packet 188; demo_ts 257]) [] = (Ok (bits, n), out) /\ zlen out = 376 /\
    Expand out bits [] = Some (Ok tt, concat [demo_ts 256; null_packet 188; demo_ts 257]).
Proof.
  destruct (npd_round_trip false [demo_ts 256; null_packet 188; demo_ts 257] [] [] 9 []) as (bits & n & out & E1 & E2 & _ & E4 & E5).
  - split; [repeat constructor|unfold zlen; cbn; lia|discriminate].
  - split; [discriminate|reflexivity].
  - pose proof E1 as E1'. vm_compute in E1'. injection E1' as <- <- <-. do 3 eexists. split; [exact E1|]. split; [reflexivity|].
    cbv zeta in E4. rewrite E5 in E4; [exact E4|]. constructor; [discriminate|constructor; [reflexivity|constructor; [discriminate|constructor]]].
Defined.

Lemma npd_total_witness : exists r out, Expand [71; 1; 2] 64 [5] = Some (r, out).
Proof. destruct (npd_total [71; 1; 2] 64 [5]) as (_ & _ & r & out & E & _); [split; [discriminate|reflexivity]|]. exists r, out. exact E. Defined.
