(* ===== verification/FecHeader.v ===== *)
(** * Forward-error-correction headers (src/internal/fec/header.go, header2022_5.go)

    The SMPTE ST 2022-1 and ST 2022-5 headers in front of every FEC payload: both are 16 bytes, and differ in their layout, in the
    width of the base sequence number and in that of the group geometry. *)

From S2P Require Import Prelude Bytes.

Module fec.

Definition HeaderSize : Z := 16.
Inductive fecError := ErrShortHeader.

Inductive Direction := Column | Row.
Definition dir_byte (d : Direction) : Z := match d with Column => 0 | Row => 1 end.
Definition dir_of (b : Z) : Direction := if b =? 0 then Column else Row.

(** ** ST 2022-1 *)

Record Header := mkHeader {
  SNBase : Z; LengthRecovery : Z; PTRecovery : Z; TSRecovery : Z;
  Dir : Direction; Offset : Z; NA : Z; SNBaseExt : Z }.

Definition header_AppendTo (h : Header) (dst : bytes) : bytes :=
  dst ++ be_bytes 2 (SNBase h) ++ be_bytes 2 (LengthRecovery h) ++ [Z.land (PTRecovery h) 127] ++ [0; 0; 0] ++
    be_bytes 4 (TSRecovery h) ++ [Z.shiftl (Z.land (dir_byte (Dir h)) 1) 6] ++ [Offset h] ++ [NA h] ++ [SNBaseExt h].

Definition ParseHeader (b : bytes) : res fecError (Header * Z) :=
  if zlen b <? HeaderSize then Err ErrShortHeader else
  snBase ← (t ← slc b 0 2; Uint16 t);
  lengthRec ← (t ← slc b 2 4; Uint16 t);
  pt ← idx b 4;
  ts ← (t ← slc b 8 12; Uint32 t);
  d ← idx b 12;
  offset ← idx b 13;
  na ← idx b 14;
  ext ← idx b 15;
  Ok (mkHeader snBase lengthRec (Z.land pt 127) ts (dir_of (Z.land (Z.shiftr d 6) 1)) offset na ext, HeaderSize).

Definition base24 (h : Header) : Z := Z.lor (Z.shiftl (SNBaseExt h) 16) (SNBase h).

(** [setBase24] on the two fields it stores. *)
Definition setBase24 (seq : Z) : Z * Z := (u16 seq, u8 (Z.shiftr seq 16)).

(** ** ST 2022-5 *)

Record Header5 := mkHeader5 {
  PRecovery : bool; XRecovery : bool; CCRecovery : Z; MRecovery : bool; PTRecovery5 : Z;
  SNBase5 : Z; TSRecovery5 : Z; LengthRecovery5 : Z; Offset5 : Z; NA5 : Z }.

Definition na10Max : Z := 1023.
Definition boolBit (v : bool) : Z := if v then 1 else 0.

Definition header5_AppendTo (h : Header5) (dst : bytes) : bytes :=
  dst ++ [Z.lor (Z.lor (Z.shiftl (boolBit (PRecovery h)) 5) (Z.shiftl (boolBit (XRecovery h)) 4)) (Z.land (CCRecovery h) 15)] ++
    [Z.lor (Z.shiftl (boolBit (MRecovery h)) 7) (Z.land (PTRecovery5 h) 127)] ++
    be_bytes 2 (SNBase5 h) ++ be_bytes 4 (TSRecovery5 h) ++ be_bytes 2 (LengthRecovery5 h) ++ [0; 0] ++
    be_bytes 2 (u16 (Z.shiftl (Z.land (Offset5 h) na10Max) 6)) ++ be_bytes 2 (u16 (Z.shiftl (Z.land (NA5 h) na10Max) 6)).

Definition ParseHeader5 (b : bytes) : res fecError (Header5 * Z) :=
  if zlen b <? HeaderSize then Err ErrShortHeader else
  b0 ← idx b 0;
  b1 ← idx b 1;
  snBase ← (t ← slc b 2 4; Uint16 t);
  ts ← (t ← slc b 4 8; Uint32 t);
  lengthRec ← (t ← slc b 8 10; Uint16 t);
  offset ← (t ← slc b 12 14; Uint16 t);
  na ← (t ← slc b 14 16; Uint16 t);
  Ok (mkHeader5 (Z.land (Z.shiftr b0 5) 1 =? 1) (Z.land (Z.shiftr b0 4) 1 =? 1) (Z.land b0 15)
        (Z.land (Z.shiftr b1 7) 1 =? 1) (Z.land b1 127) snBase ts lengthRec (Z.shiftr offset 6) (Z.shiftr na 6), HeaderSize).

(** ** Round trips *)

Record header_typed (h : Header) : Prop := {
  ht_base : in_u16 (SNBase h); ht_len : in_u16 (LengthRecovery h); ht_pt : in_u8 (PTRecovery h); ht_ts : in_u32 (TSRecovery h) }.

Record header5_typed (h : Header5) : Prop := {
  ht5_cc : in_u8 (CCRecovery h); ht5_pt : in_u8 (PTRecovery5 h); ht5_base : in_u16 (SNBase5 h); ht5_ts : in_u32 (TSRecovery5 h);
  ht5_len : in_u16 (LengthRecovery5 h); ht5_off : in_u16 (Offset5 h); ht5_na : in_u16 (NA5 h) }.

(** The header read back: the fields narrower than their Go types are masked. *)
Definition norm (h : Header) : Header :=
  mkHeader (SNBase h) (LengthRecovery h) (Z.land (PTRecovery h) 127) (TSRecovery h) (Dir h) (Offset h) (NA h) (SNBaseExt h).
Definition norm5 (h : Header5) : Header5 :=
  mkHeader5 (PRecovery h) (XRecovery h) (Z.land (CCRecovery h) 15) (MRecovery h) (Z.land (PTRecovery5 h) 127) (SNBase5 h) (TSRecovery5 h)
    (LengthRecovery5 h) (Z.land (Offset5 h) na10Max) (Z.land (NA5 h) na10Max).

Ltac read_byte b := erewrite (at_idx b) by (unfold b; at_solve); cbn [mbind res_bind].
Ltac read_u16 b := erewrite (at_u16 b) by (first [unfold b; at_solve|lia|assumption]); cbn [mbind res_bind].
Ltac read_u32 b := erewrite (at_u32 b) by (first [unfold b; at_solve|lia|assumption]); cbn [mbind res_bind].

Lemma header_size h rest : 16 <= zlen (header_AppendTo h [] ++ rest).
Proof. unfold header_AppendTo. pose proof (zlen_nonneg rest). zlens. lia. Qed.

Lemma mask7 p : in_u8 p -> Z.land (Z.land p 127) 127 = Z.land p 127.
Proof. intros _. by rewrite <-Z.land_assoc. Qed.

Lemma ParseHeader_enc h rest : header_typed h -> ParseHeader (header_AppendTo h [] ++ rest) = Ok (norm h, HeaderSize).
Proof.
  intros []. unfold ParseHeader. destruct (Z.ltb_spec (zlen (header_AppendTo h [] ++ rest)) HeaderSize) as [Hlt|_];
    [pose proof (header_size h rest); unfold HeaderSize in Hlt; lia|].
  unfold header_AppendTo. rewrite app_nil_l. change [0; 0; 0] with ([0] ++ [0] ++ [0]). rewrite <-!app_assoc.
  set (b := _ ++ _). read_u16 b. read_u16 b. read_byte b. read_u32 b. do 4 read_byte b.
  unfold norm. rewrite mask7 by done. by destruct (Dir h).
Qed.

Lemma base24_set seq : 0 <= seq -> let '(lo, ext) := setBase24 seq in Z.lor (Z.shiftl ext 16) lo = seq mod 2 ^ 24 /\ in_u16 lo /\ in_u8 ext.
Proof.
  intros Hs. unfold setBase24. cbv beta iota. split_and!.
  - rewrite lor_shiftl_add by (lia || apply (uwrap_range 16); lia). unfold u8, u16, uwrap. rewrite Z.shiftr_div_pow2 by lia.
    change (2 ^ 24) with (2 ^ 16 * 2 ^ 8). rewrite Z.rem_mul_r by lia. lia.
  - apply (uwrap_range 16); lia.
  - apply (uwrap_range 8); lia.
Qed.

(** The 10-bit fields, shifted up and back. *)
Lemma field10 v : u16 (Z.shiftl (Z.land v na10Max) 6) = Z.shiftl (Z.land v na10Max) 6 /\ in_u16 (Z.shiftl (Z.land v na10Max) 6) /\
  Z.shiftr (Z.shiftl (Z.land v na10Max) 6) 6 = Z.land v na10Max.
Proof.
  unfold na10Max. change 1023 with (Z.ones 10). rewrite Z.land_ones by lia. pose proof (Z.mod_pos_bound v (2 ^ 10)).
  assert (in_u16 (Z.shiftl (v mod 2 ^ 10) 6)) as Hu by (unfold in_u16; rewrite Z.shiftl_mul_pow2 by lia; lia).
  split_and!; [by apply (uwrap_id 16)|done|]. by rewrite Z.shiftr_shiftl_l, Z.shiftl_0_r by lia.
Qed.

(** The flag octets. *)
Definition octets_check (p x m : bool) (v : Z) : bool :=
  let b0 := Z.lor (Z.lor (Z.shiftl (boolBit p) 5) (Z.shiftl (boolBit x) 4)) (Z.land v 15) in
  let b1 := Z.lor (Z.shiftl (boolBit m) 7) (Z.land v 127) in
  Bool.eqb (Z.land (Z.shiftr b0 5) 1 =? 1) p && Bool.eqb (Z.land (Z.shiftr b0 4) 1 =? 1) x && (Z.land b0 15 =? Z.land v 15) &&
  Bool.eqb (Z.land (Z.shiftr b1 7) 1 =? 1) m && (Z.land b1 127 =? Z.land v 127).

Lemma octets p x m v : in_u8 v -> octets_check p x m v = true.
Proof.
  intros Hv. assert (H : forallb (fun v => forallb (fun p => forallb (fun x => forallb (fun m => octets_check p x m v) [true; false]) [true; false]) [true; false]) (seqZ 0 256) = true)
    by (vm_compute; reflexivity).
  pose proof (byte_cases _ v H Hv) as E. cbv beta in E. rewrite forallb_forall in E. specialize (E p ltac:(destruct p; cbn; tauto)).
  rewrite forallb_forall in E. specialize (E x ltac:(destruct x; cbn; tauto)). rewrite forallb_forall in E. apply (E m). destruct m; cbn; tauto.
Qed.

Lemma ParseHeader5_enc h rest : header5_typed h -> ParseHeader5 (header5_AppendTo h [] ++ rest) = Ok (norm5 h, HeaderSize).
Proof.
  intros []. destruct (field10 (Offset5 h)) as (Eo & Ho & Ro). destruct (field10 (NA5 h)) as (En & Hn & Rn).
  unfold header5_AppendTo. rewrite Eo, En, app_nil_l. change [0; 0] with ([0] ++ [0]). rewrite <-!app_assoc.
  set (b0 := Z.lor _ (Z.land (CCRecovery h) 15)). set (b1 := Z.lor _ (Z.land (PTRecovery5 h) 127)). set (b := _ ++ _). unfold ParseHeader5.
  destruct (Z.ltb_spec (zlen b) HeaderSize) as [Hlt|_]; [unfold b, HeaderSize in Hlt; pose proof (zlen_nonneg rest); revert Hlt; zlens; lia|].
  read_byte b. read_byte b. read_u16 b. read_u32 b. do 3 read_u16 b. rewrite Ro, Rn. unfold norm5.
  pose proof (octets (PRecovery h) (XRecovery h) (MRecovery h) _ ht5_cc0) as H0. pose proof (octets (PRecovery h) (XRecovery h) (MRecovery h) _ ht5_pt0) as H1.
  unfold octets_check in H0, H1. cbv zeta in H0, H1. fold b0 in H0. fold b1 in H1. rewrite !andb_true_iff, !eqb_true_iff, !Z.eqb_eq in H0, H1.
  destruct H0 as ((((-> & ->) & ->) & _) & _). destruct H1 as ((_ & ->) & ->). done.
Qed.

End fec.
