(* ===== verification/Fec.v ===== *)
(** * The FEC matrix encoder and decoder (src/internal/fec/fec.go)

    The sender XORs every media packet into its row and its column and emits one FEC packet per full group; the receiver rebuilds the
    single missing member of a group from the FEC packet and the members it has, again and again until nothing more can be rebuilt.
    Matrix sizes and positions are Go [int]s; they are bounded by the header's 10-bit fields and never overflow. *)

From stdpp Require Import gmap.
From S2P Require Import Prelude Bytes Seq FecHeader.

Module fecm.
Import fec.

Inductive Variant := Variant20221 | Variant20225.

Record Config := mkConfig { Cols : Z; Rows : Z; ColumnOnly : bool; Var : Variant }.
Definition matrixSize (c : Config) : Z := Cols c * Rows c.

Record Packet := mkPacket { pk_Direction : Direction; pk_Data : bytes }.
Record Recovered := mkRecovered { r_Seq : Z; r_Timestamp : Z; r_PayloadType : Z; r_SSRC : Z; r_Payload : bytes }.

Definition seqAdd (base off : Z) : Z := Num32.Add base off.
Definition seqDiff (base s : Z) : Z := Num32.Distance base s.
Definition abs (x : Z) : Z := if x <? 0 then - x else x.

(** ** Groups *)

Record fecGroup := mkGroup { base : Z; collected : Z; lengthClip : Z; ptClip : Z; tsClip : Z; payloadClip : bytes }.
#[export] Instance eta_fecGroup : Eta fecGroup := fun r => mkGroup (base r) (collected r) (lengthClip r) (ptClip r) (tsClip r) (payloadClip r).

Definition newGroup (b : Z) (payloadSize : Z) : fecGroup := mkGroup b 0 0 0 0 (replicate (Z.to_nat payloadSize) 0).

Definition group_reset (b : Z) (g : fecGroup) : fecGroup := mkGroup b 0 0 0 0 (replicate (length (payloadClip g)) 0).

(** [for i := 0; i < len(p) && i < len(acc); i++ { acc[i] ^= p[i] }] *)
Fixpoint xor_into (acc p : bytes) : bytes :=
  match acc, p with
  | a :: acc, x :: p => Z.lxor a x :: xor_into acc p
  | acc, _ => acc
  end.

Definition clip (len pt ts : Z) (payload : bytes) (g : fecGroup) : fecGroup :=
  mkGroup (base g) (collected g) (Z.lxor (lengthClip g) len) (Z.lxor (ptClip g) (Z.land pt 127)) (Z.lxor (tsClip g) ts)
    (xor_into (payloadClip g) payload).

(** ** Encoder *)

Record Encoder := mkEncoder { e_cfg : Config; e_payloadSize : Z; e_row : fecGroup; e_cols : list fecGroup; e_rowBase : Z }.
#[export] Instance eta_Encoder : Eta Encoder := fun r => mkEncoder (e_cfg r) (e_payloadSize r) (e_row r) (e_cols r) (e_rowBase r).

Definition NewEncoder (cfg : Config) (payloadSize isn : Z) : Encoder :=
  mkEncoder cfg payloadSize (newGroup isn payloadSize)
    (if 1 <? Rows cfg then (fun i => newGroup (seqAdd isn i) payloadSize) <$> seqZ 0 (Cols cfg) else []) isn.

Definition emit (e : Encoder) (g : fecGroup) (dir : Direction) : Packet :=
  let cfg := e_cfg e in
  let '(offset, na) := match dir with Row => (1, Cols cfg) | Column => (Cols cfg, Rows cfg) end in
  let head := match Var cfg with
    | Variant20225 => header5_AppendTo (mkHeader5 false false 0 false (ptClip g) (u16 (base g)) (tsClip g) (lengthClip g) (u16 offset) (u16 na)) []
    | Variant20221 =>
        let '(sn, ext) := setBase24 (base g) in
        header_AppendTo (mkHeader sn (lengthClip g) (ptClip g) (tsClip g) dir (u8 offset) (u8 na) ext) []
    end in
  mkPacket dir (head ++ payloadClip g).

(** Push, in its three parts: a new row, the column, the row. *)
Definition push_advance (s : Z) (e : Encoder) : Encoder :=
  if Cols (e_cfg e) <=? seqDiff (e_rowBase e) s then
    let rb := seqAdd (e_rowBase e) (Cols (e_cfg e)) in e <| e_rowBase := rb |> <| e_row ::= group_reset rb |>
  else e.

Definition push_column (s ts pt : Z) (payload : bytes) (pos : Z) (e : Encoder) : list Packet * Encoder :=
  let cfg := e_cfg e in
  if (1 <? Rows cfg) && (0 <=? pos) && (pos <? zlen (e_cols e)) then
    match e_cols e !! Z.to_nat pos with
    | None => ([], e)
    | Some col =>
        let col := if matrixSize cfg <=? seqDiff (base col) s then group_reset (seqAdd (base col) (matrixSize cfg)) col else col in
        let col := clip (u16 (zlen payload)) pt ts payload col <| collected ::= Z.add 1 |> in
        let '(out, col) :=
          if Rows cfg <=? collected col
          then ([emit e col Column], group_reset (seqAdd (base col) (matrixSize cfg)) col) else ([], col) in
        (out, e <| e_cols ::= <[Z.to_nat pos := col]> |>)
    end
  else ([], e).

Definition push_row (e : Encoder) : list Packet * Encoder :=
  let cfg := e_cfg e in
  if Cols cfg <=? collected (e_row e) then
    let out := if negb (ColumnOnly cfg) then [emit e (e_row e) Row] else [] in
    let rb := seqAdd (e_rowBase e) (Cols cfg) in
    (out, e <| e_rowBase := rb |> <| e_row ::= group_reset rb |>)
  else ([], e).

Definition Push (s ts pt : Z) (payload : bytes) (e : Encoder) : list Packet * Encoder :=
  let e := push_advance s e in
  let pos := seqDiff (e_rowBase e) s in
  let e := e <| e_row ::= clip (u16 (zlen payload)) pt ts payload |> in
  let e := e <| e_row ::= fun g => g <| collected ::= Z.add 1 |> |> in
  let '(out, e) := push_column s ts pt payload pos e in
  let '(out2, e) := push_row e in
  (out ++ out2, e).

(** ** Decoder *)

Record storedMedia := mkMedia { sm_ts : Z; sm_pt : Z; sm_ssrc : Z; sm_payload : bytes }.

Record storedFEC := mkFEC {
  sf_base : Z; stride : Z; count : Z; lengthRec : Z; ptRec : Z; tsRec : Z; sf_payload : bytes; done : bool }.
#[export] Instance eta_storedFEC : Eta storedFEC := fun r =>
  mkFEC (sf_base r) (stride r) (count r) (lengthRec r) (ptRec r) (tsRec r) (sf_payload r) (done r).

Record Decoder := mkDecoder {
  d_cfg : Config; d_payloadSize : Z; window : Z; maxFECs : Z;
  media : gmap Z storedMedia; fecs : list storedFEC; lastSeq : Z; haveSeq : bool; d_out : list Recovered }.
#[export] Instance eta_Decoder : Eta Decoder := fun r =>
  mkDecoder (d_cfg r) (d_payloadSize r) (window r) (maxFECs r) (media r) (fecs r) (lastSeq r) (haveSeq r) (d_out r).

Definition NewDecoder (cfg : Config) (payloadSize isn : Z) : Decoder :=
  mkDecoder cfg payloadSize (matrixSize cfg * 3 + Cols cfg + 8) ((Cols cfg + Rows cfg) * 4 + 16) ∅ [] isn false [].

Definition geometryOK (d : Decoder) (str cnt : Z) : bool :=
  if (str =? Cols (d_cfg d)) && (cnt =? Rows (d_cfg d)) then true
  else if negb (ColumnOnly (d_cfg d)) && (str =? 1) && (cnt =? Cols (d_cfg d)) then true
  else false.

Definition store (s ts pt ssrc : Z) (payload : bytes) (d : Decoder) : Decoder := d <| media ::= <[s := mkMedia ts pt ssrc payload]> |>.

Definition advance (s : Z) (d : Decoder) : Decoder :=
  if negb (haveSeq d) || (0 <? seqDiff (lastSeq d) s) then d <| lastSeq := s |> <| haveSeq := true |> else d.

Definition widen (b : Z) (d : Decoder) : Z :=
  let '(mask, span) := match Var (d_cfg d) with Variant20225 => (65535, Z.shiftl 1 16) | Variant20221 => (16777215, Z.shiftl 1 24) end in
  let cand := Z.lor (Z.ldiff (lastSeq d) mask) (Z.land b mask) in
  fold_left (fun best c => if abs (seqDiff (lastSeq d) c) <? abs (seqDiff (lastSeq d) best) then c else best)
    [u32 (cand + span); u32 (cand - span)] cand.

(** The sequences of a group, oldest first. *)
Definition members (sf : storedFEC) : list Z := (fun i => seqAdd (sf_base sf) (i * stride sf)) <$> seqZ 0 (count sf).

(** The scan for missing members: [None] when it stops at the second. *)
Fixpoint find_missing (m : gmap Z storedMedia) (ss : list Z) (missing : Z) (n : Z) : option (Z * Z) :=
  match ss with
  | [] => Some (missing, n)
  | s :: ss =>
      match m !! s with
      | Some _ => find_missing m ss missing n
      | None => let n := n + 1 in if 1 <? n then None else find_missing m ss s n
      end
  end.

(** XOR the members present into the recovery fields: length, payload type, timestamp, SSRC, payload. *)
Fixpoint xor_members (m : gmap Z storedMedia) (ss : list Z) (len pt ts ssrc : Z) (payload : bytes) : Z * Z * Z * Z * bytes :=
  match ss with
  | [] => (len, pt, ts, ssrc, payload)
  | s :: ss =>
      match m !! s with
      | None => xor_members m ss len pt ts ssrc payload
      | Some x =>
          xor_members m ss (Z.lxor len (u16 (zlen (sm_payload x)))) (Z.lxor pt (Z.land (sm_pt x) 127)) (Z.lxor ts (sm_ts x)) (sm_ssrc x)
            (xor_into payload (sm_payload x))
      end
  end.

(** [make([]byte, n)] with [p] copied to its front. *)
Definition padded (n : Z) (p : bytes) : bytes := take (Z.to_nat n) (p ++ replicate (Z.to_nat n) 0).

Definition tryRecover (sf : storedFEC) (d : Decoder) : bool * storedFEC * Decoder :=
  if done sf then (false, sf, d) else
  if seqDiff (seqAdd (lastSeq d) (- window d)) (sf_base sf) <? 0 then (false, sf <| done := true |>, d) else
  if 0 <? seqDiff (lastSeq d) (seqAdd (sf_base sf) ((count sf - 1) * stride sf)) then (false, sf, d) else
  match find_missing (media d) (members sf) 0 0 with
  | None => (false, sf, d)
  | Some (missing, n) =>
      if n =? 0 then (false, sf <| done := true |>, d) else
      let '(len, pt, ts, ssrc, payload) :=
        xor_members (media d) (members sf) (lengthRec sf) (ptRec sf) (tsRec sf) 0 (padded (d_payloadSize d) (sf_payload sf)) in
      if d_payloadSize d <? len then (false, sf <| done := true |>, d) else
      let rp := mkRecovered missing ts pt ssrc (take (Z.to_nat len) payload) in
      (true, sf <| done := true |>, d <| d_out ::= fun o => o ++ [rp] |> <| media ::= <[missing := mkMedia ts pt ssrc (r_Payload rp)]> |>)
  end.

(** One pass over the stored FEC packets. *)
Fixpoint recover_pass (fs : list storedFEC) (d : Decoder) : bool * list storedFEC * Decoder :=
  match fs with
  | [] => (false, [], d)
  | f :: fs =>
      let '(r1, f, d) := tryRecover f d in
      let '(r2, fs, d) := recover_pass fs d in
      (r1 || r2, f :: fs, d)
  end.

(** Passes until one recovers nothing: [None] is out of fuel. *)
Fixpoint recover_loop (fuel : nat) (d : Decoder) : option Decoder :=
  match fuel with
  | O => None
  | S fuel =>
      let '(r, fs, d) := recover_pass (fecs d) d in
      let d := d <| fecs := fs |> in
      if r then recover_loop fuel d else Some d
  end.
Definition recoverAll (d : Decoder) : option Decoder := recover_loop (S (length (fecs d))) d.

Definition evict (d : Decoder) : Decoder :=
  let lo := seqAdd (lastSeq d) (- window d) in
  d <| media ::= filter (fun kv => 0 <= seqDiff lo kv.1) |> <| fecs ::= List.filter (fun f => 0 <=? seqDiff lo (sf_base f)) |>.

(** PushMedia and PushFEC return the recovered packets and the new state. *)
Definition PushMedia (s ts pt ssrc : Z) (payload : bytes) (d : Decoder) : option (list Recovered * Decoder) :=
  let d := d <| d_out := [] |> in
  let d := advance s d in
  match media d !! s with
  | Some _ => Some ([], d)
  | None => d ← recoverAll (store s ts pt ssrc payload d); let d := evict d in Some (d_out d, d)
  end.

(** The group a FEC packet describes, in the configured variant; [None] is a short header. *)
Definition parse_fec (b : bytes) (d : Decoder) : res fecError storedFEC :=
  match Var (d_cfg d) with
  | Variant20225 =>
      '(h, o) ← ParseHeader5 b; p ← slc_from b o;
      Ok (mkFEC (widen (SNBase5 h) d) (Offset5 h) (NA5 h) (LengthRecovery5 h) (Z.land (PTRecovery5 h) 127) (TSRecovery5 h) p false)
  | Variant20221 =>
      '(h, o) ← ParseHeader b; p ← slc_from b o;
      Ok (mkFEC (widen (base24 h) d) (Offset h) (NA h) (LengthRecovery h) (Z.land (PTRecovery h) 127) (TSRecovery h) p false)
  end.

Definition same_group (a b : storedFEC) : bool := (sf_base a =? sf_base b) && (stride a =? stride b) && (count a =? count b).

(** Make room for one more stored FEC packet. *)
Definition cap_fecs (d : Decoder) : Decoder :=
  if maxFECs d <=? zlen (fecs d) then
    let d := evict d in
    if maxFECs d <=? zlen (fecs d) then d <| fecs ::= tail |> else d
  else d.

Definition PushFEC (b : bytes) (d : Decoder) : option (res fecError (list Recovered) * Decoder) :=
  let d := d <| d_out := [] |> in
  match parse_fec b d with
  | Err _ => Some (Ok [], d)
  | Panic => Some (Panic, d)
  | Ok f =>
      if (stride f <=? 0) || (count f <=? 1) || (na10Max <? count f) then Some (Ok [], d) else
      if negb (geometryOK d (stride f) (count f)) then Some (Ok [], d) else
      if existsb (fun g => same_group g f) (fecs d) then Some (Ok [], d) else
      let d := cap_fecs d in
      d ← recoverAll (d <| fecs ::= fun fs => fs ++ [f] |>);
      let d := evict d in
      Some (Ok (d_out d), d)
  end.
End fecm.
