(* ===== verification/FecEncoder.v ===== *)
(** * The FEC encoder emits the parity of every row and column (src/internal/fec/fec.go, Encoder)

    [fec_packet] says what the FEC packet of a group is: the header and payload of the XOR of all its members.  Pushing a stream in
    sequence order, across the 32-bit wrap, emits exactly the FEC packets of the columns and rows that fill, in that order. *)

From stdpp Require Import gmap.
From S2P Require Import Prelude Bytes Seq FecHeader Fec.

Module fecenc.
Import fec fecm.

(** ** Positions *)

Lemma seqDiff_off b i j : Z.abs (j - i) < 2 ^ 31 -> seqDiff (u32 (b + i)) (u32 (b + j)) = j - i.
Proof.
  intros H. unfold seqDiff, Num32.Distance. apply (distance_unique 32); [lia|apply (u32_range (b + j))|].
  change (uwrap 32) with u32. rewrite u32_add_l. f_equal. lia.
Qed.

Lemma seqAdd_off b i k : seqAdd (u32 (b + i)) k = u32 (b + (i + k)).
Proof. unfold seqAdd, Num32.Add. rewrite u32_add_l, u32_add_r. f_equal. lia. Qed.

Lemma divmod_step n L : 0 < L -> 0 <= n ->
  if decide (n mod L = L - 1) then (n + 1) / L = n / L + 1 /\ (n + 1) mod L = 0
  else (n + 1) / L = n / L /\ (n + 1) mod L = n mod L + 1.
Proof.
  intros HL Hn. pose proof (Z.div_mod n L ltac:(lia)) as E. pose proof (Z.mod_pos_bound n L ltac:(lia)).
  destruct (decide (n mod L = L - 1)).
  - split; symmetry; [apply (Z.div_unique _ _ _ 0)|apply (Z.mod_unique _ _ (n / L + 1))]; lia.
  - split; symmetry; [apply (Z.div_unique _ _ _ (n mod L + 1))|apply (Z.mod_unique _ _ (n / L))]; lia.
Qed.

Lemma div_eq x L q r : x = q * L + r -> 0 <= r < L -> x / L = q.
Proof. intros -> Hr. symmetry. apply (Z.div_unique _ _ _ r); lia. Qed.

Section encoder.
Context (cfg : Config) (psz isn : Z) (truth : Z -> storedMedia).

Abbreviation L := (Cols cfg).
Abbreviation D := (Rows cfg).

(** ** Accumulated groups *)

(** The packet with sequence [s] joins a group. *)
Definition join (g : fecGroup) (s : Z) : fecGroup :=
  clip (u16 (zlen (sm_payload (truth s)))) (sm_pt (truth s)) (sm_ts (truth s)) (sm_payload (truth s)) g <| collected ::= Z.add 1 |>.

(** The sequences of a group, and the group of its first [n] members. *)
Definition seqs (b str n : Z) : list Z := (fun i => u32 (b + i * str)) <$> seqZ 0 n.
Definition acc (b str n : Z) : fecGroup := fold_left join (seqs b str n) (newGroup b psz).

(** The FEC packet of a whole group: its members are [L] apart in a column and adjacent in a row. *)
Definition fec_packet (dir : Direction) (b : Z) : Packet :=
  emit (NewEncoder cfg psz isn) (match dir with Column => acc b L D | Row => acc b 1 L end) dir.

Lemma seqs_snoc b str n : 0 <= n -> seqs b str (n + 1) = seqs b str n ++ [u32 (b + n * str)].
Proof. intros Hn. unfold seqs. rewrite seqZ_app by lia. by rewrite fmap_app. Qed.

Lemma acc_snoc b str n : 0 <= n -> acc b str (n + 1) = join (acc b str n) (u32 (b + n * str)).
Proof. intros Hn. unfold acc. rewrite seqs_snoc by done. by rewrite fold_left_app. Qed.

Lemma acc_0 b str : acc b str 0 = newGroup b psz.
Proof. done. Qed.

Lemma length_xor_into a p : length (xor_into a p) = length a.
Proof. revert p. induction a as [|x a IH]; intros [|y p]; cbn; [done..|]. by rewrite IH. Qed.

Lemma fold_join l g : base (fold_left join l g) = base g /\ collected (fold_left join l g) = collected g + zlen l /\
  length (payloadClip (fold_left join l g)) = length (payloadClip g).
Proof.
  revert g. induction l as [|s l IH]; intros g; cbn [fold_left]; [rewrite zlen_nil; split_and!; lia|].
  destruct (IH (join g s)) as (-> & -> & ->). rewrite zlen_cons. cbn. rewrite length_xor_into. split_and!; lia.
Qed.

Lemma acc_fields b str n : 0 <= n -> base (acc b str n) = b /\ collected (acc b str n) = n /\ length (payloadClip (acc b str n)) = Z.to_nat psz.
Proof.
  intros Hn. unfold acc. destruct (fold_join (seqs b str n) (newGroup b psz)) as (-> & -> & ->). cbn. rewrite length_replicate.
  unfold seqs, zlen. rewrite length_fmap, length_seqZ. split_and!; lia.
Qed.

Lemma reset_acc b b' str n : 0 <= n -> group_reset b' (acc b str n) = newGroup b' psz.
Proof. intros Hn. unfold group_reset, newGroup. by destruct (acc_fields b str n Hn) as (_ & _ & ->). Qed.

Lemma emit_cfg e g dir : e_cfg e = cfg -> emit e g dir = emit (NewEncoder cfg psz isn) g dir.
Proof. intros E. unfold emit. by rewrite E. Qed.

(** ** The encoder after [n] packets *)

Context (HL : 1 <= L) (HD : 1 <= D) (HLD : L * D < 2 ^ 31).

(** How many of the first [n] packets are in column [c]. *)
Definition in_col (n c : Z) : Z := (n + L - 1 - c) / L.
Definition row_base (n : Z) : Z := n / L * L.
Definition col_base (n c : Z) : Z := c + in_col n c / D * (L * D).

Definition col_ok (n : Z) (cols : list fecGroup) : Prop :=
  zlen cols = L /\ forall c, 0 <= c < L -> cols !! Z.to_nat c = Some (acc (u32 (isn + col_base n c)) L (in_col n c mod D)).

Record enc_inv (n : Z) (e : Encoder) : Prop := {
  ei_cfg : e_cfg e = cfg;
  ei_rowBase : e_rowBase e = u32 (isn + row_base n);
  ei_row : e_row e = acc (u32 (isn + row_base n)) 1 (n mod L);
  ei_cols : 1 < D -> col_ok n (e_cols e) }.

Lemma NewEncoder_inv : in_u32 isn -> enc_inv 0 (NewEncoder cfg psz isn).
Proof.
  intros Hi. split; cbn [NewEncoder e_cfg e_rowBase e_row e_cols].
  - done.
  - unfold row_base. rewrite Z.div_0_l, Z.mul_0_l, Z.add_0_r by lia. by rewrite u32_id.
  - unfold row_base. rewrite Z.div_0_l, Z.mul_0_l, Z.add_0_r, Z.mod_0_l by lia. by rewrite u32_id.
  - intros H1. destruct (Z.ltb_spec 1 D); [|lia]. split; [unfold zlen; rewrite length_fmap, length_seqZ; lia|].
    intros c Hc. rewrite list_lookup_fmap, lookup_seqZ_lt by lia. cbn [fmap option_fmap option_map].
    assert (in_col 0 c = 0) as E by (unfold in_col; apply Z.div_small; lia).
    unfold col_base. rewrite E, Z.div_0_l, Z.mod_0_l, acc_0 by lia. do 3 f_equal. unfold seqAdd, Num32.Add. rewrite u32_add_r. f_equal. lia.
Qed.

Lemma in_col_here n : 0 <= n -> in_col n (n mod L) = n / L.
Proof.
  intros Hn. unfold in_col. pose proof (Z.div_mod n L ltac:(lia)). replace (n + L - 1 - n mod L) with (n / L * L + (L - 1)) by lia.
  rewrite Z.div_add_l, (Z.div_small (L - 1)) by lia. lia.
Qed.

Lemma in_col_step n c : 0 <= n -> 0 <= c < L -> in_col (n + 1) c = if decide (c = n mod L) then n / L + 1 else in_col n c.
Proof.
  intros Hn Hc. pose proof (Z.div_mod n L ltac:(lia)) as E. pose proof (Z.mod_pos_bound n L ltac:(lia)). unfold in_col. destruct (decide (c = n mod L)) as [->|Hne].
  - replace (n + 1 + L - 1 - n mod L) with ((n / L + 1) * L + 0) by lia. rewrite Z.div_add_l, Z.div_0_l by lia. lia.
  - destruct (Z.lt_ge_cases c (n mod L)).
    + by rewrite (div_eq (n + 1 + L - 1 - c) L (n / L + 1) (n mod L - c)), (div_eq (n + L - 1 - c) L (n / L + 1) (n mod L - c - 1)) by lia.
    + by rewrite (div_eq (n + 1 + L - 1 - c) L (n / L) (n mod L - c + L)), (div_eq (n + L - 1 - c) L (n / L) (n mod L - c + L - 1)) by lia.
Qed.

(** What packet [n] completes: its column, then its row. *)
Definition fec_after (n : Z) : list Packet :=
  (if decide (1 < D /\ (n / L) mod D = D - 1) then [fec_packet Column (u32 (isn + col_base n (n mod L)))] else []) ++
  (if decide (n mod L = L - 1 /\ ColumnOnly cfg = false) then [fec_packet Row (u32 (isn + row_base n))] else []).

Lemma push_column_spec n e : 0 <= n -> e_cfg e = cfg -> (1 < D -> col_ok n (e_cols e)) ->
  let s := u32 (isn + n) in
  exists cols, push_column s (sm_ts (truth s)) (sm_pt (truth s)) (sm_payload (truth s)) (n mod L) e =
    (if decide (1 < D /\ (n / L) mod D = D - 1) then [fec_packet Column (u32 (isn + col_base n (n mod L)))] else [],
     mkEncoder (e_cfg e) (e_payloadSize e) (e_row e) cols (e_rowBase e)) /\ (1 < D -> col_ok (n + 1) cols).
Proof.
  intros Hn Hcfg Hcols s. unfold push_column. rewrite Hcfg. pose proof (Z.mod_pos_bound n L ltac:(lia)) as Hr.
  destruct (Z.ltb_spec 1 D) as [H1|H1]; cbn [andb].
  2:{ exists (e_cols e). split; [|lia]. destruct (decide _) as [[? _]|_]; [lia|]. by destruct e; cbn in Hcfg; subst. }
  destruct (Hcols H1) as [Hlen Hlook]. destruct (Z.leb_spec 0 (n mod L)); [|lia]. rewrite Hlen. destruct (Z.ltb_spec (n mod L) L); [|lia]. cbn [andb].
  rewrite (Hlook (n mod L) Hr). set (b := u32 (isn + col_base n (n mod L))). rewrite in_col_here by done.
  pose proof (Z.mod_pos_bound (n / L) D ltac:(lia)) as Hm. pose proof (Z.div_pos n L ltac:(lia) ltac:(lia)) as Hq.
  destruct (acc_fields b L ((n / L) mod D) ltac:(lia)) as (Eb & _ & _). rewrite Eb.
  assert (Hpos : n = col_base n (n mod L) + (n / L) mod D * L).
  { unfold col_base. rewrite in_col_here by done. pose proof (Z.div_mod n L ltac:(lia)). pose proof (Z.div_mod (n / L) D ltac:(lia)). nia. }
  assert (Hdiff : seqDiff b s = (n / L) mod D * L). { unfold b, s. rewrite seqDiff_off; [lia|nia]. }
  rewrite Hdiff. destruct (Z.leb_spec (matrixSize cfg) ((n / L) mod D * L)) as [Hge|_]; [unfold matrixSize in Hge; nia|].
  assert (Ejoin : clip (u16 (zlen (sm_payload (truth s)))) (sm_pt (truth s)) (sm_ts (truth s)) (sm_payload (truth s)) (acc b L ((n / L) mod D)) <| collected ::= Z.add 1 |>
     = acc b L ((n / L) mod D + 1)).
  { rewrite acc_snoc by lia. unfold join. assert (u32 (b + (n / L) mod D * L) = s) as ->; [|done].
    unfold b, s. rewrite u32_add_l. f_equal. lia. }
  rewrite Ejoin. destruct (acc_fields b L ((n / L) mod D + 1) ltac:(lia)) as (Eb1 & -> & _). rewrite Eb1.
  destruct (Z.leb_spec D ((n / L) mod D + 1)) as [Hfull|Hpart]; destruct (decide (1 < D /\ (n / L) mod D = D - 1)) as [[_ Hd]|Hd]; try lia.
  - eexists. split; [rewrite (emit_cfg e) by done; unfold fec_packet; fold b; rewrite Hd; replace (D - 1 + 1) with D by lia; destruct e; cbn in Hcfg; by subst|].
    intros _. split; [unfold zlen in *; rewrite length_insert; lia|]. intros c Hc. rewrite reset_acc by lia.
    destruct (decide (c = n mod L)) as [->|Hne].
    + rewrite list_lookup_insert_eq by (unfold zlen in Hlen; lia). f_equal. unfold col_base. rewrite in_col_step by done. rewrite decide_True by done.
      pose proof (divmod_step (n / L) D ltac:(lia) Hq) as Hs. rewrite decide_True in Hs by done. destruct Hs as [-> ->]. rewrite acc_0. f_equal.
      unfold b. rewrite seqAdd_off. unfold col_base, matrixSize. rewrite in_col_here by done. f_equal. lia.
    + rewrite list_lookup_insert_ne by lia. rewrite Hlook by done. unfold col_base. rewrite in_col_step by done. by rewrite decide_False.
  - eexists. split; [destruct e; cbn in Hcfg; by subst|].
    intros _. split; [unfold zlen in *; rewrite length_insert; lia|]. intros c Hc.
    destruct (decide (c = n mod L)) as [->|Hne].
    + rewrite list_lookup_insert_eq by (unfold zlen in Hlen; lia). f_equal. unfold b, col_base. rewrite in_col_step by done. rewrite decide_True by done.
      pose proof (divmod_step (n / L) D ltac:(lia) Hq) as Hs. rewrite decide_False in Hs by lia. destruct Hs as [-> ->]. by rewrite in_col_here.
    + rewrite list_lookup_insert_ne by lia. rewrite Hlook by done. unfold col_base. rewrite in_col_step by done. by rewrite decide_False.
Qed.
Lemma push_row_spec n e : 0 <= n -> e_cfg e = cfg -> e_rowBase e = u32 (isn + row_base n) -> e_row e = acc (u32 (isn + row_base n)) 1 (n mod L + 1) ->
  exists e', push_row e = (if decide (n mod L = L - 1 /\ ColumnOnly cfg = false) then [fec_packet Row (u32 (isn + row_base n))] else [], e') /\
    e_cfg e' = cfg /\ e_cols e' = e_cols e /\ e_rowBase e' = u32 (isn + row_base (n + 1)) /\ e_row e' = acc (u32 (isn + row_base (n + 1))) 1 ((n + 1) mod L).
Proof.
  intros Hn Hcfg Hrb Hrow. unfold push_row. rewrite Hcfg, Hrow. pose proof (Z.mod_pos_bound n L ltac:(lia)).
  destruct (acc_fields (u32 (isn + row_base n)) 1 (n mod L + 1) ltac:(lia)) as (_ & -> & _).
  pose proof (divmod_step n L ltac:(lia) Hn) as Hs. destruct (Z.leb_spec L (n mod L + 1)).
  - rewrite decide_True in Hs by lia. destruct Hs as [E1 E2]. eexists. split; [|cbn [e_cfg e_cols e_rowBase e_row upd field_map]; split_and!].
    + f_equal. assert (n mod L + 1 = L) as -> by lia. rewrite emit_cfg by done. destruct (ColumnOnly cfg) eqn:E; cbn [negb];
        [rewrite decide_False by (intros [_ ?]; done)|rewrite decide_True by (split; [lia|done])]; done.
    + done.
    + done.
    + rewrite Hrb, seqAdd_off. unfold row_base. rewrite E1. cbn. f_equal. nia.
    + rewrite Hrb, seqAdd_off. unfold row_base. rewrite E1, E2. cbn. rewrite Hrow, reset_acc, acc_0 by lia. f_equal. f_equal. nia.
  - rewrite decide_False in Hs by lia. destruct Hs as [E1 E2]. rewrite decide_False by lia. exists e. split_and!; [done..| |];
      unfold row_base in *; rewrite E1; [done|]. by rewrite E2.
Qed.

(** Push of the next packet keeps the invariant and emits what that packet completes. *)
Lemma Push_spec n e : 0 <= n -> enc_inv n e ->
  let s := u32 (isn + n) in
  exists e', Push s (sm_ts (truth s)) (sm_pt (truth s)) (sm_payload (truth s)) e = (fec_after n, e') /\ enc_inv (n + 1) e'.
Proof.
  intros Hn [Hcfg Hrb Hrow Hcols] s. unfold Push. pose proof (Z.mod_pos_bound n L ltac:(lia)). pose proof (Z.div_mod n L ltac:(lia)) as Edm.
  assert (Hd : seqDiff (e_rowBase e) s = n mod L). { rewrite Hrb. unfold s, row_base. rewrite seqDiff_off by nia. lia. }
  assert (push_advance s e = e) as ->.
  { unfold push_advance. rewrite Hcfg, Hd. destruct (Z.leb_spec L (n mod L)); [lia|done]. }
  cbv zeta. match goal with |- context [push_column _ _ _ _ _ ?x] => set (e1 := x) end. rewrite Hd.
  assert (Erow : e_row e1 = acc (u32 (isn + row_base n)) 1 (n mod L + 1)).
  { rewrite acc_snoc by lia. cbn. rewrite Hrow. unfold join. assert (u32 (u32 (isn + row_base n) + n mod L * 1) = s) as ->; [|done].
    rewrite u32_add_l. unfold s, row_base. f_equal. lia. }
  destruct (push_column_spec n e1) as (cols & Ec & Hcols'); [done|done|done|]. fold s in Ec. rewrite Ec. cbv beta iota.
  destruct (push_row_spec n (mkEncoder (e_cfg e1) (e_payloadSize e1) (e_row e1) cols (e_rowBase e1))) as (e' & -> & C1 & C2 & C3 & C4); [done|done|done|done|].
  exists e'. split; [done|]. split; [done|done|done|]. intros HD1. rewrite C2. by apply Hcols'.
Qed.

(** A stream of [k] packets from number [n] on. *)
Fixpoint push_stream (k : nat) (n : Z) (e : Encoder) : list Packet * Encoder :=
  match k with
  | O => ([], e)
  | S k =>
      let s := u32 (isn + n) in
      let '(out, e) := Push s (sm_ts (truth s)) (sm_pt (truth s)) (sm_payload (truth s)) e in
      let '(out2, e) := push_stream k (n + 1) e in
      (out ++ out2, e)
  end.

Lemma push_stream_spec k n e : 0 <= n -> enc_inv n e -> exists e', push_stream k n e = (concat (fec_after <$> seqZ n (Z.of_nat k)), e').
Proof.
  revert n e. induction k as [|k IH]; intros n e Hn Hi; [by exists e|]. cbn [push_stream].
  destruct (Push_spec n e Hn Hi) as (e1 & -> & Hi1). destruct (IH (n + 1) e1 ltac:(lia) Hi1) as (e2 & ->). exists e2. f_equal.
  rewrite (seqZ_cons n) by lia. cbn [fmap list_fmap concat]. do 4 f_equal; lia.
Qed.
End encoder.

(** ** Properties *)

(** Pushing any stream in sequence order, from any initial sequence number and across the wrap, emits after
    each packet exactly the FEC packet of the column it completes and then the one of the row it completes: each is the XOR of all the
    members of its group, and nothing else is emitted. *)
Theorem fec_encoder_exact cfg psz isn truth k :
  1 <= Cols cfg -> 1 <= Rows cfg -> Cols cfg * Rows cfg < 2 ^ 31 -> in_u32 isn ->
  fst (push_stream isn truth k 0 (NewEncoder cfg psz isn)) = concat (fec_after cfg psz isn truth <$> seqZ 0 (Z.of_nat k)).
Proof.
  intros HL HD HLD Hi. destruct (push_stream_spec cfg psz isn truth HL HD HLD k 0 (NewEncoder cfg psz isn)) as (e' & ->); [done| |done].
  by apply NewEncoder_inv.
Qed.

Definition demo_truth (s : Z) : storedMedia := mkMedia (u32 (s * 3000)) 33 8 [u8 s; 7].

Lemma fec_encoder_exact_witness :
  fst (push_stream 4294967294 demo_truth 6 0 (NewEncoder (mkConfig 3 2 false Variant20221) 2 4294967294)) =
    concat (fec_after (mkConfig 3 2 false Variant20221) 2 4294967294 demo_truth <$> seqZ 0 6).
Proof.
  apply (fec_encoder_exact (mkConfig 3 2 false Variant20221) 2 4294967294 demo_truth 6); try discriminate; try reflexivity.
  split; [discriminate|reflexivity].
Defined.
End fecenc.
