(* ===== verification/FecDecoder.v ===== *)
(** * The FEC decoder rebuilds what was sent (src/internal/fec/fec.go, Decoder)

    XOR cancels: the parity of a group and all its members but one give the one that is missing.  Fed any media of a stream and any of
    its FEC packets, in any order and with any losses and copies, the decoder terminates, never panics and recovers only packets of that
    stream. *)

From stdpp Require Import gmap.
From S2P Require Import Prelude Bytes Seq FecHeader Fec FecEncoder.

Module fecdec.
Import fec fecm fecenc.

(** ** XOR over lists *)

Definition xorz {A} (f : A -> Z) (l : list A) : Z := foldr (fun s a => Z.lxor (f s) a) 0 l.

Lemma lxor_swap a b c : Z.lxor a (Z.lxor b c) = Z.lxor b (Z.lxor a c).
Proof. by rewrite <-!Z.lxor_assoc, (Z.lxor_comm a b). Qed.

Lemma xorz_app {A} (f : A -> Z) l k : xorz f (l ++ k) = Z.lxor (xorz f l) (xorz f k).
Proof. induction l as [|x l IH]; cbn; [by rewrite Z.lxor_0_l|]. change (foldr _ 0 (l ++ k)) with (xorz f (l ++ k)). by rewrite IH, Z.lxor_assoc. Qed.

Lemma xorz_perm {A} (f : A -> Z) l k : l ≡ₚ k -> xorz f l = xorz f k.
Proof. induction 1; cbn; [done|by f_equal|apply lxor_swap|congruence]. Qed.

Lemma xorz_ext {A} (f g : A -> Z) l : (forall x, x ∈ l -> f x = g x) -> xorz f l = xorz g l.
Proof.
  induction l as [|x l IH]; intros H; [done|]. unfold xorz in *. cbn [foldr]. rewrite (H x) by constructor. f_equal. apply IH. intros y Hy. apply H. by constructor.
Qed.

(** The parity with all members but [x] leaves [x]. *)
Lemma xor_cancel {A} (f : A -> Z) (x : A) l k : l ≡ₚ x :: k -> Z.lxor (xorz f l) (xorz f k) = f x.
Proof. intros H. rewrite (xorz_perm f l _ H). cbn. by rewrite Z.lxor_assoc, Z.lxor_nilpotent, Z.lxor_0_r. Qed.

Lemma xorz_bound {A} k (f : A -> Z) l : 0 <= k -> (forall x, x ∈ l -> 0 <= f x < 2 ^ k) -> 0 <= xorz f l < 2 ^ k.
Proof.
  intros Hk H. induction l as [|x l IH]; [cbn; lia|]. cbn. apply lxor_bound; [done|apply H; by left|]. apply IH. intros y Hy. apply H. by right.
Qed.

(** Byte [j] of a payload, zero past its end. *)
Definition byte_at (j : nat) (p : bytes) : Z := default 0 (p !! j).

Lemma byte_at_xor_into j a p : (j < length a)%nat -> byte_at j (xor_into a p) = Z.lxor (byte_at j a) (byte_at j p).
Proof.
  unfold byte_at. revert a p. induction j as [|j IH]; intros [|x a] [|y p] Hj; cbn in *; try lia; rewrite ?Z.lxor_0_r; try done. apply IH. lia.
Qed.

(** ** Missing members *)

Definition missing_of (m : gmap Z storedMedia) (ss : list Z) : list Z := filter (fun s => m !! s = None) ss.
Definition present_of (m : gmap Z storedMedia) (ss : list Z) : list Z := filter (fun s => is_Some (m !! s)) ss.

Lemma find_missing_1 m ss x : find_missing m ss x 1 = match missing_of m ss with [] => Some (x, 1) | _ => None end.
Proof.
  induction ss as [|s ss IH]; cbn [find_missing missing_of]; [done|]. unfold missing_of in *. rewrite filter_cons.
  destruct (m !! s); cbn; [by rewrite decide_False|by rewrite decide_True].
Qed.

Lemma find_missing_spec m ss :
  find_missing m ss 0 0 = match missing_of m ss with [] => Some (0, 0) | [x] => Some (x, 1) | _ => None end.
Proof.
  induction ss as [|s ss IH]; [done|]. cbn [find_missing]. unfold missing_of in *. rewrite filter_cons. destruct (m !! s); cbn; [by rewrite decide_False|].
  rewrite decide_True by done. rewrite find_missing_1. unfold missing_of. by destruct (filter _ ss).
Qed.

Lemma missing_perm m ss : ss ≡ₚ missing_of m ss ++ present_of m ss.
Proof.
  induction ss as [|s ss IH]; [done|]. unfold missing_of, present_of in *. rewrite !filter_cons. destruct (m !! s) as [x|].
  - rewrite decide_False, decide_True by (done || by exists x). by rewrite <-Permutation_middle, <-IH.
  - rewrite decide_True, decide_False by (done || intros [? ?]; done). cbn. by rewrite <-IH.
Qed.

(** ** The recovery loop ends *)

Lemma tryRecover_done f d r f' d' : tryRecover f d = (r, f', d') ->
  (f' = f \/ f' = f <| done := true |>) /\ (r = true -> done f = false /\ done f' = true).
Proof.
  unfold tryRecover. destruct (done f) eqn:Hd; [intros [= <- <- <-]; by split; [left|]|].
  destruct (seqDiff _ (sf_base f) <? 0); [intros [= <- <- <-]; by split; [right|]|].
  destruct (0 <? _); [intros [= <- <- <-]; by split; [left|]|].
  destruct (find_missing _ _ _ _) as [[x n]|]; [|intros [= <- <- <-]; by split; [left|]].
  destruct (n =? 0); [intros [= <- <- <-]; by split; [right|]|].
  destruct (xor_members _ _ _ _ _ _ _) as [[[[len pt] ts] ssrc] p].
  destruct (_ <? len); intros [= <- <- <-]; (split; [by right|done]).
Qed.

(** The groups still to be resolved. *)
Definition undone (fs : list storedFEC) : nat := length (filter (fun f => done f = false) fs).

Lemma recover_pass_undone fs d r fs' d' : recover_pass fs d = (r, fs', d') ->
  length fs' = length fs /\ (undone fs' <= undone fs)%nat /\ (r = true -> (undone fs' < undone fs)%nat).
Proof.
  revert d r fs' d'. induction fs as [|f fs IH]; intros d r fs' d'; cbn [recover_pass]; [intros [= <- <- <-]; by split_and!|].
  destruct (tryRecover f d) as [[r1 f1] d1] eqn:E1. destruct (recover_pass fs d1) as [[r2 fs2] d2] eqn:E2. intros [= <- <- <-].
  destruct (tryRecover_done _ _ _ _ _ E1) as [Hf Hr]. destruct (IH _ _ _ _ E2) as (Hl & Hu & Hs). unfold undone in *. rewrite !filter_cons.
  split; [cbn; by rewrite Hl|].
  destruct r1; cbn [orb].
  - destruct (Hr eq_refl) as [-> ->]. rewrite decide_False, decide_True by done. cbn [length]. split; [lia|]. intros _. lia.
  - destruct Hf as [-> | ->]; [destruct (decide (done f = false)); cbn [length]; split; [lia| |lia|]; intros E; specialize (Hs E); lia|].
    rewrite (decide_False (P := done (f <| done := true |>) = false)) by done.
    destruct (decide (done f = false)); cbn [length]; split; [lia| |lia|]; intros E; specialize (Hs E); lia.
Qed.

Lemma recover_loop_ends fuel d : (undone (fecs d) < fuel)%nat -> is_Some (recover_loop fuel d).
Proof.
  revert d. induction fuel as [|fuel IH]; intros d Hu; [lia|]. cbn [recover_loop].
  destruct (recover_pass (fecs d) d) as [[r fs] d1] eqn:E. destruct (recover_pass_undone _ _ _ _ _ E) as (_ & _ & Hr).
  destruct r; [|by eexists]. apply IH. change (undone fs < fuel)%nat. specialize (Hr eq_refl). lia.
Qed.

(** [recoverAll] terminates from every state. *)
Lemma recoverAll_ends d : is_Some (recoverAll d).
Proof. apply recover_loop_ends. unfold undone. pose proof (length_filter (fun f => done f = false) (fecs d)). lia. Qed.

(** ** Widening the base *)

Definition span_bits (v : Variant) : Z := match v with Variant20221 => 24 | Variant20225 => 16 end.

(** The nearest candidate: of [e0] and the two a span away, the one within half a span. *)
Lemma pick_nearest l sp e0 e : in_u32 l -> 0 < sp <= 2 ^ 24 -> - sp < e0 < sp -> (e = e0 \/ e = e0 + sp \/ e = e0 - sp) -> 2 * Z.abs e < sp ->
  fold_left (fun best c => if abs (seqDiff l c) <? abs (seqDiff l best) then c else best) [u32 (u32 (l + e0) + sp); u32 (u32 (l + e0) - sp)] (u32 (l + e0)) = u32 (l + e).
Proof.
  intros Hl Hsp He0 He Hh. assert (Hd : forall x, Z.abs x < 2 ^ 31 -> abs (seqDiff l (u32 (l + x))) = Z.abs x).
  { intros x Hx. rewrite <-(u32_id l) at 1 by done. rewrite <-(Z.add_0_r l) at 1. rewrite seqDiff_off by lia. unfold abs. case_cmp; lia. }
  rewrite u32_add_l, u32_sub_l. replace (l + e0 + sp) with (l + (e0 + sp)) by lia. replace (l + e0 - sp) with (l + (e0 - sp)) by lia.
  cbn [fold_left]. rewrite !Hd by lia. destruct (Z.ltb_spec (Z.abs (e0 + sp)) (Z.abs e0)); rewrite !Hd by lia; case_cmp; do 2 f_equal; lia.
Qed.

Lemma widen_spec d b : in_u32 (lastSeq d) -> in_u32 b -> 2 * Z.abs (seqDiff (lastSeq d) b) < 2 ^ span_bits (Var (d_cfg d)) ->
  widen (b mod 2 ^ span_bits (Var (d_cfg d))) d = b.
Proof.
  intros Hl Hb Hn. set (k := span_bits (Var (d_cfg d))) in *. assert (Hk : k = 16 \/ k = 24) by (unfold k; destruct (Var (d_cfg d)); cbn; lia).
  assert (Hw : widen (b mod 2 ^ k) d = fold_left (fun best c => if abs (seqDiff (lastSeq d) c) <? abs (seqDiff (lastSeq d) best) then c else best)
    [u32 (lastSeq d / 2 ^ k * 2 ^ k + b mod 2 ^ k + 2 ^ k); u32 (lastSeq d / 2 ^ k * 2 ^ k + b mod 2 ^ k - 2 ^ k)] (lastSeq d / 2 ^ k * 2 ^ k + b mod 2 ^ k)).
  { assert (Ec : Z.lor (Z.ldiff (lastSeq d) (Z.ones k)) (Z.land (b mod 2 ^ k) (Z.ones k)) = lastSeq d / 2 ^ k * 2 ^ k + b mod 2 ^ k).
    { pose proof (Z.mod_pos_bound b (2 ^ k)). rewrite Z.ldiff_ones_r, Z.land_ones, Z.mod_mod, lor_shiftl_add, Z.shiftr_div_pow2 by lia. done. }
    unfold widen, k in *. rewrite <-Ec. by destruct (Var (d_cfg d)). }
  rewrite Hw. pose proof (Z.div_mod (lastSeq d) (2 ^ k) ltac:(lia)) as E1. pose proof (Z.mod_pos_bound (lastSeq d) (2 ^ k)). pose proof (Z.mod_pos_bound b (2 ^ k)).
  set (e0 := b mod 2 ^ k - lastSeq d mod 2 ^ k). set (e := seqDiff (lastSeq d) b) in *.
  assert (Ecand : lastSeq d / 2 ^ k * 2 ^ k + b mod 2 ^ k = u32 (lastSeq d + e0)).
  { rewrite u32_id; [unfold e0; lia|]. unfold in_u32 in *. pose proof (Z.div_pos (lastSeq d) (2 ^ k)).
    assert (lastSeq d / 2 ^ k < 2 ^ (32 - k)). { apply Z.div_lt_upper_bound; [lia|]. rewrite <-Z.pow_add_r by lia. replace (k + (32 - k)) with 32 by lia. lia. }
    assert (2 ^ (32 - k) * 2 ^ k = 2 ^ 32) as E32 by (rewrite <-Z.pow_add_r by lia; f_equal; lia). unfold e0. nia. }
  assert (Eb : u32 (lastSeq d + e) = b) by (apply (distance_add 32); apply Hb).
  rewrite Ecand, (pick_nearest _ _ _ e); [done|done|destruct Hk as [-> | ->]; lia|unfold e0; lia| |done].
  assert (Hc : (e - e0) mod 2 ^ k = 0).
  { assert (E2 : b mod 2 ^ k = (lastSeq d + e) mod 2 ^ k) by (rewrite <-Eb; apply u32_mod_pow2; lia).
    unfold e0. rewrite E2.
    replace (e - ((lastSeq d + e) mod 2 ^ k - lastSeq d mod 2 ^ k)) with ((lastSeq d + e) - (lastSeq d + e) mod 2 ^ k - (lastSeq d - lastSeq d mod 2 ^ k)) by lia.
    rewrite Zminus_mod, (Zminus_mod (lastSeq d + e)), (Zminus_mod (lastSeq d)), !Z.mod_mod, !Z.sub_diag by lia. done. }
  apply Z.mod_divide in Hc as [q Hq]; [|lia]. assert (q = 0 \/ q = 1 \/ q = -1) by (unfold e0 in *; nia). lia.
Qed.

(** ** Groups of a stream *)

Section stream.
Context (cfg : Config) (psz isn ssrc : Z) (truth : Z -> storedMedia).
Abbreviation L := (Cols cfg).
Abbreviation D := (Rows cfg).

(** What a stream's packets are: within the protected size, of one source. *)
Record media_typed (m : storedMedia) : Prop := {
  mt_ts : in_u32 (sm_ts m); mt_pt : in_u8 (sm_pt m); mt_ssrc : sm_ssrc m = ssrc; mt_size : zlen (sm_payload m) <= psz }.

Definition flen (s : Z) : Z := zlen (sm_payload (truth s)).
Definition fpt (s : Z) : Z := Z.land (sm_pt (truth s)) 127.
Definition fts (s : Z) : Z := sm_ts (truth s).
Definition fbyte (j : nat) (s : Z) : Z := byte_at j (sm_payload (truth s)).

Context (Hpsz : 0 <= psz <= 65535) (Htyped : forall s, in_u32 s -> media_typed (truth s)).

Lemma flen_u16 s : in_u32 s -> u16 (flen s) = flen s /\ 0 <= flen s <= psz.
Proof.
  intros Hs. destruct (Htyped s Hs) as [_ _ _ Hl]. unfold flen. pose proof (zlen_nonneg (sm_payload (truth s))). split; [|lia]. apply (uwrap_id 16). lia.
Qed.

Lemma fold_join_xor l g : Forall in_u32 l ->
  let g' := fold_left (join truth) l g in
  lengthClip g' = Z.lxor (lengthClip g) (xorz flen l) /\ ptClip g' = Z.lxor (ptClip g) (xorz fpt l) /\
  tsClip g' = Z.lxor (tsClip g) (xorz fts l) /\
  forall j, (j < length (payloadClip g))%nat -> byte_at j (payloadClip g') = Z.lxor (byte_at j (payloadClip g)) (xorz (fbyte j) l).
Proof.
  intros Hl. revert g. induction Hl as [|s l Hs Hl IH]; intros g; cbn [fold_left].
  - cbn. rewrite !Z.lxor_0_r. split_and!; try done. intros j _. by rewrite Z.lxor_0_r.
  - destruct (IH (join truth g s)) as (E1 & E2 & E3 & E4). cbv zeta. rewrite E1, E2, E3. cbn. fold (flen s). rewrite (proj1 (flen_u16 s Hs)).
    fold (xorz flen l) (xorz fpt l) (xorz fts l). rewrite !Z.lxor_assoc. split_and!; try done.
    intros j Hj. rewrite E4 by (cbn; rewrite length_xor_into; done). cbn. rewrite byte_at_xor_into by done. by rewrite Z.lxor_assoc.
Qed.

Lemma seqs_u32 b str n : Forall in_u32 (seqs b str n).
Proof. apply Forall_fmap, Forall_forall. intros i _. apply u32_range. Qed.

Lemma byte_at_zeros j n : byte_at j (replicate n 0) = 0.
Proof. unfold byte_at. destruct (replicate n 0 !! j) eqn:E; [by apply lookup_replicate in E as [-> _]|done]. Qed.

(** The parity fields of a group's first [n] members. *)
Lemma acc_xor b str n : 0 <= n ->
  lengthClip (acc psz truth b str n) = xorz flen (seqs b str n) /\ ptClip (acc psz truth b str n) = xorz fpt (seqs b str n) /\
  tsClip (acc psz truth b str n) = xorz fts (seqs b str n) /\
  forall j, (j < Z.to_nat psz)%nat -> byte_at j (payloadClip (acc psz truth b str n)) = xorz (fbyte j) (seqs b str n).
Proof.
  intros Hn. unfold acc. destruct (fold_join_xor (seqs b str n) (newGroup b psz) (seqs_u32 b str n)) as (-> & -> & -> & E4).
  cbn. rewrite !Z.lxor_0_l. split_and!; [done..|]. intros j Hj. rewrite E4 by (cbn; by rewrite length_replicate). cbn. by rewrite byte_at_zeros, Z.lxor_0_l.
Qed.

(** A stored FEC packet that is the parity of its group. *)
Record fec_true (f : storedFEC) : Prop := {
  ft_base : in_u32 (sf_base f);
  ft_stride : 1 <= stride f;
  ft_count : 2 <= count f;
  ft_span : count f * stride f <= matrixSize cfg;
  ft_len : lengthRec f = lengthClip (acc psz truth (sf_base f) (stride f) (count f));
  ft_pt : ptRec f = ptClip (acc psz truth (sf_base f) (stride f) (count f));
  ft_ts : tsRec f = tsClip (acc psz truth (sf_base f) (stride f) (count f));
  ft_payload : sf_payload f = payloadClip (acc psz truth (sf_base f) (stride f) (count f)) }.

Lemma members_seqs f : members f = seqs (sf_base f) (stride f) (count f).
Proof. unfold members, seqs. apply list_fmap_ext. intros _ i _. unfold seqAdd, Num32.Add. by rewrite u32_add_r. Qed.

(** The media map holds packets of the stream. *)
Definition same_media (x : storedMedia) (s : Z) : Prop :=
  sm_ts x = fts s /\ Z.land (sm_pt x) 127 = fpt s /\ sm_ssrc x = ssrc /\ sm_payload x = sm_payload (truth s).
Definition media_true (m : gmap Z storedMedia) : Prop := forall s x, m !! s = Some x -> in_u32 s /\ same_media x s.

Lemma xor_members_spec m ss len pt ts sr p : media_true m -> Forall in_u32 ss ->
  exists p', xor_members m ss len pt ts sr p =
    (Z.lxor len (xorz flen (present_of m ss)), Z.lxor pt (xorz fpt (present_of m ss)), Z.lxor ts (xorz fts (present_of m ss)),
     match present_of m ss with [] => sr | _ => ssrc end, p') /\
    length p' = length p /\ forall j, (j < length p)%nat -> byte_at j p' = Z.lxor (byte_at j p) (xorz (fbyte j) (present_of m ss)).
Proof.
  intros Hm Hss. revert len pt ts sr p. induction Hss as [|s ss Hs Hss IH]; intros len pt ts sr p; cbn [xor_members].
  - exists p. cbn. rewrite !Z.lxor_0_r. split_and!; [done..|]. intros j _. by rewrite Z.lxor_0_r.
  - unfold present_of in *. rewrite filter_cons. destruct (m !! s) as [x|] eqn:Hx.
    + destruct (Hm s x Hx) as [_ (E1 & E2 & E3 & E4)]. rewrite decide_True by (by exists x).
      destruct (IH (Z.lxor len (u16 (zlen (sm_payload x)))) (Z.lxor pt (Z.land (sm_pt x) 127)) (Z.lxor ts (sm_ts x)) (sm_ssrc x) (xor_into p (sm_payload x))) as (p' & -> & Hl & Hb).
      exists p'. rewrite E1, E2, E3, E4. fold (flen s). rewrite (proj1 (flen_u16 s Hs)), !Z.lxor_assoc. cbn [xorz foldr].
      split; [|split; [by rewrite Hl, length_xor_into|]].
      * by destruct (filter _ ss).
      * intros j Hj. rewrite Hb by (by rewrite length_xor_into). rewrite byte_at_xor_into, E4 by done. by rewrite Z.lxor_assoc.
    + rewrite decide_False by (intros [? ?]; done). apply IH.
Qed.

(** A recovered packet is the packet of the stream with that number. *)
Definition rec_true (r : Recovered) : Prop :=
  in_u32 (r_Seq r) /\ r_Timestamp r = fts (r_Seq r) /\ r_PayloadType r = fpt (r_Seq r) /\ r_SSRC r = ssrc /\
  r_Payload r = sm_payload (truth (r_Seq r)).

Lemma payload_ext (p q : bytes) n : zlen q <= Z.of_nat n -> length p = n -> (forall j, (j < n)%nat -> byte_at j p = byte_at j q) -> take (length q) p = q.
Proof.
  intros Hq Hp H. unfold zlen in Hq. apply list_eq. intros j. destruct (decide (j < length q)%nat) as [Hj|Hj].
  - rewrite lookup_take_lt by done. specialize (H j ltac:(lia)). unfold byte_at in H.
    destruct (lookup_lt_is_Some_2 p j) as [x Hx]; [lia|]. destruct (lookup_lt_is_Some_2 q j) as [y Hy]; [done|]. rewrite Hx, Hy in H |- *. cbn in H. by subst.
  - rewrite lookup_take_ge by lia. symmetry. by apply lookup_ge_None_2; lia.
Qed.

(** Recovery of the one missing member. *)
Lemma recover_value m f x : media_true m -> fec_true f -> missing_of m (members f) = [x] ->
  in_u32 x /\ exists p, xor_members m (members f) (lengthRec f) (ptRec f) (tsRec f) 0 (padded psz (sf_payload f)) = (flen x, fpt x, fts x, ssrc, p) /\
    take (Z.to_nat (flen x)) p = sm_payload (truth x).
Proof.
  intros Hm Hf Hx. pose proof (missing_perm m (members f)) as Hperm. rewrite Hx in Hperm. cbn [app] in Hperm.
  assert (Hall : Forall in_u32 (members f)) by (rewrite members_seqs; apply seqs_u32).
  assert (Hxu : in_u32 x). { rewrite Forall_forall in Hall. apply Hall. rewrite Hperm. by left. }
  split; [done|]. pose proof Hf as [_ _ Hc _ El Ep Et Epl].
  destruct (acc_xor (sf_base f) (stride f) (count f) ltac:(lia)) as (A1 & A2 & A3 & A4). rewrite <-members_seqs in A1, A2, A3, A4.
  destruct (acc_fields psz truth (sf_base f) (stride f) (count f) ltac:(lia)) as (_ & _ & Hplen).
  assert (Epad : padded psz (sf_payload f) = sf_payload f).
  { unfold padded. rewrite Epl, take_app_le by lia. by rewrite take_ge by lia. }
  rewrite Epad. destruct (xor_members_spec m (members f) (lengthRec f) (ptRec f) (tsRec f) 0 (sf_payload f) Hm Hall) as (p & -> & Hl & Hb).
  assert (Hne : present_of m (members f) <> []).
  { intros E. rewrite E in Hperm. apply Permutation_length in Hperm. rewrite members_seqs in Hperm. unfold seqs in Hperm.
    rewrite length_fmap, length_seqZ in Hperm. cbn in Hperm. lia. }
  exists p. split.
  - rewrite El, Ep, Et, A1, A2, A3, !(xor_cancel _ x _ _ Hperm). by destruct (present_of m (members f)).
  - assert (Hlen : length p = Z.to_nat psz) by (rewrite Hl, Epl; lia).
    unfold flen, zlen. rewrite Nat2Z.id. apply (payload_ext _ _ (length p)); [destruct (Htyped x Hxu); lia|done|].
    intros j Hj. rewrite Hb by (rewrite <-Hl; done). rewrite Epl, A4 by lia. by rewrite (xor_cancel _ x _ _ Hperm).
Qed.

(** ** What the recovery loop computes *)

(** A group older than the window, and one with a member not yet sent. *)
Definition aged (d : Decoder) (f : storedFEC) : Prop := seqDiff (seqAdd (lastSeq d) (- window d)) (sf_base f) < 0.
Definition ahead (d : Decoder) (f : storedFEC) : Prop := 0 < seqDiff (lastSeq d) (seqAdd (sf_base f) ((count f - 1) * stride f)).

(** A packet that may be recovered: a member of a group that is all in the window and sent, once some media has arrived. *)
Definition in_reach (d : Decoder) (r : Recovered) : Prop :=
  (exists f, fec_true f /\ ~ aged d f /\ ~ ahead d f /\ r_Seq r ∈ members f) /\ exists y, is_Some (media d !! y).

(** [d'] is [d] with the packets [new] recovered. *)
Record grows (d d' : Decoder) (new : list Recovered) : Prop := {
  gr_state : d' = d <| d_out := d_out d ++ new |> <| media := media d' |>;
  gr_media : media_true (media d');
  gr_true : Forall rec_true new;
  gr_reach : Forall (in_reach d) new;
  gr_keys : forall s, is_Some (media d' !! s) <-> is_Some (media d !! s) \/ s ∈ r_Seq <$> new }.

Lemma grows_refl d : media_true (media d) -> grows d d [].
Proof. intros Hm. split; [destruct d; cbn; by rewrite app_nil_r|done|constructor|constructor|]. intros s. cbn. rewrite elem_of_nil. tauto. Qed.

Lemma grows_trans d1 d2 d3 n1 n2 : grows d1 d2 n1 -> grows d2 d3 n2 -> grows d1 d3 (n1 ++ n2).
Proof.
  intros [E1 M1 T1 W1 K1] [E2 M2 T2 W2 K2]. split; [|done|by apply Forall_app| |].
  - rewrite E2 at 1. rewrite E1. cbn. by rewrite app_assoc.
  - apply Forall_app. split; [done|]. eapply Forall_impl; [exact W2|]. intros r [(f & Hf & Ha & Hh & Hr) (y & Hy)]. split.
    + exists f. unfold aged, ahead in *. rewrite E1 in Ha, Hh. done.
    + apply K1 in Hy as [Hy|Hy]; [by exists y|]. apply list_elem_of_fmap in Hy as (r1 & _ & Hr1). rewrite Forall_forall in W1. by destruct (W1 r1 Hr1).
  - intros s. rewrite K2, K1, fmap_app, elem_of_app. tauto.
Qed.

Definition missing (d : Decoder) (f : storedFEC) : list Z := missing_of (media d) (members f).

(** A group marked done needs nothing more; one that is not cannot be recovered yet. *)
Definition done_ok (d : Decoder) (f : storedFEC) : Prop := done f = true -> aged d f \/ missing d f = [].
Definition settled (d : Decoder) (f : storedFEC) : Prop :=
  done_ok d f /\ (done f = false -> ahead d f \/ (2 <= length (missing d f))%nat).

Lemma grows_frame d d' new : grows d d' new -> lastSeq d' = lastSeq d /\ window d' = window d /\ d_payloadSize d' = d_payloadSize d /\ d_cfg d' = d_cfg d /\
  fecs d' = fecs d /\ haveSeq d' = haveSeq d /\ maxFECs d' = maxFECs d /\ d_out d' = d_out d ++ new.
Proof. intros [E _ _ _ _]. rewrite E. done. Qed.

Lemma missing_grows d d' new f x : grows d d' new -> x ∈ missing d' f -> x ∈ missing d f.
Proof.
  intros [_ _ _ _ K]. unfold missing, missing_of. rewrite !list_elem_of_filter. intros [Hx Hin]. split; [|done].
  apply eq_None_not_Some. intros Hs. assert (is_Some (media d' !! x)) as [y Hy] by (apply K; by left). by rewrite Hx in Hy.
Qed.

Lemma done_ok_grows d d' new f : grows d d' new -> done_ok d f -> done_ok d' f.
Proof.
  intros Hg Hd H. destruct (Hd H) as [Ha|Hm]; [left|right].
  - unfold aged in *. destruct (grows_frame _ _ _ Hg) as (-> & -> & _). done.
  - destruct (missing d' f) as [|x l] eqn:E; [done|]. assert (x ∈ missing d f) as Hx; [|by rewrite Hm in Hx; apply elem_of_nil in Hx].
    eapply missing_grows; [done|]. rewrite E. by left.
Qed.

(** A group with one member missing has another. *)
Lemma present_some f d : fec_true f -> length (missing d f) = 1%nat -> exists y, is_Some (media d !! y).
Proof.
  intros Hf Hl. destruct (present_of (media d) (members f)) as [|y l] eqn:E.
  - pose proof (missing_perm (media d) (members f)) as Hp. rewrite E, app_nil_r in Hp. apply Permutation_length in Hp. fold (missing d f) in Hp.
    rewrite members_seqs in Hp. unfold seqs in Hp. rewrite length_fmap, length_seqZ in Hp. destruct Hf as [_ _ Hc _ _ _ _ _]. lia.
  - assert (Hy : y ∈ present_of (media d) (members f)) by (rewrite E; by left). unfold present_of in Hy. apply list_elem_of_filter in Hy as [Hy _]. by exists y.
Qed.

Lemma tryRecover_spec f d : media_true (media d) -> fec_true f -> d_payloadSize d = psz -> done_ok d f ->
  exists r f' d' new, tryRecover f d = (r, f', d') /\ grows d d' new /\ done_ok d' f' /\ (f' = f \/ f' = f <| done := true |>) /\
    (r = false -> d' = d /\ new = [] /\ settled d f') /\
    (~ aged d f -> ~ ahead d f -> (length (missing d f) <= 1)%nat -> missing d' f = []).
Proof.
  intros Hm Hf Hp Hd. unfold tryRecover. destruct (done f) eqn:Ed.
  { exists false, f, d, []. split; [done|]. split_and!; [by apply grows_refl|done|by left| |].
    - intros _. split; [done|]. split; [done|]. split; [done|]. intros E. congruence.
    - intros Ha _ _. by destruct (Hd Ed). }
  destruct (Z.ltb_spec (seqDiff (seqAdd (lastSeq d) (- window d)) (sf_base f)) 0) as [Ha|Ha].
  { eexists false, _, d, []. split; [done|]. split_and!; [by apply grows_refl|by left|by right| |intros Hn; by destruct Hn].
    intros _. split; [done|]. split; [done|]. split; [by left|done]. }
  destruct (Z.ltb_spec 0 (seqDiff (lastSeq d) (seqAdd (sf_base f) ((count f - 1) * stride f)))) as [Hh|Hh].
  { exists false, f, d, []. split; [done|]. split_and!; [by apply grows_refl|done|by left| |].
    - intros _. split; [done|]. split; [done|]. split; [done|by left].
    - intros _ Hn. by destruct Hn. }
  rewrite find_missing_spec. fold (missing d f). destruct (missing d f) as [|x [|y l]] eqn:Emiss.
  - eexists false, _, d, []. split; [done|]. split_and!; [by apply grows_refl|by right|by right| |done].
    intros _. split; [done|]. split; [done|]. split; [by right|done].
  - cbn [Z.eqb]. destruct (recover_value (media d) f x Hm Hf Emiss) as (Hx & p & Ex & Ep). rewrite Hp, Ex.
    destruct (Z.ltb_spec psz (flen x)) as [Hlt|_]; [pose proof (flen_u16 x Hx); lia|]. cbv zeta. rewrite Ep. cbn [r_Payload].
    set (v := mkMedia (fts x) (fpt x) ssrc (sm_payload (truth x))).
    assert (Hv : same_media v x). { split_and!; try done. cbn. unfold fpt. by rewrite <-Z.land_assoc. }
    assert (Hg : grows d (d <| d_out ::= fun o => o ++ [mkRecovered x (fts x) (fpt x) ssrc (sm_payload (truth x))] |> <| media ::= <[x := v]> |>)
      [mkRecovered x (fts x) (fpt x) ssrc (sm_payload (truth x))]).
    { split; [done| | | |].
      - intros s w. cbn. rewrite lookup_insert. case_decide; [subst; by intros [= <-]|]. apply Hm.
      - repeat constructor; apply Hx.
      - constructor; [|constructor]. split; [|apply (present_some f); [done|by rewrite Emiss]]. exists f. split_and!; [done|unfold aged; lia|unfold ahead; lia|]. cbn.
        assert (Hin : x ∈ missing d f) by (rewrite Emiss; by left). unfold missing, missing_of in Hin. by apply list_elem_of_filter in Hin as [_ ?].
      - intros s. cbn. rewrite lookup_insert, list_elem_of_singleton. case_decide; [subst; split; [by right|by eexists]|].
        split; [by left|by intros [?| ->]]. }
    assert (Hnil : missing (d <| d_out ::= fun o => o ++ [mkRecovered x (fts x) (fpt x) ssrc (sm_payload (truth x))] |> <| media ::= <[x := v]> |>) f = []).
    { match goal with |- ?t = [] => destruct t as [|z l] eqn:El; [done|] end. exfalso.
      assert (Hz : z ∈ [x]). { rewrite <-Emiss. eapply missing_grows; [exact Hg|]. rewrite El. by left. }
      apply list_elem_of_singleton in Hz as ->. assert (x ∈ x :: l) as Hin by (by left). rewrite <-El in Hin.
      unfold missing, missing_of in Hin. apply list_elem_of_filter in Hin as [Hin _]. cbn in Hin. by rewrite lookup_insert_eq in Hin. }
    do 4 eexists. split; [done|]. split_and!; [exact Hg| |by right|done|by intros].
    intros _. by right.
  - exists false, f, d, []. split; [done|]. split_and!; [by apply grows_refl|done|by left| |].
    + intros _. split; [done|]. split; [done|]. split; [done|]. intros _. right. rewrite Emiss. cbn. lia.
    + intros _ _ Hlen. cbn in Hlen. lia.
Qed.

(** [f'] is [f], perhaps marked done. *)
Definition marked (f f' : storedFEC) : Prop := f' = f \/ f' = f <| done := true |>.

Lemma marked_trans f1 f2 f3 : marked f1 f2 -> marked f2 f3 -> marked f1 f3.
Proof. intros [-> | ->] [-> | ->]; [by left|by right|by right|by right]. Qed.

Lemma fec_true_marked f f' : marked f f' -> fec_true f -> fec_true f'.
Proof. intros [-> | ->]; [done|]. by intros []. Qed.

Lemma frame_conds d d' new f : grows d d' new -> (aged d' f <-> aged d f) /\ (ahead d' f <-> ahead d f).
Proof. intros Hg. destruct (grows_frame _ _ _ Hg) as (E1 & E2 & _). unfold aged, ahead. by rewrite E1, E2. Qed.

Lemma missing_nil_grows d d' new f : grows d d' new -> missing d f = [] -> missing d' f = [].
Proof.
  intros Hg E. destruct (missing d' f) as [|x l] eqn:E'; [done|]. assert (x ∈ missing d f) as Hx; [|by rewrite E in Hx; apply elem_of_nil in Hx].
  eapply missing_grows; [done|]. rewrite E'. by left.
Qed.

Lemma missing_length_grows d d' new f : grows d d' new -> (length (missing d' f) <= length (missing d f))%nat.
Proof.
  intros Hg. unfold missing, missing_of. induction (members f) as [|s l IH]; [done|]. rewrite !filter_cons.
  destruct (decide (media d !! s = None)) as [E|E], (decide (media d' !! s = None)) as [E'|E']; cbn [length]; try lia.
  exfalso. apply E. apply eq_None_not_Some. intros Hs. assert (is_Some (media d' !! s)) as [v Hv] by (apply (gr_keys _ _ _ Hg); by left). by rewrite E' in Hv.
Qed.

Definition resolves (d d' : Decoder) (f : storedFEC) : Prop :=
  ~ aged d f -> ~ ahead d f -> (length (missing d f) <= 1)%nat -> missing d' f = [].

Lemma recover_pass_spec fs d : media_true (media d) -> Forall fec_true fs -> d_payloadSize d = psz -> Forall (done_ok d) fs ->
  exists r fs' d' new, recover_pass fs d = (r, fs', d') /\ grows d d' new /\ Forall2 marked fs fs' /\ Forall (done_ok d') fs' /\
    (r = false -> d' = d /\ Forall (settled d) fs') /\ Forall (resolves d d') fs.
Proof.
  intros Hm Hfs. revert d Hm. induction Hfs as [|f fs Hf Hfs IH]; intros d Hm Hp Hd; cbn [recover_pass].
  - exists false, [], d, []. split; [done|]. split_and!; [by apply grows_refl|constructor|constructor|intros _; split; [done|constructor]|constructor].
  - inversion Hd as [|? ? Hd1 Hd2]; subst. destruct (tryRecover_spec f d Hm Hf Hp Hd1) as (r1 & f1 & d1 & n1 & E1 & G1 & D1 & M1 & S1 & R1).
    rewrite E1. destruct (grows_frame _ _ _ G1) as (_ & _ & Ep & _).
    destruct (IH d1) as (r2 & fs2 & d2 & n2 & E2 & G2 & M2 & D2 & S2 & R2); [apply G1|congruence| |].
    { eapply Forall_impl; [exact Hd2|]. intros g. by apply (done_ok_grows _ _ _ _ G1). }
    rewrite E2. exists (r1 || r2), (f1 :: fs2), d2, (n1 ++ n2). split; [done|]. split_and!.
    + by eapply grows_trans.
    + by constructor.
    + constructor; [by apply (done_ok_grows _ _ _ _ G2)|done].
    + intros E. apply orb_false_iff in E as [-> ->]. destruct (S1 eq_refl) as (-> & _ & ?). destruct (S2 eq_refl) as (-> & ?). split; [done|by constructor].
    + constructor.
      * intros Ha Hh Hl. eapply missing_nil_grows; [exact G2|]. by apply R1.
      * eapply Forall_impl; [exact R2|]. intros g Hg Ha Hh Hl. destruct (frame_conds _ _ _ g G1). apply Hg; [tauto|tauto|].
        pose proof (missing_length_grows _ _ _ g G1). lia.
Qed.

Lemma grows_fecs d d' new fs : grows d d' new -> grows (d <| fecs := fs |>) (d' <| fecs := fs |>) new.
Proof. intros [E M T W K]. split; [|done..]. rewrite E at 1. done. Qed.

Lemma recover_loop_spec fuel d d' : recover_loop fuel d = Some d' -> media_true (media d) -> Forall fec_true (fecs d) -> d_payloadSize d = psz -> Forall (done_ok d) (fecs d) ->
  exists new, grows (d <| fecs := fecs d' |>) d' new /\ Forall2 marked (fecs d) (fecs d') /\ Forall (settled d') (fecs d') /\ Forall (resolves d d') (fecs d).
Proof.
  revert d. induction fuel as [|fuel IH]; intros d; [done|]. cbn [recover_loop]. intros E Hm Hf Hp Hd.
  destruct (recover_pass_spec (fecs d) d Hm Hf Hp Hd) as (r & fs & d1 & n1 & Ep & G1 & M1 & D1 & S1 & R1). rewrite Ep in E. destruct r.
  - assert (Hf1 : Forall fec_true fs). { clear -M1 Hf. induction M1; [constructor|]. inversion Hf; subst. constructor; [by eapply fec_true_marked|by apply IHM1]. }
    destruct (grows_frame _ _ _ G1) as (E1 & E2 & E3 & _).
    destruct (IH (d1 <| fecs := fs |>)) as (n2 & G2 & M2 & S2 & R2); [done|apply G1|done|cbn; congruence|done|]. exists (n1 ++ n2). split_and!.
    + eapply grows_trans; [apply (grows_fecs _ _ _ (fecs d') G1)|exact G2].
    + cbn in M2. clear -M1 M2. revert M2. generalize (fecs d'). induction M1 as [|f g fs gs H1 H2 IH']; intros l M2; inversion M2; subst; constructor; [by eapply marked_trans|by apply IH'].
    + done.
    + eapply Forall_impl; [exact R1|]. intros f Hr Ha Hh Hl. eapply (missing_nil_grows _ _ n2 f); [exact G2|]. by apply Hr.
  - injection E as <-. destruct (S1 eq_refl) as (-> & HS). exists []. split_and!; [|done..]. by apply grows_refl.
Qed.
End stream.
End fecdec.
