(* ===== verification/FecStream.v ===== *)
(** * A protected stream over a lossy path (src/internal/fec/fec.go)

    The encoder's FEC packets and the stream's media reach the decoder in any order, with any losses and copies.  The decoder then
    recovers only packets of the stream, keeps its state bounded, and leaves no group of which a single member is missing. *)

From stdpp Require Import gmap.
From S2P Require Import Prelude Bytes Seq FecHeader Fec FecEncoder FecDecoder.

Module fecstream.
Import fec fecm fecenc fecdec.

(** The matrices whose geometry fits the header. *)
Definition dims_ok (cfg : Config) : Prop :=
  let mx := match Var cfg with Variant20221 => 255 | Variant20225 => 1023 end in 1 <= Cols cfg <= mx /\ 1 <= Rows cfg <= mx.

Lemma filter_iff_in {A} (P Q : A -> Prop) `{!forall x, Decision (P x), !forall x, Decision (Q x)} (l : list A) :
  (forall x, x ∈ l -> P x <-> Q x) -> filter P l = filter Q l.
Proof.
  induction l as [|x l IH]; intros Hl; [done|]. rewrite !filter_cons, IH by (intros y Hy; apply Hl; by right). specialize (Hl x ltac:(by left)).
  destruct (decide (P x)), (decide (Q x)); tauto || done.
Qed.

Lemma length_List_filter {A} (p : A -> bool) (l : list A) : (length (List.filter p l) <= length l)%nat.
Proof. induction l as [|x l IH]; cbn; [done|]. destruct (p x); cbn; lia. Qed.

Section stream.
Context (cfg : Config) (psz isn ssrc : Z) (truth : Z -> storedMedia).
Context (Hdims : dims_ok cfg) (Hpsz : 0 <= psz <= 65535) (Htyped : forall s, in_u32 s -> media_typed psz ssrc (truth s)).

Definition group_stride (dir : Direction) : Z := match dir with Column => Cols cfg | Row => 1 end.
Definition group_count (dir : Direction) : Z := match dir with Column => Rows cfg | Row => Cols cfg end.
Definition near (d : Decoder) (b : Z) : Prop := 2 * Z.abs (seqDiff (lastSeq d) b) < 2 ^ span_bits (Var cfg).

Lemma dims_small : 1 <= Cols cfg <= 1023 /\ 1 <= Rows cfg <= 1023.
Proof. revert Hdims. unfold dims_ok. destruct (Var cfg); lia. Qed.

Lemma acc_ranges b str n : 0 <= n -> let g := acc psz truth b str n in in_u16 (lengthClip g) /\ 0 <= ptClip g < 2 ^ 7 /\ in_u32 (tsClip g).
Proof.
  intros Hn. cbv zeta. destruct (acc_xor psz ssrc truth Hpsz Htyped b str n Hn) as (-> & -> & -> & _).
  assert (Hin : forall s, s ∈ seqs b str n -> in_u32 s). { apply Forall_forall, seqs_u32. }
  split_and!.
  - apply (xorz_bound 16); [lia|]. intros s Hs. pose proof (flen_u16 psz ssrc truth Hpsz Htyped s (Hin s Hs)). lia.
  - apply (xorz_bound 7); [lia|]. intros s _. unfold fpt. change 127 with (Z.ones 7). rewrite Z.land_ones by lia. apply Z.mod_pos_bound. lia.
  - apply (xorz_bound 7); [lia|]. intros s _. unfold fpt. change 127 with (Z.ones 7). rewrite Z.land_ones by lia. apply Z.mod_pos_bound. lia.
  - apply (xorz_bound 32); [lia|]. intros s Hs. destruct (Htyped s (Hin s Hs)) as [H _ _ _]. exact H.
Qed.

Lemma mask7_id x : 0 <= x < 2 ^ 7 -> Z.land x 127 = x.
Proof. intros H. change 127 with (Z.ones 7). rewrite Z.land_ones by lia. by apply Z.mod_small. Qed.

Lemma mask10_id x : 0 <= x <= 1023 -> Z.land (u16 x) na10Max = x.
Proof.
  intros H. assert (u16 x = x) as -> by (apply (uwrap_id 16); lia). unfold na10Max. change 1023 with (Z.ones 10). rewrite Z.land_ones by lia. apply Z.mod_small. lia.
Qed.

(** The decoder reads back the group of a FEC packet near its window. *)
Lemma parse_fec_packet dir b d : d_cfg d = cfg -> in_u32 (lastSeq d) -> in_u32 b -> near d b ->
  let g := acc psz truth b (group_stride dir) (group_count dir) in
  parse_fec (pk_Data (fec_packet cfg psz isn truth dir b)) d =
    Ok (mkFEC b (group_stride dir) (group_count dir) (lengthClip g) (ptClip g) (tsClip g) (payloadClip g) false).
Proof.
  intros Hc Hl Hb Hn g. pose proof dims_small as [HC HR]. unfold near in Hn. rewrite <-Hc in Hn. pose proof (widen_spec d b Hl Hb Hn) as Hw. rewrite Hc in Hw.
  assert (Hcnt : 0 <= group_count dir) by (destruct dir; cbn; lia).
  destruct (acc_ranges b (group_stride dir) (group_count dir) Hcnt) as (H1 & H2 & H3). fold g in H1, H2, H3.
  destruct (acc_fields psz truth b (group_stride dir) (group_count dir) Hcnt) as (Hbase & _ & _). fold g in Hbase.
  assert (Hg : match dir with Column => acc psz truth b (Cols cfg) (Rows cfg) | Row => acc psz truth b 1 (Cols cfg) end = g) by (by destruct dir).
  assert (Hgeo : match dir with Row => (1, Cols cfg) | Column => (Cols cfg, Rows cfg) end = (group_stride dir, group_count dir)) by (by destruct dir).
  unfold parse_fec, fec_packet, emit. rewrite Hc, Hg. cbn [e_cfg NewEncoder]. rewrite Hgeo. cbv beta iota. destruct (Var cfg) eqn:Ev.
  - assert (Hge : 0 <= base g) by (rewrite Hbase; unfold in_u32 in Hb; lia). pose proof (base24_set (base g) Hge) as H24.
    destruct (setBase24 (base g)) as [lo ext]. destruct H24 as (E24 & Hlo & Hext). cbn [pk_Data].
    rewrite ParseHeader_enc by (split; [exact Hlo|exact H1|unfold in_u8; cbn [PTRecovery]; lia|exact H3]). cbn [mbind res_bind]. rewrite slc_from_app by (unfold header_AppendTo; zlens; done).
    cbn [mbind res_bind]. unfold norm, base24. cbn [SNBaseExt SNBase Offset NA LengthRecovery PTRecovery TSRecovery].
    rewrite E24, Hbase. cbn [span_bits] in Hw. rewrite Hw, !mask7_id by (rewrite ?mask7_id; done).
    assert (Hu : forall x, 0 <= x <= 255 -> u8 x = x) by (intros; apply (uwrap_id 8); lia).
    unfold dims_ok in Hdims. rewrite Ev in Hdims. rewrite !Hu by (destruct dir; cbn; lia). done.
  - cbn [pk_Data]. rewrite ParseHeader5_enc by (split; cbn [CCRecovery PTRecovery5 SNBase5 TSRecovery5 LengthRecovery5 Offset5 NA5]; first [exact H1|exact H3|unfold in_u8; lia|apply (uwrap_range 16); lia]).
    cbn [mbind res_bind]. rewrite slc_from_app by (unfold header5_AppendTo; zlens; done). cbn [mbind res_bind].
    unfold norm5. cbn [SNBase5 Offset5 NA5 LengthRecovery5 PTRecovery5 TSRecovery5].
    rewrite Hbase. cbn [span_bits] in Hw. change (u16 b) with (b mod 2 ^ 16). rewrite Hw, !mask7_id by (rewrite ?mask7_id; done).
    rewrite !mask10_id by (destruct dir; cbn; lia). done.
Qed.

Lemma group_true dir b lr pr tr pl : in_u32 b -> 2 <= group_count dir -> let g := acc psz truth b (group_stride dir) (group_count dir) in
  lr = lengthClip g -> pr = ptClip g -> tr = tsClip g -> pl = payloadClip g ->
  fec_true cfg psz truth (mkFEC b (group_stride dir) (group_count dir) lr pr tr pl false).
Proof. intros Hb Hcnt g -> -> -> ->. pose proof dims_small. split; cbn; try done; destruct dir; unfold matrixSize; cbn in *; nia. Qed.

(** ** Runs *)

Inductive op := OpMedia (s : Z) | OpFEC (dir : Direction) (b : Z).

Definition step (o : op) (d : Decoder) : option (res fecError (list Recovered) * Decoder) :=
  match o with
  | OpMedia s => '(out, d) ← PushMedia s (sm_ts (truth s)) (sm_pt (truth s)) (sm_ssrc (truth s)) (sm_payload (truth s)) d; Some (Ok out, d)
  | OpFEC dir b => PushFEC (pk_Data (fec_packet cfg psz isn truth dir b)) d
  end.

(** What may arrive: media within 2^30 of the newest, FEC packets close enough for their truncated base to be unambiguous. *)
Definition op_ok (o : op) (d : Decoder) : Prop :=
  match o with
  | OpMedia s => in_u32 s /\ Z.abs (seqDiff (lastSeq d) s) < 2 ^ 30
  | OpFEC dir b => in_u32 b /\ near d b
  end.

(** ** The invariant *)

Definition win : Z := matrixSize cfg * 3 + Cols cfg + 8.
Definition fec_cap : Z := (Cols cfg + Rows cfg) * 4 + 16.

(** Media at most [back] behind the newest, FEC groups from [back] behind it to [2^30 + 2^24] ahead. *)
Record placed (back : Z) (d : Decoder) : Prop := {
  pl_keys : forall s, is_Some (media d !! s) -> exists i, 0 <= i <= back /\ s = u32 (lastSeq d - i);
  pl_fecs : Forall (fun f => exists e, - back <= e <= 2 ^ 30 + 2 ^ 24 /\ sf_base f = u32 (lastSeq d + e)) (fecs d) }.

Record dec_true (d : Decoder) : Prop := {
  dt_cfg : d_cfg d = cfg;
  dt_psz : d_payloadSize d = psz;
  dt_win : window d = win;
  dt_cap : maxFECs d = fec_cap;
  dt_last : in_u32 (lastSeq d);
  dt_media : media_true ssrc truth (media d);
  dt_fecs : Forall (fec_true cfg psz truth) (fecs d);
  dt_done : Forall (done_ok d) (fecs d) }.

(** Between the calls: everything is in the window, and no stored group can be recovered. *)
Record dec_inv (d : Decoder) : Prop := {
  di_true : dec_true d;
  di_placed : placed win d;
  di_settled : Forall (settled d) (fecs d);
  di_count : zlen (fecs d) <= fec_cap;
  di_start : haveSeq d = false -> media d = ∅ /\ Forall (fun f => seqDiff (lastSeq d) (sf_base f) <= 2 ^ 24) (fecs d) }.

Lemma win_bounds : matrixSize cfg + 8 <= win < 2 ^ 22 /\ 1 <= matrixSize cfg < 2 ^ 20.
Proof. pose proof dims_small. unfold win, matrixSize. split; nia. Qed.

Lemma floor_off d e : window d = win -> - 2 ^ 31 + win + 8 <= e <= 2 ^ 31 - win - 8 -> seqDiff (seqAdd (lastSeq d) (- window d)) (u32 (lastSeq d + e)) = e + win.
Proof.
  intros -> He. pose proof win_bounds. unfold seqAdd, Num32.Add. rewrite u32_add_r. rewrite seqDiff_off by lia. lia.
Qed.

Lemma last_off d e : in_u32 (lastSeq d) -> Z.abs e < 2 ^ 31 -> seqDiff (lastSeq d) (u32 (lastSeq d + e)) = e.
Proof. intros Hl He. rewrite <-(u32_id (lastSeq d)) at 1 by done. rewrite <-(Z.add_0_r (lastSeq d)) at 1. rewrite seqDiff_off by lia. lia. Qed.

(** The members of a group at offset [e]. *)
Lemma member_off d f e x : fec_true cfg psz truth f -> sf_base f = u32 (lastSeq d + e) -> x ∈ members f ->
  exists t, 0 <= t <= (count f - 1) * stride f /\ x = u32 (lastSeq d + (e + t)).
Proof.
  intros [_ Hs Hc _ _ _ _ _] Hb. rewrite members_seqs. unfold seqs. rewrite list_elem_of_fmap. intros (i & -> & Hi). apply elem_of_seqZ in Hi.
  exists (i * stride f). split; [nia|]. rewrite Hb, u32_add_l. f_equal. lia.
Qed.

Lemma newest_off d f e : in_u32 (lastSeq d) -> fec_true cfg psz truth f -> sf_base f = u32 (lastSeq d + e) -> Z.abs e <= 2 ^ 30 + 2 ^ 25 ->
  seqDiff (lastSeq d) (seqAdd (sf_base f) ((count f - 1) * stride f)) = e + (count f - 1) * stride f.
Proof.
  intros Hl [_ Hs Hc Hsp _ _ _ _] Hb He. pose proof win_bounds. rewrite Hb, seqAdd_off, last_off by (done || nia). done.
Qed.

(** Recovered packets lie in the window, whatever the positions of the groups. *)
Lemma reach_off d r : in_u32 (lastSeq d) -> window d = win -> in_reach cfg psz truth d r -> exists i, 0 <= i <= win /\ r_Seq r = u32 (lastSeq d - i).
Proof.
  intros Hl Hw [(f & Hf & Ha & Hh & Hr) _]. unfold aged, ahead in *. pose proof win_bounds as HW. pose proof Hf as [Hb Hs Hc Hsp _ _ _ _].
  set (lo := seqAdd (lastSeq d) (- window d)) in *. set (a := seqDiff lo (sf_base f)) in *.
  assert (Hbase : sf_base f = u32 (lastSeq d + (a - win))).
  { rewrite <-(distance_add 32 lo (sf_base f) Hb). change (uwrap 32) with u32. fold (Num32.Distance lo (sf_base f)). fold (seqDiff lo (sf_base f)). fold a.
    unfold lo, seqAdd, Num32.Add. rewrite u32_add_r, u32_add_l, Hw. f_equal. lia. }
  pose proof (distance_range 32 lo (sf_base f)) as Ha2. fold (Num32.Distance lo (sf_base f)) in Ha2. fold (seqDiff lo (sf_base f)) in Ha2. fold a in Ha2.
  rewrite Hbase, seqAdd_off, last_off in Hh by (done || nia).
  destruct (member_off d f (a - win) (r_Seq r) Hf Hbase Hr) as (t & Ht & ->). exists (win - a - t). split; [lia|]. f_equal. lia.
Qed.

(** ** Recovery and eviction keep it *)

Lemma marked_fields f f' : marked f f' -> sf_base f' = sf_base f /\ members f' = members f.
Proof. by intros [-> | ->]. Qed.

Lemma Forall_marked (P : storedFEC -> Prop) fs fs' : (forall f f', marked f f' -> P f -> P f') -> Forall2 marked fs fs' -> Forall P fs -> Forall P fs'.
Proof. intros HP HM. induction HM; intros H'; inversion H'; subst; constructor; [by eapply HP|by apply IHHM]. Qed.

Lemma recover_inv back d : dec_true d -> placed back d -> win <= back ->
  exists d' new, recoverAll d = Some d' /\ grows cfg psz ssrc truth (d <| fecs := fecs d' |>) d' new /\ dec_true d' /\ placed back d' /\
    Forall (settled d') (fecs d') /\ Forall2 marked (fecs d) (fecs d') /\ Forall (resolves d d') (fecs d).
Proof.
  intros [T1 T2 T3 T4 T5 T6 T7 T8] [P1 P2] Hback. destruct (recoverAll_ends d) as [d' Ed]. exists d'.
  destruct (recover_loop_spec cfg psz ssrc truth Hpsz Htyped _ d d' Ed T6 T7 T2 T8) as (new & G & M & S & R). exists new.
  destruct (grows_frame _ _ _ _ _ _ _ G) as (E1 & E2 & E3 & E4 & _ & _ & E7 & _). cbn in E1, E2, E3, E4, E7.
  split; [done|]. split; [done|]. split_and!; [| |done..].
  - split; try congruence.
    + apply G.
    + eapply Forall_marked; [|exact M|exact T7]. apply fec_true_marked.
    + eapply Forall_impl; [exact S|]. by intros f [? _].
  - split.
    + intros s Hs. apply (gr_keys _ _ _ _ _ _ _ G) in Hs as [Hs|Hs].
      * destruct (P1 s Hs) as (i & Hi & ->). exists i. by rewrite E1.
      * apply list_elem_of_fmap in Hs as (r & -> & Hr). pose proof (gr_reach _ _ _ _ _ _ _ G) as W. rewrite Forall_forall in W.
        destruct (reach_off (d <| fecs := fecs d' |>) r) as (i & Hi & ->); [exact T5|exact T3|by apply W|]. exists i. split; [lia|]. by rewrite E1.
    + rewrite E1. eapply Forall_marked; [|exact M|exact P2]. intros f f' Hm (e & He & Hb). exists e. by destruct (marked_fields _ _ Hm) as [-> _].
Qed.

(** Eviction keeps the members of every group of the window. *)
Lemma missing_evict d f e : dec_true d -> placed (win + 2 ^ 30) d -> fec_true cfg psz truth f -> sf_base f = u32 (lastSeq d + e) -> - win <= e <= 2 ^ 30 + 2 ^ 24 ->
  missing (evict d) f = missing d f.
Proof.
  intros HT [P1 _] Hf Hb He. pose proof win_bounds as HW. unfold missing, missing_of. apply filter_iff_in. intros x Hx.
  destruct (member_off d f e x Hf Hb Hx) as (t & Ht & ->). cbn. rewrite map_lookup_filter_None. split; [|by left].
  intros [Hn|Hn]; [done|]. apply eq_None_not_Some. intros [v Hv]. specialize (Hn v Hv). cbn in Hn. apply Hn.
  pose proof Hf as [_ Hs Hc Hsp _ _ _ _]. rewrite floor_off; [lia|apply HT|nia].
Qed.

Lemma evict_inv d : dec_true d -> placed (win + 2 ^ 30) d -> Forall (settled d) (fecs d) ->
  dec_true (evict d) /\ placed win (evict d) /\ Forall (settled (evict d)) (fecs (evict d)).
Proof.
  intros HT HP HS. pose proof win_bounds as HW. pose proof HT as [T1 T2 T3 T4 T5 T6 T7 T8]. pose proof HP as [P1 P2].
  assert (Hkept : forall f, f ∈ fecs (evict d) -> f ∈ fecs d /\ exists e, - win <= e <= 2 ^ 30 + 2 ^ 24 /\ sf_base f = u32 (lastSeq d + e)).
  { intros f Hf. cbn in Hf. apply list_elem_of_In, filter_In in Hf as [Hf Hlo]. apply list_elem_of_In in Hf. split; [done|].
    rewrite Forall_forall in P2. destruct (P2 f Hf) as (e & He & Hb). exists e. split; [|done]. rewrite Hb, floor_off in Hlo by (done || lia). lia. }
  assert (Hset : Forall (settled (evict d)) (fecs (evict d))).
  { apply Forall_forall. intros f Hf. destruct (Hkept f Hf) as (Hf0 & e & He & Hb). rewrite Forall_forall in HS, T7. destruct (HS f Hf0) as [D1 D2].
    unfold settled, done_ok, aged, ahead in *. rewrite (missing_evict d f e HT HP (T7 f Hf0) Hb He). done. }
  split; [|split; [|done]].
  - split; try done.
    + intros s v Hv. cbn in Hv. apply map_lookup_filter_Some in Hv as [Hv _]. by apply T6.
    + apply Forall_forall. intros f Hf. destruct (Hkept f Hf) as [Hf0 _]. rewrite Forall_forall in T7. by apply T7.
    + eapply Forall_impl; [exact Hset|]. by intros f [? _].
  - split.
    + intros s [v Hv]. cbn in Hv. apply map_lookup_filter_Some in Hv as [Hv Hlo]. cbn in Hlo. destruct (P1 s ltac:(by eexists)) as (i & Hi & ->).
      exists i. split; [|done]. replace (lastSeq d - i) with (lastSeq d + - i) in Hlo by lia. rewrite floor_off in Hlo by (done || lia). lia.
    + apply Forall_forall. intros f Hf. destruct (Hkept f Hf) as (_ & e & He & Hb). by exists e.
Qed.

(** The end of every push that changes something. *)
Lemma settle d : dec_true d -> placed (win + 2 ^ 30) d -> zlen (fecs d) <= fec_cap -> d_out d = [] ->
  (haveSeq d = false -> media d = ∅ /\ Forall (fun f => seqDiff (lastSeq d) (sf_base f) <= 2 ^ 24) (fecs d)) ->
  exists d', recoverAll d = Some d' /\ dec_inv (evict d') /\ Forall (rec_true ssrc truth) (d_out (evict d')) /\
    (forall f x, f ∈ fecs d -> ~ aged d f -> ~ ahead d f -> missing d f = [x] -> x ∈ r_Seq <$> d_out (evict d')).
Proof.
  intros HT HP Hcap Hout Hst. pose proof win_bounds. destruct (recover_inv _ d HT HP ltac:(lia)) as (d' & new & E & G & HT' & HP' & HS & HM & HR).
  destruct (evict_inv d' HT' HP' HS) as (I1 & I2 & I3). exists d'. destruct (grows_frame _ _ _ _ _ _ _ G) as (E1 & E2 & _ & _ & _ & E6 & _ & E8). cbn in E1, E2, E6, E8.
  split; [done|]. split_and!.
  - split; [done|done|done| |].
    + pose proof (Forall2_length _ _ _ HM). cbn. pose proof (length_List_filter (fun f => 0 <=? seqDiff (seqAdd (lastSeq d') (- window d')) (sf_base f)) (fecs d')). unfold zlen in *. lia.
    + cbn. rewrite E6. intros Hh. destruct (Hst Hh) as [Hm Hf]. split.
      * assert (media d' = ∅) as ->; [|done]. apply map_empty. intros s. apply eq_None_not_Some. intros Hs.
        apply (gr_keys _ _ _ _ _ _ _ G) in Hs as [Hs|Hs]; cbn in Hs; [rewrite Hm, lookup_empty in Hs; by destruct Hs|].
        apply list_elem_of_fmap in Hs as (r & _ & Hr). pose proof (gr_reach _ _ _ _ _ _ _ G) as W. rewrite Forall_forall in W.
        destruct (W r Hr) as [_ (y & Hy)]. cbn in Hy. rewrite Hm, lookup_empty in Hy. by destruct Hy.
      * apply Forall_forall. intros f Hf'. apply list_elem_of_In, filter_In in Hf' as [Hf' _]. apply list_elem_of_In in Hf'. revert f Hf'. apply Forall_forall. rewrite E1.
        eapply Forall_marked; [|exact HM|exact Hf]. intros f f' Hmk. by destruct (marked_fields _ _ Hmk) as [-> _].
  - cbn. rewrite E8, Hout. apply G.
  - intros f x Hf Ha Hh Hx. cbn. rewrite E8, Hout. cbn [app]. rewrite Forall_forall in HR. pose proof (HR f Hf Ha Hh ltac:(rewrite Hx; cbn; lia)) as Hnil.
    assert (Hin : x ∈ missing d f) by (rewrite Hx; by left). unfold missing, missing_of in Hin. apply list_elem_of_filter in Hin as [Hn Hin].
    assert (Hs : is_Some (media d' !! x)).
    { destruct (media d' !! x) as [v|] eqn:Ev; [by eexists|]. assert (Hx' : x ∈ missing d' f) by (apply list_elem_of_filter; done). rewrite Hnil in Hx'. by apply elem_of_nil in Hx'. }
    apply (gr_keys _ _ _ _ _ _ _ G) in Hs as [[v Hv]|Hs]; [|done]. cbn in Hv. by rewrite Hn in Hv.
Qed.

(** ** The two calls *)

Lemma missing_of_mono (m m' : gmap Z storedMedia) ss : (forall s, is_Some (m !! s) -> is_Some (m' !! s)) -> missing_of m ss = [] -> missing_of m' ss = [].
Proof.
  intros Hs E. destruct (missing_of m' ss) as [|x l] eqn:E'; [done|]. exfalso. assert (Hx : x ∈ missing_of m' ss) by (rewrite E'; by left).
  unfold missing_of in *. apply list_elem_of_filter in Hx as [Hx Hin]. assert (Hn : x ∈ filter (fun s => m !! s = None) ss); [|rewrite E in Hn; by apply elem_of_nil in Hn].
  apply list_elem_of_filter. split; [|done]. apply eq_None_not_Some. intros H. destruct (Hs x H) as [v Hv]. by rewrite Hx in Hv.
Qed.

(** Stored groups are in the window. *)
Lemma not_aged d f : dec_inv d -> f ∈ fecs d -> ~ aged d f.
Proof.
  intros [HT [_ P2] _ _ _] Hf. rewrite Forall_forall in P2. destruct (P2 f Hf) as (e & He & Hb). unfold aged. pose proof win_bounds.
  rewrite Hb, floor_off; [lia|apply HT|lia].
Qed.

Lemma clear_out_inv d : dec_inv d -> dec_inv (d <| d_out := [] |>).
Proof. intros [[] [] ? ? ?]. split; [by split|by split|done..]. Qed.

(** The newest sequence moves: the state is placed around it. *)
Lemma fec_advance_inv s d : dec_inv d -> in_u32 s -> Z.abs (seqDiff (lastSeq d) s) < 2 ^ 30 ->
  let d1 := advance s d in
  dec_true d1 /\ placed (win + 2 ^ 30) d1 /\ haveSeq d1 = true /\ media d1 = media d /\ fecs d1 = fecs d /\ d_out d1 = d_out d /\
  (exists i, 0 <= i < 2 ^ 30 /\ s = u32 (lastSeq d1 - i)) /\ (is_Some (media d !! s) -> d1 = d).
Proof.
  intros HI Hs Hj. pose proof win_bounds as HW. pose proof HI as [[T1 T2 T3 T4 T5 T6 T7 T8] [P1 P2] HS HC HB]. set (j := seqDiff (lastSeq d) s) in *.
  assert (Es : u32 (lastSeq d + j) = s) by (apply (distance_add 32); apply Hs).
  assert (Hdone : forall f, f ∈ fecs d -> done f = true -> missing d f = []).
  { intros f Hf Hd. rewrite Forall_forall in T8. destruct (T8 f Hf Hd) as [Ha|]; [|done]. by destruct (not_aged d f HI Hf). }
  cbv zeta. unfold advance. fold j. destruct (negb (haveSeq d) || (0 <? j)) eqn:Ea.
  - assert (Hkey : forall x, is_Some (media d !! x) -> 0 < j).
    { intros x Hx. destruct (haveSeq d) eqn:Eh; cbn in Ea; [lia|]. destruct (HB eq_refl) as [E _]. rewrite E, lookup_empty in Hx. by destruct Hx. }
    split_and!; try done.
    + split; try done. apply Forall_forall. intros f Hf Hd. right. exact (Hdone f Hf Hd).
    + split.
      * intros x Hx. destruct (P1 x Hx) as (i & Hi & ->). pose proof (Hkey _ Hx). exists (i + j). split; [lia|]. cbn. rewrite <-Es, u32_sub_l. f_equal. lia.
      * apply Forall_forall. intros f Hf. cbn in Hf. rewrite Forall_forall in P2. destruct (P2 f Hf) as (e & He & Hb). exists (e - j). split.
        -- destruct (haveSeq d) eqn:Eh; cbn in Ea; [lia|]. destruct (HB eq_refl) as [_ HB2]. rewrite Forall_forall in HB2. specialize (HB2 f Hf). rewrite Hb, last_off in HB2 by (done || lia). lia.
        -- rewrite Hb. cbn. rewrite <-Es, u32_add_l. f_equal. lia.
    + exists 0. split; [lia|]. cbn. by rewrite Z.sub_0_r, u32_id.
    + intros Hx. exfalso. pose proof (Hkey _ Hx). destruct (P1 s Hx) as (i & Hi & E). unfold j in *. rewrite E in Hj, H. replace (lastSeq d - i) with (lastSeq d + - i) in H by lia.
      rewrite last_off in H by (done || lia). lia.
  - apply orb_false_iff in Ea as [Eh Ej]. apply negb_false_iff in Eh. split_and!; try done.
    + split.
      * intros x Hx. destruct (P1 x Hx) as (i & Hi & ->). exists i. split; [lia|done].
      * eapply Forall_impl; [exact P2|]. intros f (e & He & Hb). exists e. split; [lia|done].
    + exists (- j). split; [lia|]. rewrite <-Es. f_equal. lia.
Qed.

Lemma step_media s d : dec_inv d -> op_ok (OpMedia s) d ->
  exists out d', step (OpMedia s) d = Some (Ok out, d') /\ dec_inv d' /\ Forall (rec_true ssrc truth) out.
Proof.
  intros HI [Hs Hj]. cbn [step]. unfold PushMedia. set (d0 := d <| d_out := [] |>).
  pose proof (clear_out_inv d HI) as HI0. fold d0 in HI0. destruct (fec_advance_inv s d0 HI0 Hs Hj) as (HT1 & HP1 & Hh & Em & Ef & Eo & (i & Hi & Esi) & Hdup). rewrite Em.
  remember (advance s d0) as d1 eqn:Ed1. clear Ed1. destruct (media d0 !! s) as [v|] eqn:Ev.
  - rewrite Hdup by (by eexists). cbn [mbind option_bind]. do 2 eexists. split; [done|]. split; [done|constructor].
  - destruct (settle (store s (sm_ts (truth s)) (sm_pt (truth s)) (sm_ssrc (truth s)) (sm_payload (truth s)) d1)) as (d2 & E & HI2 & Ho & _).
    + destruct HT1 as [T1 T2 T3 T4 T5 T6 T7 T8]. split; try done.
      * intros x w. cbn. rewrite lookup_insert. case_decide; [subst x; intros [= <-]|apply T6]. split; [done|]. split_and!; try done. cbn. apply (Htyped s Hs).
      * apply Forall_forall. intros f Hf Hd. rewrite Forall_forall in T8. destruct (T8 f Hf Hd) as [Ha|Hm]; [by left|right].
        unfold missing in *. eapply missing_of_mono; [|exact Hm]. intros x Hx. cbn. rewrite lookup_insert. case_decide; [by eexists|done].
    + destruct HP1 as [P1 P2]. split; [|done]. intros x. cbn. rewrite lookup_insert. case_decide; [subst x; intros _; exists i; split; [pose proof win_bounds; lia|done]|apply P1].
    + cbn. rewrite Ef. apply HI0.
    + done.
    + cbn. intros Hf. by rewrite Hh in Hf.
    + rewrite E. cbn [mbind option_bind]. do 2 eexists. split; [done|]. split; done.
Qed.

Lemma Forall_tail {A} (P : A -> Prop) l : Forall P l -> Forall P (tail l).
Proof. by destruct 1. Qed.

(** Making room keeps the invariant, and the groups of the window keep their members. *)
Lemma cap_inv d : dec_inv d ->
  dec_inv (cap_fecs d) /\ zlen (fecs (cap_fecs d)) < fec_cap /\ d_out (cap_fecs d) = d_out d /\ lastSeq (cap_fecs d) = lastSeq d /\ window (cap_fecs d) = window d /\
  forall f e, fec_true cfg psz truth f -> sf_base f = u32 (lastSeq d + e) -> - win <= e <= 2 ^ 30 + 2 ^ 24 -> missing (cap_fecs d) f = missing d f.
Proof.
  intros HI. pose proof HI as [HT HP HS HC HB]. pose proof win_bounds as HW. assert (Hcap : 1 <= fec_cap) by (pose proof dims_small; unfold fec_cap; lia).
  assert (Emax : maxFECs d = fec_cap) by apply HT. assert (HP' : placed (win + 2 ^ 30) d).
  { destruct HP as [P1 P2]. split; [intros x Hx; destruct (P1 x Hx) as (i & Hi & ->); exists i; split; [lia|done]|].
    eapply Forall_impl; [exact P2|]. intros f (e & He & Hb). exists e. split; [lia|done]. }
  unfold cap_fecs. destruct (Z.leb_spec (maxFECs d) (zlen (fecs d))); [|by split_and!; try done; lia].
  destruct (evict_inv d HT HP' HS) as (I1 & I2 & I3).
  assert (Hle : zlen (fecs (evict d)) <= zlen (fecs d)).
  { cbn. pose proof (length_List_filter (fun f => 0 <=? seqDiff (seqAdd (lastSeq d) (- window d)) (sf_base f)) (fecs d)). unfold zlen. lia. }
  assert (HB' : haveSeq (evict d) = false -> media (evict d) = ∅ /\ Forall (fun f => seqDiff (lastSeq (evict d)) (sf_base f) <= 2 ^ 24) (fecs (evict d))).
  { intros Hh. destruct (HB Hh) as [E F]. split; [cbn; by rewrite E|]. apply Forall_forall. intros f Hf. cbn in Hf. apply list_elem_of_In, filter_In in Hf as [Hf _].
    rewrite Forall_forall in F. by apply F, list_elem_of_In. }
  assert (Hm : forall f e, fec_true cfg psz truth f -> sf_base f = u32 (lastSeq d + e) -> - win <= e <= 2 ^ 30 + 2 ^ 24 -> missing (evict d) f = missing d f).
  { intros f e Hf Hb He. by apply (missing_evict d f e). }
  assert (Emax' : maxFECs (evict d) = fec_cap) by apply I1.
  destruct (Z.leb_spec (maxFECs (evict d)) (zlen (fecs (evict d)))); [|split_and!; [split; try done; lia|lia|done|done|done|done]].
  split_and!; try done.
  - destruct I1 as [T1 T2 T3 T4 T5 T6 T7 T8], I2 as [P1 P2]. split; [split; try done; by apply Forall_tail|split; [done|by apply Forall_tail]|by apply Forall_tail| |].
    + change (fecs (evict d <| fecs ::= tail |>)) with (tail (fecs (evict d))). destruct (fecs (evict d)); cbn [tail]; [rewrite zlen_nil; lia|]. rewrite zlen_cons in Hle. lia.
    + intros Hh. destruct (HB' Hh) as [E F]. split; [done|]. by apply Forall_tail.
  - change (fecs (evict d <| fecs ::= tail |>)) with (tail (fecs (evict d))). destruct (fecs (evict d)); cbn [tail]; [rewrite zlen_nil; lia|]. rewrite zlen_cons in Hle. lia.
Qed.

Definition fec_of (dir : Direction) (b : Z) : storedFEC :=
  let g := acc psz truth b (group_stride dir) (group_count dir) in
  mkFEC b (group_stride dir) (group_count dir) (lengthClip g) (ptClip g) (tsClip g) (payloadClip g) false.

(** The FEC packets the configured receiver takes. *)
Definition takes (dir : Direction) : Prop := 2 <= group_count dir /\ (dir = Row -> ColumnOnly cfg = false).

Lemma step_fec dir b d : dec_inv d -> op_ok (OpFEC dir b) d ->
  exists out d', step (OpFEC dir b) d = Some (Ok out, d') /\ dec_inv d' /\ Forall (rec_true ssrc truth) out /\
    (takes dir -> ~ aged d (fec_of dir b) -> ~ ahead d (fec_of dir b) -> forall x, missing d (fec_of dir b) = [x] -> x ∈ r_Seq <$> out).
Proof.
  intros HI [Hb Hnear]. cbn [step]. unfold PushFEC. set (d0 := d <| d_out := [] |>). pose proof (clear_out_inv d HI) as HI0. fold d0 in HI0.
  pose proof HI0 as [HT0 HP0 HS0 HC0 HB0]. pose proof win_bounds as HW. pose proof dims_small as [HL HD].
  rewrite parse_fec_packet by (done || apply HT0). fold (fec_of dir b). cbn [stride count fec_of].
  assert (Hst : (group_stride dir <=? 0) = false) by (destruct dir; cbn; lia). rewrite Hst. cbn [orb].
  destruct (Z.leb_spec (group_count dir) 1) as [Hc1|Hc1]; cbn [orb].
  { do 2 eexists. split; [done|]. split_and!; [done|constructor|]. intros [? _]. lia. }
  destruct (Z.ltb_spec na10Max (group_count dir)) as [Hc2|_]; [unfold na10Max in Hc2; destruct dir; cbn in Hc2; lia|]. cbn [orb].
  destruct (geometryOK d0 (group_stride dir) (group_count dir)) eqn:Egeo; cbn [negb].
  2:{ do 2 eexists. split; [done|]. split_and!; [done|constructor|]. intros [_ Hro]. exfalso. unfold geometryOK in Egeo. change (d_cfg d0) with (d_cfg d) in Egeo.
      rewrite (dt_cfg d (di_true d HI)) in Egeo. destruct dir; cbn in Egeo; rewrite ?Z.eqb_refl in Egeo; cbn in Egeo; [done|]. rewrite (Hro eq_refl) in Egeo.
      cbn in Egeo. by destruct (_ && _). }
  assert (Htrue : fec_true cfg psz truth (fec_of dir b)) by (apply group_true; done || lia).
  set (e := seqDiff (lastSeq d) b) in *. assert (Ee : sf_base (fec_of dir b) = u32 (lastSeq d + e)) by (symmetry; apply (distance_add 32); apply Hb).
  assert (He : Z.abs e < 2 ^ 23). { unfold near in Hnear. fold e in Hnear. unfold span_bits in Hnear. destruct (Var cfg); lia. }
  destruct (existsb (fun g => same_group g (fec_of dir b)) (fecs d0)) eqn:Edup.
  { do 2 eexists. split; [done|]. split_and!; [done|constructor|]. intros _ Ha Hh x Hx. exfalso.
    apply existsb_exists in Edup as (g & Hg & Hsame). apply list_elem_of_In in Hg. unfold same_group in Hsame.
    rewrite !andb_true_iff, !Z.eqb_eq in Hsame. destruct Hsame as [[S1 S2] S3].
    assert (Hmem : members g = members (fec_of dir b)) by (unfold members; by rewrite S1, S2, S3).
    rewrite Forall_forall in HS0. destruct (HS0 g Hg) as [D1 D2]. unfold missing in *. rewrite <-Hmem in Hx. change (media d0) with (media d) in *.
    destruct (done g) eqn:Edn.
    - destruct (D1 Edn) as [Hag|Hm]; [by destruct (not_aged d0 g HI0 Hg)|]. unfold missing in Hm. change (media d0) with (media d) in Hm. by rewrite Hx in Hm.
    - destruct (D2 eq_refl) as [Hah|Hm]; [|unfold missing in Hm; change (media d0) with (media d) in Hm; rewrite Hx in Hm; cbn in Hm; lia].
      apply Hh. unfold ahead in *. change (lastSeq d0) with (lastSeq d) in Hah. by rewrite <-S1, <-S2, <-S3. }
  destruct (cap_inv d0 HI0) as (HI1 & Hc & Ho & El & Ew & Hm). remember (cap_fecs d0) as d1 eqn:Ed1. clear Ed1. change (lastSeq d0) with (lastSeq d) in El, Hm. change (window d0) with (window d) in Ew.
  destruct HI1 as [HT1 HP1 HS1 HC1 HB1]. assert (Hge : e <= 2 ^ 24) by lia.
  destruct (settle (d1 <| fecs ::= fun fs => fs ++ [fec_of dir b] |>)) as (d2 & E & HI2 & Hout & Hres).
  - destruct HT1 as [T1 T2 T3 T4 T5 T6 T7 T8]. split; try done; cbn; apply Forall_app; (split; [done|constructor; [|constructor]]); [done|by intros].
  - destruct HP1 as [P1 P2]. split; [intros x Hx; destruct (P1 x Hx) as (i & Hi & ->); exists i; split; [lia|done]|]. cbn. apply Forall_app. split.
    + eapply Forall_impl; [exact P2|]. intros f (e' & He' & Hb'). exists e'. split; [lia|done].
    + constructor; [|constructor]. exists e. split; [lia|]. by rewrite El.
  - cbn. rewrite zlen_app. change (zlen [fec_of dir b]) with 1. lia.
  - done.
  - cbn. intros Hh. destruct (HB1 Hh) as [E F]. split; [done|]. apply Forall_app. split; [done|]. constructor; [|constructor]. rewrite El. cbn. fold e. lia.
  - rewrite E. cbn [mbind option_bind]. do 2 eexists. split; [done|]. split_and!; [done|done|]. intros _ Ha Hh x Hx.
    apply (Hres (fec_of dir b) x); [cbn; apply elem_of_app; right; by left| | |].
    + unfold aged in *. cbn. by rewrite El, Ew.
    + unfold ahead in *. cbn. by rewrite El.
    + change (missing (d1 <| fecs ::= fun fs => fs ++ [fec_of dir b] |>) (fec_of dir b)) with (missing d1 (fec_of dir b)). rewrite (Hm _ e Htrue Ee); [done|].
      split; [|lia]. unfold aged in Ha. rewrite Ee, floor_off in Ha; [lia|apply HT0|lia].
Qed.

(** ** Runs *)

Fixpoint run (ops : list op) (d : Decoder) : option (list Recovered * Decoder) :=
  match ops with
  | [] => Some ([], d)
  | o :: ops =>
      match step o d with
      | Some (Ok out, d) => '(outs, d) ← run ops d; Some (out ++ outs, d)
      | _ => None
      end
  end.

(** Every arrival is acceptable in the state it meets. *)
Fixpoint run_ok (ops : list op) (d : Decoder) : Prop :=
  match ops with
  | [] => True
  | o :: ops => op_ok o d /\ match step o d with Some (_, d) => run_ok ops d | None => True end
  end.

Lemma step_inv o d : dec_inv d -> op_ok o d -> exists out d', step o d = Some (Ok out, d') /\ dec_inv d' /\ Forall (rec_true ssrc truth) out.
Proof.
  intros HI Ho. destruct o as [s|dir b]; [by apply step_media|]. destruct (step_fec dir b d HI Ho) as (out & d' & ? & ? & ? & _). by exists out, d'.
Qed.

Lemma fec_run_inv ops d : dec_inv d -> run_ok ops d -> exists outs d', run ops d = Some (outs, d') /\ dec_inv d' /\ Forall (rec_true ssrc truth) outs.
Proof.
  revert d. induction ops as [|o ops IH]; intros d HI Hok; cbn [run run_ok] in *; [exists [], d; by split_and!|].
  destruct Hok as [Ho Hok]. destruct (step_inv o d HI Ho) as (out & d1 & E & HI1 & Hout). rewrite E in Hok |- *.
  destruct (IH d1 HI1 Hok) as (outs & d2 & -> & HI2 & Houts). cbn [mbind option_bind]. exists (out ++ outs), d2. split_and!; [done|done|by apply Forall_app].
Qed.

Lemma NewDecoder_inv isn0 : in_u32 isn0 -> dec_inv (NewDecoder cfg psz isn0).
Proof.
  intros Hi. pose proof dims_small. split; [split; try done; constructor|split; [|constructor]|constructor|unfold zlen, fec_cap; cbn; lia|].
  - intros s [v Hv]. cbn in Hv. by rewrite lookup_empty in Hv.
  - intros _. split; [done|constructor].
Qed.

Lemma media_size d : dec_inv d -> Z.of_nat (size (media d)) <= window d + 1.
Proof.
  intros [HT [P1 _] _ _ _]. rewrite (dt_win d HT). pose proof win_bounds.
  assert (Hsub : (map_to_list (media d)).*1 ⊆+ (fun i => u32 (lastSeq d - i)) <$> seqZ 0 (win + 1)).
  { apply NoDup_submseteq; [apply NoDup_fst_map_to_list|]. intros s Hs. apply list_elem_of_fmap in Hs as ([k v] & -> & Hkv). apply elem_of_map_to_list in Hkv.
    destruct (P1 k ltac:(by exists v)) as (i & Hi & ->). apply list_elem_of_fmap. exists i. split; [done|]. apply elem_of_seqZ. lia. }
  apply submseteq_length in Hsub. rewrite !length_fmap, length_map_to_list, length_seqZ in Hsub. lia.
Qed.
End stream.

(** ** Properties *)

(** The stream hypotheses: a matrix the header can carry, payloads of the protected size, one source. *)
Record stream_ok (cfg : Config) (psz ssrc : Z) (truth : Z -> storedMedia) : Prop := {
  so_dims : dims_ok cfg;
  so_psz : 0 <= psz <= 65535;
  so_typed : forall s, in_u32 s -> media_typed psz ssrc (truth s) }.

(** C38: FEC never fabricates within reach of its header: for a matrix the header can carry and payloads of one size, whatever media and FEC packets of a stream arrive, in whatever order and with whatever losses and
    copies, as long as each media packet comes within 2^30 of the newest and each FEC packet when the newest media is less than 2^23 (ST 2022-1) or 2^15 (ST 2022-5) packets from its base, which is half of what the base in its header tells apart,
    the decoder returns on every one of them without a panic, and every packet it recovers has the timestamp, payload type, SSRC and payload that
    were sent under that sequence number.  (Beyond that distance it does fabricate: [fec_alias_fabricates].) *)
Theorem fec_never_fabricates cfg psz isn ssrc truth start ops :
  stream_ok cfg psz ssrc truth -> in_u32 start -> run_ok cfg psz isn truth ops (NewDecoder cfg psz start) ->
  exists outs d, run cfg psz isn truth ops (NewDecoder cfg psz start) = Some (outs, d) /\ Forall (rec_true ssrc truth) outs.
Proof.
  intros [HD HP HT] Hs Hok. destruct (fec_run_inv cfg psz isn ssrc truth HD HP HT ops (NewDecoder cfg psz start)) as (outs & d & E & _ & Ho); [by apply NewDecoder_inv|done|].
  by exists outs, d.
Qed.

(** After any such arrivals the decoder's memory is bounded, at most a window of media and the cap of FEC packets, and no loss it could
    repair is left: every stored group has all its members, at least two missing, or one not yet sent. *)
Theorem fec_bounded_and_saturated cfg psz isn ssrc truth start ops outs d :
  stream_ok cfg psz ssrc truth -> in_u32 start -> run_ok cfg psz isn truth ops (NewDecoder cfg psz start) ->
  run cfg psz isn truth ops (NewDecoder cfg psz start) = Some (outs, d) ->
  Z.of_nat (size (media d)) <= window d + 1 /\ zlen (fecs d) <= maxFECs d /\
  forall f, f ∈ fecs d -> ahead d f \/ missing d f = [] \/ (2 <= length (missing d f))%nat.
Proof.
  intros [HD HP HT] Hs Hok E. destruct (fec_run_inv cfg psz isn ssrc truth HD HP HT ops (NewDecoder cfg psz start)) as (outs' & d' & E' & HI & _); [by apply NewDecoder_inv|done|].
  rewrite E in E'. injection E' as <- <-. split_and!.
  - by apply (media_size cfg psz ssrc truth HD d).
  - pose proof HI as [HTr _ _ HC _]. by rewrite (dt_cap _ _ _ _ d HTr).
  - intros f Hf. pose proof HI as [_ _ HS _ _]. rewrite Forall_forall in HS. destruct (HS f Hf) as [D1 D2]. destruct (done f) eqn:Ed.
    + destruct (D1 Ed) as [Ha|]; [|by right; left]. by destruct (not_aged cfg psz ssrc truth HD d f HI Hf).
    + destruct (D2 eq_refl); [by left|by right; right].
Qed.

(** C39: A single loss is repaired at once: in any state reached, when the FEC packet of a group inside the window arrives and exactly one member
    of the group is missing, that member is recovered by that very call, with the payload that was sent. *)
Theorem fec_repairs_single_loss cfg psz isn ssrc truth start ops outs d dir b x :
  stream_ok cfg psz ssrc truth -> in_u32 start -> run_ok cfg psz isn truth ops (NewDecoder cfg psz start) ->
  run cfg psz isn truth ops (NewDecoder cfg psz start) = Some (outs, d) ->
  op_ok cfg (OpFEC dir b) d -> takes cfg dir ->
  ~ aged d (fec_of cfg psz truth dir b) -> ~ ahead d (fec_of cfg psz truth dir b) -> missing d (fec_of cfg psz truth dir b) = [x] ->
  exists out d' r, step cfg psz isn truth (OpFEC dir b) d = Some (Ok out, d') /\ r ∈ out /\ r_Seq r = x /\ r_Payload r = sm_payload (truth x) /\ r_Timestamp r = sm_ts (truth x).
Proof.
  intros [HD HP HT] Hs Hok E Hop Htk Ha Hh Hx. destruct (fec_run_inv cfg psz isn ssrc truth HD HP HT ops (NewDecoder cfg psz start)) as (outs' & d' & E' & HI & _); [by apply NewDecoder_inv|done|].
  rewrite E in E'. injection E' as <- <-. destruct (step_fec cfg psz isn ssrc truth HD HP HT dir b d HI Hop) as (out & d2 & E2 & _ & Ht & Hr).
  specialize (Hr Htk Ha Hh x Hx). apply list_elem_of_fmap in Hr as (r & -> & Hr). exists out, d2, r. rewrite Forall_forall in Ht. destruct (Ht r Hr) as (_ & H2 & _ & _ & H5). split_and!; done.
Qed.

(** A three-by-two matrix across the sequence wrap; the second packet of the first row is lost. *)
Definition demo_cfg : Config := mkConfig 3 2 false Variant20221.
Definition demo_ops : list op := [OpMedia 4294967294; OpMedia 0; OpMedia 1].

Lemma demo_stream : stream_ok demo_cfg 2 8 demo_truth.
Proof.
  split; [repeat split; discriminate|split; discriminate|]. intros s Hs. split; [apply u32_range|split; [discriminate|reflexivity]|reflexivity|vm_compute; discriminate].
Qed.

Lemma demo_run_ok : run_ok demo_cfg 2 4294967294 demo_truth demo_ops (NewDecoder demo_cfg 2 4294967294).
Proof. vm_compute. repeat split; discriminate. Qed.

Lemma fec_never_fabricates_witness : exists outs d,
  run demo_cfg 2 4294967294 demo_truth demo_ops (NewDecoder demo_cfg 2 4294967294) = Some (outs, d) /\ Forall (rec_true 8 demo_truth) outs.
Proof. apply (fec_never_fabricates demo_cfg 2 4294967294 8 demo_truth 4294967294 demo_ops); [exact demo_stream|split; [discriminate|reflexivity]|exact demo_run_ok]. Defined.

Lemma fec_bounded_and_saturated_witness : exists outs d,
  run demo_cfg 2 4294967294 demo_truth demo_ops (NewDecoder demo_cfg 2 4294967294) = Some (outs, d) /\ zlen (fecs d) <= maxFECs d.
Proof.
  destruct (run demo_cfg 2 4294967294 demo_truth demo_ops (NewDecoder demo_cfg 2 4294967294)) as [[outs d]|] eqn:E; [|vm_compute in E; discriminate].
  exists outs, d. split; [reflexivity|]. apply (fec_bounded_and_saturated demo_cfg 2 4294967294 8 demo_truth 4294967294 demo_ops outs d);
    [exact demo_stream|split; [discriminate|reflexivity]|exact demo_run_ok|exact E].
Defined.

Lemma fec_repairs_single_loss_witness : exists outs d out d' r,
  run demo_cfg 2 4294967294 demo_truth demo_ops (NewDecoder demo_cfg 2 4294967294) = Some (outs, d) /\
  step demo_cfg 2 4294967294 demo_truth (OpFEC Row 4294967294) d = Some (Ok out, d') /\ r ∈ out /\ r_Seq r = 4294967295 /\ r_Payload r = [255; 7].
Proof.
  destruct (run demo_cfg 2 4294967294 demo_truth demo_ops (NewDecoder demo_cfg 2 4294967294)) as [[outs d]|] eqn:E; [|vm_compute in E; discriminate].
  pose proof E as E'. vm_compute in E'. injection E' as Eo Ed.
  destruct (fec_repairs_single_loss demo_cfg 2 4294967294 8 demo_truth 4294967294 demo_ops outs d Row 4294967294 4294967295) as (out & d' & r & H1 & H2 & H3 & H4 & _).
  - exact demo_stream.
  - split; [discriminate|reflexivity].
  - exact demo_run_ok.
  - exact E.
  - rewrite <-Ed. split; [split; [discriminate|reflexivity]|reflexivity].
  - split; [discriminate|reflexivity].
  - rewrite <-Ed. vm_compute. discriminate.
  - rewrite <-Ed. vm_compute. discriminate.
  - rewrite <-Ed. reflexivity.
  - exists outs, d, out, d', r. split; [reflexivity|]. split; [exact H1|]. split; [exact H2|]. split; [exact H3|]. exact H4.
Defined.

(** Outside the hypothesis the claim fails: the sequence base of an ST 2022-5 header has 16 bits.  The FEC packet of a row 2^16 packets ahead of the newest media, the first packet to arrive after a long
    outage, is taken for the row 2^16 earlier, whose one missing packet is then "recovered" with a payload that was never sent. *)
Definition alias_cfg : Config := mkConfig 4 4 false Variant20225.
Definition alias_truth (s : Z) : storedMedia := mkMedia (u32 (s * 3000)) 33 8 [u8 (s * (s mod 7)); u8 (s / 3)].
Definition alias_ops : list op := [OpMedia 100000; OpMedia 100001; OpMedia 100003; OpFEC Row 165536].
Example fec_alias_fabricates :
  match run alias_cfg 2 100000 alias_truth alias_ops (NewDecoder alias_cfg 2 100000) with
  | Some (outs, _) => (fun r => (r_Seq r, r_Payload r)) <$> outs
  | None => []
  end = [(100002, [73; 55])] /\ sm_payload (alias_truth 100002) = [0; 54].
Proof. vm_compute. split; reflexivity. Qed.
End fecstream.
