(* ===== verification/Gre.v ===== *)
(** * Main-profile GRE framing (src/internal/gre/gre.go, keepalive.go)

    The GRE-over-UDP header with its optional nonce and sequence number, the reduced-overhead and VSF headers that may follow it, the
    buffer-negotiation body and the keep-alive body with its capability bits. *)

From S2P Require Import Prelude Bytes.

Module gre.

Inductive error := ErrShortBuffer | ErrNonConformant | ErrUnsupportedVSFProto | ErrBadKeepalive.

Definition ProtoKeepalive : Z := 0x88B5.
Definition ProtoReduced : Z := 0x88B6.
Definition ProtoFull : Z := 0x0800.
Definition ProtoEAPOL : Z := 0x888E.
Definition ProtoVSF : Z := 0xCCE0.

Definition IsReserved (protType : Z) : bool :=
  (protType =? ProtoReduced) || (protType =? ProtoKeepalive) || (protType =? ProtoEAPOL) || (protType =? ProtoVSF).

Definition VSFTypeRIST : Z := 0.
Definition VSFSubtypeReduced : Z := 0.
Definition VSFSubtypeKeepalive : Z := 0x8000.
Definition VSFSubtypeFutureNonce : Z := 0x8001.
Definition VSFSubtypeBufferNegotiation : Z := 0x8002.
Definition VersionMin : Z := 1.
Definition VersionCur : Z := 2.
Definition DefaultVirtSrcPort : Z := 1971.
Definition DefaultVirtDstPort : Z := 1968.

Definition BaseHeaderSize : Z := 4.
Definition nonceSize : Z := 4.
Definition seqSize : Z := 4.
Definition ReducedHeaderSize : Z := 4.
Definition VSFProtoSize : Z := 4.
Definition KeepaliveSize : Z := 8.
Definition AdvExtSize : Z := 4.
Definition BufferNegotiationSize : Z := 6.

Definition bitChecksum : Z := 7.
Definition bitKey : Z := 5.
Definition bitSeq : Z := 4.
Definition bitReserved : Z := 6.
Definition bitH : Z := 6.
Definition flags2RVerShift : Z := 3.
Definition flags2RVerMask : Z := 7.
Definition flags2LowMask : Z := 7.

(** ** The base header *)

Record Header := mkHeader { Version : Z; HasKey : bool; HasSeq : bool; KeySize256 : bool; Nonce : bytes; Seq : Z; ProtType : Z }.

Definition Size (h : Header) : Z :=
  let n := BaseHeaderSize in
  let n := if HasKey h then n + nonceSize else n in
  if HasSeq h then n + seqSize else n.

(** [dst] is the state; an error leaves it as it was. *)
Definition AppendTo (h : Header) : sres bytes error unit := fun dst =>
  if flags2RVerMask <? Version h then (Err ErrNonConformant, dst) else
  let flags1 := 0 in
  let flags2 := u8 (Z.shiftl (Z.land (Version h) flags2RVerMask) flags2RVerShift) in
  let flags1 := if HasSeq h then Z.lor flags1 (Z.shiftl 1 bitSeq) else flags1 in
  let flags1 := if HasKey h then Z.lor flags1 (Z.shiftl 1 bitKey) else flags1 in
  let flags2 := if HasKey h && KeySize256 h then Z.lor flags2 (Z.shiftl 1 bitH) else flags2 in
  let dst := dst ++ [flags1; flags2] in
  let dst := dst ++ be_bytes 2 (ProtType h) in
  let dst := if HasKey h then dst ++ Nonce h else dst in
  let dst := if HasSeq h then dst ++ be_bytes 4 (Seq h) else dst in
  (Ok tt, dst).

Definition has (b bit : Z) : bool := negb (Z.land b (Z.shiftl 1 bit) =? 0).

Definition Parse (b : bytes) : res error (Header * Z) :=
  if zlen b <? BaseHeaderSize then Err ErrShortBuffer else
  flags1 ← idx b 0;
  flags2 ← idx b 1;
  if has flags1 bitReserved || negb (Z.land flags2 flags2LowMask =? 0) then Err ErrNonConformant else
  prot ← (t ← slc b 2 4; Uint16 t);
  let version := Z.land (Z.shiftr flags2 flags2RVerShift) flags2RVerMask in
  let hasKey := has flags1 bitKey in
  let hasSeq := has flags1 bitSeq in
  let keySize256 := if hasKey then has flags2 bitH else false in
  let hasChecksum := has flags1 bitChecksum in
  let off := BaseHeaderSize in
  let need := BaseHeaderSize in
  let need := if hasChecksum then need + 4 else need in
  let need := if hasKey then need + nonceSize else need in
  let need := if hasSeq then need + seqSize else need in
  if zlen b <? need then Err ErrShortBuffer else
  let off := if hasChecksum then off + 4 else off in
  '(nonce, off) ← (if hasKey then n ← slc b off (off + nonceSize); Ok (n, off + nonceSize) else Ok ([0; 0; 0; 0], off));
  '(sq, off) ← (if hasSeq then t ← slc b off (off + seqSize); s ← Uint32 t; Ok (s, off + seqSize) else Ok (0, off));
  Ok (mkHeader version hasKey hasSeq keySize256 nonce sq prot, off).

(** ** The headers that may follow *)

Record ReducedHeader := mkReduced { SrcPort : Z; DstPort : Z }.

Definition reduced_AppendTo (r : ReducedHeader) (dst : bytes) : bytes := (dst ++ be_bytes 2 (SrcPort r)) ++ be_bytes 2 (DstPort r).

Definition ParseReduced (b : bytes) : res error (ReducedHeader * Z) :=
  if zlen b <? ReducedHeaderSize then Err ErrShortBuffer else
  s ← (t ← slc b 0 2; Uint16 t);
  d ← (t ← slc b 2 4; Uint16 t);
  Ok (mkReduced s d, ReducedHeaderSize).

Record VSFProto := mkVSF { Type_ : Z; Subtype : Z }.

Definition vsf_AppendTo (v : VSFProto) (dst : bytes) : bytes := (dst ++ be_bytes 2 (Type_ v)) ++ be_bytes 2 (Subtype v).

Definition ParseVSFProto (b : bytes) : res error (VSFProto * Z) :=
  if zlen b <? VSFProtoSize then Err ErrShortBuffer else
  ty ← (t ← slc b 0 2; Uint16 t);
  sub ← (t ← slc b 2 4; Uint16 t);
  if negb (ty =? VSFTypeRIST) then Err ErrUnsupportedVSFProto else
  Ok (mkVSF ty sub, VSFProtoSize).

Record BufferNegotiation := mkBuf { SenderMaxMs : Z; ReceiverCurMs : Z; ProtoType : Z }.

Definition buf_AppendTo (b : BufferNegotiation) (dst : bytes) : bytes :=
  ((dst ++ be_bytes 2 (SenderMaxMs b)) ++ be_bytes 2 (ReceiverCurMs b)) ++ be_bytes 2 (ProtoType b).

Definition ParseBufferNegotiation (b : bytes) : res error BufferNegotiation :=
  if zlen b <? BufferNegotiationSize then Err ErrShortBuffer else
  x ← (t ← slc b 0 2; Uint16 t);
  y ← (t ← slc b 2 4; Uint16 t);
  z ← (t ← slc b 4 6; Uint16 t);
  Ok (mkBuf x y z).

(** ** Keep-alives *)

(** The capability bits, N L E P A B R X of the first octet and F J V T D of the second. *)
Record Capabilities := mkCaps { cN : bool; cL : bool; cE : bool; cP : bool; cA : bool; cB : bool; cR : bool; cX : bool;
  cF : bool; cJ : bool; cV : bool; cT : bool; cD : bool }.

Definition capN : Z := 0.
Definition capL : Z := 1.
Definition capE : Z := 2.
Definition capP : Z := 3.
Definition capA : Z := 4.
Definition capB : Z := 5.
Definition capR : Z := 6.
Definition capX : Z := 7.
Definition capF : Z := 3.
Definition capJ : Z := 4.
Definition capV : Z := 5.
Definition capT : Z := 6.
Definition capD : Z := 7.
Definition advI : Z := 7.
Definition advG : Z := 6.
Definition advC : Z := 5.

Definition StandardCapabilities : Capabilities := mkCaps true false true false false true false false false false true false false.

Definition set_bit (bit : Z) (v : bool) (b : Z) : Z := if v then Z.lor b (Z.shiftl 1 bit) else b.

Definition caps_encode (c : Capabilities) : Z * Z :=
  let c1 := set_bit capN (cN c) 0 in let c1 := set_bit capL (cL c) c1 in let c1 := set_bit capE (cE c) c1 in let c1 := set_bit capP (cP c) c1 in
  let c1 := set_bit capA (cA c) c1 in let c1 := set_bit capB (cB c) c1 in let c1 := set_bit capR (cR c) c1 in let c1 := set_bit capX (cX c) c1 in
  let c2 := set_bit capF (cF c) 0 in let c2 := set_bit capJ (cJ c) c2 in let c2 := set_bit capV (cV c) c2 in let c2 := set_bit capT (cT c) c2 in
  let c2 := set_bit capD (cD c) c2 in
  (c1, c2).

Definition decodeCapabilities (c1 c2 : Z) : Capabilities :=
  mkCaps (has c1 capN) (has c1 capL) (has c1 capE) (has c1 capP) (has c1 capA) (has c1 capB) (has c1 capR) (has c1 capX)
    (has c2 capF) (has c2 capJ) (has c2 capV) (has c2 capT) (has c2 capD).

Record AdvExtCaps := mkAdvExt { aI : bool; aG : bool; aC : bool }.

Definition advext_encode (a : AdvExtCaps) : Z := set_bit advC (aC a) (set_bit advG (aG a) (set_bit advI (aI a) 0)).

Record Keepalive := mkKeepalive { MAC : bytes; Caps : Capabilities; HasAdvExt : bool; AdvExt : AdvExtCaps; JSON : bytes }.

Definition keepalive_Size (k : Keepalive) : Z :=
  let n := KeepaliveSize in let n := if HasAdvExt k then n + AdvExtSize else n in n + zlen (JSON k).

Definition keepalive_AppendTo (k : Keepalive) (dst : bytes) : bytes :=
  let dst := dst ++ MAC k in
  let '(c1, c2) := caps_encode (Caps k) in
  let dst := dst ++ [c1; c2] in
  let dst := if HasAdvExt k then dst ++ [advext_encode (AdvExt k); 0; 0; 0] else dst in
  if 0 <? zlen (JSON k) then dst ++ JSON k else dst.

Definition ParseKeepalive (b : bytes) : res error Keepalive :=
  if zlen b <? KeepaliveSize then Err ErrBadKeepalive else
  mac ← slc b 0 6;
  b6 ← idx b 6;
  b7 ← idx b 7;
  let caps := decodeCapabilities b6 b7 in
  rest ← slc_from b KeepaliveSize;
  if AdvExtSize <=? zlen rest then
    first ← idx rest 0;
    json ← slc_from rest AdvExtSize;
    Ok (mkKeepalive mac caps true (mkAdvExt (has first advI) (has first advG) (has first advC)) json)
  else Ok (mkKeepalive mac caps false (mkAdvExt false false false) rest).

(** ** Round trips *)

Record header_typed (h : Header) : Prop := {
  ht_version : 0 <= Version h <= 7; ht_nonce : zlen (Nonce h) = 4; ht_seq : in_u32 (Seq h); ht_prot : in_u16 (ProtType h) }.

(** The header read back: the fields that are not announced are zero. *)
Definition norm (h : Header) : Header :=
  mkHeader (Version h) (HasKey h) (HasSeq h) (HasKey h && KeySize256 h) (if HasKey h then Nonce h else [0; 0; 0; 0])
    (if HasSeq h then Seq h else 0) (ProtType h).

Definition flag_octet1 (key sq : bool) : Z := (if key then 32 else 0) + (if sq then 16 else 0).
Definition flag_octet2 (v : Z) (h : bool) : Z := (if h then 64 else 0) + 8 * v.
Definition enc (h : Header) : bytes :=
  [flag_octet1 (HasKey h) (HasSeq h)] ++ [flag_octet2 (Version h) (HasKey h && KeySize256 h)] ++ be_bytes 2 (ProtType h) ++
  (if HasKey h then Nonce h else []) ++ (if HasSeq h then be_bytes 4 (Seq h) else []).

Lemma version_cases v : 0 <= v <= 7 -> v = 0 \/ v = 1 \/ v = 2 \/ v = 3 \/ v = 4 \/ v = 5 \/ v = 6 \/ v = 7.
Proof. lia. Qed.

Lemma AppendTo_enc h dst : header_typed h -> AppendTo h dst = (Ok tt, dst ++ enc h).
Proof.
  intros [Hv Hn Hs Hp]. unfold AppendTo. destruct (Z.ltb_spec flags2RVerMask (Version h)) as [Hlt|_]; [unfold flags2RVerMask in Hlt; lia|].
  unfold enc. destruct (HasKey h), (HasSeq h), (KeySize256 h); cbn [andb]; destruct (version_cases _ Hv) as [-> |[-> |[-> |[-> |[-> |[-> |[-> | ->]]]]]]];
    by rewrite <-?app_assoc, ?app_nil_r.
Qed.

Lemma enc_Size h : header_typed h -> zlen (enc h) = Size h.
Proof. intros [_ Hn _ _]. unfold enc, Size, BaseHeaderSize, nonceSize, seqSize. destruct (HasKey h), (HasSeq h); zlens; lia. Qed.

Lemma gre_Parse_enc h rest : header_typed h -> Parse (enc h ++ rest) = Ok (norm h, Size h).
Proof.
  intros Ht. pose proof (enc_Size h Ht) as Hsz. destruct Ht as [Hv Hn Hs Hp]. pose proof (zlen_nonneg rest).
  assert (Hlen : zlen (enc h ++ rest) = Size h + zlen rest) by (rewrite zlen_app; lia).
  unfold Parse. rewrite Hlen. unfold Size, BaseHeaderSize, nonceSize, seqSize in Hlen |- *.
  destruct (Z.ltb_spec ((if HasSeq h then (if HasKey h then 4 + 4 else 4) + 4 else if HasKey h then 4 + 4 else 4) + zlen rest) 4) as [Hlt|_];
    [destruct (HasKey h), (HasSeq h); lia|].
  unfold enc. rewrite <-!app_assoc. set (b := _ ++ _).
  rewrite (at_idx b 0 (flag_octet1 (HasKey h) (HasSeq h))) by (unfold b; at_solve). cbn [mbind res_bind].
  rewrite (at_idx b 1 (flag_octet2 (Version h) (HasKey h && KeySize256 h))) by (unfold b; at_solve). cbn [mbind res_bind].
  assert (Hf1 : forall key sq, has (flag_octet1 key sq) bitReserved = false /\ has (flag_octet1 key sq) bitKey = key /\ has (flag_octet1 key sq) bitSeq = sq /\
    has (flag_octet1 key sq) bitChecksum = false) by (by intros [] []).
  assert (Hf2 : forall x, Z.land (flag_octet2 (Version h) x) flags2LowMask = 0 /\ Z.land (Z.shiftr (flag_octet2 (Version h) x) flags2RVerShift) flags2RVerMask = Version h /\
    has (flag_octet2 (Version h) x) bitH = x).
  { intros x. by destruct x; destruct (version_cases _ Hv) as [-> |[-> |[-> |[-> |[-> |[-> |[-> | ->]]]]]]]. }
  destruct (Hf1 (HasKey h) (HasSeq h)) as (-> & -> & -> & ->). destruct (Hf2 (HasKey h && KeySize256 h)) as (-> & -> & ->). cbn [orb negb Z.eqb].
  rewrite (at_u16 b 2 (ProtType h) 4) by (done || (unfold b; at_solve)). cbn [mbind res_bind].
  match goal with |- context [if ?x then Err ErrShortBuffer else _] => assert (x = false) as ->; [destruct (HasKey h), (HasSeq h); apply Z.ltb_ge; lia|] end.
  unfold norm. subst b. destruct (HasKey h), (HasSeq h); cbn [andb].
  - erewrite (at_slc _ 4 (Nonce h)) by (first [at_solve|lia]). cbn [mbind res_bind].
    assert (E : forall P : bytes, At P (4 + 4) (be_bytes 4 (Seq h)) -> (t ← slc P (4 + 4) (4 + 4 + 4); s ← Uint32 t; Ok (s, 4 + 4 + 4)) = Ok (E := error) (Seq h, 12)).
    { intros P HP. rewrite (at_slc _ _ _ _ HP) by (rewrite zlen_be; lia). cbn [mbind res_bind]. by rewrite Uint32_all, be_u32 by (done || by rewrite zlen_be). }
    rewrite E; [done|]. at_solve.
  - erewrite (at_slc _ 4 (Nonce h)) by (first [at_solve|lia]). done.
  - assert (E : forall P : bytes, At P 4 (be_bytes 4 (Seq h)) -> (t ← slc P 4 (4 + 4); s ← Uint32 t; Ok (s, 4 + 4)) = Ok (E := error) (Seq h, 8)).
    { intros P HP. rewrite (at_slc _ _ _ _ HP) by (rewrite zlen_be; lia). cbn [mbind res_bind]. by rewrite Uint32_all, be_u32 by (done || by rewrite zlen_be). }
    cbn [mbind res_bind]. rewrite E; [done|]. rewrite app_nil_l. at_solve.
  - done.
Qed.
(** Two 16-bit fields at the front. *)
Lemma two_u16 a b rest : in_u16 a -> in_u16 b ->
  let x := be_bytes 2 a ++ be_bytes 2 b ++ rest in
  4 <= zlen x /\ (t ← slc x 0 2; Uint16 t) = Ok (E := error) a /\ (t ← slc x 2 4; Uint16 t) = Ok (E := error) b.
Proof.
  intros Ha Hb x. pose proof (zlen_nonneg rest). split; [unfold x; zlens; lia|].
  split; [apply (at_u16 x 0)|apply (at_u16 x 2)]; (done || (unfold x; at_solve)).
Qed.

Lemma ParseReduced_enc r rest : in_u16 (SrcPort r) -> in_u16 (DstPort r) -> ParseReduced (reduced_AppendTo r [] ++ rest) = Ok (r, ReducedHeaderSize).
Proof.
  intros Hs Hd. unfold reduced_AppendTo, ParseReduced. rewrite app_nil_l, <-app_assoc. destruct (two_u16 _ _ rest Hs Hd) as (Hl & E1 & E2).
  rewrite (proj2 (Z.ltb_ge _ _)) by (unfold ReducedHeaderSize; lia). rewrite E1. cbn [mbind res_bind]. rewrite E2. by destruct r.
Qed.

Lemma ParseVSFProto_enc v rest : Type_ v = VSFTypeRIST -> in_u16 (Subtype v) -> ParseVSFProto (vsf_AppendTo v [] ++ rest) = Ok (v, VSFProtoSize).
Proof.
  intros Ht Hs. unfold vsf_AppendTo, ParseVSFProto. rewrite app_nil_l, <-app_assoc. destruct (two_u16 (Type_ v) _ rest ltac:(by rewrite Ht) Hs) as (Hl & E1 & E2).
  rewrite (proj2 (Z.ltb_ge _ _)) by (unfold VSFProtoSize; lia). rewrite E1. cbn [mbind res_bind]. rewrite E2. cbn [mbind res_bind]. rewrite Ht. destruct v. cbn in *. by subst.
Qed.

Lemma ParseBuf_enc b rest : in_u16 (SenderMaxMs b) -> in_u16 (ReceiverCurMs b) -> in_u16 (ProtoType b) ->
  ParseBufferNegotiation (buf_AppendTo b [] ++ rest) = Ok b.
Proof.
  intros H1 H2 H3. unfold buf_AppendTo, ParseBufferNegotiation. rewrite app_nil_l, <-!app_assoc. pose proof (zlen_nonneg rest).
  set (x := _ ++ _). rewrite (proj2 (Z.ltb_ge _ _)) by (unfold x, BufferNegotiationSize; zlens; lia).
  rewrite (at_u16 x 0 (SenderMaxMs b)) by (done || (unfold x; at_solve)). cbn [mbind res_bind].
  rewrite (at_u16 x 2 (ReceiverCurMs b)) by (done || (unfold x; at_solve)). cbn [mbind res_bind].
  rewrite (at_u16 x 4 (ProtoType b)) by (done || (unfold x; at_solve)). by destruct b.
Qed.

(** ** Capability bits *)

Lemma has_testbit b i : 0 <= i -> has b i = Z.testbit b i.
Proof. intros Hi. unfold has. rewrite Z.shiftl_mul_pow2, Z.mul_1_l, land_pow2_zero by done. by rewrite negb_involutive. Qed.

Lemma has_set i j v b : 0 <= i -> 0 <= j -> has (set_bit i v b) j = has b j || (v && (i =? j)).
Proof.
  intros Hi Hj. unfold set_bit. destruct v; cbn [andb]; [|by rewrite orb_false_r].
  rewrite !has_testbit by done. rewrite Z.shiftl_mul_pow2, Z.mul_1_l, testbit_lor_pow2 by done. done.
Qed.

Lemma caps_round_trip c : let '(c1, c2) := caps_encode c in decodeCapabilities c1 c2 = c.
Proof.
  unfold caps_encode, decodeCapabilities. cbv beta iota zeta. rewrite !has_set by done.
  unfold capN, capL, capE, capP, capA, capB, capR, capX, capF, capJ, capV, capT, capD. rewrite !has_testbit, !Z.testbit_0_l by done.
  cbn [Z.eqb Pos.eqb]. rewrite ?andb_false_r, ?andb_true_r, ?orb_false_r, ?orb_false_l. by destruct c.
Qed.

Lemma advext_round_trip a : mkAdvExt (has (advext_encode a) advI) (has (advext_encode a) advG) (has (advext_encode a) advC) = a.
Proof. by destruct a as [[] [] []]. Qed.

(** What a keep-alive must be to be read back: four JSON bytes with no extended block would be taken for one. *)
Record keepalive_ok (k : Keepalive) : Prop := {
  ko_mac : zlen (MAC k) = 6;
  ko_json : HasAdvExt k = false -> zlen (JSON k) < 4;
  ko_ext : HasAdvExt k = false -> AdvExt k = mkAdvExt false false false }.

Lemma ParseKeepalive_enc k : keepalive_ok k -> ParseKeepalive (keepalive_AppendTo k []) = Ok k /\ zlen (keepalive_AppendTo k []) = keepalive_Size k.
Proof.
  intros [Hm Hj He]. unfold keepalive_AppendTo, ParseKeepalive. pose proof (caps_round_trip (Caps k)) as Hc. destruct (caps_encode (Caps k)) as [c1 c2].
  rewrite app_nil_l. cbv zeta. pose proof (zlen_nonneg (JSON k)).
  set (ext := if HasAdvExt k then [advext_encode (AdvExt k); 0; 0; 0] else []).
  assert (E : (if 0 <? zlen (JSON k) then (if HasAdvExt k then (MAC k ++ [c1; c2]) ++ [advext_encode (AdvExt k); 0; 0; 0] else MAC k ++ [c1; c2]) ++ JSON k
     else if HasAdvExt k then (MAC k ++ [c1; c2]) ++ [advext_encode (AdvExt k); 0; 0; 0] else MAC k ++ [c1; c2]) = MAC k ++ [c1] ++ [c2] ++ (ext ++ JSON k)).
  { unfold ext. destruct (Z.ltb_spec 0 (zlen (JSON k))) as [_|Hz]; [|assert (JSON k = []) as -> by (destruct (JSON k); [done|rewrite zlen_cons in Hz; pose proof (zlen_nonneg l); lia])];
      destruct (HasAdvExt k); cbn [app]; rewrite <-?app_assoc, ?app_nil_r; done. }
  rewrite E. set (b := MAC k ++ [c1] ++ [c2] ++ (ext ++ JSON k)).
  assert (Hext : zlen ext = if HasAdvExt k then 4 else 0) by (unfold ext; by destruct (HasAdvExt k)).
  assert (Hlen : zlen b = 8 + zlen ext + zlen (JSON k)) by (unfold b; zlens; lia).
  rewrite (proj2 (Z.ltb_ge _ _)) by (unfold KeepaliveSize; destruct (HasAdvExt k); lia).
  split; [|rewrite Hlen, Hext; unfold keepalive_Size, KeepaliveSize, AdvExtSize; destruct (HasAdvExt k); lia].
  rewrite (at_slc b 0 (MAC k) 6) by (first [unfold b; at_solve|lia]). cbn [mbind res_bind].
  rewrite (at_idx b 6 c1) by (unfold b; at_solve). cbn [mbind res_bind]. rewrite (at_idx b 7 c2) by (unfold b; at_solve). cbn [mbind res_bind]. rewrite Hc.
  assert (Hrest : slc_from b KeepaliveSize = Ok (E := error) (ext ++ JSON k)).
  { unfold b. change (MAC k ++ [c1] ++ [c2] ++ (ext ++ JSON k)) with (MAC k ++ [c1; c2] ++ (ext ++ JSON k)). rewrite app_assoc. apply slc_from_app. unfold KeepaliveSize. zlens. lia. }
  rewrite Hrest. cbn [mbind res_bind]. rewrite zlen_app, Hext. unfold AdvExtSize. unfold ext. destruct (HasAdvExt k) eqn:Ea.
  - rewrite (proj2 (Z.leb_le _ _)) by lia. rewrite (at_idx ([advext_encode (AdvExt k); 0; 0; 0] ++ JSON k) 0 (advext_encode (AdvExt k))) by (by exists [], ([0; 0; 0] ++ JSON k)).
    cbn [mbind res_bind]. rewrite slc_from_app by done. cbn [mbind res_bind].
    rewrite advext_round_trip. destruct k. cbn in *. by subst.
  - rewrite (proj2 (Z.leb_gt _ _)) by (specialize (Hj eq_refl); lia). cbn [app]. destruct k. cbn in *. subst. by rewrite He.
Qed.
(** ** Arbitrary input *)

Lemma version_bits x : in_u8 x -> 0 <= Z.land (Z.shiftr x flags2RVerShift) flags2RVerMask <= 7.
Proof. intros _. unfold flags2RVerMask. change 7 with (Z.ones 3). rewrite Z.land_ones by lia. change (Z.ones 3) with 7. pose proof (Z.mod_pos_bound (Z.shiftr x flags2RVerShift) (2 ^ 3)). lia. Qed.


Lemma Parse_total b : is_bytes b -> returns (Parse b) (fun '(h, off) => header_typed h /\ norm h = h /\ BaseHeaderSize <= off <= zlen b).
Proof.
  intros Hb. unfold Parse, BaseHeaderSize, nonceSize, seqSize. destruct (Z.ltb_spec (zlen b) 4) as [|H4]; [done|].
  destruct (rd_byte (E:=error) b 0 Hb ltac:(lia)) as (f1 & -> & _). destruct (rd_byte (E:=error) b 1 Hb ltac:(lia)) as (f2 & -> & Hf2). cbn [mbind res_bind].
  destruct (has f1 bitReserved || _); [done|]. destruct (rd_u16 (E:=error) b 2 4 Hb ltac:(lia) ltac:(lia) ltac:(lia)) as (pt & -> & Hpt). cbn [mbind res_bind].
  set (off := if has f1 bitChecksum then 4 + 4 else 4). set (need := if has f1 bitSeq then _ else _).
  assert (Hoff : 4 <= off /\ off + (if has f1 bitKey then 4 else 0) + (if has f1 bitSeq then 4 else 0) = need).
  { unfold off, need. destruct (has f1 bitChecksum), (has f1 bitKey), (has f1 bitSeq); lia. }
  destruct (Z.ltb_spec (zlen b) need) as [|Hneed]; [done|]. pose proof (version_bits f2 Hf2).
  destruct (has f1 bitKey); cbn [mbind res_bind].
  - destruct (slc_ok (E:=error) b off (off + 4)) as (n & -> & Hn & _); [lia|destruct (has f1 bitSeq); lia|]. cbn [mbind res_bind].
    destruct (has f1 bitSeq); cbn [mbind res_bind].
    + destruct (slc_ok (E:=error) b (off + 4) (off + 4 + 4)) as (t & -> & Ht & Hbt); [lia|lia|]. cbn [mbind res_bind]. rewrite Uint32_all by lia. cbn [mbind res_bind].
      pose proof (be_range t (Hbt Hb)) as Hr. replace (zlen t) with 4 in Hr by lia. split; [|split; [done|lia]]. split; cbn; [lia|lia|exact Hr|done].
    + split; [|split; [done|lia]]. split; cbn; [lia|lia|done|done].
  - destruct (has f1 bitSeq); cbn [mbind res_bind].
    + destruct (slc_ok (E:=error) b off (off + 4)) as (t & -> & Ht & Hbt); [lia|lia|]. cbn [mbind res_bind]. rewrite Uint32_all by lia. cbn [mbind res_bind].
      pose proof (be_range t (Hbt Hb)) as Hr. replace (zlen t) with 4 in Hr by lia. split; [|split; [done|lia]]. split; cbn; [lia|done|exact Hr|done].
    + split; [|split; [done|lia]]. split; cbn; [lia|done|done|done].
Qed.

Lemma ParseReduced_total b : is_bytes b -> returns (ParseReduced b) (fun '(r, n) => in_u16 (SrcPort r) /\ in_u16 (DstPort r) /\ 0 <= n <= zlen b).
Proof.
  intros Hb. unfold ParseReduced, ReducedHeaderSize. destruct (Z.ltb_spec (zlen b) 4); [done|].
  destruct (rd_u16 (E:=error) b 0 2 Hb ltac:(lia) ltac:(lia) ltac:(lia)) as (x & -> & Hx). destruct (rd_u16 (E:=error) b 2 4 Hb ltac:(lia) ltac:(lia) ltac:(lia)) as (y & -> & Hy). cbn. split; [done|]. split; [done|]. lia.
Qed.

Lemma ParseVSFProto_total b : is_bytes b -> returns (ParseVSFProto b) (fun '(v, n) => Type_ v = VSFTypeRIST /\ in_u16 (Subtype v) /\ 0 <= n <= zlen b).
Proof.
  intros Hb. unfold ParseVSFProto, VSFProtoSize. destruct (Z.ltb_spec (zlen b) 4); [done|].
  destruct (rd_u16 (E:=error) b 0 2 Hb ltac:(lia) ltac:(lia) ltac:(lia)) as (x & -> & Hx). destruct (rd_u16 (E:=error) b 2 4 Hb ltac:(lia) ltac:(lia) ltac:(lia)) as (y & -> & Hy).
  cbn [mbind res_bind]. destruct (Z.eqb_spec x VSFTypeRIST); [|done]. cbn. split; [done|]. split; [done|]. lia.
Qed.

Lemma ParseBuf_total b : is_bytes b -> returns (ParseBufferNegotiation b) (fun n => in_u16 (SenderMaxMs n) /\ in_u16 (ReceiverCurMs n)).
Proof.
  intros Hb. unfold ParseBufferNegotiation, BufferNegotiationSize. destruct (Z.ltb_spec (zlen b) 6); [done|].
  destruct (rd_u16 (E:=error) b 0 2 Hb ltac:(lia) ltac:(lia) ltac:(lia)) as (x & -> & Hx). destruct (rd_u16 (E:=error) b 2 4 Hb ltac:(lia) ltac:(lia) ltac:(lia)) as (y & -> & Hy).
  destruct (rd_u16 (E:=error) b 4 6 Hb ltac:(lia) ltac:(lia) ltac:(lia)) as (z & -> & Hz). by split.
Qed.

Lemma ParseKeepalive_total b : is_bytes b -> returns (ParseKeepalive b) keepalive_ok.
Proof.
  intros Hb. unfold ParseKeepalive, KeepaliveSize, AdvExtSize. destruct (Z.ltb_spec (zlen b) 8); [done|].
  destruct (slc_ok (E:=error) b 0 6) as (mac & -> & Hm & _); [lia|lia|]. cbn [mbind res_bind].
  destruct (rd_byte (E:=error) b 6 Hb ltac:(lia)) as (x & -> & _). destruct (rd_byte (E:=error) b 7 Hb ltac:(lia)) as (y & -> & _). cbn [mbind res_bind].
  destruct (slc_from_ok (E:=error) b 8) as (rest & -> & Hr & Hbr); [lia|]. cbn [mbind res_bind]. destruct (Z.leb_spec 4 (zlen rest)).
  - destruct (rd_byte (E:=error) rest 0 (Hbr Hb) ltac:(lia)) as (f & -> & _). cbn [mbind res_bind].
    destruct (slc_from_ok (E:=error) rest 4) as (js & -> & _); [lia|]. split; cbn; [lia|done|done].
  - split; cbn; [lia|lia|done].
Qed.

(** ** Properties *)

(** Main-profile framing round-trips: a GRE header of any version, with or without nonce and sequence number, encodes to its announced size and parses back to
    itself with the fields it does not announce cleared, whatever follows; and so do the reduced-overhead, VSF and buffer-negotiation headers behind it. *)
Theorem gre_round_trip h v r n dst rest :
  header_typed h -> Type_ v = VSFTypeRIST -> in_u16 (Subtype v) -> in_u16 (SrcPort r) -> in_u16 (DstPort r) ->
  in_u16 (SenderMaxMs n) -> in_u16 (ReceiverCurMs n) -> in_u16 (ProtoType n) ->
  exists e, AppendTo h dst = (Ok tt, dst ++ e) /\ zlen e = Size h /\ Parse (e ++ rest) = Ok (norm h, Size h) /\
    slc_from (E:=error) (e ++ rest) (Size h) = Ok rest /\
    ParseVSFProto (vsf_AppendTo v [] ++ rest) = Ok (v, VSFProtoSize) /\ ParseReduced (reduced_AppendTo r [] ++ rest) = Ok (r, ReducedHeaderSize) /\
    ParseBufferNegotiation (buf_AppendTo n [] ++ rest) = Ok n.
Proof.
  intros Hh Hv1 Hv2 Hr1 Hr2 Hn1 Hn2 Hn3. exists (enc h). split_and!.
  - by apply AppendTo_enc.
  - by apply enc_Size.
  - by apply gre_Parse_enc.
  - apply slc_from_app. by rewrite enc_Size.
  - by apply ParseVSFProto_enc.
  - by apply ParseReduced_enc.
  - by apply ParseBuf_enc.
Qed.

(** Keep-alives round-trip, all thirteen capability bits and the extended block included; and no parser of the package panics on any bytes: what they accept is
    well-formed, and a header accepted once encodes to one that is accepted again as itself. *)
Theorem gre_parsers_total k b :
  keepalive_ok k -> is_bytes b ->
  ParseKeepalive (keepalive_AppendTo k []) = Ok k /\ zlen (keepalive_AppendTo k []) = keepalive_Size k /\
  returns (Parse b) (fun '(h, off) => header_typed h /\ BaseHeaderSize <= off <= zlen b /\ Parse (enc h ++ b) = Ok (h, Size h)) /\
  returns (ParseReduced b) (fun _ => True) /\ returns (ParseVSFProto b) (fun '(v, _) => Type_ v = VSFTypeRIST) /\ returns (ParseBufferNegotiation b) (fun _ => True) /\
  returns (ParseKeepalive b) (fun k => ParseKeepalive (keepalive_AppendTo k []) = Ok k).
Proof.
  intros Hk Hb. destruct (ParseKeepalive_enc k Hk) as [E1 E2]. pose proof (Parse_total b Hb). pose proof (ParseReduced_total b Hb). pose proof (ParseVSFProto_total b Hb).
  pose proof (ParseBuf_total b Hb). pose proof (ParseKeepalive_total b Hb). unfold returns in *. split_and!; [done|done| | | | |].
  - destruct (Parse b) as [[h off]| |]; [|done..]. destruct H as (Ht & Hn & Ho). split_and!; [done|lia|lia|]. rewrite gre_Parse_enc by done. by rewrite Hn.
  - by destruct (ParseReduced b).
  - destruct (ParseVSFProto b) as [[v n]| |]; [|done..]. by destruct H1.
  - by destruct (ParseBufferNegotiation b).
  - destruct (ParseKeepalive b) as [k'| |]; [|done..]. by apply ParseKeepalive_enc.
Qed.

Definition demo_header : Header := mkHeader 2 true true true [1; 2; 3; 4] 7 ProtoReduced.

Lemma gre_round_trip_witness : exists e, AppendTo demo_header [9] = (Ok tt, [9] ++ e) /\ Parse (e ++ [5]) = Ok (demo_header, 12).
Proof.
  destruct (gre_round_trip demo_header (mkVSF 0 32768) (mkReduced 1971 1968) (mkBuf 1000 0 0) [9] [5]) as (e & H1 & _ & H3 & _);
    try (split; [discriminate|reflexivity]); [split; [split; discriminate|reflexivity|split; [discriminate|reflexivity]|split; [discriminate|reflexivity]]|reflexivity|].
  exists e. split; [exact H1|exact H3].
Defined.

Lemma gre_parsers_total_witness :
  ParseKeepalive (keepalive_AppendTo (mkKeepalive [1; 2; 3; 4; 5; 6] StandardCapabilities false (mkAdvExt false false false) [7]) []) =
    Ok (mkKeepalive [1; 2; 3; 4; 5; 6] StandardCapabilities false (mkAdvExt false false false) [7]).
Proof.
  apply (gre_parsers_total (mkKeepalive [1; 2; 3; 4; 5; 6] StandardCapabilities false (mkAdvExt false false false) [7]) [255; 0]);
    [split; [reflexivity|reflexivity|reflexivity]|repeat constructor; discriminate].
Defined.
End gre.
