(* ===== verification/Lpc.v ===== *)
(** * Payload compression: the LZ4 block codec of src/internal/lpc/lpc.go

    Compress with its hash-table match finder and Decompress with its output bound.  Lengths and positions are Go's int, which
    a slice length never exceeds; a position stored in the table is cut to int32.  The loops take the length of their input as
    fuel, which the theorems show to be enough. *)

From S2P Require Import Prelude Bytes.

Module lpc.

Inductive err := ErrCorrupt | ErrOutputTooLarge.

Definition minMatch : Z := 4.
Definition lastLiterals : Z := 5.
Definition mfLimit : Z := minMatch + lastLiterals.
Definition minLength : Z := mfLimit + 1.
Definition hashLog : Z := 12.
Definition hashTableSize : Z := Z.shiftl 1 hashLog.
Definition runMask : Z := 15.
Definition maxOffset : Z := 65535.

Definition CompressBound (n : Z) : Z := if n <? 0 then 0 else n + Z.quot n 255 + 16.

(** [binary.LittleEndian] *)
Definition LE_Uint16 (b : bytes) : res err Z := p ← slc b 0 2; Ok (be (rev p)).
Definition LE_Uint32 (b : bytes) : res err Z := p ← slc b 0 4; Ok (be (rev p)).

Definition hash (v : Z) : Z := Z.shiftr (u32 (v * 2654435761)) (32 - hashLog).
Definition load32 (b : bytes) (i : Z) : res err Z := t ← slc_from b i; LE_Uint32 t.

(** [table[h]] and [table[h] = v] *)
Definition tget (table : list Z) (h : Z) : res err Z := idx table h.
Definition tset (table : list Z) (h v : Z) : res err (list Z) := put table h [v].

(** ** Emitting *)

Fixpoint append_length (fuel : nat) (dst : bytes) (n : Z) : bytes :=
  match fuel with
  | O => dst ++ [u8 n]
  | S fuel => if 255 <=? n then append_length fuel (dst ++ [255]) (n - 255) else dst ++ [u8 n]
  end.
Definition appendLength (dst : bytes) (n : Z) : bytes := append_length (Z.to_nat (n / 255)) dst n.

Definition emitSequence (dst literals : bytes) (litLen offset matchLen : Z) : bytes :=
  let mtok := matchLen - minMatch in
  let token := if runMask <=? litLen then Z.shiftl runMask 4 else u8 (Z.shiftl (u8 litLen) 4) in
  let token := if runMask <=? mtok then Z.lor token runMask else Z.lor token (u8 mtok) in
  let dst := dst ++ [token] in
  let dst := if runMask <=? litLen then appendLength dst (litLen - runMask) else dst in
  let dst := dst ++ literals in
  let dst := dst ++ [u8 offset; u8 (Z.shiftr offset 8)] in
  if runMask <=? mtok then appendLength dst (mtok - runMask) else dst.

Definition emitLastLiterals (dst literals : bytes) : bytes :=
  let litLen := zlen literals in
  let dst := if runMask <=? litLen then appendLength (dst ++ [Z.shiftl runMask 4]) (litLen - runMask) else dst ++ [u8 (Z.shiftl (u8 litLen) 4)] in
  dst ++ literals.

(** ** Compress *)

(** The loop that extends a match forward; it returns [mEnd]. *)
Fixpoint extend (fuel : nat) (src : bytes) (matchLimit mEnd rEnd : Z) : res err Z :=
  match fuel with
  | O => Panic
  | S fuel =>
      if mEnd <? matchLimit then
        a ← idx src mEnd; b ← idx src rEnd;
        if a =? b then extend fuel src matchLimit (mEnd + 1) (rEnd + 1) else Ok mEnd
      else Ok mEnd
  end.

Fixpoint compress_loop (fuel : nat) (src : bytes) (ip anchor : Z) (table : list Z) (dst : bytes) : res err bytes :=
  let matchLimit := zlen src - lastLiterals in
  let searchLimit := zlen src - mfLimit in
  match fuel with
  | O => Panic
  | S fuel =>
      if ip <=? searchLimit then
        w ← load32 src ip;
        let h := hash w in
        ref ← tget table h;
        table ← tset table h (i32 ip);
        miss ← (if (ref <? 0) || (maxOffset <? ip - ref) then Ok true
                else x ← load32 src ref; y ← load32 src ip; Ok (negb (x =? y)));
        if (miss : bool) then compress_loop fuel src (ip + 1) anchor table dst else
        mEnd ← extend (S (length src)) src matchLimit (ip + minMatch) (ref + minMatch);
        let matchLen := mEnd - ip in
        let litLen := ip - anchor in
        literals ← slc src anchor ip;
        let dst := emitSequence dst literals litLen (ip - ref) matchLen in
        table ← (if (0 <=? mEnd - 1) && (mEnd - 1 <=? searchLimit)
                 then w ← load32 src (mEnd - 1); tset table (hash w) (i32 (mEnd - 1)) else Ok table);
        compress_loop fuel src mEnd mEnd table dst
      else literals ← slc_from src anchor; Ok (emitLastLiterals dst literals)
  end.

Definition Compress (dst src : bytes) : res err bytes :=
  if zlen src <? minLength then Ok (emitLastLiterals dst src) else
  let table := replicate (Z.to_nat hashTableSize) (-1) in
  w ← load32 src 0;
  table ← tset table (hash w) (i32 0);
  compress_loop (S (length src)) src 1 0 table dst.

(** ** Decompress *)

Fixpoint read_length (fuel : nat) (src : bytes) (sp total advance : Z) : res err (Z * Z * bool) :=
  match fuel with
  | O => Panic
  | S fuel =>
      if zlen src <=? sp then Ok (0, 0, false) else
      b ← idx src sp;
      let total := total + b in
      if negb (b =? 255) then Ok (total, advance + 1, true) else read_length fuel src (sp + 1) total (advance + 1)
  end.
Definition readLength (src : bytes) (sp : Z) : res err (Z * Z * bool) := read_length (S (length src)) src sp 0 0.

(** [for i := 0; i < matchLen; i++ { out = append(out, out[matchPos+i]) }] *)
Fixpoint copy_match (n : nat) (out : bytes) (pos : Z) : res err bytes :=
  match n with O => Ok out | S n => b ← idx out pos; copy_match n (out ++ [b]) (pos + 1) end.

(** A length nibble and its continuation: the length and the new cursor. *)
Definition read_run (src : bytes) (sp nibble base : Z) : res err (Z * Z) :=
  if nibble =? runMask then
    '(extra, adv, ok) ← readLength src sp;
    if (ok : bool) then Ok (base + extra, sp + adv) else Err ErrCorrupt
  else Ok (base, sp).

Fixpoint decompress_loop (fuel : nat) (src : bytes) (maxOut outStart sp : Z) (out : bytes) : res err bytes :=
  let n := zlen src in
  match fuel with
  | O => Panic
  | S fuel =>
      if sp <? n then
        token ← idx src sp;
        let sp := sp + 1 in
        '(litLen, sp) ← read_run src sp (Z.shiftr token 4) (Z.shiftr token 4);
        if (litLen <? 0) || (n - sp <? litLen) then Err ErrCorrupt else
        if maxOut <? zlen out - outStart + litLen then Err ErrOutputTooLarge else
        lits ← slc src sp (sp + litLen);
        let out := out ++ lits in
        let sp := sp + litLen in
        if sp =? n then Ok out else
        if n <? sp + 2 then Err ErrCorrupt else
        offset ← (t ← slc_from src sp; LE_Uint16 t);
        let sp := sp + 2 in
        if offset =? 0 then Err ErrCorrupt else
        '(matchLen, sp) ← read_run src sp (Z.land token runMask) (Z.land token runMask + minMatch);
        let matchPos := zlen out - offset in
        if matchPos <? outStart then Err ErrCorrupt else
        if maxOut <? zlen out - outStart + matchLen then Err ErrOutputTooLarge else
        out ← copy_match (Z.to_nat matchLen) out matchPos;
        if sp =? n then Err ErrCorrupt else
        decompress_loop fuel src maxOut outStart sp out
      else Ok out
  end.

Definition Decompress (dst src : bytes) (maxOut : Z) : res err bytes :=
  let maxOut := if maxOut <? 0 then 0 else maxOut in
  decompress_loop (S (length src)) src maxOut (zlen dst) 0 dst.

Example lz4_run : (b ← Compress [] (replicate 40 7 ++ [1;2;3]); o ← Decompress [] b 100; Ok (b, o)) = Ok ([31; 7; 1; 0; 18; 80; 7; 7; 1; 2; 3], replicate 40 7 ++ [1;2;3]).
Proof. vm_compute. reflexivity. Qed.

(** ** Lengths on the wire *)

(** The continuation bytes of a length, and the bytes a run of [n] adds after its nibble. *)
Definition lenc (n : Z) : bytes := replicate (Z.to_nat (n / 255)) 255 ++ [n mod 255].
Definition nib (n : Z) : Z := if runMask <=? n then runMask else n.
Definition ext (n : Z) : bytes := if runMask <=? n then lenc (n - runMask) else [].

Lemma append_length_lenc k dst n : 0 <= n -> k = Z.to_nat (n / 255) -> append_length k dst n = dst ++ lenc n.
Proof.
  revert dst n. induction k as [|k IH]; intros dst n Hn Hk; pose proof (Z.div_mod n 255 ltac:(done)) as Hd; pose proof (Z.mod_pos_bound n 255 ltac:(done)); cbn [append_length].
  - assert (Hz : n / 255 = 0) by (pose proof (Z.div_pos n 255); lia). unfold lenc. rewrite Hz in Hd |- *. cbn. unfold u8, uwrap. rewrite (Z.mod_small n (2 ^ 8)) by lia.
    by replace (n mod 255) with n by lia.
  - destruct (Z.leb_spec 255 n); [|rewrite (Z.div_small n 255) in Hk by lia; done].
    assert (E : (n - 255) / 255 = n / 255 - 1) by (replace (n - 255) with (n + (-1) * 255) by lia; rewrite Z.div_add by done; lia).
    assert (Em : (n - 255) mod 255 = n mod 255) by (replace (n - 255) with (n + (-1) * 255) by lia; by rewrite Z.mod_add).
    rewrite IH by (rewrite ?E; lia). unfold lenc. rewrite E, Em, <-Hk. replace (Z.to_nat (n / 255 - 1)) with k by lia. by rewrite <-app_assoc.
Qed.

Lemma appendLength_lenc dst n : 0 <= n -> appendLength dst n = dst ++ lenc n.
Proof. intros Hn. by apply append_length_lenc. Qed.

Lemma read_length_full k fuel A x B total adv : (k < fuel)%nat -> in_u8 x -> x <> 255 ->
  read_length fuel (A ++ replicate k 255 ++ x :: B) (zlen A) total adv = Ok (total + Z.of_nat k * 255 + x, adv + Z.of_nat k + 1, true).
Proof.
  revert fuel A total adv. induction k as [|k IH]; intros [|fuel] A total adv Hf Hx Hne; try lia; cbn [read_length replicate app].
  all: match goal with |- context [zlen ?s <=? zlen ?a] => destruct (Z.leb_spec (zlen s) (zlen a)) as [Hc|_] end;
    [exfalso; match goal with H : zlen (_ ++ _ :: ?t) <= _ |- _ => rewrite zlen_app, zlen_cons in H; pose proof (zlen_nonneg t) end; lia|].
  all: rewrite idx_app by done; cbn [mbind res_bind].
  - destruct (Z.eqb_spec x 255); [done|]. cbn [negb]. do 3 f_equal; lia.
  - cbn [Z.eqb negb Pos.eqb]. specialize (IH fuel (A ++ [255]) (total + 255) (adv + 1)). rewrite <-app_assoc in IH. cbn [app] in IH.
    replace (zlen (A ++ [255])) with (zlen A + 1) in IH by (rewrite zlen_app; done). rewrite IH by (lia || done). do 3 f_equal; lia.
Qed.

Lemma zlen_lenc n : 0 <= n -> zlen (lenc n) = n / 255 + 1.
Proof. intros Hn. unfold lenc. zlens. pose proof (Z.div_pos n 255). lia. Qed.

Lemma readLength_lenc A n B : 0 <= n -> readLength (A ++ lenc n ++ B) (zlen A) = Ok (n, zlen (lenc n), true).
Proof.
  intros Hn. unfold readLength, lenc. rewrite <-app_assoc. cbn [app]. pose proof (Z.mod_pos_bound n 255 ltac:(done)). pose proof (Z.div_mod n 255 ltac:(done)). pose proof (Z.div_pos n 255).
  rewrite read_length_full; [|rewrite !length_app, length_replicate; cbn; lia|unfold in_u8; lia|lia].
  zlens. do 3 f_equal; lia.
Qed.

(** Reading a nibble and its continuation gives the length that was written. *)
Lemma read_run_ext A n c B : 0 <= n -> read_run (A ++ ext n ++ B) (zlen A) (nib n) (nib n + c) = Ok (n + c, zlen A + zlen (ext n)).
Proof.
  intros Hn. unfold read_run, nib, ext. destruct (Z.leb_spec runMask n).
  - rewrite Z.eqb_refl, readLength_lenc by lia. cbn [mbind res_bind]. do 2 f_equal; lia.
  - destruct (Z.eqb_spec n runMask); [lia|]. do 2 f_equal. rewrite zlen_nil. lia.
Qed.

Lemma nib_range n : 0 <= n -> 0 <= nib n < 16.
Proof. intros. unfold nib, runMask. case_cmp; lia. Qed.

Lemma nibbles l m : 0 <= l < 16 -> 0 <= m < 16 ->
  Z.lor (Z.shiftl l 4) m = 16 * l + m /\ Z.shiftr (16 * l + m) 4 = l /\ Z.land (16 * l + m) runMask = m /\ u8 (Z.shiftl (u8 l) 4) = Z.shiftl l 4 /\ u8 m = m.
Proof.
  intros Hl Hm. assert (Hl' : l ∈ seqZ 0 16) by (apply elem_of_seqZ; lia). assert (Hm' : m ∈ seqZ 0 16) by (apply elem_of_seqZ; lia).
  assert (H : forallb (fun l => forallb (fun m => bool_decide (Z.lor (Z.shiftl l 4) m = 16 * l + m /\ Z.shiftr (16 * l + m) 4 = l /\ Z.land (16 * l + m) runMask = m /\
    u8 (Z.shiftl (u8 l) 4) = Z.shiftl l 4 /\ u8 m = m)) (seqZ 0 16)) (seqZ 0 16) = true) by (vm_compute; reflexivity).
  rewrite forallb_forall in H. specialize (H l (proj1 (list_elem_of_In _ _) Hl')). cbn beta in H. rewrite forallb_forall in H.
  specialize (H m (proj1 (list_elem_of_In _ _) Hm')). by apply bool_decide_eq_true in H.
Qed.

(** ** What the emitters write *)

Definition seqenc (lits : bytes) (off mlen : Z) : bytes :=
  [16 * nib (zlen lits) + nib (mlen - minMatch)] ++ ext (zlen lits) ++ lits ++ [off mod 256; off / 256] ++ ext (mlen - minMatch).
Definition lastenc (lits : bytes) : bytes := [16 * nib (zlen lits)] ++ ext (zlen lits) ++ lits.

Lemma token_lit l : 0 <= l -> (if runMask <=? l then Z.shiftl runMask 4 else u8 (Z.shiftl (u8 l) 4)) = Z.shiftl (nib l) 4.
Proof. intros Hl. unfold nib. destruct (Z.leb_spec runMask l); [done|]. unfold runMask in *. by apply (nibbles l 0); lia. Qed.

Lemma emitSequence_enc dst lits off mlen : 1 <= off <= maxOffset -> minMatch <= mlen ->
  emitSequence dst lits (zlen lits) off mlen = dst ++ seqenc lits off mlen.
Proof.
  intros Ho Hm. unfold emitSequence, seqenc. pose proof (zlen_nonneg lits) as Hl. rewrite token_lit by done.
  destruct (nibbles (nib (zlen lits)) (nib (mlen - minMatch))) as (E & _); [by apply nib_range|apply nib_range; lia|].
  assert (Etok : (if runMask <=? mlen - minMatch then Z.lor (Z.shiftl (nib (zlen lits)) 4) runMask else Z.lor (Z.shiftl (nib (zlen lits)) 4) (u8 (mlen - minMatch)))
                 = 16 * nib (zlen lits) + nib (mlen - minMatch)).
  { rewrite <-E. assert (En : nib (mlen - minMatch) = if runMask <=? mlen - minMatch then runMask else u8 (mlen - minMatch)); [|rewrite En; by destruct (runMask <=? mlen - minMatch)].
    unfold nib. destruct (Z.leb_spec runMask (mlen - minMatch)); [done|]. symmetry. apply (nibbles 0); [lia|]. unfold runMask in *. lia. }
  rewrite Etok. assert (Eo : [u8 off; u8 (Z.shiftr off 8)] = [off mod 256; off / 256]).
  { unfold u8, uwrap. rewrite Z.shiftr_div_pow2 by done. change (2 ^ 8) with 256. rewrite (Z.mod_small (off / 256)); [done|].
    unfold maxOffset in Ho. split; [apply Z.div_pos; lia|apply Z.div_lt_upper_bound; lia]. }
  rewrite Eo. unfold ext. destruct (Z.leb_spec runMask (zlen lits)), (Z.leb_spec runMask (mlen - minMatch)); rewrite ?appendLength_lenc by lia; by rewrite <-?app_assoc, ?app_nil_r.
Qed.

Lemma emitLastLiterals_enc dst lits : emitLastLiterals dst lits = dst ++ lastenc lits.
Proof.
  unfold emitLastLiterals, lastenc. pose proof (zlen_nonneg lits) as Hl. pose proof (token_lit _ Hl) as Et.
  destruct (nibbles (nib (zlen lits)) 0) as (E & _); [by apply nib_range|lia|]. rewrite Z.lor_0_r, Z.add_0_r in E. unfold ext.
  destruct (Z.leb_spec runMask (zlen lits)); rewrite <-E, <-Et; rewrite ?appendLength_lenc by lia; by rewrite <-!app_assoc.
Qed.

(** ** Decoding one sequence *)

Lemma at_read_run b i n c : At b i (ext n) -> 0 <= n -> read_run b i (nib n) (nib n + c) = Ok (n + c, i + zlen (ext n)).
Proof. intros (A & B & -> & <-) Hn. by apply read_run_ext. Qed.

Lemma at_le16 b i x y : At b i [x; y] -> (t ← slc_from b i; LE_Uint16 t) = Ok (y * 256 + x).
Proof. intros (A & B & -> & <-). rewrite slc_from_app by done. cbn [mbind res_bind]. unfold LE_Uint16. by rewrite slc_here. Qed.

Lemma zlen_pos {A} (l : list A) : l <> [] -> 0 < zlen l.
Proof. destruct l; [done|]. intros _. rewrite zlen_cons. pose proof (zlen_nonneg l). lia. Qed.

Lemma decode_sequence fuel A lits off mlen B maxOut outStart out o : 1 <= off <= maxOffset -> minMatch <= mlen -> B <> [] ->
  outStart <= zlen out + zlen lits - off -> zlen out + zlen lits - outStart + mlen <= maxOut ->
  copy_match (Z.to_nat mlen) (out ++ lits) (zlen out + zlen lits - off) = Ok o ->
  decompress_loop (S fuel) (A ++ seqenc lits off mlen ++ B) maxOut outStart (zlen A) out =
  decompress_loop fuel (A ++ seqenc lits off mlen ++ B) maxOut outStart (zlen A + zlen (seqenc lits off mlen)) o.
Proof.
  intros Ho Hm HB Hs Hmax Hcp. cbn [decompress_loop]. pose proof (zlen_nonneg lits) as Hl. pose proof (zlen_pos B HB) as HBp. pose proof (zlen_nonneg A) as HA.
  pose proof (zlen_nonneg (ext (zlen lits))) as Hx1. pose proof (zlen_nonneg (ext (mlen - minMatch))) as Hx2.
  destruct (nibbles (nib (zlen lits)) (nib (mlen - minMatch))) as (_ & E1 & E2 & _); [by apply nib_range|apply nib_range; lia|].
  remember (A ++ seqenc lits off mlen ++ B) as src eqn:Esrc. set (tok := 16 * nib (zlen lits) + nib (mlen - minMatch)) in *.
  assert (Esrc' : src = A ++ [tok] ++ ext (zlen lits) ++ lits ++ [off mod 256; off / 256] ++ ext (mlen - minMatch) ++ B) by (rewrite Esrc; unfold seqenc; by rewrite <-!app_assoc).
  assert (Hn : zlen src = zlen A + 1 + zlen (ext (zlen lits)) + zlen lits + 2 + zlen (ext (mlen - minMatch)) + zlen B) by (rewrite Esrc'; zlens; lia).
  assert (Hsq : zlen (seqenc lits off mlen) = 1 + zlen (ext (zlen lits)) + zlen lits + 2 + zlen (ext (mlen - minMatch))) by (unfold seqenc; zlens; lia).
  assert (H0 : At src (zlen A) [tok]) by (rewrite Esrc'; at_solve).
  assert (H1 : At src (zlen A + 1) (ext (zlen lits))) by (rewrite Esrc'; apply at_skip; apply at_skip; apply at_here; zlens; lia).
  assert (H2 : At src (zlen A + 1 + zlen (ext (zlen lits))) lits) by (rewrite Esrc'; do 3 apply at_skip; apply at_here; zlens; lia).
  assert (H3 : At src (zlen A + 1 + zlen (ext (zlen lits)) + zlen lits) [off mod 256; off / 256]) by (rewrite Esrc'; do 4 apply at_skip; apply at_here; zlens; lia).
  assert (H4 : At src (zlen A + 1 + zlen (ext (zlen lits)) + zlen lits + 2) (ext (mlen - minMatch))) by (rewrite Esrc'; do 5 apply at_skip; apply at_here; zlens; lia).
  clear Esrc Esrc'. destruct (Z.ltb_spec (zlen A) (zlen src)); [|lia]. rewrite (at_idx _ _ _ H0). cbn [mbind res_bind]. rewrite E1, E2.
  pose proof (at_read_run _ _ _ 0 H1 Hl) as R1. rewrite !Z.add_0_r in R1. rewrite R1. cbn [mbind res_bind].
  destruct (Z.ltb_spec (zlen lits) 0); [lia|]. destruct (Z.ltb_spec (zlen src - (zlen A + 1 + zlen (ext (zlen lits)))) (zlen lits)); [lia|]. cbn [orb].
  destruct (Z.ltb_spec maxOut (zlen out - outStart + zlen lits)); [unfold minMatch in *; lia|]. rewrite (at_slc _ _ _ _ H2) by done. cbn [mbind res_bind].
  destruct (Z.eqb_spec (zlen A + 1 + zlen (ext (zlen lits)) + zlen lits) (zlen src)); [lia|].
  destruct (Z.ltb_spec (zlen src) (zlen A + 1 + zlen (ext (zlen lits)) + zlen lits + 2)); [lia|].
  pose proof (at_le16 _ _ _ _ H3) as R3. unfold mbind, res_bind in R3 |- *. rewrite R3. replace (off / 256 * 256 + off mod 256) with off by (pose proof (Z.div_mod off 256); lia).
  destruct (Z.eqb_spec off 0); [lia|]. rewrite (at_read_run _ _ _ minMatch H4) by lia. replace (mlen - minMatch + minMatch) with mlen by lia. rewrite zlen_app.
  destruct (Z.ltb_spec (zlen out + zlen lits - off) outStart); [lia|]. destruct (Z.ltb_spec maxOut (zlen out + zlen lits - outStart + mlen)); [lia|]. rewrite Hcp.
  match goal with |- context [?x =? zlen src] => destruct (Z.eqb_spec x (zlen src)) end; [lia|]. f_equal. lia.
Qed.

Lemma decode_last fuel A lits maxOut outStart out : zlen out + zlen lits - outStart <= maxOut ->
  decompress_loop (S fuel) (A ++ lastenc lits) maxOut outStart (zlen A) out = Ok (out ++ lits).
Proof.
  intros Hmax. cbn [decompress_loop]. pose proof (zlen_nonneg lits) as Hl. pose proof (zlen_nonneg A) as HA. pose proof (zlen_nonneg (ext (zlen lits))) as Hx1.
  destruct (nibbles (nib (zlen lits)) 0) as (_ & E1 & _); [by apply nib_range|lia|]. rewrite Z.add_0_r in E1.
  remember (A ++ lastenc lits) as src eqn:Esrc. set (tok := 16 * nib (zlen lits)) in *.
  assert (Hn : zlen src = zlen A + 1 + zlen (ext (zlen lits)) + zlen lits) by (rewrite Esrc; unfold lastenc; zlens; lia).
  assert (H0 : At src (zlen A) [tok]) by (rewrite Esrc; unfold lastenc; at_solve).
  assert (H1 : At src (zlen A + 1) (ext (zlen lits))) by (rewrite Esrc; unfold lastenc; apply at_skip; apply at_skip; apply at_here; zlens; lia).
  assert (H2 : At src (zlen A + 1 + zlen (ext (zlen lits))) lits) by (rewrite Esrc; unfold lastenc; do 3 apply at_skip; apply at_end; zlens; lia).
  clear Esrc. destruct (Z.ltb_spec (zlen A) (zlen src)); [|lia]. rewrite (at_idx _ _ _ H0). cbn [mbind res_bind]. rewrite E1.
  pose proof (at_read_run _ _ _ 0 H1 Hl) as R1. rewrite !Z.add_0_r in R1. rewrite R1. cbn [mbind res_bind].
  destruct (Z.ltb_spec (zlen lits) 0); [lia|]. destruct (Z.ltb_spec (zlen src - (zlen A + 1 + zlen (ext (zlen lits)))) (zlen lits)); [lia|]. cbn [orb].
  destruct (Z.ltb_spec maxOut (zlen out - outStart + zlen lits)); [lia|]. rewrite (at_slc _ _ _ _ H2) by done. cbn [mbind res_bind].
  destruct (Z.eqb_spec (zlen A + 1 + zlen (ext (zlen lits)) + zlen lits) (zlen src)); [done|lia].
Qed.

(** The back-reference copy reproduces the next bytes of [src] when they repeat earlier ones, overlapping or not. *)
Lemma copy_match_repeat n (src pre : bytes) r j : (r < j)%nat -> (j + n <= length src)%nat -> (forall i, (i < n)%nat -> src !! (r + i)%nat = src !! (j + i)%nat) ->
  copy_match n (pre ++ take j src) (zlen pre + Z.of_nat r) = Ok (pre ++ take (j + n) src).
Proof.
  revert r j. induction n as [|n IH]; intros r j Hr Hj Heq; [by rewrite Nat.add_0_r|]. cbn [copy_match].
  destruct (lookup_lt_is_Some_2 src j) as [x Hx]; [lia|]. pose proof (Heq 0%nat ltac:(lia)) as H0. rewrite !Nat.add_0_r, Hx in H0.
  assert (Hidx : idx (E:=err) (pre ++ take j src) (zlen pre + Z.of_nat r) = Ok x).
  { unfold idx, zlen. destruct (Z.ltb_spec (Z.of_nat (length pre) + Z.of_nat r) 0); [lia|]. rewrite lookup_app_r by lia.
    replace (Z.to_nat (Z.of_nat (length pre) + Z.of_nat r) - length pre)%nat with r by lia. rewrite lookup_take_lt by lia. by rewrite H0. }
  rewrite Hidx. cbn [mbind res_bind]. rewrite <-app_assoc, <-take_S_r by done. specialize (IH (S r) (S j)).
  replace (zlen pre + Z.of_nat (S r)) with (zlen pre + Z.of_nat r + 1) in IH by lia. rewrite IH; [|lia|lia|].
  - do 3 f_equal. lia.
  - intros i Hi. specialize (Heq (S i) ltac:(lia)). by rewrite <-!Nat.add_succ_comm in Heq.
Qed.

(** ** The match finder *)

Lemma load32_spec src i : is_bytes src -> 0 <= i -> i + 4 <= zlen src ->
  exists p, load32 src i = Ok (be (rev p)) /\ At src i p /\ length p = 4%nat /\ is_bytes p.
Proof.
  intros Hb Hi Hn. destruct (slc_at (E:=err) src i (i + 4)) as (p & _ & (A & B & E & HA) & Hp); [lia|lia|]. exists p.
  assert (H4 : zlen p = 4) by lia. split; [|split; [by exists A, B|split; [unfold zlen in H4; lia|]]].
  - unfold load32. rewrite E, slc_from_app by done. cbn [mbind res_bind]. unfold LE_Uint32. by rewrite slc_here.
  - rewrite E in Hb. apply Forall_app in Hb as [_ Hb]. by apply Forall_app in Hb as [Hb _].
Qed.

Lemma at_lookup (b : bytes) i p k : At b i p -> (k < length p)%nat -> b !! (Z.to_nat i + k)%nat = p !! k.
Proof.
  intros (A & B & -> & <-) Hk. unfold zlen. rewrite Nat2Z.id, lookup_app_r by lia. replace (length A + k - length A)%nat with k by lia. by rewrite lookup_app_l.
Qed.

Lemma load32_eq src i j v : is_bytes src -> 0 <= i -> i + 4 <= zlen src -> 0 <= j -> j + 4 <= zlen src ->
  load32 src i = Ok v -> load32 src j = Ok v -> forall k, (k < 4)%nat -> src !! (Z.to_nat i + k)%nat = src !! (Z.to_nat j + k)%nat.
Proof.
  intros Hb Hi Hi4 Hj Hj4 E1 E2 k Hk. destruct (load32_spec src i Hb Hi Hi4) as (p & Ep & Ap & Lp & Bp). destruct (load32_spec src j Hb Hj Hj4) as (q & Eq & Aq & Lq & Bq).
  rewrite (at_lookup _ _ _ _ Ap), (at_lookup _ _ _ _ Aq) by lia. assert (Er : be (rev p) = be (rev q)) by congruence.
  assert (rev p = rev q) as Hrev.
  { rewrite <-(be_bytes_be (rev p)), <-(be_bytes_be (rev q)) by (by apply Forall_rev). rewrite !length_rev, Lp, Lq. by rewrite Er. }
  rewrite <-(rev_involutive p), Hrev, rev_involutive. done.
Qed.

Lemma hash_range v : 0 <= hash v < hashTableSize.
Proof.
  unfold hash. rewrite Z.shiftr_div_pow2 by done. pose proof (u32_range (v * 2654435761)) as H. unfold in_u32 in H. change (2 ^ (32 - hashLog)) with 1048576. change hashTableSize with 4096.
  split; [apply Z.div_pos; lia|apply Z.div_lt_upper_bound; lia].
Qed.

Lemma i32_le n : 0 <= n -> i32 n <= n.
Proof. intros Hn. unfold i32, swrap. pose proof (Z.mod_le (n + 2 ^ (32 - 1)) (2 ^ 32)). lia. Qed.

(** The table holds positions already scanned. *)
Definition table_ok (table : list Z) (ip : Z) : Prop := zlen table = hashTableSize /\ Forall (fun t => t < ip) table.

Lemma tget_ok table ip h : table_ok table ip -> 0 <= h < hashTableSize -> exists r, tget table h = Ok r /\ r < ip.
Proof.
  intros [Hl Hf] Hh. unfold tget, idx. destruct (Z.ltb_spec h 0); [lia|]. destruct (lookup_lt_is_Some_2 table (Z.to_nat h)) as [r Hr]; [unfold zlen in Hl; lia|].
  exists r. rewrite Hr. split; [done|]. exact (Forall_lookup_1 _ _ _ _ Hf Hr).
Qed.

Lemma tset_ok table ip h v ip' : table_ok table ip -> 0 <= h < hashTableSize -> ip <= ip' -> v < ip' -> exists t, tset table h v = Ok t /\ table_ok t ip'.
Proof.
  intros [Hl Hf] Hh Hip Hv. unfold tset, put. change (zlen [v]) with 1. rewrite !(proj2 (Z.leb_le _ _)) by lia. cbn [andb]. eexists. split; [done|]. split.
  - unfold zlen in *. rewrite !length_app, length_take, length_drop. cbn [length]. lia.
  - assert (Hf' : Forall (fun t => t < ip') table) by (eapply Forall_impl; [exact Hf|]; cbn; lia).
    apply Forall_app. split; [by apply Forall_take|]. constructor; [done|by apply Forall_drop].
Qed.

Lemma extend_ok fuel src lim m r : 0 <= r < m -> m <= lim -> lim <= zlen src -> lim - m < Z.of_nat fuel ->
  exists e, extend fuel src lim m r = Ok e /\ m <= e <= lim /\ forall k, (Z.of_nat k < e - m) -> src !! (Z.to_nat r + k)%nat = src !! (Z.to_nat m + k)%nat.
Proof.
  revert m r. induction fuel as [|fuel IH]; intros m r Hr Hm Hlim Hf; [lia|]. cbn [extend].
  destruct (Z.ltb_spec m lim); [|exists m; split; [done|]; split; [lia|]; intros; lia].
  assert (Hidx : forall i, 0 <= i < zlen src -> exists x, idx (E:=err) src i = Ok x /\ src !! Z.to_nat i = Some x).
  { intros i Hi. unfold idx. destruct (Z.ltb_spec i 0); [lia|]. destruct (lookup_lt_is_Some_2 src (Z.to_nat i)) as [x Hx]; [unfold zlen in Hi; lia|]. exists x. by rewrite Hx. }
  destruct (Hidx m ltac:(lia)) as (a & -> & Ha). destruct (Hidx r ltac:(lia)) as (b & -> & Hb). cbn [mbind res_bind].
  destruct (Z.eqb_spec a b) as [-> |]; [|exists m; split; [done|]; split; [lia|]; intros; lia].
  destruct (IH (m + 1) (r + 1)) as (e & -> & He & Hk); [lia|lia|lia|lia|]. exists e. split; [done|]. split; [lia|]. intros [|k] Hke; [by rewrite !Nat.add_0_r, Ha, Hb|].
  specialize (Hk k ltac:(lia)). rewrite !Z2Nat.inj_add in Hk by lia. change (Z.to_nat 1) with 1%nat in Hk. by rewrite <-!Nat.add_assoc in Hk.
Qed.

Lemma zlen_ext n : 0 <= n -> zlen (ext n) = if runMask <=? n then (n - runMask) / 255 + 1 else 0.
Proof. intros Hn. unfold ext. destruct (Z.leb_spec runMask n); [|done]. apply zlen_lenc. lia. Qed.

Lemma zlen_seqenc lits off mlen : minMatch <= mlen -> 1 <= zlen (seqenc lits off mlen) <= zlen lits + mlen + zlen lits / 255.
Proof.
  intros Hm. unfold seqenc. zlens. pose proof (zlen_nonneg lits). rewrite !zlen_ext by lia. unfold minMatch, runMask in *.
  destruct (Z.leb_spec 15 (zlen lits)), (Z.leb_spec 15 (mlen - 4)); Z.to_euclidean_division_equations; lia.
Qed.

Lemma zlen_lastenc lits : 1 <= zlen (lastenc lits) <= zlen lits + zlen lits / 255 + 2.
Proof.
  unfold lastenc. zlens. pose proof (zlen_nonneg lits). rewrite !zlen_ext by lia. unfold runMask in *. destruct (Z.leb_spec 15 (zlen lits)); Z.to_euclidean_division_equations; lia.
Qed.

(** [blk] is a terminated block that decodes to what [src] holds from [anchor] on, and is no larger than the bound. *)
Definition encodes (src : bytes) (anchor : Z) (blk : bytes) : Prop :=
  1 <= zlen blk <= (zlen src - anchor) + (zlen src - anchor) / 255 + 2 /\
  forall A out0 maxOut fuel, zlen src <= maxOut -> zlen blk <= Z.of_nat fuel ->
    decompress_loop fuel (A ++ blk) maxOut (zlen out0) (zlen A) (out0 ++ take (Z.to_nat anchor) src) = Ok (out0 ++ src).

Lemma encodes_last src anchor : 0 <= anchor <= zlen src -> encodes src anchor (lastenc (drop (Z.to_nat anchor) src)).
Proof.
  intros Ha. assert (Hd : zlen (drop (Z.to_nat anchor) src) = zlen src - anchor) by (rewrite zlen_drop; lia).
  pose proof (zlen_lastenc (drop (Z.to_nat anchor) src)) as Hs. rewrite Hd in Hs. split; [done|]. intros A out0 maxOut [|fuel] Hmax Hf; [lia|].
  rewrite decode_last; [by rewrite <-app_assoc, take_drop|]. rewrite Hd, zlen_app. unfold zlen in *. rewrite length_take. lia.
Qed.

Lemma encodes_sequence src anchor ip ref e lits blk : 0 <= anchor <= ip -> 0 <= ref < ip -> ip - ref <= maxOffset -> ip + minMatch <= e <= zlen src -> At src anchor lits -> zlen lits = ip - anchor ->
  (forall k, Z.of_nat k < e - ip -> src !! (Z.to_nat ref + k)%nat = src !! (Z.to_nat ip + k)%nat) ->
  encodes src e blk -> encodes src anchor (seqenc lits (ip - ref) (e - ip) ++ blk).
Proof.
  intros Ha Hr Ho He Hl Hll Hk [Hs Hd]. unfold minMatch in He. pose proof (zlen_seqenc lits (ip - ref) (e - ip)) as Hq. rewrite Hll in Hq. unfold minMatch in Hq. specialize (Hq ltac:(lia)).
  split; [rewrite zlen_app; Z.to_euclidean_division_equations; lia|]. intros A out0 maxOut fuel Hmax Hf. rewrite zlen_app in Hf. destruct fuel as [|fuel]; [lia|].
  assert (Htake : take (Z.to_nat anchor) src ++ lits = take (Z.to_nat ip) src).
  { destruct Hl as (P & Q & -> & HP). unfold zlen in HP, Hll. replace (Z.to_nat anchor) with (length P) by lia. replace (Z.to_nat ip) with (length (P ++ lits)) by (rewrite length_app; lia).
    rewrite take_app_length, app_assoc. by rewrite take_app_length. }
  assert (Hlen : forall j, 0 <= j <= zlen src -> zlen (take (Z.to_nat j) src) = j) by (intros j Hj; unfold zlen in *; rewrite length_take; lia).
  assert (Hout : zlen (out0 ++ take (Z.to_nat anchor) src) + zlen lits = zlen out0 + ip) by (rewrite zlen_app, Hlen by lia; lia).
  rewrite (decode_sequence fuel A lits (ip - ref) (e - ip) blk maxOut (zlen out0) _ (out0 ++ take (Z.to_nat e) src)).
  - specialize (Hd (A ++ seqenc lits (ip - ref) (e - ip)) out0 maxOut fuel Hmax ltac:(lia)). rewrite <-app_assoc, zlen_app in Hd. exact Hd.
  - unfold maxOffset in *. lia.
  - unfold minMatch. lia.
  - intros ->. rewrite zlen_nil in Hs. lia.
  - lia.
  - lia.
  - rewrite Hout, <-app_assoc, Htake. replace (zlen out0 + ip - (ip - ref)) with (zlen out0 + Z.of_nat (Z.to_nat ref)) by lia. rewrite copy_match_repeat.
    + do 3 f_equal. lia.
    + lia.
    + unfold zlen in He. lia.
    + intros i Hi. apply Hk. lia.
Qed.

Lemma slc_from_drop b i : 0 <= i <= zlen b -> slc_from (E:=err) b i = Ok (drop (Z.to_nat i) b).
Proof. intros Hi. unfold slc_from, slc. rewrite !(proj2 (Z.leb_le _ _)) by lia. cbn [andb]. unfold zlen. rewrite Nat2Z.id, take_ge by lia. done. Qed.

Lemma table_ok_mono table ip ip' : table_ok table ip -> ip <= ip' -> table_ok table ip'.
Proof. intros [Hl Hf] H. split; [done|]. eapply Forall_impl; [exact Hf|]. cbn. lia. Qed.

Lemma compress_loop_ok fuel src ip anchor table dst : is_bytes src -> 0 <= anchor <= ip -> ip + lastLiterals <= zlen src -> table_ok table ip ->
  Z.max 0 (zlen src - mfLimit + 1 - ip) < Z.of_nat fuel -> exists blk, compress_loop fuel src ip anchor table dst = Ok (dst ++ blk) /\ encodes src anchor blk.
Proof.
  intros Hb. unfold mfLimit, lastLiterals, minMatch. revert ip anchor table dst. induction fuel as [|fuel IH]; intros ip anchor table dst Ha Hip Ht Hf; [lia|]. cbn [compress_loop].
  unfold mfLimit, minMatch, lastLiterals.
  destruct (Z.leb_spec ip (zlen src - (4 + 5))).
  2: { rewrite slc_from_drop by lia. cbn [mbind res_bind]. rewrite emitLastLiterals_enc. eexists. split; [done|]. apply encodes_last. lia. }
  destruct (load32_spec src ip Hb) as (p & Ep & _); [lia|lia|]. rewrite Ep. cbn [mbind res_bind].
  destruct (tget_ok table ip (hash (be (rev p))) Ht (hash_range _)) as (ref & -> & Href). cbn [mbind res_bind].
  destruct (tset_ok table ip (hash (be (rev p))) (i32 ip) (ip + 1) Ht (hash_range _)) as (t & -> & Ht'); [lia|pose proof (i32_le ip ltac:(lia)); lia|]. cbn [mbind res_bind].
  destruct ((ref <? 0) || (maxOffset <? ip - ref)) eqn:Em.
  { cbn [mbind res_bind]. apply IH; [lia|lia|done|lia]. }
  apply orb_false_iff in Em as [E1%Z.ltb_ge E2%Z.ltb_ge]. destruct (load32_spec src ref Hb) as (q & Eq & _); [lia|lia|]. rewrite Eq. cbn [mbind res_bind].
  destruct (Z.eqb_spec (be (rev q)) (be (rev p))) as [Eqp|]; cbn [negb]; [|apply IH; [lia|lia|done|lia]].
  destruct (extend_ok (S (length src)) src (zlen src - 5) (ip + 4) (ref + 4)) as (e & -> & He & Hk); [lia|lia|lia|unfold zlen in *; lia|]. cbn [mbind res_bind].
  destruct (slc_at (E:=err) src anchor ip) as (lits & -> & Hlits & Hll); [lia|lia|]. cbn [mbind res_bind].
  assert (Htab : exists t', (if (0 <=? e - 1) && (e - 1 <=? zlen src - (4 + 5)) then w ← load32 src (e - 1); tset t (hash w) (i32 (e - 1)) else Ok t) = Ok t' /\ table_ok t' e).
  { destruct ((0 <=? e - 1) && (e - 1 <=? zlen src - (4 + 5))) eqn:Eg; [|exists t; split; [done|]; apply (table_ok_mono t (ip + 1)); [done|lia]].
    apply andb_true_iff in Eg as [G1%Z.leb_le G2%Z.leb_le]. destruct (load32_spec src (e - 1) Hb) as (w & -> & _); [lia|lia|]. cbn [mbind res_bind].
    apply (tset_ok t (ip + 1)); [done|apply hash_range|lia|pose proof (i32_le (e - 1)); lia]. }
  destruct Htab as (t' & -> & Ht''). cbn [mbind res_bind].
  destruct (IH e e t' (emitSequence dst lits (ip - anchor) (ip - ref) (e - ip))) as (blk & -> & Hblk); [lia|lia|done|lia|].
  rewrite <-Hll, emitSequence_enc by (unfold maxOffset, minMatch in *; lia). exists (seqenc lits (ip - ref) (e - ip) ++ blk). rewrite <-app_assoc. split; [done|].
  apply encodes_sequence; try (unfold minMatch; lia); try done. intros k Hke. destruct (decide (k < 4)%nat) as [Hk4|Hk4].
  - apply (load32_eq src ref ip (be (rev p))); try lia; try done. by rewrite <-Eqp.
  - specialize (Hk (k - 4)%nat ltac:(lia)). rewrite !Z2Nat.inj_add in Hk by lia. change (Z.to_nat 4) with 4%nat in Hk.
    replace (Z.to_nat ref + 4 + (k - 4))%nat with (Z.to_nat ref + k)%nat in Hk by lia. by replace (Z.to_nat ip + 4 + (k - 4))%nat with (Z.to_nat ip + k)%nat in Hk by lia.
Qed.

(** ** Arbitrary blocks *)

Lemma read_length_total fuel src sp total adv : is_bytes src -> 0 <= sp <= zlen src -> zlen src - sp < Z.of_nat fuel -> 0 <= total -> 0 <= adv ->
  exists t a (ok : bool), read_length fuel src sp total adv = Ok (t, a, ok) /\ (ok = true -> 0 <= t /\ 0 <= a /\ sp + (a - adv) <= zlen src).
Proof.
  intros Hb. revert sp total adv. induction fuel as [|fuel IH]; intros sp total adv Hsp Hf Ht Ha; [lia|]. cbn [read_length].
  destruct (Z.leb_spec (zlen src) sp); [by exists 0, 0, false|]. destruct (rd_byte (E:=err) src sp Hb) as (b & -> & Hbr); [lia|]. unfold in_u8 in Hbr. cbn [mbind res_bind].
  destruct (negb (b =? 255)); [exists (total + b), (adv + 1), true; split; [done|lia]|].
  destruct (IH (sp + 1) (total + b) (adv + 1)) as (t & a & ok & -> & Hok); [lia|lia|lia|lia|]. exists t, a, ok. split; [done|]. intros E. specialize (Hok E). lia.
Qed.

Lemma read_run_total src sp nibble base : is_bytes src -> 0 <= sp <= zlen src ->
  read_run src sp nibble base = Err ErrCorrupt \/ exists l sp', read_run src sp nibble base = Ok (l, sp') /\ base <= l /\ sp <= sp' <= zlen src.
Proof.
  intros Hb Hsp. unfold read_run. destruct (nibble =? runMask); [|right; exists base, sp; split; [done|lia]].
  unfold readLength. destruct (read_length_total (S (length src)) src sp 0 0) as (t & a & ok & -> & Hok); [done|done|unfold zlen in *; lia|lia|lia|]. cbn [mbind res_bind].
  destruct ok; [|by left]. right. specialize (Hok eq_refl). exists (base + t), (sp + a). split; [done|lia].
Qed.

Lemma copy_match_total n out pos : 0 <= pos < zlen out -> exists k, copy_match n out pos = Ok (out ++ k) /\ length k = n /\ (is_bytes out -> is_bytes k).
Proof.
  revert out pos. induction n as [|n IH]; intros out pos Hp; cbn [copy_match]; [exists []; rewrite app_nil_r; repeat split; constructor|].
  destruct (idx_ok (E:=err) out pos Hp) as (x & -> & Hx). cbn [mbind res_bind]. destruct (IH (out ++ [x]) (pos + 1)) as (k & -> & Hk & Hb); [zlens; lia|].
  exists (x :: k). rewrite <-app_assoc. split; [done|]. split; [cbn; lia|]. intros Ho. constructor; [by apply Hx|]. apply Hb. apply Forall_app. split; [done|]. constructor; [by apply Hx|constructor].
Qed.

(** What Decompress may return: an error, or the bytes it was given followed by at most [maxOut] more. *)
Definition bounded (dst : bytes) (maxOut : Z) (r : res err bytes) : Prop :=
  match r with Ok out => exists o, out = dst ++ o /\ is_bytes o /\ zlen o <= maxOut | Err _ => True | Panic => False end.

Lemma decompress_loop_bounded fuel src maxOut dst sp o : is_bytes src -> 0 <= sp <= zlen src -> zlen src - sp < Z.of_nat fuel -> is_bytes dst -> is_bytes o -> zlen o <= maxOut ->
  bounded dst maxOut (decompress_loop fuel src maxOut (zlen dst) sp (dst ++ o)).
Proof.
  intros Hb. revert sp o. induction fuel as [|fuel IH]; intros sp o Hsp Hf Hd Ho Hmax; [lia|]. cbn [decompress_loop].
  destruct (Z.ltb_spec sp (zlen src)); [|by exists o]. destruct (rd_byte (E:=err) src sp Hb) as (tok & -> & Htok); [lia|]. cbn [mbind res_bind].
  assert (Hn1 : 0 <= Z.shiftr tok 4) by (unfold in_u8 in Htok; rewrite Z.shiftr_nonneg; lia). assert (Hn2 : 0 <= Z.land tok runMask) by (unfold in_u8 in Htok; rewrite Z.land_nonneg; lia).
  destruct (read_run_total src (sp + 1) (Z.shiftr tok 4) (Z.shiftr tok 4) Hb) as [-> |(l & sp1 & -> & Hl & Hsp1)]; [lia|done|]. cbn [mbind res_bind].
  destruct ((l <? 0) || (zlen src - sp1 <? l)) eqn:E1; [done|]. apply orb_false_iff in E1 as [_ E1%Z.ltb_ge].
  destruct (Z.ltb_spec maxOut (zlen (dst ++ o) - zlen dst + l)) as [|Hl1]; [done|].
  destruct (slc_ok (E:=err) src sp1 (sp1 + l)) as (lits & -> & Hlits & Hlb); [lia|lia|]. specialize (Hlb Hb). cbn [mbind res_bind]. rewrite zlen_app in Hl1. rewrite <-app_assoc.
  assert (Hol : is_bytes (o ++ lits)) by (by apply Forall_app). assert (Holn : zlen (o ++ lits) = zlen o + l) by (rewrite zlen_app; lia).
  destruct (Z.eqb_spec (sp1 + l) (zlen src)); [exists (o ++ lits); split; [done|]; split; [done|lia]|].
  destruct (Z.ltb_spec (zlen src) (sp1 + l + 2)); [done|].
  destruct (slc_from_ok (E:=err) src (sp1 + l)) as (t & -> & Ht & Htb); [lia|]. specialize (Htb Hb). unfold LE_Uint16. cbn [mbind res_bind].
  destruct (slc_ok (E:=err) t 0 2) as (p & -> & Hp & Hpb); [lia|lia|]. specialize (Hpb Htb). cbn [mbind res_bind]. pose proof (be_range (rev p) (Forall_rev Hpb)) as Hoff.
  destruct (Z.eqb_spec (be (rev p)) 0); [done|].
  destruct (read_run_total src (sp1 + l + 2) (Z.land tok runMask) (Z.land tok runMask + minMatch) Hb) as [-> |(m & sp2 & -> & Hm & Hsp2)]; [lia|done|]. cbn [mbind res_bind].
  destruct (Z.ltb_spec (zlen (dst ++ o ++ lits) - be (rev p)) (zlen dst)) as [|Hpos]; [done|].
  destruct (Z.ltb_spec maxOut (zlen (dst ++ o ++ lits) - zlen dst + m)) as [|Hm1]; [done|]. rewrite zlen_app in Hpos, Hm1. unfold minMatch in Hm.
  destruct (copy_match_total (Z.to_nat m) (dst ++ o ++ lits) (zlen (dst ++ o ++ lits) - be (rev p))) as (k & -> & Hk & Hkb).
  { rewrite zlen_app. pose proof (zlen_nonneg dst). lia. }
  cbn [mbind res_bind]. destruct (Z.eqb_spec sp2 (zlen src)); [done|]. rewrite <-app_assoc. apply IH; [lia|lia|done| |].
  - apply Forall_app. split; [done|]. apply Hkb. by apply Forall_app.
  - rewrite zlen_app. unfold zlen at 2. lia.
Qed.

(** ** Properties *)

Lemma Compress_Decompress dst src : is_bytes src ->
  exists blk, Compress dst src = Ok (dst ++ blk) /\ zlen blk <= CompressBound (zlen src) /\
    forall out maxOut, zlen src <= maxOut -> Decompress out blk maxOut = Ok (out ++ src).
Proof.
  intros Hb. pose proof (zlen_nonneg src) as Hn.
  assert (H : exists blk, Compress dst src = Ok (dst ++ blk) /\ encodes src 0 blk).
  { unfold Compress. change minLength with 10. destruct (Z.ltb_spec (zlen src) 10) as [_|Hlen].
    - rewrite emitLastLiterals_enc. exists (lastenc src). split; [done|]. apply (encodes_last src 0). lia.
    - destruct (load32_spec src 0 Hb) as (p & -> & _); [lia|lia|]. cbn [mbind res_bind].
      destruct (tset_ok (replicate (Z.to_nat hashTableSize) (-1)) 0 (hash (be (rev p))) (i32 0) 1) as (t & -> & Ht); [|apply hash_range|lia|by vm_compute|].
      { split; [by rewrite zlen_replicate|]. by apply Forall_replicate. }
      cbn [mbind res_bind]. apply compress_loop_ok; [done|lia|unfold lastLiterals; lia|done|]. unfold mfLimit, minMatch, lastLiterals. unfold zlen in *. lia. }
  destruct H as (blk & -> & Hs & Hd). exists blk. split; [done|]. split.
  - unfold CompressBound. destruct (Z.ltb_spec (zlen src) 0); [lia|]. rewrite Z.quot_div_nonneg by lia. rewrite Z.sub_0_r in Hs. lia.
  - intros out maxOut Hmax. unfold Decompress. destruct (Z.ltb_spec maxOut 0); [lia|]. specialize (Hd [] out maxOut (S (length blk)) Hmax). cbn [app Z.to_nat] in Hd.
    rewrite app_nil_r in Hd. apply Hd. unfold zlen. lia.
Qed.

(** C40: Compress never fails or panics: on every byte string it appends to [dst] a block of at most CompressBound bytes, and
    Decompress of that block, whatever it appends to, returns the byte string for every bound that is not below its length.
    The match finder's table is arbitrary but for what the code stores in it, so this covers overlapping matches, runs whose
    lengths need continuation bytes and positions past 2^31. *)
Theorem lz4_round_trip dst src : is_bytes src ->
  exists blk, Compress dst src = Ok (dst ++ blk) /\ zlen blk <= CompressBound (zlen src) /\
    forall out maxOut, zlen src <= maxOut -> Decompress out blk maxOut = Ok (out ++ src).
Proof. apply Compress_Decompress. Qed.

Lemma lz4_round_trip_witness :
  exists blk, Compress [9] (replicate 300 7 ++ [1; 2; 3]) = Ok ([9] ++ blk) /\ Decompress [] blk 400 = Ok (replicate 300 7 ++ [1; 2; 3]).
Proof.
  destruct (lz4_round_trip [9] (replicate 300 7 ++ [1; 2; 3])) as (blk & H1 & _ & H2).
  - apply Forall_app. split; [by apply Forall_replicate|]. repeat constructor; done.
  - exists blk. split; [exact H1|]. apply (H2 []). vm_compute. discriminate.
Defined.

Lemma Decompress_bounded dst src maxOut : is_bytes dst -> is_bytes src -> bounded dst (Z.max 0 maxOut) (Decompress dst src maxOut).
Proof.
  intros Hd Hb. unfold Decompress. replace (if maxOut <? 0 then 0 else maxOut) with (Z.max 0 maxOut) by (case_cmp; lia).
  pose proof (decompress_loop_bounded (S (length src)) src (Z.max 0 maxOut) dst 0 [] Hb) as H. rewrite app_nil_r in H.
  apply H; [pose proof (zlen_nonneg src); lia|unfold zlen; lia|done|constructor|rewrite zlen_nil; lia].
Qed.

(** On arbitrary input bytes and any bound, Decompress terminates without a run-time panic (no index or slice expression is
    ever out of range) and either reports an error or returns what it was given followed by at most [maxOut] bytes. *)
Theorem lz4_decompress_safe dst src maxOut : is_bytes dst -> is_bytes src -> bounded dst (Z.max 0 maxOut) (Decompress dst src maxOut).
Proof. apply Decompress_bounded. Qed.

(** An offset before the start of the output, a block that ends after a match, and a run past the bound. *)
Lemma lz4_decompress_safe_witness :
  bounded [5] 9 (Decompress [5] [16; 7; 2; 0; 0] 9) /\ Decompress [5] [16; 7; 2; 0; 0] 9 = Err ErrCorrupt /\
  Decompress [] [16; 7; 1; 0] 9 = Err ErrCorrupt /\ Decompress [] [31; 7; 1; 0; 0; 0] 9 = Err ErrOutputTooLarge /\ Decompress [] [31; 7; 1; 0; 0; 0] 20 = Ok (replicate 20 7).
Proof.
  split; [|by vm_compute]. apply (lz4_decompress_safe [5] [16; 7; 2; 0; 0] 9); repeat constructor; done.
Defined.
End lpc.
