(* ===== verification/Adv.v ===== *)
(** * Advanced-profile packets (src/internal/adv/adv.go)

    The RTP header with payload type 127, the profile-defined extension and the optional fields that follow it: Build and Parse
    with their helpers. *)

From S2P Require Import Prelude Bytes.

Module adv.

Inductive err := ErrShortBuffer | ErrInvalidVersion | ErrInvalidPayloadType | ErrFieldRange | ErrShortControl.

Definition PayloadType : Z := 127.
Definition rtpFlags : Z := 0x80.
Definition dynamicPTMin : Z := 96.

Definition FlagF : Z := 0x80.
Definition FlagL : Z := 0x40.
Definition FlagE : Z := 0x20.
Definition FlagR : Z := 0x10.
Definition FlagI : Z := 0x08.
Definition FlagP : Z := 0x04.
Definition FlagH : Z := 0x02.
Definition flagPSK2 : Z := 0x01.

Definition psk10Shift : Z := 6.
Definition psk10Mask : Z := 0xC0.
Definition lpcShift : Z := 4.
Definition lpcMask : Z := 0x30.
Definition typeMask : Z := 0x0F.

Definition TypeControl : Z := 4.
Definition TypeDirect : Z := 5.

Definition PSKNone : Z := 0.
Definition PSKAESCTR : Z := 1.
Definition PSKHMACSHA256 : Z := 2.
Definition PSKAESCTRHMAC : Z := 3.
Definition PSKAESGCM : Z := 4.
Definition PSKChaCha20Poly : Z := 5.
Definition PSKUserNoHash : Z := 6.
Definition PSKUserHash : Z := 7.
Definition pskMaxIncl : Z := 7.

Definition PSKHashSize : Z := 16.
Definition PSKNonceSize : Z := 4.
Definition PSKIVSize : Z := 4.

Definition LPCNone : Z := 0.
Definition LPCLZ4 : Z := 1.
Definition LPCFieldPresent : Z := 3.
Definition lpcMaxIncl : Z := 3.

Definition RTPSize : Z := 12.
Definition ExtSize : Z := 4.
Definition HeaderMin : Z := RTPSize + ExtSize.
Definition FlowIDSize : Z := 4.
Definition CompressionSize : Z := 4.
Definition PFDSize : Z := 4.
Definition MaxFixedHeader : Z := 52.
Definition CtrlHdrSize : Z := 4.
Definition rtpExtHdrSize : Z := 4.

Definition PSKHasHash (psk : Z) : bool :=
  (psk =? PSKHMACSHA256) || (psk =? PSKAESCTRHMAC) || (psk =? PSKAESGCM) || (psk =? PSKChaCha20Poly) || (psk =? PSKUserHash).
Definition PSKHasNonce (psk : Z) : bool := PSKAESCTR <=? psk.
Definition PSKHasIV (psk : Z) : bool := (psk =? PSKAESCTR) || (PSKAESCTRHMAC <=? psk).
Definition PSKHdrSize (psk : Z) : Z :=
  let sz := if PSKHasHash psk then 0 + PSKHashSize else 0 in
  let sz := if PSKHasNonce psk then sz + PSKNonceSize else sz in
  if PSKHasIV psk then sz + PSKIVSize else sz.

Definition SSRCIsProtected (ssrc : Z) : bool := Z.land ssrc 1 =? 0.
Definition SSRCProtected (ssrc : Z) : Z := Z.ldiff ssrc 1.
Definition SSRCUnprotected (ssrc : Z) : Z := Z.lor ssrc 1.

Definition SplitSeq (seq : Z) : Z * Z := (u16 (Z.land seq 0xFFFF), u16 (Z.shiftr seq 16)).
Definition JoinSeq (high low : Z) : Z := Z.lor (u32 (Z.shiftl high 16)) low.

Record FlowID := mkFlowID { Outer : Z; Inner : Z; Sub : Z }.
Definition flowid_appendTo (f : FlowID) (dst : bytes) : bytes :=
  let dst := dst ++ be_bytes 2 (Outer f) in
  let dst := dst ++ [u8 (Z.land (Z.shiftr (Inner f) 4) 0xFF)] in
  dst ++ [Z.lor (u8 (u16 (Z.shiftl (Z.land (Inner f) 0x0F) 4))) (Z.land (Sub f) 0x0F)].
Definition parseFlowID (b : bytes) : res err FlowID :=
  innerHi ← idx b 2;
  innerLoSub ← idx b 3;
  outer ← (t ← slc b 0 2; Uint16 t);
  Ok (mkFlowID outer (Z.lor (u16 (Z.shiftl innerHi 4)) (Z.shiftr innerLoSub 4)) (Z.land innerLoSub 0x0F)).

Record PFD := mkPFD { IDType : Z; IDValue : Z }.
Definition pfd_appendTo (p : PFD) (dst : bytes) : bytes :=
  dst ++ be_bytes 4 (Z.lor (u32 (Z.shiftl (Z.land (IDType p) 0x0F) 28)) (Z.land (IDValue p) 0x0FFFFFFF)).
Definition parsePFD (b : bytes) : res err PFD :=
  v ← (t ← slc b 0 4; Uint32 t);
  Ok (mkPFD (u8 (Z.shiftr v 28)) (Z.land v 0x0FFFFFFF)).

Definition IsUnfragmented (flags : Z) : bool := Z.land flags (Z.lor FlagF FlagL) =? Z.lor FlagF FlagL.
Definition IsFragmented (flags : Z) : bool := negb (IsUnfragmented flags).
Definition IsFirstFragment (flags : Z) : bool := negb (Z.land flags FlagF =? 0) && (Z.land flags FlagL =? 0).
Definition IsLastFragment (flags : Z) : bool := (Z.land flags FlagF =? 0) && negb (Z.land flags FlagL =? 0).

(** An optional slice is [None] when it is nil; HdrExt is only tested for being empty. *)
Record Params := mkParams {
  Seq : Z; Timestamp : Z; SSRC : Z; EncType : Z; PSKMode : Z; LPCMode : Z; FirstFrag : bool; LastFrag : bool; Expedite : bool; Retransmit : bool;
  P_FlowID : option FlowID; PSKHash : option bytes; PSKNonce : option bytes; PSKIV : option bytes; Compression : option bytes; P_PFD : option PFD; HdrExt : bytes }.

Record Parsed := mkParsed {
  o_Seq : Z; o_Timestamp : Z; o_SSRC : Z; o_RTPExtPresent : bool; o_RTPPadding : bool; o_FirstFrag : bool; o_LastFrag : bool; o_Expedite : bool; o_Retransmit : bool;
  o_PSKMode : Z; o_LPCMode : Z; o_EncType : Z; o_HasFlowID : bool; o_FlowID : FlowID; o_HasPSK : bool; o_PSKHash : option bytes; o_PSKNonce : option bytes; o_PSKIV : option bytes;
  o_HasCompression : bool; o_Compression : option bytes; o_HasPFD : bool; o_PFD : PFD; o_HasHdrExt : bool; o_HdrExt : option bytes; o_Payload : bytes }.

Definition present {A} (o : option A) : bool := match o with Some _ => true | None => false end.

Definition HeaderSize (params : Params) : Z :=
  let sz := HeaderMin in
  let sz := if present (P_FlowID params) then sz + FlowIDSize else sz in
  let sz := sz + PSKHdrSize (PSKMode params) in
  let sz := if LPCMode params =? LPCFieldPresent then sz + CompressionSize else sz in
  let sz := if present (P_PFD params) then sz + PFDSize else sz in
  if 0 <? zlen (HdrExt params) then sz + zlen (HdrExt params) else sz.

(** ** Build *)

Definition checkPSKSlice (b : option bytes) (size : Z) : res err unit :=
  match b with Some b => if negb (zlen b =? size) then Err ErrFieldRange else Ok tt | None => Ok tt end.

Definition appendOrZero (dst : bytes) (b : option bytes) (size : Z) : bytes :=
  match b with None => dst ++ replicate (Z.to_nat size) 0 | Some b => dst ++ b end.

(** The flags and params bytes of the profile-defined extension. *)
Definition build_flags (params : Params) : Z :=
  let flags := 0 in
  let flags := if FirstFrag params then Z.lor flags FlagF else flags in
  let flags := if LastFrag params then Z.lor flags FlagL else flags in
  let flags := if Expedite params then Z.lor flags FlagE else flags in
  let flags := if Retransmit params then Z.lor flags FlagR else flags in
  let flags := if present (P_FlowID params) then Z.lor flags FlagI else flags in
  let flags := if present (P_PFD params) then Z.lor flags FlagP else flags in
  let flags := if 0 <? zlen (HdrExt params) then Z.lor flags FlagH else flags in
  Z.lor flags (Z.land (Z.shiftr (PSKMode params) 2) flagPSK2).

Definition build_pb (params : Params) : Z :=
  Z.lor (Z.lor (u8 (Z.shiftl (Z.land (PSKMode params) 0x03) psk10Shift)) (u8 (Z.shiftl (Z.land (LPCMode params) 0x03) lpcShift))) (Z.land (EncType params) typeMask).

Definition Build (dst : bytes) (params : Params) (payload : bytes) : res err bytes :=
  if typeMask <? EncType params then Err ErrFieldRange else
  if pskMaxIncl <? PSKMode params then Err ErrFieldRange else
  if lpcMaxIncl <? LPCMode params then Err ErrFieldRange else
  _ ← checkPSKSlice (PSKHash params) PSKHashSize;
  _ ← checkPSKSlice (PSKNonce params) PSKNonceSize;
  _ ← checkPSKSlice (PSKIV params) PSKIVSize;
  _ ← checkPSKSlice (Compression params) CompressionSize;
  let '(low, high) := SplitSeq (Seq params) in
  let dst := dst ++ [rtpFlags; PayloadType] in
  let dst := dst ++ be_bytes 2 low in
  let dst := dst ++ be_bytes 4 (Timestamp params) in
  let dst := dst ++ be_bytes 4 (SSRC params) in
  let dst := dst ++ be_bytes 2 high in
  let dst := dst ++ [build_flags params] in
  let dst := dst ++ [build_pb params] in
  let dst := match P_FlowID params with Some f => flowid_appendTo f dst | None => dst end in
  let dst := if PSKHasHash (PSKMode params) then appendOrZero dst (PSKHash params) PSKHashSize else dst in
  let dst := if PSKHasNonce (PSKMode params) then appendOrZero dst (PSKNonce params) PSKNonceSize else dst in
  let dst := if PSKHasIV (PSKMode params) then appendOrZero dst (PSKIV params) PSKIVSize else dst in
  let dst := if LPCMode params =? LPCFieldPresent then appendOrZero dst (Compression params) CompressionSize else dst in
  let dst := match P_PFD params with Some p => pfd_appendTo p dst | None => dst end in
  let dst := if 0 <? zlen (HdrExt params) then dst ++ HdrExt params else dst in
  Ok (dst ++ payload).

(** ** Parse *)

(** [if offset+size > len(buf) { return ErrShortBuffer }; field = buf[offset:offset+size]; offset += size], when the field is present. *)
Definition take_field (has : bool) (size : Z) (buf : bytes) (offset : Z) : res err (option bytes * Z) :=
  if has then
    if zlen buf <? offset + size then Err ErrShortBuffer else
    f ← slc buf offset (offset + size); Ok (Some f, offset + size)
  else Ok (None, offset).

(** The skip over the CSRC list and the RFC 3550 header extension: the offset of the profile-defined extension. *)
Definition skip_rtp (buf : bytes) (cc : Z) (ext : bool) : res err Z :=
  let offset := RTPSize + cc * 4 in
  if zlen buf <? offset then Err ErrShortBuffer else
  if ext then
    if zlen buf <? offset + rtpExtHdrSize then Err ErrShortBuffer else
    extWords ← (t ← slc buf (offset + 2) (offset + 4); Uint16 t);
    let offset := offset + (rtpExtHdrSize + extWords * 4) in
    if zlen buf <? offset then Err ErrShortBuffer else Ok offset
  else Ok offset.

(** The RIST header extension. *)
Definition take_hdrext (has : bool) (buf : bytes) (offset : Z) : res err (option bytes * Z) :=
  if has then
    if zlen buf <? offset + rtpExtHdrSize then Err ErrShortBuffer else
    hdrWords ← (t ← slc buf (offset + 2) (offset + 4); Uint16 t);
    let total := rtpExtHdrSize + hdrWords * 4 in
    if zlen buf <? offset + total then Err ErrShortBuffer else
    h ← slc buf offset (offset + total); Ok (Some h, offset + total)
  else Ok (None, offset).

Definition Parse (buf : bytes) : res err Parsed :=
  if zlen buf <? HeaderMin then Err ErrShortBuffer else
  flags0 ← idx buf 0;
  if negb (Z.land flags0 0xC0 =? 0x80) then Err ErrInvalidVersion else
  b1 ← idx buf 1;
  let pt := Z.land b1 0x7F in
  if negb (pt =? PayloadType) && (pt <? dynamicPTMin) then Err ErrInvalidPayloadType else
  let padding := negb (Z.land flags0 0x20 =? 0) in
  let rtpext := negb (Z.land flags0 0x10 =? 0) in
  let cc := Z.land flags0 0x0F in
  rtpSeq ← (t ← slc buf 2 4; Uint16 t);
  ts ← (t ← slc buf 4 8; Uint32 t);
  ssrc ← (t ← slc buf 8 12; Uint32 t);
  offset ← skip_rtp buf cc rtpext;
  if zlen buf <? offset + ExtSize then Err ErrShortBuffer else
  seqExt ← (t ← slc buf offset (offset + 2); Uint16 t);
  extFlags ← idx buf (offset + 2);
  extParams ← idx buf (offset + 3);
  let offset := offset + ExtSize in
  let seq := JoinSeq seqExt rtpSeq in
  let hasFlowID := negb (Z.land extFlags FlagI =? 0) in
  let hasPFD := negb (Z.land extFlags FlagP =? 0) in
  let hasHdrExt := negb (Z.land extFlags FlagH =? 0) in
  let psk := Z.lor (u8 (Z.shiftl (Z.land extFlags flagPSK2) 2)) (Z.shiftr (Z.land extParams psk10Mask) psk10Shift) in
  let lpcm := Z.shiftr (Z.land extParams lpcMask) lpcShift in
  let hasCompression := lpcm =? LPCFieldPresent in
  '(fid, offset) ← take_field hasFlowID FlowIDSize buf offset;
  flow ← match fid with Some b => parseFlowID b | None => Ok (mkFlowID 0 0 0) end;
  '(hash, offset) ← take_field (PSKHasHash psk) PSKHashSize buf offset;
  '(nonce, offset) ← take_field (PSKHasNonce psk) PSKNonceSize buf offset;
  '(iv, offset) ← take_field (PSKHasIV psk) PSKIVSize buf offset;
  '(comp, offset) ← take_field hasCompression CompressionSize buf offset;
  '(pfdb, offset) ← take_field hasPFD PFDSize buf offset;
  pfd ← match pfdb with Some b => parsePFD b | None => Ok (mkPFD 0 0) end;
  '(hdrext, offset) ← take_hdrext hasHdrExt buf offset;
  payload ← slc_from buf offset;
  Ok (mkParsed seq ts ssrc rtpext padding (negb (Z.land extFlags FlagF =? 0)) (negb (Z.land extFlags FlagL =? 0)) (negb (Z.land extFlags FlagE =? 0))
        (negb (Z.land extFlags FlagR =? 0)) psk lpcm (Z.land extParams typeMask) hasFlowID flow (0 <? psk) hash nonce iv hasCompression comp hasPFD pfd hasHdrExt hdrext payload).

(** ** The packed bytes *)

Lemma enum1 (P : Z -> bool) n a : forallb P (seqZ 0 n) = true -> 0 <= a < n -> P a = true.
Proof. intros H Ha. rewrite forallb_forall in H. apply H, list_elem_of_In, elem_of_seqZ. lia. Qed.

Lemma enum2 (P : Z -> Z -> bool) n m a b : forallb (fun a => forallb (P a) (seqZ 0 m)) (seqZ 0 n) = true -> 0 <= a < n -> 0 <= b < m -> P a b = true.
Proof. intros H Ha Hb. apply (enum1 (P a) m); [|done]. by apply (enum1 (fun a => forallb (P a) (seqZ 0 m)) n). Qed.

Definition flags_of (f l e r i p h : bool) (psk2 : Z) : Z :=
  let b (x : bool) v := if x then v else 0 in
  Z.lor (Z.lor (Z.lor (Z.lor (Z.lor (Z.lor (Z.lor (b f FlagF) (b l FlagL)) (b e FlagE)) (b r FlagR)) (b i FlagI)) (b p FlagP)) (b h FlagH)) psk2.

Lemma build_flags_of params : build_flags params =
  flags_of (FirstFrag params) (LastFrag params) (Expedite params) (Retransmit params) (present (P_FlowID params)) (present (P_PFD params)) (0 <? zlen (HdrExt params))
    (Z.land (Z.shiftr (PSKMode params) 2) flagPSK2).
Proof.
  unfold build_flags, flags_of. destruct (FirstFrag params), (LastFrag params), (Expedite params), (Retransmit params), (present (P_FlowID params)), (present (P_PFD params)), (0 <? zlen (HdrExt params));
    reflexivity.
Qed.

Lemma flags_of_bits f l e r i p h psk2 : 0 <= psk2 < 2 -> let x := flags_of f l e r i p h psk2 in
  negb (Z.land x FlagF =? 0) = f /\ negb (Z.land x FlagL =? 0) = l /\ negb (Z.land x FlagE =? 0) = e /\ negb (Z.land x FlagR =? 0) = r /\
  negb (Z.land x FlagI =? 0) = i /\ negb (Z.land x FlagP =? 0) = p /\ negb (Z.land x FlagH =? 0) = h /\ Z.land x flagPSK2 = psk2.
Proof.
  intros Hp. assert (psk2 = 0 \/ psk2 = 1) as [-> | ->] by lia; destruct f, l, e, r, i, p, h; vm_compute; repeat split.
Qed.

Definition pb_of (psk lpcm typ : Z) : Z := Z.lor (Z.lor (u8 (Z.shiftl (Z.land psk 0x03) psk10Shift)) (u8 (Z.shiftl (Z.land lpcm 0x03) lpcShift))) (Z.land typ typeMask).

Lemma pb_of_fields psk lpcm typ : 0 <= psk < 8 -> 0 <= lpcm < 4 -> 0 <= typ < 16 ->
  Z.shiftr (Z.land (pb_of psk lpcm typ) psk10Mask) psk10Shift = Z.land psk 3 /\ Z.shiftr (Z.land (pb_of psk lpcm typ) lpcMask) lpcShift = lpcm /\ Z.land (pb_of psk lpcm typ) typeMask = typ.
Proof.
  intros Hp Hl Ht.
  assert (H : forallb (fun psk => (Z.shiftr (Z.land (pb_of psk lpcm typ) psk10Mask) psk10Shift =? Z.land psk 3) && (Z.shiftr (Z.land (pb_of psk lpcm typ) lpcMask) lpcShift =? lpcm) && (Z.land (pb_of psk lpcm typ) typeMask =? typ)) (seqZ 0 8) = true).
  { apply (enum2 (fun lpcm typ => forallb (fun psk => (Z.shiftr (Z.land (pb_of psk lpcm typ) psk10Mask) psk10Shift =? Z.land psk 3) && (Z.shiftr (Z.land (pb_of psk lpcm typ) lpcMask) lpcShift =? lpcm) && (Z.land (pb_of psk lpcm typ) typeMask =? typ)) (seqZ 0 8)) 4 16); [vm_compute; reflexivity|lia|lia]. }
  apply (enum1 _ _ psk) in H; [|done].
  apply andb_true_iff in H as [[H1%Z.eqb_eq H2%Z.eqb_eq]%andb_true_iff H3%Z.eqb_eq]. done.
Qed.

Lemma psk_join psk : 0 <= psk < 8 -> Z.lor (u8 (Z.shiftl (Z.land (Z.shiftr psk 2) flagPSK2) 2)) (Z.land psk 3) = psk /\ 0 <= Z.land (Z.shiftr psk 2) flagPSK2 < 2.
Proof.
  intros Hp. assert (psk = 0 \/ psk = 1 \/ psk = 2 \/ psk = 3 \/ psk = 4 \/ psk = 5 \/ psk = 6 \/ psk = 7) as H by lia.
  repeat (destruct H as [-> |H]; [vm_compute; repeat split; discriminate|]). subst. vm_compute. repeat split; discriminate.
Qed.

Lemma split_join seq : in_u32 seq -> let '(low, high) := SplitSeq seq in in_u16 low /\ in_u16 high /\ JoinSeq high low = seq.
Proof.
  intros Hs. unfold SplitSeq, JoinSeq, in_u32, in_u16 in *. change 0xFFFF with (Z.ones 16). rewrite Z.land_ones, Z.shiftr_div_pow2 by lia. unfold u16, u32, uwrap.
  change (2 ^ 16) with 65536. change (2 ^ 32) with 4294967296. rewrite Z.mod_mod by lia. rewrite (Z.mod_small (seq / 65536)) by (split; [apply Z.div_pos; lia|apply Z.div_lt_upper_bound; lia]).
  pose proof (Z.mod_pos_bound seq 65536 ltac:(lia)). pose proof (Z.div_mod seq 65536 ltac:(lia)). assert (0 <= seq / 65536 < 65536) by (split; [apply Z.div_pos; lia|apply Z.div_lt_upper_bound; lia]).
  split; [lia|]. split; [lia|]. rewrite (Z.mod_small (Z.shiftl _ _)) by (rewrite Z.shiftl_mul_pow2 by lia; lia).
  rewrite lor_shiftl_add by lia. change (2 ^ 16) with 65536. lia.
Qed.

(** ** Flow IDs and payload format descriptors *)

Definition flowid_typed (f : FlowID) : Prop := in_u16 (Outer f) /\ in_u16 (Inner f) /\ in_u8 (Sub f).
Definition pfd_typed (p : PFD) : Prop := in_u8 (IDType p) /\ in_u32 (IDValue p).

(** What survives the encoding: the low 12 and 4 bits, the low 4 and 28 bits. *)
Definition flowid_cut (f : FlowID) : FlowID := mkFlowID (Outer f) (Inner f mod 4096) (Sub f mod 16).
Definition pfd_cut (p : PFD) : PFD := mkPFD (IDType p mod 16) (IDValue p mod 2 ^ 28).

Lemma flowid_round f : flowid_typed f -> zlen (flowid_appendTo f []) = 4 /\ parseFlowID (flowid_appendTo f []) = Ok (flowid_cut f).
Proof.
  destruct f as [o i s]. intros (Ho & Hi & Hs). cbn [Outer Inner Sub] in *. unfold flowid_appendTo. cbn [Outer Inner Sub app].
  set (hi := u8 (Z.land (Z.shiftr i 4) 255)). set (lo := Z.lor (u8 (u16 (Z.shiftl (Z.land i 15) 4))) (Z.land s 15)).
  rewrite <-app_assoc. split; [zlens; lia|]. unfold parseFlowID.
  rewrite (at_idx (be_bytes 2 o ++ [hi] ++ [lo]) 2 hi) by (apply at_skip, at_here; zlens; lia). cbn [mbind res_bind].
  rewrite (at_idx (be_bytes 2 o ++ [hi] ++ [lo]) 3 lo) by (do 2 apply at_skip; apply at_end; zlens; lia). cbn [mbind res_bind].
  pose proof (at_u16 (E:=err) (be_bytes 2 o ++ [hi] ++ [lo]) 0 o 2 ltac:(at_solve) Ho eq_refl) as E0. unfold mbind, res_bind in E0 |- *. rewrite E0. f_equal. unfold flowid_cut. cbn [Outer Inner Sub].
  unfold in_u8, in_u16 in *. pose proof (Z.mod_pos_bound i 16 ltac:(lia)). pose proof (Z.mod_pos_bound s 16 ltac:(lia)).
  assert (Ehi : hi = (i / 16) mod 256).
  { unfold hi. change 255 with (Z.ones 8). rewrite Z.land_ones, Z.shiftr_div_pow2 by lia. unfold u8, uwrap. rewrite Z.mod_mod by lia. done. }
  assert (Elo : lo = i mod 16 * 16 + s mod 16).
  { unfold lo. change 15 with (Z.ones 4). rewrite !Z.land_ones by lia. change (2 ^ 4) with 16. unfold u8, u16, uwrap.
    rewrite (Z.mod_small (Z.shiftl _ _) (2 ^ 16)) by (rewrite Z.shiftl_mul_pow2 by lia; lia). rewrite (Z.mod_small (Z.shiftl _ _) (2 ^ 8)) by (rewrite Z.shiftl_mul_pow2 by lia; lia).
    rewrite lor_shiftl_add by lia. done. }
  rewrite Ehi, Elo. clear Ehi Elo E0. pose proof (Z.mod_pos_bound (i / 16) 256 ltac:(lia)). f_equal.
  - unfold u16, uwrap. rewrite (Z.mod_small (Z.shiftl _ _)) by (rewrite Z.shiftl_mul_pow2 by lia; lia). rewrite Z.shiftr_div_pow2 by lia. change (2 ^ 4) with 16.
    rewrite Z.div_add_l, (Z.div_small (s mod 16)), Z.add_0_r, lor_shiftl_add by lia. change (2 ^ 4) with 16. change 4096 with (16 * 256). rewrite (Z.rem_mul_r i 16 256) by lia. lia.
  - change 15 with (Z.ones 4). rewrite Z.land_ones by lia. change (2 ^ 4) with 16. rewrite Z.add_comm, Z.mod_add, Z.mod_mod by lia. done.
Qed.

Lemma pfd_round p : pfd_typed p -> zlen (pfd_appendTo p []) = 4 /\ parsePFD (pfd_appendTo p []) = Ok (pfd_cut p).
Proof.
  destruct p as [t v]. intros (Ht & Hv). cbn [IDType IDValue] in *. unfold pfd_appendTo, pfd_cut. cbn [IDType IDValue app]. split; [by rewrite zlen_be|]. unfold in_u8, in_u32 in *.
  pose proof (Z.mod_pos_bound t 16 ltac:(lia)). pose proof (Z.mod_pos_bound v (2 ^ 28) ltac:(lia)).
  set (w := Z.lor _ _). assert (Ew : w = t mod 16 * 2 ^ 28 + v mod 2 ^ 28).
  { unfold w. change 15 with (Z.ones 4). change 268435455 with (Z.ones 28). rewrite !Z.land_ones by lia. change (2 ^ 4) with 16. unfold u32, uwrap.
    rewrite Z.mod_small by (rewrite Z.shiftl_mul_pow2 by lia; lia). by rewrite lor_shiftl_add by lia. }
  assert (Hw : in_u32 w) by (unfold in_u32; lia).
  unfold parsePFD. pose proof (at_u32 (E:=err) (be_bytes 4 w) 0 w 4 ltac:(at_solve) Hw eq_refl) as E0. unfold mbind, res_bind in E0 |- *. rewrite E0. f_equal. clear E0. f_equal.
  - unfold u8, uwrap. rewrite Z.shiftr_div_pow2, Ew by lia. rewrite Z.div_add_l, (Z.div_small (v mod _)), Z.add_0_r by lia. apply Z.mod_small. lia.
  - change 268435455 with (Z.ones 28). rewrite Z.land_ones, Ew by lia. rewrite Z.add_comm, Z.mod_add, Z.mod_mod by lia. done.
Qed.

(** ** Optional fields *)

Definition opt (has : bool) (f : bytes) : bytes := if has then f else [].

Lemma take_field_at has size buf off f : At buf off (opt has f) -> zlen f = size ->
  take_field has size buf off = Ok (if has then Some f else None, off + zlen (opt has f)).
Proof.
  intros H Hf. unfold take_field, opt in *. destruct has; [|rewrite zlen_nil, Z.add_0_r; done].
  assert (Hb : off + size <= zlen buf) by (destruct H as (A & B & -> & <-); zlens; pose proof (zlen_nonneg B); lia).
  destruct (Z.ltb_spec (zlen buf) (off + size)); [lia|]. rewrite (at_slc _ _ _ _ H) by lia. cbn [mbind res_bind]. by rewrite Hf.
Qed.

(** A RIST header extension whose length field counts its words. *)
Definition hdrext_ok (h : bytes) : Prop :=
  h = [] \/ exists prof words body, h = prof ++ be_bytes 2 words ++ body /\ zlen prof = 2 /\ in_u16 words /\ zlen body = words * 4.

Lemma take_hdrext_at buf off h : At buf off h -> hdrext_ok h -> take_hdrext (0 <? zlen h) buf off = Ok (if 0 <? zlen h then Some h else None, off + zlen h).
Proof.
  intros H [-> |(prof & words & body & Eh & Hp & Hw & Hb)]; [change (zlen (@nil Z)) with 0; by rewrite Z.add_0_r|]. assert (Hw0 : 0 <= words) by (unfold in_u16 in Hw; lia).
  assert (Hh : zlen h = 4 + words * 4) by (rewrite Eh; zlens; lia). destruct (Z.ltb_spec 0 (zlen h)); [|lia]. unfold take_hdrext, rtpExtHdrSize.
  assert (Hbuf : off + zlen h <= zlen buf) by (destruct H as (A & B & -> & <-); zlens; pose proof (zlen_nonneg B); lia).
  destruct (Z.ltb_spec (zlen buf) (off + 4)); [lia|]. pose proof H as H'. rewrite Eh in H'. apply at_split in H' as [_ H']. apply at_split in H' as [H' _]. rewrite Hp in H'.
  pose proof (at_u16 (E:=err) _ _ _ (off + 4) H' Hw ltac:(lia)) as E0. unfold mbind, res_bind in E0 |- *. rewrite E0. clear E0.
  destruct (Z.ltb_spec (zlen buf) (off + (4 + words * 4))); [lia|]. rewrite (at_slc _ _ _ _ H) by lia. by rewrite Hh.
Qed.

(** ** The packet *)

Definition slice_ok (b : option bytes) (size : Z) : Prop := match b with Some b => zlen b = size | None => True end.
Definition filled (b : option bytes) (size : Z) : bytes := match b with Some b => b | None => replicate (Z.to_nat size) 0 end.
Definition flowid_bytes (f : option FlowID) : bytes := match f with Some f => flowid_appendTo f [] | None => [] end.
Definition pfd_bytes (p : option PFD) : bytes := match p with Some p => pfd_appendTo p [] | None => [] end.

(** What the Go types allow and Build accepts, with a header extension that is empty or counts its own words. *)
Definition params_ok (p : Params) : Prop :=
  in_u32 (Seq p) /\ in_u32 (Timestamp p) /\ in_u32 (SSRC p) /\ 0 <= EncType p < 16 /\ 0 <= PSKMode p < 8 /\ 0 <= LPCMode p < 4 /\
  slice_ok (PSKHash p) PSKHashSize /\ slice_ok (PSKNonce p) PSKNonceSize /\ slice_ok (PSKIV p) PSKIVSize /\ slice_ok (Compression p) CompressionSize /\
  (forall f, P_FlowID p = Some f -> flowid_typed f) /\ (forall f, P_PFD p = Some f -> pfd_typed f) /\ hdrext_ok (HdrExt p).

Definition header (p : Params) : bytes :=
  let '(low, high) := SplitSeq (Seq p) in
  [rtpFlags] ++ [PayloadType] ++ be_bytes 2 low ++ be_bytes 4 (Timestamp p) ++ be_bytes 4 (SSRC p) ++ be_bytes 2 high ++ [build_flags p] ++ [build_pb p] ++
  flowid_bytes (P_FlowID p) ++ opt (PSKHasHash (PSKMode p)) (filled (PSKHash p) PSKHashSize) ++ opt (PSKHasNonce (PSKMode p)) (filled (PSKNonce p) PSKNonceSize) ++
  opt (PSKHasIV (PSKMode p)) (filled (PSKIV p) PSKIVSize) ++ opt (LPCMode p =? LPCFieldPresent) (filled (Compression p) CompressionSize) ++ pfd_bytes (P_PFD p) ++ HdrExt p.

(** What Parse reports of it. *)
Definition parsed_of (p : Params) (payload : bytes) : Parsed :=
  let some (has : bool) b := if has then Some b else None in
  mkParsed (Seq p) (Timestamp p) (SSRC p) false false (FirstFrag p) (LastFrag p) (Expedite p) (Retransmit p) (PSKMode p) (LPCMode p) (EncType p)
    (present (P_FlowID p)) (match P_FlowID p with Some f => flowid_cut f | None => mkFlowID 0 0 0 end) (0 <? PSKMode p)
    (some (PSKHasHash (PSKMode p)) (filled (PSKHash p) PSKHashSize)) (some (PSKHasNonce (PSKMode p)) (filled (PSKNonce p) PSKNonceSize))
    (some (PSKHasIV (PSKMode p)) (filled (PSKIV p) PSKIVSize)) (LPCMode p =? LPCFieldPresent) (some (LPCMode p =? LPCFieldPresent) (filled (Compression p) CompressionSize))
    (present (P_PFD p)) (match P_PFD p with Some f => pfd_cut f | None => mkPFD 0 0 end) (0 <? zlen (HdrExt p)) (some (0 <? zlen (HdrExt p)) (HdrExt p)) payload.

Lemma checkPSKSlice_ok b size : slice_ok b size -> checkPSKSlice b size = Ok tt.
Proof. destruct b as [b|]; cbn; [|done]. intros ->. by rewrite Z.eqb_refl. Qed.

Lemma appendOrZero_filled dst b size : appendOrZero dst b size = dst ++ filled b size.
Proof. by destruct b. Qed.

Lemma zlen_filled b size : 0 <= size -> slice_ok b size -> zlen (filled b size) = size.
Proof. intros Hs. destruct b as [b|]; cbn; [done|]. intros _. rewrite zlen_replicate. lia. Qed.

Lemma flowid_bytes_app f dst : match f with Some f => flowid_appendTo f dst | None => dst end = dst ++ flowid_bytes f.
Proof. destruct f as [f|]; cbn; [|by rewrite app_nil_r]. unfold flowid_appendTo. by rewrite <-!app_assoc. Qed.

Lemma pfd_bytes_app f dst : match f with Some f => pfd_appendTo f dst | None => dst end = dst ++ pfd_bytes f.
Proof. destruct f as [f|]; cbn; [done|by rewrite app_nil_r]. Qed.

Lemma opt_app (has : bool) dst (f : bytes) : (if has then dst ++ f else dst) = dst ++ opt has f.
Proof. destruct has; [done|by rewrite app_nil_r]. Qed.

Lemma hdrext_app dst (h : bytes) : (if 0 <? zlen h then dst ++ h else dst) = dst ++ h.
Proof. destruct (Z.ltb_spec 0 (zlen h)); [done|]. destruct h; [by rewrite app_nil_r|]. rewrite zlen_cons in *. pose proof (zlen_nonneg h). lia. Qed.

Lemma Build_header dst p payload : params_ok p -> Build dst p payload = Ok (dst ++ header p ++ payload).
Proof.
  intros (Hs & Ht & Hr & He & Hk & Hl & H1 & H2 & H3 & H4 & _). unfold Build. unfold typeMask, pskMaxIncl, lpcMaxIncl.
  destruct (Z.ltb_spec 15 (EncType p)); [lia|]. destruct (Z.ltb_spec 7 (PSKMode p)); [lia|]. destruct (Z.ltb_spec 3 (LPCMode p)); [lia|].
  rewrite !checkPSKSlice_ok by done. cbn [mbind res_bind]. unfold header. destruct (SplitSeq (Seq p)) as [low high].
  rewrite !appendOrZero_filled, pfd_bytes_app, flowid_bytes_app, hdrext_app, !opt_app. f_equal. rewrite <-!app_assoc. done.
Qed.

Lemma zlen_flowid_bytes f : (forall g, f = Some g -> flowid_typed g) -> zlen (flowid_bytes f) = if present f then FlowIDSize else 0.
Proof. intros H. destruct f as [g|]; [|done]. cbn. by apply (flowid_round g), H. Qed.

Lemma zlen_pfd_bytes f : (forall g, f = Some g -> pfd_typed g) -> zlen (pfd_bytes f) = if present f then PFDSize else 0.
Proof. intros H. destruct f as [g|]; [|done]. cbn. by apply (pfd_round g), H. Qed.

Lemma zlen_opt (has : bool) f n : zlen f = n -> zlen (opt has f) = if has then n else 0.
Proof. by destruct has. Qed.

Lemma zlen_header p : params_ok p -> zlen (header p) = HeaderSize p.
Proof.
  intros (Hs & Ht & Hr & He & Hk & Hl & H1 & H2 & H3 & H4 & H5 & H6 & _). unfold header, HeaderSize. destruct (SplitSeq (Seq p)) as [low high]. zlens.
  rewrite zlen_flowid_bytes, zlen_pfd_bytes by done. rewrite (zlen_opt _ _ PSKHashSize), (zlen_opt _ _ PSKNonceSize), (zlen_opt _ _ PSKIVSize), (zlen_opt _ _ CompressionSize) by (by apply zlen_filled).
  unfold PSKHdrSize. change HeaderMin with 16. pose proof (zlen_nonneg (HdrExt p)).
  destruct (present (P_FlowID p)), (present (P_PFD p)), (PSKHasHash (PSKMode p)), (PSKHasNonce (PSKMode p)), (PSKHasIV (PSKMode p)), (LPCMode p =? LPCFieldPresent), (Z.ltb_spec 0 (zlen (HdrExt p)));
    unfold FlowIDSize, PFDSize, PSKHashSize, PSKNonceSize, PSKIVSize, CompressionSize; lia.
Qed.

(** Where the fields lie. *)
Lemma take_flowid_at buf off f : At buf off (flowid_bytes f) -> (forall g, f = Some g -> flowid_typed g) ->
  exists o, take_field (present f) FlowIDSize buf off = Ok (o, off + zlen (flowid_bytes f)) /\
    match o with Some b => parseFlowID b | None => Ok (mkFlowID 0 0 0) end = Ok (match f with Some g => flowid_cut g | None => mkFlowID 0 0 0 end).
Proof.
  intros H Hf. destruct f as [g|]; [|exists None; split; [|done]; cbn; by rewrite Z.add_0_r]. destruct (flowid_round g (Hf g eq_refl)) as [Hl Hp].
  exists (Some (flowid_appendTo g [])). split; [|exact Hp]. by apply (take_field_at true).
Qed.

Lemma take_pfd_at buf off f : At buf off (pfd_bytes f) -> (forall g, f = Some g -> pfd_typed g) ->
  exists o, take_field (present f) PFDSize buf off = Ok (o, off + zlen (pfd_bytes f)) /\
    match o with Some b => parsePFD b | None => Ok (mkPFD 0 0) end = Ok (match f with Some g => pfd_cut g | None => mkPFD 0 0 end).
Proof.
  intros H Hf. destruct f as [g|]; [|exists None; split; [|done]; cbn; by rewrite Z.add_0_r]. destruct (pfd_round g (Hf g eq_refl)) as [Hl Hp].
  exists (Some (pfd_appendTo g [])). split; [|exact Hp]. by apply (take_field_at true).
Qed.

Lemma Parse_header p payload : params_ok p -> Parse (header p ++ payload) = Ok (parsed_of p payload).
Proof.
  intros (Hs & Ht & Hr & He & Hk & Hl & H1 & H2 & H3 & H4 & H5 & H6 & H7). pose proof (split_join (Seq p) Hs) as Hsj. unfold header. destruct (SplitSeq (Seq p)) as [low high]. destruct Hsj as (Hlow & Hhigh & Hjoin).
  destruct (psk_join (PSKMode p) Hk) as [Epsk Hpsk2].
  pose proof (flags_of_bits (FirstFrag p) (LastFrag p) (Expedite p) (Retransmit p) (present (P_FlowID p)) (present (P_PFD p)) (0 <? zlen (HdrExt p)) _ Hpsk2) as Hfl.
  cbv zeta in Hfl. rewrite <-build_flags_of in Hfl. destruct Hfl as (F1 & F2 & F3 & F4 & F5 & F6 & F7 & F8).
  destruct (pb_of_fields (PSKMode p) (LPCMode p) (EncType p) Hk Hl He) as (B1 & B2 & B3). change (pb_of (PSKMode p) (LPCMode p) (EncType p)) with (build_pb p) in B1, B2, B3.
  set (fid := flowid_bytes (P_FlowID p)). set (hb := opt (PSKHasHash _) _). set (nb := opt (PSKHasNonce _) _). set (ib := opt (PSKHasIV _) _). set (cb := opt (_ =? _) _). set (pb := pfd_bytes (P_PFD p)).
  rewrite <-!app_assoc. remember ([rtpFlags] ++ [PayloadType] ++ be_bytes 2 low ++ be_bytes 4 (Timestamp p) ++ be_bytes 4 (SSRC p) ++ be_bytes 2 high ++ [build_flags p] ++ [build_pb p] ++
    fid ++ hb ++ nb ++ ib ++ cb ++ pb ++ HdrExt p ++ payload) as buf eqn:Eb.
  assert (Hn : zlen buf = 16 + zlen fid + zlen hb + zlen nb + zlen ib + zlen cb + zlen pb + zlen (HdrExt p) + zlen payload) by (rewrite Eb; zlens; lia).
  assert (A0 : At buf 0 [rtpFlags]) by (rewrite Eb; at_solve). assert (A1 : At buf 1 [PayloadType]) by (rewrite Eb; at_solve). assert (A2 : At buf 2 (be_bytes 2 low)) by (rewrite Eb; at_solve).
  assert (A3 : At buf 4 (be_bytes 4 (Timestamp p))) by (rewrite Eb; at_solve). assert (A4 : At buf 8 (be_bytes 4 (SSRC p))) by (rewrite Eb; at_solve).
  assert (A5 : At buf 12 (be_bytes 2 high)) by (rewrite Eb; at_solve). assert (A6 : At buf 14 [build_flags p]) by (rewrite Eb; at_solve). assert (A7 : At buf 15 [build_pb p]) by (rewrite Eb; at_solve).
  assert (A8 : At buf 16 fid) by (rewrite Eb; at_solve). assert (A9 : At buf (16 + zlen fid) hb) by (rewrite Eb; at_solve). assert (A10 : At buf (16 + zlen fid + zlen hb) nb) by (rewrite Eb; at_solve).
  assert (A11 : At buf (16 + zlen fid + zlen hb + zlen nb) ib) by (rewrite Eb; at_solve). assert (A12 : At buf (16 + zlen fid + zlen hb + zlen nb + zlen ib) cb) by (rewrite Eb; at_solve).
  assert (A13 : At buf (16 + zlen fid + zlen hb + zlen nb + zlen ib + zlen cb) pb) by (rewrite Eb; at_solve).
  assert (A14 : At buf (16 + zlen fid + zlen hb + zlen nb + zlen ib + zlen cb + zlen pb) (HdrExt p)) by (rewrite Eb; at_solve).
  assert (A15 : At buf (16 + zlen fid + zlen hb + zlen nb + zlen ib + zlen cb + zlen pb + zlen (HdrExt p)) payload) by (rewrite Eb; at_solve).
  clear Eb. pose proof (zlen_nonneg fid). pose proof (zlen_nonneg hb). pose proof (zlen_nonneg nb). pose proof (zlen_nonneg ib). pose proof (zlen_nonneg cb). pose proof (zlen_nonneg pb).
  pose proof (zlen_nonneg (HdrExt p)). pose proof (zlen_nonneg payload).
  unfold Parse. change HeaderMin with 16. destruct (Z.ltb_spec (zlen buf) 16); [lia|].
  rewrite (at_idx _ _ _ A0). cbn [mbind res_bind]. change (negb (Z.land rtpFlags 192 =? 128)) with false. cbv iota. rewrite (at_idx _ _ _ A1). cbn [mbind res_bind].
  change (negb (Z.land PayloadType 127 =? PayloadType) && (Z.land PayloadType 127 <? dynamicPTMin)) with false. cbv iota.
  pose proof (at_u16 (E:=err) _ _ _ 4 A2 Hlow eq_refl) as R1. pose proof (at_u32 (E:=err) _ _ _ 8 A3 Ht eq_refl) as R2. pose proof (at_u32 (E:=err) _ _ _ 12 A4 Hr eq_refl) as R3.
  pose proof (at_u16 (E:=err) _ _ _ 14 A5 Hhigh eq_refl) as R4. cbn [mbind res_bind] in R1, R2, R3, R4. rewrite R1. cbn [mbind res_bind]. rewrite R2. cbn [mbind res_bind]. rewrite R3. cbn [mbind res_bind].
  unfold skip_rtp. change (RTPSize + Z.land rtpFlags 15 * 4) with 12. change (negb (Z.land rtpFlags 16 =? 0)) with false. change (negb (Z.land rtpFlags 32 =? 0)) with false. cbv iota.
  destruct (Z.ltb_spec (zlen buf) 12); [lia|]. cbn [mbind res_bind]. change (12 + ExtSize) with 16. change (12 + 2) with 14. change (12 + 3) with 15. destruct (Z.ltb_spec (zlen buf) 16); [lia|]. rewrite R4. cbn [mbind res_bind].
  rewrite (at_idx _ _ _ A6). cbn [mbind res_bind]. rewrite (at_idx _ _ _ A7). cbn [mbind res_bind]. rewrite F8, B1, Epsk, B2, B3, F1, F2, F3, F4, F5, F6, F7, Hjoin.
  destruct (take_flowid_at _ _ _ A8 H5) as (o1 & -> & Eo1). cbn [mbind res_bind]. rewrite Eo1. cbn [mbind res_bind]. fold fid.
  rewrite (take_field_at _ _ _ _ _ A9) by (by apply zlen_filled). cbn [mbind res_bind]. fold hb. rewrite (take_field_at _ _ _ _ _ A10) by (by apply zlen_filled). cbn [mbind res_bind]. fold nb.
  rewrite (take_field_at _ _ _ _ _ A11) by (by apply zlen_filled). cbn [mbind res_bind]. fold ib. rewrite (take_field_at _ _ _ _ _ A12) by (by apply zlen_filled). cbn [mbind res_bind]. fold cb.
  destruct (take_pfd_at _ _ _ A13 H6) as (o2 & -> & Eo2). cbn [mbind res_bind]. rewrite Eo2. cbn [mbind res_bind]. fold pb.
  rewrite (take_hdrext_at _ _ _ A14 H7). cbn [mbind res_bind]. unfold slc_from. rewrite (at_slc _ _ _ _ A15) by lia. done.
Qed.

(** ** Arbitrary packets *)

Lemma returns_bind {A B} (m : res err A) (k : A -> res err B) P Q : returns m P -> (forall a, P a -> returns (k a) Q) -> returns (m ≫= k) Q.
Proof. destruct m; cbn; auto. Qed.

Lemma returns_u16 b i j : is_bytes b -> 0 <= i -> j = i + 2 -> j <= zlen b -> returns (E:=err) (t ← slc b i j; Uint16 t) in_u16.
Proof. intros. destruct (rd_u16 (E:=err) b i j) as (v & -> & Hv); done. Qed.
Lemma returns_u32 b i j : is_bytes b -> 0 <= i -> j = i + 4 -> j <= zlen b -> returns (E:=err) (t ← slc b i j; Uint32 t) in_u32.
Proof. intros. destruct (rd_u32 (E:=err) b i j) as (v & -> & Hv); done. Qed.
Lemma returns_byte b i : is_bytes b -> 0 <= i < zlen b -> returns (E:=err) (idx b i) in_u8.
Proof. intros. destruct (rd_byte (E:=err) b i) as (v & -> & Hv); done. Qed.

Lemma take_field_total has size buf off : is_bytes buf -> 0 <= size -> 0 <= off <= zlen buf ->
  returns (take_field has size buf off) (fun '(o, off') => off <= off' <= zlen buf /\ forall b, o = Some b -> is_bytes b /\ zlen b = size).
Proof.
  intros Hb Hs Ho. unfold take_field. destruct has; [|cbn; split; [lia|done]]. destruct (Z.ltb_spec (zlen buf) (off + size)); [done|].
  destruct (slc_ok (E:=err) buf off (off + size)) as (x & -> & Hx & Hbx); [lia|lia|]. cbn. split; [lia|]. intros b [= <-]. split; [by apply Hbx|lia].
Qed.

Lemma take_hdrext_total has buf off : is_bytes buf -> 0 <= off <= zlen buf -> returns (take_hdrext has buf off) (fun '(o, off') => off <= off' <= zlen buf).
Proof.
  intros Hb Ho. unfold take_hdrext, rtpExtHdrSize. destruct has; [|cbn; lia]. destruct (Z.ltb_spec (zlen buf) (off + 4)); [done|].
  eapply returns_bind; [apply returns_u16; (done || lia)|]. intros w Hw. unfold in_u16 in Hw. cbv zeta. destruct (Z.ltb_spec (zlen buf) (off + (4 + w * 4))); [done|].
  destruct (slc_ok (E:=err) buf off (off + (4 + w * 4))) as (x & -> & _); [lia|lia|]. cbn. lia.
Qed.

Lemma skip_rtp_total buf cc ext : is_bytes buf -> 0 <= cc -> returns (skip_rtp buf cc ext) (fun off => 12 <= off <= zlen buf).
Proof.
  intros Hb Hc. unfold skip_rtp, RTPSize, rtpExtHdrSize. destruct (Z.ltb_spec (zlen buf) (12 + cc * 4)); [done|]. destruct ext; [|cbn; lia].
  destruct (Z.ltb_spec (zlen buf) (12 + cc * 4 + 4)); [done|]. eapply returns_bind; [apply returns_u16; (done || lia)|]. intros w Hw. unfold in_u16 in Hw. cbv zeta.
  destruct (Z.ltb_spec (zlen buf) (12 + cc * 4 + (4 + w * 4))); cbn; [done|lia].
Qed.

Lemma parseFlowID_total b : is_bytes b -> zlen b = 4 -> returns (parseFlowID b) (fun _ => True).
Proof.
  intros Hb Hl. unfold parseFlowID. eapply returns_bind; [apply returns_byte; (done || lia)|]. intros x _. eapply returns_bind; [apply returns_byte; (done || lia)|]. intros y _.
  eapply returns_bind; [apply returns_u16; (done || lia)|]. done.
Qed.

Lemma parsePFD_total b : is_bytes b -> zlen b = 4 -> returns (parsePFD b) (fun _ => True).
Proof. intros Hb Hl. unfold parsePFD. eapply returns_bind; [apply returns_u32; (done || lia)|]. done. Qed.

Lemma adv_Parse_total buf : is_bytes buf -> returns (Parse buf) (fun o => (exists hdr, buf = hdr ++ o_Payload o /\ HeaderMin <= zlen hdr) /\ forall iv, o_PSKIV o = Some iv -> zlen iv = 4).
Proof.
  intros Hb. unfold Parse. change HeaderMin with 16. destruct (Z.ltb_spec (zlen buf) 16); [done|].
  eapply returns_bind; [apply returns_byte; (done || lia)|]. intros f0 Hf0. destruct (negb (_ =? 128)); [done|].
  eapply returns_bind; [apply returns_byte; (done || lia)|]. intros b1 _. cbv zeta. destruct (negb _ && _); [done|].
  eapply returns_bind; [apply returns_u16; (done || lia)|]. intros sq _. eapply returns_bind; [apply returns_u32; (done || lia)|]. intros ts _.
  eapply returns_bind; [apply returns_u32; (done || lia)|]. intros ssrc _. eapply returns_bind; [apply skip_rtp_total; [done|]; unfold in_u8 in Hf0; apply Z.land_nonneg; lia|]. intros off Hoff. cbn beta in Hoff.
  change ExtSize with 4. destruct (Z.ltb_spec (zlen buf) (off + 4)); [done|]. eapply returns_bind; [apply returns_u16; (done || lia)|]. intros se _.
  eapply returns_bind; [apply returns_byte; (done || lia)|]. intros fl _. eapply returns_bind; [apply returns_byte; (done || lia)|]. intros pb _.
  eapply returns_bind; [apply (take_field_total _ FlowIDSize); (done || lia)|]. intros [fid o1] [Ho1 Hfid].
  eapply (returns_bind _ _ (fun _ => True)). { destruct fid as [b|]; [|done]. destruct (Hfid b eq_refl). by apply parseFlowID_total. } intros flow _.
  eapply returns_bind; [apply (take_field_total _ PSKHashSize); (done || lia)|]. intros [hash o2] [Ho2 _].
  eapply returns_bind; [apply (take_field_total _ PSKNonceSize); (done || lia)|]. intros [nonce o3] [Ho3 _].
  eapply returns_bind; [apply (take_field_total _ PSKIVSize); (done || lia)|]. intros [iv o4] [Ho4 Hiv].
  eapply returns_bind; [apply (take_field_total _ CompressionSize); (done || lia)|]. intros [comp o5] [Ho5 _].
  eapply returns_bind; [apply (take_field_total _ PFDSize); (done || lia)|]. intros [pfd o6] [Ho6 Hpfd].
  eapply (returns_bind _ _ (fun _ => True)). { destruct pfd as [b|]; [|done]. destruct (Hpfd b eq_refl). by apply parsePFD_total. } intros pf _.
  eapply returns_bind; [apply take_hdrext_total; (done || lia)|]. intros [hx o7] Ho7. cbn beta iota in Ho7.
  destruct (slc_at (E:=err) buf o7 (zlen buf)) as (pl & E & (A & B & Eb & HA) & Hpl); [lia|lia|]. unfold slc_from. rewrite E. cbn. split; [|intros b ->; by apply Hiv]. exists A.
  assert (B = []) as -> by (rewrite Eb, !zlen_app in Hpl; destruct B; [done|]; rewrite zlen_cons in Hpl; pose proof (zlen_nonneg B); lia). rewrite app_nil_r in Eb. split; [done|lia].
Qed.

(** ** Properties *)

(** Build accepts every packet description whose fields have the widths of the wire, writes HeaderSize header bytes and the
    payload, and Parse of those bytes returns that description: the full 32-bit sequence number, every flag, the PSK and
    compression modes with the optional fields they require (zero where the caller gave none), the flow ID and the payload
    format descriptor cut to their wire widths, the header extension and the payload. *)
Theorem adv_round_trip dst p payload : params_ok p ->
  exists pkt, Build dst p payload = Ok (dst ++ pkt) /\ zlen pkt = HeaderSize p + zlen payload /\ Parse pkt = Ok (parsed_of p payload).
Proof.
  intros Hp. exists (header p ++ payload). split; [by apply Build_header|]. split; [rewrite zlen_app, zlen_header by done; done|by apply Parse_header].
Qed.

Definition demo_params : Params :=
  mkParams 0x12345678 77 42 TypeDirect PSKAESGCM LPCFieldPresent true false true false (Some (mkFlowID 5 0x1ABC 3)) (Some (replicate 16 9)) None (Some [1; 2; 3; 4]) None (Some (mkPFD 2 99))
    ([0xBE; 0xDE; 0; 1] ++ [1; 2; 3; 4]).

Lemma adv_round_trip_witness : exists pkt, Build [] demo_params [8; 8] = Ok pkt /\ zlen pkt = 62 /\ Parse pkt = Ok (parsed_of demo_params [8; 8]).
Proof.
  destruct (adv_round_trip [] demo_params [8; 8]) as (pkt & H1 & H2 & H3).
  - unfold params_ok. cbn [demo_params Seq Timestamp SSRC EncType PSKMode LPCMode PSKHash PSKNonce PSKIV Compression P_FlowID P_PFD HdrExt slice_ok].
    unfold in_u32, TypeDirect, PSKAESGCM, LPCFieldPresent. repeat (split; [first [lia|done]|]). split; [intros f [= <-]; split; [done|split; done]|]. split; [intros f [= <-]; split; done|].
    right. exists [0xBE; 0xDE], 1, [1; 2; 3; 4]. done.
  - exists pkt. done.
Defined.

(** On arbitrary bytes Parse does not panic: it reports an error or a packet whose payload is what follows a header of at
    least HeaderMin bytes of the input. *)
Theorem adv_parse_total buf : is_bytes buf -> returns (Parse buf) (fun o => exists hdr, buf = hdr ++ o_Payload o /\ HeaderMin <= zlen hdr).
Proof. intros Hb. pose proof (adv_Parse_total buf Hb) as H. destruct (Parse buf); [exact (proj1 H)|done..]. Qed.

Lemma adv_parse_total_witness : returns (Parse ([0x90; 96] ++ replicate 18 1)) (fun o => exists hdr, [0x90; 96] ++ replicate 18 1 = hdr ++ o_Payload o /\ HeaderMin <= zlen hdr).
Proof. apply (adv_parse_total ([0x90; 96] ++ replicate 18 1)). repeat constructor; done. Defined.
End adv.
