(* ===== verification/AdvCtrl.v ===== *)
(** * Advanced-profile control messages (src/internal/adv/adv_ctrl.go)

    The control sub-header, the bodies of the NACK, RTT-echo, keep-alive, future-nonce and unsupported messages, and the packing
    of a list of missing sequences into NACK entries.  sort.Slice orders by a key that no two different sequences share, so its
    result is that of any sort by the key. *)

From stdpp Require Import sets sorting.
From S2P Require Import Prelude Bytes Adv.
Import adv.

Module advctrl.

Definition CINackBitmask : Z := 0x0000.
Definition CINackRange : Z := 0x0001.
Definition CILQMGlobal : Z := 0x0002.
Definition CILQMLinkSpecific : Z := 0x0003.
Definition CIRTTEchoReq : Z := 0x0010.
Definition CIRTTEchoResp : Z := 0x0011.
Definition CIFEC20225Row : Z := 0x0020.
Definition CIFEC20225Col : Z := 0x0021.
Definition CIFEC20221Row : Z := 0x0022.
Definition CIFEC20221Col : Z := 0x0023.
Definition CIKeepalive : Z := 0x8000.
Definition CIFlowAttr : Z := 0x8001.
Definition CISRPAuth : Z := 0x8010.
Definition CIPSKNonce : Z := 0x8011.
Definition CIUnsupported : Z := 0x8020.

Definition KeepaliveCapI : Z := Z.shiftl 1 31.
Definition KeepaliveCapG : Z := Z.shiftl 1 30.
Definition KeepaliveCapC : Z := Z.shiftl 1 29.

Definition nackBodySize : Z := 12.
Definition rttEchoBodySize : Z := 16.
Definition keepaliveBodySize : Z := 10.
Definition pskNonceBodySize : Z := 8.
Definition unsupportedHeadLen : Z := 6.
Definition maxNACKDecodeRange : Z := 10000.

(** ** Framing *)

Definition BuildControl (dst : bytes) (ci : Z) (body : bytes) : bytes :=
  let dst := dst ++ be_bytes 2 ci in
  let dst := dst ++ be_bytes 2 (u16 (zlen body)) in
  dst ++ body.

Definition ParseControl (payload : bytes) : res err (Z * bytes) :=
  if zlen payload <? CtrlHdrSize then Err ErrShortControl else
  ci ← (t ← slc payload 0 2; Uint16 t);
  bodyLen ← (t ← slc payload 2 4; Uint16 t);
  if zlen payload <? CtrlHdrSize + bodyLen then Err ErrShortControl else
  body ← slc payload CtrlHdrSize (CtrlHdrSize + bodyLen);
  Ok (ci, body).

(** ** Bodies *)

Record NackBitmask := mkNackBitmask { bm_MediaSSRC : Z; bm_PSS : Z; BLP : Z }.
Definition bitmask_appendBody (n : NackBitmask) (dst : bytes) : bytes :=
  let dst := dst ++ be_bytes 4 (bm_MediaSSRC n) in
  let dst := dst ++ be_bytes 4 (bm_PSS n) in
  dst ++ be_bytes 4 (BLP n).
Definition bitmask_Missing (n : NackBitmask) : list Z :=
  [bm_PSS n] ++ ((fun i => u32 (bm_PSS n + 1 + i)) <$> List.filter (fun i => negb (Z.land (BLP n) (Z.shiftl 1 i) =? 0)) (seqZ 0 32)).
Definition ParseNackBitmask (body : bytes) : res err NackBitmask :=
  if zlen body <? nackBodySize then Err ErrShortControl else
  s ← (t ← slc body 0 4; Uint32 t);
  p ← (t ← slc body 4 8; Uint32 t);
  b ← (t ← slc body 8 12; Uint32 t);
  Ok (mkNackBitmask s p b).

Record NackRange := mkNackRange { rg_MediaSSRC : Z; rg_PSS : Z; NALP : Z }.
Definition range_appendBody (n : NackRange) (dst : bytes) : bytes :=
  let dst := dst ++ be_bytes 4 (rg_MediaSSRC n) in
  let dst := dst ++ be_bytes 4 (rg_PSS n) in
  dst ++ be_bytes 4 (NALP n).
Definition range_Missing (n : NackRange) : list Z :=
  let count := if maxNACKDecodeRange <? NALP n then maxNACKDecodeRange else NALP n in
  (fun i => u32 (rg_PSS n + i)) <$> seqZ 0 (count + 1).
Definition ParseNackRange (body : bytes) : res err NackRange :=
  if zlen body <? nackBodySize then Err ErrShortControl else
  s ← (t ← slc body 0 4; Uint32 t);
  p ← (t ← slc body 4 8; Uint32 t);
  b ← (t ← slc body 8 12; Uint32 t);
  Ok (mkNackRange s p b).

Record RTTEcho := mkRTTEcho { RequesterSSRC : Z; TimestampMSW : Z; TimestampLSW : Z; ProcessingDelay : Z }.
Definition echo_Timestamp (e : RTTEcho) : Z := Z.lor (u64 (Z.shiftl (TimestampMSW e) 32)) (TimestampLSW e).
Definition echo_appendBody (e : RTTEcho) (dst : bytes) : bytes :=
  let dst := dst ++ be_bytes 4 (RequesterSSRC e) in
  let dst := dst ++ be_bytes 4 (TimestampMSW e) in
  let dst := dst ++ be_bytes 4 (TimestampLSW e) in
  dst ++ be_bytes 4 (ProcessingDelay e).
Definition RTTEchoFromTimestamp (requesterSSRC ts processingDelay : Z) : RTTEcho :=
  mkRTTEcho requesterSSRC (u32 (Z.shiftr ts 32)) (u32 ts) processingDelay.
Definition ParseRTTEcho (body : bytes) : res err RTTEcho :=
  if zlen body <? rttEchoBodySize then Err ErrShortControl else
  s ← (t ← slc body 0 4; Uint32 t);
  m ← (t ← slc body 4 8; Uint32 t);
  l ← (t ← slc body 8 12; Uint32 t);
  d ← (t ← slc body 12 16; Uint32 t);
  Ok (mkRTTEcho s m l d).

Record Keepalive := mkKeepalive { MAC : bytes; Caps : Z }.
Definition keepalive_appendBody (k : Keepalive) (dst : bytes) : bytes := (dst ++ MAC k) ++ be_bytes 4 (Caps k).
Definition ParseKeepalive (body : bytes) : res err Keepalive :=
  if zlen body <? keepaliveBodySize then Err ErrShortControl else
  mac ← slc body 0 6;
  caps ← (t ← slc body 6 10; Uint32 t);
  Ok (mkKeepalive mac caps).

Record PSKNonceMsg := mkPSKNonceMsg { pn_Nonce : bytes; KeyBits : Z }.
Definition psknonce_appendBody (p : PSKNonceMsg) (dst : bytes) : bytes := ((dst ++ pn_Nonce p) ++ be_bytes 2 (KeyBits p)) ++ [0; 0].
Definition ParsePSKNonce (body : bytes) : res err PSKNonceMsg :=
  if zlen body <? pskNonceBodySize then Err ErrShortControl else
  nonce ← slc body 0 4;
  bits ← (t ← slc body 4 6; Uint16 t);
  Ok (mkPSKNonceMsg nonce bits).

Record Unsupported := mkUnsupported { ResponderSSRC : Z; IncomingCI : Z; Head : bytes }.
Definition unsupported_appendBody (u : Unsupported) (dst : bytes) : bytes :=
  let dst := dst ++ be_bytes 4 (ResponderSSRC u) in
  let dst := dst ++ be_bytes 2 (IncomingCI u) in
  let dst := dst ++ [0; 0] in
  let dst := dst ++ Head u in
  dst ++ [0; 0].

Definition BuildNackBitmask (dst : bytes) (n : NackBitmask) : bytes := BuildControl dst CINackBitmask (bitmask_appendBody n []).
Definition BuildNackRange (dst : bytes) (n : NackRange) : bytes := BuildControl dst CINackRange (range_appendBody n []).
Definition BuildRTTEchoRequest (dst : bytes) (e : RTTEcho) : bytes := BuildControl dst CIRTTEchoReq (echo_appendBody e []).
Definition BuildRTTEchoResponse (dst : bytes) (e : RTTEcho) : bytes := BuildControl dst CIRTTEchoResp (echo_appendBody e []).
Definition BuildKeepalive (dst : bytes) (k : Keepalive) : bytes := BuildControl dst CIKeepalive (keepalive_appendBody k []).
Definition BuildPSKNonce (dst : bytes) (p : PSKNonceMsg) : bytes := BuildControl dst CIPSKNonce (psknonce_appendBody p []).
Definition BuildUnsupported (dst : bytes) (u : Unsupported) : bytes := BuildControl dst CIUnsupported (unsupported_appendBody u []).
Definition BuildFlowAttr (dst json : bytes) : bytes := BuildControl dst CIFlowAttr json.

(** ** Packing a list of missing sequences *)

Definition wrap_le (pivot a b : Z) : Prop := i32 (u32 (a - pivot)) <= i32 (u32 (b - pivot)).
#[export] Instance wrap_le_dec pivot a b : Decision (wrap_le pivot a b) := decide (i32 (u32 (a - pivot)) <= i32 (u32 (b - pivot))).
#[export] Instance wrap_le_rel_dec pivot : RelDecision (wrap_le pivot) := fun a b => wrap_le_dec pivot a b.
Definition sortSeqsWrap (s : list Z) : list Z := match s with [] => [] | pivot :: _ => merge_sort (wrap_le pivot) s end.

(** The inner loop of EncodeBitmaskNACK: the mask, and the sequences left. *)
Fixpoint bitmask_window (pss blp : Z) (s : list Z) : Z * list Z :=
  match s with
  | [] => (blp, [])
  | x :: s' =>
      let delta := u32 (x - pss) in
      if delta =? 0 then bitmask_window pss blp s'
      else if 32 <? delta then (blp, s)
      else bitmask_window pss (Z.lor blp (u32 (Z.shiftl 1 (delta - 1)))) s'
  end.
Fixpoint encode_bitmask (fuel : nat) (mediaSSRC : Z) (s : list Z) : list NackBitmask :=
  match fuel, s with
  | S fuel, pss :: s => let '(blp, s) := bitmask_window pss 0 s in mkNackBitmask mediaSSRC pss blp :: encode_bitmask fuel mediaSSRC s
  | _, _ => []
  end.
Definition EncodeBitmaskNACK (mediaSSRC : Z) (missing : list Z) : list NackBitmask :=
  let s := sortSeqsWrap missing in encode_bitmask (length s) mediaSSRC s.

(** The inner loop of EncodeRangeNACK: the last sequence of the run, and the sequences left. *)
Fixpoint range_run (pss cur : Z) (s : list Z) : Z * list Z :=
  match s with
  | [] => (cur, [])
  | next :: s' =>
      if next =? cur then range_run pss next s'
      else if negb (next =? u32 (cur + 1)) then (cur, s)
      else if maxNACKDecodeRange <=? u32 (next - pss) then (cur, s)
      else range_run pss next s'
  end.
Fixpoint encode_range (fuel : nat) (mediaSSRC : Z) (s : list Z) : list NackRange :=
  match fuel, s with
  | S fuel, pss :: s => let '(lst, s) := range_run pss pss s in mkNackRange mediaSSRC pss (u32 (lst - pss)) :: encode_range fuel mediaSSRC s
  | _, _ => []
  end.
Definition EncodeRangeNACK (mediaSSRC : Z) (missing : list Z) : list NackRange :=
  let s := sortSeqsWrap missing in encode_range (length s) mediaSSRC s.

Example wrap_run : range_Missing <$> EncodeRangeNACK 7 [1; 4294967295; 0; 9; 0] = [[4294967295; 0; 1]; [9]].
Proof. vm_compute. reflexivity. Qed.

(** ** Framing lemmas *)

Lemma ParseControl_Build ci body : in_u16 ci -> zlen body < 65536 -> ParseControl (BuildControl [] ci body) = Ok (ci, body).
Proof.
  intros Hc Hb. unfold BuildControl. cbn [app]. rewrite <-app_assoc. pose proof (zlen_nonneg body). assert (Hl : u16 (zlen body) = zlen body) by (apply (uwrap_id 16); unfold in_u; lia). rewrite Hl.
  remember (be_bytes 2 ci ++ be_bytes 2 (zlen body) ++ body) as b eqn:E.
  assert (A0 : At b 0 (be_bytes 2 ci)) by (rewrite E; at_solve). assert (A1 : At b 2 (be_bytes 2 (zlen body))) by (rewrite E; at_solve). assert (A2 : At b 4 body) by (rewrite E; at_solve).
  assert (Hn : zlen b = 4 + zlen body) by (rewrite E; zlens; lia). clear E. unfold ParseControl, CtrlHdrSize. destruct (Z.ltb_spec (zlen b) 4); [lia|].
  pose proof (at_u16 (E:=err) _ _ _ 2 A0 Hc eq_refl) as R0. pose proof (at_u16 (E:=err) _ _ _ 4 A1 ltac:(unfold in_u16; lia) eq_refl) as R1. cbn [mbind res_bind] in R0, R1 |- *. rewrite R0. cbn [mbind res_bind]. rewrite R1. cbn [mbind res_bind].
  destruct (Z.ltb_spec (zlen b) (4 + zlen body)); [lia|]. by rewrite (at_slc _ _ _ _ A2).
Qed.

Definition bitmask_typed (n : NackBitmask) : Prop := in_u32 (bm_MediaSSRC n) /\ in_u32 (bm_PSS n) /\ in_u32 (BLP n).
Definition range_typed (n : NackRange) : Prop := in_u32 (rg_MediaSSRC n) /\ in_u32 (rg_PSS n) /\ in_u32 (NALP n).
Definition echo_typed (e : RTTEcho) : Prop := in_u32 (RequesterSSRC e) /\ in_u32 (TimestampMSW e) /\ in_u32 (TimestampLSW e) /\ in_u32 (ProcessingDelay e).
Definition keepalive_typed (k : Keepalive) : Prop := zlen (MAC k) = 6 /\ in_u32 (Caps k).
Definition psknonce_typed (p : PSKNonceMsg) : Prop := zlen (pn_Nonce p) = 4 /\ in_u16 (KeyBits p).

(** Three consecutive words. *)
Lemma read3 {A} (k : Z -> Z -> Z -> A) x y z t : in_u32 x -> in_u32 y -> in_u32 z ->
  (a ← (t ← slc (be_bytes 4 x ++ be_bytes 4 y ++ be_bytes 4 z ++ t) 0 4; Uint32 t);
   b ← (t ← slc (be_bytes 4 x ++ be_bytes 4 y ++ be_bytes 4 z ++ t) 4 8; Uint32 t);
   c ← (t ← slc (be_bytes 4 x ++ be_bytes 4 y ++ be_bytes 4 z ++ t) 8 12; Uint32 t); Ok (E:=err) (k a b c)) = Ok (k x y z).
Proof.
  intros Hx Hy Hz. remember (be_bytes 4 x ++ be_bytes 4 y ++ be_bytes 4 z ++ t) as b eqn:E.
  rewrite (at_u32 b 0 x 4) by (done || (rewrite E; at_solve)). cbn [mbind res_bind]. pose proof (at_u32 (E:=err) b 4 y 8 ltac:(rewrite E; at_solve) Hy eq_refl) as R1.
  pose proof (at_u32 (E:=err) b 8 z 12 ltac:(rewrite E; at_solve) Hz eq_refl) as R2. cbn [mbind res_bind] in R1, R2. rewrite R1. cbn [mbind res_bind]. by rewrite R2.
Qed.

Lemma ParseNackBitmask_body n : bitmask_typed n -> zlen (bitmask_appendBody n []) = 12 /\ ParseNackBitmask (bitmask_appendBody n []) = Ok n.
Proof.
  destruct n as [s p b]. intros (H1 & H2 & H3). cbn in H1, H2, H3. unfold bitmask_appendBody, ParseNackBitmask. cbn [bm_MediaSSRC bm_PSS BLP app]. rewrite <-app_assoc. split; [zlens; lia|].
  destruct (Z.ltb_spec (zlen (be_bytes 4 s ++ be_bytes 4 p ++ be_bytes 4 b)) nackBodySize) as [H|_]; [revert H; zlens; unfold nackBodySize; lia|].
  pose proof (read3 mkNackBitmask s p b [] H1 H2 H3) as R. by rewrite app_nil_r in R.
Qed.

Lemma ParseNackRange_body n : range_typed n -> zlen (range_appendBody n []) = 12 /\ ParseNackRange (range_appendBody n []) = Ok n.
Proof.
  destruct n as [s p b]. intros (H1 & H2 & H3). cbn in H1, H2, H3. unfold range_appendBody, ParseNackRange. cbn [rg_MediaSSRC rg_PSS NALP app]. rewrite <-app_assoc. split; [zlens; lia|].
  destruct (Z.ltb_spec (zlen (be_bytes 4 s ++ be_bytes 4 p ++ be_bytes 4 b)) nackBodySize) as [H|_]; [revert H; zlens; unfold nackBodySize; lia|].
  pose proof (read3 mkNackRange s p b [] H1 H2 H3) as R. by rewrite app_nil_r in R.
Qed.

Lemma ParseRTTEcho_body e : echo_typed e -> zlen (echo_appendBody e []) = 16 /\ ParseRTTEcho (echo_appendBody e []) = Ok e.
Proof.
  destruct e as [s m l d]. intros (H1 & H2 & H3 & H4). cbn in H1, H2, H3, H4. unfold echo_appendBody, ParseRTTEcho. cbn [RequesterSSRC TimestampMSW TimestampLSW ProcessingDelay app]. rewrite <-!app_assoc.
  split; [zlens; lia|]. remember (be_bytes 4 s ++ be_bytes 4 m ++ be_bytes 4 l ++ be_bytes 4 d) as b eqn:E. assert (Hn : zlen b = 16) by (rewrite E; zlens; lia).
  assert (A4 : At b 12 (be_bytes 4 d)) by (rewrite E; at_solve). pose proof (at_u32 (E:=err) b 12 d 16 A4 H4 eq_refl) as R4.
  pose proof (at_u32 (E:=err) b 0 s 4 ltac:(rewrite E; at_solve) H1 eq_refl) as R1. pose proof (at_u32 (E:=err) b 4 m 8 ltac:(rewrite E; at_solve) H2 eq_refl) as R2.
  pose proof (at_u32 (E:=err) b 8 l 12 ltac:(rewrite E; at_solve) H3 eq_refl) as R3. clear E. destruct (Z.ltb_spec (zlen b) rttEchoBodySize); [unfold rttEchoBodySize in *; lia|].
  rewrite R1. cbn [mbind res_bind]. cbn [mbind res_bind] in R2, R3, R4. rewrite R2. cbn [mbind res_bind]. rewrite R3. cbn [mbind res_bind]. by rewrite R4.
Qed.

Lemma ParseKeepalive_body k : keepalive_typed k -> zlen (keepalive_appendBody k []) = 10 /\ ParseKeepalive (keepalive_appendBody k []) = Ok k.
Proof.
  destruct k as [mac caps]. intros (H1 & H2). cbn in H1, H2. unfold keepalive_appendBody, ParseKeepalive. cbn [MAC Caps app]. remember (mac ++ be_bytes 4 caps) as b eqn:E.
  assert (Hn : zlen b = 10) by (rewrite E; zlens; lia). split; [done|]. assert (A0 : At b 0 mac) by (rewrite E; at_solve). assert (A1 : At b 6 (be_bytes 4 caps)) by (rewrite E; apply at_skip, at_end; zlens; lia). clear E.
  destruct (Z.ltb_spec (zlen b) keepaliveBodySize); [unfold keepaliveBodySize in *; lia|]. rewrite (at_slc _ _ _ _ A0) by lia. cbn [mbind res_bind].
  pose proof (at_u32 (E:=err) b 6 caps 10 A1 H2 eq_refl) as R. cbn [mbind res_bind] in R. by rewrite R.
Qed.

Lemma ParsePSKNonce_body p : psknonce_typed p -> zlen (psknonce_appendBody p []) = 8 /\ ParsePSKNonce (psknonce_appendBody p []) = Ok p.
Proof.
  destruct p as [nonce bits]. intros (H1 & H2). cbn in H1, H2. unfold psknonce_appendBody, ParsePSKNonce. cbn [pn_Nonce KeyBits app]. rewrite <-app_assoc. remember (nonce ++ be_bytes 2 bits ++ [0; 0]) as b eqn:E.
  assert (Hn : zlen b = 8) by (rewrite E; zlens; lia). split; [done|]. assert (A0 : At b 0 nonce) by (rewrite E; at_solve). assert (A1 : At b 4 (be_bytes 2 bits)) by (rewrite E; apply at_skip, at_here; zlens; lia). clear E.
  destruct (Z.ltb_spec (zlen b) pskNonceBodySize); [unfold pskNonceBodySize in *; lia|]. rewrite (at_slc _ _ _ _ A0) by lia. cbn [mbind res_bind].
  pose proof (at_u16 (E:=err) b 4 bits 6 A1 H2 eq_refl) as R. cbn [mbind res_bind] in R. by rewrite R.
Qed.

Lemma echo_timestamp_round s ts d : in_u64 ts -> echo_Timestamp (RTTEchoFromTimestamp s ts d) = ts.
Proof.
  intros Ht. unfold in_u64 in Ht. unfold echo_Timestamp, RTTEchoFromTimestamp. cbn [TimestampMSW TimestampLSW]. rewrite Z.shiftr_div_pow2 by lia. unfold u32, u64, uwrap. change (2 ^ 32) with 4294967296.
  assert (0 <= ts / 4294967296 < 4294967296) by (split; [apply Z.div_pos; lia|apply Z.div_lt_upper_bound; lia]). rewrite (Z.mod_small (ts / _)) by lia.
  pose proof (Z.mod_pos_bound ts 4294967296 ltac:(lia)). rewrite (Z.mod_small (Z.shiftl _ _)) by (rewrite Z.shiftl_mul_pow2 by lia; lia). rewrite lor_shiftl_add by lia.
  change (2 ^ 32) with 4294967296. pose proof (Z.div_mod ts 4294967296). lia.
Qed.

(** ** Packing is exact *)

Lemma sortSeqsWrap_perm s : sortSeqsWrap s ≡ₚ s.
Proof. destruct s as [|p s]; [done|]. unfold sortSeqsWrap. apply merge_sort_Permutation. Qed.

Lemma bit_clear b i : 0 <= i -> (Z.land b (Z.shiftl 1 i) =? 0) = negb (Z.testbit b i).
Proof. intros Hi. rewrite Z.shiftl_1_l. by apply land_pow2_zero. Qed.

Lemma bitmask_Missing_in n x : x ∈ bitmask_Missing n <-> x = bm_PSS n \/ exists i, 0 <= i < 32 /\ Z.testbit (BLP n) i = true /\ x = u32 (bm_PSS n + 1 + i).
Proof.
  unfold bitmask_Missing. cbn [app]. rewrite elem_of_cons, list_elem_of_fmap. setoid_rewrite list_elem_of_In. setoid_rewrite filter_In. setoid_rewrite <-list_elem_of_In. setoid_rewrite elem_of_seqZ.
  split; (intros [?|(i & H1 & H2)]; [by left|right; exists i]).
  - destruct H2 as [Hi Hb]. rewrite bit_clear, negb_involutive in Hb by lia. split; [lia|done].
  - destruct H2 as [Hb ->]. split; [done|]. split; [lia|]. by rewrite bit_clear, negb_involutive by lia.
Qed.

Lemma bitmask_window_spec pss blp s : in_u32 pss -> Forall in_u32 s -> exists used, s = used ++ (bitmask_window pss blp s).2 /\
  forall ssrc x, x ∈ bitmask_Missing (mkNackBitmask ssrc pss (bitmask_window pss blp s).1) <-> x ∈ bitmask_Missing (mkNackBitmask ssrc pss blp) \/ x ∈ used.
Proof.
  intros Hp. revert blp. induction s as [|y s IH]; intros blp Hs; cbn [bitmask_window].
  { exists []. split; [done|]. intros ssrc x. rewrite elem_of_nil. tauto. }
  inversion Hs as [|? ? Hy Hs']; subst. destruct (Z.eqb_spec (u32 (y - pss)) 0) as [Hd|Hd].
  - destruct (IH blp Hs') as (used & E & H). exists (y :: used). split; [cbn; by rewrite <-E|]. intros ssrc x. rewrite H, elem_of_cons.
    assert (y = pss) by (destruct (u32_spec (y - pss)) as (k & Hk & _); unfold in_u32 in *; lia). subst y. rewrite bitmask_Missing_in. cbn [bm_PSS]. tauto.
  - destruct (Z.ltb_spec 32 (u32 (y - pss))); [exists []; split; [done|]; intros ssrc x; rewrite elem_of_nil; tauto|].
    assert (Hr : in_u32 (u32 (y - pss))) by apply u32_range. unfold in_u32 in Hr.
    set (d := u32 (y - pss)) in *. assert (Hm : u32 (Z.shiftl 1 (d - 1)) = 2 ^ (d - 1)).
    { rewrite Z.shiftl_1_l. apply u32_id. unfold in_u32. split; [apply Z.pow_nonneg; lia|]. change 4294967296 with (2 ^ 32). apply Z.pow_lt_mono_r; lia. }
    rewrite Hm. destruct (IH (Z.lor blp (2 ^ (d - 1))) Hs') as (used & E & HM). exists (y :: used). split; [cbn; by rewrite <-E|]. intros ssrc x. rewrite HM, elem_of_cons, !bitmask_Missing_in. cbn [bm_PSS BLP].
    assert (Ey : u32 (pss + 1 + (d - 1)) = y) by (replace (pss + 1 + (d - 1)) with (pss + d) by lia; unfold d; rewrite u32_add_r; replace (pss + (y - pss)) with y by lia; by apply u32_id).
    assert (Hbits : (exists i, 0 <= i < 32 /\ Z.testbit (Z.lor blp (2 ^ (d - 1))) i = true /\ x = u32 (pss + 1 + i)) <-> (exists i, 0 <= i < 32 /\ Z.testbit blp i = true /\ x = u32 (pss + 1 + i)) \/ x = y).
    { split.
      - intros (i & Hi & Hb & Hx). rewrite testbit_lor_pow2 in Hb by lia. apply orb_true_iff in Hb as [Hb|Hb]; [left; by exists i|right]. apply Z.eqb_eq in Hb. by subst i x.
      - intros [(i & Hi & Hb & Hx)| ->]; [exists i; rewrite testbit_lor_pow2 by lia; by rewrite Hb|]. exists (d - 1). rewrite testbit_lor_pow2, Z.eqb_refl, orb_true_r by lia. split; [lia|done]. }
    rewrite Hbits. tauto.
Qed.

Lemma encode_bitmask_exact fuel ssrc s : Forall in_u32 s -> (length s <= fuel)%nat -> forall x, x ∈ concat (bitmask_Missing <$> encode_bitmask fuel ssrc s) <-> x ∈ s.
Proof.
  revert s. induction fuel as [|fuel IH]; intros [|pss s] Hs Hf x; cbn [encode_bitmask]; try done; cbn in Hf; [lia|]. inversion Hs as [|? ? Hp Hs']; subst.
  destruct (bitmask_window_spec pss 0 s Hp Hs') as (used & E & H). destruct (bitmask_window pss 0 s) as [blp r]. cbn [fst snd] in *. cbn [fmap list_fmap concat].
  rewrite elem_of_app, H, elem_of_cons, bitmask_Missing_in. cbn [bm_PSS BLP]. setoid_rewrite Z.testbit_0_l.
  rewrite IH; [|rewrite E in Hs'; by apply Forall_app in Hs' as [_ ?]|rewrite E, length_app in Hf; lia]. rewrite E, elem_of_app.
  assert (Hno : ~ exists i, 0 <= i < 32 /\ false = true /\ x = u32 (pss + 1 + i)) by (by intros (? & _ & ? & _)). tauto.
Qed.

(** The sequences from [pss] to [pss + k]. *)
Definition in_run (pss k x : Z) : Prop := exists i, 0 <= i <= k /\ x = u32 (pss + i).

Lemma range_run_spec pss k s : in_u32 pss -> 0 <= k < maxNACKDecodeRange -> Forall in_u32 s -> exists k' used, s = used ++ (range_run pss (u32 (pss + k)) s).2 /\
  (range_run pss (u32 (pss + k)) s).1 = u32 (pss + k') /\ 0 <= k' < maxNACKDecodeRange /\ forall x, in_run pss k' x <-> in_run pss k x \/ x ∈ used.
Proof.
  intros Hp. unfold maxNACKDecodeRange. revert k. induction s as [|y s IH]; intros k Hk Hs; cbn [range_run].
  { exists k, []. split; [done|]. split; [done|]. split; [done|]. intros x. rewrite elem_of_nil. tauto. }
  inversion Hs as [|? ? Hy Hs']; subst. assert (Hstop : exists k' used, y :: s = used ++ y :: s /\ u32 (pss + k) = u32 (pss + k') /\ 0 <= k' < 10000 /\ (forall x, in_run pss k' x <-> in_run pss k x \/ x ∈ used))
    by (exists k, []; split; [done|]; split; [done|]; split; [done|]; intros x; rewrite elem_of_nil; tauto).
  destruct (Z.eqb_spec y (u32 (pss + k))) as [-> |Hne].
  - destruct (IH k Hk Hs') as (k' & used & E & E1 & Hk' & H). exists k', (u32 (pss + k) :: used). split; [cbn; by rewrite <-E|]. split; [done|]. split; [done|].
    intros x. rewrite H, elem_of_cons. split; [tauto|]. intros [?|[-> |?]]; [by left| |by right]. left. exists k. split; [lia|done].
  - destruct (Z.eqb_spec y (u32 (u32 (pss + k) + 1))) as [-> |]; cbn [negb]; [|exact Hstop]. rewrite u32_add_l. rewrite u32_sub_l.
    assert (Ed : u32 (pss + k + 1 - pss) = k + 1) by (replace (pss + k + 1 - pss) with (k + 1) by lia; apply u32_id; unfold in_u32; lia). rewrite Ed.
    unfold maxNACKDecodeRange. destruct (Z.leb_spec 10000 (k + 1)); [rewrite u32_add_l in Hstop; exact Hstop|].
    replace (pss + k + 1) with (pss + (k + 1)) by lia. destruct (IH (k + 1)) as (k' & used & E & E1 & Hk' & HM); [lia|done|].
    exists k', (u32 (pss + (k + 1)) :: used). split; [cbn; by rewrite <-E|]. split; [done|]. split; [done|]. intros x. rewrite HM, elem_of_cons. split.
    + intros [(i & Hi & ->)|?]; [|by auto]. destruct (decide (i = k + 1)) as [-> |]; [by auto|]. left. exists i. split; [lia|done].
    + intros [(i & Hi & ->)|[-> |?]]; [left; exists i; split; [lia|done]|left; exists (k + 1); split; [lia|done]|by right].
Qed.

Lemma range_Missing_in ssrc pss k x : 0 <= k < maxNACKDecodeRange -> x ∈ range_Missing (mkNackRange ssrc pss k) <-> in_run pss k x.
Proof.
  unfold maxNACKDecodeRange. intros Hk. unfold range_Missing, maxNACKDecodeRange. cbn [NALP rg_PSS]. destruct (Z.ltb_spec 10000 k); [lia|]. rewrite list_elem_of_fmap. setoid_rewrite elem_of_seqZ. unfold in_run.
  split; intros (i & H1 & H2); exists i; split; (done || lia).
Qed.

Lemma encode_range_exact fuel ssrc s : Forall in_u32 s -> (length s <= fuel)%nat ->
  (forall x, x ∈ concat (range_Missing <$> encode_range fuel ssrc s) <-> x ∈ s) /\ Forall (fun n => in_u32 (rg_PSS n) /\ rg_MediaSSRC n = ssrc /\ 0 <= NALP n < maxNACKDecodeRange) (encode_range fuel ssrc s).
Proof.
  revert s. induction fuel as [|fuel IH]; intros [|pss s] Hs Hf; cbn [encode_range]; try (split; [done|constructor]); cbn in Hf; [lia|]. inversion Hs as [|? ? Hp Hs']; subst.
  destruct (range_run_spec pss 0 s Hp) as (k & used & E & E1 & Hk & H); [done|done|]. rewrite Z.add_0_r, (u32_id pss Hp) in E, E1. destruct (range_run pss pss s) as [lst r]. cbn [fst snd] in *.
  assert (Ek : u32 (lst - pss) = k). { rewrite E1, u32_sub_l. replace (pss + k - pss) with k by lia. apply u32_id. unfold in_u32, maxNACKDecodeRange in *. lia. }
  rewrite Ek. destruct (IH r) as [IH1 IH2]; [rewrite E in Hs'; by apply Forall_app in Hs' as [_ ?]|rewrite E, length_app in Hf; lia|]. split; [|constructor; [cbn; done|done]].
  intros x. cbn [fmap list_fmap concat]. rewrite elem_of_app, range_Missing_in, H, IH1, elem_of_cons by done. rewrite E, elem_of_app. unfold in_run.
  assert ((exists i, 0 <= i <= 0 /\ x = u32 (pss + i)) <-> x = pss) as ->; [|tauto]. split.
  - intros (i & Hi & ->). replace (pss + i) with pss by lia. by apply u32_id.
  - intros ->. exists 0. split; [lia|]. by rewrite Z.add_0_r, u32_id.
Qed.

Lemma encode_bitmask_typed fuel ssrc s : in_u32 ssrc -> Forall in_u32 s -> Forall bitmask_typed (encode_bitmask fuel ssrc s).
Proof.
  intros Hc. assert (Hw : forall pss s blp, in_u32 blp -> in_u32 (bitmask_window pss blp s).1).
  { clear s. intros pss s. induction s as [|y s IH]; intros blp Hb; cbn [bitmask_window]; [done|]. destruct (_ =? 0); [by apply IH|]. destruct (32 <? _); [done|]. apply IH.
    pose proof (u32_range (Z.shiftl 1 (u32 (y - pss) - 1))) as Hr. unfold in_u32 in *. change 4294967296 with (2 ^ 32) in *.
    split; [apply Z.lor_nonneg; lia|]. destruct (decide (Z.lor blp (u32 (Z.shiftl 1 (u32 (y - pss) - 1))) = 0)) as [-> |Hnz]; [lia|].
    apply Z.log2_lt_pow2; [assert (0 <= Z.lor blp (u32 (Z.shiftl 1 (u32 (y - pss) - 1)))) by (apply Z.lor_nonneg; lia); lia|]. rewrite Z.log2_lor by lia.
    assert (Hl : forall v, 0 <= v < 2 ^ 32 -> Z.log2 v < 32).
    { intros v Hv. destruct (decide (v = 0)) as [-> |]; [done|]. apply Z.log2_lt_pow2; lia. }
    pose proof (Hl _ Hb). pose proof (Hl _ Hr). lia. }
  revert s. induction fuel as [|fuel IH]; intros [|pss s] Hs; cbn [encode_bitmask]; try constructor. inversion Hs as [|? ? Hp Hs']; subst. specialize (Hw pss s 0 ltac:(done)).
  destruct (bitmask_window_spec pss 0 s Hp Hs') as (used & E & _). destruct (bitmask_window pss 0 s) as [blp r]. cbn [fst snd] in *. constructor; [done|]. apply IH. rewrite E in Hs'. by apply Forall_app in Hs' as [_ ?].
Qed.

Lemma Forall_sorted (P : Z -> Prop) s : Forall P s -> Forall P (sortSeqsWrap s).
Proof. intros H. by rewrite sortSeqsWrap_perm. Qed.

(** ** Arbitrary messages *)

(** Both packings of a request: the sequences requested, the field widths and the media source of every entry. *)
Lemma encode_bitmask_source fuel ssrc s : Forall (fun n => bm_MediaSSRC n = ssrc) (encode_bitmask fuel ssrc s).
Proof.
  revert s. induction fuel as [|fuel IH]; intros [|x s]; [constructor..|]. cbn [encode_bitmask]. destruct (bitmask_window x 0 s) as [blp rest]. constructor; [done|apply IH].
Qed.

Lemma EncodeRangeNACK_ok ssrc missing : in_u32 ssrc -> Forall in_u32 missing ->
  (forall x, x ∈ concat (range_Missing <$> EncodeRangeNACK ssrc missing) <-> x ∈ missing) /\ Forall range_typed (EncodeRangeNACK ssrc missing) /\ Forall (fun n => rg_MediaSSRC n = ssrc) (EncodeRangeNACK ssrc missing).
Proof.
  intros Hc Hm. pose proof (Forall_sorted _ _ Hm) as Hs. unfold EncodeRangeNACK. cbv zeta. destruct (encode_range_exact _ ssrc _ Hs (le_n _)) as [R1 R2].
  split; [intros x; by rewrite R1, sortSeqsWrap_perm|]. split; eapply Forall_impl; [exact R2| |exact R2|]; cbn beta; intros n (Hp & Hss & Hn); [|done].
  split; [by rewrite Hss|]. split; [done|unfold in_u32, maxNACKDecodeRange in *; lia].
Qed.

Lemma EncodeBitmaskNACK_ok ssrc missing : in_u32 ssrc -> Forall in_u32 missing ->
  (forall x, x ∈ concat (bitmask_Missing <$> EncodeBitmaskNACK ssrc missing) <-> x ∈ missing) /\ Forall bitmask_typed (EncodeBitmaskNACK ssrc missing) /\ Forall (fun n => bm_MediaSSRC n = ssrc) (EncodeBitmaskNACK ssrc missing).
Proof.
  intros Hc Hm. pose proof (Forall_sorted _ _ Hm) as Hs. unfold EncodeBitmaskNACK. cbv zeta. pose proof (encode_bitmask_exact _ ssrc _ Hs (le_n _)) as B1.
  split; [intros x; by rewrite B1, sortSeqsWrap_perm|]. split; [by apply encode_bitmask_typed|apply encode_bitmask_source].
Qed.

Lemma ParseControl_total b : is_bytes b -> returns (ParseControl b) (fun '(ci, body) => in_u16 ci /\ is_bytes body /\ 4 + zlen body <= zlen b).
Proof.
  intros Hb. unfold ParseControl, CtrlHdrSize. destruct (Z.ltb_spec (zlen b) 4); [done|]. eapply returns_bind; [apply returns_u16; (done || lia)|]. intros ci Hci.
  eapply returns_bind; [apply returns_u16; (done || lia)|]. intros n Hn. unfold in_u16 in Hn. destruct (Z.ltb_spec (zlen b) (4 + n)); [done|].
  destruct (slc_ok (E:=err) b 4 (4 + n)) as (x & -> & Hx & Hbx); [lia|lia|]. cbn. split; [done|]. split; [by apply Hbx|lia].
Qed.

Ltac read_words := repeat (eapply returns_bind; [first [apply returns_u32|apply returns_u16]; (done || lia)|]; intros ? ?); done.

Lemma bodies_total b : is_bytes b ->
  returns (ParseNackBitmask b) bitmask_typed /\ returns (ParseNackRange b) range_typed /\ returns (ParseRTTEcho b) echo_typed /\ returns (ParseKeepalive b) keepalive_typed /\ returns (ParsePSKNonce b) psknonce_typed.
Proof.
  intros Hb. split; [|split; [|split; [|split]]].
  - unfold ParseNackBitmask, nackBodySize. destruct (Z.ltb_spec (zlen b) 12); [done|]. read_words.
  - unfold ParseNackRange, nackBodySize. destruct (Z.ltb_spec (zlen b) 12); [done|]. read_words.
  - unfold ParseRTTEcho, rttEchoBodySize. destruct (Z.ltb_spec (zlen b) 16); [done|]. read_words.
  - unfold ParseKeepalive, keepaliveBodySize. destruct (Z.ltb_spec (zlen b) 10); [done|]. destruct (slc_ok (E:=err) b 0 6) as (x & -> & Hx & _); [lia|lia|]. cbn [mbind res_bind].
    eapply returns_bind; [apply returns_u32; (done || lia)|]. intros c Hc. split; [cbn; lia|done].
  - unfold ParsePSKNonce, pskNonceBodySize. destruct (Z.ltb_spec (zlen b) 8); [done|]. destruct (slc_ok (E:=err) b 0 4) as (x & -> & Hx & _); [lia|lia|]. cbn [mbind res_bind].
    eapply returns_bind; [apply returns_u16; (done || lia)|]. intros c Hc. split; [cbn; lia|done].
Qed.

(** ** Properties *)

(** Whatever the list of missing sequences, in any order, with duplicates and across the 2^32 wrap, the range entries and the
    bitmask entries it is packed into request exactly the sequences of the list; every entry survives framing and parsing;
    and no range entry reaches the cap of 10000 past which a receiver stops expanding it. *)
Theorem adv_nack_exact ssrc missing : in_u32 ssrc -> Forall in_u32 missing ->
  (forall x, x ∈ concat (range_Missing <$> EncodeRangeNACK ssrc missing) <-> x ∈ missing) /\
  (forall x, x ∈ concat (bitmask_Missing <$> EncodeBitmaskNACK ssrc missing) <-> x ∈ missing) /\
  Forall (fun n => NALP n < maxNACKDecodeRange /\ ('(ci, body) ← ParseControl (BuildNackRange [] n); r ← ParseNackRange body; Ok (ci, r)) = Ok (CINackRange, n)) (EncodeRangeNACK ssrc missing) /\
  Forall (fun n => ('(ci, body) ← ParseControl (BuildNackBitmask [] n); r ← ParseNackBitmask body; Ok (ci, r)) = Ok (CINackBitmask, n)) (EncodeBitmaskNACK ssrc missing).
Proof.
  intros Hc Hm. pose proof (Forall_sorted _ _ Hm) as Hs. assert (Hin : forall x, x ∈ sortSeqsWrap missing <-> x ∈ missing) by (intros x; by rewrite sortSeqsWrap_perm).
  unfold EncodeRangeNACK, EncodeBitmaskNACK. cbv zeta. destruct (encode_range_exact _ ssrc _ Hs (le_n _)) as [R1 R2]. pose proof (encode_bitmask_exact _ ssrc _ Hs (le_n _)) as B1.
  pose proof (encode_bitmask_typed (length (sortSeqsWrap missing)) ssrc _ Hc Hs) as B2. split; [intros x; by rewrite R1|]. split; [intros x; by rewrite B1|]. split.
  - eapply Forall_impl; [exact R2|]. cbn beta. intros n (Hp & Hss & Hn). split; [lia|]. destruct (ParseNackRange_body n) as [L E]; [split; [by rewrite Hss|]; split; [done|unfold in_u32, maxNACKDecodeRange in *; lia]|].
    unfold BuildNackRange. rewrite ParseControl_Build by (done || lia). cbn [mbind res_bind]. by rewrite E.
  - eapply Forall_impl; [exact B2|]. intros n Hn. destruct (ParseNackBitmask_body n Hn) as [L E]. unfold BuildNackBitmask. rewrite ParseControl_Build by (done || lia). cbn [mbind res_bind]. by rewrite E.
Qed.

Lemma adv_nack_exact_witness :
  (forall x, x ∈ concat (range_Missing <$> EncodeRangeNACK 7 [1; 4294967295; 0; 9; 0]) <-> x ∈ [1; 4294967295; 0; 9; 0]) /\ length (EncodeRangeNACK 7 [1; 4294967295; 0; 9; 0]) = 2%nat.
Proof.
  destruct (adv_nack_exact 7 [1; 4294967295; 0; 9; 0]) as (H & _); [done|repeat constructor; done|]. split; [exact H|vm_compute; reflexivity].
Defined.

(** Every control message survives framing and parsing: the RTT echo with its 64-bit timestamp, the keep-alive, the future
    nonce, and the body of a flow-attribute message of less than 64 KiB; and on arbitrary bytes neither the framing nor any
    body parser panics, a body lies within its payload, and the fields parsed have their wire widths. *)
Theorem adv_ctrl_round_trip s ts d k p json b : in_u32 s -> in_u64 ts -> in_u32 d -> keepalive_typed k -> psknonce_typed p -> zlen json < 65536 -> is_bytes b ->
  ('(ci, body) ← ParseControl (BuildRTTEchoRequest [] (RTTEchoFromTimestamp s ts d)); e ← ParseRTTEcho body; Ok (ci, RequesterSSRC e, echo_Timestamp e, ProcessingDelay e)) = Ok (CIRTTEchoReq, s, ts, d) /\
  ('(ci, body) ← ParseControl (BuildKeepalive [] k); r ← ParseKeepalive body; Ok (ci, r)) = Ok (CIKeepalive, k) /\
  ('(ci, body) ← ParseControl (BuildPSKNonce [] p); r ← ParsePSKNonce body; Ok (ci, r)) = Ok (CIPSKNonce, p) /\
  ParseControl (BuildFlowAttr [] json) = Ok (CIFlowAttr, json) /\
  returns (ParseControl b) (fun '(ci, body) => in_u16 ci /\ 4 + zlen body <= zlen b /\
    returns (ParseNackBitmask body) bitmask_typed /\ returns (ParseNackRange body) range_typed /\ returns (ParseRTTEcho body) echo_typed /\
    returns (ParseKeepalive body) keepalive_typed /\ returns (ParsePSKNonce body) psknonce_typed).
Proof.
  intros Hs Ht Hd Hk Hp Hj Hb. assert (He : echo_typed (RTTEchoFromTimestamp s ts d)) by (split; [done|]; split; [apply u32_range|]; split; [apply u32_range|done]).
  destruct (ParseRTTEcho_body _ He) as [L1 E1]. destruct (ParseKeepalive_body _ Hk) as [L2 E2]. destruct (ParsePSKNonce_body _ Hp) as [L3 E3].
  unfold BuildRTTEchoRequest, BuildKeepalive, BuildPSKNonce, BuildFlowAttr. split; [|split; [|split; [|split]]].
  - rewrite ParseControl_Build by (done || lia). cbn [mbind res_bind]. rewrite E1. cbn [mbind res_bind]. by rewrite echo_timestamp_round.
  - rewrite ParseControl_Build by (done || lia). cbn [mbind res_bind]. by rewrite E2.
  - rewrite ParseControl_Build by (done || lia). cbn [mbind res_bind]. by rewrite E3.
  - by apply ParseControl_Build.
  - pose proof (ParseControl_total b Hb) as H. destruct (ParseControl b) as [[ci body]| |]; [|done..]. destruct H as (H1 & H2 & H3). split; [done|]. split; [done|]. by apply bodies_total.
Qed.

Lemma adv_ctrl_round_trip_witness :
  ('(ci, body) ← ParseControl (BuildRTTEchoRequest [] (RTTEchoFromTimestamp 1 0x1122334455667788 9)); e ← ParseRTTEcho body; Ok (ci, RequesterSSRC e, echo_Timestamp e, ProcessingDelay e)) =
  Ok (CIRTTEchoReq, 1, 0x1122334455667788, 9).
Proof. apply (adv_ctrl_round_trip 1 0x1122334455667788 9 (mkKeepalive [1; 2; 3; 4; 5; 6] 5) (mkPSKNonceMsg [1; 2; 3; 4] 256) [] []); repeat (constructor || done). Defined.
End advctrl.
