(* ===== verification/Adapt.v ===== *)
(** * Source adaptation (src/internal/adapt/lqm.go, control.go, src/internal/session/adapt.go)

    The 44-byte Link Quality Message, the rate controller it drives, and the receiver's side of the loop: the per-period deltas
    of the flow's counters that make a message.  Rates and losses are Go's float64. *)

From Stdlib Require Import SpecFloat.
From S2P Require Import Prelude GoFloat Clock Wire Bytes FlowTypes Congestion.

Module adapt.

(** ** lqm.go *)

Definition LQMSize : Z := 44.
Inductive err := ErrShortLQM.

Record LQM := mkLQM {
  SequenceNumber : Z; ReportingPeriodMS : Z; NACKWindowMS : Z; SourceReceived : Z; OriginalLost : Z; RetransmittedReceived : Z;
  Recovered : Z; Unrecovered : Z; Late : Z; DataBandwidthKbps : Z; RetransmissionBandwidthKbps : Z }.

Definition lqm_AppendTo (m : LQM) (dst : bytes) : res err bytes :=
  let b := replicate (Z.to_nat LQMSize) 0 in
  b ← put b 0 (be_bytes 4 (SequenceNumber m));
  b ← put b 4 (be_bytes 4 (ReportingPeriodMS m));
  b ← put b 8 (be_bytes 4 (NACKWindowMS m));
  b ← put b 12 (be_bytes 4 (SourceReceived m));
  b ← put b 16 (be_bytes 4 (OriginalLost m));
  b ← put b 20 (be_bytes 4 (RetransmittedReceived m));
  b ← put b 24 (be_bytes 4 (Recovered m));
  b ← put b 28 (be_bytes 4 (Unrecovered m));
  b ← put b 32 (be_bytes 4 (Late m));
  b ← put b 36 (be_bytes 4 (DataBandwidthKbps m));
  b ← put b 40 (be_bytes 4 (RetransmissionBandwidthKbps m));
  Ok (dst ++ b).
Definition Marshal (m : LQM) : res err bytes := lqm_AppendTo m [].

Definition lqm_Parse (b : bytes) : res err LQM :=
  if zlen b <? LQMSize then Err ErrShortLQM else
  a0 ← (t ← slc b 0 4; Uint32 t);
  a1 ← (t ← slc b 4 8; Uint32 t);
  a2 ← (t ← slc b 8 12; Uint32 t);
  a3 ← (t ← slc b 12 16; Uint32 t);
  a4 ← (t ← slc b 16 20; Uint32 t);
  a5 ← (t ← slc b 20 24; Uint32 t);
  a6 ← (t ← slc b 24 28; Uint32 t);
  a7 ← (t ← slc b 28 32; Uint32 t);
  a8 ← (t ← slc b 32 36; Uint32 t);
  a9 ← (t ← slc b 36 40; Uint32 t);
  a10 ← (t ← slc b 40 44; Uint32 t);
  Ok (mkLQM a0 a1 a2 a3 a4 a5 a6 a7 a8 a9 a10).

Definition LossFraction (m : LQM) : f64 :=
  let denom := u64 (SourceReceived m + OriginalLost m) in
  if denom =? 0 then S754_zero false else f64_div (f64_of_Z (OriginalLost m)) (f64_of_Z denom).

Definition ResidualLossFraction (m : LQM) : f64 :=
  let denom := u64 (SourceReceived m + OriginalLost m) in
  if denom =? 0 then S754_zero false else f64_div (f64_of_Z (Unrecovered m)) (f64_of_Z denom).

(** ** control.go *)

Record ControllerConfig := mkControllerConfig {
  MinKbps : Z; MaxKbps : Z; InitialKbps : Z; TargetLoss : f64; IncreaseKbps : Z; DecreaseGain : f64 }.
Record Controller := mkController { c_cfg : ControllerConfig; current : Z }.
#[export] Instance eta_ControllerConfig : Eta ControllerConfig := fun c =>
  mkControllerConfig (MinKbps c) (MaxKbps c) (InitialKbps c) (TargetLoss c) (IncreaseKbps c) (DecreaseGain c).
#[export] Instance eta_Controller : Eta Controller := fun c => mkController (c_cfg c) (current c).

(** 0.90, 0.005, 8.0 and 1 as float64 *)
Definition maxCut : f64 := S754_finite false 8106479329266893 (-53).
Definition f64_0_005 : f64 := S754_finite false 5764607523034235 (-60).
Definition f64_8 : f64 := S754_finite false 4503599627370496 (-49).
Definition f64_1 : f64 := S754_finite false 4503599627370496 (-52).
Definition f64_0 : f64 := S754_zero false.

Definition DefaultControllerConfig : ControllerConfig :=
  let maxKbps := 100000 in mkControllerConfig 500 maxKbps maxKbps f64_0_005 (maxKbps /g 100) f64_8.

Definition clampKbps (v lo hi : Z) : Z := if v <? lo then lo else if hi <? v then hi else v.

Definition NewController (cfg : ControllerConfig) : Controller :=
  let cfg := if MinKbps cfg <? 0 then cfg <| MinKbps := 0 |> else cfg in
  let cfg := if MaxKbps cfg <? MinKbps cfg then cfg <| MaxKbps := MinKbps cfg |> else cfg in
  let cfg := if IncreaseKbps cfg <? 0 then cfg <| IncreaseKbps := 0 |> else cfg in
  mkController cfg (clampKbps (InitialKbps cfg) (MinKbps cfg) (MaxKbps cfg)).

Definition Target (c : Controller) : Z := current c.

(** [c.current = clampKbps(v, ...)] *)
Definition set_target (v : Z) (c : Controller) : Controller := c <| current := clampKbps v (MinKbps (c_cfg c)) (MaxKbps (c_cfg c)) |>.

Definition Observe (lossFraction : f64) (c : Controller) : Z * Controller :=
  let lossFraction := if f64_ltb lossFraction f64_0 then f64_0 else lossFraction in
  let c :=
    if f64_leb lossFraction (TargetLoss (c_cfg c)) then set_target (i64 (current c + IncreaseKbps (c_cfg c))) c
    else
      let cut := f64_mul (DecreaseGain (c_cfg c)) (f64_sub lossFraction (TargetLoss (c_cfg c))) in
      let cut := if f64_ltb maxCut cut then maxCut else cut in
      set_target (f64_to_i64 (f64_mul (f64_of_Z (current c)) (f64_sub f64_1 cut))) c in
  (current c, c).

Definition ObserveLQM (m : LQM) (c : Controller) : Z * Controller :=
  if (SourceReceived m =? 0) && (OriginalLost m =? 0) && (Unrecovered m =? 0) then (current c, c) else
  let origLoss := LossFraction m in
  let c :=
    if (Unrecovered m =? 0) && f64_leb origLoss (TargetLoss (c_cfg c)) then set_target (i64 (current c + IncreaseKbps (c_cfg c))) c
    else
      let severity := ResidualLossFraction m in
      let over := f64_sub origLoss (TargetLoss (c_cfg c)) in
      let severity := if f64_ltb severity over then over else severity in
      let cut := f64_mul (DecreaseGain (c_cfg c)) severity in
      let cut := if f64_ltb maxCut cut then maxCut else cut in
      let cut := if f64_ltb cut f64_0 then f64_0 else cut in
      set_target (f64_to_i64 (f64_mul (f64_of_Z (current c)) (f64_sub f64_1 cut))) c in
  (current c, c).

(** The tests' thin-loss report: one packet unrecovered cuts the rate, none probes it up, a stall holds it. *)
Example two_signals :
  let c := NewController (DefaultControllerConfig <| InitialKbps := 50000 |>) in
  let r u := fst (ObserveLQM (mkLQM 0 0 0 100000 100 0 0 u 0 0 0) c) in
  (r 1, r 0, fst (ObserveLQM (mkLQM 0 0 0 0 0 0 0 0 0 0 0) c), fst (Observe maxCut c)) = (49996, 51000, 50000, 4999).
Proof. vm_compute. reflexivity. Qed.

(** ** The receiver's reports (session/adapt.go) *)

(** The fields of the session that the reports use; [rxBytes] and [rxRetransBytes] are the received RTP bytes and [fecRecovered] the
    packets FEC recovered, all running totals. *)
Record lqm_state := mkLqmState {
  lqmPrev : Stats; lqmLast : Z; rxBytes : Z; lqmPrevBytes : Z; rxRetransBytes : Z; lqmPrevRetransBytes : Z; fecRecovered : Z; lqmPrevFEC : Z; lqmSeq : Z }.
#[export] Instance eta_lqm_state : Eta lqm_state := fun s =>
  mkLqmState (lqmPrev s) (lqmLast s) (rxBytes s) (lqmPrevBytes s) (rxRetransBytes s) (lqmPrevRetransBytes s) (fecRecovered s) (lqmPrevFEC s) (lqmSeq s).

Definition lqmKbps (deltaBytes periodMS : Z) : Z :=
  if periodMS =? 0 then 0 else
  let bits := u64 (deltaBytes * 8) in
  let p := periodMS in
  u32 (u64 (bits + p / 2) / p).

(** [st] is [s.flow.Stats()]. *)
Definition computeLQM (cfg : Config) (st : Stats) (now : Z) (s : lqm_state) : LQM * lqm_state :=
  let prev := lqmPrev s in
  let s := s <| lqmPrev := st |> in
  let periodMS := u32 (Timestamp.Sub now (lqmLast s) /g Millisecond) in
  let s := s <| lqmLast := now |> in
  let prevBytes := lqmPrevBytes s in
  let s := s <| lqmPrevBytes := rxBytes s |> in
  let prevRetrans := lqmPrevRetransBytes s in
  let s := s <| lqmPrevRetransBytes := rxRetransBytes s |> in
  let fecDelta := u32 (u64 (fecRecovered s - lqmPrevFEC s)) in
  let s := s <| lqmPrevFEC := fecRecovered s |> in
  let srcReceived := u32 (u64 (StReceived st - StReceived prev)) in
  let movedFEC := if srcReceived <? fecDelta then srcReceived else fecDelta in
  let srcReceived := u32 (srcReceived - movedFEC) in
  let s := s <| lqmSeq ::= fun n => u32 (n + 1) |> in
  (mkLQM (lqmSeq s) periodMS (u32 (RecoveryBuffer cfg /g Millisecond)) srcReceived
     (u32 (u64 (StMissing st - StMissing prev))) (u32 (u64 (StRetransmittedReceived st - StRetransmittedReceived prev)))
     (u32 (u32 (u64 (StRecovered st - StRecovered prev)) + movedFEC)) (u32 (u64 (StLost st - StLost prev)))
     (u32 (u64 (u64 (StTooLate st - StTooLateRetransmit st) - u64 (StTooLate prev - StTooLateRetransmit prev))))
     (lqmKbps (u64 (rxBytes s - prevBytes)) periodMS) (lqmKbps (u64 (rxRetransBytes s - prevRetrans)) periodMS), s).

(** The sender's side: the controller, if there is one, and the target handed to the application. *)
Definition handleLQM (rc : option Controller) (raw : bytes) : option Z * option Controller :=
  match rc with
  | None => (None, None)
  | Some c =>
      match lqm_Parse raw with
      | Ok m => let '(target, c) := ObserveLQM m c in (Some target, Some c)
      | _ => (None, Some c)
      end
  end.

(** ** The message *)

Definition lqm_typed (m : LQM) : Prop :=
  in_u32 (SequenceNumber m) /\ in_u32 (ReportingPeriodMS m) /\ in_u32 (NACKWindowMS m) /\ in_u32 (SourceReceived m) /\ in_u32 (OriginalLost m) /\ in_u32 (RetransmittedReceived m) /\
  in_u32 (Recovered m) /\ in_u32 (Unrecovered m) /\ in_u32 (Late m) /\ in_u32 (DataBandwidthKbps m) /\ in_u32 (RetransmissionBandwidthKbps m).

Definition lqm_bytes (m : LQM) : bytes :=
  be_bytes 4 (SequenceNumber m) ++ be_bytes 4 (ReportingPeriodMS m) ++ be_bytes 4 (NACKWindowMS m) ++ be_bytes 4 (SourceReceived m) ++ be_bytes 4 (OriginalLost m) ++ be_bytes 4 (RetransmittedReceived m) ++
  be_bytes 4 (Recovered m) ++ be_bytes 4 (Unrecovered m) ++ be_bytes 4 (Late m) ++ be_bytes 4 (DataBandwidthKbps m) ++ be_bytes 4 (RetransmissionBandwidthKbps m).

Lemma lqm_AppendTo_bytes m dst : lqm_AppendTo m dst = Ok (dst ++ lqm_bytes m).
Proof.
  unfold lqm_AppendTo, LQMSize. rewrite <-(app_nil_l (replicate _ _)). change (Z.to_nat 44) with 44%nat. do 11 put_step. reflexivity.
Qed.

Lemma lqm_Parse_bytes m t : lqm_typed m -> lqm_Parse (lqm_bytes m ++ t) = Ok m.
Proof.
  destruct m as [a0 a1 a2 a3 a4 a5 a6 a7 a8 a9 a10]. unfold lqm_typed, lqm_bytes, lqm_Parse. cbn [SequenceNumber ReportingPeriodMS NACKWindowMS SourceReceived OriginalLost RetransmittedReceived Recovered Unrecovered Late DataBandwidthKbps RetransmissionBandwidthKbps].
  intros (H0 & H1 & H2 & H3 & H4 & H5 & H6 & H7 & H8 & H9 & H10). rewrite <-!app_assoc. remember (be_bytes 4 a0 ++ _) as b eqn:E.
  destruct (Z.ltb_spec (zlen b) LQMSize) as [Hl|_]; [exfalso; revert Hl; rewrite E; zlens; pose proof (zlen_nonneg t); unfold LQMSize; lia|].
  rewrite (at_u32 b 0 a0 4) by (done || (rewrite E; at_solve)). cbn [mbind res_bind].
  pose proof (at_u32 (E:=err) b 4 a1 8 ltac:(rewrite E; at_solve) H1 eq_refl) as R1. pose proof (at_u32 (E:=err) b 8 a2 12 ltac:(rewrite E; at_solve) H2 eq_refl) as R2.
  pose proof (at_u32 (E:=err) b 12 a3 16 ltac:(rewrite E; at_solve) H3 eq_refl) as R3. pose proof (at_u32 (E:=err) b 16 a4 20 ltac:(rewrite E; at_solve) H4 eq_refl) as R4.
  pose proof (at_u32 (E:=err) b 20 a5 24 ltac:(rewrite E; at_solve) H5 eq_refl) as R5. pose proof (at_u32 (E:=err) b 24 a6 28 ltac:(rewrite E; at_solve) H6 eq_refl) as R6.
  pose proof (at_u32 (E:=err) b 28 a7 32 ltac:(rewrite E; at_solve) H7 eq_refl) as R7. pose proof (at_u32 (E:=err) b 32 a8 36 ltac:(rewrite E; at_solve) H8 eq_refl) as R8.
  pose proof (at_u32 (E:=err) b 36 a9 40 ltac:(rewrite E; at_solve) H9 eq_refl) as R9. pose proof (at_u32 (E:=err) b 40 a10 44 ltac:(rewrite E; at_solve) H10 eq_refl) as R10.
  cbn [mbind res_bind] in R1, R2, R3, R4, R5, R6, R7, R8, R9, R10. rewrite R1. cbn [mbind res_bind]. rewrite R2. cbn [mbind res_bind]. rewrite R3. cbn [mbind res_bind]. rewrite R4. cbn [mbind res_bind].
  rewrite R5. cbn [mbind res_bind]. rewrite R6. cbn [mbind res_bind]. rewrite R7. cbn [mbind res_bind]. rewrite R8. cbn [mbind res_bind]. rewrite R9. cbn [mbind res_bind]. by rewrite R10.
Qed.

Lemma lqm_Parse_total b : is_bytes b -> lqm_Parse b = Err ErrShortLQM /\ zlen b < LQMSize \/ exists m t, lqm_Parse b = Ok m /\ b = lqm_bytes m ++ t.
Proof.
  intros Hb. destruct (Z.ltb_spec (zlen b) LQMSize) as [H|H]; [left; unfold lqm_Parse; by rewrite (proj2 (Z.ltb_lt _ _) H)|right]. unfold LQMSize in H.
  destruct (bytes_int 4 b Hb) as (a0 & b0 & -> & H0 & Hb0); [lia|]. rewrite zlen_app, zlen_be in H. destruct (bytes_int 4 b0 Hb0) as (a1 & b1 & -> & H1 & Hb1); [lia|]. rewrite zlen_app, zlen_be in H.
  destruct (bytes_int 4 b1 Hb1) as (a2 & b2 & -> & H2 & Hb2); [lia|]. rewrite zlen_app, zlen_be in H. destruct (bytes_int 4 b2 Hb2) as (a3 & b3 & -> & H3 & Hb3); [lia|]. rewrite zlen_app, zlen_be in H.
  destruct (bytes_int 4 b3 Hb3) as (a4 & b4 & -> & H4 & Hb4); [lia|]. rewrite zlen_app, zlen_be in H. destruct (bytes_int 4 b4 Hb4) as (a5 & b5 & -> & H5 & Hb5); [lia|]. rewrite zlen_app, zlen_be in H.
  destruct (bytes_int 4 b5 Hb5) as (a6 & b6 & -> & H6 & Hb6); [lia|]. rewrite zlen_app, zlen_be in H. destruct (bytes_int 4 b6 Hb6) as (a7 & b7 & -> & H7 & Hb7); [lia|]. rewrite zlen_app, zlen_be in H.
  destruct (bytes_int 4 b7 Hb7) as (a8 & b8 & -> & H8 & Hb8); [lia|]. rewrite zlen_app, zlen_be in H. destruct (bytes_int 4 b8 Hb8) as (a9 & b9 & -> & H9 & Hb9); [lia|]. rewrite zlen_app, zlen_be in H.
  destruct (bytes_int 4 b9 Hb9) as (a10 & t & -> & H10 & Ht); [lia|]. set (m := mkLQM a0 a1 a2 a3 a4 a5 a6 a7 a8 a9 a10).
  assert (Hm : lqm_typed m) by (unfold lqm_typed, in_u32; cbn; change (256 ^ Z.of_nat 4) with 4294967296 in *; lia). exists m, t.
  assert (E : lqm_bytes m ++ t = be_bytes 4 a0 ++ be_bytes 4 a1 ++ be_bytes 4 a2 ++ be_bytes 4 a3 ++ be_bytes 4 a4 ++ be_bytes 4 a5 ++ be_bytes 4 a6 ++ be_bytes 4 a7 ++ be_bytes 4 a8 ++ be_bytes 4 a9 ++ be_bytes 4 a10 ++ t)
    by (unfold lqm_bytes, m; cbn -[be_bytes app]; by rewrite <-!app_assoc). rewrite <-E. split; [by apply lqm_Parse_bytes|done].
Qed.

(** ** The controller *)

(** What NewController establishes and every report keeps. *)
Definition wf (c : Controller) : Prop := 0 <= MinKbps (c_cfg c) <= MaxKbps (c_cfg c) /\ 0 <= IncreaseKbps (c_cfg c) /\ MinKbps (c_cfg c) <= current c <= MaxKbps (c_cfg c).

Lemma clampKbps_bounds v lo hi : lo <= hi -> lo <= clampKbps v lo hi <= hi.
Proof. intros H. unfold clampKbps. case_cmp; lia. Qed.

Lemma wf_NewController cfg : wf (NewController cfg).
Proof.
  unfold NewController. set (c1 := if MinKbps cfg <? 0 then _ else _). assert (H1 : 0 <= MinKbps c1) by (unfold c1; destruct (Z.ltb_spec (MinKbps cfg) 0); cbn; lia).
  set (c2 := if MaxKbps c1 <? MinKbps c1 then _ else _). assert (H2 : 0 <= MinKbps c2 <= MaxKbps c2) by (unfold c2; destruct (Z.ltb_spec (MaxKbps c1) (MinKbps c1)); cbn; lia).
  set (c3 := if IncreaseKbps c2 <? 0 then _ else _). assert (H3 : 0 <= MinKbps c3 <= MaxKbps c3 /\ 0 <= IncreaseKbps c3) by (unfold c3; destruct (Z.ltb_spec (IncreaseKbps c2) 0); cbn; lia).
  split; [cbn; lia|]. split; [cbn; lia|]. cbn [current c_cfg]. apply clampKbps_bounds. lia.
Qed.

Lemma set_target_wf v c : wf c -> wf (set_target v c) /\ c_cfg (set_target v c) = c_cfg c.
Proof. intros (H1 & H2 & H3). split; [|done]. split; [done|]. split; [done|]. cbn. apply clampKbps_bounds. lia. Qed.

Lemma ObserveLQM_wf m c : wf c -> wf (ObserveLQM m c).2 /\ c_cfg (ObserveLQM m c).2 = c_cfg c /\ (ObserveLQM m c).1 = current (ObserveLQM m c).2.
Proof.
  intros Hc. unfold ObserveLQM. destruct (_ && _ && _); [done|]. cbv zeta. destruct (_ && _); cbn [fst snd]; (split; [by apply set_target_wf|done]).
Qed.

Lemma Observe_wf l c : wf c -> wf (Observe l c).2 /\ c_cfg (Observe l c).2 = c_cfg c /\ (Observe l c).1 = current (Observe l c).2.
Proof. intros Hc. unfold Observe. cbv zeta. destruct (f64_leb _ _); cbn [fst snd]; (split; [by apply set_target_wf|done]). Qed.

(** The inputs of a controller: a reported loss fraction, or a whole report. *)
Definition feed (r : f64 + LQM) (c : Controller) : Controller := match r with inl l => (Observe l c).2 | inr m => (ObserveLQM m c).2 end.

Lemma feed_wf r c : wf c -> wf (feed r c) /\ c_cfg (feed r c) = c_cfg c.
Proof. intros Hc. destruct r as [l|m]; cbn; [pose proof (Observe_wf l c Hc)|pose proof (ObserveLQM_wf m c Hc)]; tauto. Qed.

Lemma feed_all_wf rs c : wf c -> wf (fold_left (fun c r => feed r c) rs c) /\ c_cfg (fold_left (fun c r => feed r c) rs c) = c_cfg c.
Proof.
  revert c. induction rs as [|r rs IH]; intros c Hc; [done|]. cbn. destruct (feed_wf r c Hc) as [H1 H2]. destruct (IH _ H1) as [H3 H4]. split; [done|congruence].
Qed.

(** A report of a link that lost at most the target and recovered everything. *)
Definition clean (cfg : ControllerConfig) (m : LQM) : Prop :=
  Unrecovered m = 0 /\ (SourceReceived m <> 0 \/ OriginalLost m <> 0) /\ f64_leb (LossFraction m) (TargetLoss cfg) = true.

Lemma ObserveLQM_clean m c : wf c -> clean (c_cfg c) m -> MaxKbps (c_cfg c) + IncreaseKbps (c_cfg c) < 2 ^ 63 ->
  current (ObserveLQM m c).2 = Z.min (current c + IncreaseKbps (c_cfg c)) (MaxKbps (c_cfg c)).
Proof.
  intros (H1 & H2 & H3) (Hu & Hs & Hl) Hov. unfold ObserveLQM. rewrite Hu. change (0 =? 0) with true. rewrite andb_true_r.
  assert ((SourceReceived m =? 0) && (OriginalLost m =? 0) = false) as -> by (destruct Hs; [destruct (Z.eqb_spec (SourceReceived m) 0)|destruct (Z.eqb_spec (OriginalLost m) 0)]; rewrite ?andb_false_r; done).
  rewrite Hl. cbn [andb snd set_target]. cbn. rewrite i64_id by (unfold in_i64; lia). unfold clampKbps. case_cmp; lia.
Qed.

Lemma clean_run ms c : wf c -> Forall (clean (c_cfg c)) ms -> MaxKbps (c_cfg c) + IncreaseKbps (c_cfg c) < 2 ^ 63 ->
  current (fold_left (fun c m => (ObserveLQM m c).2) ms c) = Z.min (current c + zlen ms * IncreaseKbps (c_cfg c)) (MaxKbps (c_cfg c)).
Proof.
  revert c. induction ms as [|m ms IH]; intros c Hc Hm Hov; [change (zlen (@nil LQM)) with 0; cbn [fold_left]; destruct Hc as (_ & _ & ?); lia|]. inversion Hm; subst. cbn [fold_left]. destruct (ObserveLQM_wf m c Hc) as (Hw & Hcfg & _).
  rewrite IH; rewrite ?Hcfg; [|done|done|done]. rewrite ObserveLQM_clean by done. rewrite zlen_cons, Z.mul_add_distr_r, Z.mul_1_l. destruct Hc as (_ & ? & ?).
  pose proof (Z.mul_nonneg_nonneg (zlen ms) (IncreaseKbps (c_cfg c)) (zlen_nonneg ms)). lia.
Qed.

(** ** Periods *)

(** What one period brings: the flow's counters, the instant and the running totals at its end. *)
Record period := mkPeriod { pd_stats : Stats; pd_now : Z; pd_rx : Z; pd_rxRetrans : Z; pd_fec : Z }.

Fixpoint reports (cfg : Config) (ps : list period) (s : lqm_state) : list LQM :=
  match ps with
  | [] => []
  | p :: ps =>
      let s := s <| rxBytes := pd_rx p |> <| rxRetransBytes := pd_rxRetrans p |> <| fecRecovered := pd_fec p |> in
      let '(m, s) := computeLQM cfg (pd_stats p) (pd_now p) s in m :: reports cfg ps s
  end.

Definition total (f : LQM -> Z) (ms : list LQM) : Z := foldr (fun m n => f m + n) 0 ms.

Lemma u32_u64 z : u32 (u64 z) = u32 z.
Proof. unfold u32, u64, uwrap. apply Z.mod_mod_divide. exists (2 ^ 32). reflexivity. Qed.

Lemma reports_telescope cfg (f : LQM -> Z) (g : Stats -> Z) ps s :
  (forall st now s, u32 (f (computeLQM cfg st now s).1) = u32 (g st - g (lqmPrev s))) ->
  u32 (total f (reports cfg ps s)) = u32 (g (match last ps with Some p => pd_stats p | None => lqmPrev s end) - g (lqmPrev s)).
Proof.
  intros Hf. revert s. induction ps as [|p ps IH]; intros s; [cbn; by rewrite Z.sub_diag|]. cbn [reports].
  set (s0 := s <| rxBytes := pd_rx p |> <| rxRetransBytes := pd_rxRetrans p |> <| fecRecovered := pd_fec p |>).
  pose proof (Hf (pd_stats p) (pd_now p) s0) as Hstep. assert (Hprev : lqmPrev (computeLQM cfg (pd_stats p) (pd_now p) s0).2 = pd_stats p) by done.
  destruct (computeLQM cfg (pd_stats p) (pd_now p) s0) as [m s1]. cbn [fst snd] in *. specialize (IH s1). change (total f (m :: reports cfg ps s1)) with (f m + total f (reports cfg ps s1)).
  rewrite <-u32_add_r, IH, u32_add_r, <-u32_add_l, Hstep, u32_add_l, Hprev. change (lqmPrev s0) with (lqmPrev s). f_equal.
  destruct ps as [|q ps]; [cbn; lia|].
  change (last (p :: q :: ps)) with (last (q :: ps)). destruct (last (q :: ps)) eqn:E; [lia|by apply last_None in E].
Qed.

Lemma reports_seq cfg ps s j m : reports cfg ps s !! j = Some m -> SequenceNumber m = u32 (lqmSeq s + 1 + Z.of_nat j).
Proof.
  revert s j. induction ps as [|p ps IH]; intros s j; [by destruct j|]. cbn [reports].
  set (s0 := s <| rxBytes := pd_rx p |> <| rxRetransBytes := pd_rxRetrans p |> <| fecRecovered := pd_fec p |>).
  assert (Hs : lqmSeq (computeLQM cfg (pd_stats p) (pd_now p) s0).2 = u32 (lqmSeq s + 1) /\ SequenceNumber (computeLQM cfg (pd_stats p) (pd_now p) s0).1 = u32 (lqmSeq s + 1)) by done.
  destruct (computeLQM cfg (pd_stats p) (pd_now p) s0) as [m1 s1]. cbn [fst snd] in Hs. destruct Hs as [H1 H2]. destruct j as [|j]; cbn.
  - intros [= <-]. rewrite H2. f_equal. lia.
  - intros H. rewrite (IH s1 j H), H1. rewrite <-Z.add_assoc, u32_add_l. f_equal. lia.
Qed.

(** ** Properties *)

(** A Link Quality Message is 44 bytes on the wire and parses back, whatever follows it; and every byte string either is too
    short, and is reported so, or parses to a message whose encoding is its first 44 bytes. *)
Theorem lqm_round_trip m t b : lqm_typed m -> is_bytes b ->
  (exists w, Marshal m = Ok w /\ zlen w = LQMSize /\ lqm_Parse (w ++ t) = Ok m) /\
  (if zlen b <? LQMSize then lqm_Parse b = Err ErrShortLQM else exists m' w r, lqm_Parse b = Ok m' /\ Marshal m' = Ok w /\ b = w ++ r).
Proof.
  intros Hm Hb. split.
  - exists (lqm_bytes m). split; [exact (lqm_AppendTo_bytes m [])|]. split; [unfold lqm_bytes; zlens; reflexivity|by apply lqm_Parse_bytes].
  - destruct (lqm_Parse_total b Hb) as [[E H]|(m' & r & E & ->)]; [by rewrite (proj2 (Z.ltb_lt _ _) H)|].
    assert (Hl : LQMSize <= zlen (lqm_bytes m' ++ r)) by (unfold lqm_bytes, LQMSize; zlens; pose proof (zlen_nonneg r); lia).
    destruct (Z.ltb_spec (zlen (lqm_bytes m' ++ r)) LQMSize); [lia|]. exists m', (lqm_bytes m'), r. split; [done|]. split; [exact (lqm_AppendTo_bytes m' [])|done].
Qed.

Lemma lqm_round_trip_witness :
  exists w, Marshal (mkLQM 1 1000 500 1000 10 8 7 3 2 5000 120) = Ok w /\ zlen w = LQMSize /\ lqm_Parse (w ++ [170; 187]) = Ok (mkLQM 1 1000 500 1000 10 8 7 3 2 5000 120).
Proof. apply (lqm_round_trip (mkLQM 1 1000 500 1000 10 8 7 3 2 5000 120) [170; 187] []); [unfold lqm_typed, in_u32; cbn; lia|constructor]. Defined.

(** Whatever the configuration, valid or not, and whatever losses and reports the controller has been fed, its target lies
    between the normalised floor and ceiling, a report that accounts for no packet leaves it where it is, and a run of [n] reports
    of a link that lost at most the target and recovered everything raises it by exactly [n] steps, stopping at the ceiling. *)
Theorem rate_controller_sound cfg rs m ms :
  let c := fold_left (fun c r => feed r c) rs (NewController cfg) in
  SourceReceived m = 0 -> OriginalLost m = 0 -> Unrecovered m = 0 ->
  Forall (clean (c_cfg c)) ms -> MaxKbps (c_cfg c) + IncreaseKbps (c_cfg c) < 2 ^ 63 ->
  Z.max 0 (MinKbps cfg) <= Target c <= Z.max (Z.max 0 (MinKbps cfg)) (MaxKbps cfg) /\
  ObserveLQM m c = (Target c, c) /\
  Target (fold_left (fun c m => (ObserveLQM m c).2) ms c) = Z.min (Target c + zlen ms * Z.max 0 (IncreaseKbps cfg)) (Z.max (Z.max 0 (MinKbps cfg)) (MaxKbps cfg)).
Proof.
  intros c E1 E2 E3 Hms Hov. destruct (feed_all_wf rs (NewController cfg) (wf_NewController cfg)) as [Hw Hcfg]. fold c in Hw, Hcfg.
  assert (Hn : MinKbps (c_cfg c) = Z.max 0 (MinKbps cfg) /\ MaxKbps (c_cfg c) = Z.max (Z.max 0 (MinKbps cfg)) (MaxKbps cfg) /\ IncreaseKbps (c_cfg c) = Z.max 0 (IncreaseKbps cfg)).
  { rewrite Hcfg. unfold NewController. destruct cfg as [mn mx i t inc g]. cbn. destruct (Z.ltb_spec mn 0); cbn; match goal with |- context [mx <? ?v] => destruct (Z.ltb_spec mx v) end; cbn;
      destruct (Z.ltb_spec inc 0); cbn; lia. }
  destruct Hn as (N1 & N2 & N3). unfold Target. split; [rewrite <-N2, <-N1; destruct Hw as (_ & _ & ?); lia|]. split.
  - unfold ObserveLQM. by rewrite E1, E2, E3.
  - rewrite clean_run by done. by rewrite N2, N3.
Qed.

Lemma rate_controller_sound_witness :
  let c := fold_left (fun c r => feed r c) [inl maxCut; inr (mkLQM 0 0 0 100000 100 0 0 1 0 0 0)] (NewController DefaultControllerConfig) in
  Target (fold_left (fun c m => (ObserveLQM m c).2) (replicate 5 (mkLQM 0 0 0 100000 100 0 0 0 0 0 0)) c) = Z.min (Target c + 5 * 1000) 100000.
Proof.
  refine (proj2 (proj2 (rate_controller_sound DefaultControllerConfig [inl maxCut; inr (mkLQM 0 0 0 100000 100 0 0 1 0 0 0)] (mkLQM 9 0 0 0 0 0 0 0 0 0 0) (replicate 5 (mkLQM 0 0 0 100000 100 0 0 0 0 0 0)) eq_refl eq_refl eq_refl _ _))).
  - apply Forall_replicate. split; [done|]. split; [by left|]. vm_compute. reflexivity.
  - vm_compute. reflexivity.
Defined.

(** Over any sequence of reporting periods, whatever the counters did, the reports are numbered consecutively and account for every
    packet once: modulo 2^32 the lost, unrecovered and retransmitted counts of the reports add up to the growth of the flow's
    counters, and so do the received and recovered counts together, the packets FEC recovered having been moved from one to the
    other without being counted twice. *)
Theorem lqm_reports_conserve cfg ps s :
  let last_stats := match last ps with Some p => pd_stats p | None => lqmPrev s end in
  let ms := reports cfg ps s in
  u32 (total OriginalLost ms) = u32 (StMissing last_stats - StMissing (lqmPrev s)) /\
  u32 (total Unrecovered ms) = u32 (StLost last_stats - StLost (lqmPrev s)) /\
  u32 (total RetransmittedReceived ms) = u32 (StRetransmittedReceived last_stats - StRetransmittedReceived (lqmPrev s)) /\
  u32 (total (fun m => SourceReceived m + Recovered m) ms) =
    u32 ((StReceived last_stats + StRecovered last_stats) - (StReceived (lqmPrev s) + StRecovered (lqmPrev s))) /\
  forall j m, ms !! j = Some m -> SequenceNumber m = u32 (lqmSeq s + 1 + Z.of_nat j).
Proof.
  cbv zeta. split; [|split; [|split; [|split]]].
  - apply (reports_telescope cfg OriginalLost StMissing). intros. unfold computeLQM. cbn. by rewrite (u32_id (u32 _)), u32_u64 by apply u32_range.
  - apply (reports_telescope cfg Unrecovered StLost). intros. unfold computeLQM. cbn. by rewrite (u32_id (u32 _)), u32_u64 by apply u32_range.
  - apply (reports_telescope cfg RetransmittedReceived StRetransmittedReceived). intros. unfold computeLQM. cbn. by rewrite (u32_id (u32 _)), u32_u64 by apply u32_range.
  - apply (reports_telescope cfg (fun m => SourceReceived m + Recovered m) (fun st => StReceived st + StRecovered st)). intros st now s'. unfold computeLQM. cbn. rewrite !u32_u64.
    set (moved := if _ <? _ then _ else _). rewrite u32_add_r, u32_add_l.
    replace (u32 (StReceived st - StReceived (lqmPrev s')) - moved + (u32 (StRecovered st - StRecovered (lqmPrev s')) + moved))
      with (u32 (StReceived st - StReceived (lqmPrev s')) + u32 (StRecovered st - StRecovered (lqmPrev s'))) by lia.
    rewrite u32_add_l, u32_add_r. f_equal. lia.
  - intros j m. apply reports_seq.
Qed.
End adapt.
