(* ===== verification/Peer.v ===== *)
(** * Peers (src/internal/peer/peer.go)

    The return addresses of a remote endpoint, locked to the first source they are learned from, and its liveness clock. *)

From S2P Require Import Prelude Clock.

Module peer.

(** netip.Addr: the zero value, an IPv4 address, or an IPv6 address with its zone. *)
Inductive Addr := AddrZero | Addr4 (a : Z) | Addr6 (a : Z) (zone : list Z).
#[export] Instance Addr_eq_dec : EqDecision Addr.
Proof. solve_decision. Defined.

Definition Is4In6 (a : Addr) : bool := match a with Addr6 v _ => Z.shiftr v 32 =? 0xFFFF | _ => false end.
Definition Unmap (a : Addr) : Addr := match a with Addr6 v z => if Is4In6 a then Addr4 (Z.land v 0xFFFFFFFF) else a | _ => a end.

Record AddrPort := mkAddrPort { ap_addr : Addr; ap_port : Z }.
#[export] Instance AddrPort_eq_dec : EqDecision AddrPort.
Proof. solve_decision. Defined.
Definition IsValid (a : AddrPort) : bool := match ap_addr a with AddrZero => false | _ => true end.
Definition AddrPort_zero : AddrPort := mkAddrPort AddrZero 0.

Record Peer := mkPeer { Media : AddrPort; RTCP : AddrPort; timeout : Z; lastSeen : Z; seen : bool }.
#[export] Instance eta_Peer : Eta Peer := fun p => mkPeer (Media p) (RTCP p) (timeout p) (lastSeen p) (seen p).

Definition New (timeout : Z) : Peer := mkPeer AddrPort_zero AddrPort_zero timeout 0 false.

Definition LearnMedia (addr : AddrPort) (p : Peer) : Peer := if negb (IsValid (Media p)) then p <| Media := addr |> else p.

Definition LearnRTCP (addr : AddrPort) (p : Peer) : Peer :=
  if IsValid (RTCP p) then p else
  if IsValid (Media p) && IsValid addr && negb (bool_decide (Unmap (ap_addr (Media p)) = Unmap (ap_addr addr))) then p else
  p <| RTCP := addr |>.

Definition Observe (now : Z) (p : Peer) : Peer := p <| lastSeen := now |> <| seen := true |>.
Definition Rebind (addr : AddrPort) (p : Peer) : Peer := p <| Media := addr |> <| RTCP := addr |>.
Definition SilentFor (now d : Z) (p : Peer) : bool := seen p && (d <? Timestamp.Sub now (lastSeen p)).
Definition Seen (p : Peer) : bool := seen p.
Definition LastSeen (p : Peer) : Z := lastSeen p.
Definition Expired (now : Z) (p : Peer) : bool := SilentFor now (timeout p) p.

(** ** What a datagram does to a peer *)

(** A source learned on either socket, an observation, a rebind. *)
Inductive event := EMedia (a : AddrPort) | ERTCP (a : AddrPort) | EObserve (now : Z) | ERebind (a : AddrPort).
Definition apply (e : event) (p : Peer) : Peer :=
  match e with EMedia a => LearnMedia a p | ERTCP a => LearnRTCP a p | EObserve now => Observe now p | ERebind a => Rebind a p end.
Definition run (es : list event) (p : Peer) : Peer := fold_left (fun p e => apply e p) es p.

Definition rebinds (e : event) : bool := match e with ERebind _ => true | _ => false end.
Definition same_host (a b : AddrPort) : Prop := Unmap (ap_addr a) = Unmap (ap_addr b).

Lemma run_cons e es p : run (e :: es) p = run es (apply e p).
Proof. done. Qed.

(** Both addresses, once valid, stay, unless the host rebinds. *)
Lemma locked es p : forallb (fun e => negb (rebinds e)) es = true ->
  (IsValid (Media p) = true -> Media (run es p) = Media p) /\ (IsValid (RTCP p) = true -> RTCP (run es p) = RTCP p).
Proof.
  revert p. induction es as [|e es IH]; intros p He; [done|]. cbn [forallb] in He. apply andb_true_iff in He as [He Hes]. rewrite run_cons.
  assert (Hm : IsValid (Media p) = true -> Media (apply e p) = Media p).
  { intros Hv. destruct e as [a|a|now|a]; cbn in *; [unfold LearnMedia; by rewrite Hv|unfold LearnRTCP|done|done]. destruct (IsValid (RTCP p)); [done|]. by destruct (_ && _). }
  assert (Hr : IsValid (RTCP p) = true -> RTCP (apply e p) = RTCP p).
  { intros Hv. destruct e as [a|a|now|a]; cbn in *; [unfold LearnMedia; by destruct (negb _)|unfold LearnRTCP; by rewrite Hv|done|done]. }
  destruct (IH (apply e p) Hes) as [I1 I2]. split; intros Hv; [rewrite I1; rewrite Hm|rewrite I2; rewrite Hr]; done.
Qed.

(** While media is known and RTCP is not, only a source on the media host can become the RTCP address. *)
Lemma rtcp_host es p : forallb (fun e => negb (rebinds e)) es = true -> IsValid (Media p) = true -> IsValid (RTCP p) = false ->
  IsValid (RTCP (run es p)) = false \/ same_host (Media p) (RTCP (run es p)).
Proof.
  revert p. induction es as [|e es IH]; intros p He Hm Hr; [by left|]. cbn [forallb] in He. apply andb_true_iff in He as [He Hes]. rewrite run_cons.
  destruct (IsValid (RTCP (apply e p))) eqn:Er.
  - destruct (locked es (apply e p) Hes) as [_ L]. rewrite (L Er). right. destruct e as [a|a|now|a]; cbn in *; try congruence.
    + unfold LearnMedia in Er. rewrite Hm in Er. cbn in Er. congruence.
    + unfold LearnRTCP in *. rewrite Hr, Hm in *. cbn [andb] in *. destruct (IsValid a) eqn:Ea; cbn in *; [|congruence].
      destruct (bool_decide (Unmap (ap_addr (Media p)) = Unmap (ap_addr a))) eqn:Eb; cbn in *; [|congruence]. by apply bool_decide_eq_true in Eb.
  - destruct (locked [e] p) as [L _]; [cbn; by rewrite He|]. specialize (L Hm). cbn in L. rewrite <-L. apply IH; [done|by rewrite L|done].
Qed.

(** Spoof resistance of the learned addresses: once a media source is known, no sequence of datagrams, on either socket and from whatever
    sources, changes it, short of a rebind by the host; and if no RTCP source was known yet, the RTCP return address is from then on
    unknown or on the host of the media source, comparing IPv4 addresses and their IPv6-mapped forms as equal. *)
Theorem learned_addresses_locked es p : forallb (fun e => negb (rebinds e)) es = true -> IsValid (Media p) = true ->
  Media (run es p) = Media p /\ if IsValid (RTCP p) then RTCP (run es p) = RTCP p else IsValid (RTCP (run es p)) = false \/ same_host (Media p) (RTCP (run es p)).
Proof.
  intros He Hm. destruct (locked es p He) as [L1 L2]. split; [by apply L1|]. destruct (IsValid (RTCP p)) eqn:Er; [by apply L2|by apply rtcp_host].
Qed.

(** A forged RTCP source is ignored, the IPv6-mapped form of the media host is taken, and a second host changes nothing. *)
Lemma learned_addresses_locked_witness :
  let p := LearnMedia (mkAddrPort (Addr4 0x0A000001) 5000) (New 1000) in
  let es := [ERTCP (mkAddrPort (Addr4 0x0A000002) 5001); ERTCP (mkAddrPort (Addr6 0xFFFF0A000001 []) 6001); EObserve 7; EMedia (mkAddrPort (Addr4 0x0A000003) 1)] in
  Media (run es p) = mkAddrPort (Addr4 0x0A000001) 5000 /\ (IsValid (RTCP (run es p)) = false \/ same_host (Media p) (RTCP (run es p))) /\ ap_port (RTCP (run es p)) = 6001.
Proof.
  intros p es. destruct (learned_addresses_locked es p eq_refl eq_refl) as [H1 H2]. split; [exact H1|]. split; [exact H2|vm_compute; reflexivity].
Defined.
End peer.
