(* ===== verification/Psk.v ===== *)
(** * Pre-shared-key payload encryption (src/internal/crypto/psk.go)

    Key derivation, the AES-CTR engine, the rotating send key and the receive-side decryptor that follows the sender's nonces.
    PBKDF2-HMAC-SHA256 and the AES block function are parameters; the random source is the list of the reads still to come,
    [None] standing for a read that fails. *)

From S2P Require Import Prelude Bytes.

Module psk.

Inductive err := ErrInvalidKeySize | ErrEmptyPassword | ErrNegativeRotation | ErrInvalidNonceLength | ErrZeroNonce | ErrKeyReuseExhausted | ErrCSPRNG | ErrLibrary.

Definition KeySize128 : Z := 128.
Definition KeySize192 : Z := 192.
Definition KeySize256 : Z := 256.
Definition NonceSize : Z := 4.
Definition ivSize : Z := 16.
Definition pbkdf2Iterations : Z := 1024.
Definition reuseLimit : Z := 0xFFFFFFFF.
Definition nonceBBitMask : Z := Z.shiftl 1 7.
Definition maxPasswordLen : Z := 127.

Definition valid_size (keyBits : Z) : bool := (keyBits =? KeySize128) || (keyBits =? KeySize192) || (keyBits =? KeySize256).

(** ** Nonces *)

Definition isZeroNonce (nonce : bytes) : bool := be nonce =? 0.

Definition setBBit (nonce : bytes) (odd : bool) : bytes :=
  match nonce with
  | [] => []
  | b :: rest => (let b := Z.ldiff b nonceBBitMask in if odd then Z.lor b nonceBBitMask else b) :: rest
  end.

Fixpoint generate_nonce (attempts : nat) (odd : bool) (draws : list (option bytes)) : res err bytes * list (option bytes) :=
  match attempts with
  | O => (Err ErrCSPRNG, draws)
  | S attempts =>
      match draws with
      | [] => (Err ErrCSPRNG, [])
      | None :: draws => (Err ErrCSPRNG, draws)
      | Some nonce :: draws => if negb (be nonce =? 0) then (Ok (setBBit nonce odd), draws) else generate_nonce attempts odd draws
      end
  end.
Definition generateNonce (odd : bool) (draws : list (option bytes)) : res err bytes * list (option bytes) := generate_nonce 8 odd draws.

Definition BuildIV (seq : Z) : bytes := be_bytes 4 seq ++ replicate 12 0.

(** [bytes.IndexByte(password, 0)] and the cut there *)
Fixpoint cut_nul (password : bytes) : bytes := match password with [] => [] | b :: rest => if b =? 0 then [] else b :: cut_nul rest end.
Definition boundPassword (password : bytes) : bytes :=
  let password := cut_nul password in
  if maxPasswordLen <? zlen password then take (Z.to_nat maxPasswordLen) password else password.

(** The big-endian counter, incremented from its last byte. *)
Fixpoint incr_from_last (ctr : bytes) : bytes :=
  match ctr with [] => [] | b :: rest => let b := u8 (b + 1) in if negb (b =? 0) then b :: rest else b :: incr_from_last rest end.
Definition incrCounter (ctr : bytes) : bytes := rev (incr_from_last (rev ctr)).

Record Key := mkKey { k_password : bytes; k_keyBits : Z; keyRotation : Z; k_odd : bool; k_raw : bool; k_nonce : bytes; k_block : bytes; k_usedTimes : Z }.
#[export] Instance eta_Key : Eta Key := fun k => mkKey (k_password k) (k_keyBits k) (keyRotation k) (k_odd k) (k_raw k) (k_nonce k) (k_block k) (k_usedTimes k).

Record Decryptor := mkDecryptor {
  d_password : bytes; d_keyBits : Z; d_raw : bool; d_nonce : bytes; d_block : bytes; hasNonce : bool; d_usedTimes : Z;
  nextNonce : bytes; nextBlock : bytes; nextBits : Z; hasNext : bool }.
#[export] Instance eta_Decryptor : Eta Decryptor := fun d =>
  mkDecryptor (d_password d) (d_keyBits d) (d_raw d) (d_nonce d) (d_block d) (hasNonce d) (d_usedTimes d) (nextNonce d) (nextBlock d) (nextBits d) (hasNext d).

Definition Nonce (k : Key) : bytes := k_nonce k.
Definition KeyBits (k : Key) : Z := k_keyBits k.

Definition rotateDue (k : Key) : bool :=
  if reuseLimit <? k_usedTimes k + 1 then true else (0 <? keyRotation k) && (keyRotation k <=? k_usedTimes k).

Definition newDecryptor (password : bytes) (keyBits : Z) (raw : bool) : res err Decryptor :=
  if negb (valid_size keyBits) then Err ErrInvalidKeySize else
  if zlen password =? 0 then Err ErrEmptyPassword else
  Ok (mkDecryptor password keyBits raw (replicate 4 0) [] false 0 (replicate 4 0) [] 0 false).

Definition SetKeyBits (keyBits : Z) (d : Decryptor) : Decryptor :=
  if keyBits =? d_keyBits d then d else d <| d_keyBits := keyBits |> <| hasNonce := false |> <| hasNext := false |>.

Section primitives.
(** [pbkdf2.Key(sha256.New, password, salt, 1024, length)], [None] for an error; and the block function of [aes.NewCipher(key)]. *)
Context (pbkdf2 : bytes -> bytes -> Z -> option bytes) (aes : bytes -> bytes -> bytes).

Definition DeriveKey (password nonce4 : bytes) (keyBits : Z) : res err bytes :=
  if negb (valid_size keyBits) then Err ErrInvalidKeySize else
  if zlen password =? 0 then Err ErrEmptyPassword else
  if negb (zlen nonce4 =? NonceSize) then Err ErrInvalidNonceLength else
  match pbkdf2 (boundPassword password) nonce4 (keyBits /g 8) with Some key => Ok key | None => Err ErrLibrary end.

Definition DeriveKeyRaw (password nonce4 : bytes) (keyBits : Z) : res err bytes :=
  if negb (valid_size keyBits) then Err ErrInvalidKeySize else
  if zlen password =? 0 then Err ErrEmptyPassword else
  if negb (zlen nonce4 =? NonceSize) then Err ErrInvalidNonceLength else
  match pbkdf2 password nonce4 (keyBits /g 8) with Some key => Ok key | None => Err ErrLibrary end.

(** A cipher.Block is the key it was made from. *)
Definition NewCipher (key : bytes) : res err bytes :=
  if (zlen key =? 16) || (zlen key =? 24) || (zlen key =? 32) then Ok key else Err ErrLibrary.

Definition deriveBlock (password nonce4 : bytes) (keyBits : Z) (raw : bool) : res err bytes :=
  derived ← (if raw then DeriveKeyRaw password nonce4 keyBits else DeriveKey password nonce4 keyBits);
  NewCipher derived.

(** The loop of [crypt]: one keystream block per 16 bytes of [src]. *)
Fixpoint crypt_blocks (fuel : nat) (block ctr src : bytes) : bytes :=
  match fuel, src with
  | S fuel, _ :: _ => zip_with Z.lxor (take 16 src) (aes block ctr) ++ crypt_blocks fuel block (incrCounter ctr) (drop 16 src)
  | _, _ => []
  end.
Definition crypt (block iv dst src : bytes) : bytes := dst ++ crypt_blocks (length src) block iv src.

Definition rekey (draws : list (option bytes)) (k : Key) : (res err unit * Key) * list (option bytes) :=
  match generateNonce (k_odd k) draws with
  | (Ok nonce, draws) =>
      match deriveBlock (k_password k) nonce (k_keyBits k) (k_raw k) with
      | Ok block => ((Ok tt, k <| k_nonce := nonce |> <| k_block := block |> <| k_usedTimes := 0 |>), draws)
      | Err e => ((Err e, k), draws)
      | Panic => ((Panic, k), draws)
      end
  | (Err e, draws) => ((Err e, k), draws)
  | (Panic, draws) => ((Panic, k), draws)
  end.

Definition newKey (password : bytes) (keyBits rotation : Z) (odd raw : bool) (draws : list (option bytes)) : res err Key * list (option bytes) :=
  if negb (valid_size keyBits) then (Err ErrInvalidKeySize, draws) else
  if zlen password =? 0 then (Err ErrEmptyPassword, draws) else
  if rotation <? 0 then (Err ErrNegativeRotation, draws) else
  match rekey draws (mkKey password keyBits (u32 rotation) odd raw (replicate 4 0) [] 0) with
  | ((Ok _, k), draws) => (Ok k, draws)
  | ((Err e, _), draws) => (Err e, draws)
  | ((Panic, _), draws) => (Panic, draws)
  end.

Definition Encrypt (seq : Z) (dst src : bytes) (draws : list (option bytes)) (k : Key) : (res err bytes * Key) * list (option bytes) :=
  let '((r, k), draws) := if rotateDue k then rekey draws k else ((Ok tt, k), draws) in
  match r with
  | Ok _ => ((Ok (crypt (k_block k) (BuildIV seq) dst src), k <| k_usedTimes ::= fun n => u32 (n + 1) |>), draws)
  | Err e => ((Err e, k), draws)
  | Panic => ((Panic, k), draws)
  end.

Definition Precompute (nonce : bytes) (keyBits : Z) (d : Decryptor) : Decryptor :=
  if isZeroNonce nonce then d else
  if hasNonce d && bool_decide (nonce = d_nonce d) then d else
  let bits := if negb (valid_size keyBits) then d_keyBits d else keyBits in
  if hasNext d && bool_decide (nonce = nextNonce d) && (bits =? nextBits d) then d else
  match deriveBlock (d_password d) nonce bits (d_raw d) with
  | Ok block => d <| nextNonce := nonce |> <| nextBlock := block |> <| nextBits := bits |> <| hasNext := true |>
  | _ => d
  end.

(** The key change of Decrypt. *)
Definition select_key (nonce : bytes) (d : Decryptor) : res err unit * Decryptor :=
  if negb (hasNonce d) || negb (bool_decide (nonce = d_nonce d)) then
    if hasNext d && bool_decide (nonce = nextNonce d) then
      (Ok tt, d <| d_nonce := nonce |> <| d_block := nextBlock d |> <| d_keyBits := nextBits d |> <| hasNonce := true |> <| d_usedTimes := 0 |> <| hasNext := false |>)
    else
      let d := d <| d_nonce := nonce |> in
      match deriveBlock (d_password d) (d_nonce d) (d_keyBits d) (d_raw d) with
      | Ok block => (Ok tt, d <| d_block := block |> <| hasNonce := true |> <| d_usedTimes := 0 |>)
      | Err e => (Err e, d <| hasNonce := false |>)
      | Panic => (Panic, d)
      end
  else (Ok tt, d).

Definition Decrypt (nonce : bytes) (seq : Z) (dst src : bytes) (d : Decryptor) : res err bytes * Decryptor :=
  if isZeroNonce nonce then (Err ErrZeroNonce, d) else
  match select_key nonce d with
  | (Ok _, d) =>
      if reuseLimit <? d_usedTimes d then (Err ErrKeyReuseExhausted, d)
      else (Ok (crypt (d_block d) (BuildIV seq) dst src), d <| d_usedTimes ::= fun n => u64 (n + 1) |>)
  | (Err e, d) => (Err e, d)
  | (Panic, d) => (Panic, d)
  end.

(** The one-shot form. *)
Definition Decrypt_once (password : bytes) (keyBits : Z) (nonce : bytes) (seq : Z) (dst src : bytes) : res err bytes :=
  if isZeroNonce nonce then Err ErrZeroNonce else
  block ← deriveBlock password nonce keyBits false;
  Ok (crypt block (BuildIV seq) dst src).

Definition AESCTRRaw (key iv dst src : bytes) : res err bytes :=
  if negb ((zlen key =? KeySize128 /g 8) || (zlen key =? KeySize192 /g 8) || (zlen key =? KeySize256 /g 8)) then Err ErrInvalidKeySize else
  block ← NewCipher key;
  Ok (crypt block iv dst src).
End primitives.

(** ** The counter *)

Lemma incr_be n v : incr_from_last (rev (be_bytes n v)) = rev (be_bytes n (v + 1)).
Proof.
  revert v. induction n as [|n IH]; intros v; [done|]. cbn [be_bytes]. rewrite !rev_app_distr. cbn [rev app incr_from_last]. unfold u8, uwrap. change (2 ^ 8) with 256.
  rewrite Z.add_mod_idemp_l by done. pose proof (Z.div_mod v 256 ltac:(done)). pose proof (Z.mod_pos_bound v 256 ltac:(done)). destruct (Z.eqb_spec ((v + 1) mod 256) 0) as [E|E]; cbn [negb].
  - rewrite IH. do 3 f_equal. pose proof (Z.div_mod (v + 1) 256 ltac:(done)). lia.
  - do 3 f_equal. pose proof (Z.div_mod (v + 1) 256 ltac:(done)). pose proof (Z.mod_pos_bound (v + 1) 256 ltac:(done)). lia.
Qed.

Lemma incrCounter_be n v : incrCounter (be_bytes n v) = be_bytes n (v + 1).
Proof. unfold incrCounter. rewrite incr_be. apply rev_involutive. Qed.

Lemma be_bytes_shift n m v : be_bytes (n + m) (v * 256 ^ Z.of_nat m) = be_bytes n v ++ replicate m 0.
Proof.
  revert v. induction m as [|m IH]; intros v; [rewrite Nat.add_0_r, Z.mul_1_r, app_nil_r; done|]. rewrite Nat.add_succ_r. cbn [be_bytes].
  rewrite Nat2Z.inj_succ, Z.pow_succ_r by lia. replace (v * (256 * 256 ^ Z.of_nat m)) with (v * 256 ^ Z.of_nat m * 256) by lia. rewrite Z.div_mul, Z.mod_mul by done. rewrite IH, <-app_assoc. f_equal.
  by rewrite <-replicate_cons_app.
Qed.

Lemma BuildIV_be seq : BuildIV seq = be_bytes 16 (seq * 2 ^ 96).
Proof. unfold BuildIV. change 16%nat with (4 + 12)%nat. change (2 ^ 96) with (256 ^ Z.of_nat 12). by rewrite be_bytes_shift. Qed.

(** The counter block of the [i]-th block of a packet. *)
Definition counter (seq i : Z) : bytes := be_bytes 16 (seq * 2 ^ 96 + i).

Lemma counter_inj s1 s2 i j : in_u32 s1 -> in_u32 s2 -> 0 <= i < 2 ^ 96 -> 0 <= j < 2 ^ 96 -> counter s1 i = counter s2 j -> s1 = s2 /\ i = j.
Proof.
  unfold in_u32, counter. intros H1 H2 Hi Hj E. apply (f_equal be) in E. change (256 ^ Z.of_nat 16) with (2 ^ 128) in *.
  rewrite !be_be_bytes in E by (change (256 ^ Z.of_nat 16) with (4294967296 * 2 ^ 96); lia). lia.
Qed.

Section cipher.
Context (aes : bytes -> bytes -> bytes) (aes_len : forall key b, length (aes key b) = 16%nat).

(** The [k]-th byte of the keystream that starts at counter [v]. *)
Definition keystream (block : bytes) (v : Z) (k : nat) : Z := default 0 (aes block (be_bytes 16 (v + Z.of_nat (k / 16))) !! (k mod 16)%nat).

Lemma crypt_blocks_spec fuel block v src : (length src <= fuel)%nat ->
  length (crypt_blocks aes fuel block (be_bytes 16 v) src) = length src /\
  forall k x, src !! k = Some x -> crypt_blocks aes fuel block (be_bytes 16 v) src !! k = Some (Z.lxor x (keystream block v k)).
Proof.
  revert v src. induction fuel as [|fuel IH]; intros v [|b src] Hf; try (split; [done|by intros [|k] x]); [cbn in Hf; lia|].
  change (crypt_blocks aes (S fuel) block (be_bytes 16 v) (b :: src)) with
    (zip_with Z.lxor (take 16 (b :: src)) (aes block (be_bytes 16 v)) ++ crypt_blocks aes fuel block (incrCounter (be_bytes 16 v)) (drop 16 (b :: src))).
  rewrite incrCounter_be. set (full := b :: src) in *. assert (Hne : (1 <= length full)%nat) by (cbn; lia).
  destruct (IH (v + 1) (drop 16 full)) as [IH1 IH2]; [rewrite length_drop; lia|].
  assert (Hz : length (zip_with Z.lxor (take 16 full) (aes block (be_bytes 16 v))) = (length full `min` 16)%nat) by (rewrite length_zip_with, length_take, aes_len; lia).
  split; [rewrite length_app, Hz, IH1, length_drop; lia|]. intros k x Hk. pose proof (lookup_lt_Some _ _ _ Hk) as Hlt. destruct (decide (k < 16)%nat) as [Hk16|Hk16].
  - rewrite lookup_app_l by (rewrite Hz; lia). rewrite lookup_zip_with, lookup_take_lt, Hk by lia. destruct (lookup_lt_is_Some_2 (aes block (be_bytes 16 v)) k) as [y Hy]; [rewrite aes_len; lia|].
    rewrite Hy. cbn. unfold keystream. rewrite (Nat.div_small k 16), (Nat.mod_small k 16), Z.add_0_r, Hy by lia. done.
  - assert (Hl16 : (16 <= length full)%nat) by lia. rewrite lookup_app_r by (rewrite Hz; lia). rewrite Hz, Nat.min_r by lia. rewrite (IH2 (k - 16)%nat x) by (rewrite lookup_drop; by replace (16 + (k - 16))%nat with k by lia).
    do 2 f_equal. unfold keystream. replace k with (k - 16 + 1 * 16)%nat at 3 4 by lia. rewrite Nat.div_add, Nat.Div0.mod_add by lia. do 4 f_equal. lia.
Qed.

Lemma crypt_involutive block v src : crypt_blocks aes (length (crypt_blocks aes (length src) block (be_bytes 16 v) src)) block (be_bytes 16 v) (crypt_blocks aes (length src) block (be_bytes 16 v) src) = src.
Proof.
  destruct (crypt_blocks_spec (length src) block v src (le_n _)) as [L1 S1]. destruct (crypt_blocks_spec _ block v (crypt_blocks aes (length src) block (be_bytes 16 v) src) (le_n _)) as [L2 S2].
  apply list_eq_same_length with (length src); [done|congruence|]. intros k x y Hk Hx Hy. destruct (lookup_lt_is_Some_2 src k) as [z Hz]; [done|].
  rewrite (S2 k _ (S1 k z Hz)) in Hx. rewrite Hz in Hy. injection Hx as <-. injection Hy as <-. by rewrite Z.lxor_assoc, Z.lxor_nilpotent, Z.lxor_0_r.
Qed.
End cipher.

(** ** Sender and receiver *)

(** A packet as it crosses the network, with the plaintext it was made from. *)
Record packet := mkPacket { pk_nonce : bytes; pk_seq : Z; pk_plain : bytes; pk_ct : bytes }.

(** What the receiver does: decrypt a packet, or hear an announcement of a nonce and a key size. *)
Inductive rop := RDecrypt (p : packet) | RPrecompute (nonce : bytes) (bits : Z).
Definition decrypted (op : rop) : option packet := match op with RDecrypt p => Some p | RPrecompute _ _ => None end.

Definition limit (k : Key) : Z := if 0 <? keyRotation k then Z.min (keyRotation k) reuseLimit else reuseLimit.

Lemma generate_nonce_len n odd ds : (length (generate_nonce n odd ds).2 <= length ds)%nat.
Proof.
  revert ds. induction n as [|n IH]; intros ds; [done|]. cbn [generate_nonce]. destruct ds as [|[x|] ds]; cbn; [lia| |lia]. destruct (negb (be x =? 0)); cbn; [lia|]. specialize (IH ds). lia.
Qed.

Lemma generate_nonce_reads n odd ds nonce ds' : generate_nonce n odd ds = (Ok nonce, ds') -> (length ds' < length ds)%nat.
Proof.
  revert ds. induction n as [|n IH]; intros ds; [done|]. cbn [generate_nonce]. destruct ds as [|[x|] ds]; try done. destruct (negb (be x =? 0)); [intros [= _ <-]; cbn; lia|].
  intros E. apply IH in E. cbn. lia.
Qed.

Section channel.
Context (pbkdf2 : bytes -> bytes -> Z -> option bytes) (aes : bytes -> bytes -> bytes) (aes_len : forall key b, length (aes key b) = 16%nat).

(** The packets that encrypting the payloads in turn sends (a failed Encrypt sends none), with the key and the random source after it. *)
Fixpoint send (ps : list (Z * bytes)) (draws : list (option bytes)) (k : Key) : list packet * Key * list (option bytes) :=
  match ps with
  | [] => ([], k, draws)
  | (seq, src) :: ps =>
      let '((r, k), draws) := Encrypt pbkdf2 aes seq [] src draws k in
      let '(pkts, k', draws') := send ps draws k in
      (match r with Ok ct => mkPacket (Nonce k) seq src ct :: pkts | _ => pkts end, k', draws')
  end.

Fixpoint receive (ops : list rop) (d : Decryptor) : list (res err bytes) :=
  match ops with
  | [] => []
  | RDecrypt p :: ops => let '(r, d) := Decrypt pbkdf2 aes (pk_nonce p) (pk_seq p) [] (pk_ct p) d in r :: receive ops d
  | RPrecompute nonce bits :: ops => receive ops (Precompute pbkdf2 nonce bits d)
  end.

Definition key_ok (pw : bytes) (kb : Z) (raw : bool) (k : Key) : Prop :=
  k_password k = pw /\ k_keyBits k = kb /\ k_raw k = raw /\ deriveBlock pbkdf2 pw (k_nonce k) kb raw = Ok (k_block k) /\ 0 <= k_usedTimes k <= limit k.

Lemma rekey_fail draws k k1 draws1 r : rekey pbkdf2 draws k = ((r, k1), draws1) -> r <> Ok tt -> k1 = k /\ (length draws1 <= length draws)%nat.
Proof.
  unfold rekey. pose proof (generate_nonce_len 8 (k_odd k) draws) as Hl. change (generate_nonce 8 (k_odd k) draws) with (generateNonce (k_odd k) draws) in Hl.
  destruct (generateNonce (k_odd k) draws) as [[nonce|e|] ds]; cbn [snd] in Hl; [destruct (deriveBlock _ _ _ _ _)|..]; intros [= <- <- <-] Hr; done.
Qed.

Lemma rekey_ok pw kb raw draws k k' draws' : k_password k = pw -> k_keyBits k = kb -> k_raw k = raw -> rekey pbkdf2 draws k = ((Ok tt, k'), draws') ->
  key_ok pw kb raw k' /\ k_usedTimes k' = 0 /\ limit k' = limit k /\ keyRotation k' = keyRotation k /\ (length draws' < length draws)%nat.
Proof.
  intros <- <- <-. unfold rekey.
  destruct (generateNonce (k_odd k) draws) as [[nonce|e|] ds] eqn:E; [|done..]. apply generate_nonce_reads in E. destruct (deriveBlock pbkdf2 (k_password k) nonce (k_keyBits k) (k_raw k)) as [block|e|] eqn:Ed; [|done..].
  intros [= <- <-]. split; [|done]. split; [done|]. split; [done|]. split; [done|]. split; [exact Ed|]. cbn. unfold limit, reuseLimit. cbn. destruct (Z.ltb_spec 0 (keyRotation k)); lia.
Qed.

(** One Encrypt: what it outputs, what it keeps and when it reads the random source. *)
Lemma Encrypt_ok pw kb raw seq src draws k : key_ok pw kb raw k ->
  let '((r, k'), draws') := Encrypt pbkdf2 aes seq [] src draws k in
  key_ok pw kb raw k' /\ keyRotation k' = keyRotation k /\ (length draws' <= length draws)%nat /\
  match r with
  | Ok ct => ct = crypt aes (k_block k') (BuildIV seq) [] src /\ (length draws' = length draws -> k_usedTimes k' = k_usedTimes k + 1)
  | _ => k' = k
  end.
Proof.
  intros Hk. pose proof Hk as (Hpw & Hkb & Hraw & Hblk & Hused). unfold Encrypt.
  assert (Hgo : forall k1 (draws1 : list (option bytes)), key_ok pw kb raw k1 -> keyRotation k1 = keyRotation k -> (length draws1 <= length draws)%nat -> k_usedTimes k1 < limit k1 -> (length draws1 = length draws -> k1 = k) ->
    key_ok pw kb raw (k1 <| k_usedTimes ::= fun n => u32 (n + 1) |>) /\ keyRotation (k1 <| k_usedTimes ::= fun n => u32 (n + 1) |>) = keyRotation k /\ (length draws1 <= length draws)%nat /\
    crypt aes (k_block k1) (BuildIV seq) [] src = crypt aes (k_block (k1 <| k_usedTimes ::= fun n => u32 (n + 1) |>)) (BuildIV seq) [] src /\ (length draws1 = length draws -> k_usedTimes (k1 <| k_usedTimes ::= fun n => u32 (n + 1) |>) = k_usedTimes k + 1)).
  { intros k1 draws1 (P1 & P2 & P3 & P4 & P5) Hrot Hlen Hlim Heq. assert (Hll : limit k1 <= reuseLimit) by (unfold limit; destruct (0 <? keyRotation k1); lia). unfold reuseLimit in Hll.
    assert (E : u32 (k_usedTimes k1 + 1) = k_usedTimes k1 + 1) by (apply u32_id; unfold in_u32; lia).
    split; [|split; [done|split; [done|split; [done|]]]].
    - split; [done|]. split; [done|]. split; [done|]. split; [done|]. change (limit (k1 <| k_usedTimes ::= fun n => u32 (n + 1) |>)) with (limit k1). cbn. rewrite E. lia.
    - intros Hd. cbn. rewrite E. by rewrite (Heq Hd). }
  destruct (rotateDue k) eqn:Er.
  - destruct (rekey pbkdf2 draws k) as [[r k1] draws1] eqn:Erk. destruct r as [[]|e|].
    + destruct (rekey_ok pw kb raw _ _ _ _ Hpw Hkb Hraw Erk) as (H1 & H2 & H3 & H4 & H5). apply Hgo; [done|done|lia| |intros ?; lia].
      rewrite H2. unfold limit, reuseLimit. destruct (Z.ltb_spec 0 (keyRotation k1)); lia.
    + destruct (rekey_fail _ _ _ _ _ Erk) as [-> Hl]; done.
    + destruct (rekey_fail _ _ _ _ _ Erk) as [-> Hl]; done.
  - apply Hgo; [done|done|lia| |done]. unfold rotateDue in Er. unfold limit. unfold reuseLimit in *. destruct (Z.ltb_spec 0xFFFFFFFF (k_usedTimes k + 1)); [done|].
    destruct (Z.ltb_spec 0 (keyRotation k)); cbn in Er; [apply Z.leb_gt in Er; lia|lia].
Qed.

(** None of it panics. *)
Lemma generate_nonce_returns n odd ds : returns (generate_nonce n odd ds).1 (fun _ => True).
Proof. revert ds. induction n as [|n IH]; intros ds; [done|]. cbn [generate_nonce]. destruct ds as [|[x|] ds]; [done| |done]. destruct (negb (be x =? 0)); [done|apply IH]. Qed.

Lemma deriveBlock_returns pw nonce kb raw : returns (deriveBlock pbkdf2 pw nonce kb raw) (fun _ => True).
Proof.
  unfold deriveBlock, DeriveKey, DeriveKeyRaw, NewCipher. destruct raw; destruct (negb (valid_size kb)); try done; destruct (zlen pw =? 0); try done; destruct (negb (zlen nonce =? NonceSize)); try done;
    destruct (pbkdf2 _ nonce (kb /g 8)) as [key|]; try done; cbn [mbind res_bind]; destruct (_ || _); done.
Qed.

Lemma Encrypt_returns seq src draws k : returns (Encrypt pbkdf2 aes seq [] src draws k).1.1 (fun _ => True).
Proof.
  unfold Encrypt. destruct (rotateDue k); [|done]. unfold rekey. pose proof (generate_nonce_returns 8 (k_odd k) draws) as H. fold (generateNonce (k_odd k) draws) in H.
  destruct (generateNonce (k_odd k) draws) as [[nonce|e|] ds]; [|done..]. pose proof (deriveBlock_returns (k_password k) nonce (k_keyBits k) (k_raw k)) as H2.
  by destruct (deriveBlock pbkdf2 (k_password k) nonce (k_keyBits k) (k_raw k)).
Qed.

Lemma Decrypt_returns nonce seq ct d : returns (Decrypt pbkdf2 aes nonce seq [] ct d).1 (fun out => exists block, out = crypt aes block (BuildIV seq) [] ct).
Proof.
  unfold Decrypt, select_key. destruct (isZeroNonce nonce); [done|]. destruct (negb (hasNonce d) || _); [destruct (hasNext d && _)|].
  - destruct (reuseLimit <? _); [done|]. by eexists.
  - cbv zeta. set (d1 := d <| d_nonce := nonce |>). pose proof (deriveBlock_returns (d_password d1) (d_nonce d1) (d_keyBits d1) (d_raw d1)) as H.
    destruct (deriveBlock pbkdf2 (d_password d1) (d_nonce d1) (d_keyBits d1) (d_raw d1)); [|done..]. destruct (reuseLimit <? _); [done|]. by eexists.
  - destruct (reuseLimit <? _); [done|]. by eexists.
Qed.

Lemma newKey_ok pw kb rot odd raw draws k draws' : newKey pbkdf2 pw kb rot odd raw draws = (Ok k, draws') -> key_ok pw kb raw k /\ keyRotation k = u32 rot.
Proof.
  unfold newKey. destruct (negb (valid_size kb)); [done|]. destruct (zlen pw =? 0); [done|]. destruct (rot <? 0); [done|].
  destruct (rekey pbkdf2 draws _) as [[r k1] ds] eqn:E. destruct r as [[]|e|]; [|done..]. intros [= <- <-]. apply (rekey_ok pw kb raw) in E as (H1 & _ & _ & H2 & _); [done|done|done|done].
Qed.

(** Every packet sent is the encryption of its payload under the block key of its nonce. *)
Lemma send_packets pw kb raw ps draws k : key_ok pw kb raw k -> Forall (fun p => exists block, deriveBlock pbkdf2 pw (pk_nonce p) kb raw = Ok block /\ pk_ct p = crypt aes block (BuildIV (pk_seq p)) [] (pk_plain p)) (send ps draws k).1.1.
Proof.
  revert draws k. induction ps as [|[seq src] ps IH]; intros draws k Hk; [constructor|]. cbn [send]. pose proof (Encrypt_ok pw kb raw seq src draws k Hk) as H.
  destruct (Encrypt pbkdf2 aes seq [] src draws k) as [[r k1] draws1]. destruct H as (Hk1 & _ & _ & Hr). specialize (IH draws1 k1 Hk1). destruct (send ps draws1 k1) as [[pkts k2] draws2]. cbn [fst] in *.
  destruct r as [ct|e|]; [|done..]. constructor; [|done]. exists (k_block k1). destruct Hr as [-> _]. split; [apply Hk1|done].
Qed.

(** Payloads encrypted without reading the random source count against the limit of the key. *)
Lemma send_bounded pw kb raw ps draws k : key_ok pw kb raw k ->
  let '(pkts, k', draws') := send ps draws k in
  key_ok pw kb raw k' /\ keyRotation k' = keyRotation k /\ (length draws' <= length draws)%nat /\ (length draws' = length draws -> k_usedTimes k + zlen pkts <= limit k).
Proof.
  revert draws k. induction ps as [|[seq src] ps IH]; intros draws k Hk; cbn [send].
  { split; [done|]. split; [done|]. split; [done|]. intros _. change (zlen (@nil packet)) with 0. destruct Hk as (_ & _ & _ & _ & ?). lia. }
  pose proof (Encrypt_ok pw kb raw seq src draws k Hk) as H. destruct (Encrypt pbkdf2 aes seq [] src draws k) as [[r k1] draws1]. destruct H as (Hk1 & Hrot & Hlen & Hr).
  specialize (IH draws1 k1 Hk1). destruct (send ps draws1 k1) as [[pkts k2] draws2]. destruct IH as (I1 & I2 & I3 & I4). split; [done|]. split; [congruence|]. split; [lia|]. intros Hd.
  assert (Hlim : limit k1 = limit k) by (unfold limit; by rewrite Hrot). assert (Hlen1 : length draws1 = length draws) by lia. specialize (I4 ltac:(lia)). rewrite Hlim in I4.
  destruct r as [ct|e|]; [destruct Hr as [_ Hu]; rewrite (Hu Hlen1) in I4; rewrite zlen_cons; lia|by subst k1..].
Qed.

Definition dec_ok (pw : bytes) (kb : Z) (raw : bool) (n : Z) (d : Decryptor) : Prop :=
  d_password d = pw /\ d_keyBits d = kb /\ d_raw d = raw /\ (hasNonce d = true -> deriveBlock pbkdf2 pw (d_nonce d) kb raw = Ok (d_block d)) /\
  (hasNext d = true -> nextBits d = kb /\ deriveBlock pbkdf2 pw (nextNonce d) kb raw = Ok (nextBlock d)) /\ 0 <= d_usedTimes d <= n.

Lemma Decrypt_ok pw kb raw n nonce seq ct d block : dec_ok pw kb raw n d -> 0 <= n <= reuseLimit -> isZeroNonce nonce = false -> deriveBlock pbkdf2 pw nonce kb raw = Ok block ->
  let '(r, d') := Decrypt pbkdf2 aes nonce seq [] ct d in r = Ok (crypt aes block (BuildIV seq) [] ct) /\ dec_ok pw kb raw (n + 1) d'.
Proof.
  intros (Hpw & Hkb & Hraw & Hb & Hx & Hu) Hn Hz Hd. unfold Decrypt. rewrite Hz.
  assert (Hsel : exists d1, select_key pbkdf2 nonce d = (Ok tt, d1) /\ d_block d1 = block /\ dec_ok pw kb raw n d1).
  { unfold select_key. destruct (negb (hasNonce d) || negb (bool_decide (nonce = d_nonce d))) eqn:E.
    - destruct (hasNext d && bool_decide (nonce = nextNonce d)) eqn:E2.
      + apply andb_true_iff in E2 as [E2 E3]. apply bool_decide_eq_true in E3. destruct (Hx E2) as [Hxb Hxd]. subst nonce. eexists. split; [done|]. cbn. split; [congruence|].
        split; [done|]. split; [done|]. split; [done|]. split; [intros _; exact Hxd|]. split; [done|]. cbn. lia.
      + cbv zeta. change (deriveBlock pbkdf2 (d_password (d <| d_nonce := nonce |>)) (d_nonce (d <| d_nonce := nonce |>)) (d_keyBits (d <| d_nonce := nonce |>)) (d_raw (d <| d_nonce := nonce |>)))
          with (deriveBlock pbkdf2 (d_password d) nonce (d_keyBits d) (d_raw d)).
        rewrite Hpw, Hkb, Hraw, Hd. eexists. split; [done|]. cbn. split; [done|]. split; [done|]. split; [done|]. split; [done|]. split; [intros _; exact Hd|]. split; [exact Hx|]. cbn. lia.
    - apply orb_false_iff in E as [E1 E2]. apply negb_false_iff in E1, E2. apply bool_decide_eq_true in E2. subst nonce. exists d. split; [done|]. split; [specialize (Hb E1); congruence|done]. }
  destruct Hsel as (d1 & -> & <- & (P1 & P2 & P3 & P4 & P5 & P6)). unfold reuseLimit in *. destruct (Z.ltb_spec 0xFFFFFFFF (d_usedTimes d1)); [lia|]. split; [done|].
  split; [done|]. split; [done|]. split; [done|]. split; [done|]. split; [done|]. cbn. unfold u64, uwrap. rewrite Z.mod_small by lia. lia.
Qed.

Lemma Precompute_ok pw kb raw n nonce bits d : dec_ok pw kb raw n d -> bits = kb \/ valid_size bits = false -> dec_ok pw kb raw n (Precompute pbkdf2 nonce bits d).
Proof.
  intros Hdk Hbits. pose proof Hdk as (Hpw & Hkb & Hraw & Hb & Hx & Hu). unfold Precompute. destruct (isZeroNonce nonce); [done|]. destruct (hasNonce d && _); [done|]. cbv zeta.
  assert (Eb : (if negb (valid_size bits) then d_keyBits d else bits) = kb) by (destruct Hbits as [-> | ->]; [by destruct (negb _)|done]). rewrite Eb.
  destruct (_ && _ && _); [done|]. rewrite Hpw, Hraw. destruct (deriveBlock pbkdf2 pw nonce kb raw) as [block|e|] eqn:E; [|done..].
  split; [done|]. split; [done|]. split; [done|]. split; [exact Hb|]. split; [done|]. cbn. lia.
Qed.

Lemma receive_all pw kb raw ops d n : dec_ok pw kb raw n d -> 0 <= n -> n + zlen ops <= reuseLimit + 1 ->
  (forall p, RDecrypt p ∈ ops -> isZeroNonce (pk_nonce p) = false /\ exists block, deriveBlock pbkdf2 pw (pk_nonce p) kb raw = Ok block /\ pk_ct p = crypt aes block (BuildIV (pk_seq p)) [] (pk_plain p)) ->
  (forall nonce bits, RPrecompute nonce bits ∈ ops -> bits = kb \/ valid_size bits = false) ->
  receive ops d = (fun p => Ok (pk_plain p)) <$> omap decrypted ops.
Proof.
  revert d n. induction ops as [|op ops IH]; intros d n Hd Hn Hl Hp Hb; [done|]. rewrite zlen_cons in Hl. pose proof (zlen_nonneg ops). destruct op as [p|nonce bits].
  - cbn [receive omap list_omap decrypted]. destruct (Hp p) as (Hz & block & Hblk & Hct); [by left|]. pose proof (Decrypt_ok pw kb raw n (pk_nonce p) (pk_seq p) (pk_ct p) d block Hd ltac:(lia) Hz Hblk) as HD.
    destruct (Decrypt pbkdf2 aes (pk_nonce p) (pk_seq p) [] (pk_ct p) d) as [r d1]. destruct HD as [-> Hd1]. cbn [fmap list_fmap]. f_equal.
    + rewrite Hct. unfold crypt. cbn [app]. by rewrite BuildIV_be, (crypt_involutive aes aes_len).
    + apply (IH d1 (n + 1)); [done|lia|lia| |]; intros; [apply Hp|eapply Hb]; by right.
  - cbn [receive omap list_omap decrypted]. apply (IH _ n); [apply Precompute_ok; [done|by apply (Hb nonce); left]|done|lia| |]; intros; [apply Hp|eapply Hb]; by right.
Qed.

(** ** Properties *)

(** C29: The encrypted channel is transparent: whatever payloads a sender encrypts, through whatever rotations of its nonce, a receiver
    with the same passphrase and key size recovers the payload of every packet, in whatever order packets arrive, lost, repeated
    or interleaved with announcements of future nonces, as long as no packet carries the all-zero nonce (which the sender can draw,
    [psk_zero_nonce_emitted], and the receiver refuses), every announced key size is the receiver's own or no AES size, and at most 2^32
    operations reach the receiver. *)
Theorem psk_channel_transparent pw kb rot odd raw draws k draws' d ps ops :
  newKey pbkdf2 pw kb rot odd raw draws = (Ok k, draws') -> newDecryptor pw kb raw = Ok d ->
  (forall p, RDecrypt p ∈ ops -> p ∈ (send ps draws' k).1.1 /\ isZeroNonce (pk_nonce p) = false) ->
  (forall nonce bits, RPrecompute nonce bits ∈ ops -> bits = kb \/ valid_size bits = false) ->
  zlen ops <= 2 ^ 32 ->
  receive ops d = (fun p => Ok (pk_plain p)) <$> omap decrypted ops.
Proof.
  intros Hk Hd Hp Hb Hl. destruct (newKey_ok _ _ _ _ _ _ _ _ Hk) as [Hko _]. pose proof (send_packets pw kb raw ps draws' k Hko) as Hs. rewrite Forall_forall in Hs.
  apply (receive_all pw kb raw ops d 0); [|lia|unfold reuseLimit; lia| |done].
  - unfold newDecryptor in Hd. destruct (negb (valid_size kb)); [done|]. destruct (zlen pw =? 0); [done|]. injection Hd as <-. split; [done|]. split; [done|]. split; [done|]. split; [done|]. split; [done|]. cbn. lia.
  - intros p Hin. destruct (Hp p Hin) as [Hs1 Hz]. split; [done|by apply Hs].
Qed.

(** No key is overused: from the state after any encryptions, the payloads that can be encrypted without drawing a fresh nonce,
    added to those already encrypted under the current one, are at most the rotation threshold, and at most 2^32 - 1 when the
    threshold is off. *)
Theorem psk_key_use_bounded pw kb rot odd raw draws k0 draws0 ps1 ps2 : newKey pbkdf2 pw kb rot odd raw draws = (Ok k0, draws0) -> rot < 2 ^ 32 ->
  let '(_, k, draws1) := send ps1 draws0 k0 in
  let '(pkts, _, draws2) := send ps2 draws1 k in
  length draws2 = length draws1 -> k_usedTimes k + zlen pkts <= if 0 <? rot then Z.min rot reuseLimit else reuseLimit.
Proof.
  intros Hk Hrot. destruct (newKey_ok _ _ _ _ _ _ _ _ Hk) as [Hko Hkr]. assert (Hr0 : 0 <= rot).
  { unfold newKey in Hk. destruct (negb (valid_size kb)); [done|]. destruct (zlen pw =? 0); [done|]. destruct (Z.ltb_spec rot 0); [done|lia]. }
  rewrite u32_id in Hkr by (unfold in_u32; lia). pose proof (send_bounded pw kb raw ps1 draws0 k0 Hko) as H1. destruct (send ps1 draws0 k0) as [[pk1 k] draws1]. destruct H1 as (Hk1 & Hr1 & _ & _).
  pose proof (send_bounded pw kb raw ps2 draws1 k Hk1) as H2. destruct (send ps2 draws1 k) as [[pkts k2] draws2]. destruct H2 as (_ & _ & _ & H2). intros Hd. specialize (H2 Hd). unfold limit in H2. by rewrite Hr1, Hkr in H2.
Qed.

(** The cipher is AES in counter mode, and no keystream block is used twice under a key: byte [k] of the output is byte [k] of the
    input XORed with byte [k mod 16] of the block function at the packet's counter plus [k / 16]; the counters of different packets,
    and of different blocks of one packet, are different; and applying the cipher twice restores the input. *)
Theorem psk_counter_mode block seq src seq' i j : in_u32 seq -> in_u32 seq' -> 0 <= i < 2 ^ 96 -> 0 <= j < 2 ^ 96 ->
  zlen (crypt aes block (BuildIV seq) [] src) = zlen src /\
  (forall k x, src !! k = Some x -> crypt aes block (BuildIV seq) [] src !! k = Some (Z.lxor x (default 0 (aes block (counter seq (Z.of_nat (k / 16))) !! (k mod 16)%nat)))) /\
  (counter seq i = counter seq' j -> seq = seq' /\ i = j) /\
  crypt aes block (BuildIV seq) [] (crypt aes block (BuildIV seq) [] src) = src.
Proof.
  intros H1 H2 Hi Hj. unfold crypt. cbn [app]. rewrite BuildIV_be. destruct (crypt_blocks_spec aes aes_len (length src) block (seq * 2 ^ 96) src (le_n _)) as [L S].
  split; [unfold zlen; by rewrite L|]. split; [exact S|]. split; [by apply counter_inj|apply (crypt_involutive aes aes_len)].
Qed.

(** The zero nonce that the receiver refuses is emitted: when the random source returns 80 00 00 00 to a sender with the even passphrase,
    the draw passes the test for zero and then loses its only bit to the odd/even marker, so the key is built with the nonce zero
    and every packet under it is rejected. *)
Theorem psk_zero_nonce_emitted pw kb rot raw draws k draws' d seq src : newKey pbkdf2 pw kb rot false raw (Some [0x80; 0; 0; 0] :: draws) = (Ok k, draws') ->
  isZeroNonce (Nonce k) = true /\ fst (Decrypt pbkdf2 aes (Nonce k) seq [] src d) = Err ErrZeroNonce.
Proof.
  unfold newKey. destruct (negb (valid_size kb)); [done|]. destruct (zlen pw =? 0); [done|]. destruct (rot <? 0); [done|]. unfold rekey.
  change (generateNonce _ (Some [0x80; 0; 0; 0] :: draws)) with (Ok (E:=err) [0; 0; 0; 0], draws). cbv iota beta. destruct (deriveBlock _ _ _ _ _); [|done..]. intros [= <- <-]. done.
Qed.
End channel.

(** ** What the codecs use *)

Section codecs.
Context (pbkdf2 : bytes -> bytes -> Z -> option bytes) (aes : bytes -> bytes -> bytes) (aes_len : forall key b, length (aes key b) = 16%nat).

Lemma deriveBlock_nonce pw nonce kb raw block : deriveBlock pbkdf2 pw nonce kb raw = Ok block -> zlen nonce = 4.
Proof.
  unfold deriveBlock, DeriveKey, DeriveKeyRaw, NonceSize. destruct raw; destruct (negb (valid_size kb)); try done; destruct (zlen pw =? 0); try done; destruct (Z.eqb_spec (zlen nonce) 4); done.
Qed.

Section as_bytes.
Context (aes_bytes : forall key b, is_bytes (aes key b)).

Lemma crypt_blocks_bytes fuel block ctr src : is_bytes src -> is_bytes (crypt_blocks aes fuel block ctr src).
Proof.
  revert ctr src. induction fuel as [|fuel IH]; intros ctr [|x src] Hs; [constructor..|]. cbn [crypt_blocks]. apply Forall_app. split; [|apply IH, Forall_drop, Hs].
  apply Forall_lookup. intros i z Hz. apply lookup_zip_with_Some in Hz as (a & b & -> & Ha & Hb). apply lxor_u8; [exact (Forall_lookup_1 _ _ _ _ (Forall_take _ 16 _ Hs) Ha)|exact (Forall_lookup_1 _ _ _ _ (aes_bytes block ctr) Hb)].
Qed.

Lemma crypt_bytes block seq src : is_bytes src -> is_bytes (crypt aes block (BuildIV seq) [] src) /\ zlen (crypt aes block (BuildIV seq) [] src) = zlen src.
Proof.
  intros Hs. unfold crypt. cbn [app]. split; [by apply crypt_blocks_bytes|]. rewrite BuildIV_be. unfold zlen. by rewrite (proj1 (crypt_blocks_spec aes aes_len (length src) block (seq * 2 ^ 96) src (le_n _))).
Qed.
End as_bytes.

Lemma newDecryptor_ok pw kb raw d : newDecryptor pw kb raw = Ok d -> dec_ok pbkdf2 pw kb raw 0 d.
Proof. unfold newDecryptor. destruct (negb (valid_size kb)); [done|]. destruct (zlen pw =? 0); [done|]. intros [= <-]. by repeat split. Qed.
End codecs.

(** The keys of the two ends: none, or a send key and a decryptor made from the same passphrase and key size; [draws] is what is left of the random source. *)
Inductive keyed (pbkdf2 : bytes -> bytes -> Z -> option bytes) (draws : list (option bytes)) (kb : Z) : option Key -> option Decryptor -> Prop :=
  | keyed_none : keyed pbkdf2 draws kb None None
  | keyed_psk pw rot odd raw draws0 k d : newKey pbkdf2 pw kb rot odd raw draws0 = (Ok k, draws) -> newDecryptor pw kb raw = Ok d -> keyed pbkdf2 draws kb (Some k) (Some d).

(** A derivation and a block function to run the channel with. *)
Definition demo_pbkdf2 (pw salt : bytes) (n : Z) : option bytes := Some (replicate (Z.to_nat n) (u8 (be pw + 7 * be salt))).
Definition demo_aes (key b : bytes) : bytes := (fun i => u8 (be key + 3 * be b + i * i)) <$> seqZ 0 16.
Lemma demo_aes_len key b : length (demo_aes key b) = 16%nat.
Proof. reflexivity. Qed.

Definition demo_draws : list (option bytes) := [Some [0; 0; 0; 0]; Some [1; 2; 3; 4]; Some [0x85; 6; 7; 8]; Some [9; 9; 9; 9]].
Definition demo_key : Key := match newKey demo_pbkdf2 [115] 128 1 true false demo_draws with (Ok k, _) => k | _ => mkKey [] 0 0 false false [] [] 0 end.
Definition demo_payloads : list (Z * bytes) := [(7, [1; 2; 3]); (8, replicate 40 5)].
Definition demo_sent : list packet := (send demo_pbkdf2 demo_aes demo_payloads (drop 2 demo_draws) demo_key).1.1.
Definition demo_dec : Decryptor := mkDecryptor [115] 128 false (replicate 4 0) [] false 0 (replicate 4 0) [] 0 false.

(** Two packets under two nonces, received in the other order, one of them twice, with an announcement in between. *)
Lemma psk_channel_transparent_witness :
  receive demo_pbkdf2 demo_aes ([RPrecompute [0x81; 2; 3; 4] 128] ++ (RDecrypt <$> rev demo_sent) ++ (RDecrypt <$> demo_sent)) demo_dec = [Ok (replicate 40 5); Ok [1; 2; 3]; Ok [1; 2; 3]; Ok (replicate 40 5)].
Proof.
  rewrite (psk_channel_transparent demo_pbkdf2 demo_aes demo_aes_len [115] 128 1 true false demo_draws demo_key (drop 2 demo_draws) demo_dec demo_payloads).
  - vm_compute. reflexivity.
  - vm_compute. reflexivity.
  - vm_compute. reflexivity.
  - intros p Hp. assert (Hin : p ∈ demo_sent).
    { apply elem_of_app in Hp as [Hp|Hp]; [apply list_elem_of_singleton in Hp; discriminate Hp|]. apply elem_of_app in Hp as [Hp|Hp]; apply list_elem_of_fmap_1 in Hp as (q & [= ->] & Hq); [|done].
      by rewrite <-in_rev in Hq || apply list_elem_of_In, in_rev, list_elem_of_In. }
    split; [exact Hin|]. revert p Hp Hin. assert (H : Forall (fun p => isZeroNonce (pk_nonce p) = false) demo_sent) by (vm_compute; repeat constructor). rewrite Forall_forall in H. intros p _ Hin. by apply H.
  - intros nonce bits Hp. apply elem_of_app in Hp as [Hp|Hp]; [apply list_elem_of_singleton in Hp; injection Hp as _ ->; by left|].
    apply elem_of_app in Hp as [Hp|Hp]; apply list_elem_of_fmap_1 in Hp as (q & Hq & _); discriminate Hq.
  - vm_compute. discriminate.
Defined.

Lemma psk_key_use_bounded_witness :
  let '(_, k, draws1) := send demo_pbkdf2 demo_aes demo_payloads (drop 2 demo_draws) demo_key in
  let '(pkts, _, draws2) := send demo_pbkdf2 demo_aes [] draws1 k in k_usedTimes k + zlen pkts <= 1.
Proof.
  pose proof (psk_key_use_bounded demo_pbkdf2 demo_aes [115] 128 1 true false demo_draws demo_key (drop 2 demo_draws) demo_payloads [] eq_refl eq_refl) as H.
  destruct (send demo_pbkdf2 demo_aes demo_payloads (drop 2 demo_draws) demo_key) as [[a k] draws1]. cbn [send] in *. exact (H eq_refl).
Defined.

Lemma psk_counter_mode_witness : crypt demo_aes [1] (BuildIV 7) [] (crypt demo_aes [1] (BuildIV 7) [] (replicate 20 9)) = replicate 20 9.
Proof. apply (psk_counter_mode demo_aes demo_aes_len [1] 7 (replicate 20 9) 8 0 0); done. Defined.

Lemma psk_zero_nonce_emitted_witness :
  fst (newKey demo_pbkdf2 [115] 128 0 false false [Some [0x80; 0; 0; 0]]) <> Err ErrCSPRNG /\ fst (Decrypt demo_pbkdf2 demo_aes [0; 0; 0; 0] 1 [] [5] demo_dec) = Err ErrZeroNonce.
Proof.
  split; [vm_compute; discriminate|]. destruct (newKey demo_pbkdf2 [115] 128 0 false false [Some [0x80; 0; 0; 0]]) as [[k|e|] ds] eqn:E; [|vm_compute in E; discriminate E..].
  destruct (psk_zero_nonce_emitted demo_pbkdf2 demo_aes [115] 128 0 false [] k ds demo_dec 1 [5] E) as [_ H]. vm_compute in E. injection E as <- <-. exact H.
Defined.
End psk.
