(* ===== verification/Aead.v ===== *)
(** * Authenticated payload encryption of the Advanced profile (src/internal/crypto/aead.go)

    Sealing and opening under the three authenticated modes, the nonce construction, and the sealer that owns the packet counter of
    a key epoch.  AES-GCM and ChaCha20-Poly1305 are two instances of the [AEAD] interface, HMAC-SHA256 a parameter; PBKDF2 and the
    AES block function are those of Psk. *)

From S2P Require Import Prelude Bytes Psk.

Module aead.
Import psk.

Inductive error := PskErr (e : err) | ErrAuthFailed | ErrUnknownPSKMode | ErrChaChaKeySize | ErrIVExhausted.
Definition lift_err {A} (r : res err A) : res error A := match r with Ok a => Ok a | Err e => Err (PskErr e) | Panic => Panic end.

Definition PSKModeAESCTRHMAC : Z := 3.
Definition PSKModeAESGCM : Z := 4.
Definition PSKModeChaCha20Poly1305 : Z := 5.
Definition HashSize : Z := 16.
Definition aeadNonceSize : Z := 12.
Definition gcmTagSize : Z := 16.
Definition Overhead : Z := 16.

(** Go's [cipher.AEAD] of a key, and what its documentation promises: [Seal] appends a tag of 16 bytes, [Open] undoes it and accepts nothing else. *)
Class AEAD := { Seal : bytes -> bytes -> bytes -> bytes -> bytes; Open : bytes -> bytes -> bytes -> bytes -> option bytes }.
Class AEADLaws (A : AEAD) : Prop := {
  open_seal : forall key nonce pt aad, is_bytes pt -> Open key nonce (Seal key nonce pt aad) aad = Some pt;
  open_only_sealed : forall key nonce ct aad pt, is_bytes ct -> Open key nonce ct aad = Some pt -> ct = Seal key nonce pt aad;
  seal_overhead : forall key nonce pt aad, zlen (Seal key nonce pt aad) = zlen pt + 16 }.

Definition aeadNonce (nonce4 : bytes) (iv4 : Z) : bytes := nonce4 ++ be_bytes 4 iv4 ++ replicate 4 0.

(** [copy(hash[:], b)] into a zeroed [HashSize]-byte array *)
Definition copy_hash (b : bytes) : bytes := take 16 (b ++ replicate 16 0).

(** "rist-adv-aes-ctr-hmac-auth-key" *)
Definition macKeyLabel : bytes := [114; 105; 115; 116; 45; 97; 100; 118; 45; 97; 101; 115; 45; 99; 116; 114; 45; 104; 109; 97; 99; 45; 97; 117; 116; 104; 45; 107; 101; 121].

(** ** The sealer of a key epoch *)

Record AdvancedSealer := mkSealer { s_mode : Z; s_password : bytes; s_keyBits : Z; s_nonce4 : bytes; s_iv : Z; s_exhausted : bool }.
#[export] Instance eta_AdvancedSealer : Eta AdvancedSealer := fun s => mkSealer (s_mode s) (s_password s) (s_keyBits s) (s_nonce4 s) (s_iv s) (s_exhausted s).

Definition NewAdvancedSealer (mode : Z) (password : bytes) (keyBits : Z) (nonce4 : bytes) (startIV : Z) : AdvancedSealer :=
  mkSealer mode password keyBits nonce4 startIV false.

Section modes.
Context (pbkdf2 : bytes -> bytes -> Z -> option bytes) (aes : bytes -> bytes -> bytes) (hmacSHA256 : bytes -> bytes -> bytes) (gcm chacha : AEAD).

Definition deriveAEADKey (mode : Z) (password nonce4 : bytes) (keyBits : Z) : res error bytes :=
  if (mode =? PSKModeChaCha20Poly1305) && negb (keyBits =? KeySize256) then Err ErrChaChaKeySize else
  lift_err (DeriveKey pbkdf2 password nonce4 keyBits).

Definition deriveMACKey (encKey : bytes) : bytes := hmacSHA256 encKey macKeyLabel.

Definition hmacTag (key aad ciphertext : bytes) : res error bytes :=
  full ← slc (hmacSHA256 key (aad ++ ciphertext)) 0 HashSize;
  Ok (copy_hash full).

Definition ctrXOR (key iv src : bytes) : res error bytes :=
  match NewCipher key with
  | Ok block => Ok (crypt aes block iv [] src)
  | _ => Err (PskErr ErrInvalidKeySize)
  end.

(** The AEAD is its key. *)
Definition newGCM (key : bytes) : res error bytes :=
  match NewCipher key with Ok block => Ok block | _ => Err (PskErr ErrInvalidKeySize) end.
Definition newChaCha (key : bytes) : res error bytes := if zlen key =? 32 then Ok key else Err ErrChaChaKeySize.

(** The tag is split off what [Seal] returns. *)
Definition sealGCM (key nonce aad plaintext : bytes) : res error (bytes * bytes) :=
  k ← newGCM key;
  let sealed := Seal (AEAD:=gcm) k nonce plaintext aad in
  let ctLen := zlen sealed - gcmTagSize in
  tag ← slc_from sealed ctLen;
  ct ← slc sealed 0 ctLen;
  Ok (ct, copy_hash tag).

Definition openGCM (key nonce aad ciphertext hash : bytes) : res error bytes :=
  k ← newGCM key;
  match Open (AEAD:=gcm) k nonce (ciphertext ++ hash) aad with Some pt => Ok pt | None => Err ErrAuthFailed end.

Definition sealChaCha (key nonce aad plaintext : bytes) : res error (bytes * bytes) :=
  k ← newChaCha key;
  let sealed := Seal (AEAD:=chacha) k nonce plaintext aad in
  let ctLen := zlen sealed - Overhead in
  tag ← slc_from sealed ctLen;
  ct ← slc sealed 0 ctLen;
  Ok (ct, copy_hash tag).

Definition openChaCha (key nonce aad ciphertext hash : bytes) : res error bytes :=
  k ← newChaCha key;
  match Open (AEAD:=chacha) k nonce (ciphertext ++ hash) aad with Some pt => Ok pt | None => Err ErrAuthFailed end.

Definition SealAdvanced (mode : Z) (password : bytes) (keyBits : Z) (nonce4 : bytes) (iv4 : Z) (aad plaintext : bytes) : res error (bytes * bytes) :=
  if isZeroNonce nonce4 then Err (PskErr ErrZeroNonce) else
  key ← deriveAEADKey mode password nonce4 keyBits;
  if mode =? PSKModeAESCTRHMAC then
    let macKey := deriveMACKey key in
    ct ← ctrXOR key (BuildIV iv4) plaintext;
    hash ← hmacTag macKey aad ct;
    Ok (ct, hash)
  else if mode =? PSKModeAESGCM then sealGCM key (aeadNonce nonce4 iv4) aad plaintext
  else if mode =? PSKModeChaCha20Poly1305 then sealChaCha key (aeadNonce nonce4 iv4) aad plaintext
  else Err ErrUnknownPSKMode.

Definition OpenAdvanced (mode : Z) (password : bytes) (keyBits : Z) (nonce4 : bytes) (iv4 : Z) (aad ciphertext hash : bytes) : res error bytes :=
  if isZeroNonce nonce4 then Err (PskErr ErrZeroNonce) else
  key ← deriveAEADKey mode password nonce4 keyBits;
  if mode =? PSKModeAESCTRHMAC then
    let macKey := deriveMACKey key in
    want ← hmacTag macKey aad ciphertext;
    if negb (bool_decide (want = hash)) then Err ErrAuthFailed else
    ctrXOR key (BuildIV iv4) ciphertext
  else if mode =? PSKModeAESGCM then openGCM key (aeadNonce nonce4 iv4) aad ciphertext hash
  else if mode =? PSKModeChaCha20Poly1305 then openChaCha key (aeadNonce nonce4 iv4) aad ciphertext hash
  else Err ErrUnknownPSKMode.

(** [AdvancedSealer.Seal]: the ciphertext, the hash and the IV field used. *)
Definition SealNext (aad plaintext : bytes) (s : AdvancedSealer) : res error (bytes * bytes * Z) * AdvancedSealer :=
  if s_exhausted s then (Err ErrIVExhausted, s) else
  let iv4 := s_iv s in
  match SealAdvanced (s_mode s) (s_password s) (s_keyBits s) (s_nonce4 s) iv4 aad plaintext with
  | Ok (ct, h) => (Ok (ct, h, iv4), if s_iv s =? 4294967295 then s <| s_exhausted := true |> else s <| s_iv := u32 (s_iv s + 1) |>)
  | Err e => (Err e, s)
  | Panic => (Panic, s)
  end.

Fixpoint seal_all (ps : list (bytes * bytes)) (s : AdvancedSealer) : list (res error (bytes * bytes * Z)) * AdvancedSealer :=
  match ps with
  | [] => ([], s)
  | (aad, p) :: ps => let '(r, s) := SealNext aad p s in let '(rs, s) := seal_all ps s in (r :: rs, s)
  end.
End modes.

Lemma lift_err_Ok {A} (r : res err A) a : lift_err r = Ok a -> r = Ok a.
Proof. destruct r; cbn; congruence. Qed.

Lemma copy_hash_all b : zlen b = 16 -> copy_hash b = b.
Proof. intros H. unfold copy_hash. apply take_app_length'. unfold zlen in H. lia. Qed.

Lemma zlen_split (b : bytes) n : 0 <= n <= zlen b -> exists c t, b = c ++ t /\ zlen c = n.
Proof. intros H. exists (take (Z.to_nat n) b), (drop (Z.to_nat n) b). split; [by rewrite take_drop|]. unfold zlen in *. rewrite length_take. lia. Qed.

(** A nonce names its epoch and its packet. *)
Lemma aeadNonce_inj n1 n2 i1 i2 : zlen n1 = 4 -> zlen n2 = 4 -> in_u32 i1 -> in_u32 i2 -> aeadNonce n1 i1 = aeadNonce n2 i2 -> n1 = n2 /\ i1 = i2.
Proof.
  unfold aeadNonce, in_u32, zlen. intros H1 H2 Hi1 Hi2 E. apply app_inj_1 in E as [-> E]; [|lia]. split; [done|]. apply app_inj_2 in E as [E _]; [|done].
  apply (f_equal be) in E. rewrite !be_be_bytes in E by (change (256 ^ Z.of_nat 4) with 4294967296; lia). done.
Qed.

(** ** Both directions of an AEAD *)

Section split.
Context {A : AEAD} {AL : AEADLaws A}.

Definition seal_split (k nonce aad plaintext : bytes) : res error (bytes * bytes) :=
  let sealed := Seal k nonce plaintext aad in
  let ctLen := zlen sealed - 16 in
  tag ← slc_from sealed ctLen;
  ct ← slc sealed 0 ctLen;
  Ok (ct, copy_hash tag).

Lemma seal_split_eq k nonce aad p : exists c t, Seal k nonce p aad = c ++ t /\ zlen c = zlen p /\ zlen t = 16 /\ seal_split k nonce aad p = Ok (c, t).
Proof.
  pose proof (seal_overhead k nonce p aad) as Hz. pose proof (zlen_nonneg p). destruct (zlen_split (Seal k nonce p aad) (zlen p)) as (c & t & E & Hc); [lia|].
  assert (Ht : zlen t = 16) by (rewrite E, zlen_app in Hz; lia). exists c, t. split_and!; [done..|]. unfold seal_split. rewrite Hz. replace (zlen p + 16 - 16) with (zlen c) by lia.
  rewrite E, slc_from_app by done. cbn [mbind res_bind]. rewrite slc_here by done. cbn [mbind res_bind]. by rewrite copy_hash_all.
Qed.

Lemma seal_split_open k nonce aad p ct hash : is_bytes p -> seal_split k nonce aad p = Ok (ct, hash) -> Open k nonce (ct ++ hash) aad = Some p.
Proof. intros Hp. destruct (seal_split_eq k nonce aad p) as (c & t & E & _ & _ & ->). intros [= -> ->]. rewrite <-E. by apply open_seal. Qed.

Lemma open_split k nonce aad p ct hash : is_bytes ct -> is_bytes hash -> zlen hash = 16 -> Open k nonce (ct ++ hash) aad = Some p -> seal_split k nonce aad p = Ok (ct, hash).
Proof.
  intros Hct Hh Hz Ho. destruct (seal_split_eq k nonce aad p) as (c & t & E & Hc & Ht & ->). apply open_only_sealed in Ho; [|by apply Forall_app]. rewrite E in Ho.
  apply app_inj_2 in Ho as [-> ->]; [done|]. unfold zlen in *. lia.
Qed.

Lemma seal_split_total k nonce aad p : seal_split k nonce aad p <> Panic.
Proof. by destruct (seal_split_eq k nonce aad p) as (c & t & _ & _ & _ & ->). Qed.
End split.

Section theory.
Context (pbkdf2 : bytes -> bytes -> Z -> option bytes) (aes : bytes -> bytes -> bytes) (hmacSHA256 : bytes -> bytes -> bytes) (gcm chacha : AEAD).
Context (aes_len : forall key b, length (aes key b) = 16%nat) (hmac_len : forall key data, zlen (hmacSHA256 key data) = 32).
Context {GL : AEADLaws gcm} {CL : AEADLaws chacha}.
#[local] Abbreviation Seal_adv := (SealAdvanced pbkdf2 aes hmacSHA256 gcm chacha).
#[local] Abbreviation Open_adv := (OpenAdvanced pbkdf2 aes hmacSHA256 gcm chacha).

Lemma hmacTag_ok key aad ct : exists t, hmacTag hmacSHA256 key aad ct = Ok t /\ zlen t = 16.
Proof.
  unfold hmacTag, HashSize. pose proof (hmac_len key (aad ++ ct)) as Hl. destruct (zlen_split (hmacSHA256 key (aad ++ ct)) 16) as (c & t & E & Hc); [lia|].
  exists c. rewrite E, slc_here by done. cbn [mbind res_bind]. by rewrite copy_hash_all.
Qed.

Lemma hmacTag_take key aad ct t : hmacTag hmacSHA256 key aad ct = Ok t -> t = take 16 (hmacSHA256 key (aad ++ ct)).
Proof.
  unfold hmacTag, HashSize. pose proof (hmac_len key (aad ++ ct)) as Hl. destruct (zlen_split (hmacSHA256 key (aad ++ ct)) 16) as (c & d & E & Hc); [lia|].
  rewrite E, slc_here by done. cbn [mbind res_bind]. rewrite copy_hash_all by done. intros [= <-]. symmetry. apply take_app_length'. unfold zlen in Hc. lia.
Qed.

Lemma ctrXOR_swap key iv4 a b : ctrXOR aes key (BuildIV iv4) a = Ok b -> ctrXOR aes key (BuildIV iv4) b = Ok a.
Proof.
  unfold ctrXOR. destruct (NewCipher key) as [block| |]; [|done..]. intros [= <-]. f_equal. rewrite BuildIV_be. unfold crypt. cbn [app]. by apply crypt_involutive.
Qed.

Definition authenticated (mode : Z) : Prop := mode = PSKModeAESCTRHMAC \/ mode = PSKModeAESGCM \/ mode = PSKModeChaCha20Poly1305.

Lemma deriveAEADKey_total mode pw nonce4 kb : deriveAEADKey pbkdf2 mode pw nonce4 kb <> Panic.
Proof. unfold deriveAEADKey, DeriveKey. repeat case_match; done. Qed.

Lemma seal_then_open mode pw kb nonce4 iv4 aad pt ct hash : is_bytes pt -> Seal_adv mode pw kb nonce4 iv4 aad pt = Ok (ct, hash) -> Open_adv mode pw kb nonce4 iv4 aad ct hash = Ok pt.
Proof.
  intros Hp. unfold OpenAdvanced, SealAdvanced. destruct (isZeroNonce nonce4); [done|]. destruct (deriveAEADKey pbkdf2 mode pw nonce4 kb) as [key|e|]; [|done..]. cbn [mbind res_bind].
  destruct (mode =? PSKModeAESCTRHMAC).
  { destruct (ctrXOR aes key (BuildIV iv4) pt) as [c|e|] eqn:Ec; [|done..]. cbn [mbind res_bind]. destruct (hmacTag _ _ aad c) as [h|e|] eqn:Eh; [|done..]. cbn [mbind res_bind]. intros [= -> ->].
    rewrite Eh. cbn [mbind res_bind]. rewrite bool_decide_eq_true_2 by done. by apply ctrXOR_swap. }
  destruct (mode =? PSKModeAESGCM).
  { unfold openGCM, sealGCM, newGCM. destruct (NewCipher key) as [k| |]; [|done..]. cbn [mbind res_bind]. intros H. by rewrite (seal_split_open (A:=gcm) k (aeadNonce nonce4 iv4) aad pt ct hash). }
  destruct (mode =? PSKModeChaCha20Poly1305); [|done]. unfold openChaCha, sealChaCha, newChaCha. destruct (zlen key =? 32); [|done]. cbn [mbind res_bind]. intros H.
  by rewrite (seal_split_open (A:=chacha) key (aeadNonce nonce4 iv4) aad pt ct hash).
Qed.

Lemma open_then_seal mode pw kb nonce4 iv4 aad pt ct hash : is_bytes ct -> is_bytes hash -> zlen hash = HashSize ->
  Open_adv mode pw kb nonce4 iv4 aad ct hash = Ok pt -> Seal_adv mode pw kb nonce4 iv4 aad pt = Ok (ct, hash).
Proof.
  intros Hct Hh Hz. unfold OpenAdvanced, SealAdvanced. destruct (isZeroNonce nonce4); [done|]. destruct (deriveAEADKey pbkdf2 mode pw nonce4 kb) as [key|e|]; [|done..]. cbn [mbind res_bind].
  destruct (mode =? PSKModeAESCTRHMAC).
  { destruct (hmacTag _ _ aad ct) as [t|e|] eqn:Et; [|done..]. cbn [mbind res_bind]. destruct (bool_decide_reflect (t = hash)) as [->|]; [|done]. cbn [negb]. intros H. apply ctrXOR_swap in H. rewrite H. cbn [mbind res_bind]. by rewrite Et. }
  destruct (mode =? PSKModeAESGCM).
  { unfold openGCM, sealGCM, newGCM. destruct (NewCipher key) as [k| |]; [|done..]. cbn [mbind res_bind]. destruct (Open _ _ _ _) eqn:Eo; [|done]. intros [= ->]. by apply (open_split (A:=gcm)). }
  destruct (mode =? PSKModeChaCha20Poly1305); [|done]. unfold openChaCha, sealChaCha, newChaCha. destruct (zlen key =? 32); [|done]. cbn [mbind res_bind]. destruct (Open _ _ _ _) eqn:Eo; [|done]. intros [= ->]. by apply (open_split (A:=chacha)).
Qed.

Lemma Open_adv_total mode pw kb nonce4 iv4 aad ct hash : Open_adv mode pw kb nonce4 iv4 aad ct hash <> Panic.
Proof.
  unfold OpenAdvanced. pose proof (deriveAEADKey_total mode pw nonce4 kb) as Hk. destruct (isZeroNonce nonce4); [done|]. destruct (deriveAEADKey pbkdf2 mode pw nonce4 kb) as [key|e|]; [|done..]. cbn [mbind res_bind].
  destruct (hmacTag_ok (deriveMACKey hmacSHA256 key) aad ct) as (t & -> & _). cbn [mbind res_bind]. unfold ctrXOR, openGCM, openChaCha, newGCM, newChaCha.
  destruct (NewCipher key), (zlen key =? 32); cbn [mbind res_bind]; repeat case_match; congruence.
Qed.

Lemma Seal_adv_total mode pw kb nonce4 iv4 aad pt : Seal_adv mode pw kb nonce4 iv4 aad pt <> Panic.
Proof.
  unfold SealAdvanced. pose proof (deriveAEADKey_total mode pw nonce4 kb) as Hk. destruct (isZeroNonce nonce4); [done|]. destruct (deriveAEADKey pbkdf2 mode pw nonce4 kb) as [key|e|]; [|done..]. cbn [mbind res_bind].
  destruct (mode =? PSKModeAESCTRHMAC).
  { unfold ctrXOR. destruct (NewCipher key) as [b| |]; [|done..]. cbn [mbind res_bind]. by destruct (hmacTag_ok (deriveMACKey hmacSHA256 key) aad (crypt aes b (BuildIV iv4) [] pt)) as (h & -> & _). }
  destruct (mode =? PSKModeAESGCM).
  { unfold sealGCM, newGCM. destruct (NewCipher key) as [k| |]; [|done..]. apply (seal_split_total (A:=gcm)). }
  destruct (mode =? PSKModeChaCha20Poly1305); [|done]. unfold sealChaCha, newChaCha. destruct (zlen key =? 32); [|done]. apply (seal_split_total (A:=chacha)).
Qed.

(** Opening accepts exactly what sealing makes.  In each of the three modes, under any key, nonce and counter, a ciphertext and a hash open to a
    plaintext if and only if sealing that plaintext with the same associated data gives them, and neither direction panics. *)
Theorem aead_open_exact mode pw kb nonce4 iv4 aad pt ct hash : is_bytes pt -> is_bytes ct -> is_bytes hash -> zlen hash = HashSize ->
  (Open_adv mode pw kb nonce4 iv4 aad ct hash = Ok pt <-> Seal_adv mode pw kb nonce4 iv4 aad pt = Ok (ct, hash)) /\
  Open_adv mode pw kb nonce4 iv4 aad ct hash <> Panic /\ Seal_adv mode pw kb nonce4 iv4 aad pt <> Panic.
Proof.
  intros Hp Hct Hh Hz. split; [split; [by apply open_then_seal|by apply seal_then_open]|]. split; [by apply Open_adv_total|by apply Seal_adv_total].
Qed.

Section sealer.
Context (pbkdf2_len : forall pw salt n key, 0 <= n -> pbkdf2 pw salt n = Some key -> zlen key = n).

Lemma deriveAEADKey_len mode pw nonce4 kb key : deriveAEADKey pbkdf2 mode pw nonce4 kb = Ok key ->
  zlen nonce4 = 4 /\ (zlen key = 16 \/ zlen key = 24 \/ zlen key = 32) /\ (mode = PSKModeChaCha20Poly1305 -> zlen key = 32).
Proof.
  unfold deriveAEADKey, DeriveKey, valid_size, NonceSize, KeySize128, KeySize192, KeySize256. destruct (Z.eqb_spec mode PSKModeChaCha20Poly1305), (Z.eqb_spec kb 256), (Z.eqb_spec kb 128), (Z.eqb_spec kb 192), (zlen pw =? 0), (Z.eqb_spec (zlen nonce4) 4); try done; cbn [andb orb negb lift_err];
    (destruct (pbkdf2 _ _ _) as [key'|] eqn:E; [|done]); intros [= <-]; (apply pbkdf2_len in E; [|by subst kb]); subst kb; rewrite E; change (256 /g 8) with 32; change (128 /g 8) with 16; change (192 /g 8) with 24; split_and!; auto; try done.
Qed.

(** What leaves for a plaintext under a key: counter mode from the IV field with a truncated HMAC over the associated data and the ciphertext, or the AEAD under the
    epoch's nonce, the IV field and four zero bytes. *)
Definition on_wire (mode : Z) (key nonce4 : bytes) (iv : Z) (aad p ct h : bytes) : Prop :=
  if mode =? PSKModeAESCTRHMAC then ct = crypt aes key (BuildIV iv) [] p /\ h = take 16 (hmacSHA256 (hmacSHA256 key macKeyLabel) (aad ++ ct))
  else ct ++ h = Seal (AEAD:=if mode =? PSKModeAESGCM then gcm else chacha) key (nonce4 ++ be_bytes 4 iv ++ [0; 0; 0; 0]) p aad.

(** The key of an epoch: PBKDF2 of the passphrase with the epoch's nonce as the salt, of the key size the mode allows. *)
Definition epoch_key (mode : Z) (pw nonce4 : bytes) (kb : Z) (key : bytes) : Prop :=
  pw <> [] /\ zlen nonce4 = 4 /\ valid_size kb = true /\ (mode = PSKModeChaCha20Poly1305 -> kb = 256) /\ pbkdf2 (boundPassword pw) nonce4 (kb / 8) = Some key.

Lemma epoch_key_derived mode pw nonce4 kb key : epoch_key mode pw nonce4 kb key -> deriveAEADKey pbkdf2 mode pw nonce4 kb = Ok key.
Proof.
  intros (Hp & Hn & Hv & Hm & Hk). unfold deriveAEADKey, DeriveKey, NonceSize, KeySize256. assert (Hpz : (zlen pw =? 0) = false) by (destruct pw; [done|]; rewrite zlen_cons; apply Z.eqb_neq; pose proof (zlen_nonneg pw); lia).
  assert (E : (mode =? PSKModeChaCha20Poly1305) && negb (kb =? 256) = false) by (destruct (Z.eqb_spec mode PSKModeChaCha20Poly1305) as [Em|]; [by rewrite (Hm Em)|done]).
  rewrite E, Hv, Hpz, Hn. cbn [negb Z.eqb Pos.eqb]. rewrite Z.quot_div_nonneg by (unfold valid_size, KeySize128, KeySize192, KeySize256 in Hv; lia). by rewrite Hk.
Qed.

Lemma Seal_adv_ok mode pw kb nonce4 iv4 aad pt key : authenticated mode -> isZeroNonce nonce4 = false -> deriveAEADKey pbkdf2 mode pw nonce4 kb = Ok key ->
  exists ct hash, Seal_adv mode pw kb nonce4 iv4 aad pt = Ok (ct, hash) /\ zlen ct = zlen pt /\ zlen hash = HashSize /\ on_wire mode key nonce4 iv4 aad pt ct hash.
Proof.
  intros Hm Hn Hk. destruct (deriveAEADKey_len _ _ _ _ _ Hk) as (_ & Hl & Hc). unfold SealAdvanced. rewrite Hn, Hk. cbn [mbind res_bind].
  assert (Ec : NewCipher key = Ok key) by (unfold NewCipher; destruct Hl as [-> | [-> | ->]]; done). destruct Hm as [-> | [-> | ->]]; cbn [Z.eqb Pos.eqb PSKModeAESCTRHMAC PSKModeAESGCM PSKModeChaCha20Poly1305].
  - unfold ctrXOR. rewrite Ec. cbn [mbind res_bind]. destruct (hmacTag_ok (deriveMACKey hmacSHA256 key) aad (crypt aes key (BuildIV iv4) [] pt)) as (h & Eh & Hh). rewrite Eh. eexists _, _. split_and!; [done| |done|].
    + rewrite BuildIV_be. unfold crypt, zlen. cbn [app]. by rewrite (proj1 (crypt_blocks_spec aes aes_len _ _ _ _ (le_n _))).
    + split; [done|]. by apply hmacTag_take.
  - unfold sealGCM, newGCM. rewrite Ec. destruct (seal_split_eq (A:=gcm) key (aeadNonce nonce4 iv4) aad pt) as (c & t & Es & Hc1 & Ht & E). exists c, t. by split_and!.
  - unfold sealChaCha, newChaCha. rewrite Hc by done. destruct (seal_split_eq (A:=chacha) key (aeadNonce nonce4 iv4) aad pt) as (c & t & Es & Hc1 & Ht & E). exists c, t. by split_and!.
Qed.

Lemma seal_all_exhausted ps s : s_exhausted s = true -> (seal_all pbkdf2 aes hmacSHA256 gcm chacha ps s).1 = replicate (length ps) (Err ErrIVExhausted).
Proof.
  intros Hs. induction ps as [|[aad p] ps IH]; [done|]. cbn [seal_all length replicate]. unfold SealNext. rewrite Hs. destruct (seal_all _ _ _ _ _ ps s) as [rs s']. cbn in *. by rewrite IH.
Qed.

(** The packet at position [i] of an epoch that starts at [v]. *)
Definition sealed_as (mode : Z) (pw : bytes) (kb : Z) (nonce4 key : bytes) (iv : Z) (aad p : bytes) (r : res error (bytes * bytes * Z)) : Prop :=
  if iv <? 4294967296 then exists ct h, r = Ok (ct, h, iv) /\ zlen ct = zlen p /\ zlen h = HashSize /\ on_wire mode key nonce4 iv aad p ct h /\ Open_adv mode pw kb nonce4 iv aad ct h = Ok p
  else r = Err ErrIVExhausted.

Lemma seal_all_ivs mode pw kb nonce4 key v ps : authenticated mode -> isZeroNonce nonce4 = false -> deriveAEADKey pbkdf2 mode pw nonce4 kb = Ok key -> in_u32 v -> Forall (fun ap => is_bytes ap.2) ps ->
  forall i aad p, ps !! i = Some (aad, p) -> exists r, (seal_all pbkdf2 aes hmacSHA256 gcm chacha ps (mkSealer mode pw kb nonce4 v false)).1 !! i = Some r /\ sealed_as mode pw kb nonce4 key (v + Z.of_nat i) aad p r.
Proof.
  intros Hm Hn Hk. revert v. induction ps as [|[aad0 p0] ps IH]; intros v Hv Hps i aad p Hi; [done|]. inversion Hps as [|? ? Hp0 Hps']; subst. cbn [seal_all]. unfold SealNext. cbn [s_exhausted s_mode s_password s_keyBits s_nonce4 s_iv].
  destruct (Seal_adv_ok mode pw kb nonce4 v aad0 p0 key Hm Hn Hk) as (ct & h & E & Hc & Hh & Hw). rewrite E. unfold in_u32 in Hv.
  destruct (seal_all _ _ _ _ _ ps _) as [rs s'] eqn:Es. cbn [fst]. apply (f_equal fst) in Es. cbn [fst] in Es. destruct i as [|i].
  { injection Hi as -> ->. exists (Ok (ct, h, v)). split; [done|]. unfold sealed_as. rewrite Z.add_0_r, (proj2 (Z.ltb_lt v _)) by lia. exists ct, h. split_and!; [done..|]. by apply seal_then_open. }
  cbn [lookup list_lookup] in Hi |- *. destruct (Z.eqb_spec v 4294967295) as [-> | Hne].
  - rewrite seal_all_exhausted in Es by done. subst rs. exists (Err ErrIVExhausted). split; [apply lookup_replicate; split; [done|by eapply lookup_lt_Some]|]. unfold sealed_as. by rewrite (proj2 (Z.ltb_ge _ _)) by lia.
  - assert (Ev : u32 (v + 1) = v + 1) by (apply u32_id; unfold in_u32; lia). rewrite Ev in Es. change (_ <| s_iv := v + 1 |>) with (mkSealer mode pw kb nonce4 (v + 1) false) in Es. subst rs. replace (v + Z.of_nat (S i)) with (v + 1 + Z.of_nat i) by lia.
    apply IH; [unfold in_u32; lia|done..].
Qed.

(** C30: One epoch of the sealer.  In each of the three authenticated modes, under a nonzero epoch nonce of four bytes and the key PBKDF2 makes of a non-empty passphrase (cut at a zero byte and at the length limit) with that nonce as the salt,
    the packets sealed carry the IV fields startIV, startIV + 1, ... up to 2^32 - 1, and every later call is refused.  What leaves for each is the cipher of its mode applied to the plaintext under that key:
    for AES-GCM and ChaCha20-Poly1305 with the nonce made of the epoch's nonce, the IV field and four zero bytes, for AES-CTR with HMAC counter mode from the IV field and the first 16 bytes of an HMAC, under a key
    of its own, over the associated data and the ciphertext.  Each packet opens at the receiver to its plaintext; and an AEAD nonce names its epoch and its IV field, so none
    repeats within an epoch or across epochs. *)
Theorem aead_sealer_epoch mode pw kb nonce4 key startIV ps : authenticated mode -> isZeroNonce nonce4 = false -> epoch_key mode pw nonce4 kb key ->
  in_u32 startIV -> Forall (fun ap => is_bytes ap.2) ps ->
  (forall i aad p, ps !! i = Some (aad, p) -> exists r, (seal_all pbkdf2 aes hmacSHA256 gcm chacha ps (NewAdvancedSealer mode pw kb nonce4 startIV)).1 !! i = Some r /\ sealed_as mode pw kb nonce4 key (startIV + Z.of_nat i) aad p r) /\
  (forall nonce4' iv iv', zlen nonce4' = 4 -> in_u32 iv -> in_u32 iv' -> aeadNonce nonce4 iv = aeadNonce nonce4' iv' -> nonce4 = nonce4' /\ iv = iv').
Proof.
  intros Hm Hn Hk%epoch_key_derived Hv Hps. split; [by eapply seal_all_ivs|]. intros nonce4' iv iv' H4 Hi Hi'. apply aeadNonce_inj; [|done..]. by destruct (deriveAEADKey_len _ _ _ _ _ Hk).
Qed.
End sealer.
End theory.

(** ** Concrete instances *)

(** A checksum in place of the tag. *)
Definition demo_tag (b : bytes) : bytes := replicate 16 (fold_left Z.add b 0 mod 256).
Definition demo_aead : AEAD := {|
  Seal key nonce pt aad := pt ++ demo_tag (key ++ nonce ++ pt ++ aad);
  Open key nonce ct aad := let pt := take (length ct - 16) ct in if bool_decide (ct = pt ++ demo_tag (key ++ nonce ++ pt ++ aad)) then Some pt else None |}.
Definition demo_hmac (key data : bytes) : bytes := replicate 32 (fold_left Z.add (key ++ data) 0 mod 256).

#[export] Instance demo_aead_laws : AEADLaws demo_aead.
Proof.
  split; cbn [Seal Open demo_aead].
  - intros key nonce p aad _. rewrite (take_app_length' p) by (rewrite length_app; cbn; lia). by rewrite bool_decide_eq_true_2.
  - intros key nonce ct aad p _. destruct (bool_decide_reflect (ct = take (length ct - 16) ct ++ demo_tag (key ++ nonce ++ take (length ct - 16) ct ++ aad))) as [E|]; [|done]. intros [= Hp]. rewrite Hp in E. exact E.
  - intros. rewrite zlen_app. unfold demo_tag. rewrite zlen_replicate. lia.
Qed.
Lemma demo_hmac_len key data : zlen (demo_hmac key data) = 32.
Proof. unfold demo_hmac. by rewrite zlen_replicate. Qed.
Lemma demo_key_len pw salt n key : 0 <= n -> demo_pbkdf2 pw salt n = Some key -> zlen key = n.
Proof. intros Hn [= <-]. rewrite zlen_replicate. lia. Qed.

(** A sealed packet opens; with a byte of its associated data changed it does not, whatever the plaintext. *)
Lemma aead_open_exact_witness :
  let seal := SealAdvanced demo_pbkdf2 demo_aes demo_hmac demo_aead demo_aead in let open := OpenAdvanced demo_pbkdf2 demo_aes demo_hmac demo_aead demo_aead in
  exists ct hash, seal 3 [115] 256 [1; 2; 3; 4] 7 [9] [10; 20; 30] = Ok (ct, hash) /\ open 3 [115] 256 [1; 2; 3; 4] 7 [9] ct hash = Ok [10; 20; 30] /\ open 3 [115] 256 [1; 2; 3; 4] 7 [8] ct hash <> Ok [10; 20; 30].
Proof.
  intros seal open. destruct (seal 3 [115] 256 [1; 2; 3; 4] 7 [9] [10; 20; 30]) as [[ct hash]|e|] eqn:E; [|vm_compute in E; discriminate E..]. exists ct, hash.
  assert (Hb : is_bytes ct /\ is_bytes hash /\ zlen hash = HashSize) by (vm_compute in E; injection E as <- <-; split_and!; [repeat constructor; done..|reflexivity]). destruct Hb as (Hct & Hh & Hz). split_and!; [done| |].
  - apply (aead_open_exact demo_pbkdf2 demo_aes demo_hmac demo_aead demo_aead demo_aes_len demo_hmac_len); [repeat constructor; done|done..].
  - intros Ho. apply (aead_open_exact demo_pbkdf2 demo_aes demo_hmac demo_aead demo_aead demo_aes_len demo_hmac_len) in Ho; [|repeat constructor; done|done..]. revert Ho. rewrite <-E. vm_compute. discriminate.
Defined.

(** The last IV field of an epoch, and the call after it. *)
Lemma aead_sealer_epoch_witness :
  let rs := (seal_all demo_pbkdf2 demo_aes demo_hmac demo_aead demo_aead [([9], [10; 20]); ([9], [10; 20])] (NewAdvancedSealer 4 [115] 128 [1; 2; 3; 4] 4294967295)).1 in
  (exists ct h, rs !! 0%nat = Some (Ok (ct, h, 4294967295))) /\ rs !! 1%nat = Some (Err ErrIVExhausted).
Proof.
  intros rs. destruct (demo_pbkdf2 (boundPassword [115]) [1; 2; 3; 4] (128 / 8)) as [key|] eqn:Ek; [|vm_compute in Ek; discriminate Ek].
  assert (Hps : Forall (fun ap : bytes * bytes => is_bytes ap.2) [([9], [10; 20]); ([9], [10; 20])]) by (repeat constructor; done).
  destruct (aead_sealer_epoch demo_pbkdf2 demo_aes demo_hmac demo_aead demo_aead demo_aes_len demo_hmac_len demo_key_len 4 [115] 128 [1; 2; 3; 4] key 4294967295 _ (or_intror (or_introl eq_refl)) eq_refl ltac:(split_and!; done) ltac:(unfold in_u32; lia) Hps) as [H _].
  destruct (H 0%nat _ _ eq_refl) as (r0 & E0 & ct & h & -> & _). destruct (H 1%nat _ _ eq_refl) as (r1 & E1 & H1). split; [by exists ct, h|]. etransitivity; [exact E1|]. f_equal. exact H1.
Defined.
End aead.
