(* ===== verification/Bonding.v ===== *)
(** * Link bonding: path management of src/internal/bonding/bonding.go

    The paths bonded onto one flow: their liveness and RTT, the choice of the path a NACK goes out on, the duplicate fan-out and the
    weighted rotation.  The group owns its paths; an update through a [*Path] is an update of the element of the list. *)

From S2P Require Import Prelude Bytes Clock Rtt.

Module bonding.

Definition WeightDuplicate : Z := 0.

Record Path := mkPath {
  Index : Z; Weight : Z; Priority : Z; wCount : Z; p_rtt : Estimator; lastSeen : Z; seen : bool; dead : bool;
  recvPkts : Z; recvBytes : Z; sentPkts : Z; sentBytes : Z; retxPkts : Z; retxBytes : Z }.
#[export] Instance eta_Path : Eta Path := fun p =>
  mkPath (Index p) (Weight p) (Priority p) (wCount p) (p_rtt p) (lastSeen p) (seen p) (dead p)
    (recvPkts p) (recvBytes p) (sentPkts p) (sentBytes p) (retxPkts p) (retxBytes p).

Record Group := mkGroup { paths : list Path; timeout : Z; dupGrace : Z; g_rttMin : Z; g_rttMax : Z }.
#[export] Instance eta_Group : Eta Group := fun g => mkGroup (paths g) (timeout g) (dupGrace g) (g_rttMin g) (g_rttMax g).

Record PathStats := mkPathStats {
  ps_Index : Z; ps_RTT : Z; ps_Alive : bool; ps_Weight : Z; ps_Priority : Z;
  ps_RecvPkts : Z; ps_RecvBytes : Z; ps_SentPkts : Z; ps_SentBytes : Z; ps_RetransmittedPkts : Z; ps_RetransmittedBytes : Z }.

Definition NewGroup (sessionTimeout dupGrace rttMin rttMax : Z) : Group := mkGroup [] sessionTimeout dupGrace rttMin rttMax.

Definition RTT (p : Path) (g : Group) : Z := Estimator.Clamped (p_rtt p) (g_rttMin g) (g_rttMax g).
Definition nackRTT (p : Path) (g : Group) : Z := Estimator.LastClamped (p_rtt p) (g_rttMin g) (g_rttMax g).

(** ** Registration *)

(** [g.path(index)]: the first path with the index. *)
Fixpoint find_path (index : Z) (ps : list Path) : option Path :=
  match ps with [] => None | p :: ps => if Index p =? index then Some p else find_path index ps end.
Definition path (g : Group) (index : Z) : option Path := find_path index (paths g).

(** An update through that pointer. *)
Fixpoint update_path (index : Z) (f : Path -> Path) (ps : list Path) : list Path :=
  match ps with [] => [] | p :: ps => if Index p =? index then f p :: ps else p :: update_path index f ps end.

Definition new_path (index weight priority rttMin : Z) : Path :=
  mkPath index weight priority weight (rtt_New rttMin) 0 false false 0 0 0 0 0 0.

Definition AddPath (index weight priority : Z) (g : Group) : Group :=
  match path g index with
  | Some _ => g <| paths ::= update_path index (fun p => p <| Weight := weight |> <| Priority := priority |> <| wCount := weight |>) |>
  | None => g <| paths ::= fun ps => ps ++ [new_path index weight priority (g_rttMin g)] |>
  end.

Fixpoint remove_path (index : Z) (ps : list Path) : option (list Path) :=
  match ps with
  | [] => None
  | p :: ps => if Index p =? index then Some ps else ps' ← remove_path index ps; Some (p :: ps')
  end.
Definition RemovePath (index : Z) (g : Group) : bool * Group :=
  match remove_path index (paths g) with Some ps => (true, g <| paths := ps |>) | None => (false, g) end.

Definition HasPath (g : Group) (index : Z) : bool := match path g index with Some _ => true | None => false end.

(** ** Observations and counters *)

Definition Observe (index now : Z) (g : Group) : Group :=
  g <| paths ::= update_path index (fun p => p <| seen := true |> <| lastSeen := now |> <| dead := false |>) |>.

Definition ObserveRTT (index sample : Z) (g : Group) : Group :=
  g <| paths ::= update_path index (fun p => p <| p_rtt ::= fun e => Estimator.Observe e sample |>) |>.

Definition CountRecv (index bytes : Z) (g : Group) : Group :=
  g <| paths ::= update_path index (fun p => p <| recvPkts ::= fun n => u64 (n + 1) |> <| recvBytes ::= fun n => u64 (n + u64 bytes) |>) |>.

Definition CountSent (index bytes : Z) (retransmit : bool) (g : Group) : Group :=
  g <| paths ::= update_path index (fun p =>
    if retransmit then p <| retxPkts ::= fun n => u64 (n + 1) |> <| retxBytes ::= fun n => u64 (n + u64 bytes) |>
    else p <| sentPkts ::= fun n => u64 (n + 1) |> <| sentBytes ::= fun n => u64 (n + u64 bytes) |>) |>.

(** ** Liveness *)

Definition alive_path (g : Group) (p : Path) (now : Z) : bool := seen p && (Timestamp.Sub now (lastSeen p) <=? timeout g).

Definition Alive (g : Group) (index now : Z) : bool :=
  match path g index with None => false | Some p => seen p && (Timestamp.Sub now (lastSeen p) <=? timeout g) end.

Definition PeerSnapshots (g : Group) (now : Z) : list PathStats :=
  (fun p => mkPathStats (Index p) (Estimator.Clamped (p_rtt p) (g_rttMin g) (g_rttMax g)) (seen p && (Timestamp.Sub now (lastSeen p) <=? timeout g))
     (Weight p) (Priority p) (recvPkts p) (recvBytes p) (sentPkts p) (sentBytes p) (retxPkts p) (retxBytes p)) <$> paths g.

(** The loop of Tick: the indices that died and the paths. *)
Fixpoint tick_paths (now timeout : Z) (ps : list Path) : list Z * list Path :=
  match ps with
  | [] => ([], [])
  | p :: ps =>
      let '(died, ps) := tick_paths now timeout ps in
      if negb (seen p) || dead p then (died, p :: ps)
      else if timeout <? Timestamp.Sub now (lastSeen p) then (Index p :: died, p <| dead := true |> :: ps)
      else (died, p :: ps)
  end.
Definition Tick (now : Z) (g : Group) : list Z * Group :=
  let '(died, ps) := tick_paths now (timeout g) (paths g) in (died, g <| paths := ps |>).

(** ** NACK routing *)

Definition preferred (cand best : Path) (g : Group) : bool :=
  if negb (Priority cand =? Priority best) then Priority best <? Priority cand else nackRTT cand g <? nackRTT best g.

(** The loop that keeps the best candidate so far. *)
Fixpoint pick (ok : Path -> bool) (better : Path -> Path -> bool) (ps : list Path) (best : option Path) : option Path :=
  match ps with
  | [] => best
  | p :: ps =>
      let best := if ok p then match best with None => Some p | Some b => if better p b then Some p else Some b end else best in
      pick ok better ps best
  end.

Definition usable (addrKnown : option (Z -> bool)) (p : Path) : bool := match addrKnown with None => true | Some f => f (Index p) end.

Definition SelectNackPath (now : Z) (addrKnown : option (Z -> bool)) (g : Group) : Z * bool :=
  match pick (fun p => Alive g (Index p) now && usable addrKnown p) (fun p b => preferred p b g) (paths g) None with
  | Some best => (Index best, true)
  | None =>
      match pick (fun p => seen p && usable addrKnown p) (fun p b => Timestamp.After (lastSeen p) (lastSeen b)) (paths g) None with
      | Some best => (Index best, true)
      | None => (0, false)
      end
  end.

(** ** Sending *)

Definition liveWithin (p : Path) (now window : Z) : bool := negb (seen p && (window <? Timestamp.Sub now (lastSeen p))).
Definition sendable (g : Group) (p : Path) (now : Z) : bool := liveWithin p now (timeout g).
Definition duplicable (g : Group) (p : Path) (now : Z) : bool := liveWithin p now (i64 (timeout g + dupGrace g)).

Definition ShouldDuplicate (g : Group) (index now : Z) : bool :=
  match path g index with
  | None => false
  | Some p => if negb (Weight p =? WeightDuplicate) then false else duplicable g p now
  end.

Definition DuplicateTargets (g : Group) (now : Z) : list Z :=
  Index <$> List.filter (fun p => (Weight p =? WeightDuplicate) && duplicable g p now) (paths g).

Definition HasWeighted (g : Group) : bool := existsb (fun p => 0 <? Weight p) (paths g).

(** The live weighted path with the most credit, by position. *)
Fixpoint best_from (g : Group) (now : Z) (k : nat) (ps : list Path) (best : option (nat * Path)) : option (nat * Path) :=
  match ps with
  | [] => best
  | p :: ps =>
      let best :=
        if (Weight p <=? 0) || negb (sendable g p now) then best
        else match best with None => Some (k, p) | Some (j, b) => if wCount b <? wCount p then Some (k, p) else best end in
      best_from g now (S k) ps best
  end.
Definition bestWeighted (g : Group) (now : Z) : option (nat * Path) := best_from g now 0 (paths g) None.

Definition refill (now : Z) (g : Group) : Group :=
  g <| paths ::= fmap (fun p => if (0 <? Weight p) && sendable g p now then p <| wCount := Weight p |> else p) |>.

Definition spend (k : nat) (g : Group) : Group := g <| paths ::= alter (fun p => p <| wCount ::= fun n => n - 1 |>) k |>.

Definition SelectWeighted (now : Z) (g : Group) : (Z * bool) * Group :=
  if negb (HasWeighted g) then ((0, false), g) else
  match bestWeighted g now with
  | None => ((0, false), g)
  | Some (k, best) =>
      let g := if wCount best <=? 0 then refill now g else g in
      match (if wCount best <=? 0 then bestWeighted g now else Some (k, best)) with
      | None => ((0, false), g)
      | Some (k, best) => ((Index best, true), spend k g)
      end
  end.

Definition SetWeight (index weight : Z) (g : Group) : Group :=
  match path g index with
  | None => g
  | Some _ => g <| paths ::= fun ps => (fun q => q <| wCount := Weight q |>) <$> update_path index (fun p => p <| Weight := weight |>) ps |>
  end.

(** ** Well-formed groups *)

(** No two paths share an index. *)
Definition wf (g : Group) : Prop := NoDup (Index <$> paths g).

Lemma update_path_index i f ps : (forall p, Index (f p) = Index p) -> Index <$> update_path i f ps = Index <$> ps.
Proof. intros Hf. induction ps as [|p ps IH]; [done|]. cbn. destruct (Index p =? i); cbn; [by rewrite Hf|by rewrite IH]. Qed.

Lemma find_path_spec i ps p : NoDup (Index <$> ps) -> p ∈ ps -> Index p = i -> find_path i ps = Some p.
Proof.
  intros Hn. revert Hn. induction ps as [|q ps IH]; intros Hn Hp Hi; [by apply elem_of_nil in Hp|]. cbn. inversion Hn as [|? ? Hq Hn']; subst.
  apply elem_of_cons in Hp as [->|Hp]; [by rewrite Z.eqb_refl|]. destruct (Z.eqb_spec (Index q) (Index p)) as [E|_]; [|by apply IH].
  exfalso. apply Hq. cbn. rewrite E. by apply list_elem_of_fmap_2.
Qed.

Lemma find_path_None i ps : find_path i ps = None -> i ∉ Index <$> ps.
Proof.
  induction ps as [|q ps IH]; [intros _ H; by apply elem_of_nil in H|]. cbn. destruct (Z.eqb_spec (Index q) i); [done|].
  intros E. rewrite not_elem_of_cons. split; [done|by apply IH].
Qed.

Lemma remove_path_spec i ps ps' : remove_path i ps = Some ps' -> exists p l k, ps = l ++ p :: k /\ Index p = i /\ ps' = l ++ k.
Proof.
  revert ps'. induction ps as [|q ps IH]; intros ps'; cbn; [done|]. destruct (Z.eqb_spec (Index q) i).
  - intros [= <-]. by exists q, [], ps.
  - destruct (remove_path i ps) as [qs|]; cbn; [|done]. intros [= <-]. destruct (IH qs eq_refl) as (p & l & k & -> & ? & ->). by exists p, (q :: l), k.
Qed.

Lemma tick_paths_index now t ps : Index <$> (tick_paths now t ps).2 = Index <$> ps.
Proof.
  induction ps as [|p ps IH]; [done|]. cbn. destruct (tick_paths now t ps) as [died qs]. cbn in IH.
  destruct (negb (seen p) || dead p); [cbn; by rewrite IH|]. destruct (t <? _); cbn; by rewrite IH.
Qed.
(** ** The calls of the host *)

Inductive call :=
  | CAddPath (index weight priority : Z) | CRemovePath (index : Z) | CObserve (index now : Z) | CObserveRTT (index sample : Z)
  | CCountRecv (index bytes : Z) | CCountSent (index bytes : Z) (retransmit : bool) | CTick (now : Z) | CSelectWeighted (now : Z) | CSetWeight (index weight : Z).

(** The state after a call, and the deaths it reports. *)
Definition exec (c : call) (g : Group) : list Z * Group :=
  match c with
  | CAddPath i w p => ([], AddPath i w p g)
  | CRemovePath i => ([], snd (RemovePath i g))
  | CObserve i now => ([], Observe i now g)
  | CObserveRTT i s => ([], ObserveRTT i s g)
  | CCountRecv i b => ([], CountRecv i b g)
  | CCountSent i b r => ([], CountSent i b r g)
  | CTick now => Tick now g
  | CSelectWeighted now => ([], snd (SelectWeighted now g))
  | CSetWeight i w => ([], SetWeight i w g)
  end.

Fixpoint exec_all (cs : list call) (g : Group) : list Z * Group :=
  match cs with [] => ([], g) | c :: cs => let '(d1, g) := exec c g in let '(d2, g) := exec_all cs g in (d1 ++ d2, g) end.

(** A call changes the paths one by one: the relation between what a path was and what it is. *)
Definition steps (R : Path -> Path -> Prop) (g g' : Group) : Prop := Forall2 R (paths g) (paths g').

Lemma Forall2_same {A} (R : A -> A -> Prop) l : (forall x, R x x) -> Forall2 R l l.
Proof. intros H. induction l; constructor; auto. Qed.

Lemma Forall2_trans_of {A} (R : A -> A -> Prop) l k m : (forall p q r, R p q -> R q r -> R p r) -> Forall2 R l k -> Forall2 R k m -> Forall2 R l m.
Proof. intros Ht H. revert m. induction H; intros m Hm; inversion Hm; subst; constructor; eauto. Qed.

Lemma update_path_steps (R : Path -> Path -> Prop) i f ps : (forall p, R p p) -> (forall p, Index p = i -> R p (f p)) -> Forall2 R ps (update_path i f ps).
Proof.
  intros Hr Hf. induction ps as [|p ps IH]; cbn; [constructor|]. destruct (Z.eqb_spec (Index p) i); constructor; auto. by apply Forall2_same.
Qed.

Lemma spend_steps (R : Path -> Path -> Prop) k g : (forall p, R p p) -> (forall p, R p (p <| wCount ::= fun n => n - 1 |>)) -> steps R g (spend k g).
Proof.
  intros Hr Hf. unfold steps, spend. cbn. generalize (paths g). clear g. induction k as [|k IH]; intros [|p ps]; cbn; try (by constructor); constructor; auto.
  by apply Forall2_same.
Qed.

Lemma SelectWeighted_steps (R : Path -> Path -> Prop) now g : (forall p, R p p) -> (forall p q r, R p q -> R q r -> R p r) -> (forall p n, R p (p <| wCount := n |>)) ->
  steps R g (SelectWeighted now g).2.
Proof.
  intros Hr Ht Hw. unfold SelectWeighted. destruct (negb (HasWeighted g)); [by apply Forall2_same|]. destruct (bestWeighted g now) as [[k b]|]; [|by apply Forall2_same].
  assert (Hf : steps R g (refill now g)).
  { unfold steps, refill. cbn. induction (paths g) as [|p ps IH]; cbn; constructor; [|done]. by destruct ((0 <? Weight p) && sendable g p now). }
  assert (Hs : forall k g1, steps R g1 (spend k g1)) by (intros; apply spend_steps; [done|intros; apply Hw]).
  destruct (wCount b <=? 0).
  - destruct (bestWeighted (refill now g) now) as [[k' b']|]; cbn [snd]; [|done]. eapply Forall2_trans_of; [done|exact Hf|apply Hs].
  - apply Hs.
Qed.

Lemma steps_index g g' : steps (fun p q => Index q = Index p) g g' -> Index <$> paths g' = Index <$> paths g.
Proof. unfold steps. induction 1 as [|p q ps qs Hpq _ IH]; [done|]. cbn. by rewrite Hpq, IH. Qed.

Lemma wf_exec c g : wf g -> wf (exec c g).2.
Proof.
  unfold wf. intros Hg. destruct c; cbn [exec snd].
  - unfold AddPath. destruct (path g index) eqn:E; cbn; [by rewrite update_path_index|]. rewrite fmap_app. apply NoDup_app. split; [done|]. cbn.
    apply find_path_None in E. split; [|by apply NoDup_singleton]. intros i Hi Hc. apply list_elem_of_singleton in Hc as ->. done.
  - unfold RemovePath. destruct (remove_path index (paths g)) as [ps|] eqn:E; cbn; [|done]. destruct (remove_path_spec _ _ _ E) as (p & l & k & Hps & _ & ->).
    rewrite Hps in Hg. rewrite fmap_app in *. cbn in Hg. apply NoDup_app in Hg as (H1 & H2 & H3). inversion H3; subst. apply NoDup_app. split_and!; [done| |done].
    intros x Hx Hy. apply (H2 x Hx). by right.
  - cbn. by rewrite update_path_index.
  - cbn. by rewrite update_path_index.
  - cbn. by rewrite update_path_index.
  - cbn. rewrite update_path_index; [done|]. by intros; destruct retransmit.
  - unfold Tick. pose proof (tick_paths_index now (timeout g) (paths g)) as E. destruct (tick_paths _ _ _) as [d ps]. cbn in *. by rewrite E.
  - rewrite (steps_index g); [done|]. apply SelectWeighted_steps; [done|congruence|done].
  - unfold SetWeight. destruct (path g index); [|done]. cbn. rewrite <-list_fmap_compose. erewrite list_fmap_ext; [by rewrite update_path_index|]. done.
Qed.

(** ** Deaths are reported once *)

(** The path with index [i], if it is there, cannot be reported: it was never seen or is known dead. *)
Definition silenced (i : Z) (p : Path) : Prop := Index p = i -> seen p = false \/ dead p = true.
Definition quiet (i : Z) (g : Group) : Prop := Forall (silenced i) (paths g).

Lemma Forall_steps (P : Path -> Prop) ps qs : Forall2 (fun p q => P p -> P q) ps qs -> Forall P ps -> Forall P qs.
Proof. induction 1 as [|p q ps qs Hpq _ IH]; intros H'; inversion H'; subst; constructor; auto. Qed.

Lemma tick_paths_quiet i now t ps : NoDup (Index <$> ps) ->
  Forall (silenced i) ps \/ i ∈ (tick_paths now t ps).1 -> Forall (silenced i) (tick_paths now t ps).2.
Proof.
  induction ps as [|p ps IH]; intros Hn H; cbn; [constructor|]. inversion Hn as [|? ? Hp Hn']; subst. cbn in H.
  destruct (tick_paths now t ps) as [died qs] eqn:E. cbn in IH. assert (Hidx : Index <$> qs = Index <$> ps) by (pose proof (tick_paths_index now t ps) as H'; by rewrite E in H').
  assert (Hdied : forall x, x ∈ died -> x ∈ Index <$> ps).
  { clear -E. revert died qs E. induction ps as [|q ps IH']; intros died qs E; cbn in E; [injection E as <- <-; intros x Hx; by apply elem_of_nil in Hx|].
    destruct (tick_paths now t ps) as [d1 q1]. specialize (IH' d1 q1 eq_refl). destruct (negb (seen q) || dead q); [injection E as <- <-; intros x Hx; right; by apply IH'|].
    destruct (t <? _); injection E as <- <-; intros x Hx; [apply elem_of_cons in Hx as [->|Hx]; [by left|right; by apply IH']|right; by apply IH']. }
  assert (Hself : Index p = i -> i ∉ died -> Forall (silenced i) qs).
  { intros <- _. apply Forall_forall. intros q Hq Hqi. exfalso. apply Hp. change (Index p ∈ Index <$> ps). rewrite <-Hidx, <-Hqi. by apply list_elem_of_fmap_2. }
  destruct (negb (seen p) || dead p) eqn:Ep.
  - assert (Hsil : silenced i p) by (intros _; apply orb_true_iff in Ep as [Ep|Ep]; [left; by apply negb_true_iff|by right]).
    cbn in *. constructor; [done|]. apply IH; [done|]. destruct H as [H|H]; [left; by inversion H|by right].
  - apply orb_false_iff in Ep as [Es Ed]. apply negb_false_iff in Es. destruct (t <? _); cbn in *.
    + constructor; [intros _; by right|]. destruct H as [H|H]; [apply IH; [done|left; by inversion H]|].
      apply elem_of_cons in H as [-> |H]; [|apply IH; [done|by right]]. apply Hself; [done|]. intros Hd. by apply Hp, Hdied.
    + destruct H as [H|H].
      * inversion H; subst. constructor; [done|]. apply IH; [done|by left].
      * constructor; [|apply IH; [done|by right]]. intros Hpi. exfalso. apply Hp. rewrite Hpi. by apply Hdied.
Qed.

Lemma tick_paths_silenced i now t ps : Forall (silenced i) ps -> i ∉ (tick_paths now t ps).1.
Proof.
  induction 1 as [|p ps Hp _ IH]; [intros Hx; by apply elem_of_nil in Hx|]. cbn. destruct (tick_paths now t ps) as [died qs]. cbn in IH.
  destruct (negb (seen p) || dead p) eqn:Ep; [done|]. apply orb_false_iff in Ep as [Es Ed]. apply negb_false_iff in Es.
  destruct (t <? _); cbn; [|done]. rewrite not_elem_of_cons. split; [|done]. intros ->. destruct (Hp eq_refl); congruence.
Qed.

(** Once quiet, a path stays quiet until it is observed. *)
Lemma quiet_exec i c g : wf g -> (forall now, c <> CObserve i now) -> quiet i g -> quiet i (exec c g).2 /\ i ∉ (exec c g).1.
Proof.
  intros Hw Hc Hq. assert (Hnil : i ∉ @nil Z) by (intros Hx; by apply elem_of_nil in Hx). unfold quiet in *. destruct c; cbn [exec fst snd]; (split; [|try exact Hnil]).
  - unfold AddPath. destruct (path g index); cbn; [eapply Forall_steps; [|exact Hq]; by apply update_path_steps|]. apply Forall_app. split; [done|].
    constructor; [|constructor]. intros _. by left.
  - unfold RemovePath. destruct (remove_path index (paths g)) as [ps|] eqn:E; cbn; [|done]. destruct (remove_path_spec _ _ _ E) as (p & l & k & Hps & _ & ->).
    rewrite Hps in Hq. apply Forall_app in Hq as [H1 H2]. inversion H2; subst. by apply Forall_app.
  - cbn. eapply Forall_steps; [|exact Hq]. apply update_path_steps; [done|]. intros p Hp _ Hi. cbn in Hi. exfalso. apply (Hc now). congruence.
  - cbn. eapply Forall_steps; [|exact Hq]. by apply update_path_steps.
  - cbn. eapply Forall_steps; [|exact Hq]. by apply update_path_steps.
  - cbn. eapply Forall_steps; [|exact Hq]. apply update_path_steps; [done|]. by intros; destruct retransmit.
  - unfold Tick. pose proof (tick_paths_quiet i now (timeout g) (paths g) Hw (or_introl Hq)) as H. destruct (tick_paths _ _ _). exact H.
  - unfold Tick. pose proof (tick_paths_silenced i now (timeout g) (paths g) Hq) as H. destruct (tick_paths _ _ _). exact H.
  - eapply Forall_steps; [|exact Hq]. apply SelectWeighted_steps; [done|by auto|done].
  - unfold SetWeight. destruct (path g index); cbn; [|done]. apply Forall_fmap. eapply Forall_impl; [|intros q Hq'; exact Hq'].
    eapply Forall_steps; [|exact Hq]. by apply update_path_steps.
Qed.

Lemma quiet_exec_all i cs g : wf g -> (forall now, CObserve i now ∉ cs) -> quiet i g -> i ∉ (exec_all cs g).1.
Proof.
  revert g. induction cs as [|c cs IH]; intros g Hw Hc Hq; cbn; [intros Hx; by apply elem_of_nil in Hx|].
  destruct (quiet_exec i c g Hw) as [Hq' Hn]; [intros now ->; apply (Hc now); by left|done|]. pose proof (wf_exec c g Hw) as Hw'. destruct (exec c g) as [d1 g1]. cbn in *.
  specialize (IH g1 Hw'). destruct (exec_all cs g1) as [d2 g2]. cbn in *. rewrite not_elem_of_app. split; [done|]. apply IH; [|done]. intros now Hin. apply (Hc now). by right.
Qed.

Lemma tick_paths_died i now t ps : i ∈ (tick_paths now t ps).1 ->
  exists p, p ∈ ps /\ Index p = i /\ seen p = true /\ dead p = false /\ t < Timestamp.Sub now (lastSeen p).
Proof.
  induction ps as [|q ps IH]; cbn; [intros H; by apply elem_of_nil in H|]. destruct (tick_paths now t ps) as [died qs]. cbn in IH.
  assert (Hrest : i ∈ died -> exists p, p ∈ q :: ps /\ Index p = i /\ seen p = true /\ dead p = false /\ t < Timestamp.Sub now (lastSeen p)).
  { intros H. destruct (IH H) as (p & Hp & ?). exists p. split; [by right|done]. }
  destruct (negb (seen q) || dead q) eqn:Ep; [done|]. apply orb_false_iff in Ep as [Es Ed]. apply negb_false_iff in Es.
  destruct (Z.ltb_spec t (Timestamp.Sub now (lastSeen q))); [|done]. cbn. intros [-> |H']%elem_of_cons; [|by apply Hrest]. exists q. split; [by left|done].
Qed.

Lemma wf_exec_all cs g : wf g -> wf (exec_all cs g).2.
Proof.
  revert g. induction cs as [|c cs IH]; intros g Hg; [done|]. cbn. pose proof (wf_exec c g Hg) as H. destruct (exec c g) as [d1 g1].
  specialize (IH g1 H). by destruct (exec_all cs g1).
Qed.

Lemma wf_NewGroup t d lo hi : wf (NewGroup t d lo hi).
Proof. apply NoDup_nil_2. Qed.

Lemma Alive_wf g p now : wf g -> p ∈ paths g -> Alive g (Index p) now = alive_path g p now.
Proof. intros Hw Hp. unfold Alive, path. by rewrite (find_path_spec (Index p) (paths g) p Hw Hp eq_refl). Qed.

(** ** The candidate loops *)

Section pick.
Context (ok : Path -> bool) (better : Path -> Path -> bool).
Context (Hasym : forall p q, better p q = true -> better q p = false).
Context (Hneg : forall p q r, better p q = false -> better q r = false -> better p r = false).

Lemma better_irrefl p : better p p = false.
Proof. destruct (better p p) eqn:E; [|done]. pose proof (Hasym p p E). congruence. Qed.

(** What the loop returns: the start or an eligible candidate, beaten by neither. *)
Lemma pick_some ps best b : pick ok better ps best = Some b ->
  (best = Some b \/ b ∈ ps /\ ok b = true) /\ (forall a, best = Some a -> better a b = false) /\ (forall q, q ∈ ps -> ok q = true -> better q b = false).
Proof.
  revert best. induction ps as [|p ps IH]; intros best; cbn.
  - intros ->. split; [by left|]. split; [intros a [= ->]; apply better_irrefl|]. intros q Hq. by apply elem_of_nil in Hq.
  - remember (if ok p then _ else best) as best' eqn:E.
    assert (Hp : ok p = true -> best' = Some p \/ exists b0, best' = Some b0 /\ better p b0 = false).
    { intros Hok. rewrite Hok in E. destruct best as [b0|]; [destruct (better p b0) eqn:Eb|]; [by left|right; by exists b0|by left]. }
    assert (Hb : best' = best \/ ok p = true /\ best' = Some p /\ forall a, best = Some a -> better a p = false).
    { destruct (ok p); [|by left]. destruct best as [b0|]; [destruct (better p b0) eqn:Eb|]; [right|by left|right]; (split; [done|split; [done|]]); [|done].
      intros a [= <-]. by apply Hasym. }
    clear E. intros (H1 & H2 & H3)%IH. split; [|split].
    + destruct Hb as [-> |(Hok & -> & _)].
      * destruct H1 as [?|[? ?]]; [by left|right; split; [by right|done]].
      * right. destruct H1 as [[= ->]|[? ?]]; [split; [by left|done]|split; [by right|done]].
    + intros a Ha. destruct Hb as [-> |(Hok & -> & Hbeat)]; [by apply H2|]. apply (Hneg a p b); [by apply Hbeat|by apply H2].
    + intros q [-> |Hq]%elem_of_cons Hok; [|by apply H3]. destruct (Hp Hok) as [-> |(b0 & -> & Hb0)]; [by apply H2|]. apply (Hneg p b0 b); [done|by apply H2].
Qed.

Lemma pick_none ps best : pick ok better ps best = None -> best = None /\ forall q, q ∈ ps -> ok q = false.
Proof.
  revert best. induction ps as [|p ps IH]; intros best; cbn; [intros ->; split; [done|intros q Hq; by apply elem_of_nil in Hq]|].
  intros [H1 H2]%IH. destruct (ok p) eqn:Ep; [by destruct best as [b|]; [destruct (better p b)|]|].
  split; [done|]. intros q [-> |Hq]%elem_of_cons; [done|by apply H2].
Qed.
End pick.

Lemma preferred_asym g p q : preferred p q g = true -> preferred q p g = false.
Proof. unfold preferred. destruct (Z.eqb_spec (Priority p) (Priority q)), (Z.eqb_spec (Priority q) (Priority p)); cbn; intros; case_cmp; lia. Qed.

Lemma preferred_neg g p q r : preferred p q g = false -> preferred q r g = false -> preferred p r g = false.
Proof.
  unfold preferred. destruct (Z.eqb_spec (Priority p) (Priority q)), (Z.eqb_spec (Priority q) (Priority r)), (Z.eqb_spec (Priority p) (Priority r)); cbn;
    rewrite ?Z.ltb_ge; lia.
Qed.

(** ** The weighted rotation *)

(** The paths that take part in the rotation at an instant. *)
Definition active (g : Group) (now : Z) (p : Path) : bool := (0 <? Weight p) && sendable g p now.

Lemma active_skip g now p : (Weight p <=? 0) || negb (sendable g p now) = negb (active g now p).
Proof. unfold active. by rewrite negb_andb, Z.leb_antisym. Qed.

Lemma best_from_some g now n ps best k b : best_from g now n ps best = Some (k, b) ->
  (best = Some (k, b) \/ exists j, k = (n + j)%nat /\ ps !! j = Some b /\ active g now b = true) /\
  (forall j a, best = Some (j, a) -> wCount a <= wCount b) /\ (forall q, q ∈ ps -> active g now q = true -> wCount q <= wCount b).
Proof.
  revert n best. induction ps as [|p ps IH]; intros n best; cbn.
  - intros ->. split; [by left|]. split; [by intros j a [= -> ->]|]. intros q Hq. by apply elem_of_nil in Hq.
  - rewrite active_skip. remember (if negb _ then _ else _) as best' eqn:E.
    assert (Hb : best' = best /\ (active g now p = true -> exists j a, best = Some (j, a) /\ wCount p <= wCount a) \/
      active g now p = true /\ best' = Some (n, p) /\ forall j a, best = Some (j, a) -> wCount a <= wCount p).
    { destruct (active g now p); cbn in E; [|by left]. destruct best as [[j a]|]; [destruct (Z.ltb_spec (wCount a) (wCount p))|].
      - right. split; [done|]. split; [done|]. intros ? ? [= <- <-]. lia.
      - left. split; [done|]. intros _. by exists j, a.
      - by right. }
    clear E. intros (H1 & H2 & H3)%IH.
    assert (Hpos : best' = Some (k, b) -> best' = best \/ k = n /\ b = p) by (destruct Hb as [[-> _]|(_ & -> & _)]; [by left|intros [= <- <-]; by right]).
    split; [|split].
    + destruct H1 as [H1|(j & -> & Hj & Ha)]; [|right; exists (S j); split; [lia|done]]. destruct Hb as [[-> _]|(Hap & -> & _)]; [by left|].
      injection H1 as <- <-. right. exists 0%nat. split; [lia|done].
    + intros j a Ha. destruct Hb as [[-> _]|(_ & -> & Hm)]; [by eapply H2|]. specialize (H2 n p eq_refl). specialize (Hm j a Ha). lia.
    + intros q [-> |Hq]%elem_of_cons Hact; [|by apply H3]. destruct Hb as [[-> Hm]|(_ & -> & _)]; [|by eapply H2].
      destruct (Hm Hact) as (j & a & Ha & Hle). specialize (H2 j a Ha). lia.
Qed.

Lemma best_from_none g now n ps best : best_from g now n ps best = None -> best = None /\ forall q, q ∈ ps -> active g now q = false.
Proof.
  revert n best. induction ps as [|p ps IH]; intros n best; cbn; [intros ->; split; [done|intros q Hq; by apply elem_of_nil in Hq]|].
  rewrite active_skip. intros [H1 H2]%IH. destruct (active g now p) eqn:Ep; cbn in H1.
  - by destruct best as [[j a]|]; [destruct (wCount a <? wCount p)|].
  - split; [done|]. intros q [-> |Hq]%elem_of_cons; [done|by apply H2].
Qed.

Lemma bestWeighted_some g now k b : bestWeighted g now = Some (k, b) ->
  paths g !! k = Some b /\ active g now b = true /\ forall q, q ∈ paths g -> active g now q = true -> wCount q <= wCount b.
Proof. intros H. apply best_from_some in H as ([H|(j & -> & ? & ?)] & _ & H3); [done|]. done. Qed.

Lemma bestWeighted_none g now : bestWeighted g now = None -> forall q, q ∈ paths g -> active g now q = false.
Proof. intros H. by apply best_from_none in H as [_ H]. Qed.

Lemma bestWeighted_is_some g now p : p ∈ paths g -> active g now p = true -> exists k b, bestWeighted g now = Some (k, b).
Proof. intros Hp Ha. destruct (bestWeighted g now) as [[k b]|] eqn:E; [by exists k, b|]. by rewrite (bestWeighted_none g now E p Hp) in Ha. Qed.

Lemma HasWeighted_active g now p : p ∈ paths g -> active g now p = true -> HasWeighted g = true.
Proof.
  intros Hp Ha. apply andb_true_iff in Ha as [Ha _]. unfold HasWeighted. apply existsb_exists. exists p. split; [by apply list_elem_of_In|done].
Qed.

(** With credit left among the active paths, the call elects one that has the most and takes one credit from it. *)
Lemma SelectWeighted_credit g now p : p ∈ paths g -> active g now p = true -> 0 < wCount p ->
  exists k b, paths g !! k = Some b /\ active g now b = true /\ 0 < wCount b /\ SelectWeighted now g = ((Index b, true), spend k g).
Proof.
  intros Hp Ha Hc. destruct (bestWeighted_is_some g now p Hp Ha) as (k & b & E). destruct (bestWeighted_some _ _ _ _ E) as (Hk & Hb & Hmax).
  specialize (Hmax p Hp Ha). exists k, b. split; [done|]. split; [done|]. split; [lia|]. unfold SelectWeighted. rewrite (HasWeighted_active g now p Hp Ha), E. cbn.
  destruct (Z.leb_spec (wCount b) 0); [lia|done].
Qed.

(** Consecutive elections, one per instant. *)
Fixpoint elections (nows : list Z) (g : Group) : list (Z * bool) * Group :=
  match nows with
  | [] => ([], g)
  | now :: nows => let '(e, g) := SelectWeighted now g in let '(es, g) := elections nows g in (e :: es, g)
  end.

(** How many of them chose the path with index [i]. *)
Definition share (i : Z) (es : list (Z * bool)) : Z := Z.of_nat (length (List.filter (fun e => snd e && (fst e =? i)) es)).

Lemma share_cons i e es : share i (e :: es) = (if snd e && (fst e =? i) then 1 else 0) + share i es.
Proof. unfold share. cbn. destruct (snd e && _); cbn [length]; lia. Qed.

Definition total (f : Path -> Z) (act : Path -> bool) (ps : list Path) : Z := foldr (fun p n => (if act p then f p else 0) + n) 0 ps.

Lemma total_cons f act p ps : total f act (p :: ps) = (if act p then f p else 0) + total f act ps.
Proof. done. Qed.

Lemma total_nonneg f act ps : (forall p, p ∈ ps -> act p = true -> 0 <= f p) -> 0 <= total f act ps.
Proof.
  induction ps as [|q ps IH]; intros Hge; [done|]; rewrite total_cons. assert (0 <= total f act ps) by (apply IH; intros p Hp; apply Hge; by right).
  destruct (act q) eqn:E; [|lia]. specialize (Hge q ltac:(by left) E). lia.
Qed.

Lemma total_ge f act ps : (forall p, p ∈ ps -> act p = true -> 0 <= f p) -> forall p, p ∈ ps -> act p = true -> 0 <= f p <= total f act ps.
Proof.
  induction ps as [|q ps IH]; intros Hge p Hp Ha; [by apply elem_of_nil in Hp|].
  assert (Hge' : forall p, p ∈ ps -> act p = true -> 0 <= f p) by (intros; apply Hge; [by right|done]).
  pose proof (total_nonneg f act ps Hge'). pose proof (Hge q ltac:(by left)) as Hq. specialize (IH Hge' p). rewrite total_cons.
  apply elem_of_cons in Hp as [-> |Hp]; [rewrite Ha; specialize (Hq Ha); lia|]. specialize (IH Hp Ha). destruct (act q); [specialize (Hq eq_refl)|]; lia.
Qed.

Lemma total_pos f act ps : 0 < total f act ps -> exists p, p ∈ ps /\ act p = true /\ 0 < f p.
Proof.
  induction ps as [|q ps IH]; intros H; [done|]. rewrite total_cons in H. destruct (act q) eqn:E.
  - destruct (decide (0 < f q)); [exists q; split; [by left|done]|]. destruct IH as (p & Hp & ?); [lia|]. exists p. split; [by right|done].
  - destruct IH as (p & Hp & ?); [lia|]. exists p. split; [by right|done].
Qed.

Lemma total_ext f h act ps : (forall p, p ∈ ps -> act p = true -> f p = h p) -> total f act ps = total h act ps.
Proof.
  induction ps as [|q ps IH]; intros H; [done|]. rewrite !total_cons, IH by (intros; apply H; [by right|done]). destruct (act q) eqn:E; [|done]. by rewrite H by (done || by left).
Qed.

Section rotation.
Context (act : Path -> bool) (Hact : forall p n, act (p <| wCount := n |>) = act p).

Lemma act_update p f : act (p <| wCount ::= f |>) = act p.
Proof. exact (Hact p (f (wCount p))). Qed.

Lemma total_spend k ps b : ps !! k = Some b -> act b = true -> total wCount act (alter (fun p => p <| wCount ::= fun n => n - 1 |>) k ps) = total wCount act ps - 1.
Proof.
  revert k. induction ps as [|p ps IH]; intros [|k] Hk Hb; try done; cbn in Hk; cbn [alter list_alter]; rewrite !total_cons.
  - injection Hk as ->. rewrite act_update, Hb. cbn. lia.
  - rewrite (IH k) by done. lia.
Qed.

(** A path whose credits are all spent. *)
Definition drained (p : Path) : Path := if act p then p <| wCount := 0 |> else p.

Lemma drained_spend (k : nat) (ps : list Path) b : ps !! k = Some b -> act b = true -> drained <$> alter (fun p => p <| wCount ::= fun n => n - 1 |>) k ps = drained <$> ps.
Proof.
  revert k. induction ps as [|p ps IH]; intros [|k] Hk Hb; try done; cbn in *.
  - injection Hk as ->. f_equal. unfold drained. by rewrite act_update, Hb.
  - f_equal. by apply IH.
Qed.

(** As many elections as there are credits choose each active path exactly as often as it has credits. *)
Lemma elections_credits nows g : wf g -> (forall now p, now ∈ nows -> p ∈ paths g -> active g now p = act p) ->
  (forall p, p ∈ paths g -> act p = true -> 0 <= wCount p) -> Z.of_nat (length nows) = total wCount act (paths g) ->
  (forall p, p ∈ paths g -> share (Index p) (elections nows g).1 = if act p then wCount p else 0) /\
  Forall (fun e => snd e = true) (elections nows g).1 /\
  (elections nows g).2 = g <| paths ::= fmap drained |>.
Proof.
  revert g. induction nows as [|now nows IH]; intros g Hw Hl Hge Hn; cbn [length] in Hn.
  - assert (Hz : forall p, p ∈ paths g -> act p = true -> wCount p = 0) by (intros p Hp Ha; pose proof (total_ge wCount act _ Hge p Hp Ha); lia).
    split; [intros p Hp; cbn; destruct (act p) eqn:E; [by rewrite Hz|done]|]. split; [constructor|]. assert (Hd : drained <$> paths g = paths g).
    { rewrite <-(list_fmap_id (paths g)) at 2. apply list_fmap_ext. intros j p Hj. apply list_elem_of_lookup_2 in Hj. unfold drained. cbn. destruct (act p) eqn:E; [|done].
      specialize (Hz p Hj E). destruct p; cbn in *. by subst. }
    change (g = mkGroup (drained <$> paths g) (timeout g) (dupGrace g) (g_rttMin g) (g_rttMax g)). rewrite Hd. by destruct g.
  - destruct (total_pos wCount act (paths g)) as (p0 & Hp0 & Ha0 & Hc0); [lia|].
    destruct (SelectWeighted_credit g now p0 Hp0) as (k & b & Hk & Hb & Hcb & E); [rewrite Hl; [done|by left|done]|done|].
    assert (Hbin : b ∈ paths g) by (by eapply list_elem_of_lookup_2). rewrite Hl in Hb by (done || by left).
    assert (Hsp : forall j p, paths g !! j = Some p -> paths (spend k g) !! j = Some (if decide (j = k) then p <| wCount ::= fun n => n - 1 |> else p)).
    { intros j p Hj. cbn. case_decide; [subst; by rewrite list_lookup_alter_eq, Hj|by rewrite list_lookup_alter_ne]. }
    assert (Hback : forall q, q ∈ paths (spend k g) -> exists j p, paths g !! j = Some p /\ q = if decide (j = k) then p <| wCount ::= fun n => n - 1 |> else p).
    { intros q (j & Hj)%list_elem_of_lookup_1. destruct (paths g !! j) as [p|] eqn:Ep; [exists j, p; split; [done|]; rewrite (Hsp j p Ep) in Hj; by injection Hj|].
      exfalso. apply lookup_lt_Some in Hj. apply lookup_ge_None in Ep. cbn in Hj. rewrite length_alter in Hj. lia. }
    destruct (IH (spend k g)) as (H1 & H2 & H3).
    + unfold wf. rewrite (steps_index g); [done|]. by apply spend_steps.
    + intros now' q Hnow Hq. destruct (Hback q Hq) as (j & p & Hj & ->). assert (Hpin : p ∈ paths g) by (by eapply list_elem_of_lookup_2).
      case_decide; [rewrite act_update|]; rewrite <-(Hl now' p) by (done || by right); done.
    + intros q Hq Ha. destruct (Hback q Hq) as (j & p & Hj & ->). assert (Hpin : p ∈ paths g) by (by eapply list_elem_of_lookup_2).
      case_decide; [|by apply Hge]. subst. assert (p = b) as -> by congruence. cbn. lia.
    + pose proof (total_spend k (paths g) b Hk Hb) as Ht. change (Z.of_nat (length nows) = total wCount act (alter (fun p => p <| wCount ::= fun n => n - 1 |>) k (paths g))). lia.
    + cbn [elections]. rewrite E. destruct (elections nows (spend k g)) as [es g']. cbn [fst snd] in *. split; [|split].
      * intros p (j & Hj)%list_elem_of_lookup_1. pose proof (list_elem_of_lookup_2 _ _ _ (Hsp j p Hj)) as Hin. specialize (H1 _ Hin). rewrite share_cons. cbn [fst snd andb].
        case_decide as Ej.
        -- subst. assert (p = b) as -> by congruence. rewrite Z.eqb_refl. rewrite act_update, Hb in H1. cbn in H1. rewrite Hb. lia.
        -- rewrite H1. destruct (Z.eqb_spec (Index b) (Index p)) as [Eq|_]; [|lia]. exfalso. apply Ej. eapply (NoDup_lookup (Index <$> paths g)); [exact Hw| |].
           ++ by rewrite list_lookup_fmap, Hj.
           ++ by rewrite list_lookup_fmap, Hk, <-Eq.
      * by constructor.
      * rewrite H3. pose proof (drained_spend k (paths g) b Hk Hb) as Hd.
        change (mkGroup (drained <$> paths (spend k g)) (timeout g) (dupGrace g) (g_rttMin g) (g_rttMax g) =
                mkGroup (drained <$> paths g) (timeout g) (dupGrace g) (g_rttMin g) (g_rttMax g)). f_equal. exact Hd.
Qed.
End rotation.

Lemma active_update g now p n : active g now (p <| wCount := n |>) = active g now p.
Proof. done. Qed.

Lemma refilled_spec g now p : p ∈ paths (refill now g) -> exists q, q ∈ paths g /\ p = if active g now q then q <| wCount := Weight q |> else q.
Proof. intros (q & -> & Hq)%list_elem_of_fmap_1. by exists q. Qed.

Lemma wf_refill g now : wf g -> wf (refill now g).
Proof.
  intros Hw. unfold wf, refill. cbn. rewrite <-list_fmap_compose. erewrite list_fmap_ext; [exact Hw|]. intros j p _. cbn. by destruct (_ && _).
Qed.

Lemma total_refill act now g : (forall p n, act (p <| wCount := n |>) = act p) -> (forall p, p ∈ paths g -> active g now p = act p) ->
  total wCount act (paths (refill now g)) = total Weight act (paths g).
Proof.
  intros Hact Hl. change (paths (refill now g)) with ((fun p => if active g now p then p <| wCount := Weight p |> else p) <$> paths g). induction (paths g) as [|p ps IH]; [done|]. cbn [fmap list_fmap]. rewrite !total_cons.
  rewrite IH by (intros; apply Hl; by right). rewrite (Hl p) by (by left). destruct (act p) eqn:E; [|by rewrite E]. by rewrite (Hact p (Weight p)), E.
Qed.

(** An exhausted round starts over. *)
Lemma SelectWeighted_exhausted g now p : p ∈ paths g -> active g now p = true -> (forall q, q ∈ paths g -> active g now q = true -> wCount q <= 0) ->
  SelectWeighted now g = SelectWeighted now (refill now g).
Proof.
  intros Hp Ha Hz. destruct (bestWeighted_is_some g now p Hp Ha) as (k & b & E). destruct (bestWeighted_some _ _ _ _ E) as (Hk & Hb & _).
  pose proof (Hz b (list_elem_of_lookup_2 _ _ _ Hk) Hb) as Hb0.
  set (p' := if active g now p then p <| wCount := Weight p |> else p).
  assert (Hp' : p' ∈ paths (refill now g)) by (apply list_elem_of_fmap; by exists p).
  assert (Ha' : active (refill now g) now p' = true) by (unfold p'; by rewrite Ha).
  destruct (bestWeighted_is_some (refill now g) now p' Hp' Ha') as (k' & b' & E'). destruct (bestWeighted_some _ _ _ _ E') as (Hk' & Hb' & _).
  assert (Hpos : 0 < wCount b').
  { destruct (refilled_spec g now b' (list_elem_of_lookup_2 _ _ _ Hk')) as (q & Hq & ->).
    assert (Hq' : active g now q = true) by (destruct (active g now q) eqn:Eq; [done|by rewrite <-Eq]). rewrite Hq'. cbn. apply andb_true_iff in Hq' as [Hq' _]. by apply Z.ltb_lt. }
  unfold SelectWeighted. rewrite (HasWeighted_active g now p Hp Ha), (HasWeighted_active (refill now g) now p' Hp' Ha'), E, E'. cbn [negb].
  destruct (Z.leb_spec (wCount b) 0); [|lia]. rewrite E'. by destruct (Z.leb_spec (wCount b') 0); [lia|].
Qed.

(** ** Properties *)

(** Over a round of Σ Weight consecutive elections during which no path changes its liveness, SelectWeighted chooses every
    live weighted path exactly Weight times and no other path, and never fails; this holds for a round that starts with full
    credit (after AddPath or SetWeight) and for one that starts with no credit left, and it ends with no credit left, so
    every later round is as exact. *)
Theorem weighted_share_exact g now0 nows : wf g ->
  (forall now p, now ∈ nows -> p ∈ paths g -> active g now p = active g now0 p) ->
  (forall p, p ∈ paths g -> active g now0 p = true -> wCount p = Weight p) \/ (forall p, p ∈ paths g -> active g now0 p = true -> wCount p <= 0) ->
  Z.of_nat (length nows) = total Weight (active g now0) (paths g) ->
  let '(es, g') := elections nows g in
  (forall p, p ∈ paths g -> share (Index p) es = if active g now0 p then Weight p else 0) /\
  Forall (fun e => snd e = true) es /\
  (forall p, p ∈ paths g' -> active g' now0 p = true -> wCount p = 0).
Proof.
  intros Hw Hl Hround Hn. assert (Hwt : forall p, p ∈ paths g -> active g now0 p = true -> 0 < Weight p) by (intros p _ [H _]%andb_true_iff; by apply Z.ltb_lt).
  assert (Hend : forall g', g' = g <| paths ::= fmap (drained (active g now0)) |> \/ (exists now, g' = refill now g <| paths ::= fmap (drained (active g now0)) |>) ->
    forall p, p ∈ paths g' -> active g' now0 p = true -> wCount p = 0).
  { assert (Hdr : forall (l : list Path) p, p ∈ drained (active g now0) <$> l -> active g now0 p = true -> wCount p = 0).
    { intros l p (q & -> & _)%list_elem_of_fmap_1 Ha. unfold drained in *. destruct (active g now0 q) eqn:E; [done|congruence]. }
    intros g' [-> |[now ->]] p Hp Ha; by apply (Hdr _ p Hp). }
  destruct (decide (nows = [])) as [-> |Hne].
  { cbn [elections]. assert (Hno : forall p, p ∈ paths g -> active g now0 p = false).
    { intros p Hp. destruct (active g now0 p) eqn:E; [|done]. specialize (Hwt p Hp E).
      destruct (total_ge Weight (active g now0) (paths g)) with (p := p) as [_ H]; try done; cbn in Hn; [intros q Hq Hqa|lia].
      apply andb_true_iff in Hqa as [Hqa _]. apply Z.ltb_lt in Hqa. lia. }
    split; [intros p Hp; by rewrite (Hno p Hp)|]. split; [constructor|]. intros p Hp Ha. by rewrite (Hno p Hp) in Ha. }
  destruct Hround as [Hf|Hz].
  - destruct (elections_credits (active g now0) (fun _ _ => eq_refl) nows g Hw Hl) as (H1 & H2 & H3).
    + intros p Hp Ha. rewrite (Hf p Hp Ha). specialize (Hwt p Hp Ha). lia.
    + rewrite Hn. symmetry. by apply total_ext.
    + destruct (elections nows g) as [es g']. cbn [fst snd] in *. split; [|split; [done|apply Hend; by left]].
      intros p Hp. rewrite (H1 p Hp). destruct (active g now0 p) eqn:E; [by apply Hf|done].
  - destruct nows as [|now nows]; [done|]. destruct (total_pos Weight (active g now0) (paths g)) as (p0 & Hp0 & Ha0 & _); [cbn [length] in Hn; lia|].
    assert (Hnow : forall p, p ∈ paths g -> active g now p = active g now0 p) by (intros p Hp; apply Hl; [by left|done]).
    assert (E : elections (now :: nows) g = elections (now :: nows) (refill now g)).
    { cbn [elections]. rewrite (SelectWeighted_exhausted g now p0); [done|done|by rewrite Hnow|]. intros q Hq Ha. rewrite Hnow in Ha by done. by apply Hz. }
    assert (Hback : forall p, p ∈ paths (refill now g) -> exists q, q ∈ paths g /\ p = if active g now0 q then q <| wCount := Weight q |> else q).
    { intros p (q & Hq & ->)%refilled_spec. exists q. by rewrite (Hnow q Hq). }
    destruct (elections_credits (active g now0) (fun _ _ => eq_refl) (now :: nows) (refill now g)) as (H1 & H2 & H3).
    + by apply wf_refill.
    + intros now' p Hnow' Hp. destruct (Hback p Hp) as (q & Hq & ->). specialize (Hl now' q Hnow' Hq). destruct (active g now0 q) eqn:Eq; change (active g now' q = active g now0 q); congruence.
    + intros p Hp Ha. destruct (Hback p Hp) as (q & Hq & ->). destruct (active g now0 q) eqn:Eq; [|congruence]. specialize (Hwt q Hq Eq). cbn. lia.
    + rewrite Hn. symmetry. by apply total_refill.
    + rewrite E. destruct (elections (now :: nows) (refill now g)) as [es g']. cbn [fst snd] in *. split; [|split; [done|apply Hend; right; by exists now]].
      intros p Hp. specialize (H1 (if active g now0 p then p <| wCount := Weight p |> else p)). destruct (active g now0 p) eqn:Ep.
      * rewrite active_update, Ep in H1. apply H1. apply list_elem_of_fmap. exists p. fold (active g now p). by rewrite (Hnow p Hp), Ep.
      * rewrite Ep in H1. apply H1. apply list_elem_of_fmap. exists p. fold (active g now p). by rewrite (Hnow p Hp), Ep.
Qed.

(** Three weighted paths (the middle one dead at the instant) and a duplicate path: path 1 gets three packets in four, path 4 one. *)
Definition demo_group : Group :=
  (exec_all [CAddPath 1 3 0; CAddPath 2 5 0; CAddPath 3 0 0; CAddPath 4 1 0; CObserve 1 90; CObserve 2 10] (NewGroup 50 20 0 1000)).2.

Lemma weighted_share_exact_witness : let '(es, g') := elections [100; 101; 102; 103] demo_group in share 1 es = 3 /\ share 2 es = 0 /\ share 3 es = 0 /\ share 4 es = 1.
Proof.
  pose proof (weighted_share_exact demo_group 100 [100; 101; 102; 103]) as H. destruct (elections _ _) as [es g']. destruct H as (H & _ & _).
  - unfold wf. apply (bool_decide_unpack _). vm_compute. exact I.
  - intros now p Hnow Hp. repeat (apply elem_of_cons in Hnow as [-> |Hnow]; [repeat (apply elem_of_cons in Hp as [-> |Hp]; [reflexivity|]); by apply elem_of_nil in Hp|]). by apply elem_of_nil in Hnow.
  - left. intros p Hp. repeat (apply elem_of_cons in Hp as [-> |Hp]; [by vm_compute|]). by apply elem_of_nil in Hp.
  - reflexivity.
  - assert (Hk : forall k p, paths demo_group !! k = Some p -> share (Index p) es = if active demo_group 100 p then Weight p else 0)
      by (intros; apply H; by eapply list_elem_of_lookup_2).
    pose proof (Hk 0%nat _ eq_refl). pose proof (Hk 1%nat _ eq_refl). pose proof (Hk 2%nat _ eq_refl). pose proof (Hk 3%nat _ eq_refl). done.
Defined.

(** SelectNackPath reports a path exactly when some usable path has been seen.  When a usable path is alive, the one it
    reports is alive and no other usable live path has a higher priority, or the same priority and a lower clamped last RTT;
    when none is alive, it is one of the seen usable paths observed most recently. *)
Theorem nack_path_best now addrKnown g : wf g ->
  match SelectNackPath now addrKnown g with
  | (i, true) => exists p, p ∈ paths g /\ Index p = i /\ seen p = true /\ usable addrKnown p = true /\
      if Alive g i now then forall q, q ∈ paths g -> Alive g (Index q) now = true -> usable addrKnown q = true ->
        Priority q < Priority p \/ Priority q = Priority p /\ nackRTT p g <= nackRTT q g
      else forall q, q ∈ paths g -> usable addrKnown q = true -> Alive g (Index q) now = false /\ (seen q = true -> lastSeen q <= lastSeen p)
  | (_, false) => forall q, q ∈ paths g -> usable addrKnown q = true -> seen q = false
  end.
Proof.
  intros Hw. unfold SelectNackPath. destruct (pick _ _ _ None) as [p|] eqn:E1.
  - apply pick_some in E1 as ([?|[Hp Hok]] & _ & Hbest); [done| |intros ? ?; apply preferred_asym|intros ? ? ?; apply preferred_neg].
    apply andb_true_iff in Hok as [Ha Hu]. exists p. rewrite Ha. rewrite (Alive_wf g p now Hw Hp) in Ha. apply andb_true_iff in Ha as [Hs _].
    split; [done|]. split; [done|]. split; [done|]. split; [done|]. intros q Hq Hqa Hqu. specialize (Hbest q Hq). cbn in Hbest. rewrite Hqa, Hqu in Hbest. specialize (Hbest eq_refl).
    unfold preferred in Hbest. destruct (Z.eqb_spec (Priority q) (Priority p)); cbn in Hbest; apply Z.ltb_ge in Hbest; lia.
  - apply pick_none in E1 as [_ Hdead].
    assert (Hd : forall q, q ∈ paths g -> usable addrKnown q = true -> Alive g (Index q) now = false) by (intros q Hq Hu; specialize (Hdead q Hq); cbn in Hdead; rewrite Hu, andb_true_r in Hdead; done).
    destruct (pick _ _ _ None) as [p|] eqn:E2.
    + apply pick_some in E2 as ([?|[Hp Hok]] & _ & Hbest); [done| |unfold Timestamp.After; intros ? ?; case_cmp; lia|unfold Timestamp.After; intros ? ? ?; case_cmp; lia].
      apply andb_true_iff in Hok as [Hs Hu]. exists p. rewrite (Hd p Hp Hu). split; [done|]. split; [done|]. split; [done|]. split; [done|].
      intros q Hq Hqu. split; [by apply Hd|]. intros Hqs. specialize (Hbest q Hq). cbn in Hbest. rewrite Hqs, Hqu in Hbest. specialize (Hbest eq_refl). unfold Timestamp.After in Hbest. by apply Z.ltb_ge in Hbest.
    + apply pick_none in E2 as [_ Hnone]. intros q Hq Hu. specialize (Hnone q Hq). cbn in Hnone. by rewrite Hu, andb_true_r in Hnone.
Qed.

Lemma nack_path_best_witness :
  match SelectNackPath 95 None demo_group with
  | (i, true) => exists p, p ∈ paths demo_group /\ Index p = i /\ seen p = true
  | (_, false) => False
  end.
Proof.
  pose proof (nack_path_best 95 None demo_group) as H. destruct (SelectNackPath 95 None demo_group) as [i [|]] eqn:E; [|by vm_compute in E].
  destruct H as (p & H1 & H2 & H3 & _); [unfold wf; apply (bool_decide_unpack _); vm_compute; exact I|]. by exists p.
Defined.

(** Whatever the host called before, a path that Tick reports dead was seen and is no longer alive at that instant, and
    it is not reported again by any later sequence of calls, at whatever instants, that does not observe the path. *)
Theorem death_reported_once timeout dupGrace rttMin rttMax before after now i :
  let g := (exec_all before (NewGroup timeout dupGrace rttMin rttMax)).2 in
  i ∈ (Tick now g).1 -> (forall t, CObserve i t ∉ after) ->
  Alive g i now = false /\ (exists p, path g i = Some p /\ seen p = true) /\ i ∉ (exec_all after (Tick now g).2).1.
Proof.
  intros g Hi Hafter. assert (Hw : wf g) by (apply wf_exec_all, wf_NewGroup).
  assert (Hi' : i ∈ (tick_paths now (bonding.timeout g) (paths g)).1) by (unfold Tick in Hi; by destruct (tick_paths _ _ _)).
  destruct (tick_paths_died _ _ _ _ Hi') as (p & Hp & <- & Hs & _ & Ht). split; [|split].
  - rewrite (Alive_wf g p now Hw Hp). unfold alive_path. rewrite Hs. by apply Z.leb_gt.
  - exists p. split; [|done]. by apply find_path_spec.
  - apply quiet_exec_all; [exact (wf_exec (CTick now) g Hw)|done|]. pose proof (tick_paths_quiet (Index p) now (bonding.timeout g) (paths g) Hw (or_intror Hi')) as H.
    unfold Tick, quiet. by destruct (tick_paths _ _ _).
Qed.

Lemma death_reported_once_witness :
  let g := (exec_all [CAddPath 1 0 0; CAddPath 2 0 0; CObserve 1 0; CObserve 2 40] (NewGroup 50 20 0 1000)).2 in
  1 ∉ (exec_all [CTick 70; CObserve 2 80; CSetWeight 1 4; CTick 200] (Tick 60 g).2).1.
Proof.
  apply (death_reported_once 50 20 0 1000 [CAddPath 1 0 0; CAddPath 2 0 0; CObserve 1 0; CObserve 2 40] [CTick 70; CObserve 2 80; CSetWeight 1 4; CTick 200] 60 1).
  - vm_compute. left.
  - intros t H. repeat (apply elem_of_cons in H as [H|H]; [discriminate H|]). by apply elem_of_nil in H.
Defined.
End bonding.
