(* ===== verification/SimpleCodec.v ===== *)
(** * The Simple-profile codec: internal/session/codec.go

    The translation between the flow core's packets and feedback and the RTP and compound RTCP bytes of the wire: 32-bit
    sequences and source times are narrowed on encoding and widened back against the decoder's own state.
    The theorems follow a request and a packet through the bytes: what the sender's flow is asked to resend is what
    the receiver's flow asked for, and what arrives is what was sent. *)

From stdpp Require Import sets.
From S2P Require Import Prelude Bytes Rtp Clock Rtcp RtcpNack Wire.

(** ** Clocks and widening *)


Definition rtpTicksFromMicros (us : Z) : Z := i64 (us * 9) /g 100.
Definition microsFromRTPTicks (ticks : Z) : Z := i64 (ticks * 100) /g 9.

Definition rtpTSFromSource (src : Z) : Z :=
  let us := NTPTime.toTimestamp src in u32 (rtpTicksFromMicros us).

Definition widenSeq (wire16 ref : Z) : Z :=
  let cand := Z.lor (Z.land ref 4294901760) wire16 in
  let diff := cand - ref in
  if Z.shiftl 1 15 <? diff then u32 (cand - Z.shiftl 1 16)
  else if diff <? - Z.shiftl 1 15 then u32 (cand + Z.shiftl 1 16)
  else cand.

Definition widenTicks (wire32 ref : Z) : Z :=
  let cand := Z.lor (Z.ldiff ref 4294967295) wire32 in
  let diff := i64 (cand - ref) in
  if Z.shiftl 1 31 <? diff then i64 (cand - Z.shiftl 1 32)
  else if diff <? - Z.shiftl 1 31 then i64 (cand + Z.shiftl 1 32)
  else cand.

Definition widenSeqAtMost (wire16 ref : Z) : Z :=
  let cand := Z.lor (Z.land ref 4294901760) wire16 in
  if ref <? cand then u32 (cand - Z.shiftl 1 16) else cand.

(** ** Media *)

(** The RTP packet of a media packet. *)
Definition rtp_of (pkt : MediaPacket) : Packet :=
  let ssrc := if Retransmit pkt then MarkRetransmit (SSRC pkt) else SSRC pkt in
  mkPacket (mkHeader 2 false false 0 false PayloadTypeMPEGTS (u16 (Seq pkt)) (rtpTSFromSource (SourceTime pkt)) ssrc [] 0 [])
    (Payload pkt) 0.

Definition encodeMedia (dst : slice) (pkt : MediaPacket) : res rtpError unit * slice := packet_AppendTo (rtp_of pkt) dst.

Record mediaDecoder := mkMediaDecoder {
  md_started : bool; md_refSeq : Z;
  tsStarted : bool; tsBaseSeq : Z; tsBaseTicks : Z; tsRefSeq : Z; tsRefTicks : Z;
  lastWireTS : Z }.

#[export] Instance eta_mediaDecoder : Eta mediaDecoder := fun d =>
  mkMediaDecoder (md_started d) (md_refSeq d) (tsStarted d) (tsBaseSeq d) (tsBaseTicks d) (tsRefSeq d) (tsRefTicks d) (lastWireTS d).

Definition md_zero : mediaDecoder := mkMediaDecoder false 0 false 0 0 0 0 0.

Definition sourceTicks (seq32 wireTS : Z) (d : mediaDecoder) : Z * mediaDecoder :=
  if negb (tsStarted d) then
    (wireTS, d <| tsStarted := true |> <| tsBaseSeq := seq32 |> <| tsBaseTicks := wireTS |>
               <| tsRefSeq := seq32 |> <| tsRefTicks := wireTS |>)
  else
    let span := i32 (u32 (tsRefSeq d - tsBaseSeq d)) in
    let ref :=
      if 0 <? span then
        let ticksPerSeq := i64 (tsRefTicks d - tsBaseTicks d) /g span in
        i64 (tsRefTicks d + i64 (i32 (u32 (seq32 - tsRefSeq d)) * ticksPerSeq))
      else tsRefTicks d in
    let ticks := widenTicks wireTS ref in
    let d := if 0 <? i32 (u32 (seq32 - tsRefSeq d)) then d <| tsRefSeq := seq32 |> <| tsRefTicks := ticks |> else d in
    (if ticks <? 0 then 0 else ticks, d).

Definition sourceTime (seq32 wireTS : Z) (d : mediaDecoder) : Z * mediaDecoder :=
  let '(ticks, d) := sourceTicks seq32 wireTS d in (NTPTimeFromTimestamp (microsFromRTPTicks ticks), d).

Inductive decodeError := ErrRtp (e : rtpError) | ErrVersion (v : Z).

Definition rtp_zero : Packet := mkPacket (mkHeader 0 false false 0 false 0 0 0 0 [] 0 []) [] 0.

Definition decode (b : bytes) (d : mediaDecoder) : res decodeError MediaPacket * mediaDecoder :=
  match packet_Unmarshal b rtp_zero with
  | (Panic, _) => (Panic, d)
  | (Err e, _) => (Err (ErrRtp e), d)
  | (Ok _, p) =>
      let h := p_Header p in
      if negb (Version h =? 2) then (Err (ErrVersion (Version h)), d) else
      let seq32 := if md_started d then widenSeq (SequenceNumber h) (md_refSeq d) else SequenceNumber h in
      let d := d <| md_started := true |> <| md_refSeq := seq32 |> <| lastWireTS := RTPTimestamp h |> in
      let '(src, d) := sourceTime seq32 (RTPTimestamp h) d in
      (Ok (mkMediaPacket seq32 src (NormalizeSSRC (RTPSSRC h)) (p_Payload p) (IsRetransmit (RTPSSRC h)) 0 FragStandalone 0 0 true), d)
  end.

(** ** Feedback *)

(** The NACK packets and the echo packets of one feedback value. *)
Definition nacks_of (ssrc : Z) (bitmask : bool) (fb : Feedback) : list rtcp.Packet :=
  match fb with
  | NackRequest s missing => if bitmask then EncodeBitmaskNACK 0 s missing else EncodeRangeNACK ssrc s missing
  | _ => []
  end.

Definition echo_of (ssrc : Z) (fb : Feedback) : list rtcp.Packet :=
  match fb with
  | RttEchoRequest _ ts => [rtcp.EchoRequest ssrc ts []]
  | RttEchoResponse s ts delay => [rtcp.EchoResponse s ts delay []]
  | _ => []
  end.

Definition encodeFeedback (dst : slice) (lead : rtcp.Packet) (ssrc : Z) (cname : bytes) (fbs : list Feedback) (bitmask : bool)
    : res rtcp.error slice :=
  rtcp.BuildCompound dst ([lead; rtcp.SDES ssrc cname] ++ (fbs ≫= nacks_of ssrc bitmask) ++ (fbs ≫= echo_of ssrc)).

Definition nackToWire (ssrc : Z) (narrow : list Z) (nackRef : Z) : Feedback :=
  NackRequest ssrc ((fun s => widenSeqAtMost (u16 s) nackRef) <$> narrow).

Definition feedback_of (nackRef : Z) (p : rtcp.Packet) : list Feedback :=
  match p with
  | rtcp.RangeNACK ms ranges => [nackToWire ms (range_AppendMissingSeqs ranges []) nackRef]
  | rtcp.BitmaskNACK _ ms fcis => [nackToWire ms (bitmask_AppendMissingSeqs fcis []) nackRef]
  | rtcp.EchoRequest s ts _ => [RttEchoRequest s ts]
  | rtcp.EchoResponse s ts delay _ => [RttEchoResponse s ts delay]
  | rtcp.LinkQualityReport _ lqm => [LinkQuality lqm]
  | _ => []
  end.

(** [None] is the fuel of [ParseCompound], which suffices ([rtcp.compound_round_trip]). *)
Definition decodeFeedback (b : bytes) (nackRef : Z) : option (res rtcp.error (list Feedback)) :=
  match rtcp.ParseCompound b with
  | Some r => Some (pkts ← r; Ok (pkts ≫= feedback_of nackRef))
  | None => None
  end.

(** ** Widening *)

Lemma cand16 ref w : in_u32 ref -> in_u16 w -> Z.lor (Z.land ref 4294901760) w = ref - ref mod 65536 + w.
Proof.
  intros Hr Hw. assert (E : Z.land ref 4294901760 = Z.shiftl (ref / 2 ^ 16) 16).
  { change 4294901760 with (Z.shiftl (Z.ones 16) 16). apply Z.bits_inj'. intros n Hn. rewrite Z.land_spec, !Z.shiftl_spec by lia.
    destruct (Z.lt_ge_cases n 16) as [Hl|Hg]; [by rewrite !(Z.testbit_neg_r _ (n - 16)), andb_false_r by lia|].
    rewrite Z.div_pow2_bits by lia. replace (n - 16 + 16) with n by lia. rewrite Z.testbit_ones_nonneg by lia.
    destruct (Z.ltb_spec (n - 16) 16); [by rewrite andb_true_r|]. rewrite andb_false_r. symmetry. unfold in_u32 in Hr.
    rewrite <-(Z.mod_small ref (2 ^ 32)) by lia. apply Z.mod_pow2_bits_high. lia. }
  rewrite E, lor_shiftl_add by (unfold in_u16 in Hw; lia). change (2 ^ 16) with 65536. pose proof (Z.div_mod ref 65536). lia.
Qed.

(** A sequence less than 2^15 from the reference, either way and across the wrap, is widened exactly. *)
Lemma widenSeq_exact ref d : in_u32 ref -> -32768 < d < 32768 -> widenSeq (u16 (ref + d)) ref = u32 (ref + d).
Proof.
  intros Hr Hd. unfold widenSeq. rewrite cand16 by (done || apply u16_range). change (- Z.shiftl 1 15) with (-32768). change (Z.shiftl 1 15) with 32768. change (Z.shiftl 1 16) with 65536.
  destruct (uwrap_spec 16 (ref + d)) as [k Hk]; [lia|]. pose proof (u16_range (ref + d)) as Hu. fold (u16 (ref + d)) in Hk. change (2 ^ 16) with 65536 in Hk.
  unfold in_u16, in_u32 in *. pose proof (Z.div_mod ref 65536 ltac:(lia)). pose proof (Z.mod_pos_bound ref 65536 ltac:(lia)). set (q := ref / 65536) in *. set (r := ref mod 65536) in *.
  clearbody q r.
  destruct (Z.ltb_spec 32768 (ref - r + u16 (ref + d) - ref)); [f_equal; lia|].
  destruct (Z.ltb_spec (ref - r + u16 (ref + d) - ref) (-32768)); [f_equal; lia|].
  assert (E : ref - r + u16 (ref + d) = ref + d) by lia. rewrite E. symmetry. apply u32_id. unfold in_u32. lia.
Qed.

(** A sequence at or less than 2^16 before the reference, across the wrap, is widened exactly. *)
Lemma widenSeqAtMost_exact ref d : in_u32 ref -> 0 <= d < 65536 -> widenSeqAtMost (u16 (ref - d)) ref = u32 (ref - d).
Proof.
  intros Hr Hd. unfold widenSeqAtMost. rewrite cand16 by (done || apply u16_range). change (Z.shiftl 1 16) with 65536.
  destruct (uwrap_spec 16 (ref - d)) as [k Hk]; [lia|]. pose proof (u16_range (ref - d)) as Hu. fold (u16 (ref - d)) in Hk. change (2 ^ 16) with 65536 in Hk.
  unfold in_u16, in_u32 in *. pose proof (Z.div_mod ref 65536 ltac:(lia)). pose proof (Z.mod_pos_bound ref 65536 ltac:(lia)). set (q := ref / 65536) in *. set (r := ref mod 65536) in *.
  clearbody q r. destruct (Z.ltb_spec ref (ref - r + u16 (ref - d))); [f_equal; lia|].
  assert (E : ref - r + u16 (ref - d) = ref - d) by lia. rewrite E. symmetry. apply u32_id. unfold in_u32. lia.
Qed.

(** Ticks less than 2^31 from the reference are widened exactly. *)
Lemma widenTicks_exact t ref : - 2 ^ 62 < ref < 2 ^ 62 -> Z.abs (t - ref) < 2 ^ 31 -> widenTicks (u32 t) ref = t.
Proof.
  intros Hr Hd. unfold widenTicks. change 4294967295 with (Z.ones 32). rewrite Z.ldiff_ones_r, Z.shiftr_div_pow2 by lia.
  pose proof (u32_range t) as Hu. unfold in_u32 in Hu. rewrite lor_shiftl_add by lia. change (- Z.shiftl 1 31) with (-2147483648). change (Z.shiftl 1 31) with 2147483648. change (Z.shiftl 1 32) with 4294967296.
  pose proof (Z.div_mod ref (2 ^ 32)). pose proof (Z.mod_pos_bound ref (2 ^ 32)). change (2 ^ 32) with 4294967296 in *. change (2 ^ 31) with 2147483648 in *. change (2 ^ 62) with 4611686018427387904 in *.
  set (q := ref / 4294967296) in *. set (r := ref mod 4294967296) in *. rewrite (i64_id (q * 4294967296 + u32 t - ref)) by (unfold in_i64; lia).
  destruct (u32_spec t) as (k & Hk & _).
  destruct (Z.ltb_spec 2147483648 (q * 4294967296 + u32 t - ref)); [nowrap; lia|].
  destruct (Z.ltb_spec (q * 4294967296 + u32 t - ref) (-2147483648)); [nowrap; lia|lia].
Qed.

(** ** Feedback over the wire *)

(** The individual requests of a list of feedback: media SSRC and sequence. *)
Definition requests (fbs : list Feedback) : list (Z * Z) :=
  fbs ≫= fun fb => match fb with NackRequest s missing => (fun n => (s, n)) <$> missing | _ => [] end.

(** The echoes as the peer sees them: a request carries the local SSRC. *)
Definition echoes (ssrc : Z) (fbs : list Feedback) : list Feedback :=
  fbs ≫= fun fb => match fb with
                   | RttEchoRequest _ ts => [RttEchoRequest ssrc ts]
                   | RttEchoResponse s ts delay => [RttEchoResponse s ts delay]
                   | _ => []
                   end.

Definition is_echo_fb (fb : Feedback) : bool :=
  match fb with RttEchoRequest _ _ | RttEchoResponse _ _ _ => true | _ => false end.

(** Feedback values of their Go types, asking only for sequences of the 65536 up to the send position [ref]. *)
Definition feedback_ok (ref : Z) (fb : Feedback) : Prop :=
  match fb with
  | NackRequest s missing =>
      in_u32 s /\ zlen missing <= maxNackExpand /\ Forall (fun n => exists d, 0 <= d < 65536 /\ n = u32 (ref - d)) missing
  | RttEchoRequest s ts => in_u32 s /\ in_u64 ts
  | RttEchoResponse s ts delay => in_u32 s /\ in_u64 ts /\ in_u32 delay
  | _ => True
  end.

Lemma u16_u32 z : u16 (u32 z) = u16 z.
Proof. apply (u32_mod_pow2 16). lia. Qed.

Lemma u16_u32_add a b : u16 (u32 a + b) = u16 (a + b).
Proof. by rewrite <-(u16_u32 (u32 a + b)), u32_add_l, u16_u32. Qed.

Lemma widen_back ref n : in_u32 ref -> (exists d, 0 <= d < 65536 /\ n = u32 (ref - d)) -> widenSeqAtMost (u16 (u16 n)) ref = n.
Proof. intros Hr (d & Hd & ->). rewrite u16_u32, (u16_id (u16 _)) by apply u16_range. by apply widenSeqAtMost_exact. Qed.

(** A packet that requests sequences of the stream [s]. *)
Definition nack_for (s : Z) (p : rtcp.Packet) : Prop :=
  (exists rs, p = rtcp.RangeNACK s rs) \/ (exists ss fcis, p = rtcp.BitmaskNACK ss s fcis).

Lemma nack_requests s ref ps :
  Forall (nack_for s) ps ->
  requests ((rtcp.norm <$> ps) ≫= feedback_of ref) = (fun x => (s, widenSeqAtMost (u16 x) ref)) <$> requested ps /\
  filter (fun fb => is_echo_fb fb = true) ((rtcp.norm <$> ps) ≫= feedback_of ref) = [].
Proof.
  intros Hp. induction Hp as [|p ps Hp Hps [IH1 IH2]]; [done|]. unfold requested. cbn [fmap list_fmap concat mbind list_bind].
  unfold requests in *. rewrite bind_app, filter_app, fmap_app.
  destruct Hp as [(rs & ->)|(ss & fcis & ->)]; cbn [rtcp.norm feedback_of nackToWire DecodeNACK default option_map mbind list_bind];
    (split; [f_equal; [by rewrite app_nil_r, <-list_fmap_compose|exact IH1]|exact IH2]).
Qed.

(** The NACK packets of one feedback value are well formed and ask back for exactly its sequences. *)
Lemma nacks_of_spec ssrc bitmask ref fb :
  in_u32 ref -> feedback_ok ref fb ->
  Forall (fun p => rtcp.valid p /\ rtcp.is_nack p = true) (nacks_of ssrc bitmask fb) /\
  let out := (rtcp.norm <$> nacks_of ssrc bitmask fb) ≫= feedback_of ref in
  (bitmask = false -> requests out = requests [fb]) /\ (forall r, r ∈ requests out <-> r ∈ requests [fb]) /\
  filter (fun fb => is_echo_fb fb = true) out = [].
Proof.
  intros Hr Hfb. destruct fb as [s missing|  | | | | | | | | ]; try done. destruct Hfb as (Hs & Hl & Hm).
  assert (Hback : (fun x => (s, widenSeqAtMost (u16 x) ref)) <$> (u16 <$> missing) = requests [NackRequest s missing]).
  { unfold requests. cbn. rewrite app_nil_r, <-list_fmap_compose. apply list_fmap_ext. intros i n Hn. cbn. f_equal.
    apply widen_back; [done|]. rewrite Forall_lookup in Hm. by eapply Hm. }
  cbn [nacks_of]. destruct bitmask.
  - destruct (encode_bitmask_cover 0 s missing) as (Hset & _ & Hv & _); [done..|].
    destruct (nack_requests s ref (EncodeBitmaskNACK 0 s missing)) as [Hq He].
    { eapply Forall_impl; [exact Hv|]. intros p (_ & fcis & -> & _). right. by eexists _, _. }
    split; [eapply Forall_impl; [exact Hv|]; intros p (Hvp & fcis & -> & _); done|]. cbn zeta. split; [done|]. split; [|exact He].
    rewrite Hq, <-Hback. intros r. rewrite !list_elem_of_fmap. split; intros (x & -> & Hx); exists x; (split; [done|by apply Hset]).
  - destruct (encode_ranges_requested ssrc s missing) as (Hreq & Hv); [done..|].
    destruct (nack_requests s ref (EncodeRangeNACK ssrc s missing)) as [Hq He].
    { eapply Forall_impl; [exact Hv|]. intros p (_ & rs & -> & _). left. by eexists. }
    split; [eapply Forall_impl; [exact Hv|]; intros p (Hvp & rs & -> & _); done|]. cbn zeta. rewrite Hq, Hreq, Hback. done.
Qed.

Lemma requests_app a b : requests (a ++ b) = requests a ++ requests b.
Proof. unfold requests. apply bind_app. Qed.

Lemma requests_cons fb fbs : requests (fb :: fbs) = requests [fb] ++ requests fbs.
Proof. by rewrite <-requests_app. Qed.

Lemma nacks_spec ssrc bitmask ref fbs :
  in_u32 ref -> Forall (feedback_ok ref) fbs ->
  Forall (fun p => rtcp.valid p /\ rtcp.is_nack p = true) (fbs ≫= nacks_of ssrc bitmask) /\
  let out := (rtcp.norm <$> (fbs ≫= nacks_of ssrc bitmask)) ≫= feedback_of ref in
  (bitmask = false -> requests out = requests fbs) /\ (forall r, r ∈ requests out <-> r ∈ requests fbs) /\
  filter (fun fb => is_echo_fb fb = true) out = [].
Proof.
  intros Hr Hf. induction Hf as [|fb fbs Hfb Hf (IH1 & IH2 & IH3 & IH4)]; [done|]. cbn [mbind list_bind] in *.
  destruct (nacks_of_spec ssrc bitmask ref fb Hr Hfb) as (H1 & H2 & H3 & H4). cbn zeta in *.
  split; [by apply Forall_app|]. rewrite fmap_app, bind_app, requests_app, filter_app, requests_cons. split_and!.
  - intros Hb. by rewrite H2, IH2.
  - intros r. by rewrite !elem_of_app, H3, IH3.
  - by rewrite H4, IH4.
Qed.

Lemma echoes_spec ssrc ref fbs :
  in_u32 ssrc -> Forall (feedback_ok ref) fbs ->
  Forall (fun p => rtcp.valid p /\ rtcp.is_echo p = true) (fbs ≫= echo_of ssrc) /\
  let out := (rtcp.norm <$> (fbs ≫= echo_of ssrc)) ≫= feedback_of ref in
  out = echoes ssrc fbs /\ requests out = [].
Proof.
  intros Hs Hf. induction Hf as [|fb fbs Hfb Hf (IH1 & IH2 & IH3)]; [done|]. cbn [mbind list_bind echoes] in *. cbn zeta in *.
  rewrite fmap_app, bind_app, requests_app, IH3, IH2. destruct fb; cbn in *; try done.
  - split; [|done]. constructor; [|done]. cbn. change (rtcp.padTo4 (zlen []) / 4) with 0. destruct Hfb. split_and!; try done. constructor.
  - split; [|done]. constructor; [|done]. cbn. change (rtcp.padTo4 (zlen []) / 4) with 0. destruct Hfb as (? & ? & ?). split_and!; try done. constructor.
Qed.

(** A feedback zone of NACKs alone is in order. *)
Lemma nacks_feedback ps : Forall (fun p => rtcp.valid p /\ rtcp.is_nack p = true) ps -> rtcp.feedback ps.
Proof. induction 1 as [|p ps [_ Hp] Hps IH]; [constructor|]. apply rtcp.feedback_one; [by rewrite Hp|done]. Qed.

Lemma echoes_forallb ps : Forall (fun p => rtcp.valid p /\ rtcp.is_echo p = true) ps -> forallb rtcp.is_echo ps = true.
Proof. induction 1 as [|p ps [_ Hp] Hps IH]; [done|]. cbn. by rewrite Hp. Qed.

Lemma report_feedback ref lead :
  rtcp.is_report lead = true ->
  requests (feedback_of ref (rtcp.norm lead)) = [] /\ filter (fun fb => is_echo_fb fb = true) (feedback_of ref (rtcp.norm lead)) = [].
Proof. by destruct lead. Qed.

Lemma echoes_filter ssrc fbs : filter (fun fb => is_echo_fb fb = true) (echoes ssrc fbs) = echoes ssrc fbs.
Proof.
  induction fbs as [|fb fbs IH]; [done|]. unfold echoes in *. cbn [mbind list_bind].
  rewrite filter_app, IH. f_equal. by destruct fb.
Qed.

Lemma feedback_over_wire dst lead ssrc cname fbs bitmask ref :
  rtcp.is_report lead = true -> rtcp.valid lead -> in_u32 ssrc -> is_bytes cname -> in_u32 ref -> Forall (feedback_ok ref) fbs ->
  exists e sp out, encodeFeedback dst lead ssrc cname fbs bitmask = Ok (mkSlice (data dst ++ e) sp) /\
    decodeFeedback e ref = Some (Ok out) /\
    (bitmask = false -> requests out = requests fbs) /\ (forall r, r ∈ requests out <-> r ∈ requests fbs) /\
    filter (fun fb => is_echo_fb fb = true) out = echoes ssrc fbs.
Proof.
  intros Hlr Hlv Hs Hcn Hr Hf. destruct (nacks_spec ssrc bitmask ref fbs Hr Hf) as (N1 & N2 & N3 & N4).
  destruct (echoes_spec ssrc ref fbs Hs Hf) as (E1 & E2 & E3). destruct (report_feedback ref lead Hlr) as [R1 R2]. cbn zeta in *. rewrite E2 in E3.
  unfold encodeFeedback, decodeFeedback. set (ns := fbs ≫= nacks_of ssrc bitmask) in *. set (es := fbs ≫= echo_of ssrc) in *.
  set (pkts := [lead; rtcp.SDES ssrc cname] ++ ns ++ es).
  destruct (rtcp.compound_ok pkts dst) as [[sp Hb] Hp].
  - constructor; [done|]. constructor; [done|]. apply Forall_app. split; (eapply Forall_impl; [eassumption|]; by intros p []).
  - exists lead, (rtcp.SDES ssrc cname), ns, es. split_and!; try done; [by apply nacks_feedback|by apply echoes_forallb].
  - eexists _, sp, _. split; [exact Hb|]. rewrite Hp. split; [done|]. subst pkts. rewrite !fmap_app, !bind_app, !requests_app, !filter_app, N4, E2, E3.
    change ((rtcp.norm <$> [lead; rtcp.SDES ssrc cname]) ≫= feedback_of ref) with (feedback_of ref (rtcp.norm lead) ++ []).
    rewrite !app_nil_r, R1, R2, echoes_filter. done.
Qed.

(** ** Media over the wire *)

Lemma mark_facts ssrc : in_u32 ssrc -> Z.land ssrc 1 = 0 ->
  in_u32 (MarkRetransmit ssrc) /\ NormalizeSSRC (MarkRetransmit ssrc) = ssrc /\ IsRetransmit (MarkRetransmit ssrc) = true /\
  NormalizeSSRC ssrc = ssrc /\ IsRetransmit ssrc = false.
Proof.
  intros Hs Hev. unfold MarkRetransmit, NormalizeSSRC, IsRetransmit. rewrite Hev. change 1 with (Z.ones 1) in Hev at 1. rewrite Z.land_ones in Hev by lia. change (2 ^ 1) with 2 in Hev.
  assert (E : ssrc = Z.shiftl (ssrc / 2) 1) by (rewrite Z.shiftl_mul_pow2 by lia; change (2 ^ 1) with 2; pose proof (Z.div_mod ssrc 2); lia).
  assert (Em : Z.lor ssrc 1 = ssrc + 1) by (rewrite E at 1; rewrite lor_shiftl_add by lia; change (2 ^ 1) with 2; pose proof (Z.div_mod ssrc 2); lia).
  assert (Hn : forall z, Z.ldiff z 1 = z - z mod 2).
  { intros z. change 1 with (Z.ones 1). rewrite Z.ldiff_ones_r, Z.shiftl_mul_pow2, Z.shiftr_div_pow2 by lia. change (2 ^ 1) with 2. pose proof (Z.div_mod z 2). lia. }
  assert (Hl : forall z, Z.land z 1 = z mod 2) by (intros z; change 1 with (Z.ones 1); by rewrite Z.land_ones).
  rewrite !Hn, Em, Hl. pose proof (Z.div_mod ssrc 2). assert (Em1 : (ssrc + 1) mod 2 = 1) by (rewrite <-Z.add_mod_idemp_l, Hev by lia; done).
  rewrite Em1, Hev. unfold in_u32 in *. split_and!; try done; lia.
Qed.

(** Media packets a sender hands to the codec: typed, with the even base SSRC. *)
Record media_ok (pkt : MediaPacket) : Prop := {
  mo_typed : Wire.packet_typed pkt;
  mo_even : Z.land (SSRC pkt) 1 = 0;
  mo_payload : is_bytes (Payload pkt) }.

Lemma rtp_of_ok pkt : media_ok pkt -> Rtp.packet_typed (rtp_of pkt) /\ packet_ok (rtp_of pkt).
Proof.
  intros [[] He Hp]. destruct (mark_facts (SSRC pkt) pt_ssrc He) as (Hm & _). split; [|done]. split; cbn; try done.
  split; cbn; try done; try apply u16_range; try apply u32_range; try apply Forall_nil_2. by destruct (Retransmit pkt).
Qed.

(** Decoding the bytes of a packet, from any decoder state. *)
Lemma decode_enc pkt d :
  media_ok pkt ->
  decode (enc_packet (rtp_of pkt)) d =
    let seq32 := if md_started d then widenSeq (u16 (Seq pkt)) (md_refSeq d) else u16 (Seq pkt) in
    let ts := rtpTSFromSource (SourceTime pkt) in
    let '(src, d) := sourceTime seq32 ts (d <| md_started := true |> <| md_refSeq := seq32 |> <| lastWireTS := ts |>) in
    (Ok (mkMediaPacket seq32 src (SSRC pkt) (Payload pkt) (Retransmit pkt) 0 FragStandalone 0 0 true), d).
Proof.
  intros Hok. destruct (rtp_of_ok pkt Hok) as [Ht Hk]. destruct Hok as [[] He Hp]. destruct (mark_facts (SSRC pkt) pt_ssrc He) as (_ & M1 & M2 & M3 & M4).
  unfold decode. rewrite packet_Unmarshal_enc by done. unfold norm_packet, norm_header, rtp_of.
  cbn [p_Header Version SequenceNumber RTPTimestamp RTPSSRC p_Payload Z.eqb Pos.eqb negb]. cbv zeta.
  destruct (sourceTime _ _ _) as [src d']. do 2 f_equal. destruct (Retransmit pkt); by rewrite ?M1, ?M2, ?M3, ?M4.
Qed.

Section paced.
Context (s0 T0 k : Z).
Hypothesis (Hs0 : in_u16 s0) (HT0 : in_u32 T0) (Hk : 0 <= k < 2 ^ 31).

(** The decoder has seen packets up to offset [hi] from its anchor, the last one at offset [prev], of a stream with [k]
    ticks to a packet. *)
Record dec_inv (hi prev : Z) (d : mediaDecoder) : Prop := {
  di_started : md_started d = true /\ tsStarted d = true;
  di_ref : md_refSeq d = u32 (s0 + prev);
  di_base : tsBaseSeq d = s0 /\ tsBaseTicks d = T0;
  di_high : tsRefSeq d = u32 (s0 + hi) /\ tsRefTicks d = T0 + k * hi;
  di_hi : 0 <= hi < 2 ^ 30 }.

Definition wire_ticks (j : Z) : Z := u32 (T0 + k * j).
Definition stream_time (j : Z) : Z := NTPTimeFromTimestamp (microsFromRTPTicks (Z.max 0 (T0 + k * j))).

(** What may come next: within 2^15 of the last packet, and, until the rate is known, within 2^31 ticks of the anchor. *)
Definition next_ok (hi prev j : Z) : Prop := Z.abs (j - prev) < 2 ^ 15 /\ Z.abs j < 2 ^ 30 /\ (0 < hi \/ Z.abs (k * j) < 2 ^ 31).

Lemma sourceTicks_paced hi prev d j :
  dec_inv hi prev d -> next_ok hi prev j ->
  exists d', sourceTicks (u32 (s0 + j)) (wire_ticks j) d = (Z.max 0 (T0 + k * j), d') /\
    md_started d' = md_started d /\ md_refSeq d' = md_refSeq d /\ tsStarted d' = true /\ tsBaseSeq d' = s0 /\ tsBaseTicks d' = T0 /\
    tsRefSeq d' = u32 (s0 + Z.max hi j) /\ tsRefTicks d' = T0 + k * Z.max hi j.
Proof.
  intros [[Hst Hts] Href [Hb Hbt] [Hr Hrt] Hhi] (Hp & Hj & Hjump). unfold sourceTicks. rewrite Hts, Hb, Hbt, Hr, Hrt. cbn [negb].
  unfold in_u16, in_u32 in *. change (2 ^ 31) with 2147483648 in *. change (2 ^ 30) with 1073741824 in *.
  assert (B1 : Z.abs (k * j) <= 2147483648 * 1073741824) by nia. assert (B2 : 0 <= k * hi <= 2147483648 * 1073741824) by nia. assert (B3 : Z.abs (k * (j - hi)) <= 2 * (2147483648 * 1073741824)) by nia.
  assert (E1 : i32 (u32 (u32 (s0 + hi) - s0)) = hi) by (rewrite u32_sub_l; replace (s0 + hi - s0) with hi by lia; apply i32_u32; lia).
  assert (E2 : i32 (u32 (u32 (s0 + j) - u32 (s0 + hi))) = j - hi).
  { assert (E : u32 (u32 (s0 + j) - u32 (s0 + hi)) = u32 (j - hi)) by (apply (uwrap_cong 32); [lia|]; destruct (u32_spec (s0 + j)) as (a & -> & _); destruct (u32_spec (s0 + hi)) as (b & -> & _); exists (b - a); change (2 ^ 32) with 4294967296; lia).
    rewrite E. apply i32_u32. lia. }
  rewrite E1, E2. set (ref := if 0 <? hi then _ else _).
  assert (Hrefv : Z.abs (T0 + k * j - ref) < 2147483648 /\ - 2 ^ 62 < ref < 2 ^ 62).
  { subst ref. change (2 ^ 62) with 4611686018427387904. destruct (Z.ltb_spec 0 hi) as [Hpos|Hz].
    - replace (T0 + k * hi - T0) with (k * hi) by lia. rewrite (i64_id (k * hi)) by (unfold in_i64; lia). rewrite Z.quot_mul by lia.
      rewrite (i64_id ((j - hi) * k)) by (unfold in_i64; lia). rewrite i64_id by (unfold in_i64; lia). lia.
    - assert (hi = 0) as -> by lia. destruct Hjump; lia. }
  assert (Hw : widenTicks (wire_ticks j) ref = T0 + k * j) by (apply widenTicks_exact; change (2 ^ 31) with 2147483648; lia).
  rewrite Hw. destruct (Z.ltb_spec 0 (j - hi)).
  - eexists. split; [f_equal; destruct (Z.ltb_spec (T0 + k * j) 0); lia|]. cbn. rewrite Z.max_r by lia. by split_and!.
  - eexists. split; [f_equal; destruct (Z.ltb_spec (T0 + k * j) 0); lia|]. cbn. rewrite Z.max_l by lia. by split_and!.
Qed.

(** A packet of the stream at offset [j]: the sender numbers from [S0], which is [s0] modulo 2^16. *)
Definition at_offset (S0 : Z) (jp : Z * MediaPacket) : Prop :=
  media_ok jp.2 /\ Seq jp.2 = u32 (S0 + jp.1) /\ rtpTSFromSource (SourceTime jp.2) = wire_ticks jp.1.

(** The packet the receiver's flow gets: everything but the retransmit mark depends on the offset and payload alone. *)
Definition arrival (jp : Z * MediaPacket) : MediaPacket :=
  mkMediaPacket (u32 (s0 + jp.1)) (stream_time jp.1) (SSRC jp.2) (Payload jp.2) (Retransmit jp.2) 0 FragStandalone 0 0 true.

Lemma decode_paced S0 hi prev d jp :
  u16 S0 = s0 -> dec_inv hi prev d -> next_ok hi prev jp.1 -> at_offset S0 jp ->
  exists d', decode (enc_packet (rtp_of jp.2)) d = (Ok (arrival jp), d') /\ dec_inv (Z.max hi jp.1) jp.1 d'.
Proof.
  destruct jp as [j pkt]. cbn [fst snd]. intros HS Hi Hn (Hm & Hseq & Hts). cbn [fst snd] in *. rewrite decode_enc by done. cbv zeta. destruct (di_started _ _ _ Hi) as [Hst Hts2].
  rewrite Hst, Hts, (di_ref _ _ _ Hi). pose proof Hn as (Hp & Hj & _). pose proof (di_hi _ _ _ Hi) as Hhi.
  change (2 ^ 15) with 32768 in Hp. change (2 ^ 30) with 1073741824 in *.
  assert (Hw : widenSeq (u16 (Seq pkt)) (u32 (s0 + prev)) = u32 (s0 + j)).
  { rewrite Hseq. cbn [fst]. assert (E : u16 (u32 (S0 + j)) = u16 (u32 (s0 + prev) + (j - prev))).
    { rewrite u16_u32, u16_u32_add. replace (s0 + prev + (j - prev)) with (s0 + j) by lia. rewrite <-HS, u16_add_l. done. }
    rewrite E, widenSeq_exact by (apply u32_range || lia). rewrite u32_add_l. f_equal. lia. }
  rewrite Hw. unfold sourceTime. set (d1 := d <| md_started := true |> <| md_refSeq := _ |> <| lastWireTS := _ |>).
  assert (Hi1 : dec_inv hi j d1). { destruct Hi. by split. }
  destruct (sourceTicks_paced hi j d1 j Hi1) as (d' & -> & D1 & D2 & D3 & D4 & D5 & D6 & D7).
  { destruct Hn as (_ & ? & ?). split_and!; [rewrite Z.sub_diag; done|done|done]. }
  exists d'. split; [done|]. split; [by rewrite D1, D3|by rewrite D2|done|done|change (2 ^ 30) with 1073741824; lia].
Qed.

Fixpoint decode_all (bs : list bytes) (d : mediaDecoder) : list (res decodeError MediaPacket) :=
  match bs with [] => [] | b :: bs => let '(r, d) := decode b d in r :: decode_all bs d end.

Fixpoint paced (hi prev : Z) (js : list Z) : Prop :=
  match js with [] => True | j :: js => next_ok hi prev j /\ paced (Z.max hi j) j js end.

Lemma decode_all_paced S0 hi prev d jps :
  u16 S0 = s0 -> dec_inv hi prev d -> paced hi prev jps.*1 -> Forall (at_offset S0) jps ->
  decode_all ((fun jp => enc_packet (rtp_of jp.2)) <$> jps) d = (fun jp => Ok (arrival jp)) <$> jps.
Proof.
  intros HS Hi Hp Hf. revert hi prev d Hi Hp. induction Hf as [|jp jps Hjp Hf IH]; intros hi prev d Hi Hp; [done|]. cbn [fmap list_fmap decode_all] in *.
  destruct Hp as [Hn Hp]. destruct (decode_paced S0 hi prev d jp HS Hi Hn Hjp) as (d' & -> & Hi'). by rewrite (IH _ _ _ Hi' Hp).
Qed.

(** The first packet anchors the decoder. *)
Lemma decode_first S0 pkt :
  u16 S0 = s0 -> at_offset S0 (0, pkt) ->
  exists d', decode (enc_packet (rtp_of pkt)) md_zero = (Ok (arrival (0, pkt)), d') /\ dec_inv 0 0 d'.
Proof.
  intros HS (Hm & Hseq & Hts). cbn [fst snd] in *. rewrite decode_enc by done. cbv zeta. cbn [md_started md_zero]. rewrite Hseq, Hts, Z.add_0_r, u16_u32, HS.
  unfold sourceTime, sourceTicks, wire_ticks. cbn [tsStarted negb md_zero].
  assert (E : u32 (T0 + k * 0) = T0) by (rewrite Z.mul_0_r, Z.add_0_r; by apply u32_id).
  assert (Es : u32 s0 = s0) by (apply u32_id; unfold in_u16, in_u32 in *; lia).
  eexists. split.
  - unfold arrival, stream_time. cbn [fst snd].
    assert (E0 : Z.max 0 (T0 + k * 0) = T0) by (unfold in_u32 in HT0; lia). rewrite E, E0, Z.add_0_r, Es. reflexivity.
  - split; cbn; rewrite ?Z.mul_0_r, ?Z.add_0_r, ?Es; try done.
Qed.
End paced.

(** ** Properties *)

(** A retransmission request survives the wire: the compound that carries a flow's feedback decodes, at a sender whose send
    position is [ref], into feedback that asks for exactly the sequences requested, per stream and
    32-bit numbered, for any within 65536 of that position and across the wrap (in order with the
    range encoding, as a set with the bitmask), and carries the echoes in order. *)
Theorem simple_feedback_round_trip dst lead ssrc cname fbs bitmask ref :
  rtcp.is_report lead = true -> rtcp.valid lead -> in_u32 ssrc -> is_bytes cname -> in_u32 ref -> Forall (feedback_ok ref) fbs ->
  exists e sp out, encodeFeedback dst lead ssrc cname fbs bitmask = Ok (mkSlice (data dst ++ e) sp) /\
    decodeFeedback e ref = Some (Ok out) /\
    (bitmask = false -> requests out = requests fbs) /\ (forall r, r ∈ requests out <-> r ∈ requests fbs) /\
    filter (fun fb => is_echo_fb fb = true) out = echoes ssrc fbs.
Proof. apply feedback_over_wire. Qed.

(** C23: A media stream survives the wire in any order: for a stream with a constant tick step below 2^31, starting anywhere in
    the 32-bit sequence and timestamp spaces, the encoded packets, however lost, repeated, reordered or retransmitted, as
    long as each comes within 2^15 of the last one received and within 2^30 of the first (and, until a packet after the first has
    come, within 2^31 ticks of it), decode to packets with the right payload, SSRC and retransmit mark, whose sequence and
    source time are functions of the position alone: a retransmission and its original agree on both, across the
    wraps of the 16-bit sequence and of the 32-bit timestamp.  (2^32 + 1 packets on they do not: [simple_source_time_jumps].) *)
Theorem simple_media_stream T0 k S0 first jps :
  in_u32 T0 -> 0 <= k < 2 ^ 31 -> at_offset T0 k S0 (0, first) -> Forall (at_offset T0 k S0) jps -> paced k 0 0 jps.*1 ->
  decode_all ((fun jp => enc_packet (rtp_of jp.2)) <$> ((0, first) :: jps)) md_zero =
    (fun jp => Ok (arrival (u16 S0) T0 k jp)) <$> ((0, first) :: jps) /\
  (forall dst jp, jp ∈ (0, first) :: jps -> exists sp, encodeMedia dst jp.2 = (Ok tt, mkSlice (data dst ++ enc_packet (rtp_of jp.2)) sp)).
Proof.
  intros HT Hk Hf Hjps Hp. split.
  - destruct (decode_first (u16 S0) T0 k (u16_range S0) HT S0 first eq_refl Hf) as (d & E & Hi). cbn [fmap list_fmap decode_all snd]. rewrite E.
    f_equal. by apply (decode_all_paced (u16 S0) T0 k HT Hk S0 0 0).
  - intros dst jp Hin. assert (Hm : media_ok jp.2).
    { apply elem_of_cons in Hin as [->|Hin]; [apply Hf|]. rewrite Forall_forall in Hjps. by apply Hjps. }
    destruct (rtp_of_ok _ Hm). by apply packet_AppendTo_spec.
Qed.

Lemma simple_feedback_round_trip_witness :
  exists e sp out, encodeFeedback (mkSlice [] []) (rtcp.EmptyReceiverReport 7) 7 [114] [NackRequest 8 [4294967295; 0; 5]; RttEchoRequest 0 99] false = Ok (mkSlice e sp) /\
    decodeFeedback e 9 = Some (Ok out) /\ requests out = [(8, 4294967295); (8, 0); (8, 5)].
Proof.
  destruct (simple_feedback_round_trip (mkSlice [] []) (rtcp.EmptyReceiverReport 7) 7 [114] [NackRequest 8 [4294967295; 0; 5]; RttEchoRequest 0 99] false 9)
    as (e & sp & out & H1 & H2 & H3 & _).
  - reflexivity.
  - split; [discriminate|reflexivity].
  - split; [discriminate|reflexivity].
  - repeat constructor; discriminate.
  - split; [discriminate|reflexivity].
  - constructor; [|constructor; [|constructor]].
    + split; [split; [discriminate|reflexivity]|]. split; [vm_compute; discriminate|].
      constructor; [exists 10|constructor; [exists 9|constructor; [exists 4|constructor]]]; repeat split; try discriminate.
    + repeat split; discriminate.
  - exists e, sp, out. split; [exact H1|]. split; [exact H2|]. apply H3. reflexivity.
Defined.

(** A packet at offset [j] of a stream of 3600 ticks a packet that starts 2000 ticks before the timestamp wraps. *)
Definition demo_media (j : Z) (re : bool) : MediaPacket :=
  mkMediaPacket (u32 (4294967294 + j)) (NTPTimeFromTimestamp (microsFromRTPTicks (4294965294 + 3600 * j))) 8 [j] re 0 FragStandalone 0 0 false.

Lemma simple_media_stream_witness :
  decode_all ((fun jp => enc_packet (rtp_of jp.2)) <$> [(0, demo_media 0 false); (3, demo_media 3 false); (1, demo_media 1 true)]) md_zero =
    (fun jp => Ok (arrival (u16 4294967294) 4294965294 3600 jp)) <$> [(0, demo_media 0 false); (3, demo_media 3 false); (1, demo_media 1 true)].
Proof.
  apply (simple_media_stream 4294965294 3600 4294967294 (demo_media 0 false) [(3, demo_media 3 false); (1, demo_media 1 true)]).
  - split; [discriminate|reflexivity].
  - split; [discriminate|reflexivity].
  - split; [split; [repeat split; discriminate|reflexivity|repeat constructor; discriminate]|]. split; reflexivity.
  - constructor; [|constructor; [|constructor]]; (split; [split; [repeat split; discriminate|reflexivity|repeat constructor; discriminate]|]; split; reflexivity).
  - cbn. split; [|split; [|exact I]]; (split; [reflexivity|split; [reflexivity|]]); [right|left]; reflexivity.
Defined.

(** ** Flows of more than 2^32 packets *)

(** The decoder after packets 0 to [n] of a stream of [k] ticks a packet arrived in order. *)
Fixpoint ticks_in_order (s0 T0 k : Z) (n : nat) (d : mediaDecoder) : mediaDecoder :=
  match n with
  | O => (sourceTicks (u32 s0) (u32 T0) d).2
  | S m => (sourceTicks (u32 (s0 + Z.of_nat n)) (u32 (T0 + k * Z.of_nat n)) (ticks_in_order s0 T0 k m d)).2
  end.

Section long_flow.
Context (s0 T0 k : Z) (T0_range : in_u32 T0) (k_range : 0 < k < 2 ^ 26).

Record long_inv (r : Z) (d : mediaDecoder) : Prop := {
  li_started : tsStarted d = true;
  li_base : tsBaseSeq d = u32 s0 /\ tsBaseTicks d = T0;
  li_front : tsRefSeq d = u32 (s0 + r) /\ tsRefTicks d = T0 + k * r }.

(** The reference for the next packet in order, while the 32-bit distance from the base is right, negative or zero. *)
Lemma long_step r d : long_inv r d -> 0 <= r <= 2 ^ 32 -> long_inv (r + 1) (sourceTicks (u32 (s0 + (r + 1))) (u32 (T0 + k * (r + 1))) d).2.
Proof.
  intros [Hs [Hb1 Hb2] [Hf1 Hf2]] Hr. unfold in_u32 in T0_range. unfold sourceTicks. rewrite Hs, Hb1, Hb2, Hf1, Hf2, !u32_diff. cbn [negb]. cbv zeta.
  replace (s0 + r - s0) with r by lia. replace (s0 + (r + 1) - (s0 + r)) with 1 by lia. change (i32 (u32 1)) with 1. change (0 <? 1) with true. cbv iota. change (2 ^ 32) with 4294967296 in *. change (2 ^ 26) with 67108864 in *.
  assert (B : 0 <= k * r <= 67108864 * 4294967296) by nia. set (ref := if 0 <? i32 (u32 r) then _ else _).
  assert (Href : Z.abs (T0 + k * (r + 1) - ref) < 2147483648 /\ 0 <= ref < 4611686018427387904).
  { subst ref. destruct (Z.ltb_spec 0 (i32 (u32 r))) as [Hp|Hp]; [|lia].
    assert (E : i32 (u32 r) = r).
    { destruct (Z.lt_ge_cases r 2147483648) as [Hl|Hg]; [apply i32_u32; change (2 ^ 31) with 2147483648; lia|]. exfalso. revert Hp. unfold i32, swrap, u32, uwrap. change (2 ^ 32) with 4294967296. change (2 ^ (32 - 1)) with 2147483648.
      destruct (Z.eq_dec r 4294967296) as [->|Hn]; [done|]. rewrite (Z.mod_small r) by lia. rewrite (Z.mod_eq (r + 2147483648) 4294967296) by done. assert ((r + 2147483648) / 4294967296 = 1) as -> by (symmetry; apply (Z.div_unique _ _ _ (r - 2147483648)); lia). lia. }
    rewrite E. replace (T0 + k * r - T0) with (k * r) by lia. rewrite (i64_id (k * r)) by (unfold in_i64; lia). rewrite Z.quot_mul by lia. rewrite Z.mul_1_l, (i64_id k), i64_id by (unfold in_i64; lia). lia. }
  rewrite widenTicks_exact by (change (2 ^ 62) with 4611686018427387904; change (2 ^ 31) with 2147483648; lia). split; [done|done|done].
Qed.

Lemma ticks_in_order_inv n d : tsStarted d = false -> Z.of_nat n <= 2 ^ 32 + 1 -> long_inv (Z.of_nat n) (ticks_in_order s0 T0 k n d).
Proof.
  intros Hd. induction n as [|n IH]; intros Hn.
  - cbn [ticks_in_order]. unfold sourceTicks. rewrite Hd. cbn [negb snd]. rewrite u32_id by done. split; [done|done|]. cbn. by rewrite Z.mul_0_r, !Z.add_0_r.
  - cbn [ticks_in_order]. rewrite Nat2Z.inj_succ, <-Z.add_1_r in *. apply long_step; [apply IH; lia|lia].
Qed.

(** Source times jump on a flow of more than 2^32 packets: once 2^32 + 1 packets have arrived since the first, the 32-bit distance
    over which the tick rate is averaged is one packet again, the rate comes out 2^32 times too large, and the next packet, in order and of
    perfectly even spacing, is placed [k * 2^32] ticks after its time (at 45 ticks a packet, 2000 packets a second, 24 days). *)
Theorem simple_source_time_jumps n d : tsStarted d = false -> Z.of_nat n = 2 ^ 32 + 1 ->
  (sourceTicks (u32 (s0 + (Z.of_nat n + 1))) (u32 (T0 + k * (Z.of_nat n + 1))) (ticks_in_order s0 T0 k n d)).1 = T0 + k * (Z.of_nat n + 1) + k * 2 ^ 32.
Proof.
  intros Hd Hn. destruct (ticks_in_order_inv n d Hd) as [Hs [Hb1 Hb2] [Hf1 Hf2]]; [lia|]. rewrite Hn in *. unfold sourceTicks. rewrite Hs, Hb1, Hb2, Hf1, Hf2, !u32_diff. cbn [negb]. cbv zeta.
  replace (s0 + (2 ^ 32 + 1) - s0) with (2 ^ 32 + 1) by lia. change (i32 (u32 (2 ^ 32 + 1))) with 1. replace (s0 + (2 ^ 32 + 1 + 1) - (s0 + (2 ^ 32 + 1))) with 1 by lia. change (i32 (u32 1)) with 1.
  change (0 <? 1) with true. cbv iota. cbn [fst]. replace (T0 + k * (2 ^ 32 + 1) - T0) with (k * (2 ^ 32 + 1)) by lia. unfold in_u32 in T0_range. change (2 ^ 32) with 4294967296 in *. change (2 ^ 26) with 67108864 in *.
  rewrite (i64_id (k * _)), Z.quot_1_r, Z.mul_1_l, (i64_id (k * _)), i64_id by (unfold in_i64; lia).
  assert (E : u32 (T0 + k * (4294967296 + 1 + 1)) = u32 (T0 + k * (4294967296 + 1 + 1) + k * 4294967296)) by (unfold u32, uwrap; change (2 ^ 32) with 4294967296; by rewrite Z.mod_add).
  rewrite E, widenTicks_exact by (change (2 ^ 62) with 4611686018427387904; change (2 ^ 31) with 2147483648; lia). destruct (Z.ltb_spec (T0 + k * (4294967296 + 1 + 1) + k * 4294967296) 0); lia.
Qed.
End long_flow.

Lemma simple_source_time_jumps_witness :
  (sourceTicks (u32 (7 + (Z.of_nat (Z.to_nat (2 ^ 32 + 1)) + 1))) (u32 (5 + 45 * (Z.of_nat (Z.to_nat (2 ^ 32 + 1)) + 1))) (ticks_in_order 7 5 45 (Z.to_nat (2 ^ 32 + 1)) md_zero)).1 =
  5 + 45 * (Z.of_nat (Z.to_nat (2 ^ 32 + 1)) + 1) + 45 * 2 ^ 32.
Proof. apply (simple_source_time_jumps 7 5 45 ltac:(done) ltac:(done) (Z.to_nat (2 ^ 32 + 1)) md_zero); [reflexivity|by rewrite Z2Nat.id]. Defined.
