(* ===== verification/AdvCodec.v ===== *)
(** * The Advanced-profile codec: src/internal/session/codec_adv.go

    The composition of the Advanced framing ([Adv], [AdvCtrl]), payload compression ([Lpc]) and payload encryption ([Psk]) between
    the flow core's packets and feedback and the datagrams of the wire, with the reconstruction of source times from the
    wrapping 32-bit timestamp.  The key derivation and the block function are the parameters of [Psk]; the random source that a
    rotating key draws from is threaded through the send path. *)

From stdpp Require Import sets.
From S2P Require Import Prelude Bytes Clock Wire Lpc Adv AdvCtrl Psk SimpleCodec.

Module advcodec.

(** The errors of the packages below, and those of this file. *)
Inductive err :=
  | ErrAdv (e : adv.err) | ErrCrypto (e : psk.err) | ErrLpc (e : lpc.err)
  | ErrCleartext | ErrNoDecryptor | ErrMissingNonce | ErrUnsupportedPSK (mode : Z) | ErrUnsupportedLPC (mode : Z) | ErrUnsupportedType (t : Z).

Definition wrap {E A} (f : E -> err) (r : res E A) : res err A := match r with Ok a => Ok a | Err e => Err (f e) | Panic => Panic end.

(** A method that cannot fail, and a method of the codec as it then is. *)
Definition call {S E A} (f : S -> A * S) : sres S E A := fun s => let '(a, s) := f s in (Ok a, s).
Definition with_self {S E A} (f : S -> sres S E A) : sres S E A := fun s => f s s.

Definition advClockShift : Z := 16.
Definition maxAdvDecompressed : Z := 10000.

Record advCodec := mkAdvCodec {
  sendKey : option psk.Key; recvKey : option psk.Decryptor; announceNonce : bytes; announceBits : Z; hasAnnounce : bool; compression : bool; ssrc : Z; srcPort : Z; dstPort : Z;
  ctrlSeq : Z; tsStarted : bool; tsBaseSeq : Z; tsBaseTicks : Z; tsRefSeq : Z; tsRefTicks : Z; peerAdvCap : option bool }.
#[export] Instance eta_advCodec : Eta advCodec := fun c =>
  mkAdvCodec (sendKey c) (recvKey c) (announceNonce c) (announceBits c) (hasAnnounce c) (compression c) (ssrc c) (srcPort c) (dstPort c)
    (ctrlSeq c) (tsStarted c) (tsBaseSeq c) (tsBaseTicks c) (tsRefSeq c) (tsRefTicks c) (peerAdvCap c).

Definition newAdvCodec (send : option psk.Key) (recv : option psk.Decryptor) (comp : bool) (ssrc srcPort dstPort : Z) : advCodec :=
  mkAdvCodec send recv (replicate 4 0) 0 false comp ssrc srcPort dstPort 0 false 0 0 0 0 None.

Definition advTSFromSource (src : Z) : Z := u32 (u64 (Z.shiftl (u64 (NTPTime.toTimestamp src)) advClockShift)).

Definition fragBits (r : FragRole) : bool * bool :=
  match r with FragFirst => (true, false) | FragMiddle => (false, false) | FragLast => (false, true) | FragStandalone => (true, true) end.

Definition fragRole (first last : bool) : FragRole :=
  if first && last then FragStandalone else if first then FragFirst else if last then FragLast else FragMiddle.

Definition flowIDFromPorts (srcPort dstPort : Z) : adv.FlowID := adv.mkFlowID dstPort (Z.land srcPort 0x0FFF) 0.

(** A fixed-size array filled by [copy] from a slice. *)
Definition array_of (n : nat) (b : bytes) : bytes := take n (b ++ replicate n 0).

(** ** Source times *)

Definition advSourceMicros (seqNum wireTS : Z) (c : advCodec) : Z * advCodec :=
  if negb (tsStarted c) then
    let c := c <| tsStarted := true |> <| tsBaseSeq := seqNum |> <| tsBaseTicks := wireTS |> <| tsRefSeq := seqNum |> <| tsRefTicks := wireTS |> in
    (Z.shiftr wireTS advClockShift, c)
  else
    let ref := tsRefTicks c in
    let d := i32 (u32 (tsRefSeq c - tsBaseSeq c)) in
    let ref := if 0 <? d then
        let ticksPerSeq := i64 (tsRefTicks c - tsBaseTicks c) /g d in
        i64 (ref + i64 (i32 (u32 (seqNum - tsRefSeq c)) * ticksPerSeq))
      else ref in
    let ticks := widenTicks wireTS ref in
    let c := if 0 <? i32 (u32 (seqNum - tsRefSeq c)) then c <| tsRefSeq := seqNum |> <| tsRefTicks := ticks |> else c in
    let ticks := if ticks <? 0 then 0 else ticks in
    (Z.shiftr ticks advClockShift, c).

Section primitives.
Context (pbkdf2 : bytes -> bytes -> Z -> option bytes) (aes : bytes -> bytes -> bytes).

(** ** Media out *)

(** The compression step: the payload to send and its LPC mode. *)
Definition compress_payload (c : advCodec) (payload : bytes) : res err (bytes * Z) :=
  if compression c && (0 <? zlen payload) then
    match lpc.Compress [] payload with
    | Ok comp => if zlen comp <? zlen payload then Ok (comp, adv.LPCLZ4) else Ok (payload, adv.LPCNone)
    | Err _ => Ok (payload, adv.LPCNone)
    | Panic => Panic
    end
  else Ok (payload, adv.LPCNone).

(** The packet description, with the PSK mode and the nonce and IV fields. *)
Definition media_params (c : advCodec) (pkt : MediaPacket) (lpcMode pskMode : Z) (nonce iv : option bytes) : adv.Params :=
  let '(first, last) := fragBits (Frag pkt) in
  let fid := if negb (srcPort c =? 0) || negb (dstPort c =? 0) then Some (flowIDFromPorts (srcPort c) (dstPort c)) else None in
  adv.mkParams (Seq pkt) (advTSFromSource (SourceTime pkt)) (adv.SSRCProtected (ssrc c)) adv.TypeDirect pskMode lpcMode first last false (Retransmit pkt) fid None nonce iv None None [].

Definition encodeAdvMedia (dst : bytes) (pkt : MediaPacket) (draws : list (option bytes)) (c : advCodec) : (res err bytes * advCodec) * list (option bytes) :=
  match compress_payload c (Payload pkt) with
  | Ok (payload, lpcMode) =>
      match sendKey c with
      | None => ((wrap ErrAdv (adv.Build dst (media_params c pkt lpcMode adv.PSKNone None None) payload), c), draws)
      | Some k =>
          let before := psk.Nonce k in
          let '((r, k), draws) := psk.Encrypt pbkdf2 aes (Seq pkt) [] payload draws k in
          let c := c <| sendKey := Some k |> in
          match r with
          | Ok ct =>
              let nonce := psk.Nonce k in
              let params := media_params c pkt lpcMode adv.PSKAESCTR (Some nonce) (Some (be_bytes 4 (Seq pkt))) in
              let c := if bool_decide (nonce = before) then c else c <| announceNonce := nonce |> <| announceBits := psk.KeyBits k |> <| hasAnnounce := true |> in
              ((wrap ErrAdv (adv.Build dst params ct), c), draws)
          | Err e => ((Err (ErrCrypto e), c), draws)
          | Panic => ((Panic, c), draws)
          end
      end
  | Err e => ((Err e, c), draws)
  | Panic => ((Panic, c), draws)
  end.

(** ** Media in *)

(** The decryption step. *)
Definition decrypt_payload (p : adv.Parsed) : sres advCodec err bytes := fun c =>
  let data := adv.o_Payload p in
  if adv.o_PSKMode p =? adv.PSKNone then
    match recvKey c with Some _ => (Err ErrCleartext, c) | None => (Ok data, c) end
  else if adv.o_PSKMode p =? adv.PSKAESCTR then
    match recvKey c with
    | None => (Err ErrNoDecryptor, c)
    | Some d =>
        match adv.o_PSKNonce p, adv.o_PSKIV p with
        | Some n, Some iv =>
            let nonce := array_of 4 n in
            match Uint32 iv with
            | Ok ivSeq =>
                let '(r, d) := psk.Decrypt pbkdf2 aes nonce ivSeq [] data d in
                (wrap ErrCrypto r, c <| recvKey := Some d |>)
            | Err e => (Err e, c)
            | Panic => (Panic, c)
            end
        | _, _ => (Err ErrMissingNonce, c)
        end
    end
  else (Err (ErrUnsupportedPSK (adv.o_PSKMode p)), c).

(** The decompression step. *)
Definition decompress_payload (lpcMode : Z) (data : bytes) : res err bytes :=
  if lpcMode =? adv.LPCNone then Ok data
  else if lpcMode =? adv.LPCLZ4 then
    if 0 <? zlen data then wrap ErrLpc (lpc.Decompress [] data maxAdvDecompressed) else Ok data
  else Err (ErrUnsupportedLPC lpcMode).

Definition decodeMediaAdv (p : adv.Parsed) : sres advCodec err MediaPacket :=
  data ← decrypt_payload p;
  data ← lift (decompress_payload (adv.o_LPCMode p) data);
  micros ← call (advSourceMicros (adv.o_Seq p) (adv.o_Timestamp p));
  mret (mkMediaPacket (adv.o_Seq p) (NTPTimeFromTimestamp micros) (adv.SSRCProtected (adv.o_SSRC p)) data (adv.o_Retransmit p) 0
          (fragRole (adv.o_FirstFrag p) (adv.o_LastFrag p)) 0 0 false).

(** ** Control in *)

Definition decodeControl (payload : bytes) : sres advCodec err (list Feedback) :=
  '(ci, body) ← lift (wrap ErrAdv (advctrl.ParseControl payload));
  if ci =? advctrl.CINackBitmask then
    n ← lift (wrap ErrAdv (advctrl.ParseNackBitmask body));
    mret [NackRequest (advctrl.bm_MediaSSRC n) (advctrl.bitmask_Missing n)]
  else if ci =? advctrl.CINackRange then
    n ← lift (wrap ErrAdv (advctrl.ParseNackRange body));
    mret [NackRequest (advctrl.rg_MediaSSRC n) (advctrl.range_Missing n)]
  else if ci =? advctrl.CIRTTEchoReq then
    e ← lift (wrap ErrAdv (advctrl.ParseRTTEcho body));
    mret [RttEchoRequest 0 (advctrl.echo_Timestamp e)]
  else if ci =? advctrl.CIRTTEchoResp then
    e ← lift (wrap ErrAdv (advctrl.ParseRTTEcho body));
    mret [RttEchoResponse 0 (advctrl.echo_Timestamp e) (advctrl.ProcessingDelay e)]
  else if (ci =? advctrl.CILQMGlobal) || (ci =? advctrl.CILQMLinkSpecific) then
    mret (if zlen body <? 44 then [] else [LinkQuality (array_of 44 body)])
  else if ci =? advctrl.CIFlowAttr then
    mret (if zlen body =? 0 then [] else [FlowAttribute body])
  else if ci =? advctrl.CIKeepalive then
    _ ← modify (fun c => match advctrl.ParseKeepalive body with
                         | Ok ka => c <| peerAdvCap := Some (negb (Z.land (advctrl.Caps ka) advctrl.KeepaliveCapI =? 0)) |>
                         | _ => c end);
    mret []
  else if ci =? advctrl.CIPSKNonce then
    _ ← modify (fun c => match recvKey c, advctrl.ParsePSKNonce body with
                         | Some d, Ok p => c <| recvKey := Some (psk.Precompute pbkdf2 (advctrl.pn_Nonce p) (advctrl.KeyBits p) d) |>
                         | _, _ => c end);
    mret []
  else if ci =? advctrl.CIUnsupported then mret []
  else mret [UnsupportedControl ci (array_of 6 body)].

(** What a datagram carries: [isMedia], and the packet or the feedback. *)
Definition decodeParsed (p : adv.Parsed) (c : advCodec) : (bool * res err (MediaPacket + list Feedback)) * advCodec :=
  if adv.o_EncType p =? adv.TypeControl then
    let '(r, c) := decodeControl (adv.o_Payload p) c in
    ((false, match r with Ok fbs => Ok (inr fbs) | Err e => Err e | Panic => Panic end), c)
  else if adv.o_EncType p =? adv.TypeDirect then
    let '(r, c) := decodeMediaAdv p c in
    ((true, match r with Ok pkt => Ok (inl pkt) | Err e => Err e | Panic => Panic end), c)
  else ((false, Err (ErrUnsupportedType (adv.o_EncType p))), c).

Definition decodeAdv (b : bytes) (c : advCodec) : (bool * res err (MediaPacket + list Feedback)) * advCodec :=
  match adv.Parse b with
  | Ok p => decodeParsed p c
  | Err e => ((false, Err (ErrAdv e)), c)
  | Panic => ((false, Panic), c)
  end.

Definition takePeerAdvCap (c : advCodec) : (bool * bool) * advCodec :=
  match peerAdvCap c with None => ((false, false), c) | Some i => ((i, true), c <| peerAdvCap := None |>) end.

(** ** Control out *)

Definition ctrlSSRC (c : advCodec) : Z := adv.SSRCUnprotected (ssrc c).

Definition frameControlFrag (dst payload : bytes) (first last : bool) (ts : Z) : sres advCodec err bytes := fun c =>
  let seq := ctrlSeq c in
  let c := c <| ctrlSeq ::= fun n => u32 (n + 1) |> in
  (wrap ErrAdv (adv.Build dst (adv.mkParams seq ts (ctrlSSRC c) adv.TypeControl adv.PSKNone adv.LPCNone first last true false None None None None None None []) payload), c).

Definition frameControl (dst payload : bytes) (ts : Z) : sres advCodec err bytes := frameControlFrag dst payload true true ts.

(** The control payloads one feedback value is sent as. *)
Definition feedback_payloads (c : advCodec) (bitmask : bool) (fb : Feedback) : list bytes :=
  match fb with
  | NackRequest s missing =>
      if bitmask then advctrl.BuildNackBitmask [] <$> advctrl.EncodeBitmaskNACK s missing else advctrl.BuildNackRange [] <$> advctrl.EncodeRangeNACK s missing
  | RttEchoRequest _ ts => [advctrl.BuildRTTEchoRequest [] (advctrl.RTTEchoFromTimestamp (ctrlSSRC c) ts 0)]
  | RttEchoResponse _ ts d => [advctrl.BuildRTTEchoResponse [] (advctrl.RTTEchoFromTimestamp (ctrlSSRC c) ts d)]
  | Keepalive => [advctrl.BuildKeepalive [] (advctrl.mkKeepalive (replicate 6 0) advctrl.KeepaliveCapI)]
  | _ => []
  end.

(** The calls of [emit], one per payload. *)
Fixpoint emit_all (payloads : list bytes) (ts : Z) : sres advCodec err (list bytes) :=
  match payloads with
  | [] => mret []
  | p :: ps => dg ← frameControl [] p ts; out ← emit_all ps ts; mret (dg :: out)
  end.

Fixpoint encodeFeedback (fbs : list Feedback) (bitmask : bool) (ts : Z) : sres advCodec err (list bytes) :=
  match fbs with
  | [] => mret []
  | fb :: fbs =>
      out ← with_self (fun c => emit_all (feedback_payloads c bitmask fb) ts);
      rest ← encodeFeedback fbs bitmask ts;
      mret (out ++ rest)
  end.

Definition keepaliveDatagram (ts : Z) : sres advCodec err bytes :=
  frameControl [] (advctrl.BuildKeepalive [] (advctrl.mkKeepalive (replicate 6 0) advctrl.KeepaliveCapI)) ts.
Definition unsupportedDatagram (u : advctrl.Unsupported) (ts : Z) : sres advCodec err bytes := frameControl [] (advctrl.BuildUnsupported [] u) ts.
Definition pskNonceDatagram (p : advctrl.PSKNonceMsg) (ts : Z) : sres advCodec err bytes := frameControl [] (advctrl.BuildPSKNonce [] p) ts.

Definition takeNonceAnnounce (c : advCodec) : (bytes * Z * bool) * advCodec :=
  if negb (hasAnnounce c) then ((replicate 4 0, 0, false), c) else ((announceNonce c, announceBits c, true), c <| hasAnnounce := false |>).
End primitives.

(** ** Source times of a stream *)

(** The microseconds the encoder reads off a packet. *)
Definition micros (src : Z) : Z := NTPTime.toTimestamp src.

Lemma advTSFromSource_u32 src : advTSFromSource src = u32 (65536 * micros src).
Proof.
  unfold advTSFromSource, advClockShift, micros. rewrite Z.shiftl_mul_pow2 by lia. unfold u32, u64, uwrap. change (2 ^ 16) with 65536.
  set (m := NTPTime.toTimestamp src). replace (2 ^ 64) with (2 ^ 32 * 2 ^ 32) by done. rewrite Z.mod_mod_divide by (by exists (2 ^ 32)).
  rewrite Z.mul_comm. rewrite (Z.mod_eq m) by done. replace (65536 * (m - 2 ^ 32 * 2 ^ 32 * (m / (2 ^ 32 * 2 ^ 32)))) with (65536 * m + (- (65536 * 2 ^ 32 * (m / (2 ^ 32 * 2 ^ 32)))) * 2 ^ 32) by lia.
  by rewrite Z.mod_add by done.
Qed.

(** [T j] is the tick count of packet [j] of the stream, which the wire carries modulo 2^32; packet 0 is the first to arrive.  The spacing is
    [k] ticks per packet up to a jitter of [J]. *)
Section ticks.
Context (s0 : Z) (T : Z -> Z) (k J : Z) (T0_range : in_u32 (T 0)).

Definition paced (j : Z) : Prop := Z.abs (T j - T 0 - k * j) <= J /\ Z.abs (T j) < 2 ^ 60.

(** Packet [j] arrives while [r] is the newest packet. *)
Definition in_reach (r j : Z) : Prop :=
  Z.abs (j - r) < 2 ^ 31 /\ r < 2 ^ 31 /\ (if r =? 0 then Z.abs (T j - T 0) < 2 ^ 31 else Z.abs (j - r) * (J + r) + 2 * J * r < 2 ^ 31 * r).

Definition at_front (r : Z) (c : advCodec) : Prop :=
  tsStarted c = true /\ tsBaseSeq c = u32 s0 /\ tsBaseTicks c = T 0 /\ tsRefSeq c = u32 (s0 + r) /\ tsRefTicks c = T r /\ 0 <= r.

(** The reference extrapolated from the front lies within half a wrap of the packet's own ticks. *)
Lemma extrapolate r j : 0 < r -> paced r -> paced j -> Z.abs (j - r) * (J + r) + 2 * J * r < 2 ^ 31 * r ->
  Z.abs (T j - (T r + (j - r) * ((T r - T 0) /g r))) < 2 ^ 31.
Proof.
  intros Hr [Hr1 _] [Hj1 _] Hb. set (q := (T r - T 0) /g r). pose proof (Z.quot_rem' (T r - T 0) r) as Hq. pose proof (Z.rem_bound_abs (T r - T 0) r ltac:(lia)) as Hm. fold q in Hq.
  set (m := Z.rem (T r - T 0) r) in *. set (e := T j - T r - k * (j - r)).
  assert (He : Z.abs e <= 2 * J) by lia. assert (Hk : Z.abs (r * (k - q)) <= J + r) by lia.
  assert (HX : r * (T j - (T r + (j - r) * q)) = (j - r) * (r * (k - q)) + r * e) by (subst e; ring).
  set (X := T j - (T r + (j - r) * q)) in *. assert (HR : r * Z.abs X <= Z.abs (j - r) * (J + r) + r * (2 * J)).
  { transitivity (Z.abs (r * X)); [rewrite Z.abs_mul; lia|]. rewrite HX. etransitivity; [apply Z.abs_triangle|]. rewrite !Z.abs_mul, (Z.abs_eq r) by lia.
    apply Z.add_le_mono; [|apply Z.mul_le_mono_nonneg_l; lia]. apply Z.mul_le_mono_nonneg_l; [lia|]. rewrite Z.abs_mul, (Z.abs_eq r) in Hk by lia. lia. }
  apply (Z.mul_lt_mono_pos_l r); lia.
Qed.

Lemma advSourceMicros_front r j c : at_front r c -> paced r -> paced j -> in_reach r j ->
  exists c', advSourceMicros (u32 (s0 + j)) (u32 (T j)) c = (Z.shiftr (Z.max 0 (T j)) 16, c') /\ at_front (Z.max r j) c' /\
    c' = c <| tsRefSeq := tsRefSeq c' |> <| tsRefTicks := tsRefTicks c' |>.
Proof.
  intros (S1 & S2 & S3 & S4 & S5 & Hr) Hpr Hpj (Hjr & Hj & Hb). pose proof Hpr as [_ Br]. pose proof Hpj as [_ Bj]. unfold in_u32 in T0_range.
  change (2 ^ 31) with 2147483648 in *. change (2 ^ 32) with 4294967296 in *. change (2 ^ 60) with 1152921504606846976 in *.
  assert (Hd : i32 (u32 (tsRefSeq c - tsBaseSeq c)) = r) by (rewrite S4, S2, u32_diff, i32_u32; lia).
  assert (He : i32 (u32 (u32 (s0 + j) - tsRefSeq c)) = j - r) by (rewrite S4, u32_diff, i32_u32; lia).
  unfold advSourceMicros. rewrite S1, Hd, He, S3, S5. cbn [negb]. cbv zeta. set (ref := if 0 <? r then _ else _).
  assert (Href : Z.abs ref < 2 ^ 62 /\ Z.abs (T j - ref) < 2147483648).
  { subst ref. change (2 ^ 62) with 4611686018427387904. destruct (Z.ltb_spec 0 r) as [Hr0|Hr0].
    - rewrite (proj2 (Z.eqb_neq r 0)) in Hb by lia. pose proof (extrapolate r j Hr0 Hpr Hpj Hb) as HX. change (2 ^ 31) with 2147483648 in HX.
      rewrite (i64_id (T r - T 0)) by (unfold in_i64; lia). set (w := (j - r) * _) in *. rewrite (i64_id w), i64_id by (unfold in_i64; lia). lia.
    - assert (r = 0) as -> by lia. cbn in Hb. lia. }
  rewrite (widenTicks_exact (T j) ref); [|lia|change (2 ^ 31) with 2147483648; lia]. eexists. split; [f_equal|].
  - f_equal. unfold advClockShift. f_equal. case_cmp; lia.
  - destruct (Z.ltb_spec 0 (j - r)).
    + rewrite Z.max_r by lia. split; [|by destruct c]. repeat split; cbn; try done; lia.
    + rewrite Z.max_l by lia. split; [|by destruct c]. by split_and!; try lia.
Qed.

Lemma advSourceMicros_first c : tsStarted c = false ->
  exists c', advSourceMicros (u32 s0) (u32 (T 0)) c = (Z.shiftr (Z.max 0 (T 0)) 16, c') /\ at_front 0 c' /\
    c' = c <| tsStarted := true |> <| tsBaseSeq := tsBaseSeq c' |> <| tsBaseTicks := tsBaseTicks c' |> <| tsRefSeq := tsRefSeq c' |> <| tsRefTicks := tsRefTicks c' |>.
Proof.
  intros Hs. unfold advSourceMicros. rewrite Hs, u32_id by done. cbn [negb]. unfold in_u32 in T0_range. rewrite Z.max_r by lia. eexists. split; [done|]. split; [|by destruct c].
  repeat split; cbn; rewrite ?Z.add_0_r; done.
Qed.
End ticks.

(** ** Framing *)

(** What the two ends agree on and no operation changes. *)
Definition same_flow (c c' : advCodec) : Prop := compression c' = compression c /\ ssrc c' = ssrc c /\ srcPort c' = srcPort c /\ dstPort c' = dstPort c.

#[export] Instance same_flow_preorder : PreOrder same_flow.
Proof. split; [done|]. intros a b c (H1 & H2 & H3 & H4) (G1 & G2 & G3 & G4). unfold same_flow. by rewrite G1, G2, G3, G4. Qed.

Definition flow_typed (c : advCodec) : Prop := in_u32 (ssrc c) /\ in_u16 (srcPort c) /\ in_u16 (dstPort c).

Definition media_typed (pkt : MediaPacket) : Prop := in_u32 (Seq pkt) /\ is_bytes (Payload pkt) /\ zlen (Payload pkt) <= maxAdvDecompressed.

Lemma SSRCProtected_u32 s : in_u32 s -> in_u32 (adv.SSRCProtected s) /\ adv.SSRCProtected (adv.SSRCProtected s) = adv.SSRCProtected s.
Proof.
  unfold adv.SSRCProtected, in_u32. intros Hs. change 1 with (Z.ones 1). rewrite !Z.ldiff_ones_r, !Z.shiftl_mul_pow2, !Z.shiftr_div_pow2 by lia. change (2 ^ 1) with 2.
  rewrite Z.div_mul by done. split; [|done]. pose proof (Z.div_mod s 2 ltac:(done)). pose proof (Z.mod_pos_bound s 2 ltac:(done)). lia.
Qed.

Lemma SSRCUnprotected_u32 s : in_u32 s -> in_u32 (adv.SSRCUnprotected s).
Proof.
  unfold adv.SSRCUnprotected, in_u32. intros Hs. assert (0 <= Z.lor s 1) by (apply Z.lor_nonneg; lia). split; [done|].
  destruct (Z.eq_dec (Z.lor s 1) 0) as [->|Hn]; [done|]. change 4294967296 with (2 ^ 32) in *. apply Z.log2_lt_pow2; [lia|]. rewrite Z.log2_lor by lia. apply Z.max_lub_lt; [|done].
  destruct (Z.eq_dec s 0) as [->|]; [done|]. apply Z.log2_lt_pow2; lia.
Qed.

Lemma fragRole_Bits r : let '(first, last) := fragBits r in fragRole first last = r.
Proof. by destruct r. Qed.

Lemma media_params_ok c pkt lpcMode pskMode nonce iv : flow_typed c -> media_typed pkt -> 0 <= lpcMode < 4 -> 0 <= pskMode < 8 ->
  adv.slice_ok nonce adv.PSKNonceSize -> adv.slice_ok iv adv.PSKIVSize -> adv.params_ok (media_params c pkt lpcMode pskMode nonce iv).
Proof.
  intros (H1 & H2 & H3) (H4 & _) Hl Hp Hn Hi. unfold media_params. destruct (fragBits (Frag pkt)) as [first last]. unfold adv.params_ok. cbn.
  split_and!; try done; [rewrite advTSFromSource_u32; apply u32_range|by apply SSRCProtected_u32|lia..| |left; done].
  intros f. destruct (negb (srcPort c =? 0) || negb (dstPort c =? 0)); [|done]. intros [= <-]. split; [done|]. cbn. unfold in_u16 in *.
  split; [|done]. change 4095 with (Z.ones 12). rewrite Z.land_ones by lia. pose proof (Z.mod_pos_bound (srcPort c) (2 ^ 12) ltac:(done)). change (2 ^ 12) with 4096 in *. lia.
Qed.

(** ** Compression *)

Lemma compress_payload_ok c payload : is_bytes payload -> zlen payload <= maxAdvDecompressed ->
  exists data lpcMode, compress_payload c payload = Ok (data, lpcMode) /\ 0 <= lpcMode < 4 /\ decompress_payload lpcMode data = Ok payload.
Proof.
  intros Hb Hl. unfold compress_payload. destruct (compression c && (0 <? zlen payload)) eqn:E; [|by exists payload, adv.LPCNone].
  apply andb_true_iff in E as [_ E]. apply Z.ltb_lt in E. destruct (lpc.Compress_Decompress [] payload Hb) as (blk & -> & _ & Hd). cbn [app].
  destruct (Z.ltb_spec (zlen blk) (zlen payload)); [|by exists payload, adv.LPCNone]. exists blk, adv.LPCLZ4. split; [done|]. split; [done|]. unfold decompress_payload. cbn [Z.eqb adv.LPCLZ4 adv.LPCNone].
  destruct (Z.ltb_spec 0 (zlen blk)) as [_|H0]; [by rewrite (Hd [] _ Hl)|]. assert (blk = []) as -> by (destruct blk; [done|rewrite zlen_cons in H0; pose proof (zlen_nonneg blk); lia]).
  specialize (Hd [] _ Hl). by destruct payload.
Qed.

(** ** One packet through the wire *)

Section channel.
Context (pbkdf2 : bytes -> bytes -> Z -> option bytes) (aes : bytes -> bytes -> bytes) (aes_len : forall key b, length (aes key b) = 16%nat).

(** The passphrase, key size and derivation of an encrypted flow. *)
Context (keys : option (bytes * Z * bool)).

Definition send_ok (c : advCodec) : Prop :=
  match keys, sendKey c with None, None => True | Some (pw, kb, raw), Some k => psk.key_ok pbkdf2 pw kb raw k | _, _ => False end.

(** The decryptor has handled at most [n] packets. *)
Definition recv_ok (n : Z) (c : advCodec) : Prop :=
  match keys, recvKey c with None, None => True | Some (pw, kb, raw), Some d => psk.dec_ok pbkdf2 pw kb raw n d | _, _ => False end.

(** What a datagram that carries [pkt] parses to. *)
Definition on_wire (c : advCodec) (pkt : MediaPacket) (dg : bytes) : Prop :=
  exists data lpcMode, decompress_payload lpcMode data = Ok (Payload pkt) /\
  match keys with
  | None => adv.Parse dg = Ok (adv.parsed_of (media_params c pkt lpcMode adv.PSKNone None None) data)
  | Some (pw, kb, raw) => exists nonce block, psk.deriveBlock pbkdf2 pw nonce kb raw = Ok block /\
      adv.Parse dg = Ok (adv.parsed_of (media_params c pkt lpcMode adv.PSKAESCTR (Some nonce) (Some (be_bytes 4 (Seq pkt)))) (psk.crypt aes block (psk.BuildIV (Seq pkt)) [] data))
  end.

(** The datagram does not carry the nonce that every receiver refuses. *)
Definition nonce_ok (dg : bytes) : Prop := forall p n, adv.Parse dg = Ok p -> adv.o_PSKNonce p = Some n -> psk.isZeroNonce n = false.

Lemma media_params_same c c' pkt l m n i : same_flow c c' -> media_params c' pkt l m n i = media_params c pkt l m n i.
Proof. intros (_ & H1 & H2 & H3). unfold media_params. by rewrite H1, H2, H3. Qed.

Lemma encode_on_wire c pkt draws : flow_typed c -> media_typed pkt -> send_ok c ->
  let '((r, c'), _) := encodeAdvMedia pbkdf2 aes [] pkt draws c in send_ok c' /\ same_flow c c' /\ returns r (on_wire c pkt).
Proof.
  intros Hf Hm Hs. pose proof Hm as (Hq & Hb & Hl). destruct (compress_payload_ok c (Payload pkt) Hb Hl) as (data & lpcMode & E & Hlm & Hd). unfold encodeAdvMedia. rewrite E.
  unfold send_ok, on_wire in *. destruct keys as [[[pw kb] raw]|], (sendKey c) as [k|] eqn:Ek; try done.
  - pose proof (psk.Encrypt_ok pbkdf2 aes pw kb raw (Seq pkt) data draws k Hs) as HE. pose proof (psk.Encrypt_returns pbkdf2 aes (Seq pkt) data draws k) as HN. destruct (psk.Encrypt pbkdf2 aes (Seq pkt) [] data draws k) as [[r k'] draws']. destruct HE as (Hk' & _ & _ & Hr).
    destruct r as [ct|e|]; [|split; [exact Hk'|by split]|done].
    assert (Hpar : adv.params_ok (media_params c pkt lpcMode adv.PSKAESCTR (Some (psk.Nonce k')) (Some (be_bytes 4 (Seq pkt))))).
    { apply media_params_ok; [done|done|lia|done| |apply zlen_be]. cbn. apply (psk.deriveBlock_nonce pbkdf2 pw _ kb raw (psk.k_block k')), Hk'. }
    rewrite (media_params_same c) by done. rewrite (adv.Build_header [] _ ct Hpar). cbn [app wrap returns].
    split; [by destruct (bool_decide _)|]. split; [by destruct (bool_decide _)|]. exists data, lpcMode. split; [done|]. exists (psk.Nonce k'), (psk.k_block k'). split; [apply Hk'|].
    destruct Hr as [-> _]. by apply adv.Parse_header.
  - assert (Hpar : adv.params_ok (media_params c pkt lpcMode adv.PSKNone None None)) by (by apply media_params_ok). rewrite (adv.Build_header [] _ data Hpar). cbn [app wrap returns]. rewrite Ek.
    split; [done|]. split; [done|]. exists data, lpcMode. split; [done|]. by apply adv.Parse_header.
Qed.

(** What the decoder makes of the packet once the source time is known. *)
Definition rebuilt (c : advCodec) (pkt : MediaPacket) (us : Z) : MediaPacket :=
  mkMediaPacket (Seq pkt) (NTPTimeFromTimestamp us) (adv.SSRCProtected (ssrc c)) (Payload pkt) (Retransmit pkt) 0 (Frag pkt) 0 0 false.

Lemma array_of_exact n b : length b = n -> array_of n b = b.
Proof. intros <-. unfold array_of. by rewrite take_app_length. Qed.

(** Everything after the decryption. *)
Lemma decodeParsed_rebuilt cs c c1 pkt lpcMode mode nonce iv ct data : flow_typed cs -> decompress_payload lpcMode data = Ok (Payload pkt) ->
  decrypt_payload pbkdf2 aes (adv.parsed_of (media_params cs pkt lpcMode mode nonce iv) ct) c = (Ok data, c1) ->
  decodeParsed pbkdf2 aes (adv.parsed_of (media_params cs pkt lpcMode mode nonce iv) ct) c =
  let '(us, c') := advSourceMicros (Seq pkt) (advTSFromSource (SourceTime pkt)) c1 in ((true, Ok (inl (rebuilt cs pkt us))), c').
Proof.
  intros (Hs & _) Hd HD. unfold decodeParsed, decodeMediaAdv. assert (Ht : adv.o_EncType (adv.parsed_of (media_params cs pkt lpcMode mode nonce iv) ct) = adv.TypeDirect) by (unfold media_params; by destruct (fragBits (Frag pkt))).
  rewrite Ht. change (adv.TypeDirect =? adv.TypeControl) with false. change (adv.TypeDirect =? adv.TypeDirect) with true. cbv iota. rewrite (sbind_ok _ _ _ _ _ HD).
  assert (Hl : adv.o_LPCMode (adv.parsed_of (media_params cs pkt lpcMode mode nonce iv) ct) = lpcMode) by (unfold media_params; by destruct (fragBits (Frag pkt))). rewrite Hl, (sbind_lift _ _ _ _ Hd).
  pose proof (fragRole_Bits (Frag pkt)) as Hfr. unfold media_params. destruct (fragBits (Frag pkt)) as [first last]. cbn -[advSourceMicros]. unfold mbind, sres_bind, call.
  destruct (advSourceMicros (Seq pkt) (advTSFromSource (SourceTime pkt)) c1) as [us c']. cbn. unfold rebuilt. destruct (SSRCProtected_u32 (ssrc cs) Hs) as [_ ->]. by rewrite Hfr.
Qed.

Lemma decode_on_wire cs c n pkt dg : flow_typed cs -> in_u32 (Seq pkt) -> on_wire cs pkt dg -> nonce_ok dg -> recv_ok n c -> 0 <= n <= psk.reuseLimit ->
  exists d, recv_ok (n + 1) (c <| recvKey := d |>) /\
    decodeAdv pbkdf2 aes dg c = let '(us, c') := advSourceMicros (Seq pkt) (advTSFromSource (SourceTime pkt)) (c <| recvKey := d |>) in ((true, Ok (inl (rebuilt cs pkt us))), c').
Proof.
  intros Hf Hq (data & lpcMode & Hd & HW) Hz Hr Hn. unfold decodeAdv, recv_ok, nonce_ok in *. destruct keys as [[[pw kb] raw]|], (recvKey c) as [d|] eqn:Ek; try done.
  - destruct HW as (nonce & block & Hblk & HP). specialize (Hz _ nonce HP). pose proof (psk.deriveBlock_nonce pbkdf2 _ _ _ _ _ Hblk) as Hnl.
    assert (Hzn : psk.isZeroNonce nonce = false) by (apply Hz; unfold media_params; by destruct (fragBits (Frag pkt))).
    pose proof (psk.Decrypt_ok pbkdf2 aes pw kb raw n nonce (Seq pkt) (psk.crypt aes block (psk.BuildIV (Seq pkt)) [] data) d block Hr Hn Hzn Hblk) as HD.
    destruct (psk.Decrypt pbkdf2 aes nonce (Seq pkt) [] (psk.crypt aes block (psk.BuildIV (Seq pkt)) [] data) d) as [r d'] eqn:ED. destruct HD as [-> Hd'].
    exists (Some d'). split; [exact Hd'|]. rewrite HP. eapply decodeParsed_rebuilt; [done|done|]. unfold decrypt_payload. rewrite Ek. unfold media_params. destruct (fragBits (Frag pkt)).
    cbn [adv.parsed_of adv.o_PSKMode adv.PSKMode adv.o_PSKNonce adv.o_PSKIV adv.PSKHasNonce adv.PSKHasIV adv.filled adv.PSKNonce adv.PSKIV adv.o_Payload].
    change (adv.PSKAESCTR =? adv.PSKNone) with false. change (adv.PSKAESCTR =? adv.PSKAESCTR) with true. change (adv.PSKHasNonce adv.PSKAESCTR) with true. change (adv.PSKHasIV adv.PSKAESCTR) with true. cbv iota. rewrite array_of_exact by (unfold zlen in Hnl; lia).
    rewrite (Uint32_all (be_bytes 4 (Seq pkt))) by apply zlen_be. rewrite be_u32 by done. rewrite ED. unfold wrap. do 2 f_equal.
    unfold psk.crypt. cbn [app]. by rewrite psk.BuildIV_be, (psk.crypt_involutive aes aes_len).
  - exists None. split; [done|]. rewrite HW. eapply decodeParsed_rebuilt; [done|done|]. unfold decrypt_payload. rewrite Ek. unfold media_params. destruct (fragBits (Frag pkt)). cbn. by destruct c; cbn in *; subst.
Qed.

(** ** A stream of packets *)

(** Packet [j] of the stream is [P j]; an encoding is of a packet or, marked so, of its retransmission. *)
Section stream.
Context (P : Z -> MediaPacket).

Definition epoch : Z := 65536 * (micros (SourceTime (P 0)) / 65536).
Definition ticks (j : Z) : Z := 65536 * (micros (SourceTime (P j)) - epoch).
Definition copy_of (x : Z * bool) : MediaPacket := P x.1 <| Retransmit := x.2 |>.

(** What the receiving flow core is handed: every field as sent but for the source time, which is relative to the epoch of the first arrival. *)
Definition received (c : advCodec) (x : Z * bool) : MediaPacket := rebuilt c (copy_of x) (Z.max 0 (micros (SourceTime (P x.1)) - epoch)).

Fixpoint encode_all (xs : list (Z * bool)) (draws : list (option bytes)) (c : advCodec) : list ((Z * bool) * bytes) :=
  match xs with
  | [] => []
  | x :: xs =>
      let '((r, c), draws) := encodeAdvMedia pbkdf2 aes [] (copy_of x) draws c in
      match r with Ok dg => (x, dg) :: encode_all xs draws c | _ => encode_all xs draws c end
  end.

(** The arrivals after the first, in order, when [r] is the newest packet so far. *)
Fixpoint arrives (k J r : Z) (js : list Z) : Prop :=
  match js with [] => True | j :: js => paced ticks k J j /\ in_reach ticks J r j /\ arrives k J (Z.max r j) js end.

Lemma ticks_0 : in_u32 (ticks 0).
Proof. unfold ticks, epoch, in_u32. set (m := micros _). pose proof (Z.div_mod m 65536 ltac:(done)). pose proof (Z.mod_pos_bound m 65536 ltac:(done)). lia. Qed.

Lemma ticks_wire j : u32 (ticks j) = advTSFromSource (SourceTime (P j)).
Proof.
  rewrite advTSFromSource_u32. unfold ticks, epoch, u32, uwrap. set (m := micros (SourceTime (P j))). set (q := _ / 65536).
  replace (65536 * (m - 65536 * q)) with (65536 * m + (- q) * 2 ^ 32) by (change (2 ^ 32) with 4294967296; lia). by rewrite Z.mod_add.
Qed.

Lemma ticks_micros j : Z.shiftr (Z.max 0 (ticks j)) 16 = Z.max 0 (micros (SourceTime (P j)) - epoch).
Proof.
  unfold ticks. rewrite Z.shiftr_div_pow2 by lia. change (2 ^ 16) with 65536. set (m := _ - epoch). destruct (Z.le_gt_cases 0 m); [|rewrite !Z.max_l by lia; done].
  rewrite !Z.max_r by lia. rewrite Z.mul_comm. by rewrite Z.div_mul.
Qed.

Lemma encode_all_on_wire cs c xs draws : flow_typed cs -> same_flow cs c -> send_ok c -> Forall (fun x => media_typed (P x.1)) xs ->
  Forall (fun '(x, dg) => x ∈ xs /\ on_wire cs (copy_of x) dg) (encode_all xs draws c).
Proof.
  intros Hf. revert c draws. induction xs as [|x xs IH]; intros c draws Hsf Hs Hx; [constructor|]. apply Forall_cons_1 in Hx as [Hx Hxs]. cbn [encode_all].
  assert (Hfc : flow_typed c) by (unfold flow_typed; destruct Hsf as (_ & -> & -> & ->); done). assert (Hm : media_typed (copy_of x)) by exact Hx.
  pose proof (encode_on_wire c (copy_of x) draws Hfc Hm Hs) as HE. destruct (encodeAdvMedia pbkdf2 aes [] (copy_of x) draws c) as [[r c'] draws']. destruct HE as (Hs' & Hsf' & Hr).
  assert (Hsc : same_flow cs c') by (by transitivity c).
  specialize (IH c' draws' Hsc Hs' Hxs). assert (HI : Forall (fun '(y, dg) => y ∈ x :: xs /\ on_wire cs (copy_of y) dg) (encode_all xs draws' c')).
  { eapply Forall_impl; [exact IH|]. intros [y dg] [Hy Hw]. split; [by right|done]. }
  destruct r as [dg|e|]; [|done..]. constructor; [|done]. split; [by left|]. destruct Hr as (data & lpcMode & Hd & HW). exists data, lpcMode. split; [done|].
  destruct keys as [[[pw kb] raw]|]; [destruct HW as (nonce & block & Hb & HW); exists nonce, block; split; [done|]|]; rewrite <-(media_params_same cs c) by done; exact HW.
Qed.

(** The datagrams arrive one after the other. *)
Fixpoint decode_all (dgs : list bytes) (c : advCodec) : list (bool * res err (MediaPacket + list Feedback)) :=
  match dgs with [] => [] | dg :: dgs => let '(r, c) := decodeAdv pbkdf2 aes dg c in r :: decode_all dgs c end.

Definition delivered (cs : advCodec) (a : (Z * bool) * bytes) : bool * res err (MediaPacket + list Feedback) := (true, Ok (inl (received cs a.1))).

(** The datagram carries packet [a.1.1] of a stream that starts at sequence [s0]. *)
Definition carries (cs : advCodec) (s0 : Z) (a : (Z * bool) * bytes) : Prop :=
  on_wire cs (copy_of a.1) a.2 /\ nonce_ok a.2 /\ Seq (P a.1.1) = u32 (s0 + a.1.1).

Lemma decode_arrivals cs s0 k J r c n arr : flow_typed cs -> at_front s0 ticks r c -> paced ticks k J r -> recv_ok n c -> 0 <= n -> n + zlen arr <= psk.reuseLimit + 1 ->
  Forall (carries cs s0) arr -> arrives k J r (fst ∘ fst <$> arr) -> decode_all (snd <$> arr) c = delivered cs <$> arr.
Proof.
  intros Hf. revert r c n. induction arr as [|[[j re] dg] arr IH]; intros r c n Hfr Hpr Hr Hn Hl Hc Ha; [done|]. apply Forall_cons_1 in Hc as [(Hw & Hz & Hq) Hc]. destruct Ha as (Hpj & Hre & Ha).
  rewrite zlen_cons in Hl. pose proof (zlen_nonneg arr). cbn [fst snd] in *. cbn [fmap list_fmap decode_all snd].
  assert (Hqu : in_u32 (Seq (copy_of (j, re)))) by (change (Seq (copy_of (j, re))) with (Seq (P j)); rewrite Hq; apply u32_range).
  destruct (decode_on_wire cs c n (copy_of (j, re)) dg Hf Hqu Hw Hz Hr ltac:(lia)) as (d & Hd & ->).
  change (Seq (copy_of (j, re))) with (Seq (P j)). change (SourceTime (copy_of (j, re))) with (SourceTime (P j)). rewrite Hq, <-ticks_wire.
  set (c1 := c <| recvKey := d |>) in *. destruct (advSourceMicros_front s0 ticks k J ticks_0 r j c1 Hfr Hpr Hpj Hre) as (c' & -> & Hfr' & Hc'). rewrite ticks_micros. f_equal.
  apply (IH (Z.max r j) c' (n + 1)); [done|by destruct (Z.max_spec r j) as [[_ ->]|[_ ->]]| |lia|lia|done|done].
  rewrite Hc'. exact Hd.
Qed.
End stream.
End channel.

(** ** Feedback *)

Section feedback.
Context (pbkdf2 : bytes -> bytes -> Z -> option bytes) (aes : bytes -> bytes -> bytes).

Definition feedback_typed (fb : Feedback) : Prop :=
  match fb with
  | NackRequest s missing => in_u32 s /\ Forall in_u32 missing
  | RttEchoRequest _ ts => in_u64 ts
  | RttEchoResponse _ ts d => in_u64 ts /\ in_u32 d
  | _ => True
  end.

(** What one feedback value becomes on the other side: the NACKs of its entries, which request exactly its sequences; the echo
    without its SSRC; nothing for a keep-alive and for the variants this profile does not send. *)
Definition becomes (fb : Feedback) (out : list Feedback) : Prop :=
  match fb with
  | NackRequest s missing => exists ms, out = NackRequest s <$> ms /\ forall x, x ∈ concat ms <-> x ∈ missing
  | RttEchoRequest _ ts => out = [RttEchoRequest 0 ts]
  | RttEchoResponse _ ts d => out = [RttEchoResponse 0 ts d]
  | _ => out = []
  end.

(** What a control payload decodes to, and the capability it announces. *)
Definition cap_after (fb : Feedback) (cap : option bool) : option bool := match fb with Keepalive => Some true | _ => cap end.

Fixpoint hear_all (dgs : list bytes) (c : advCodec) : list Feedback * advCodec :=
  match dgs with
  | [] => ([], c)
  | dg :: dgs =>
      let '((_, r), c) := decodeAdv pbkdf2 aes dg c in
      let '(rest, c) := hear_all dgs c in
      (match r with Ok (inr fbs) => fbs ++ rest | _ => rest end, c)
  end.

Lemma hear_all_app d1 d2 c : hear_all (d1 ++ d2) c = let '(f1, c1) := hear_all d1 c in let '(f2, c2) := hear_all d2 c1 in (f1 ++ f2, c2).
Proof.
  revert c. induction d1 as [|d d1 IH]; intros c; [cbn [app hear_all]; by destruct (hear_all d2 c)|]. cbn [app hear_all]. destruct (decodeAdv pbkdf2 aes d c) as [[m r] c1]. rewrite IH.
  destruct (hear_all d1 c1) as [f1 c2]. destruct (hear_all d2 c2) as [f2 c3]. destruct r as [[pkt|fbs]| |]; [done|by rewrite app_assoc|done|done].
Qed.

(** Framing a control payload: the datagram hands its payload to decodeControl, and the control sequence advances. *)
Lemma frameControl_decodes cs payload ts : in_u32 (ssrc cs) -> in_u32 (ctrlSeq cs) -> in_u32 ts ->
  exists dg, frameControl [] payload ts cs = (Ok dg, cs <| ctrlSeq := u32 (ctrlSeq cs + 1) |>) /\
    forall c, decodeAdv pbkdf2 aes dg c = let '(r, c') := decodeControl pbkdf2 payload c in ((false, match r with Ok fbs => Ok (inr fbs) | Err e => Err e | Panic => Panic end), c').
Proof.
  intros Hs Hq Ht. unfold frameControl, frameControlFrag. set (params := adv.mkParams _ _ _ _ _ _ _ _ _ _ _ _ _ _ _ _ _).
  assert (Hp : adv.params_ok params) by (unfold adv.params_ok; cbn; split_and!; try done; [by apply SSRCUnprotected_u32|by left]).
  rewrite (adv.Build_header [] _ payload Hp). eexists. split; [done|]. intros c. unfold decodeAdv. cbn [app]. rewrite (adv.Parse_header _ _ Hp). done.
Qed.

(** The payloads of one feedback value, decoded in turn. *)
Fixpoint hear_payloads (ps : list bytes) (c : advCodec) : list Feedback * advCodec :=
  match ps with
  | [] => ([], c)
  | p :: ps => let '(r, c) := decodeControl pbkdf2 p c in let '(rest, c) := hear_payloads ps c in (match r with Ok fbs => fbs ++ rest | _ => rest end, c)
  end.

Lemma emit_all_decodes ps ts cs : in_u32 (ssrc cs) -> in_u32 (ctrlSeq cs) -> in_u32 ts ->
  exists dgs, emit_all ps ts cs = (Ok dgs, cs <| ctrlSeq := u32 (ctrlSeq cs + zlen dgs) |>) /\ forall c, hear_all dgs c = hear_payloads ps c.
Proof.
  revert cs. induction ps as [|p ps IH]; intros cs Hs Hq Ht.
  - exists []. split; [|done]. cbn. rewrite Z.add_0_r, u32_id by done. by destruct cs.
  - destruct (frameControl_decodes cs p ts Hs Hq Ht) as (dg & E & Hdg). set (cs1 := cs <| ctrlSeq := _ |>) in E.
    destruct (IH cs1) as (dgs & E2 & Hdgs); [done|apply u32_range|done|]. exists (dg :: dgs). split.
    + cbn [emit_all]. rewrite (sbind_ok _ _ _ _ _ E), (sbind_ok _ _ _ _ _ E2). unfold mret, sres_ret. f_equal. assert (E3 : u32 (ctrlSeq cs1 + zlen dgs) = u32 (ctrlSeq cs + zlen (dg :: dgs))) by (change (ctrlSeq cs1) with (u32 (ctrlSeq cs + 1)); rewrite u32_add_l, zlen_cons; apply (f_equal u32); lia). by rewrite E3.
    + intros c. cbn [hear_all hear_payloads]. rewrite Hdg. destruct (decodeControl pbkdf2 p c) as [r c']. rewrite Hdgs. destruct (hear_payloads ps c') as [rest c'']. by destruct r.
Qed.

(** Control messages that carry one NACK entry each. *)
Lemma hear_entries {A} (build : A -> bytes) (fb : A -> Feedback) ns : Forall (fun n => forall c, decodeControl pbkdf2 (build n) c = (Ok [fb n], c)) ns ->
  forall c, hear_payloads (build <$> ns) c = (fb <$> ns, c).
Proof. induction 1 as [|n ns Hn _ IH]; intros c; [done|]. cbn [fmap list_fmap hear_payloads]. by rewrite Hn, IH. Qed.

Lemma decodeControl_range n : advctrl.range_typed n -> forall c, decodeControl pbkdf2 (advctrl.BuildNackRange [] n) c = (Ok [NackRequest (advctrl.rg_MediaSSRC n) (advctrl.range_Missing n)], c).
Proof.
  intros Hn c. destruct (advctrl.ParseNackRange_body n Hn) as [L E]. unfold decodeControl, advctrl.BuildNackRange. rewrite advctrl.ParseControl_Build by (done || lia). cbn [wrap].
  rewrite (sbind_lift _ _ _ _ eq_refl). change (advctrl.CINackRange =? advctrl.CINackBitmask) with false. change (advctrl.CINackRange =? advctrl.CINackRange) with true. cbv iota beta. by rewrite E.
Qed.

Lemma decodeControl_bitmask n : advctrl.bitmask_typed n -> forall c, decodeControl pbkdf2 (advctrl.BuildNackBitmask [] n) c = (Ok [NackRequest (advctrl.bm_MediaSSRC n) (advctrl.bitmask_Missing n)], c).
Proof.
  intros Hn c. destruct (advctrl.ParseNackBitmask_body n Hn) as [L E]. unfold decodeControl, advctrl.BuildNackBitmask. rewrite advctrl.ParseControl_Build by (done || lia). cbn [wrap].
  rewrite (sbind_lift _ _ _ _ eq_refl). change (advctrl.CINackBitmask =? advctrl.CINackBitmask) with true. cbv iota beta. by rewrite E.
Qed.

Lemma hear_nack (A : Type) (ns : list A) (missing : A -> list Z) (source : A -> Z) s m : Forall (fun n => source n = s) ns -> (forall x, x ∈ concat (missing <$> ns) <-> x ∈ m) ->
  becomes (NackRequest s m) ((fun n => NackRequest (source n) (missing n)) <$> ns).
Proof.
  intros Hs Hm. exists (missing <$> ns). split; [|exact Hm]. rewrite <-list_fmap_compose. apply list_fmap_ext. intros i n Hn. rewrite Forall_lookup in Hs. unfold compose. by rewrite (Hs i n Hn).
Qed.

Lemma feedback_heard cs bitmask fb : in_u32 (ssrc cs) -> feedback_typed fb ->
  exists out, becomes fb out /\ forall c, hear_payloads (feedback_payloads cs bitmask fb) c = (out, c <| peerAdvCap := cap_after fb (peerAdvCap c) |>).
Proof.
  intros Hs Ht. assert (Hid : forall c : advCodec, c <| peerAdvCap := peerAdvCap c |> = c) by (by intros []).
  destruct fb as [s m|s ts|s ts d| | | | | | |]; cbn [feedback_payloads cap_after]; try (exists []; split; [done|]; intros c; by rewrite Hid).
  - destruct Ht as [Hss Hm]. destruct bitmask.
    + pose proof (advctrl.EncodeBitmaskNACK_ok s m Hss Hm) as (Hx & Hty & Hsrc). eexists. split; [apply (hear_nack _ _ advctrl.bitmask_Missing advctrl.bm_MediaSSRC s m Hsrc Hx)|].
      intros c. rewrite Hid. apply hear_entries. eapply Forall_impl; [exact Hty|]. intros n. apply decodeControl_bitmask.
    + pose proof (advctrl.EncodeRangeNACK_ok s m Hss Hm) as (Hx & Hty & Hsrc). eexists. split; [apply (hear_nack _ _ advctrl.range_Missing advctrl.rg_MediaSSRC s m Hsrc Hx)|].
      intros c. rewrite Hid. apply hear_entries. eapply Forall_impl; [exact Hty|]. intros n. apply decodeControl_range.
  - exists [RttEchoRequest 0 ts]. split; [done|]. intros c. rewrite Hid. set (e := advctrl.RTTEchoFromTimestamp _ _ _).
    assert (He : advctrl.echo_typed e) by (split; [by apply SSRCUnprotected_u32|]; split; [apply u32_range|]; split; [apply u32_range|done]). destruct (advctrl.ParseRTTEcho_body e He) as [L E].
    cbn [hear_payloads]. unfold decodeControl, advctrl.BuildRTTEchoRequest. rewrite advctrl.ParseControl_Build by (done || lia). cbn [wrap]. rewrite (sbind_lift _ _ _ _ eq_refl).
    change (advctrl.CIRTTEchoReq =? advctrl.CINackBitmask) with false. change (advctrl.CIRTTEchoReq =? advctrl.CINackRange) with false. change (advctrl.CIRTTEchoReq =? advctrl.CIRTTEchoReq) with true. cbv iota beta.
    rewrite E. cbn [wrap]. rewrite (sbind_lift _ _ _ _ eq_refl). subst e. by rewrite advctrl.echo_timestamp_round.
  - destruct Ht as [Hts Hd]. exists [RttEchoResponse 0 ts d]. split; [done|]. intros c. rewrite Hid. set (e := advctrl.RTTEchoFromTimestamp _ _ _).
    assert (He : advctrl.echo_typed e) by (split; [by apply SSRCUnprotected_u32|]; split; [apply u32_range|]; split; [apply u32_range|done]). destruct (advctrl.ParseRTTEcho_body e He) as [L E].
    cbn [hear_payloads]. unfold decodeControl, advctrl.BuildRTTEchoResponse. rewrite advctrl.ParseControl_Build by (done || lia). cbn [wrap]. rewrite (sbind_lift _ _ _ _ eq_refl).
    change (advctrl.CIRTTEchoResp =? advctrl.CINackBitmask) with false. change (advctrl.CIRTTEchoResp =? advctrl.CINackRange) with false. change (advctrl.CIRTTEchoResp =? advctrl.CIRTTEchoReq) with false.
    change (advctrl.CIRTTEchoResp =? advctrl.CIRTTEchoResp) with true. cbv iota beta.
    rewrite E. cbn [wrap]. rewrite (sbind_lift _ _ _ _ eq_refl). subst e. by rewrite advctrl.echo_timestamp_round.
  - exists []. split; [done|]. intros c. reflexivity.
Qed.

Lemma takePeerAdvCap_cap c : (takePeerAdvCap c).1 = match peerAdvCap c with Some i => (i, true) | None => (false, false) end.
Proof. unfold takePeerAdvCap. by destruct (peerAdvCap c). Qed.

Lemma encodeFeedback_heard fbs bitmask ts cs : in_u32 (ssrc cs) -> in_u32 (ctrlSeq cs) -> in_u32 ts -> Forall feedback_typed fbs ->
  exists dgs outs, encodeFeedback fbs bitmask ts cs = (Ok dgs, cs <| ctrlSeq := u32 (ctrlSeq cs + zlen dgs) |>) /\ Forall2 becomes fbs outs /\
    forall c, hear_all dgs c = (concat outs, c <| peerAdvCap := fold_left (fun cap fb => cap_after fb cap) fbs (peerAdvCap c) |>).
Proof.
  intros Hs Hq Ht Hf. revert cs Hs Hq. induction Hf as [|fb fbs Hfb _ IH]; intros cs Hs Hq.
  - exists [], []. split; [|split; [constructor|intros []; done]]. cbn. rewrite Z.add_0_r, u32_id by done. by destruct cs.
  - destruct (feedback_heard cs bitmask fb Hs Hfb) as (out & Hout & Hh). destruct (emit_all_decodes (feedback_payloads cs bitmask fb) ts cs Hs Hq Ht) as (dgs & E & Hdgs).
    set (cs1 := cs <| ctrlSeq := _ |>) in E. destruct (IH cs1) as (dgs2 & outs & E2 & Houts & Hh2); [done|apply u32_range|]. exists (dgs ++ dgs2), (out :: outs). split; [|split; [by constructor|]].
    + cbn [encodeFeedback]. assert (E' : with_self (fun c => emit_all (feedback_payloads c bitmask fb) ts) cs = (Ok dgs, cs1)) by exact E. rewrite (sbind_ok _ _ _ _ _ E'), (sbind_ok _ _ _ _ _ E2).
      unfold mret, sres_ret. f_equal. assert (E3 : u32 (ctrlSeq cs1 + zlen dgs2) = u32 (ctrlSeq cs + zlen (dgs ++ dgs2))) by (change (ctrlSeq cs1) with (u32 (ctrlSeq cs + zlen dgs)); rewrite u32_add_l, zlen_app; apply (f_equal u32); lia). by rewrite E3.
    + intros c. rewrite hear_all_app, Hdgs, Hh. cbv iota beta. rewrite Hh2. done.
Qed.
End feedback.

(** ** Arbitrary datagrams *)

Section total.
Context (pbkdf2 : bytes -> bytes -> Z -> option bytes) (aes : bytes -> bytes -> bytes) (aes_len : forall key b, length (aes key b) = 16%nat) (aes_bytes : forall key b, is_bytes (aes key b)).


Lemma decrypt_payload_total p c : is_bytes (adv.o_Payload p) -> (forall iv, adv.o_PSKIV p = Some iv -> zlen iv = 4) ->
  returns (decrypt_payload pbkdf2 aes p c).1 (fun data => is_bytes data /\ zlen data = zlen (adv.o_Payload p)).
Proof.
  intros Hb Hiv. unfold decrypt_payload. destruct (_ =? adv.PSKNone); [by destruct (recvKey c)|]. destruct (_ =? adv.PSKAESCTR); [|done]. destruct (recvKey c) as [d|]; [|done].
  destruct (adv.o_PSKNonce p) as [n|]; [|done]. destruct (adv.o_PSKIV p) as [iv|]; [|done]. rewrite (Uint32_all iv) by (by apply Hiv). cbv iota beta.
  pose proof (psk.Decrypt_returns pbkdf2 aes (array_of 4 n) (be iv) (adv.o_Payload p) d) as H. destruct (psk.Decrypt pbkdf2 aes (array_of 4 n) (be iv) [] (adv.o_Payload p) d) as [[out|e|] d']; [|done..].
  destruct H as (block & ->). by apply psk.crypt_bytes.
Qed.

Lemma decompress_payload_total l data : is_bytes data -> returns (decompress_payload l data) (fun out => zlen out <= Z.max (zlen data) maxAdvDecompressed).
Proof.
  intros Hb. unfold decompress_payload. destruct (l =? adv.LPCNone); [cbn; lia|]. destruct (l =? adv.LPCLZ4); [|done]. destruct (0 <? zlen data); [|cbn; lia].
  pose proof (lpc.Decompress_bounded [] data maxAdvDecompressed ltac:(constructor) Hb) as H. destruct (lpc.Decompress [] data maxAdvDecompressed) as [out|e|]; [|done..]. destruct H as (o & -> & _ & Hl). cbn [app wrap returns]. unfold maxAdvDecompressed in *. lia.
Qed.

Lemma decodeControl_total payload c : is_bytes payload -> returns (decodeControl pbkdf2 payload c).1 (fun _ => True).
Proof.
  intros Hb. unfold decodeControl. pose proof (advctrl.ParseControl_total payload Hb) as H. destruct (advctrl.ParseControl payload) as [[ci body]|e|]; [|done..]. destruct H as (_ & Hbody & _).
  cbn [wrap]. rewrite (sbind_lift _ _ _ _ eq_refl). cbv iota beta. destruct (advctrl.bodies_total body Hbody) as (H1 & H2 & H3 & _ & _).
  destruct (ci =? advctrl.CINackBitmask); [by destruct (advctrl.ParseNackBitmask body)|]. destruct (ci =? advctrl.CINackRange); [by destruct (advctrl.ParseNackRange body)|].
  destruct (ci =? advctrl.CIRTTEchoReq); [by destruct (advctrl.ParseRTTEcho body)|]. destruct (ci =? advctrl.CIRTTEchoResp); [by destruct (advctrl.ParseRTTEcho body)|].
  destruct (_ || _); [done|]. destruct (ci =? advctrl.CIFlowAttr); [done|]. destruct (ci =? advctrl.CIKeepalive); [done|]. destruct (ci =? advctrl.CIPSKNonce); [done|]. by destruct (ci =? advctrl.CIUnsupported).
Qed.

Lemma decodeMediaAdv_total p c n : is_bytes (adv.o_Payload p) -> (forall iv, adv.o_PSKIV p = Some iv -> zlen iv = 4) -> zlen (adv.o_Payload p) <= n ->
  returns (decodeMediaAdv pbkdf2 aes p c).1 (fun pkt => zlen (Payload pkt) <= Z.max n maxAdvDecompressed).
Proof.
  intros Hb Hiv Hn. unfold decodeMediaAdv. pose proof (decrypt_payload_total p c Hb Hiv) as H. unfold mbind, sres_bind at 1. destruct (decrypt_payload pbkdf2 aes p c) as [[data|e|] c1]; [|done..].
  destruct H as [Hd Hl]. pose proof (decompress_payload_total (adv.o_LPCMode p) data Hd) as H2. unfold sres_bind at 1, lift. destruct (decompress_payload (adv.o_LPCMode p) data) as [out|e|]; [|done..].
  unfold sres_bind, call. destruct (advSourceMicros (adv.o_Seq p) (adv.o_Timestamp p) c1) as [us c2]. cbn in *. lia.
Qed.
End total.

(** ** Properties *)

(** C27: Media over the Advanced profile: whatever packets a sender encodes, with or without compression and encryption, originals and
    retransmissions, any of the datagrams, in whatever order, lost or repeated, decode to the packets they were made from: the same 32-bit
    sequence, payload, fragment role and retransmission mark, and a source time that depends on the packet alone, so that a
    retransmission and its original agree and spacings are kept.  The 32-bit timestamp wraps every 65 ms; this holds for a stream
    whose spacing is [k] ticks per packet within a jitter of [J], for fewer than 2^31 packets after the first arrival and fewer than 2^32 arrivals, none under the all-zero nonce, as
    long as each arrives near enough to the newest packet ([in_reach]) that the timestamp extrapolated from there is off by less than half a wrap.
    Past 2^31 packets a late retransmission and its original do not agree: [adv_retransmit_misplaced]. *)
Theorem adv_media_stream pbkdf2 aes kb sk rk draws comp s sp dp P s0 xs x0 dg0 arr k J : (forall key b, length (aes key b) = 16%nat) ->
  psk.keyed pbkdf2 draws kb sk rk -> in_u32 s -> in_u16 sp -> in_u16 dp ->
  let cs := newAdvCodec sk None comp s sp dp in
  Forall (fun x => media_typed (P x.1) /\ Seq (P x.1) = u32 (s0 + x.1)) xs ->
  Forall (fun a => a ∈ encode_all pbkdf2 aes P xs draws cs /\ nonce_ok a.2) ((x0, dg0) :: arr) ->
  x0.1 = 0 -> arrives P k J 0 (0 :: (fst ∘ fst <$> arr)) -> zlen arr < 2 ^ 32 ->
  decode_all pbkdf2 aes (snd <$> (x0, dg0) :: arr) (newAdvCodec None rk comp s sp dp) = delivered P cs <$> (x0, dg0) :: arr.
Proof.
  intros Haes Hk Hs Hsp Hdp cs Hxs Harr Hx0 Ha Hl. assert (Hf : flow_typed cs) by done.
  assert (exists keys, send_ok pbkdf2 keys cs /\ recv_ok pbkdf2 keys 0 (newAdvCodec None rk comp s sp dp)) as (keys & Hsend & Hrecv).
  { destruct Hk as [|pw rot odd raw draws0 key d Hkey Hd]; [by exists None|]. exists (Some (pw, kb, raw)). split; [by apply (psk.newKey_ok _ _ _ _ _ _ _ _ _ Hkey)|by apply psk.newDecryptor_ok]. }
  assert (Hall : Forall (carries pbkdf2 aes keys P cs s0) ((x0, dg0) :: arr)).
  { pose proof (encode_all_on_wire pbkdf2 aes keys P cs cs xs draws Hf ltac:(done) Hsend) as HW. rewrite !Forall_forall in *. specialize (HW ltac:(intros x Hx; apply Hxs, Hx)).
    intros [x dg] Hin. destruct (Harr _ Hin) as [Hsent Hz]. destruct (HW _ Hsent) as [Hx Hw]. split; [done|]. split; [done|]. apply Hxs, Hx. }
  destruct Ha as (Hp0 & _ & Ha). apply Forall_cons_1 in Hall as [(Hw & Hz & Hq) Hall]. cbn [fst snd] in *. destruct x0 as [j0 re0]. cbn [fst] in *. subst j0. rewrite Z.add_0_r in Hq.
  set (cr := newAdvCodec None rk comp s sp dp) in *.
  assert (Hqu : in_u32 (Seq (copy_of P (0, re0)))) by (change (Seq (copy_of P (0, re0))) with (Seq (P 0)); rewrite Hq; apply u32_range).
  cbn [fmap list_fmap decode_all snd]. destruct (decode_on_wire pbkdf2 aes Haes keys cs cr 0 (copy_of P (0, re0)) dg0 Hf Hqu Hw Hz Hrecv ltac:(done)) as (d & Hd & ->).
  change (Seq (copy_of P (0, re0))) with (Seq (P 0)). change (SourceTime (copy_of P (0, re0))) with (SourceTime (P 0)). rewrite Hq, <-ticks_wire. set (c1 := cr <| recvKey := d |>) in *.
  destruct (advSourceMicros_first s0 (ticks P) (ticks_0 P) c1 ltac:(done)) as (c' & -> & Hfr & Hc'). rewrite ticks_micros. f_equal.
  apply (decode_arrivals pbkdf2 aes Haes keys P cs s0 k J 0 c' 1); [done|done|done| |lia|unfold psk.reuseLimit; lia|done|done]. rewrite Hc'. exact Hd.
Qed.

(** An encrypted, compressed stream of one packet per millisecond across the sequence wrap, the second packet lost and then retransmitted. *)
Definition demo_P (j : Z) : MediaPacket := mkMediaPacket (u32 (4294967295 + j)) (NTPTimeFromTimestamp (5000000 + 1000 * j)) 9 (replicate 60 (u8 j)) false 0 (if j =? 1 then FragFirst else FragStandalone) 0 0 false.
Definition demo_xs : list (Z * bool) := [(0, false); (1, false); (2, false); (1, true)].
Definition demo_sk : option psk.Key := match psk.newKey psk.demo_pbkdf2 [115] 128 3 true false psk.demo_draws with (Ok k, _) => Some k | _ => None end.
Definition demo_sender : advCodec := newAdvCodec demo_sk None true 8 5 6.
Definition demo_sent : list ((Z * bool) * bytes) := encode_all psk.demo_pbkdf2 psk.demo_aes demo_P demo_xs (drop 2 psk.demo_draws) demo_sender.
Definition demo_first : (Z * bool) * bytes := default ((0, false), []) (demo_sent !! 0%nat).
Definition demo_later : list ((Z * bool) * bytes) := omap (fun i => demo_sent !! i) [2%nat; 3%nat; 2%nat].

Lemma adv_media_stream_witness : fst <$> (demo_first :: demo_later) = [(0, false); (2, false); (1, true); (2, false)] /\ zlen demo_first.2 < 60 /\
  decode_all psk.demo_pbkdf2 psk.demo_aes (snd <$> demo_first :: demo_later) (newAdvCodec None (Some psk.demo_dec) true 8 5 6) = delivered demo_P demo_sender <$> demo_first :: demo_later.
Proof.
  split; [vm_compute; reflexivity|]. split; [vm_compute; reflexivity|]. rewrite (surjective_pairing demo_first).
  apply (adv_media_stream psk.demo_pbkdf2 psk.demo_aes 128 demo_sk (Some psk.demo_dec) (drop 2 psk.demo_draws) true 8 5 6 demo_P 4294967295 demo_xs demo_first.1 demo_first.2 demo_later 65536000 0).
  - exact psk.demo_aes_len.
  - unfold demo_sk. apply (psk.keyed_psk psk.demo_pbkdf2 _ 128 [115] 3 true false psk.demo_draws); vm_compute; reflexivity.
  - done.
  - done.
  - done.
  - repeat constructor; vm_compute; repeat constructor; discriminate.
  - apply Forall_forall. intros a Ha. split.
    + revert Ha. match goal with |- a ∈ ?L -> a ∈ ?M => assert (H : forallb (fun a => bool_decide (a ∈ M)) L = true) by (vm_compute; reflexivity) end.
      rewrite forallb_forall in H. intros Ha. apply list_elem_of_In, H, bool_decide_eq_true in Ha. exact Ha.
    + revert Ha. match goal with |- a ∈ ?L -> _ => assert (H : forallb (fun a => negb (psk.isZeroNonce (default [] (match adv.Parse a.2 with Ok p => adv.o_PSKNonce p | _ => None end)))) L = true) by (vm_compute; reflexivity) end.
      rewrite forallb_forall in H. intros Ha p n Hp Hn. apply list_elem_of_In, H, negb_true_iff in Ha. by rewrite Hp, Hn in Ha.
  - reflexivity.
  - vm_compute. repeat split; discriminate.
  - vm_compute. reflexivity.
Defined.

(** The state after packets 0 to [n] of a stream arrived in order. *)
Fixpoint in_order (s0 : Z) (T : Z -> Z) (n : nat) (c : advCodec) : advCodec :=
  match n with
  | O => (advSourceMicros (u32 s0) (u32 (T 0)) c).2
  | S m => (advSourceMicros (u32 (s0 + Z.of_nat n)) (u32 (T (Z.of_nat n))) (in_order s0 T m c)).2
  end.

Section constant_rate.
Context (s0 t0 k : Z) (t0_range : in_u32 t0) (k_range : 0 < k < 2 ^ 28).
Definition T (j : Z) : Z := t0 + k * j.

Lemma T_paced j : 0 <= j <= 2 ^ 31 -> paced T k 0 j.
Proof. unfold paced, T, in_u32 in *. change (2 ^ 31) with 2147483648. change (2 ^ 60) with 1152921504606846976. change (2 ^ 28) with 268435456 in *. intros Hj. split; [lia|]. rewrite Z.abs_eq by nia. nia. Qed.

Lemma T_reach r : 0 <= r < 2 ^ 31 -> in_reach T 0 r (r + 1).
Proof. intros Hr. unfold in_reach, T. change (2 ^ 31) with 2147483648 in *. change (2 ^ 28) with 268435456 in *. split; [lia|]. split; [lia|]. destruct (Z.eqb_spec r 0) as [->|]; lia. Qed.

Lemma T_zero : in_u32 (T 0).
Proof. unfold T. by rewrite Z.mul_0_r, Z.add_0_r. Qed.

Lemma in_order_front n c : tsStarted c = false -> Z.of_nat n <= 2 ^ 31 -> at_front s0 T (Z.of_nat n) (in_order s0 T n c).
Proof.
  intros Hc. induction n as [|n IH]; intros Hn.
  - cbn [in_order]. destruct (advSourceMicros_first s0 T T_zero c Hc) as (c' & -> & H & _). exact H.
  - cbn [in_order]. specialize (IH ltac:(lia)). rewrite Nat2Z.inj_succ, <-Z.add_1_r in *.
    destruct (advSourceMicros_front s0 T k 0 T_zero (Z.of_nat n) (Z.of_nat n + 1) (in_order s0 T n c) IH) as (c' & -> & H & _); [apply T_paced; lia|apply T_paced; lia|apply T_reach; lia|]. by rewrite Z.max_r in H by lia.
Qed.

(** The source time of a packet changes with its retransmission on a long-lived flow: once 2^31 packets have arrived since the
    first, the 32-bit distance from which the rate is averaged turns negative, the reference is no longer extrapolated, and
    a retransmission that comes more than 32.8 ms (half a timestamp wrap) after the newest packet's time is placed 65536 us
    later than its original was, on a stream of perfectly even spacing received without a loss. *)
Theorem adv_retransmit_misplaced m n w c : tsStarted c = false -> Z.of_nat n = 2 ^ 31 -> Z.of_nat m + 1 + w = 2 ^ 31 -> 2 ^ 31 < k * w < 2 ^ 32 ->
  let j := Z.of_nat m + 1 in
  (advSourceMicros (u32 (s0 + j)) (u32 (T j)) (in_order s0 T m c)).1 = Z.shiftr (T j) 16 /\
  (advSourceMicros (u32 (s0 + j)) (u32 (T j)) (in_order s0 T n c)).1 = Z.shiftr (T j) 16 + 65536.
Proof.
  intros Hc Hn Hm Hw j. assert (Hw0 : 0 < w) by nia. assert (HTj : 0 <= T j) by (unfold T, in_u32 in *; subst j; nia).
  split.
  - destruct (advSourceMicros_front s0 T k 0 T_zero (Z.of_nat m) j (in_order s0 T m c)) as (c' & -> & _); [apply in_order_front; [done|lia]|apply T_paced; lia|apply T_paced; subst j; lia|apply T_reach; lia|].
    cbn [fst]. by rewrite Z.max_r.
  - destruct (in_order_front n c Hc ltac:(lia)) as (S1 & S2 & S3 & S4 & S5 & _). rewrite Hn in *. unfold advSourceMicros. rewrite S1, S2, S4, S5, !u32_diff. cbn [negb]. cbv zeta.
    replace (s0 + 2 ^ 31 - s0) with (2 ^ 31) by lia. change (0 <? i32 (u32 (2 ^ 31))) with false. cbv iota. cbn [fst].
    assert (HT : u32 (T j) = u32 (T j + 2 ^ 32)) by (unfold u32, uwrap; rewrite <-(Z.mod_add (T j) 1) by done; f_equal; lia).
    assert (HB : Z.abs (T (2 ^ 31)) < 2 ^ 60) by (by apply (T_paced (2 ^ 31))). change (2 ^ 60) with 1152921504606846976 in HB. change (2 ^ 32) with 4294967296 in *.
    rewrite HT, widenTicks_exact; [|lia|]; [|unfold T in *; subst j; change (2 ^ 31) with 2147483648 in *; nia]. destruct (Z.ltb_spec (T j + 4294967296) 0); [lia|].
    unfold advClockShift. rewrite !Z.shiftr_div_pow2 by lia. change 4294967296 with (65536 * 2 ^ 16). by rewrite Z.div_add.
Qed.
End constant_rate.

(** One packet per millisecond, retransmitted 40 ms late. *)
Lemma adv_retransmit_misplaced_witness :
  (advSourceMicros (u32 (7 + (Z.of_nat (Z.to_nat (2 ^ 31 - 41)) + 1))) (u32 (T 5 65536000 (Z.of_nat (Z.to_nat (2 ^ 31 - 41)) + 1))) (in_order 7 (T 5 65536000) (Z.to_nat (2 ^ 31)) (newAdvCodec None None false 0 0 0))).1 =
  Z.shiftr (T 5 65536000 (Z.of_nat (Z.to_nat (2 ^ 31 - 41)) + 1)) 16 + 65536.
Proof.
  apply (adv_retransmit_misplaced 7 5 65536000 ltac:(done) ltac:(done) (Z.to_nat (2 ^ 31 - 41)) (Z.to_nat (2 ^ 31)) 40 (newAdvCodec None None false 0 0 0)); [done|by rewrite Z2Nat.id|by rewrite Z2Nat.id|done].
Defined.

(** C28: Feedback over the Advanced profile: whatever feedback the receiving flow emits, its control datagrams decode, in order and at whatever
    peer, to that feedback: the NACK requests of one value together ask for exactly its sequences under its SSRC, in either packing and
    across the 32-bit wrap, echo timestamps and delays are kept to the bit, and a keep-alive tells the peer that this side
    speaks the Advanced profile; encoding never fails and consumes one control sequence number per datagram. *)
Theorem adv_feedback_survives pbkdf2 aes cs cr fbs bitmask ts : in_u32 (ssrc cs) -> in_u32 (ctrlSeq cs) -> in_u32 ts -> Forall feedback_typed fbs ->
  exists dgs outs, encodeFeedback fbs bitmask ts cs = (Ok dgs, cs <| ctrlSeq := u32 (ctrlSeq cs + zlen dgs) |>) /\ Forall2 becomes fbs outs /\
    let '(heard, cr') := hear_all pbkdf2 aes dgs cr in
    heard = concat outs /\ (takePeerAdvCap cr').1 = if bool_decide (Keepalive ∈ fbs) then (true, true) else (takePeerAdvCap cr).1.
Proof.
  intros Hs Hq Ht Hf. destruct (encodeFeedback_heard pbkdf2 aes fbs bitmask ts cs Hs Hq Ht Hf) as (dgs & outs & E & Houts & Hh). exists dgs, outs. split; [done|]. split; [done|]. rewrite Hh. split; [done|].
  clear. rewrite !takePeerAdvCap_cap. cbn [peerAdvCap upd]. set (cap := peerAdvCap cr). clearbody cap. revert cap. induction fbs as [|fb fbs IH]; intros cap; [done|]. cbn [fold_left]. rewrite IH.
  destruct (bool_decide (Keepalive ∈ fbs)) eqn:E1; [rewrite bool_decide_eq_true in E1; by rewrite bool_decide_eq_true_2 by (by right)|]. rewrite bool_decide_eq_false in E1.
  destruct (decide (Keepalive = fb)) as [<-|Hn]; [by rewrite bool_decide_eq_true_2 by (by left)|]. rewrite bool_decide_eq_false_2 by (rewrite elem_of_cons; tauto). by destruct fb.
Qed.

Lemma adv_feedback_survives_witness :
  exists dgs outs, (encodeFeedback [NackRequest 9 [4294967295; 3; 0]; Keepalive; RttEchoRequest 5 77] false 1 (newAdvCodec None None false 8 0 0)).1 = Ok dgs /\ length dgs = 4%nat /\
    Forall2 becomes [NackRequest 9 [4294967295; 3; 0]; Keepalive; RttEchoRequest 5 77] outs /\
    (hear_all psk.demo_pbkdf2 psk.demo_aes dgs (newAdvCodec None None false 8 0 0)).1 = concat outs.
Proof.
  destruct (adv_feedback_survives psk.demo_pbkdf2 psk.demo_aes (newAdvCodec None None false 8 0 0) (newAdvCodec None None false 8 0 0) [NackRequest 9 [4294967295; 3; 0]; Keepalive; RttEchoRequest 5 77] false 1)
    as (dgs & outs & E & H1 & H2); [done|done|done|repeat constructor; done|]. exists dgs, outs.
  assert (HL : length (match (encodeFeedback [NackRequest 9 [4294967295; 3; 0]; Keepalive; RttEchoRequest 5 77] false 1 (newAdvCodec None None false 8 0 0)).1 with Ok d => d | _ => [] end) = 4%nat) by (vm_compute; reflexivity).
  rewrite E in *. split; [done|]. split; [exact HL|]. split; [done|].
  destruct (hear_all psk.demo_pbkdf2 psk.demo_aes dgs _) as [heard cr']. apply H2.
Defined.

(** Arbitrary datagrams: whatever bytes arrive, in whatever state the codec is, decoding reports an error or a result and never panics, and
    a packet it delivers is no longer than the datagram or the decompression bound of 10000 bytes. *)
Theorem adv_decode_total pbkdf2 aes b c : (forall key x, length (aes key x) = 16%nat) -> (forall key x, is_bytes (aes key x)) -> is_bytes b ->
  returns (decodeAdv pbkdf2 aes b c).1.2 (fun r => match r with inl pkt => zlen (Payload pkt) <= Z.max (zlen b) maxAdvDecompressed | inr _ => True end).
Proof.
  intros Hlen Hby Hb. unfold decodeAdv, decodeParsed. pose proof (adv.adv_Parse_total b Hb) as H. destruct (adv.Parse b) as [p|e|]; [|done..]. destruct H as ((hdr & Hpl & Hh) & Hiv).
  assert (Hpb : is_bytes (adv.o_Payload p)) by (rewrite Hpl in Hb; by apply Forall_app in Hb as [_ ?]). assert (Hl : zlen (adv.o_Payload p) <= zlen b) by (rewrite Hpl, zlen_app; pose proof (zlen_nonneg hdr); lia).
  destruct (_ =? adv.TypeControl).
  - pose proof (decodeControl_total pbkdf2 (adv.o_Payload p) c Hpb) as H. by destruct (decodeControl pbkdf2 (adv.o_Payload p) c) as [[fbs|e|] c'].
  - destruct (_ =? adv.TypeDirect); [|done]. pose proof (decodeMediaAdv_total pbkdf2 aes Hlen Hby p c (zlen b) Hpb Hiv Hl) as H. by destruct (decodeMediaAdv pbkdf2 aes p c) as [[pkt|e|] c'].
Qed.

Lemma adv_decode_total_witness : returns (decodeAdv psk.demo_pbkdf2 psk.demo_aes ([0x80; 127] ++ replicate 30 0x55) (newAdvCodec None None false 8 0 0)).1.2 (fun r => match r with inl pkt => zlen (Payload pkt) <= 10000 | inr _ => True end).
Proof.
  apply (adv_decode_total psk.demo_pbkdf2 psk.demo_aes ([0x80; 127] ++ replicate 30 0x55) (newAdvCodec None None false 8 0 0)); [exact psk.demo_aes_len| |repeat constructor; done].
  intros key x. apply Forall_fmap, Forall_forall. intros i _. unfold compose, in_u8, u8, uwrap. apply Z.mod_pos_bound. done.
Defined.
End advcodec.
