(* ===== verification/MainCodec.v ===== *)
(** * The Main-profile codec: src/internal/session/codec_main.go

    Media, compound RTCP, keep-alives, buffer negotiation, out-of-band data and authentication frames in GRE datagrams on one
    port, with the region after the GRE sequence encrypted under the pre-shared key when there is one.  The RTP, RTCP, GRE, NPD
    and encryption codecs below it are the modules of those names; the sequence and source-time reconstruction is the Simple
    profile's.  Of the codec's scratch buffers only the one RTP packets are built in is kept, as a slice: the others are
    appended to from length zero and only save allocations. *)

From stdpp Require Import sets.
From S2P Require Import Prelude Bytes Clock Rtp Rtcp RtcpNack Wire Npd Gre Psk SimpleCodec.

Module maincodec.

Inductive err :=
  | EGre (e : gre.error) | ERtp (e : rtpError) | ERtcp (e : rtcp.error) | ENpd (e : npdError) | ECrypto (e : psk.err)
  | EProto (p : Z) | ENoDecryptor | ETooShort | EVersion (v : Z).

Definition wrap {E A} (f : E -> err) (r : res E A) : res err A := match r with Ok a => Ok a | Err e => Err (f e) | Panic => Panic end.

Definition rtcpPTByteLow : Z := 1.
Definition rtcpPTMin : Z := 72.
Definition rtcpPTMax : Z := 77.
Definition npdExtPayloadLen : Z := 4.

Definition hBitKeySize (keySize256 : bool) : Z := if keySize256 then psk.KeySize256 else psk.KeySize128.

Record mainCodec := mkMainCodec {
  sendKey : option psk.Key; recvKey : option psk.Decryptor; keySize256 : bool; greSeq : Z; dec : mediaDecoder; srcPort : Z; dstPort : Z; lastVirtSrc : Z; lastVirtDst : Z;
  npdEnabled : bool; ssrc : Z; cname : bytes; lastRxCNAME : bytes; peerCaps : option gre.Capabilities; bitmask : bool; rtpScratch : slice }.
#[export] Instance eta_mainCodec : Eta mainCodec := fun c =>
  mkMainCodec (sendKey c) (recvKey c) (keySize256 c) (greSeq c) (dec c) (srcPort c) (dstPort c) (lastVirtSrc c) (lastVirtDst c)
    (npdEnabled c) (ssrc c) (cname c) (lastRxCNAME c) (peerCaps c) (bitmask c) (rtpScratch c).

Definition newMainCodec (sk : option psk.Key) (rk : option psk.Decryptor) (k256 : bool) (sp dp : Z) (npd : bool) (ssrc : Z) (cname : bytes) (bm : bool) : mainCodec :=
  mkMainCodec sk rk k256 0 md_zero sp dp 0 0 npd ssrc cname [] None bm (mkSlice [] []).

Definition setSendKey (k : option psk.Key) (k256 : bool) (c : mainCodec) : mainCodec := c <| sendKey := k |> <| keySize256 := k256 |>.
Definition setRecvKey (d : option psk.Decryptor) (c : mainCodec) : mainCodec := c <| recvKey := d |>.
Definition hasSendKey (c : mainCodec) : bool := match sendKey c with Some _ => true | None => false end.
Definition setNPD (on : bool) (c : mainCodec) : mainCodec := c <| npdEnabled := on |>.

(** ** Null packets *)

(** [npd.Expand(dst[:0], in, bits)]: the loop of [bitsSet] never runs out of fuel. *)
Definition expand (input : bytes) (bits : Z) : res npdError bytes :=
  match Expand input bits [] with Some (Ok _, out) => Ok out | Some (Err e, _) => Err e | _ => Panic end.

Definition fecPayload (payload : bytes) (c : mainCodec) : res err bytes :=
  if negb (npdEnabled c) then Ok payload else
  match Suppress payload [] with
  | (Ok (bits, suppressed), reduced) =>
      if suppressed =? 0 then Ok payload else
      match expand reduced bits with Ok canon => Ok canon | Err _ => Ok payload | Panic => Panic end
  | (Err _, _) => Ok payload
  | (Panic, _) => Panic
  end.

Definition appendExtPayload (dst : bytes) (e : Ext) : res err bytes := t ← slc_from (ext_AppendTo e []) 4; Ok (dst ++ t).

Definition extWireBytes (profile : Z) (payload : bytes) : bytes :=
  [u8 (Z.shiftr profile 8); u8 profile; u8 (Z.shiftr Length 8); u8 Length] ++ payload.

(** ** Media out *)

(** The RTP packet that carries the payload without its null packets. *)
Definition npd_rtp (pkt : MediaPacket) (reduced ext : bytes) : Packet :=
  let ssrc := if Retransmit pkt then MarkRetransmit (SSRC pkt) else SSRC pkt in
  mkPacket (mkHeader 2 false true 0 false PayloadTypeMPEGTS (u16 (Seq pkt)) (rtpTSFromSource (SourceTime pkt)) ssrc [] Identifier ext) reduced 0.

(** The packet built in the RTP scratch buffer, [rtpScratch[:0]]. *)
Definition build_in_scratch (build : slice -> res rtpError unit * slice) (c : mainCodec) : res err bytes * mainCodec :=
  let '(r, out) := build (mkSlice [] (data (rtpScratch c) ++ spare (rtpScratch c))) in
  (match r with Ok _ => Ok (data out) | Err e => Err (ERtp e) | Panic => Panic end, c <| rtpScratch := out |>).

Definition buildMediaRTP (pkt : MediaPacket) (c : mainCodec) : res err bytes * mainCodec :=
  if negb (npdEnabled c) then build_in_scratch (fun s => encodeMedia s pkt) c else
  match Suppress (Payload pkt) [] with
  | (Panic, _) => (Panic, c)
  | (Err _, _) => build_in_scratch (fun s => encodeMedia s pkt) c
  | (Ok (npdBits, suppressed), reduced) =>
      if suppressed =? 0 then build_in_scratch (fun s => encodeMedia s pkt) c else
      match appendExtPayload [] (mkExt true (negb (Z.land npdBits NPDSize204 =? 0)) (Z.land npdBits NullBitmapMask) 0) with
      | Ok ext => build_in_scratch (packet_AppendTo (npd_rtp pkt reduced ext)) c
      | Err e => (Err e, c)
      | Panic => (Panic, c)
      end
  end.

Section primitives.
Context (pbkdf2 : bytes -> bytes -> Z -> option bytes) (aes : bytes -> bytes -> bytes).

(** The end of every encoder: the GRE header, in the clear, and behind it the region, encrypted under the sequence of the header and
    with the nonce read after the encryption when there is a key. *)
Definition seal (hdr : gre.Header) (dst region : bytes) (draws : list (option bytes)) (c : mainCodec) : (res err bytes * mainCodec) * list (option bytes) :=
  match sendKey c with
  | None => ((match gre.AppendTo hdr dst with (Ok _, out) => Ok (out ++ region) | (Err e, _) => Err (EGre e) | (Panic, _) => Panic end, c), draws)
  | Some k =>
      let '((r, k), draws) := psk.Encrypt pbkdf2 aes (gre.Seq hdr) [] region draws k in
      let c := c <| sendKey := Some k |> in
      match r with
      | Ok ct =>
          let hdr := gre.mkHeader (gre.Version hdr) true (gre.HasSeq hdr) (keySize256 c) (psk.Nonce k) (gre.Seq hdr) (gre.ProtType hdr) in
          ((match gre.AppendTo hdr dst with (Ok _, out) => Ok (out ++ ct) | (Err e, _) => Err (EGre e) | (Panic, _) => Panic end, c), draws)
      | Err e => ((Err (ECrypto e), c), draws)
      | Panic => ((Panic, c), draws)
      end
  end.

(** The header every encoder starts from, and the advance of the sequence. *)
Definition plain_header (version prot seq : Z) : gre.Header := gre.mkHeader version false true false (replicate 4 0) seq prot.
Definition next_seq (c : mainCodec) : mainCodec := c <| greSeq ::= fun n => u32 (n + 1) |>.

Definition frame (dst inner : bytes) (draws : list (option bytes)) (c : mainCodec) : (res err bytes * mainCodec) * list (option bytes) :=
  seal (plain_header gre.VersionMin gre.ProtoReduced (greSeq c)) dst (gre.reduced_AppendTo (gre.mkReduced (srcPort c) (dstPort c)) [] ++ inner) draws (next_seq c).

Definition encodeMainMedia (dst : bytes) (pkt : MediaPacket) (draws : list (option bytes)) (c : mainCodec) : (res err bytes * mainCodec) * list (option bytes) :=
  match buildMediaRTP pkt c with
  | (Ok inner, c) => frame dst inner draws c
  | (Err e, c) => ((Err e, c), draws)
  | (Panic, c) => ((Panic, c), draws)
  end.

(** ** Feedback out *)

Definition nackPackets (c : mainCodec) (mediaSSRC : Z) (missing : list Z) (bitmask : bool) : list rtcp.Packet :=
  if bitmask then EncodeBitmaskNACK 0 mediaSSRC missing else EncodeRangeNACK (ssrc c) mediaSSRC missing.

(** The longest prefix with upper half [hi]. *)
Fixpoint same_high (hi : Z) (missing : list Z) : list Z * list Z :=
  match missing with
  | [] => ([], [])
  | s :: rest => if u16 (Z.shiftr s 16) =? hi then let '(run, rest) := same_high hi rest in (s :: run, rest) else ([], missing)
  end.

(** The loop over runs of equal upper half. *)
Fixpoint nack_runs (fuel : nat) (c : mainCodec) (mediaSSRC : Z) (missing : list Z) (bitmask : bool) : list rtcp.Packet :=
  match fuel, missing with
  | S fuel, s :: _ =>
      let hi := u16 (Z.shiftr s 16) in
      let '(run, rest) := same_high hi missing in
      rtcp.ExtSeq (ssrc c) hi :: nackPackets c mediaSSRC run bitmask ++ nack_runs fuel c mediaSSRC rest bitmask
  | _, _ => []
  end.

Definition encodeNACK (c : mainCodec) (mediaSSRC : Z) (missing : list Z) (bitmask : bool) : list rtcp.Packet :=
  match missing with
  | [] => []
  | _ => if existsb (fun s => negb (Z.shiftr s 16 =? 0)) missing then nack_runs (length missing) c mediaSSRC missing bitmask else nackPackets c mediaSSRC missing bitmask
  end.

(** The NACK packets of one feedback value. *)
Definition nacks_main (c : mainCodec) (bitmask : bool) (fb : Feedback) : list rtcp.Packet :=
  match fb with NackRequest s missing => encodeNACK c s missing bitmask | _ => [] end.

Definition buildCompound (c : mainCodec) (lead : rtcp.Packet) (fbs : list Feedback) (bitmask : bool) : res err bytes :=
  s ← wrap ERtcp (rtcp.BuildCompound (mkSlice [] []) ([lead; rtcp.SDES (ssrc c) (cname c)] ++ (fbs ≫= nacks_main c bitmask) ++ (fbs ≫= echo_of (ssrc c))));
  Ok (data s).

Definition encodeMainFeedback (dst : bytes) (lead : rtcp.Packet) (fbs : list Feedback) (bitmask : bool) (draws : list (option bytes)) (c : mainCodec) : (res err bytes * mainCodec) * list (option bytes) :=
  match buildCompound c lead fbs bitmask with
  | Ok compound => frame dst compound draws c
  | Err e => ((Err e, c), draws)
  | Panic => ((Panic, c), draws)
  end.

(** ** Control out *)

Definition frameControl (dst body : bytes) (version proto vsfSubtype : Z) (draws : list (option bytes)) (c : mainCodec) : (res err bytes * mainCodec) * list (option bytes) :=
  if gre.VersionCur <=? version
  then seal (plain_header version gre.ProtoVSF (greSeq c)) dst (gre.vsf_AppendTo (gre.mkVSF gre.VSFTypeRIST vsfSubtype) [] ++ body) draws (next_seq c)
  else seal (plain_header version proto (greSeq c)) dst body draws (next_seq c).

Definition encodeKeepalive (dst : bytes) (ka : gre.Keepalive) (version : Z) := frameControl dst (gre.keepalive_AppendTo ka []) version gre.ProtoKeepalive gre.VSFSubtypeKeepalive.
Definition encodeBufferNeg (dst : bytes) (bn : gre.BufferNegotiation) := frameControl dst (gre.buf_AppendTo bn []) gre.VersionCur gre.ProtoVSF gre.VSFSubtypeBufferNegotiation.

Definition encodeOOB (dst payload : bytes) (protType : Z) (draws : list (option bytes)) (c : mainCodec) : (res err bytes * mainCodec) * list (option bytes) :=
  seal (plain_header gre.VersionMin protType (greSeq c)) dst payload draws (next_seq c).

(** Never encrypted. *)
Definition encodeEAPOL (dst eap : bytes) (c : mainCodec) : res err bytes * mainCodec :=
  (match gre.AppendTo (plain_header gre.VersionMin gre.ProtoEAPOL (greSeq c)) dst with (Ok _, out) => Ok (out ++ eap) | (Err e, _) => Err (EGre e) | (Panic, _) => Panic end, next_seq c).

(** ** In *)

(** The region behind a header, decrypted when its K bit is set. *)
Definition open_region (hdr : gre.Header) (region : bytes) (c : mainCodec) : res err bytes * mainCodec :=
  if gre.HasKey hdr then
    match recvKey c with
    | None => (Err ENoDecryptor, c)
    | Some d =>
        let d := psk.SetKeyBits (hBitKeySize (gre.KeySize256 hdr)) d in
        let '(r, d) := psk.Decrypt pbkdf2 aes (gre.Nonce hdr) (gre.Seq hdr) [] region d in
        (wrap ECrypto r, c <| recvKey := Some d |>)
    end
  else (Ok region, c).

Inductive controlKind := controlNone | controlKeepalive | controlBufferNeg.

(** The kind, the version and, for a keep-alive, its body or the error of decoding it. *)
Definition peekControl (b : bytes) (c : mainCodec) : (controlKind * Z * option (res err gre.Keepalive)) * mainCodec :=
  match gre.Parse b with
  | Ok (hdr, off) =>
      let version := gre.Version hdr in
      if negb (gre.ProtType hdr =? gre.ProtoKeepalive) then ((controlNone, version, None), c) else
      match slc_from b off with
      | Ok region =>
          match gre.HasKey hdr, recvKey c with
          | true, None => ((controlNone, version, None), c)
          | _, _ =>
              let '(r, c) := open_region hdr region c in
              ((controlKeepalive, version, Some (region ← r; wrap EGre (gre.ParseKeepalive region))), c)
          end
      | Err e => ((controlKeepalive, version, Some (Err e)), c)
      | Panic => ((controlKeepalive, version, Some Panic), c)
      end
  | Err _ => ((controlNone, 0, None), c)
  | Panic => ((controlNone, 0, Some Panic), c)
  end.

Definition takePeerCaps (c : mainCodec) : option gre.Capabilities * mainCodec :=
  match peerCaps c with None => (None, c) | Some caps => (Some caps, c <| peerCaps := None |>) end.

(** [None] when the datagram is not out-of-band data, else its protocol type and the decrypted payload. *)
Definition peekOOB (b : bytes) (c : mainCodec) : option (Z * res err bytes) * mainCodec :=
  match gre.Parse b with
  | Ok (hdr, off) =>
      if gre.IsReserved (gre.ProtType hdr) then (None, c) else
      match slc_from b off with
      | Ok region => let '(r, c) := open_region hdr region c in (Some (gre.ProtType hdr, r), c)
      | Err e => (Some (gre.ProtType hdr, Err e), c)
      | Panic => (Some (gre.ProtType hdr, Panic), c)
      end
  | Err _ => (None, c)
  | Panic => (Some (0, Panic), c)
  end.

Definition peekEAPOL (b : bytes) : res err (option bytes) :=
  match gre.Parse b with
  | Ok (hdr, off) => if negb (gre.ProtType hdr =? gre.ProtoEAPOL) then Ok None else eap ← slc_from b off; Ok (Some eap)
  | Err _ => Ok None
  | Panic => Panic
  end.

(** What a datagram holds once unwrapped: an inner packet, a buffer negotiation, or a control message served elsewhere. *)
Inductive region := RInner (inner : bytes) (isRTCP encrypted : bool) | RBuffer (bn : gre.BufferNegotiation) | RControl.

(** The version-2 wrapper: the reduced-overhead region, or what to return at once. *)
Definition unwrap_vsf (b : bytes) (encrypted : bool) (c : mainCodec) : res err (bytes + region) * mainCodec :=
  match gre.ParseVSFProto b with
  | Ok (vsf, vn) =>
      match slc_from b vn with
      | Ok rest =>
          if gre.Subtype vsf =? gre.VSFSubtypeReduced then (Ok (inl rest), c)
          else if gre.Subtype vsf =? gre.VSFSubtypeBufferNegotiation then
            match recvKey c, encrypted with
            | Some _, false => (Ok (inr RControl), c)
            | _, _ => (match gre.ParseBufferNegotiation rest with Ok bn => Ok (inr (RBuffer bn)) | Err _ => Ok (inr RControl) | Panic => Panic end, c)
            end
          else if gre.Subtype vsf =? gre.VSFSubtypeKeepalive then
            match gre.ParseKeepalive rest with
            | Ok ka => (Ok (inr RControl), c <| peerCaps := Some (gre.Caps ka) |>)
            | Err _ => (Ok (inr RControl), c)
            | Panic => (Panic, c)
            end
          else (Ok (inr RControl), c)
      | Err e => (Err e, c)
      | Panic => (Panic, c)
      end
  | Err e => (Err (EGre e), c)
  | Panic => (Panic, c)
  end.

(** The reduced-overhead header, its virtual ports kept, and the demultiplexing on the payload-type byte. *)
Definition strip_reduced (b : bytes) (encrypted : bool) (c : mainCodec) : res err region * mainCodec :=
  match gre.ParseReduced b with
  | Ok (rh, n) =>
      let c := c <| lastVirtSrc := gre.SrcPort rh |> <| lastVirtDst := gre.DstPort rh |> in
      (inner ← slc_from b n;
       if zlen inner <=? rtcpPTByteLow then Err ETooShort else
       x ← idx inner rtcpPTByteLow;
       let pt := Z.land x 0x7f in
       Ok (RInner inner ((rtcpPTMin <=? pt) && (pt <=? rtcpPTMax)) encrypted), c)
  | Err e => (Err (EGre e), c)
  | Panic => (Panic, c)
  end.

Definition mainRegion (b : bytes) (c : mainCodec) : res err region * mainCodec :=
  match gre.Parse b with
  | Ok (hdr, off) =>
      let isVSF := gre.ProtType hdr =? gre.ProtoVSF in
      if negb (gre.ProtType hdr =? gre.ProtoReduced) && negb isVSF then (Err (EProto (gre.ProtType hdr)), c) else
      match slc_from b off with
      | Ok region =>
          match open_region hdr region c with
          | (Ok region, c) =>
              if isVSF then
                match unwrap_vsf region (gre.HasKey hdr) c with
                | (Ok (inl region), c) => strip_reduced region (gre.HasKey hdr) c
                | (Ok (inr r), c) => (Ok r, c)
                | (Err e, c) => (Err e, c)
                | (Panic, c) => (Panic, c)
                end
              else strip_reduced region (gre.HasKey hdr) c
          | (Err e, c) => (Err e, c)
          | (Panic, c) => (Panic, c)
          end
      | Err e => (Err e, c)
      | Panic => (Panic, c)
      end
  | Err e => (Err (EGre e), c)
  | Panic => (Panic, c)
  end.

(** ** Media in *)

(** The payload of a received RTP packet, with the null packets its extension announces put back. *)
Definition media_payload (p : Packet) : res err bytes :=
  let h := p_Header p in
  if Extension h && (ExtensionProfile h =? Identifier) && (zlen (ExtensionPayload h) =? npdExtPayloadLen) then
    '(ext, _) ← wrap ENpd (ParseExt (extWireBytes (ExtensionProfile h) (ExtensionPayload h)));
    if NPD ext then wrap ENpd (expand (p_Payload p) (NPDBits (Size204 ext) (NullBitmap ext))) else Ok (p_Payload p)
  else Ok (p_Payload p).

Definition decodeMediaMain (b : bytes) (c : mainCodec) : res err MediaPacket * mainCodec :=
  match packet_Unmarshal b rtp_zero with
  | (Panic, _) => (Panic, c)
  | (Err e, _) => (Err (ERtp e), c)
  | (Ok _, p) =>
      let h := p_Header p in
      if negb (Version h =? 2) then (Err (EVersion (Version h)), c) else
      match media_payload p with
      | Ok payload =>
          let d := dec c in
          let seq32 := if md_started d then widenSeq (SequenceNumber h) (md_refSeq d) else SequenceNumber h in
          let d := d <| md_started := true |> <| md_refSeq := seq32 |> <| lastWireTS := RTPTimestamp h |> in
          let '(src, d) := sourceTime seq32 (RTPTimestamp h) d in
          (Ok (mkMediaPacket seq32 src (NormalizeSSRC (RTPSSRC h)) payload (IsRetransmit (RTPSSRC h)) 0 FragStandalone (lastVirtSrc c) (lastVirtDst c) true), c <| dec := d |>)
      | Err e => (Err e, c)
      | Panic => (Panic, c)
      end
  end.

(** ** Feedback in *)

Definition foldNACK (ssrc : Z) (narrow : list Z) (seqHigh : Z) (haveExtSeq : bool) (nackRef : Z) : Feedback :=
  NackRequest ssrc (if haveExtSeq then (fun s => Z.lor (u32 (Z.shiftl seqHigh 16)) (Z.land s 0xFFFF)) <$> narrow else (fun s => widenSeqAtMost (u16 s) nackRef) <$> narrow).

(** The packets of a compound in order, with the EXTSEQ in force and the CNAME last surfaced. *)
Fixpoint fold_packets (pkts : list rtcp.Packet) (seqHigh : Z) (haveExtSeq : bool) (nackRef : Z) (encrypted : bool) (lastCNAME : bytes) : list Feedback * bytes :=
  match pkts with
  | [] => ([], lastCNAME)
  | p :: pkts =>
      let nack s narrow := let '(out, last) := fold_packets pkts seqHigh false nackRef encrypted lastCNAME in (foldNACK s narrow seqHigh haveExtSeq nackRef :: out, last) in
      let emit fb := let '(out, last) := fold_packets pkts seqHigh haveExtSeq nackRef encrypted lastCNAME in (fb :: out, last) in
      match p with
      | rtcp.ExtSeq _ high => fold_packets pkts high true nackRef encrypted lastCNAME
      | rtcp.RangeNACK ms ranges => nack ms (range_AppendMissingSeqs ranges [])
      | rtcp.BitmaskNACK _ ms fcis => nack ms (bitmask_AppendMissingSeqs fcis [])
      | rtcp.EchoRequest s ts _ => emit (RttEchoRequest s ts)
      | rtcp.EchoResponse s ts delay _ => emit (RttEchoResponse s ts delay)
      | rtcp.LinkQualityReport _ lqm => emit (LinkQuality lqm)
      | rtcp.SDES _ cname =>
          if encrypted && negb (zlen cname =? 0) && negb (bool_decide (cname = lastCNAME))
          then let '(out, last) := fold_packets pkts seqHigh haveExtSeq nackRef encrypted cname in (PeerIdentity cname :: out, last)
          else fold_packets pkts seqHigh haveExtSeq nackRef encrypted lastCNAME
      | _ => fold_packets pkts seqHigh haveExtSeq nackRef encrypted lastCNAME
      end
  end.

(** [rtcp.ParseCompound], whose fuel suffices. *)
Definition parse_compound (b : bytes) : res err (list rtcp.Packet) := match rtcp.ParseCompound b with Some r => wrap ERtcp r | None => Panic end.

Definition decodeFeedbackMain (b : bytes) (nackRef : Z) (encrypted : bool) (c : mainCodec) : res err (list Feedback) * mainCodec :=
  match parse_compound b with
  | Ok pkts => let '(out, last) := fold_packets pkts 0 false nackRef encrypted (lastRxCNAME c) in (Ok out, c <| lastRxCNAME := last |>)
  | Err e => (Err e, c)
  | Panic => (Panic, c)
  end.

(** The first non-empty CNAME, empty when there is none. *)
Definition sdesCNAME (region : bytes) : res err bytes :=
  match parse_compound region with
  | Ok pkts => Ok (default [] (head (pkts ≫= fun p => match p with rtcp.SDES _ cn => if zlen cn =? 0 then [] else [cn] | _ => [] end)))
  | Err _ => Ok []
  | Panic => Panic
  end.

Definition feedbackCNAME (b : bytes) (c : mainCodec) : res err (option bytes) * mainCodec :=
  match mainRegion b c with
  | (Ok (RInner region true true), c) => (cn ← sdesCNAME region; Ok (if zlen cn =? 0 then None else Some cn), c)
  | (Panic, c) => (Panic, c)
  | (_, c) => (Ok None, c)
  end.

(** What a datagram yields: [isMedia] and a packet, feedback, a buffer negotiation, or nothing. *)
Inductive decoded := DMedia (pkt : MediaPacket) | DFeedback (fbs : list Feedback) | DBuffer (bn : gre.BufferNegotiation) | DNothing.

Definition decodeMain (b : bytes) (nackRef : Z) (c : mainCodec) : res err decoded * mainCodec :=
  match mainRegion b c with
  | (Ok (RInner region isRTCP encrypted), c) =>
      if (isRTCP : bool) then let '(r, c) := decodeFeedbackMain region nackRef encrypted c in (fbs ← r; Ok (DFeedback fbs), c)
      else let '(r, c) := decodeMediaMain region c in (pkt ← r; Ok (DMedia pkt), c)
  | (Ok (RBuffer bn), c) => (Ok (DBuffer bn), c)
  | (Ok RControl, c) => (Ok DNothing, c)
  | (Err e, c) => (Err e, c)
  | (Panic, c) => (Panic, c)
  end.
End primitives.

(** ** The sealed region *)

Section channel.
Context (pbkdf2 : bytes -> bytes -> Z -> option bytes) (aes : bytes -> bytes -> bytes) (aes_len : forall key b, length (aes key b) = 16%nat).

(** The passphrase and derivation of an encrypted session, whose key size is the one of the header's H bit. *)
Context (keys : option (bytes * bool)) (k256 : bool).

Definition send_ok (c : mainCodec) : Prop :=
  keySize256 c = k256 /\ match keys, sendKey c with None, None => True | Some (pw, raw), Some k => psk.key_ok pbkdf2 pw (hBitKeySize k256) raw k | _, _ => False end.

(** The decryptor has handled at most [n] packets. *)
Definition recv_ok (n : Z) (c : mainCodec) : Prop :=
  match keys, recvKey c with None, None => True | Some (pw, raw), Some d => psk.dec_ok pbkdf2 pw (hBitKeySize k256) raw n d | _, _ => False end.

(** A datagram of the given version and protocol type that carries [region], encrypted when the session is. *)
Definition sealed (version prot : Z) (region dg : bytes) : Prop :=
  exists hdr ct, gre.header_typed hdr /\ gre.Version hdr = version /\ gre.ProtType hdr = prot /\ dg = gre.enc hdr ++ ct /\ gre.HasSeq hdr = true /\
  match keys with
  | None => gre.HasKey hdr = false /\ ct = region
  | Some (pw, raw) => gre.HasKey hdr = true /\ gre.KeySize256 hdr = k256 /\
      exists block, psk.deriveBlock pbkdf2 pw (gre.Nonce hdr) (hBitKeySize k256) raw = Ok block /\ ct = psk.crypt aes block (psk.BuildIV (gre.Seq hdr)) [] region
  end.

(** The datagram does not carry the nonce that every receiver refuses. *)
Definition nonce_ok (dg : bytes) : Prop := forall hdr off, gre.Parse dg = Ok (hdr, off) -> gre.HasKey hdr = true -> psk.isZeroNonce (gre.Nonce hdr) = false.

(** An encoder's result: it fails only where the cipher does. *)
Definition made (r : res err bytes) (P : bytes -> Prop) : Prop := match r with Ok dg => P dg | Err e => is_Some keys /\ exists e', e = ECrypto e' | Panic => False end.

Lemma seal_ok version prot seq region draws c : 0 <= version <= 7 -> in_u16 prot -> in_u32 seq -> send_ok c ->
  exists r k draws', seal pbkdf2 aes (plain_header version prot seq) [] region draws c = ((r, c <| sendKey := k |>), draws') /\
    (forall c', keySize256 c' = k256 -> sendKey c' = k -> send_ok c') /\ made r (sealed version prot region).
Proof.
  intros Hv Hp Hs [Hk Hc]. unfold seal, send_ok, sealed, made. destruct keys as [[pw raw]|], (sendKey c) as [k|] eqn:Ek; try done.
  - cbn [gre.Seq plain_header]. pose proof (psk.Encrypt_ok pbkdf2 aes pw (hBitKeySize k256) raw seq region draws k Hc) as HE. pose proof (psk.Encrypt_returns pbkdf2 aes seq region draws k) as HN.
    destruct (psk.Encrypt pbkdf2 aes seq [] region draws k) as [[r k'] draws']. destruct HE as (Hk' & _ & _ & Hr). set (c1 := c <| sendKey := Some k' |>).
    assert (Hall : forall c', keySize256 c' = k256 -> sendKey c' = Some k' -> keySize256 c' = k256 /\ match sendKey c' with Some k => psk.key_ok pbkdf2 pw (hBitKeySize k256) raw k | None => False end) by (intros c' -> ->; done).
    destruct r as [ct|e|]; [|by eexists _, _, _; split; [done|]; split; [exact Hall|]; split; [done|]; eexists|done]. set (hdr := gre.mkHeader version true true k256 (psk.Nonce k') seq prot).
    assert (Hh : gre.header_typed hdr). { split; try done. apply (psk.deriveBlock_nonce pbkdf2 pw _ (hBitKeySize k256) raw (psk.k_block k')), Hk'. }
    assert (EA : gre.AppendTo (gre.mkHeader version true true (keySize256 c1) (psk.Nonce k') seq prot) [] = (Ok tt, gre.enc hdr)) by (change (keySize256 c1) with (keySize256 c); rewrite Hk; exact (gre.AppendTo_enc hdr [] Hh)).
    cbn [gre.Version gre.HasSeq gre.Seq gre.ProtType plain_header]. rewrite EA. eexists _, _, _. split; [done|]. split; [exact Hall|]. exists hdr, ct. split_and!; try done.
    exists (psk.k_block k'). split; [apply Hk'|apply Hr].
  - set (hdr := plain_header version prot seq). assert (Hh : gre.header_typed hdr) by done. rewrite (gre.AppendTo_enc hdr []) by done. eexists _, None, _. split; [destruct c; cbn in *; by subst|].
    split; [intros c' Hc' ->; done|]. cbn [app]. by exists hdr, region.
Qed.

Lemma open_sealed version prot region dg n c : sealed version prot region dg -> nonce_ok dg -> recv_ok n c -> 0 <= n <= psk.reuseLimit ->
  exists hdr off rest d, gre.Parse dg = Ok (hdr, off) /\ gre.Version hdr = version /\ gre.ProtType hdr = prot /\ gre.HasKey hdr = bool_decide (is_Some keys) /\
    (forall E, slc_from (E := E) dg off = Ok rest) /\ open_region pbkdf2 aes hdr rest c = (Ok region, c <| recvKey := d |>) /\ (forall c', recvKey c' = d -> recv_ok (n + 1) c').
Proof.
  intros (hdr & ct & Hh & Hv & Hp & Hdg & Hsq & Hk) Hz Hr Hn. pose proof (gre.gre_Parse_enc hdr ct Hh) as HP. rewrite <-Hdg in HP.
  exists (gre.norm hdr), (gre.Size hdr), ct. assert (Hsl : forall E, slc_from (E := E) dg (gre.Size hdr) = Ok ct) by (intros E; rewrite Hdg, <-(gre.enc_Size hdr) by done; by apply slc_from_app).
  unfold recv_ok, open_region in *. cbn [gre.norm gre.HasKey gre.KeySize256 gre.Nonce gre.Seq gre.Version gre.ProtType]. rewrite Hsq.
  destruct keys as [[pw raw]|], (recvKey c) as [d|] eqn:Ek; try done.
  - destruct Hk as (Hkey & Hk2 & block & Hblk & Hct). specialize (Hz _ _ HP). cbn [gre.norm gre.HasKey gre.Nonce] in Hz. rewrite Hkey in *. specialize (Hz eq_refl). cbn [andb].
    assert (ES : psk.SetKeyBits (hBitKeySize (gre.KeySize256 hdr)) d = d) by (unfold psk.SetKeyBits; destruct Hr as (_ & -> & _); by rewrite Hk2, Z.eqb_refl). rewrite ES.
    pose proof (psk.Decrypt_ok pbkdf2 aes pw (hBitKeySize k256) raw n (gre.Nonce hdr) (gre.Seq hdr) ct d block Hr Hn Hz Hblk) as HD.
    destruct (psk.Decrypt pbkdf2 aes (gre.Nonce hdr) (gre.Seq hdr) [] ct d) as [r d']. destruct HD as [-> Hd']. exists (Some d'). cbn [wrap]. split_and!; try done.
    + f_equal. f_equal. rewrite Hct. unfold psk.crypt. cbn [app]. by rewrite psk.BuildIV_be, (psk.crypt_involutive aes aes_len).
    + intros c' ->. done.
  - destruct Hk as [Hkey ->]. rewrite Hkey in *. cbn [andb]. exists None. split_and!; try done; [destruct c; cbn in *; by subst|by intros c' ->].
Qed.
End channel.

(** ** Media *)

#[local] Strategy 100 [rtpTSFromSource].

(** The packet as the receiver of a codec in state [c] names its ports. *)
Definition on_ports (m : MediaPacket) (sp dp : Z) : MediaPacket := m <| VirtSrcPort := sp |> <| VirtDstPort := dp |>.

(** [inner] is an RTP packet for which the decoder returns what it returns for the plain packet of [pkt]. *)
Record carries_media (pkt : MediaPacket) (inner : bytes) : Prop := {
  cm_demux : exists x, 1 < zlen inner /\ idx (E := err) inner rtcpPTByteLow = Ok x /\ Z.land x 0x7f = PayloadTypeMPEGTS;
  cm_decode : forall c m d, decode (enc_packet (rtp_of pkt)) (dec c) = (Ok m, d) -> decodeMediaMain inner c = (Ok (on_ports m (lastVirtSrc c) (lastVirtDst c)), c <| dec := d |>) }.

(** An RTP packet with the fixed fields of [pkt] and an extension or none. *)
Lemma carries_media_ok pkt q : media_ok pkt -> Rtp.packet_typed q -> packet_ok q ->
  (let h := p_Header q in let h0 := p_Header (rtp_of pkt) in
   Version h = Version h0 /\ Marker h = false /\ PayloadType h = PayloadType h0 /\ SequenceNumber h = SequenceNumber h0 /\ RTPTimestamp h = RTPTimestamp h0 /\ RTPSSRC h = RTPSSRC h0) ->
  media_payload (norm_packet q) = Ok (Payload pkt) -> carries_media pkt (enc_packet q).
Proof.
  intros Hm Hq Hqo (Hv & Hmk & Hpt & Hsn & Hts & Hss) Hpl. split.
  - exists (second_octet (p_Header q)). split; [|split].
    + unfold enc_packet, enc_header. zlens. pose proof (zlen_nonneg (enc_csrc (CSRC (p_Header q)))). pose proof (zlen_nonneg (enc_ext (p_Header q))). pose proof (zlen_nonneg (p_Payload q)). pose proof (zlen_nonneg (enc_pad (PaddingSize q))). lia.
    + reflexivity.
    + unfold second_octet. by rewrite Hmk, Hpt.
  - intros c m d Hd. rewrite (decode_enc pkt _ Hm) in Hd. unfold decodeMediaMain. rewrite packet_Unmarshal_enc by done. rewrite Hpl.
    unfold norm_packet, norm_header. cbn [p_Header Version SequenceNumber RTPTimestamp RTPSSRC]. rewrite Hv, Hsn, Hts, Hss. cbn [rtp_of p_Header Version SequenceNumber RTPTimestamp RTPSSRC Z.eqb Pos.eqb negb]. cbv zeta in Hd |- *.
    destruct (sourceTime _ _ _) as [src d']. injection Hd as <- <-. destruct Hm as [[] He Hp]. destruct (mark_facts (SSRC pkt) pt_ssrc He) as (_ & M1 & M2 & M3 & M4).
    do 2 f_equal. destruct (Retransmit pkt); rewrite ?M1, ?M2, ?M3, ?M4; done.
Qed.

Lemma carries_plain pkt : media_ok pkt -> carries_media pkt (enc_packet (rtp_of pkt)).
Proof. intros Hm. destruct (rtp_of_ok pkt Hm) as [Ht Ho]. by apply carries_media_ok. Qed.

(** The extension that announces the deleted null packets. *)
Lemma npd_ext sz ps : ts_payload sz ps ->
  let bits := bits_of sz (is_null <$> ps) in
  exists ext, appendExtPayload [] (mkExt true (negb (Z.land bits NPDSize204 =? 0)) (Z.land bits NullBitmapMask) 0) = Ok ext /\ zlen ext = npdExtPayloadLen /\ is_bytes ext /\
    forall h, Extension h = true -> ExtensionProfile h = Identifier -> ExtensionPayload h = ext ->
      media_payload (mkPacket h (concat (List.filter (fun p => negb (is_null p)) ps)) 0) = Ok (concat (canon (ts_size sz) <$> ps)).
Proof.
  intros Hps bits. assert (Hl : (length (is_null <$> ps) <= 7)%nat) by (rewrite length_fmap; pose proof (tp_count _ _ Hps) as H; unfold zlen, MaxPackets in H; lia).
  destruct (bitmap sz _ Hl) as [Hu8 _ Hjoin _ _]. fold bits in Hu8, Hjoin. set (e := mkExt true _ _ 0).
  assert (EA : exists fl nb, ext_AppendTo e [] = be_bytes 2 Identifier ++ be_bytes 2 Length ++ [fl; nb; 0; 0] /\ in_u8 fl /\ in_u8 nb).
  { unfold ext_AppendTo. eexists _, _. split; [reflexivity|]. split; [done|]. cbn [Size204 NullBitmap e]. apply NPDBits_u8. }
  destruct EA as (fl & nb & EA & Hfl & Hnb). exists [fl; nb; 0; 0]. unfold appendExtPayload. rewrite EA. split; [reflexivity|]. split; [done|]. split; [repeat (apply Forall_cons; split; [done|]); apply Forall_nil; exact I|].
  intros h He Hid Hp. unfold media_payload. cbn [p_Header p_Payload]. rewrite He, Hid, Hp. change (Identifier =? Identifier) with true. change (zlen [fl; nb; 0; 0] =? npdExtPayloadLen) with true. cbn [andb].
  assert (HP : ParseExt (extWireBytes Identifier [fl; nb; 0; 0]) = Ok (mkExt true (negb (Z.land bits NPDSize204 =? 0)) (Z.land (Z.land bits NullBitmapMask) NullBitmapMask) 0, ExtSize)).
  { change (extWireBytes Identifier [fl; nb; 0; 0]) with (be_bytes 2 Identifier ++ be_bytes 2 Length ++ [fl; nb; 0; 0]). rewrite <-EA, <-(app_nil_r (ext_AppendTo e [])). apply (ext_round_trip e []); [apply mask_u8|done]. }
  rewrite HP. cbn [wrap mbind res_bind NPD Size204 NullBitmap]. rewrite <-Z.land_assoc, (Z.land_diag NullBitmapMask), Hjoin. unfold expand. pose proof (Expand_spec sz ps [] Hps) as HX. fold bits in HX. by rewrite HX.
Qed.

(** The payload as the receiver will see it, and the packet that carries it. *)
Definition as_carried (c : mainCodec) (pkt : MediaPacket) : MediaPacket :=
  pkt <| Payload := match fecPayload (Payload pkt) c with Ok p => p | _ => Payload pkt end |>.

Lemma canon_bytes size ps : Forall is_bytes ps -> is_bytes (concat (canon size <$> ps)).
Proof.
  intros Hps. apply Forall_concat, Forall_fmap. eapply Forall_impl; [exact Hps|]. intros p Hp. unfold compose, canon, null_packet. destruct (is_null p); [|done]. apply Forall_app. split; [by repeat constructor|]. by apply Forall_replicate.
Qed.

Lemma canon_zlen sz ps : ts_payload sz ps -> 0 <= zlen (concat (canon (ts_size sz) <$> ps)) <= 1428.
Proof.
  intros [Hp Hc _]. assert (Hs : Forall (fun q => zlen q = ts_size sz) (canon (ts_size sz) <$> ps)).
  { apply Forall_fmap. eapply Forall_impl; [exact (ts_sized _ _ Hp)|]. intros p Hpl. unfold compose, canon, null_packet in *. destruct (is_null p); [|done]. zlens. by destruct sz. }
  rewrite (zlen_concat _ _ Hs). assert (E : zlen (canon (ts_size sz) <$> ps) = zlen ps) by (unfold zlen; by rewrite length_fmap). rewrite E. pose proof (zlen_nonneg ps). destruct sz; cbn; unfold SizeTS188, SizeTS204; lia.
Qed.

Lemma bytes_concat (ps : list bytes) : is_bytes (concat ps) -> Forall is_bytes ps.
Proof. induction ps as [|p ps IH]; [constructor|]. cbn [concat]. intros [H1 H2]%Forall_app. constructor; [done|by apply IH]. Qed.

Lemma build_plain pkt c : media_ok pkt -> exists sc, build_in_scratch (fun s => encodeMedia s pkt) c = (Ok (enc_packet (rtp_of pkt)), c <| rtpScratch := sc |>).
Proof.
  intros Hm. destruct (rtp_of_ok pkt Hm) as [Ht Ho]. unfold build_in_scratch, encodeMedia. destruct (packet_AppendTo_spec (rtp_of pkt) (mkSlice [] (data (rtpScratch c) ++ spare (rtpScratch c))) Ht Ho) as [sp ->]. by eexists.
Qed.

Lemma npd_rtp_ok pkt reduced ext : media_ok pkt -> is_bytes reduced -> zlen ext = npdExtPayloadLen -> is_bytes ext ->
  Rtp.packet_typed (npd_rtp pkt reduced ext) /\ packet_ok (npd_rtp pkt reduced ext).
Proof.
  intros Hm Hr Hl Hx. destruct (rtp_of_ok pkt Hm) as [[[_ _ H3 H4 H5 _ _ _] _ _] _]. unfold rtp_of, npd_rtp in *. cbn [p_Header SequenceNumber RTPTimestamp RTPSSRC] in *.
  generalize dependent (rtpTSFromSource (SourceTime pkt)). generalize dependent (if Retransmit pkt then MarkRetransmit (SSRC pkt) else SSRC pkt). intros ss Hss ts Hts.
  split; [split; [split; cbn; done|exact Hr|done]|split; [|done]]. apply header_check_ok; [done|done|]. intros _. cbn. by rewrite Hl.
Qed.

Lemma build_media pkt c : media_ok pkt ->
  exists inner sc, buildMediaRTP pkt c = (Ok inner, c <| rtpScratch := sc |>) /\ media_ok (as_carried c pkt) /\ carries_media (as_carried c pkt) inner /\
    (exists payload, fecPayload (Payload pkt) c = Ok payload).
Proof.
  intros Hm. destruct (build_plain pkt c Hm) as [sc Hsc]. pose proof (carries_plain pkt Hm) as Hpl. unfold buildMediaRTP, as_carried, fecPayload.
  assert (Hid : pkt <| Payload := Payload pkt |> = pkt) by (by destruct pkt). destruct (npdEnabled c); cbn [negb]; [|rewrite Hsc, Hid; by eauto 10].
  destruct (Suppress_cases (Payload pkt) []) as [(sz & ps & Hps & Hpay)|(e & ->)]; [|rewrite Hsc, Hid; by eauto 10].
  rewrite Hpay, (Suppress_spec sz ps [] Hps). cbv iota beta. destruct (_ =? 0); [rewrite Hsc, <-Hpay, Hid; by eauto 10|]. cbn [app].
  unfold expand. rewrite (Expand_spec sz ps [] Hps). cbn [app]. set (bits := bits_of sz _). destruct (npd_ext sz ps Hps) as (ext & HE & Hlen & Hxb & Hmp). fold bits in HE. rewrite HE.
  pose proof (mo_payload _ Hm) as Hb. rewrite Hpay in Hb. apply bytes_concat in Hb.
  assert (Hred : is_bytes (concat (List.filter (fun p => negb (is_null p)) ps))).
  { apply Forall_concat. rewrite Forall_forall in Hb |- *. intros p Hp. apply Hb. apply list_elem_of_In in Hp. apply filter_In in Hp as [Hp _]. by apply list_elem_of_In. }
  destruct (npd_rtp_ok pkt _ ext Hm Hred Hlen Hxb) as [Hqt Hqo]. unfold build_in_scratch. destruct (packet_AppendTo_spec _ (mkSlice [] (data (rtpScratch c) ++ spare (rtpScratch c))) Hqt Hqo) as [sp ->].
  eexists _, _. split; [reflexivity|]. set (pay := concat (canon (ts_size sz) <$> ps)). set (pkt' := pkt <| Payload := pay |>).
  assert (Hm' : media_ok pkt'). { destruct Hm as [[] He _]. split; [split|..]; try done; [|by apply canon_bytes]. pose proof (canon_zlen sz ps Hps) as Hz. fold pay in Hz. change (in_i64 (zlen pay)). unfold in_i64. lia. }
  split; [done|]. split; [|by eexists]. apply carries_media_ok; [done..| |by apply Hmp]. split_and!; reflexivity.
Qed.

(** ** Datagrams *)

Section datagrams.
Context (pbkdf2 : bytes -> bytes -> Z -> option bytes) (aes : bytes -> bytes -> bytes) (aes_len : forall key b, length (aes key b) = 16%nat) (keys : option (bytes * bool)) (k256 : bool).

(** What the encoders leave as it is. *)
Definition same_flow (c c' : mainCodec) : Prop := srcPort c' = srcPort c /\ dstPort c' = dstPort c /\ npdEnabled c' = npdEnabled c /\ ssrc c' = ssrc c /\ cname c' = cname c.

Definition sender_ok (c : mainCodec) : Prop := in_u32 (greSeq c) /\ in_u16 (srcPort c) /\ in_u16 (dstPort c) /\ send_ok pbkdf2 keys k256 c.

#[export] Instance same_flow_trans : Transitive same_flow.
Proof. intros a b c (A1 & A2 & A3 & A4 & A5) (B1 & B2 & B3 & B4 & B5). split_and!; by etransitivity. Qed.

(** Every encoder: the next sequence number, and the region sealed. *)
Lemma seal_next version prot region draws c : 0 <= version <= 7 -> in_u16 prot -> sender_ok c ->
  let '((r, c'), _) := seal pbkdf2 aes (plain_header version prot (greSeq c)) [] region draws (next_seq c) in
  sender_ok c' /\ same_flow c c' /\ made keys r (sealed pbkdf2 aes keys k256 version prot region).
Proof.
  intros Hv Hp (Hs & Hsp & Hdp & Hk). set (c1 := next_seq c). assert (Hk1 : send_ok pbkdf2 keys k256 c1) by exact Hk.
  destruct (seal_ok pbkdf2 aes keys k256 version prot (greSeq c) region draws c1 Hv Hp Hs Hk1) as (r & k & draws' & -> & Hall & Hr). split; [|done].
  split; [apply u32_range|]. split; [done|]. split; [done|]. apply Hall; [apply Hk|done].
Qed.

(** An inner packet behind its reduced-overhead header. *)
Definition framed (sp dp : Z) (inner dg : bytes) : Prop :=
  sealed pbkdf2 aes keys k256 gre.VersionMin gre.ProtoReduced (gre.reduced_AppendTo (gre.mkReduced sp dp) [] ++ inner) dg.

Lemma frame_ok inner draws c : sender_ok c ->
  let '((r, c'), _) := frame pbkdf2 aes [] inner draws c in sender_ok c' /\ same_flow c c' /\ made keys r (framed (srcPort c) (dstPort c) inner).
Proof. intros Hc. unfold frame, framed. by apply seal_next. Qed.

Definition on_wire (c : mainCodec) (pkt : MediaPacket) (dg : bytes) : Prop := exists inner, carries_media (as_carried c pkt) inner /\ framed (srcPort c) (dstPort c) inner dg.

Lemma as_carried_same c c' pkt : npdEnabled c' = npdEnabled c -> as_carried c' pkt = as_carried c pkt.
Proof. intros E. unfold as_carried, fecPayload. by rewrite E. Qed.

Lemma main_encode_on_wire c pkt draws : sender_ok c -> media_ok pkt ->
  let '((r, c'), _) := encodeMainMedia pbkdf2 aes [] pkt draws c in sender_ok c' /\ same_flow c c' /\ made keys r (on_wire c pkt).
Proof.
  intros Hc Hm. destruct (build_media pkt c Hm) as (inner & sc & E & _ & Hi & _). unfold encodeMainMedia. rewrite E. set (c1 := c <| rtpScratch := sc |>). assert (Hc1 : sender_ok c1) by exact Hc.
  pose proof (frame_ok inner draws c1 Hc1) as HF. destruct (frame pbkdf2 aes [] inner draws c1) as [[r c'] draws']. destruct HF as (H1 & H2 & H3). split; [done|]. split; [done|]. destruct r; try done. by exists inner.
Qed.

(** The receiver gets the inner packet back, its kind told by the payload-type byte. *)
Lemma region_framed sp dp inner dg n c x : in_u16 sp -> in_u16 dp -> framed sp dp inner dg -> nonce_ok dg -> recv_ok pbkdf2 keys k256 n c -> 0 <= n <= psk.reuseLimit ->
  1 < zlen inner -> idx (E := err) inner rtcpPTByteLow = Ok x ->
  exists d, (forall c', recvKey c' = d -> recv_ok pbkdf2 keys k256 (n + 1) c') /\
    mainRegion pbkdf2 aes dg c = (Ok (RInner inner ((rtcpPTMin <=? Z.land x 0x7f) && (Z.land x 0x7f <=? rtcpPTMax)) (bool_decide (is_Some keys))), c <| recvKey := d |> <| lastVirtSrc := sp |> <| lastVirtDst := dp |>).
Proof.
  intros Hsp Hdp Hf Hz Hr Hn Hl Hx. destruct (open_sealed pbkdf2 aes aes_len keys k256 _ _ _ dg n c Hf Hz Hr Hn) as (hdr & off & rest & d & HP & _ & Hpt & Hk & Hsl & Ho & Hd).
  exists d. split; [exact Hd|]. unfold mainRegion. rewrite HP, Hpt. change (gre.ProtoReduced =? gre.ProtoVSF) with false. change (gre.ProtoReduced =? gre.ProtoReduced) with true. cbn [negb andb]. rewrite Hsl, Ho, Hk.
  set (c1 := c <| recvKey := d |>). unfold strip_reduced. rewrite gre.ParseReduced_enc by done. rewrite slc_from_app by done. cbn [mbind res_bind]. destruct (Z.leb_spec (zlen inner) rtcpPTByteLow) as [H|_]; [unfold rtcpPTByteLow in H; lia|]. by rewrite Hx.
Qed.

Lemma main_decode_on_wire cs pkt dg n c ref m d : in_u16 (srcPort cs) -> in_u16 (dstPort cs) -> on_wire cs pkt dg -> nonce_ok dg -> recv_ok pbkdf2 keys k256 n c -> 0 <= n <= psk.reuseLimit ->
  decode (enc_packet (rtp_of (as_carried cs pkt))) (dec c) = (Ok m, d) ->
  exists c', decodeMain pbkdf2 aes dg ref c = (Ok (DMedia (on_ports m (srcPort cs) (dstPort cs))), c') /\ dec c' = d /\ recv_ok pbkdf2 keys k256 (n + 1) c'.
Proof.
  intros Hsp Hdp (inner & [(x & Hl & Hx & Hpt) Hdec] & Hf) Hz Hr Hn Hm. destruct (region_framed _ _ inner dg n c x Hsp Hdp Hf Hz Hr Hn Hl Hx) as (k & Hk & E).
  unfold decodeMain. rewrite E, Hpt. change ((rtcpPTMin <=? PayloadTypeMPEGTS) && (PayloadTypeMPEGTS <=? rtcpPTMax)) with false. cbv iota.
  set (c1 := c <| recvKey := k |> <| lastVirtSrc := _ |> <| lastVirtDst := _ |>). rewrite (Hdec c1 m d Hm). eexists. split; [reflexivity|]. split; [done|]. by apply Hk.
Qed.

(** ** A stream of packets *)

(** The datagrams of the packets that could be sent, each with its packet and offset in the stream. *)
Fixpoint encode_all (jps : list (Z * MediaPacket)) (draws : list (option bytes)) (c : mainCodec) : list ((Z * MediaPacket) * bytes) :=
  match jps with
  | [] => []
  | jp :: jps =>
      let '((r, c), draws) := encodeMainMedia pbkdf2 aes [] jp.2 draws c in
      match r with Ok dg => (jp, dg) :: encode_all jps draws c | _ => encode_all jps draws c end
  end.

Fixpoint decode_all (dgs : list bytes) (ref : Z) (c : mainCodec) : list (res err decoded) :=
  match dgs with [] => [] | dg :: dgs => let '(r, c) := decodeMain pbkdf2 aes dg ref c in r :: decode_all dgs ref c end.

Lemma main_encode_all_on_wire cs c jps draws : sender_ok c -> same_flow cs c -> Forall (fun jp => media_ok jp.2) jps ->
  Forall (fun '(jp, dg) => jp ∈ jps /\ on_wire cs jp.2 dg) (encode_all jps draws c) /\ (keys = None -> (encode_all jps draws c).*1 = jps).
Proof.
  revert c draws. induction jps as [|jp jps IH]; intros c draws Hc Hf Hm; [done|]. apply Forall_cons_1 in Hm as [Hm Hms]. cbn [encode_all].
  pose proof (main_encode_on_wire c jp.2 draws Hc Hm) as HE. destruct (encodeMainMedia pbkdf2 aes [] jp.2 draws c) as [[r c'] draws']. destruct HE as (Hc' & Hf' & Hr).
  destruct (IH c' draws' Hc' ltac:(by transitivity c) Hms) as [IW IN].
  assert (HI : Forall (fun '(x, dg) => x ∈ jp :: jps /\ on_wire cs x.2 dg) (encode_all jps draws' c')) by (eapply Forall_impl; [exact IW|]; intros [x dg] [Hx Hw]; split; [by right|done]).
  destruct r as [dg|e|]; [|split; [done|]; intros E; destruct Hr as [[? Hk] _]; congruence|done]. split; [|intros E; cbn; f_equal; by apply IN]. constructor; [|done]. split; [by left|]. destruct Hr as (inner & Hi & Hw). exists inner. destruct Hf as (H1 & H2 & H3 & _). by rewrite <-H1, <-H2, <-(as_carried_same cs c _ H3).
Qed.

Section stream.
Context (cs : mainCodec) (S0 T0 k : Z) (T0_range : in_u32 T0) (k_range : 0 <= k < 2 ^ 31) (sp_range : in_u16 (srcPort cs)) (dp_range : in_u16 (dstPort cs)).

(** What the receiving flow core is handed. *)
Definition delivered (jp : Z * MediaPacket) : res err decoded := Ok (DMedia (on_ports (arrival (u16 S0) T0 k (jp.1, as_carried cs jp.2)) (srcPort cs) (dstPort cs))).

(** The datagram carries a packet of the stream. *)
Definition carries (a : (Z * MediaPacket) * bytes) : Prop := on_wire cs a.1.2 a.2 /\ nonce_ok a.2 /\ at_offset T0 k S0 a.1.

Lemma carried_at jp : at_offset T0 k S0 jp -> at_offset T0 k S0 (jp.1, as_carried cs jp.2).
Proof. intros (Hm & Hq & Ht). destruct (build_media jp.2 cs Hm) as (_ & _ & _ & Hm' & _). split; [exact Hm'|]. by split. Qed.

Lemma main_decode_arrivals ref hi prev c n arr : dec_inv (u16 S0) T0 k hi prev (dec c) -> recv_ok pbkdf2 keys k256 n c -> 0 <= n -> n + zlen arr <= psk.reuseLimit + 1 ->
  Forall carries arr -> paced k hi prev (fst ∘ fst <$> arr) -> decode_all (snd <$> arr) ref c = delivered ∘ fst <$> arr.
Proof.
  revert hi prev c n. induction arr as [|[[j pkt] dg] arr IH]; intros hi prev c n Hi Hr Hn Hl Hc Hp; [done|]. apply Forall_cons_1 in Hc as [(Hw & Hz & Ha) Hc]. destruct Hp as [Hnx Hp].
  rewrite zlen_cons in Hl. pose proof (zlen_nonneg arr). cbn [fst snd compose] in *. cbn [fmap list_fmap decode_all snd compose fst].
  destruct (decode_paced (u16 S0) T0 k T0_range k_range S0 hi prev (dec c) (j, as_carried cs pkt) eq_refl Hi Hnx (carried_at (j, pkt) Ha)) as (d & Ed & Hi'). cbn [fst snd] in *.
  destruct (main_decode_on_wire cs pkt dg n c ref _ d sp_range dp_range Hw Hz Hr ltac:(lia) Ed) as (c' & -> & Hd & Hr'). f_equal. subst d. apply (IH _ _ c' (n + 1) Hi' Hr'); [lia|lia|done|done].
Qed.

Lemma decode_stream ref c jp0 dg0 arr : dec c = md_zero -> recv_ok pbkdf2 keys k256 0 c -> zlen arr <= psk.reuseLimit -> jp0.1 = 0 -> Forall carries ((jp0, dg0) :: arr) -> paced k 0 0 (fst ∘ fst <$> arr) ->
  decode_all (snd <$> (jp0, dg0) :: arr) ref c = delivered ∘ fst <$> (jp0, dg0) :: arr.
Proof.
  intros Hc Hr Hl H0 Ha Hp. apply Forall_cons_1 in Ha as [(Hw & Hz & Hat) Ha]. destruct jp0 as [j0 pkt0]. cbn [fst snd] in *. subst j0. cbn [fmap list_fmap decode_all snd compose fst].
  destruct (decode_first (u16 S0) T0 k (u16_range S0) T0_range S0 (as_carried cs pkt0) eq_refl (carried_at (0, pkt0) Hat)) as (d & Ed & Hi).
  destruct (main_decode_on_wire cs pkt0 dg0 0 c ref (arrival (u16 S0) T0 k (0, as_carried cs pkt0)) d sp_range dp_range Hw Hz Hr ltac:(done) ltac:(by rewrite Hc)) as (c' & -> & Hd & Hr').
  f_equal. subst d. apply (main_decode_arrivals ref 0 0 c' 1); [done|done|lia|lia|done|done].
Qed.
End stream.
End datagrams.

(** Deleting and restoring null packets changes nothing when they are as an expander writes them. *)
Lemma carried_intact c pkt : (npdEnabled c = true -> forall sz ps, ts_payload sz ps -> Payload pkt = concat ps -> Forall (fun p => is_null p = true -> p = null_packet (ts_size sz)) ps) -> as_carried c pkt = pkt.
Proof.
  intros Hn. assert (Hid : pkt <| Payload := Payload pkt |> = pkt) by (by destruct pkt). unfold as_carried, fecPayload. destruct (npdEnabled c); cbn [negb]; [|done]. specialize (Hn eq_refl).
  destruct (Suppress_cases (Payload pkt) []) as [(sz & ps & Hps & Hpay)|(e & ->)]; [|done]. rewrite Hpay, (Suppress_spec sz ps [] Hps). cbv iota beta. rewrite <-Hpay. destruct (_ =? 0); [done|].
  cbn [app]. unfold expand. rewrite (Expand_spec sz ps [] Hps). cbn [app]. specialize (Hn sz ps Hps Hpay).
  by rewrite (canon_id _ _ Hn), <-Hpay.
Qed.

(** ** Properties *)

(** C24: Media over the Main profile: the packets of a stream with a constant tick step below 2^31 are encoded, with or without null-packet deletion, in the clear or encrypted under the
    passphrase and key size of the receiver.  Any of the datagrams, in whatever order, lost, repeated or retransmitted, fewer than 2^32, none under the all-zero nonce, each within 2^15 of the
    last one received and within 2^30 of the first (and, until a packet after the first has come, within 2^31 ticks of it), decode to the SSRC, the retransmit mark and the virtual ports of the packet
    they were made from, to its payload with the null packets in canonical form (the payload FEC is computed over; one whose null packets are canonical is left as it is), and to a sequence
    and source time that depend on the position in the stream alone, across the wraps of the 16-bit sequence and the 32-bit timestamp: the sequence is the one
    sent modulo 2^16, not the 32-bit number itself.  Without a key every packet is sent. *)
Theorem main_media_stream pbkdf2 aes k256 sk rk draws sp dp npd s cn bm T0 k S0 xs jp0 dg0 arr cr ref : (forall key b, length (aes key b) = 16%nat) ->
  psk.keyed pbkdf2 draws (hBitKeySize k256) sk rk -> in_u16 sp -> in_u16 dp -> in_u32 T0 -> 0 <= k < 2 ^ 31 ->
  let cs := newMainCodec sk None k256 sp dp npd s cn bm in
  recvKey cr = rk -> dec cr = md_zero ->
  Forall (at_offset T0 k S0) xs ->
  Forall (fun a => a ∈ encode_all pbkdf2 aes xs draws cs /\ nonce_ok a.2) ((jp0, dg0) :: arr) ->
  jp0.1 = 0 -> paced k 0 0 (fst ∘ fst <$> arr) -> zlen arr < 2 ^ 32 ->
  decode_all pbkdf2 aes (snd <$> (jp0, dg0) :: arr) ref cr = delivered cs S0 T0 k ∘ fst <$> (jp0, dg0) :: arr /\
  (forall pkt, (npd = true -> forall sz ps, ts_payload sz ps -> Payload pkt = concat ps -> Forall (fun p => is_null p = true -> p = null_packet (ts_size sz)) ps) -> as_carried cs pkt = pkt) /\
  (sk = None -> (encode_all pbkdf2 aes xs draws cs).*1 = xs).
Proof.
  intros Haes Hk Hsp Hdp HT Hk0 cs Hrk Hdec Hxs Harr H0 Hp Hl.
  assert (exists keys, sender_ok pbkdf2 keys k256 cs /\ recv_ok pbkdf2 keys k256 0 cr /\ (sk = None -> keys = None)) as (keys & Hsend & Hrecv & Hno).
  { unfold recv_ok. rewrite Hrk. destruct Hk as [|pw rot odd raw draws0 key d Hkey Hd]; [by exists None|]. exists (Some (pw, raw)).
    split; [split; [done|]; split; [done|]; split; [done|]; split; [done|]; by apply (psk.newKey_ok _ _ _ _ _ _ _ _ _ Hkey)|split; [by apply psk.newDecryptor_ok|done]]. }
  assert (Hms : Forall (fun jp => media_ok jp.2) xs) by (eapply Forall_impl; [exact Hxs|]; by intros jp []). destruct (main_encode_all_on_wire pbkdf2 aes keys k256 cs cs xs draws Hsend ltac:(done) Hms) as [HW HN].
  split; [|split; [intros pkt; apply (carried_intact cs pkt)|intros E; by apply HN, Hno]].
  apply (decode_stream pbkdf2 aes Haes keys k256 cs S0 T0 k HT Hk0 Hsp Hdp ref cr jp0 dg0 arr Hdec Hrecv); [unfold psk.reuseLimit; lia|done| |done].
  rewrite !Forall_forall in *.
  intros [x dg] Hin. destruct (Harr _ Hin) as [Hsent Hz]. destruct (HW _ Hsent) as [Hx Hw]. split; [done|]. split; [done|]. by apply Hxs.
Qed.

(** An encrypted stream with null packets in it, the second packet lost and then retransmitted. *)
Definition demo_ts_media (j : Z) (re : bool) : MediaPacket := demo_media j re <| Payload := demo_ts (256 + j) ++ null_packet 188 ++ demo_ts 300 |>.
Definition demo_stream : list (Z * MediaPacket) := [(0, demo_ts_media 0 false); (1, demo_ts_media 1 false); (2, demo_ts_media 2 false); (1, demo_ts_media 1 true)].
Definition demo_sk : option psk.Key := match psk.newKey psk.demo_pbkdf2 [115] 128 3 true false psk.demo_draws with (Ok k, _) => Some k | _ => None end.
Definition demo_sender : mainCodec := newMainCodec demo_sk None false 5 6 true 8 [] false.
Definition demo_receiver : mainCodec := newMainCodec None (Some psk.demo_dec) false 1 2 false 9 [] false.
Definition demo_sent : list ((Z * MediaPacket) * bytes) := encode_all psk.demo_pbkdf2 psk.demo_aes demo_stream (drop 2 psk.demo_draws) demo_sender.
Definition demo_first : (Z * MediaPacket) * bytes := default ((0, demo_ts_media 0 false), []) (demo_sent !! 0%nat).
Definition demo_later : list ((Z * MediaPacket) * bytes) := omap (fun i => demo_sent !! i) [2%nat; 3%nat; 2%nat].

#[export] Instance frag_eq : EqDecision FragRole. Proof. solve_decision. Defined.
#[export] Instance media_eq : EqDecision MediaPacket. Proof. solve_decision. Defined.

Lemma main_media_stream_witness : (fst ∘ fst <$> demo_first :: demo_later) = [0; 2; 1; 2] /\ zlen demo_first.2 < 564 /\
  decode_all psk.demo_pbkdf2 psk.demo_aes (snd <$> demo_first :: demo_later) 0 demo_receiver = delivered demo_sender 4294967294 4294965294 3600 ∘ fst <$> demo_first :: demo_later.
Proof.
  split; [vm_compute; reflexivity|]. split; [vm_compute; reflexivity|]. rewrite (surjective_pairing demo_first).
  apply (main_media_stream psk.demo_pbkdf2 psk.demo_aes false demo_sk (Some psk.demo_dec) (drop 2 psk.demo_draws) 5 6 true 8 [] false 4294965294 3600 4294967294 demo_stream demo_first.1 demo_first.2 demo_later demo_receiver 0).
  - exact psk.demo_aes_len.
  - unfold demo_sk. apply (psk.keyed_psk psk.demo_pbkdf2 _ 128 [115] 3 true false psk.demo_draws); vm_compute; reflexivity.
  - done.
  - done.
  - done.
  - done.
  - reflexivity.
  - reflexivity.
  - assert (Hb : forallb (fun jp => forallb (fun x => (0 <=? x) && (x <? 256)) (Payload jp.2)) demo_stream = true) by (vm_compute; reflexivity). rewrite forallb_forall in Hb.
    apply Forall_forall. intros jp Hjp. apply list_elem_of_In in Hjp. specialize (Hb jp Hjp).
    assert (Hp : is_bytes (Payload jp.2)) by (rewrite forallb_forall in Hb; apply Forall_forall; intros x Hx; apply list_elem_of_In, Hb in Hx; unfold in_u8; lia).
    clear Hb. repeat (destruct Hjp as [<-|Hjp]; [split; [split; [repeat split; vm_compute; discriminate|reflexivity|exact Hp]|split; vm_compute; reflexivity]|]). destruct Hjp.
  - apply Forall_forall. intros a Ha. split.
    + revert Ha. match goal with |- a ∈ ?L -> a ∈ ?M => assert (H : forallb (fun a => bool_decide (a ∈ M)) L = true) by (vm_compute; reflexivity) end.
      rewrite forallb_forall in H. intros Ha. apply list_elem_of_In, H, bool_decide_eq_true in Ha. exact Ha.
    + revert Ha. match goal with |- a ∈ ?L -> _ => assert (H : forallb (fun a => negb (psk.isZeroNonce (match gre.Parse a.2 with Ok (h, _) => gre.Nonce h | _ => [] end))) L = true) by (vm_compute; reflexivity) end.
      rewrite forallb_forall in H. intros Ha h off Hp _. apply list_elem_of_In, H, negb_true_iff in Ha. by rewrite Hp in Ha.
  - vm_compute. reflexivity.
  - vm_compute. split; [|split; [|split; [|exact I]]]; (split; [reflexivity|split; [reflexivity|]]); [right|left|left]; reflexivity.
  - vm_compute. reflexivity.
Defined.
End maincodec.
