(* ===== verification/MainFeedback.v ===== *)
(** * Feedback over the Main profile: src/internal/session/codec_main.go

    Retransmission requests as groups of NACK packets, each group behind the EXTSEQ that carries its upper sequence half, in a
    compound inside a Main-profile datagram: what the other end makes of them, and of the identity in the compound. *)

From stdpp Require Import sets.
From S2P Require Import Prelude Bytes Clock Rtp Rtcp RtcpNack Wire Npd Gre Psk SimpleCodec MainCodec.
Import maincodec.

Module mainfeedback.

(** ** The two widenings *)

Definition extend (hi x : Z) : Z := Z.lor (u32 (Z.shiftl hi 16)) (Z.land x 0xFFFF).

Lemma extend_exact n : in_u32 n -> extend (u16 (Z.shiftr n 16)) (u16 n) = n.
Proof.
  intros Hn. unfold extend, in_u32 in *. rewrite Z.shiftr_div_pow2 by lia. pose proof (Z.div_mod n 65536 ltac:(lia)) as Hd. pose proof (Z.mod_pos_bound n 65536 ltac:(lia)) as Hm. change (2 ^ 16) with 65536.
  rewrite (u16_id (n / 65536)) by (unfold in_u16; lia). change 0xFFFF with (Z.ones 16). rewrite Z.land_ones by lia. rewrite u32_id by (unfold in_u32; rewrite Z.shiftl_mul_pow2 by lia; change (2 ^ 16) with 65536; lia).
  unfold u16, uwrap. rewrite Z.mod_mod by lia. change (2 ^ 16) with 65536. rewrite lor_shiftl_add by (change (2 ^ 16) with 65536; lia). change (2 ^ 16) with 65536. lia.
Qed.

(** ** Folding NACK packets *)

Section fold.
Context (ref : Z).

Definition is_nack_fb (fb : Feedback) : bool := match fb with NackRequest _ _ => true | _ => false end.

Fixpoint folded (s : Z) (ps : list rtcp.Packet) (hi : Z) (have : bool) : list Feedback :=
  match ps with [] => [] | p :: ps => foldNACK s (default [] (DecodeNACK p)) hi have ref :: folded s ps hi false end.

(** Without an EXTSEQ in force the last one does not matter. *)
Lemma fold_hi ps hi hi' enc last : fold_packets ps hi false ref enc last = fold_packets ps hi' false ref enc last.
Proof. revert last. induction ps as [|p ps IH]; intros last; [done|]. destruct p; cbn [fold_packets]; rewrite ?(IH last); try done. by destruct (_ && _); rewrite ?IH. Qed.

Lemma fold_nacks s ps rest hi have enc last : Forall (nack_for s) ps ->
  fold_packets ((rtcp.norm <$> ps) ++ rest) hi have ref enc last =
  let '(out, last') := fold_packets rest hi (match ps with [] => have | _ => false end) ref enc last in (folded s ps hi have ++ out, last').
Proof.
  intros Hp. revert have. induction Hp as [|p ps Hp Hps IH]; intros have; [cbn [fmap list_fmap app folded]; by destruct (fold_packets rest hi have ref enc last)|].
  destruct Hp as [(rs & ->)|(ss & fcis & ->)]; cbn [fmap list_fmap app rtcp.norm fold_packets folded DecodeNACK default option_map]; rewrite IH;
    assert (E : (match ps with [] => false | _ :: _ => false end) = false) by (by destruct ps); rewrite E; by destruct (fold_packets rest hi false ref enc last).
Qed.

(** The requests of a group, when the widenings of its packets agree with [f]. *)
Lemma folded_requests (f : Z -> Z) s ps hi have : (have = true -> forall x, x ∈ requested ps -> extend hi x = f x) ->
  (have = false \/ (2 <= length ps)%nat -> forall x, x ∈ requested ps -> widenSeqAtMost (u16 x) ref = f x) ->
  requests (folded s ps hi have) = (fun x => (s, f x)) <$> requested ps /\ Forall (fun fb => is_nack_fb fb = true) (folded s ps hi have).
Proof.
  revert have. induction ps as [|p ps IH]; intros have Hx Hw; [done|]. unfold requested in *. cbn [folded fmap list_fmap concat length] in *.
  destruct (IH false) as [I1 I2]; [done| |].
  { intros _ x Hin. destruct have; [apply Hw; [|apply elem_of_app; by right]|apply Hw; [by left|apply elem_of_app; by right]]. right. destruct ps; [by apply elem_of_nil in Hin|cbn; lia]. }
  rewrite (requests_cons (foldNACK _ _ _ _ _)), I1, fmap_app. split; [|by constructor]. f_equal. unfold requests, foldNACK. cbn. rewrite app_nil_r. set (narrow := default [] _) in *.
  destruct have; rewrite <-list_fmap_compose; apply list_fmap_ext; intros i x Hi; unfold compose; f_equal; apply list_elem_of_lookup_2 in Hi.
  - apply (Hx eq_refl x). apply elem_of_app. by left.
  - apply Hw; [by left|]. apply elem_of_app. by left.
Qed.

(** ** Encoding a group *)

(** What one end may be asked for so that the other end understands it: the 65536 sequences up to its send position, or, beyond them, so few that each
    group is one packet. *)
Definition in_window (n : Z) : Prop := exists d, 0 <= d < 65536 /\ n = u32 (ref - d).
Definition understood (missing : list Z) : Prop := Forall in_u32 missing /\ (Forall in_window missing \/ zlen missing <= MaxNackRecordsPerPacket).

Lemma in_window_u32 n : in_window n -> in_u32 n.
Proof. intros (d & _ & ->). apply u32_range. Qed.

Lemma understood_app a b : understood (a ++ b) -> understood a /\ understood b.
Proof.
  intros [[Ha Hb]%Forall_app Hc]. assert (Hw : (Forall in_window a \/ zlen a <= MaxNackRecordsPerPacket) /\ (Forall in_window b \/ zlen b <= MaxNackRecordsPerPacket)); [|by destruct Hw].
  rewrite Forall_app, zlen_app in Hc. pose proof (zlen_nonneg a). pose proof (zlen_nonneg b). destruct Hc as [[? ?]|?]; [by split; left|split; right; lia].
Qed.

Lemma same_high_spec hi missing : let '(run, rest) := same_high hi missing in
  missing = run ++ rest /\ Forall (fun n => u16 (Z.shiftr n 16) = hi) run /\ (forall n t, missing = n :: t -> u16 (Z.shiftr n 16) = hi -> run <> []).
Proof.
  induction missing as [|n missing IH]; [done|]. cbn [same_high]. destruct (Z.eqb_spec (u16 (Z.shiftr n 16)) hi) as [E|E].
  - destruct (same_high hi missing) as [run rest]. destruct IH as (-> & H & _). split; [done|]. split; [by constructor|done].
  - split; [done|]. split; [constructor|]. intros m t [= <- _]. done.
Qed.

Section encode.
Context (c : mainCodec) (s : Z) (bm : bool) (s_range : in_u32 s) (ssrc_range : in_u32 (ssrc c)) (ref_range : in_u32 ref).

Lemma nackPackets_spec run : zlen run <= maxNackExpand ->
  Forall (fun p => rtcp.valid p /\ rtcp.is_nack p = true) (nackPackets c s run bm) /\ Forall (nack_for s) (nackPackets c s run bm) /\
  (bm = false -> requested (nackPackets c s run bm) = (u16 <$> run)) /\ (forall x, x ∈ requested (nackPackets c s run bm) <-> x ∈ (u16 <$> run)) /\
  (zlen run <= MaxNackRecordsPerPacket -> (length (nackPackets c s run bm) <= 1)%nat).
Proof.
  intros Hl. unfold nackPackets. destruct bm.
  - destruct (encode_bitmask_cover 0 s run) as (Hset & _ & Hv & _); [done..|]. split_and!; [| |done|done|apply encode_bitmask_one].
    + eapply Forall_impl; [exact Hv|]. intros p (Hp & fcis & -> & _). done.
    + eapply Forall_impl; [exact Hv|]. intros p (_ & fcis & -> & _). right. by eexists _, _.
  - destruct (encode_ranges_requested (ssrc c) s run) as (Hreq & Hv); [done..|]. split_and!; [| |done|by rewrite Hreq|apply encode_ranges_one].
    + eapply Forall_impl; [exact Hv|]. intros p (Hp & rs & -> & _). done.
    + eapply Forall_impl; [exact Hv|]. intros p (_ & rs & -> & _). left. by eexists.
Qed.

(** What the packets [ps] that make the requests [rs] become at the other end, whatever follows them. *)
Definition asks (ps : list rtcp.Packet) (rs : list (Z * Z)) : Prop :=
  Forall rtcp.valid ps /\ rtcp.feedback ps /\
  exists fbs, (forall rest hi enc last, fold_packets ((rtcp.norm <$> ps) ++ rest) hi false ref enc last = let '(out, last') := fold_packets rest 0 false ref enc last in (fbs ++ out, last')) /\
    (bm = false -> requests fbs = rs) /\ (forall r, r ∈ requests fbs <-> r ∈ rs) /\ Forall (fun fb => is_nack_fb fb = true) fbs.

Lemma feedback_app a b : rtcp.feedback a -> rtcp.feedback b -> rtcp.feedback (a ++ b).
Proof. intros Ha Hb. induction Ha; cbn; [done|by constructor|by constructor]. Qed.

Lemma asks_nil : asks [] [].
Proof. split; [constructor|]. split; [constructor|]. exists []. split; [|done]. intros rest hi enc last. cbn. rewrite (fold_hi rest hi 0). by destruct (fold_packets rest 0 false ref enc last). Qed.

Lemma asks_app p1 m1 p2 m2 : asks p1 m1 -> asks p2 m2 -> asks (p1 ++ p2) (m1 ++ m2).
Proof.
  intros (V1 & F1 & f1 & E1 & R1 & S1 & N1) (V2 & F2 & f2 & E2 & R2 & S2 & N2). split; [by apply Forall_app|]. split; [by apply feedback_app|]. exists (f1 ++ f2). split_and!.
  - intros rest hi enc last. rewrite fmap_app, <-app_assoc, E1, E2. destruct (fold_packets rest 0 false ref enc last). by rewrite <-app_assoc.
  - intros Hb. by rewrite requests_app, R1, R2.
  - intros r. by rewrite requests_app, !elem_of_app, S1, S2.
  - by apply Forall_app.
Qed.

(** The group's requests are the sequences, when [f] widens their lower halves right. *)
Lemma group_requests (f : Z -> Z) ps run : (forall n, n ∈ run -> f (u16 n) = n) -> (bm = false -> requested ps = (u16 <$> run)) -> (forall x, x ∈ requested ps <-> x ∈ (u16 <$> run)) ->
  (bm = false -> (fun x => (s, f x)) <$> requested ps = (fun n => (s, n)) <$> run) /\ (forall r, r ∈ (fun x => (s, f x)) <$> requested ps <-> r ∈ (fun n => (s, n)) <$> run).
Proof.
  intros Hf He Hs. assert (E : (fun x => (s, f x)) <$> (u16 <$> run) = (fun n => (s, n)) <$> run).
  { rewrite <-list_fmap_compose. apply list_fmap_ext. intros i n Hn. unfold compose. f_equal. apply Hf. by eapply list_elem_of_lookup_2. }
  split; [by intros Hb; rewrite He|]. intros r. rewrite <-E, !list_elem_of_fmap. split; intros (x & -> & Hx); exists x; (split; [done|by apply Hs]).
Qed.

Definition for_stream (missing : list Z) : list (Z * Z) := (fun n => (s, n)) <$> missing.

(** Sequences of the window, without an EXTSEQ. *)
Lemma plain_asks missing : zlen missing <= maxNackExpand -> Forall in_window missing -> asks (nackPackets c s missing bm) (for_stream missing).
Proof.
  intros Hl Hw. destruct (nackPackets_spec missing Hl) as (Hv & Hn & He & Hs & _). split; [eapply Forall_impl; [exact Hv|]; by intros p []|]. split; [by apply nacks_feedback|].
  set (ps := nackPackets c s missing bm) in *. set (f := fun x => widenSeqAtMost (u16 x) ref). exists (folded s ps 0 false).
  destruct (group_requests f ps missing) as [G1 G2]; [|done|done|].
  { intros n Hin. rewrite Forall_forall in Hw. destruct (Hw n Hin) as (d & Hd & ->). apply widen_back; [done|]. by exists d. }
  destruct (folded_requests f s ps 0 false) as [R1 R2]; [done..|]. rewrite R1. split_and!; try done. intros rest hi enc last. rewrite (fold_hi _ hi 0), (fold_nacks s ps rest 0 false enc last Hn).
  assert (Ef : (match ps with [] => false | _ :: _ => false end) = false) by (by destruct ps). by rewrite Ef.
Qed.

(** A group behind its EXTSEQ. *)
Lemma group_asks hi run : run <> [] -> zlen run <= maxNackExpand -> in_u16 hi -> Forall (fun n => u16 (Z.shiftr n 16) = hi) run -> understood run ->
  asks (rtcp.ExtSeq (ssrc c) hi :: nackPackets c s run bm) (for_stream run).
Proof.
  intros Hne Hl Hhi Hr [Hu Hw]. destruct (nackPackets_spec run Hl) as (Hv & Hn & He & Hs & H1). set (ps := nackPackets c s run bm) in *.
  assert (Hps : ps <> []). { intros E. destruct run as [|n run]; [done|]. rewrite E in Hs. assert (Hx : u16 n ∈ requested []) by (apply Hs; by left). by apply elem_of_nil in Hx. }
  split; [constructor; [done|]; eapply Forall_impl; [exact Hv|]; by intros p []|]. split.
  { destruct ps as [|p ps']; [done|]. apply Forall_cons in Hv as [[_ Hp] Hv]. apply rtcp.feedback_ext; [done|by apply nacks_feedback]. }
  assert (Hx : forall n, n ∈ run -> extend hi (u16 n) = n). { intros n Hin. rewrite Forall_forall in Hr, Hu. rewrite <-(Hr n Hin). by apply extend_exact, Hu. }
  exists (folded s ps hi true). destruct (group_requests (extend hi) ps run Hx) as [G1 G2]; [done|done|].
  destruct (folded_requests (extend hi) s ps hi true) as [R1 R2]; [done| |].
  { intros [?|Hlen] x Hin; [done|]. apply Hs, list_elem_of_fmap in Hin as (n & -> & Hin). rewrite (Hx n Hin). destruct Hw as [Hw|Hw]; [|specialize (H1 Hw); lia].
    rewrite Forall_forall in Hw. apply widen_back; [done|]. by apply Hw. }
  rewrite R1. split_and!; try done. intros rest hi0 enc last. cbn [fmap list_fmap app rtcp.norm fold_packets]. rewrite (fold_nacks s ps rest hi true enc last Hn).
  assert (Ef : (match ps with [] => true | _ :: _ => false end) = false) by (by destruct ps). by rewrite Ef, (fold_hi rest hi 0).
Qed.

Lemma nack_runs_asks fuel missing : (length missing <= fuel)%nat -> zlen missing <= maxNackExpand -> understood missing -> asks (nack_runs fuel c s missing bm) (for_stream missing).
Proof.
  revert missing. induction fuel as [|fuel IH]; intros missing Hf Hl Hu; [destruct missing; [apply asks_nil|cbn in Hf; lia]|]. destruct missing as [|n missing]; [apply asks_nil|].
  cbn [nack_runs]. set (hi := u16 (Z.shiftr n 16)). pose proof (same_high_spec hi (n :: missing)) as H. destruct (same_high hi (n :: missing)) as [run rest]. destruct H as (E & Hr & Hne).
  specialize (Hne n missing eq_refl eq_refl). rewrite E in *. apply understood_app in Hu as [U1 U2]. rewrite zlen_app in Hl. pose proof (zlen_nonneg run). pose proof (zlen_nonneg rest).
  unfold for_stream. rewrite fmap_app. rewrite length_app in Hf. apply (asks_app (rtcp.ExtSeq (ssrc c) hi :: nackPackets c s run bm)); [apply group_asks; try done; [lia|apply u16_range]|]. apply IH; [|lia|done]. destruct run; [done|cbn in Hf; lia].
Qed.

Lemma encodeNACK_asks missing : zlen missing <= maxNackExpand -> Forall in_u32 missing -> (Forall in_window missing \/ (zlen missing <= MaxNackRecordsPerPacket /\ Exists (fun n => 65536 <= n) missing)) ->
  asks (encodeNACK c s missing bm) (for_stream missing).
Proof.
  intros Hl Hu Hw. unfold encodeNACK. destruct missing as [|n missing]; [apply asks_nil|]. destruct (existsb _ (n :: missing)) eqn:E.
  - apply nack_runs_asks; [done|done|]. split; [done|]. destruct Hw as [?|[? _]]; [by left|by right].
  - destruct Hw as [Hw|[_ He]]; [by apply plain_asks|]. exfalso. apply Exists_exists in He as (m & Hm & Hge). assert (Ht : existsb (fun s => negb (Z.shiftr s 16 =? 0)) (n :: missing) = true); [|congruence].
    apply existsb_exists. exists m. split; [by apply list_elem_of_In|]. rewrite Forall_forall in Hu. specialize (Hu m Hm). unfold in_u32 in Hu. rewrite Z.shiftr_div_pow2 by lia. change (2 ^ 16) with 65536.
    destruct (Z.eqb_spec (m / 65536) 0); [|done]. pose proof (Z.div_mod m 65536 ltac:(lia)). pose proof (Z.mod_pos_bound m 65536 ltac:(lia)). lia.
Qed.
End encode.

(** ** The compound *)

(** Feedback values of their Go types, asking only for sequences that are understood. *)
Definition fb_ok (fb : Feedback) : Prop :=
  match fb with
  | NackRequest s missing => in_u32 s /\ zlen missing <= maxNackExpand /\ Forall in_u32 missing /\ (Forall in_window missing \/ (zlen missing <= MaxNackRecordsPerPacket /\ Exists (fun n => 65536 <= n) missing))
  | RttEchoRequest s ts => in_u32 s /\ in_u64 ts
  | RttEchoResponse s ts delay => in_u32 s /\ in_u64 ts /\ in_u32 delay
  | _ => True
  end.

Lemma nacks_asks c bm fbs : in_u32 (ssrc c) -> in_u32 ref -> Forall fb_ok fbs -> asks bm (fbs ≫= nacks_main c bm) (requests fbs).
Proof.
  intros Hc Hr Hf. induction Hf as [|fb fbs Hfb _ IH]; [apply asks_nil|]. cbn [mbind list_bind]. rewrite requests_cons. apply asks_app; [|exact IH]. destruct fb as [s missing| | | | | | | | |]; try apply asks_nil.
  destruct Hfb as (Hs & Hl & Hu & Hw). unfold requests. cbn. rewrite app_nil_r. by apply encodeNACK_asks.
Qed.

Lemma fold_echoes s fbs hi enc last : in_u32 s -> Forall fb_ok fbs ->
  Forall (fun p => rtcp.valid p /\ rtcp.is_echo p = true) (fbs ≫= echo_of s) /\ fold_packets (rtcp.norm <$> (fbs ≫= echo_of s)) hi false ref enc last = (echoes s fbs, last).
Proof.
  intros Hs Hf. induction Hf as [|fb fbs Hfb Hf [IH1 IH2]]; [done|]. unfold echoes in *. cbn [mbind list_bind] in *.
  destruct fb; cbn in *; try done.
  - rewrite IH2. split; [|done]. constructor; [|done]. cbn. change (rtcp.padTo4 (zlen []) / 4) with 0. destruct Hfb. split_and!; try done. constructor.
  - rewrite IH2. split; [|done]. constructor; [|done]. cbn. change (rtcp.padTo4 (zlen []) / 4) with 0. destruct Hfb as (? & ? & ?). split_and!; try done. constructor.
Qed.

Definition identities (fbs : list Feedback) : list bytes := omap (fun fb => match fb with PeerIdentity cn => Some cn | _ => None end) fbs.

(** The name is surfaced from an encrypted compound, when there is one and it is new. *)
Definition surfaced (enc : bool) (cn last : bytes) : bool := enc && negb (zlen cn =? 0) && negb (bool_decide (cn = last)).

Lemma nack_fbs_only fbs : Forall (fun fb => is_nack_fb fb = true) fbs -> filter (fun fb => is_echo_fb fb = true) fbs = [] /\ identities fbs = [].
Proof. induction 1 as [|fb fbs Hfb _ [IH1 IH2]]; [done|]. by destruct fb. Qed.

Lemma echoes_only s fbs : requests (echoes s fbs) = [] /\ identities (echoes s fbs) = [].
Proof. induction fbs as [|fb fbs [IH1 IH2]]; [done|]. unfold echoes, requests, identities in *. cbn [mbind list_bind]. by destruct fb. Qed.

(** The report that leads the compound gives at most the link quality. *)
Lemma fold_report lead ps enc last : rtcp.is_report lead = true -> exists fbs, requests fbs = [] /\ filter (fun fb => is_echo_fb fb = true) fbs = [] /\ identities fbs = [] /\
  fold_packets (rtcp.norm lead :: ps) 0 false ref enc last = let '(out, last') := fold_packets ps 0 false ref enc last in (fbs ++ out, last').
Proof.
  intros H. destruct lead as [| | |s lqm| | | | | | |]; try done; [exists []..|exists [LinkQuality lqm]]; (split; [done|]); (split; [done|]); (split; [done|]); cbn [rtcp.norm fold_packets]; by destruct (fold_packets ps 0 false ref enc last).
Qed.

Lemma report_octet lead rest : rtcp.is_report lead = true -> exists x, 1 < zlen (rtcp.enc lead ++ rest) /\ idx (E := err) (rtcp.enc lead ++ rest) rtcpPTByteLow = Ok x /\ (rtcpPTMin <=? Z.land x 0x7f) && (Z.land x 0x7f <=? rtcpPTMax) = true.
Proof.
  intros H. assert (exists a x r, rtcp.enc lead ++ rest = a :: x :: r /\ (rtcpPTMin <=? Z.land x 0x7f) && (Z.land x 0x7f <=? rtcpPTMax) = true) as (a & x & r & -> & Hx); [destruct lead; try done; (eexists _, _, _; split; [reflexivity|reflexivity])|].
  exists x. split; [rewrite !zlen_cons; pose proof (zlen_nonneg r); lia|]. by split.
Qed.

Lemma compound_heard c lead fbs bm : rtcp.is_report lead = true -> rtcp.valid lead -> in_u32 (ssrc c) -> is_bytes (cname c) -> in_u32 ref -> Forall fb_ok fbs ->
  exists compound x, buildCompound c lead fbs bm = Ok compound /\ 1 < zlen compound /\ idx (E := err) compound rtcpPTByteLow = Ok x /\ (rtcpPTMin <=? Z.land x 0x7f) && (Z.land x 0x7f <=? rtcpPTMax) = true /\
  forall enc c', let cn := rtcp.trim (cname c) in let new := surfaced enc cn (lastRxCNAME c') in
    exists out, decodeFeedbackMain compound ref enc c' = (Ok out, c' <| lastRxCNAME := if new then cn else lastRxCNAME c' |>) /\
      (bm = false -> requests out = requests fbs) /\ (forall r, r ∈ requests out <-> r ∈ requests fbs) /\ filter (fun fb => is_echo_fb fb = true) out = echoes (ssrc c) fbs /\ identities out = if new then [cn] else [].
Proof.
  intros Hlr Hlv Hs Hcn Hr Hf. destruct (nacks_asks c bm fbs Hs Hr Hf) as (NV & NF & nk & NE & NR & NS & NN). destruct (nack_fbs_only nk NN) as [NN1 NN2]. destruct (echoes_only (ssrc c) fbs) as [ER EI].
  unfold buildCompound. set (ns := fbs ≫= nacks_main c bm) in *. set (es := fbs ≫= echo_of (ssrc c)). set (pkts := [lead; rtcp.SDES (ssrc c) (cname c)] ++ ns ++ es).
  pose proof (fun hi enc last => fold_echoes (ssrc c) fbs hi enc last Hs Hf) as HE. destruct (HE 0 true []) as [EV _].
  destruct (rtcp.compound_ok pkts (mkSlice [] [])) as [[sp Hb] Hp].
  - constructor; [done|]. constructor; [done|]. apply Forall_app. split; [done|]. eapply Forall_impl; [exact EV|]. by intros p [].
  - exists lead, (rtcp.SDES (ssrc c) (cname c)), ns, es. split_and!; try done. by apply echoes_forallb.
  - rewrite Hb. cbn [wrap mbind res_bind data app]. destruct (report_octet lead (rtcp.enc_all ([rtcp.SDES (ssrc c) (cname c)] ++ ns ++ es)) Hlr) as (x & X1 & X2 & X3).
    assert (EA : rtcp.enc_all pkts = rtcp.enc lead ++ rtcp.enc_all ([rtcp.SDES (ssrc c) (cname c)] ++ ns ++ es)) by done. rewrite <-EA in X1, X2.
    exists (rtcp.enc_all pkts), x. split; [done|]. split; [done|]. split; [done|]. split; [done|]. intros enc c'. set (cn := rtcp.trim (cname c)). set (new := surfaced enc cn (lastRxCNAME c')). unfold decodeFeedbackMain, parse_compound. rewrite Hp. cbn [wrap].
    subst pkts. cbn [app fmap list_fmap]. rewrite fmap_app. destruct (fold_report lead (rtcp.norm (rtcp.SDES (ssrc c) (cname c)) :: (rtcp.norm <$> ns) ++ (rtcp.norm <$> es)) enc (lastRxCNAME c') Hlr) as (lq & L1 & L2 & L3 & ->).
    cbn [rtcp.norm fold_packets]. fold cn. fold (surfaced enc cn (lastRxCNAME c')). fold new. rewrite !NE, !(proj2 (HE _ _ _)).
    assert (Hall : forall id, requests id = [] -> filter (fun fb => is_echo_fb fb = true) id = [] -> let out := lq ++ id ++ nk ++ echoes (ssrc c) fbs in
      (bm = false -> requests out = requests fbs) /\ (forall r, r ∈ requests out <-> r ∈ requests fbs) /\ filter (fun fb => is_echo_fb fb = true) out = echoes (ssrc c) fbs /\ identities out = identities id).
    { intros id I1 I2 out. subst out. rewrite !requests_app, !filter_app, L1, L2, I1, I2, ER, NN1, echoes_filter, app_nil_r. cbn [app]. split_and!; [done|done|done|]. unfold identities in *. by rewrite !omap_app, L3, NN2, EI, !app_nil_r. }
    destruct new; (eexists; split; [reflexivity|]); [exact (Hall [PeerIdentity cn] eq_refl eq_refl)|exact (Hall [] eq_refl eq_refl)].
Qed.
End fold.

(** ** Control datagrams *)

Section control.
Context (pbkdf2 : bytes -> bytes -> Z -> option bytes) (aes : bytes -> bytes -> bytes) (aes_len : forall key b, length (aes key b) = 16%nat) (keys : option (bytes * bool)) (k256 : bool).

(** What the four readers of a datagram say of it: the control peek, the out-of-band peek, the authentication peek and the decoder. *)
Definition readers (dg : bytes) (ref : Z) (c : mainCodec) :=
  ((peekControl pbkdf2 aes dg c).1, (peekOOB pbkdf2 aes dg c).1, peekEAPOL dg, (decodeMain pbkdf2 aes dg ref c).1, peerCaps (decodeMain pbkdf2 aes dg ref c).2).

Context (ref n : Z) (c : mainCodec) (c_ok : recv_ok pbkdf2 keys k256 n c) (n_range : 0 <= n <= psk.reuseLimit).

Lemma read_keepalive ka dg : gre.keepalive_ok ka -> sealed pbkdf2 aes keys k256 gre.VersionMin gre.ProtoKeepalive (gre.keepalive_AppendTo ka []) dg -> nonce_ok dg ->
  readers dg ref c = ((controlKeepalive, gre.VersionMin, Some (Ok ka)), None, Ok None, Err (EProto gre.ProtoKeepalive), peerCaps c).
Proof.
  intros Hka Hs Hz. destruct (open_sealed pbkdf2 aes aes_len keys k256 _ _ _ dg n c Hs Hz c_ok n_range) as (hdr & off & rest & d & HP & Hv & Hpt & Hk & Hsl & Ho & _).
  unfold readers, peekControl, peekOOB, peekEAPOL, decodeMain, mainRegion. rewrite HP, Hpt, Hv. change (gre.IsReserved gre.ProtoKeepalive) with true.
  change (gre.ProtoKeepalive =? gre.ProtoKeepalive) with true. change (gre.ProtoKeepalive =? gre.ProtoEAPOL) with false. change (gre.ProtoKeepalive =? gre.ProtoReduced) with false. change (gre.ProtoKeepalive =? gre.ProtoVSF) with false.
  cbn [negb andb]. rewrite (Hsl err), Ho. unfold recv_ok in c_ok. rewrite Hk. destruct (gre.ParseKeepalive_enc ka Hka) as [HPK _].
  destruct keys as [[pw raw]|], (recvKey c) as [dk|]; try done; cbv iota beta; cbn [bool_decide mbind res_bind fst snd]; by rewrite HPK.
Qed.

Lemma read_oob prot payload dg : gre.IsReserved prot = false -> sealed pbkdf2 aes keys k256 gre.VersionMin prot payload dg -> nonce_ok dg ->
  readers dg ref c = ((controlNone, gre.VersionMin, None), Some (prot, Ok payload), Ok None, Err (EProto prot), peerCaps c).
Proof.
  intros Hres Hs Hz. destruct (open_sealed pbkdf2 aes aes_len keys k256 _ _ _ dg n c Hs Hz c_ok n_range) as (hdr & off & rest & d & HP & Hv & Hpt & Hk & Hsl & Ho & _).
  unfold readers, peekControl, peekOOB, peekEAPOL, decodeMain, mainRegion. rewrite HP, Hpt, Hv, Hres, (Hsl err), Ho. unfold gre.IsReserved in Hres.
  repeat (apply orb_false_iff in Hres as [Hres ?]). repeat match goal with H : (prot =? _) = false |- _ => rewrite H; clear H end. done.
Qed.

Lemma read_vsf version sub body dg : sealed pbkdf2 aes keys k256 version gre.ProtoVSF (gre.vsf_AppendTo (gre.mkVSF gre.VSFTypeRIST sub) [] ++ body) dg -> nonce_ok dg ->
  exists d, (peekControl pbkdf2 aes dg c).1 = (controlNone, version, None) /\ (peekOOB pbkdf2 aes dg c).1 = None /\ peekEAPOL dg = Ok None /\
    match unwrap_vsf (gre.vsf_AppendTo (gre.mkVSF gre.VSFTypeRIST sub) [] ++ body) (bool_decide (is_Some keys)) (c <| recvKey := d |>) with
    | (Ok (inr (RBuffer bn)), c') => decodeMain pbkdf2 aes dg ref c = (Ok (DBuffer bn), c')
    | (Ok (inr RControl), c') => decodeMain pbkdf2 aes dg ref c = (Ok DNothing, c')
    | _ => True
    end /\ (is_Some keys <-> is_Some d).
Proof.
  intros Hs Hz. destruct (open_sealed pbkdf2 aes aes_len keys k256 _ _ _ dg n c Hs Hz c_ok n_range) as (hdr & off & rest & d & HP & Hv & Hpt & Hk & Hsl & Ho & Hd).
  exists d. unfold peekControl, peekOOB, peekEAPOL, decodeMain, mainRegion. rewrite HP, Hpt, Hv. change (gre.IsReserved gre.ProtoVSF) with true.
  change (gre.ProtoVSF =? gre.ProtoKeepalive) with false. change (gre.ProtoVSF =? gre.ProtoEAPOL) with false. change (gre.ProtoVSF =? gre.ProtoReduced) with false. change (gre.ProtoVSF =? gre.ProtoVSF) with true.
  cbn [negb andb]. rewrite (Hsl err), Ho, Hk. split; [done|]. split; [done|]. split; [done|]. set (c1 := c <| recvKey := d |>). split.
  - destruct (unwrap_vsf _ _ c1) as [[[?|[]]|?|] ?]; done.
  - specialize (Hd c1 eq_refl). unfold recv_ok in Hd. change (recvKey c1) with d in Hd. by destruct keys as [[pw raw]|], d.
Qed.

Lemma read_keepalive2 version ka dg : gre.keepalive_ok ka -> sealed pbkdf2 aes keys k256 version gre.ProtoVSF (gre.vsf_AppendTo (gre.mkVSF gre.VSFTypeRIST gre.VSFSubtypeKeepalive) [] ++ gre.keepalive_AppendTo ka []) dg -> nonce_ok dg ->
  readers dg ref c = ((controlNone, version, None), None, Ok None, Ok DNothing, Some (gre.Caps ka)).
Proof.
  intros Hka Hs Hz. destruct (read_vsf version gre.VSFSubtypeKeepalive (gre.keepalive_AppendTo ka []) dg Hs Hz) as (d & H1 & H2 & H3 & H4 & _). unfold readers. rewrite H1, H2, H3.
  unfold unwrap_vsf in H4. rewrite gre.ParseVSFProto_enc in H4 by done. rewrite slc_from_app in H4 by done. cbn [gre.Subtype] in H4.
  change (gre.VSFSubtypeKeepalive =? gre.VSFSubtypeReduced) with false in H4. change (gre.VSFSubtypeKeepalive =? gre.VSFSubtypeBufferNegotiation) with false in H4. change (gre.VSFSubtypeKeepalive =? gre.VSFSubtypeKeepalive) with true in H4. cbv iota in H4.
  rewrite (proj1 (gre.ParseKeepalive_enc ka Hka)) in H4. by rewrite H4.
Qed.

Lemma read_bufferneg version bn dg : in_u16 (gre.SenderMaxMs bn) -> in_u16 (gre.ReceiverCurMs bn) -> in_u16 (gre.ProtoType bn) ->
  sealed pbkdf2 aes keys k256 version gre.ProtoVSF (gre.vsf_AppendTo (gre.mkVSF gre.VSFTypeRIST gre.VSFSubtypeBufferNegotiation) [] ++ gre.buf_AppendTo bn []) dg -> nonce_ok dg ->
  readers dg ref c = ((controlNone, version, None), None, Ok None, Ok (DBuffer bn), peerCaps c).
Proof.
  intros B1 B2 B3 Hs Hz. destruct (read_vsf version gre.VSFSubtypeBufferNegotiation (gre.buf_AppendTo bn []) dg Hs Hz) as (d & H1 & H2 & H3 & H4 & H5). unfold readers. rewrite H1, H2, H3.
  unfold unwrap_vsf in H4. rewrite gre.ParseVSFProto_enc in H4 by done. rewrite slc_from_app in H4 by done. cbn [gre.Subtype] in H4. set (c1 := c <| recvKey := d |>) in *.
  change (gre.VSFSubtypeBufferNegotiation =? gre.VSFSubtypeReduced) with false in H4. change (gre.VSFSubtypeBufferNegotiation =? gre.VSFSubtypeBufferNegotiation) with true in H4. cbv iota in H4.
  assert (E : forall X Y : res err (bytes + region) * mainCodec, (match recvKey c1, bool_decide (is_Some keys) with Some _, false => X | _, _ => Y end) = Y).
  { intros X Y. change (recvKey c1) with d. destruct d; [|done]. rewrite bool_decide_eq_true_2; [done|]. by apply H5. }
  rewrite E, <-(app_nil_r (gre.buf_AppendTo bn [])) in H4. rewrite gre.ParseBuf_enc in H4 by done. by rewrite H4.
Qed.

(** Authentication frames are read in the clear whatever the keys. *)
Lemma read_eapol seq eap : in_u32 seq -> readers (gre.enc (plain_header gre.VersionMin gre.ProtoEAPOL seq) ++ eap) ref c = ((controlNone, gre.VersionMin, None), None, Ok (Some eap), Err (EProto gre.ProtoEAPOL), peerCaps c).
Proof.
  intros Hs. set (h := plain_header gre.VersionMin gre.ProtoEAPOL seq). assert (Hh : gre.header_typed h) by done. pose proof (gre.gre_Parse_enc h eap Hh) as HP.
  unfold readers, peekControl, peekOOB, peekEAPOL, decodeMain, mainRegion. rewrite HP. cbn -[gre.enc slc_from]. rewrite slc_from_app by (symmetry; by apply (gre.enc_Size h)). done.
Qed.

Lemma encodeKeepalive_sealed draws cs ka version : sender_ok pbkdf2 keys k256 cs -> gre.VersionMin <= version <= 7 ->
  made keys (encodeKeepalive pbkdf2 aes [] ka version draws cs).1.1
    (if gre.VersionCur <=? version then sealed pbkdf2 aes keys k256 version gre.ProtoVSF (gre.vsf_AppendTo (gre.mkVSF gre.VSFTypeRIST gre.VSFSubtypeKeepalive) [] ++ gre.keepalive_AppendTo ka [])
     else sealed pbkdf2 aes keys k256 version gre.ProtoKeepalive (gre.keepalive_AppendTo ka [])).
Proof.
  intros Hs Hv. unfold encodeKeepalive, frameControl. unfold gre.VersionMin in Hv. destruct (gre.VersionCur <=? version).
  - pose proof (seal_next pbkdf2 aes keys k256 version gre.ProtoVSF (gre.vsf_AppendTo (gre.mkVSF gre.VSFTypeRIST gre.VSFSubtypeKeepalive) [] ++ gre.keepalive_AppendTo ka []) draws cs ltac:(lia) ltac:(done) Hs) as H.
    destruct (seal _ _ _ _ _ _ _) as [[r ?] ?]. apply H.
  - pose proof (seal_next pbkdf2 aes keys k256 version gre.ProtoKeepalive (gre.keepalive_AppendTo ka []) draws cs ltac:(lia) ltac:(done) Hs) as H. destruct (seal _ _ _ _ _ _ _) as [[r ?] ?]. apply H.
Qed.
End control.

(** ** The second packet of a group *)

(** 17 single losses in the half [hi], every second packet. *)
Definition scattered (hi : Z) : list Z := (fun i => hi * 65536 + 2 * i) <$> seqZ 0 17.

Lemma range_fold_u16 ms missing st : fold_left (range_step ms) (u16 <$> missing) st = fold_left (range_step ms) missing st.
Proof. revert st. induction missing as [|m missing IH]; intros st; [done|]. cbn [fmap list_fmap fold_left]. rewrite IH. f_equal. unfold range_step. by rewrite (u16_id (u16 m)) by apply u16_range. Qed.

Lemma EncodeRangeNACK_u16 ss ms missing : EncodeRangeNACK ss ms missing = EncodeRangeNACK ss ms (u16 <$> missing).
Proof. destruct missing as [|m missing]; [done|]. cbn [fmap list_fmap EncodeRangeNACK]. fold (u16 <$> missing). by rewrite range_fold_u16, (u16_id (u16 m)) by apply u16_range. Qed.

Lemma scattered_facts hi : 1 <= hi < 65536 -> (u16 <$> scattered hi) = (fun i => 2 * i) <$> seqZ 0 17 /\ Forall (fun n => u16 (Z.shiftr n 16) = hi) (scattered hi) /\ existsb (fun s => negb (Z.shiftr s 16 =? 0)) (scattered hi) = true.
Proof.
  intros Hh. assert (Hhi : forall i, 0 <= i < 17 -> Z.shiftr (hi * 65536 + 2 * i) 16 = hi).
  { intros i Hi. rewrite Z.shiftr_div_pow2 by lia. change (2 ^ 16) with 65536. rewrite Z.div_add_l by lia. rewrite Z.div_small; lia. }
  split; [|split].
  - unfold scattered. rewrite <-list_fmap_compose. apply list_fmap_ext. intros k i Hi. apply lookup_seqZ in Hi as [-> Hk]. unfold compose, u16, uwrap. change (2 ^ 16) with 65536. rewrite Z.add_comm, Z.mod_add, Z.mod_small; lia.
  - apply Forall_fmap, Forall_forall. intros i Hi. apply elem_of_seqZ in Hi. unfold compose. rewrite Hhi by lia. apply u16_id. unfold in_u16. lia.
  - apply existsb_exists. exists (hi * 65536 + 2 * 0). split; [by left|]. rewrite Hhi by lia. destruct (Z.eqb_spec hi 0); [lia|done].
Qed.

Lemma same_high_all hi missing : Forall (fun n => u16 (Z.shiftr n 16) = hi) missing -> same_high hi missing = (missing, []).
Proof. induction 1 as [|n missing Hn _ IH]; [done|]. cbn [same_high]. by rewrite Hn, Z.eqb_refl, IH. Qed.

Lemma scattered_extend hi : 1 <= hi < 65536 -> extend hi <$> ((fun i => 2 * i) <$> seqZ 0 16) = take 16 (scattered hi).
Proof.
  intros Hh. destruct (scattered_facts hi Hh) as (Hu & Hhi & _). change (seqZ 0 16) with (take 16 (seqZ 0 17)). rewrite !fmap_take, <-Hu. f_equal. rewrite <-list_fmap_compose.
  rewrite <-(list_fmap_id (scattered hi)) at 2. apply list_fmap_ext. intros k n Hk. rewrite Forall_lookup in Hhi. specialize (Hhi k n Hk). unfold compose. rewrite <-Hhi. apply extend_exact.
  apply list_elem_of_lookup_2, list_elem_of_fmap in Hk as (i & -> & Hi). apply elem_of_seqZ in Hi. unfold id, in_u32. lia.
Qed.

(** The two packets the 17 ranges are split into. *)
Definition single (n : Z) : rtcp.NackRange := rtcp.mkNackRange n 0.
Lemma scattered_packets c s hi : 1 <= hi < 65536 ->
  encodeNACK c s (scattered hi) false = [rtcp.ExtSeq (ssrc c) hi; rtcp.RangeNACK s (single <$> ((fun i => 2 * i) <$> seqZ 0 16)); rtcp.RangeNACK s [single 32]].
Proof.
  intros Hh. destruct (scattered_facts hi Hh) as (Hu & Hhi & Hex). unfold encodeNACK. rewrite Hex. assert (E : exists n t, scattered hi = n :: t) by (by eexists _, _). destruct E as (n & t & E). rewrite E in *.
  cbn [length nack_runs]. assert (Hn : u16 (Z.shiftr n 16) = hi) by (by apply Forall_cons in Hhi as [? _]). rewrite Hn, (same_high_all hi (n :: t) Hhi). unfold nackPackets. rewrite EncodeRangeNACK_u16, Hu.
  assert (Hnil : nack_runs (length t) c s [] false = []) by (by destruct (length t)). rewrite Hnil, app_nil_r. reflexivity.
Qed.

(** ** Arbitrary datagrams *)

Section total.
Context (pbkdf2 : bytes -> bytes -> Z -> option bytes) (aes : bytes -> bytes -> bytes) (aes_len : forall key b, length (aes key b) = 16%nat) (aes_bytes : forall key b, is_bytes (aes key b)).

Lemma open_region_total hdr region c : is_bytes region -> returns (open_region pbkdf2 aes hdr region c).1 (fun out => is_bytes out /\ zlen out = zlen region).
Proof.
  intros Hb. unfold open_region. destruct (gre.HasKey hdr); [|done]. destruct (recvKey c) as [d|]; [|done]. set (d' := psk.SetKeyBits _ d). pose proof (psk.Decrypt_returns pbkdf2 aes (gre.Nonce hdr) (gre.Seq hdr) region d') as H.
  destruct (psk.Decrypt pbkdf2 aes (gre.Nonce hdr) (gre.Seq hdr) [] region d') as [[out|e|] d2]; [|done..]. destruct H as (block & ->). by apply psk.crypt_bytes.
Qed.

Definition region_bytes (r : region) : Prop := match r with RInner inner _ _ => is_bytes inner | _ => True end.

Lemma unwrap_total b enc c : is_bytes b -> returns (unwrap_vsf b enc c).1 (fun r => match r with inl out => is_bytes out | inr r => region_bytes r end).
Proof.
  intros Hb. unfold unwrap_vsf. pose proof (gre.ParseVSFProto_total b Hb) as H. destruct (gre.ParseVSFProto b) as [[vsf vn]|e|]; [|done..]. destruct H as (_ & _ & Hn). destruct (slc_from_ok (E := err) b vn Hn) as (rest & -> & _ & Hr).
  specialize (Hr Hb). destruct (_ =? gre.VSFSubtypeReduced); [done|]. destruct (_ =? gre.VSFSubtypeBufferNegotiation).
  - pose proof (gre.ParseBuf_total rest Hr) as HB. destruct (recvKey c), enc; try done; by destruct (gre.ParseBufferNegotiation rest).
  - destruct (_ =? gre.VSFSubtypeKeepalive); [|done]. pose proof (gre.ParseKeepalive_total rest Hr) as HK. by destruct (gre.ParseKeepalive rest).
Qed.

Lemma strip_total b enc c : is_bytes b -> returns (strip_reduced b enc c).1 region_bytes.
Proof.
  intros Hb. unfold strip_reduced. pose proof (gre.ParseReduced_total b Hb) as H. destruct (gre.ParseReduced b) as [[rh n]|e|]; [|done..]. destruct H as (_ & _ & Hn). cbn [fst]. destruct (slc_from_ok (E := err) b n Hn) as (inner & -> & _ & Hi). cbn [mbind res_bind].
  destruct (Z.leb_spec (zlen inner) rtcpPTByteLow); [done|]. unfold rtcpPTByteLow in *. destruct (idx_ok (E := err) inner 1 ltac:(lia)) as (x & -> & _). cbn. by apply Hi.
Qed.

Lemma mainRegion_total b c : is_bytes b -> returns (mainRegion pbkdf2 aes b c).1 region_bytes.
Proof.
  intros Hb. unfold mainRegion. pose proof (gre.Parse_total b Hb) as H. destruct (gre.Parse b) as [[hdr off]|e|]; [|done..]. destruct H as (_ & _ & Ho). destruct (_ && _); [done|]. unfold gre.BaseHeaderSize in Ho.
  destruct (slc_from_ok (E := err) b off ltac:(lia)) as (region & -> & _ & Hr). specialize (Hr Hb). pose proof (open_region_total hdr region c Hr) as H. destruct (open_region pbkdf2 aes hdr region c) as [[reg|e|] c1]; [|done..]. destruct H as [Hreg _].
  destruct (gre.ProtType hdr =? gre.ProtoVSF); [|by apply strip_total]. pose proof (unwrap_total reg (gre.HasKey hdr) c1 Hreg) as H. destruct (unwrap_vsf reg (gre.HasKey hdr) c1) as [[[out|r]|e|] c2]; try done. by apply strip_total.
Qed.

Lemma media_payload_total p : is_bytes (p_Payload p) -> is_bytes (ExtensionPayload (p_Header p)) -> in_u16 (ExtensionProfile (p_Header p)) -> returns (media_payload p) (fun _ => True).
Proof.
  intros Hp He Hi. unfold media_payload. destruct (_ && _); [|done]. set (w := extWireBytes _ _). assert (Hw : is_bytes w).
  { unfold w, extWireBytes. apply Forall_app. split; [|exact He]. repeat (apply Forall_cons; split; [by apply Z.mod_pos_bound|]). by apply Forall_nil. }
  pose proof (ParseExt_total w Hw) as HE. destruct (ParseExt w) as [[ext ?]|e|]; [|done..]. cbn [wrap mbind res_bind]. destruct (NPD ext); [|done]. unfold expand.
  destruct (npd_total (p_Payload p) (NPDBits (Size204 ext) (NullBitmap ext)) [] (NPDBits_u8 _ _)) as (_ & _ & r & out & -> & Hr). by destruct r.
Qed.

Lemma decodeMediaMain_total b c : is_bytes b -> returns (decodeMediaMain b c).1 (fun _ => True).
Proof.
  intros Hb. unfold decodeMediaMain. pose proof (rtp_decode_total b rtp_zero Hb) as H. destruct (packet_Unmarshal b rtp_zero) as [[u|e|] p]; [|done..]. destruct H as ([[? ? ? ? ? ? Hprof Hext] Hpay _] & _). destruct (negb _); [done|].
  pose proof (media_payload_total p Hpay Hext Hprof) as H. destruct (media_payload p) as [pl|e|]; [|done..]. by destruct (sourceTime _ _ _) as [src d].
Qed.

Lemma parse_compound_total b : is_bytes b -> returns (parse_compound b) (fun _ => True).
Proof. intros Hb. unfold parse_compound. destruct (rtcp.parse_compound_any b Hb) as (r & -> & Hr). by destruct r. Qed.
End total.

(** A compound that was not encrypted names nobody. *)
Lemma fold_clear ps hi have ref last : identities (fold_packets ps hi have ref false last).1 = [] /\ (fold_packets ps hi have ref false last).2 = last.
Proof.
  revert hi have. induction ps as [|p ps IH]; intros hi have; [done|]. destruct p; cbn [fold_packets andb]; try apply IH; try (match goal with |- context [fold_packets ps ?h ?v ref false last] => specialize (IH h v); destruct (fold_packets ps h v ref false last) end; exact IH).
Qed.

(** ** Properties *)

(** C25: Feedback over the Main profile: the datagram that carries a flow's feedback, under a nonce that is not all zero, decodes at a sender at position [ref], with the same keys and fewer than
    2^32 packets decrypted, to feedback that asks for exactly the sequences requested, per stream (in order with the range encoding, as a set with the bitmask).  Each request is for at most 65536 sequences
    among the 65536 up to [ref], or, through the EXTSEQ, for at most 16 sequences of which one is at least 65536; more of those do not survive ([main_extseq_first_packet_only]).
    The datagram carries the echoes in order, and the sender's name when the session is encrypted and the name is new.  Encoding fails only where the cipher does. *)
Theorem main_feedback_survives pbkdf2 aes keys k256 cs cr n lead fbs bm ref draws : (forall key b, length (aes key b) = 16%nat) ->
  sender_ok pbkdf2 keys k256 cs -> recv_ok pbkdf2 keys k256 n cr -> 0 <= n <= psk.reuseLimit ->
  rtcp.is_report lead = true -> rtcp.valid lead -> in_u32 (ssrc cs) -> is_bytes (cname cs) -> in_u32 ref -> Forall (fb_ok ref) fbs ->
  let '((r, cs'), _) := encodeMainFeedback pbkdf2 aes [] lead fbs bm draws cs in
  sender_ok pbkdf2 keys k256 cs' /\ made keys r (fun dg => nonce_ok dg ->
    exists out cr', decodeMain pbkdf2 aes dg ref cr = (Ok (DFeedback out), cr') /\ recv_ok pbkdf2 keys k256 (n + 1) cr' /\
      (bm = false -> requests out = requests fbs) /\ (forall r, r ∈ requests out <-> r ∈ requests fbs) /\ filter (fun fb => is_echo_fb fb = true) out = echoes (ssrc cs) fbs /\
      let cn := rtcp.trim (cname cs) in identities out = if surfaced (bool_decide (is_Some keys)) cn (lastRxCNAME cr) then [cn] else []).
Proof.
  intros Haes Hs Hr Hn Hl1 Hl2 Hss Hcn Href Hfb. destruct (compound_heard ref cs lead fbs bm Hl1 Hl2 Hss Hcn Href Hfb) as (compound & x & HB & Hlen & Hx & Hpt & Hdec). unfold encodeMainFeedback. rewrite HB.
  pose proof (frame_ok pbkdf2 aes keys k256 compound draws cs Hs) as HF. destruct (frame pbkdf2 aes [] compound draws cs) as [[r cs'] draws']. destruct HF as (H1 & _ & H3). split; [done|].
  destruct r as [dg|e|]; [|done..]. cbn in H3 |- *. intros Hz. destruct Hs as (_ & Hsp & Hdp & _).
  destruct (region_framed pbkdf2 aes Haes keys k256 (srcPort cs) (dstPort cs) compound dg n cr x Hsp Hdp H3 Hz Hr Hn Hlen Hx) as (d & Hd & E). unfold decodeMain. rewrite E, Hpt.
  set (c1 := cr <| recvKey := d |> <| lastVirtSrc := _ |> <| lastVirtDst := _ |>). destruct (Hdec (bool_decide (is_Some keys)) c1) as (out & -> & H4 & H5 & H6 & H7). eexists out, _. split; [reflexivity|]. split; [by apply Hd|]. done.
Qed.

(** Only the first NACK packet behind an EXTSEQ is widened with it: 17 scattered losses of one upper half, more than 65536 behind the send position,
    are packed into two packets behind one EXTSEQ; the receiver of the compound takes the first 16 right and asks, for the 17th, for
    another sequence, one of the 65536 up to its send position. *)
Theorem main_extseq_first_packet_only c s hi ref enc c' : 1 <= hi < 65536 -> in_u32 ref -> (hi + 1) * 65536 + 32 <= ref -> in_u32 (ssrc c) -> in_u32 s -> is_bytes (cname c) ->
  exists compound out c'' w, buildCompound c (rtcp.EmptyReceiverReport (ssrc c)) [NackRequest s (scattered hi)] false = Ok compound /\
    decodeFeedbackMain compound ref enc c' = (Ok out, c'') /\ requests out = ((fun n => (s, n)) <$> take 16 (scattered hi)) ++ [(s, w)] /\ (w ∉ scattered hi) /\ ref - 65536 < w <= ref.
Proof.
  intros Hhi Href Hold Hss Hs Hcn. set (d := (ref - 32) mod 65536). pose proof (Z.mod_pos_bound (ref - 32) 65536 ltac:(lia)) as Hd. fold d in Hd. unfold in_u32 in Href.
  set (w := ref - d). pose proof (Z.div_mod (ref - 32) 65536 ltac:(lia)) as Hdm. fold d in Hdm.
  assert (Hw : widenSeqAtMost (u16 32) ref = w).
  { assert (E : u16 32 = u16 (ref - d)) by (unfold u16, uwrap; change (2 ^ 16) with 65536; replace (ref - d) with (32 + ((ref - 32) / 65536) * 65536) by lia; by rewrite Z.mod_add). rewrite E, widenSeqAtMost_exact by (unfold in_u32; lia). apply u32_id. unfold in_u32. lia. }
  unfold buildCompound. cbn [mbind list_bind nacks_main echo_of]. rewrite (scattered_packets c s hi Hhi). cbn [app].
  set (p1 := rtcp.RangeNACK s (single <$> _)). set (p2 := rtcp.RangeNACK s [single 32]). set (pkts := [_; _; _; p1; p2]).
  assert (Hsing : forall l, Forall in_u16 l -> Forall rtcp.range_typed (single <$> l)) by (intros l Hl; apply Forall_fmap; eapply Forall_impl; [exact Hl|]; intros x Hx; split; [exact Hx|done]).
  assert (Hv : Forall rtcp.valid pkts).
  { apply Forall_cons. split; [done|]. apply Forall_cons. split; [done|]. apply Forall_cons. split; [split; [done|unfold in_u16; lia]|]. apply Forall_cons. split; [|apply Forall_cons; split; [|by apply Forall_nil]].
    - split; [done|]. split; [|done]. apply Hsing, Forall_fmap, Forall_forall. intros i Hi. apply elem_of_seqZ in Hi. unfold compose, in_u16. lia.
    - split; [done|]. split; [|done]. apply (Hsing [32]), Forall_singleton. done. }
  destruct (rtcp.compound_ok pkts (mkSlice [] []) Hv) as [[sp Hb] Hp].
  { exists (rtcp.EmptyReceiverReport (ssrc c)), (rtcp.SDES (ssrc c) (cname c)), [rtcp.ExtSeq (ssrc c) hi; p1; p2], []. split; [done|]. split; [done|]. split; [done|]. split; [|done]. apply rtcp.feedback_ext; [done|]. apply rtcp.feedback_one; [done|constructor]. }
  assert (Hf : exists id last, requests id = [] /\ fold_packets (rtcp.norm <$> pkts) 0 false ref enc (lastRxCNAME c') = (id ++ folded ref s [p1; p2] hi true, last)).
  { cbn [fmap list_fmap rtcp.norm fold_packets pkts p1 p2 folded DecodeNACK default option_map]. destruct (_ && _); [by exists [PeerIdentity (rtcp.trim (cname c))]; eexists|by exists []; eexists]. }
  destruct Hf as (id & last & Hid & Hf). rewrite Hb. cbn [wrap mbind res_bind data app]. eexists _, (id ++ folded ref s [p1; p2] hi true), _, w. split; [reflexivity|]. unfold decodeFeedbackMain, parse_compound. rewrite Hp. cbn [wrap]. rewrite Hf. split; [reflexivity|].
  split; [|split; [|lia]].
  - rewrite requests_app, Hid. cbn [app folded]. rewrite requests_cons, <-(scattered_extend hi Hhi), <-Hw. change (default [] (DecodeNACK p1)) with ((fun i => 2 * i) <$> seqZ 0 16). change (default [] (DecodeNACK p2)) with [32].
    unfold requests, foldNACK. cbn [mbind list_bind]. by rewrite !app_nil_r.
  - unfold scattered. rewrite list_elem_of_fmap. intros (i & E & Hi). apply elem_of_seqZ in Hi. lia.
Qed.

(** Arbitrary datagrams: whatever bytes arrive, in whatever state the codec is, the decoder and every peek report an error or a result and never panic. *)
Theorem main_decode_total pbkdf2 aes b ref c : (forall key x, length (aes key x) = 16%nat) -> (forall key x, is_bytes (aes key x)) -> is_bytes b ->
  returns (decodeMain pbkdf2 aes b ref c).1 (fun _ => True) /\ returns (feedbackCNAME pbkdf2 aes b c).1 (fun _ => True) /\ returns (peekEAPOL b) (fun _ => True) /\
  (forall ka, (peekControl pbkdf2 aes b c).1.2 = Some ka -> returns ka (fun _ => True)) /\ (forall prot r, (peekOOB pbkdf2 aes b c).1 = Some (prot, r) -> returns r (fun _ => True)).
Proof.
  intros Hlen Hby Hb. pose proof (mainRegion_total pbkdf2 aes Hlen Hby b c Hb) as HR. pose proof (gre.Parse_total b Hb) as HP. split_and!.
  - unfold decodeMain. destruct (mainRegion pbkdf2 aes b c) as [[[inner isRTCP enc|bn|]|e|] c1]; try done. destruct isRTCP.
    + unfold decodeFeedbackMain. pose proof (parse_compound_total inner HR) as H. destruct (parse_compound inner) as [pkts|e|]; [|done..]. by destruct (fold_packets _ _ _ _ _ _).
    + pose proof (decodeMediaMain_total inner c1 HR) as H. by destruct (decodeMediaMain inner c1) as [[pkt|e|] c2].
  - unfold feedbackCNAME. destruct (mainRegion pbkdf2 aes b c) as [[[inner [] []|bn|]|e|] c1]; try done. unfold sdesCNAME. pose proof (parse_compound_total inner HR) as H. by destruct (parse_compound inner).
  - unfold peekEAPOL. destruct (gre.Parse b) as [[hdr off]|e|]; [|done..]. destruct (negb _); [done|]. destruct HP as (_ & _ & Ho). unfold gre.BaseHeaderSize in Ho. by destruct (slc_from_ok (E := err) b off ltac:(lia)) as (eap & -> & _).
  - unfold peekControl. destruct (gre.Parse b) as [[hdr off]|e|]; [|done..]. destruct (negb _); [done|]. destruct HP as (_ & _ & Ho). unfold gre.BaseHeaderSize in Ho. destruct (slc_from_ok (E := err) b off ltac:(lia)) as (region & -> & _ & Hr).
    pose proof (open_region_total pbkdf2 aes Hlen Hby hdr region c (Hr Hb)) as H. destruct (gre.HasKey hdr) eqn:Ek, (recvKey c); try done; (destruct (open_region pbkdf2 aes hdr region c) as [[out|e|] c1]; intros ka [= <-]; try done; cbn [mbind res_bind]; pose proof (gre.ParseKeepalive_total out (proj1 H)); by destruct (gre.ParseKeepalive out)).
  - unfold peekOOB. destruct (gre.Parse b) as [[hdr off]|e|]; [|done..]. destruct (gre.IsReserved _); [done|]. destruct HP as (_ & _ & Ho). unfold gre.BaseHeaderSize in Ho. destruct (slc_from_ok (E := err) b off ltac:(lia)) as (region & -> & _ & Hr).
    pose proof (open_region_total pbkdf2 aes Hlen Hby hdr region c (Hr Hb)) as H. destruct (open_region pbkdf2 aes hdr region c) as [[out|e|] c1]; intros prot r [= <- <-]; done.
Qed.

(** C26: A datagram in the clear cannot speak for the peer: on a session with a decryptor, a datagram without the K bit, whatever its bytes, yields no peer
    identity (neither in its feedback nor to the rebind check) and no buffer negotiation, and leaves the name last seen as it is. *)
Theorem main_clear_not_trusted pbkdf2 aes dg ref c : is_Some (recvKey c) -> (forall hdr off, gre.Parse dg = Ok (hdr, off) -> gre.HasKey hdr = false) ->
  match (decodeMain pbkdf2 aes dg ref c).1 with Ok (DFeedback out) => identities out = [] | Ok (DBuffer _) => False | _ => True end /\
  lastRxCNAME (decodeMain pbkdf2 aes dg ref c).2 = lastRxCNAME c /\ forall cn, (feedbackCNAME pbkdf2 aes dg c).1 <> Ok (Some cn).
Proof.
  intros [d Hd] Hk.
  assert (HR : let '(r, c') := mainRegion pbkdf2 aes dg c in lastRxCNAME c' = lastRxCNAME c /\ match r with Ok (RInner _ _ enc) => enc = false | Ok (RBuffer _) => False | _ => True end).
  { unfold mainRegion. destruct (gre.Parse dg) as [[hdr off]|e|]; [|done..]. rewrite (Hk hdr off eq_refl). destruct (_ && _); [done|]. destruct (slc_from dg off) as [rest|e|]; [|done..]. unfold open_region. rewrite (Hk hdr off eq_refl).
    assert (HS : forall b c1, lastRxCNAME c1 = lastRxCNAME c -> let '(r, c') := strip_reduced b false c1 in lastRxCNAME c' = lastRxCNAME c /\ match r with Ok (RInner _ _ enc) => enc = false | Ok (RBuffer _) => False | _ => True end).
    { intros b c1 H1. unfold strip_reduced. destruct (gre.ParseReduced b) as [[rh n]|e|]; [|done..]. split; [exact H1|]. destruct (slc_from b n) as [inner|e|]; [|done..]. cbn [mbind res_bind]. destruct (_ <=? _); [done|]. by destruct (idx inner rtcpPTByteLow). }
    destruct (gre.ProtType hdr =? gre.ProtoVSF); [|by apply HS]. unfold unwrap_vsf. destruct (gre.ParseVSFProto rest) as [[vsf vn]|e|]; [|done..]. destruct (slc_from rest vn) as [inner|e|]; [|done..].
    destruct (_ =? gre.VSFSubtypeReduced); [by apply HS|]. rewrite Hd. destruct (_ =? gre.VSFSubtypeBufferNegotiation); [done|]. destruct (_ =? gre.VSFSubtypeKeepalive); [|done]. by destruct (gre.ParseKeepalive inner). }
  unfold decodeMain, feedbackCNAME. destruct (mainRegion pbkdf2 aes dg c) as [[[inner isRTCP enc|bn|]|e|] c1]; destruct HR as [H1 H2]; try done. subst enc. destruct isRTCP.
  - unfold decodeFeedbackMain. destruct (parse_compound inner) as [pkts|e|]; [|done..]. pose proof (fold_clear pkts 0 false ref (lastRxCNAME c1)) as [F1 F2]. destruct (fold_packets pkts 0 false ref false (lastRxCNAME c1)) as [out last]. cbn in *. subst last. done.
  - unfold decodeMediaMain. destruct (packet_Unmarshal inner rtp_zero) as [[u|e|] p]; [|done..]. destruct (negb _); [done|]. destruct (media_payload p); [|done..]. by destruct (sourceTime _ _ _).
Qed.

(** Control datagrams reach the reader they are for, and only it: a version-1 keep-alive is the control peek's, a version-2 one leaves its
    capabilities with the codec, a buffer negotiation is the decoder's, out-of-band data of any unreserved protocol type the out-of-band peek's,
    an authentication frame the authentication peek's even on an encrypted session; each comes back as it was sent, and the other
    readers see nothing or report the protocol type. *)
Theorem main_control_demux pbkdf2 aes keys k256 cs cr n ref draws ka v bn prot payload : (forall key b, length (aes key b) = 16%nat) ->
  sender_ok pbkdf2 keys k256 cs -> recv_ok pbkdf2 keys k256 n cr -> 0 <= n <= psk.reuseLimit -> gre.keepalive_ok ka -> gre.VersionCur <= v <= 7 ->
  in_u16 (gre.SenderMaxMs bn) -> in_u16 (gre.ReceiverCurMs bn) -> in_u16 (gre.ProtoType bn) -> in_u16 prot -> gre.IsReserved prot = false ->
  let reads r x := made keys r (fun dg => nonce_ok dg -> readers pbkdf2 aes dg ref cr = x) in
  reads (encodeKeepalive pbkdf2 aes [] ka gre.VersionMin draws cs).1.1 ((controlKeepalive, gre.VersionMin, Some (Ok ka)), None, Ok None, Err (EProto gre.ProtoKeepalive), peerCaps cr) /\
  reads (encodeKeepalive pbkdf2 aes [] ka v draws cs).1.1 ((controlNone, v, None), None, Ok None, Ok DNothing, Some (gre.Caps ka)) /\
  reads (encodeBufferNeg pbkdf2 aes [] bn draws cs).1.1 ((controlNone, gre.VersionCur, None), None, Ok None, Ok (DBuffer bn), peerCaps cr) /\
  reads (encodeOOB pbkdf2 aes [] payload prot draws cs).1.1 ((controlNone, gre.VersionMin, None), Some (prot, Ok payload), Ok None, Err (EProto prot), peerCaps cr) /\
  exists dg, encodeEAPOL [] payload cs = (Ok dg, next_seq cs) /\ readers pbkdf2 aes dg ref cr = ((controlNone, gre.VersionMin, None), None, Ok (Some payload), Err (EProto gre.ProtoEAPOL), peerCaps cr).
Proof.
  intros Haes Hs Hr Hn Hka Hv B1 B2 B3 Hp Hres reads. assert (Himp : forall r P Q, made keys r P -> (forall dg, P dg -> nonce_ok dg -> readers pbkdf2 aes dg ref cr = Q) -> reads r Q) by (intros [dg|e|] P Q HP HQ; cbn in *; [by apply HQ|done|done]).
  split_and!.
  - eapply Himp; [apply (encodeKeepalive_sealed pbkdf2 aes keys k256 draws cs ka gre.VersionMin Hs); done|]. intros dg. by apply (read_keepalive pbkdf2 aes Haes keys k256 ref n cr Hr Hn).
  - eapply Himp; [apply (encodeKeepalive_sealed pbkdf2 aes keys k256 draws cs ka v Hs); unfold gre.VersionMin, gre.VersionCur in *; lia|]. destruct (Z.leb_spec gre.VersionCur v); [|lia]. intros dg. by apply (read_keepalive2 pbkdf2 aes Haes keys k256 ref n cr Hr Hn).
  - unfold encodeBufferNeg, frameControl. change (gre.VersionCur <=? gre.VersionCur) with true. cbv iota. pose proof (seal_next pbkdf2 aes keys k256 gre.VersionCur gre.ProtoVSF (gre.vsf_AppendTo (gre.mkVSF gre.VSFTypeRIST gre.VSFSubtypeBufferNegotiation) [] ++ gre.buf_AppendTo bn []) draws cs ltac:(done) ltac:(done) Hs) as H.
    destruct (seal _ _ _ _ _ _ _) as [[r ?] ?]. eapply Himp; [apply H|]. intros dg. by apply (read_bufferneg pbkdf2 aes Haes keys k256 ref n cr Hr Hn).
  - unfold encodeOOB. pose proof (seal_next pbkdf2 aes keys k256 gre.VersionMin prot payload draws cs ltac:(done) Hp Hs) as H. destruct (seal _ _ _ _ _ _ _) as [[r ?] ?]. eapply Himp; [apply H|]. intros dg. by apply (read_oob pbkdf2 aes Haes keys k256 ref n cr Hr Hn).
  - destruct Hs as (Hq & _). unfold encodeEAPOL. rewrite gre.AppendTo_enc by done. eexists. split; [reflexivity|]. by apply read_eapol.
Qed.

(** An encrypted session. *)
Definition demo_keys : option (bytes * bool) := Some ([115], false).
Definition demo_named : mainCodec := demo_sender <| cname := [114; 120] |>.

Lemma demo_ok : sender_ok psk.demo_pbkdf2 demo_keys false demo_named /\ recv_ok psk.demo_pbkdf2 demo_keys false 0 demo_receiver.
Proof.
  split; [|by apply psk.newDecryptor_ok; vm_compute]. split; [done|]. split; [done|]. split; [done|]. split; [done|]. unfold demo_keys. change (sendKey demo_named) with demo_sk. unfold demo_sk.
  destruct (psk.newKey psk.demo_pbkdf2 [115] 128 3 true false psk.demo_draws) as [[k|e|] ds] eqn:E; [|vm_compute in E; discriminate E..]. by apply (psk.newKey_ok _ _ _ _ _ _ _ _ _ E).
Qed.

Lemma made_run keys r (P : bytes -> Prop) dg : made keys r P -> r = Ok dg -> P dg.
Proof. intros H ->. exact H. Qed.

Definition datagram (x : res err bytes) : bytes := match x with Ok dg => dg | _ => [] end.

Definition demo_feedback : list Feedback := [NackRequest 8 [131077; 131078; 4294967295]; RttEchoRequest 0 99].
Definition demo_feedback_dg : bytes := datagram (encodeMainFeedback psk.demo_pbkdf2 psk.demo_aes [] (rtcp.EmptyReceiverReport 8) demo_feedback false (drop 2 psk.demo_draws) demo_named).1.1.

Lemma demo_feedback_ok : Forall (fb_ok 9000000) demo_feedback.
Proof.
  unfold demo_feedback. apply Forall_cons. split; [|apply Forall_cons; split; [split; done|by apply Forall_nil]]. split; [done|]. split; [done|].
  split; [repeat (apply Forall_cons; split; [done|]); by apply Forall_nil|]. right. split; [done|]. by apply Exists_cons_hd.
Qed.

Lemma nonce_ok_check dg : (match gre.Parse dg with Ok (h, _) => negb (psk.isZeroNonce (gre.Nonce h)) | _ => true end) = true -> nonce_ok dg.
Proof. intros H hdr off Hp _. rewrite Hp in H. by apply negb_true_iff. Qed.

Lemma main_feedback_survives_witness :
  exists out cr', decodeMain psk.demo_pbkdf2 psk.demo_aes demo_feedback_dg 9000000 demo_receiver = (Ok (DFeedback out), cr') /\ requests out = [(8, 131077); (8, 131078); (8, 4294967295)] /\ identities out = [[114; 120]].
Proof.
  pose proof (main_feedback_survives psk.demo_pbkdf2 psk.demo_aes demo_keys false demo_named demo_receiver 0 (rtcp.EmptyReceiverReport 8) demo_feedback false 9000000 (drop 2 psk.demo_draws)
    psk.demo_aes_len (proj1 demo_ok) (proj2 demo_ok) ltac:(done) eq_refl ltac:(done) ltac:(done) ltac:(repeat constructor; done) ltac:(done) demo_feedback_ok) as H.
  assert (E : (encodeMainFeedback psk.demo_pbkdf2 psk.demo_aes [] (rtcp.EmptyReceiverReport 8) demo_feedback false (drop 2 psk.demo_draws) demo_named).1.1 = Ok demo_feedback_dg) by (vm_compute; reflexivity).
  destruct (encodeMainFeedback psk.demo_pbkdf2 psk.demo_aes [] (rtcp.EmptyReceiverReport 8) demo_feedback false (drop 2 psk.demo_draws) demo_named) as [[r cs'] ds]. cbn [fst] in E. destruct H as [_ H].
  destruct (made_run _ _ _ _ H E) as (out & cr' & H1 & _ & H2 & _ & _ & H3); [apply nonce_ok_check; vm_compute; reflexivity|].
  exists out, cr'. split; [exact H1|]. split; [by apply H2|exact H3].
Defined.

Lemma main_extseq_first_packet_only_witness :
  exists compound out c'' w, buildCompound demo_named (rtcp.EmptyReceiverReport 8) [NackRequest 8 (scattered 1)] false = Ok compound /\ decodeFeedbackMain compound 140000 true demo_receiver = (Ok out, c'') /\
    requests out = ((fun n => (8, n)) <$> take 16 (scattered 1)) ++ [(8, w)] /\ (w ∉ scattered 1) /\ 74464 < w <= 140000.
Proof. apply (main_extseq_first_packet_only demo_named 8 1 140000 true demo_receiver); [done|done|done|done|done|repeat constructor; done]. Defined.

Lemma main_decode_total_witness : returns (decodeMain psk.demo_pbkdf2 psk.demo_aes ([0x30; 0x08] ++ replicate 30 0x88) 7 demo_receiver).1 (fun _ => True).
Proof.
  apply (main_decode_total psk.demo_pbkdf2 psk.demo_aes ([0x30; 0x08] ++ replicate 30 0x88) 7 demo_receiver psk.demo_aes_len); [|repeat constructor; done].
  intros key x. apply Forall_fmap, Forall_forall. intros i _. unfold compose, in_u8, u8, uwrap. apply Z.mod_pos_bound. done.
Defined.

Definition demo_clear_dg : bytes := datagram (encodeMainFeedback psk.demo_pbkdf2 psk.demo_aes [] (rtcp.EmptyReceiverReport 8) [] false [] (newMainCodec None None false 5 6 false 8 [114; 120] false)).1.1.

Lemma main_clear_not_trusted_witness : demo_clear_dg <> [] /\ lastRxCNAME (decodeMain psk.demo_pbkdf2 psk.demo_aes demo_clear_dg 7 demo_receiver).2 = [].
Proof.
  split; [vm_compute; discriminate|]. destruct (main_clear_not_trusted psk.demo_pbkdf2 psk.demo_aes demo_clear_dg 7 demo_receiver) as (_ & H & _); [by eexists| |exact H].
  intros hdr off E. assert (Hk : match gre.Parse demo_clear_dg with Ok (h, _) => gre.HasKey h | _ => false end = false) by (vm_compute; reflexivity). by rewrite E in Hk.
Defined.

Definition demo_ka : gre.Keepalive := gre.mkKeepalive [1; 2; 3; 4; 5; 6] gre.StandardCapabilities false (gre.mkAdvExt false false false) [7].
Definition demo_oob_dg : bytes := datagram (encodeOOB psk.demo_pbkdf2 psk.demo_aes [] [1; 2; 3] 0x800 (drop 2 psk.demo_draws) demo_named).1.1.

Lemma main_control_demux_witness :
  readers psk.demo_pbkdf2 psk.demo_aes demo_oob_dg 7 demo_receiver = ((controlNone, gre.VersionMin, None), Some (0x800, Ok [1; 2; 3]), Ok None, Err (EProto 0x800), None).
Proof.
  destruct (main_control_demux psk.demo_pbkdf2 psk.demo_aes demo_keys false demo_named demo_receiver 0 7 (drop 2 psk.demo_draws) demo_ka 2 (gre.mkBuf 1 2 3) 0x800 [1; 2; 3]
    psk.demo_aes_len (proj1 demo_ok) (proj2 demo_ok)) as (_ & _ & _ & H & _); [done|repeat split; done|done|done|done|done|done|done|].
  apply (made_run _ _ _ demo_oob_dg) in H; [|vm_compute; reflexivity]. apply H. apply nonce_ok_check. vm_compute. reflexivity.
Defined.
End mainfeedback.
