(* ===== verification/Srp.v ===== *)
(** * SRP-6a over SHA-256 (src/internal/srp/srp.go)

    The key agreement behind EAP-SRP authentication: group, padding, the hashes of the protocol, the client and the server.  SHA-256 is a
    parameter; [math/big] integers are [Z]; the random source is the list of the values [rand.Int] returns, [None] standing for a read
    that fails.  The theorems: a client and a server that hold the password and its verifier agree on the session key and accept each
    other's proof, whatever their secrets, and neither side panics on any public value the other may send. *)

From Stdlib Require Import Zpow_facts Zdivisibility.
From S2P Require Import Prelude Bytes.

Module srp.

Inductive err := ErrInvalidGroup | ErrInvalidSalt | ErrSaltTooLong | ErrInvalidVerifier | ErrBadParameter | ErrCSPRNG.

Definition hashLen : Z := 32.
Definition MaxSaltLen : Z := 1024.

(** ** math/big *)

Definition BitLen (x : Z) : Z := if x =? 0 then 0 else Z.log2 (Z.abs x) + 1.
Definition byte_len (x : Z) : Z := (BitLen x + 7) / 8.

(** [x.Bytes()], [new(big.Int).SetBytes(b)], [x.FillBytes(buf)] into [n] bytes, [Exp(x, y, m)] for a positive [m]. *)
Definition Bytes (x : Z) : bytes := be_bytes (Z.to_nat (byte_len x)) (Z.abs x).
Definition SetBytes (b : bytes) : Z := be b.
Definition FillBytes (n x : Z) : res err bytes := if n <? byte_len x then Panic else Ok (be_bytes (Z.to_nat n) (Z.abs x)).
Definition Exp (x y m : Z) : Z := Zpow_mod x y m.

(** ** The group *)

Record Group := mkGroup { N : Z; G : Z; glength : Z }.

Definition defaultN : Z :=
  0xAC6BDB41324A9A9BF166DE5E1389582FAF72B6651987EE07FC3192943DB56050A37329CBB4A099ED8193E0757767A13DD52312AB4B03310DCD7F48A9DA04FD50E8083969EDB767B0CF6095179A163AB3661A05FBD5FAAAE82918A9962F0B93B855F97993EC975EEAA80D740ADBF4FF747359D041D5C33EA71D281E446B14773BCA97B43A23FB801676BD207A436C6481F1D2B9078717461A5B9D32E688F87748544523B524B0D57D5EA77A2775D2ECFA032CFBDBF52FB3786160279004E57AE6AF874E7303CE53299CCC041C7BC308D82A5698F3A8D0C38271AE35F8E9DBFBB694B5C803D89F7AE435DE236D525F54759B65E372FCD68EF20FA7111F9E4AFF73.

Definition newGroup (n g : Z) : Group := mkGroup n g (byte_len n).
Definition DefaultGroup : Group := newGroup defaultN 2.

(** [None] is the nil group. *)
Definition valid (gr : option Group) : bool := match gr with Some gr => (0 <? N gr) && (0 <? G gr) | None => false end.

Definition pad (gr : Group) (x : Z) : res err bytes := FillBytes (glength gr) x.
Definition minimalBytes (x : Z) : bytes := Bytes x.

Definition validateSalt (salt : bytes) : option err :=
  if zlen salt =? 0 then Some ErrInvalidSalt else if MaxSaltLen <? zlen salt then Some ErrSaltTooLong else None.

Definition canonSalt (salt : bytes) : bytes := Bytes (SetBytes salt).

Definition readSecret (draws : list (option Z)) : res err Z * list (option Z) :=
  match draws with Some v :: draws => (Ok v, draws) | None :: draws => (Err ErrCSPRNG, draws) | [] => (Err ErrCSPRNG, []) end.

Section hash.
Context (sha256 : bytes -> bytes).

Definition Hash (parts : list bytes) : bytes := sha256 (concat parts).

Definition hashPadded (gr : Group) (a b : Z) : res err bytes := pa ← pad gr a; pb ← pad gr b; Ok (Hash [pa; pb]).
Definition hashUnpadded (a b : Z) : bytes := Hash [minimalBytes a; minimalBytes b].

Definition calcX (salt username password : bytes) : Z :=
  let inner := Hash [username; [58]; password] in
  let outer := Hash [canonSalt salt; inner] in
  SetBytes outer.

Definition kValue (gr : Group) (legacyPad : bool) : res err Z :=
  d ← (if legacyPad then Ok (hashUnpadded (N gr) (G gr)) else hashPadded gr (N gr) (G gr)); Ok (SetBytes d).

Definition uValue (gr : Group) (a b : Z) (legacyPad : bool) : res err Z :=
  d ← (if legacyPad then Ok (hashUnpadded a b) else hashPadded gr a b); Ok (SetBytes d).

Definition sessionKey (s : Z) : bytes := Hash [minimalBytes s].

Definition calcM1 (gr : Group) (username salt : bytes) (a b : Z) (key : bytes) : bytes :=
  let hN := Hash [minimalBytes (N gr)] in
  let hG := Hash [minimalBytes (G gr)] in
  let xored := zip_with Z.lxor hN hG in
  let hI := Hash [username] in
  Hash [xored; hI; canonSalt salt; minimalBytes a; minimalBytes b; key].

Definition calcM2 (a : Z) (m1 key : bytes) : bytes := Hash [minimalBytes a; m1; key].

(** The nil result is the empty one. *)
Definition MakeVerifier (g : option Group) (username password salt : bytes) : bytes :=
  match g with
  | Some gr => if valid g then match validateSalt salt with None => Bytes (Exp (G gr) (calcX salt username password) (N gr)) | Some _ => [] end else []
  | None => []
  end.

(** ** The client *)

Record Client := mkClient { c_group : Group; c_salt : bytes; c_a : Z; c_pubA : Z; c_legacyPad : bool; computed : bool; c_key : bytes; c_m1 : bytes }.

Definition newClient (g : option Group) (salt : bytes) (legacyPad : bool) (draws : list (option Z)) : res err Client * list (option Z) :=
  match g with
  | Some gr =>
      if negb (valid g) then (Err ErrInvalidGroup, draws) else
      match validateSalt salt with
      | Some e => (Err e, draws)
      | None =>
          let '(r, draws) := readSecret draws in
          (a ← r; Ok (mkClient gr salt a (Exp (G gr) a (N gr)) legacyPad false (replicate 32 0) (replicate 32 0)), draws)
      end
  | None => (Err ErrInvalidGroup, draws)
  end.

Definition A (c : Client) : res err bytes := pad (c_group c) (c_pubA c).

Definition ComputeKey (serverB username password : bytes) (c : Client) : res err unit * Client :=
  let gr := c_group c in
  if (zlen serverB =? 0) || (glength gr <? zlen serverB) then (Err ErrBadParameter, c) else
  let bPub := SetBytes serverB in
  if bPub mod N gr =? 0 then (Err ErrBadParameter, c) else
  match uValue gr (c_pubA c) bPub (c_legacyPad c) with
  | Ok u =>
      if u mod N gr =? 0 then (Err ErrBadParameter, c) else
      match kValue gr (c_legacyPad c) with
      | Ok k =>
          let x := calcX (c_salt c) username password in
          let gx := Exp (G gr) x (N gr) in
          let base := (bPub - k * gx) mod N gr in
          let s := Exp base (c_a c + u * x) (N gr) in
          let key := sessionKey s in
          (Ok tt, mkClient gr (c_salt c) (c_a c) (c_pubA c) (c_legacyPad c) true key (calcM1 gr username (c_salt c) (c_pubA c) bPub key))
      | Err e => (Err e, c)
      | Panic => (Panic, c)
      end
  | Err e => (Err e, c)
  | Panic => (Panic, c)
  end.

(** The nil results before the key is computed are empty. *)
Definition M1 (c : Client) : bytes := if computed c then c_m1 c else [].
Definition VerifyM2 (c : Client) (m2 : bytes) : bool :=
  if negb (computed c) || negb (zlen m2 =? hashLen) then false else bool_decide (calcM2 (c_pubA c) (c_m1 c) (c_key c) = m2).
Definition client_SessionKey (c : Client) : bytes := if computed c then c_key c else [].

(** ** The server *)

Record Server := mkServer { s_group : Group; s_salt : bytes; s_v : Z; s_b : Z; s_pubB : Z; s_pubA : option Z; s_legacyPad : bool; verified : bool; s_key : bytes; s_m2 : bytes }.

(** The value of [B], an error when it is zero. *)
Definition computeB (gr : Group) (v b : Z) (legacyPad : bool) : res err Z :=
  k ← kValue gr legacyPad;
  let pubB := (k * v + Exp (G gr) b (N gr)) mod N gr in
  if pubB =? 0 then Err ErrBadParameter else Ok pubB.

Definition newServer (g : option Group) (verifier salt : bytes) (legacyPad : bool) (draws : list (option Z)) : res err Server * list (option Z) :=
  match g with
  | Some gr =>
      if negb (valid g) then (Err ErrInvalidGroup, draws) else
      match validateSalt salt with
      | Some e => (Err e, draws)
      | None =>
          if zlen verifier =? 0 then (Err ErrInvalidVerifier, draws) else
          let v := SetBytes verifier in
          if v mod N gr =? 0 then (Err ErrInvalidVerifier, draws) else
          let '(r, draws) := readSecret draws in
          (b ← r; pubB ← computeB gr v b legacyPad; Ok (mkServer gr salt v b pubB None legacyPad false (replicate 32 0) (replicate 32 0)), draws)
      end
  | None => (Err ErrInvalidGroup, draws)
  end.

Definition B (s : Server) : res err bytes := pad (s_group s) (s_pubB s).

Definition HandleA (clientA : bytes) (s : Server) : res err unit * Server :=
  let gr := s_group s in
  if (zlen clientA =? 0) || (glength gr <? zlen clientA) then (Err ErrBadParameter, s) else
  let a := SetBytes clientA in
  if a mod N gr =? 0 then (Err ErrBadParameter, s) else
  (Ok tt, mkServer gr (s_salt s) (s_v s) (s_b s) (s_pubB s) (Some a) (s_legacyPad s) (verified s) (s_key s) (s_m2 s)).

Definition VerifyM1 (username m1 : bytes) (s : Server) : res err bool * Server :=
  let gr := s_group s in
  match s_pubA s with
  | None => (Ok false, s)
  | Some pubA =>
      if negb (zlen m1 =? hashLen) then (Ok false, s) else
      match uValue gr pubA (s_pubB s) (s_legacyPad s) with
      | Ok u =>
          if u mod N gr =? 0 then (Ok false, s) else
          let vu := Exp (s_v s) u (N gr) in
          let sShared := Exp (pubA * vu) (s_b s) (N gr) in
          let key := sessionKey sShared in
          let want := calcM1 gr username (s_salt s) pubA (s_pubB s) key in
          let keyed v m2 := mkServer gr (s_salt s) (s_v s) (s_b s) (s_pubB s) (Some pubA) (s_legacyPad s) v key m2 in
          if negb (bool_decide (want = m1)) then (Ok false, keyed (verified s) (s_m2 s))
          else (Ok true, keyed true (calcM2 pubA want key))
      | Err e => (Err e, s)
      | Panic => (Panic, s)
      end
  end.

Definition M2 (s : Server) : bytes := if verified s then s_m2 s else [].
Definition server_SessionKey (s : Server) : bytes := if verified s then s_key s else [].
End hash.

(** ** Integers as bytes *)

Lemma byte_len_nonneg x : 0 <= byte_len x.
Proof. unfold byte_len, BitLen. destruct (x =? 0); [done|]. apply Z.div_pos; [|lia]. pose proof (Z.log2_nonneg (Z.abs x)). lia. Qed.

Lemma byte_len_le x n : 0 <= x -> 0 <= n -> byte_len x <= n <-> x < 256 ^ n.
Proof.
  intros Hx Hn. change 256 with (2 ^ 8). rewrite <-Z.pow_mul_r by lia. unfold byte_len, BitLen. rewrite Z.abs_eq by done. destruct (Z.eqb_spec x 0) as [->|H0].
  - change ((0 + 7) / 8) with 0. split; [intros _; apply Z.pow_pos_nonneg; lia|lia].
  - assert (E : (Z.log2 x + 1 + 7) / 8 = Z.log2 x / 8 + 1) by (replace (Z.log2 x + 1 + 7) with (Z.log2 x + 1 * 8) by lia; by rewrite Z.div_add). rewrite E. rewrite (Z.log2_lt_pow2 x (8 * n)) by lia. pose proof (Z.div_lt_upper_bound (Z.log2 x) 8 n) as H1.
    pose proof (Z.div_mod (Z.log2 x) 8). pose proof (Z.mod_pos_bound (Z.log2 x) 8). split; intros; [lia|]. assert (Z.log2 x / 8 < n) by (apply H1; lia). lia.
Qed.

Lemma SetBytes_Bytes x : 0 <= x -> SetBytes (Bytes x) = x.
Proof.
  intros Hx. unfold SetBytes, Bytes. rewrite Z.abs_eq by done. apply be_be_bytes. pose proof (byte_len_nonneg x). rewrite Z2Nat.id by done. split; [done|]. by apply byte_len_le.
Qed.

Lemma SetBytes_len b : is_bytes b -> 0 <= SetBytes b /\ byte_len (SetBytes b) <= zlen b.
Proof. intros Hb. pose proof (be_range b Hb) as H. split; [apply H|]. apply byte_len_le; [apply H|apply zlen_nonneg|apply H]. Qed.

Lemma zlen_Bytes x : zlen (Bytes x) = byte_len x.
Proof. unfold Bytes. rewrite zlen_be. apply Z2Nat.id, byte_len_nonneg. Qed.

Lemma FillBytes_ok n x : 0 <= x -> byte_len x <= n -> exists b, FillBytes n x = Ok b /\ zlen b = n /\ SetBytes b = x /\ is_bytes b.
Proof.
  intros Hx Hn. pose proof (byte_len_nonneg x). unfold FillBytes. destruct (Z.ltb_spec n (byte_len x)); [lia|]. rewrite Z.abs_eq by done. eexists. split; [done|]. split; [rewrite zlen_be; lia|]. split; [|apply be_bytes_typed].
  apply be_be_bytes. rewrite Z2Nat.id by lia. split; [done|]. apply byte_len_le; lia.
Qed.

Lemma Exp_spec x y m : 0 < m -> Exp x y m = (x ^ y) mod m.
Proof. intros Hm. apply Zpow_mod_correct. lia. Qed.

(** ** Groups and the hashes *)

(** A generator prime to a modulus above one, both of which fit its length. *)
Record group_ok (gr : Group) : Prop := { go_N : 1 < N gr; go_G : 0 < G gr; go_len : glength gr = byte_len (N gr); go_fit : byte_len (G gr) <= glength gr; go_prime : Z.coprime (N gr) (G gr) }.

Lemma default_group_ok : group_ok DefaultGroup.
Proof. split; [done|done|done|vm_compute; discriminate|]. vm_compute. reflexivity. Qed.

Lemma group_valid gr : group_ok gr -> valid (Some gr) = true.
Proof. intros [Hn Hg _ _ _]. unfold valid. apply andb_true_iff. split; apply Z.ltb_lt; lia. Qed.

Section agreement.
Context (sha256 : bytes -> bytes) (sha_len : forall b, length (sha256 b) = 32%nat) (sha_bytes : forall b, is_bytes (sha256 b)).
Context (gr : Group) (gr_ok : group_ok gr).

Lemma residue_fits x : 0 <= x < N gr -> byte_len x <= glength gr.
Proof.
  intros Hx. destruct gr_ok as [Hn _ -> _ _]. apply byte_len_le; [lia|apply byte_len_nonneg|]. assert (N gr < 256 ^ byte_len (N gr)); [|lia]. apply byte_len_le; [lia|apply byte_len_nonneg|lia].
Qed.

Lemma Hash_typed parts : zlen (Hash sha256 parts) = hashLen /\ is_bytes (Hash sha256 parts).
Proof. unfold Hash, zlen, hashLen. by rewrite sha_len. Qed.

Lemma proof_len user salt a b key m1 : zlen (calcM1 sha256 gr user salt a b key) = hashLen /\ zlen (calcM2 sha256 a m1 key) = hashLen.
Proof. split; apply Hash_typed. Qed.

Lemma uValue_ok a b legacy : 0 <= a -> 0 <= b -> byte_len a <= glength gr -> byte_len b <= glength gr -> exists u, uValue sha256 gr a b legacy = Ok u /\ 0 <= u.
Proof.
  intros Ha Hb Fa Fb. unfold uValue, hashPadded, pad. destruct legacy; cbn [mbind res_bind]; [eexists; split; [done|]; apply be_range, sha_bytes|].
  destruct (FillBytes_ok (glength gr) a Ha Fa) as (pa & -> & _). destruct (FillBytes_ok (glength gr) b Hb Fb) as (pb & -> & _). eexists. split; [reflexivity|]. apply be_range, sha_bytes.
Qed.

Lemma kValue_ok legacy : exists k, kValue sha256 gr legacy = Ok k.
Proof.
  unfold kValue, hashPadded, pad. destruct legacy; [by eexists|]. destruct gr_ok as [Hn Hg Hl Hf _]. destruct (FillBytes_ok (glength gr) (N gr)) as (pa & -> & _); [lia|lia|]. destruct (FillBytes_ok (glength gr) (G gr)) as (pb & -> & _); [lia|lia|]. by eexists.
Qed.

Lemma calcX_nonneg salt user pw : 0 <= calcX sha256 salt user pw.
Proof. apply be_range, sha_bytes. Qed.

(** Powers of the generator are units. *)
Lemma pow_unit e : 0 <= e -> 0 < Exp (G gr) e (N gr) < N gr.
Proof.
  intros He. destruct gr_ok as [Hn Hg _ _ Hp]. rewrite Exp_spec by lia. pose proof (Z.mod_pos_bound (G gr ^ e) (N gr) ltac:(lia)). assert (H0 : (G gr ^ e) mod N gr <> 0); [|lia].
  intros E. apply Z.mod_divide in E; [|lia]. pose proof (Z.coprime_pow_r _ _ e He Hp) as Hr. unfold Z.coprime in Hr.
  assert (Hd : (N gr | 1)) by (rewrite <-Hr; apply Z.gcd_greatest; [apply Z.divide_refl|exact E]). apply Z.divide_1_r_nonneg in Hd; lia.
Qed.

(** Both sides' premaster secret. *)
Lemma premaster a b u x k : 0 <= a -> 0 <= b -> 0 <= u -> 0 <= x ->
  let v := Exp (G gr) x (N gr) in let pubA := Exp (G gr) a (N gr) in let pubB := (k * v + Exp (G gr) b (N gr)) mod N gr in
  Exp ((pubB - k * v) mod N gr) (a + u * x) (N gr) = Exp (pubA * Exp v u (N gr)) b (N gr).
Proof.
  intros Ha Hb Hu Hx. cbv zeta. destruct gr_ok as [Hn Hg _ _ _]. rewrite !Exp_spec by lia. set (n := N gr) in *. set (g := G gr) in *.
  assert (E1 : ((k * ((g ^ x) mod n) + (g ^ b) mod n) mod n - k * ((g ^ x) mod n)) mod n = (g ^ b) mod n).
  { rewrite Zminus_mod_idemp_l. replace (k * ((g ^ x) mod n) + (g ^ b) mod n - k * ((g ^ x) mod n)) with ((g ^ b) mod n) by lia. apply Z.mod_mod. lia. }
  rewrite E1, <-Zpower_mod, <-Z.pow_mul_r by nia. symmetry. rewrite (Zpower_mod (_ * _)) by lia. rewrite <-Zmult_mod, <-Zpower_mod by lia. rewrite (Zpower_mod (g ^ a * _)) by lia.
  assert (E2 : (g ^ a * ((g ^ x) mod n) ^ u) mod n = (g ^ (a + u * x)) mod n).
  { rewrite <-Z.mul_mod_idemp_r, <-Zpower_mod, Z.mul_mod_idemp_r by lia. rewrite <-Z.pow_mul_r, <-Z.pow_add_r by nia. f_equal. f_equal. lia. }
  rewrite E2, <-Zpower_mod, <-Z.pow_mul_r by nia. f_equal. f_equal. lia.
Qed.

(** ** One exchange *)

Context (username password salt : bytes) (salt_ok : validateSalt salt = None) (legacy : bool).

Definition secret : Z := calcX sha256 salt username password.
Definition verifier : Z := Exp (G gr) secret (N gr).

Lemma MakeVerifier_value : MakeVerifier sha256 (Some gr) username password salt = Bytes verifier.
Proof. unfold MakeVerifier. by rewrite (group_valid gr gr_ok), salt_ok. Qed.

(** A fresh client, and its public value on the wire. *)
Definition client (a : Z) : Client := mkClient gr salt a (Exp (G gr) a (N gr)) legacy false (replicate 32 0) (replicate 32 0).

Lemma newClient_value a draws : newClient (Some gr) salt legacy (Some a :: draws) = (Ok (client a), draws).
Proof. unfold newClient. by rewrite (group_valid gr gr_ok), salt_ok. Qed.

Lemma client_A a : 0 <= a -> exists bA, A (client a) = Ok bA /\ zlen bA = glength gr /\ SetBytes bA = Exp (G gr) a (N gr) /\ is_bytes bA.
Proof. intros Ha. pose proof (pow_unit a Ha). apply FillBytes_ok; cbn; [lia|]. apply residue_fits. lia. Qed.

Lemma glength_pos : 0 < glength gr.
Proof.
  destruct gr_ok as [Hn _ -> _ _]. pose proof (byte_len_nonneg (N gr)). destruct (Z.eq_dec (byte_len (N gr)) 0) as [E|]; [|lia]. assert (H1 : byte_len (N gr) <= 0) by lia. apply byte_len_le in H1; [|lia..]. change (256 ^ 0) with 1 in H1. lia.
Qed.

(** A server for the user. *)
Definition server_for (b : Z) (s : Server) : Prop :=
  s_group s = gr /\ s_salt s = salt /\ s_v s = verifier /\ s_b s = b /\ s_legacyPad s = legacy /\ s_pubB s <> 0 /\
  exists k, kValue sha256 gr legacy = Ok k /\ s_pubB s = (k * verifier + Exp (G gr) b (N gr)) mod N gr.

Lemma newServer_for b draws : exists r, newServer sha256 (Some gr) (MakeVerifier sha256 (Some gr) username password salt) salt legacy (Some b :: draws) = (r, draws) /\
  match r with Ok s => server_for b s /\ s_pubA s = None /\ verified s = false | Err e => e = ErrBadParameter /\ exists k, kValue sha256 gr legacy = Ok k /\ (k * verifier + Exp (G gr) b (N gr)) mod N gr = 0 | Panic => False end.
Proof.
  rewrite MakeVerifier_value. pose proof (pow_unit secret (calcX_nonneg salt username password)) as Hv. fold verifier in Hv. unfold newServer. rewrite (group_valid gr gr_ok), salt_ok. cbn [negb].
  assert (Hl : zlen (Bytes verifier) <> 0). { intros E. assert (SetBytes (Bytes verifier) = 0) by (destruct (Bytes verifier); [done|rewrite zlen_cons in E; pose proof (zlen_nonneg l); lia]). rewrite SetBytes_Bytes in *; lia. }
  destruct (Z.eqb_spec (zlen (Bytes verifier)) 0); [done|]. rewrite SetBytes_Bytes by lia. rewrite (Z.mod_small verifier) by lia. destruct (Z.eqb_spec verifier 0); [lia|]. cbn [readSecret]. unfold computeB.
  destruct (kValue_ok legacy) as (k & Hk). rewrite Hk. cbn [mbind res_bind]. destruct (Z.eqb_spec ((k * verifier + Exp (G gr) b (N gr)) mod N gr) 0); eexists; (split; [reflexivity|]); [split; [done|]; by exists k|]. split; [|done]. split_and!; try done. by exists k.
Qed.

Lemma server_B b s : server_for b s -> exists bB, B s = Ok bB /\ zlen bB = glength gr /\ SetBytes bB = s_pubB s /\ is_bytes bB.
Proof.
  intros (Hg & _ & _ & _ & _ & _ & k & _ & Hb). unfold B. rewrite Hg. destruct gr_ok as [Hn _ _ _ _]. pose proof (Z.mod_pos_bound (k * verifier + Exp (G gr) b (N gr)) (N gr) ltac:(lia)). apply FillBytes_ok; [lia|]. apply residue_fits. lia.
Qed.

(** What both ends make of the exchange. *)
Definition agreed (c : Client) (s : Server) : Prop :=
  computed c = true /\ verified s = true /\ client_SessionKey c = server_SessionKey s /\ zlen (server_SessionKey s) = hashLen /\ VerifyM2 sha256 c (M2 s) = true.

Lemma exchange a b s bA bB : 0 <= a -> 0 <= b -> server_for b s -> A (client a) = Ok bA -> B s = Ok bB ->
  exists s1 r c1, HandleA bA s = (Ok tt, s1) /\ ComputeKey sha256 bB username password (client a) = (r, c1) /\
  match r with
  | Ok _ => exists s2, VerifyM1 sha256 username (M1 c1) s1 = (Ok true, s2) /\ agreed c1 s2
  | Err e => e = ErrBadParameter /\ exists u, uValue sha256 gr (Exp (G gr) a (N gr)) (s_pubB s) legacy = Ok u /\ u mod N gr = 0
  | Panic => False
  end.
Proof.
  intros Ha Hb Hs EA EB. destruct (client_A a Ha) as (bA' & EA' & HlA & HvA & _). rewrite EA in EA'. injection EA' as <-. destruct (server_B b s Hs) as (bB' & EB' & HlB & HvB & _). rewrite EB in EB'. injection EB' as <-.
  destruct Hs as (Hg & Hsalt & Hv & Hsb & Hleg & Hnz & k & Hk & HpB). pose proof gr_ok as [Hn _ _ _ _]. pose proof (pow_unit a Ha) as HA. pose proof glength_pos as HL.
  assert (HBr : 0 <= s_pubB s < N gr) by (rewrite HpB; apply Z.mod_pos_bound; lia).
  unfold HandleA. rewrite Hg, HlA, HvA. destruct (Z.eqb_spec (glength gr) 0); [lia|]. destruct (Z.ltb_spec (glength gr) (glength gr)); [lia|]. cbn [orb]. rewrite (Z.mod_small (Exp (G gr) a (N gr))) by lia. destruct (Z.eqb_spec (Exp (G gr) a (N gr)) 0); [lia|].
  unfold ComputeKey. cbn [c_group client c_pubA c_legacyPad c_salt c_a]. rewrite HlB, HvB. destruct (Z.eqb_spec (glength gr) 0); [lia|]. destruct (Z.ltb_spec (glength gr) (glength gr)); [lia|]. cbn [orb]. rewrite (Z.mod_small (s_pubB s)) by lia. destruct (Z.eqb_spec (s_pubB s) 0); [lia|].
  destruct (uValue_ok (Exp (G gr) a (N gr)) (s_pubB s) legacy) as (u & Hu & Hu0); [lia|lia|apply residue_fits; lia|apply residue_fits; lia|]. rewrite Hu, Hk.
  destruct (Z.eqb_spec (u mod N gr) 0) as [E|E]; (eexists _, _, _; split; [reflexivity|]; split; [reflexivity|]); [split; [done|]; by exists u|].
  unfold VerifyM1. cbn [s_group s_pubA s_pubB s_legacyPad s_v s_b s_salt M1 computed c_m1]. rewrite (proj1 (proof_len _ _ _ _ _ [])). change (hashLen =? hashLen) with true. cbn [negb]. rewrite Hleg, Hu. destruct (Z.eqb_spec (u mod N gr) 0); [done|].
  pose proof (premaster a b u secret k Ha Hb Hu0 (calcX_nonneg salt username password)) as HP. cbv zeta in HP. fold verifier in HP. rewrite <-HpB in HP.
  assert (HS : Exp (Exp (G gr) a (N gr) * Exp (s_v s) u (N gr)) (s_b s) (N gr) = Exp ((s_pubB s - k * verifier) mod N gr) (a + u * secret) (N gr)) by (rewrite Hv, Hsb; exact (eq_sym HP)).
  rewrite HS, Hsalt. fold secret. fold verifier. rewrite bool_decide_eq_true_2 by done. cbn [negb]. eexists. split; [reflexivity|]. unfold agreed, client_SessionKey, server_SessionKey, VerifyM2, M2. cbn [computed verified c_key s_key c_m1 s_m2 c_pubA negb orb].
  rewrite (proj2 (proof_len [] [] _ 0 _ _)). change (hashLen =? hashLen) with true. cbn [negb]. rewrite bool_decide_eq_true_2 by done. split_and!; try done. apply Hash_typed.
Qed.

(** ** Arbitrary public values *)

Lemma ComputeKey_total serverB user pw c : is_bytes serverB -> c_group c = gr -> 0 <= c_pubA c < N gr ->
  let '(r, c') := ComputeKey sha256 serverB user pw c in
  match r with Ok _ => 0 < zlen serverB <= glength gr /\ SetBytes serverB mod N gr <> 0 /\ computed c' = true | Err e => e = ErrBadParameter /\ c' = c | Panic => False end /\ c_group c' = gr /\ c_pubA c' = c_pubA c.
Proof.
  intros Hb Hg HA. unfold ComputeKey. rewrite Hg. pose proof (zlen_nonneg serverB). destruct (SetBytes_len serverB Hb) as [H0 Hl]. destruct (Z.eqb_spec (zlen serverB) 0); [by split|]. destruct (Z.ltb_spec (glength gr) (zlen serverB)); [by split|]. cbn [orb].
  destruct (Z.eqb_spec (SetBytes serverB mod N gr) 0); [by split|]. destruct (uValue_ok (c_pubA c) (SetBytes serverB) (c_legacyPad c)) as (u & -> & _); [lia|lia|apply residue_fits; lia|lia|].
  destruct (u mod N gr =? 0); [by split|]. destruct (kValue_ok (c_legacyPad c)) as (k & ->). split; [|done]. split; [lia|done].
Qed.

Lemma HandleA_total clientA s : is_bytes clientA -> s_group s = gr ->
  let '(r, s') := HandleA clientA s in
  match r with Ok _ => exists x, s_pubA s' = Some x /\ 0 <= x /\ byte_len x <= glength gr /\ x mod N gr <> 0 | Err e => e = ErrBadParameter /\ s' = s | Panic => False end /\ s_group s' = gr /\ s_pubB s' = s_pubB s.
Proof.
  intros Hb Hg. unfold HandleA. rewrite Hg. destruct (SetBytes_len clientA Hb) as [H0 Hl]. destruct (Z.eqb_spec (zlen clientA) 0); [by split|]. destruct (Z.ltb_spec (glength gr) (zlen clientA)); [by split|]. cbn [orb].
  destruct (Z.eqb_spec (SetBytes clientA mod N gr) 0); [by split|]. split; [|done]. exists (SetBytes clientA). split_and!; [done|done|lia|done].
Qed.

Lemma VerifyM1_total user m1 s : s_group s = gr -> 0 <= s_pubB s < N gr -> (forall x, s_pubA s = Some x -> 0 <= x /\ byte_len x <= glength gr) ->
  exists ok s', VerifyM1 sha256 user m1 s = (Ok ok, s') /\ s_group s' = gr /\ s_pubB s' = s_pubB s /\ s_pubA s' = s_pubA s /\ verified s' = ok || verified s.
Proof.
  intros Hg HB HA. unfold VerifyM1. rewrite Hg. destruct (s_pubA s) as [x|] eqn:Ex; [|exists false, s; by rewrite Ex]. destruct (negb _); [exists false, s; by rewrite Ex|]. destruct (HA x eq_refl) as [Hx Hl].
  destruct (uValue_ok x (s_pubB s) (s_legacyPad s)) as (u & -> & _); [lia|lia|lia|apply residue_fits; lia|]. destruct (u mod N gr =? 0); [exists false, s; by rewrite Ex|]. cbv zeta. destruct (negb (bool_decide _)); (eexists _, _; split; [reflexivity|]); done.
Qed.

Lemma newServer_total ver salt' leg draws : match newServer sha256 (Some gr) ver salt' leg draws with (Ok s, _) => s_group s = gr /\ 0 <= s_pubB s < N gr /\ s_pubA s = None /\ verified s = false | (Err _, _) => True | (Panic, _) => False end.
Proof.
  unfold newServer. rewrite (group_valid gr gr_ok). cbn [negb]. destruct (validateSalt salt'); [done|]. destruct (zlen ver =? 0); [done|]. destruct (_ mod _ =? 0); [done|]. destruct draws as [|[b|] draws]; cbn [readSecret mbind res_bind]; try done.
  unfold computeB. destruct (kValue_ok leg) as (k & ->). cbn [mbind res_bind]. destruct (_ mod _ =? 0); [done|]. cbn. pose proof gr_ok as [Hn _ _ _ _]. split; [done|]. split; [|done]. apply Z.mod_pos_bound. lia.
Qed.

Lemma newClient_total salt' leg draws : match newClient (Some gr) salt' leg draws with (Ok c, _) => c_group c = gr /\ 0 <= c_pubA c < N gr /\ computed c = false | (Err _, _) => True | (Panic, _) => False end.
Proof.
  unfold newClient. rewrite (group_valid gr gr_ok). cbn [negb]. destruct (validateSalt salt'); [done|]. destruct draws as [|[a|] draws]; cbn [readSecret mbind res_bind]; try done. cbn. pose proof gr_ok as [Hn _ _ _ _]. split; [done|]. split; [|done].
  rewrite Exp_spec by lia. apply Z.mod_pos_bound. lia.
Qed.

Lemma pad_total x : 0 <= x < N gr -> exists b, pad gr x = Ok b /\ zlen b = glength gr.
Proof. intros Hx. destruct (FillBytes_ok (glength gr) x) as (b & Hb & Hl & _); [lia|by apply residue_fits|]. by exists b. Qed.

(** The key of a verified exchange. *)
Lemma VerifyM1_key user m1 s s' : VerifyM1 sha256 user m1 s = (Ok true, s') -> verified s' = true /\ zlen (server_SessionKey s') = hashLen /\ zlen m1 = hashLen.
Proof.
  unfold VerifyM1. destruct (s_pubA s) as [x|]; [|done]. destruct (Z.eqb_spec (zlen m1) hashLen); [|done]. cbn [negb]. destruct (uValue _ _ _ _ _) as [u|e0|]; [|done..]. destruct (u mod _ =? 0); [done|]. cbv zeta. destruct (negb _); [done|]. intros [= <-]. split; [done|]. split; [apply Hash_typed|done].
Qed.
End agreement.

(** ** Properties *)

(** SRP agreement: a client that knows the password and a server that holds the verifier made from it, with whatever secrets, in either hashing mode and
    in any group whose generator is prime to its modulus, end with the same 32-byte session key, and each accepts the other's proof.  The
    exchange stops, with the parameter error, only where RFC 5054 has it stop: a scrambling value or a server public value of zero modulo N. *)
Theorem srp_agreement sha256 gr username password salt legacy a b da db :
  (forall x, length (sha256 x) = 32%nat) -> (forall x, is_bytes (sha256 x)) -> group_ok gr -> validateSalt salt = None -> 0 <= a -> 0 <= b ->
  exists c bA, newClient (Some gr) salt legacy (Some a :: da) = (Ok c, da) /\ A c = Ok bA /\
  match newServer sha256 (Some gr) (MakeVerifier sha256 (Some gr) username password salt) salt legacy (Some b :: db) with
  | (Ok s, _) => exists bB s1, B s = Ok bB /\ HandleA bA s = (Ok tt, s1) /\
      match ComputeKey sha256 bB username password c with
      | (Ok _, c1) => exists s2, VerifyM1 sha256 username (M1 c1) s1 = (Ok true, s2) /\ agreed sha256 c1 s2
      | (Err e, _) => e = ErrBadParameter /\ exists u, uValue sha256 gr (c_pubA c) (s_pubB s) legacy = Ok u /\ u mod N gr = 0
      | (Panic, _) => False
      end
  | (Err e, _) => e = ErrBadParameter /\ exists k, kValue sha256 gr legacy = Ok k /\ (k * verifier sha256 gr username password salt + Exp (G gr) b (N gr)) mod N gr = 0
  | (Panic, _) => False
  end.
Proof.
  intros Hlen Hby Hgr Hsalt Ha Hb. destruct (client_A gr Hgr salt legacy a Ha) as (bA & EA & _). exists (client gr salt legacy a), bA. split; [by apply newClient_value|]. split; [done|].
  destruct (newServer_for sha256 Hby gr Hgr username password salt Hsalt legacy b db) as (r & -> & Hr). destruct r as [s|e|]; [|exact Hr|done]. destruct Hr as (Hs & _ & _).
  destruct (server_B sha256 gr Hgr username password salt legacy b s Hs) as (bB & EB & _). destruct (exchange sha256 Hlen Hby gr Hgr username password salt legacy a b s bA bB Ha Hb Hs EA EB) as (s1 & r & c1 & H1 & H2 & H3).
  exists bB, s1. split; [done|]. split; [done|]. rewrite H2. by destruct r.
Qed.

(** Whatever bytes a peer sends as its public value or its proof, neither side panics: a value that is empty, longer than the modulus or zero modulo N is
    refused with the parameter error and leaves the state as it was, and the server reports a session key and a proof only after it verified one. *)
Theorem srp_public_values_safe sha256 gr c s x user pw m1 : (forall b, length (sha256 b) = 32%nat) -> (forall b, is_bytes (sha256 b)) -> group_ok gr -> is_bytes x ->
  c_group c = gr -> 0 <= c_pubA c < N gr -> s_group s = gr -> 0 <= s_pubB s < N gr ->
  match ComputeKey sha256 x user pw c with (Ok _, _) => 0 < zlen x <= glength gr /\ SetBytes x mod N gr <> 0 | (Err e, c') => e = ErrBadParameter /\ c' = c | (Panic, _) => False end /\
  match HandleA x s with
  | (Ok _, s1) => SetBytes x mod N gr <> 0 /\ exists ok s2, VerifyM1 sha256 user m1 s1 = (Ok ok, s2) /\ (verified s = false -> ok = false -> M2 s2 = [] /\ server_SessionKey s2 = [])
  | (Err e, s') => e = ErrBadParameter /\ s' = s
  | (Panic, _) => False
  end.
Proof.
  intros Hlen Hby Hgr Hx Hc Hp Hs HB. split.
  - pose proof (ComputeKey_total sha256 Hby gr Hgr x user pw c Hx Hc Hp) as H. destruct (ComputeKey sha256 x user pw c) as [[[]|e|] c']; [|by destruct H..]. destruct H as ((H1 & H2 & _) & _). done.
  - pose proof (HandleA_total gr x s Hx Hs) as H. destruct (HandleA x s) as [[[]|e|] s1] eqn:E; [|by destruct H..]. destruct H as ((y & Hy & Hy0 & Hyl & Hym) & Hg1 & Hb1). split.
    { unfold HandleA in E. rewrite Hs in E. destruct (_ || _); [done|]. by destruct (Z.eqb_spec (SetBytes x mod N gr) 0). }
    destruct (VerifyM1_total sha256 Hby gr Hgr user m1 s1 Hg1) as (ok & s2 & H1 & _ & _ & _ & H2); [lia|intros z Hz; rewrite Hy in Hz; by injection Hz as <-|]. exists ok, s2. split; [done|]. intros Hv ->.
    assert (Hv1 : verified s1 = false). { unfold HandleA in E. destruct (_ || _); [done|]. destruct (_ =? 0); [done|]. by injection E as <-. }
    rewrite Hv1 in H2. unfold M2, server_SessionKey. by rewrite H2.
Qed.

(** A toy hash and a small group to run the protocol in. *)
Definition demo_sha (b : bytes) : bytes := (fun i => u8 (be b * (2 * i + 3) + i * i + zlen b)) <$> seqZ 0 32.
Definition demo_group : Group := newGroup 1000003 5.
Definition demo_salt : bytes := [0; 7; 9].

Lemma demo_sha_len b : length (demo_sha b) = 32%nat.
Proof. unfold demo_sha. by rewrite length_fmap, length_seqZ. Qed.

Lemma demo_sha_bytes b : is_bytes (demo_sha b).
Proof. apply Forall_fmap, Forall_forall. intros i _. by apply Z.mod_pos_bound. Qed.

Lemma demo_group_ok : group_ok demo_group.
Proof. split; [done|done|done|vm_compute; discriminate|vm_compute; reflexivity]. Qed.

Lemma srp_agreement_witness :
  exists c bA, newClient (Some demo_group) demo_salt false [Some 777] = (Ok c, []) /\ A c = Ok bA /\
  match newServer demo_sha (Some demo_group) (MakeVerifier demo_sha (Some demo_group) [98; 111; 98] [112; 119] demo_salt) demo_salt false [Some 999] with
  | (Ok s, _) => exists bB s1, B s = Ok bB /\ HandleA bA s = (Ok tt, s1) /\
      match ComputeKey demo_sha bB [98; 111; 98] [112; 119] c with (Ok _, c1) => exists s2, VerifyM1 demo_sha [98; 111; 98] (M1 c1) s1 = (Ok true, s2) /\ agreed demo_sha c1 s2 | _ => False end
  | _ => False
  end.
Proof.
  destruct (srp_agreement demo_sha demo_group [98; 111; 98] [112; 119] demo_salt false 777 999 [] [] demo_sha_len demo_sha_bytes demo_group_ok) as (c & bA & H1 & H2 & H3); [reflexivity|done|done|].
  assert (Ec : c = client demo_group demo_salt false 777) by (rewrite (newClient_value demo_group demo_group_ok demo_salt eq_refl false 777 []) in H1; congruence). exists c, bA. split; [exact H1|]. split; [exact H2|]. revert H3. clear H1 H2. rewrite Ec.
  set (ns := newServer demo_sha (Some demo_group) _ demo_salt false [Some 999]). assert (Hns : match ns with (Ok s, _) => match B s with Ok bB => match ComputeKey demo_sha bB [98; 111; 98] [112; 119] (client demo_group demo_salt false 777) with (Ok _, _) => true | _ => false end | _ => false end | _ => false end = true) by (vm_compute; reflexivity).
  destruct ns as [[s|e|] ds]; [|discriminate Hns..]. intros (bB & s1 & EB & HA & HC). exists bB, s1. split; [exact EB|]. split; [exact HA|]. rewrite EB in Hns. by destruct (ComputeKey demo_sha bB [98; 111; 98] [112; 119] (client demo_group demo_salt false 777)) as [[]].
Defined.

Lemma srp_public_values_safe_witness : match ComputeKey demo_sha (be_bytes 3 1000003) [98] [112] (client demo_group demo_salt false 777) with (Ok _, _) => 0 < 3 <= 3 | (Err e, c') => e = ErrBadParameter /\ c' = client demo_group demo_salt false 777 | (Panic, _) => False end.
Proof.
  destruct (srp_public_values_safe demo_sha demo_group (client demo_group demo_salt false 777) (mkServer demo_group demo_salt 7 9 11 None false false [] []) (be_bytes 3 1000003) [98] [112] []) as [H _];
    [exact demo_sha_len|exact demo_sha_bytes|exact demo_group_ok|apply be_bytes_typed|done|vm_compute; split; [discriminate|reflexivity]|done|done|]. by destruct (ComputeKey demo_sha _ _ _ _) as [[]].
Defined.
End srp.
