(* ===== verification/Eap.v ===== *)
(** * EAP-SRP frames (src/internal/eap/eap.go)

    EAPOL frames that carry the EAP-SRP messages: encoding, parsing, and the classification of a message by its code and subtype. *)

From S2P Require Import Prelude Bytes Srp.

Module eap.

Inductive err := ErrShortBuffer | ErrBadLength | ErrUnsupportedType | ErrUnexpected | ErrNoVerifier | ErrSRP (e : srp.err) | ErrAuthFailed | ErrEmptyCredentials | ErrCredentialsTooLong | ErrNilLookup | ErrUnsupportedGroup | ErrCipher.

Definition eapolTypeEAP : Z := 0.
Definition eapolTypeStart : Z := 1.
Definition eapolTypeLogoff : Z := 2.
Definition eapCodeRequest : Z := 1.
Definition eapCodeResponse : Z := 2.
Definition eapCodeSuccess : Z := 3.
Definition eapCodeFailure : Z := 4.
Definition eapTypeIdentity : Z := 1.
Definition eapTypeSRPSHA1 : Z := 19.
Definition srpSubtypeChallenge : Z := 1.
Definition srpSubtypeServerKey : Z := 2.
Definition srpSubtypeServerVal : Z := 3.
Definition srpSubtypePassword : Z := 0x10.
Definition eapVersion3 : Z := 3.
Definition eapVersion2 : Z := 2.
Definition eapolHdrSize : Z := 4.
Definition eapHdrSize : Z := 4.
Definition srpHdrSize : Z := 2.
Definition hdrsOffset : Z := eapolHdrSize + eapHdrSize.
Definition proofLen : Z := 32.
Definition sessionKeyLen : Z := 32.
Definition validatorFlagsLen : Z := 4.
Definition setPassphraseByte : Z := 3.
Definition setPassphraseBit : Z := 0.
Definition pwUseSessionKeyBit : Z := 7.
Definition pwExplicitBit : Z := 6.

Inductive Kind :=
  | KindUnknown | KindStart | KindLogoff | KindIdentityRequest | KindIdentityResponse | KindChallenge | KindClientKey | KindServerKey
  | KindClientValidator | KindServerValidator | KindSuccess | KindFailure | KindPasswordRequest | KindPasswordResponse.
#[export] Instance Kind_eq_dec : EqDecision Kind.
Proof. solve_decision. Defined.

(** The nil slices are empty ones: the code only asks for their length. *)
Record Frame := mkFrame {
  Version : Z; Code : Z; Identifier : Z; kind : Kind; Username : bytes; Salt : bytes; GenG : bytes; GenN : bytes; Public : bytes; Proof_ : bytes;
  Flags : bytes; PwFlags : Z; PwPayload : bytes }.
#[export] Instance eta_Frame : Eta Frame := fun f =>
  mkFrame (Version f) (Code f) (Identifier f) (kind f) (Username f) (Salt f) (GenG f) (GenN f) (Public f) (Proof_ f) (Flags f) (PwFlags f) (PwPayload f).

Definition frame0 : Frame := mkFrame 0 0 0 KindUnknown [] [] [] [] [] [] (replicate 4 0) 0 [].

Definition bit_set (x i : Z) : bool := negb (Z.land x (Z.shiftl 1 i) =? 0).
Definition SetPassphrase (f : Frame) : bool := bit_set (default 0 (Flags f !! 3%nat)) setPassphraseBit.
Definition setSetPassphrase (v : bool) (f : Frame) : Frame :=
  let b := default 0 (Flags f !! 3%nat) in
  f <| Flags := <[3%nat := if v then Z.lor b (Z.shiftl 1 setPassphraseBit) else Z.ldiff b (Z.shiftl 1 setPassphraseBit)]> (Flags f) |>.
Definition PwUseSessionKey (f : Frame) : bool := bit_set (PwFlags f) pwUseSessionKeyBit.
Definition PwHasExplicit (f : Frame) : bool := bit_set (PwFlags f) pwExplicitBit.

Definition startFrame : Frame := frame0 <| Version := eapVersion3 |> <| kind := KindStart |>.

(** ** Encoding *)

Definition appendU16 (b : bytes) (v : Z) : bytes := b ++ be_bytes 2 v.

Definition encodeBody (f : Frame) : bytes :=
  match kind f with
  | KindIdentityRequest => [eapTypeIdentity]
  | KindIdentityResponse => [eapTypeIdentity] ++ Username f
  | KindChallenge =>
      let out := [eapTypeSRPSHA1; srpSubtypeChallenge] in
      let out := appendU16 out 0 in
      let out := appendU16 out (u16 (zlen (Salt f))) in
      let out := out ++ Salt f in
      if zlen (GenG f) =? 0 then appendU16 out 0 else (appendU16 out (u16 (zlen (GenG f))) ++ GenG f) ++ GenN f
  | KindClientKey => [eapTypeSRPSHA1; srpSubtypeChallenge] ++ Public f
  | KindServerKey => [eapTypeSRPSHA1; srpSubtypeServerKey] ++ Public f
  | KindClientValidator => ([eapTypeSRPSHA1; srpSubtypeServerKey] ++ Flags f) ++ Proof_ f
  | KindServerValidator => ([eapTypeSRPSHA1; srpSubtypeServerVal] ++ Flags f) ++ Proof_ f
  | KindSuccess => [0; 0]
  | KindFailure => []
  | KindPasswordRequest => [eapTypeSRPSHA1; srpSubtypePassword]
  | KindPasswordResponse => [eapTypeSRPSHA1; srpSubtypePassword; PwFlags f] ++ PwPayload f
  | _ => []
  end.

Definition AppendTo (f : Frame) (buf : bytes) : bytes :=
  let version := if Version f =? 0 then eapVersion3 else Version f in
  match kind f with
  | KindStart => buf ++ [version; eapolTypeStart; 0; 0]
  | KindLogoff => buf ++ [version; eapolTypeLogoff; 0; 0]
  | _ =>
      let body := encodeBody f in
      let eapLen := eapHdrSize + zlen body in
      let buf := buf ++ [version; eapolTypeEAP] in
      let buf := appendU16 buf (u16 eapLen) in
      let buf := buf ++ [Code f; Identifier f] in
      let buf := appendU16 buf (u16 eapLen) in
      buf ++ body
  end.

Definition MarshalSize (f : Frame) : Z :=
  match kind f with KindStart | KindLogoff => eapolHdrSize | _ => hdrsOffset + zlen (encodeBody f) end.

(** ** Parsing *)

(** The value at [off] and the offset behind it. *)
Definition readU16 (b : bytes) (off : Z) : res err (Z * Z) :=
  if zlen b <? off + 2 then Err ErrShortBuffer else v ← (t ← slc b off (off + 2); Uint16 t); Ok (v, off + 2).

Definition parseChallenge (f : Frame) (p : bytes) : res err Frame :=
  '(nameLen, off) ← readU16 p 0;
  if zlen p - off <? nameLen then Err ErrBadLength else
  let off := off + nameLen in
  '(saltLen, off) ← readU16 p off;
  if zlen p - off <? saltLen then Err ErrBadLength else
  salt ← slc p off (off + saltLen);
  let off := off + saltLen in
  '(genLen, off) ← readU16 p off;
  let f := f <| kind := KindChallenge |> <| Salt := salt |> in
  if negb (genLen =? 0) then
    if zlen p - off <? genLen then Err ErrBadLength else
    g ← slc p off (off + genLen);
    let off := off + genLen in
    n ← slc_from p off;
    Ok (f <| GenG := g |> <| GenN := n |>)
  else Ok f.

Definition parseValidator (f : Frame) (k : Kind) (p : bytes) : res err Frame :=
  if zlen p <? validatorFlagsLen + proofLen then Err ErrShortBuffer else
  flags ← slc p 0 validatorFlagsLen;
  proof ← slc p validatorFlagsLen (validatorFlagsLen + proofLen);
  Ok (f <| kind := k |> <| Flags := flags |> <| Proof_ := proof |>).

Definition parseSRP (f : Frame) (code subtype : Z) (payload : bytes) : res err Frame :=
  if (subtype =? srpSubtypeChallenge) && (code =? eapCodeRequest) then parseChallenge f payload
  else if (subtype =? srpSubtypeChallenge) && (code =? eapCodeResponse) then Ok (f <| kind := KindClientKey |> <| Public := payload |>)
  else if (subtype =? srpSubtypeServerKey) && (code =? eapCodeRequest) then Ok (f <| kind := KindServerKey |> <| Public := payload |>)
  else if (subtype =? srpSubtypeServerKey) && (code =? eapCodeResponse) then parseValidator f KindClientValidator payload
  else if subtype =? srpSubtypeServerVal then
    if (code =? eapCodeResponse) && (zlen payload <? validatorFlagsLen + proofLen) then Ok (f <| kind := KindServerValidator |>)
    else parseValidator f KindServerValidator payload
  else if (subtype =? srpSubtypePassword) && (code =? eapCodeRequest) then Ok (f <| kind := KindPasswordRequest |>)
  else if (subtype =? srpSubtypePassword) && (code =? eapCodeResponse) then
    if zlen payload <? 1 then Err ErrShortBuffer else
    x ← idx payload 0; rest ← slc_from payload 1;
    Ok (f <| kind := KindPasswordResponse |> <| PwFlags := x |> <| PwPayload := rest |>)
  else Err ErrUnsupportedType.

Definition parseMethod (f : Frame) (code : Z) (body : bytes) : res err Frame :=
  if zlen body <? 1 then Err ErrShortBuffer else
  mType ← idx body 0;
  if mType =? eapTypeIdentity then
    if code =? eapCodeRequest then Ok (f <| kind := KindIdentityRequest |>)
    else user ← slc_from body 1; Ok (f <| kind := KindIdentityResponse |> <| Username := user |>)
  else if mType =? eapTypeSRPSHA1 then
    if zlen body <? srpHdrSize then Err ErrShortBuffer else
    subtype ← idx body 1; payload ← slc_from body srpHdrSize;
    parseSRP f code subtype payload
  else Err ErrUnsupportedType.

Definition parseEAP (version : Z) (eapPkt : bytes) : res err Frame :=
  if zlen eapPkt <? eapHdrSize then Err ErrShortBuffer else
  code ← idx eapPkt 0;
  identifier ← idx eapPkt 1;
  length ← (t ← slc eapPkt 2 4; Uint16 t);
  if negb (length =? zlen eapPkt) then Err ErrBadLength else
  body ← slc_from eapPkt eapHdrSize;
  let f := frame0 <| Version := version |> <| Code := code |> <| Identifier := identifier |> in
  if (code =? eapCodeRequest) || (code =? eapCodeResponse) then parseMethod f code body
  else if code =? eapCodeSuccess then Ok (f <| kind := KindSuccess |>)
  else if code =? eapCodeFailure then Ok (f <| kind := KindFailure |>)
  else Err ErrUnsupportedType.

Definition Parse (b : bytes) : res err Frame :=
  if zlen b <? eapolHdrSize then Err ErrShortBuffer else
  version ← idx b 0;
  eapolType ← idx b 1;
  bodyLen ← (t ← slc b 2 4; Uint16 t);
  if zlen b <? bodyLen + eapolHdrSize then Err ErrBadLength else
  if eapolType =? eapolTypeStart then Ok (frame0 <| Version := version |> <| kind := KindStart |>)
  else if eapolType =? eapolTypeLogoff then Ok (frame0 <| Version := version |> <| kind := KindLogoff |>)
  else if eapolType =? eapolTypeEAP then pkt ← slc b eapolHdrSize (eapolHdrSize + bodyLen); parseEAP version pkt
  else Err ErrUnsupportedType.

(** ** Verifiers and groups *)

Definition VerifierLookup : Type := bytes -> option (bytes * bytes).
Definition staticVerifier (user verifier salt : bytes) : VerifierLookup := fun u => if bool_decide (u = user) then Some (verifier, salt) else None.
Definition StaticVerifier (user verifier salt : bytes) : VerifierLookup := staticVerifier user verifier salt.

Definition challengeGroup (f : Frame) : res err srp.Group := if zlen (GenG f) =? 0 then Ok srp.DefaultGroup else Err ErrUnsupportedGroup.

(** ** Round trip *)

(** The fields a message of each kind carries, within the 16-bit lengths; the others are zero. *)
Definition header_of (f : Frame) : Frame := frame0 <| Version := Version f |> <| Code := Code f |> <| Identifier := Identifier f |> <| kind := kind f |>.

Record frame_ok (f : Frame) : Prop := {
  fo_version : Version f <> 0;
  fo_body : eapHdrSize + zlen (encodeBody f) < 65536;
  fo_fields :
    match kind f with
    | KindUnknown => False
    | KindStart | KindLogoff => Code f = 0 /\ Identifier f = 0 /\ f = header_of f
    | KindIdentityRequest | KindPasswordRequest => Code f = eapCodeRequest /\ f = header_of f
    | KindIdentityResponse => Code f = eapCodeResponse /\ f = header_of f <| Username := Username f |>
    | KindChallenge => Code f = eapCodeRequest /\ (GenG f = [] -> GenN f = []) /\ f = header_of f <| Salt := Salt f |> <| GenG := GenG f |> <| GenN := GenN f |>
    | KindClientKey => Code f = eapCodeResponse /\ f = header_of f <| Public := Public f |>
    | KindServerKey => Code f = eapCodeRequest /\ f = header_of f <| Public := Public f |>
    | KindClientValidator => Code f = eapCodeResponse /\ zlen (Flags f) = 4 /\ zlen (Proof_ f) = 32 /\ f = header_of f <| Flags := Flags f |> <| Proof_ := Proof_ f |>
    | KindServerValidator => Code f = eapCodeRequest /\ zlen (Flags f) = 4 /\ zlen (Proof_ f) = 32 /\ f = header_of f <| Flags := Flags f |> <| Proof_ := Proof_ f |>
    | KindSuccess => Code f = eapCodeSuccess /\ f = header_of f
    | KindFailure => Code f = eapCodeFailure /\ f = header_of f
    | KindPasswordResponse => Code f = eapCodeResponse /\ f = header_of f <| PwFlags := PwFlags f |> <| PwPayload := PwPayload f |>
    end }.

Lemma be16_len n : 0 <= n < 65536 -> be (be_bytes 2 (u16 n)) = n.
Proof. intros Hn. assert (E : u16 n = n) by (unfold u16, uwrap; by apply Z.mod_small). rewrite E. apply be_u16. unfold in_u16. lia. Qed.

(** The EAP header in front of a body. *)
Lemma parseEAP_enc version code id body : eapHdrSize + zlen body < 65536 ->
  parseEAP version ([code] ++ [id] ++ be_bytes 2 (u16 (eapHdrSize + zlen body)) ++ body) =
  let f := frame0 <| Version := version |> <| Code := code |> <| Identifier := id |> in
  if (code =? eapCodeRequest) || (code =? eapCodeResponse) then parseMethod f code body
  else if code =? eapCodeSuccess then Ok (f <| kind := KindSuccess |>) else if code =? eapCodeFailure then Ok (f <| kind := KindFailure |>) else Err ErrUnsupportedType.
Proof.
  intros Hl. unfold eapHdrSize in *. pose proof (zlen_nonneg body). set (n := u16 (4 + zlen body)). set (b := [code] ++ [id] ++ be_bytes 2 n ++ body). assert (Hb : zlen b = 4 + zlen body) by (unfold b; zlens; lia).
  unfold parseEAP, eapHdrSize. rewrite Hb. destruct (Z.ltb_spec (4 + zlen body) 4); [lia|]. rewrite (at_idx b 0 code) by (unfold b; at_solve). rewrite (at_idx b 1 id) by (unfold b; at_solve). cbn [mbind res_bind].
  assert (HU : (t ← slc b 2 4; Uint16 t) = Ok (E := err) (4 + zlen body)).
  { rewrite (at_slc b 2 (be_bytes 2 n) 4) by (unfold b; at_solve || zlens; done). cbn [mbind res_bind]. rewrite Uint16_all by (by rewrite zlen_be). f_equal. apply be16_len. lia. }
  rewrite HU. cbn [mbind res_bind]. rewrite Z.eqb_refl. cbn [negb]. assert (HB : slc_from (E := err) b 4 = Ok body) by (apply (slc_from_app ([code] ++ [id] ++ be_bytes 2 n) body); zlens; lia). by rewrite HB.
Qed.

Lemma eap_Parse_enc version code id body : eapHdrSize + zlen body < 65536 ->
  Parse ([version; eapolTypeEAP] ++ be_bytes 2 (u16 (eapHdrSize + zlen body)) ++ [code; id] ++ be_bytes 2 (u16 (eapHdrSize + zlen body)) ++ body) =
  parseEAP version ([code] ++ [id] ++ be_bytes 2 (u16 (eapHdrSize + zlen body)) ++ body).
Proof.
  intros Hl. unfold eapHdrSize in *. pose proof (zlen_nonneg body). set (n := u16 (4 + zlen body)). set (pkt := [code] ++ [id] ++ be_bytes 2 n ++ body). set (b := _ ++ _). assert (Eb : b = [version] ++ [eapolTypeEAP] ++ be_bytes 2 n ++ pkt) by done. clearbody b.
  assert (Hp : zlen pkt = 4 + zlen body) by (unfold pkt; zlens; lia). assert (Hb : zlen b = 8 + zlen body) by (rewrite Eb; zlens; lia).
  unfold Parse, eapolHdrSize. rewrite Hb. destruct (Z.ltb_spec (8 + zlen body) 4); [lia|]. rewrite (at_idx b 0 version) by (rewrite Eb; at_solve). rewrite (at_idx b 1 eapolTypeEAP) by (rewrite Eb; at_solve). cbn [mbind res_bind].
  assert (HU : (t ← slc b 2 4; Uint16 t) = Ok (E := err) (4 + zlen body)).
  { rewrite (at_slc b 2 (be_bytes 2 n) 4) by (rewrite ?Eb; at_solve || zlens; done). cbn [mbind res_bind]. rewrite Uint16_all by (by rewrite zlen_be). f_equal. apply be16_len. lia. }
  rewrite HU. cbn [mbind res_bind]. destruct (Z.ltb_spec (8 + zlen body) (4 + zlen body + 4)); [lia|]. change (eapolTypeEAP =? eapolTypeStart) with false. change (eapolTypeEAP =? eapolTypeLogoff) with false. change (eapolTypeEAP =? eapolTypeEAP) with true. cbv iota.
  rewrite (at_slc b 4 pkt) by (rewrite ?Eb; at_solve || zlens; lia). done.
Qed.

Lemma parseMethod_srp f code sub payload : parseMethod f code ([eapTypeSRPSHA1; sub] ++ payload) = parseSRP f code sub payload.
Proof.
  unfold parseMethod, srpHdrSize. pose proof (zlen_nonneg payload). assert (Hl : zlen ([eapTypeSRPSHA1; sub] ++ payload) = 2 + zlen payload) by (zlens; lia). rewrite Hl. destruct (Z.ltb_spec (2 + zlen payload) 1); [lia|]. destruct (Z.ltb_spec (2 + zlen payload) 2); [lia|].
  change (idx ([eapTypeSRPSHA1; sub] ++ payload) 0) with (Ok (E := err) eapTypeSRPSHA1). change (idx ([eapTypeSRPSHA1; sub] ++ payload) 1) with (Ok (E := err) sub). cbn [mbind res_bind]. change (eapTypeSRPSHA1 =? eapTypeIdentity) with false. change (eapTypeSRPSHA1 =? eapTypeSRPSHA1) with true. cbv iota.
  by rewrite slc_from_app by done.
Qed.

Lemma readU16_at b off v : At b off (be_bytes 2 v) -> in_u16 v -> readU16 b off = Ok (v, off + 2).
Proof.
  intros Ha Hv. unfold readU16. destruct Ha as (P & Q & E & HP). assert (Hl : off + 2 <= zlen b) by (rewrite E, !zlen_app, zlen_be; pose proof (zlen_nonneg Q); lia). destruct (Z.ltb_spec (zlen b) (off + 2)); [lia|].
  rewrite (at_u16 b off v (off + 2)); [done|by exists P, Q|done|done].
Qed.

Lemma parseChallenge_enc f salt g n : zlen salt < 65536 -> 0 < zlen g < 65536 \/ (g = [] /\ n = []) ->
  parseChallenge f (be_bytes 2 0 ++ be_bytes 2 (zlen salt) ++ salt ++ be_bytes 2 (zlen g) ++ g ++ n) =
  let f := f <| kind := KindChallenge |> <| Salt := salt |> in Ok (if zlen g =? 0 then f else f <| GenG := g |> <| GenN := n |>).
Proof.
  intros Hs Hg. pose proof (zlen_nonneg salt). pose proof (zlen_nonneg g). pose proof (zlen_nonneg n). set (p := be_bytes 2 0 ++ _). assert (Hp : zlen p = 6 + zlen salt + zlen g + zlen n) by (unfold p; zlens; lia).
  assert (Hgl : zlen g < 65536) by (destruct Hg as [?|[-> _]]; [lia|done]).
  unfold parseChallenge. rewrite (readU16_at p 0 0) by (unfold p; at_solve || done). cbn [mbind res_bind]. rewrite Hp. destruct (Z.ltb_spec (6 + zlen salt + zlen g + zlen n - (0 + 2)) 0); [lia|].
  rewrite (readU16_at p (0 + 2 + 0) (zlen salt)) by (unfold p; at_solve || (unfold in_u16; lia)). cbn [mbind res_bind]. destruct (Z.ltb_spec (6 + zlen salt + zlen g + zlen n - (0 + 2 + 0 + 2)) (zlen salt)); [lia|].
  rewrite (at_slc p (0 + 2 + 0 + 2) salt) by (unfold p; at_solve || lia). cbn [mbind res_bind]. rewrite (readU16_at p (0 + 2 + 0 + 2 + zlen salt) (zlen g)) by (unfold p; at_solve || (unfold in_u16; lia)). cbn [mbind res_bind].
  destruct (Z.eqb_spec (zlen g) 0) as [E0|E0]; cbn [negb]; [done|]. destruct (Z.ltb_spec (6 + zlen salt + zlen g + zlen n - (0 + 2 + 0 + 2 + zlen salt + 2)) (zlen g)); [lia|].
  rewrite (at_slc p (0 + 2 + 0 + 2 + zlen salt + 2) g) by (unfold p; at_solve || lia). cbn [mbind res_bind].
  assert (HN : slc_from (E := err) p (0 + 2 + 0 + 2 + zlen salt + 2 + zlen g) = Ok n).
  { unfold p. rewrite !app_assoc. apply slc_from_app. zlens. lia. }
  by rewrite HN.
Qed.

Lemma parseValidator_enc f k flags proof : zlen flags = 4 -> zlen proof = 32 -> parseValidator f k (flags ++ proof) = Ok (f <| kind := k |> <| Flags := flags |> <| Proof_ := proof |>).
Proof.
  intros Hf Hp. unfold parseValidator, validatorFlagsLen, proofLen. rewrite zlen_app, Hf, Hp. change (4 + 32 <? 4 + 32) with false. cbv iota. rewrite slc_here by done. cbn [mbind res_bind].
  rewrite (at_slc (flags ++ proof) 4 proof) by (lia || (apply at_skip, at_end; lia)). done.
Qed.

Lemma frame_round_trip f : frame_ok f -> Parse (AppendTo f []) = Ok f /\ zlen (AppendTo f []) = MarshalSize f.
Proof.
  intros [Hv Hb Hf]. assert (HA : kind f <> KindStart -> kind f <> KindLogoff -> Parse (AppendTo f []) = parseEAP (Version f) ([Code f] ++ [Identifier f] ++ be_bytes 2 (u16 (eapHdrSize + zlen (encodeBody f))) ++ encodeBody f) /\ zlen (AppendTo f []) = MarshalSize f).
  { intros H1 H2. unfold AppendTo, MarshalSize, hdrsOffset, eapolHdrSize. destruct (Z.eqb_spec (Version f) 0); [done|]. rewrite <-(eap_Parse_enc (Version f)) by done. unfold appendU16, eapHdrSize. destruct (kind f); try done; (split; [f_equal; by rewrite <-!app_assoc|zlens; lia]). }
  destruct (kind f) eqn:Ek; try done.
  1,2: destruct Hf as (Hc & Hi & E); unfold AppendTo, MarshalSize; rewrite Ek; destruct (Z.eqb_spec (Version f) 0); [done|]; split; [|done]; rewrite E; unfold header_of; rewrite Ek, Hc, Hi; reflexivity.
  all: destruct (HA ltac:(done) ltac:(done)) as [-> Hz]; split; [|exact Hz]; clear HA Hz; rewrite parseEAP_enc by done; cbv zeta; revert Hb; unfold encodeBody; rewrite Ek; intros Hb.
  all: assert (Hcode : forall x y, Code f = x -> (Code f =? y) = (x =? y)) by (by intros x y ->).
  - destruct Hf as (Hc & E). rewrite !(Hcode _ _ Hc). unfold header_of in E. rewrite Ek in E. unfold parseMethod. rewrite !(Hcode _ _ Hc). exact (f_equal Ok (eq_sym E)).
  - destruct Hf as (Hc & E). rewrite !(Hcode _ _ Hc). unfold header_of in E. rewrite Ek in E. unfold parseMethod. rewrite !(Hcode _ _ Hc). pose proof (zlen_nonneg (Username f)). assert (Hl : zlen ([eapTypeIdentity] ++ Username f) = 1 + zlen (Username f)) by (zlens; lia).
    rewrite Hl. destruct (Z.ltb_spec (1 + zlen (Username f)) 1); [lia|]. change (idx ([eapTypeIdentity] ++ Username f) 0) with (Ok (E := err) eapTypeIdentity). cbn [mbind res_bind]. change (eapTypeIdentity =? eapTypeIdentity) with true. change (eapCodeResponse =? eapCodeRequest) with false. cbv iota.
    rewrite slc_from_app by done. exact (f_equal Ok (eq_sym E)).
  - destruct Hf as (Hc & Hgn & E). rewrite !(Hcode _ _ Hc). unfold header_of in E. rewrite Ek in E. set (body := (if zlen (GenG f) =? 0 then _ else _)) in *.
    pose proof (zlen_nonneg (Salt f)). pose proof (zlen_nonneg (GenG f)). pose proof (zlen_nonneg (GenN f)).
    assert (Hlen : zlen (Salt f) < 65536 /\ zlen (GenG f) < 65536).
    { clear E. revert Hb. subst body. unfold appendU16, eapHdrSize. destruct (Z.eqb_spec (zlen (GenG f)) 0); zlens; intros; lia. }
    assert (Hu : forall z, 0 <= z < 65536 -> u16 z = z) by (intros z Hz; unfold u16, uwrap; by apply Z.mod_small).
    assert (Hbody : body = [eapTypeSRPSHA1; srpSubtypeChallenge] ++ be_bytes 2 0 ++ be_bytes 2 (zlen (Salt f)) ++ Salt f ++ be_bytes 2 (zlen (GenG f)) ++ GenG f ++ GenN f).
    { subst body. unfold appendU16. rewrite (Hu (zlen (Salt f))) by lia. destruct (Z.eqb_spec (zlen (GenG f)) 0) as [E0|E0]; [|rewrite (Hu (zlen (GenG f))) by lia; by rewrite <-!app_assoc].
      destruct (GenG f) as [|x g] eqn:Eg; [|rewrite zlen_cons in E0; pose proof (zlen_nonneg g); lia]. rewrite (Hgn eq_refl). by rewrite <-!app_assoc, ?app_nil_r. }
    rewrite Hbody, parseMethod_srp. unfold parseSRP. rewrite !(Hcode _ _ Hc). change (srpSubtypeChallenge =? srpSubtypeChallenge) with true. change (eapCodeRequest =? eapCodeRequest) with true. cbn [andb orb]. cbv iota.
    rewrite parseChallenge_enc; [|lia|destruct (GenG f) as [|x g] eqn:Eg; [right; split; [done|by apply Hgn]|left; rewrite zlen_cons in *; pose proof (zlen_nonneg g); lia]].
    cbv zeta. destruct (GenG f) as [|x g] eqn:Eg; [rewrite (Hgn eq_refl) in E; exact (f_equal Ok (eq_sym E))|]. destruct (Z.eqb_spec (zlen (x :: g)) 0) as [E0|_]; [rewrite zlen_cons in E0; pose proof (zlen_nonneg g); lia|]. exact (f_equal Ok (eq_sym E)).
  - destruct Hf as (Hc & E). unfold header_of in E. rewrite Ek in E. rewrite parseMethod_srp. unfold parseSRP. rewrite !(Hcode _ _ Hc). exact (f_equal Ok (eq_sym E)).
  - destruct Hf as (Hc & E). unfold header_of in E. rewrite Ek in E. rewrite parseMethod_srp. unfold parseSRP. rewrite !(Hcode _ _ Hc). exact (f_equal Ok (eq_sym E)).
  - destruct Hf as (Hc & H1 & H2 & E). unfold header_of in E. rewrite Ek in E. rewrite <-app_assoc, parseMethod_srp. unfold parseSRP. rewrite !(Hcode _ _ Hc), !parseValidator_enc by done. exact (f_equal Ok (eq_sym E)).
  - destruct Hf as (Hc & H1 & H2 & E). unfold header_of in E. rewrite Ek in E. rewrite <-app_assoc, parseMethod_srp. unfold parseSRP. rewrite !(Hcode _ _ Hc), !parseValidator_enc by done. exact (f_equal Ok (eq_sym E)).
  - destruct Hf as (Hc & E). unfold header_of in E. rewrite Ek in E. rewrite !(Hcode _ _ Hc). exact (f_equal Ok (eq_sym E)).
  - destruct Hf as (Hc & E). unfold header_of in E. rewrite Ek in E. rewrite !(Hcode _ _ Hc). exact (f_equal Ok (eq_sym E)).
  - destruct Hf as (Hc & E). unfold header_of in E. rewrite Ek in E. change [eapTypeSRPSHA1; srpSubtypePassword] with ([eapTypeSRPSHA1; srpSubtypePassword] ++ []). rewrite parseMethod_srp. unfold parseSRP. rewrite !(Hcode _ _ Hc). exact (f_equal Ok (eq_sym E)).
  - destruct Hf as (Hc & E). unfold header_of in E. rewrite Ek in E. change ([eapTypeSRPSHA1; srpSubtypePassword; PwFlags f] ++ PwPayload f) with ([eapTypeSRPSHA1; srpSubtypePassword] ++ [PwFlags f] ++ PwPayload f). rewrite parseMethod_srp. unfold parseSRP. rewrite !(Hcode _ _ Hc).
    pose proof (zlen_nonneg (PwPayload f)). assert (Hl : (zlen ([PwFlags f] ++ PwPayload f) <? 1) = false) by (apply Z.ltb_ge; zlens; lia). rewrite Hl. rewrite slc_from_app by done. exact (f_equal Ok (eq_sym E)).
Qed.

(** ** Arbitrary bytes *)

Record frame_typed (f : Frame) : Prop := {
  ft_id : in_u8 (Identifier f); ft_version : in_u8 (Version f); ft_user : is_bytes (Username f); ft_salt : is_bytes (Salt f); ft_public : is_bytes (Public f); ft_proof : is_bytes (Proof_ f);
  ft_flags : zlen (Flags f) = 4; ft_pw : is_bytes (PwPayload f); ft_kind : kind f <> KindUnknown }.

(** The header fields of a frame being parsed. *)
Definition headed (f : Frame) : Prop := in_u8 (Identifier f) /\ in_u8 (Version f) /\ f = frame0 <| Version := Version f |> <| Code := Code f |> <| Identifier := Identifier f |>.

Ltac typed_frame := split; cbn; first [assumption | done | apply Forall_nil; exact I | idtac].

Lemma headed_typed f k : headed f -> k <> KindUnknown -> frame_typed (f <| kind := k |>).
Proof. intros (H1 & H2 & E) Hk. rewrite E. typed_frame. Qed.

Lemma readU16_total b off : is_bytes b -> 0 <= off -> returns (readU16 b off) (fun '(v, off') => 0 <= v /\ off' = off + 2 /\ off + 2 <= zlen b).
Proof.
  intros Hb Ho. unfold readU16. destruct (Z.ltb_spec (zlen b) (off + 2)); [done|]. destruct (rd_u16 (E := err) b off (off + 2) Hb Ho eq_refl ltac:(lia)) as (v & -> & Hv). cbn. unfold in_u16 in Hv. lia.
Qed.

Lemma parseChallenge_total f p : headed f -> is_bytes p -> returns (parseChallenge f p) frame_typed.
Proof.
  intros Hf Hp. unfold parseChallenge. pose proof (readU16_total p 0 Hp ltac:(lia)) as H1. destruct (readU16 p 0) as [[nameLen off]|e|]; [|done..]. destruct H1 as (N1 & -> & _). cbn [mbind res_bind]. destruct (Z.ltb_spec (zlen p - (0 + 2)) nameLen); [done|].
  pose proof (readU16_total p (0 + 2 + nameLen) Hp ltac:(lia)) as H2. destruct (readU16 p (0 + 2 + nameLen)) as [[saltLen off]|e|]; [|done..]. destruct H2 as (N2 & -> & _). cbn [mbind res_bind]. destruct (Z.ltb_spec (zlen p - (0 + 2 + nameLen + 2)) saltLen); [done|].
  set (o1 := 0 + 2 + nameLen + 2) in *. destruct (slc_ok (E := err) p o1 (o1 + saltLen) ltac:(lia) ltac:(lia)) as (salt & -> & _ & Hsalt). cbn [mbind res_bind]. specialize (Hsalt Hp).
  pose proof (readU16_total p (o1 + saltLen) Hp ltac:(lia)) as H3. destruct (readU16 p (o1 + saltLen)) as [[genLen off]|e|]; [|done..]. destruct H3 as (N3 & -> & _). cbn [mbind res_bind].
  assert (Ht : frame_typed (f <| kind := KindChallenge |> <| Salt := salt |>)) by (destruct Hf as (Hf1 & Hf2 & E); rewrite E; typed_frame).
  destruct (genLen =? 0); [exact Ht|]. cbn [negb]. set (o2 := o1 + saltLen + 2) in *. destruct (Z.ltb_spec (zlen p - o2) genLen); [done|]. destruct (slc_ok (E := err) p o2 (o2 + genLen) ltac:(lia) ltac:(lia)) as (g & -> & _). cbn [mbind res_bind].
  destruct (slc_from_ok (E := err) p (o2 + genLen) ltac:(lia)) as (n & -> & _). destruct Ht. typed_frame.
Qed.

Lemma parseValidator_total f k p : headed f -> is_bytes p -> k <> KindUnknown -> returns (parseValidator f k p) frame_typed.
Proof.
  intros Hf Hp Hk. unfold parseValidator, validatorFlagsLen, proofLen. destruct (Z.ltb_spec (zlen p) (4 + 32)); [done|]. destruct (slc_ok (E := err) p 0 4 ltac:(lia) ltac:(lia)) as (fl & -> & Hfl & _). cbn [mbind res_bind].
  destruct (slc_ok (E := err) p 4 (4 + 32) ltac:(lia) ltac:(lia)) as (pr & -> & _ & Hpr). destruct Hf as (Hf1 & Hf2 & E). rewrite E. typed_frame. by apply Hpr.
Qed.

Lemma parseMethod_total f code body : headed f -> is_bytes body -> returns (parseMethod f code body) frame_typed.
Proof.
  intros Hf Hb. unfold parseMethod, srpHdrSize. destruct (Z.ltb_spec (zlen body) 1); [done|]. destruct (idx_ok (E := err) body 0 ltac:(lia)) as (t & -> & _). cbn [mbind res_bind]. destruct (t =? eapTypeIdentity).
  - destruct (code =? eapCodeRequest); [by apply headed_typed|]. destruct (slc_from_ok (E := err) body 1 ltac:(lia)) as (u & -> & _ & Hu). destruct Hf as (Hf1 & Hf2 & E). rewrite E. typed_frame. by apply Hu.
  - destruct (t =? eapTypeSRPSHA1); [|done]. destruct (Z.ltb_spec (zlen body) 2); [done|]. destruct (idx_ok (E := err) body 1 ltac:(lia)) as (sub & -> & _). destruct (slc_from_ok (E := err) body 2 ltac:(lia)) as (p & -> & _ & Hp). specialize (Hp Hb). cbn [mbind res_bind].
    assert (Hpub : forall k, k <> KindUnknown -> frame_typed (f <| kind := k |> <| Public := p |>)) by (intros k Hk; destruct Hf as (Hf1 & Hf2 & E); rewrite E; typed_frame).
    unfold parseSRP. destruct (_ && _); [by apply parseChallenge_total|]. destruct (_ && _); [by apply Hpub|]. destruct (_ && _); [by apply Hpub|]. destruct (_ && _); [by apply parseValidator_total|].
    destruct (sub =? srpSubtypeServerVal); [destruct (_ && _); [by apply headed_typed|by apply parseValidator_total]|]. destruct (_ && _); [by apply headed_typed|]. destruct (_ && _); [|done].
    destruct (Z.ltb_spec (zlen p) 1); [done|]. destruct (idx_ok (E := err) p 0 ltac:(lia)) as (x & -> & _). destruct (slc_from_ok (E := err) p 1 ltac:(lia)) as (r & -> & _ & Hr). destruct Hf as (Hf1 & Hf2 & E). rewrite E. typed_frame. by apply Hr.
Qed.

Lemma eap_Parse_total b : is_bytes b -> returns (Parse b) frame_typed.
Proof.
  intros Hb. unfold Parse, eapolHdrSize. destruct (Z.ltb_spec (zlen b) 4); [done|]. destruct (idx_ok (E := err) b 0 ltac:(lia)) as (v & -> & Hv). destruct (idx_ok (E := err) b 1 ltac:(lia)) as (t & -> & _). cbn [mbind res_bind]. specialize (Hv Hb).
  destruct (rd_u16 (E := err) b 2 4 Hb ltac:(lia) eq_refl ltac:(lia)) as (n & -> & Hn). unfold in_u16 in Hn. cbn [mbind res_bind]. destruct (Z.ltb_spec (zlen b) (n + 4)); [done|].
  assert (Hd : forall k, k <> KindUnknown -> frame_typed (frame0 <| Version := v |> <| kind := k |>)) by (intros k Hk; typed_frame).
  destruct (t =? eapolTypeStart); [by apply Hd|]. destruct (t =? eapolTypeLogoff); [by apply Hd|]. destruct (t =? eapolTypeEAP); [|done]. destruct (slc_ok (E := err) b 4 (4 + n) ltac:(lia) ltac:(lia)) as (p & -> & Hpl & Hp). specialize (Hp Hb). cbn [mbind res_bind].
  unfold parseEAP, eapHdrSize. destruct (Z.ltb_spec (zlen p) 4); [done|]. destruct (idx_ok (E := err) p 0 ltac:(lia)) as (c & -> & _). destruct (idx_ok (E := err) p 1 ltac:(lia)) as (id & -> & Hid). specialize (Hid Hp). cbn [mbind res_bind].
  destruct (rd_u16 (E := err) p 2 4 Hp ltac:(lia) eq_refl ltac:(lia)) as (l & -> & _). cbn [mbind res_bind]. destruct (negb _); [done|]. destruct (slc_from_ok (E := err) p 4 ltac:(lia)) as (body & -> & _ & Hbody). cbn [mbind res_bind].
  assert (Hh : headed (frame0 <| Version := v |> <| Code := c |> <| Identifier := id |>)) by done. destruct (_ || _); [by apply parseMethod_total; [|apply Hbody]|]. destruct (c =? eapCodeSuccess); [by apply headed_typed|]. destruct (c =? eapCodeFailure); [by apply headed_typed|done].
Qed.

(** ** Properties *)

(** Every EAPOL message the two roles exchange survives the wire: a frame that fits the 16-bit lengths and carries only the fields of its kind parses back
    to itself and takes exactly the size the encoder announces; and no bytes whatever make the parser panic: it refuses them or returns a
    classified frame with a one-byte identifier and a four-byte flag field. *)
Theorem eap_frame_round_trip f b : frame_ok f -> is_bytes b ->
  Parse (AppendTo f []) = Ok f /\ zlen (AppendTo f []) = MarshalSize f /\ returns (Parse b) (fun g => kind g <> KindUnknown /\ in_u8 (Identifier g) /\ zlen (Flags g) = 4).
Proof.
  intros Hf Hb. destruct (frame_round_trip f Hf) as [H1 H2]. split; [exact H1|]. split; [exact H2|]. pose proof (eap_Parse_total b Hb) as H. destruct (Parse b) as [g|e|]; [|done..]. destruct H. done.
Qed.

Definition demo_challenge : Frame := frame0 <| Version := 3 |> <| Code := eapCodeRequest |> <| Identifier := 6 |> <| kind := KindChallenge |> <| Salt := [1; 2; 3] |> <| GenG := [5] |> <| GenN := [15; 66; 67] |>.

Lemma eap_frame_round_trip_witness : Parse (AppendTo demo_challenge []) = Ok demo_challenge /\ zlen (AppendTo demo_challenge []) = 23 /\ Parse [3; 0; 0; 9; 1; 1; 0; 5; 19] = Err ErrBadLength.
Proof.
  destruct (eap_frame_round_trip demo_challenge [3; 0; 0; 9; 1; 1; 0; 5; 19]) as (H1 & H2 & _); [split; [done|reflexivity|split; [reflexivity|split; [discriminate|reflexivity]]]|by repeat (apply Forall_cons; split; [done|])|].
  split; [exact H1|]. split; [rewrite H2; reflexivity|reflexivity].
Defined.
End eap.
