(* ===== verification/EapState.v ===== *)
(** * EAP-SRP: what both roles share (src/internal/eap/state.go)

    The authentication state, the keying material a handshake installs for the data channel, the password exchange that follows SUCCESS, and the
    form of a call of [Recv]: it may panic, else it returns a frame to send, an error, or (a rejected proof) both. *)

From S2P Require Import Prelude Bytes Psk Srp Eap.

Module eapstate.
Import eap.

Inductive State := StateUnauth | StateInProgress | StateSuccess | StateFailed.
#[export] Instance State_eq_dec : EqDecision State.
Proof. solve_decision. Defined.

(** A nil key is an empty one: [append([]byte(nil), key...)] of no bytes is nil. *)
Record Passphrase := mkPassphrase { Key : bytes; Gen : Z }.
Record keying := mkKeying { enabled : bool; tx : Passphrase; rx : Passphrase }.
#[export] Instance eta_keying : Eta keying := fun k => mkKeying (enabled k) (tx k) (rx k).

Definition noPassphrase : Passphrase := mkPassphrase [] 0.
Definition noKeying : keying := mkKeying false noPassphrase noPassphrase.

Definition setTx (key : bytes) (k : keying) : keying := k <| tx := mkPassphrase key (u64 (Gen (tx k) + 1)) |>.
Definition setRx (key : bytes) (k : keying) : keying := k <| rx := mkPassphrase key (u64 (Gen (rx k) + 1)) |>.

(** A passphrase and whether there is one. *)
Definition available (p : Passphrase) : Passphrase * bool := (p, negb (zlen (Key p) =? 0)).

(** What a call returns. *)
Inductive outcome := Panicked | Returned (out : option Frame) (e : option err).

Definition quiet : outcome := Returned None None.
Definition reply (f : Frame) : outcome := Returned (Some f) None.
Definition refuse (e : err) : outcome := Returned None (Some e).

(** A value that is computed without an error, or a panic. *)
Definition computing {A} (r : res srp.err A) (k : A -> outcome) : outcome := match r with Ok v => k v | _ => Panicked end.

(** A message with the given header and no payload. *)
Definition message (version code id : Z) (k : Kind) : Frame := frame0 <| Version := version |> <| Code := code |> <| Identifier := id |> <| kind := k |>.

Definition negotiatedVersion (req : Frame) : Z := if Version req =? 2 then 2 else eapVersion3.

Definition passwordResponseFrame (version identifier : Z) : Frame :=
  message version eapCodeResponse identifier KindPasswordResponse <| PwFlags := Z.shiftl 1 pwUseSessionKeyBit |>.

Section pushed.
Context (aes : bytes -> bytes -> bytes).

Definition installPushedRx (k : keying) (session : bytes) (f : Frame) : res err keying :=
  if PwUseSessionKey f then Ok (setRx session k)
  else if PwHasExplicit f then
    let iv := replicate 15 0 ++ [Identifier f] in
    let keyBits := if PwHasExplicit f then psk.KeySize256 else psk.KeySize128 in
    aesKey ← (if negb (zlen session =? keyBits /g 8) then if zlen session <? keyBits /g 8 then Err ErrShortBuffer else slc session 0 (keyBits /g 8) else Ok session);
    match psk.AESCTRRaw aes aesKey iv [] (PwPayload f) with
    | Ok pt => Ok (setRx pt k)
    | Err _ => Err ErrCipher
    | Panic => Panic
    end
  else Ok k.

(** A passphrase is installed for reception or nothing changes; with a key too short for the cipher the push is refused. *)
Lemma installPushedRx_total k session f : match installPushedRx k session f with Ok k' => enabled k' = enabled k /\ tx k' = tx k | Err _ => zlen session < 32 | Panic => False end.
Proof.
  assert (HA : forall key iv src, zlen key = 32 -> exists pt, psk.AESCTRRaw aes key iv [] src = Ok pt) by (intros key iv src Hs; unfold psk.AESCTRRaw, psk.NewCipher; rewrite !Hs; by eexists).
  unfold installPushedRx. destruct (PwUseSessionKey f); [done|]. destruct (PwHasExplicit f); [|done]. change (psk.KeySize256 /g 8) with 32. destruct (Z.eqb_spec (zlen session) 32) as [Hs|Hs]; cbn [negb mbind res_bind].
  - by destruct (HA session (replicate 15 0 ++ [Identifier f]) (PwPayload f) Hs) as (pt & ->).
  - destruct (Z.ltb_spec (zlen session) 32); [done|]. destruct (slc_ok (E := err) session 0 32 ltac:(lia) ltac:(lia)) as (key & -> & Hk & _). cbn [mbind res_bind]. by destruct (HA key (replicate 15 0 ++ [Identifier f]) (PwPayload f)) as (pt & ->); [lia|].
Qed.
End pushed.
End eapstate.
