(* ===== verification/EapClient.v ===== *)
(** * EAP-SRP: the authenticatee (src/internal/eap/state.go)

    The client role: it answers the authenticator's requests, derives the session key, verifies the server's proof and follows the
    authenticator into a re-authentication.  The secrets it draws are threaded as a list. *)

From S2P Require Import Prelude Bytes Psk Srp Eap EapState.

Module authenticatee.
Import eap eapstate.

(** [lastRx] is empty where the code has nil: an empty payload is never processed. *)
Record Authenticatee := mkAuthenticatee {
  username : bytes; password : bytes; state : State; id : Z; idValid : bool; client : option srp.Client; salt : bytes; session : bytes;
  keyed : keying; pwReqID : Z; pwReqActive : bool; lastRx : bytes; lastReply : option Frame }.
#[global] Instance eta_Authenticatee : Eta Authenticatee := fun a =>
  mkAuthenticatee (username a) (password a) (state a) (id a) (idValid a) (client a) (salt a) (session a) (keyed a) (pwReqID a) (pwReqActive a) (lastRx a) (lastReply a).

Definition NewAuthenticatee (username password : bytes) : res err Authenticatee :=
  if (zlen username =? 0) || (zlen password =? 0) then Err ErrEmptyCredentials
  else if (255 <? zlen username) || (255 <? zlen password) then Err ErrCredentialsTooLong
  else Ok (mkAuthenticatee username password StateUnauth 0 false None [] [] noKeying 0 false [] None).

Definition UseKeyAsPassphrase (on : bool) (a : Authenticatee) : Authenticatee :=
  if bool_decide (state a = StateUnauth) then a <| keyed := keyed a <| enabled := on |> |> else a.

Definition TxKeying (a : Authenticatee) : Passphrase * bool := available (tx (keyed a)).
Definition RxKeying (a : Authenticatee) : Passphrase * bool := available (rx (keyed a)).

Definition PasswordRequest (a : Authenticatee) : option Frame * Authenticatee :=
  if negb (bool_decide (state a = StateSuccess)) || negb (enabled (keyed a)) then (None, a) else
  let i := u8 (pwReqID a + 1) in
  let i := Z.lor i (Z.shiftl 1 pwUseSessionKeyBit) in
  let i := Z.lor i (Z.shiftl 1 pwExplicitBit) in
  (Some (message eapVersion3 eapCodeRequest i KindPasswordRequest), a <| pwReqID := i |> <| pwReqActive := true |>).

Definition Done (a : Authenticatee) : bool := bool_decide (state a = StateSuccess) || bool_decide (state a = StateFailed).
Definition Authenticated (a : Authenticatee) : bool := bool_decide (state a = StateSuccess).
Definition SessionKey (a : Authenticatee) : bytes := session a.

Definition Start (a : Authenticatee) : Frame * Authenticatee :=
  (startFrame, if bool_decide (state a = StateUnauth) then a <| state := StateInProgress |> else a).

Definition Restart (a : Authenticatee) : Authenticatee :=
  a <| state := StateUnauth |> <| id := 0 |> <| idValid := false |> <| client := None |> <| salt := [] |> <| session := [] |> <| pwReqActive := false |>
    <| lastRx := [] |> <| lastReply := None |>.

Definition passwordResponse (identifier : Z) : Frame := passwordResponseFrame eapVersion3 identifier.

(** A request of the server that carries the exchange on. *)
Definition server_driven (k : Kind) : bool := match k with KindChallenge | KindServerKey | KindServerValidator => true | _ => false end.

Section role.
Context (sha256 : bytes -> bytes) (aes : bytes -> bytes -> bytes).

(** A step of the role: the secrets it may draw go in and out. *)
Definition step : Type := outcome * Authenticatee * list (option Z).

Definition fail (e : err) (a : Authenticatee) (draws : list (option Z)) : step := (refuse e, a <| state := StateFailed |>, draws).
Definition adopt (f : Frame) (a : Authenticatee) : Authenticatee := a <| id := Identifier f |> <| idValid := true |>.

Definition on_identity (f : Frame) (a : Authenticatee) (draws : list (option Z)) : step :=
  let a := adopt f a in
  let a := if bool_decide (state a = StateUnauth) then a <| state := StateInProgress |> else a in
  (reply (message (negotiatedVersion f) eapCodeResponse (Identifier f) KindIdentityResponse <| Username := username a |>), a, draws).

Definition on_challenge (f : Frame) (a : Authenticatee) (draws : list (option Z)) : step :=
  match challengeGroup f with
  | Err e => fail e a draws
  | Panic => (Panicked, a, draws)
  | Ok grp =>
      if zlen (Salt f) =? 0 then fail ErrBadLength a draws else
      let legacy := negotiatedVersion f =? 2 in
      match srp.newClient (Some grp) (Salt f) legacy draws with
      | (Err e, draws) => fail (ErrSRP e) a draws
      | (Panic, draws) => (Panicked, a, draws)
      | (Ok c, draws) =>
          let a := adopt f a <| client := Some c |> <| salt := Salt f |> <| state := StateInProgress |> in
          (computing (srp.A c) (fun pub => reply (message (negotiatedVersion f) eapCodeResponse (Identifier f) KindClientKey <| Public := pub |>)), a, draws)
      end
  end.

Definition on_server_key (f : Frame) (a : Authenticatee) (draws : list (option Z)) : step :=
  match client a with
  | None => fail ErrUnexpected a draws
  | Some c =>
      let a := adopt f a in
      match srp.ComputeKey sha256 (Public f) (username a) (password a) c with
      | (Err e, c) => fail (ErrSRP e) (a <| client := Some c |>) draws
      | (Panic, c) => (Panicked, a <| client := Some c |>, draws)
      | (Ok _, c) => (reply (message (negotiatedVersion f) eapCodeResponse (Identifier f) KindClientValidator <| Proof_ := srp.M1 c |>), a <| client := Some c |>, draws)
      end
  end.

Definition on_server_validator (f : Frame) (a : Authenticatee) (draws : list (option Z)) : step :=
  match client a with
  | None => fail ErrAuthFailed a draws
  | Some c =>
      if zlen (Proof_ f) =? 0 then fail ErrAuthFailed a draws else
      let a := adopt f a in
      if negb (srp.VerifyM2 sha256 c (Proof_ f)) then fail ErrAuthFailed a draws else
      let a := a <| session := srp.client_SessionKey c |> in
      let a := if SetPassphrase f && (negotiatedVersion f =? eapVersion3) then a <| keyed := setRx (srp.client_SessionKey c) (keyed a) |> else a in
      let a := a <| state := StateSuccess |> in
      (reply (message (negotiatedVersion f) eapCodeSuccess (Identifier f) KindSuccess), a, draws)
  end.

Definition on_password_response (f : Frame) (a : Authenticatee) (draws : list (option Z)) : step :=
  if negb (bool_decide (state a = StateSuccess)) then (quiet, a, draws) else
  if pwReqActive a && negb (Identifier f =? pwReqID a) then (quiet, a, draws) else
  match installPushedRx aes (keyed a) (session a) f with
  | Err e => (refuse e, a, draws)
  | Panic => (Panicked, a, draws)
  | Ok k => (reply (message (negotiatedVersion f) eapCodeSuccess (Identifier f) KindSuccess), a <| keyed := k |> <| pwReqActive := false |>, draws)
  end.

Definition handle (f : Frame) (a : Authenticatee) (draws : list (option Z)) : step :=
  if bool_decide (kind f = KindFailure) then
    if negb (bool_decide (state a = StateInProgress)) || negb (Identifier f =? id a) then (quiet, a, draws) else fail ErrAuthFailed a draws
  else
  if bool_decide (state a = StateSuccess) && server_driven (kind f) then (quiet, a, draws) else
  let a := if bool_decide (state a = StateSuccess) && bool_decide (kind f = KindIdentityRequest) then Restart a else a in
  if idValid a && server_driven (kind f) && negb (Identifier f =? id a) && negb (Identifier f =? u8 (id a + 1)) then (quiet, a, draws) else
  match kind f with
  | KindIdentityRequest => on_identity f a draws
  | KindChallenge => on_challenge f a draws
  | KindServerKey => on_server_key f a draws
  | KindServerValidator => on_server_validator f a draws
  | KindSuccess => (quiet, a, draws)
  | KindPasswordRequest => if negb (bool_decide (state a = StateSuccess)) then (quiet, a, draws) else (reply (passwordResponse (Identifier f)), a, draws)
  | KindPasswordResponse => on_password_response f a draws
  | _ => (refuse ErrUnexpected, a, draws)
  end.

Definition Recv (payload : bytes) (a : Authenticatee) (draws : list (option Z)) : step :=
  if (0 <? zlen payload) && negb (zlen (lastRx a) =? 0) && bool_decide (lastRx a = payload) then (Returned (lastReply a) None, a, draws) else
  match Parse payload with
  | Err e => (refuse e, a, draws)
  | Panic => (Panicked, a, draws)
  | Ok f =>
      match handle f a draws with
      | (Returned out None, a, draws) => (Returned out None, a <| lastRx := payload |> <| lastReply := out |>, draws)
      | r => r
      end
  end.
End role.
End authenticatee.
