(* ===== verification/EapServer.v ===== *)
(** * EAP-SRP: the authenticator (src/internal/eap/state.go)

    The server role: it asks for an identity, looks the verifier up, runs the exchange and reaches SUCCESS only on the client's closing
    acknowledgement of a verified proof. *)

From S2P Require Import Prelude Bytes Psk Srp Eap EapState.

Module authenticator.
Import eap eapstate.

Record Authenticator := mkAuthenticator {
  lookup : VerifierLookup; version : Z; legacyPad : bool; state : State; id : Z; server : option srp.Server; username : bytes; session : bytes;
  verified : bool; everAuthed : bool; keyed : keying; lastRx : bytes; lastReply : option Frame }.
#[global] Instance eta_Authenticator : Eta Authenticator := fun a =>
  mkAuthenticator (lookup a) (version a) (legacyPad a) (state a) (id a) (server a) (username a) (session a) (verified a) (everAuthed a) (keyed a) (lastRx a) (lastReply a).

(** A nil lookup is [None]. *)
Definition newAuthenticator (lookup : option VerifierLookup) (version : Z) (legacyPad : bool) : res err Authenticator :=
  match lookup with
  | None => Err ErrNilLookup
  | Some lookup => Ok (mkAuthenticator lookup version legacyPad StateUnauth 0 None [] [] false false noKeying [] None)
  end.
Definition NewAuthenticator (lookup : option VerifierLookup) : res err Authenticator := newAuthenticator lookup eapVersion3 false.
Definition NewAuthenticatorLegacy (lookup : option VerifierLookup) : res err Authenticator := newAuthenticator lookup eapVersion2 true.

Definition SeedIdentifier (seed : Z) (a : Authenticator) : Authenticator := if bool_decide (state a = StateUnauth) then a <| id := seed |> else a.

Definition Done (a : Authenticator) : bool := bool_decide (state a = StateSuccess) || bool_decide (state a = StateFailed).
Definition Authenticated (a : Authenticator) : bool := bool_decide (state a = StateSuccess).
Definition PeerUsername (a : Authenticator) : bytes := username a.
Definition SessionKey (a : Authenticator) : bytes := session a.

Definition UseKeyAsPassphrase (on : bool) (a : Authenticator) : Authenticator :=
  if bool_decide (state a = StateUnauth) then a <| keyed := keyed a <| enabled := on |> |> else a.
Definition TxKeying (a : Authenticator) : Passphrase * bool := available (tx (keyed a)).
Definition RxKeying (a : Authenticator) : Passphrase * bool := available (rx (keyed a)).

Definition Start (a : Authenticator) : Frame * Authenticator :=
  (message (version a) eapCodeRequest (id a) KindIdentityRequest, if bool_decide (state a = StateUnauth) then a <| state := StateInProgress |> else a).

Definition Restart (a : Authenticator) : Authenticator :=
  a <| state := StateUnauth |> <| server := None |> <| session := [] |> <| verified := false |> <| id := u8 (id a + 1) |> <| lastRx := [] |> <| lastReply := None |>.

Section role.
Context (sha256 : bytes -> bytes) (aes : bytes -> bytes -> bytes).

Definition step : Type := outcome * Authenticator * list (option Z).

Definition fail (e : err) (a : Authenticator) (draws : list (option Z)) : step := (refuse e, a <| state := StateFailed |>, draws).
Definition bump (a : Authenticator) : Authenticator := a <| id := u8 (id a + 1) |>.

Definition on_start (a : Authenticator) (draws : list (option Z)) : step :=
  if bool_decide (state a = StateInProgress) then (quiet, a, draws) else
  let a := if bool_decide (state a = StateUnauth) then a else Restart a in
  let '(out, a) := Start a in (reply out, a, draws).

Definition on_logoff (a : Authenticator) (draws : list (option Z)) : step :=
  if bool_decide (state a = StateSuccess) || bool_decide (state a = StateFailed) || everAuthed a then (refuse ErrUnexpected, a, draws) else
  (quiet, a <| state := StateUnauth |> <| server := None |> <| session := [] |> <| verified := false |>, draws).

Definition on_identity (f : Frame) (a : Authenticator) (draws : list (option Z)) : step :=
  match lookup a (Username f) with
  | None => fail ErrNoVerifier a draws
  | Some (verifier, salt) =>
      match srp.newServer sha256 (Some srp.DefaultGroup) verifier salt (legacyPad a) draws with
      | (Err e, draws) => fail (ErrSRP e) a draws
      | (Panic, draws) => (Panicked, a, draws)
      | (Ok s, draws) =>
          let a := bump (a <| server := Some s |> <| username := Username f |> <| state := StateInProgress |>) in
          (reply (message (version a) eapCodeRequest (id a) KindChallenge <| Salt := salt |>), a, draws)
      end
  end.

Definition on_client_key (f : Frame) (a : Authenticator) (draws : list (option Z)) : step :=
  match server a with
  | None => fail ErrUnexpected a draws
  | Some s =>
      match srp.HandleA (Public f) s with
      | (Err e, s) => fail (ErrSRP e) (a <| server := Some s |>) draws
      | (Panic, s) => (Panicked, a <| server := Some s |>, draws)
      | (Ok _, s) =>
          let a := bump (a <| server := Some s |>) in
          (computing (srp.B s) (fun pub => reply (message (version a) eapCodeRequest (id a) KindServerKey <| Public := pub |>)), a, draws)
      end
  end.

Definition on_client_validator (f : Frame) (a : Authenticator) (draws : list (option Z)) : step :=
  match server a with
  | None => fail ErrUnexpected a draws
  | Some s =>
      match srp.VerifyM1 sha256 (username a) (Proof_ f) s with
      | (Ok false, s) => (Returned (Some (message (version a) eapCodeFailure (id a) KindFailure)) (Some ErrAuthFailed), a <| server := Some s |> <| state := StateFailed |>, draws)
      | (Ok true, s) =>
          let a := a <| server := Some s |> <| session := srp.server_SessionKey s |> in
          let a := if SetPassphrase f && (version a =? eapVersion3) then a <| keyed := setRx (srp.server_SessionKey s) (keyed a) |> else a in
          let a := bump (a <| verified := true |>) in
          let out := message (version a) eapCodeRequest (id a) KindServerValidator <| Proof_ := srp.M2 s |> in
          if enabled (keyed a) && (version a =? eapVersion3)
          then (reply (setSetPassphrase true out), a <| keyed := setTx (srp.server_SessionKey s) (keyed a) |>, draws)
          else (reply out, a, draws)
      | (_, s) => (Panicked, a <| server := Some s |>, draws)
      end
  end.

Definition on_password_response (f : Frame) (a : Authenticator) (draws : list (option Z)) : step :=
  if negb (bool_decide (state a = StateSuccess)) then (quiet, a, draws) else
  match installPushedRx aes (keyed a) (session a) f with
  | Err e => (refuse e, a, draws)
  | Panic => (Panicked, a, draws)
  | Ok k => (reply (message (version a) eapCodeSuccess (Identifier f) KindSuccess), a <| keyed := k |>, draws)
  end.

(** A message that is exempt from the identifier check. *)
Definition exempt (k : Kind) : bool := match k with KindStart | KindLogoff | KindPasswordRequest => true | _ => false end.

Definition handle (f : Frame) (a : Authenticator) (draws : list (option Z)) : step :=
  if negb (bool_decide (state a = StateUnauth)) && negb (exempt (kind f)) && negb (Identifier f =? id a) then (quiet, a, draws) else
  match kind f with
  | KindStart => on_start a draws
  | KindLogoff => on_logoff a draws
  | KindIdentityResponse => on_identity f a draws
  | KindClientKey => on_client_key f a draws
  | KindClientValidator => on_client_validator f a draws
  | KindServerValidator | KindSuccess => (quiet, if verified a then bump (a <| state := StateSuccess |> <| everAuthed := true |>) else a, draws)
  | KindPasswordRequest => if negb (bool_decide (state a = StateSuccess)) then (quiet, a, draws) else (reply (passwordResponseFrame (version a) (Identifier f)), a, draws)
  | KindPasswordResponse => on_password_response f a draws
  | KindFailure => if negb (bool_decide (state a = StateInProgress)) then (quiet, a, draws) else fail ErrAuthFailed a draws
  | _ => (refuse ErrUnexpected, a, draws)
  end.

Definition Recv (payload : bytes) (a : Authenticator) (draws : list (option Z)) : step :=
  if (0 <? zlen payload) && negb (zlen (lastRx a) =? 0) && bool_decide (lastRx a = payload) then (Returned (lastReply a) None, a, draws) else
  match Parse payload with
  | Err e => (refuse e, a, draws)
  | Panic => (Panicked, a, draws)
  | Ok f =>
      match handle f a draws with
      | (Returned out None, a, draws) => (Returned out None, a <| lastRx := payload |> <| lastReply := out |>, draws)
      | r => r
      end
  end.
End role.
End authenticator.
