(* ===== verification/EapHandshake.v ===== *)
(** * EAP-SRP: the handshake over a lossy wire

    The two roles exchange encoded frames; the host sends whatever a call of [Recv] returns, and a lost reply makes its peer send the same bytes
    again.  The theorem: for the right password, in either hashing mode and with any identifier seed, any number of retransmissions of each
    message leaves both ends in SUCCESS with one session key and one secret drawn at each end. *)

From S2P Require Import Prelude Bytes Psk Srp Eap EapState EapClient EapServer.

#[local] Opaque srp.DefaultGroup.

Module handshake.
Import eap eapstate.

(** ** The wire *)

Inductive hop := ToServer (f : Frame) | ToClient (f : Frame).

Record ends := mkEnds { ee : authenticatee.Authenticatee; er : authenticator.Authenticator; ee_draws : list (option Z); er_draws : list (option Z) }.

Section wire.
Context (sha256 : bytes -> bytes) (aes : bytes -> bytes -> bytes).

(** The same bytes, [1 + n] times. *)
Definition server_hears (n : nat) (w : bytes) (a : authenticator.Authenticator) (d : list (option Z)) : authenticator.step :=
  Nat.iter n (fun '(_, a, d) => authenticator.Recv sha256 aes w a d) (authenticator.Recv sha256 aes w a d).
Definition client_hears (n : nat) (w : bytes) (a : authenticatee.Authenticatee) (d : list (option Z)) : authenticatee.step :=
  Nat.iter n (fun '(_, a, d) => authenticatee.Recv sha256 aes w a d) (authenticatee.Recv sha256 aes w a d).

(** The conversation a message opens, with the number of retransmissions of each message in turn; the message in flight when the list ends. *)
Fixpoint converse (dups : list nat) (h : hop) (x : ends) : ends * option hop :=
  match dups with
  | [] => (x, Some h)
  | n :: dups =>
      match h with
      | ToServer f =>
          let '(o, a, d) := server_hears n (AppendTo f []) (er x) (er_draws x) in
          let x := mkEnds (ee x) a (ee_draws x) d in
          match o with Returned (Some g) _ => converse dups (ToClient g) x | _ => (x, None) end
      | ToClient f =>
          let '(o, a, d) := client_hears n (AppendTo f []) (ee x) (ee_draws x) in
          let x := mkEnds a (er x) d (er_draws x) in
          match o with Returned (Some g) _ => converse dups (ToServer g) x | _ => (x, None) end
      end
  end.

(** The messages of such a conversation without retransmissions. *)
Fixpoint transcript (n : nat) (h : hop) (x : ends) : list hop :=
  match n with
  | O => []
  | S n => h :: match converse [O] h x with (x, Some h) => transcript n h x | (_, None) => [] end
  end.

(** ** Retransmissions *)

(** A frame that is not the one the role processed last. *)
Definition fresh (last : bytes) (f : Frame) : Prop := last = [] \/ exists g, frame_ok g /\ g <> f /\ last = AppendTo g [].

Lemma wire_size f : frame_ok f -> 4 <= zlen (AppendTo f []).
Proof. intros Hf. destruct (frame_round_trip f Hf) as [_ ->]. unfold MarshalSize, hdrsOffset, eapolHdrSize, eapHdrSize. pose proof (zlen_nonneg (encodeBody f)). destruct (kind f); lia. Qed.

Lemma fresh_differs last f : frame_ok f -> fresh last f -> last <> AppendTo f [].
Proof.
  intros Hf [->|(g & Hg & Hgf & ->)] E; [pose proof (wire_size f Hf) as H; rewrite <-E in H; change (zlen []) with 0 in H; lia|].
  destruct (frame_round_trip g Hg) as [H1 _]. destruct (frame_round_trip f Hf) as [H2 _]. rewrite E, H2 in H1. congruence.
Qed.

Lemma parsed_size w f : Parse w = Ok f -> 0 < zlen w.
Proof. unfold Parse, eapolHdrSize. destruct (Z.ltb_spec (zlen w) 4); [done|lia]. Qed.

Lemma server_recv_again w a d out a' d' : authenticator.Recv sha256 aes w a d = (Returned out None, a', d') -> authenticator.Recv sha256 aes w a' d' = (Returned out None, a', d').
Proof.
  unfold authenticator.Recv at 1. destruct (_ && _ && _) eqn:E.
  - intros [= <- <- <-]. unfold authenticator.Recv. by rewrite E.
  - clear E. destruct (Parse w) as [f|e|] eqn:Ep; [|done..]. destruct (authenticator.handle sha256 aes f a d) as [[[|out' [e|]] a1] d1]; [done..|]. intros [= <- <- <-]. pose proof (parsed_size w f Ep). set (a2 := a1 <| authenticator.lastRx := w |> <| authenticator.lastReply := out' |>).
    assert (H1 : authenticator.lastRx a2 = w) by done. assert (H2 : authenticator.lastReply a2 = out') by done. clearbody a2. unfold authenticator.Recv. rewrite H1, H2. destruct (Z.ltb_spec 0 (zlen w)); [|lia]. destruct (Z.eqb_spec (zlen w) 0); [lia|]. by rewrite bool_decide_eq_true_2.
Qed.

Lemma client_recv_again w a d out a' d' : authenticatee.Recv sha256 aes w a d = (Returned out None, a', d') -> authenticatee.Recv sha256 aes w a' d' = (Returned out None, a', d').
Proof.
  unfold authenticatee.Recv at 1. destruct (_ && _ && _) eqn:E.
  - intros [= <- <- <-]. unfold authenticatee.Recv. by rewrite E.
  - clear E. destruct (Parse w) as [f|e|] eqn:Ep; [|done..]. destruct (authenticatee.handle sha256 aes f a d) as [[[|out' [e|]] a1] d1]; [done..|]. intros [= <- <- <-]. pose proof (parsed_size w f Ep). set (a2 := a1 <| authenticatee.lastRx := w |> <| authenticatee.lastReply := out' |>).
    assert (H1 : authenticatee.lastRx a2 = w) by done. assert (H2 : authenticatee.lastReply a2 = out') by done. clearbody a2. unfold authenticatee.Recv. rewrite H1, H2. destruct (Z.ltb_spec 0 (zlen w)); [|lia]. destruct (Z.eqb_spec (zlen w) 0); [lia|]. by rewrite bool_decide_eq_true_2.
Qed.

Lemma server_hears_frame n f a d out a' d' : frame_ok f -> fresh (authenticator.lastRx a) f -> authenticator.handle sha256 aes f a d = (Returned out None, a', d') ->
  server_hears n (AppendTo f []) a d = (Returned out None, a' <| authenticator.lastRx := AppendTo f [] |> <| authenticator.lastReply := out |>, d').
Proof.
  intros Hf Hr Hh. set (r := (_, _, _)). assert (H0 : authenticator.Recv sha256 aes (AppendTo f []) a d = r).
  { unfold authenticator.Recv. rewrite (bool_decide_eq_false_2 _ (fresh_differs _ f Hf Hr)), andb_false_r. destruct (frame_round_trip f Hf) as [-> _]. by rewrite Hh. }
  unfold server_hears. rewrite H0. induction n as [|n IH]; [done|]. cbn [Nat.iter nat_rect]. change (nat_rect _ _ _ n) with (Nat.iter n (fun '(_, a, d) => authenticator.Recv sha256 aes (AppendTo f []) a d) r). rewrite IH. exact (server_recv_again _ _ _ _ _ _ H0).
Qed.

Lemma client_hears_frame n f a d out a' d' : frame_ok f -> fresh (authenticatee.lastRx a) f -> authenticatee.handle sha256 aes f a d = (Returned out None, a', d') ->
  client_hears n (AppendTo f []) a d = (Returned out None, a' <| authenticatee.lastRx := AppendTo f [] |> <| authenticatee.lastReply := out |>, d').
Proof.
  intros Hf Hr Hh. set (r := (_, _, _)). assert (H0 : authenticatee.Recv sha256 aes (AppendTo f []) a d = r).
  { unfold authenticatee.Recv. rewrite (bool_decide_eq_false_2 _ (fresh_differs _ f Hf Hr)), andb_false_r. destruct (frame_round_trip f Hf) as [-> _]. by rewrite Hh. }
  unfold client_hears. rewrite H0. induction n as [|n IH]; [done|]. cbn [Nat.iter nat_rect]. change (nat_rect _ _ _ n) with (Nat.iter n (fun '(_, a, d) => authenticatee.Recv sha256 aes (AppendTo f []) a d) r). rewrite IH. exact (client_recv_again _ _ _ _ _ _ H0).
Qed.
End wire.

(** ** The messages of the exchange *)

Definition F_identity_req v i : Frame := message v eapCodeRequest i KindIdentityRequest.
Definition F_identity v i user : Frame := message v eapCodeResponse i KindIdentityResponse <| Username := user |>.
Definition F_challenge v i salt : Frame := message v eapCodeRequest i KindChallenge <| Salt := salt |>.
Definition F_client_key v i pub : Frame := message v eapCodeResponse i KindClientKey <| Public := pub |>.
Definition F_server_key v i pub : Frame := message v eapCodeRequest i KindServerKey <| Public := pub |>.
Definition F_client_val v i m1 : Frame := message v eapCodeResponse i KindClientValidator <| Proof_ := m1 |>.
Definition F_server_val v i m2 : Frame := message v eapCodeRequest i KindServerValidator <| Proof_ := m2 |>.
Definition F_success v i : Frame := message v eapCodeSuccess i KindSuccess.

Lemma start_ok : frame_ok startFrame.
Proof. by split. Qed.
Lemma identity_req_ok v i : v <> 0 -> frame_ok (F_identity_req v i).
Proof. by split. Qed.
Lemma success_ok v i : v <> 0 -> frame_ok (F_success v i).
Proof. by split. Qed.
Ltac body_size := unfold eapHdrSize, zlen in *; cbn; try change (zlen [] =? 0) with true; cbn; rewrite ?length_app; cbn; lia.

Lemma identity_ok v i user : v <> 0 -> zlen user <= 255 -> frame_ok (F_identity v i user).
Proof. intros Hv Hu. split; [done| |done]. body_size. Qed.
Lemma challenge_ok v i salt : v <> 0 -> zlen salt <= 1024 -> frame_ok (F_challenge v i salt).
Proof. intros Hv Hs. split; [done| |done]. body_size. Qed.
Lemma client_key_ok v i pub : v <> 0 -> zlen pub <= 1024 -> frame_ok (F_client_key v i pub).
Proof. intros Hv Hs. split; [done| |done]. body_size. Qed.
Lemma server_key_ok v i pub : v <> 0 -> zlen pub <= 1024 -> frame_ok (F_server_key v i pub).
Proof. intros Hv Hs. split; [done| |done]. body_size. Qed.
Lemma client_val_ok v i m1 : v <> 0 -> zlen m1 = 32 -> frame_ok (F_client_val v i m1).
Proof. intros Hv Hm. split; [done| |done]. body_size. Qed.
Lemma server_val_ok (on : bool) v i m2 : v <> 0 -> zlen m2 = 32 -> frame_ok (if on then setSetPassphrase true (F_server_val v i m2) else F_server_val v i m2).
Proof. intros Hv Hm. destruct on; (split; [done| |done]); body_size. Qed.

(** ** The steps of the exchange *)

Section exchange.
Context (sha256 : bytes -> bytes) (aes : bytes -> bytes -> bytes) (lookup : VerifierLookup) (legacy : bool) (user pw : bytes).
Definition version_of (legacy : bool) : Z := if legacy then eapVersion2 else eapVersion3.
Abbreviation v := (version_of legacy).

Definition server_at st i srv name sess ver k lr rep : authenticator.Authenticator := authenticator.mkAuthenticator lookup v legacy st i srv name sess ver (bool_decide (st = StateSuccess)) k lr rep.
Definition client_at st i iv cl salt sess k lr rep : authenticatee.Authenticatee := authenticatee.mkAuthenticatee user pw st i iv cl salt sess k 0 false lr rep.

Lemma server_opens i k lr rep d :
  authenticator.handle sha256 aes startFrame (server_at StateUnauth i None [] [] false k lr rep) d = (reply (F_identity_req v i), server_at StateInProgress i None [] [] false k lr rep, d).
Proof. reflexivity. Qed.

Lemma server_challenges i salt ver s k lr rep d d' : lookup user = Some (ver, salt) -> srp.newServer sha256 (Some srp.DefaultGroup) ver salt legacy d = (Ok s, d') ->
  authenticator.handle sha256 aes (F_identity v i user) (server_at StateInProgress i None [] [] false k lr rep) d =
  (reply (F_challenge v (u8 (i + 1)) salt), server_at StateInProgress (u8 (i + 1)) (Some s) user [] false k lr rep, d').
Proof.
  intros Hl Hn. unfold authenticator.handle. change (Identifier (F_identity v i user)) with i. change (authenticator.id (server_at StateInProgress i None [] [] false k lr rep)) with i. rewrite Z.eqb_refl, andb_false_r. cbv iota. change (kind (F_identity v i user)) with KindIdentityResponse. cbv iota.
  unfold authenticator.on_identity, server_at. cbn [authenticator.lookup authenticator.legacyPad]. change (Username (F_identity v i user)) with user. rewrite Hl. by rewrite Hn.
Qed.

Lemma server_answers i bA bB s s1 name k lr rep d : srp.HandleA bA s = (Ok tt, s1) -> srp.B s1 = Ok bB ->
  authenticator.handle sha256 aes (F_client_key v i bA) (server_at StateInProgress i (Some s) name [] false k lr rep) d =
  (reply (F_server_key v (u8 (i + 1)) bB), server_at StateInProgress (u8 (i + 1)) (Some s1) name [] false k lr rep, d).
Proof.
  intros HA HB. unfold authenticator.handle. change (Identifier (F_client_key v i bA)) with i. change (authenticator.id (server_at _ i _ _ _ _ _ _ _)) with i. rewrite Z.eqb_refl, andb_false_r. cbv iota. change (kind (F_client_key v i bA)) with KindClientKey. cbv iota.
  unfold authenticator.on_client_key, server_at. cbn [authenticator.server]. change (Public (F_client_key v i bA)) with bA. rewrite HA. cbv zeta. by rewrite HB.
Qed.

(** The keys of the data channel: the authenticator transmits under the session key when it was asked to and speaks version 3. *)
Definition server_keys (on : bool) (key : bytes) : keying := let k := noKeying <| enabled := on |> in if on && negb legacy then setTx key k else k.
Definition client_keys (on : bool) (key : bytes) : keying := if on && negb legacy then setRx key noKeying else noKeying.
Definition validator (on : bool) i m2 : Frame := if on && negb legacy then setSetPassphrase true (F_server_val v i m2) else F_server_val v i m2.

Lemma server_verifies (on : bool) i m1 s s2 lr rep d : srp.VerifyM1 sha256 user m1 s = (Ok true, s2) ->
  authenticator.handle sha256 aes (F_client_val v i m1) (server_at StateInProgress i (Some s) user [] false (noKeying <| enabled := on |>) lr rep) d =
  (reply (validator on (u8 (i + 1)) (srp.M2 s2)), server_at StateInProgress (u8 (i + 1)) (Some s2) user (srp.server_SessionKey s2) true (server_keys on (srp.server_SessionKey s2)) lr rep, d).
Proof.
  intros HV. unfold authenticator.handle. change (Identifier (F_client_val v i m1)) with i. change (authenticator.id (server_at _ i _ _ _ _ _ _ _)) with i. rewrite Z.eqb_refl, andb_false_r. cbv iota. change (kind (F_client_val v i m1)) with KindClientValidator. cbv iota.
  unfold authenticator.on_client_validator, server_at. cbn [authenticator.server authenticator.username]. change (Proof_ (F_client_val v i m1)) with m1. rewrite HV. unfold validator, server_keys. by destruct legacy, on.
Qed.

Lemma server_concludes i s name key k lr rep d :
  authenticator.handle sha256 aes (F_success v i) (server_at StateInProgress i s name key true k lr rep) d = (quiet, server_at StateSuccess (u8 (i + 1)) s name key true k lr rep, d).
Proof.
  unfold authenticator.handle. change (Identifier (F_success v i)) with i. change (authenticator.id (server_at _ i _ _ _ _ _ _ _)) with i. by rewrite Z.eqb_refl, andb_false_r.
Qed.

Lemma client_identifies i i0 iv salt k lr rep d :
  authenticatee.handle sha256 aes (F_identity_req v i) (client_at StateInProgress i0 iv None salt [] k lr rep) d = (reply (F_identity v i user), client_at StateInProgress i true None salt [] k lr rep, d).
Proof. unfold authenticatee.handle. destruct legacy, iv; reflexivity. Qed.

(** A request that follows the one the client answered last passes its identifier check. *)
Lemma client_handle_next f i cl salt k lr rep d : authenticatee.server_driven (kind f) = true -> Identifier f = u8 (i + 1) ->
  let a := client_at StateInProgress i true cl salt [] k lr rep in
  authenticatee.handle sha256 aes f a d =
  match kind f with KindChallenge => authenticatee.on_challenge f a d | KindServerKey => authenticatee.on_server_key sha256 f a d | _ => authenticatee.on_server_validator sha256 f a d end.
Proof.
  intros Hk Hi. cbv zeta. unfold authenticatee.handle. rewrite Hi, Hk. change (authenticatee.id (client_at _ i _ _ _ _ _ _ _)) with i. rewrite Z.eqb_refl, andb_false_r. by destruct (kind f).
Qed.

Lemma negotiated : negotiatedVersion (F_success v 0) = v /\ (negotiatedVersion (F_success v 0) =? 2) = legacy /\ (v =? eapVersion3) = negb legacy /\ v <> 0.
Proof. by destruct legacy. Qed.

Lemma client_publishes i salt c bA k lr rep d d' : zlen salt <> 0 -> srp.newClient (Some srp.DefaultGroup) salt legacy d = (Ok c, d') -> srp.A c = Ok bA ->
  authenticatee.handle sha256 aes (F_challenge v (u8 (i + 1)) salt) (client_at StateInProgress i true None [] [] k lr rep) d =
  (reply (F_client_key v (u8 (i + 1)) bA), client_at StateInProgress (u8 (i + 1)) true (Some c) salt [] k lr rep, d').
Proof.
  intros Hs Hn HA. rewrite client_handle_next by done. change (kind _) with KindChallenge. cbv iota. unfold authenticatee.on_challenge. change (challengeGroup _) with (Ok (E := err) srp.DefaultGroup). cbv iota. change (Salt (F_challenge v (u8 (i + 1)) salt)) with salt.
  destruct (Z.eqb_spec (zlen salt) 0); [done|]. change (negotiatedVersion (F_challenge v (u8 (i + 1)) salt)) with (negotiatedVersion (F_success v 0)). destruct negotiated as (-> & E2 & _). cbv zeta. assert (E3 : (v =? 2) = legacy) by (by destruct legacy). rewrite E3, Hn, HA. done.
Qed.

Lemma client_proves i bB c c1 salt k lr rep d : srp.ComputeKey sha256 bB user pw c = (Ok tt, c1) ->
  authenticatee.handle sha256 aes (F_server_key v (u8 (i + 1)) bB) (client_at StateInProgress i true (Some c) salt [] k lr rep) d =
  (reply (F_client_val v (u8 (i + 1)) (srp.M1 c1)), client_at StateInProgress (u8 (i + 1)) true (Some c1) salt [] k lr rep, d).
Proof.
  intros HC. rewrite client_handle_next by done. change (kind _) with KindServerKey. cbv iota. unfold authenticatee.on_server_key. set (a := client_at StateInProgress i true (Some c) salt [] k lr rep). change (authenticatee.client a) with (Some c). cbv iota zeta.
  change (srp.ComputeKey sha256 _ _ _ c) with (srp.ComputeKey sha256 bB user pw c). rewrite HC. by destruct legacy.
Qed.

Lemma client_concludes (on : bool) i m2 c salt lr rep d : zlen m2 <> 0 -> srp.VerifyM2 sha256 c m2 = true ->
  authenticatee.handle sha256 aes (validator on (u8 (i + 1)) m2) (client_at StateInProgress i true (Some c) salt [] noKeying lr rep) d =
  (reply (F_success v (u8 (i + 1))), client_at StateSuccess (u8 (i + 1)) true (Some c) salt (srp.client_SessionKey c) (client_keys on (srp.client_SessionKey c)) lr rep, d).
Proof.
  intros Hm HV. rewrite client_handle_next by (unfold validator; by destruct legacy, on). assert (HP : Proof_ (validator on (u8 (i + 1)) m2) = m2) by (unfold validator; by destruct legacy, on). assert (HK : kind (validator on (u8 (i + 1)) m2) = KindServerValidator) by (unfold validator; by destruct legacy, on). rewrite HK.
  unfold authenticatee.on_server_validator. change (authenticatee.client (client_at StateInProgress i true (Some c) salt [] noKeying lr rep)) with (Some c). cbv iota. rewrite HP. destruct (Z.eqb_spec (zlen m2) 0); [done|]. rewrite HV. unfold validator, client_keys. by destruct legacy, on.
Qed.

(** ** The conversation *)

Lemma fresh_kind g f : frame_ok g -> kind g <> kind f -> fresh (AppendTo g []) f.
Proof. intros Hg Hk. right. exists g. split; [done|]. split; [congruence|done]. Qed.

Lemma converse_server n dups f c st i srv name sess ver k lr rep dc ds g st' i' srv' name' sess' ver' k' ds' : frame_ok f -> fresh lr f ->
  authenticator.handle sha256 aes f (server_at st i srv name sess ver k lr rep) ds = (reply g, server_at st' i' srv' name' sess' ver' k' lr rep, ds') ->
  converse sha256 aes (n :: dups) (ToServer f) (mkEnds c (server_at st i srv name sess ver k lr rep) dc ds) =
  converse sha256 aes dups (ToClient g) (mkEnds c (server_at st' i' srv' name' sess' ver' k' (AppendTo f []) (Some g)) dc ds').
Proof. intros Hf Hr Hh. cbn [converse er er_draws ee ee_draws]. rewrite (server_hears_frame sha256 aes n f (server_at st i srv name sess ver k lr rep) _ (Some g) _ ds' Hf Hr Hh). done. Qed.

Lemma converse_client n dups f a st i iv cl salt sess k lr rep dc ds g st' i' iv' cl' salt' sess' k' dc' : frame_ok f -> fresh lr f ->
  authenticatee.handle sha256 aes f (client_at st i iv cl salt sess k lr rep) dc = (reply g, client_at st' i' iv' cl' salt' sess' k' lr rep, dc') ->
  converse sha256 aes (n :: dups) (ToClient f) (mkEnds (client_at st i iv cl salt sess k lr rep) a dc ds) =
  converse sha256 aes dups (ToServer g) (mkEnds (client_at st' i' iv' cl' salt' sess' k' (AppendTo f []) (Some g)) a dc' ds).
Proof. intros Hf Hr Hh. cbn [converse er er_draws ee ee_draws]. rewrite (client_hears_frame sha256 aes n f (client_at st i iv cl salt sess k lr rep) _ (Some g) _ dc' Hf Hr Hh). done. Qed.

(** Both ends before the client's first frame. *)
Definition at_start (on : bool) (i : Z) (dc ds : list (option Z)) : ends :=
  mkEnds (client_at StateInProgress 0 false None [] [] noKeying [] None) (server_at StateUnauth i None [] [] false (noKeying <| enabled := on |>) [] None) dc ds.

Lemma conversation on i salt ver s s1 s2 c c1 bA bB dups dc dc' ds ds' : (9 <= length dups)%nat -> zlen user <= 255 -> 0 < zlen salt <= 1024 -> zlen bA <= 1024 -> zlen bB <= 1024 -> zlen (srp.M1 c1) = 32 -> zlen (srp.M2 s2) = 32 ->
  lookup user = Some (ver, salt) -> srp.newServer sha256 (Some srp.DefaultGroup) ver salt legacy ds = (Ok s, ds') -> srp.newClient (Some srp.DefaultGroup) salt legacy dc = (Ok c, dc') -> srp.A c = Ok bA ->
  srp.HandleA bA s = (Ok tt, s1) -> srp.B s1 = Ok bB -> srp.ComputeKey sha256 bB user pw c = (Ok tt, c1) -> srp.VerifyM1 sha256 user (srp.M1 c1) s1 = (Ok true, s2) -> srp.VerifyM2 sha256 c1 (srp.M2 s2) = true ->
  let i3 := u8 (u8 (u8 (i + 1) + 1) + 1) in
  exists lc ls rc rs, converse sha256 aes dups (ToServer startFrame) (at_start on i dc ds) =
  (mkEnds (client_at StateSuccess i3 true (Some c1) salt (srp.client_SessionKey c1) (client_keys on (srp.client_SessionKey c1)) lc rc)
          (server_at StateSuccess (u8 (i3 + 1)) (Some s2) user (srp.server_SessionKey s2) true (server_keys on (srp.server_SessionKey s2)) ls rs) dc' ds', None).
Proof.
  intros Hd Hu Hsalt HbA HbB Hm1 Hm2 Hl Hns Hnc HA HhA HB HCK HV1 HV2. cbv zeta. destruct negotiated as (_ & _ & _ & Hv). do 9 (destruct dups as [|? dups]; [cbn in Hd; lia|]). clear Hd. set (i1 := u8 (i + 1)). set (i2 := u8 (i1 + 1)). set (i3 := u8 (i2 + 1)). unfold at_start.
  assert (Hval : frame_ok (validator on i3 (srp.M2 s2))) by (by apply server_val_ok).
  do 4 eexists.
  etransitivity; [apply converse_server; [apply start_ok|by left|apply server_opens]|].
  etransitivity; [apply converse_client; [by apply identity_req_ok|by left|apply client_identifies]|].
  etransitivity; [apply converse_server; [by apply identity_ok|apply fresh_kind; [apply start_ok|done]|by apply (server_challenges _ salt ver s _ _ _ _ ds')]|].
  etransitivity; [apply converse_client; [apply challenge_ok; [done|lia]|apply fresh_kind; [by apply identity_req_ok|done]|apply (client_publishes _ _ c bA); [lia|done|done]]|].
  etransitivity; [apply converse_server; [by apply client_key_ok|apply fresh_kind; [by apply identity_ok|done]|by apply (server_answers _ _ bB _ s1)]|].
  etransitivity; [apply converse_client; [by apply server_key_ok|apply fresh_kind; [apply challenge_ok; [done|lia]|done]|by apply (client_proves _ _ _ c1)]|].
  etransitivity; [apply converse_server; [by apply client_val_ok|apply fresh_kind; [by apply client_key_ok|done]|by apply (server_verifies _ _ _ _ s2)]|].
  etransitivity; [apply converse_client; [exact Hval|apply fresh_kind; [by apply server_key_ok|clear; unfold validator; by destruct legacy, on]|apply client_concludes; [lia|done]]|].
  cbn [converse er er_draws ee ee_draws]. erewrite server_hears_frame; [|by apply success_ok|by apply fresh_kind; [apply client_val_ok|]|apply server_concludes]. reflexivity.
Qed.
End exchange.

(** ** Properties *)

(** C31: The handshake completes under loss: a client with the right password and an authenticator that holds its verifier, in the current or the legacy hashing
    mode, whatever the identifier seed and however often each message is retransmitted, both reach SUCCESS within nine messages with the
    same 32-byte session key; each draws exactly one secret, the authenticator reports the client's user name, and with
    use_key_as_passphrase (version 3) the key the authenticator transmits under is the one the client receives under.  (The exchange has RFC 5054's two
    exceptions, a server value or a scrambling value of zero modulo N.) *)
Theorem eap_handshake sha256 aes lookup (legacy : bool) user pw salt (on : bool) i a b u s c0 a0 dups da db : (forall x, length (sha256 x) = 32%nat) -> (forall x, is_bytes (sha256 x)) ->
  authenticatee.NewAuthenticatee user pw = Ok c0 -> (if legacy then authenticator.NewAuthenticatorLegacy (Some lookup) else authenticator.NewAuthenticator (Some lookup)) = Ok a0 ->
  srp.validateSalt salt = None -> lookup user = Some (srp.MakeVerifier sha256 (Some srp.DefaultGroup) user pw salt, salt) -> 0 <= a -> 0 <= b ->
  srp.newServer sha256 (Some srp.DefaultGroup) (srp.MakeVerifier sha256 (Some srp.DefaultGroup) user pw salt) salt legacy (Some b :: db) = (Ok s, db) ->
  srp.uValue sha256 srp.DefaultGroup (srp.Exp (srp.G srp.DefaultGroup) a (srp.N srp.DefaultGroup)) (srp.s_pubB s) legacy = Ok u -> u mod srp.N srp.DefaultGroup <> 0 -> (9 <= length dups)%nat ->
  let '(start, c1) := authenticatee.Start c0 in
  let '(x, pending) := converse sha256 aes dups (ToServer start) (mkEnds c1 (authenticator.UseKeyAsPassphrase on (authenticator.SeedIdentifier i a0)) (Some a :: da) (Some b :: db)) in
  let key := authenticator.SessionKey (er x) in
  pending = None /\ authenticatee.Authenticated (ee x) = true /\ authenticator.Authenticated (er x) = true /\ authenticatee.SessionKey (ee x) = key /\ zlen key = 32 /\
  authenticator.PeerUsername (er x) = user /\ ee_draws x = da /\ er_draws x = db /\
  if on && negb legacy then Key (authenticator.TxKeying (er x)).1 = key /\ Key (authenticatee.RxKeying (ee x)).1 = key else (authenticator.TxKeying (er x)).2 = false /\ (authenticatee.RxKeying (ee x)).2 = false.
Proof.
  intros Hlen Hby Hc0 Ha0 Hsalt Hl Ha Hb Hns Hu Hu0 Hd. unfold authenticatee.NewAuthenticatee in Hc0. destruct ((zlen user =? 0) || (zlen pw =? 0)); [done|]. destruct (Z.ltb_spec 255 (zlen user)) as [|Hul]; [done|]. destruct (255 <? zlen pw); [done|]. cbn [orb] in Hc0.
  pose proof srp.default_group_ok as Hg. destruct (srp.newServer_for sha256 Hby srp.DefaultGroup Hg user pw salt Hsalt legacy b db) as (r & Er & Hr). rewrite Hns in Er. injection Er as <-. destruct Hr as (Hs & _ & _).
  destruct (srp.client_A srp.DefaultGroup Hg salt legacy a Ha) as (bA & EA & HlA & _). destruct (srp.server_B sha256 srp.DefaultGroup Hg user pw salt legacy b s Hs) as (bB & EB & HlB & _).
  destruct (srp.exchange sha256 Hlen Hby srp.DefaultGroup Hg user pw salt legacy a b s bA bB Ha Hb Hs EA EB) as (s1 & r & c1 & HhA & HCK & Hx). destruct r as [[]|e|]; [|destruct Hx as (_ & u' & Hu' & E); rewrite Hu in Hu'; by injection Hu' as <-|done].
  destruct Hx as (s2 & HV1 & (Hc1 & Hs2 & Hkeys & Hkl & HV2)). assert (HB1 : srp.B s1 = Ok bB) by (unfold srp.HandleA in HhA; destruct (_ || _); [done|]; destruct (_ =? 0); [done|]; by injection HhA as <-).
  assert (Hgl : srp.glength srp.DefaultGroup <= 1024) by (vm_compute; discriminate). assert (Hz : 0 < zlen salt <= 1024) by (unfold srp.validateSalt, srp.MaxSaltLen in Hsalt; pose proof (zlen_nonneg salt); destruct (Z.eqb_spec (zlen salt) 0); [done|]; destruct (Z.ltb_spec 1024 (zlen salt)); [done|lia]).
  destruct (srp.VerifyM1_key sha256 Hlen Hby _ _ _ _ HV1) as (_ & _ & Hm1). assert (Hm2 : zlen (srp.M2 s2) = 32) by (unfold srp.VerifyM2 in HV2; destruct (Z.eqb_spec (zlen (srp.M2 s2)) srp.hashLen); [done|]; by rewrite orb_true_r in HV2).
  destruct (conversation sha256 aes lookup legacy user pw on i salt (srp.MakeVerifier sha256 (Some srp.DefaultGroup) user pw salt) s s1 s2 (srp.client srp.DefaultGroup salt legacy a) c1 bA bB dups (Some a :: da) da (Some b :: db) db) as (lc & ls & rc & rs & HC); try done; try lia; [by apply srp.newClient_value|].
  injection Hc0 as <-. unfold at_start in HC.
  assert (Ea : authenticator.UseKeyAsPassphrase on (authenticator.SeedIdentifier i a0) = server_at lookup legacy StateUnauth i None [] [] false (noKeying <| enabled := on |>) [] None) by (destruct legacy; injection Ha0 as <-; reflexivity). rewrite Ea. clear Ea Ha0.
  set (cl := client_at user pw StateInProgress 0 false None [] [] noKeying [] None) in HC. match goal with |- context [authenticatee.Start ?c] => change (authenticatee.Start c) with (startFrame, cl) end. cbv iota beta. rewrite HC. cbv zeta. cbn [er ee ee_draws er_draws]. unfold client_keys, server_keys. change (zlen _ = 32) with (zlen (srp.server_SessionKey s2) = 32).
  do 4 (split; [done|]). split; [exact Hkl|]. split; [done|]. split; [done|]. split; [done|]. by destruct (on && negb legacy).
Qed.

(** A toy hash with small values, two users, and a handshake with retransmissions. *)
Definition tiny_sha (b : bytes) : bytes := replicate 31 0 ++ [1 + zlen b mod 3].

Lemma tiny_sha_len b : length (tiny_sha b) = 32%nat.
Proof. done. Qed.

Lemma tiny_sha_bytes b : is_bytes (tiny_sha b).
Proof. apply Forall_app. split; [by apply Forall_replicate|]. apply Forall_singleton. pose proof (Z.mod_pos_bound (zlen b) 3). unfold in_u8. lia. Qed.

Definition demo_alice : bytes := [97; 108].
Definition demo_bob : bytes := [98; 111; 98].
Definition demo_pw : bytes := [112; 119].
Definition demo_salt : bytes := [7; 9].
Definition demo_lookup : VerifierLookup := fun u =>
  if bool_decide (u = demo_alice) || bool_decide (u = demo_bob) then Some (srp.MakeVerifier tiny_sha (Some srp.DefaultGroup) u demo_pw demo_salt, demo_salt) else None.
Definition demo_client : authenticatee.Authenticatee := client_at demo_alice demo_pw StateInProgress 0 false None [] [] noKeying [] None.
Definition demo_server : authenticator.Authenticator := server_at demo_lookup false StateUnauth 254 None [] [] false (noKeying <| enabled := true |>) [] None.
Definition demo_dups : list nat := [0; 1; 2; 0; 0; 3; 0; 0; 1]%nat.
Definition demo_ends : ends := mkEnds demo_client demo_server [Some 5] [Some 3; Some 4].

Definition demo_client0 : authenticatee.Authenticatee := authenticatee.mkAuthenticatee demo_alice demo_pw StateUnauth 0 false None [] [] noKeying 0 false [] None.
Definition demo_server0 : authenticator.Authenticator := authenticator.mkAuthenticator demo_lookup eapVersion3 false StateUnauth 0 None [] [] false false noKeying [] None.

Lemma eap_handshake_witness :
  let '(start, c1) := authenticatee.Start demo_client0 in
  let '(x, pending) := converse tiny_sha psk.demo_aes demo_dups (ToServer start) (mkEnds c1 (authenticator.UseKeyAsPassphrase true (authenticator.SeedIdentifier 254 demo_server0)) [Some 5] [Some 3; Some 4]) in
  let key := authenticator.SessionKey (er x) in
  pending = None /\ authenticatee.Authenticated (ee x) = true /\ authenticator.Authenticated (er x) = true /\ authenticatee.SessionKey (ee x) = key /\ zlen key = 32 /\
  authenticator.PeerUsername (er x) = demo_alice /\ ee_draws x = [] /\ er_draws x = [Some 4] /\
  if true && negb false then Key (authenticator.TxKeying (er x)).1 = key /\ Key (authenticatee.RxKeying (ee x)).1 = key else (authenticator.TxKeying (er x)).2 = false /\ (authenticatee.RxKeying (ee x)).2 = false.
Proof.
  set (ns := srp.newServer tiny_sha (Some srp.DefaultGroup) (srp.MakeVerifier tiny_sha (Some srp.DefaultGroup) demo_alice demo_pw demo_salt) demo_salt false [Some 3; Some 4]).
  assert (Hns : match ns with (Ok s, d) => d = [Some 4] /\ match srp.uValue tiny_sha srp.DefaultGroup (srp.Exp (srp.G srp.DefaultGroup) 5 (srp.N srp.DefaultGroup)) (srp.s_pubB s) false with Ok u => (u mod srp.N srp.DefaultGroup =? 0) = false | _ => False end | _ => False end) by (vm_compute; split; reflexivity).
  destruct ns as [[s|e|] d] eqn:En; [|destruct Hns..]. destruct Hns as [-> Hu]. destruct (srp.uValue _ _ _ _ _) as [u|e|] eqn:Eu; [|destruct Hu..].
  apply (eap_handshake tiny_sha psk.demo_aes demo_lookup false demo_alice demo_pw demo_salt true 254 5 3 u s demo_client0 demo_server0 demo_dups [] [Some 4] tiny_sha_len tiny_sha_bytes); [reflexivity..|done|done|exact En|exact Eu|by apply Z.eqb_neq|cbn; lia].
Defined.
End handshake.
