(* ===== verification/EapSafety.v ===== *)
(** * EAP-SRP: what arbitrary datagrams can do to the two roles

    EAPOL frames are never encrypted, so every datagram may come from a forger.  Over arbitrary bytes, in any order and interleaved with the
    host's own calls: neither role panics; SUCCESS always goes back to a proof that was accepted; a live session survives everything but the
    messages that open a re-authentication.  One theorem is a defect: the identity an authenticator reports need not be the one that was
    proved. *)

From S2P Require Import Prelude Bytes Psk Srp Eap EapState EapClient EapServer EapHandshake.

#[local] Opaque srp.DefaultGroup.

Module eapsafety.
Import eap eapstate handshake.

(** ** Runs *)

(** Where a fact that holds after a run comes from: the step that established it with its present value. *)
Lemma trace_origin {St E K} (step : St -> E -> St) (P : St -> Prop) (key : St -> K) (accepts : St -> E -> K -> Prop) s0 :
  ~ P s0 -> (forall s e, P (step s e) -> (P s /\ key (step s e) = key s) \/ accepts s e (key (step s e))) ->
  forall es, P (foldl step s0 es) -> exists pre e post, es = pre ++ e :: post /\ accepts (foldl step s0 pre) e (key (foldl step s0 es)).
Proof.
  intros H0 Hstep es. induction es as [|e es IH] using rev_ind; [done|]. rewrite foldl_snoc. intros HP. destruct (Hstep _ _ HP) as [[HP' Hk]|Ha].
  - destruct (IH HP') as (pre & e' & post & -> & Ha). exists pre, e', (post ++ [e]). rewrite <-app_assoc. split; [done|]. by rewrite Hk.
  - by exists es, e, [].
Qed.

Section roles.
Context (sha256 : bytes -> bytes) (sha_len : forall b, length (sha256 b) = 32%nat) (sha_bytes : forall b, is_bytes (sha256 b)) (aes : bytes -> bytes -> bytes).
Abbreviation grp := srp.DefaultGroup.

(** ** The authenticator *)

(** The calls a host makes. *)
Inductive server_event := SRecv (payload : bytes) | SStart | SRestart | SSeed (id : Z) | SUseKey (on : bool).

Definition server_step (st : authenticator.Authenticator * list (option Z)) (e : server_event) : authenticator.Authenticator * list (option Z) :=
  let '(a, draws) := st in
  match e with
  | SRecv p => let '(_, a, draws) := authenticator.Recv sha256 aes p a draws in (a, draws)
  | SStart => (snd (authenticator.Start a), draws)
  | SRestart => (authenticator.Restart a, draws)
  | SSeed id => (authenticator.SeedIdentifier id a, draws)
  | SUseKey on => (authenticator.UseKeyAsPassphrase on a, draws)
  end.

Definition server_run : authenticator.Authenticator * list (option Z) -> list server_event -> authenticator.Authenticator * list (option Z) := foldl server_step.

Definition server_ok (a : authenticator.Authenticator) : Prop :=
  forall s, authenticator.server a = Some s -> srp.s_group s = grp /\ 0 <= srp.s_pubB s < srp.N grp /\ forall x, srp.s_pubA s = Some x -> 0 <= x /\ srp.byte_len x <= srp.glength grp.

Definition outcome_of {A} (r : outcome * A * list (option Z)) : outcome := r.1.1.
Definition role_of {A} (r : outcome * A * list (option Z)) : A := r.1.2.

Lemma server_handle_total f a draws : frame_typed f -> server_ok a -> outcome_of (authenticator.handle sha256 aes f a draws) <> Panicked /\ server_ok (role_of (authenticator.handle sha256 aes f a draws)).
Proof.
  intros Hf Ha. unfold authenticator.handle. destruct (_ && _ && _); [done|]. destruct (kind f); try done.
  - unfold authenticator.on_start. destruct (bool_decide _); [done|]. split; [done|]. cbn. destruct (bool_decide (authenticator.state a = StateUnauth)) eqn:E; cbn; [rewrite E|]; done.
  - unfold authenticator.on_logoff. by destruct (_ || _ || _).
  - unfold authenticator.on_identity. destruct (authenticator.lookup a (Username f)) as [[ver salt]|]; [|done]. pose proof (srp.newServer_total sha256 grp srp.default_group_ok ver salt (authenticator.legacyPad a) draws) as H.
    destruct (srp.newServer _ _ _ _ _ _) as [[s|e|] draws']; [|done..]. split; [done|]. destruct H as (H1 & H2 & H3 & _). intros s' [= <-]. split; [done|]. split; [done|]. by rewrite H3.
  - unfold authenticator.on_client_key. destruct (authenticator.server a) as [s|] eqn:Es; [|done]. destruct (Ha s Es) as (Hg & HB & HA). pose proof (srp.HandleA_total grp (Public f) s (ft_public f Hf) Hg) as H.
    destruct (srp.HandleA (Public f) s) as [[[]|e|] s1]; destruct H as (H1 & Hg1 & HB1).
    + split; [|intros s' [= <-]; split; [done|]; split; [lia|]; destruct H1 as (x & Hx & H1 & H2 & _); rewrite Hx; by intros ? [= <-]]. unfold outcome_of, srp.B. cbn. rewrite Hg1. by destruct (srp.pad_total grp srp.default_group_ok (srp.s_pubB s1)) as (b & -> & _); [lia|].
    + destruct H1 as [_ ->]. split; [done|]. by intros s' [= <-].
    + done.
  - unfold authenticator.on_client_validator. destruct (authenticator.server a) as [s|] eqn:Es; [|done]. destruct (Ha s Es) as (Hg & HB & HA).
    destruct (srp.VerifyM1_total sha256 sha_bytes grp srp.default_group_ok (authenticator.username a) (Proof_ f) s Hg HB HA) as (ok & s1 & -> & Hg1 & HB1 & HA1 & _).
    assert (Hs1 : forall s', Some s1 = Some s' -> srp.s_group s' = grp /\ 0 <= srp.s_pubB s' < srp.N grp /\ forall x, srp.s_pubA s' = Some x -> 0 <= x /\ srp.byte_len x <= srp.glength grp) by (intros s' [= <-]; rewrite HA1, HB1; done).
    destruct ok; [|split; [done|exact Hs1]]. cbv zeta. destruct (SetPassphrase f && _), (enabled _ && _); (split; [done|exact Hs1]).
  - split; [done|]. cbn. by destruct (authenticator.verified a).
  - split; [done|]. cbn. by destruct (authenticator.verified a).
  - by destruct (negb _).
  - by destruct (negb _).
  - unfold authenticator.on_password_response. destruct (negb _); [done|]. pose proof (installPushedRx_total aes (authenticator.keyed a) (authenticator.session a) f) as H. by destruct (installPushedRx _ _ _ _).
Qed.

Lemma server_recv_total p a draws : is_bytes p -> server_ok a -> outcome_of (authenticator.Recv sha256 aes p a draws) <> Panicked /\ server_ok (role_of (authenticator.Recv sha256 aes p a draws)).
Proof.
  intros Hp Ha. unfold authenticator.Recv. destruct (_ && _ && _); [done|]. pose proof (eap_Parse_total p Hp) as Hf. destruct (Parse p) as [f|e|]; [|done..]. destruct (server_handle_total f a draws Hf Ha) as [H1 H2].
  by destruct (authenticator.handle sha256 aes f a draws) as [[[|out [e|]] a'] d].
Qed.

(** The proof of a client, at the authenticator that receives it. *)
Definition server_accepts (a : authenticator.Authenticator) (f : Frame) (key : bytes) : Prop :=
  kind f = KindClientValidator /\
  exists s s', authenticator.server a = Some s /\ srp.VerifyM1 sha256 (authenticator.username a) (Proof_ f) s = (Ok true, s') /\ key = srp.server_SessionKey s' /\ zlen key = srp.hashLen.

(** A branch that neither accepts a proof nor reports SUCCESS anew. *)
Ltac role_idle := first [by auto | split; [by auto|by auto] | split; [done|by auto]].

Lemma server_handle_verified f a draws : let a' := role_of (authenticator.handle sha256 aes f a draws) in
  ((authenticator.state a = StateSuccess -> authenticator.verified a = true) -> authenticator.state a' = StateSuccess -> authenticator.verified a' = true) /\
  (authenticator.verified a' = true -> (authenticator.verified a = true /\ authenticator.session a' = authenticator.session a) \/ server_accepts a f (authenticator.session a')).
Proof.
  cbv zeta. unfold authenticator.handle. destruct (_ && _ && _); [role_idle|]. destruct (kind f) eqn:Ek; try role_idle.
  - unfold authenticator.on_start. destruct (bool_decide (_ = StateInProgress)); [role_idle|]. cbn. destruct (bool_decide (authenticator.state a = StateUnauth)) eqn:E; cbn; [rewrite E; role_idle|done].
  - unfold authenticator.on_logoff. destruct (_ || _ || _); [role_idle|done].
  - unfold authenticator.on_identity. destruct (authenticator.lookup a (Username f)) as [[ver salt]|]; [|role_idle]. destruct (srp.newServer _ _ _ _ _ _) as [[s|e|] draws']; role_idle.
  - unfold authenticator.on_client_key. destruct (authenticator.server a) as [s|]; [|role_idle]. destruct (srp.HandleA (Public f) s) as [[[]|e|] s1]; role_idle.
  - unfold authenticator.on_client_validator. destruct (authenticator.server a) as [s|] eqn:Es; [|role_idle]. destruct (srp.VerifyM1 _ _ _ s) as [[[]|e|] s1] eqn:EV; [|role_idle..].
    destruct (srp.VerifyM1_key sha256 sha_len sha_bytes _ _ _ _ EV) as (_ & Hl & _). assert (Hacc : server_accepts a f (srp.server_SessionKey s1)) by (split; [done|]; by exists s, s1).
    cbv zeta. destruct (SetPassphrase f && _), (enabled _ && _); (split; [done|by right]).
  - cbn. destruct (authenticator.verified a) eqn:Ev; cbn; [role_idle|]. rewrite Ev. role_idle.
  - cbn. destruct (authenticator.verified a) eqn:Ev; cbn; [role_idle|]. rewrite Ev. role_idle.
  - destruct (negb _); role_idle.
  - destruct (negb _); role_idle.
  - unfold authenticator.on_password_response. destruct (negb _); [role_idle|]. destruct (installPushedRx _ _ _ _); role_idle.
Qed.

(** The event of a run that carries an accepted proof. *)
Definition server_proved (st : authenticator.Authenticator * list (option Z)) (e : server_event) (key : bytes) : Prop :=
  exists p f, e = SRecv p /\ Parse p = Ok f /\ server_accepts st.1 f key.

Lemma server_step_verified st e : let st' := server_step st e in
  ((authenticator.state st.1 = StateSuccess -> authenticator.verified st.1 = true) -> authenticator.state st'.1 = StateSuccess -> authenticator.verified st'.1 = true) /\
  (authenticator.verified st'.1 = true -> (authenticator.verified st.1 = true /\ authenticator.session st'.1 = authenticator.session st.1) \/ server_proved st e (authenticator.session st'.1)).
Proof.
  cbv zeta. destruct st as [a draws]. cbn [fst]. destruct e as [p| | |i|on]; cbn [server_step].
  - unfold authenticator.Recv. destruct (_ && _ && _); [role_idle|]. destruct (Parse p) as [f|e|] eqn:Ep; [|role_idle..]. destruct (server_handle_verified f a draws) as [H1 H2].
    assert (H3 : server_accepts a f (authenticator.session (role_of (authenticator.handle sha256 aes f a draws))) -> server_proved (a, draws) (SRecv p) (authenticator.session (role_of (authenticator.handle sha256 aes f a draws)))) by (intros; by exists p, f).
    destruct (authenticator.handle sha256 aes f a draws) as [[[|out [e|]] a'] d]; cbn [fst snd role_of] in *; (split; [exact H1|intros Hv; destruct (H2 Hv); [by left|right; by apply H3]]).
  - cbn. destruct (bool_decide _); role_idle.
  - done.
  - unfold authenticator.SeedIdentifier. destruct (bool_decide _); role_idle.
  - unfold authenticator.UseKeyAsPassphrase. destruct (bool_decide _); role_idle.
Qed.

(** What may move an authenticator out of SUCCESS: the opening of a re-authentication, or a message of the exchange that carries the current identifier. *)
Definition reopens (a : authenticator.Authenticator) (f : Frame) : Prop :=
  kind f = KindStart \/ (Identifier f = authenticator.id a /\ (kind f = KindIdentityResponse \/ kind f = KindClientKey \/ kind f = KindClientValidator)).

Lemma server_handle_live f a draws : let a' := role_of (authenticator.handle sha256 aes f a draws) in
  authenticator.state a = StateSuccess -> reopens a f \/ (authenticator.state a' = StateSuccess /\ authenticator.session a' = authenticator.session a /\ authenticator.username a' = authenticator.username a /\ tx (authenticator.keyed a') = tx (authenticator.keyed a)).
Proof.
  cbv zeta. intros Hs. unfold authenticator.handle. destruct (_ && _ && _) eqn:Eg; [by right|]. rewrite Hs in Eg. destruct (kind f) eqn:Ek; try (by right).
  - by left; left.
  - right. unfold authenticator.on_logoff. rewrite Hs. done.
  - left; right. split; [|by auto]. by destruct (Z.eqb_spec (Identifier f) (authenticator.id a)).
  - left; right. split; [|by auto]. by destruct (Z.eqb_spec (Identifier f) (authenticator.id a)).
  - left; right. split; [|by auto]. by destruct (Z.eqb_spec (Identifier f) (authenticator.id a)).
  - right. cbn. by destruct (authenticator.verified a).
  - right. cbn. by destruct (authenticator.verified a).
  - right. rewrite Hs. done.
  - right. rewrite Hs. done.
  - right. unfold authenticator.on_password_response. rewrite Hs. cbn [negb]. change (bool_decide (StateSuccess = StateSuccess)) with true. cbn [negb]. pose proof (installPushedRx_total aes (authenticator.keyed a) (authenticator.session a) f) as H.
    destruct (installPushedRx _ _ _ _) as [k|e|]; [|done..]. by destruct H.
Qed.

(** ** The authenticatee *)

Inductive client_event := CRecv (payload : bytes) | CStart | CRestart | CUseKey (on : bool) | CPasswordRequest.

Definition client_step (st : authenticatee.Authenticatee * list (option Z)) (e : client_event) : authenticatee.Authenticatee * list (option Z) :=
  let '(a, draws) := st in
  match e with
  | CRecv p => let '(_, a, draws) := authenticatee.Recv sha256 aes p a draws in (a, draws)
  | CStart => (snd (authenticatee.Start a), draws)
  | CRestart => (authenticatee.Restart a, draws)
  | CUseKey on => (authenticatee.UseKeyAsPassphrase on a, draws)
  | CPasswordRequest => (snd (authenticatee.PasswordRequest a), draws)
  end.

Definition client_run : authenticatee.Authenticatee * list (option Z) -> list client_event -> authenticatee.Authenticatee * list (option Z) := foldl client_step.

Definition client_ok (a : authenticatee.Authenticatee) : Prop := forall c, authenticatee.client a = Some c -> srp.c_group c = grp /\ 0 <= srp.c_pubA c < srp.N grp.

(** The proof of a server, at the authenticatee that receives it. *)
Definition client_accepts (a : authenticatee.Authenticatee) (f : Frame) (key : bytes) : Prop :=
  kind f = KindServerValidator /\ exists c, authenticatee.client a = Some c /\ srp.VerifyM2 sha256 c (Proof_ f) = true /\ key = srp.client_SessionKey c.

Lemma client_fail_ok e a draws : client_ok a -> outcome_of (authenticatee.fail e a draws) <> Panicked /\ client_ok (role_of (authenticatee.fail e a draws)).
Proof. done. Qed.

Lemma client_challenge_total f a draws : client_ok a -> outcome_of (authenticatee.on_challenge f a draws) <> Panicked /\ client_ok (role_of (authenticatee.on_challenge f a draws)).
Proof.
  intros Ha. unfold authenticatee.on_challenge, challengeGroup. destruct (zlen (GenG f) =? 0); [|done]. destruct (zlen (Salt f) =? 0); [done|]. pose proof (srp.newClient_total grp srp.default_group_ok (Salt f) (negotiatedVersion f =? 2) draws) as H.
  destruct (srp.newClient _ _ _ _) as [[c|e|] draws']; [|done..]. destruct H as (Hg & HA & _). split; [|by intros c' [= <-]]. unfold outcome_of, srp.A. cbn. rewrite Hg. by destruct (srp.pad_total grp srp.default_group_ok (srp.c_pubA c) HA) as (b & -> & _).
Qed.

Lemma client_key_total f a draws : frame_typed f -> client_ok a -> outcome_of (authenticatee.on_server_key sha256 f a draws) <> Panicked /\ client_ok (role_of (authenticatee.on_server_key sha256 f a draws)).
Proof.
  intros Hf Ha. unfold authenticatee.on_server_key. destruct (authenticatee.client a) as [c|] eqn:Ec; [|by apply client_fail_ok]. destruct (Ha c Ec) as [Hg HA].
  pose proof (srp.ComputeKey_total sha256 sha_bytes grp srp.default_group_ok (Public f) (authenticatee.username a) (authenticatee.password a) c (ft_public f Hf) Hg HA) as H. cbn [authenticatee.username authenticatee.password].
  change (authenticatee.username (authenticatee.adopt f a)) with (authenticatee.username a). change (authenticatee.password (authenticatee.adopt f a)) with (authenticatee.password a).
  destruct (srp.ComputeKey _ _ _ _ c) as [[[]|e|] c']; destruct H as (H & Hg' & HA'); [|subst|done]; (split; [done|intros c2 [= <-]; split; [done|]; lia]).
Qed.

Lemma client_validator_total f a draws : client_ok a -> outcome_of (authenticatee.on_server_validator sha256 f a draws) <> Panicked /\ client_ok (role_of (authenticatee.on_server_validator sha256 f a draws)).
Proof.
  intros Ha. unfold authenticatee.on_server_validator. destruct (authenticatee.client a) as [c|] eqn:Ec; [|by apply client_fail_ok]. destruct (zlen _ =? 0); [by apply client_fail_ok|].
  assert (Hc : forall c', Some c = Some c' -> srp.c_group c' = grp /\ 0 <= srp.c_pubA c' < srp.N grp) by (intros c' [= <-]; by apply Ha). rewrite <-Ec in Hc. destruct (negb _); [by split|]. cbv zeta. by destruct (_ && _).
Qed.

Lemma client_handle_total f a draws : frame_typed f -> client_ok a -> outcome_of (authenticatee.handle sha256 aes f a draws) <> Panicked /\ client_ok (role_of (authenticatee.handle sha256 aes f a draws)).
Proof.
  intros Hf Ha. unfold authenticatee.handle. destruct (bool_decide (kind f = KindFailure)); [by destruct (_ || _)|]. destruct (_ && _); [done|]. cbv zeta. set (a1 := if bool_decide (authenticatee.state a = StateSuccess) && bool_decide (kind f = KindIdentityRequest) then authenticatee.Restart a else a).
  assert (Ha1 : client_ok a1) by (subst a1; by destruct (_ && _)). clearbody a1. destruct (_ && _ && _ && _); [done|]. destruct (kind f); try done.
  - split; [done|]. unfold authenticatee.on_identity. cbn. by destruct (bool_decide _).
  - by apply client_challenge_total.
  - by apply client_key_total.
  - by apply client_validator_total.
  - by destruct (negb _).
  - unfold authenticatee.on_password_response. destruct (negb _); [done|]. destruct (_ && _); [done|]. pose proof (installPushedRx_total aes (authenticatee.keyed a1) (authenticatee.session a1) f) as H. by destruct (installPushedRx _ _ _ _).
Qed.

Lemma client_recv_total p a draws : is_bytes p -> client_ok a -> outcome_of (authenticatee.Recv sha256 aes p a draws) <> Panicked /\ client_ok (role_of (authenticatee.Recv sha256 aes p a draws)).
Proof.
  intros Hp Ha. unfold authenticatee.Recv. destruct (_ && _ && _); [done|]. pose proof (eap_Parse_total p Hp) as Hf. destruct (Parse p) as [f|e|]; [|done..]. destruct (client_handle_total f a draws Hf Ha) as [H1 H2].
  by destruct (authenticatee.handle sha256 aes f a draws) as [[[|out [e|]] a'] d].
Qed.

Definition client_kept (a a' : authenticatee.Authenticatee) : Prop :=
  authenticatee.state a' = StateSuccess /\ authenticatee.session a' = authenticatee.session a /\ authenticatee.client a' = authenticatee.client a /\ tx (authenticatee.keyed a') = tx (authenticatee.keyed a).

(** Comparisons of message kinds. *)
Ltac compute_kinds := repeat match goal with |- context [@bool_decide (@eq Kind ?a ?b) ?d] => let v := eval vm_compute in (@bool_decide (@eq Kind a b) d) in change (@bool_decide (@eq Kind a b) d) with v end; cbv iota.

(** A message that finds the authenticatee in SUCCESS, and one that does not. *)
Lemma client_handle_live f a draws : let a' := role_of (authenticatee.handle sha256 aes f a draws) in
  authenticatee.state a = StateSuccess -> if bool_decide (kind f = KindIdentityRequest) then authenticatee.state a' = StateInProgress else client_kept a a'.
Proof.
  cbv zeta. intros Hs. unfold authenticatee.handle. rewrite Hs. change (bool_decide (StateSuccess = StateSuccess)) with true. change (bool_decide (StateSuccess = StateInProgress)) with false. cbn [negb orb andb].
  destruct (kind f); compute_kinds; cbn [authenticatee.server_driven andb negb]; rewrite ?andb_false_r; cbn [andb]; try (by repeat split); try done; [by rewrite Hs|].
  unfold authenticatee.on_password_response. rewrite Hs. change (bool_decide (StateSuccess = StateSuccess)) with true. cbn [negb]. destruct (_ && _); [by repeat split|].
  pose proof (installPushedRx_total aes (authenticatee.keyed a) (authenticatee.session a) f) as H. destruct (installPushedRx _ _ _ _) as [k|e|]; [|by repeat split|done]. destruct H. by repeat split.
Qed.

Lemma client_handle_fresh f a draws : let a' := role_of (authenticatee.handle sha256 aes f a draws) in
  authenticatee.state a <> StateSuccess -> authenticatee.state a' = StateSuccess -> client_accepts a f (authenticatee.session a').
Proof.
  cbv zeta. intros Hs. unfold authenticatee.handle. rewrite (bool_decide_eq_false_2 (authenticatee.state a = StateSuccess)) by done. cbn [andb]. destruct (bool_decide (kind f = KindFailure)); [by destruct (_ || _)|]. destruct (_ && _ && _ && _); [done|].
  destruct (kind f) eqn:Ek; try done.
  - unfold authenticatee.on_identity. cbn. by destruct (bool_decide _).
  - unfold authenticatee.on_challenge. destruct (challengeGroup f); [|done..]. destruct (_ =? 0); [done|]. by destruct (srp.newClient _ _ _ _) as [[]].
  - unfold authenticatee.on_server_key. destruct (authenticatee.client a); [|done]. by destruct (srp.ComputeKey _ _ _ _ _) as [[]].
  - unfold authenticatee.on_server_validator. destruct (authenticatee.client a) as [c|] eqn:Ec; [|done]. destruct (_ =? 0); [done|]. destruct (srp.VerifyM2 sha256 c (Proof_ f)) eqn:Ev; [|done]. cbn [negb]. cbv zeta. intros _. split; [done|]. exists c. split; [done|]. split; [done|]. by destruct (_ && _).
  - by rewrite bool_decide_eq_false_2.
  - unfold authenticatee.on_password_response. by rewrite bool_decide_eq_false_2.
Qed.

Definition client_proved (st : authenticatee.Authenticatee * list (option Z)) (e : client_event) (key : bytes) : Prop :=
  exists p f, e = CRecv p /\ Parse p = Ok f /\ client_accepts st.1 f key.

Lemma client_step_success st e : let st' := client_step st e in authenticatee.state st'.1 = StateSuccess ->
  (authenticatee.state st.1 = StateSuccess /\ authenticatee.session st'.1 = authenticatee.session st.1) \/ client_proved st e (authenticatee.session st'.1).
Proof.
  cbv zeta. destruct st as [a draws]. cbn [fst]. destruct e as [p| | |on|]; cbn [client_step].
  - unfold authenticatee.Recv. destruct (_ && _ && _); [by auto|]. destruct (Parse p) as [f|e|] eqn:Ep; [|by auto..]. pose proof (client_handle_live f a draws) as H1. pose proof (client_handle_fresh f a draws) as H2. cbv zeta in H1, H2.
    assert (HR : authenticatee.state (role_of (authenticatee.handle sha256 aes f a draws)) = StateSuccess ->
      (authenticatee.state a = StateSuccess /\ authenticatee.session (role_of (authenticatee.handle sha256 aes f a draws)) = authenticatee.session a) \/ client_proved (a, draws) (CRecv p) (authenticatee.session (role_of (authenticatee.handle sha256 aes f a draws)))).
    { intros HS. destruct (decide (authenticatee.state a = StateSuccess)) as [Hs|Hs]; [left|right; exists p, f; by auto]. split; [done|]. specialize (H1 Hs). destruct (bool_decide _); [by rewrite H1 in HS|]. by destruct H1 as (_ & -> & _). }
    clear H1 H2. destruct (authenticatee.handle sha256 aes f a draws) as [[[|out [e|]] a'] d]; exact HR.
  - cbn. destruct (bool_decide _); [done|by auto].
  - done.
  - unfold authenticatee.UseKeyAsPassphrase. destruct (bool_decide _); by auto.
  - unfold authenticatee.PasswordRequest. destruct (_ || _); by auto.
Qed.

(** ** Whole runs *)

Definition server_bytes (e : server_event) : Prop := match e with SRecv p => is_bytes p | _ => True end.
Definition client_bytes (e : client_event) : Prop := match e with CRecv p => is_bytes p | _ => True end.

Lemma server_run_ok es : forall st, Forall server_bytes es -> server_ok st.1 -> server_ok (server_run st es).1.
Proof.
  induction es as [|e es IH]; intros st Hes Ha; [done|]. apply Forall_cons in Hes as [He Hes]. cbn [server_run foldl]. apply IH; [done|]. clear IH. destruct st as [a d]. destruct e as [p| | |i|on]; cbn [server_step].
  - pose proof (server_recv_total p a d He Ha) as [_ H]. by destruct (authenticator.Recv sha256 aes p a d) as [[o a'] d'].
  - cbn. by destruct (bool_decide _).
  - done.
  - unfold authenticator.SeedIdentifier. by destruct (bool_decide _).
  - unfold authenticator.UseKeyAsPassphrase. by destruct (bool_decide _).
Qed.

Lemma client_run_ok es : forall st, Forall client_bytes es -> client_ok st.1 -> client_ok (client_run st es).1.
Proof.
  induction es as [|e es IH]; intros st Hes Ha; [done|]. apply Forall_cons in Hes as [He Hes]. cbn [client_run foldl]. apply IH; [done|]. clear IH. destruct st as [a d]. destruct e as [p| | |on|]; cbn [client_step].
  - pose proof (client_recv_total p a d He Ha) as [_ H]. by destruct (authenticatee.Recv sha256 aes p a d) as [[o a'] d'].
  - cbn. by destruct (bool_decide _).
  - done.
  - unfold authenticatee.UseKeyAsPassphrase. by destruct (bool_decide _).
  - unfold authenticatee.PasswordRequest. by destruct (_ || _).
Qed.

Lemma server_run_verified es st : (authenticator.state st.1 = StateSuccess -> authenticator.verified st.1 = true) ->
  authenticator.state (server_run st es).1 = StateSuccess -> authenticator.verified (server_run st es).1 = true.
Proof.
  revert st. induction es as [|e es IH]; intros st Hst; [done|]. apply (IH (server_step st e)). by apply (server_step_verified st e).
Qed.

(** SUCCESS of a fresh role goes back to a proof it verified. *)
Lemma server_success_origin lookup v legacy a0 ds es : authenticator.newAuthenticator (Some lookup) v legacy = Ok a0 -> authenticator.Authenticated (server_run (a0, ds) es).1 = true ->
  exists pre e post, es = pre ++ e :: post /\ server_proved (server_run (a0, ds) pre) e (authenticator.SessionKey (server_run (a0, ds) es).1).
Proof.
  intros [= <-] HS. apply bool_decide_eq_true in HS. apply server_run_verified in HS; [|done].
  refine (trace_origin server_step (fun st => authenticator.verified st.1 = true) (fun st => authenticator.session st.1) server_proved _ _ _ es HS); [done|]. intros st e. by apply server_step_verified.
Qed.

Lemma client_success_origin user pw c0 dc es : authenticatee.NewAuthenticatee user pw = Ok c0 -> authenticatee.Authenticated (client_run (c0, dc) es).1 = true ->
  exists pre e post, es = pre ++ e :: post /\ client_proved (client_run (c0, dc) pre) e (authenticatee.SessionKey (client_run (c0, dc) es).1).
Proof.
  intros Hc0 HS. unfold authenticatee.NewAuthenticatee in Hc0. destruct (_ || _); [done|]. destruct (_ || _); [done|]. injection Hc0 as <-. apply bool_decide_eq_true in HS.
  refine (trace_origin client_step (fun st => authenticatee.state st.1 = StateSuccess) (fun st => authenticatee.session st.1) client_proved _ _ _ es HS); [done|]. intros st e. by apply client_step_success.
Qed.
End roles.

(** ** Properties *)

(** C32: No SUCCESS without a proof: after any sequence of received datagrams and host calls from a fresh authenticator, SUCCESS goes back to
    a client proof the server side verified at the moment it arrived, against the user name then presented, and the session key is the
    32-byte key of that exchange; and a fresh authenticatee reports SUCCESS only after it verified a server proof, whose key is its session key. *)
Theorem eap_success_needs_proof sha256 aes lookup v legacy user pw a0 c0 ses ces ds dc :
  (forall b, length (sha256 b) = 32%nat) -> (forall b, is_bytes (sha256 b)) ->
  authenticator.newAuthenticator (Some lookup) v legacy = Ok a0 -> authenticatee.NewAuthenticatee user pw = Ok c0 ->
  let a := (server_run sha256 aes (a0, ds) ses).1 in let c := (client_run sha256 aes (c0, dc) ces).1 in
  (authenticator.Authenticated a = true ->
     exists pre e post, ses = pre ++ e :: post /\ server_proved sha256 (server_run sha256 aes (a0, ds) pre) e (authenticator.SessionKey a)) /\
  (authenticatee.Authenticated c = true ->
     exists pre e post, ces = pre ++ e :: post /\ client_proved sha256 (client_run sha256 aes (c0, dc) pre) e (authenticatee.SessionKey c)).
Proof. intros Hl Hb Ha0 Hc0. split; intros HS; [by eapply server_success_origin|by eapply client_success_origin]. Qed.

(** Whatever datagrams arrive, in whatever order and between whatever calls of the host, [Recv] of neither role panics. *)
Theorem eap_never_panics sha256 aes lookup v legacy user pw a0 c0 ses ces ds dc p :
  (forall b, length (sha256 b) = 32%nat) -> (forall b, is_bytes (sha256 b)) ->
  authenticator.newAuthenticator (Some lookup) v legacy = Ok a0 -> authenticatee.NewAuthenticatee user pw = Ok c0 -> Forall server_bytes ses -> Forall client_bytes ces -> is_bytes p ->
  let '(a, d) := server_run sha256 aes (a0, ds) ses in let '(c, e) := client_run sha256 aes (c0, dc) ces in
  outcome_of (authenticator.Recv sha256 aes p a d) <> Panicked /\ outcome_of (authenticatee.Recv sha256 aes p c e) <> Panicked.
Proof.
  intros Hl Hb Ha0 Hc0 Hses Hces Hp. injection Ha0 as Ha0. unfold authenticatee.NewAuthenticatee in Hc0. destruct (_ || _); [done|]. destruct (_ || _); [done|]. injection Hc0 as Hc0.
  pose proof (server_run_ok sha256 Hb aes ses (a0, ds) Hses) as H1. pose proof (client_run_ok sha256 Hb aes ces (c0, dc) Hces) as H2.
  destruct (server_run sha256 aes (a0, ds) ses) as [a d]. destruct (client_run sha256 aes (c0, dc) ces) as [c e]. subst a0 c0. split; [apply server_recv_total|apply client_recv_total]; [done|done|by apply H1|done|done|by apply H2].
Qed.

(** C34: A live session is not torn down by an injected datagram: whatever bytes reach an authenticatee in SUCCESS, it keeps its state, its session key, its SRP client
    and its transmit key unless they are an IDENTITY REQUEST; and an authenticator in SUCCESS keeps its state, session key, user name and
    transmit key unless they are an EAPOL-START or an answer of the exchange that carries the current identifier: a FAILURE, a LOGOFF, a
    SUCCESS and the password messages never take it out. *)
Theorem eap_live_session sha256 aes a c p d e : authenticator.Authenticated a = true -> authenticatee.Authenticated c = true ->
  let a' := role_of (authenticator.Recv sha256 aes p a d) in let c' := role_of (authenticatee.Recv sha256 aes p c e) in
  ((exists f, Parse p = Ok f /\ reopens a f) \/
     (authenticator.Authenticated a' = true /\ authenticator.SessionKey a' = authenticator.SessionKey a /\ authenticator.PeerUsername a' = authenticator.PeerUsername a /\ authenticator.TxKeying a' = authenticator.TxKeying a)) /\
  ((exists f, Parse p = Ok f /\ kind f = KindIdentityRequest) \/ client_kept c c').
Proof.
  intros Ha Hc. apply bool_decide_eq_true in Ha, Hc. cbv zeta. unfold authenticator.Authenticated, authenticator.TxKeying, authenticator.SessionKey, authenticator.PeerUsername. split.
  - unfold authenticator.Recv. destruct (_ && _ && _); [right; by rewrite bool_decide_eq_true_2|]. destruct (Parse p) as [f|x|]; [|right; by rewrite bool_decide_eq_true_2..]. destruct (server_handle_live sha256 aes f a d Ha) as [Hr|(H1 & H2 & H3 & H4)]; [left; by exists f|right].
    destruct (authenticator.handle sha256 aes f a d) as [[[|out [x|]] a'] d']; cbn in H1, H2, H3, H4 |- *; rewrite H1, H2, H3, H4; by rewrite bool_decide_eq_true_2.
  - unfold authenticatee.Recv. destruct (_ && _ && _); [by right|]. destruct (Parse p) as [f|x|]; [|by right..]. pose proof (client_handle_live sha256 aes f c e Hc) as H. destruct (bool_decide_reflect (kind f = KindIdentityRequest)); [left; by exists f|right].
    by destruct (authenticatee.handle sha256 aes f c e) as [[[|out [x|]] c'] d'].
Qed.

(** C33: Defect: the identity that is reported need not be the one that was proved.  Once one user's proof is verified (before the closing acknowledgement, or later in
    SUCCESS), an IDENTITY RESPONSE that names any other known user, followed by an EAP-SUCCESS, takes the authenticator to SUCCESS with
    [PeerUsername] that other user, though the SRP exchange for it never began: [verified] is not reset when an identity restarts the exchange. *)
Theorem eap_identity_swap sha256 aes a other ver salt s d d' : authenticator.verified a = true -> authenticator.state a <> StateUnauth -> authenticator.version a <> 0 -> zlen other <= 255 ->
  authenticator.lookup a other = Some (ver, salt) -> srp.newServer sha256 (Some srp.DefaultGroup) ver salt (authenticator.legacyPad a) d = (Ok s, d') ->
  let claim := AppendTo (F_identity (authenticator.version a) (authenticator.id a) other) [] in let close := AppendTo (F_success (authenticator.version a) (u8 (authenticator.id a + 1))) [] in
  authenticator.lastRx a <> claim ->
  let a2 := fst (server_step sha256 aes (server_step sha256 aes (a, d) (SRecv claim)) (SRecv close)) in
  authenticator.Authenticated a2 = true /\ authenticator.PeerUsername a2 = other /\ authenticator.SessionKey a2 = authenticator.SessionKey a /\
  authenticator.server a2 = Some s /\ srp.s_pubA s = None /\ srp.verified s = false.
Proof.
  intros Hver Hst Hv Ho Hl Hn. cbv zeta. intros Hlast. set (claim := F_identity _ _ _) in *. set (close := F_success _ _). assert (Hc1 : frame_ok claim) by (by apply identity_ok). assert (Hc2 : frame_ok close) by (by apply success_ok).
  set (a0 := authenticator.bump (a <| authenticator.server := Some s |> <| authenticator.username := other |> <| authenticator.state := StateInProgress |>)). set (ch := F_challenge (authenticator.version a) (authenticator.id a0) salt). set (a1 := a0 <| authenticator.lastRx := AppendTo claim [] |> <| authenticator.lastReply := Some ch |>).
  assert (H1 : authenticator.Recv sha256 aes (AppendTo claim []) a d = (reply ch, a1, d')).
  { unfold authenticator.Recv. rewrite (bool_decide_eq_false_2 _ Hlast), andb_false_r. destruct (frame_round_trip claim Hc1) as [-> _]. unfold authenticator.handle. change (Identifier claim) with (authenticator.id a). rewrite Z.eqb_refl, andb_false_r. change (kind claim) with KindIdentityResponse. cbv iota.
    unfold authenticator.on_identity. change (Username claim) with other. by rewrite Hl, Hn. }
  assert (E1 : server_step sha256 aes (a, d) (SRecv (AppendTo claim [])) = (a1, d')) by (unfold server_step; by rewrite H1).
  rewrite E1. cbv zeta. unfold server_step, authenticator.Recv.
  assert (Hneq : authenticator.lastRx a1 <> AppendTo close []) by (apply (fresh_differs _ close Hc2), fresh_kind; [done|discriminate]). rewrite (bool_decide_eq_false_2 _ Hneq), andb_false_r. destruct (frame_round_trip close Hc2) as [-> _].
  unfold authenticator.handle. change (Identifier close) with (authenticator.id a1). rewrite Z.eqb_refl, andb_false_r. change (kind close) with KindSuccess. cbv iota. assert (Hv1 : authenticator.verified a1 = true) by exact Hver. rewrite Hv1.
  pose proof (srp.newServer_total sha256 srp.DefaultGroup srp.default_group_ok ver salt (authenticator.legacyPad a) d) as Hs. rewrite Hn in Hs. destruct Hs as (_ & _ & Hp & Hf). done.
Qed.

(** ** Concrete runs *)

(** The handshake of [demo_alice]: what each end received. *)
Definition demo_talk : list hop := transcript tiny_sha psk.demo_aes 9 (ToServer startFrame) demo_ends.
Definition demo_to_server : list server_event := [SSeed 254; SUseKey true] ++ omap (fun h => match h with ToServer f => Some (SRecv (AppendTo f [])) | _ => None end) demo_talk.
Definition demo_to_client : list client_event := [CStart] ++ omap (fun h => match h with ToClient f => Some (CRecv (AppendTo f [])) | _ => None end) demo_talk.

Lemma eap_success_needs_proof_witness :
  (exists pre e post, demo_to_server = pre ++ e :: post /\ server_proved tiny_sha (server_run tiny_sha psk.demo_aes (demo_server0, [Some 3]) pre) e (authenticator.SessionKey (server_run tiny_sha psk.demo_aes (demo_server0, [Some 3]) demo_to_server).1)) /\
  (exists pre e post, demo_to_client = pre ++ e :: post /\ client_proved tiny_sha (client_run tiny_sha psk.demo_aes (demo_client0, [Some 5]) pre) e (authenticatee.SessionKey (client_run tiny_sha psk.demo_aes (demo_client0, [Some 5]) demo_to_client).1)).
Proof.
  pose proof (eap_success_needs_proof tiny_sha psk.demo_aes demo_lookup eapVersion3 false demo_alice demo_pw demo_server0 demo_client0 demo_to_server demo_to_client [Some 3] [Some 5] tiny_sha_len tiny_sha_bytes eq_refl eq_refl) as H.
  cbv zeta in H. destruct H as [H1 H2]. split; [apply H1|apply H2]; vm_compute; reflexivity.
Defined.

Definition all_bytes (es : list (list Z)) : bool := forallb (forallb (fun x => (0 <=? x) && (x <? 256))) es.

Lemma all_bytes_ok es : all_bytes es = true -> Forall is_bytes es.
Proof. intros H. apply Forall_forall. intros b Hb. apply Forall_forall. intros x Hx. unfold all_bytes in H. rewrite forallb_forall in H. specialize (H b (proj1 (list_elem_of_In _ _) Hb)). rewrite forallb_forall in H. specialize (H x (proj1 (list_elem_of_In _ _) Hx)). apply andb_true_iff in H as [H1 H2]. unfold in_u8. lia. Qed.

Lemma eap_never_panics_witness :
  let '(a, d) := server_run tiny_sha psk.demo_aes (demo_server0, [Some 3]) [SUseKey true; SRecv [3; 1; 0; 0]; SRecv [2; 0; 0; 6; 2; 0; 0; 6; 19; 2]] in let '(c, e) := client_run tiny_sha psk.demo_aes (demo_client0, [Some 5]) [CStart] in
  outcome_of (authenticator.Recv tiny_sha psk.demo_aes [3; 0; 0; 7; 2; 0; 0; 7; 1; 97; 108] a d) <> Panicked /\ outcome_of (authenticatee.Recv tiny_sha psk.demo_aes [3; 0; 0; 7; 2; 0; 0; 7; 1; 97; 108] c e) <> Panicked.
Proof.
  apply (eap_never_panics tiny_sha psk.demo_aes demo_lookup eapVersion3 false demo_alice demo_pw demo_server0 demo_client0); [exact tiny_sha_len|exact tiny_sha_bytes|reflexivity|reflexivity| | |].
  - repeat (apply Forall_cons; split; [first [done | apply (Forall_singleton is_bytes), all_bytes_ok; reflexivity]|]). by apply Forall_nil.
  - by repeat constructor.
  - apply (Forall_singleton is_bytes), all_bytes_ok. reflexivity.
Defined.

(** Two ends in SUCCESS. *)
Definition demo_live_server : authenticator.Authenticator := server_at demo_lookup false StateSuccess 7 None demo_alice (replicate 32 1) true (server_keys false true (replicate 32 1)) [] None.
Definition demo_live_client : authenticatee.Authenticatee := client_at demo_alice demo_pw StateSuccess 6 true None demo_salt (replicate 32 1) (client_keys false true (replicate 32 1)) [] None.

Lemma eap_live_session_witness :
  let p := AppendTo (message eapVersion3 eapCodeFailure 7 KindFailure) [] in
  authenticator.Authenticated (role_of (authenticator.Recv tiny_sha psk.demo_aes p demo_live_server [])) = true /\ client_kept demo_live_client (role_of (authenticatee.Recv tiny_sha psk.demo_aes p demo_live_client [])).
Proof.
  cbv zeta. set (p := AppendTo _ []). assert (Hp : match Parse p with Ok f => bool_decide (kind f = KindFailure) | _ => false end = true) by reflexivity.
  destruct (eap_live_session tiny_sha psk.demo_aes demo_live_server demo_live_client p [] [] eq_refl eq_refl) as [[(f & Ef & Hf)|(H & _)] [(g & Eg & Hg)|Hk]]; [exfalso..|by split].
  - rewrite Ef in Hp. apply bool_decide_eq_true in Hp. destruct Hf as [E|(_ & [E|[E|E]])]; congruence.
  - rewrite Ef in Hp. apply bool_decide_eq_true in Hp. destruct Hf as [E|(_ & [E|[E|E]])]; congruence.
  - rewrite Eg in Hp. apply bool_decide_eq_true in Hp. congruence.
Defined.

(** [demo_alice] proved her password and the acknowledgement of the server's proof is awaited; it comes as [demo_bob]'s. *)
Definition demo_awaiting : authenticator.Authenticator := server_at demo_lookup false StateInProgress 7 None demo_alice (replicate 32 1) true noKeying [] None.

Lemma eap_identity_swap_witness :
  let a2 := fst (server_step tiny_sha psk.demo_aes (server_step tiny_sha psk.demo_aes (demo_awaiting, [Some 4]) (SRecv (AppendTo (F_identity eapVersion3 7 demo_bob) []))) (SRecv (AppendTo (F_success eapVersion3 8) []))) in
  authenticator.Authenticated a2 = true /\ authenticator.PeerUsername a2 = demo_bob /\ authenticator.SessionKey a2 = replicate 32 1.
Proof.
  set (ns := srp.newServer tiny_sha (Some srp.DefaultGroup) (srp.MakeVerifier tiny_sha (Some srp.DefaultGroup) demo_bob demo_pw demo_salt) demo_salt false [Some 4]).
  assert (Hns : match ns with (Ok s, d) => d = [] | _ => False end) by (vm_compute; reflexivity). destruct ns as [[s|e|] d] eqn:En; [|destruct Hns..]. subst d.
  pose proof (eap_identity_swap tiny_sha psk.demo_aes demo_awaiting demo_bob _ demo_salt s [Some 4] [] eq_refl ltac:(discriminate) ltac:(discriminate) ltac:(vm_compute; discriminate) eq_refl En ltac:(discriminate)) as H.
  change (authenticator.version demo_awaiting) with eapVersion3 in H. change (authenticator.id demo_awaiting) with 7 in H. change (u8 (7 + 1)) with 8 in H.
  cbv zeta in H |- *. destruct (server_step tiny_sha psk.demo_aes (server_step _ _ _ _) _) as [a2 d2]. destruct H as (G1 & G2 & G3 & _). split; [exact G1|]. split; [exact G2|exact G3].
Defined.
End eapsafety.
