(* ===== verification/HostConfig.v ===== *)
(** * Configuration (src/config.go, src/fec.go, src/host.go)

    The public options, their defaults and validation, and what the flow core, the FEC matrix and the rate controller are given from a validated
    configuration.  Durations are int64 nanoseconds; a callback or a nil-able field is whether it is set; an error is its text. *)

From stdpp Require Import strings gmap.
From S2P Require Import Prelude GoFloat Bytes Clock FlowTypes Congestion Fec Adapt.

Module rist.
#[local] Existing Instance adapt.eta_ControllerConfig.
#[local] Open Scope string_scope.
#[local] Open Scope Z_scope.

Definition slen (s : string) : Z := Z.of_nat (String.length s).
Definition is_set (s : string) : bool := negb (String.eqb s "").

(** ** Constants *)

Definition Millisecond_ns : Z := 1000000.
Definition DefaultBufferMin : Z := 1000 * Millisecond_ns.
Definition DefaultBufferMax : Z := 1000 * Millisecond_ns.
Definition DefaultReorderBuffer : Z := 15 * Millisecond_ns.
Definition DefaultRTTMin : Z := 5 * Millisecond_ns.
Definition DefaultRTTMax : Z := 500 * Millisecond_ns.
Definition DefaultRTTMultiplier : Z := 7.
Definition DefaultMinRetries : Z := 6.
Definition DefaultMaxRetries : Z := 20.
Definition DefaultSessionTimeout : Z := 2000 * Millisecond_ns.
Definition DefaultKeepaliveInterval : Z := 1000 * Millisecond_ns.
Definition DefaultMaxBitrate : Z := 100000.
Definition DefaultVirtSrcPort : Z := 1971.
Definition DefaultVirtDstPort : Z := 1968.
Definition MinBuffer : Z := 50 * Millisecond_ns.
Definition MaxBuffer : Z := 30000 * Millisecond_ns.
Definition MinRTT : Z := 1 * Millisecond_ns.
Definition MaxRTT : Z := 1000 * Millisecond_ns.
Definition MaxRetriesLimit : Z := 100.
Definition MaxRTTMultiplier : Z := 100.
Definition MaxRecoveryDepth : Z := 16.
Definition maxShortString : Z := 127.
Definition maxLongString : Z := 255.
Definition MaxMediaPayload : Z := 1460.

Definition ProfileSimple : Z := 0.
Definition ProfileMain : Z := 1.
Definition ProfileAdvanced : Z := 2.
Definition NACKRange : Z := 0.
Definition NACKBitmask : Z := 1.
Definition CongestionNormal : Z := 0.
Definition CongestionAggressive : Z := 1.
Definition CongestionOff : Z := 2.
Definition TimingSource : Z := 0.
Definition TimingArrival : Z := 1.
Definition TimingRTC : Z := 2.
Definition SplitOff : Z := 0.
Definition SplitAuto : Z := 1.
Definition SplitHalf : Z := 2.
Definition MergeOff : Z := 0.
Definition MergePairs : Z := 1.
Definition MergeAuto : Z := 2.

(** ** Forward error correction *)

Definition FECVariant2022_1 : Z := 0.
Definition FECVariant2022_5 : Z := 1.
Definition FECCarriageDefault : Z := 0.
Definition FECCarriageInBand : Z := 1.
Definition FECCarriageSeparatePorts : Z := 2.

Record FECConfig := mkFEC { Columns : Z; fc_Rows : Z; fc_ColumnOnly : bool; Carriage : Z; fc_Variant : Z }.

Definition carriage (f : FECConfig) (advanced : bool) : Z :=
  if negb (Carriage f =? FECCarriageDefault) then Carriage f else if advanced then FECCarriageInBand else FECCarriageSeparatePorts.

(** A failed check returns its error; else the checks go on. *)
Definition check {A} (bad : bool) (e : string) (k : res string A) : res string A := if bad then Err e else k.

Definition fec_validate (f : FECConfig) : res string unit :=
  let limits := if fc_Variant f =? FECVariant2022_1 then Some (20, 20, 100) else if fc_Variant f =? FECVariant2022_5 then Some (1020, 255, 6000) else None in
  match limits with
  | None => Err "rist: FEC Variant is not a known SMPTE FEC variant"
  | Some (maxL, maxD, maxMatrix) =>
      let minL := if fc_ColumnOnly f then 1 else 4 in
      check ((Columns f <? minL) || (maxL <? Columns f)) "rist: FEC Columns (L)" $
      check ((fc_Rows f <? 4) || (maxD <? fc_Rows f)) "rist: FEC Rows (D)" $
      check (maxMatrix <? i64 (Columns f * fc_Rows f)) "rist: FEC matrix L*D" $
      Ok tt
  end.

(** The session's parameters: the matrix and whether it goes to separate ports. *)
Definition toSessionFEC (f : option FECConfig) (advanced : bool) : option (fecm.Config * bool) :=
  match f with
  | None => None
  | Some f => Some (fecm.mkConfig (Columns f) (fc_Rows f) (fc_ColumnOnly f) (if fc_Variant f =? FECVariant2022_5 then fecm.Variant20225 else fecm.Variant20221), carriage f advanced =? FECCarriageSeparatePorts)
  end.

(** ** The configuration *)

(** A nil PSK is [None]. *)
Record DTLSConfig := mkDTLS { PSK : option bytes; PSKIdentity : string; CertPEM : bytes; KeyPEM : bytes; PeerFingerprint : bytes; InsecureSkipVerify : bool; DisabledSuites : list Z; AllowNullCipher : bool }.

Record Config := mkConfig {
  Profile : Z; BufferMin : Z; BufferMax : Z; ReorderBuffer : Z; RTTMin : Z; RTTMax : Z; RTTMultiplier : Z; MinRetries : Z; MaxRetries : Z; SessionTimeout : Z; KeepaliveInterval : Z;
  MaxBitrate : Z; ReturnBandwidth : Z; MinBitrate : Z; VirtSrcPort : Z; VirtDstPort : Z; LocalPort : Z; CNAME : string; NACKType : Z; CongestionControl : Z; TimingMode : Z;
  BlockDelivery : bool; Secret : string; AESKeyBits : Z; KeyRotation : Z; Username : string; Password : string; SRPCompat : bool; SRPUsers : gmap string string; Compression : bool;
  RecoveryDepth : Z; AdvSenderStartMain : bool; AnswerAdvRTTEcho : bool; FragmentSize : Z; SplitMode : Z; MergeMode : Z; FEC : option FECConfig; NullPacketDeletion : bool; Weight : Z;
  SourceAdaptation : bool; OnRateAdapt : bool; OnFlowAttr : bool; OnConnect : bool; OnDisconnect : bool; Interface : string; MulticastTTL : Z; MulticastSource : string; MulticastLoopback : bool;
  DTLS : option DTLSConfig; Logger : bool }.
#[global] Instance eta_rist_Config : Eta Config := fun c => mkConfig (Profile c) (BufferMin c) (BufferMax c) (ReorderBuffer c) (RTTMin c) (RTTMax c) (RTTMultiplier c) (MinRetries c) (MaxRetries c) (SessionTimeout c) (KeepaliveInterval c)
  (MaxBitrate c) (ReturnBandwidth c) (MinBitrate c) (VirtSrcPort c) (VirtDstPort c) (LocalPort c) (CNAME c) (NACKType c) (CongestionControl c) (TimingMode c)
  (BlockDelivery c) (Secret c) (AESKeyBits c) (KeyRotation c) (Username c) (Password c) (SRPCompat c) (SRPUsers c) (Compression c)
  (RecoveryDepth c) (AdvSenderStartMain c) (AnswerAdvRTTEcho c) (FragmentSize c) (SplitMode c) (MergeMode c) (FEC c) (NullPacketDeletion c) (Weight c)
  (SourceAdaptation c) (OnRateAdapt c) (OnFlowAttr c) (OnConnect c) (OnDisconnect c) (Interface c) (MulticastTTL c) (MulticastSource c) (MulticastLoopback c)
  (DTLS c) (Logger c).

Definition zeroConfig : Config := mkConfig 0 0 0 0 0 0 0 0 0 0 0 0 0 0 0 0 0 "" 0 0 0 false "" 0 0 "" "" false ∅ false 0 false false 0 0 0 None false 0 false false false false false "" 0 "" false None false.

Definition DefaultConfig : Config := zeroConfig <| Profile := ProfileAdvanced |> <| BufferMin := DefaultBufferMin |> <| BufferMax := DefaultBufferMax |> <| ReorderBuffer := DefaultReorderBuffer |>
  <| RTTMin := DefaultRTTMin |> <| RTTMax := DefaultRTTMax |> <| RTTMultiplier := DefaultRTTMultiplier |> <| MinRetries := DefaultMinRetries |> <| MaxRetries := DefaultMaxRetries |>
  <| SessionTimeout := DefaultSessionTimeout |> <| KeepaliveInterval := DefaultKeepaliveInterval |> <| MaxBitrate := DefaultMaxBitrate |> <| VirtSrcPort := DefaultVirtSrcPort |> <| VirtDstPort := DefaultVirtDstPort |>
  <| NACKType := NACKRange |> <| CongestionControl := CongestionNormal |>.

(** ** Validation *)

(** A zero field takes its default. *)
Definition or_default (v d : Z) : Z := if v =? 0 then d else v.

Definition validate_gates (cfg : Config) : res string unit :=
  check ((Profile cfg <? ProfileSimple) || (ProfileAdvanced <? Profile cfg)) "rist: Profile must be ProfileSimple (0), ProfileMain (1), or ProfileAdvanced (2)" $
  check ((Profile cfg =? ProfileSimple) && is_set (Secret cfg)) "rist: Secret (PSK encryption) requires ProfileMain or ProfileAdvanced; the Simple profile transmits in the clear" $
  check ((Profile cfg =? ProfileSimple) && negb (AESKeyBits cfg =? 0)) "rist: AESKeyBits requires ProfileMain or ProfileAdvanced" $
  check ((Profile cfg =? ProfileSimple) && negb (KeyRotation cfg =? 0)) "rist: KeyRotation requires ProfileMain or ProfileAdvanced" $
  check (is_set (Username cfg) && negb (Profile cfg =? ProfileMain)) "rist: Username/Password (EAP-SRP authentication) requires ProfileMain" $
  check ((0 <? Z.of_nat (size (SRPUsers cfg))) && negb (Profile cfg =? ProfileMain)) "rist: SRPUsers (multi-user EAP-SRP) requires ProfileMain" $
  check (BlockDelivery cfg && negb (Profile cfg =? ProfileMain)) "rist: BlockDelivery (per-packet block delivery) requires ProfileMain" $
  check (Compression cfg && negb (Profile cfg =? ProfileAdvanced)) "rist: Compression requires ProfileAdvanced" $
  check (negb (RecoveryDepth cfg =? 0) && negb (Profile cfg =? ProfileAdvanced)) "rist: RecoveryDepth requires ProfileAdvanced" $
  check (negb (RecoveryDepth cfg =? 0) && ((RecoveryDepth cfg <? 0) || (MaxRecoveryDepth <? RecoveryDepth cfg))) "rist: RecoveryDepth must be between 1 and 16" $
  check (AnswerAdvRTTEcho cfg && negb (Profile cfg =? ProfileAdvanced)) "rist: AnswerAdvRTTEcho requires ProfileAdvanced" $
  check (OnFlowAttr cfg && negb (Profile cfg =? ProfileAdvanced)) "rist: OnFlowAttr (flow attributes) requires ProfileAdvanced" $
  check (negb (FragmentSize cfg =? 0) && negb (Profile cfg =? ProfileAdvanced)) "rist: FragmentSize (payload fragmentation) requires ProfileAdvanced" $
  check (negb (FragmentSize cfg =? 0) && ((FragmentSize cfg <? 0) || (MaxMediaPayload <? FragmentSize cfg))) "rist: FragmentSize must be between 0 and MaxMediaPayload" $
  Ok tt.

Definition validate_fec (cfg : Config) : res string unit :=
  match FEC cfg with
  | None => Ok tt
  | Some f =>
      _ ← fec_validate f;
      let c := carriage f (Profile cfg =? ProfileAdvanced) in
      check ((c =? FECCarriageInBand) && negb (Profile cfg =? ProfileAdvanced)) "rist: in-band FEC carriage requires ProfileAdvanced" $
      check ((c =? FECCarriageSeparatePorts) && (Profile cfg =? ProfileAdvanced)) "rist: the Advanced profile carries FEC in-band; FECCarriageSeparatePorts is not supported on ProfileAdvanced" $
      Ok tt
  end.

Definition validate_dtls (cfg : Config) : res string unit :=
  check (NullPacketDeletion cfg && negb (Profile cfg =? ProfileMain)) "rist: NullPacketDeletion requires ProfileMain" $
  match DTLS cfg with
  | None => Ok tt
  | Some d =>
      check (negb (Profile cfg =? ProfileMain)) "rist: DTLS transport security requires ProfileMain" $
      check (is_set (Secret cfg)) "rist: DTLS and Secret (GRE PSK encryption) are mutually exclusive; DTLS already protects the whole tunnel" $
      check (match PSK d with None => true | Some _ => false end && (zlen (CertPEM d) =? 0) && negb (InsecureSkipVerify d) && bool_decide (PeerFingerprint d = replicate 32 0)) "rist: DTLS requires a PSK, a certificate, or peer verification" $
      check (512 <? zlen (default [] (PSK d))) "rist: DTLS PSK must be at most 512 bytes" $
      Ok tt
  end.

Definition validate_buffers (cfg : Config) : res string Config :=
  let cfg := cfg <| BufferMin ::= fun v => or_default v DefaultBufferMin |> in
  let cfg := cfg <| BufferMax ::= fun v => or_default v DefaultBufferMax |> in
  check ((BufferMin cfg <? MinBuffer) || (MaxBuffer <? BufferMin cfg)) "rist: BufferMin must be between 50ms and 30s" $
  check ((BufferMax cfg <? MinBuffer) || (MaxBuffer <? BufferMax cfg)) "rist: BufferMax must be between 50ms and 30s" $
  check (BufferMax cfg <? BufferMin cfg) "rist: BufferMin must not exceed BufferMax" $
  let cfg := cfg <| ReorderBuffer ::= fun v => or_default v DefaultReorderBuffer |> in
  check ((ReorderBuffer cfg <? 0) || (BufferMin cfg <? ReorderBuffer cfg)) "rist: ReorderBuffer must be between 0 and BufferMin" $
  Ok cfg.

Definition validate_rtt (cfg : Config) : res string Config :=
  let cfg := cfg <| RTTMin ::= fun v => or_default v DefaultRTTMin |> in
  let cfg := cfg <| RTTMax ::= fun v => or_default v DefaultRTTMax |> in
  check ((RTTMin cfg <? MinRTT) || (MaxRTT <? RTTMin cfg)) "rist: RTTMin must be between 1ms and 1s" $
  check ((RTTMax cfg <? MinRTT) || (MaxRTT <? RTTMax cfg)) "rist: RTTMax must be between 1ms and 1s" $
  check (RTTMax cfg <? RTTMin cfg) "rist: RTTMin must not exceed RTTMax" $
  let cfg := cfg <| RTTMultiplier ::= fun v => or_default v DefaultRTTMultiplier |> in
  check ((RTTMultiplier cfg <? 1) || (MaxRTTMultiplier <? RTTMultiplier cfg)) "rist: RTTMultiplier must be between 1 and 100" $
  let cfg := cfg <| MinRetries ::= fun v => or_default v DefaultMinRetries |> in
  let cfg := cfg <| MaxRetries ::= fun v => or_default v DefaultMaxRetries |> in
  check ((MinRetries cfg <? 0) || (MaxRetriesLimit <? MinRetries cfg)) "rist: MinRetries must be between 0 and 100" $
  check ((MaxRetries cfg <? 0) || (MaxRetriesLimit <? MaxRetries cfg)) "rist: MaxRetries must be between 0 and 100" $
  check (MaxRetries cfg <? MinRetries cfg) "rist: MinRetries must not exceed MaxRetries" $
  Ok cfg.

Definition validate_rates (cfg : Config) : res string Config :=
  let cfg := cfg <| SessionTimeout ::= fun v => or_default v DefaultSessionTimeout |> in
  check (SessionTimeout cfg <? 0) "rist: SessionTimeout must be positive" $
  let cfg := cfg <| KeepaliveInterval ::= fun v => or_default v DefaultKeepaliveInterval |> in
  check (KeepaliveInterval cfg <? 0) "rist: KeepaliveInterval must be positive" $
  check (SessionTimeout cfg <? KeepaliveInterval cfg) "rist: KeepaliveInterval must not exceed SessionTimeout" $
  let cfg := cfg <| MaxBitrate ::= fun v => or_default v DefaultMaxBitrate |> in
  check (MaxBitrate cfg <? 0) "rist: MaxBitrate must be positive (kbps)" $
  check (MinBitrate cfg <? 0) "rist: MinBitrate must be at least 0 (kbps; 0 = library floor)" $
  check (ReturnBandwidth cfg <? 0) "rist: ReturnBandwidth must be at least 0 (kbps; 0 = unlimited)" $
  check (MaxBitrate cfg <? MinBitrate cfg) "rist: MinBitrate must not exceed MaxBitrate" $
  let cfg := cfg <| VirtSrcPort ::= fun v => or_default v DefaultVirtSrcPort |> in
  let cfg := cfg <| VirtDstPort ::= fun v => or_default v DefaultVirtDstPort |> in
  Ok cfg.

Definition default_key_bits (cfg : Config) : Config :=
  if is_set (Secret cfg) && (AESKeyBits cfg =? 0) then cfg <| AESKeyBits := 128 |>
  else if negb (is_set (Secret cfg)) && is_set (Username cfg) && (AESKeyBits cfg =? 0) then cfg <| AESKeyBits := 256 |> else cfg.

Definition validate_keys (cfg : Config) : res string Config :=
  check (maxShortString <? slen (CNAME cfg)) "rist: CNAME must be at most 127 bytes" $
  check (negb (NACKType cfg =? NACKRange) && negb (NACKType cfg =? NACKBitmask)) "rist: NACKType must be NACKRange (0) or NACKBitmask (1)" $
  check (negb (CongestionControl cfg =? CongestionNormal) && negb (CongestionControl cfg =? CongestionAggressive) && negb (CongestionControl cfg =? CongestionOff)) "rist: CongestionControl must be CongestionNormal, CongestionAggressive, or CongestionOff" $
  check (negb (TimingMode cfg =? TimingSource) && negb (TimingMode cfg =? TimingArrival) && negb (TimingMode cfg =? TimingRTC)) "rist: TimingMode must be TimingSource, TimingArrival, or TimingRTC" $
  check (maxShortString <? slen (Secret cfg)) "rist: Secret must be at most 127 bytes" $
  let cfg := default_key_bits cfg in
  check ((AESKeyBits cfg =? 192) && negb (Profile cfg =? ProfileAdvanced)) "rist: AESKeyBits=192 requires ProfileAdvanced (the Main wire signals only 128/256)" $
  check (negb ((AESKeyBits cfg =? 0) || (AESKeyBits cfg =? 128) || (AESKeyBits cfg =? 256) || (AESKeyBits cfg =? 192))) "rist: AESKeyBits must be 0, 128, 192, or 256" $
  check (negb (AESKeyBits cfg =? 0) && negb (is_set (Secret cfg)) && negb (is_set (Username cfg))) "rist: AESKeyBits requires a Secret or SRP credentials" $
  check (KeyRotation cfg <? 0) "rist: KeyRotation must be at least 0 (packets per key)" $
  check (negb (Bool.eqb (is_set (Username cfg)) (is_set (Password cfg)))) "rist: Username and Password must be set together" $
  check (maxLongString <? slen (Username cfg)) "rist: Username must be at most 255 bytes" $
  check (maxLongString <? slen (Password cfg)) "rist: Password must be at most 255 bytes" $
  check (Weight cfg <? 0) "rist: Weight must be at least 0 (0 = duplicate)" $
  Ok cfg.

Section environment.
(** [net.InterfaceByName] and [netip.ParseAddr] succeed. *)
Context (interface_exists is_address : string -> bool).

Definition validateMulticast (cfg : Config) : res string unit :=
  check ((MulticastTTL cfg <? 0) || (255 <? MulticastTTL cfg)) "rist: MulticastTTL must be between 0 and 255 (0 = OS default of 1)" $
  check (is_set (Interface cfg) && negb (interface_exists (Interface cfg))) "rist: Interface not found" $
  check (is_set (MulticastSource cfg) && negb (is_address (MulticastSource cfg))) "rist: MulticastSource must be an IP address" $
  Ok tt.

Definition validate (cfg : Config) : res string Config :=
  _ ← validate_gates cfg;
  _ ← validate_fec cfg;
  _ ← validate_dtls cfg;
  cfg ← validate_buffers cfg;
  cfg ← validate_rtt cfg;
  cfg ← validate_rates cfg;
  cfg ← validate_keys cfg;
  _ ← validateMulticast cfg;
  Ok cfg.
End environment.

Definition recoveryBufferTime (cfg : Config) : Z := i64 (i64 (BufferMax cfg - BufferMin cfg) /g 2 + BufferMin cfg).

(** ** What the parts of a session are given *)

(** [clock.FromDuration]: nanoseconds to microseconds. *)
Definition FromDuration (d : Z) : Z := d /g 1000.

Definition effectiveRTTBounds (cfg : Config) : Z * Z :=
  let rttMin := FromDuration (RTTMin cfg) in
  let rttMin := if 0 <? MaxRetries cfg then let floor := FromDuration (BufferMin cfg) /g MaxRetries cfg in if rttMin <? floor then floor else rttMin else rttMin in
  let rttMax := FromDuration (RTTMax cfg) in
  let rttMax := if rttMax <? rttMin then rttMin else rttMax in
  (rttMin, rttMax).

Definition toFlowTiming (m : Z) : FlowTypes.TimingMode :=
  if m =? TimingArrival then FlowTypes.TimingArrival else if m =? TimingRTC then FlowTypes.TimingRTC else FlowTypes.TimingSource.
Definition toFlowCongestion (c : Z) : FlowTypes.CongestionMode :=
  if c =? CongestionAggressive then FlowTypes.CongestionAggressive else if c =? CongestionOff then FlowTypes.CongestionOff else FlowTypes.CongestionNormal.

Definition toFlowConfig (cfg : Config) : FlowTypes.Config :=
  let '(rttMin, rttMax) := effectiveRTTBounds cfg in
  FlowTypes.mkConfig (FromDuration (BufferMin cfg)) (FromDuration (BufferMax cfg)) (FromDuration (ReorderBuffer cfg)) rttMin rttMax (RTTMultiplier cfg) (MinRetries cfg) (MaxRetries cfg) (MaxBitrate cfg)
    (toFlowCongestion (CongestionControl cfg)) (ReturnBandwidth cfg) 0 (RecoveryDepth cfg) 0 0 (toFlowTiming (TimingMode cfg)) false.

(** The rate controller of a sender, when a callback is installed. *)
Definition applyRateAdapt (cfg : Config) : option adapt.Controller :=
  if negb (OnRateAdapt cfg) then None else
  let cc := adapt.DefaultControllerConfig <| adapt.MaxKbps := MaxBitrate cfg |> <| adapt.InitialKbps := MaxBitrate cfg |> in
  let cc := if 0 <? MinBitrate cfg then cc <| adapt.MinKbps := MinBitrate cfg |> else cc in
  let step := MaxBitrate cfg /g 100 in
  let cc := if 0 <? step then cc <| adapt.IncreaseKbps := step |> else cc in
  Some (adapt.NewController cc).

(** ** What validation means *)

Lemma check_ok {A} b e (k : res string A) v : check b e k = Ok v <-> b = false /\ k = Ok v.
Proof. unfold check. destruct b; [split; [done|by intros []]|]. split; [done|by intros []]. Qed.

Lemma is_set_spec s : is_set s = false <-> s = "".
Proof. unfold is_set. rewrite negb_false_iff. apply String.eqb_eq. Qed.

(** The defaults, in the order in which they are applied. *)
Definition buffer_defaults (c : Config) : Config :=
  c <| BufferMin ::= fun v => or_default v DefaultBufferMin |> <| BufferMax ::= fun v => or_default v DefaultBufferMax |> <| ReorderBuffer ::= fun v => or_default v DefaultReorderBuffer |>.
Definition rtt_defaults (c : Config) : Config :=
  c <| RTTMin ::= fun v => or_default v DefaultRTTMin |> <| RTTMax ::= fun v => or_default v DefaultRTTMax |> <| RTTMultiplier ::= fun v => or_default v DefaultRTTMultiplier |>
    <| MinRetries ::= fun v => or_default v DefaultMinRetries |> <| MaxRetries ::= fun v => or_default v DefaultMaxRetries |>.
Definition rate_defaults (c : Config) : Config :=
  c <| SessionTimeout ::= fun v => or_default v DefaultSessionTimeout |> <| KeepaliveInterval ::= fun v => or_default v DefaultKeepaliveInterval |> <| MaxBitrate ::= fun v => or_default v DefaultMaxBitrate |>
    <| VirtSrcPort ::= fun v => or_default v DefaultVirtSrcPort |> <| VirtDstPort ::= fun v => or_default v DefaultVirtDstPort |>.
Definition with_defaults (c : Config) : Config := default_key_bits (rate_defaults (rtt_defaults (buffer_defaults c))).

(** A feature is used only on a profile that has it. *)
Record gates_ok (c : Config) : Prop := {
  go_profile : 0 <= Profile c <= 2;
  go_simple : Profile c = ProfileSimple -> Secret c = "" /\ AESKeyBits c = 0 /\ KeyRotation c = 0;
  go_main : Username c <> "" \/ (0 < size (SRPUsers c))%nat \/ BlockDelivery c = true -> Profile c = ProfileMain;
  go_adv : Compression c = true \/ RecoveryDepth c <> 0 \/ AnswerAdvRTTEcho c = true \/ OnFlowAttr c = true \/ FragmentSize c <> 0 -> Profile c = ProfileAdvanced;
  go_depth : 0 <= RecoveryDepth c <= MaxRecoveryDepth;
  go_frag : 0 <= FragmentSize c <= MaxMediaPayload }.

Record fec_ok (f : FECConfig) : Prop := {
  fk_variant : fc_Variant f = FECVariant2022_1 \/ fc_Variant f = FECVariant2022_5;
  fk_cols : (if fc_ColumnOnly f then 1 else 4) <= Columns f <= (if fc_Variant f =? FECVariant2022_1 then 20 else 1020);
  fk_rows : 4 <= fc_Rows f <= (if fc_Variant f =? FECVariant2022_1 then 20 else 255);
  fk_matrix : Columns f * fc_Rows f <= (if fc_Variant f =? FECVariant2022_1 then 100 else 6000) }.

Definition fec_part_ok (c : Config) : Prop :=
  forall f, FEC c = Some f -> fec_ok f /\ (carriage f (Profile c =? ProfileAdvanced) = FECCarriageInBand -> Profile c = ProfileAdvanced) /\ (carriage f (Profile c =? ProfileAdvanced) = FECCarriageSeparatePorts -> Profile c <> ProfileAdvanced).

Definition dtls_part_ok (c : Config) : Prop :=
  (NullPacketDeletion c = true -> Profile c = ProfileMain) /\
  forall d, DTLS c = Some d -> Profile c = ProfileMain /\ Secret c = "" /\ (PSK d <> None \/ 0 < zlen (CertPEM d) \/ InsecureSkipVerify d = true \/ PeerFingerprint d <> replicate 32 0) /\ zlen (default [] (PSK d)) <= 512.

Definition buffers_ok (c : Config) : Prop := MinBuffer <= BufferMin c <= BufferMax c /\ BufferMax c <= MaxBuffer /\ 0 <= ReorderBuffer c <= BufferMin c.
Definition rtt_ok (c : Config) : Prop :=
  MinRTT <= RTTMin c <= RTTMax c /\ RTTMax c <= MaxRTT /\ 1 <= RTTMultiplier c <= MaxRTTMultiplier /\ 0 <= MinRetries c <= MaxRetries c /\ MaxRetries c <= MaxRetriesLimit.
Definition rates_ok (c : Config) : Prop := 0 <= KeepaliveInterval c <= SessionTimeout c /\ 0 <= MinBitrate c <= MaxBitrate c /\ 0 <= ReturnBandwidth c.

Record keys_ok (c : Config) : Prop := {
  ko_names : slen (CNAME c) <= maxShortString /\ slen (Secret c) <= maxShortString /\ slen (Username c) <= maxLongString /\ slen (Password c) <= maxLongString;
  ko_modes : (NACKType c = 0 \/ NACKType c = 1) /\ 0 <= CongestionControl c <= 2 /\ 0 <= TimingMode c <= 2;
  ko_bits : AESKeyBits c = 0 \/ AESKeyBits c = 128 \/ AESKeyBits c = 256 \/ (AESKeyBits c = 192 /\ Profile c = ProfileAdvanced);
  ko_used : AESKeyBits c <> 0 -> Secret c <> "" \/ Username c <> "";
  ko_rotation : 0 <= KeyRotation c /\ 0 <= Weight c;
  ko_credentials : Username c = "" <-> Password c = "" }.

(** A check that a feature is off the profile. *)
Lemma only_on (b : bool) p q : b && negb (p =? q) = false <-> (b = true -> p = q).
Proof. destruct b, (Z.eqb_spec p q); cbn; intuition congruence. Qed.
Lemma only_with n p q : negb (n =? 0) && negb (p =? q) = false <-> (n <> 0 -> p = q).
Proof. destruct (Z.eqb_spec n 0), (Z.eqb_spec p q); cbn; intuition congruence. Qed.
Lemma in_range v lo hi : (v <? lo) || (hi <? v) = false <-> lo <= v <= hi.
Proof. rewrite orb_false_iff, !Z.ltb_ge. lia. Qed.
Lemma if_used v hi : 0 <= hi -> negb (v =? 0) && ((v <? 0) || (hi <? v)) = false <-> 0 <= v <= hi.
Proof. intros. rewrite andb_false_iff, in_range, negb_false_iff, Z.eqb_eq. lia. Qed.
Lemma set_only s p q : is_set s && negb (p =? q) = false <-> (s <> "" -> p = q).
Proof. pose proof (is_set_spec s) as Hs. destruct (is_set s), (Z.eqb_spec p q); cbn; intuition congruence. Qed.
Lemma on_simple_unset p s : (p =? 0) && is_set s = false <-> (p = 0 -> s = "").
Proof. pose proof (is_set_spec s) as Hs. destruct (is_set s), (Z.eqb_spec p 0); cbn; intuition congruence. Qed.
Lemma on_simple_zero p v : (p =? 0) && negb (v =? 0) = false <-> (p = 0 -> v = 0).
Proof. destruct (Z.eqb_spec p 0), (Z.eqb_spec v 0); cbn; intuition congruence. Qed.
Lemma some_users (n : nat) p q : (0 <? Z.of_nat n) && negb (p =? q) = false <-> ((0 < n)%nat -> p = q).
Proof. destruct (Z.ltb_spec 0 (Z.of_nat n)), (Z.eqb_spec p q); cbn; split; intros; try done; try lia; exfalso; match goal with H : _ -> p = q |- _ => by specialize (H ltac:(lia)) end. Qed.

Lemma validate_gates_ok c : validate_gates c = Ok tt <-> gates_ok c.
Proof.
  unfold validate_gates. rewrite !check_ok. unfold ProfileSimple. rewrite in_range, on_simple_unset, !on_simple_zero, set_only, some_users, !only_with, !only_on, !if_used by done. split.
  - intros (P & S1 & S2 & S3 & M1 & M2 & M3 & A1 & A2 & D & A3 & A4 & A5 & F & _). split; try done; [by auto|by intros [?|[?|?]]; auto|by intros [?|[?|[?|[?|?]]]]; auto].
  - intros [H1 H2 H3 H4 H5 H6]. unfold ProfileSimple in H2. split_and!; try done; try apply H1; try apply H5; try apply H6; intros; try (by apply H2); try (apply H3; by auto); apply H4; by auto.
Qed.

Lemma fec_validate_ok f : fec_validate f = Ok tt <-> fec_ok f.
Proof.
  assert (HM : forall a b, 0 <= a <= 1020 -> 0 <= b <= 255 -> i64 (a * b) = a * b) by (intros a b Ha Hb; apply i64_id; unfold in_i64; nia).
  unfold fec_validate. destruct (Z.eqb_spec (fc_Variant f) FECVariant2022_1) as [E1|E1]; [|destruct (Z.eqb_spec (fc_Variant f) FECVariant2022_5) as [E2|E2]].
  3: { split; [done|]. intros [[H|H] _ _ _]; congruence. }
  - rewrite !check_ok, !in_range, Z.ltb_ge. assert (HL : (fc_Variant f =? FECVariant2022_1) = true) by (by apply Z.eqb_eq). split.
    + intros (H1 & H2 & H3 & _). split; rewrite ?HL; [by left|done|done|]. rewrite HM in H3; [done|destruct (fc_ColumnOnly f); lia|lia].
    + intros [_ H1 H2 H3]. rewrite HL in *. split; [done|]. split; [done|]. split; [|done]. rewrite HM; [done|destruct (fc_ColumnOnly f); lia|lia].
  - rewrite !check_ok, !in_range, Z.ltb_ge. assert (HL : (fc_Variant f =? FECVariant2022_1) = false) by (by apply Z.eqb_neq). split.
    + intros (H1 & H2 & H3 & _). split; rewrite ?HL; [by right|done|done|]. rewrite HM in H3; [done|destruct (fc_ColumnOnly f); lia|lia].
    + intros [_ H1 H2 H3]. rewrite HL in *. split; [done|]. split; [done|]. split; [|done]. rewrite HM; [done|destruct (fc_ColumnOnly f); lia|lia].
Qed.

Lemma bind_ok {A B} (r : res string A) (k : A -> res string B) v : (x ← r; k x) = Ok v <-> exists x, r = Ok x /\ k x = Ok v.
Proof. destruct r; cbn; split; [by eauto|by intros (? & [= <-] & ?)|done|by intros (? & ? & _)|done|by intros (? & ? & _)]. Qed.

Lemma only_at a b p q : (a =? b) && negb (p =? q) = false <-> (a = b -> p = q).
Proof. destruct (Z.eqb_spec a b), (Z.eqb_spec p q); cbn; intuition congruence. Qed.
Lemma never_at a b p q : (a =? b) && (p =? q) = false <-> (a = b -> p <> q).
Proof. destruct (Z.eqb_spec a b), (Z.eqb_spec p q); cbn; intuition congruence. Qed.

Lemma validate_fec_ok c : validate_fec c = Ok tt <-> fec_part_ok c.
Proof.
  unfold validate_fec, fec_part_ok. destruct (FEC c) as [f|]; [|by split]. rewrite bind_ok. cbv zeta. setoid_rewrite check_ok. setoid_rewrite check_ok. setoid_rewrite only_at. setoid_rewrite never_at. split.
  - intros ([] & Hf & H1 & H2 & _) f' [= <-]. split; [by apply fec_validate_ok|done].
  - intros H. destruct (H f eq_refl) as (Hf & H1 & H2). exists tt. split; [by apply fec_validate_ok|done].
Qed.

Lemma validate_dtls_ok c : validate_dtls c = Ok tt <-> dtls_part_ok c.
Proof.
  unfold validate_dtls, dtls_part_ok. rewrite check_ok, only_on. destruct (DTLS c) as [d|]; [|by split; intros [H _]]. rewrite !check_ok, negb_false_iff, Z.eqb_eq, is_set_spec, Z.ltb_ge. pose proof (zlen_nonneg (CertPEM d)) as Hc. split.
  - intros (Hn & Hp & Hs & Hv & Hl & _). split; [done|]. intros d' [= <-]. split; [done|]. split; [done|]. split; [|done]. destruct (PSK d) as [k|]; [by left|right]. destruct (Z.eqb_spec (zlen (CertPEM d)) 0); [|left; lia]. right. destruct (InsecureSkipVerify d); [by left|right]. by apply bool_decide_eq_false in Hv.
  - intros [Hn H]. destruct (H d eq_refl) as (Hp & Hs & Hv & Hl). split; [done|]. split; [done|]. split; [done|]. split; [|done]. destruct (PSK d); [done|]. destruct (Z.eqb_spec (zlen (CertPEM d)) 0); [|done]. destruct (InsecureSkipVerify d); [done|]. cbn. apply bool_decide_eq_false. by destruct Hv as [?|[?|[?|?]]]; [|lia|..].
Qed.

Lemma validate_buffers_ok c c' : validate_buffers c = Ok c' <-> c' = buffer_defaults c /\ buffers_ok (buffer_defaults c).
Proof.
  unfold validate_buffers. cbv zeta. rewrite !check_ok, !in_range, Z.ltb_ge. change (Ok _ = Ok c') with (Ok (E := string) (buffer_defaults c) = Ok c'). unfold buffers_ok.
  change (BufferMin (c <| BufferMin ::= _ |> <| BufferMax ::= _ |>)) with (BufferMin (buffer_defaults c)). change (BufferMax (c <| BufferMin ::= _ |> <| BufferMax ::= _ |>)) with (BufferMax (buffer_defaults c)).
  fold (buffer_defaults c). split; [intros (H1 & H2 & H3 & H4 & [= <-]); split; [done|lia]|intros [-> H]; split_and!; (lia || done)].
Qed.

Lemma validate_rtt_ok c c' : validate_rtt c = Ok c' <-> c' = rtt_defaults c /\ rtt_ok (rtt_defaults c).
Proof.
  unfold validate_rtt. cbv zeta. rewrite !check_ok, !in_range, !Z.ltb_ge. change (Ok _ = Ok c') with (Ok (E := string) (rtt_defaults c) = Ok c'). unfold rtt_ok, rtt_defaults. cbn [RTTMin RTTMax RTTMultiplier MinRetries MaxRetries upd field_map].
  split; [intros (H1 & H2 & H3 & H4 & H5 & H6 & H7 & [= <-]); split; [done|cbn in *; lia]|intros [-> H]; cbn in *; split_and!; (lia || done)].
Qed.

Lemma validate_rates_ok c c' : validate_rates c = Ok c' <-> c' = rate_defaults c /\ rates_ok (rate_defaults c).
Proof.
  unfold validate_rates. cbv zeta. rewrite !check_ok, !Z.ltb_ge. change (Ok _ = Ok c') with (Ok (E := string) (rate_defaults c) = Ok c'). unfold rates_ok, rate_defaults.
  split; [intros (H1 & H2 & H3 & H4 & H5 & H6 & H7 & [= <-]); split; [done|cbn in *; lia]|intros [-> H]; cbn in *; split_and!; (lia || done)].
Qed.

Lemma two_values v : negb (v =? 0) && negb (v =? 1) = false <-> v = 0 \/ v = 1.
Proof. rewrite andb_false_iff, !negb_false_iff, !Z.eqb_eq. done. Qed.
Lemma three_values v : negb (v =? 0) && negb (v =? 1) && negb (v =? 2) = false <-> 0 <= v <= 2.
Proof. rewrite !andb_false_iff, !negb_false_iff, !Z.eqb_eq. lia. Qed.
Lemma both_set s t : negb (Bool.eqb (is_set s) (is_set t)) = false <-> (s = "" <-> t = "").
Proof. rewrite <-!is_set_spec. destruct (is_set s), (is_set t); cbn; intuition congruence. Qed.
Lemma key_bits v p q : (v =? 192) && negb (p =? q) = false /\ negb ((v =? 0) || (v =? 128) || (v =? 256) || (v =? 192)) = false <-> v = 0 \/ v = 128 \/ v = 256 \/ (v = 192 /\ p = q).
Proof. rewrite only_at, negb_false_iff, !orb_true_iff, !Z.eqb_eq. intuition lia. Qed.
Lemma bits_used v s t : negb (v =? 0) && negb (is_set s) && negb (is_set t) = false <-> (v <> 0 -> s <> "" \/ t <> "").
Proof. rewrite <-!is_set_spec. destruct (Z.eqb_spec v 0), (is_set s), (is_set t); cbn; intuition congruence. Qed.

(** The default of the key size touches nothing else. *)
Lemma default_key_bits_eq c : exists v, default_key_bits c = c <| AESKeyBits := v |>.
Proof. unfold default_key_bits. destruct (_ && _); [by eexists|]. destruct (_ && _ && _); [by eexists|]. exists (AESKeyBits c). by destruct c. Qed.

Lemma validate_keys_ok c c' : validate_keys c = Ok c' <-> c' = default_key_bits c /\ keys_ok (default_key_bits c).
Proof.
  unfold validate_keys. cbv zeta. destruct (default_key_bits_eq c) as (v & ->). set (d := c <| AESKeyBits := v |>). change (CNAME c) with (CNAME d). change (NACKType c) with (NACKType d). change (CongestionControl c) with (CongestionControl d). change (TimingMode c) with (TimingMode d). change (Secret c) with (Secret d). clearbody d.
  rewrite !check_ok, !Z.ltb_ge. unfold NACKRange, NACKBitmask, CongestionNormal, CongestionAggressive, CongestionOff, TimingSource, TimingArrival, TimingRTC. rewrite two_values, !three_values, both_set, bits_used. pose proof (key_bits (AESKeyBits d) (Profile d) ProfileAdvanced) as HK. split.
  - intros (H1 & H2 & H3 & H4 & H5 & H6 & H7 & H8 & H9 & H10 & H11 & H12 & H13 & [= <-]). split; [done|]. split; try done. by apply HK.
  - intros [-> [(H1 & H5 & H11 & H12) (H2 & H3 & H4) H6 H8 [H9 H13] H10]]. apply HK in H6 as [H6 H7]. done.
Qed.

Record multicast_ok (interface_exists is_address : string -> bool) (c : Config) : Prop := {
  mo_ttl : 0 <= MulticastTTL c <= 255;
  mo_interface : Interface c <> "" -> interface_exists (Interface c) = true;
  mo_source : MulticastSource c <> "" -> is_address (MulticastSource c) = true }.

Lemma validateMulticast_ok ie ia c : validateMulticast ie ia c = Ok tt <-> multicast_ok ie ia c.
Proof.
  assert (HS : forall s b, is_set s && negb b = false <-> (s <> "" -> b = true)) by (intros s b; rewrite <-is_set_spec; destruct (is_set s), b; cbn; intuition congruence).
  unfold validateMulticast. rewrite !check_ok, in_range, !HS. split; [intros (H1 & H2 & H3 & _); by split|intros [H1 H2 H3]; done].
Qed.

(** What an accepted configuration satisfies. *)
Record config_valid (ie ia : string -> bool) (c : Config) : Prop := {
  cv_gates : gates_ok c; cv_fec : fec_part_ok c; cv_dtls : dtls_part_ok c; cv_buffers : buffers_ok c; cv_rtt : rtt_ok c; cv_rates : rates_ok c; cv_keys : keys_ok c; cv_multicast : multicast_ok ie ia c }.

Lemma gates_defaults c : gates_ok (with_defaults c) <-> gates_ok c.
Proof.
  unfold with_defaults. set (d := rate_defaults (rtt_defaults (buffer_defaults c))). assert (Hd : gates_ok d <-> gates_ok c) by (subst d; split; intros [H1 H2 H3 H4 H5 H6]; split; done). rewrite <-Hd. clearbody d. clear Hd c.
  assert (HA : Profile d = ProfileSimple -> gates_ok d -> AESKeyBits (default_key_bits d) = AESKeyBits d).
  { intros Hp [_ H2 H3 _ _ _]. destruct (H2 Hp) as (Hs & _). unfold default_key_bits. rewrite (proj2 (is_set_spec _) Hs). cbn [andb negb]. destruct (is_set (Username d)) eqn:Eu; [|done]. exfalso. assert (Hm : Profile d = ProfileMain) by (apply H3; left; intros E; apply is_set_spec in E; congruence). rewrite Hp in Hm. discriminate Hm. }
  assert (HB : AESKeyBits (default_key_bits d) = 0 -> AESKeyBits d = 0) by (unfold default_key_bits; destruct (_ && _) eqn:E1; [done|]; destruct (_ && _ && _) eqn:E2; [done|done]).
  destruct (default_key_bits_eq d) as (v & E). rewrite E in *. change (AESKeyBits (d <| AESKeyBits := v |>)) with v in *. split; intros H; destruct H as [H1 H2 H3 H4 H5 H6]; split; try done.
  - intros Hp. destruct (H2 Hp) as (G1 & G2 & G3). split; [done|]. split; [by apply HB|done].
  - intros Hp. destruct (H2 Hp) as (G1 & G2 & G3). split; [done|]. split; [|done]. change (v = 0). rewrite HA; [done|done|by split].
Qed.

(** The parts read no field that a later default sets. *)
Lemma parts_frame c : let d := with_defaults c in
  (fec_part_ok c <-> fec_part_ok d) /\ (dtls_part_ok c <-> dtls_part_ok d) /\ (buffers_ok (buffer_defaults c) <-> buffers_ok d) /\ (rtt_ok (rtt_defaults (buffer_defaults c)) <-> rtt_ok d) /\
  (rates_ok (rate_defaults (rtt_defaults (buffer_defaults c))) <-> rates_ok d).
Proof.
  cbv zeta. unfold with_defaults. destruct (default_key_bits_eq (rate_defaults (rtt_defaults (buffer_defaults c)))) as (v & ->). unfold fec_part_ok, dtls_part_ok, buffers_ok, rtt_ok, rates_ok. destruct c. cbn. done.
Qed.

Lemma with_defaults_eq c : default_key_bits (rate_defaults (rtt_defaults (buffer_defaults c))) = with_defaults c.
Proof. unfold with_defaults. reflexivity. Qed.

Lemma validate_exact ie ia c c' : validate ie ia c = Ok c' <-> c' = with_defaults c /\ config_valid ie ia (with_defaults c).
Proof.
  unfold validate. rewrite !bind_ok. setoid_rewrite bind_ok. setoid_rewrite bind_ok. setoid_rewrite bind_ok. setoid_rewrite bind_ok. setoid_rewrite bind_ok. setoid_rewrite bind_ok. setoid_rewrite bind_ok.
  destruct (parts_frame c) as (F1 & F2 & F3 & F4 & F5). split.
  - intros ([] & H1 & [] & H2 & [] & H3 & c1 & H4 & c2 & H5 & c3' & H6 & c4 & H7 & [] & H8 & [= <-]).
    apply validate_gates_ok in H1. apply (proj2 (gates_defaults c)) in H1. apply validate_fec_ok, F1 in H2. apply validate_dtls_ok, F2 in H3. apply validate_buffers_ok in H4 as [-> H4]. apply validate_rtt_ok in H5 as [-> H5]. apply validate_rates_ok in H6 as [-> H6]. apply validate_keys_ok in H7 as [-> H7]. apply validateMulticast_ok in H8.
    apply F3 in H4. apply F4 in H5. apply F5 in H6. rewrite with_defaults_eq in H7, H8 |- *. split; [reflexivity|by split].
  - intros [-> [H1 H2 H3 H4 H5 H6 H7 H8]]. apply (proj1 (gates_defaults c)) in H1. apply F1 in H2. apply F2 in H3. apply F3 in H4. apply F4 in H5. apply F5 in H6.
    exists tt. split; [exact (proj2 (validate_gates_ok c) H1)|]. exists tt. split; [exact (proj2 (validate_fec_ok c) H2)|]. exists tt. split; [exact (proj2 (validate_dtls_ok c) H3)|].
    exists (buffer_defaults c). split; [exact (proj2 (validate_buffers_ok c _) (conj eq_refl H4))|]. exists (rtt_defaults (buffer_defaults c)). split; [exact (proj2 (validate_rtt_ok _ _) (conj eq_refl H5))|].
    exists (rate_defaults (rtt_defaults (buffer_defaults c))). split; [exact (proj2 (validate_rates_ok _ _) (conj eq_refl H6))|].
    exists (with_defaults c). split; [apply (proj2 (validate_keys_ok _ _)); rewrite with_defaults_eq; exact (conj eq_refl H7)|]. exists tt. split; [exact (proj2 (validateMulticast_ok _ _ _) H8)|reflexivity].
Qed.

Lemma or_default_idem v d : d <> 0 -> or_default (or_default v d) d = or_default v d.
Proof. intros Hd. unfold or_default. destruct (Z.eqb_spec v 0); [by destruct (Z.eqb_spec d 0)|]. by destruct (Z.eqb_spec v 0). Qed.

Lemma default_key_bits_idem c : default_key_bits (default_key_bits c) = default_key_bits c.
Proof.
  unfold default_key_bits at 2 3. destruct (is_set (Secret c)) eqn:Es, (is_set (Username c)) eqn:Eu, (AESKeyBits c =? 0) eqn:Ea; cbn [andb negb]; unfold default_key_bits; cbn [Secret Username AESKeyBits upd field_map];
    try change (Secret (c <| AESKeyBits := _ |>)) with (Secret c); try change (Username (c <| AESKeyBits := _ |>)) with (Username c); rewrite ?Es, ?Eu, ?Ea; reflexivity.
Qed.

Lemma with_defaults_idem c : with_defaults (with_defaults c) = with_defaults c.
Proof.
  unfold with_defaults at 2. set (c3 := rate_defaults (rtt_defaults (buffer_defaults c))). destruct (default_key_bits_eq c3) as (v & Ev).
  assert (E : rate_defaults (rtt_defaults (buffer_defaults (default_key_bits c3))) = default_key_bits c3).
  { rewrite Ev. subst c3. clear Ev. destruct c. cbv -[or_default DefaultBufferMin DefaultBufferMax DefaultReorderBuffer DefaultRTTMin DefaultRTTMax DefaultRTTMultiplier DefaultMinRetries DefaultMaxRetries DefaultSessionTimeout DefaultKeepaliveInterval DefaultMaxBitrate DefaultVirtSrcPort DefaultVirtDstPort]. rewrite !or_default_idem by discriminate. reflexivity. }
  unfold with_defaults. fold c3. rewrite E. apply default_key_bits_idem.
Qed.

(** ** Properties *)

(** C22: Validation against its specification.  For given answers of the interface lookup and the address parser, a configuration is accepted exactly when, with the defaults put
    in, it satisfies the declarative requirements ([config_valid]: ranges, orderings, and every feature on a profile that has it), the result is the configuration with
    the defaults and nothing else changed, and a result is accepted again as it is.  The requirements are those of the code: a comment on AESKeyBits allows 128 and 256 bits and asks for a Secret, while
    validate also accepts 192 on the Advanced profile, and SRP credentials in place of the Secret. *)
Theorem config_validate_exact ie ia c c' :
  (validate ie ia c = Ok c' <-> c' = with_defaults c /\ config_valid ie ia (with_defaults c)) /\ (validate ie ia c = Ok c' -> validate ie ia c' = Ok c').
Proof.
  split; [apply validate_exact|]. intros H. apply validate_exact in H as [-> H]. apply validate_exact. rewrite with_defaults_idem. by split.
Qed.

Lemma config_validate_exact_witness : config_valid (fun _ => true) (fun _ => true) DefaultConfig /\ validate (fun _ => true) (fun _ => true) zeroConfig = Ok (with_defaults zeroConfig) /\
  validate (fun _ => true) (fun _ => true) (zeroConfig <| Secret := "k" |>) = Err "rist: Secret (PSK encryption) requires ProfileMain or ProfileAdvanced; the Simple profile transmits in the clear".
Proof.
  assert (E : with_defaults DefaultConfig = DefaultConfig) by (vm_compute; reflexivity). destruct (config_validate_exact (fun _ => true) (fun _ => true) DefaultConfig DefaultConfig) as [[H _] _]. split; [|split; vm_compute; reflexivity].
  rewrite <-E. apply H. vm_compute. reflexivity.
Defined.
End rist.
