(* ===== verification/HostFlow.v ===== *)
(** * From a validated configuration to the running parts (src/host.go)

    What [toFlowConfig] and [applyRateAdapt] make of an accepted configuration: the flow core's invariants hold of every flow a host can build, the FEC
    matrix fits its encoder, and the rate controller's target stays in the configured band. *)

From stdpp Require Import strings gmap.
From S2P Require Import Prelude GoFloat Bytes Clock FlowTypes Congestion FlowNew Sender Receiver Flow Window Playout FeedInv Missing Nack FlowInv Fec Adapt HostConfig.

Module hostflow.
Import rist.
#[local] Open Scope Z_scope.

(** The configuration of a flow, with what the session adds to it. *)
Definition flow_config (c : Config) (ssrc start : Z) (noRecovery : bool) : FlowTypes.Config :=
  toFlowConfig c <| FlowTypes.cfg_SSRC := ssrc |> <| FlowTypes.StartSeq := start |> <| FlowTypes.NoRecovery := noRecovery |>.

Lemma quot_floor a b : 0 <= a -> 0 < b -> a /g b = a / b.
Proof. intros. by apply Z.quot_div_nonneg. Qed.

Lemma quot_mono a b d : 0 <= a <= b -> 0 < d -> a /g d <= b /g d.
Proof. intros Hab Hd. apply Z.quot_le_mono; lia. Qed.

(** The windows of an accepted configuration in microseconds. *)
Lemma flow_config_bounds c ssrc start nr : buffers_ok c -> rtt_ok c ->
  let f := flow_config c ssrc start nr in
  50000 <= FlowTypes.RecoveryBufferMin f <= FlowTypes.RecoveryBufferMax f /\ FlowTypes.RecoveryBufferMax f <= 30000000 /\ 0 <= FlowTypes.ReorderBuffer f <= FlowTypes.RecoveryBufferMin f /\
  1000 <= FlowTypes.RTTMin f <= FlowTypes.RTTMax f /\ FlowTypes.RTTMax f <= 30000000.
Proof.
  unfold buffers_ok, rtt_ok, MinBuffer, MaxBuffer, MinRTT, MaxRTT, Millisecond_ns. intros (Hb1 & Hb2 & Hb3) (Hr1 & Hr2 & _ & Hm & _). cbv zeta.
  assert (HF : forall a b, 0 <= a <= b -> FromDuration a <= FromDuration b) by (intros a b Hab; apply quot_mono; lia).
  pose proof (HF (50 * 1000000) (BufferMin c) ltac:(lia)) as B1. pose proof (HF (BufferMin c) (BufferMax c) ltac:(lia)) as B2. pose proof (HF (BufferMax c) (30000 * 1000000) ltac:(lia)) as B3. pose proof (HF 0 (ReorderBuffer c) ltac:(lia)) as B4. pose proof (HF (ReorderBuffer c) (BufferMin c) ltac:(lia)) as B5.
  pose proof (HF (1 * 1000000) (RTTMin c) ltac:(lia)) as R1. pose proof (HF (RTTMin c) (RTTMax c) ltac:(lia)) as R2. pose proof (HF (RTTMax c) (1000 * 1000000) ltac:(lia)) as R3.
  change (FromDuration (50 * 1000000)) with 50000 in *. change (FromDuration (30000 * 1000000)) with 30000000 in *. change (FromDuration 0) with 0 in *. change (FromDuration (1 * 1000000)) with 1000 in *. change (FromDuration (1000 * 1000000)) with 1000000 in *.
  unfold flow_config, toFlowConfig, effectiveRTTBounds. cbn. set (x := FromDuration (RTTMin c)) in *. set (y := FromDuration (RTTMax c)) in *. set (b := FromDuration (BufferMin c)) in *.
  assert (HQ : 0 < MaxRetries c -> 0 <= b /g MaxRetries c <= b) by (intros; rewrite quot_floor by lia; split; [apply Z.div_pos; lia|apply Z.div_le_upper_bound; nia]).
  destruct (Z.ltb_spec 0 (MaxRetries c)) as [Hp|Hp]; [specialize (HQ Hp); destruct (Z.ltb_spec x (b /g MaxRetries c))|]; match goal with |- context [y <? ?z] => destruct (Z.ltb_spec y z) end; lia.
Qed.

Lemma quot_bound a b m : 0 < b -> - m <= a <= m -> 0 <= m -> - (m / b) <= a /g b <= m / b.
Proof.
  intros Hb Ha Hm. destruct (Z.le_ge_cases 0 a) as [H|H].
  - rewrite quot_floor by lia. pose proof (Z.div_pos a b H Hb). pose proof (Z.div_le_mono a m b Hb ltac:(lia)). pose proof (Z.div_pos m b Hm Hb). lia.
  - rewrite <-(Z.opp_involutive a), Z.quot_opp_l by lia. rewrite quot_floor by lia. pose proof (Z.div_pos (- a) b ltac:(lia) Hb). pose proof (Z.div_le_mono (- a) m b Hb ltac:(lia)). lia.
Qed.

(** The request budget of a flow cannot overflow, whatever the bit rate. *)
Lemma budget_bound fc : 50000 <= FlowTypes.RecoveryBufferMax fc -> deriveMaxNacksPerLoop fc < 2 ^ 62.
Proof.
  intros Hb. unfold deriveMaxNacksPerLoop. cbv zeta. set (kbps := if FlowTypes.RecoveryMaxBitrate fc <=? 0 then 100000 else FlowTypes.RecoveryMaxBitrate fc). change (8 * ristNackMtuAssumed) with 11200. change Millisecond with 1000. set (b := FlowTypes.RecoveryBufferMax fc /g 1000). assert (H50 : 50 <= b) by (unfold b; pose proof (quot_mono 50000 (FlowTypes.RecoveryBufferMax fc) 1000 ltac:(lia) ltac:(lia)); change (50000 /g 1000) with 50 in *; lia). destruct (Z.leb_spec b 0); [lia|].
  pose proof (i64_range (kbps * ristMaxJitterMs)) as Hr. unfold in_i64 in Hr. set (x := i64 (kbps * ristMaxJitterMs)) in *. clearbody x. pose proof (quot_bound x 11200 (2 ^ 63) ltac:(lia) ltac:(lia) ltac:(lia)) as Hx. change (2 ^ 63 / 11200) with 823515360433462 in Hx. set (n := x /g 11200) in *. clearbody n.
  rewrite (i64_id (n * 1000)) by (unfold in_i64; lia). pose proof (quot_bound (n * 1000) b 823515360433462000 ltac:(lia) ltac:(lia) ltac:(lia)) as Hq. pose proof (Z.div_le_compat_l 823515360433462000 50 b ltac:(lia) ltac:(lia)) as Hc. change (823515360433462000 / 50) with 16470307208669240 in Hc.
  set (m := n * 1000 /g b) in *. clearbody m. destruct (m =? 0); rewrite i64_id by (unfold in_i64; lia); lia.
Qed.

Lemma flow_config_ok c ssrc start nr : buffers_ok c -> rtt_ok c -> in_u32 start -> config_ok (flow_config c ssrc start nr).
Proof.
  intros Hb Hr Hs. pose proof (flow_config_bounds c ssrc start nr Hb Hr) as H. cbv zeta in H. assert (H1 : FlowTypes.RingSize (flow_config c ssrc start nr) = 0) by (unfold flow_config, toFlowConfig; by destruct (effectiveRTTBounds c)). assert (H2 : FlowTypes.MaxRetries (flow_config c ssrc start nr) = MaxRetries c) by (unfold flow_config, toFlowConfig; by destruct (effectiveRTTBounds c)).
  assert (H3 : FlowTypes.StartSeq (flow_config c ssrc start nr) = start) by (unfold flow_config, toFlowConfig; by destruct (effectiveRTTBounds c)). unfold rtt_ok, MaxRetriesLimit in Hr. split; [lia|lia|apply budget_bound; lia|by rewrite H3].
Qed.

Lemma flow_config_ring c ssrc start nr : FlowTypes.RingSize (flow_config c ssrc start nr) = 0.
Proof. unfold flow_config, toFlowConfig. by destruct (effectiveRTTBounds c). Qed.

Lemma flow_config_floor c ssrc start nr : buffers_ok c -> 0 < MaxRetries c -> FlowTypes.RecoveryBufferMin (flow_config c ssrc start nr) / MaxRetries c <= FlowTypes.RTTMin (flow_config c ssrc start nr).
Proof.
  intros Hb Hp. unfold buffers_ok, MinBuffer, Millisecond_ns in Hb. unfold flow_config, toFlowConfig, effectiveRTTBounds. cbn. destruct (Z.ltb_spec 0 (MaxRetries c)); [|lia]. assert (H0 : 0 <= FromDuration (BufferMin c)) by (apply Z.quot_pos; lia).
  rewrite <-quot_floor by done. destruct (Z.ltb_spec (FromDuration (RTTMin c)) (FromDuration (BufferMin c) /g MaxRetries c)); lia.
Qed.

(** The playout buffer of a flow stays in its configured window. *)
Lemma run_window ro fc cs : 0 <= FlowTypes.RecoveryBufferMin fc <= FlowTypes.RecoveryBufferMax fc -> FlowTypes.RecoveryBufferMax fc < 2 ^ 62 ->
  FlowTypes.RecoveryBufferMin fc <= CurrentRecoveryBuffer (w_flow (run cs (new_world ro fc))) <= FlowTypes.RecoveryBufferMax fc.
Proof.
  intros Hw Hm. destruct (run_buffer cs (new_world ro fc) (New_buffer ro fc Hw Hm)) as [H1 _ _]. destruct (run_const cs (new_world ro fc)) as [[m E1] _]. cbn [new_world w_flow] in *. rewrite E1 in H1. by destruct ro.
Qed.

(** ** Properties *)

(** C21: Every flow a host can build is sound: for any configuration the validation accepts, with any start sequence and on either role, after
    any sequence of calls the flow invariant holds with a ring of 2^16 to 2^21 slots, and the playout buffer is inside a window of 50 ms to 30 s; the
    round-trip window handed to the core is ordered and not below the floor that spreads the retries over the buffer. *)
Theorem accepted_config_flow ie ia c0 c ro ssrc start nr cs : validate ie ia c0 = Ok c -> in_u32 start -> Forall call_typed cs ->
  let fc := flow_config c ssrc start nr in let f := w_flow (run cs (new_world ro fc)) in
  (exists k, 16 <= k <= 21 /\ ringCapacity fc = 2 ^ k /\ flow_inv k f) /\
  50000 <= FlowTypes.RecoveryBufferMin fc <= CurrentRecoveryBuffer f /\ CurrentRecoveryBuffer f <= FlowTypes.RecoveryBufferMax fc <= 30000000 /\
  1000 <= FlowTypes.RTTMin fc <= FlowTypes.RTTMax fc /\ (0 < MaxRetries c -> FlowTypes.RecoveryBufferMin fc / MaxRetries c <= FlowTypes.RTTMin fc).
Proof.
  intros Hv Hs Hcs. cbv zeta. apply validate_exact in Hv as [-> [_ _ _ Hb Hr _ _ _]]. generalize dependent (with_defaults c0). intros c Hb Hr.
  pose proof (flow_config_bounds c ssrc start nr Hb Hr) as HB. cbv zeta in HB. pose proof (flow_config_ok c ssrc start nr Hb Hr Hs) as Hok. pose proof (flow_config_floor c ssrc start nr Hb) as HF. pose proof (flow_config_ring c ssrc start nr) as H1.
  generalize dependent (flow_config c ssrc start nr). intros fc HB Hok HF H1. split.
  - destruct (New_inv ro fc Hok) as (k & Hk & E & Hi). exists k. destruct (ringCapacity_spec fc) as (j & _ & E' & _ & Hj); [lia|]. rewrite E in E'. apply Z.pow_inj_r in E'; [|lia..]. specialize (Hj ltac:(lia)). split; [lia|]. split; [done|]. by apply run_inv.
  - pose proof (run_window ro fc cs ltac:(lia) ltac:(lia)) as Hw. split; [lia|]. split; [lia|]. split; [lia|]. exact HF.
Qed.

Lemma accepted_config_flow_witness :
  let fc := flow_config (with_defaults DefaultConfig) 7 (2 ^ 32 - 1) false in let f := w_flow (run [] (new_world RoleReceiver fc)) in
  (exists k, 16 <= k <= 21 /\ ringCapacity fc = 2 ^ k /\ flow_inv k f) /\ FlowTypes.RTTMin fc = 50000 /\ FlowTypes.RTTMax fc = 500000.
Proof.
  assert (Hv : validate (fun _ => true) (fun _ => true) DefaultConfig = Ok (with_defaults DefaultConfig)) by (vm_compute; reflexivity).
  destruct (accepted_config_flow (fun _ => true) (fun _ => true) DefaultConfig (with_defaults DefaultConfig) RoleReceiver 7 (2 ^ 32 - 1) false [] Hv) as [H _]; [by split|constructor|]. split; [exact H|]. split; vm_compute; reflexivity.
Defined.

(** The target of the controller a configuration builds, after link reports. *)
Definition rate_after (rs : list (f64 + adapt.LQM)) (c : Config) : option Z :=
  option_map (fun ctl => adapt.Target (fold_left (fun k r => adapt.feed r k) rs ctl)) (applyRateAdapt c).

(** The rate controller of an accepted configuration: whatever link reports arrive, the target stays between the configured minimum (500 kbps when it is not
    set) and MaxBitrate.  The exception is a MaxBitrate below 500 kbps with no minimum: the built-in floor then wins over the ceiling
    and the target is 500 kbps always, above MaxBitrate. *)
Theorem rate_target_of_config ie ia c0 c rs : validate ie ia c0 = Ok c -> OnRateAdapt c = true ->
  exists t, rate_after rs c = Some t /\
  if (0 <? MinBitrate c) || (500 <=? MaxBitrate c) then (if 0 <? MinBitrate c then MinBitrate c else 500) <= t <= MaxBitrate c else t = 500 /\ MaxBitrate c < t.
Proof.
  intros Hv Ho. apply validate_exact in Hv as [-> [_ _ _ _ _ Hr _ _]]. revert Ho Hr. generalize (with_defaults c0). intros c Ho Hr. unfold rates_ok in Hr. unfold rate_after, applyRateAdapt. rewrite Ho. cbn [negb]. cbv zeta. cbn [option_map]. eexists. split; [reflexivity|]. set (cc := if 0 <? MaxBitrate c /g 100 then _ else _).
  assert (Hcc : adapt.MinKbps cc = (if 0 <? MinBitrate c then MinBitrate c else 500) /\ adapt.MaxKbps cc = MaxBitrate c) by (unfold cc; destruct (0 <? MinBitrate c), (0 <? MaxBitrate c /g 100); done). clearbody cc. destruct Hcc as [Hmin Hmax].
  destruct (adapt.feed_all_wf rs (adapt.NewController cc) (adapt.wf_NewController cc)) as [(_ & _ & Hb) Hcfg]. rewrite Hcfg in Hb. assert (HN : adapt.MinKbps (adapt.c_cfg (adapt.NewController cc)) = adapt.MinKbps cc /\ adapt.MaxKbps (adapt.c_cfg (adapt.NewController cc)) = Z.max (adapt.MinKbps cc) (adapt.MaxKbps cc)).
  { assert (0 <= adapt.MinKbps cc) by (rewrite Hmin; destruct (Z.ltb_spec 0 (MinBitrate c)); lia). unfold adapt.NewController. destruct (Z.ltb_spec (adapt.MinKbps cc) 0); [lia|]. destruct (Z.ltb_spec (adapt.MaxKbps cc) (adapt.MinKbps cc)), (adapt.IncreaseKbps _ <? 0); cbn; lia. }
  destruct HN as [HN1 HN2]. rewrite HN1, HN2, Hmin, Hmax in Hb. unfold adapt.Target. destruct (Z.ltb_spec 0 (MinBitrate c)); cbn [orb]; [lia|]. destruct (Z.leb_spec 500 (MaxBitrate c)); lia.
Qed.

Lemma rate_target_of_config_witness :
  let c := DefaultConfig <| OnRateAdapt := true |> <| MaxBitrate := 300 |> in
  rate_after [] (with_defaults c) = Some 500 /\ MaxBitrate (with_defaults c) = 300.
Proof.
  cbv zeta. set (c := DefaultConfig <| OnRateAdapt := true |> <| MaxBitrate := 300 |>). assert (Hv : validate (fun _ => true) (fun _ => true) c = Ok (with_defaults c)) by (vm_compute; reflexivity).
  destruct (rate_target_of_config (fun _ => true) (fun _ => true) c (with_defaults c) [] Hv eq_refl) as (t & H1 & H2 & _). rewrite H1. split; [by rewrite H2|reflexivity].
Defined.

(** The FEC matrix an accepted configuration gives the encoder and the decoder fits them, and with a known carriage it goes to separate ports exactly
    off the Advanced profile. *)
Lemma fec_of_config ie ia c0 c f : validate ie ia c0 = Ok c -> FEC c = Some f ->
  exists m sep, toSessionFEC (FEC c) (Profile c =? ProfileAdvanced) = Some (m, sep) /\ 1 <= fecm.Cols m /\ 4 <= fecm.Rows m /\ fecm.Cols m * fecm.Rows m <= 6000 /\
  (0 <= Carriage f <= 2 -> sep = negb (Profile c =? ProfileAdvanced)).
Proof.
  intros Hv Hf. apply validate_exact in Hv as [-> [_ H _ _ _ _ _ _]]. revert Hf H. generalize (with_defaults c0). intros c Hf H. destruct (H f Hf) as ([Hvr Hc Hr Hm] & Hi & Hs). rewrite Hf. cbn [toSessionFEC]. eexists _, _. split; [reflexivity|]. cbn [fecm.Cols fecm.Rows].
  split; [destruct (fc_ColumnOnly f); lia|]. split; [lia|]. split; [destruct (fc_Variant f =? FECVariant2022_1); lia|]. intros Hcar. unfold carriage in *. unfold FECCarriageDefault, FECCarriageInBand, FECCarriageSeparatePorts in *.
  destruct (Z.eqb_spec (Profile c) ProfileAdvanced) as [Ep|Ep], (Z.eqb_spec (Carriage f) 0) as [Ec|Ec]; cbn [negb] in *; try done; destruct (Z.eqb_spec (Carriage f) 2); try done; exfalso; [by apply Hs|apply Ep, Hi; lia].
Qed.

(** An unknown carriage passes validation: it is neither of the two the checks name, and the session takes it as in-band. *)
Lemma fec_carriage_unchecked :
  let c := DefaultConfig <| Profile := ProfileSimple |> <| FEC := Some (mkFEC 5 5 false 3 0) |> in
  validate (fun _ => true) (fun _ => true) c = Ok c /\ toSessionFEC (FEC c) false = Some (fecm.mkConfig 5 5 false fecm.Variant20221, false).
Proof. vm_compute. done. Qed.
End hostflow.
