(* ===== verification/UrlQuery.v ===== *)
(** * URL parameters (src/url.go)

    [applyQuery]: the query parameters of a rist:// URL folded into a configuration.  The query is the map [net/url] returns; an error is a
    short text.  [strconv.Atoi] is written out; a parameter that is absent or empty leaves its field alone. *)

From stdpp Require Import strings gmap.
From S2P Require Import Prelude Bytes HostConfig.

Module urlquery.
Import rist.
#[local] Open Scope string_scope.
#[local] Open Scope Z_scope.

Definition Values : Type := gmap string (list string).

(** [q.Get(key)]: the first value, or the empty string. *)
Definition Get (q : Values) (key : string) : string := match q !! key with Some (v :: _) => v | _ => "" end.

(** ** strconv.Atoi *)

Definition code (a : Ascii.ascii) : Z := Z.of_N (Ascii.N_of_ascii a).
Definition digit (a : Ascii.ascii) : option Z := let n := code a in if (48 <=? n) && (n <=? 57) then Some (n - 48) else None.

Fixpoint digits (acc : Z) (s : string) : option Z :=
  match s with
  | "" => Some acc
  | String a s => match digit a with Some d => digits (10 * acc + d) s | None => None end
  end.

Definition sign (s : string) : bool * string :=
  match s with
  | String a r => if code a =? 45 then (true, r) else if code a =? 43 then (false, r) else (false, s)
  | "" => (false, s)
  end.

Definition Atoi (s : string) : option Z :=
  let '(neg, s) := sign s in
  if String.eqb s "" then None else
  match digits 0 s with
  | Some n => let v := if neg : bool then - n else n in if (- 2 ^ 63 <=? v) && (v <? 2 ^ 63) then Some v else None
  | None => None
  end.

(** ** The parameters *)

Definition maxURLMillis : Z := 7 * 24 * 3600 * 1000.

Definition parseMillis (v : string) : res string Z :=
  match Atoi v with
  | None => Err "not an integer"
  | Some n => if (n <? 0) || (maxURLMillis <? n) then Err "out of range" else Ok (i64 (n * Millisecond_ns))
  end.

(** An optional parameter: its value if it is present, after the parse. *)
Definition param {A} (parse : string -> res string A) (q : Values) (key : string) : res string (option A) :=
  let v := Get q key in if String.eqb v "" then Ok None else x ← parse v; Ok (Some x).

(** A parameter folded into the configuration. *)
Definition apply {A} (parse : string -> res string A) (q : Values) (key : string) (set : A -> Config -> Config) (cfg : Config) : res string Config :=
  v ← param parse q key; Ok (match v with Some x => set x cfg | None => cfg end).

Definition parseInt (v : string) : res string Z := match Atoi v with Some n => Ok n | None => Err "not an integer" end.
Definition parseBound (hi : Z) (v : string) : res string Z := match Atoi v with Some n => if (n <? 0) || (hi <? n) then Err "out of range" else Ok n | None => Err "out of range" end.
Definition parseText (v : string) : res string string := Ok v.
Definition parseFlag (v : string) : res string bool := Ok (negb (String.eqb v "0")).

Fixpoint choose (table : list (string * Z)) (v : string) : res string Z :=
  match table with [] => Err "not one of the values" | (name, x) :: table => if String.eqb v name then Ok x else choose table v end.

Definition parseCongestion : string -> res string Z := choose [("0", CongestionOff); ("1", CongestionNormal); ("2", CongestionAggressive)].
Definition parseTiming : string -> res string Z := choose [("0", TimingSource); ("1", TimingArrival); ("2", TimingArrival)].
Definition parseSplit : string -> res string Z := choose [("off", SplitOff); ("auto", SplitAuto); ("ts", SplitAuto); ("half", SplitHalf)].
Definition parseMerge : string -> res string Z := choose [("off", MergeOff); ("pairs", MergePairs); ("auto", MergeAuto)].

Definition recognizedURLParams : list string :=
  ["buffer"; "buffer-min"; "buffer-max"; "rtt"; "rtt-min"; "rtt-max"; "rtt-multiplier"; "reorder-buffer"; "session-timeout"; "keepalive"; "keepalive-interval"; "bandwidth"; "weight"; "aes-type"; "key-rotation";
   "min-retries"; "max-retries"; "recovery-depth"; "virt-src-port"; "virt-dst-port"; "profile"; "cname"; "secret"; "username"; "password"; "compression"; "miface"; "ttl"; "source"; "congestion-control";
   "timing-mode"; "srp-compat"; "return-bandwidth"; "split"; "merge"; "recovery-priority"; "local-port"; "reflector"].

(** The two parameters that set both ends of a window, then the explicit ends. *)
Definition applyWindows (q : Values) (cfg : Config) : res string Config :=
  cfg ← apply parseMillis q "buffer" (fun d c => c <| BufferMin := d |> <| BufferMax := d |>) cfg;
  cfg ← apply parseMillis q "rtt" (fun d c => c <| RTTMin := d |> <| RTTMax := d |>) cfg;
  cfg ← apply parseMillis q "buffer-min" (fun d c => c <| BufferMin := d |>) cfg;
  cfg ← apply parseMillis q "buffer-max" (fun d c => c <| BufferMax := d |>) cfg;
  cfg ← apply parseMillis q "rtt-min" (fun d c => c <| RTTMin := d |>) cfg;
  apply parseMillis q "rtt-max" (fun d c => c <| RTTMax := d |>) cfg.

Definition applyTimes (q : Values) (cfg : Config) : res string Config :=
  cfg ← apply parseMillis q "reorder-buffer" (fun d c => c <| ReorderBuffer := d |>) cfg;
  cfg ← apply parseMillis q "session-timeout" (fun d c => c <| SessionTimeout := d |>) cfg;
  cfg ← apply parseMillis q "keepalive" (fun d c => c <| KeepaliveInterval := d |>) cfg;
  apply parseMillis q "keepalive-interval" (fun d c => c <| KeepaliveInterval := d |>) cfg.

Definition applyInts (q : Values) (cfg : Config) : res string Config :=
  cfg ← apply parseInt q "rtt-multiplier" (fun n c => c <| RTTMultiplier := n |>) cfg;
  cfg ← apply parseInt q "bandwidth" (fun n c => c <| MaxBitrate := n |>) cfg;
  cfg ← apply parseInt q "return-bandwidth" (fun n c => c <| ReturnBandwidth := n |>) cfg;
  cfg ← apply parseInt q "weight" (fun n c => c <| Weight := n |>) cfg;
  cfg ← apply parseInt q "aes-type" (fun n c => c <| AESKeyBits := n |>) cfg;
  cfg ← apply parseInt q "key-rotation" (fun n c => c <| KeyRotation := n |>) cfg;
  cfg ← apply parseInt q "min-retries" (fun n c => c <| MinRetries := n |>) cfg;
  cfg ← apply parseInt q "max-retries" (fun n c => c <| MaxRetries := n |>) cfg;
  apply parseInt q "recovery-depth" (fun n c => c <| RecoveryDepth := n |>) cfg.

Definition applyPorts (q : Values) (cfg : Config) : res string Config :=
  cfg ← apply (parseBound 65535) q "virt-dst-port" (fun n c => c <| VirtDstPort := u16 n |>) cfg;
  cfg ← apply (parseBound 65535) q "virt-src-port" (fun n c => c <| VirtSrcPort := u16 n |>) cfg;
  cfg ← apply (parseBound 65535) q "local-port" (fun n c => c <| LocalPort := n |>) cfg;
  apply parseInt q "profile" (fun n c => c <| Profile := n |>) cfg.

Definition applyTexts (q : Values) (cfg : Config) : res string Config :=
  cfg ← apply parseText q "cname" (fun v c => c <| CNAME := v |>) cfg;
  cfg ← apply parseText q "secret" (fun v c => c <| Secret := v |>) cfg;
  cfg ← apply parseText q "username" (fun v c => c <| Username := v |>) cfg;
  cfg ← apply parseText q "password" (fun v c => c <| Password := v |>) cfg;
  cfg ← apply parseFlag q "compression" (fun v c => c <| Compression := v |>) cfg;
  cfg ← apply parseText q "miface" (fun v c => c <| Interface := v |>) cfg;
  cfg ← apply (parseBound 255) q "ttl" (fun n c => c <| MulticastTTL := n |>) cfg;
  apply parseText q "source" (fun v c => c <| MulticastSource := v |>) cfg.

Definition applyModes (q : Values) (cfg : Config) : res string Config :=
  cfg ← apply parseCongestion q "congestion-control" (fun n c => c <| CongestionControl := n |>) cfg;
  cfg ← apply parseTiming q "timing-mode" (fun n c => c <| TimingMode := n |>) cfg;
  cfg ← apply parseFlag q "srp-compat" (fun v c => c <| SRPCompat := v |>) cfg;
  cfg ← apply parseSplit q "split" (fun n c => c <| SplitMode := n |>) cfg;
  apply parseMerge q "merge" (fun n c => c <| MergeMode := n |>) cfg.

Definition applyQuery (q : Values) (cfg : Config) : res string Config :=
  cfg ← applyWindows q cfg;
  cfg ← applyTimes q cfg;
  cfg ← applyInts q cfg;
  cfg ← applyPorts q cfg;
  cfg ← applyTexts q cfg;
  cfg ← applyModes q cfg;
  if forallb (fun '(key, _) => bool_decide (key ∈ recognizedURLParams)) (map_to_list q) then Ok cfg else Err "unknown parameter".

(** ** What a query does *)

Definition opt_set {A} (set : A -> Config -> Config) (v : option A) (cfg : Config) : Config := match v with Some x => set x cfg | None => cfg end.

Lemma apply_ok {A} (parse : string -> res string A) q key set cfg c : apply parse q key set cfg = Ok c -> exists v, param parse q key = Ok v /\ c = opt_set set v cfg.
Proof. unfold apply. destruct (param parse q key) as [v|e|]; [|done..]. cbn. intros [= <-]. by exists v. Qed.

Lemma apply_keeps {A B} (pi : Config -> B) (parse : string -> res string A) q key set cfg c : (forall x d, pi (set x d) = pi d) -> apply parse q key set cfg = Ok c -> pi c = pi cfg.
Proof. intros Hp H. apply apply_ok in H as ([x|] & _ & ->); [apply Hp|done]. Qed.

(** The windows, and what no parameter sets. *)
Definition windows (c : Config) : Z * Z * Z * Z := (BufferMin c, BufferMax c, RTTMin c, RTTMax c).
Definition untouched (c : Config) :=
  (MinBitrate c, NACKType c, BlockDelivery c, SRPUsers c, (AdvSenderStartMain c, AnswerAdvRTTEcho c, FragmentSize c, FEC c, NullPacketDeletion c), (SourceAdaptation c, OnRateAdapt c, OnFlowAttr c, OnConnect c, OnDisconnect c, MulticastLoopback c, DTLS c, Logger c)).

Ltac bind_in H :=
  repeat match type of H with
  | (?x ≫= _) = Ok _ => let v := fresh "c" in let E := fresh "E" in destruct x as [v|?|] eqn:E; [cbn [mbind res_bind] in H|discriminate H|discriminate H]
  end.
Ltac keeps pi := repeat match goal with E : apply _ _ _ _ _ = Ok _ |- _ => apply (apply_keeps pi) in E; [|reflexivity] end; congruence.

Lemma times_keep q cfg c : applyTimes q cfg = Ok c -> windows c = windows cfg /\ untouched c = untouched cfg.
Proof. intros H. unfold applyTimes in H. bind_in H. split; [keeps windows|keeps untouched]. Qed.
Lemma ints_keep q cfg c : applyInts q cfg = Ok c -> windows c = windows cfg /\ untouched c = untouched cfg.
Proof. intros H. unfold applyInts in H. bind_in H. split; [keeps windows|keeps untouched]. Qed.
Lemma ports_keep q cfg c : applyPorts q cfg = Ok c -> windows c = windows cfg /\ untouched c = untouched cfg.
Proof. intros H. unfold applyPorts in H. bind_in H. split; [keeps windows|keeps untouched]. Qed.
Lemma texts_keep q cfg c : applyTexts q cfg = Ok c -> windows c = windows cfg /\ untouched c = untouched cfg.
Proof. intros H. unfold applyTexts in H. bind_in H. split; [keeps windows|keeps untouched]. Qed.
Lemma modes_keep q cfg c : applyModes q cfg = Ok c -> windows c = windows cfg /\ untouched c = untouched cfg.
Proof. intros H. unfold applyModes in H. bind_in H. split; [keeps windows|keeps untouched]. Qed.

(** The explicit end wins, then the parameter for both ends, then the old value. *)
Definition resolved (q : Values) (both one : string) (old : Z) : Z :=
  match param parseMillis q one, param parseMillis q both with Ok (Some d), _ => d | Ok None, Ok (Some d) => d | _, _ => old end.

Lemma applyWindows_ok q cfg c : applyWindows q cfg = Ok c ->
  windows c = (resolved q "buffer" "buffer-min" (BufferMin cfg), resolved q "buffer" "buffer-max" (BufferMax cfg), resolved q "rtt" "rtt-min" (RTTMin cfg), resolved q "rtt" "rtt-max" (RTTMax cfg)) /\ untouched c = untouched cfg.
Proof.
  intros H. unfold applyWindows in H. bind_in H. apply apply_ok in H as (v6 & P6 & ->). apply apply_ok in E as (v1 & P1 & ->). apply apply_ok in E0 as (v2 & P2 & ->). apply apply_ok in E1 as (v3 & P3 & ->). apply apply_ok in E2 as (v4 & P4 & ->). apply apply_ok in E3 as (v5 & P5 & ->).
  unfold resolved. rewrite P1, P2, P3, P4, P5, P6. split; destruct v1, v2, v3, v4, v5, v6; reflexivity.
Qed.

Lemma param_millis q key d : param parseMillis q key = Ok (Some d) -> 0 <= d <= maxURLMillis * Millisecond_ns /\ exists n, Atoi (Get q key) = Some n /\ d = n * Millisecond_ns.
Proof.
  unfold param, parseMillis. destruct (String.eqb (Get q key) ""); [done|]. destruct (Atoi (Get q key)) as [n|]; [|done]. destruct (Z.ltb_spec n 0); [done|]. destruct (Z.ltb_spec maxURLMillis n); [done|]. cbn [orb mbind res_bind].
  unfold maxURLMillis, Millisecond_ns in *. rewrite i64_id by (unfold in_i64; lia). intros [= <-]. split; [lia|]. by exists n.
Qed.

Lemma bind_inv {A B} (r : res string A) (k : A -> res string B) v : (r ≫= k) = Ok v -> exists x, r = Ok x /\ k x = Ok v.
Proof. destruct r; [|done..]. intros H. by eexists. Qed.

(** ** Properties *)

(** URL parameters: a query that is accepted names only recognized parameters, sets the buffer and round-trip windows by the documented precedence
    (an explicit end wins over the parameter for both ends, whatever the order in the URL, and an absent one leaves the base alone),
    takes times of at most a week, converted exactly, and touches none of the options no parameter names: FEC, DTLS, users,
    callbacks. *)
Theorem url_query_exact q cfg c : applyQuery q cfg = Ok c ->
  (forall key, is_Some (q !! key) -> key ∈ recognizedURLParams) /\
  windows c = (resolved q "buffer" "buffer-min" (BufferMin cfg), resolved q "buffer" "buffer-max" (BufferMax cfg), resolved q "rtt" "rtt-min" (RTTMin cfg), resolved q "rtt" "rtt-max" (RTTMax cfg)) /\
  (forall both one old, resolved q both one old = old \/ exists key n, (key = one \/ key = both) /\ Atoi (Get q key) = Some n /\ 0 <= n <= maxURLMillis /\ resolved q both one old = n * Millisecond_ns) /\
  untouched c = untouched cfg.
Proof.
  unfold applyQuery. intros H. apply bind_inv in H as (c1 & H1 & H). apply bind_inv in H as (c2 & H2 & H). apply bind_inv in H as (c3 & H3 & H). apply bind_inv in H as (c4 & H4 & H). apply bind_inv in H as (c5 & H5 & H). apply bind_inv in H as (c6 & H6 & H).
  destruct (forallb _ (map_to_list q)) eqn:Ef; [|done]. injection H as <-. apply applyWindows_ok in H1 as [W1 U1]. apply times_keep in H2 as [W2 U2]. apply ints_keep in H3 as [W3 U3]. apply ports_keep in H4 as [W4 U4]. apply texts_keep in H5 as [W5 U5]. apply modes_keep in H6 as [W6 U6].
  split; [|split; [congruence|split; [|congruence]]].
  - intros key [v Hv]. rewrite forallb_forall in Ef. specialize (Ef (key, v) (proj1 (list_elem_of_In _ _) (proj2 (elem_of_map_to_list q key v) Hv))). by apply bool_decide_eq_true in Ef.
  - intros both one old. unfold resolved. destruct (param parseMillis q one) as [[d|]|e|] eqn:E1; [right|destruct (param parseMillis q both) as [[d|]|e|] eqn:E2; [right|by left..]|by left..].
    + destruct (param_millis q one d E1) as (Hd & n & Hn & ->). exists one, n. split; [by left|]. split; [done|]. unfold Millisecond_ns in *. split; [lia|done].
    + destruct (param_millis q both d E2) as (Hd & n & Hn & ->). exists both, n. split; [by right|]. split; [done|]. unfold Millisecond_ns in *. split; [lia|done].
Qed.

Definition demo_query : Values := <["rtt" := ["40"]]> (<["buffer-max" := ["900"]]> (<["buffer" := ["600"]]> (<["cname" := ["rx"]]> ∅))).

Lemma url_query_exact_witness : exists c, applyQuery demo_query DefaultConfig = Ok c /\ windows c = (600 * Millisecond_ns, 900 * Millisecond_ns, 40 * Millisecond_ns, 40 * Millisecond_ns) /\ FEC c = None /\
  applyQuery (<["bufer" := ["1"]]> ∅) DefaultConfig = Err "unknown parameter" /\ applyQuery (<["rtt" := ["604800001"]]> ∅) DefaultConfig = Err "out of range".
Proof.
  destruct (applyQuery demo_query DefaultConfig) as [c|e|] eqn:E; [|vm_compute in E; discriminate E..]. destruct (url_query_exact demo_query DefaultConfig c E) as (_ & HW & _ & HU). exists c. split; [reflexivity|]. split; [rewrite HW; vm_compute; reflexivity|].
  split; [assert (Hf : FEC c = FEC DefaultConfig) by (unfold untouched in HU; congruence); exact Hf|]. split; vm_compute; reflexivity.
Defined.
End urlquery.
