(* ===== verification/DtlsRecord.v ===== *)
(** * The DTLS 1.2 record layer: internal/dtls/record.go, cipher.go, prf.go and suiteinfo.go

    Records and their wire form, the AES-GCM and NULL-with-HMAC protections of a record, the TLS 1.2 pseudo-random function and the split
    of the key block.  AES-GCM and HMAC are an interface, [Crypto], whose laws ([CryptoLaws]) are what their documentation promises: a tag of 16
    bytes, a MAC of the hash's length, and that opening what was sealed gives it back. *)

From S2P Require Import Prelude Bytes.

Module dtls.

Inductive error := errShortRecord | errRecordLength (n : Z) | errBadRecordMAC | errKeySize (n : Z)
  | errHandshakeLength (n : Z) | errFragmentBounds | errInconsistent
  | errHandshakeTimeout | errPeerAlert (desc : Z) | errNoKeys | errTransport | errEOF.

(** ** record.go *)

Definition recordChangeCipherSpec : Z := 20.
Definition recordAlert : Z := 21.
Definition recordHandshake : Z := 22.
Definition recordApplicationData : Z := 23.

Definition versionDTLS12 : Z * Z := (254, 253).
Definition recordHeaderLen : Z := 13.
Definition maxRecordPayload : Z := Z.shiftl 1 14.

Record record := mkRecord { typ : Z; version : Z * Z; epoch : Z; seq : Z; fragment : bytes }.

Definition seqAndEpoch (epoch seq : Z) : Z := Z.lor (u64 (Z.shiftl epoch 48)) (Z.land seq 0x0000FFFFFFFFFFFF).

Definition appendUint48 (dst : bytes) (v : Z) : bytes :=
  dst ++ [u8 (Z.shiftr v 40); u8 (Z.shiftr v 32); u8 (Z.shiftr v 24); u8 (Z.shiftr v 16); u8 (Z.shiftr v 8); u8 v].

Definition uint48 (b : bytes) : res error Z :=
  b0 ← idx b 0; b1 ← idx b 1; b2 ← idx b 2; b3 ← idx b 3; b4 ← idx b 4; b5 ← idx b 5;
  Ok (Z.lor (Z.lor (Z.lor (Z.lor (Z.lor (Z.shiftl b0 40) (Z.shiftl b1 32)) (Z.shiftl b2 24)) (Z.shiftl b3 16)) (Z.shiftl b4 8)) b5).

Definition marshal (r : record) (dst : bytes) : bytes :=
  let dst := dst ++ [typ r] in
  let dst := dst ++ [(version r).1; (version r).2] in
  let dst := dst ++ be_bytes 2 (epoch r) in
  let dst := appendUint48 dst (seq r) in
  let dst := dst ++ be_bytes 2 (u16 (zlen (fragment r))) in
  dst ++ fragment r.

Definition parseRecord (b : bytes) : res error (record * Z) :=
  if zlen b <? recordHeaderLen then Err errShortRecord else
  length ← (p ← slc b 11 13; Uint16 p);
  if maxRecordPayload <? length then Err (errRecordLength length) else
  let end_ := recordHeaderLen + length in
  if zlen b <? end_ then Err errShortRecord else
  t ← idx b 0; v0 ← idx b 1; v1 ← idx b 2;
  e ← (p ← slc b 3 5; Uint16 p);
  s ← (p ← slc b 5 11; uint48 p);
  f ← slc b recordHeaderLen end_;
  Ok (mkRecord t (v0, v1) e s f, end_).

(** The loop over a datagram; [out] is the state.  A record takes at least its header, so the length of the datagram bounds the passes. *)
Fixpoint split_records (fuel : nat) (datagram : bytes) : sres (list record) error unit := fun out =>
  match fuel with
  | O => (Ok tt, out)
  | S fuel =>
      if negb (0 <? zlen datagram) then (Ok tt, out) else
      match parseRecord datagram with
      | Ok (r, n) => match slc_from (E:=error) datagram n with Ok rest => split_records fuel rest (out ++ [r]) | _ => (Panic, out) end
      | Err errShortRecord => (Ok tt, out)
      | Err e => (Err e, out)
      | Panic => (Panic, out)
      end
  end.
Definition splitRecords (datagram : bytes) : res error unit * list record := split_records (length datagram) datagram [].

(** ** cipher.go *)

Inductive hash := SHA256 | SHA384.

(** What crypto/cipher's GCM mode over crypto/aes and crypto/hmac provide. *)
Class Crypto := {
  Seal : bytes -> bytes -> bytes -> bytes -> bytes;
  Open : bytes -> bytes -> bytes -> bytes -> option bytes;
  hmacSum : hash -> bytes -> bytes -> bytes }.

Definition hash_size (h : hash) : Z := match h with SHA256 => 32 | SHA384 => 48 end.

Class CryptoLaws (C : Crypto) : Prop := {
  open_seal_law : forall key nonce plaintext aad, is_bytes plaintext -> Open key nonce (Seal key nonce plaintext aad) aad = Some plaintext;
  open_bytes : forall key nonce ciphertext aad plaintext, Open key nonce ciphertext aad = Some plaintext -> is_bytes plaintext;
  seal_length : forall key nonce plaintext aad, zlen (Seal key nonce plaintext aad) = zlen plaintext + 16;
  hmac_length : forall h key data, zlen (hmacSum h key data) = hash_size h }.

Definition gcmFixedIVLen : Z := 4.
Definition gcmExplicitNonceLen : Z := 8.
Definition gcmTagLen : Z := 16.
Definition gcmOverhead : Z := gcmExplicitNonceLen + gcmTagLen.

(** The AEAD of a direction is its key. *)
Inductive halfConn :=
  | gcmHalfConn (aead salt : bytes)
  | nullMACHalfConn (macKey : bytes) (newHash : hash) (macLen : Z).

(** [copy] into an array of [n] zero bytes *)
Definition array_of_slice (n : nat) (b : bytes) : bytes := take n (b ++ replicate n 0).

Definition newGCMHalfConn (key fixedIV : bytes) : res error halfConn :=
  if bool_decide (zlen key = 16 \/ zlen key = 24 \/ zlen key = 32) then Ok (gcmHalfConn key (array_of_slice 4 fixedIV)) else Err (errKeySize (zlen key)).

Definition aeadAAD (epoch seq typ : Z) (version : Z * Z) (plaintextLen : Z) : bytes :=
  be_bytes 8 (seqAndEpoch epoch seq) ++ [typ; version.1; version.2] ++ be_bytes 2 (u16 plaintextLen).

Section protection.
Context {C : Crypto}.

Definition mac (macKey : bytes) (newHash : hash) (epoch seq typ : Z) (version : Z * Z) (plaintext : bytes) : bytes :=
  hmacSum newHash macKey (aeadAAD epoch seq typ version (zlen plaintext) ++ plaintext).

Definition seal (h : halfConn) (epoch seq typ : Z) (version : Z * Z) (plaintext : bytes) : bytes :=
  match h with
  | gcmHalfConn aead salt =>
      let recordSeq := seqAndEpoch epoch seq in
      let nonce := salt ++ be_bytes 8 recordSeq in
      let aad := aeadAAD epoch seq typ version (zlen plaintext) in
      be_bytes 8 recordSeq ++ Seal aead nonce plaintext aad
  | nullMACHalfConn macKey newHash macLen => plaintext ++ mac macKey newHash epoch seq typ version plaintext
  end.

Definition open (h : halfConn) (r : record) : res error bytes :=
  match h with
  | gcmHalfConn aead salt =>
      if zlen (fragment r) <? gcmOverhead then Err errBadRecordMAC else
      explicit ← slc (fragment r) 0 gcmExplicitNonceLen;
      ciphertext ← slc_from (fragment r) gcmExplicitNonceLen;
      let nonce := salt ++ explicit in
      let plaintextLen := zlen ciphertext - gcmTagLen in
      let aad := aeadAAD (epoch r) (seq r) (typ r) (version r) plaintextLen in
      match Open aead nonce ciphertext aad with Some pt => Ok pt | None => Err errBadRecordMAC end
  | nullMACHalfConn macKey newHash macLen =>
      if zlen (fragment r) <? macLen then Err errBadRecordMAC else
      let split := zlen (fragment r) - macLen in
      body ← slc (fragment r) 0 split;
      gotMAC ← slc_from (fragment r) split;
      let want := mac macKey newHash (epoch r) (seq r) (typ r) (version r) body in
      if bool_decide (gotMAC = want) then Ok body else Err errBadRecordMAC
  end.

(** ** prf.go *)

(** Each pass appends a whole MAC, so [length] passes are enough. *)
Fixpoint p_hash (fuel : nat) (newHash : hash) (secret seed : bytes) (length : Z) (out a : bytes) : bytes :=
  match fuel with
  | O => out
  | S fuel =>
      if negb (zlen out <? length) then out else
      p_hash fuel newHash secret seed length (out ++ hmacSum newHash secret (a ++ seed)) (hmacSum newHash secret a)
  end.
Definition pHash (newHash : hash) (secret seed : bytes) (length : Z) : res error bytes :=
  slc (p_hash (Z.to_nat length) newHash secret seed length [] (hmacSum newHash secret seed)) 0 length.

Definition prf (newHash : hash) (secret label seed : bytes) (length : Z) : res error bytes := pHash newHash secret (label ++ seed) length.

Definition masterSecretLength : Z := 48.
Definition finishedVerifyDataLength : Z := 12.

(** The labels, in ASCII *)
Definition labelMasterSecret : bytes := [109; 97; 115; 116; 101; 114; 32; 115; 101; 99; 114; 101; 116].
Definition labelExtendedMasterSecret : bytes := [101; 120; 116; 101; 110; 100; 101; 100; 32] ++ labelMasterSecret.
Definition labelKeyExpansion : bytes := [107; 101; 121; 32; 101; 120; 112; 97; 110; 115; 105; 111; 110].
Definition labelClientFinished : bytes := [99; 108; 105; 101; 110; 116; 32; 102; 105; 110; 105; 115; 104; 101; 100].
Definition labelServerFinished : bytes := [115; 101; 114; 118; 101; 114; 32; 102; 105; 110; 105; 115; 104; 101; 100].

Definition masterSecret (newHash : hash) (preMaster clientRandom serverRandom : bytes) : res error bytes :=
  prf newHash preMaster labelMasterSecret (clientRandom ++ serverRandom) masterSecretLength.
Definition extendedMasterSecret (newHash : hash) (preMaster sessionHash : bytes) : res error bytes :=
  prf newHash preMaster labelExtendedMasterSecret sessionHash masterSecretLength.
Definition finishedVerifyData (newHash : hash) (master label transcript : bytes) : res error bytes :=
  prf newHash master label transcript finishedVerifyDataLength.

(** ** suiteinfo.go *)

Inductive kxMethod := kxECDHE | kxRSA | kxPSK.
Inductive authMethod := authNone | authECDSA | authRSA.
Record cipherSuiteInfo := mkSuite { id : Z; kx : kxMethod; auth : authMethod; keyLen : Z; macLen : Z; aead : bool; newHash : hash }.

Definition suiteTable : list cipherSuiteInfo := [
  mkSuite 0xC02C kxECDHE authECDSA 32 0 true SHA384;
  mkSuite 0xC030 kxECDHE authRSA 32 0 true SHA384;
  mkSuite 0xC02B kxECDHE authECDSA 16 0 true SHA256;
  mkSuite 0xC02F kxECDHE authRSA 16 0 true SHA256;
  mkSuite 0x00A8 kxPSK authNone 16 0 true SHA256;
  mkSuite 0x003B kxRSA authRSA 0 32 false SHA256].

Definition lookupSuite (i : Z) : option cipherSuiteInfo := List.find (fun s => id s =? i) suiteTable.

(** ** Keys of a connection *)

Record connKeys := mkKeys { clientWrite : halfConn; serverWrite : halfConn }.

Definition deriveKeys (suite : cipherSuiteInfo) (master clientRandom serverRandom : bytes) : res error connKeys :=
  let seed := serverRandom ++ clientRandom in
  let encLen := keyLen suite in
  let macLen := macLen suite in
  let ivLen := if aead suite then gcmFixedIVLen else 0 in
  let blockLen := 2 * macLen + 2 * encLen + 2 * ivLen in
  kb ← prf (newHash suite) master labelKeyExpansion seed blockLen;
  let off := 0 in
  clientMAC ← slc kb off (off + macLen); let off := off + macLen in
  serverMAC ← slc kb off (off + macLen); let off := off + macLen in
  clientKey ← slc kb off (off + encLen); let off := off + encLen in
  serverKey ← slc kb off (off + encLen); let off := off + encLen in
  clientIV ← slc kb off (off + ivLen); let off := off + ivLen in
  serverIV ← slc kb off (off + ivLen);
  if aead suite then
    cw ← newGCMHalfConn clientKey clientIV;
    sw ← newGCMHalfConn serverKey serverIV;
    Ok (mkKeys cw sw)
  else Ok (mkKeys (nullMACHalfConn clientMAC (newHash suite) macLen) (nullMACHalfConn serverMAC (newHash suite) macLen)).
End protection.

(** ** Lemmas: the wire form of a record *)

Definition record_ok (r : record) : Prop :=
  in_u8 (typ r) /\ in_u8 (version r).1 /\ in_u8 (version r).2 /\ in_u16 (epoch r) /\ 0 <= seq r < 2 ^ 48 /\ zlen (fragment r) <= maxRecordPayload.

Lemma appendUint48_be dst v : appendUint48 dst v = dst ++ be_bytes 6 v.
Proof.
  unfold appendUint48. f_equal. cbn [be_bytes app]. unfold u8, uwrap. rewrite !Z.shiftr_div_pow2, !Z.div_div by lia. done.
Qed.

Lemma uint48_be b : is_bytes b -> zlen b = 6 -> uint48 b = Ok (be b).
Proof.
  intros Hb Hl. destruct b as [|b0 [|b1 [|b2 [|b3 [|b4 [|b5 [|]]]]]]]; try (unfold zlen in Hl; cbn in Hl; lia).
  unfold is_bytes in Hb. rewrite !Forall_cons in Hb. destruct Hb as (H0 & H1 & H2 & H3 & H4 & H5 & _). unfold in_u8 in *.
  unfold uint48. change (Ok (E:=error) (Z.lor (Z.lor (Z.lor (Z.lor (Z.lor (Z.shiftl b0 40) (Z.shiftl b1 32)) (Z.shiftl b2 24)) (Z.shiftl b3 16)) (Z.shiftl b4 8)) b5) = Ok (be [b0; b1; b2; b3; b4; b5])).
  f_equal. unfold be. cbn [fold_left]. rewrite <-!Z.lor_assoc.
  rewrite (lor_shiftl_add b4 b5 8) by lia. rewrite (lor_shiftl_add b3 _ 16) by lia. rewrite (lor_shiftl_add b2 _ 24) by lia. rewrite (lor_shiftl_add b1 _ 32) by lia. rewrite (lor_shiftl_add b0 _ 40) by lia. lia.
Qed.

Definition enc (r : record) : bytes :=
  [typ r] ++ [(version r).1; (version r).2] ++ be_bytes 2 (epoch r) ++ be_bytes 6 (seq r) ++ be_bytes 2 (u16 (zlen (fragment r))) ++ fragment r.

Lemma marshal_enc r dst : marshal r dst = dst ++ enc r.
Proof. unfold marshal, enc. rewrite appendUint48_be. by rewrite <-!app_assoc. Qed.

Lemma zlen_record_enc r : zlen (enc r) = recordHeaderLen + zlen (fragment r).
Proof. unfold enc, recordHeaderLen. zlens. lia. Qed.

Lemma parse_enc r rest : record_ok r -> parseRecord (enc r ++ rest) = Ok (r, zlen (enc r)).
Proof.
  intros (Ht & Hv0 & Hv1 & He & Hs & Hf). rewrite zlen_record_enc. pose proof (zlen_nonneg (fragment r)). pose proof (zlen_nonneg rest). unfold maxRecordPayload in Hf. change (Z.shiftl 1 14) with 16384 in Hf.
  unfold parseRecord. rewrite zlen_app, zlen_record_enc. unfold recordHeaderLen. destruct (Z.ltb_spec (13 + zlen (fragment r) + zlen rest) 13); [lia|].
  assert (HA : enc r ++ rest = [typ r] ++ [(version r).1] ++ [(version r).2] ++ be_bytes 2 (epoch r) ++ be_bytes 6 (seq r) ++ be_bytes 2 (u16 (zlen (fragment r))) ++ fragment r ++ rest) by (unfold enc; by rewrite <-!app_assoc).
  rewrite HA. assert (Hu : u16 (zlen (fragment r)) = zlen (fragment r)) by (apply (uwrap_id 16); lia). rewrite Hu.
  rewrite (at_u16 _ 11 (zlen (fragment r))) by (at_solve || (unfold in_u16; lia) || done). cbn [mbind res_bind].
  unfold maxRecordPayload. change (Z.shiftl 1 14) with 16384. destruct (Z.ltb_spec 16384 (zlen (fragment r))); [lia|]. destruct (Z.ltb_spec (13 + zlen (fragment r) + zlen rest) (13 + zlen (fragment r))); [lia|].
  rewrite (at_idx _ 0 (typ r)), (at_idx _ 1 (version r).1), (at_idx _ 2 (version r).2) by at_solve. cbn [mbind res_bind].
  rewrite (at_u16 _ 3 (epoch r)) by (at_solve || done). cbn [mbind res_bind].
  rewrite (at_slc _ 5 (be_bytes 6 (seq r))) by (at_solve || by rewrite zlen_be). cbn [mbind res_bind]. rewrite uint48_be by (apply be_bytes_typed || apply zlen_be). cbn [mbind res_bind]. rewrite be_be_bytes by (change (256 ^ Z.of_nat 6) with (2 ^ 48); lia).
  rewrite (at_slc _ 13 (fragment r)) by (at_solve || done). cbn [mbind res_bind]. by destruct r as [? [] ? ? ?].
Qed.

(** A record read off arbitrary bytes is well formed, and encodes to the bytes it was read from. *)
Lemma parse_total b : is_bytes b ->
  match parseRecord b with
  | Ok (r, n) => record_ok r /\ is_bytes (fragment r) /\ n = zlen (enc r) /\ exists rest, b = enc r ++ rest /\ is_bytes rest
  | Err _ => True
  | Panic => False
  end.
Proof.
  intros Hb. destruct (Z.ltb_spec (zlen b) recordHeaderLen) as [Hs|Hl]; [unfold parseRecord; by rewrite (proj2 (Z.ltb_lt _ _) Hs)|]. unfold recordHeaderLen in Hl.
  destruct (bytes_byte b Hb) as (t & b1 & -> & Ht & Hb1); [lia|]. rewrite zlen_app in Hl. change (zlen [t]) with 1 in Hl.
  destruct (bytes_byte b1 Hb1) as (v0 & b2 & -> & Hv0 & Hb2); [lia|]. rewrite zlen_app in Hl. change (zlen [v0]) with 1 in Hl.
  destruct (bytes_byte b2 Hb2) as (v1 & b3 & -> & Hv1 & Hb3); [lia|]. rewrite zlen_app in Hl. change (zlen [v1]) with 1 in Hl.
  destruct (bytes_int 2 b3 Hb3) as (e & b4 & -> & He & Hb4); [lia|]. rewrite zlen_app, zlen_be in Hl. destruct (bytes_int 6 b4 Hb4) as (s & b5 & -> & Hsq & Hb5); [lia|]. rewrite zlen_app, zlen_be in Hl.
  destruct (bytes_int 2 b5 Hb5) as (n & b6 & -> & Hn & Hb6); [lia|]. clear Hl. change (256 ^ Z.of_nat 2) with 65536 in *. change (256 ^ Z.of_nat 6) with (2 ^ 48) in *.
  destruct (Z.leb_spec n (zlen b6)) as [Hnl|Hnl]; [destruct (Z.leb_spec n 16384) as [Hm|Hm]|].
  - destruct (bytes_cut b6 (Z.to_nat n) Hb6) as (f & rest & -> & Hf & Hbf & Hbr); [lia|]. assert (Hzf : zlen f = n) by (unfold zlen; lia). set (r := mkRecord t (v0, v1) e s f).
    assert (Hok : record_ok r) by (unfold record_ok, maxRecordPayload; change (Z.shiftl 1 14) with 16384; cbn; unfold in_u16; rewrite Hzf; auto 10).
    assert (E : [t] ++ [v0] ++ [v1] ++ be_bytes 2 e ++ be_bytes 6 s ++ be_bytes 2 n ++ f ++ rest = enc r ++ rest).
    { unfold enc, r. cbn [typ version epoch seq fragment fst snd]. rewrite Hzf. replace (u16 n) with n by (symmetry; apply (uwrap_id 16); lia). by rewrite <-!app_assoc. }
    rewrite E, parse_enc by done. split_and!; try done. by exists rest.
  - unfold parseRecord. rewrite !zlen_app, !zlen_be. change (zlen [t]) with 1. change (zlen [v0]) with 1. change (zlen [v1]) with 1. destruct (Z.ltb_spec (1 + (1 + (1 + (Z.of_nat 2 + (Z.of_nat 6 + (Z.of_nat 2 + zlen b6)))))) recordHeaderLen); [done|].
    rewrite (at_u16 _ 11 n) by (at_solve || done). cbn [mbind res_bind]. unfold maxRecordPayload. change (Z.shiftl 1 14) with 16384. by rewrite (proj2 (Z.ltb_lt _ _) Hm).
  - unfold parseRecord. rewrite !zlen_app, !zlen_be. change (zlen [t]) with 1. change (zlen [v0]) with 1. change (zlen [v1]) with 1. destruct (Z.ltb_spec (1 + (1 + (1 + (Z.of_nat 2 + (Z.of_nat 6 + (Z.of_nat 2 + zlen b6)))))) recordHeaderLen); [done|].
    rewrite (at_u16 _ 11 n) by (at_solve || done). cbn [mbind res_bind]. destruct (maxRecordPayload <? n); [done|]. unfold recordHeaderLen. by rewrite (proj2 (Z.ltb_lt _ (13 + n))) by lia.
Qed.

(** ** Lemmas: datagrams *)

Definition wire (rs : list record) : bytes := concat (enc <$> rs).

Lemma wire_app a b : wire (a ++ b) = wire a ++ wire b.
Proof. unfold wire. by rewrite fmap_app, concat_app. Qed.

Lemma split_records_wire rs tail fuel out : Forall record_ok rs -> (length (wire rs) < fuel)%nat -> (tail = [] \/ parseRecord tail = Err errShortRecord) ->
  split_records fuel (wire rs ++ tail) out = (Ok tt, out ++ rs).
Proof.
  intros Hrs Hf Ht. revert fuel out Hf. induction Hrs as [|r rs Hr Hrs IH]; intros fuel out Hf.
  - destruct fuel; cbn [wire fmap list_fmap concat app split_records]; rewrite app_nil_r; [done|]. destruct (Z.ltb_spec 0 (zlen tail)) as [Hz|]; cbn [negb]; [|done]. by destruct Ht as [-> | ->].
  - change (wire (r :: rs)) with (enc r ++ wire rs) in *. rewrite length_app in Hf. pose proof (zlen_record_enc r) as Hz. pose proof (zlen_nonneg (fragment r)). unfold recordHeaderLen in Hz. destruct fuel as [|fuel]; [lia|]. cbn [split_records].
    rewrite <-app_assoc. rewrite (proj2 (Z.ltb_lt 0 _)) by (rewrite zlen_app; pose proof (zlen_nonneg (wire rs ++ tail)); lia). cbn [negb]. rewrite parse_enc, slc_from_app by done.
    rewrite IH by (unfold zlen in Hz; lia). by rewrite <-app_assoc.
Qed.

Lemma split_wire rs : Forall record_ok rs -> splitRecords (wire rs) = (Ok tt, rs).
Proof.
  intros H. unfold splitRecords. destruct rs as [|r rs]; [done|]. inversion H as [|? ? Hr Hrs]; subst. change (wire (r :: rs)) with (enc r ++ wire rs). pose proof (zlen_record_enc r) as Hz. pose proof (zlen_nonneg (fragment r)). unfold recordHeaderLen, zlen in Hz.
  destruct (length (enc r ++ wire rs)) as [|n] eqn:En; [rewrite length_app in En; lia|]. cbn [split_records]. rewrite (proj2 (Z.ltb_lt 0 _)) by (unfold zlen; lia). cbn [negb]. rewrite parse_enc, slc_from_app by done. rewrite length_app in En.
  rewrite <-(app_nil_r (wire rs)). rewrite split_records_wire by (done || lia || by left). done.
Qed.

(** Arbitrary bytes: no panic, and the records are well formed and encode to a prefix of the datagram. *)
Lemma split_total d : is_bytes d ->
  let '(r, out) := splitRecords d in r <> Panic /\ Forall (fun r => record_ok r /\ is_bytes (fragment r)) out /\ exists rest, d = wire out ++ rest.
Proof.
  intros Hd. unfold splitRecords. assert (HG : forall fuel d pre, is_bytes d -> Forall (fun r => record_ok r /\ is_bytes (fragment r)) pre ->
    let '(r, out) := split_records fuel d pre in r <> Panic /\ Forall (fun r => record_ok r /\ is_bytes (fragment r)) out /\ exists rest, wire pre ++ d = wire out ++ rest).
  { clear d Hd. intros fuel. induction fuel as [|fuel IH]; intros d pre Hd Hp; cbn [split_records]; [split_and!; [done|done|by exists d]|]. destruct (negb _); [split_and!; [done|done|by exists d]|].
    pose proof (parse_total d Hd) as H. destruct (parseRecord d) as [[r n]|e|]; [|destruct e; (split_and!; [done|done|by exists d])|done]. destruct H as (Hr & Hf & -> & rest & -> & Hrest). rewrite slc_from_app by done.
    specialize (IH rest (pre ++ [r]) Hrest). destruct (split_records fuel rest (pre ++ [r])) as [x out]. destruct IH as (H1 & H2 & rest' & H3); [apply Forall_app; split; [done|by apply Forall_singleton]|]. split_and!; [done|done|]. exists rest'. rewrite <-H3, wire_app, <-app_assoc. cbn [wire fmap list_fmap concat app]. by rewrite app_nil_r. }
  specialize (HG (length d) d [] Hd (Forall_nil_2 _)). destruct (split_records (length d) d []) as [x out]. exact HG.
Qed.

(** ** Lemmas: protection *)

Lemma seqAndEpoch_add e s : in_u16 e -> 0 <= s < 2 ^ 48 -> seqAndEpoch e s = e * 2 ^ 48 + s.
Proof.
  intros He Hs. unfold seqAndEpoch, in_u16 in *. change 0x0000FFFFFFFFFFFF with (Z.ones 48). rewrite Z.land_ones, Z.mod_small by lia. rewrite (u64_id (Z.shiftl e 48)) by (unfold in_u64; rewrite Z.shiftl_mul_pow2; lia). by apply lor_shiftl_add.
Qed.

(** The 64-bit record number determines the epoch and the sequence number, so distinct numbers give distinct nonces. *)
Lemma seqAndEpoch_inj e s e' s' : in_u16 e -> 0 <= s < 2 ^ 48 -> in_u16 e' -> 0 <= s' < 2 ^ 48 -> seqAndEpoch e s = seqAndEpoch e' s' -> e = e' /\ s = s'.
Proof. intros. rewrite !seqAndEpoch_add in * by done. unfold in_u16 in *. lia. Qed.

Section laws.
Context {C : Crypto} {CL : CryptoLaws C}.

Definition half_ok (h : halfConn) : Prop := match h with gcmHalfConn _ salt => zlen salt = 4 | nullMACHalfConn _ h n => n = hash_size h end.

Definition overhead (h : halfConn) : Z := match h with gcmHalfConn _ _ => gcmOverhead | nullMACHalfConn _ _ n => n end.

Lemma zlen_seal h e s t v p : half_ok h -> zlen (seal h e s t v p) = zlen p + overhead h.
Proof. destruct h as [k salt|k f n]; cbn; [intros _; zlens; rewrite seal_length; unfold gcmOverhead, gcmExplicitNonceLen, gcmTagLen; lia|intros ->; unfold mac; zlens; by rewrite hmac_length]. Qed.

Lemma open_seal h e s t v p : half_ok h -> is_bytes p -> open h (mkRecord t v e s (seal h e s t v p)) = Ok p.
Proof.
  intros Hh Hp. pose proof (zlen_seal h e s t v p Hh) as Hl. pose proof (zlen_nonneg p). unfold open. destruct h as [k salt|k f n]; cbn [seal overhead fragment epoch seq typ version] in *.
  - rewrite (proj2 (Z.ltb_ge _ gcmOverhead)) by lia. rewrite slc_here by (by rewrite zlen_be). cbn [mbind res_bind]. rewrite slc_from_app by (by rewrite zlen_be). cbn [mbind res_bind]. rewrite seal_length.
    replace (zlen p + 16 - gcmTagLen) with (zlen p) by (unfold gcmTagLen; lia). by rewrite open_seal_law.
  - rewrite (proj2 (Z.ltb_ge _ n)) by lia. replace (zlen (p ++ mac k f e s t v p) - n) with (zlen p) by lia. rewrite slc_here by done. cbn [mbind res_bind]. rewrite slc_from_app by done. cbn [mbind res_bind]. by rewrite bool_decide_eq_true_2.
Qed.

Lemma open_total h r : half_ok h -> is_bytes (fragment r) -> returns (open h r) is_bytes.
Proof.
  intros Hh Hf. unfold open. pose proof (zlen_nonneg (fragment r)). destruct h as [k salt|k f n]; cbn [half_ok] in Hh.
  - destruct (Z.ltb_spec (zlen (fragment r)) gcmOverhead) as [|Hl]; [done|]. unfold gcmOverhead, gcmExplicitNonceLen, gcmTagLen in *. destruct (slc_ok (E:=error) (fragment r) 0 8) as (x & -> & _); [lia|lia|]. cbn [mbind res_bind].
    destruct (slc_from_ok (E:=error) (fragment r) 8) as (y & -> & _); [lia|]. cbn [mbind res_bind]. destruct (Open _ _ _ _) as [pt|] eqn:Eo; [|done]. by apply open_bytes in Eo.
  - assert (0 <= n) by (subst n; destruct f; cbn; lia). destruct (Z.ltb_spec (zlen (fragment r)) n) as [|Hl]; [done|]. destruct (slc_ok (E:=error) (fragment r) 0 (zlen (fragment r) - n)) as (x & -> & _ & Hx); [lia|lia|]. cbn [mbind res_bind].
    destruct (slc_from_ok (E:=error) (fragment r) (zlen (fragment r) - n)) as (y & -> & _); [lia|]. cbn [mbind res_bind]. destruct (bool_decide _); [by apply Hx|done].
Qed.

(** ** Lemmas: the pseudo-random function and the key block *)

Lemma p_hash_length fuel h secret seed n out a : n - zlen out <= Z.of_nat fuel -> n <= zlen (p_hash fuel h secret seed n out a).
Proof.
  revert out a. induction fuel as [|fuel IH]; intros out a Hf; cbn [p_hash]; [lia|]. destruct (Z.ltb_spec (zlen out) n); cbn [negb]; [|done].
  apply IH. rewrite zlen_app, hmac_length. destruct h; cbn; lia.
Qed.

Lemma prf_ok h secret label seed n : 0 <= n -> exists out, prf h secret label seed n = Ok out /\ zlen out = n.
Proof.
  intros Hn. unfold prf, pHash. destruct (slc_ok (E:=error) (p_hash (Z.to_nat n) h secret (label ++ seed) n [] (hmacSum h secret (label ++ seed))) 0 n) as (x & -> & Hx & _); [lia|apply p_hash_length; change (zlen []) with 0; lia|]. exists x. split; [done|lia].
Qed.

(** Every suite of the table derives usable keys: the six parts are the key block, cut in order and nothing left over. *)
Lemma deriveKeys_ok suite master cr sr : suite ∈ suiteTable -> exists kb keys,
  deriveKeys suite master cr sr = Ok keys /\ half_ok (clientWrite keys) /\ half_ok (serverWrite keys) /\
  prf (newHash suite) master labelKeyExpansion (sr ++ cr) (2 * (macLen suite + keyLen suite + if aead suite then 4 else 0)) = Ok kb /\
  (if aead suite then exists ck sk ci si, kb = ck ++ sk ++ ci ++ si /\ clientWrite keys = gcmHalfConn ck ci /\ serverWrite keys = gcmHalfConn sk si
   else exists cm sm, kb = cm ++ sm /\ clientWrite keys = nullMACHalfConn cm (newHash suite) (macLen suite) /\ serverWrite keys = nullMACHalfConn sm (newHash suite) (macLen suite)).
Proof.
  intros Hin. unfold deriveKeys. cbv zeta. set (n := 2 * (macLen suite + keyLen suite + if aead suite then 4 else 0)).
  assert (Hn : 2 * macLen suite + 2 * keyLen suite + 2 * (if aead suite then gcmFixedIVLen else 0) = n) by (unfold n, gcmFixedIVLen; destruct (aead suite); lia). rewrite Hn.
  assert (Hp : 0 <= n /\ (if aead suite then macLen suite = 0 /\ (keyLen suite = 16 \/ keyLen suite = 32) else keyLen suite = 0 /\ macLen suite = hash_size (newHash suite))).
  { unfold n. unfold suiteTable in Hin. repeat (apply elem_of_cons in Hin as [->|Hin]; [cbn; lia|]). by apply elem_of_nil in Hin. }
  destruct Hp as [Hp Hs]. destruct (prf_ok (newHash suite) master labelKeyExpansion (sr ++ cr) n Hp) as (kb & -> & Hkb). exists kb. cbn [mbind res_bind]. unfold n, gcmFixedIVLen in *. destruct (aead suite).
  - destruct Hs as [Hm Hk]. rewrite Hm in *. assert (HC : exists ck sk ci si, kb = ck ++ sk ++ ci ++ si /\ zlen ck = keyLen suite /\ zlen sk = keyLen suite /\ zlen ci = 4 /\ zlen si = 4).
    { exists (take (Z.to_nat (keyLen suite)) kb), (take (Z.to_nat (keyLen suite)) (drop (Z.to_nat (keyLen suite)) kb)), (take 4 (drop (Z.to_nat (keyLen suite)) (drop (Z.to_nat (keyLen suite)) kb))), (drop 4 (drop (Z.to_nat (keyLen suite)) (drop (Z.to_nat (keyLen suite)) kb))).
      rewrite !take_drop. split; [done|]. unfold zlen in *. rewrite !length_take, !length_drop. lia. }
    destruct HC as (ck & sk & ci & si & -> & Hck & Hsk & Hci & Hsi). rewrite !Z.add_0_r.
    assert (E0 : forall b, slc (E:=error) b 0 0 = Ok []) by (intros b; unfold slc; pose proof (zlen_nonneg b); by rewrite (proj2 (Z.leb_le 0 (zlen b)))). rewrite E0. cbn [mbind res_bind].
    rewrite (at_slc _ 0 ck) by (at_solve || lia). cbn [mbind res_bind]. rewrite (at_slc _ (0 + keyLen suite) sk) by (at_solve || lia). cbn [mbind res_bind]. rewrite (at_slc _ (0 + keyLen suite + keyLen suite) ci) by (at_solve || lia). cbn [mbind res_bind]. rewrite (at_slc _ (0 + keyLen suite + keyLen suite + 4) si) by (at_solve || lia). cbn [mbind res_bind].
    unfold newGCMHalfConn. rewrite !bool_decide_eq_true_2 by lia. cbn [mbind res_bind].
    assert (Ea : forall x, zlen x = 4 -> array_of_slice 4 x = x) by (intros x Hx; unfold array_of_slice; rewrite take_app_le, take_ge by (unfold zlen in Hx; lia); done). rewrite !Ea by done.
    eexists. split; [done|]. cbn [clientWrite serverWrite half_ok]. split_and!; try done. by exists ck, sk, ci, si.
  - destruct Hs as [Hk Hm]. rewrite Hk in *. assert (HC : exists cm sm, kb = cm ++ sm /\ zlen cm = macLen suite /\ zlen sm = macLen suite).
    { exists (take (Z.to_nat (macLen suite)) kb), (drop (Z.to_nat (macLen suite)) kb). rewrite take_drop. split; [done|]. unfold zlen in *. rewrite length_take, length_drop. lia. }
    destruct HC as (cm & sm & -> & Hcm & Hsm). rewrite (at_slc _ 0 cm) by (at_solve || lia). cbn [mbind res_bind]. rewrite (at_slc _ (0 + macLen suite) sm) by (at_solve || lia). cbn [mbind res_bind].
    rewrite !Z.add_0_r. assert (E0 : slc (E:=error) (cm ++ sm) (0 + macLen suite + macLen suite) (0 + macLen suite + macLen suite) = Ok []).
    { destruct (slc_ok (E:=error) (cm ++ sm) (0 + macLen suite + macLen suite) (0 + macLen suite + macLen suite)) as (x & -> & Hx & _); [pose proof (zlen_nonneg cm); lia|rewrite zlen_app; lia|]. f_equal. destruct x; [done|]. rewrite zlen_cons in Hx. pose proof (zlen_nonneg x). lia. }
    rewrite !E0. cbn [mbind res_bind]. eexists. split; [done|]. cbn [clientWrite serverWrite half_ok]. split_and!; try done. by exists cm, sm.
Qed.
End laws.

(** ** A concrete instance of the interface *)

(** A checksum in place of the cryptography. *)
Definition demo_sum (b : bytes) : Z := fold_left Z.add b 0 mod 256.
Definition demo_crypto : Crypto := {|
  Seal key nonce plaintext aad := plaintext ++ replicate 16 (demo_sum (key ++ nonce ++ plaintext ++ aad));
  Open key nonce ciphertext aad :=
    let plaintext := take (length ciphertext - 16) ciphertext in
    if bool_decide (ciphertext = plaintext ++ replicate 16 (demo_sum (key ++ nonce ++ plaintext ++ aad))) && forallb (fun x => (0 <=? x) && (x <? 256)) plaintext
    then Some plaintext else None;
  hmacSum h key data := replicate (Z.to_nat (hash_size h)) (demo_sum (key ++ data)) |}.

Lemma demo_laws : CryptoLaws demo_crypto.
Proof.
  split; cbn.
  - intros key nonce p aad Hp. assert (E : take (length (p ++ replicate 16 (demo_sum (key ++ nonce ++ p ++ aad))) - 16) (p ++ replicate 16 (demo_sum (key ++ nonce ++ p ++ aad))) = p) by (rewrite length_app, length_replicate; apply take_app_length'; lia). cbn in E. rewrite E, bool_decide_eq_true_2 by done. cbn [andb].
    assert (Ef : forallb (fun x => (0 <=? x) && (x <? 256)) p = true) by (apply forallb_forall; intros x Hx; apply list_elem_of_In in Hx; unfold is_bytes in Hp; rewrite Forall_forall in Hp; specialize (Hp x Hx); unfold in_u8 in Hp; lia). by rewrite Ef.
  - intros key nonce ct aad p. destruct (bool_decide _); [|done]. cbn [andb]. destruct (forallb _ _) eqn:Ef; [|done]. intros [= <-]. apply Forall_forall. intros x Hx. rewrite forallb_forall in Ef. apply list_elem_of_In in Hx. specialize (Ef x Hx). unfold in_u8. lia.
  - intros. zlens. unfold zlen. cbn. lia.
  - intros. rewrite zlen_replicate. destruct h; done.
Qed.
End dtls.
