(* ===== verification/DtlsHandshake.v ===== *)
(** * The DTLS handshake message layer: internal/dtls/handshake.go

    Handshake messages are cut into fragments that carry a message number and byte coordinates; the reassembler puts them together again whatever
    the order, the repetition and the overlap they arrive with, and yields messages in number order.  The theory states what the
    reassembler knows as coverage: which bytes of which message have been seen. *)

From stdpp Require Import gmap.
From S2P Require Import Prelude Bytes DtlsRecord.

Module handshake_layer.
Import dtls.

Definition handshakeHeaderLen : Z := 12.
Definition maxHandshakeBody : Z := Z.shiftl 1 16.
Definition maxPendingMessages : Z := 8.

Record handshakeMessage := mkMessage { m_typ : Z; m_seq : Z; m_body : bytes; m_epoch : Z }.

Definition appendUint24 (dst : bytes) (v : Z) : bytes := dst ++ [u8 (Z.shiftr v 16); u8 (Z.shiftr v 8); u8 v].

Definition uint24 (b : bytes) : res error Z :=
  b0 ← idx b 0; b1 ← idx b 1; b2 ← idx b 2;
  Ok (Z.lor (Z.lor (Z.shiftl b0 16) (Z.shiftl b1 8)) b2).

Definition appendHandshakeFragment (dst : bytes) (typ seq totalLen fragOff : Z) (frag : bytes) : bytes :=
  let dst := dst ++ [typ] in
  let dst := appendUint24 dst (u32 totalLen) in
  let dst := dst ++ be_bytes 2 seq in
  let dst := appendUint24 dst (u32 fragOff) in
  let dst := appendUint24 dst (u32 (zlen frag)) in
  dst ++ frag.

Definition message_marshal (m : handshakeMessage) (dst : bytes) : bytes := appendHandshakeFragment dst (m_typ m) (m_seq m) (zlen (m_body m)) 0 (m_body m).
Definition fullMessageBytes (m : handshakeMessage) : bytes := message_marshal m [].

(** The loop of fragmentMessage, from offset [off]; every pass but the only one of an empty body takes at least a byte. *)
Fixpoint fragment_from (fuel : nat) (typ seq : Z) (body : bytes) (avail off : Z) : res error (list bytes) :=
  match fuel with
  | O => Ok []
  | S fuel =>
      if negb ((off <? zlen body) || ((off =? 0) && (zlen body =? 0))) then Ok [] else
      let end_ := off + avail in
      let end_ := if zlen body <? end_ then zlen body else end_ in
      part ← slc body off end_;
      let f := appendHandshakeFragment [] typ (u16 seq) (zlen body) off part in
      if zlen body =? 0 then Ok [f] else
      rest ← fragment_from fuel typ seq body avail (off + avail);
      Ok (f :: rest)
  end.
Definition fragmentMessage (typ seq : Z) (body : bytes) (maxFragment : Z) : res error (list bytes) :=
  let avail := maxFragment - handshakeHeaderLen in
  let avail := if avail <? 1 then 1 else avail in
  fragment_from (S (length body)) typ seq body avail 0.

Record parsedFragment := mkFragment { f_typ : Z; f_totalLen : Z; f_seq : Z; fragOff : Z; frag : bytes; f_epoch : Z }.
#[export] Instance eta_parsedFragment : Eta parsedFragment := fun f => mkFragment (f_typ f) (f_totalLen f) (f_seq f) (fragOff f) (frag f) (f_epoch f).

Definition parseHandshakeFragment (b : bytes) : res error (parsedFragment * Z) :=
  if zlen b <? handshakeHeaderLen then Err errShortRecord else
  totalLen ← (p ← slc b 1 4; uint24 p);
  fragOff ← (p ← slc b 6 9; uint24 p);
  fragLen ← (p ← slc b 9 12; uint24 p);
  if maxHandshakeBody <? totalLen then Err (errHandshakeLength totalLen) else
  let end_ := handshakeHeaderLen + fragLen in
  if zlen b <? end_ then Err errShortRecord else
  if totalLen <? fragOff + fragLen then Err errFragmentBounds else
  t ← idx b 0;
  s ← (p ← slc b 4 6; Uint16 p);
  f ← slc b handshakeHeaderLen end_;
  Ok (mkFragment t totalLen s fragOff f 0, end_).

Record partialMessage := mkPartial { p_typ : Z; p_totalLen : Z; p_body : bytes; received : list bool; have : Z; p_epoch : Z }.
Record reassembler := mkReassembler { next : Z; pending : gmap Z partialMessage }.
#[export] Instance eta_partial : Eta partialMessage := fun p => mkPartial (p_typ p) (p_totalLen p) (p_body p) (received p) (have p) (p_epoch p).
#[export] Instance eta_reassembler : Eta reassembler := fun r => mkReassembler (next r) (pending r).

Definition newReassembler : reassembler := mkReassembler 0 ∅.

(** The loop that marks [n] bytes from [i] as received. *)
Fixpoint cover (n : nat) (i : Z) (st : list bool * Z) : res error (list bool * Z) :=
  match n with
  | O => Ok st
  | S n =>
      let '(rcv, hv) := st in
      match rcv !! Z.to_nat i with
      | None => Panic
      | Some true => cover n (i + 1) (rcv, hv)
      | Some false => cover n (i + 1) (<[Z.to_nat i := true]> rcv, hv + 1)
      end
  end.

Definition newPartial (f : parsedFragment) : partialMessage :=
  mkPartial (f_typ f) (f_totalLen f) (replicate (Z.to_nat (f_totalLen f)) 0) (replicate (Z.to_nat (f_totalLen f)) false) 0 (f_epoch f).

Definition accept (f : parsedFragment) : sres reassembler error unit := fun r =>
  if f_seq f <? next r then (Ok tt, r) else
  if maxPendingMessages <=? u16 (f_seq f - next r) then (Ok tt, r) else
  let p := default (newPartial f) (pending r !! f_seq f) in
  let r := r <| pending ::= <[f_seq f := p]> |> in
  if negb (p_typ p =? f_typ f) || negb (p_totalLen p =? f_totalLen f) then (Err errInconsistent, r) else
  match copy_at (E:=error) (p_body p) (fragOff f) (frag f) with
  | Ok (_, body) =>
      match cover (length (frag f)) (fragOff f) (received p, have p) with
      | Ok (rcv, hv) => (Ok tt, r <| pending ::= <[f_seq f := p <| p_body := body |> <| received := rcv |> <| have := hv |>]> |>)
      | _ => (Panic, r)
      end
  | _ => (Panic, r)
  end.

Definition nextMessage (r : reassembler) : option handshakeMessage * reassembler :=
  match pending r !! next r with
  | None => (None, r)
  | Some p =>
      if negb (have p =? p_totalLen p) then (None, r) else
      (Some (mkMessage (p_typ p) (next r) (p_body p) (p_epoch p)), r <| pending ::= delete (next r) |> <| next ::= (fun n => u16 (n + 1)) |>)
  end.

(** ** Fragments on the wire *)

Lemma appendUint24_be dst v : appendUint24 dst v = dst ++ be_bytes 3 v.
Proof. unfold appendUint24. f_equal. cbn [be_bytes app]. unfold u8, uwrap. rewrite !Z.shiftr_div_pow2, !Z.div_div by lia. done. Qed.

Lemma uint24_be b : is_bytes b -> zlen b = 3 -> uint24 b = Ok (be b).
Proof.
  intros Hb Hl. destruct b as [|b0 [|b1 [|b2 [|]]]]; try (unfold zlen in Hl; cbn in Hl; lia).
  unfold is_bytes in Hb. rewrite !Forall_cons in Hb. destruct Hb as (H0 & H1 & H2 & _). unfold in_u8 in *.
  unfold uint24. change (Ok (E:=error) (Z.lor (Z.lor (Z.shiftl b0 16) (Z.shiftl b1 8)) b2) = Ok (be [b0; b1; b2])). f_equal. unfold be. cbn [fold_left].
  rewrite <-!Z.lor_assoc. rewrite (lor_shiftl_add b1 b2 8), (lor_shiftl_add b0 _ 16) by lia. lia.
Qed.

Lemma at_u24 b i x j : At b i (be_bytes 3 x) -> 0 <= x < 16777216 -> j = i + 3 -> (t ← slc b i j; uint24 t) = Ok x.
Proof.
  intros H Hx Hj. rewrite (at_slc _ _ _ _ H) by (by rewrite zlen_be). cbn [mbind res_bind]. rewrite uint24_be by (apply be_bytes_typed || apply zlen_be). by rewrite be_be_bytes.
Qed.

(** What parsing guarantees of a fragment. *)
Definition frag_ok (f : parsedFragment) : Prop :=
  in_u8 (f_typ f) /\ in_u16 (f_seq f) /\ 0 <= fragOff f /\ fragOff f + zlen (frag f) <= f_totalLen f /\ f_totalLen f <= maxHandshakeBody.

Definition enc_frag (f : parsedFragment) : bytes := appendHandshakeFragment [] (f_typ f) (f_seq f) (f_totalLen f) (fragOff f) (frag f).

Lemma enc_frag_eq f : frag_ok f -> enc_frag f = [f_typ f] ++ be_bytes 3 (f_totalLen f) ++ be_bytes 2 (f_seq f) ++ be_bytes 3 (fragOff f) ++ be_bytes 3 (zlen (frag f)) ++ frag f.
Proof.
  intros (_ & _ & Ho & Hl & Hm). unfold maxHandshakeBody in Hm. change (Z.shiftl 1 16) with 65536 in Hm. pose proof (zlen_nonneg (frag f)). unfold enc_frag, appendHandshakeFragment. rewrite !appendUint24_be.
  rewrite !u32_id by (unfold in_u32; lia). by rewrite <-!app_assoc.
Qed.

Lemma zlen_enc_frag f : frag_ok f -> zlen (enc_frag f) = handshakeHeaderLen + zlen (frag f).
Proof. intros H. rewrite enc_frag_eq by done. unfold handshakeHeaderLen. zlens. lia. Qed.

Lemma parse_enc_frag f rest : frag_ok f -> parseHandshakeFragment (enc_frag f ++ rest) = Ok (f <| f_epoch := 0 |>, zlen (enc_frag f)).
Proof.
  intros Hf. rewrite zlen_enc_frag, enc_frag_eq by done. destruct Hf as (Ht & Hs & Ho & Hl & Hm). unfold maxHandshakeBody in Hm. change (Z.shiftl 1 16) with 65536 in Hm. pose proof (zlen_nonneg (frag f)). pose proof (zlen_nonneg rest).
  rewrite <-!app_assoc. unfold parseHandshakeFragment. set (b := [f_typ f] ++ _). assert (Hb : zlen b = 12 + zlen (frag f) + zlen rest) by (unfold b; zlens; lia). rewrite Hb. unfold handshakeHeaderLen.
  rewrite (proj2 (Z.ltb_ge _ 12)) by lia.
  rewrite (at_u24 b 1 (f_totalLen f)) by ((unfold b; at_solve) || lia). cbn [mbind res_bind].
  rewrite (at_u24 b 6 (fragOff f)) by ((unfold b; at_solve) || lia). cbn [mbind res_bind].
  rewrite (at_u24 b 9 (zlen (frag f))) by ((unfold b; at_solve) || lia). cbn [mbind res_bind].
  unfold maxHandshakeBody. change (Z.shiftl 1 16) with 65536. rewrite (proj2 (Z.ltb_ge 65536 _)), (proj2 (Z.ltb_ge (12 + _ + _) _)), (proj2 (Z.ltb_ge (f_totalLen f) _)) by lia.
  rewrite (at_idx b 0 (f_typ f)) by (unfold b; at_solve). cbn [mbind res_bind]. rewrite (at_u16 b 4 (f_seq f)) by ((unfold b; at_solve) || done). cbn [mbind res_bind].
  rewrite (at_slc b 12 (frag f)) by ((unfold b; at_solve) || lia). cbn [mbind res_bind]. done.
Qed.

(** Arbitrary bytes: what is parsed encodes to the bytes that were read. *)
Lemma parse_frag_total b : is_bytes b ->
  match parseHandshakeFragment b with
  | Ok (f, n) => frag_ok f /\ n = zlen (enc_frag f) /\ exists rest, b = enc_frag f ++ rest /\ is_bytes rest
  | Err _ => True
  | Panic => False
  end.
Proof.
  intros Hb. destruct (Z.ltb_spec (zlen b) handshakeHeaderLen) as [Hs|Hl]; [unfold parseHandshakeFragment; by rewrite (proj2 (Z.ltb_lt _ _) Hs)|]. unfold handshakeHeaderLen in Hl.
  destruct (bytes_byte b Hb) as (t & b1 & -> & Ht & Hb1); [lia|]. rewrite zlen_app in Hl. change (zlen [t]) with 1 in Hl.
  destruct (bytes_int 3 b1 Hb1) as (n & b2 & -> & Hn & Hb2); [lia|]. rewrite zlen_app, zlen_be in Hl. destruct (bytes_int 2 b2 Hb2) as (s & b3 & -> & Hsq & Hb3); [lia|]. rewrite zlen_app, zlen_be in Hl.
  destruct (bytes_int 3 b3 Hb3) as (o & b4 & -> & Ho & Hb4); [lia|]. rewrite zlen_app, zlen_be in Hl. destruct (bytes_int 3 b4 Hb4) as (l & b5 & -> & Hll & Hb5); [lia|]. clear Hl.
  change (256 ^ Z.of_nat 3) with 16777216 in *. change (256 ^ Z.of_nat 2) with 65536 in *.
  destruct (decide (n <= 65536 /\ l <= zlen b5 /\ o + l <= n)) as [(Hm & Hlen & Hfit)|Hbad].
  - destruct (bytes_cut b5 (Z.to_nat l) Hb5) as (x & rest & -> & Hx & Hbx & Hbr); [lia|]. assert (Hzx : zlen x = l) by (unfold zlen; lia). set (f := mkFragment t n s o x 0).
    assert (Hok : frag_ok f) by (unfold frag_ok, maxHandshakeBody; change (Z.shiftl 1 16) with 65536; cbn; unfold in_u16; rewrite Hzx; split_and!; try done; lia).
    assert (E : [t] ++ be_bytes 3 n ++ be_bytes 2 s ++ be_bytes 3 o ++ be_bytes 3 l ++ x ++ rest = enc_frag f ++ rest) by (rewrite enc_frag_eq by done; cbn [f f_typ f_totalLen f_seq fragOff frag]; rewrite Hzx, <-!app_assoc; done).
    rewrite E, parse_enc_frag by done. split; [done|]. split; [done|]. by exists rest.
  - unfold parseHandshakeFragment. set (b := [t] ++ _). assert (Hzb : zlen b = 12 + zlen b5) by (unfold b; zlens; lia). rewrite Hzb. pose proof (zlen_nonneg b5). unfold handshakeHeaderLen. rewrite (proj2 (Z.ltb_ge _ 12)) by lia.
    rewrite (at_u24 b 1 n) by ((unfold b; at_solve) || lia). cbn [mbind res_bind].
    rewrite (at_u24 b 6 o) by ((unfold b; at_solve) || lia). cbn [mbind res_bind].
    rewrite (at_u24 b 9 l) by ((unfold b; at_solve) || lia). cbn [mbind res_bind].
    unfold maxHandshakeBody. change (Z.shiftl 1 16) with 65536.
    destruct (Z.ltb_spec 65536 n); [done|]. destruct (Z.ltb_spec (12 + zlen b5) (12 + l)); [done|]. destruct (Z.ltb_spec n (o + l)); [done|]. exfalso. apply Hbad. lia.
Qed.

(** ** What fragmentMessage sends *)

(** [f] is a piece of message number [k]. *)
Definition piece_of (k typ : Z) (body : bytes) (f : parsedFragment) : Prop :=
  f_seq f = k /\ f_typ f = typ /\ f_totalLen f = zlen body /\ At body (fragOff f) (frag f).

Definition in_frag (f : parsedFragment) (i : Z) : Prop := fragOff f <= i < fragOff f + zlen (frag f).

Lemma at_bounds b i c : At b i c -> 0 <= i /\ i + zlen c <= zlen b.
Proof. intros (A & B & -> & <-). rewrite !zlen_app. pose proof (zlen_nonneg A). pose proof (zlen_nonneg B). lia. Qed.

Lemma piece_ok k typ body f : in_u8 typ -> in_u16 k -> zlen body <= maxHandshakeBody -> piece_of k typ body f -> frag_ok f.
Proof. intros Ht Hk Hb (E1 & E2 & E3 & Hat). apply at_bounds in Hat. unfold frag_ok. rewrite E1, E2, E3. split_and!; (done || lia). Qed.

Section cutting.
Context (typ k : Z) (body : bytes) (avail : Z) (Ht : in_u8 typ) (Hk : in_u16 k) (Hb : zlen body <= maxHandshakeBody) (Ha : 1 <= avail).

Lemma fragment_from_spec fuel off : 0 <= off -> zlen body - off < Z.of_nat fuel ->
  exists fs, fragment_from fuel typ k body avail off = Ok (enc_frag <$> fs) /\
    Forall (fun f => piece_of k typ body f /\ zlen (frag f) <= avail) fs /\ (forall i, off <= i < zlen body -> Exists (fun f => in_frag f i) fs) /\ (off = 0 -> fs <> []).
Proof using Hk Ha.
  revert off. induction fuel as [|fuel IH]; intros off Ho Hf.
  { exists []. cbn [fragment_from]. split_and!; [done|constructor|lia|]. pose proof (zlen_nonneg body). lia. }
  cbn [fragment_from]. destruct (Z.ltb_spec off (zlen body)) as [Hlt|Hge]; cbn [orb negb].
  - set (end_ := if zlen body <? off + avail then zlen body else off + avail). assert (He : off < end_ <= zlen body /\ end_ - off <= avail /\ (end_ = zlen body \/ end_ = off + avail)) by (unfold end_; destruct (Z.ltb_spec (zlen body) (off + avail)); lia).
    destruct (slc_at (E:=error) body off end_) as (part & -> & Hat & Hl); [lia|lia|]. cbn [mbind res_bind]. destruct (Z.eqb_spec (zlen body) 0); [lia|].
    destruct (IH (off + avail)) as (fs & -> & Hfs & Hcov & _); [lia|lia|]. cbn [mbind res_bind].
    exists (mkFragment typ (zlen body) k off part 0 :: fs). split_and!.
    + cbn [fmap list_fmap]. unfold enc_frag at 2. cbn [f_typ f_seq f_totalLen fragOff frag]. by replace (u16 k) with k by (symmetry; apply (uwrap_id 16); apply Hk).
    + constructor; [|done]. unfold piece_of. cbn [f_seq f_typ f_totalLen fragOff frag]. split; [split_and!; done|lia].
    + intros i Hi. destruct (Z.lt_ge_cases i end_) as [H1|H1]; [left; unfold in_frag; cbn [fragOff frag]; lia|right; apply Hcov; lia].
    + done.
  - destruct (Z.eqb_spec off 0) as [->|]; cbn [andb orb negb]; [|exists []; split_and!; [done|constructor|lia|lia]].
    destruct (Z.eqb_spec (zlen body) 0) as [Hz|Hz]; [|pose proof (zlen_nonneg body); lia]. cbn [negb].
    set (end_ := if zlen body <? 0 + avail then zlen body else 0 + avail). assert (He : end_ = 0) by (unfold end_; destruct (Z.ltb_spec (zlen body) (0 + avail)); lia). rewrite He.
    destruct (slc_at (E:=error) body 0 0) as (part & -> & Hat & Hl); [lia|lia|]. cbn [mbind res_bind]. exists [mkFragment typ (zlen body) k 0 part 0]. split_and!.
    + cbn [fmap list_fmap]. unfold enc_frag. cbn [f_typ f_seq f_totalLen fragOff frag]. by replace (u16 k) with k by (symmetry; apply (uwrap_id 16); apply Hk).
    + constructor; [|constructor]. unfold piece_of. cbn [f_seq f_typ f_totalLen fragOff frag]. split; [split_and!; done|lia].
    + lia.
    + done.
Qed.
End cutting.

(** The fragments of a message: pieces of it, small enough, that together cover it. *)
Lemma fragmentMessage_spec typ k body maxFragment : in_u8 typ -> in_u16 k -> zlen body <= maxHandshakeBody -> handshakeHeaderLen < maxFragment ->
  exists fs, fragmentMessage typ k body maxFragment = Ok (enc_frag <$> fs) /\ fs <> [] /\
    Forall (fun f => piece_of k typ body f /\ zlen (enc_frag f) <= maxFragment) fs /\ (forall i, 0 <= i < zlen body -> Exists (fun f => in_frag f i) fs).
Proof.
  intros Ht Hk Hb Hm. unfold fragmentMessage. rewrite (proj2 (Z.ltb_ge _ 1)) by lia.
  destruct (fragment_from_spec typ k body (maxFragment - handshakeHeaderLen) Hk ltac:(lia) (S (length body)) 0) as (fs & -> & Hfs & Hcov & Hne); [lia|unfold zlen; lia|].
  exists fs. split_and!; [done|by apply Hne| |done]. eapply Forall_impl; [exact Hfs|]. cbn beta. intros f [Hp Hl]. split; [done|]. rewrite zlen_enc_frag by (by eapply piece_ok). lia.
Qed.

(** ** The reassembler on any fragments *)

Definition count (l : list bool) : Z := Z.of_nat (length (filter (fun b => b = true) l)).

Lemma count_app a b : count (a ++ b) = count a + count b.
Proof. unfold count. rewrite filter_app, length_app. lia. Qed.

Lemma count_bound l : 0 <= count l <= zlen l.
Proof. unfold count, zlen. pose proof (length_filter (fun b => b = true) l). lia. Qed.

Lemma count_all l : count l = zlen l -> forall i b, l !! i = Some b -> b = true.
Proof.
  induction l as [|x l IH]; [done|]. rewrite zlen_cons. pose proof (count_bound l). unfold count. rewrite filter_cons. destruct (decide (x = true)) as [->|Hx]; cbn [length]; unfold count in *; intros Hc i b Hi; [|lia].
  destruct i as [|i]; [by inversion Hi|]. apply (IH ltac:(lia) i b Hi).
Qed.

Lemma count_full l : (forall i, (i < length l)%nat -> l !! i = Some true) -> count l = zlen l.
Proof.
  induction l as [|x l IH]; [done|]. intros H. assert (Hx := H 0%nat ltac:(cbn; lia)). inversion Hx; subst x. unfold count. rewrite filter_cons, decide_True by done. cbn [length]. rewrite zlen_cons.
  rewrite <-IH; [unfold count; lia|]. intros i Hi. apply (H (S i)). cbn. lia.
Qed.

Lemma count_set l i : l !! i = Some false -> count (<[i := true]> l) = count l + 1.
Proof.
  intros Hi. rewrite insert_take_drop by (by eapply lookup_lt_Some). rewrite <-(take_drop_middle l i false Hi) at 3. rewrite !count_app. unfold count. rewrite !filter_cons, decide_True, decide_False by done. cbn [length]. lia.
Qed.

Lemma count_replicate n : count (replicate n false) = 0.
Proof. induction n as [|n IH]; [done|]. cbn [replicate]. unfold count in *. by rewrite filter_cons, decide_False. Qed.

(** The marking loop: it stays in bounds, marks its range and counts what was new. *)
Lemma cover_spec n i rcv hv : 0 <= i -> i + Z.of_nat n <= zlen rcv ->
  exists rcv', cover n i (rcv, hv) = Ok (rcv', hv + (count rcv' - count rcv)) /\ length rcv' = length rcv /\
  forall j, (j < length rcv)%nat -> rcv' !! j = if decide (i <= Z.of_nat j < i + Z.of_nat n) then Some true else rcv !! j.
Proof.
  revert i rcv hv. induction n as [|n IH]; intros i rcv hv Hi Hl.
  { exists rcv. cbn [cover]. split_and!; [by rewrite Z.sub_diag, Z.add_0_r|done|]. intros j _. by rewrite decide_False by lia. }
  cbn [cover]. destruct (lookup_lt_is_Some_2 rcv (Z.to_nat i)) as [x Hx]; [unfold zlen in Hl; lia|]. rewrite Hx. destruct x.
  - destruct (IH (i + 1) rcv hv) as (rcv' & -> & Hlen & Hat); [lia|lia|]. exists rcv'. split_and!; [done|done|]. intros j Hj. rewrite Hat by done. destruct (decide (Z.of_nat j = i)) as [E|E].
    + rewrite decide_False, decide_True by lia. by replace j with (Z.to_nat i) by lia.
    + destruct (decide (i + 1 <= Z.of_nat j < i + 1 + Z.of_nat n)); [rewrite decide_True by lia|rewrite decide_False by lia]; done.
  - destruct (IH (i + 1) (<[Z.to_nat i := true]> rcv) (hv + 1)) as (rcv' & -> & Hlen & Hat); [lia|unfold zlen in *; rewrite length_insert; lia|]. rewrite length_insert in *. exists rcv'. split_and!; [|done|].
    + rewrite count_set by done. do 2 f_equal. lia.
    + intros j Hj. rewrite Hat by done. destruct (decide (Z.of_nat j = i)) as [E|E].
      * rewrite decide_False, decide_True by lia. replace j with (Z.to_nat i) by lia. rewrite list_lookup_insert_eq by lia. done.
      * rewrite list_lookup_insert_ne by lia. destruct (decide (i + 1 <= Z.of_nat j < i + 1 + Z.of_nat n)); [rewrite decide_True by lia|rewrite decide_False by lia]; done.
Qed.

Record partial_ok (p : partialMessage) : Prop := {
  po_max : p_totalLen p <= maxHandshakeBody;
  po_body : zlen (p_body p) = p_totalLen p;
  po_rcv : zlen (received p) = p_totalLen p;
  po_have : have p = count (received p) }.

(** The state of every reassembler: the pending messages are the next eight at most, and the counts are exact. *)
Record reasm_ok (r : reassembler) : Prop := {
  ro_next : in_u16 (next r);
  ro_pending : forall k p, pending r !! k = Some p -> in_u16 k /\ next r <= k < next r + maxPendingMessages /\ partial_ok p }.

Lemma newReassembler_ok : reasm_ok newReassembler.
Proof. split; [done|]. intros k p Hk. cbn in Hk. by rewrite lookup_empty in Hk. Qed.

Lemma newPartial_ok f : frag_ok f -> partial_ok (newPartial f).
Proof.
  intros (_ & _ & Ho & Hl & Hm). pose proof (zlen_nonneg (frag f)). split; cbn; [done|rewrite zlen_replicate; lia|rewrite zlen_replicate; lia|by rewrite count_replicate].
Qed.

(** What [accept] does to the message it is for, when the coordinates agree. *)
Lemma write_spec p f : partial_ok p -> frag_ok f -> p_totalLen p = f_totalLen f ->
  exists body rcv n, copy_at (E:=error) (p_body p) (fragOff f) (frag f) = Ok (n, body) /\ cover (length (frag f)) (fragOff f) (received p, have p) = Ok (rcv, count rcv) /\
    zlen body = p_totalLen p /\ zlen rcv = p_totalLen p /\
    (forall j, (Z.of_nat j < p_totalLen p) -> rcv !! j = (if decide (in_frag f (Z.of_nat j)) then Some true else received p !! j) /\
       body !! j = if decide (in_frag f (Z.of_nat j)) then frag f !! Z.to_nat (Z.of_nat j - fragOff f) else p_body p !! j).
Proof.
  intros [Hm Hb Hr Hh] (_ & _ & Ho & Hl & _) E. destruct (cover_spec (length (frag f)) (fragOff f) (received p) (have p)) as (rcv & Hc & Hlen & Hat); [lia|unfold zlen in *; lia|].
  assert (Hs : exists A B, p_body p = A ++ B /\ zlen A = fragOff f /\ zlen (frag f) <= zlen B).
  { exists (take (Z.to_nat (fragOff f)) (p_body p)), (drop (Z.to_nat (fragOff f)) (p_body p)). rewrite take_drop. unfold zlen in *. rewrite length_take, length_drop. split; [done|lia]. }
  destruct Hs as (A & B & HAB & HA & HB). exists ((A ++ frag f) ++ drop (length (frag f)) B), rcv, (zlen (frag f)). rewrite HAB, copy_next by lia. rewrite Hc. assert (Htot : zlen A + zlen B = p_totalLen p) by (rewrite <-Hb, HAB, zlen_app; lia).
  split_and!; [done|do 2 f_equal; lia|zlens; unfold zlen in *; lia|unfold zlen in *; lia|]. intros j Hj. split; [rewrite Hat by (unfold zlen in *; lia); unfold in_frag, zlen; done|].
  unfold in_frag, zlen in *. destruct (decide (fragOff f <= Z.of_nat j < fragOff f + Z.of_nat (length (frag f)))) as [Hin|Hout].
  - rewrite lookup_app_l by (rewrite length_app; lia). rewrite lookup_app_r by lia. f_equal. lia.
  - destruct (decide (j < length A)%nat); [by rewrite <-app_assoc, !lookup_app_l by lia|]. rewrite lookup_app_r, lookup_drop, lookup_app_r by (rewrite ?length_app; lia). rewrite length_app. f_equal. lia.
Qed.

Lemma accept_ok f r : frag_ok f -> reasm_ok r -> let '(x, r') := accept f r in x <> Panic /\ reasm_ok r' /\ next r' = next r.
Proof.
  intros Hf Hr. pose proof Hr as [Hn Hp]. unfold accept. destruct (Z.ltb_spec (f_seq f) (next r)); [done|]. pose proof Hf as (_ & Hs & _). destruct (Z.leb_spec maxPendingMessages (u16 (f_seq f - next r))) as [|Hw]; [done|].
  rewrite (uwrap_id 16) in Hw by (unfold in_u16 in *; lia). set (p := default (newPartial f) (pending r !! f_seq f)).
  assert (Hpo : partial_ok p) by (unfold p; destruct (pending r !! f_seq f) as [q|] eqn:Eq; [apply (Hp _ _ Eq)|by apply newPartial_ok]).
  assert (HI : forall q, partial_ok q -> reasm_ok (r <| pending ::= <[f_seq f := q]> |>)).
  { intros q Hq. split; [done|]. intros k p' Hk. cbn in Hk. apply lookup_insert_Some in Hk as [[<- <-]|[_ Hk]]; [cbn; split; [done|split; [lia|done]]|by apply Hp]. }
  destruct (_ || _) eqn:Em; [split_and!; [done|by apply HI|done]|]. apply orb_false_iff in Em as [_ Em%negb_false_iff%Z.eqb_eq].
  destruct (write_spec p f Hpo Hf Em) as (body & rcv & n & -> & -> & Hlb & Hlr & _). split_and!; [done| |done].
  set (q := p <| p_body := body |> <| received := rcv |> <| have := count rcv |>). assert (Hq : partial_ok q) by (destruct Hpo; by split). specialize (HI q Hq). destruct HI as [H1 H2]. split; [done|]. cbn in H2 |- *. by rewrite insert_insert_eq.
Qed.

Lemma nextMessage_ok r : reasm_ok r -> reasm_ok (nextMessage r).2.
Proof.
  intros [Hn Hp]. unfold nextMessage. destruct (pending r !! next r) as [p|] eqn:E; [|by split]. destruct (negb _); [by split|]. split; cbn; [apply (uwrap_range 16); lia|]. intros k q [Hk Hq]%lookup_delete_Some. destruct (Hp k q Hq) as (Hu & Hw & Ho).
  unfold u16, uwrap, in_u16 in *. split; [done|]. split; [|done]. rewrite Z.mod_small by lia. unfold maxPendingMessages in *. lia.
Qed.

(** At most eight messages of at most 64 KiB are ever held. *)
Lemma pending_bound r : reasm_ok r -> Z.of_nat (size (pending r)) <= maxPendingMessages.
Proof.
  intros [_ Hp]. assert (HS : (dom (pending r) : gset Z) ⊆ list_to_set (seqZ (next r) 8)).
  { intros k Hk. apply elem_of_dom in Hk as [p Hk]. apply elem_of_list_to_set, elem_of_seqZ. destruct (Hp k p Hk) as (_ & Hw & _). unfold maxPendingMessages in Hw. lia. }
  apply subseteq_size in HS. rewrite size_dom in HS. rewrite size_list_to_set in HS by apply NoDup_seqZ. rewrite length_seqZ in HS. unfold maxPendingMessages. lia.
Qed.

(** ** The reassembler on fragments of given messages *)

Section honest.
Context (e0 : Z) (msg : Z -> option (Z * bytes)).

(** [f] is a piece of the message it names, under epoch [e0]. *)
Definition honest (f : parsedFragment) : Prop := f_epoch f = e0 /\ exists t b, msg (f_seq f) = Some (t, b) /\ piece_of (f_seq f) t b f.

(** Everything received so far is what was sent. *)
Definition faithful (r : reassembler) : Prop := forall k p, pending r !! k = Some p ->
  p_epoch p = e0 /\ exists t b, msg k = Some (t, b) /\ p_typ p = t /\ p_totalLen p = zlen b /\ forall i, received p !! i = Some true -> p_body p !! i = b !! i.

Definition started (r : reassembler) (k : Z) : Prop := k < next r \/ is_Some (pending r !! k).
Definition covered (r : reassembler) (k i : Z) : Prop := k < next r \/ exists p, pending r !! k = Some p /\ received p !! Z.to_nat i = Some true.

(** What has been seen of the messages only grows. *)
Definition grows (r r' : reassembler) : Prop := next r <= next r' /\ (forall k, started r k -> started r' k) /\ (forall k i, covered r k i -> covered r' k i).

Lemma reasm_grows_refl r : grows r r.
Proof. done. Qed.

Lemma reasm_grows_trans r1 r2 r3 : grows r1 r2 -> grows r2 r3 -> grows r1 r3.
Proof. intros (H1 & H2 & H3) (H4 & H5 & H6). split; [lia|]. split; auto. Qed.

Lemma piece_frag t b f i : piece_of (f_seq f) t b f -> in_frag f (Z.of_nat i) -> frag f !! Z.to_nat (Z.of_nat i - fragOff f) = b !! i.
Proof.
  intros (_ & _ & _ & A & B & -> & HA) Hi. unfold in_frag, zlen in *. rewrite lookup_app_r by lia. rewrite lookup_app_l by lia. f_equal. lia.
Qed.

Lemma accept_honest f r : frag_ok f -> honest f -> reasm_ok r -> faithful r -> exists r', accept f r = (Ok tt, r') /\ faithful r' /\ grows r r' /\ next r' = next r /\
  (f_seq f < next r + maxPendingMessages -> started r' (f_seq f) /\ forall i, in_frag f i -> covered r' (f_seq f) i).
Proof.
  intros Hf (Hep & t & b & Hmsg & Hpc) Hr Hfa. pose proof Hr as [Hn Hp]. unfold accept. destruct (Z.ltb_spec (f_seq f) (next r)) as [Hlt|Hge].
  { exists r. split_and!; [done|done|apply reasm_grows_refl|done|]. intros _. split; [by left|]. intros i _. by left. }
  pose proof Hf as (_ & Hs & Hoff & _). rewrite (uwrap_id 16) by (unfold in_u16 in *; lia). destruct (Z.leb_spec maxPendingMessages (f_seq f - next r)) as [Hfar|Hw].
  { exists r. split_and!; [done|done|apply reasm_grows_refl|done|]. lia. }
  pose proof Hpc as (_ & Ety & Etot & Hat). set (p := default (newPartial f) (pending r !! f_seq f)).
  assert (HP : partial_ok p /\ p_epoch p = e0 /\ p_typ p = t /\ p_totalLen p = zlen b /\ (forall i, received p !! i = Some true -> p_body p !! i = b !! i) /\ (forall i, (exists q, pending r !! f_seq f = Some q /\ received q !! i = Some true) -> received p !! i = Some true)).
  { unfold p. destruct (pending r !! f_seq f) as [q|] eqn:Eq; cbn [default].
    - destruct (Hfa _ _ Eq) as (He' & t' & b' & Hm' & H1 & H2 & H3). rewrite Hmsg in Hm'. inversion Hm'; subst t' b'. split_and!; try done; [apply (Hp _ _ Eq)|]. intros i (q' & [= <-] & Hq'). done.
    - split_and!; try done; [by apply newPartial_ok| |by intros i (q & ? & _)]. intros i Hi. cbn in Hi. apply lookup_replicate in Hi as [? _]. done. }
  destruct HP as (Hpo & Hpe & Hpt & Hptot & Hbody & Hrcv). rewrite Hpt, Ety, Z.eqb_refl, Hptot, Etot, Z.eqb_refl. cbn [negb orb].
  destruct (write_spec p f Hpo Hf) as (body & rcv & n & -> & -> & Hlb & Hlr & Hw2); [by rewrite Hptot, Etot|]. eexists. split; [reflexivity|].
  set (q := p <| p_body := body |> <| received := rcv |> <| have := count rcv |>). set (r' := _ <| pending ::= <[f_seq f := q]> |>).
  assert (Hq : pending r' = <[f_seq f := q]> (pending r)) by (unfold r'; cbn; apply insert_insert_eq). assert (Hnx : next r' = next r) by done. clearbody r'.
  assert (Hkeep : forall i, received p !! i = Some true -> rcv !! i = Some true).
  { intros i Hi. pose proof (lookup_lt_Some _ _ _ Hi) as Hlt. destruct Hpo as [_ _ Hrl _]. destruct (Hw2 i) as [-> _]; [unfold zlen in *; lia|]. by destruct (decide _). }
  split_and!.
  - intros k p' Hk. rewrite Hq in Hk. apply lookup_insert_Some in Hk as [[<- <-]|[_ Hk]]; [|by apply Hfa]. split; [done|]. exists t, b. split_and!; try done. cbn. intros i Hi. pose proof (lookup_lt_Some _ _ _ Hi) as Hlt.
    destruct (Hw2 i) as [E1 E2]; [unfold zlen in *; lia|]. rewrite E2. rewrite E1 in Hi. destruct (decide (in_frag f (Z.of_nat i))) as [Hin|Hout]; [by apply (piece_frag t)|by apply Hbody].
  - split; [lia|]. split.
    + intros k [Hk|Hk]; [left; lia|]. right. rewrite Hq. destruct (decide (k = f_seq f)) as [->|]; [by rewrite lookup_insert_eq|by rewrite lookup_insert_ne].
    + intros k i [Hk|(q0 & Hq0 & Hi)]; [left; lia|]. right. rewrite Hq. destruct (decide (k = f_seq f)) as [->|]; [|exists q0; by rewrite lookup_insert_ne]. exists q. rewrite lookup_insert_eq. split; [done|]. apply Hkeep, Hrcv. by exists q0.
  - done.
  - intros _. split; [right; rewrite Hq, lookup_insert_eq; done|]. intros i Hi. right. exists q. rewrite Hq, lookup_insert_eq. split; [done|]. cbn. pose proof (at_bounds _ _ _ Hat). pose proof Hi as [? ?]. destruct (Hw2 (Z.to_nat i)) as [-> _]; [lia|]. rewrite Z2Nat.id by lia. by rewrite decide_True.
Qed.

(** The next message is delivered exactly when it is complete, and it is the one that was sent. *)
Lemma nextMessage_honest r : reasm_ok r -> faithful r -> next r < 65535 ->
  let '(m, r') := nextMessage r in
  faithful r' /\ grows r r' /\
  match m with
  | Some m => exists t b, msg (next r) = Some (t, b) /\ m = mkMessage t (next r) b e0 /\ next r' = next r + 1
  | None => r' = r /\ forall t b, msg (next r) = Some (t, b) -> started r (next r) -> exists i, 0 <= i < zlen b /\ ~ covered r (next r) i
  end.
Proof.
  intros [Hn Hp] Hfa Hlim. unfold nextMessage. destruct (pending r !! next r) as [p|] eqn:E; [|split_and!; [done|apply reasm_grows_refl|done|]; intros t b _ [?|[q Hq]]; [lia|congruence]].
  destruct (Hp _ _ E) as (_ & _ & [_ Hb Hr Hh]). destruct (Hfa _ _ E) as (He & t & b & Hm & Ht & Htot & Hrcv). destruct (Z.eqb_spec (have p) (p_totalLen p)) as [Hc|Hc]; cbn [negb].
  - assert (Hbody : p_body p = b).
    { apply list_eq_same_length with (length b); [done|unfold zlen in *; lia|]. intros i x y Hi Hx Hy. assert (Hri : received p !! i = Some true).
      { destruct (lookup_lt_is_Some_2 (received p) i) as [z Hz]; [unfold zlen in *; lia|]. by rewrite (count_all (received p) ltac:(lia) i z Hz) in Hz. }
      rewrite (Hrcv i Hri) in Hx. congruence. }
    set (r' := r <| pending ::= delete (next r) |> <| next ::= _ |>). assert (Hnx : next r' = next r + 1) by (unfold r'; cbn; apply (uwrap_id 16); unfold in_u16 in Hn; lia). assert (Hpd : pending r' = delete (next r) (pending r)) by done. clearbody r'. split_and!.
    + intros k q Hk. rewrite Hpd in Hk. apply lookup_delete_Some in Hk as [_ Hk]. by apply Hfa.
    + split; [lia|]. assert (HL : forall k q, pending r !! k = Some q -> k < next r' \/ pending r' !! k = Some q).
      { intros k q Hk. destruct (decide (k = next r)) as [->|]; [left; lia|right]. by rewrite Hpd, lookup_delete_ne. }
      split; [intros k [Hk|[q Hq]]; [left; lia|]; destruct (HL k q Hq); [by left|right; eauto]|]. intros k i [Hk|(q & Hq & Hi)]; [left; lia|]. destruct (HL k q Hq); [by left|right; eauto].
    + exists t, b. split_and!; [done|by rewrite Ht, Hbody, He|done].
  - split_and!; [done|apply reasm_grows_refl|done|]. intros t' b' Hm' _. rewrite Hm in Hm'. inversion Hm'; subst t' b'. destruct (decide (Forall (fun i => received p !! i = Some true) (List.seq 0 (length b)))) as [Hall|Hnot].
    + exfalso. apply Hc. rewrite Hh, <-Hr. apply count_full. intros i Hi. eapply (proj1 (Forall_forall _ _)) in Hall; [exact Hall|]. apply elem_of_seq. unfold zlen in *. lia.
    + apply not_Forall_Exists in Hnot; [|intros x; apply _]. apply Exists_exists in Hnot as (i & Hi & Hno). apply elem_of_seq in Hi. exists (Z.of_nat i). split; [unfold zlen; lia|]. intros [?|(q & Hq & Hri)]; [lia|]. rewrite E in Hq. inversion Hq; subst q. cbn in Hno. rewrite Nat2Z.id in Hri. done.
Qed.
End honest.
End handshake_layer.
