(* ===== verification/DtlsConn.v ===== *)
(** * DTLS connections: internal/dtls/handshake_io.go and the record paths of conn.go

    A connection numbers, protects and sends records, packs flights into datagrams, reads datagrams into handshake messages and application data,
    and retransmits its last flight when a read times out.  The transport is the list of datagrams handed to it and the list of writes that
    are to fail; what a read returns is a list of events.  The negotiation itself (the message bodies, certificates and key exchange) is not modelled: the
    handshake that [Read] and [Write] run first is their argument. *)

From stdpp Require Import gmap.
From S2P Require Import Prelude Bytes Replay DtlsRecord DtlsHandshake.

Module dtlsconn.
Import dtls handshake_layer.

Definition maxDatagram : Z := 1200.
Definition maxFinalFlightResends : Z := 8.
Definition alertFatal : Z := 2.
Definition second : Z := 1000000000.

Record recordSpec := mkSpec { s_typ : Z; s_epoch : Z; s_payload : bytes }.
Definition flight := list recordSpec.

Record Conn := mkConn {
  isClient : bool; retransmitTimeout : Z;
  sendEpoch : Z; sendSeq : list Z; recvEpoch : Z; replay : list replayWindow;
  keys : connKeys; keysReady : bool; handshakeDone : bool;
  appData : list bytes; pendingRecords : list record; transcript : bytes; reasm : reassembler; peerCCS : bool;
  lastFlight : option flight; curRetrans : Z; sendMsgSeq : Z; finalFlightResends : Z;
  sent : list bytes; faults : list bool }.
#[export] Instance eta_Conn : Eta Conn := fun c => mkConn
  (isClient c) (retransmitTimeout c) (sendEpoch c) (sendSeq c) (recvEpoch c) (replay c) (keys c) (keysReady c) (handshakeDone c)
  (appData c) (pendingRecords c) (transcript c) (reasm c) (peerCCS c) (lastFlight c) (curRetrans c) (sendMsgSeq c) (finalFlightResends c)
  (sent c) (faults c).

(** [transport.Write]: a datagram whose write fails may still have left. *)
Definition transport_Write (d : bytes) : sres Conn error unit := fun c =>
  let c := c <| sent ::= (fun l => l ++ [d]) |> in
  match faults c with
  | [] => (Ok tt, c)
  | fault :: rest => (if fault : bool then Err errTransport else Ok tt, c <| faults := rest |>)
  end.

(** What the transport's Read returns: a datagram, a timeout (with whether the overall deadline has passed), or another error. *)
Inductive read_event := Datagram (b : bytes) | Timeout (expired : bool) | ReadError.

Section io.
Context {C : Crypto}.

(** ** Sending *)

Definition nextSeq (epoch : Z) : sres Conn error Z := fun c =>
  match sendSeq c !! Z.to_nat epoch with
  | Some s => (Ok s, c <| sendSeq ::= <[Z.to_nat epoch := u64 (s + 1)]> |>)
  | None => (Panic, c)
  end.

Definition sealHalf (c : Conn) : halfConn := if isClient c then clientWrite (keys c) else serverWrite (keys c).
Definition openHalf (c : Conn) : halfConn := if isClient c then serverWrite (keys c) else clientWrite (keys c).

Definition protect (typ epoch seq : Z) (payload : bytes) : sres Conn error bytes := fun c =>
  if 0 <? epoch then
    if negb (keysReady c) then (Err errNoKeys, c) else (Ok (seal (sealHalf c) epoch seq typ versionDTLS12 payload), c)
  else (Ok payload, c).

Definition writeRecord (typ epoch : Z) (payload : bytes) : sres Conn error unit :=
  seq ← nextSeq epoch;
  fragment ← protect typ epoch seq payload;
  let rec := mkRecord typ versionDTLS12 epoch seq fragment in
  transport_Write (marshal rec []).

Definition sendAlert (desc : Z) : sres Conn error unit := fun c =>
  match writeRecord recordAlert 0 [alertFatal; desc] c with (Panic, c) => (Panic, c) | (_, c) => (Ok tt, c) end.

Definition emitHandshake (f : flight) (typ epoch : Z) (body : bytes) (inTranscript : bool) : sres Conn error flight := fun c =>
  let seq := sendMsgSeq c in
  let c := c <| sendMsgSeq := u16 (sendMsgSeq c + 1) |> in
  let c := if inTranscript then c <| transcript ::= (fun t => t ++ fullMessageBytes (mkMessage typ seq body 0)) |> else c in
  match fragmentMessage typ seq body (maxDatagram - recordHeaderLen) with
  | Ok frags => (Ok (f ++ ((fun frag => mkSpec recordHandshake epoch frag) <$> frags)), c)
  | Err e => (Err e, c)
  | Panic => (Panic, c)
  end.

Definition emitCCS (f : flight) : flight := f ++ [mkSpec recordChangeCipherSpec 0 [1]].

Definition addToTranscript (m : handshakeMessage) (c : Conn) : Conn := c <| transcript ::= (fun t => t ++ fullMessageBytes m) |>.

Definition flush (dg : bytes) : sres Conn error bytes :=
  if zlen dg =? 0 then mret dg else _ ← transport_Write dg; mret [].

Fixpoint transmit_specs (specs : flight) (dg : bytes) : sres Conn error bytes :=
  match specs with
  | [] => mret dg
  | spec :: specs =>
      seq ← nextSeq (s_epoch spec);
      fragment ← protect (s_typ spec) (s_epoch spec) seq (s_payload spec);
      let rec := mkRecord (s_typ spec) versionDTLS12 (s_epoch spec) seq fragment in
      let marshalled := marshal rec [] in
      dg ← (if maxDatagram <? zlen dg + zlen marshalled then flush dg else mret dg);
      transmit_specs specs (dg ++ marshalled)
  end.
Definition transmit (f : flight) : sres Conn error unit := dg ← transmit_specs f []; _ ← flush dg; mret tt.

Definition sendFlight (f : flight) : sres Conn error unit := fun c => transmit f (c <| lastFlight := Some f |> <| curRetrans := retransmitTimeout c |>).

Definition retransmit : sres Conn error unit := fun c => match lastFlight c with None => (Ok tt, c) | Some f => transmit f c end.

(** ** Receiving *)

Definition decryptRecord (r : record) : sres Conn error (option bytes) := fun c =>
  if (epoch r =? 0) || negb (keysReady c) then (Ok None, c) else
  let i := Z.to_nat (Z.land (epoch r) 1) in
  match replay c !! i with
  | None => (Panic, c)
  | Some w =>
      if negb (Replay.check (seq r) w) then (Ok None, c) else
      match open (openHalf c) r with
      | Ok pt => (Ok (Some pt), c <| replay ::= <[i := Replay.mark (seq r) w]> |>)
      | Err _ => (Ok None, c)
      | Panic => (Panic, c)
      end
  end.

(** The loop over the fragments of a handshake record; a fragment takes at least its header. *)
Fixpoint accept_fragments (fuel : nat) (epoch : Z) (frag : bytes) : sres Conn error unit := fun c =>
  match fuel with
  | O => (Ok tt, c)
  | S fuel =>
      if negb (0 <? zlen frag) then (Ok tt, c) else
      match parseHandshakeFragment frag with
      | Ok (pf, n) =>
          let pf := pf <| f_epoch := epoch |> in
          let '(x, r) := accept pf (reasm c) in
          let c := c <| reasm := r |> in
          match x with
          | Ok _ => match slc_from (E:=error) frag n with Ok rest => accept_fragments fuel epoch rest c | _ => (Panic, c) end
          | Err _ => (Ok tt, c)
          | Panic => (Panic, c)
          end
      | Err _ => (Ok tt, c)
      | Panic => (Panic, c)
      end
  end.

(** The payload of a handshake or alert record: plaintext under epoch 0, decrypted otherwise. *)
Definition record_payload (r : record) : sres Conn error (option bytes) :=
  if 0 <? epoch r then decryptRecord r else mret (Some (fragment r)).

Definition processHandshakeRecord (r : record) : sres Conn error unit :=
  if typ r =? recordChangeCipherSpec then modify (fun c => c <| peerCCS := true |> <| recvEpoch := 1 |>)
  else if typ r =? recordAlert then
    payload ← record_payload r;
    match payload with
    | Some (level :: desc :: _) => if level =? alertFatal then fail (errPeerAlert desc) else mret tt
    | _ => mret tt
    end
  else if typ r =? recordHandshake then
    payload ← record_payload r;
    match payload with Some frag => accept_fragments (length frag) (epoch r) frag | None => mret tt end
  else if typ r =? recordApplicationData then
    pt ← decryptRecord r;
    match pt with Some pt => modify (fun c => c <| appData ::= (fun l => l ++ [pt]) |>) | None => mret tt end
  else mret tt.

Definition pop_message : sres Conn error (option handshakeMessage) := fun c =>
  let '(m, r) := nextMessage (reasm c) in (Ok m, c <| reasm := r |>).

(** The inner loop: the records left of the last datagram, until one of them completes a message. *)
Fixpoint pump_records (rs : list record) : sres Conn error (option handshakeMessage) :=
  match rs with
  | [] => mret None
  | r :: rs =>
      _ ← modify (fun c => c <| pendingRecords := rs |>);
      _ ← processHandshakeRecord r;
      m ← pop_message;
      match m with Some m => mret (Some m) | None => pump_records rs end
  end.

(** One call: [Ok None] when it is still waiting after the events.  The events it leaves unread come with it. *)
Fixpoint readHandshakeMessage (evs : list read_event) (c : Conn) : res error (option handshakeMessage) * Conn * list read_event :=
  match pop_message c with
  | (Ok (Some m), c) => (Ok (Some m), c, evs)
  | (Ok None, c) =>
      match pump_records (pendingRecords c) c with
      | (Ok None, c) =>
          match evs with
          | [] => (Ok None, c, [])
          | Datagram b :: evs =>
              match splitRecords b with
              | (Ok _, recs) => readHandshakeMessage evs (c <| pendingRecords := recs |>)
              | (Err e, _) => (Err e, c, evs)
              | (Panic, _) => (Panic, c, evs)
              end
          | Timeout true :: evs => (Err errHandshakeTimeout, c, evs)
          | Timeout false :: evs =>
              match retransmit c with
              | (Ok _, c) =>
                  let t := 2 * curRetrans c in
                  readHandshakeMessage evs (c <| curRetrans := if 60 * second <? t then 60 * second else t |>)
              | (Err e, c) => (Err e, c, evs)
              | (Panic, c) => (Panic, c, evs)
              end
          | ReadError :: evs => (Err errTransport, c, evs)
          end
      | (x, c) => (x, c, evs)
      end
  | (x, c) => (x, c, evs)
  end.

(** ** Application data *)

Fixpoint app_records (rs : list record) : sres Conn error unit :=
  match rs with
  | [] => mret tt
  | r :: rs =>
      if typ r =? recordApplicationData then
        pt ← decryptRecord r;
        match pt with
        | None => app_records rs
        | Some pt => _ ← modify (fun c => c <| appData ::= (fun l => l ++ [pt]) |>); app_records rs
        end
      else if typ r =? recordAlert then fail errEOF
      else fun c =>
        match lastFlight c with
        | Some f =>
            if negb (isClient c) && ((typ r =? recordHandshake) || (typ r =? recordChangeCipherSpec)) && (finalFlightResends c <? maxFinalFlightResends)
            then (_ ← transmit f; app_records rs) (c <| finalFlightResends ::= Z.add 1 |>)
            else app_records rs c
        | None => app_records rs c
        end
  end.

Definition readAppRecords (ev : read_event) : sres Conn error unit :=
  match ev with
  | Datagram b => match splitRecords b with (Ok _, recs) => app_records recs | (Err e, _) => fail e | (Panic, _) => lift Panic end
  | _ => fail errTransport
  end.

(** The loop of Read; [Ok None] when it is still waiting after the events. *)
Fixpoint read_loop (size : Z) (evs : list read_event) (c : Conn) : res error (option bytes) * Conn * list read_event :=
  match appData c with
  | d :: rest => (Ok (Some (take (Z.to_nat size) d)), c <| appData := rest |>, evs)
  | [] =>
      match evs with
      | [] => (Ok None, c, [])
      | ev :: evs =>
          match readAppRecords ev c with
          | (Ok _, c) => read_loop size evs c
          | (Err e, c) => (Err e, c, evs)
          | (Panic, c) => (Panic, c, evs)
          end
      end
  end.

Context (Handshake : sres Conn error unit).
Definition Read (size : Z) (evs : list read_event) (c : Conn) : res error (option bytes) * Conn * list read_event :=
  if negb (handshakeDone c) then
    match Handshake c with
    | (Ok _, c) => read_loop size evs c
    | (Err e, c) => (Err e, c, evs)
    | (Panic, c) => (Panic, c, evs)
    end
  else read_loop size evs c.

Definition Write (p : bytes) : sres Conn error Z := fun c =>
  (_ ← (if negb (handshakeDone c) then Handshake else mret tt);
   e ← (fun c => (Ok (sendEpoch c), c));
   _ ← writeRecord recordApplicationData e p;
   mret (zlen p)) c.
End io.

(** ** Arbitrary datagrams *)

Definition spec_ok (s : recordSpec) : Prop := s_epoch s = 0 \/ s_epoch s = 1.

Record conn_ok (c : Conn) : Prop := {
  co_seq : length (sendSeq c) = 2%nat;
  co_replay : length (replay c) = 2%nat;
  co_keys : keysReady c = true -> half_ok (clientWrite (keys c)) /\ half_ok (serverWrite (keys c));
  co_flight : match lastFlight c with Some f => Forall spec_ok f | None => True end;
  co_records : Forall (fun r => is_bytes (fragment r)) (pendingRecords c);
  co_reasm : reasm_ok (reasm c) }.

(** Code that keeps the connection well formed, does not panic, and returns values that satisfy [P]. *)
Definition safe {A} (P : A -> Prop) (m : sres Conn error A) : Prop := forall c, conn_ok c -> let '(x, c') := m c in conn_ok c' /\ returns x P.

Lemma safe_ret {A} (P : A -> Prop) a : P a -> safe P (mret a).
Proof. intros H c Hc. by split. Qed.

Lemma safe_bind {A B} (P : A -> Prop) (Q : B -> Prop) m k : safe P m -> (forall a, P a -> safe Q (k a)) -> safe Q (m ≫= k).
Proof.
  intros Hm Hk c Hc. specialize (Hm c Hc). unfold mbind, sres_bind. destruct (m c) as [[a|e|] c']; destruct Hm as [Hc' Hp]; [|done..]. by apply Hk.
Qed.

Lemma safe_fail {A} (P : A -> Prop) e : safe P (fail e).
Proof. intros c Hc. by split. Qed.

Lemma safe_modify f : (forall c, conn_ok c -> conn_ok (f c)) -> safe (fun _ => True) (modify f).
Proof. intros H c Hc. split; [by apply H|done]. Qed.

(** An update that does not touch what [conn_ok] speaks of. *)
Definition same_core (c c' : Conn) : Prop :=
  sendSeq c' = sendSeq c /\ replay c' = replay c /\ keys c' = keys c /\ keysReady c' = keysReady c /\ lastFlight c' = lastFlight c /\ pendingRecords c' = pendingRecords c /\ reasm c' = reasm c.

Lemma conn_ok_same c c' : same_core c c' -> conn_ok c -> conn_ok c'.
Proof. intros (H1 & H2 & H3 & H4 & H5 & H6 & H7) []. split; by rewrite ?H1, ?H2, ?H3, ?H4, ?H5, ?H6, ?H7. Qed.

Section safety.
Context {C : Crypto} {CL : CryptoLaws C}.

Lemma transport_Write_safe d : safe (fun _ => True) (transport_Write d).
Proof.
  intros c Hc. unfold transport_Write. set (c1 := c <| sent ::= _ |>). assert (Hc1 : conn_ok c1) by (by apply (conn_ok_same c)). destruct (faults c1) as [|[] fs]; (split; [|done]); [exact Hc1|by apply (conn_ok_same c1)..].
Qed.

Lemma nextSeq_safe e : e = 0 \/ e = 1 -> safe (fun _ => True) (nextSeq e).
Proof.
  intros He c Hc. unfold nextSeq. destruct (lookup_lt_is_Some_2 (sendSeq c) (Z.to_nat e)) as [s Hs]; [rewrite (co_seq _ Hc); lia|]. rewrite Hs. split; [|done]. destruct Hc. split; try done. cbn. by rewrite length_insert.
Qed.

Lemma protect_safe t e s p : safe (fun _ => True) (protect t e s p).
Proof. intros c Hc. unfold protect. destruct (0 <? e); [|by split]. destruct (negb _); by split. Qed.

Lemma flush_safe dg : safe (fun _ => True) (flush dg).
Proof. unfold flush. destruct (_ =? _); [by apply safe_ret|]. eapply safe_bind; [apply transport_Write_safe|]. intros _ _. by apply safe_ret. Qed.

Lemma writeRecord_safe t e p : e = 0 \/ e = 1 -> safe (fun _ => True) (writeRecord t e p).
Proof. intros He. unfold writeRecord. eapply safe_bind; [by apply nextSeq_safe|]. intros s _. eapply safe_bind; [apply protect_safe|]. intros f _. apply transport_Write_safe. Qed.

Lemma transmit_specs_safe f dg : Forall spec_ok f -> safe (fun _ => True) (transmit_specs f dg).
Proof.
  intros Hf. revert dg. induction Hf as [|s f Hs Hf IH]; intros dg; cbn [transmit_specs]; [by apply safe_ret|]. eapply safe_bind; [by apply nextSeq_safe|]. intros q _. eapply safe_bind; [apply protect_safe|]. intros x _. cbv zeta.
  eapply safe_bind; [|intros d _; apply IH]. destruct (_ <? _); [apply flush_safe|by apply safe_ret].
Qed.

Lemma transmit_safe f : Forall spec_ok f -> safe (fun _ => True) (transmit f).
Proof. intros Hf. unfold transmit. eapply safe_bind; [by apply transmit_specs_safe|]. intros d _. eapply safe_bind; [apply flush_safe|]. intros _ _. by apply safe_ret. Qed.

Lemma retransmit_safe : safe (fun _ => True) retransmit.
Proof. intros c Hc. unfold retransmit. pose proof (co_flight _ Hc) as Hf. destruct (lastFlight c) as [f|]; [|by split]. by apply transmit_safe. Qed.

Lemma decryptRecord_safe r : is_bytes (fragment r) -> safe (fun o => match o with Some pt => is_bytes pt | None => True end) (decryptRecord r).
Proof.
  intros Hr c Hc. unfold decryptRecord. destruct (_ || _) eqn:Eg; [by split|]. apply orb_false_iff in Eg as [_ Hk%negb_false_iff]. destruct (co_keys _ Hc Hk) as [Hcw Hsw].
  assert (Hl : (Z.to_nat (Z.land (epoch r) 1) < length (replay c))%nat) by (rewrite (co_replay _ Hc); change 1 with (Z.ones 1); rewrite Z.land_ones by lia; pose proof (Z.mod_pos_bound (epoch r) (2 ^ 1)); lia).
  destruct (lookup_lt_is_Some_2 _ _ Hl) as [w ->]. destruct (negb _); [by split|]. assert (Hh : half_ok (openHalf c)) by (unfold openHalf; by destruct (isClient c)). pose proof (open_total (openHalf c) r Hh Hr) as Ho.
  destruct (open (openHalf c) r) as [pt|e|]; [|by split|done]. split; [|exact Ho]. destruct Hc. split; try done. cbn. by rewrite length_insert.
Qed.

Lemma accept_fragments_safe fuel e b : is_bytes b -> safe (fun _ => True) (accept_fragments fuel e b).
Proof.
  revert b. induction fuel as [|fuel IH]; intros b Hb c Hc; cbn [accept_fragments]; [by split|]. destruct (negb _); [by split|]. pose proof (parse_frag_total b Hb) as Hp. destruct (parseHandshakeFragment b) as [[f n]|x|]; [|by split|done]. destruct Hp as (Hf & -> & rest & -> & Hrest).
  cbv zeta. set (f1 := f <| f_epoch := e |>). assert (Hf1 : frag_ok f1) by exact Hf. pose proof (accept_ok f1 (reasm c) Hf1 (co_reasm _ Hc)) as Ha. destruct (accept f1 (reasm c)) as [x r']. destruct Ha as (Hx & Hr' & _). set (c1 := c <| reasm := r' |>). assert (Hc1 : conn_ok c1) by (destruct Hc; by split).
  destruct x as [u|x|]; [|exact (conj Hc1 I)|done]. rewrite slc_from_app by done. by apply IH.
Qed.

Lemma record_payload_safe r : is_bytes (fragment r) -> safe (fun o => match o with Some pt => is_bytes pt | None => True end) (record_payload r).
Proof. intros Hr. unfold record_payload. destruct (_ <? _); [by apply decryptRecord_safe|by apply safe_ret]. Qed.

Lemma processHandshakeRecord_safe r : is_bytes (fragment r) -> safe (fun _ => True) (processHandshakeRecord r).
Proof.
  intros Hr. unfold processHandshakeRecord. destruct (typ r =? recordChangeCipherSpec); [apply safe_modify; intros c; by apply conn_ok_same|]. destruct (typ r =? recordAlert).
  { eapply safe_bind; [by apply record_payload_safe|]. intros [[|l [|d p]]|] _; try by apply safe_ret. destruct (_ =? _); [apply safe_fail|by apply safe_ret]. }
  destruct (typ r =? recordHandshake).
  { eapply safe_bind; [by apply record_payload_safe|]. intros [p|] Hp; [by apply accept_fragments_safe|by apply safe_ret]. }
  destruct (typ r =? recordApplicationData); [|by apply safe_ret]. eapply safe_bind; [by apply decryptRecord_safe|]. intros [p|] Hp; [apply safe_modify; intros c; by apply conn_ok_same|by apply safe_ret].
Qed.

Lemma pop_message_safe : safe (fun _ => True) pop_message.
Proof.
  intros c Hc. unfold pop_message. pose proof (nextMessage_ok (reasm c) (co_reasm _ Hc)) as Hn. destruct (nextMessage (reasm c)) as [m r']. split; [|done]. destruct Hc. by split.
Qed.

Lemma pump_records_safe rs : Forall (fun r => is_bytes (fragment r)) rs -> safe (fun _ => True) (pump_records rs).
Proof.
  induction 1 as [|r rs Hr Hrs IH]; cbn [pump_records]; [by apply safe_ret|]. eapply safe_bind; [apply safe_modify; intros c []; by split|]. intros _ _. eapply safe_bind; [by apply processHandshakeRecord_safe|]. intros _ _.
  eapply safe_bind; [apply pop_message_safe|]. intros [m|] _; [by apply safe_ret|done].
Qed.

Definition event_ok (ev : read_event) : Prop := match ev with Datagram b => is_bytes b | _ => True end.

Lemma split_safe b : is_bytes b -> let '(x, rs) := splitRecords b in x <> Panic /\ Forall (fun r => is_bytes (fragment r)) rs.
Proof. intros Hb. pose proof (split_total b Hb) as H. destruct (splitRecords b) as [x rs]. destruct H as (H1 & H2 & _). split; [done|]. eapply Forall_impl; [exact H2|]. by intros r [_ ?]. Qed.

Lemma readHandshakeMessage_safe evs c : Forall event_ok evs -> conn_ok c -> let '(x, c', _) := readHandshakeMessage evs c in conn_ok c' /\ returns x (fun _ => True).
Proof.
  intros He. revert c. induction He as [|ev evs Hev Hevs IH]; intros c Hc; cbn [readHandshakeMessage].
  - pose proof (pop_message_safe c Hc) as Hp. destruct (pop_message c) as [[[m|]|e|] c1]; destruct Hp as [Hc1 Hx]; try done. pose proof (pump_records_safe (pendingRecords c1) (co_records _ Hc1) c1 Hc1) as Hq. by destruct (pump_records (pendingRecords c1) c1) as [[[m|]|e|] c2].
  - pose proof (pop_message_safe c Hc) as Hp. destruct (pop_message c) as [[[m|]|e|] c1]; destruct Hp as [Hc1 Hx]; try done. pose proof (pump_records_safe (pendingRecords c1) (co_records _ Hc1) c1 Hc1) as Hq. destruct (pump_records (pendingRecords c1) c1) as [[[m|]|e|] c2]; destruct Hq as [Hc2 Hz]; try done.
    destruct ev as [b|[]|]; [|done| |done].
    + pose proof (split_safe b Hev) as Hs. destruct (splitRecords b) as [[u|e|] rs]; destruct Hs as [Hs1 Hs2]; try done. apply IH. destruct Hc2. by split.
    + pose proof (retransmit_safe c2 Hc2) as Hr. destruct (retransmit c2) as [[u|e|] c3]; destruct Hr as [Hc3 Hy]; try done. apply IH. by apply (conn_ok_same c3).
Qed.

Lemma app_records_safe rs : Forall (fun r => is_bytes (fragment r)) rs -> safe (fun _ => True) (app_records rs).
Proof.
  induction 1 as [|r rs Hr Hrs IH]; cbn [app_records]; [by apply safe_ret|]. destruct (typ r =? recordApplicationData).
  { eapply safe_bind; [by apply decryptRecord_safe|]. intros [p|] _; [|done]. eapply safe_bind; [apply safe_modify; intros c; by apply conn_ok_same|]. done. }
  destruct (typ r =? recordAlert); [apply safe_fail|]. intros c Hc. pose proof (co_flight _ Hc) as Hf. destruct (lastFlight c) as [f|] eqn:El; [|by apply IH]. destruct (_ && _ && _); [|by apply IH].
  assert (Hs : safe (fun _ => True) (_ ← transmit f; app_records rs)) by (eapply safe_bind; [by apply transmit_safe|done]). apply Hs. by apply (conn_ok_same c).
Qed.

Lemma read_loop_safe size evs c : Forall event_ok evs -> conn_ok c -> let '(x, c', _) := read_loop size evs c in conn_ok c' /\ returns x (fun _ => True).
Proof.
  intros He. revert c. induction He as [|ev evs Hev Hevs IH]; intros c Hc; cbn [read_loop]; (destruct (appData c) as [|d l]; [|by split; [apply (conn_ok_same c)|]]); [done|].
  assert (Hs : safe (fun _ => True) (readAppRecords ev)).
  { unfold readAppRecords. destruct ev as [b| |]; [|apply safe_fail..]. pose proof (split_safe b Hev) as Hs. destruct (splitRecords b) as [[u|e|] rs]; destruct Hs as [? ?]; [by apply app_records_safe|apply safe_fail|done]. }
  specialize (Hs c Hc). destruct (readAppRecords ev c) as [[u|e|] c']; destruct Hs as [Hc' Hy]; try done. by apply IH.
Qed.
End safety.
End dtlsconn.
