(* ===== verification/DtlsTransport.v ===== *)
(** * DTLS transport: delivery of handshake flights, record numbers and application data

    Two connections over a network that loses, repeats and reorders datagrams.  What a flight carries is delivered complete and in order; no record number, and so no AEAD nonce,
    is used twice; application data arrives unmodified and at most once; arbitrary datagrams do not panic.  Two theorems are
    defects: unauthenticated bytes end an established connection. *)

From Stdlib Require Import Sorted.
From stdpp Require Import gmap.
From S2P Require Import Prelude Bytes Replay DtlsRecord DtlsHandshake DtlsConn.

Module dtlstransport.
Import dtls handshake_layer dtlsconn.

(** ** Record numbers *)

(** The next record number of an epoch. *)
Definition number (c : Conn) (e : Z) : Z := default 0 (sendSeq c !! Z.to_nat e).

(** The records carry distinct numbers, from those of [c] up to those of [c']. *)
Definition fresh (c c' : Conn) (rs : list record) : Prop :=
  Forall (fun r => (epoch r = 0 \/ epoch r = 1) /\ number c (epoch r) <= seq r < number c' (epoch r)) rs /\ NoDup ((fun r => (epoch r, seq r)) <$> rs).

Definition advances (c c' : Conn) (n : Z) : Prop :=
  length (sendSeq c') = 2%nat /\ (forall e, e = 0 \/ e = 1 -> number c e <= number c' e <= number c e + n) /\
  isClient c' = isClient c /\ keys c' = keys c /\ keysReady c' = keysReady c.

(** There is room for [n] more records in every epoch. *)
Definition room (c : Conn) (n : Z) : Prop := length (sendSeq c) = 2%nat /\ forall e, e = 0 \/ e = 1 -> 0 <= number c e /\ number c e + n <= 2 ^ 48.

Lemma fresh_nil c c' : fresh c c' [].
Proof. split; constructor. Qed.

Lemma sent_refl c : length (sendSeq c) = 2%nat -> advances c c 0.
Proof. intros H. split_and!; try done. intros e _. lia. Qed.

Lemma sent_trans c1 c2 c3 n m : 0 <= n -> 0 <= m -> advances c1 c2 n -> advances c2 c3 m -> advances c1 c3 (n + m).
Proof.
  intros Hn Hm (H1 & H2 & H3 & H4 & H5) (G1 & G2 & G3 & G4 & G5). split_and!; try congruence. intros e He. specialize (H2 e He). specialize (G2 e He). lia.
Qed.

Lemma room_advances c c' n m : advances c c' n -> room c (n + m) -> room c' m.
Proof. intros (H1 & H2 & _) [_ Hr]. split; [done|]. intros e He. specialize (H2 e He). specialize (Hr e He). lia. Qed.

Lemma fresh_app c1 c2 c3 n m a b : advances c1 c2 n -> advances c2 c3 m -> fresh c1 c2 a -> fresh c2 c3 b -> fresh c1 c3 (a ++ b).
Proof.
  intros (_ & H2 & _) (_ & G2 & _) [Ha Na] [Hb Nb]. split.
  - apply Forall_app. split; (eapply Forall_impl; [eassumption|]); cbn beta; intros r [He Hr]; (split; [done|]); specialize (H2 _ He); specialize (G2 _ He); lia.
  - rewrite fmap_app. apply NoDup_app. split_and!; [done| |done]. intros x Hx Hy. apply list_elem_of_fmap in Hx as (r & -> & Hr). apply list_elem_of_fmap in Hy as (r' & E & Hr'). inversion E as [[E1 E2]].
    rewrite Forall_forall in Ha, Hb. specialize (Ha _ Hr). specialize (Hb _ Hr'). cbn beta in Ha, Hb. rewrite <-E1, <-E2 in Hb. lia.
Qed.

Lemma fresh_prefix c c' a b : fresh c c' (a ++ b) -> fresh c c' a.
Proof. intros [H N]. apply Forall_app in H as [H _]. rewrite fmap_app in N. apply NoDup_app in N as (N & _ & _). by split. Qed.

Section transport.
Context {C : Crypto}.

(** Each encrypted record is sealed under its own number. *)
Definition sealed (c : Conn) (r : record) : Prop :=
  epoch r = 0 \/ exists p, fragment r = seal (sealHalf c) (epoch r) (seq r) (typ r) versionDTLS12 p.

Lemma sealed_same c c' n r : advances c c' n -> sealed c' r -> sealed c r.
Proof. intros (_ & _ & H3 & H4 & _) [H|[p H]]; [by left|right; exists p]. unfold sealHalf in *. by rewrite H3, H4 in H. Qed.

Lemma nextSeq_spec c e : (e = 0 \/ e = 1) -> room c 1 -> exists c', nextSeq e c = (Ok (number c e), c') /\ advances c c' 1 /\ number c' e = number c e + 1 /\ sent c' = sent c /\ faults c' = faults c.
Proof.
  intros He [Hl Hr]. unfold nextSeq. destruct (lookup_lt_is_Some_2 (sendSeq c) (Z.to_nat e)) as [s Hs]; [lia|]. rewrite Hs. assert (Hn : number c e = s) by (unfold number; by rewrite Hs). rewrite Hn. eexists. split; [reflexivity|].
  pose proof (Hr e He) as [H0 H1]. assert (Hu : u64 (s + 1) = s + 1) by (apply u64_id; unfold in_u64; lia). rewrite Hu.
  assert (HN : forall e', e' = 0 \/ e' = 1 -> number (c <| sendSeq ::= <[Z.to_nat e := s + 1]> |>) e' = if decide (e' = e) then s + 1 else number c e').
  { intros e' He'. unfold number at 1. cbn [sendSeq upd]. change (sendSeq (c <| sendSeq ::= <[Z.to_nat e := s + 1]> |>)) with (<[Z.to_nat e := s + 1]> (sendSeq c)). destruct (decide (e' = e)) as [->|]; [by rewrite list_lookup_insert_eq by lia|]. rewrite list_lookup_insert_ne by lia. done. }
  split_and!; try done.
  - split_and!; try done; [cbn; by rewrite length_insert|]. intros e' He'. rewrite HN by done. destruct (decide (e' = e)) as [->|]; lia.
  - rewrite HN by done. by rewrite decide_True.
Qed.

Lemma protect_spec t e s p c : exists x, protect t e s p c = (x, c) /\ match x with Ok f => (e = 0 -> f = p) /\ (0 < e -> f = seal (sealHalf c) e s t versionDTLS12 p) | Err _ => True | Panic => False end.
Proof. unfold protect. destruct (Z.ltb_spec 0 e); [|exists (Ok p); split; [reflexivity|split; [done|lia]]]. destruct (negb _); [by exists (Err errNoKeys)|]. eexists. split; [reflexivity|]. split; [lia|done]. Qed.

(** What a transport write does. *)
Lemma write_effect d c : let '(x, c') := transport_Write d c in sent c' = sent c ++ [d] /\ sendSeq c' = sendSeq c /\ isClient c' = isClient c /\ keys c' = keys c /\ keysReady c' = keysReady c /\ x <> Panic /\ (faults c = [] -> x = Ok tt /\ faults c' = []).
Proof. unfold transport_Write. destruct c as [? ? ? ? ? ? ? ? ? ? ? ? ? ? ? ? ? ? ? [|[] fs]]; cbn; split_and!; try done; by intros. Qed.

Lemma flush_effect rs c : length (sendSeq c) = 2%nat -> let '(x, c') := flush (wire rs) c in
  advances c c' 0 /\ (forall e, number c' e = number c e) /\ x <> Panic /\
  match x with
  | Ok d => d = [] /\ concat (sent c') = concat (sent c) ++ wire rs
  | _ => concat (sent c') = concat (sent c) ++ wire rs
  end.
Proof.
  intros Hl. unfold flush. destruct (Z.eqb_spec (zlen (wire rs)) 0) as [Hz|Hz].
  { assert (E : wire rs = []) by (destruct (wire rs) as [|b l]; [done|]; rewrite zlen_cons in Hz; pose proof (zlen_nonneg l); lia). rewrite E. cbn. split_and!; try done; [by apply sent_refl|by rewrite app_nil_r]. }
  unfold mbind, sres_bind. pose proof (write_effect (wire rs) c) as Hw. destruct (transport_Write (wire rs) c) as [x c']. destruct Hw as (Hs & Hq & Hi & Hk & Hkr & Hp & _).
  assert (HA : advances c c' 0) by (split_and!; try done; [by rewrite Hq|]; intros e _; unfold number; rewrite Hq; lia). assert (Hn : forall e, number c' e = number c e) by (intros e; unfold number; by rewrite Hq).
  assert (HC : concat (sent c') = concat (sent c) ++ wire rs) by (rewrite Hs, concat_app; cbn; by rewrite app_nil_r). by destruct x.
Qed.

(** The records of a flight, whatever writes fail: fresh numbers, and what has left is a prefix of them. *)
Lemma transmit_specs_numbers specs rs0 c : Forall spec_ok specs -> room c (zlen specs) ->
  let '(x, c') := transmit_specs specs (wire rs0) c in
  exists rs out rest, rs0 ++ rs = out ++ rest /\ concat (sent c') = concat (sent c) ++ wire out /\ fresh c c' rs /\ advances c c' (zlen specs) /\ Forall (sealed c) rs /\
  match x with Ok d => d = wire rest | Err _ => True | Panic => False end.
Proof.
  intros Hs. revert rs0 c. induction Hs as [|spec specs Hsp Hs IH]; intros rs0 c Hr; cbn [transmit_specs].
  { destruct Hr as [Hl _]. exists [], [], rs0. cbn. rewrite !app_nil_r. split_and!; try done; [apply fresh_nil|by apply sent_refl]. }
  rewrite zlen_cons in *. pose proof (zlen_nonneg specs) as Hz. assert (Hr1 : room c 1) by (destruct Hr as [Hl Hr]; split; [done|]; intros e He; specialize (Hr e He); lia).
  destruct (nextSeq_spec c (s_epoch spec) Hsp Hr1) as (c1 & E1 & HA1 & Hn1 & Hs1 & Hf1). unfold mbind at 1, sres_bind at 1. rewrite E1.
  destruct (protect_spec (s_typ spec) (s_epoch spec) (number c (s_epoch spec)) (s_payload spec) c1) as (x & E2 & Hx). unfold mbind at 1, sres_bind at 1. rewrite E2. pose proof (room_advances c c1 1 (zlen specs) HA1 Hr) as Hr2.
  assert (HW : forall c' m, advances c1 c' m -> 0 <= m <= zlen specs -> advances c c' (1 + zlen specs)).
  { intros c' m HA Hm. pose proof (sent_trans _ _ _ 1 m ltac:(lia) ltac:(lia) HA1 HA) as (G1 & G2 & G3). split; [done|]. split; [|done]. intros e He. specialize (G2 e He). lia. }
  destruct x as [f|e|]; [|exists [], [], rs0; cbn; rewrite !app_nil_r, Hs1; split_and!; try done; [apply fresh_nil|apply (HW c1 0); [apply sent_refl, HA1|lia]]|done].
  cbv zeta. set (r := mkRecord (s_typ spec) versionDTLS12 (s_epoch spec) (number c (s_epoch spec)) f). rewrite marshal_enc. cbn [app].
  assert (Hfr : fresh c c1 [r]) by (split; [apply Forall_singleton; cbn [r epoch seq]; split; [done|lia]|apply NoDup_singleton]).
  assert (Hse : sealed c r). { destruct Hx as [_ Hx]. destruct (Z.ltb_spec 0 (s_epoch spec)) as [Hp|Hp]; [|left; cbn; unfold spec_ok in Hsp; lia]. right. exists (s_payload spec). cbn [r fragment epoch seq typ]. rewrite (Hx Hp). destruct HA1 as (_ & _ & Hi & Hk & _). unfold sealHalf. by rewrite Hi, Hk. }
  assert (HT : forall c2 rs1 out0, advances c1 c2 0 -> (forall e, number c2 e = number c1 e) -> concat (sent c2) = concat (sent c) ++ wire out0 -> rs0 = out0 ++ rs1 ->
    let '(x, c') := transmit_specs specs (wire rs1 ++ enc r) c2 in
    exists rs out rest, rs0 ++ rs = out ++ rest /\ concat (sent c') = concat (sent c) ++ wire out /\ fresh c c' rs /\ advances c c' (1 + zlen specs) /\ Forall (sealed c) rs /\ match x with Ok d => d = wire rest | Err _ => True | Panic => False end).
  { intros c2 rs1 out0 HA2 Hn2 Hc2 Ers. assert (Ew : wire rs1 ++ enc r = wire (rs1 ++ [r])) by (rewrite wire_app; unfold wire at 3; cbn; by rewrite app_nil_r). rewrite Ew.
    assert (Hr3 : room c2 (zlen specs)) by (apply (room_advances c1 c2 0); done). specialize (IH (rs1 ++ [r]) c2 Hr3). destruct (transmit_specs specs (wire (rs1 ++ [r])) c2) as [x c'].
    destruct IH as (rs & out & rest & H1 & H2 & H3 & H4 & H5 & H6). exists (r :: rs), (out0 ++ out), rest. split_and!.
    - rewrite Ers, <-!app_assoc. f_equal. rewrite <-H1, <-app_assoc. done.
    - by rewrite H2, Hc2, wire_app, app_assoc.
    - change (r :: rs) with ([r] ++ rs). pose proof (sent_trans _ _ _ 0 _ ltac:(lia) Hz HA2 H4) as HA3. apply (fresh_app c c1 c' 1 (0 + zlen specs)); [done|done|done|]. destruct H3 as [H3a H3b]. split; [|done]. eapply Forall_impl; [exact H3a|]. cbn beta. intros q [He Hq]. rewrite Hn2 in Hq. done.
    - apply (HW c' (zlen specs)); [|lia]. apply (sent_trans c1 c2 c' 0 (zlen specs)); try done; lia.
    - constructor; [done|]. eapply Forall_impl; [exact H5|]. intros q Hq. apply (sealed_same c c1 1 q HA1), (sealed_same c1 c2 0 q HA2), Hq.
    - done. }
  unfold mbind at 1, sres_bind at 1. destruct (_ <? _).
  - pose proof (flush_effect rs0 c1 ltac:(apply HA1)) as Hfl. destruct (flush (wire rs0) c1) as [[d|e|] c2]; destruct Hfl as (HA2 & Hn2 & Hp2 & Hc2); [| |done].
    + destruct Hc2 as [-> Hc2]. rewrite Hs1 in Hc2. apply (HT c2 [] rs0 HA2 Hn2 Hc2). by rewrite app_nil_r.
    + rewrite Hs1 in Hc2. exists [], rs0, []. rewrite !app_nil_r. split_and!; try done; [apply fresh_nil|apply (HW c2 0 HA2); lia].
  - apply (HT c1 rs0 []); [apply sent_refl, HA1|done|by rewrite Hs1, app_nil_r|done].
Qed.

(** What code that sends at most [n] records does: the bytes handed to the transport are those of records with fresh numbers. *)
Definition sends_fresh {A} (n : Z) (m : sres Conn error A) : Prop := forall c, room c n ->
  let '(x, c') := m c in x <> Panic /\ advances c c' n /\ exists rs, concat (sent c') = concat (sent c) ++ wire rs /\ fresh c c' rs /\ Forall (sealed c) rs.

Lemma transmit_fresh f : Forall spec_ok f -> sends_fresh (zlen f) (transmit f).
Proof.
  intros Hf c Hr. unfold transmit. unfold mbind at 1, sres_bind at 1. pose proof (transmit_specs_numbers f [] c Hf Hr) as H. change (wire []) with (@nil Z) in H. destruct (transmit_specs f [] c) as [x c1]. destruct H as (rs & out & rest & H1 & H2 & H3 & H4 & H5 & H6).
  rewrite app_nil_l in H1. subst rs. destruct x as [d|e|]; [|split_and!; [done|done|exists out; split_and!; [done|by eapply fresh_prefix|by apply Forall_app in H5 as [? _]]]|done]. subst d.
  pose proof (flush_effect rest c1 ltac:(apply H4)) as Hfl. unfold mbind, sres_bind. destruct (flush (wire rest) c1) as [x c2]. destruct Hfl as (HA2 & Hn2 & Hp2 & Hc2).
  assert (HA : advances c c2 (zlen f)) by (rewrite <-(Z.add_0_r (zlen f)); eapply sent_trans; [apply zlen_nonneg|lia|exact H4|exact HA2]).
  assert (HF : fresh c c2 (out ++ rest)) by (destruct H3 as [Ha Hb]; split; [|done]; eapply Forall_impl; [exact Ha|]; cbn beta; intros q [Hq1 Hq2]; split; [done|by rewrite Hn2]).
  assert (HC : concat (sent c2) = concat (sent c) ++ wire (out ++ rest)) by (destruct x as [d|e|]; [destruct Hc2 as [_ Hc2]| |]; rewrite Hc2, H2, wire_app, app_assoc; done).
  destruct x as [d|e|]; [| |done]; (split_and!; [done|done|by exists (out ++ rest)]).
Qed.

Lemma writeRecord_fresh t e p : e = 0 \/ e = 1 -> sends_fresh 1 (writeRecord t e p).
Proof.
  intros He c Hr. destruct (nextSeq_spec c e He Hr) as (c1 & E1 & HA1 & Hn1 & Hs1 & Hf1). unfold writeRecord. unfold mbind at 1, sres_bind at 1. rewrite E1. destruct (protect_spec t e (number c e) p c1) as (x & E2 & Hx). unfold mbind, sres_bind. rewrite E2.
  destruct x as [f|x|]; [|split_and!; [done|done|exists []; rewrite app_nil_r, Hs1; split_and!; [done|apply fresh_nil|constructor]]|done].
  cbv zeta. set (r := mkRecord t versionDTLS12 e (number c e) f). rewrite marshal_enc. cbn [app]. pose proof (write_effect (enc r) c1) as Hw. destruct (transport_Write (enc r) c1) as [x c2]. destruct Hw as (Hs & Hq & Hi & Hk & Hkr & Hp & _).
  assert (Hn : forall e', number c2 e' = number c1 e') by (intros e'; unfold number; by rewrite Hq). destruct HA1 as (L1 & L2 & L3 & L4 & L5).
  split_and!; [done|split_and!; [by rewrite Hq|intros e' He'; rewrite Hn; by apply L2|congruence..]|]. exists [r]. split_and!.
  - rewrite Hs, Hs1, concat_app. unfold wire. cbn. by rewrite !app_nil_r.
  - split; [|apply NoDup_singleton]. apply Forall_singleton. cbn [r epoch seq]. rewrite Hn, Hn1. split; [done|lia].
  - apply Forall_singleton. destruct Hx as [_ Hx]. destruct (Z.ltb_spec 0 e) as [Hpos|Hpos]; [|left; cbn; lia]. right. exists p. cbn [r fragment epoch seq typ]. rewrite (Hx Hpos). unfold sealHalf. by rewrite L3, L4.
Qed.

(** The sending calls of a connection: the flights of the handshake, their retransmission (on a read timeout, or after the handshake when the peer
    repeats its last flight), application data and alerts. *)
Inductive send_op := SendFlight (f : flight) | Resend | SendData (p : bytes) | SendAlert (desc : Z).

Definition send_step (c : Conn) (op : send_op) : res error unit * Conn :=
  match op with
  | SendFlight f => sendFlight f c
  | Resend => retransmit c
  | SendData p => writeRecord recordApplicationData 1 p c
  | SendAlert d => sendAlert d c
  end.

Definition op_ok (n : Z) (op : send_op) : Prop := match op with SendFlight f => Forall spec_ok f /\ zlen f <= n | _ => True end.
Definition flight_ok (n : Z) (c : Conn) : Prop := match lastFlight c with Some f => Forall spec_ok f /\ zlen f <= n | None => True end.

Lemma room_le c n m : m <= n -> room c n -> room c m.
Proof. intros Hm [Hl Hr]. split; [done|]. intros e He. specialize (Hr e He). lia. Qed.

Lemma advances_le c c' n m : n <= m -> advances c c' n -> advances c c' m.
Proof. intros Hm (H1 & H2 & H3). split; [done|]. split; [|done]. intros e He. specialize (H2 e He). lia. Qed.

(** Sending does not change the flight that is kept for retransmission. *)
Definition keeps {A} (m : sres Conn error A) : Prop := forall c, lastFlight (m c).2 = lastFlight c.

Lemma keeps_bind {A B} (m : sres Conn error A) (k : A -> sres Conn error B) : keeps m -> (forall a, keeps (k a)) -> keeps (m ≫= k).
Proof. intros Hm Hk c. specialize (Hm c). unfold mbind, sres_bind. destruct (m c) as [[a|e|] c']; cbn in *; [|done..]. by rewrite Hk. Qed.

Lemma write_keeps d : keeps (transport_Write d).
Proof. intros c. unfold transport_Write. cbn. by destruct (faults c). Qed.
Lemma nextSeq_keeps e : keeps (nextSeq e).
Proof. intros c. unfold nextSeq. by destruct (sendSeq c !! _). Qed.
Lemma protect_keeps t e s p : keeps (protect t e s p).
Proof. intros c. unfold protect. destruct (_ <? _); [|done]. by destruct (negb _). Qed.
Lemma flush_keeps d : keeps (flush d).
Proof. unfold flush. destruct (_ =? _); [done|]. by apply keeps_bind; [apply write_keeps|]. Qed.
Lemma transmit_keeps f : keeps (transmit f).
Proof.
  unfold transmit. apply keeps_bind; [|intros d; by apply keeps_bind; [apply flush_keeps|]]. generalize (@nil Z) as dg. induction f as [|s f IH]; intros dg; cbn [transmit_specs]; [done|].
  apply keeps_bind; [apply nextSeq_keeps|]. intros q. apply keeps_bind; [apply protect_keeps|]. intros x. apply keeps_bind; [|intros d; apply IH]. destruct (_ <? _); [apply flush_keeps|done].
Qed.
Lemma writeRecord_keeps t e p : keeps (writeRecord t e p).
Proof. unfold writeRecord. apply keeps_bind; [apply nextSeq_keeps|]. intros q. apply keeps_bind; [apply protect_keeps|]. intros x. apply write_keeps. Qed.

Lemma send_step_fresh n op c : 1 <= n -> op_ok n op -> flight_ok n c -> room c n ->
  let '(x, c') := send_step c op in x <> Panic /\ flight_ok n c' /\ advances c c' n /\ exists rs, concat (sent c') = concat (sent c) ++ wire rs /\ fresh c c' rs /\ Forall (sealed c) rs.
Proof.
  intros Hn Ho Hf Hr. destruct op as [f| |p|d]; cbn [send_step op_ok] in *.
  - unfold sendFlight. set (c0 := c <| lastFlight := Some f |> <| curRetrans := _ |>). destruct Ho as [Hs Hz]. pose proof (transmit_fresh f Hs c0 (room_le c n _ Hz Hr)) as H. pose proof (transmit_keeps f c0) as Hk. destruct (transmit f c0) as [x c']. destruct H as (H1 & H2 & H3).
    split_and!; [done|unfold flight_ok; cbn [snd] in Hk; by rewrite Hk|by eapply (advances_le c), H2|done].
  - unfold retransmit. unfold flight_ok in Hf. destruct (lastFlight c) as [f|] eqn:El.
    + destruct Hf as [Hs Hz]. pose proof (transmit_fresh f Hs c (room_le c n _ Hz Hr)) as H. pose proof (transmit_keeps f c) as Hk. destruct (transmit f c) as [x c']. destruct H as (H1 & H2 & H3). split_and!; [done|unfold flight_ok; cbn [snd] in Hk; by rewrite Hk, El|by eapply (advances_le c), H2|done].
    + split_and!; [done|unfold flight_ok; by rewrite El|eapply (advances_le c c 0); [lia|apply sent_refl, Hr]|exists []; rewrite app_nil_r; split_and!; [done|apply fresh_nil|constructor]].
  - pose proof (writeRecord_fresh recordApplicationData 1 p ltac:(by right) c (room_le c n 1 Hn Hr)) as H. pose proof (writeRecord_keeps recordApplicationData 1 p c) as Hk. destruct (writeRecord _ 1 p c) as [x c']. destruct H as (H1 & H2 & H3). split_and!; [done|unfold flight_ok; cbn [snd] in Hk; by rewrite Hk|by eapply (advances_le c), H2|done].
  - unfold sendAlert. pose proof (writeRecord_fresh recordAlert 0 [alertFatal; d] ltac:(by left) c (room_le c n 1 Hn Hr)) as H. pose proof (writeRecord_keeps recordAlert 0 [alertFatal; d] c) as Hk. destruct (writeRecord recordAlert 0 _ c) as [x c']. destruct H as (H1 & H2 & H3).
    destruct x as [u|x|]; [| |done]; (split_and!; [done|unfold flight_ok; cbn [snd] in Hk; by rewrite Hk|by eapply (advances_le c), H2|done]).
Qed.

Definition send_all (ops : list send_op) (c : Conn) : Conn := fold_left (fun c op => (send_step c op).2) ops c.

(** The nonce AES-GCM gets for a record. *)
Definition record_nonce (salt : bytes) (r : record) : bytes := salt ++ be_bytes 8 (seqAndEpoch (epoch r) (seq r)).

Lemma fresh_nonces salt c c' rs : (forall e, e = 0 \/ e = 1 -> 0 <= number c e /\ number c' e <= 2 ^ 48) -> fresh c c' rs -> NoDup (record_nonce salt <$> rs).
Proof.
  intros Hn [Hf Hd]. revert Hd. induction Hf as [|r rs [He Hr] Hf IH]; cbn [fmap list_fmap]; [constructor|]. intros [Hi Hd]%NoDup_cons. apply NoDup_cons. split; [|by apply IH]. intros Hin. apply list_elem_of_fmap in Hin as (q & E & Hq).
  rewrite Forall_forall in Hf. destruct (Hf _ Hq) as [He' Hr']. pose proof (Hn _ He). pose proof (Hn _ He'). unfold record_nonce in E. apply app_inv_head in E.
  assert (HU : forall x y, (x = 0 \/ x = 1) -> 0 <= y < 2 ^ 48 -> 0 <= seqAndEpoch x y < 256 ^ Z.of_nat 8) by (intros x y Hx Hy; rewrite seqAndEpoch_add by (unfold in_u16; lia); change (256 ^ Z.of_nat 8) with (2 ^ 64); lia).
  assert (E2 : seqAndEpoch (epoch r) (seq r) = seqAndEpoch (epoch q) (seq q)).
  { rewrite <-(be_be_bytes 8 (seqAndEpoch (epoch r) (seq r))), <-(be_be_bytes 8 (seqAndEpoch (epoch q) (seq q))) by (apply HU; [done|lia]). by rewrite E. }
  apply seqAndEpoch_inj in E2 as [E3 E4]; [|unfold in_u16; lia|lia|unfold in_u16; lia|lia]. apply Hi. apply list_elem_of_fmap. exists q. by rewrite E3, E4.
Qed.

Lemma send_all_fresh n ops c : 1 <= n -> Forall (op_ok n) ops -> flight_ok n c -> room c (n * zlen ops) ->
  advances c (send_all ops c) (n * zlen ops) /\ exists rs, concat (sent (send_all ops c)) = concat (sent c) ++ wire rs /\ fresh c (send_all ops c) rs /\ Forall (sealed c) rs.
Proof.
  intros Hn Ho. revert c. induction Ho as [|op ops Hop Ho IH]; intros c Hf Hr; cbn [send_all fold_left].
  { change (zlen []) with 0. rewrite Z.mul_0_r. split; [apply sent_refl, Hr|]. exists []. rewrite app_nil_r. split_and!; [done|apply fresh_nil|constructor]. }
  rewrite zlen_cons in *. pose proof (zlen_nonneg ops) as Hz. pose proof (send_step_fresh n op c Hn Hop Hf ltac:(eapply room_le; [|exact Hr]; nia)) as Hs. destruct (send_step c op) as [x c1]. destruct Hs as (_ & Hf1 & HA1 & rs1 & E1 & F1 & S1). cbn [snd].
  destruct (IH c1 Hf1) as (HA2 & rs2 & E2 & F2 & S2); [apply (room_advances c c1 n); [done|]; eapply room_le; [|exact Hr]; lia|]. unfold send_all in *. split; [eapply advances_le; [|apply (sent_trans c c1 _ n (n * zlen ops) ltac:(lia) ltac:(nia) HA1 HA2)]; lia|].
  exists (rs1 ++ rs2). split_and!; [by rewrite E2, E1, wire_app, app_assoc|by eapply (fresh_app c c1)|]. apply Forall_app. split; [done|]. eapply Forall_impl; [exact S2|]. intros q Hq. by eapply (sealed_same c c1).
Qed.

(** C36: A record number is never used twice.  Over any sequence of flights, retransmissions, application data and alerts, with any of the
    transport's writes failing, the bytes that leave are records whose AES-GCM nonces are pairwise different, and every encrypted one is sealed
    under its own number, as long as each epoch stays below 2^48 records. *)
Theorem dtls_nonces_unique n salt ops c : 1 <= n -> Forall (op_ok n) ops -> flight_ok n c -> room c (n * zlen ops) ->
  exists rs, concat (sent (send_all ops c)) = concat (sent c) ++ wire rs /\ NoDup (record_nonce salt <$> rs) /\
  Forall (fun r => epoch r = 0 \/ exists p, fragment r = seal (sealHalf c) (epoch r) (seq r) (typ r) versionDTLS12 p) rs.
Proof.
  intros Hn Ho Hf Hr. destruct (send_all_fresh n ops c Hn Ho Hf Hr) as (HA & rs & E & F & S). exists rs. split_and!; [done| |done]. apply (fresh_nonces salt c (send_all ops c)); [|done]. intros e He. destruct HA as (_ & HA & _). destruct Hr as [_ Hr]. specialize (HA e He). specialize (Hr e He). lia.
Qed.

(** Arbitrary datagrams do not panic.  Whatever arrives, during the handshake or after it, in whatever order with timeouts and read errors, reading
    a handshake message or application data returns, and the reassembler holds at most eight messages of at most 64 KiB each. *)
Theorem dtls_never_panics {CL : CryptoLaws C} size evs c : conn_ok c -> Forall event_ok evs ->
  let '(x, c1, _) := readHandshakeMessage evs c in let '(y, c2, _) := read_loop size evs c in
  x <> Panic /\ y <> Panic /\
  Z.of_nat (base.size (pending (reasm c1))) <= maxPendingMessages /\ map_Forall (fun _ p => zlen (p_body p) <= maxHandshakeBody) (pending (reasm c1)).
Proof.
  intros Hc He. pose proof (readHandshakeMessage_safe evs c He Hc) as H1. pose proof (read_loop_safe size evs c He Hc) as H2. destruct (readHandshakeMessage evs c) as [[x c1] l1]. destruct (read_loop size evs c) as [[y c2] l2]. destruct H1 as [Hc1 Hx], H2 as [Hc2 Hy].
  split_and!; [by intros ->|by intros ->|apply pending_bound, Hc1|]. intros k p Hk. destruct (ro_pending _ (co_reasm _ Hc1) k p Hk) as (_ & _ & [Hm Hb _ _]). lia.
Qed.

(** A record header whose length field is [len] *)
Definition header_declaring (hdr : bytes) (len : Z) : bytes := hdr ++ be_bytes 2 len.

(** Defect: unauthenticated bytes end an established connection.  Whatever the keys, the next Read after an alert record of any epoch and content
    (not only an authentic close_notify or fatal alert) returns end of file, and after a header that declares more than 2^14 bytes
    returns an error; the caller stops reading for good. *)
Theorem dtls_forged_close h size evs c r hdr len : handshakeDone c = true -> appData c = [] -> record_ok r -> typ r = recordAlert ->
  is_bytes hdr -> zlen hdr = 11 -> maxRecordPayload < len < 65536 ->
  Read h size (Datagram (enc r) :: evs) c = (Err errEOF, c, evs) /\
  Read h size (Datagram (header_declaring hdr len) :: evs) c = (Err (errRecordLength len), c, evs).
Proof.
  unfold header_declaring.
  intros Hd Ha Hr Ht Hb Hh Hl. unfold Read. rewrite Hd. cbn [negb read_loop]. rewrite Ha. unfold readAppRecords. split.
  - assert (E : enc r = wire [r]) by (unfold wire; cbn; by rewrite app_nil_r). rewrite E, split_wire by (by constructor). cbn [app_records]. by rewrite Ht.
  - unfold splitRecords. assert (Hz : zlen (hdr ++ be_bytes 2 len) = 13) by (zlens; lia). destruct (length (hdr ++ be_bytes 2 len)) as [|k] eqn:Ek; [unfold zlen in Hz; lia|]. cbn [split_records]. rewrite Hz. cbn [Z.ltb Z.compare negb].
    unfold parseRecord. rewrite Hz. unfold recordHeaderLen. rewrite Z.ltb_irrefl. rewrite (at_u16 _ 11 len) by ((apply at_skip; apply at_end; lia) || (unfold in_u16, maxRecordPayload in *; change (Z.shiftl 1 14) with 16384 in *; lia) || done).
    cbn [mbind res_bind]. by rewrite (proj2 (Z.ltb_lt _ _)) by lia.
Qed.

(** ** Application data *)

Section application.
Context {CL : CryptoLaws C} (h : sres Conn error unit).

(** The record of a payload. *)
Definition app_record (k : halfConn) (s : Z) (p : bytes) : record := mkRecord recordApplicationData versionDTLS12 1 s (seal k 1 s recordApplicationData versionDTLS12 p).

Definition write_all (ps : list bytes) (c : Conn) : Conn := fold_left (fun c p => (Write h p c).2) ps c.

(** A connection whose handshake is over. *)
Record established (c : Conn) : Prop := {
  es_done : handshakeDone c = true;
  es_keys : keysReady c = true;
  es_epoch : sendEpoch c = 1;
  es_half : half_ok (clientWrite (keys c)) /\ half_ok (serverWrite (keys c));
  es_faults : faults c = [] }.

Lemma Write_spec p c : established c -> room c 1 -> let '(x, c') := Write h p c in
  x = Ok (zlen p) /\ established c' /\ advances c c' 1 /\ number c' 1 = number c 1 + 1 /\ sent c' = sent c ++ [enc (app_record (sealHalf c) (number c 1) p)].
Proof.
  intros [Hd Hk He Hh Hf] Hr. unfold Write. rewrite Hd. cbn [negb]. unfold mbind, sres_bind, mret, sres_ret. rewrite He. unfold writeRecord. unfold mbind, sres_bind. destruct (nextSeq_spec c 1 ltac:(by right) Hr) as (c1 & E1 & HA1 & Hn1 & Hs1 & Hf1).
  assert (HE1 : handshakeDone c1 = handshakeDone c /\ sendEpoch c1 = sendEpoch c). { revert E1. unfold nextSeq. destruct (sendSeq c !! _); [|done]. intros [= _ <-]. done. }
  rewrite E1. unfold protect. cbn [Z.ltb Z.compare]. destruct HA1 as (L1 & L2 & L3 & L4 & L5). rewrite L5, Hk. cbn [negb]. set (r := mkRecord _ _ _ _ _). rewrite marshal_enc. cbn [app].
  assert (Er : r = app_record (sealHalf c) (number c 1) p) by (unfold r, app_record, sealHalf; by rewrite L3, L4). rewrite Er. clearbody r. unfold transport_Write. set (c2 := c1 <| sent ::= _ |>). assert (Hf2 : faults c2 = []) by (by transitivity (faults c1); [|rewrite Hf1]). rewrite Hf2.
  destruct HE1 as [G1 G2]. split_and!; [done| |split_and!; try done|exact Hn1|].
  - split; [change (handshakeDone c1 = true); congruence|change (keysReady c1 = true); congruence|change (sendEpoch c1 = 1); congruence| |done]. change (keys c2) with (keys c1). by rewrite L4.
  - change (sent c2) with (sent c1 ++ [enc (app_record (sealHalf c) (number c 1) p)]). by rewrite Hs1.
Qed.

Lemma write_all_spec ps c : established c -> room c (zlen ps) -> sent (write_all ps c) = sent c ++ imap (fun i p => enc (app_record (sealHalf c) (number c 1 + Z.of_nat i) p)) ps.
Proof.
  revert c. induction ps as [|p ps IH]; intros c He Hr; cbn [write_all fold_left imap]; [by rewrite app_nil_r|]. rewrite zlen_cons in Hr. pose proof (zlen_nonneg ps). pose proof (Write_spec p c He (room_le c (1 + zlen ps) 1 ltac:(lia) Hr)) as Hw. destruct (Write h p c) as [x c1]. destruct Hw as (_ & He1 & HA & Hn1 & Hs1). cbn [snd].
  unfold write_all in IH. rewrite IH, Hs1 by (done || by apply (room_advances c c1 1)). rewrite <-app_assoc. f_equal. cbn [app]. rewrite Z.add_0_r. f_equal. apply imap_ext. intros i q _. cbn. rewrite Hn1. assert (Es : sealHalf c1 = sealHalf c) by (destruct HA as (_ & _ & H3 & H4 & _); unfold sealHalf; by rewrite H3, H4). rewrite Es. replace (number c 1 + 1 + Z.of_nat i) with (number c 1 + Z.of_nat (S i)) by lia. done.
Qed.

Fixpoint reads (n : nat) (size : Z) (evs : list read_event) (c : Conn) : list bytes :=
  match n with
  | O => []
  | S n => match Read h size evs c with (Ok (Some d), c, evs) => d :: reads n size evs c | _ => [] end
  end.

(** One datagram of application data: its payload is queued exactly when the replay window admits its number. *)
Lemma readAppRecords_app k s p w c : established c -> openHalf c = k -> half_ok k -> is_bytes p -> zlen p + overhead k <= maxRecordPayload -> 0 <= s < 2 ^ 48 -> replay c !! 1%nat = Some w -> exists c',
  readAppRecords (Datagram (enc (app_record k s p))) c = (Ok tt, c') /\ established c' /\ openHalf c' = openHalf c /\
  if Replay.check s w then appData c' = appData c ++ [p] /\ replay c' !! 1%nat = Some (Replay.mark s w) else c' = c.
Proof.
  intros He Ho Hk Hp Hl Hs Hw. assert (Hr : record_ok (app_record k s p)) by (unfold record_ok, in_u8, in_u16; cbn [typ version epoch seq fragment app_record versionDTLS12 fst snd]; rewrite zlen_seal by done; unfold recordApplicationData; split_and!; lia). assert (E : enc (app_record k s p) = wire [app_record k s p]) by (unfold wire; cbn; by rewrite app_nil_r).
  unfold readAppRecords. rewrite E, split_wire by (by constructor). cbn [app_records typ app_record Z.eqb]. change (recordApplicationData =? recordApplicationData) with true. cbv iota. unfold mbind, sres_bind, decryptRecord.
  cbn [epoch seq app_record]. change (1 =? 0) with false. rewrite (es_keys _ He). cbn [negb orb]. change (Z.to_nat (Z.land 1 1)) with 1%nat. rewrite Hw. destruct (Replay.check s w) eqn:Ec; cbn [negb]; [|by exists c].
  rewrite Ho. unfold app_record at 1. rewrite open_seal by done. unfold modify, mret, sres_ret. eexists. split; [reflexivity|]. destruct He. split_and!; try done. cbn. rewrite list_lookup_insert_eq; [done|]. by apply lookup_lt_Some in Hw.
Qed.

Lemma reads_app size k (payload : Z -> bytes) ss n c w : Forall (fun s => 0 <= s < 2 ^ 48 /\ is_bytes (payload s) /\ zlen (payload s) + overhead k <= maxRecordPayload) ss -> maxRecordPayload <= size ->
  established c -> openHalf c = k -> half_ok k -> appData c = [] -> replay c !! 1%nat = Some w ->
  reads n size ((fun s => Datagram (enc (app_record k s (payload s)))) <$> ss) c = take n (payload <$> (accept_all ss w).1).
Proof.
  intros Hss Hsz. revert n c w. induction Hss as [|s ss (Hs & Hp & Hl) Hss IH]; intros n c w He Ho Hk Ha Hw.
  { destruct n; [done|]. cbn [fmap list_fmap reads]. unfold Read. rewrite (es_done _ He). cbn [negb read_loop]. by rewrite Ha. }
  destruct n as [|n]; [done|]. cbn [fmap list_fmap accept_all]. unfold Replay.accept. destruct (readAppRecords_app k s (payload s) w c He Ho Hk Hp Hl Hs Hw) as (c1 & E1 & He1 & Ho1 & Hc1).
  cbn [reads]. unfold Read at 1. rewrite (es_done _ He). cbn [negb read_loop]. rewrite Ha, E1. destruct (Replay.check s w) eqn:Ec.
  - destruct Hc1 as [Ha1 Hw1]. rewrite Ha in Ha1. cbn [app] in Ha1. assert (Ht : take (Z.to_nat size) (payload s) = payload s).
    { apply take_ge. assert (0 <= overhead k) by (destruct k as [|? hh m]; cbn in *; [done|]; subst m; destruct hh; cbn; lia). unfold zlen in *. lia. }
    set (c2 := c1 <| appData := [] |>). specialize (IH n c2 (mark s w)). destruct (accept_all ss (mark s w)) as [acc w']. cbn [fst snd fmap list_fmap take].
    assert (HR : read_loop size ((fun s0 => Datagram (enc (app_record k s0 (payload s0)))) <$> ss) c1 = (Ok (Some (payload s)), c2, (fun s0 => Datagram (enc (app_record k s0 (payload s0)))) <$> ss)) by (destruct ss; cbn [fmap list_fmap read_loop]; rewrite Ha1, Ht; done).
    rewrite HR. f_equal. apply IH; [by destruct He1|by rewrite <-Ho, <-Ho1|done|done|done].
  - subst c1. specialize (IH (S n) c w He Ho Hk Ha Hw). destruct (accept_all ss w) as [acc w']. rewrite <-IH. cbn [reads]. unfold Read. by rewrite (es_done _ He).
Qed.

Lemma accept_all_sub ss w : sublist (accept_all ss w).1 ss.
Proof. revert w. induction ss as [|s ss IH]; intros w; cbn [accept_all]; [done|]. unfold Replay.accept. destruct (Replay.check s w); [specialize (IH (mark s w)); destruct (accept_all ss (mark s w))|specialize (IH w); destruct (accept_all ss w)]; by constructor. Qed.

Lemma accept_all_ascending ss w : (seen w = false \/ Forall (fun s => right w < s) ss) -> StronglySorted Z.lt ss -> (accept_all ss w).1 = ss.
Proof.
  intros Hw Hs. revert w Hw. induction Hs as [|s ss Hs IH Hlt]; intros w Hw; [done|]. cbn [accept_all]. unfold Replay.accept. assert (Hc : Replay.check s w = true).
  { unfold Replay.check. destruct Hw as [-> |Hw]; [done|]. apply Forall_inv in Hw. rewrite (proj2 (Z.ltb_lt _ _) Hw). by rewrite orb_true_r. }
  rewrite Hc. assert (Hm : right (mark s w) = s \/ seen (mark s w) = false).
  { unfold mark. destruct (seen w) eqn:Es; cbn [negb]; [|by left]. destruct Hw as [? |Hw]; [done|]. apply Forall_inv in Hw. rewrite (proj2 (Z.ltb_lt _ _) Hw). by left. }
  specialize (IH (mark s w)). destruct (accept_all ss (mark s w)) as [acc w']. cbn in *. f_equal. apply IH. destruct Hm as [Hm|Hm]; [right; rewrite Hm; done|by left].
Qed.

(** C37: Application data arrives unmodified and at most once.  Both ends are established, with the same keys and opposite roles; the writer has record numbers left; the reader's replay window is fresh
    and nothing is buffered.  One end writes payloads that with the cipher's overhead take at most 2^14 bytes (a longer one is refused by the reader, [full_record_refused]); the other reads, into a
    buffer of at least 2^14 bytes, the datagrams that the network delivers, in any order and any number of times (indices [js]): its reads return the payloads of a subsequence of the arrivals without
    repetition, each exactly as written, and of all arrivals when they come in order. *)
Theorem dtls_app_data cw cr ps js size n : established cw -> established cr -> isClient cr = negb (isClient cw) -> keys cr = keys cw ->
  room cw (zlen ps) -> appData cr = [] -> replay cr !! 1%nat = Some replay_zero ->
  Forall (fun p => is_bytes p /\ zlen p + overhead (sealHalf cw) <= maxRecordPayload) ps -> maxRecordPayload <= size -> Forall (fun j => (j < length ps)%nat) js ->
  let ds := drop (length (sent cw)) (sent (write_all ps cw)) in
  exists acc, sublist acc js /\ NoDup acc /\ (StronglySorted lt js -> acc = js) /\
  reads n size (Datagram <$> omap (fun j => ds !! j) js) cr = take n (omap (fun j => ps !! j) acc).
Proof.
  intros Hew Her Hi Hk Hr Ha Hw Hps Hsz Hjs ds. set (s0 := number cw 1). set (k := sealHalf cw). assert (Hok : half_ok k) by (destruct Hew as [_ _ _ [? ?] _]; unfold k, sealHalf; by destruct (isClient cw)).
  assert (Hop : openHalf cr = k) by (unfold openHalf, k, sealHalf; rewrite Hi, Hk; by destruct (isClient cw)). destruct Hr as [Hl2 Hr]. pose proof (Hr 1 ltac:(by right)) as [H0 H1]. fold s0 in H0, H1.
  set (payload := fun s => default [] (ps !! Z.to_nat (s - s0))). set (num := fun j : nat => s0 + Z.of_nat j). assert (Hback : forall j, Z.to_nat (num j - s0) = j) by (intros j; unfold num; lia).
  assert (Hds : ds = imap (fun i p => enc (app_record k (s0 + Z.of_nat i) p)) ps) by (unfold ds; rewrite write_all_spec by (done || by split); by rewrite drop_app_length).
  assert (Hev : Datagram <$> omap (fun j => ds !! j) js = (fun s => Datagram (enc (app_record k s (payload s)))) <$> (num <$> js)).
  { rewrite Hds. clear -Hjs Hback. induction Hjs as [|j js Hj Hjs IH]; [done|]. cbn [omap list_omap fmap list_fmap]. rewrite list_lookup_imap. destruct (lookup_lt_is_Some_2 ps j Hj) as [p Hp]. rewrite Hp. cbn [fmap option_fmap option_map]. cbn [fmap list_fmap]. f_equal; [|exact IH]. unfold payload. by rewrite Hback, Hp. }
  assert (Hnum : Forall (fun s => 0 <= s < 2 ^ 48 /\ is_bytes (payload s) /\ zlen (payload s) + overhead k <= maxRecordPayload) (num <$> js)).
  { apply Forall_fmap. eapply Forall_impl; [exact Hjs|]. cbn beta. intros j Hj. cbn [compose]. unfold payload. rewrite Hback. destruct (lookup_lt_is_Some_2 ps j Hj) as [p Hp]. rewrite Hp. rewrite Forall_lookup in Hps. destruct (Hps j p Hp). unfold zlen in H1. unfold num. split; [lia|done]. }
  rewrite Hev. rewrite (reads_app size k payload _ n cr replay_zero) by done. pose proof (accept_all_spec (num <$> js) [] replay_zero replay_zero_inv NoDup_nil_2) as HN. pose proof (accept_all_sub (num <$> js) replay_zero) as HS. pose proof (accept_all_ascending (num <$> js) replay_zero ltac:(by left)) as HO.
  destruct (accept_all (num <$> js) replay_zero) as [out w']. cbn [fst] in *.
  assert (Hinv : exists acc, out = num <$> acc /\ sublist acc js). { clear -HS. revert out HS. induction js as [|j js IH]; intros out HS; [apply sublist_nil_r in HS as ->; by exists []|]. cbn in HS. apply sublist_cons_r in HS as [HS|(l & -> & HS)]; destruct (IH _ HS) as (acc & -> & Hs); [exists acc|exists (j :: acc)]; (split; [done|by constructor]). }
  destruct Hinv as (acc & -> & Hsub). exists acc. split_and!; [done| | |].
  - destruct HN as [_ HN]; [eapply Forall_impl; [exact Hnum|]; cbn beta; intros s Hs; unfold in_u64; lia|]. rewrite app_nil_r in HN. rewrite <-Permutation_rev in HN. by eapply NoDup_fmap_1.
  - intros Hsort. assert (Ho : StronglySorted Z.lt (num <$> js)). { clear -Hsort. induction Hsort as [|j js Hs IH Hlt]; [constructor|]. cbn. constructor; [done|]. apply Forall_fmap. eapply Forall_impl; [exact Hlt|]. intros i Hij. unfold num. cbn. lia. }
    specialize (HO Ho). apply (f_equal (fmap (fun s => Z.to_nat (s - s0)))) in HO. rewrite <-!list_fmap_compose in HO. clear -HO Hback. revert HO. assert (E : forall l, ((fun s => Z.to_nat (s - s0)) ∘ num) <$> l = l) by (intros l; rewrite <-(list_fmap_id l) at 2; apply list_fmap_ext; intros ? x _; apply Hback). by rewrite !E.
  - f_equal. assert (Hacc : Forall (fun j => (j < length ps)%nat) acc) by (rewrite Forall_forall in Hjs |- *; intros x Hx; apply Hjs; by eapply elem_of_sublist). clear -Hacc Hback. induction Hacc as [|j acc Hj Hacc IH]; [done|]. cbn [omap list_omap fmap list_fmap]. destruct (lookup_lt_is_Some_2 ps j Hj) as [p Hp]. rewrite Hp. f_equal; [|exact IH]. unfold payload. by rewrite Hback, Hp.
Qed.
End application.
End transport.

(** The length limit of inbound records leaves no room for the protection of a full plaintext: what [seal] makes of 2^14 bytes is refused. *)
Lemma full_record_refused {C : Crypto} {CL : CryptoLaws C} k s p rest : half_ok k -> 0 < overhead k < 1000 -> zlen p = 2 ^ 14 ->
  parseRecord (enc (app_record k s p) ++ rest) = Err (errRecordLength (2 ^ 14 + overhead k)).
Proof.
  intros Hk Ho Hp. set (r := app_record k s p). assert (Hz : zlen (fragment r) = 16384 + overhead k) by (cbn [fragment r app_record]; rewrite zlen_seal by done; lia). unfold parseRecord. rewrite zlen_app, zlen_record_enc. pose proof (zlen_nonneg rest). unfold recordHeaderLen. rewrite (proj2 (Z.ltb_ge _ 13)) by lia.
  assert (Hu : u16 (zlen (fragment r)) = zlen (fragment r)) by (apply (uwrap_id 16); lia).
  assert (HA : enc r ++ rest = [typ r] ++ [(version r).1; (version r).2] ++ be_bytes 2 (epoch r) ++ be_bytes 6 (seq r) ++ be_bytes 2 (zlen (fragment r)) ++ fragment r ++ rest) by (unfold enc; rewrite Hu, <-!app_assoc; done). rewrite HA.
  rewrite (at_u16 _ 11 (zlen (fragment r))) by (at_solve || (unfold in_u16; lia) || done). cbn [mbind res_bind]. rewrite Hz. unfold maxRecordPayload. change (Z.shiftl 1 14) with 16384. rewrite (proj2 (Z.ltb_lt _ _)) by lia. done.
Qed.

(** A message is labelled with the epoch of the first fragment seen for it: an empty plaintext fragment that arrives before the encrypted message
    makes it look unprotected, although all of its bytes came under epoch 1. *)
Example epoch_of_first_fragment :
  let f e b := mkFragment 20 12 0 0 b e in
  let r := (accept (f 1 (replicate 12 9)) (accept (f 0 []) newReassembler).2).2 in
  (nextMessage r).1 = Some (mkMessage 20 0 (replicate 12 9) 0).
Proof. vm_compute. reflexivity. Qed.

(** ** Concrete runs *)

Definition demo_key (n : Z) : halfConn := gcmHalfConn (replicate 16 n) (replicate 4 n).
(** Two ends whose handshake is over. *)
Definition demo_end (client : bool) (faults : list bool) : Conn :=
  mkConn client second 1 [3; 7] 1 [replay_zero; replay_zero] (mkKeys (demo_key 1) (demo_key 2)) true true [] [] [] newReassembler true None second 0 0 [] faults.

Definition demo_ops : list send_op := [SendFlight [mkSpec recordChangeCipherSpec 0 [1]; mkSpec recordHandshake 1 [20; 0; 0; 0]]; Resend; SendData [9; 9]; SendAlert 40; Resend].

Lemma dtls_nonces_unique_witness :
  exists rs, concat (sent (send_all (C:=demo_crypto) demo_ops (demo_end true [false; true]))) = wire rs /\ NoDup (record_nonce (replicate 4 1) <$> rs) /\ 100 < zlen (wire rs).
Proof.
  destruct (dtls_nonces_unique (C:=demo_crypto) 2 (replicate 4 1) demo_ops (demo_end true [false; true])) as (rs & E & Hn & _).
  - done.
  - repeat constructor; (done || by left || by right).
  - done.
  - split; [done|]. intros e [-> | ->]; vm_compute; split; discriminate.
  - change (concat (sent (demo_end true [false; true])) ++ wire rs) with (wire rs) in E. exists rs. split; [exact E|]. split; [exact Hn|]. rewrite <-E. vm_compute. reflexivity.
Defined.

Lemma demo_end_ok client fs : conn_ok (demo_end client fs).
Proof. split; try done; apply newReassembler_ok. Qed.

(** Junk, a truncated header, a fragment that claims 64 KiB, and a timeout. *)
Definition demo_junk : list read_event :=
  [Datagram [1; 2; 3]; Datagram (enc (mkRecord recordHandshake versionDTLS12 0 5 (appendHandshakeFragment [] 1 0 65536 10 [7; 7]))); Timeout false; Datagram (enc (mkRecord recordApplicationData versionDTLS12 1 9 (replicate 30 0)))].

Lemma dtls_never_panics_witness :
  let '(x, c1, _) := readHandshakeMessage (C:=demo_crypto) demo_junk (demo_end false []) in x <> Panic /\ Z.of_nat (base.size (pending (reasm c1))) <= maxPendingMessages.
Proof.
  pose proof (dtls_never_panics (C:=demo_crypto) (CL:=demo_laws) 100 demo_junk (demo_end false []) (demo_end_ok false [])) as H.
  destruct (readHandshakeMessage (C:=demo_crypto) demo_junk (demo_end false [])) as [[x c1] l1]. destruct (read_loop (C:=demo_crypto) 100 demo_junk (demo_end false [])) as [[y c2] l2]. destruct H as (H1 & _ & H2 & _); [|by split].
  assert (Hb : forallb (fun ev => match ev with Datagram d => forallb (fun x => (0 <=? x) && (x <? 256)) d | _ => true end) demo_junk = true) by (vm_compute; reflexivity). apply Forall_forall. intros ev Hev. rewrite forallb_forall in Hb. apply list_elem_of_In in Hev. specialize (Hb ev Hev). destruct ev as [d| |]; [|done..].
  apply Forall_forall. intros z Hz. rewrite forallb_forall in Hb. apply list_elem_of_In in Hz. specialize (Hb z Hz). unfold in_u8. lia.
Defined.

(** Thirteen forged bytes. *)
Lemma dtls_forged_close_witness :
  Read (C:=demo_crypto) (mret tt) 2000 [Datagram [21; 254; 253; 0; 0; 0; 0; 0; 0; 0; 0; 0; 0]] (demo_end false []) = (Err errEOF, demo_end false [], []).
Proof.
  destruct (dtls_forged_close (C:=demo_crypto) (mret tt) 2000 [] (demo_end false []) (mkRecord recordAlert versionDTLS12 0 0 []) (replicate 11 0) 20000) as [H _]; [done|done|by vm_compute|done|repeat constructor; done|done|by vm_compute|exact H].
Defined.

(** Three payloads; the second arrives first, then the first twice, then the third. *)
Lemma dtls_app_data_witness :
  let ps := [[1; 2; 3]; [4]; [5; 6]] in let ds := sent (write_all (C:=demo_crypto) (mret tt) ps (demo_end true [])) in
  exists acc, NoDup acc /\ reads (C:=demo_crypto) (mret tt) 5 65536 (Datagram <$> omap (fun j => ds !! j) [1; 0; 0; 2]%nat) (demo_end false []) = take 5 (omap (fun j => ps !! j) acc) /\ (length acc <= 4)%nat.
Proof.
  destruct (dtls_app_data (C:=demo_crypto) (CL:=demo_laws) (mret tt) (demo_end true []) (demo_end false []) [[1; 2; 3]; [4]; [5; 6]] [1; 0; 0; 2]%nat 65536 5) as (acc & Hs & Hn & _ & Hr).
  - split; [reflexivity..|split; reflexivity|reflexivity].
  - split; [reflexivity..|split; reflexivity|reflexivity].
  - reflexivity.
  - reflexivity.
  - split; [reflexivity|]. intros e [-> | ->]; vm_compute; split; discriminate.
  - reflexivity.
  - reflexivity.
  - repeat (constructor; [split; [repeat constructor; discriminate|by vm_compute]|]). constructor.
  - by vm_compute.
  - repeat (constructor; [cbn; lia|]). constructor.
  - exists acc. split; [exact Hn|]. split; [exact Hr|]. apply sublist_length in Hs. exact Hs.
Defined.

Example demo_app_order : reads (C:=demo_crypto) (mret tt) 5 65536 (Datagram <$> omap (fun j => sent (write_all (C:=demo_crypto) (mret tt) [[1; 2; 3]; [4]; [5; 6]] (demo_end true [])) !! j) [1; 0; 0; 2]%nat) (demo_end false []) = [[4]; [1; 2; 3]; [5; 6]].
Proof. vm_compute. reflexivity. Qed.
End dtlstransport.
