(* ===== verification/DtlsFlight.v ===== *)
(** * DTLS handshake flights over a lossy network

    Handshake messages sent in the clear (epoch 0: the hellos, the certificates, the key exchanges) are cut into fragments, packed into datagrams and retransmitted;
    the peer reads whatever copies of these datagrams the network delivers.  It gets the messages complete, in order and unmodified, and gets all of them once
    every fragment has arrived in some copy.  The end of the last two flights, a ChangeCipherSpec record and a Finished message encrypted at epoch 1, is not part of
    the statement: a Finished that arrives before the receiver has its keys is dropped and waits for a retransmission. *)

From stdpp Require Import gmap.
From S2P Require Import Prelude Bytes Replay DtlsRecord DtlsHandshake DtlsConn DtlsTransport.

Module dtlsflight.
Import dtls handshake_layer dtlsconn dtlstransport.

Section flights.
Context {C : Crypto}.

(** ** Sending a plaintext flight *)

Definition plain_spec (s : recordSpec) : Prop := s_typ s = recordHandshake /\ s_epoch s = 0 /\ zlen (s_payload s) <= maxDatagram - recordHeaderLen.

Definition plain_record (r : record) : Prop := record_ok r /\ typ r = recordHandshake /\ epoch r = 0.

(** A transmission without write errors: datagrams of at most 1200 bytes that carry the payloads, all of them and in order. *)
Lemma transmit_specs_plain specs rs0 c : Forall plain_spec specs -> room c (zlen specs) -> faults c = [] -> zlen (wire rs0) <= maxDatagram ->
  exists dss rest rs c', transmit_specs specs (wire rs0) c = (Ok (wire rest), c') /\ sent c' = sent c ++ (wire <$> dss) /\ faults c' = [] /\ concat dss ++ rest = rs0 ++ rs /\
    Forall plain_record rs /\ fragment <$> rs = s_payload <$> specs /\ Forall (fun ds => zlen (wire ds) <= maxDatagram) dss /\ zlen (wire rest) <= maxDatagram /\ advances c c' (zlen specs).
Proof.
  intros Hs. revert rs0 c. induction Hs as [|s specs (Ht & He & Hp) Hs IH]; intros rs0 c Hr Hf Hz; cbn [transmit_specs].
  { exists [], rs0, [], c. rewrite !app_nil_r. split_and!; try done. apply sent_refl, Hr. }
  rewrite zlen_cons in *. pose proof (zlen_nonneg specs) as Hzs. assert (Hr1 : room c 1) by (eapply room_le; [|exact Hr]; lia). destruct (nextSeq_spec c (s_epoch s) ltac:(by left) Hr1) as (c1 & E1 & HA1 & _ & Hs1 & Hf1).
  unfold mbind at 1, sres_bind at 1. rewrite E1. unfold mbind at 1, sres_bind at 1, protect at 1. rewrite He. cbn [Z.ltb Z.compare]. cbv zeta. set (r := mkRecord (s_typ s) versionDTLS12 0 (number c 0) (s_payload s)). rewrite marshal_enc. cbn [app].
  destruct Hr as [Hl Hr]. pose proof (Hr 0 ltac:(by left)) as [Hn0 Hn1]. unfold maxDatagram, recordHeaderLen in Hp. assert (Hok : plain_record r) by (unfold plain_record, record_ok, r, in_u8, in_u16, maxRecordPayload; cbn [typ version epoch seq fragment versionDTLS12 fst snd]; rewrite Ht; unfold recordHandshake; change (Z.shiftl 1 14) with 16384; split_and!; try done; lia).
  assert (Hzr : zlen (enc r) <= maxDatagram) by (rewrite zlen_record_enc; unfold recordHeaderLen, maxDatagram; cbn [fragment r]; lia). pose proof (room_advances c c1 1 (zlen specs) HA1 ltac:(by split)) as Hr2. assert (Hf1' : faults c1 = []) by congruence.
  assert (Ew : forall l, wire l ++ enc r = wire (l ++ [r])) by (intros l; rewrite wire_app; unfold wire at 3; cbn; by rewrite app_nil_r).
  unfold mbind at 1, sres_bind at 1. destruct (Z.ltb_spec maxDatagram (zlen (wire rs0) + zlen (enc r))) as [Hover|Hfit].
  - unfold flush. destruct (Z.eqb_spec (zlen (wire rs0)) 0); [lia|]. unfold mbind at 1, sres_bind at 1. pose proof (write_effect (wire rs0) c1) as Hw. destruct (transport_Write (wire rs0) c1) as [x c2]. destruct Hw as (Hs2 & Hq2 & Hi2 & Hk2 & Hkr2 & _ & Hfl). destruct (Hfl Hf1') as [-> Hf2]. unfold mret, sres_ret.
    assert (HA2 : advances c1 c2 0) by (split_and!; try done; [rewrite Hq2; apply HA1|]; intros e _; unfold number; rewrite Hq2; lia).
    destruct (IH [r] c2) as (dss & rest & rs & c' & E & Hsent & Hfc & Hcc & Hpl & Hfr & Hd1 & Hd2 & HA); [by apply (room_advances c1 c2 0)|done|change (zlen (wire ([] ++ [r])) <= maxDatagram); rewrite <-Ew; done|].
    exists (rs0 :: dss), rest, (r :: rs), c'. cbn [app]. change (enc r) with ([] ++ enc r). change (@nil Z) with (wire []) at 1. rewrite Ew. cbn [app]. split_and!; [exact E| |done| |by constructor| |by constructor|done|].
    + rewrite Hsent, Hs2, Hs1, <-app_assoc. done.
    + cbn [concat]. rewrite <-app_assoc, Hcc. done.
    + cbn [fmap list_fmap]. by rewrite Hfr.
    + pose proof (sent_trans c c1 c2 1 0 ltac:(lia) ltac:(lia) HA1 HA2) as HA3. exact (sent_trans c c2 c' 1 (zlen specs) ltac:(lia) Hzs HA3 HA).
  - unfold mret at 1, sres_ret at 1. rewrite Ew. destruct (IH (rs0 ++ [r]) c1) as (dss & rest & rs & c' & E & Hsent & Hfc & Hcc & Hpl & Hfr & Hd1 & Hd2 & HA); [done|done|rewrite <-Ew, zlen_app; lia|].
    exists dss, rest, (r :: rs), c'. split_and!; [exact E|by rewrite Hsent, Hs1|done| |by constructor| |done|done|].
    + by rewrite Hcc, <-app_assoc.
    + cbn [fmap list_fmap]. by rewrite Hfr.
    + exact (sent_trans c c1 c' 1 (zlen specs) ltac:(lia) Hzs HA1 HA).
Qed.

Lemma transmit_plain f c : Forall plain_spec f -> room c (zlen f) -> faults c = [] ->
  exists dss c', transmit f c = (Ok tt, c') /\ sent c' = sent c ++ (wire <$> dss) /\ faults c' = [] /\ advances c c' (zlen f) /\
    Forall plain_record (concat dss) /\ fragment <$> concat dss = s_payload <$> f /\ Forall (fun ds => zlen (wire ds) <= maxDatagram) dss.
Proof.
  intros Hf Hr Hfa. destruct (transmit_specs_plain f [] c Hf Hr Hfa ltac:(done)) as (dss & rest & rs & c' & E & Hs & Hfc & Hcc & Hpl & Hfr & Hd1 & Hd2 & HA). unfold transmit. unfold mbind at 1, sres_bind at 1. change (wire []) with (@nil Z) in E. rewrite E. cbn [app] in Hcc.
  unfold mbind at 1, sres_bind at 1, flush. destruct (Z.eqb_spec (zlen (wire rest)) 0) as [Hz|Hz].
  - assert (rest = []) as ->. { destruct rest as [|q rest]; [done|]. change (wire (q :: rest)) with (enc q ++ wire rest) in Hz. rewrite zlen_app, zlen_record_enc in Hz. pose proof (zlen_nonneg (fragment q)). pose proof (zlen_nonneg (wire rest)). unfold recordHeaderLen in Hz. lia. }
    rewrite app_nil_r in Hcc. subst rs. exists dss, c'. split_and!; try done.
  - unfold mbind at 1, sres_bind at 1. pose proof (write_effect (wire rest) c') as Hw. destruct (transport_Write (wire rest) c') as [x c2]. destruct Hw as (Hs2 & Hq2 & Hi2 & Hk2 & Hkr2 & _ & Hfl). destruct (Hfl Hfc) as [-> Hf2]. exists (dss ++ [rest]), c2.
    assert (Ec : concat (dss ++ [rest]) = rs) by (rewrite concat_app; cbn; by rewrite app_nil_r). rewrite Ec. split_and!; try done; [|destruct HA as (L1 & L2 & L3 & L4 & L5); split_and!; try congruence|apply Forall_app; split; [done|by apply Forall_singleton]].
    + rewrite Hs2, Hs, fmap_app, <-app_assoc. done.
    + intros e He. assert (Hn : number c2 e = number c' e) by (unfold number; by rewrite Hq2). rewrite Hn. by apply L2.
Qed.

(** ** Emitting messages *)

(** Message number [k] of messages numbered from [s]. *)
Definition numbered (s : Z) (ms : list (Z * bytes)) (k : Z) : option (Z * bytes) := if k <? s then None else ms !! Z.to_nat (k - s).

(** Successive calls of [emitHandshake] for messages sent in the clear, at epoch 0 and entered in the transcript. *)
Fixpoint emit_clear (ms : list (Z * bytes)) (f : flight) : sres Conn error flight :=
  match ms with [] => mret f | (t, b) :: ms => f ← emitHandshake f t 0 b true; emit_clear ms f end.

Definition message_ok (m : Z * bytes) : Prop := in_u8 m.1 /\ zlen m.2 <= maxHandshakeBody.

(** The fragments cover the messages and nothing else. *)
Record covers (s : Z) (ms : list (Z * bytes)) (fs : list parsedFragment) : Prop := {
  cv_pieces : Forall (fun f => frag_ok f /\ zlen (enc_frag f) <= maxDatagram - recordHeaderLen /\ exists t b, numbered s ms (f_seq f) = Some (t, b) /\ piece_of (f_seq f) t b f) fs;
  cv_some : forall k t b, numbered s ms k = Some (t, b) -> exists f, f ∈ fs /\ f_seq f = k;
  cv_bytes : forall k t b i, numbered s ms k = Some (t, b) -> 0 <= i < zlen b -> exists f, f ∈ fs /\ f_seq f = k /\ in_frag f i }.

Lemma numbered_cons s t b ms k : numbered s ((t, b) :: ms) k = if k =? s then Some (t, b) else numbered (s + 1) ms k.
Proof.
  unfold numbered. destruct (Z.eqb_spec k s) as [-> |Hne]; [by rewrite Z.ltb_irrefl, Z.sub_diag|]. destruct (Z.ltb_spec k s), (Z.ltb_spec k (s + 1)); try done; try lia. replace (Z.to_nat (k - s)) with (S (Z.to_nat (k - (s + 1)))) by lia. done.
Qed.

Lemma numbered_ge s ms k x : numbered s ms k = Some x -> s <= k < s + zlen ms.
Proof. unfold numbered. destruct (Z.ltb_spec k s); [done|]. intros Hx%lookup_lt_Some. unfold zlen. lia. Qed.

Lemma emit_clear_spec ms f c : Forall message_ok ms -> 0 <= sendMsgSeq c -> sendMsgSeq c + zlen ms < 65535 ->
  exists fs c', emit_clear ms f c = (Ok (f ++ ((fun x => mkSpec recordHandshake 0 (enc_frag x)) <$> fs)), c') /\ covers (sendMsgSeq c) ms fs /\
    sendSeq c' = sendSeq c /\ sent c' = sent c /\ faults c' = faults c.
Proof.
  intros Hms. revert f c. induction Hms as [|[t b] ms [Ht Hb] Hms IH]; intros f c H0 Hlim; cbn [emit_clear].
  { exists [], c. cbn [fmap list_fmap]. rewrite app_nil_r. assert (HN : forall k x, numbered (sendMsgSeq c) [] k = Some x -> False) by (intros k x Hx; apply numbered_ge in Hx; change (zlen []) with 0 in Hx; lia). split_and!; try done. split; [constructor|intros k t b Hx; by apply HN in Hx|intros k t b i Hx; by apply HN in Hx]. }
  rewrite zlen_cons in Hlim. pose proof (zlen_nonneg ms) as Hz. cbn in Ht, Hb. set (s := sendMsgSeq c) in *. unfold mbind at 1, sres_bind at 1, emitHandshake at 1. fold s.
  destruct (fragmentMessage_spec t s b (maxDatagram - recordHeaderLen) Ht ltac:(unfold in_u16; lia) Hb ltac:(done)) as (fs1 & -> & Hne & Hp1 & Hc1). cbv zeta. set (c1 := c <| sendMsgSeq := _ |> <| transcript ::= _ |>).
  assert (Hs1 : sendMsgSeq c1 = s + 1) by (unfold c1; cbn; apply (uwrap_id 16); lia). destruct (IH (f ++ ((fun x => mkSpec recordHandshake 0 x) <$> (enc_frag <$> fs1))) c1) as (fs2 & c' & E & [Hp2 Hk2 Hb2] & Hq & Hse & Hfa); [lia|lia|]. rewrite Hs1 in *.
  exists (fs1 ++ fs2), c'. split_and!; [|split|by rewrite Hq|by rewrite Hse|by rewrite Hfa].
  - rewrite E, fmap_app, <-app_assoc, <-list_fmap_compose. done.
  - apply Forall_app. split.
    + eapply Forall_impl; [exact Hp1|]. cbn beta. intros x [Hx Hl]. split; [apply (piece_ok s t b); [done|unfold in_u16; lia|done|done]|]. split; [done|]. exists t, b. pose proof Hx as (-> & _). rewrite numbered_cons, Z.eqb_refl. done.
    + eapply Forall_impl; [exact Hp2|]. cbn beta. intros x (Hx & Hl & t' & b' & Hn & Hpc). split; [done|]. split; [done|]. exists t', b'. split; [|done]. rewrite numbered_cons. pose proof (numbered_ge _ _ _ _ Hn). by destruct (Z.eqb_spec (f_seq x) s); [lia|].
  - intros k t' b'. rewrite numbered_cons. destruct (Z.eqb_spec k s) as [-> |Hk]; intros Hn.
    + destruct fs1 as [|x fs1]; [done|]. exists x. split; [by left|]. apply Forall_inv in Hp1. apply Hp1.
    + destruct (Hk2 k t' b' Hn) as (x & Hx & E'). exists x. split; [apply elem_of_app; by right|done].
  - intros k t' b' i. rewrite numbered_cons. destruct (Z.eqb_spec k s) as [-> |Hk]; intros Hn Hi.
    + inversion Hn; subst t' b'. specialize (Hc1 i Hi). apply Exists_exists in Hc1 as (x & Hx & Hin). exists x. split; [apply elem_of_app; by left|]. rewrite Forall_forall in Hp1. destruct (Hp1 x Hx) as [(Hsq & _) _]. done.
    + destruct (Hb2 k t' b' i Hn Hi) as (x & Hx & E' & Hin). exists x. split; [apply elem_of_app; by right|done].
Qed.

(** ** Sending leaves the receiving side alone *)

Definition same_reader (c c' : Conn) : Prop :=
  reasm c' = reasm c /\ pendingRecords c' = pendingRecords c /\ lastFlight c' = lastFlight c /\ keysReady c' = keysReady c /\ faults c' = faults c /\ length (sendSeq c') = length (sendSeq c).

(** Code that succeeds when no write fails, and leaves the receiving side alone. *)
Definition succeeds {A} (ready : Conn -> Prop) (m : sres Conn error A) : Prop := forall c, faults c = [] -> length (sendSeq c) = 2%nat -> ready c -> exists a c', m c = (Ok a, c') /\ same_reader c c'.

Lemma succeeds_bind {A B} (ready : Conn -> Prop) (m : sres Conn error A) (k : A -> sres Conn error B) : (forall c c', same_reader c c' -> ready c -> ready c') ->
  succeeds ready m -> (forall a, succeeds ready (k a)) -> succeeds ready (m ≫= k).
Proof.
  intros Hp Hm Hk c Hf Hl Hr. destruct (Hm c Hf Hl Hr) as (a & c1 & E1 & H1). pose proof H1 as (G1 & G2 & G3 & G4 & G5 & G6). destruct (Hk a c1) as (b & c2 & E2 & H2); [congruence|congruence|by eapply Hp|]. exists b, c2. unfold mbind, sres_bind. rewrite E1. split; [done|]. unfold same_reader in *. intuition congruence.
Qed.

Definition ready (e : Z) (c : Conn) : Prop := e = 0 \/ (e = 1 /\ keysReady c = true).

Lemma ready_same e c c' : same_reader c c' -> ready e c -> ready e c'.
Proof. intros (_ & _ & _ & H & _) [?|[? ?]]; [by left|right; split; congruence]. Qed.

Lemma write_succeeds R d : succeeds R (transport_Write d).
Proof. intros c Hf Hl _. unfold transport_Write. set (c1 := c <| sent ::= _ |>). change (faults c1) with (faults c). rewrite Hf. eexists tt, c1. done. Qed.

Lemma ret_succeeds {A} R (a : A) : succeeds R (mret a).
Proof. intros c _ _ _. by exists a, c. Qed.

Lemma nextSeq_succeeds e : succeeds (ready e) (nextSeq e).
Proof.
  intros c Hf Hl He. unfold nextSeq. destruct (lookup_lt_is_Some_2 (sendSeq c) (Z.to_nat e)) as [s ->]; [destruct He as [-> |[-> _]]; lia|]. eexists s, _. split; [reflexivity|]. split_and!; try done. cbn. by rewrite length_insert.
Qed.

Lemma protect_succeeds t e s p : succeeds (ready e) (protect t e s p).
Proof. intros c Hf Hl He. unfold protect. destruct (Z.ltb_spec 0 e); [|by eexists _, c]. destruct He as [-> |[-> ->]]; [lia|]. by eexists _, c. Qed.

Lemma flush_succeeds R d : (forall c c', same_reader c c' -> R c -> R c') -> succeeds R (flush d).
Proof. intros HR. unfold flush. destruct (_ =? _); [apply ret_succeeds|]. apply succeeds_bind; [done|apply write_succeeds|]. intros _. apply ret_succeeds. Qed.

Lemma transmit_succeeds f : succeeds (fun c => Forall (fun s => ready (s_epoch s) c) f) (transmit f).
Proof.
  assert (HR : forall f c c', same_reader c c' -> Forall (fun s => ready (s_epoch s) c) f -> Forall (fun s => ready (s_epoch s) c') f) by (intros g c c' Hs Hg; eapply Forall_impl; [exact Hg|]; intros s; by apply ready_same).
  assert (HS : forall g dg, succeeds (fun c => Forall (fun s => ready (s_epoch s) c) g) (transmit_specs g dg)).
  { intros g. induction g as [|s g IH]; intros dg; cbn [transmit_specs]; [apply ret_succeeds|]. intros c Hf Hl Hg. apply Forall_cons in Hg as [Hs Hg].
    destruct (nextSeq_succeeds _ c Hf Hl Hs) as (q & c1 & E1 & H1). pose proof H1 as (_ & _ & _ & _ & F1 & L1). destruct (protect_succeeds (s_typ s) (s_epoch s) q (s_payload s) c1) as (x & c2 & E2 & H2); [congruence|congruence|by eapply ready_same|]. pose proof H2 as (_ & _ & _ & _ & F2 & L2).
    unfold mbind at 1, sres_bind at 1. rewrite E1. unfold mbind at 1, sres_bind at 1. rewrite E2. cbv zeta. set (m := marshal _ []).
    assert (HK : succeeds (fun c => Forall (fun s => ready (s_epoch s) c) g) (dg0 ← (if maxDatagram <? zlen dg + zlen m then flush dg else mret dg); transmit_specs g (dg0 ++ m))).
    { apply succeeds_bind; [by intros; eapply HR| |intros a; apply IH]. destruct (_ <? _); [apply flush_succeeds; by intros; eapply HR|apply ret_succeeds]. }
    destruct (HK c2) as (d & c3 & E3 & H3); [congruence|congruence|eapply HR; [exact H2|]; by eapply HR|]. exists d, c3. split; [exact E3|]. unfold same_reader in *. intuition congruence. }
  unfold transmit. apply succeeds_bind; [by intros; eapply HR|apply HS|]. intros d. apply succeeds_bind; [by intros; eapply HR|apply flush_succeeds; by intros; eapply HR|]. intros _. apply ret_succeeds.
Qed.

(** ** Receiving *)

Section receiver.
Context (base : Z) (ms : list (Z * bytes)) (Hbase : 0 <= base) (Hlim : base + zlen ms < 65535).
Abbreviation msg := (numbered base ms).

(** Record [r] carries fragment [f] of the flight. *)
Definition carries (r : record) (f : parsedFragment) : Prop := plain_record r /\ fragment r = enc_frag f /\ frag_ok f /\ honest 0 msg (f <| f_epoch := 0 |>).
Definition genuine (r : record) : Prop := exists f, carries r f.

(** What the network delivers: datagrams of such records; reads may time out. *)
Definition genuine_event (ev : read_event) : Prop := match ev with Datagram d => exists rs, d = wire rs /\ Forall genuine rs | Timeout expired => expired = false | ReadError => False end.
Definition records_of (ev : read_event) : list record := match ev with Datagram d => (splitRecords d).2 | _ => [] end.

(** Retransmissions of its own last flight that the receiver makes on a timeout succeed. *)
Definition can_resend (c : Conn) : Prop := length (sendSeq c) = 2%nat /\ faults c = [] /\ match lastFlight c with Some f => Forall (fun s => s_epoch s = 0 \/ (s_epoch s = 1 /\ keysReady c = true)) f | None => True end.

Record receiving (c : Conn) : Prop := {
  rc_resend : can_resend c;
  rc_reasm : reasm_ok (reasm c);
  rc_faithful : faithful 0 msg (reasm c);
  rc_next : base <= next (reasm c) <= base + zlen ms;
  rc_pending : Forall genuine (pendingRecords c) }.

(** Everything below message [L] has been seen or is still to be read. *)
Definition promise (L : Z) (rs : list record) (r : reassembler) : Prop :=
  (forall k t b, msg k = Some (t, b) -> k < L -> started r k \/ exists q f, q ∈ rs /\ carries q f /\ f_seq f = k) /\
  (forall k t b i, msg k = Some (t, b) -> k < L -> 0 <= i < zlen b -> covered r k i \/ exists q f, q ∈ rs /\ carries q f /\ f_seq f = k /\ in_frag f i).

Lemma promise_grows L rs r r' : grows r r' -> promise L rs r -> promise L rs r'.
Proof. intros (_ & Hs & Hc) [H1 H2]. split; [intros k t b Hk Hl; destruct (H1 k t b Hk Hl) as [H|H]; [left; by apply Hs|right; exact H]|intros k t b i Hk Hl Hi; destruct (H2 k t b i Hk Hl Hi) as [H|H]; [left; by apply Hc|right; exact H]]. Qed.

Lemma enc_frag_inj f g : frag_ok f -> frag_ok g -> enc_frag f = enc_frag g -> f <| f_epoch := 0 |> = g <| f_epoch := 0 |>.
Proof. intros Hf Hg E. pose proof (parse_enc_frag f [] Hf) as H1. pose proof (parse_enc_frag g [] Hg) as H2. rewrite E, H2 in H1. apply (f_equal (fun x => match x with Ok (a, _) => a | _ => g <| f_epoch := 0 |> end)) in H1. done. Qed.

(** A genuine record is absorbed. *)
Lemma process_genuine r c : genuine r -> reasm_ok (reasm c) -> faithful 0 msg (reasm c) -> exists r', processHandshakeRecord r c = (Ok tt, c <| reasm := r' |>) /\
  reasm_ok r' /\ faithful 0 msg r' /\ grows (reasm c) r' /\ next r' = next (reasm c) /\
  (forall L rs, L <= next (reasm c) + maxPendingMessages -> promise L (r :: rs) (reasm c) -> promise L rs r').
Proof.
  intros (f & (_ & Ht & He) & Hfr & Hfo & Hho) Hok Hfa. set (f0 := f <| f_epoch := 0 |>) in *. assert (Hfo0 : frag_ok f0) by exact Hfo. destruct (accept_honest 0 msg f0 (reasm c) Hfo0 Hho Hok Hfa) as (r' & Ha & Hfa' & Hg & Hn & Hcov). pose proof (accept_ok f0 (reasm c) Hfo0 Hok) as Hok'. rewrite Ha in Hok'. destruct Hok' as (_ & Hok' & _).
  exists r'. split_and!; try done.
  - unfold processHandshakeRecord. rewrite Ht. cbn [Z.eqb]. unfold recordHandshake, recordChangeCipherSpec, recordAlert. cbn [Z.eqb Pos.eqb]. unfold record_payload, mbind, sres_bind. rewrite He. cbn [Z.ltb Z.compare]. unfold mret, sres_ret. rewrite Hfr.
    pose proof (zlen_enc_frag f Hfo) as Hz. pose proof (zlen_nonneg (frag f)). unfold handshakeHeaderLen in Hz. destruct (length (enc_frag f)) as [|n] eqn:El; [unfold zlen in Hz; lia|]. cbn [accept_fragments]. rewrite (proj2 (Z.ltb_lt 0 (zlen (enc_frag f)))) by lia. cbn [negb].
    pose proof (parse_enc_frag f [] Hfo) as Hp. rewrite app_nil_r in Hp. rewrite Hp. cbv zeta. change (f <| f_epoch := 0 |> <| f_epoch := 0 |>) with f0. rewrite Ha. pose proof (slc_from_app (E:=error) (enc_frag f) [] _ eq_refl) as Hs. rewrite app_nil_r in Hs. rewrite Hs. by destruct n.
  - intros L rs HL [H1 H2]. assert (Hx : forall g, carries r g -> f_seq g = f_seq f0 /\ (forall i, in_frag g i -> in_frag f0 i)).
    { intros g (_ & Hg1 & Hg2 & _). assert (E : f <| f_epoch := 0 |> = g <| f_epoch := 0 |>) by (apply enc_frag_inj; [done|done|congruence]). fold f0 in E. rewrite E. done. }
    destruct Hg as (_ & Hgs & Hgc). split.
    + intros k t b Hk Hl. destruct (H1 k t b Hk Hl) as [Hs|(q & g & [-> |Hq]%elem_of_cons & Hg & Hsq)]; [left; by apply Hgs| |right; by exists q, g]. left. destruct (Hx g Hg) as [E _]. rewrite E in Hsq. subst k. apply Hcov. lia.
    + intros k t b i Hk Hl Hi. destruct (H2 k t b i Hk Hl Hi) as [Hs|(q & g & [-> |Hq]%elem_of_cons & Hg & Hsq & Hin)]; [left; by apply Hgc| |right; by exists q, g]. left. destruct (Hx g Hg) as [E Ein]. rewrite E in Hsq. subst k. apply Hcov; [lia|by apply Ein].
Qed.

(** The next message, if it is complete. *)
Lemma pop_spec c : receiving c -> exists o c', pop_message c = (Ok o, c') /\ receiving c' /\ grows (reasm c) (reasm c') /\ pendingRecords c' = pendingRecords c /\ lastFlight c' = lastFlight c /\
  match o with
  | Some m => exists t b, msg (next (reasm c)) = Some (t, b) /\ m = mkMessage t (next (reasm c)) b 0 /\ next (reasm c') = next (reasm c) + 1
  | None => c' = c /\ forall L, L <= base + zlen ms -> promise L [] (reasm c) -> L <= next (reasm c)
  end.
Proof.
  intros [Hr Hok Hfa Hnx Hpd]. unfold pop_message. pose proof (nextMessage_honest 0 msg (reasm c) Hok Hfa ltac:(lia)) as Hm. pose proof (nextMessage_ok (reasm c) Hok) as Hok'. destruct (nextMessage (reasm c)) as [o r'] eqn:En. cbn [snd] in Hok'. destruct Hm as (Hfa' & Hg & Hm). exists o, (c <| reasm := r' |>).
  split; [done|]. assert (Hb : base <= next r' <= base + zlen ms).
  { destruct o as [m|]; [|by destruct Hm as [-> _]]. destruct Hm as (t & b & Hk & _ & ->). apply numbered_ge in Hk. lia. }
  split_and!; [by split|exact Hg|done|done|]. destruct o as [m|]; [exact Hm|]. destruct Hm as [-> Hm]. split; [by destruct c|]. intros L HL [H1 H2]. destruct (Z.le_gt_cases L (next (reasm c))) as [|Hgt]; [done|exfalso].
  destruct (msg (next (reasm c))) as [[t b]|] eqn:Ek; [|unfold numbered in Ek; destruct (Z.ltb_spec (next (reasm c)) base); [lia|]; apply lookup_ge_None in Ek; unfold zlen in HL; lia].
  destruct (H1 _ t b Ek ltac:(lia)) as [Hst|(q & f & Hq & _)]; [|by apply elem_of_nil in Hq]. destruct (Hm t b eq_refl Hst) as (i & Hi & Hno). destruct (H2 _ t b i Ek ltac:(lia) Hi) as [Hcv|(q & f & Hq & _)]; [done|by apply elem_of_nil in Hq].
Qed.

Lemma pump_spec rs c : receiving c -> Forall genuine rs -> pendingRecords c = rs -> exists o c', pump_records rs c = (Ok o, c') /\ receiving c' /\ Forall genuine (pendingRecords c') /\ lastFlight c' = lastFlight c /\
  (forall L tl, L <= next (reasm c) + maxPendingMessages -> promise L (rs ++ tl) (reasm c) -> promise L (pendingRecords c' ++ tl) (reasm c')) /\
  match o with
  | Some m => exists t b, msg (next (reasm c)) = Some (t, b) /\ m = mkMessage t (next (reasm c)) b 0 /\ next (reasm c') = next (reasm c) + 1
  | None => pendingRecords c' = [] /\ next (reasm c') = next (reasm c) /\ (pop_message c = (Ok None, c) -> pop_message c' = (Ok None, c'))
  end.
Proof.
  intros Hc Hrs. revert c Hc. induction Hrs as [|r rs Hr Hrs IH]; intros c Hc Hpd; cbn [pump_records]; [exists None, c; rewrite Hpd; split_and!; done|].
  unfold mbind, sres_bind, modify. set (c0 := c <| pendingRecords := rs |>). assert (Hc0 : receiving c0) by (destruct Hc as [H1 H2 H3 H4 H5]; split; done). destruct (process_genuine r c0 Hr (rc_reasm _ Hc0) (rc_faithful _ Hc0)) as (r1 & -> & Hok1 & Hfa1 & Hg1 & Hn1 & Hp1).
  set (c1 := c0 <| reasm := r1 |>). assert (Hc1 : receiving c1) by (destruct Hc0 as [H1 H2 H3 H4 H5]; split; try done; change (reasm c1) with r1; by rewrite Hn1). destruct (pop_spec c1 Hc1) as (o & c2 & E2 & Hc2 & Hg2 & Hpd2 & Hlf2 & Ho). rewrite E2. change (reasm c0) with (reasm c) in *.
  assert (HP : forall L tl, L <= next (reasm c) + maxPendingMessages -> promise L ((r :: rs) ++ tl) (reasm c) -> promise L (rs ++ tl) (reasm c2)) by (intros L tl HL HP; apply (promise_grows L _ r1); [exact Hg2|]; by apply Hp1).
  destruct o as [m|].
  - exists (Some m), c2. change (reasm c1) with r1 in Ho. rewrite Hn1 in Ho. split_and!; try done; [by rewrite Hpd2|]. rewrite Hpd2. exact HP.
  - destruct Ho as [-> _]. destruct (IH c1 Hc1 eq_refl) as (o & c3 & E3 & Hc3 & Hpd3 & Hlf3 & HP3 & Ho3). change (reasm c1) with r1 in *. rewrite Hn1 in *. exists o, c3. split_and!; try done.
    + intros L tl HL HP0. apply HP3; [done|]. apply Hp1; done.
    + destruct o as [m|]; [exact Ho3|]. destruct Ho3 as (H1 & H2 & H3). split_and!; try done. intros _. by apply H3.
Qed.

Lemma resend_spec c : can_resend c -> exists c', retransmit c = (Ok tt, c') /\ same_reader c c'.
Proof.
  intros (Hl & Hf & Hlast). unfold retransmit. destruct (lastFlight c) as [f|] eqn:El; [|by exists c]. destruct (transmit_succeeds f c Hf Hl Hlast) as ([] & c' & E & H). by exists c'.
Qed.

Lemma receiving_same c c' : same_reader c c' -> receiving c -> receiving c'.
Proof.
  intros (H1 & H2 & H3 & H4 & H5 & H6) [(L & F & R) Ho Hf Hn Hp]. split; rewrite ?H1, ?H2; try done. split_and!; [congruence|congruence|]. rewrite H3, H4. done.
Qed.

(** One call of the read pump. *)
Lemma read_spec evs c : receiving c -> Forall genuine_event evs -> exists o c' evs', readHandshakeMessage evs c = (Ok o, c', evs') /\ receiving c' /\ Forall genuine_event evs' /\
  (forall L, L <= next (reasm c) + maxPendingMessages -> promise L (pendingRecords c ++ concat (records_of <$> evs)) (reasm c) -> promise L (pendingRecords c' ++ concat (records_of <$> evs')) (reasm c')) /\
  match o with
  | Some m => exists t b, msg (next (reasm c)) = Some (t, b) /\ m = mkMessage t (next (reasm c)) b 0 /\ next (reasm c') = next (reasm c) + 1
  | None => forall L, L <= base + zlen ms -> L <= next (reasm c) + maxPendingMessages -> promise L (pendingRecords c ++ concat (records_of <$> evs)) (reasm c) -> L <= next (reasm c)
  end.
Proof using Hbase Hlim.
  intros Hc Hev. revert c Hc. induction Hev as [|ev evs Hev Hevs IH]; intros c Hc; cbn [readHandshakeMessage fmap list_fmap concat]; destruct (pop_spec c Hc) as (o & c1 & E1 & Hc1 & Hg1 & Hpd1 & Hlf1 & Ho1); rewrite E1.
  - destruct o as [m|]; [exists (Some m), c1, []; split_and!; try done; intros L _ HP; rewrite Hpd1; by eapply promise_grows|]. destruct Ho1 as [-> _]. destruct (pump_spec (pendingRecords c) c Hc (rc_pending _ Hc) eq_refl) as (o & c2 & E2 & Hc2 & _ & _ & HP2 & Ho2). rewrite E2.
    destruct o as [m|].
    + exists (Some m), c2, []. split_and!; try done. intros L HL HP. by apply HP2.
    + exists None, c2, []. destruct Ho2 as (Hp2 & Hn2 & Hstuck). split_and!; try done; [intros L HL HP; by apply HP2|]. intros L HL1 HL2 HP. specialize (HP2 L [] HL2 HP). rewrite Hp2 in HP2. cbn [app] in HP2. destruct (pop_spec c2 Hc2) as (o & c3 & E3 & _ & _ & _ & _ & Ho3). rewrite (Hstuck E1) in E3. inversion E3; subst o c3. destruct Ho3 as [_ Ho3]. rewrite <-Hn2. by apply Ho3.
  - destruct o as [m|]; [exists (Some m), c1, (ev :: evs); split_and!; try done; [by constructor|]; intros L _ HP; rewrite Hpd1; by eapply promise_grows|]. destruct Ho1 as [-> _]. destruct (pump_spec (pendingRecords c) c Hc (rc_pending _ Hc) eq_refl) as (o & c2 & E2 & Hc2 & _ & Hlf2 & HP2 & Ho2). rewrite E2.
    destruct o as [m|]; [exists (Some m), c2, (ev :: evs); split_and!; try done; [by constructor|]; intros L HL HP; by apply HP2|]. destruct Ho2 as (Hp2 & Hn2 & _).
    assert (HK : forall c3, receiving c3 -> reasm c3 = reasm c2 -> pendingRecords c3 = records_of ev -> exists o c' evs', readHandshakeMessage evs c3 = (Ok o, c', evs') /\ receiving c' /\ Forall genuine_event evs' /\
      (forall L, L <= next (reasm c) + maxPendingMessages -> promise L (pendingRecords c ++ records_of ev ++ concat (records_of <$> evs)) (reasm c) -> promise L (pendingRecords c' ++ concat (records_of <$> evs')) (reasm c')) /\
      match o with Some m => exists t b, msg (next (reasm c)) = Some (t, b) /\ m = mkMessage t (next (reasm c)) b 0 /\ next (reasm c') = next (reasm c) + 1
      | None => forall L, L <= base + zlen ms -> L <= next (reasm c) + maxPendingMessages -> promise L (pendingRecords c ++ records_of ev ++ concat (records_of <$> evs)) (reasm c) -> L <= next (reasm c) end).
    { intros c3 Hc3 Hr3 Hp3. destruct (IH c3 Hc3) as (o & c' & evs' & E & Hc' & Hev' & HP' & Ho'). rewrite Hr3, Hn2, Hp3 in *. exists o, c', evs'. split_and!; try done.
      - intros L HL HP. apply HP'; [done|]. specialize (HP2 L _ HL HP). by rewrite Hp2 in HP2.
      - destruct o as [m|]; [exact Ho'|]. intros L HL1 HL2 HP. apply Ho'; [done|done|]. specialize (HP2 L _ HL2 HP). by rewrite Hp2 in HP2. }
    destruct ev as [d|expired|]; [|cbn in Hev; subst expired|done].
    + destruct Hev as (rs & -> & Hrs). assert (Hrok : Forall record_ok rs) by (eapply Forall_impl; [exact Hrs|]; intros r (f & (Hr & _) & _); done). pose proof (split_wire rs Hrok) as Hsp. cbn [records_of] in *. rewrite Hsp in *. cbn [snd] in *. apply HK; [|done|done]. destruct Hc2 as [H1 H2 H3 H4 H5]. by split.
    + destruct (resend_spec c2 (rc_resend _ Hc2)) as (c3 & E3 & H3). rewrite E3. pose proof H3 as (G1 & G2 & _). apply HK; [apply (receiving_same c3); [done|]; by apply (receiving_same c2)|exact G1|]. cbn [records_of]. transitivity (pendingRecords c3); [done|]. by rewrite G2.
Qed.

(** Successive calls. *)
Fixpoint read_messages (n : nat) (evs : list read_event) (c : Conn) : list handshakeMessage :=
  match n with
  | O => []
  | S n => match readHandshakeMessage evs c with (Ok (Some m), c, evs) => m :: read_messages n evs c | _ => [] end
  end.

Definition expected : list handshakeMessage := imap (fun i m => mkMessage m.1 (base + Z.of_nat i) m.2 0) ms.

Lemma expected_drop j t b : msg (base + Z.of_nat j) = Some (t, b) -> drop j expected = mkMessage t (base + Z.of_nat j) b 0 :: drop (S j) expected.
Proof.
  unfold numbered. destruct (Z.ltb_spec (base + Z.of_nat j) base); [lia|]. replace (Z.to_nat (base + Z.of_nat j - base)) with j by lia. intros Hm. apply drop_S. unfold expected. by rewrite list_lookup_imap, Hm.
Qed.

Lemma read_messages_prefix n evs c j : receiving c -> Forall genuine_event evs -> next (reasm c) = base + Z.of_nat j -> read_messages n evs c `prefix_of` drop j expected.
Proof using Hbase Hlim.
  revert evs c j. induction n as [|n IH]; intros evs c j Hc Hev Hn; cbn [read_messages]; [apply prefix_nil|]. destruct (read_spec evs c Hc Hev) as (o & c' & evs' & E & Hc' & Hev' & _ & Ho). rewrite E. destruct o as [m|]; [|apply prefix_nil].
  destruct Ho as (t & b & Hk & -> & Hn'). rewrite Hn in *. rewrite (expected_drop j t b Hk). apply prefix_cons, IH; [done|done|]. lia.
Qed.

Lemma read_messages_all n evs c j : receiving c -> Forall genuine_event evs -> next (reasm c) = base + Z.of_nat j -> (j + n = length ms)%nat -> zlen ms <= Z.of_nat j + maxPendingMessages ->
  promise (base + zlen ms) (pendingRecords c ++ concat (records_of <$> evs)) (reasm c) -> read_messages n evs c = drop j expected.
Proof using Hbase Hlim.
  revert evs c j. induction n as [|n IH]; intros evs c j Hc Hev Hn Hj H8 HP; cbn [read_messages]; [rewrite drop_ge; [done|]; unfold expected; rewrite length_imap; lia|].
  destruct (read_spec evs c Hc Hev) as (o & c' & evs' & E & Hc' & Hev' & HP' & Ho). rewrite E. destruct o as [m|]; [|exfalso; specialize (Ho (base + zlen ms) ltac:(lia) ltac:(lia) HP); unfold zlen in Ho; lia].
  destruct Ho as (t & b & Hk & -> & Hn'). rewrite Hn in *. rewrite (expected_drop j t b Hk). f_equal. apply IH; try done; try lia. apply HP'; [lia|done].
Qed.
End receiver.

(** ** Delivery *)

(** A flight and its retransmissions. *)
Fixpoint transmit_n (n : nat) (f : flight) (c : Conn) : Conn := match n with O => c | S n => transmit_n n f (transmit f c).2 end.

Lemma transmit_n_spec n f c : Forall plain_spec f -> room c (Z.of_nat n * zlen f) -> faults c = [] -> exists ds, sent (transmit_n n f c) = sent c ++ ds /\
  Forall (fun d => zlen d <= maxDatagram /\ exists rs, d = wire rs /\ Forall (fun r => plain_record r /\ fragment r ∈ s_payload <$> f) rs) ds.
Proof.
  intros Hf. revert c. induction n as [|n IH]; intros c Hr Hfa; cbn [transmit_n]; [exists []; by rewrite app_nil_r|]. pose proof (zlen_nonneg f). destruct (transmit_plain f c Hf) as (dss & c' & E & Hs & Hfa' & HA & Hpl & Hpay & Hz); [eapply room_le; [|exact Hr]; lia|done|]. rewrite E. cbn [snd].
  destruct (IH c') as (ds & Hs' & Hds); [eapply room_advances; [exact HA|]; eapply room_le; [|exact Hr]; lia|done|]. exists ((wire <$> dss) ++ ds). split; [by rewrite Hs', Hs, <-app_assoc|]. apply Forall_app. split; [|done]. rewrite <-Hpay. clear -Hz Hpl. apply Forall_fmap.
  rewrite !Forall_forall in *. intros rs Hrs. cbn. split; [by apply Hz|]. exists rs. split; [done|]. apply Forall_forall. intros r Hr. assert (Hin : r ∈ concat dss) by (apply list_elem_of_In, in_concat; exists rs; by rewrite <-!list_elem_of_In). split; [by apply Hpl|]. by apply list_elem_of_fmap_2.
Qed.

Definition arrives (ds : list bytes) (ev : read_event) : Prop := match ev with Datagram d => d ∈ ds | Timeout expired => expired = false | ReadError => False end.

(** C35: Handshake messages sent in the clear are delivered.  A sender that has written nothing yet, whose writes do not fail and whose message numbers stay
    below 65535, emits messages at epoch 0 (no ChangeCipherSpec, no encrypted Finished) and transmits the resulting flight any number of times for which
    record numbers are left.  The receiver expects the first of these messages, holds no fragment or unread record, and can answer a
    repeated flight with its own last one.  It reads a sequence of these datagrams, in any order and number, and of timeouts that do not expire the handshake.  No datagram exceeds 1200 bytes;
    successive reads return a prefix of the messages, each with its type, number and body exactly as sent; and at most eight messages are
    returned completely once each of their fragments has arrived in a copy from some transmission. *)
Theorem dtls_flight_delivery n ms cs cr evs : Forall message_ok ms -> 0 <= sendMsgSeq cs -> sendMsgSeq cs + zlen ms < 65535 -> faults cs = [] -> sent cs = [] ->
  can_resend cr -> reasm cr = mkReassembler (sendMsgSeq cs) ∅ -> pendingRecords cr = [] ->
  match emit_clear ms [] cs with
  | (Ok f, c1) =>
      let ds := sent (transmit_n n f c1) in
      room c1 (Z.of_nat n * zlen f) -> Forall (arrives ds) evs ->
      Forall (fun d => zlen d <= maxDatagram) ds /\
      (forall k, read_messages k evs cr `prefix_of` expected (sendMsgSeq cs) ms) /\
      (zlen ms <= maxPendingMessages -> (forall s, s ∈ f -> exists d r, Datagram d ∈ evs /\ r ∈ (splitRecords d).2 /\ fragment r = s_payload s) ->
       read_messages (length ms) evs cr = expected (sendMsgSeq cs) ms)
  | _ => False
  end.
Proof.
  intros Hms H0 Hlim Hfa Hse Hre Hra Hpd. destruct (emit_clear_spec ms [] cs Hms H0 Hlim) as (fs & c1 & -> & [Hpc Hsome Hbytes] & Hq & Hs1 & Hf1). rewrite app_nil_l. intros ds Hroom Hev. set (f := _ <$> fs) in *. set (base := sendMsgSeq cs) in *.
  assert (Hplain : Forall plain_spec f) by (apply Forall_fmap; eapply Forall_impl; [exact Hpc|]; cbn beta; intros x (_ & Hl & _); by split_and!). destruct (transmit_n_spec n f c1 Hplain Hroom ltac:(congruence)) as (ds' & Hds & Hd). rewrite Hs1, Hse, app_nil_l in Hds. fold ds in Hds. rewrite <-Hds in Hd. clear ds' Hds.
  assert (HG : forall r, plain_record r -> fragment r ∈ s_payload <$> f -> genuine base ms r).
  { intros r Hr Hin. unfold f in Hin. rewrite <-list_fmap_compose in Hin. apply list_elem_of_fmap in Hin as (x & Ex & Hx). rewrite Forall_forall in Hpc. destruct (Hpc x Hx) as (Hxo & _ & t & b & Hk & Hp). exists x. split; [done|]. split; [exact Ex|]. split; [done|]. split; [done|]. by exists t, b. }
  assert (Hgen : Forall (genuine_event base ms) evs).
  { eapply Forall_impl; [exact Hev|]. intros [d|e|]; [|done..]. cbn. intros Hin. rewrite Forall_forall in Hd. destruct (Hd d Hin) as (_ & rs & -> & Hrs). exists rs. split; [done|]. eapply Forall_impl; [exact Hrs|]. cbn beta. intros r [? ?]. by apply HG. }
  assert (Hrc : receiving base ms cr). { split; [done| | | |by rewrite Hpd]; rewrite Hra; cbn [next pending]; pose proof (zlen_nonneg ms); [split; [unfold in_u16; cbn; lia|intros k p Hk; cbn in Hk; by rewrite lookup_empty in Hk]|intros k p Hk; cbn in Hk; by rewrite lookup_empty in Hk|lia]. }
  assert (Hnx : next (reasm cr) = base + Z.of_nat 0) by (rewrite Hra; cbn; lia). split_and!.
  - eapply Forall_impl; [exact Hd|]. by intros d [? _].
  - intros k. apply (read_messages_prefix base ms H0 Hlim k evs cr 0 Hrc Hgen Hnx).
  - intros H8 Harr. apply (read_messages_all base ms H0 Hlim (length ms) evs cr 0 Hrc Hgen Hnx); [done|lia|]. rewrite Hpd. cbn [app].
    assert (HA : forall x, x ∈ fs -> exists q g, q ∈ concat (records_of <$> evs) /\ carries base ms q g /\ f_seq g = f_seq x /\ forall i, in_frag x i -> in_frag g i).
    { intros x Hx. destruct (Harr (mkSpec recordHandshake 0 (enc_frag x))) as (d & r & Hin & Hr & Efr); [unfold f; apply list_elem_of_fmap; by exists x|]. cbn [s_payload] in Efr. rewrite Forall_forall in Hgen. destruct (Hgen _ Hin) as (rs & -> & Hrs).
      assert (Hrok : Forall record_ok rs) by (eapply Forall_impl; [exact Hrs|]; intros r' (f' & (Hr' & _) & _); done). rewrite split_wire in Hr by done. cbn [snd] in Hr. rewrite Forall_forall in Hrs. destruct (Hrs r Hr) as (g & Hg). exists r, g. split_and!; [|done|..].
      - apply list_elem_of_In, in_concat. exists rs. rewrite <-!list_elem_of_In. split; [|done]. apply list_elem_of_fmap. exists (Datagram (wire rs)). split; [cbn; by rewrite split_wire|done].
      - destruct Hg as (_ & Eg & Hgo & _). rewrite Forall_forall in Hpc. destruct (Hpc x Hx) as (Hxo & _). pose proof (enc_frag_inj g x Hgo Hxo ltac:(congruence)) as E. by apply (f_equal f_seq) in E.
      - destruct Hg as (_ & Eg & Hgo & _). rewrite Forall_forall in Hpc. destruct (Hpc x Hx) as (Hxo & _). pose proof (enc_frag_inj g x Hgo Hxo ltac:(congruence)) as E. intros i Hi. unfold in_frag in *. pose proof (f_equal fragOff E) as E1. pose proof (f_equal frag E) as E2. cbn in E1, E2. by rewrite E1, E2. }
    split.
    + intros k t b Hk _. right. destruct (Hsome k t b Hk) as (x & Hx & <-). destruct (HA x Hx) as (q & g & Hq1 & Hq2 & Hq3 & _). by exists q, g.
    + intros k t b i Hk _ Hi. right. destruct (Hbytes k t b i Hk Hi) as (x & Hx & <- & Hin). destruct (HA x Hx) as (q & g & Hq1 & Hq2 & Hq3 & Hq4). exists q, g. split_and!; try done. by apply Hq4.
Qed.
End flights.

(** ** A concrete run *)

Definition demo_peer (client : bool) : Conn :=
  mkConn client second 0 [0; 0] 0 [replay_zero; replay_zero] (mkKeys (demo_key 1) (demo_key 2)) false false [] [] [] (mkReassembler 2 ∅) false None second 2 0 [] [].

(** A certificate of 1500 bytes, an empty message and a short one: four fragments in two datagrams. *)
Definition demo_messages : list (Z * bytes) := [(11, replicate 1500 5); (14, []); (16, [1; 2; 3])].

Definition demo_sent : list bytes := match emit_clear demo_messages [] (demo_peer false) with (Ok f, c1) => sent (transmit_n (C:=demo_crypto) 2 f c1) | _ => [] end.

(** The second datagram of the first transmission, twice, a timeout, then the first datagram of the second transmission. *)
Definition demo_arrivals : list read_event := (Datagram <$> omap (fun j => demo_sent !! j) [1; 1]%nat) ++ [Timeout false] ++ (Datagram <$> omap (fun j => demo_sent !! j) [2]%nat).

Definition arrived (f : flight) (evs : list read_event) : bool :=
  forallb (fun s => existsb (fun ev => match ev with Datagram d => existsb (fun r => bool_decide (fragment r = s_payload s)) (splitRecords d).2 | _ => false end) evs) f.

Lemma arrived_spec f evs : arrived f evs = true -> forall s, s ∈ f -> exists d r, Datagram d ∈ evs /\ r ∈ (splitRecords d).2 /\ fragment r = s_payload s.
Proof.
  unfold arrived. rewrite forallb_forall. intros H s Hs%list_elem_of_In. specialize (H s Hs). apply existsb_exists in H as (ev & Hev & H). destruct ev as [d| |]; [|done..]. apply existsb_exists in H as (r & Hr & H%bool_decide_eq_true). exists d, r. by rewrite !list_elem_of_In.
Qed.

Lemma demo_emit : match emit_clear demo_messages [] (demo_peer false) with (Ok f, c1) => arrived f demo_arrivals && (length f =? 4)%nat && bool_decide (sendSeq c1 = [0; 0]) | _ => false end = true.
Proof. vm_compute. reflexivity. Qed.

Lemma demo_run : exists f c1, emit_clear demo_messages [] (demo_peer false) = (Ok f, c1) /\ demo_sent = sent (transmit_n (C:=demo_crypto) 2 f c1) /\ arrived f demo_arrivals = true /\ length f = 4%nat /\ sendSeq c1 = [0; 0].
Proof.
  pose proof demo_emit as HF. unfold demo_sent. destruct (emit_clear demo_messages [] (demo_peer false)) as [[f| |] c1]; [|done..]. apply andb_true_iff in HF as [[HF Hlen%Nat.eqb_eq]%andb_true_iff Hseq%bool_decide_eq_true]. by exists f, c1.
Qed.

Lemma demo_arrive : Forall (arrives demo_sent) demo_arrivals.
Proof.
  assert (HE : forallb (fun ev => match ev with Datagram d => bool_decide (d ∈ demo_sent) | Timeout e => negb e | ReadError => false end) demo_arrivals = true) by (vm_compute; reflexivity).
  apply Forall_forall. intros ev Hev. rewrite forallb_forall in HE. apply list_elem_of_In in Hev. specialize (HE ev Hev). destruct ev as [d|[]|]; [by apply bool_decide_eq_true in HE|discriminate HE|reflexivity|discriminate HE].
Qed.

Lemma demo_messages_ok : Forall message_ok demo_messages.
Proof. repeat (constructor; [split; [split; [discriminate|reflexivity]|by vm_compute]|]). constructor. Qed.

Lemma dtls_flight_delivery_witness : read_messages (C:=demo_crypto) (length demo_messages) demo_arrivals (demo_peer true) = expected (sendMsgSeq (demo_peer false)) demo_messages.
Proof.
  pose proof (dtls_flight_delivery (C:=demo_crypto) 2 demo_messages (demo_peer false) (demo_peer true) demo_arrivals) as H. destruct demo_run as (f & c1 & E & Hs & HF & Hlen & Hseq). rewrite E in H. cbv zeta in H. rewrite <-Hs in H.
  destruct H as (_ & _ & H).
  - exact demo_messages_ok.
  - discriminate.
  - reflexivity.
  - reflexivity.
  - reflexivity.
  - split; [reflexivity|split; [reflexivity|exact I]].
  - reflexivity.
  - reflexivity.
  - unfold room, number, zlen. rewrite Hseq, Hlen. split; [reflexivity|]. intros e [-> | ->]; vm_compute; split; discriminate.
  - exact demo_arrive.
  - apply H; [by vm_compute|]. by apply arrived_spec.
Defined.
End dtlsflight.
