(* ===== verification/CodecTotal.v ===== *)
(** * The encoders never panic

    Whatever values they are given, the encoders of the three profiles return a datagram or an error: every write into a buffer stays inside it.  With the
    totality of the decoders this is what a session rests on. *)

From S2P Require Import Prelude Bytes Wire Rtp Rtcp SimpleCodec Npd Gre Psk Adv AdvCtrl Lpc Adapt FecHeader Fec FecDecoder AdvCodec MainCodec.

Module codectotal.

(** ** Writes *)

Lemma put_total {E} w off xs : 0 <= off -> off + zlen xs <= zlen w -> exists w', put (E:=E) w off xs = Ok w' /\ zlen w' = zlen w.
Proof.
  intros H0 H1. unfold put. rewrite !(proj2 (Z.leb_le _ _)) by lia. cbn [andb]. eexists. split; [done|]. unfold zlen in *. rewrite !length_app, length_take, length_drop. lia.
Qed.

Lemma copy_total {E} w off xs : 0 <= off <= zlen w -> exists n w', copy_at (E:=E) w off xs = Ok (n, w') /\ zlen w' = zlen w.
Proof.
  intros H. unfold copy_at. rewrite !(proj2 (Z.leb_le _ _)) by lia. cbn [andb]. destruct (put_total (E:=E) w off (take (length w - Z.to_nat off) xs)) as (w' & -> & Hw); [lia|unfold zlen in *; rewrite length_take; lia|]. by eexists _, _.
Qed.

Ltac put_ok :=
  match goal with
  | |- context [@put ?E ?w ?off ?xs] => let H := fresh in destruct (put_total (E:=E) w off xs) as (? & H & ?); [lia|zlens; lia|]; rewrite H; clear H; cbn [mbind res_bind]
  | |- context [@copy_at ?E ?w ?off ?xs] => let H := fresh in destruct (copy_total (E:=E) w off xs) as (? & ? & H & ?); [lia|]; rewrite H; clear H; cbn [mbind res_bind]
  end.

(** ** RTCP *)

Lemma fill_total s n f : 0 <= n -> (forall w, zlen w = n -> exists w', f w = Ok w') -> exists s', rtcp.fill s n f = Ok s'.
Proof.
  intros Hn Hf. unfold rtcp.fill. destruct (Hf (rtcp.grow s n)) as (w' & ->); [|by eexists]. unfold rtcp.grow, zlen. rewrite length_take, length_app, length_replicate. lia.
Qed.

Lemma write_records_total rs : forall off w, 0 <= off -> off + 4 * zlen rs <= zlen w -> exists w', rtcp.write_records rs off w = Ok w'.
Proof.
  induction rs as [|[a b] rs IH]; intros off w H0 H; cbn [rtcp.write_records]; [by eexists|]. rewrite zlen_cons in H. pose proof (zlen_nonneg rs). put_ok. put_ok. apply IH; lia.
Qed.

Lemma rtcp_AppendTo_total p s : exists s', rtcp.AppendTo p s = Ok s'.
Proof.
  destruct p; cbn [rtcp.AppendTo]; unfold rtcp.appendSenderReport, rtcp.appendEmptyReceiverReport, rtcp.appendReceiverReport, rtcp.appendLinkQualityReport, rtcp.appendSDES, rtcp.appendRangeNACK,
    rtcp.appendBitmaskNACK, rtcp.appendExtSeq, rtcp.appendEchoRequest, rtcp.appendEchoResponse, rtcp.appendEcho; cbv zeta.
  - apply fill_total; [done|]. unfold rtcp.senderReportSize, rtcp.headerSize. intros w Hw. repeat put_ok. by eexists.
  - apply fill_total; [done|]. unfold rtcp.emptyRRSize, rtcp.headerSize. intros w Hw. repeat put_ok. by eexists.
  - apply fill_total; [done|]. unfold rtcp.receiverReportSize, rtcp.headerSize. intros w Hw. repeat put_ok. by eexists.
  - apply fill_total; [done|]. unfold rtcp.lqmReportSize, rtcp.emptyRRSize, rtcp.LQMExtensionSize, rtcp.headerSize. intros w Hw. repeat put_ok. by eexists.
  - set (name := if rtcp.maxCNAMELen <? zlen CNAME then take (Z.to_nat rtcp.maxCNAMELen) CNAME else CNAME). pose proof (zlen_nonneg name). rewrite rtcp.sdesSize_pad. destruct (rtcp.padTo4_spec (zlen name + 11)) as [_ Hr]. unfold rtcp.headerSize, rtcp.sdesFixedSize. apply fill_total; [lia|]. intros w Hw. repeat put_ok. by eexists.
  - pose proof (zlen_nonneg Ranges). unfold rtcp.appFixedSize, rtcp.headerSize. apply fill_total; [lia|]. intros w Hw. repeat put_ok. apply write_records_total; [lia|]. unfold zlen in *. rewrite length_fmap. lia.
  - pose proof (zlen_nonneg FCIs). unfold rtcp.appFixedSize, rtcp.headerSize. apply fill_total; [lia|]. intros w Hw. repeat put_ok. apply write_records_total; [lia|]. unfold zlen in *. rewrite length_fmap. lia.
  - apply fill_total; [done|]. unfold rtcp.extSeqSize, rtcp.headerSize. intros w Hw. repeat put_ok. by eexists.
  - pose proof (zlen_nonneg Padding). destruct (rtcp.padTo4_spec (zlen Padding)) as [_ Hr]. unfold rtcp.echoFixedSize, rtcp.headerSize. apply fill_total; [lia|]. intros w Hw. repeat put_ok. by eexists.
  - pose proof (zlen_nonneg Padding). destruct (rtcp.padTo4_spec (zlen Padding)) as [_ Hr]. unfold rtcp.echoFixedSize, rtcp.headerSize. apply fill_total; [lia|]. intros w Hw. repeat put_ok. by eexists.
  - by eexists.
Qed.

Lemma BuildCompound_total s pkts : returns (rtcp.BuildCompound s pkts) (fun _ => True).
Proof.
  unfold rtcp.BuildCompound. destruct (rtcp.checkCompoundOrder pkts); [|done]. revert s. induction pkts as [|p pkts IH]; intros s; cbn [rtcp.append_all]; [done|]. destruct (rtcp_AppendTo_total p s) as (s' & ->). apply IH.
Qed.

(** ** RTP *)

Lemma packet_AppendTo_total p s : PaddingSize p = 0 -> returns (packet_AppendTo p s).1 (fun _ => True).
Proof.
  intros Hp. unfold packet_AppendTo, append_with. set (n := length (data s)). set (g := growSlice s (packet_MarshalSize p)). pose proof (zlen_nonneg (p_Payload p)) as Hpl.
  assert (Hc : forall w, zlen w = packet_MarshalSize p -> header_check (p_Header p) = None -> returns (packet_MarshalTo p w).1 (fun _ => True)).
  { intros w Hw Hc. unfold packet_MarshalTo. destruct (negb _); [done|]. unfold packet_MarshalSize in Hw. rewrite Hp in *. pose proof (zlen_enc_header _ Hc) as Hh. rewrite (sbind_ok _ _ _ _ _ (header_MarshalTo_spec (p_Header p) w Hc ltac:(lia))). erewrite sbind_ok by done.
    destruct (_ <? _); [done|]. erewrite sbind_ok by (apply wr_copy_next; zlens; lia). done. }
  destruct (header_check (p_Header p)) as [e|] eqn:Ec.
  - assert (E : packet_MarshalTo p (drop n (data g)) = (Err ErrInvalidPadding, drop n (data g)) \/ packet_MarshalTo p (drop n (data g)) = (Err e, drop n (data g))).
    { unfold packet_MarshalTo. destruct (negb _); [by left|right]. unfold header_MarshalTo. by rewrite Ec. }
    by destruct E as [-> | ->].
  - assert (H0 : 0 <= header_MarshalSize (p_Header p)) by (rewrite <-zlen_enc_header by done; apply zlen_nonneg). assert (Hz : zlen (drop n (data g)) = packet_MarshalSize p).
    { subst g n. unfold growSlice. assert (0 <= packet_MarshalSize p) by (unfold packet_MarshalSize; lia). destruct (Z.leb_spec (packet_MarshalSize p) (zlen (spare s))); cbn [data]; rewrite drop_app_length; unfold zlen in *; [rewrite length_take; lia|rewrite length_replicate; lia]. }
    specialize (Hc _ Hz eq_refl). by destruct (packet_MarshalTo p _) as [[]].
Qed.

Lemma encodeMedia_total s pkt : returns (encodeMedia s pkt).1 (fun _ => True).
Proof. by apply packet_AppendTo_total. Qed.

(** ** Null-packet deletion *)

Lemma simple_decode_total b d : is_bytes b -> returns (decode b d).1 (fun _ => True).
Proof.
  intros Hb. unfold decode. pose proof (rtp_decode_total b rtp_zero Hb) as H. destruct (packet_Unmarshal b rtp_zero) as [[u|e|] p]; [|done..]. destruct (negb _); [done|]. by destruct (sourceTime _ _ _).
Qed.
Lemma simple_feedback_total b ref : is_bytes b -> exists r, decodeFeedback b ref = Some r /\ returns r (fun _ => True).
Proof. intros Hb. unfold decodeFeedback. destruct (rtcp.parse_compound_any b Hb) as (r & -> & Hr). eexists. split; [reflexivity|]. by destruct r. Qed.

Lemma Suppress_total input : returns (Suppress input []).1 (fun _ => True).
Proof. destruct (Suppress_cases input []) as [(sz & ps & Hps & ->)|(e & ->)]; [|done]. by rewrite (Suppress_spec sz ps). Qed.

Lemma fecPayload_total payload c : returns (maincodec.fecPayload payload c) (fun _ => True).
Proof.
  unfold maincodec.fecPayload. destruct (negb _); [done|]. destruct (Suppress_cases payload []) as [(sz & ps & Hps & ->)|(e & ->)]; [|done]. rewrite (Suppress_spec sz ps) by done. destruct (_ =? 0); [done|].
  unfold maincodec.expand. cbn [app]. by rewrite (Expand_spec sz ps).
Qed.

(** ** The Main profile *)

Section main.
Context (pbkdf2 : bytes -> bytes -> Z -> option bytes) (aes : bytes -> bytes -> bytes).

Lemma gre_AppendTo_total h dst : returns (gre.AppendTo h dst).1 (fun _ => True).
Proof. unfold gre.AppendTo. by destruct (_ <? _). Qed.

(** The result of an encoder that threads its codec and the random draws. *)
Definition encoded {E C} (x : (res E bytes * C) * list (option bytes)) : Prop := returns x.1.1 (fun _ => True).

Lemma seal_total hdr dst region draws c : encoded (maincodec.seal pbkdf2 aes hdr dst region draws c).
Proof.
  unfold encoded, maincodec.seal. destruct (maincodec.sendKey c) as [k|].
  - pose proof (psk.Encrypt_returns pbkdf2 aes (gre.Seq hdr) region draws k) as H. destruct (psk.Encrypt _ _ _ _ _ _ _) as [[[ct|e|] k'] ds]; [|done..].
    set (h := gre.mkHeader _ _ _ _ _ _ _). pose proof (gre_AppendTo_total h dst) as G. by destruct (gre.AppendTo h dst) as [[] ?].
  - pose proof (gre_AppendTo_total hdr dst) as G. by destruct (gre.AppendTo hdr dst) as [[] ?].
Qed.

Lemma rekey_total draws k : returns (psk.rekey pbkdf2 draws k).1.1 (fun _ => True).
Proof.
  unfold psk.rekey. pose proof (psk.generate_nonce_returns 8 (psk.k_odd k) draws) as H. fold (psk.generateNonce (psk.k_odd k) draws) in H. destruct (psk.generateNonce (psk.k_odd k) draws) as [[nonce|e|] ds]; [|done..].
  pose proof (psk.deriveBlock_returns pbkdf2 (psk.k_password k) nonce (psk.k_keyBits k) (psk.k_raw k)) as H2. by destruct (psk.deriveBlock _ _ _ _ _).
Qed.

Lemma build_in_scratch_total f c : (forall s, returns (f s).1 (fun _ => True)) -> returns (maincodec.build_in_scratch f c).1 (fun _ => True).
Proof. intros H. unfold maincodec.build_in_scratch. set (s := mkSlice _ _). specialize (H s). by destruct (f s) as [[] ?]. Qed.

Lemma buildMediaRTP_total pkt c : returns (maincodec.buildMediaRTP pkt c).1 (fun _ => True).
Proof.
  assert (HP : returns (maincodec.build_in_scratch (fun s => encodeMedia s pkt) c).1 (fun _ => True)) by (apply build_in_scratch_total; intros s; apply encodeMedia_total).
  unfold maincodec.buildMediaRTP. destruct (negb _); [done|]. destruct (Suppress_cases (Payload pkt) []) as [(sz & ps & Hps & E)|(e & ->)]; [|done]. rewrite E, (Suppress_spec sz ps) by done. destruct (_ =? 0); [done|].
  destruct (maincodec.npd_ext sz ps Hps) as (ext & -> & _). apply build_in_scratch_total. intros s. by apply packet_AppendTo_total.
Qed.

Lemma frame_total dst inner draws c : encoded (maincodec.frame pbkdf2 aes dst inner draws c).
Proof. apply seal_total. Qed.

Lemma encodeMainMedia_total dst pkt draws c : encoded (maincodec.encodeMainMedia pbkdf2 aes dst pkt draws c).
Proof. unfold maincodec.encodeMainMedia. pose proof (buildMediaRTP_total pkt c) as H. destruct (maincodec.buildMediaRTP pkt c) as [[inner|e|] c1]; [apply frame_total|done|done]. Qed.

Lemma encodeMainFeedback_total dst lead fbs bm draws c : encoded (maincodec.encodeMainFeedback pbkdf2 aes dst lead fbs bm draws c).
Proof.
  unfold maincodec.encodeMainFeedback, maincodec.buildCompound. set (pkts := [_; _] ++ _). pose proof (BuildCompound_total (mkSlice [] []) pkts) as H. destruct (rtcp.BuildCompound _ pkts) as [s|e|]; [apply frame_total|done|done].
Qed.

Lemma frameControl_total dst body version proto sub draws c : encoded (maincodec.frameControl pbkdf2 aes dst body version proto sub draws c).
Proof. unfold maincodec.frameControl. destruct (_ <=? _); apply seal_total. Qed.

Lemma encodeOOB_total dst payload prot draws c : encoded (maincodec.encodeOOB pbkdf2 aes dst payload prot draws c).
Proof. apply seal_total. Qed.

Lemma encodeEAPOL_total dst eap c : returns (maincodec.encodeEAPOL dst eap c).1 (fun _ => True).
Proof. unfold maincodec.encodeEAPOL. set (h := maincodec.plain_header _ _ _). pose proof (gre_AppendTo_total h dst) as G. by destruct (gre.AppendTo h dst) as [[] ?]. Qed.

(** ** The Advanced profile *)

Lemma Build_total dst p payload : returns (adv.Build dst p payload) (fun _ => True).
Proof.
  unfold adv.Build. destruct (_ <? _); [done|]. destruct (_ <? _); [done|]. destruct (_ <? _); [done|].
  assert (HC : forall b n, returns (adv.checkPSKSlice b n) (fun _ => True)) by (intros [b|] n; unfold adv.checkPSKSlice; [by destruct (negb _)|done]).
  repeat (eapply adv.returns_bind; [apply HC|intros ? _]). by destruct (adv.SplitSeq _).
Qed.

Lemma wrap_Build_total dst p payload : returns (advcodec.wrap advcodec.ErrAdv (adv.Build dst p payload)) (fun _ => True).
Proof. pose proof (Build_total dst p payload) as H. by destruct (adv.Build dst p payload). Qed.

Lemma frameControlFrag_total dst payload first last ts c : returns (advcodec.frameControlFrag dst payload first last ts c).1 (fun _ => True).
Proof. apply wrap_Build_total. Qed.

Lemma emit_all_total ps ts c : returns (advcodec.emit_all ps ts c).1 (fun _ => True).
Proof.
  revert c. induction ps as [|p ps IH]; intros c; cbn [advcodec.emit_all]; [done|]. unfold mbind, sres_bind. pose proof (frameControlFrag_total [] p true true ts c) as H. unfold advcodec.frameControl. destruct (advcodec.frameControlFrag [] p true true ts c) as [[dg|e|] c1]; [|done..].
  specialize (IH c1). by destruct (advcodec.emit_all ps ts c1) as [[] ?].
Qed.

Lemma adv_encodeFeedback_total fbs bm ts c : returns (advcodec.encodeFeedback fbs bm ts c).1 (fun _ => True).
Proof.
  revert c. induction fbs as [|fb fbs IH]; intros c; cbn [advcodec.encodeFeedback]; [done|]. unfold mbind, sres_bind, advcodec.with_self. pose proof (emit_all_total (advcodec.feedback_payloads c bm fb) ts c) as H. destruct (advcodec.emit_all _ ts c) as [[dgs|e|] c1]; [|done..].
  specialize (IH c1). by destruct (advcodec.encodeFeedback fbs bm ts c1) as [[] ?].
Qed.
End main.

(** ** Compression *)

Section compression.
Import lpc.

Lemma load32_total src i : 0 <= i -> i + 4 <= zlen src -> exists v, load32 src i = Ok v.
Proof.
  intros Hi Hn. destruct (slc_at (E:=err) src i (i + 4)) as (p & _ & (A & B & E & HA) & Hp); [lia|lia|]. unfold load32. rewrite E, slc_from_app by done. cbn [mbind res_bind]. unfold LE_Uint32. rewrite slc_here by lia. by eexists.
Qed.

Lemma compress_loop_total fuel src ip anchor table dst : 0 <= anchor <= ip -> ip + lastLiterals <= zlen src -> table_ok table ip -> Z.max 0 (zlen src - mfLimit + 1 - ip) < Z.of_nat fuel ->
  exists out, compress_loop fuel src ip anchor table dst = Ok out.
Proof.
  unfold mfLimit, lastLiterals, minMatch. revert ip anchor table dst. induction fuel as [|fuel IH]; intros ip anchor table dst Ha Hip Ht Hf; [lia|]. cbn [compress_loop]. unfold mfLimit, minMatch, lastLiterals.
  destruct (Z.leb_spec ip (zlen src - (4 + 5))); [|rewrite slc_from_drop by lia; by eexists]. destruct (load32_total src ip) as (p & Ep); [lia|lia|]. rewrite Ep. cbn [mbind res_bind].
  destruct (tget_ok table ip (hash p) Ht (hash_range _)) as (ref & -> & Href). cbn [mbind res_bind].
  destruct (tset_ok table ip (hash p) (i32 ip) (ip + 1) Ht (hash_range _)) as (t & -> & Ht'); [lia|pose proof (i32_le ip ltac:(lia)); lia|]. cbn [mbind res_bind].
  destruct ((ref <? 0) || (maxOffset <? ip - ref)) eqn:Em; [cbn [mbind res_bind]; apply IH; [lia|lia|done|lia]|].
  apply orb_false_iff in Em as [E1%Z.ltb_ge E2%Z.ltb_ge]. destruct (load32_total src ref) as (q & ->); [lia|lia|]. cbn [mbind res_bind]. destruct (q =? p); cbn [negb]; [|apply IH; [lia|lia|done|lia]].
  destruct (extend_ok (S (length src)) src (zlen src - 5) (ip + 4) (ref + 4)) as (e & -> & He & _); [lia|lia|lia|unfold zlen in *; lia|]. cbn [mbind res_bind].
  destruct (slc_at (E:=err) src anchor ip) as (lits & -> & _); [lia|lia|]. cbn [mbind res_bind].
  assert (Htab : exists t', (if (0 <=? e - 1) && (e - 1 <=? zlen src - (4 + 5)) then w ← load32 src (e - 1); tset t (hash w) (i32 (e - 1)) else Ok t) = Ok t' /\ table_ok t' e).
  { destruct ((0 <=? e - 1) && (e - 1 <=? zlen src - (4 + 5))) eqn:Eg; [|exists t; split; [done|]; apply (table_ok_mono t (ip + 1)); [done|lia]].
    apply andb_true_iff in Eg as [G1%Z.leb_le G2%Z.leb_le]. destruct (load32_total src (e - 1)) as (w & ->); [lia|lia|]. cbn [mbind res_bind].
    apply (tset_ok t (ip + 1)); [done|apply hash_range|lia|pose proof (i32_le (e - 1)); lia]. }
  destruct Htab as (t' & -> & Ht''). cbn [mbind res_bind]. apply IH; [lia|lia|done|lia].
Qed.

Lemma Compress_total dst src : exists out, Compress dst src = Ok out.
Proof.
  unfold Compress. destruct (Z.ltb_spec (zlen src) minLength) as [|Hm]; [by eexists|]. unfold minLength, mfLimit, minMatch, lastLiterals in Hm.
  destruct (load32_total src 0) as (w & ->); [lia|lia|]. cbn [mbind res_bind].
  assert (Ht0 : table_ok (replicate (Z.to_nat hashTableSize) (-1)) 0) by (split; [unfold zlen; rewrite length_replicate, Z2Nat.id by done; done|apply Forall_replicate; lia]).
  destruct (tset_ok _ 0 (hash w) (i32 0) 1 Ht0 (hash_range _)) as (t & -> & Ht); [lia|done|]. cbn [mbind res_bind]. apply compress_loop_total; [lia|unfold lastLiterals; lia|done|unfold mfLimit, minMatch, lastLiterals, zlen in *; lia].
Qed.
End compression.

Lemma encodeAdvMedia_total pbkdf2 aes dst pkt draws c : encoded (advcodec.encodeAdvMedia pbkdf2 aes dst pkt draws c).
Proof.
  unfold encoded, advcodec.encodeAdvMedia. assert (HC : exists x, advcodec.compress_payload c (Payload pkt) = Ok x).
  { unfold advcodec.compress_payload. destruct (_ && _); [|by eexists]. destruct (Compress_total [] (Payload pkt)) as (out & ->). destruct (_ <? _); by eexists. }
  destruct HC as ([payload mode] & ->). destruct (advcodec.sendKey c) as [k|]; [|apply wrap_Build_total].
  pose proof (psk.Encrypt_returns pbkdf2 aes (Seq pkt) payload draws k) as H. destruct (psk.Encrypt _ _ _ _ _ _ _) as [[[ct|e|] k'] ds]; [|done..]. apply wrap_Build_total.
Qed.

(** ** Forward error correction *)

Lemma idx_total {E} b i : 0 <= i < zlen b -> exists x, idx (E:=E) b i = Ok x.
Proof. intros H. unfold idx. destruct (Z.ltb_spec i 0); [lia|]. destruct (lookup_lt_is_Some_2 b (Z.to_nat i)) as [x ->]; [unfold zlen in H; lia|]. by eexists. Qed.
Lemma u16_total {E} b i j : 0 <= i -> j = i + 2 -> j <= zlen b -> exists x, (t ← slc (E:=E) b i j; Uint16 t) = Ok x.
Proof. intros H0 -> H1. destruct (slc_at (E:=E) b i (i + 2)) as (t & -> & _ & Ht); [lia|lia|]. cbn [mbind res_bind]. unfold Uint16. destruct (slc_at (E:=E) t 0 2) as (u & -> & _); [lia|lia|]. by eexists. Qed.
Lemma u32_total {E} b i j : 0 <= i -> j = i + 4 -> j <= zlen b -> exists x, (t ← slc (E:=E) b i j; Uint32 t) = Ok x.
Proof. intros H0 -> H1. destruct (slc_at (E:=E) b i (i + 4)) as (t & -> & _ & Ht); [lia|lia|]. cbn [mbind res_bind]. unfold Uint32. destruct (slc_at (E:=E) t 0 4) as (u & -> & _); [lia|lia|]. by eexists. Qed.

Ltac read_ok :=
  match goal with
  | |- context [@idx ?E ?b ?i] => let H := fresh in destruct (idx_total (E:=E) b i) as (? & H); [lia|]; rewrite H; clear H; cbn [mbind res_bind]
  | |- context [mbind (fun t => @Uint16 ?E t) (slc ?b ?i ?j)] => let H := fresh in destruct (u16_total (E:=E) b i j) as (? & H); [lia|lia|lia|]; rewrite H; clear H; cbn [mbind res_bind]
  | |- context [mbind (fun t => @Uint32 ?E t) (slc ?b ?i ?j)] => let H := fresh in destruct (u32_total (E:=E) b i j) as (? & H); [lia|lia|lia|]; rewrite H; clear H; cbn [mbind res_bind]
  end.

Lemma parse_fec_total b d : returns (fecm.parse_fec b d) (fun _ => True).
Proof.
  unfold fecm.parse_fec, fec.ParseHeader5, fec.ParseHeader. destruct (fecm.Var _); unfold fec.HeaderSize; destruct (Z.ltb_spec (zlen b) 16); try done; cbn [mbind res_bind]; repeat read_ok; destruct (slc_at (E:=fec.fecError) b 16 (zlen b)) as (t & E & _); try lia; unfold slc_from; rewrite E; done.
Qed.

Lemma PushMedia_total s ts pt ssrc payload d : is_Some (fecm.PushMedia s ts pt ssrc payload d).
Proof. unfold fecm.PushMedia. destruct (_ !! s); [by eexists|]. set (d1 := fecm.store _ _ _ _ _ _). destruct (fecdec.recoverAll_ends d1) as [d2 ->]. by eexists. Qed.

Lemma PushFEC_total b d : exists r d', fecm.PushFEC b d = Some (r, d') /\ returns r (fun _ => True).
Proof.
  unfold fecm.PushFEC. set (d0 := d <| fecm.d_out := [] |>). pose proof (parse_fec_total b d0) as H. destruct (fecm.parse_fec b d0) as [f|e|]; [|by eexists _, _|done]. destruct (_ || _ || _); [by eexists _, _|]. destruct (negb _); [by eexists _, _|]. destruct (existsb _ _); [by eexists _, _|].
  set (d1 := fecm.cap_fecs d0 <| fecm.fecs ::= _ |>). destruct (fecdec.recoverAll_ends d1) as [d2 ->]. by eexists _, _.
Qed.

(** ** Link quality *)

Lemma Marshal_total m : exists b, adapt.Marshal m = Ok b.
Proof. unfold adapt.Marshal, adapt.lqm_AppendTo. change (Z.to_nat adapt.LQMSize) with 44%nat. assert (H : zlen (replicate 44 0 : bytes) = 44) by done. repeat put_ok. by eexists. Qed.
End codectotal.
