(* ===== verification/Session.v ===== *)
(** * Sessions: state, transmission, reception statistics, timers and delivery

    The state of a session (src/internal/session/session.go; that of a bonded session is in SessionBond) and the operations every profile shares: RTCP reports
    (session_rtcp.go), forward error correction (fec.go), source adaptation (adapt.go), the timer wheel and the application's calls (api.go).  A session is
    a [Session] record; an operation is a state transformer [M] that can only succeed or panic, errors being logged and dropped by the code.
    The sockets are the list of datagrams written and the list of the writes that are to fail; random draws are lists; the callbacks'
    arguments are logs.  The handlers of the Main and Advanced profiles and the event loop are in SessionMain, SessionAdv and SessionLoop. *)

From stdpp Require Import gmap.
From S2P Require Import Prelude GoFloat Bytes Clock Wire Rtp Rtcp FlowTypes FlowNew Receiver Flow FlowChecked Split Reassembler Gre Peer Psk Adv AdvCtrl Adapt FecHeader Fec SimpleCodec AdvCodec MainCodec Eap EapState EapClient EapServer.

Module session.
Import peer.

#[local] Existing Instances adapt.eta_lqm_state maincodec.eta_mainCodec.

Definition maxDatagram : Z := 2048.

(** ** Configuration *)

Inductive err := ErrClosed | ErrTimeout | ErrSessionTimeout | ErrBufferOverflow | ErrAuth | ErrOOBUnsupported | ErrNPDUnsupported | ErrSendBlockUnsupported | ErrFlowAttrUnsupported.

Record FECParams := mkFECParams { f_Cols : Z; f_Rows : Z; f_ColumnOnly : bool; SeparatePorts : bool; f_Variant : fecm.Variant }.

Record MainParams := mkMainParams {
  mp_SendKey : option psk.Key; mp_RecvKey : option psk.Decryptor; mp_KeySize256 : bool; mp_NPD : bool; mp_VirtSrcPort : Z; mp_VirtDstPort : Z;
  mp_EAPClient : option authenticatee.Authenticatee; mp_EAPServer : option authenticator.Authenticator;
  mp_UseKeyAsPassphrase : bool; mp_EAPKeySize256 : bool; mp_EAPKeyRotation : Z }.

Record AdvParams := mkAdvParams {
  ap_SendKey : option psk.Key; ap_RecvKey : option psk.Decryptor; ap_GRESendKey : option psk.Key; ap_GRERecvKey : option psk.Decryptor; ap_KeySize256 : bool;
  ap_Compression : bool; ap_VirtSrcPort : Z; ap_VirtDstPort : Z }.

(** [OnConnect] is the application's answer for an address and a user name. *)
Record Config := mkSessConfig {
  c_Flow : FlowTypes.Config; c_SSRC : Z; c_CNAME : bytes; c_Bitmask : bool; KeepaliveInterval : Z; SessionTimeout : Z;
  c_Main : option MainParams; c_Adv : option AdvParams; AdvSenderStartMain : bool; AnswerAdvRTTEcho : bool;
  AdaptLQM : bool; RateController : option adapt.Controller; OnConnect : option (AddrPort -> bytes -> bool);
  FragmentSize : Z; c_SplitMode : SplitMode; c_MergeMode : MergeMode; c_FEC : option FECParams; OneWay : bool; BlockDelivery : bool }.
#[export] Instance eta_SessConfig : Eta Config := fun c => mkSessConfig
  (c_Flow c) (c_SSRC c) (c_CNAME c) (c_Bitmask c) (KeepaliveInterval c) (SessionTimeout c) (c_Main c) (c_Adv c) (AdvSenderStartMain c) (AnswerAdvRTTEcho c)
  (AdaptLQM c) (RateController c) (OnConnect c) (FragmentSize c) (c_SplitMode c) (c_MergeMode c) (c_FEC c) (OneWay c) (BlockDelivery c).

(** ** State *)

Record rxStats := mkRxStats {
  baseSet : bool; baseSeq : Z; highest : Z; mediaSSRC : Z; jitter : f64; transit : Z; haveTransit : bool; lastExpected : Z; lastReceived : Z }.
#[export] Instance eta_rxStats : Eta rxStats := fun r =>
  mkRxStats (baseSet r) (baseSeq r) (highest r) (mediaSSRC r) (jitter r) (transit r) (haveTransit r) (lastExpected r) (lastReceived r).

(** The negotiation of the GRE version and of capabilities. *)
Record greState := mkGreState {
  greVersion : Z; localMAC : bytes; remoteCaps : gre.Capabilities; remoteMAC : bytes; senderMaxBufferMs : Z; advertisedBufMs : Z; greBurstSent : bool;
  remoteSupportsAdvanced : bool; advPeerKnown : bool }.
#[export] Instance eta_greState : Eta greState := fun g => mkGreState
  (greVersion g) (localMAC g) (remoteCaps g) (remoteMAC g) (senderMaxBufferMs g) (advertisedBufMs g) (greBurstSent g) (remoteSupportsAdvanced g) (advPeerKnown g).

(** Authentication: the EAP role, the gate of the data channel, and the keys the handshake installs. *)
Record eapState := mkEapState {
  eapClient : option authenticatee.Authenticatee; eapServer : option authenticator.Authenticator; eapStartSent : bool; eapLastTx : option eap.Frame; eapRetx : Z;
  peerCNAME : bytes; everAuthed : bool; connected : option (AddrPort * bytes); reauthing : bool; reauthDeadline : Z; authed : bool;
  useKeyAsPassphrase : bool; eapKeySize256 : bool; eapKeyRotation : Z; pwReqSent : bool; txKeyGen : Z; rxKeyGen : Z }.
#[export] Instance eta_eapState : Eta eapState := fun e => mkEapState
  (eapClient e) (eapServer e) (eapStartSent e) (eapLastTx e) (eapRetx e) (peerCNAME e) (everAuthed e) (connected e) (reauthing e) (reauthDeadline e) (authed e)
  (useKeyAsPassphrase e) (eapKeySize256 e) (eapKeyRotation e) (pwReqSent e) (txKeyGen e) (rxKeyGen e).

Record fecState := mkFecState { fecEnc : option fecm.Encoder; fecDec : option fecm.Decoder; fecColSeq : Z; fecRowSeq : Z; fecCtrlReasm : fecCtrlReassembler }.
#[export] Instance eta_fecState : Eta fecState := fun f => mkFecState (fecEnc f) (fecDec f) (fecColSeq f) (fecRowSeq f) (fecCtrlReasm f).

Inductive sock := SockMedia | SockRTCP.
(** [dg_conn] is the socket of a bonded session, 0 for a session with one. *)
Record datagram := mkDatagram { dg_conn : Z; dg_sock : sock; dg_dst : AddrPort; dg_data : bytes }.

(** What lies outside the session: datagrams written (the last one first), the outcomes of the writes to come, the random draws left for nonces and for EAP secrets,
    what the callbacks were given, and the path and length of the media packets accepted, which the group of a bonded session counts. *)
Record world := mkWorldS { written : list datagram; faults : list bool; draws : list (option bytes); secrets : list (option Z); rateTargets : list Z; flowAttrs : list bytes; counted : list (Z * Z) }.
#[export] Instance eta_world : Eta world := fun w => mkWorldS (written w) (faults w) (draws w) (secrets w) (rateTargets w) (flowAttrs w) (counted w).

Record mediaBlock := mkBlock { b_seq : Z; b_sourceTime : Z; b_virtSrcPort : Z; b_virtDstPort : Z; b_payload : bytes }.

Record Session := mkSession {
  s_cfg : Config; s_flow : Flow; s_peer : Peer; s_sender : bool; s_announce : bool; s_mdec : mediaDecoder;
  callerRebind : bool; rebindAttempts : Z; lastRebind : Z;
  s_main : option maincodec.mainCodec; s_adv : option advcodec.advCodec; s_advGRE : option maincodec.mainCodec;
  s_gre : greState; s_eap : eapState; s_fec : fecState; s_lqm : adapt.lqm_state; s_rx : rxStats;
  timers : gmap Z Z; highestSent : Z; lastTx : Z;
  delivery : list bytes; blockOut : option (list mediaBlock); oobOut : list (Z * bytes); leftover : bytes;
  fragSize : Z; reasm : fragReassembler; splitMode : SplitMode; merger : Merger;
  mediaBuf : slice; rtcpBuf : slice; closeErr : option err; s_world : world }.
#[export] Instance eta_Session : Eta Session := fun s => mkSession
  (s_cfg s) (s_flow s) (s_peer s) (s_sender s) (s_announce s) (s_mdec s) (callerRebind s) (rebindAttempts s) (lastRebind s)
  (s_main s) (s_adv s) (s_advGRE s) (s_gre s) (s_eap s) (s_fec s) (s_lqm s) (s_rx s) (timers s) (highestSent s) (lastTx s)
  (delivery s) (blockOut s) (oobOut s) (leftover s) (fragSize s) (reasm s) (splitMode s) (merger s) (mediaBuf s) (rtcpBuf s) (closeErr s) (s_world s).

(** ** Operations *)

Definition M (A : Type) : Type := sres Session Empty_set A.
Definition get : M Session := fun s => (Ok s, s).
Definition gets {A} (f : Session -> A) : M A := fun s => (Ok (f s), s).
Definition nop : M unit := mret tt.
Definition panic {A} : M A := fun s => (Panic, s).
Definition when (b : bool) (m : M unit) : M unit := if b then m else nop.

Fixpoint each {A} (f : A -> M unit) (l : list A) : M unit :=
  match l with [] => nop | x :: l => f x ;; each f l end.

(** Run a function that can fail on a part of the state: [None] is an error, which the callers log. *)
Definition attempt {E A} (r : res E A) : M (option A) :=
  match r with Ok a => mret (Some a) | Err _ => mret None | Panic => panic end.

(** [conn.WriteMedia] and [conn.WriteRTCP]: whether the write succeeded; a failing write may still have left. *)
Definition write_on (conn : Z) (k : sock) (b : bytes) (dst : AddrPort) : M bool := fun s =>
  let w := s_world s <| written ::= cons (mkDatagram conn k dst b) |> in
  match faults w with
  | [] => (Ok true, s <| s_world := w |>)
  | fault :: rest => (Ok (negb fault), s <| s_world := w <| faults := rest |> |>)
  end.
Definition write : sock -> bytes -> AddrPort -> M bool := write_on 0.

(** A call of the flow core, with the run-time panic of an index out of range. *)
Definition on_flow (g : Flow -> option Flow) : M unit := fun s =>
  match g (s_flow s) with Some f => (Ok tt, s <| s_flow := f |>) | None => (Panic, s) end.

Definition sent_at (now : Z) : M unit := modify (fun s => s <| lastTx := now |>).

(** Calls of the codecs, with a nil codec as a panic. *)
Definition main_call (f : list (option bytes) -> maincodec.mainCodec -> (res maincodec.err bytes * maincodec.mainCodec) * list (option bytes)) : M (option bytes) := fun s =>
  match s_main s with
  | None => (Panic, s)
  | Some c => let '((r, c), ds) := f (draws (s_world s)) c in attempt r (s <| s_main := Some c |> <| s_world ::= fun w => w <| draws := ds |> |>)
  end.
Definition gre_call (f : list (option bytes) -> maincodec.mainCodec -> (res maincodec.err bytes * maincodec.mainCodec) * list (option bytes)) : M (option bytes) := fun s =>
  match s_advGRE s with
  | None => (Panic, s)
  | Some c => let '((r, c), ds) := f (draws (s_world s)) c in attempt r (s <| s_advGRE := Some c |> <| s_world ::= fun w => w <| draws := ds |> |>)
  end.
Definition adv_call {A} (f : sres advcodec.advCodec advcodec.err A) : M (option A) := fun s =>
  match s_adv s with None => (Panic, s) | Some c => let '(r, c) := f c in attempt r (s <| s_adv := Some c |>) end.

Definition seqAfter (a b : Z) : bool := 0 <? i32 (u32 (a - b)).

Definition fecEnabled (s : Session) : bool := match c_FEC (s_cfg s) with Some _ => true | None => false end.
Definition is_main (s : Session) : bool := match s_main s with Some _ => true | None => false end.
Definition is_adv (s : Session) : bool := match s_adv s with Some _ => true | None => false end.

Definition advInMainWindow (s : Session) : bool :=
  is_adv s && AdvSenderStartMain (s_cfg s) && negb (remoteSupportsAdvanced (s_gre s)) && negb (fecEnabled s) && (FragmentSize (s_cfg s) =? 0).

(** [shutdown]: only the first call has an effect. *)
Definition shutdown (reason : err) : M unit := modify (fun s => match closeErr s with Some _ => s | None => s <| closeErr := Some reason |> end).
Definition closeReason (s : Session) : err := default ErrClosed (closeErr s).

Definition advCtrlTS (now : Z) : Z := u32 (u64 (Z.shiftl (u64 now) advcodec.advClockShift)).

Section io.
(** PBKDF2 and AES; the wall clock: the NTP value of an instant of the session clock ([RealClock.WallNTP]) and the one read at it ([time.Now]). *)
Context (pbkdf2 : bytes -> bytes -> Z -> option bytes) (aes : bytes -> bytes -> bytes) (WallNTP ntpNow : Z -> Z).

(** ** FEC on the sending side

    The scratch buffer [fecBuf] is left out: whatever it held is overwritten ([packet_AppendTo_spec]). *)

Definition fecRTPPayloadSize : Z := 1500.
Definition fecPT : Z := 127.
Definition fecColumnPortOffset : Z := 2.
Definition fecRowPortOffset : Z := 4.
Definition fecMaxCtrlBody : Z := 1400.

Definition fecPayloadSize (s : Session) : Z := if is_adv s then maxDatagram else fecRTPPayloadSize.
Definition fecConfig (f : FECParams) : fecm.Config := fecm.mkConfig (f_Cols f) (f_Rows f) (f_ColumnOnly f) (f_Variant f).

Definition fecControlIndices (s : Session) : Z * Z :=
  match c_FEC (s_cfg s) with
  | Some f => match f_Variant f with fecm.Variant20225 => (advctrl.CIFEC20225Row, advctrl.CIFEC20225Col) | _ => (advctrl.CIFEC20221Row, advctrl.CIFEC20221Col) end
  | None => (advctrl.CIFEC20221Row, advctrl.CIFEC20221Col)
  end.
Definition fecControlIndex (ci : Z) (s : Session) : bool :=
  match c_FEC (s_cfg s) with None => false | Some _ => let '(row, col) := fecControlIndices s in (ci =? row) || (ci =? col) end.

Definition fecFragRole (first last : bool) : FragRole :=
  if first && last then FragStandalone else if first then FragFirst else if last then FragLast else FragMiddle.

Definition is_row (fp : fecm.Packet) : bool := match fecm.pk_Direction fp with fec.Row => true | fec.Column => false end.

Definition writeFECControl (body : bytes) (first last : bool) (now : Z) : M unit :=
  r ← adv_call (advcodec.frameControlFrag [] body first last (advCtrlTS now));
  match r with
  | None => nop
  | Some b => s ← get; write SockMedia b (Media (s_peer s)) ;; nop
  end.

(** The loop over the fragments of a long control message. *)
Fixpoint write_fragments (fuel : nat) (off : Z) (body : bytes) (now : Z) : M unit :=
  match fuel with
  | O => nop
  | S fuel =>
      if negb (off <? zlen body) then nop else
      let end_ := off + fecMaxCtrlBody in
      let end_ := if zlen body <? end_ then zlen body else end_ in
      part ← lift (slc body off end_);
      writeFECControl part (off =? 0) (end_ =? zlen body) now ;;
      write_fragments fuel (off + fecMaxCtrlBody) body now
  end.

Definition sendFECSeparate (fp : fecm.Packet) : M unit :=
  s ← get;
  let row := is_row fp in
  let seq := if row then fecRowSeq (s_fec s) else fecColSeq (s_fec s) in
  let off := if row then fecRowPortOffset else fecColumnPortOffset in
  let dst := mkAddrPort (ap_addr (Media (s_peer s))) (u16 (ap_port (Media (s_peer s)) + off)) in
  modify (fun s => s <| s_fec ::= fun f => if row then f <| fecRowSeq := u16 (seq + 1) |> else f <| fecColSeq := u16 (seq + 1) |> |>) ;;
  match packet_AppendTo (mkPacket (mkHeader 2 false false 0 false fecPT seq 0 (c_SSRC (s_cfg s)) [] 0 []) (fecm.pk_Data fp) 0) (mkSlice [] []) with
  | (Ok _, b) => write SockMedia (data b) dst ;; nop
  | (Err _, _) => nop
  | (Panic, _) => panic
  end.

Definition sendFEC (now : Z) (fp : fecm.Packet) : M unit :=
  s ← get;
  if negb (IsValid (Media (s_peer s))) then nop else
  match c_FEC (s_cfg s) with
  | None => panic
  | Some f =>
      if SeparatePorts f then sendFECSeparate fp else
      let '(rowCI, colCI) := fecControlIndices s in
      let ci := if is_row fp then rowCI else colCI in
      let body := advctrl.BuildControl [] ci (fecm.pk_Data fp) in
      if zlen body <=? fecMaxCtrlBody then writeFECControl body true true now else write_fragments (length body) 0 body now
  end.

(** The packets that the matrix completes with a source packet. *)
Definition fec_parity (pkt : MediaPacket) (dg : bytes) : M (list fecm.Packet) :=
  s ← get;
  match c_FEC (s_cfg s) with
  | None => panic
  | Some f =>
      let enc := default (fecm.NewEncoder (fecConfig f) (fecPayloadSize s) (Seq pkt)) (fecEnc (s_fec s)) in
      pushed ← (if is_adv s then mret (fecm.Push (Seq pkt) 0 0 dg enc) else
        payload ← (match s_main s with None => mret (Payload pkt) | Some c => lift (match maincodec.fecPayload (Payload pkt) c with Ok p => Ok p | Err _ => Ok (Payload pkt) | Panic => Panic end) end);
        mret (fecm.Push (Seq pkt) (rtpTSFromSource (SourceTime pkt)) fecPT payload enc));
      modify (fun s => s <| s_fec ::= fun f => f <| fecEnc := Some pushed.2 |> |>) ;;
      mret pushed.1
  end.

Definition fecOnSend (now : Z) (pkt : MediaPacket) (dg : bytes) : M unit :=
  if Retransmit pkt then nop else
  fps ← fec_parity pkt dg;
  each (sendFEC now) fps.

(** ** Transmission *)

Definition maybeAnnounceAdvNonce (now : Z) : M unit :=
  r ← adv_call (fun c => let '(a, c) := advcodec.takeNonceAnnounce c in (Ok a, c));
  s ← get;
  match r with
  | Some (nonce, bits, true) =>
      if negb (IsValid (RTCP (s_peer s))) then nop else
      r ← adv_call (advcodec.pskNonceDatagram (advctrl.mkPSKNonceMsg nonce (u16 bits)) (advCtrlTS now));
      match r with None => nop | Some dg => write SockMedia dg (RTCP (s_peer s)) ;; nop end
  | _ => nop
  end.

(** [buf[:0]] *)
Definition reslice (b : slice) : slice := mkSlice [] (data b ++ spare b).

Definition encode_media (pkt : MediaPacket) : M (option bytes) :=
  s ← get;
  if is_main s then main_call (maincodec.encodeMainMedia pbkdf2 aes [] pkt)
  else if advInMainWindow s then gre_call (maincodec.encodeMainMedia pbkdf2 aes [] pkt)
  else match s_adv s with
  | Some c =>
      let '((r, c), ds) := advcodec.encodeAdvMedia pbkdf2 aes [] pkt (draws (s_world s)) c in
      modify (fun s => s <| s_adv := Some c |> <| s_world ::= fun w => w <| draws := ds |> |>) ;; attempt r
  | None =>
      let '(r, b) := encodeMedia (reslice (mediaBuf s)) pkt in
      r ← attempt r;
      match r with None => modify (fun s => s <| mediaBuf := reslice (mediaBuf s) |>) ;; mret None | Some _ => modify (fun s => s <| mediaBuf := b |>) ;; mret (Some (data b)) end
  end.

Definition sendMedia (now : Z) (pkt : MediaPacket) : M unit :=
  s ← get;
  if negb (IsValid (Media (s_peer s))) then nop else
  r ← encode_media pkt;
  match r with
  | None => nop
  | Some b =>
      write SockMedia b (Media (s_peer s)) ;;
      sent_at now ;;
      when (is_adv s) (maybeAnnounceAdvNonce now) ;;
      s ← get;
      when (fecEnabled s && negb (advInMainWindow s)) (fecOnSend now pkt b)
  end.

(** The compound of the profile, in the RTCP buffer. *)
Definition encodeCompound (lead : rtcp.Packet) (fbs : list Feedback) : M (option bytes) :=
  s ← get;
  if is_main s then
    r ← main_call (maincodec.encodeMainFeedback pbkdf2 aes [] lead fbs (c_Bitmask (s_cfg s)));
    match r with None => mret None | Some b => modify (fun s => s <| rtcpBuf := mkSlice b [] |>) ;; mret (Some b) end
  else
    r ← attempt (encodeFeedback (reslice (rtcpBuf s)) lead (c_SSRC (s_cfg s)) (c_CNAME (s_cfg s)) fbs (c_Bitmask (s_cfg s)));
    match r with None => mret None | Some b => modify (fun s => s <| rtcpBuf := b |>) ;; mret (Some (data b)) end.

Definition writeFeedback (b : bytes) : M bool :=
  s ← get; write (if is_main s then SockMedia else SockRTCP) b (RTCP (s_peer s)).

Definition senderReport (now : Z) (s : Session) : rtcp.Packet :=
  rtcp.SenderReport (c_SSRC (s_cfg s)) (WallNTP now) (u32 (rtpTicksFromMicros now)) 0 0.

Fixpoint write_all (dgs : list bytes) : M unit :=
  match dgs with [] => nop | dg :: dgs => s ← get; write SockMedia dg (RTCP (s_peer s)) ;; write_all dgs end.

Definition sendAdvFeedback (fbs : list Feedback) (now : Z) : M unit :=
  s ← get;
  r ← adv_call (advcodec.encodeFeedback fbs (c_Bitmask (s_cfg s)) (advCtrlTS now));
  match r with None => nop | Some dgs => write_all dgs ;; when (negb (zlen dgs =? 0)) (sent_at now) end.

Definition sendFeedback (fbs : list Feedback) (now : Z) : M unit :=
  s ← get;
  if OneWay (s_cfg s) then nop else
  if negb (IsValid (RTCP (s_peer s))) then nop else
  if is_adv s then sendAdvFeedback fbs now else
  let lead := if s_sender s then senderReport now s else rtcp.EmptyReceiverReport (c_SSRC (s_cfg s)) in
  r ← encodeCompound lead fbs;
  match r with None => nop | Some b => writeFeedback b ;; sent_at now end.

(** ** Reception statistics and reports *)

Definition lqmRTPHeaderBytes : Z := 12.

Definition meter (pkt : MediaPacket) (q : adapt.lqm_state) : adapt.lqm_state :=
  let rtpBytes := u64 (zlen (Payload pkt) + lqmRTPHeaderBytes) in
  if Retransmit pkt then q <| adapt.rxRetransBytes ::= fun n => u64 (n + rtpBytes) |> else q <| adapt.rxBytes ::= fun n => u64 (n + rtpBytes) |>.

Definition extend_rx (pkt : MediaPacket) (r : rxStats) : rxStats :=
  let r := r <| mediaSSRC := SSRC pkt |> in
  if negb (baseSet r) then r <| baseSet := true |> <| baseSeq := Seq pkt |> <| highest := Seq pkt |>
  else if seqAfter (Seq pkt) (highest r) then r <| highest := Seq pkt |> else r.

Definition f64_16 : f64 := f64_of_Z 16.

Definition jitter_rx (now : Z) (pkt : MediaPacket) (r : rxStats) : rxStats :=
  let arrival := rtpTicksFromMicros now in
  let rtpTS := rtpTicksFromMicros (NTPTime.toTimestamp (SourceTime pkt)) in
  let tr := i64 (arrival - rtpTS) in
  let r :=
    if haveTransit r then
      let d := i64 (tr - transit r) in
      let d := if d <? 0 then i64 (- d) else d in
      r <| jitter ::= fun j => f64_add j (f64_div (f64_sub (f64_of_Z d) j) f64_16) |>
    else r in
  r <| transit := tr |> <| haveTransit := true |>.

Definition observeRx (now : Z) (pkt : MediaPacket) : M unit :=
  modify (fun s => s <| s_lqm ::= meter pkt |> <| s_rx ::= fun r => jitter_rx now pkt (extend_rx pkt r) |>).

Definition feedMedia (now path : Z) (pkt : MediaPacket) : M unit :=
  s ← get;
  if negb (authed (s_eap s)) then nop else
  modify (fun s => s <| s_world ::= (fun w => w <| counted ::= cons (path, zlen (Payload pkt)) |>) |>) ;;
  on_flow (Feed_chk now path pkt) ;;
  observeRx now pkt.

(** The counts of a report: expected packets, cumulative loss and the lost fraction since the last one. *)
Definition report_counts (received : Z) (r : rxStats) : Z * Z * Z :=
  let expected := if baseSet r then u64 (u32 (highest r - baseSeq r) + 1) else 0 in
  let cumLost := if received <? expected then Z.land (u32 (u64 (expected - received))) 0x00FFFFFF else 0 in
  let expInterval := u64 (expected - lastExpected r) in
  let fraction :=
    if 0 <? expInterval then
      let rcvInterval := u64 (received - lastReceived r) in
      if rcvInterval <? expInterval then u8 (u64 (Z.shiftl (expInterval - rcvInterval) 8) / expInterval) else 0
    else 0 in
  (expected, cumLost, fraction).

Definition snapshot (expected received : Z) (r : rxStats) : rxStats := r <| lastExpected := expected |> <| lastReceived := received |>.

Definition receiverReport : M rtcp.Packet := fun s =>
  let r := s_rx s in
  let received := StReceived (stats_snapshot (s_flow s)) in
  let '(expected, cumLost, fraction) := report_counts received r in
  (Ok (rtcp.ReceiverReport (c_SSRC (s_cfg s)) (mediaSSRC r) fraction cumLost (highest r) (u32 (f64_to_i64 (jitter r))) 0 0),
   s <| s_rx := snapshot expected received r |>).

Definition keepaliveLead (now : Z) : M rtcp.Packet :=
  s ← get; if s_sender s then mret (senderReport now s) else receiverReport.

(** ** Keep-alives *)

Definition sendAdvKeepalive (now : Z) : M unit :=
  r ← adv_call (advcodec.keepaliveDatagram (advCtrlTS now));
  match r with
  | None => nop
  | Some ka => s ← get; ok ← write SockMedia ka (RTCP (s_peer s)); when ok (sent_at now)
  end.

Definition sendAdvGREHandshake (now : Z) : M unit :=
  s ← get;
  if negb (IsValid (RTCP (s_peer s))) then nop else
  lead ← keepaliveLead now;
  r ← gre_call (maincodec.encodeMainFeedback pbkdf2 aes [] lead [] (c_Bitmask (s_cfg s)));
  match r with
  | None => nop
  | Some b => modify (fun s => s <| rtcpBuf := mkSlice b [] |>) ;; write SockMedia b (RTCP (s_peer s)) ;; sent_at now
  end.

Definition localCaps (s : Session) : gre.Capabilities :=
  let c := gre.StandardCapabilities in
  gre.mkCaps (gre.cN c) (if bool_decide (splitMode s = SplitOff) then gre.cL c else true) (gre.cE c) (if fecEnabled s then true else gre.cP c)
    (gre.cA c) (gre.cB c) (gre.cR c) (gre.cX c) (gre.cF c) (gre.cJ c) (gre.cV c) (gre.cT c) (gre.cD c).
Definition local_keepalive (s : Session) : gre.Keepalive := gre.mkKeepalive (localMAC (s_gre s)) (localCaps s) false (gre.mkAdvExt false false false) [].

Definition sendAdvSplitAdvert (now : Z) : M unit :=
  s ← get;
  match s_advGRE s with
  | None => nop
  | Some _ =>
      if bool_decide (splitMode s = SplitOff) || OneWay (s_cfg s) || negb (IsValid (RTCP (s_peer s))) then nop else
      r ← gre_call (maincodec.encodeKeepalive pbkdf2 aes [] (local_keepalive s) gre.VersionMin);
      match r with None => nop | Some b => write SockMedia b (RTCP (s_peer s)) ;; sent_at now end
  end.

Definition sendKeepalive (now : Z) : M unit :=
  s ← get;
  if OneWay (s_cfg s) then nop else
  if negb (IsValid (RTCP (s_peer s))) then nop else
  if is_adv s then sendAdvGREHandshake now ;; sendAdvKeepalive now ;; sendAdvSplitAdvert now else
  lead ← keepaliveLead now;
  r ← encodeCompound lead [RttEchoRequest 0 (NTPTimeFromTimestamp now)];
  match r with None => nop | Some b => writeFeedback b ;; sent_at now end.

(** ** Link quality *)

Definition computeLQM (now : Z) : M adapt.LQM := fun s =>
  let '(m, q) := adapt.computeLQM (c_Flow (s_cfg s)) (stats_snapshot (s_flow s)) now (s_lqm s) in (Ok m, s <| s_lqm := q |>).

(** [copy] into the 44-byte array of a LinkQualityReport *)
Definition lqm_array (raw : bytes) : bytes := take 44 (raw ++ replicate 44 0).

(** The report, and whether it goes out on the media socket. *)
Definition encodeLQM (now : Z) : M (option (bytes * bool)) :=
  m ← computeLQM now;
  raw ← attempt (adapt.Marshal m);
  s ← get;
  match raw with
  | None => mret None
  | Some raw =>
      if is_adv s then
        r ← adv_call (advcodec.frameControl [] (advctrl.BuildControl [] advctrl.CILQMGlobal raw) (advCtrlTS now));
        mret ((fun b => (b, true)) <$> r)
      else
        let lqr := rtcp.LinkQualityReport (c_SSRC (s_cfg s)) (lqm_array raw) in
        if is_main s then
          r ← main_call (maincodec.encodeMainFeedback pbkdf2 aes [] lqr [] (c_Bitmask (s_cfg s)));
          mret ((fun b => (b, true)) <$> r)
        else
          r ← attempt (rtcp.BuildCompound (reslice (rtcpBuf s)) [lqr; rtcp.SDES (c_SSRC (s_cfg s)) (c_CNAME (s_cfg s))]);
          match r with None => mret None | Some b => modify (fun s => s <| rtcpBuf := b |>) ;; mret (Some (data b, false)) end
  end.

Definition sendLQM (now : Z) : M unit :=
  s ← get;
  if Timestamp.Sub now (adapt.lqmLast (s_lqm s)) <? Millisecond then nop else
  r ← encodeLQM now;
  match r with
  | None => nop
  | Some (b, mediaSock) =>
      s ← get;
      if negb (IsValid (RTCP (s_peer s))) then nop else
      ok ← (if mediaSock : bool then write SockMedia b (RTCP (s_peer s)) else writeFeedback b);
      when ok (sent_at now)
  end.

Definition adaptEmitsLQM (s : Session) : bool := AdaptLQM (s_cfg s) && negb (s_sender s) && negb (OneWay (s_cfg s)).

Definition handleLQM (raw : bytes) : M unit := modify (fun s =>
  let '(target, rc) := adapt.handleLQM (RateController (s_cfg s)) raw in
  s <| s_cfg ::= fun c => c <| RateController := rc |> |> <| s_world ::= fun w => w <| rateTargets ::= app (option_list target) |> |>).

Definition srpAuthenticated (s : Session) : bool :=
  match eapClient (s_eap s), eapServer (s_eap s) with None, None => false | _, _ => everAuthed (s_eap s) end.

Definition learnPeerCNAME (cname : bytes) : M unit :=
  s ← get; when (negb (zlen cname =? 0) && srpAuthenticated s) (modify (fun s => s <| s_eap ::= fun e => e <| peerCNAME := cname |> |>)).

Definition handleFlowAttr (json : bytes) : M unit := modify (fun s => s <| s_world ::= fun w => w <| flowAttrs ::= cons json |> |>).

Definition feedFeedback (now : Z) : list Feedback -> M unit := each (fun fb =>
  match fb with
  | LinkQuality lqm => handleLQM lqm
  | FlowAttribute json => handleFlowAttr json
  | PeerIdentity cname => learnPeerCNAME cname
  | fb => on_flow (FeedFeedback_chk now fb)
  end).

(** ** FEC on the receiving side of the Simple and Main profiles *)

Definition fecSourceRTP (seq wireTS : Z) : M Z := fun s =>
  match s_main s with
  | Some c => let '(t, d) := sourceTime seq wireTS (maincodec.dec c) in (Ok t, s <| s_main := Some (c <| maincodec.dec := d |>) |>)
  | None => let '(t, d) := sourceTime seq wireTS (s_mdec s) in (Ok t, s <| s_mdec := d |>)
  end.

Definition count_recovered : M unit := modify (fun s => s <| s_lqm ::= fun q => q <| adapt.fecRecovered ::= fun n => u64 (n + 1) |> |>).

(** [fecHandleRecovered] off the Advanced profile. *)
Definition recovered_rtp (now : Z) (r : fecm.Recovered) : M unit :=
  count_recovered ;;
  src ← fecSourceRTP (fecm.r_Seq r) (fecm.r_Timestamp r);
  feedMedia now 0 (mkMediaPacket (fecm.r_Seq r) src (fecm.r_SSRC r) (fecm.r_Payload r) false 0 FragStandalone 0 0 true).

(** Push into the decoder, made at the first media packet. *)
Definition fec_push_media (seq ts pt ssrc : Z) (payload : bytes) : M (list fecm.Recovered) := fun s =>
  match c_FEC (s_cfg s) with
  | None => (Panic, s)
  | Some f =>
      let d := default (fecm.NewDecoder (fecConfig f) (fecPayloadSize s) seq) (fecDec (s_fec s)) in
      match fecm.PushMedia seq ts pt ssrc payload d with
      | Some (rs, d) => (Ok rs, s <| s_fec ::= fun f => f <| fecDec := Some d |> |>)
      | None => (Panic, s)
      end
  end.

Definition fec_push_fec (body : bytes) : M (list fecm.Recovered) := fun s =>
  match fecDec (s_fec s) with
  | None => (Ok [], s)
  | Some d =>
      match fecm.PushFEC body d with
      | Some (Ok rs, d) => (Ok rs, s <| s_fec ::= fun f => f <| fecDec := Some d |> |>)
      | Some (Err _, d) => (Ok [], s <| s_fec ::= fun f => f <| fecDec := Some d |> |>)
      | _ => (Panic, s)
      end
  end.

Definition fecRecvRTP (now wireTS : Z) (pkt : MediaPacket) : M unit :=
  rs ← fec_push_media (Seq pkt) wireTS fecPT (SSRC pkt) (Payload pkt);
  each (recovered_rtp now) rs.

Definition fecOnRecvFEC_rtp (now : Z) (body : bytes) : M unit :=
  rs ← fec_push_fec body; each (recovered_rtp now) rs.

(** ** The application's payloads *)

Definition push_block (now : Z) (p : bytes) (frag : FragRole) (seqOpt st : option Z) : M unit := on_flow (PushAppBlock_chk now p frag seqOpt st).

(** The loop over the fragments of a payload. *)
Fixpoint push_fragments (fuel : nat) (now off : Z) (p : bytes) (st : option Z) : M unit :=
  match fuel with
  | O => nop
  | S fuel =>
      s ← get;
      if negb (off <? zlen p) then nop else
      let end_ := off + fragSize s in
      let end_ := if zlen p <? end_ then zlen p else end_ in
      let role := if off =? 0 then FragFirst else if end_ =? zlen p then FragLast else FragMiddle in
      part ← lift (slc p off end_);
      push_block now part role None st ;;
      push_fragments fuel now (off + fragSize s) p st
  end.

Definition pushApp (now : Z) (p : bytes) : M unit :=
  s ← get;
  let st := match cfg_TimingMode (c_Flow (s_cfg s)) with TimingRTC => Some (ntpNow now) | _ => None end in
  if negb (bool_decide (splitMode s = SplitOff)) then
    match SplitPayload (splitMode s) p with
    | Some (first, last) => push_block now first FragStandalone None st ;; push_block now last FragStandalone None st
    | None => push_block now p FragStandalone None st
    end
  else if (fragSize s <=? 0) || (zlen p <=? fragSize s) then push_block now p FragStandalone None st
  else push_fragments (length p) now 0 p st.

Definition deliveryCap : nat := 4096.

Definition queueDelivery (payload : bytes) : M unit :=
  s ← get;
  if negb (authed (s_eap s)) then nop else
  if (length (delivery s) <? deliveryCap)%nat then modify (fun s => s <| delivery ::= fun q => q ++ [payload] |>) else shutdown ErrBufferOverflow.

Definition deliverFragment (d : Event) : M unit := fun s =>
  let '(out, r) := frag_push (ev_Frag d) (ev_Payload d) (ev_Discontinuity d) (reasm s) in
  let s := s <| reasm := r |> in
  match out with
  | None => (Ok tt, s)
  | Some out =>
      let '(ps, m) := Merger.Deliver (ev_Seq d) (ev_SourceTime d) out (ev_Discontinuity d) (merger s) in
      each queueDelivery ps (s <| merger := m |>)
  end.

(** The pump's channel is a list: a send that blocks is one that waits for the pump. *)
Definition queueBlock (d : Event) : M unit :=
  s ← get;
  when (authed (s_eap s)) (modify (fun s => s <| blockOut ::= fmap (fun q => q ++ [mkBlock (ev_Seq d) (ev_SourceTime d) (ev_VirtSrcPort d) (ev_VirtDstPort d) (ev_Payload d)]) |>)).

Definition oobCap : nat := 16.
Definition deliverOOB (proto : Z) (oob : bytes) : M unit := modify (fun s => if (length (oobOut s) <? oobCap)%nat then s <| oobOut ::= fun q => q ++ [(proto, oob)] |> else s).

(** ** Effects of the flow *)

Definition poll_output : M (option Output) := fun s => let '(o, f) := PollOutput (s_flow s) in (Ok o, s <| s_flow := f |>).
Definition poll_event : M (option Event) := fun s => let '(e, f) := PollEvent (s_flow s) in (Ok e, s <| s_flow := f |>).

(** The first loop of [drain]; it returns the feedback collected. *)
Fixpoint drain_outputs (fuel : nat) (now : Z) (fbs : list Feedback) : M (list Feedback) :=
  match fuel with
  | O => mret fbs
  | S fuel =>
      o ← poll_output;
      match o with
      | None => mret fbs
      | Some (SendMedia _ pkt) =>
          s ← get;
          when (negb (Retransmit pkt) && seqAfter (Seq pkt) (highestSent s)) (modify (fun s => s <| highestSent := Seq pkt |>)) ;;
          sendMedia now pkt ;;
          drain_outputs fuel now fbs
      | Some (SendFeedback _ fb) => drain_outputs fuel now (fbs ++ [fb])
      | Some (SetTimer id deadline) => modify (fun s => s <| timers ::= <[id := deadline]> |>) ;; drain_outputs fuel now fbs
      | Some (ClearTimer id) => modify (fun s => s <| timers ::= delete id |>) ;; drain_outputs fuel now fbs
      end
  end.

Fixpoint drain_events (fuel : nat) : M unit :=
  match fuel with
  | O => nop
  | S fuel =>
      e ← poll_event;
      match e with
      | None => nop
      | Some d =>
          s ← get;
          (match blockOut s with Some _ => queueBlock d | None => deliverFragment d end) ;;
          drain_events fuel
      end
  end.

(** One pass per pending effect, and one to see the queue empty. *)
Definition drain (now : Z) : M unit :=
  s ← get;
  fbs ← drain_outputs (S (length (pending (outputs (s_flow s))))) now [];
  s ← get;
  when (negb (zlen fbs =? 0) && authed (s_eap s)) (sendFeedback fbs now) ;;
  s ← get;
  drain_events (S (length (pending (events (s_flow s))))).
End io.

(** ** The timer wheel *)

Section wheel.
(** Go leaves the order in which a map is visited open; the first argument tells one visit from another. *)
Context (visit : nat -> list (Z * Z) -> list (Z * Z)).

Fixpoint earliest_of (l : list (Z * Z)) (best : option (Z * Z)) : option (Z * Z) :=
  match l with
  | [] => best
  | (tid, d) :: l => earliest_of l (match best with None => Some (tid, d) | Some (_, deadline) => if Timestamp.Before d deadline then Some (tid, d) else best end)
  end.
Definition earliestTimer (n : nat) (s : Session) : option (Z * Z) := earliest_of (visit n (map_to_list (timers s))) None.

(** Each pass removes a timer: their number bounds the passes. *)
Fixpoint fire_timers (fuel : nat) (now : Z) : M unit :=
  match fuel with
  | O => nop
  | S fuel =>
      s ← get;
      match earliestTimer fuel s with
      | None => nop
      | Some (id, deadline) =>
          if Timestamp.After deadline now then nop else
          modify (fun s => s <| timers ::= delete id |>) ;;
          on_flow (HandleTimer_chk now id) ;;
          fire_timers fuel now
      end
  end.
Definition fireTimers (now : Z) : M unit := s ← get; fire_timers (S (size (timers s))) now.

(** The delay the host's timer is armed with, [None] when it is left stopped. *)
Definition rearm (now : Z) (s : Session) : option Z :=
  match earliestTimer 0 s with
  | None => None
  | Some (_, deadline) => let d := Timestamp.Sub deadline now in Some (if d <? 0 then 0 else d)
  end.
End wheel.

(** ** The application's calls *)

(** What a call that can block comes to: a value, an error, or that it waits. *)
Inductive answer (A : Type) := Answer (a : A) | Refused (e : err) | Waits.
Arguments Answer {A} a.
Arguments Refused {A} e.
Arguments Waits {A}.

(** The bytes copied into a buffer of [n] bytes, the rest kept for the next call. *)
Definition take_payload (n : nat) (payload : bytes) (s : Session) : bytes * Session :=
  (firstn n payload, if (n <? length payload)%nat then s <| leftover := skipn n payload |> else s).

(** [expired]: the read deadline has passed. *)
Definition Read (n : nat) (expired : bool) (s : Session) : answer bytes * Session :=
  match leftover s with
  | _ :: _ => (Answer (firstn n (leftover s)), s <| leftover ::= skipn n |>)
  | [] =>
      match delivery s with
      | p :: rest => let '(b, s) := take_payload n p (s <| delivery := rest |>) in (Answer b, s)
      | [] => (if expired then Refused ErrTimeout else match closeErr s with Some _ => Refused (closeReason s) | None => Waits end, s)
      end
  end.

Definition ReadOOB (n : nat) (expired : bool) (s : Session) : answer (bytes * Z) * Session :=
  if negb (is_main s || is_adv s) then (Refused ErrOOBUnsupported, s) else
  match oobOut s with
  | (proto, d) :: rest => (Answer (firstn n d, proto), s <| oobOut := rest |>)
  | [] => (if expired then Refused ErrTimeout else match closeErr s with Some _ => Refused (closeReason s) | None => Waits end, s)
  end.

(** A payload handed to the loop, unless the session is closed or the deadline has passed. *)
Definition Write (p : bytes) (expired : bool) (s : Session) : answer bytes :=
  match closeErr s with Some _ => Refused (closeReason s) | None => if expired then Refused ErrTimeout else Answer p end.
Definition WriteOOB (proto : Z) (p : bytes) (expired : bool) (s : Session) : answer (Z * bytes) :=
  if negb (is_main s || is_adv s) then Refused ErrOOBUnsupported else
  match closeErr s with Some _ => Refused (closeReason s) | None => if expired then Refused ErrTimeout else Answer (proto, p) end.

Definition WriteFlowAttribute (json : bytes) (expired : bool) (s : Session) : answer bytes :=
  if negb (is_adv s) then Refused ErrFlowAttrUnsupported else
  match closeErr s with Some _ => Refused (closeReason s) | None => if expired then Refused ErrTimeout else Answer json end.

(** A sender of the Main profile takes blocks.  When the session is closed and the loop still has room for the block, either answer can come. *)
Definition SendBlock (p : bytes) (seq sourceTime : option Z) (s : Session) : answer (bytes * option Z * option Z) :=
  if negb (s_sender s && is_main s) then Refused ErrSendBlockUnsupported else
  match closeErr s with Some _ => Refused (closeReason s) | None => Answer (p, seq, sourceTime) end.

(** [closed]: the select saw that the session is done. *)
Definition RecvBlock (closed : bool) (s : Session) : answer mediaBlock * Session :=
  match (if closed && bool_decide (is_Some (closeErr s)) then None else blockOut s) with
  | Some (b :: rest) => (Answer b, s <| blockOut := Some rest |>)
  | _ => (match closeErr s with Some _ => Refused (closeReason s) | None => Waits end, s)
  end.

Definition Close (s : Session) : Session := (shutdown ErrClosed s).2.

Inductive ctrlSet := ctrlNackType (b : bool) | ctrlRTTMult (n : Z) | ctrlNPD (b : bool).
Definition applyCtrl (c : ctrlSet) : M unit :=
  match c with
  | ctrlNackType b => modify (fun s => s <| s_cfg ::= fun c => c <| c_Bitmask := b |> |>)
  | ctrlRTTMult n => modify (fun s => s <| s_flow ::= SetRTTMultiplier n |>)
  | ctrlNPD b => modify (fun s => s <| s_main ::= fmap (maincodec.setNPD b) |>)
  end.

Definition sendCtrl (c : ctrlSet) (s : Session) : answer ctrlSet := match closeErr s with Some _ => Refused (closeReason s) | None => Answer c end.
Definition SetNackType (bitmask : bool) : Session -> answer ctrlSet := sendCtrl (ctrlNackType bitmask).
Definition SetRTTMult (multiplier : Z) : Session -> answer ctrlSet := sendCtrl (ctrlRTTMult multiplier).
Definition SetNullPacketDeletion (on : bool) (s : Session) : answer ctrlSet := if negb (is_main s) then Refused ErrNPDUnsupported else sendCtrl (ctrlNPD on) s.
End session.
