(* ===== verification/SessionMain.v ===== *)
(** * Sessions of the Main profile: GRE negotiation, EAP-SRP authentication and NAT rebinding

    The handlers of src/internal/session/session.go that run on the single GRE socket: keep-alives and buffer negotiation, the EAP role and the gate it
    opens, the keys it installs, re-association of a peer that moved, and the dispatch of a datagram. *)

From stdpp Require Import gmap.
From S2P Require Import Prelude Bytes Clock Wire Receiver FlowTypes Flow Split Gre Peer Psk SimpleCodec MainCodec Eap EapState EapClient EapServer Session.

Module sessionmain.
Import peer session.

Section main.
Context (pbkdf2 : bytes -> bytes -> Z -> option bytes) (aes : bytes -> bytes -> bytes) (sha256 : bytes -> bytes) (WallNTP : Z -> Z).

Definition on_gre (f : greState -> greState) : M unit := modify (fun s => s <| s_gre ::= f |>).
Definition on_eap (f : eapState -> eapState) : M unit := modify (fun s => s <| s_eap ::= f |>).

(** ** Keep-alives and buffer negotiation *)

Definition sendGREKeepalive (version : Z) : M unit :=
  s ← get;
  if OneWay (s_cfg s) then nop else
  if negb (is_main s) || negb (IsValid (RTCP (s_peer s))) then nop else
  r ← main_call (maincodec.encodeKeepalive pbkdf2 aes [] (local_keepalive s) version);
  match r with None => nop | Some b => write SockMedia b (RTCP (s_peer s)) ;; nop end.

Definition send_buffer_neg (bn : gre.BufferNegotiation) : M bool :=
  r ← main_call (maincodec.encodeBufferNeg pbkdf2 aes [] bn);
  s ← get;
  match r with None => mret false | Some b => write SockMedia b (RTCP (s_peer s)) ;; mret true end.

Definition sendBufferNegotiation : M unit :=
  s ← get;
  if OneWay (s_cfg s) then nop else
  if negb (is_main s) || negb (IsValid (RTCP (s_peer s))) || negb (s_sender s) then nop else
  let maxMs := u16 (i64 (RecoveryBufferMax (c_Flow (s_cfg s)) + i64 (2 * RTTMin (c_Flow (s_cfg s)))) /g Millisecond) in
  let bn := gre.mkBuf maxMs 0 0 in
  send_buffer_neg bn ;; send_buffer_neg bn ;; send_buffer_neg bn ;; nop.

Definition sendGREKeepaliveBurst : M unit :=
  s ← get;
  if negb (is_main s) || negb (IsValid (RTCP (s_peer s))) then nop else
  each sendGREKeepalive [gre.VersionCur; gre.VersionCur; gre.VersionCur; gre.VersionMin; gre.VersionMin; gre.VersionMin] ;;
  when (s_sender s) sendBufferNegotiation.

Definition handleBufferNeg (bn : gre.BufferNegotiation) : M unit :=
  if gre.SenderMaxMs bn =? 0 then nop else
  on_gre (fun g => g <| senderMaxBufferMs := gre.SenderMaxMs bn |>) ;;
  modify (fun s => s <| s_flow ::= SetSenderMaxBuffer (gre.SenderMaxMs bn * Millisecond) |>).

Definition sendReceiverBufferNeg (curMs : Z) : M bool :=
  s ← get;
  if OneWay (s_cfg s) || negb (is_main s) || s_sender s || negb (IsValid (RTCP (s_peer s))) || (greVersion (s_gre s) <? gre.VersionCur) then mret false else
  send_buffer_neg (gre.mkBuf 0 curMs 0).

Definition applyRemoteCaps (caps : gre.Capabilities) : M unit :=
  on_gre (fun g => g <| remoteCaps := caps |>) ;;
  modify (fun s => s <| merger ::= Merger.SetAutoEnabled (gre.cL caps) |>).

Definition handleGREControl (ka : gre.Keepalive) : M unit :=
  on_gre (fun g => g <| remoteMAC := gre.MAC ka |>) ;; applyRemoteCaps (gre.Caps ka).

Definition upgradeGREVersion (version : Z) : M unit :=
  s ← get;
  if (version <=? greVersion (s_gre s)) || (gre.VersionCur <? version) then nop else
  let crossing := greVersion (s_gre s) =? gre.VersionMin in
  on_gre (fun g => g <| greVersion := version |>) ;;
  when (crossing && s_sender s) sendBufferNegotiation.

(** ** Authentication *)

Definition sendEAP (f : eap.Frame) (now : Z) : M unit :=
  s ← get;
  match s_main s with
  | None => nop
  | Some c =>
      if negb (IsValid (Media (s_peer s))) then nop else
      on_eap (fun e => e <| eapLastTx := Some f |>) ;;
      let '(r, c) := maincodec.encodeEAPOL [] (eap.AppendTo f []) c in
      modify (fun s => s <| s_main := Some c |>) ;;
      r ← attempt r;
      match r with
      | None => nop
      | Some b => modify (fun s => s <| rtcpBuf := mkSlice b [] |>) ;; write SockMedia b (Media (s_peer s)) ;; sent_at now
      end
  end.

Definition maybeStartEAP (now : Z) : M unit :=
  s ← get;
  match eapClient (s_eap s) with
  | None => nop
  | Some a =>
      if eapStartSent (s_eap s) || negb (IsValid (Media (s_peer s))) then nop else
      let '(f, a) := authenticatee.Start a in
      on_eap (fun e => e <| eapClient := Some a |>) ;;
      sendEAP f now ;;
      on_eap (fun e => e <| eapStartSent := true |> <| eapRetx := 0 |>)
  end.

(** Whether the host admits the peer that has just authenticated. *)
Definition admitPeer : M bool :=
  s ← get;
  let name := match eapServer (s_eap s) with Some a => authenticator.PeerUsername a | None => [] end in
  if match OnConnect (s_cfg s) with Some f => negb (f (Media (s_peer s)) name) | None => false end then mret false else
  on_eap (fun e => e <| connected := Some (Media (s_peer s), name) |>) ;; mret true.

Definition maybeSendPasswordRequest (now : Z) : M unit :=
  s ← get;
  match eapClient (s_eap s) with
  | None => nop
  | Some a =>
      if negb (useKeyAsPassphrase (s_eap s)) || pwReqSent (s_eap s) then nop else
      let '(f, a) := authenticatee.PasswordRequest a in
      on_eap (fun e => e <| eapClient := Some a |>) ;;
      match f with None => nop | Some f => on_eap (fun e => e <| pwReqSent := true |>) ;; sendEAP f now end
  end.

(** The keys of a role: what it exports for each direction. *)
Definition role_keys (e : eapState) : option (eapstate.Passphrase * bool * (eapstate.Passphrase * bool)) :=
  match eapClient e with
  | Some a => Some (authenticatee.TxKeying a, authenticatee.RxKeying a)
  | None => match eapServer e with Some a => Some (authenticator.TxKeying a, authenticator.RxKeying a) | None => None end
  end.

Definition installEAPKeying : M unit :=
  s ← get;
  match s_main s with
  | None => nop
  | Some c =>
      if negb (useKeyAsPassphrase (s_eap s)) then nop else
      let k256 := eapKeySize256 (s_eap s) in
      let keyBits := if k256 then psk.KeySize256 else psk.KeySize128 in
      match role_keys (s_eap s) with
      | None => nop
      | Some ((tx, haveTx), (rx, haveRx)) =>
          (if haveTx && negb (eapstate.Gen tx =? txKeyGen (s_eap s)) then
             let '(k, ds) := psk.newKey pbkdf2 (eapstate.Key tx) keyBits (eapKeyRotation (s_eap s)) false true (draws (s_world s)) in
             modify (fun s => s <| s_world ::= fun w => w <| draws := ds |> |>) ;;
             k ← attempt k;
             match k with None => nop | Some k => modify (fun s => s <| s_main := Some (maincodec.setSendKey (Some k) k256 c) |>) ;; on_eap (fun e => e <| txKeyGen := eapstate.Gen tx |>) end
           else nop) ;;
          s ← get;
          (if haveRx && negb (eapstate.Gen rx =? rxKeyGen (s_eap s)) then
             d ← attempt (psk.newDecryptor (eapstate.Key rx) keyBits true);
             match d with None => nop | Some d => modify (fun s => s <| s_main ::= fmap (maincodec.setRecvKey (Some d)) |>) ;; on_eap (fun e => e <| rxKeyGen := eapstate.Gen rx |>) end
           else nop)
      end
  end.

Definition sendPostAuthBeacon (now : Z) : M unit :=
  s ← get;
  if negb (is_main s) || negb (IsValid (RTCP (s_peer s))) then nop else
  sendGREKeepalive (greVersion (s_gre s)) ;;
  each (fun _ : Z => sendKeepalive pbkdf2 aes WallNTP now) [0; 1; 2].

Definition reauthTimeout (s : Session) : Z := Z.max (RecoveryBufferMax (c_Flow (s_cfg s))) (i64 (4 * KeepaliveInterval (s_cfg s))).

(** Drop the gate and bound the re-authentication. *)
Definition hold_media (now : Z) : M unit := modify (fun s =>
  s <| s_eap ::= fun e =>
    let e := e <| authed := false |> in
    if reauthing e then e else e <| reauthing := true |> <| reauthDeadline := Timestamp.Add now (reauthTimeout s) |> |>).

(** The role that is configured takes a frame: its reply, and whether there is a role. *)
Definition eap_recv (payload : bytes) : M (bool * option eap.Frame) := fun s =>
  match eapClient (s_eap s) with
  | Some a =>
      match authenticatee.Recv sha256 aes payload a (secrets (s_world s)) with
      | (eapstate.Panicked, _, _) => (Panic, s)
      | (eapstate.Returned out _, a, ds) => (Ok (true, out), s <| s_eap ::= fun e => e <| eapClient := Some a |> |> <| s_world ::= fun w => w <| secrets := ds |> |>)
      end
  | None =>
      match eapServer (s_eap s) with
      | Some a =>
          match authenticator.Recv sha256 aes payload a (secrets (s_world s)) with
          | (eapstate.Panicked, _, _) => (Panic, s)
          | (eapstate.Returned out _, a, ds) => (Ok (true, out), s <| s_eap ::= fun e => e <| eapServer := Some a |> |> <| s_world ::= fun w => w <| secrets := ds |> |>)
          end
      | None => (Ok (false, None), s)
      end
  end.

Definition role_authenticated (e : eapState) : bool :=
  match eapClient e with Some a => authenticatee.Authenticated a | None => match eapServer e with Some a => authenticator.Authenticated a | None => false end end.
Definition role_done (e : eapState) : bool :=
  match eapClient e with Some a => authenticatee.Done a | None => match eapServer e with Some a => authenticator.Done a | None => false end end.

(** The switch at the end of [handleEAP]. *)
Definition settle_auth (now : Z) (wasAuthed : bool) : M unit :=
  s ← get;
  if role_authenticated (s_eap s) then
    admitted ← (if everAuthed (s_eap s) then mret true else admitPeer);
    if negb admitted then shutdown ErrAuth else
    maybeSendPasswordRequest now ;;
    on_eap (fun e => e <| authed := true |> <| everAuthed := true |> <| reauthing := false |>) ;;
    s ← get;
    when (negb wasAuthed && useKeyAsPassphrase (s_eap s)) (sendPostAuthBeacon now)
  else if role_done (s_eap s) then
    if negb (everAuthed (s_eap s)) then shutdown ErrAuth else hold_media now
  else when (wasAuthed && everAuthed (s_eap s)) (hold_media now).

Definition handleEAP (now : Z) (payload : bytes) : M unit :=
  on_eap (fun e => e <| eapRetx := 0 |>) ;;
  r ← eap_recv payload;
  if negb r.1 then nop else
  (match r.2 with Some f => sendEAP f now | None => nop end) ;;
  s ← get;
  installEAPKeying ;;
  settle_auth now (authed (s_eap s)).

(** ** A peer that moved *)

Definition addrPortEqual (a b : AddrPort) : bool :=
  IsValid a && IsValid b && (ap_port a =? ap_port b) && bool_decide (Unmap (ap_addr a) = Unmap (ap_addr b)).
Definition sameSource (src : AddrPort) (s : Session) : bool := addrPortEqual src (Media (s_peer s)) || addrPortEqual src (RTCP (s_peer s)).

Definition mainReassocTrigger (b : bytes) : M bool := fun s =>
  match s_main s with
  | None => (Ok false, s)
  | Some c =>
      if zlen (peerCNAME (s_eap s)) =? 0 then (Ok false, s) else
      match maincodec.feedbackCNAME pbkdf2 aes b c with
      | (Ok (Some cname), c) => (Ok (bool_decide (cname = peerCNAME (s_eap s))), s <| s_main := Some c |>)
      | (Ok None, c) => (Ok false, s <| s_main := Some c |>)
      | (Err _, c) => (Ok false, s <| s_main := Some c |>)
      | (Panic, _) => (Panic, s)
      end
  end.

Definition startReauth (now : Z) : M unit :=
  on_eap (fun e => e <| eapRetx := 0 |>) ;;
  s ← get;
  match eapClient (s_eap s) with
  | Some _ => on_eap (fun e => e <| eapStartSent := false |>) ;; maybeStartEAP now
  | None =>
      match eapServer (s_eap s) with
      | Some a => let '(f, a) := authenticator.Start a in on_eap (fun e => e <| eapServer := Some a |>) ;; sendEAP f now
      | None => nop
      end
  end.

Definition maybeReassociate (now : Z) (src : AddrPort) (b : bytes) : M bool :=
  s ← get;
  if negb (srpAuthenticated s) || negb (IsValid (RTCP (s_peer s))) || sameSource src s then mret false else
  if reauthing (s_eap s) || negb (SilentFor now (i64 (2 * KeepaliveInterval (s_cfg s))) (s_peer s)) then mret true else
  trigger ← mainReassocTrigger b;
  if negb trigger then mret true else
  modify (fun s => s <| s_peer ::= Rebind src |> <| s_eap ::= fun e =>
    e <| reauthing := true |> <| reauthDeadline := Timestamp.Add now (reauthTimeout s) |> <| authed := false |> <| pwReqSent := false |>
      <| eapClient ::= fmap authenticatee.Restart |> <| eapServer ::= fmap authenticator.Restart |> |>) ;;
  startReauth now ;;
  mret true.

(** ** Dispatch *)

Definition main_read {A} (f : maincodec.mainCodec -> A * maincodec.mainCodec) : M A := fun s =>
  match s_main s with None => (Panic, s) | Some c => let '(a, c) := f c in (Ok a, s <| s_main := Some c |>) end.

(** A datagram that is neither control, authentication nor out-of-band data. *)
Definition handle_decoded (now : Z) (b : bytes) : M unit :=
  s ← get;
  r ← main_read (maincodec.decodeMain pbkdf2 aes b (highestSent s));
  r ← attempt r;
  match r with
  | None => nop
  | Some d =>
      caps ← main_read maincodec.takePeerCaps;
      (match caps with Some caps => applyRemoteCaps caps | None => nop end) ;;
      match d with
      | maincodec.DBuffer bn => handleBufferNeg bn
      | maincodec.DMedia pkt =>
          feedMedia now 0 pkt ;;
          s ← get;
          if fecEnabled s then wireTS ← main_read (fun c => (lastWireTS (maincodec.dec c), c)); fecRecvRTP now wireTS pkt else nop
      | maincodec.DFeedback fbs => feedFeedback now fbs
      | maincodec.DNothing => feedFeedback now []
      end
  end.

Definition handleMainDatagram (now : Z) (src : AddrPort) (b : bytes) : M unit :=
  consumed ← maybeReassociate now src b;
  if (consumed : bool) then nop else
  modify (fun s => s <| s_peer ::= fun p => Observe now (LearnRTCP src (LearnMedia src p)) |>) ;;
  maybeStartEAP now ;;
  s ← get;
  when (negb (greBurstSent (s_gre s)) && IsValid (RTCP (s_peer s))) (on_gre (fun g => g <| greBurstSent := true |>) ;; sendGREKeepaliveBurst) ;;
  '(kind, ver, ka) ← main_read (maincodec.peekControl pbkdf2 aes b);
  (match ka with Some Panic => panic | _ => nop end) ;;
  upgradeGREVersion ver ;;
  match kind with
  | maincodec.controlKeepalive =>
      match ka with
      | Some r => ka ← attempt r; match ka with Some ka => handleGREControl ka | None => nop end
      | None => nop
      end
  | _ =>
      e ← attempt (maincodec.peekEAPOL b);
      match e with
      | Some (Some payload) => handleEAP now payload
      | _ =>
          oob ← main_read (maincodec.peekOOB pbkdf2 aes b);
          match oob with
          | Some (proto, r) => r ← attempt r; match r with Some d => deliverOOB proto d | None => nop end
          | None => handle_decoded now b
          end
      end
  end.

Definition sendOOB (now proto : Z) (d : bytes) : M unit :=
  s ← get;
  if negb (IsValid (Media (s_peer s))) then nop else
  match s_main s, s_advGRE s with
  | None, None => nop
  | m, _ =>
      r ← (match m with Some _ => main_call | None => gre_call end) (maincodec.encodeOOB pbkdf2 aes [] d proto);
      match r with None => nop | Some b => ok ← write SockMedia b (Media (s_peer s)); when ok (sent_at now) end
  end.
End main.
End sessionmain.
