(* ===== verification/SessionAdv.v ===== *)
(** * Sessions of the Advanced profile

    The handlers of src/internal/session/session.go and fec.go for the single UDP socket of the Advanced profile: native framing first, the GRE substrate
    otherwise, and FEC recoveries fed back through the same path. *)

From stdpp Require Import gmap.
From S2P Require Import Prelude Bytes Clock Wire Receiver FlowTypes Flow Split Reassembler Gre Peer Adv AdvCtrl Fec AdvCodec MainCodec Session SessionMain.

Module sessionadv.
Import peer session sessionmain.

(** internal/adv: the type of a GRE packet inside native framing *)
Definition TypeGREMain : Z := 8.

Section adv.
Context (pbkdf2 : bytes -> bytes -> Z -> option bytes) (aes : bytes -> bytes -> bytes).

Definition dropAdvEchoRequests (fbs : list Feedback) : list Feedback := List.filter (fun fb => match fb with RttEchoRequest _ _ => false | _ => true end) fbs.
Definition filterAdvEcho (fbs : list Feedback) (s : Session) : list Feedback := if AnswerAdvRTTEcho (s_cfg s) then fbs else dropAdvEchoRequests fbs.

Definition sendAdvUnsupported (now ci : Z) (head : bytes) : M unit :=
  s ← get;
  match s_adv s with
  | None => nop
  | Some c =>
      if negb (IsValid (RTCP (s_peer s))) || negb (authed (s_eap s)) then nop else
      r ← adv_call (advcodec.unsupportedDatagram (advctrl.mkUnsupported (advcodec.ctrlSSRC c) ci head) (advCtrlTS now));
      match r with None => nop | Some dg => ok ← write SockMedia dg (RTCP (s_peer s)); when ok (sent_at now) end
  end.

(** The loop that answers unrecognized messages and keeps the rest. *)
Fixpoint answer_unsupported (now : Z) (fbs : list Feedback) : M (list Feedback) :=
  match fbs with
  | [] => mret []
  | UnsupportedControl ci head :: fbs => sendAdvUnsupported now ci head ;; answer_unsupported now fbs
  | fb :: fbs => rest ← answer_unsupported now fbs; mret (fb :: rest)
  end.

Definition feedAdvFeedback (now : Z) (fbs : list Feedback) : M unit :=
  out ← answer_unsupported now fbs;
  s ← get;
  feedFeedback now (filterAdvEcho out s).

Definition gre_read {A} (f : maincodec.mainCodec -> A * maincodec.mainCodec) : M A := fun s =>
  match s_advGRE s with None => (Panic, s) | Some c => let '(a, c) := f c in (Ok a, s <| s_advGRE := Some c |>) end.

Definition learn_advanced : M unit := on_gre (fun g => g <| remoteSupportsAdvanced := true |>).

Definition handleAdvGRE (now : Z) (b : bytes) : M unit :=
  '(kind, _, ka) ← gre_read (maincodec.peekControl pbkdf2 aes b);
  (match ka with Some Panic => panic | _ => nop end) ;;
  match kind with
  | maincodec.controlKeepalive =>
      match ka with
      | Some r =>
          ka ← attempt r;
          match ka with
          | Some ka => applyRemoteCaps (gre.Caps ka) ;; when (gre.HasAdvExt ka && gre.aI (gre.AdvExt ka)) learn_advanced
          | None => nop
          end
      | None => nop
      end
  | _ =>
      oob ← gre_read (maincodec.peekOOB pbkdf2 aes b);
      match oob with
      | Some (proto, r) => r ← attempt r; match r with Some d => deliverOOB proto d | None => nop end
      | None =>
          s ← get;
          r ← gre_read (maincodec.decodeMain pbkdf2 aes b (highestSent s));
          r ← attempt r;
          match r with
          | None => nop
          | Some d =>
              caps ← gre_read maincodec.takePeerCaps;
              (match caps with Some caps => applyRemoteCaps caps | None => nop end) ;;
              match d with
              | maincodec.DBuffer bn => handleBufferNeg bn
              | maincodec.DMedia pkt => feedMedia now 0 pkt
              | maincodec.DFeedback fbs => feedAdvFeedback now fbs
              | maincodec.DNothing => feedAdvFeedback now []
              end
          end
      end
  end.

(** Whether a datagram looks like native framing: RTP version 2 with a dynamic payload type. *)
Definition adv_framed (b : bytes) : bool :=
  match b with
  | b0 :: b1 :: _ => (Z.land b0 0xC0 =? 0x80) && ((Z.land b1 0x7f =? adv.PayloadType) || (96 <=? Z.land b1 0x7f))
  | _ => false
  end.

(** A complete control message: [Some] is the body of an FEC message. *)
Definition fec_body (payload : bytes) (s : Session) : res Empty_set (option bytes) :=
  match advctrl.ParseControl payload with
  | Ok (ci, body) => Ok (if fecControlIndex ci s then Some body else None)
  | Err _ => Ok None
  | Panic => Panic
  end.

(** [handleAdvInbound]; a recovered datagram goes through it again, and the fuel bounds that nesting. *)
Fixpoint handle_adv (fuel : nat) (now : Z) (b : bytes) : M unit :=
  match fuel with
  | O => panic
  | S fuel =>
      let recovered (r : fecm.Recovered) : M unit := count_recovered ;; handle_adv fuel now (fecm.r_Payload r) in
      let on_fec (body : bytes) : M unit := rs ← fec_push_fec body; each recovered rs in
      let media_or_control (p : adv.Parsed) : M unit :=
        r ← adv_call (fun c => let '(r, c) := advcodec.decodeParsed pbkdf2 aes p c in (r.2, c));
        match r with
        | None => nop
        | Some d =>
            (match d with
             | inl pkt =>
                 feedMedia now 0 pkt ;;
                 s ← get;
                 if fecEnabled s then rs ← fec_push_media (Seq pkt) 0 0 0 b; each recovered rs else nop
             | inr fbs => feedAdvFeedback now fbs
             end) ;;
            cap ← adv_call (fun c => let '(a, c) := advcodec.takePeerAdvCap c in (Ok a, c));
            match cap with Some (true, true) => learn_advanced | _ => nop end
        end in
      if negb (adv_framed b) then handleAdvGRE now b else
      match adv.Parse b with
      | Panic => panic
      | Err _ => handleAdvGRE now b
      | Ok p =>
          if adv.o_EncType p =? TypeGREMain then handleAdvGRE now (adv.o_Payload p) else
          s ← get;
          if fecEnabled s && (adv.o_EncType p =? adv.TypeControl) then
            if negb (adv.o_FirstFrag p) || negb (adv.o_LastFrag p) then
              let '(full, reasm) := fec_push (adv.o_Seq p) (fecFragRole (adv.o_FirstFrag p) (adv.o_LastFrag p)) (adv.o_Payload p) (fecCtrlReasm (s_fec s)) in
              modify (fun s => s <| s_fec ::= fun f => f <| fecCtrlReasm := reasm |> |>) ;;
              match full with
              | Some full => body ← lift (fec_body full s); match body with Some body => on_fec body | None => nop end
              | None => nop
              end
            else
              body ← lift (fec_body (adv.o_Payload p) s);
              match body with Some body => on_fec body | None => media_or_control p end
          else media_or_control p
      end
  end.

Definition sendFlowAttr (now : Z) (json : bytes) : M unit :=
  s ← get;
  if negb (is_adv s) then nop else
  if negb (IsValid (RTCP (s_peer s))) then nop else
  r ← adv_call (advcodec.frameControl [] (advctrl.BuildFlowAttr [] json) (advCtrlTS now));
  match r with None => nop | Some dg => ok ← write SockMedia dg (RTCP (s_peer s)); when ok (sent_at now) end.
End adv.
End sessionadv.
