(* ===== verification/SessionLoop.v ===== *)
(** * The event loop of a session

    Construction, what the loop does before its first input, and one step per input: a datagram of one of the profiles, an FEC packet, a payload or a command of
    the application, the flow's timer, and the liveness ticker with the rebinding of a caller's socket (src/internal/session/session.go, api.go).  An input is
    handled at an instant of the session clock; the loop ends with its inputs, or with a tick that finds the session dead. *)

From stdpp Require Import gmap.
From S2P Require Import Prelude GoFloat Bytes Clock Wire FlowTypes FlowNew Receiver Flow Split Reassembler Gre Peer Psk Adapt SimpleCodec AdvCodec MainCodec Eap EapState EapClient EapServer Session SessionMain SessionAdv.

Module sessionloop.
Import peer session sessionmain sessionadv.

Definition maxEAPRetx : Z := 16.
Definition rebindBackoffCap : Z := 10.
Definition rebindMaxAttempts : Z := 10.

(** ** Construction *)

Definition no_caps : gre.Capabilities := gre.mkCaps false false false false false false false false false false false false false.

(** [newSession] with the flow its constructors add; [mac] is [localHardwareMAC()], [w] the world outside. *)
Definition newSession (cfg : Config) (is_sender : bool) (mac : bytes) (w : world) : Session :=
  let zero_mac := replicate 6 0 in
  let role := if is_sender then RoleSender else RoleReceiver in
  let eap0 := mkEapState None None false None 0 [] false None false 0 true false false 0 false 0 0 in
  let gre0 := mkGreState 0 zero_mac no_caps zero_mac 0 0 false false false in
  let s := mkSession cfg (FlowNew.New role (c_Flow cfg)) (peer.New (SessionTimeout cfg)) is_sender false md_zero false 0 0 None None None gre0 eap0
    (mkFecState None None 0 0 (mkFecCtrl frag_zero 0 false)) (adapt.mkLqmState Stats_zero 0 0 0 0 0 0 0 0)
    (mkRxStats false 0 0 0 (f64_of_Z 0) 0 false 0 0) ∅ 0 0 [] None [] [] (FragmentSize cfg) frag_zero (c_SplitMode cfg) (NewMerger (c_MergeMode cfg))
    (mkSlice [] []) (mkSlice [] []) None w in
  match c_Main cfg, c_Adv cfg with
  | Some mp, _ =>
      let has_eap := match mp_EAPClient mp, mp_EAPServer mp with None, None => false | _, _ => true end in
      let arm_client a := if mp_UseKeyAsPassphrase mp then authenticatee.UseKeyAsPassphrase true a else a in
      let arm_server a := if mp_UseKeyAsPassphrase mp then authenticator.UseKeyAsPassphrase true a else a in
      s <| s_main := Some (maincodec.newMainCodec (mp_SendKey mp) (mp_RecvKey mp) (mp_KeySize256 mp) (mp_VirtSrcPort mp) (mp_VirtDstPort mp) (mp_NPD mp) (c_SSRC cfg) (c_CNAME cfg) (c_Bitmask cfg)) |>
        <| s_gre := gre0 <| greVersion := gre.VersionMin |> <| localMAC := mac |> |>
        <| s_eap := eap0 <| eapClient := arm_client <$> mp_EAPClient mp |> <| eapServer := arm_server <$> mp_EAPServer mp |> <| useKeyAsPassphrase := mp_UseKeyAsPassphrase mp |>
             <| eapKeySize256 := mp_EAPKeySize256 mp |> <| eapKeyRotation := mp_EAPKeyRotation mp |> <| authed := negb has_eap |> |>
  | None, Some ap =>
      s <| s_adv := Some (advcodec.newAdvCodec (ap_SendKey ap) (ap_RecvKey ap) (ap_Compression ap) (c_SSRC cfg) (ap_VirtSrcPort ap) (ap_VirtDstPort ap)) |>
        <| s_advGRE := Some (maincodec.newMainCodec (ap_GRESendKey ap) (ap_GRERecvKey ap) (ap_KeySize256 ap) (ap_VirtSrcPort ap) (ap_VirtDstPort ap) false (c_SSRC cfg) (c_CNAME cfg) (c_Bitmask cfg)) |>
  | None, None => s
  end.

Definition NewSender (mediaAddr rtcpAddr : AddrPort) (cfg : Config) (mac : bytes) (w : world) : Session :=
  newSession cfg true mac w <| s_peer ::= fun p => p <| Media := mediaAddr |> <| RTCP := rtcpAddr |> |>.
Definition NewReceiver (cfg : Config) (mac : bytes) (w : world) : Session := newSession cfg false mac w.
(** [NewMainSender] and [NewAdvSender] *)
Definition NewMainSender (remote : AddrPort) (cfg : Config) (mac : bytes) (w : world) : Session := NewSender remote remote cfg mac w.
Definition NewMainReceiver (cfg : Config) (mac : bytes) (w : world) : Session :=
  let s := newSession cfg false mac w in if BlockDelivery cfg then s <| blockOut := Some [] |> else s.
Definition NewMainReflectorInput (cfg : Config) (mac : bytes) (w : world) : Session := newSession cfg false mac w <| blockOut := Some [] |>.
Definition NewReceiverCaller (peerRTCP : AddrPort) (cfg : Config) (mac : bytes) (w : world) : Session :=
  newSession cfg false mac w <| s_peer ::= (fun p => p <| RTCP := peerRTCP |>) |> <| s_announce := true |>.
(** [NewMainReceiverCaller] and [NewAdvReceiverCaller] *)
Definition NewMainReceiverCaller (remote : AddrPort) (cfg : Config) (mac : bytes) (w : world) : Session :=
  let s := newSession cfg false mac w in
  s <| s_peer ::= (fun p => p <| Media := remote |> <| RTCP := remote |>) |> <| s_announce := true |>
    <| callerRebind := match eapClient (s_eap s), eapServer (s_eap s) with None, None => true | _, _ => false end |>.
(** [NewListenerSender] and its Main and Advanced forms *)
Definition NewListenerSender (cfg : Config) (mac : bytes) (w : world) : Session := newSession cfg true mac w.

(** ** Inputs *)

(** [rebind]: whether [conn.Rebind] would succeed. *)
Inductive input :=
  | InMedia (src : AddrPort) (b : bytes)
  | InFEC (body : bytes)
  | InRTCP (src : AddrPort) (b : bytes)
  | InMain (src : AddrPort) (b : bytes)
  | InAdv (src : AddrPort) (b : bytes)
  | InCtrl (c : ctrlSet)
  | InApp (p : bytes)
  | InBlock (p : bytes) (seq sourceTime : option Z)
  | InOOB (proto : Z) (d : bytes)
  | InFlowAttr (json : bytes)
  | InTimer
  | InTick (rebind : bool).

Section loop.
Context (pbkdf2 : bytes -> bytes -> Z -> option bytes) (aes : bytes -> bytes -> bytes) (sha256 : bytes -> bytes) (WallNTP ntpNow : Z -> Z).
Context (visit : nat -> list (Z * Z) -> list (Z * Z)) (fuel : nat).

Definition inferSenderMediaFromRTCP : M unit :=
  s ← get;
  if negb (s_sender s) || IsValid (Media (s_peer s)) || negb (IsValid (RTCP (s_peer s))) then nop else
  let rt := RTCP (s_peer s) in
  if ap_port rt =? 0 then nop else
  modify (fun s => s <| s_peer ::= fun p => p <| Media := mkAddrPort (ap_addr rt) (ap_port rt - 1) |> |>).

(** Whether the session is kept alive. *)
Definition maybeRebindCaller (now : Z) (rebind : bool) : M bool :=
  s ← get;
  if negb (callerRebind s) || (negb (is_main s) && negb (is_adv s)) then mret false else
  let four := i64 (4 * KeepaliveInterval (s_cfg s)) in
  let minSilence := if SessionTimeout (s_cfg s) <? four then four else SessionTimeout (s_cfg s) in
  if negb (SilentFor now minSilence (s_peer s)) then mret true else
  when (negb (Timestamp.IsZero (lastRebind s)) && Timestamp.After (LastSeen (s_peer s)) (lastRebind s)) (modify (fun s => s <| rebindAttempts := 0 |>)) ;;
  s ← get;
  if rebindMaxAttempts <=? rebindAttempts s then mret false else
  let mult := if rebindBackoffCap <? rebindAttempts s then rebindBackoffCap else rebindAttempts s in
  let minGap := i64 (mult * SessionTimeout (s_cfg s)) in
  if negb (Timestamp.IsZero (lastRebind s)) && (Timestamp.Sub now (lastRebind s) <? minGap) then mret true else
  if negb rebind then mret false else
  modify (fun s => s <| rebindAttempts ::= (fun n => u32 (n + 1)) |> <| lastRebind := now |> <| s_peer ::= Observe now |>
    <| lastTx := Timestamp.Add now (i64 (-2 * KeepaliveInterval (s_cfg s))) |> <| s_gre ::= (fun g => g <| greBurstSent := false |>) |>) ;;
  mret true.

Definition keepalive_interval (s : Session) : Z := if KeepaliveInterval (s_cfg s) <=? 0 then 1000 * Millisecond else KeepaliveInterval (s_cfg s).

(** The retransmission of the outstanding EAP frame: whether the session goes on. *)
Definition retransmit_eap (now : Z) : M bool :=
  s ← get;
  let e := s_eap s in
  let role := match eapClient e, eapServer e with None, None => false | _, _ => true end in
  match eapLastTx e with
  | Some f =>
      if negb (authed e) && role && IsValid (Media (s_peer s)) then
        if maxEAPRetx <=? eapRetx e then
          if negb (everAuthed e) then shutdown ErrAuth ;; mret false else mret true
        else on_eap (fun e => e <| eapRetx ::= fun n => n + 1 |>) ;; sendEAP f now ;; mret true
      else mret true
  | None => mret true
  end.

(** The periodic keep-alives and reports. *)
Definition tick_beacons (now : Z) : M unit :=
  s ← get;
  when (IsValid (RTCP (s_peer s)) && negb (reauthing (s_eap s)) && (is_adv s || (keepalive_interval s <=? Timestamp.Sub now (lastTx s)))) (sendKeepalive pbkdf2 aes WallNTP now) ;;
  s ← get;
  when (is_main s && IsValid (RTCP (s_peer s)) && negb (reauthing (s_eap s))) (
    sendGREKeepalive pbkdf2 aes (greVersion (s_gre s)) ;;
    s ← get;
    let cur := u16 (CurrentRecoveryBuffer (s_flow s) /g Millisecond) in
    if negb (s_sender s) && negb (cur =? advertisedBufMs (s_gre s)) then
      ok ← sendReceiverBufferNeg pbkdf2 aes cur; when ok (on_gre (fun g => g <| advertisedBufMs := cur |>))
    else nop) ;;
  s ← get;
  when (adaptEmitsLQM s) (sendLQM pbkdf2 aes now).

(** Liveness: whether the session goes on. *)
Definition tick_alive (now : Z) (rebind : bool) : M bool :=
  s ← get;
  if reauthing (s_eap s) then
    if Timestamp.After now (reauthDeadline (s_eap s)) then on_eap (fun e => e <| reauthing := false |>) ;; shutdown ErrSessionTimeout ;; mret false else mret true
  else if Expired now (s_peer s) then
    alive ← maybeRebindCaller now rebind;
    if (alive : bool) then mret true else shutdown ErrSessionTimeout ;; mret false
  else mret true.

(** Whether the loop goes on. *)
Definition tick (now : Z) (rebind : bool) : M bool :=
  alive ← tick_alive now rebind;
  if negb alive then mret false else
  alive ← retransmit_eap now;
  if negb alive then mret false else
  tick_beacons now ;; mret true.

(** [start] and the head of [loop], without the DTLS handshake a socket with DTLS performs there: its failure shuts the session down with [ErrAuth] before anything else happens. *)
Definition start (now : Z) : M unit :=
  s ← get;
  when (s_sender s || s_announce s) (sendKeepalive pbkdf2 aes WallNTP now) ;;
  modify (fun s => s <| s_lqm ::= fun q => adapt.mkLqmState (adapt.lqmPrev q) now (adapt.rxBytes q) (adapt.lqmPrevBytes q) (adapt.rxRetransBytes q) (adapt.lqmPrevRetransBytes q) (adapt.fecRecovered q) (adapt.lqmPrevFEC q) (adapt.lqmSeq q) |>) ;;
  maybeStartEAP now.

Definition drain_ := drain pbkdf2 aes WallNTP.

(** The inputs other than ticks. *)
Definition handle (now : Z) (i : input) : M unit :=
  match i with
  | InMedia src b =>
      modify (fun s => s <| s_peer ::= fun p => Observe now (LearnMedia src p) |>) ;;
      s ← get;
      let '(r, d) := decode b (s_mdec s) in
      modify (fun s => s <| s_mdec := d |>) ;;
      r ← attempt r;
      (match r with
       | None => nop
       | Some pkt => feedMedia now 0 pkt ;; s ← get; when (fecEnabled s) (fecRecvRTP now (lastWireTS (s_mdec s)) pkt)
       end) ;;
      drain_ now
  | InFEC body =>
      s ← get;
      (if is_adv s then rs ← fec_push_fec body; each (fun r => count_recovered ;; handle_adv pbkdf2 aes fuel now (Fec.fecm.r_Payload r)) rs else fecOnRecvFEC_rtp now body) ;;
      drain_ now
  | InRTCP src b =>
      modify (fun s => s <| s_peer ::= LearnRTCP src |>) ;;
      inferSenderMediaFromRTCP ;;
      modify (fun s => s <| s_peer ::= Observe now |>) ;;
      s ← get;
      (match decodeFeedback b (highestSent s) with
       | Some r => r ← attempt r; match r with Some fbs => feedFeedback now fbs | None => nop end
       | None => panic
       end) ;;
      drain_ now
  | InMain src b => handleMainDatagram pbkdf2 aes sha256 WallNTP now src b ;; drain_ now
  | InAdv src b =>
      modify (fun s => s <| s_peer ::= fun p => Observe now (LearnRTCP src (LearnMedia src p)) |>) ;;
      s ← get;
      when (negb (advPeerKnown (s_gre s))) (on_gre (fun g => g <| advPeerKnown := true |>) ;; sendKeepalive pbkdf2 aes WallNTP now) ;;
      handle_adv pbkdf2 aes fuel now b ;;
      drain_ now
  | InCtrl c => applyCtrl c
  | InApp p => s ← get; if authed (s_eap s) then pushApp ntpNow now p ;; drain_ now else nop
  | InBlock p seq st => s ← get; if authed (s_eap s) then push_block now p FragStandalone seq st ;; drain_ now else nop
  | InOOB proto d => sendOOB pbkdf2 aes now proto d ;; drain_ now
  | InFlowAttr json => sendFlowAttr now json ;; drain_ now
  | InTimer => fireTimers visit now ;; drain_ now
  | InTick _ => nop
  end.

(** One turn of the loop: whether it goes on.  A session that is shut down elsewhere than in a tick may still take some of the inputs that are ready before it
    sees that it is done, where its inputs end. *)
Definition step (now : Z) (i : input) : M bool :=
  match i with InTick rebind => tick now rebind | _ => handle now i ;; mret true end.

Fixpoint loop (ins : list (Z * input)) : M unit :=
  match ins with [] => nop | (now, i) :: ins => more ← step now i; if (more : bool) then loop ins else nop end.
End loop.
End sessionloop.
