(* ===== verification/SessionFrames.v ===== *)
(** * What the operations of a session leave alone

    The sending operations touch only the output side of a session: codecs, buffers, encoders, counters of reports and the world outside.  [inner] blanks that side,
    and each operation keeps [inner] ([sends] below), so that the theories of the handlers reason about the rest. *)

From stdpp Require Import gmap.
From S2P Require Import Prelude GoFloat Bytes Clock Wire Rtcp FlowTypes Flow Split Reassembler Gre Peer Psk Adapt SimpleCodec AdvCodec MainCodec Eap EapState EapClient EapServer Session SessionMain SessionAdv SessionLoop.

Module sessionframes.
Import peer session sessionmain sessionadv sessionloop.

(** ** Relations kept by an operation, whether it returns or panics *)

Definition keeps {A} (R : relation Session) (m : M A) : Prop := forall s, R s (m s).2.

Section keeps.
Context (R : relation Session) {HR : PreOrder R}.

Lemma keeps_ret {A} (a : A) : keeps R (mret a : M A).
Proof. intros s. reflexivity. Qed.
Lemma keeps_get : keeps R get.
Proof. intros s. reflexivity. Qed.
Lemma keeps_panic {A} : keeps R (panic : M A).
Proof. intros s. reflexivity. Qed.
Lemma keeps_lift {A} (r : res Empty_set A) : keeps R (lift r : M A).
Proof. intros s. reflexivity. Qed.
Lemma keeps_mbind {A B} (m : M A) (k : A -> M B) : keeps R m -> (forall a, keeps R (k a)) -> keeps R (m ≫= k).
Proof.
  intros Hm Hk s. unfold mbind, sres_bind. specialize (Hm s). destruct (m s) as [[a|e|] s']; cbn [snd] in *; [|done..]. etransitivity; [exact Hm|apply Hk].
Qed.
(** The state read by [get] is the state the rest starts from. *)
Lemma keeps_get_bind {B} (k : Session -> M B) : (forall s, R s (k s s).2) -> keeps R (get ≫= k).
Proof. intros H s. apply H. Qed.
Lemma keeps_modify f : (forall s, R s (f s)) -> keeps R (modify f : M unit).
Proof. intros H s. apply H. Qed.
(** A call of the flow, which may panic: the flow is all it changes. *)
Lemma keeps_flow g : (forall s f, R s (s <| s_flow := f |>)) -> keeps R (on_flow g).
Proof. intros H s. unfold on_flow. destruct (g (s_flow s)); [apply H|reflexivity]. Qed.
Lemma keeps_after {B} f (k : M B) s : R s (f s) -> keeps R k -> R s ((modify f ;; k) s).2.
Proof. intros H Hk. etransitivity; [exact H|]. apply Hk. Qed.
Lemma keeps_when b m : (b = true -> keeps R m) -> keeps R (when b m).
Proof. destruct b; intros H; [by apply H|apply keeps_ret]. Qed.
Lemma keeps_each {A} (f : A -> M unit) l : (forall x, keeps R (f x)) -> keeps R (each f l).
Proof. intros H. induction l as [|x l IH]; [apply keeps_ret|]. apply keeps_mbind; [apply H|intros _; exact IH]. Qed.
Lemma keeps_attempt {E A} (r : res E A) : keeps R (attempt r).
Proof. intros s. destruct r; reflexivity. Qed.
End keeps.

Create HintDb frames.

(** Descend through an operation: binds, conditionals and known operations; the leaves are updates. *)
Ltac frame_step :=
  first
    [ progress (intros; cbn beta)
    | solve [eauto with frames]
    | match goal with
      | |- keeps _ (mbind _ _) => apply keeps_mbind
      | |- keeps _ (when _ _) => apply keeps_when
      | |- keeps _ (each _ _) => apply keeps_each
      | |- PreOrder _ => typeclasses eauto
      | |- keeps _ (on_gre _) => apply keeps_modify
      | |- keeps _ (on_eap _) => apply keeps_modify
      | |- keeps _ nop => apply keeps_ret
      | |- keeps _ get => apply keeps_get
      | |- keeps _ panic => apply keeps_panic
      | |- keeps _ (mret _) => apply keeps_ret
      | |- keeps _ (lift _) => apply keeps_lift
      | |- keeps _ (attempt _) => apply keeps_attempt
      | |- keeps _ (modify _) => apply keeps_modify
      | |- keeps _ (on_flow _) => apply keeps_flow
      | |- keeps _ (if ?b then _ else _) => destruct b
      | |- keeps _ (let '(_, _) := ?x in _) => destruct x
      | |- keeps _ (match ?x with _ => _ end) => destruct x
      end ].
Ltac frames := repeat frame_step.

(** ** The output side *)

Definition blank_codec : maincodec.mainCodec := maincodec.newMainCodec None None false 0 0 false 0 [] false.
Definition blank_adv : advcodec.advCodec := advcodec.newAdvCodec None None false 0 0 0.
(** The draws for EAP secrets and the logs of the callbacks are not output. *)
Definition inner_world (w : world) : world := mkWorldS [] [] [] (secrets w) (rateTargets w) (flowAttrs w) (counted w).

Definition inner (s : Session) : Session := mkSession
  (s_cfg s) (s_flow s) (s_peer s) (s_sender s) (s_announce s) (s_mdec s) (callerRebind s) (rebindAttempts s) (lastRebind s)
  ((fun _ => blank_codec) <$> s_main s) ((fun _ => blank_adv) <$> s_adv s) ((fun _ => blank_codec) <$> s_advGRE s)
  (s_gre s) (s_eap s <| eapLastTx := None |>) (mkFecState None None 0 0 (mkFecCtrl frag_zero 0 false)) (adapt.mkLqmState Stats_zero 0 0 0 0 0 0 0 0) (mkRxStats false 0 0 0 (f64_of_Z 0) 0 false 0 0)
  (timers s) (highestSent s) 0 (delivery s) (blockOut s) (oobOut s) (leftover s) (fragSize s) (reasm s) (splitMode s) (merger s)
  (mkSlice [] []) (mkSlice [] []) (closeErr s) (inner_world (s_world s)).

(** Only the output side changes, and nothing written is taken back. *)
Definition outward (s s' : Session) : Prop := inner s' = inner s /\ exists ds, written (s_world s') = ds ++ written (s_world s).

#[export] Instance outward_pre : PreOrder outward.
Proof.
  split; [intros s; split; [done|by exists []]|]. intros s1 s2 s3 [H1 [d1 E1]] [H2 [d2 E2]]. split; [congruence|]. exists (d2 ++ d1). by rewrite E2, E1, app_assoc.
Qed.

Lemma outward_same s s' : inner s' = inner s -> written (s_world s') = written (s_world s) -> outward s s'.
Proof. intros H E. split; [exact H|]. exists []. exact E. Qed.

Ltac same := intros; apply outward_same; reflexivity.

Lemma sends_write_on conn k b dst : keeps outward (write_on conn k b dst).
Proof. intros s. unfold write_on. split; [by destruct (faults _)|]. exists [mkDatagram conn k dst b]. by destruct (faults _). Qed.
Lemma sends_write k b dst : keeps outward (write k b dst).
Proof. apply sends_write_on. Qed.
Lemma sends_sent_at now : keeps outward (sent_at now).
Proof. apply keeps_modify. same. Qed.

Lemma sends_attempt_at {E A} (r : res E A) s s' : outward s s' -> outward s (attempt r s').2.
Proof. by destruct r. Qed.

Lemma sends_main_call f : keeps outward (main_call f).
Proof. intros s. unfold main_call. destruct (s_main s) as [c|] eqn:E; [|reflexivity]. destruct (f _ c) as [[r c'] ds]. apply sends_attempt_at, outward_same; [|done]. unfold inner. cbn. by rewrite E. Qed.
Lemma sends_gre_call f : keeps outward (gre_call f).
Proof. intros s. unfold gre_call. destruct (s_advGRE s) as [c|] eqn:E; [|reflexivity]. destruct (f _ c) as [[r c'] ds]. apply sends_attempt_at, outward_same; [|done]. unfold inner. cbn. by rewrite E. Qed.
Lemma sends_adv_call {A} (f : sres advcodec.advCodec advcodec.err A) : keeps outward (adv_call f).
Proof. intros s. unfold adv_call. destruct (s_adv s) as [c|] eqn:E; [|reflexivity]. destruct (f c) as [r c']. apply sends_attempt_at, outward_same; [|done]. unfold inner. cbn. by rewrite E. Qed.
#[export] Hint Resolve sends_write_on sends_write sends_sent_at sends_main_call sends_gre_call sends_adv_call : frames.

(** ** The sending operations *)

Section sends.
Context (pbkdf2 : bytes -> bytes -> Z -> option bytes) (aes : bytes -> bytes -> bytes) (WallNTP : Z -> Z).

Lemma sends_writeFECControl body first last now : keeps outward (writeFECControl body first last now).
Proof. unfold writeFECControl. frames. Qed.

Lemma sends_fragments fuel off body now : keeps outward (write_fragments fuel off body now).
Proof. revert off. induction fuel as [|fuel IH]; intros off; cbn [write_fragments]; [frames|]. pose proof sends_writeFECControl. frames. Qed.

Lemma sends_FECSeparate fp : keeps outward (sendFECSeparate fp).
Proof. unfold sendFECSeparate. frames; same. Qed.

Lemma sends_FEC now fp : keeps outward (sendFEC now fp).
Proof. pose proof sends_FECSeparate. pose proof sends_fragments. pose proof sends_writeFECControl. unfold sendFEC. frames. Qed.

Lemma sends_parity pkt dg : keeps outward (fec_parity pkt dg).
Proof. unfold fec_parity. frames; same. Qed.
Lemma sends_fecOnSend now pkt dg : keeps outward (fecOnSend now pkt dg).
Proof. pose proof sends_FEC. pose proof sends_parity. unfold fecOnSend. frames. Qed.

Lemma sends_announce now : keeps outward (maybeAnnounceAdvNonce now).
Proof. unfold maybeAnnounceAdvNonce. frames. Qed.

Lemma sends_encode_media pkt : keeps outward (encode_media pbkdf2 aes pkt).
Proof.
  unfold encode_media. apply keeps_get_bind. intros s. destruct (is_main s); [apply sends_main_call|]. destruct (advInMainWindow s); [apply sends_gre_call|]. destruct (s_adv s) as [c|] eqn:E.
  - destruct (advcodec.encodeAdvMedia _ _ _ _ _ _) as [[r c'] ds]. unfold mbind, sres_bind, modify. cbn beta iota. apply sends_attempt_at, outward_same; [|done]. unfold inner. cbn. by rewrite E.
  - destruct (encodeMedia _ _) as [r b]. revert s E. enough (H : keeps outward (r ← attempt r; match r with None => modify (fun s => s <| mediaBuf := reslice (mediaBuf s) |>) ;; mret None | Some _ => modify (fun s => s <| mediaBuf := b |>) ;; mret (Some (data b)) end)) by (intros; apply H). frames; same.
Qed.
#[local] Hint Resolve sends_fecOnSend sends_announce sends_encode_media : frames.

Lemma sends_media now pkt : keeps outward (sendMedia pbkdf2 aes now pkt).
Proof. unfold sendMedia. frames. Qed.

Lemma sends_compound lead fbs : keeps outward (encodeCompound pbkdf2 aes lead fbs).
Proof. unfold encodeCompound. frames; same. Qed.

Lemma sends_writeFeedback b : keeps outward (writeFeedback b).
Proof. unfold writeFeedback. frames. Qed.

Lemma sends_write_all dgs : keeps outward (write_all dgs).
Proof. induction dgs as [|dg dgs IH]; cbn [write_all]; frames. Qed.
#[local] Hint Resolve sends_compound sends_writeFeedback sends_write_all : frames.

Lemma sends_feedback fbs now : keeps outward (sendFeedback pbkdf2 aes WallNTP fbs now).
Proof. unfold sendFeedback, sendAdvFeedback. frames. Qed.

Lemma sends_lead now : keeps outward (keepaliveLead WallNTP now).
Proof. unfold keepaliveLead. frames. intros s. unfold receiverReport. destruct (report_counts _ _) as [[? ?] ?]. same. Qed.
#[local] Hint Resolve sends_lead : frames.

Lemma sends_keepalive now : keeps outward (sendKeepalive pbkdf2 aes WallNTP now).
Proof. unfold sendKeepalive, sendAdvGREHandshake, sendAdvKeepalive, sendAdvSplitAdvert. frames; same. Qed.

Lemma sends_LQM now : keeps outward (sendLQM pbkdf2 aes now).
Proof. unfold sendLQM, encodeLQM. frames; try same. intros s. unfold computeLQM. destruct (adapt.computeLQM _ _ _ _). same. Qed.

Lemma sends_gre_keepalive v : keeps outward (sendGREKeepalive pbkdf2 aes v).
Proof. unfold sendGREKeepalive. frames. Qed.

Lemma sends_buffer_neg bn : keeps outward (send_buffer_neg pbkdf2 aes bn).
Proof. unfold send_buffer_neg. frames. Qed.
#[local] Hint Resolve sends_gre_keepalive sends_buffer_neg : frames.

Lemma sends_bufferNegotiation : keeps outward (sendBufferNegotiation pbkdf2 aes).
Proof. unfold sendBufferNegotiation. frames. Qed.
#[local] Hint Resolve sends_bufferNegotiation : frames.

Lemma sends_burst : keeps outward (sendGREKeepaliveBurst pbkdf2 aes).
Proof. unfold sendGREKeepaliveBurst. frames. Qed.

Lemma sends_receiverBufferNeg cur : keeps outward (sendReceiverBufferNeg pbkdf2 aes cur).
Proof. unfold sendReceiverBufferNeg. frames. Qed.

Lemma sends_EAP f now : keeps outward (sendEAP f now).
Proof.
  unfold sendEAP. apply keeps_get_bind. intros s. destruct (s_main s) as [c|] eqn:E; [|reflexivity]. destruct (negb _); [reflexivity|]. destruct (maincodec.encodeEAPOL _ _ _) as [r c'].
  etransitivity; [apply (outward_same s (s <| s_eap ::= (fun e => e <| eapLastTx := Some f |>) |> <| s_main := Some c' |>)); [unfold inner; cbn; by rewrite E|done]|].
  set (s1 := s <| s_eap ::= (fun e => e <| eapLastTx := Some f |>) |> <| s_main := Some c' |>). unfold on_eap, modify, mbind, sres_bind. cbn beta iota.
  enough (H : keeps outward (r ← attempt r; match r with None => nop | Some b => modify (fun s => s <| rtcpBuf := mkSlice b [] |>) ;; write SockMedia b (Media (s_peer s)) ;; sent_at now end)) by apply (H s1). frames; same.
Qed.

Lemma sends_unsupported now ci head : keeps outward (sendAdvUnsupported now ci head).
Proof. unfold sendAdvUnsupported. frames. Qed.

Lemma sends_flowAttr now json : keeps outward (sendFlowAttr now json).
Proof. unfold sendFlowAttr. frames. Qed.

Lemma sends_OOB now proto d : keeps outward (sendOOB pbkdf2 aes now proto d).
Proof. unfold sendOOB. frames. Qed.
End sends.
#[export] Hint Resolve sends_media sends_feedback sends_keepalive sends_LQM sends_gre_keepalive sends_bufferNegotiation sends_burst sends_receiverBufferNeg sends_EAP sends_unsupported sends_flowAttr sends_OOB : frames.
End sessionframes.
