(* ===== verification/SessionApi.v ===== *)
(** * Reads, timers and reports of a session

    The stream an application reads, the timers the loop fires for the flow, and the counts of a Receiver Report. *)

From stdpp Require Import gmap sorting.
From S2P Require Import Prelude GoFloat Bytes Clock Wire Rtcp FlowTypes FlowNew Flow FlowChecked Split Peer SimpleCodec Session SessionMain SessionAdv SessionLoop.

Module sessionapi.
Import peer session sessionloop.

(** ** The read stream *)

(** What the application does to its end, and what the loop does: reads of a size, with the deadline passed or not, and deliveries. *)
Inductive stream_op := Reads (n : nat) (expired : bool) | Delivers (p : bytes).

(** The bytes still to be read. *)
Definition unread (s : Session) : bytes := leftover s ++ concat (delivery s).

Definition returned (a : answer bytes) : bytes := match a with Answer b => b | _ => [] end.

Definition stream_step (op : stream_op) (s : Session) : answer bytes * Session :=
  match op with
  | Reads n expired => Read n expired s
  | Delivers p => (Waits, (queueDelivery p s).2)
  end.

Fixpoint stream_run (ops : list stream_op) (s : Session) : list (answer bytes) * Session :=
  match ops with [] => ([], s) | op :: ops => let '(a, s) := stream_step op s in let '(l, s) := stream_run ops s in (a :: l, s) end.

Definition accepted (op : stream_op) : bytes := match op with Delivers p => p | _ => [] end.

Lemma Read_stream n expired s : let '(a, s') := Read n expired s in
  returned a ++ unread s' = unread s /\ authed (s_eap s') = authed (s_eap s) /\ closeErr s' = closeErr s /\ (length (delivery s') <= length (delivery s))%nat /\
  ((forall b, a <> Answer b) -> unread s = [] /\ delivery s = []).
Proof.
  unfold Read, unread. destruct (leftover s) as [|x l] eqn:El.
  - destruct (delivery s) as [|p rest] eqn:Ed; [destruct expired; [|destruct (closeErr s) eqn:Ec]; cbn; rewrite ?El, ?Ed, ?Ec; split_and!; done|].
    unfold take_payload. destruct (Nat.ltb_spec n (length p)); cbn; rewrite ?El; split_and!; try done; try lia.
    + by rewrite app_assoc, firstn_skipn.
    + intros H'. by destruct (H' (firstn n p)).
    + by rewrite firstn_all2 by lia.
    + intros H'. by destruct (H' (firstn n p)).
  - cbn [leftover delivery]. rewrite <-El. cbn. split_and!; try done; [by rewrite app_assoc, firstn_skipn|]. intros H'. by destruct (H' (firstn n (leftover s))).
Qed.

(** C19: Reading a session.  While the data channel is open and the read queue has room, the bytes that successive reads return, whatever their sizes and wherever
    payloads arrive in between, followed by what is still unread, are the bytes that were waiting followed by the payloads in the order the flow delivered
    them; a read waits or fails only when nothing is left, so a closed session is drained first. *)
Theorem session_read_stream ops s : authed (s_eap s) = true -> (length (delivery s) + length ops <= deliveryCap)%nat ->
  let '(answers, s') := stream_run ops s in
  concat (returned <$> answers) ++ unread s' = unread s ++ concat (accepted <$> ops) /\
  forall n expired, (forall b, (Read n expired s').1 <> Answer b) -> unread s' = [] /\ delivery s' = [].
Proof.
  intros Ha Hl. revert s Ha Hl. induction ops as [|op ops IH]; intros s Ha Hl; cbn [stream_run].
  - split; [cbn; by rewrite app_nil_r|]. intros n expired H. pose proof (Read_stream n expired s) as HR. destruct (Read n expired s) as [a s'']. by apply HR.
  - cbn [length] in Hl. destruct op as [n expired|p]; cbn [stream_step].
    + pose proof (Read_stream n expired s) as HR. destruct (Read n expired s) as [a s1]. destruct HR as (H1 & H2 & _ & H3 & _). specialize (IH s1). destruct (stream_run ops s1) as [l s2]. destruct IH as [IH1 IH2]; [congruence|lia|]. split; [|exact IH2].
      cbn [fmap list_fmap concat accepted]. rewrite <-app_assoc, IH1, app_assoc, H1. done.
    + unfold queueDelivery, mbind, sres_bind, get. cbn beta iota. rewrite Ha. cbn [negb]. rewrite (proj2 (Nat.ltb_lt (length (delivery s)) deliveryCap)) by lia. cbn [modify snd].
      specialize (IH (s <| delivery ::= (fun q => q ++ [p]) |>)). destruct (stream_run ops _) as [l s2]. destruct IH as [IH1 IH2]; [done|cbn; rewrite length_app; cbn; lia|]. split; [|exact IH2].
      cbn [fmap list_fmap concat accepted returned app]. rewrite IH1. unfold unread. cbn. rewrite concat_app. cbn. by rewrite app_nil_r, <-!app_assoc.
Qed.

(** ** Timers *)

Section timers.
Context (visit : nat -> list (Z * Z) -> list (Z * Z)) (visit_all : forall n l, Permutation (visit n l) l).

Lemma earliest_of_spec l best : match earliest_of l best with
  | Some t => (t ∈ l \/ best = Some t) /\ (forall t', t' ∈ l \/ best = Some t' -> t.2 <= t'.2)
  | None => l = [] /\ best = None
  end.
Proof.
  revert best. induction l as [|[i d] l IH]; intros best; cbn [earliest_of].
  - destruct best as [t|]; [|done]. split; [by right|]. intros t' [H|[= ->]]; [by apply not_elem_of_nil in H|lia].
  - set (b := match best with None => _ | Some _ => _ end). specialize (IH b). assert (Hb : exists t, b = Some t /\ (t = (i, d) \/ best = Some t) /\ t.2 <= d /\ forall t', best = Some t' -> t.2 <= t'.2).
    { subst b. destruct best as [[j e]|]; [|exists (i, d); split_and!; [done|by left|cbn; lia|done]]. unfold Timestamp.Before. destruct (Z.ltb_spec d e); [exists (i, d)|exists (j, e)]; split_and!; cbn; try done; try lia; auto; intros t' [= <-]; cbn; lia. }
    destruct Hb as (t & Eb & Hor & Hd & Hbest). rewrite Eb in *. destruct (earliest_of l (Some t)) as [u|]; [|by destruct IH]. destruct IH as [IH1 IH2]. split.
    + destruct IH1 as [IH1|[= ->]]; [left; by apply elem_of_cons; right|]. destruct Hor as [-> | Hor]; [left; by apply elem_of_cons; left|by right].
    + pose proof (IH2 t (or_intror eq_refl)). intros t' [Ht'|Ht']; [apply elem_of_cons in Ht' as [-> | Ht']; [cbn; lia|apply IH2; by left]|specialize (Hbest t' Ht'); lia].
Qed.

Lemma earliestTimer_spec n s : match earliestTimer visit n s with
  | Some (i, d) => timers s !! i = Some d /\ (forall i' d', timers s !! i' = Some d' -> d <= d')
  | None => timers s = ∅
  end.
Proof.
  unfold earliestTimer. pose proof (earliest_of_spec (visit n (map_to_list (timers s))) None) as H. assert (Hin : forall t, t ∈ visit n (map_to_list (timers s)) <-> timers s !! t.1 = Some t.2).
  { intros [i d]. rewrite (visit_all n). apply elem_of_map_to_list. }
  destruct (earliest_of _ None) as [[i d]|].
  - destruct H as [[H1|H1] H2]; [|done]. split; [by apply (Hin (i, d))|]. intros i' d' Hd'. apply (H2 (i', d')). left. by apply Hin.
  - destruct H as [H _]. apply map_to_list_empty_iff. apply Permutation_nil. rewrite <-(visit_all n (map_to_list (timers s))), H. done.
Qed.

(** The flow after the timers [fired], in order. *)
Definition fire_all (now : Z) (fired : list (Z * Z)) (f : Flow) : Flow := fold_left (fun f t => HandleTimer now t.1 f) fired f.
Definition due (now : Z) (ts : gmap Z Z) : gmap Z Z := filter (fun kv => kv.2 <= now) ts.
Definition by_deadline (a b : Z * Z) : Prop := a.2 <= b.2.

Lemma fire_timers_spec fuel now s : flow_shape (s_flow s) -> (size (timers s) < fuel)%nat -> exists fired,
  fire_timers visit fuel now s = (Ok tt, s <| timers := filter (fun kv => now < kv.2) (timers s) |> <| s_flow ::= fire_all now fired |>) /\
  Permutation fired (map_to_list (due now (timers s))) /\ Sorted by_deadline fired.
Proof.
  revert s. induction fuel as [|fuel IH]; intros s Hsh Hf; [lia|]. cbn [fire_timers]. unfold mbind, sres_bind, get. cbn beta iota. pose proof (earliestTimer_spec fuel s) as He.
  assert (Hnone : (forall i d, timers s !! i = Some d -> now < d) -> exists fired, (Ok tt : res Empty_set unit, s) = (Ok tt, s <| timers := filter (fun kv => now < kv.2) (timers s) |> <| s_flow ::= fire_all now fired |>) /\
      Permutation fired (map_to_list (due now (timers s))) /\ Sorted by_deadline fired).
  { intros Hall. exists []. assert (E1 : filter (fun kv : Z * Z => now < kv.2) (timers s) = timers s) by (apply map_filter_id; intros i d Hi; by apply (Hall i)). assert (E2 : due now (timers s) = ∅) by (apply map_empty; intros i; apply map_lookup_filter_None; right; intros d Hd; specialize (Hall i d Hd); cbn; lia).
    rewrite E1, E2, map_to_list_empty. split_and!; [by destruct s|done|constructor]. }
  destruct (earliestTimer visit fuel s) as [[i d]|]; [|rewrite He in Hnone |- *; apply Hnone; intros i d Hi; by rewrite lookup_empty in Hi].
  destruct He as [Hi Hmin]. unfold Timestamp.After. destruct (Z.ltb_spec now d) as [Hd|Hd]; [apply Hnone; intros i' d' Hi'; specialize (Hmin i' d' Hi'); lia|].
  unfold modify, on_flow. cbn beta iota. destruct (HandleTimer_returns now i (s_flow s) Hsh) as [EH ED]. change (s_flow (s <| timers ::= delete i |>)) with (s_flow s). rewrite EH. set (s1 := s <| timers ::= delete i |> <| s_flow := HandleTimer now i (s_flow s) |>).
  assert (Hsz : (size (timers s1) < fuel)%nat) by (cbn; rewrite map_size_delete_Some by (by eexists); assert (size (timers s) <> 0)%nat by (intros H0; apply map_size_empty_inv in H0; rewrite H0, lookup_empty in Hi; done); lia).
  destruct (IH s1 (dims_shape _ _ ED Hsh) Hsz) as (fired & E & Hp & Hs). exists ((i, d) :: fired). split_and!.
  - assert (Ef : filter (fun kv : Z * Z => now < kv.2) (timers s1) = filter (fun kv : Z * Z => now < kv.2) (timers s)).
    { change (timers s1) with (delete i (timers s)). rewrite map_filter_delete. apply delete_id, map_lookup_filter_None. right. intros x Hx. rewrite Hi in Hx. injection Hx as <-. cbn. lia. }
    rewrite E, Ef. reflexivity.
  - rewrite Hp. change (timers s1) with (delete i (timers s)). unfold due. rewrite map_filter_delete. symmetry. rewrite <-(map_to_list_insert _ i d) by apply lookup_delete_eq. rewrite insert_delete_id; [done|]. apply map_lookup_filter_Some. split; [done|]. cbn. lia.
  - constructor; [exact Hs|]. destruct fired as [|[j e] fired]; constructor. unfold by_deadline. cbn. assert (Hj : (j, e) ∈ map_to_list (due now (timers s1))) by (rewrite <-Hp; by apply elem_of_cons; left).
    apply elem_of_map_to_list, map_lookup_filter_Some in Hj as [Hj _]. cbn in Hj. apply lookup_delete_Some in Hj as [_ Hj]. by apply (Hmin j).
Qed.

(** Timers.  When the host's timer fires, the loop hands the flow exactly the timers that are due, each once and in the order of their deadlines whatever order the map
    is visited in, keeps the others, and ends; and it arms the host's timer for the earliest deadline left, or not at all when none is. *)
Theorem session_timers now s : flow_shape (s_flow s) -> exists fired,
  fireTimers visit now s = (Ok tt, s <| timers := filter (fun kv => now < kv.2) (timers s) |> <| s_flow ::= fire_all now fired |>) /\
  Permutation fired (map_to_list (due now (timers s))) /\ Sorted by_deadline fired /\
  match rearm visit now s with
  | Some delay => exists i d, timers s !! i = Some d /\ (forall i' d', timers s !! i' = Some d' -> d <= d') /\ delay = Z.max 0 (Timestamp.Sub d now)
  | None => timers s = ∅
  end.
Proof.
  intros Hsh. unfold fireTimers, mbind, sres_bind, get. cbn beta iota. destruct (fire_timers_spec (S (size (timers s))) now s Hsh) as (fired & E & Hp & Hs); [lia|]. exists fired. split_and!; [done..|].
  unfold rearm. pose proof (earliestTimer_spec 0 s) as H. destruct (earliestTimer visit 0 s) as [[i d]|]; [|done]. destruct H. exists i, d. split_and!; [done..|]. destruct (Z.ltb_spec (Timestamp.Sub d now) 0); lia.
Qed.
End timers.

(** ** Receiver reports *)

(** The statistics after some packets, each with its arrival instant. *)
Definition observe_all (l : list (Z * MediaPacket)) (r : rxStats) : rxStats := fold_left (fun r np => jitter_rx np.1 np.2 (extend_rx np.2 r)) l r.

(** Packets by their place in the flow: [m] is the highest place so far; a packet comes less than 2^31 away from it. *)
Fixpoint placed (base m : Z) (ps : list Z) (l : list (Z * MediaPacket)) : Prop :=
  match ps, l with
  | [], [] => True
  | p :: ps, np :: l => Seq np.2 = u32 (base + p) /\ Z.abs (p - m) < 2 ^ 31 /\ Z.max m p < 2 ^ 32 - 1 /\ placed base (Z.max m p) ps l
  | _, _ => False
  end.
Definition top (m : Z) (ps : list Z) : Z := fold_left Z.max ps m.

Record rx_at (base m : Z) (r : rxStats) : Prop := { ra_set : baseSet r = true; ra_base : baseSeq r = u32 base; ra_high : highest r = u32 (base + m); ra_range : 0 <= m < 2 ^ 32 - 1 }.

Lemma jitter_rx_frame now pkt r : let r' := jitter_rx now pkt r in
  baseSet r' = baseSet r /\ baseSeq r' = baseSeq r /\ highest r' = highest r /\ lastExpected r' = lastExpected r /\ lastReceived r' = lastReceived r.
Proof. unfold jitter_rx. by destruct (haveTransit r). Qed.

Lemma extend_rx_place base m p pkt r : rx_at base m r -> Seq pkt = u32 (base + p) -> Z.abs (p - m) < 2 ^ 31 -> Z.max m p < 2 ^ 32 - 1 -> rx_at base (Z.max m p) (extend_rx pkt r).
Proof.
  intros [H1 H2 H3 H4] Hs Hp Hm. unfold extend_rx. cbn [baseSet highest upd]. rewrite H1, H3, Hs. cbn [negb]. assert (E : seqAfter (u32 (base + p)) (u32 (base + m)) = (m <? p)).
  { unfold seqAfter. rewrite u32_diff. replace (base + p - (base + m)) with (p - m) by lia. rewrite i32_u32 by lia. destruct (Z.ltb_spec m p), (Z.ltb_spec 0 (p - m)); done || lia. }
  rewrite E. destruct (Z.ltb_spec m p); split; cbn; try done; rewrite ?Z.max_l, ?Z.max_r by lia; try done; lia.
Qed.

Lemma extend_rx_snap pkt r : lastExpected (extend_rx pkt r) = lastExpected r /\ lastReceived (extend_rx pkt r) = lastReceived r.
Proof. unfold extend_rx. cbn. destruct (negb _); [done|]. by destruct (seqAfter _ _). Qed.

Lemma observe_all_place base m ps l r : rx_at base m r -> placed base m ps l -> rx_at base (top m ps) (observe_all l r) /\ lastExpected (observe_all l r) = lastExpected r /\ lastReceived (observe_all l r) = lastReceived r.
Proof.
  revert m l r. induction ps as [|p ps IH]; intros m [|np l] r Hr; cbn [placed]; try done. intros (Hs & Hp & Hm & Hl). cbn [observe_all fold_left]. unfold observe_all in IH. cbn [top fold_left] in *.
  pose proof (jitter_rx_frame np.1 np.2 (extend_rx np.2 r)) as (J1 & J2 & J3 & J4 & J5). pose proof (extend_rx_snap np.2 r) as [S1 S2]. pose proof (extend_rx_place base m p np.2 r Hr Hs Hp Hm) as [E1 E2 E3 E4].
  destruct (IH (Z.max m p) l (jitter_rx np.1 np.2 (extend_rx np.2 r))) as (I1 & I2 & I3); [split; congruence || done|done|]. split_and!; [exact I1|congruence..].
Qed.

Lemma first_rx base now pkt r : baseSet r = false -> Seq pkt = u32 base -> rx_at base 0 (jitter_rx now pkt (extend_rx pkt r)).
Proof.
  intros Hb Hs. pose proof (jitter_rx_frame now pkt (extend_rx pkt r)) as (J1 & J2 & J3 & _). assert (E : rx_at base 0 (extend_rx pkt r)) by (unfold extend_rx; cbn; rewrite Hb; cbn; split; cbn; rewrite ?Z.add_0_r; done).
  destruct E as [E1 E2 E3 E4]. split; congruence || done.
Qed.

Lemma expected_at base m r received : rx_at base m r -> (report_counts received r).1.1 = m + 1.
Proof.
  intros [H1 H2 H3 H4]. unfold report_counts. rewrite H1, H2, H3. cbn [fst]. rewrite u32_diff. replace (base + m - base) with m by lia. rewrite u32_id by (unfold in_u32; lia). apply u64_id. unfold in_u64. lia.
Qed.

(** The counts of the second of two reports. *)
Lemma report_counts_exact base now0 first ps1 l1 ps2 l2 rcv1 rcv2 r0 :
  baseSet r0 = false -> Seq first = u32 base -> placed base 0 ps1 l1 -> placed base (top 0 ps1) ps2 l2 -> 0 <= rcv1 <= rcv2 -> rcv2 < 2 ^ 56 ->
  let r1 := observe_all ((now0, first) :: l1) r0 in
  let r2 := observe_all l2 (snapshot (report_counts rcv1 r1).1.1 rcv1 r1) in
  let new := top (top 0 ps1) ps2 - top 0 ps1 in
  highest r2 = u32 (base + top (top 0 ps1) ps2) /\
  report_counts rcv2 r2 = (top (top 0 ps1) ps2 + 1, Z.max 0 (top (top 0 ps1) ps2 + 1 - rcv2) mod 2 ^ 24, if (rcv1 <? rcv2) && (rcv2 - rcv1 <? new) then 256 * (new - (rcv2 - rcv1)) / new else 0).
Proof.
  intros Hb Hs Hl1 Hl2 Hr1 Hr2 r1 r2. destruct (observe_all_place base 0 ps1 l1 (jitter_rx now0 first (extend_rx first r0))) as (A1 & _ & _); [by apply first_rx|done|]. fold (observe_all ((now0, first) :: l1) r0) in A1. fold r1 in A1.
  destruct (observe_all_place base (top 0 ps1) ps2 l2 (snapshot (report_counts rcv1 r1).1.1 rcv1 r1)) as (A2 & B2 & C2); [destruct A1; by split|done|]. fold r2 in A2, B2, C2. cbn [lastExpected lastReceived snapshot upd] in B2, C2.
  rewrite (expected_at base (top 0 ps1) r1 rcv1 A1) in B2. pose proof (expected_at base _ r2 rcv2 A2) as HE. destruct A1 as [_ _ _ R1]. destruct A2 as [S2 T2 U2 R2]. set (m1 := top 0 ps1) in *. set (m2 := top m1 ps2) in *.
  assert (Hmono : m1 <= m2) by (unfold m2, top; generalize m1 as m; clear; induction ps2 as [|p ps IH]; intros m; cbn; [lia|]; specialize (IH (Z.max m p)); lia).
  cbv zeta. split; [done|]. unfold report_counts in *. rewrite S2 in *. cbn [fst] in HE. rewrite HE, B2, C2. f_equal; [f_equal|].
  - destruct (Z.ltb_spec rcv2 (m2 + 1)); [|by rewrite Z.max_l by lia]. rewrite Z.max_r by lia. rewrite u64_id by (unfold in_u64; lia). rewrite u32_id by (unfold in_u32; lia). change 0x00FFFFFF with (Z.ones 24). by rewrite Z.land_ones by lia.
  - replace (m2 + 1 - (m1 + 1)) with (m2 - m1) by lia. rewrite (u64_id (m2 - m1)), (u64_id (rcv2 - rcv1)) by (unfold in_u64; lia). destruct (Z.ltb_spec 0 (m2 - m1)); [|destruct (Z.ltb_spec (rcv2 - rcv1) (m2 - m1)); [lia|by rewrite andb_false_r]].
    destruct (Z.ltb_spec (rcv2 - rcv1) (m2 - m1)); [|by rewrite andb_false_r]. rewrite Z.shiftl_mul_pow2 by lia. change (2 ^ 8) with 256. rewrite u64_id by (unfold in_u64; lia). rewrite Z.mul_comm. unfold u8, uwrap. destruct (Z.ltb_spec rcv1 rcv2); cbn [andb].
    + apply Z.mod_small. split; [apply Z.div_pos; lia|]. apply Z.div_lt_upper_bound; lia.
    + replace (m2 - m1 - (rcv2 - rcv1)) with (m2 - m1) by lia. by rewrite Z.div_mul by lia.
Qed.

(** The packets of the reports a session makes carry the SSRC observed last. *)
Definition ssrc_of (ssrc : Z) (l : list (Z * MediaPacket)) : Z := fold_left (fun _ np => SSRC np.2) l ssrc.
Lemma observe_ssrc l r : mediaSSRC (observe_all l r) = ssrc_of (mediaSSRC r) l.
Proof.
  revert r. induction l as [|np l IH]; intros r; [done|]. cbn [observe_all fold_left]. unfold observe_all in IH. rewrite IH. cbn [ssrc_of fold_left]. f_equal. unfold jitter_rx, extend_rx. cbn. repeat case_match; done.
Qed.

(** C20: Receiver Reports.  Number the packets of a flow from its first, and let each arrive less than 2^31 places from the highest so far, fewer than 2^32 in
    all; the flow's count of accepted packets does not fall between two reports and stays below 2^56.  The second report then carries the session's SSRC, that of the packet observed last, the
    highest sequence number observed, the packets expected less those accepted as the cumulative loss modulo 2^24, and of the packets expected since the first report the share, in
    256ths rounded down, that was not accepted; except that it gives 0 when none was accepted, the 256 of a total loss being one more than the field holds.  The
    report leaves the counts the next one starts from, and changes nothing else of the session. *)
Theorem receiver_report_exact base now0 first ps1 l1 ps2 l2 r0 s1 s2 :
  baseSet r0 = false -> Seq first = u32 base -> placed base 0 ps1 l1 -> placed base (top 0 ps1) ps2 l2 ->
  s_rx s1 = observe_all ((now0, first) :: l1) r0 -> s_rx s2 = observe_all l2 (s_rx (receiverReport s1).2) ->
  let rcv1 := StReceived (stats_snapshot (s_flow s1)) in let rcv2 := StReceived (stats_snapshot (s_flow s2)) in
  0 <= rcv1 <= rcv2 -> rcv2 < 2 ^ 56 ->
  let expected := top (top 0 ps1) ps2 + 1 in let new := expected - (top 0 ps1 + 1) in
  let fraction := if (rcv1 <? rcv2) && (rcv2 - rcv1 <? new) then 256 * (new - (rcv2 - rcv1)) / new else 0 in
  receiverReport s2 = (Ok (rtcp.ReceiverReport (c_SSRC (s_cfg s2)) (ssrc_of (SSRC first) (l1 ++ l2)) fraction (Z.max 0 (expected - rcv2) mod 2 ^ 24) (u32 (base + expected - 1)) (u32 (f64_to_i64 (jitter (s_rx s2)))) 0 0),
    s2 <| s_rx ::= fun r => r <| lastExpected := expected |> <| lastReceived := rcv2 |> |>).
Proof.
  intros Hb Hs Hl1 Hl2 E1 E2 rcv1 rcv2 Hr1 Hr2 expected new fraction.
  assert (ER : s_rx (receiverReport s1).2 = snapshot (report_counts rcv1 (s_rx s1)).1.1 rcv1 (s_rx s1)) by (unfold receiverReport; fold rcv1; by destruct (report_counts rcv1 (s_rx s1)) as [[? ?] ?]).
  rewrite ER, E1 in E2. destruct (report_counts_exact base now0 first ps1 l1 ps2 l2 rcv1 rcv2 r0 Hb Hs Hl1 Hl2 Hr1 Hr2) as [HH HC]. cbv zeta in HH, HC. rewrite <-E2 in HH, HC.
  assert (EM : mediaSSRC (s_rx s2) = ssrc_of (SSRC first) (l1 ++ l2)). { rewrite E2, observe_ssrc. change (mediaSSRC (snapshot ?a ?b ?r)) with (mediaSSRC r). rewrite observe_ssrc. unfold ssrc_of. cbn [fold_left]. by rewrite fold_left_app. }
  unfold receiverReport. fold rcv2. rewrite HC, HH, EM. unfold fraction, new, expected. replace (top (top 0 ps1) ps2 + 1 - (top 0 ps1 + 1)) with (top (top 0 ps1) ps2 - top 0 ps1) by lia.
  replace (base + (top (top 0 ps1) ps2 + 1) - 1) with (base + top (top 0 ps1) ps2) by lia. reflexivity.
Qed.

(** ** Witnesses *)

Definition demo_cfg : Config := mkSessConfig DefaultConfig 8 [114; 120] false 1000000 10000000 None None false false false None None 0 SplitOff MergeOff None false false.
Definition demo_world : world := mkWorldS [] [] [] [] [] [] [].
Definition demo_receiver : Session := NewReceiver demo_cfg (replicate 6 0) demo_world.

(** Payloads of three and one bytes, read two bytes at a time. *)
Lemma session_read_stream_witness :
  let ops := [Delivers [1; 2; 3]; Reads 2 false; Delivers [4]; Reads 2 true; Reads 2 false] in
  concat (returned <$> (stream_run ops demo_receiver).1) ++ unread (stream_run ops demo_receiver).2 = [1; 2; 3; 4].
Proof.
  intros ops. pose proof (session_read_stream ops demo_receiver eq_refl) as H. assert (Hl : (length (delivery demo_receiver) + length ops <= deliveryCap)%nat) by (apply Nat.leb_le; vm_compute; reflexivity).
  specialize (H Hl). destruct (stream_run ops demo_receiver) as [answers s'] eqn:E. destruct H as [H _]. exact H.
Defined.

(** Of the timers at 3, 5 and 9 the first two fire at 5, the earlier one first. *)
Lemma session_timers_witness :
  let s := demo_receiver <| timers := <[0 := 5]> (<[1 := 3]> (<[2 := 9]> ∅)) |> in
  exists fired, (fireTimers (fun _ l => l) 5 s).1 = Ok tt /\ fired = [(1, 3); (0, 5)] /\ s_flow (fireTimers (fun _ l => l) 5 s).2 = fire_all 5 fired (s_flow s).
Proof.
  intros s. destruct (session_timers (fun _ l => l) (fun _ l => Permutation_refl l) 5 s) as (fired & E & Hp & Hs & _); [apply New_shape; vm_compute; discriminate|]. exists fired. rewrite E. split_and!; [done| |reflexivity].
  assert (Hp2 : Permutation fired [(1, 3); (0, 5)]) by (rewrite Hp; vm_compute; reflexivity). apply Permutation_sym, Permutation_length_2_inv in Hp2 as [-> | ->]; [done|].
  inversion Hs as [|? ? _ Hd]; subst. inversion Hd as [|? ? Hle]; subst. vm_compute in Hle. by destruct Hle.
Defined.

(** Ten places, four packets of them accepted, the first report after two. *)
Definition demo_pkt (n : Z) : MediaPacket := mkMediaPacket (u32 (4294967290 + n)) 0 8 [] false 0 FragStandalone 0 0 true.
Definition demo_counted (n : Z) (r : rxStats) : Session := demo_receiver <| s_rx := r |> <| s_flow ::= FlowTypes.count_by StReceived n |>.
Definition demo_s1 : Session := demo_counted 2 (observe_all [(0, demo_pkt 0); (0, demo_pkt 1)] (s_rx demo_receiver)).
Definition demo_s2 : Session := demo_counted 4 (observe_all [(0, demo_pkt 9); (0, demo_pkt 7)] (s_rx (receiverReport demo_s1).2)).
Lemma receiver_report_exact_witness : (receiverReport demo_s2).1 = Ok (rtcp.ReceiverReport 8 8 192 6 3 0 0 0).
Proof.
  pose proof (receiver_report_exact 4294967290 0 (demo_pkt 0) [1] [(0, demo_pkt 1)] [9; 7] [(0, demo_pkt 9); (0, demo_pkt 7)] (s_rx demo_receiver) demo_s1 demo_s2 eq_refl eq_refl) as H.
  rewrite H; [vm_compute; reflexivity|cbn; split_and!; done|cbn; split_and!; done|reflexivity|reflexivity|vm_compute; split; discriminate|vm_compute; reflexivity].
Defined.
(** None accepted of eight expected: the share comes out as 0. *)
Example total_loss_wraps : (receiverReport (demo_counted 2 (s_rx demo_s2))).1 = Ok (rtcp.ReceiverReport 8 8 0 8 3 0 0 0).
Proof. vm_compute. reflexivity. Qed.
End sessionapi.
