(* ===== verification/SessionGate.v ===== *)
(** * The gate of an authenticated session

    Whatever datagrams, timers, commands and write failures a session of the Main profile with an EAP role goes through, it hands no media to the application
    before its role has verified the peer's proof and the host has admitted the peer.  Out-of-band data is not behind that gate. *)

From stdpp Require Import gmap.
From S2P Require Import Prelude Bytes Clock Wire FlowTypes Flow Split Reassembler Gre Peer Adapt Fec MainCodec Eap EapState EapClient EapServer EapHandshake EapSafety Psk Session SessionMain SessionAdv SessionLoop SessionFrames.

Module sessiongate.
Import peer session sessionmain sessionadv sessionloop sessionframes eapsafety.

Section gate.
Context (pbkdf2 : bytes -> bytes -> Z -> option bytes) (aes : bytes -> bytes -> bytes) (sha256 : bytes -> bytes) (WallNTP ntpNow : Z -> Z).
Context (visit : nat -> list (Z * Z) -> list (Z * Z)) (fuel : nat).
(** The role the session starts with, the draws for its secrets, and the host's callback. *)
Context (r0 : authenticatee.Authenticatee + authenticator.Authenticator) (ds0 : list (option Z)) (oc : option (AddrPort -> bytes -> bool)).

(** What the role has been through since the session was opened: the calls of it, one list of which stays empty. *)
Definition history : Type := list client_event * list server_event.
Definition client_frame (e : client_event) : option bytes := match e with CRecv p => Some p | _ => None end.
Definition server_frame (e : server_event) : option bytes := match e with SRecv p => Some p | _ => None end.
(** The frames it was given, in order. *)
Definition frames_of (h : history) : list bytes := omap client_frame h.1 ++ omap server_frame h.2.
Definition grows (h h' : history) : Prop := h.1 `prefix_of` h'.1 /\ h.2 `prefix_of` h'.2.

(** The session's role is the first one after that history. *)
Definition reached (h : history) (c : option authenticatee.Authenticatee) (a : option authenticator.Authenticator) (ds : list (option Z)) : Prop :=
  match r0 with
  | inl c0 => a = None /\ h.2 = [] /\ exists c1, c = Some c1 /\ client_run sha256 aes (c0, ds0) h.1 = (c1, ds)
  | inr a0 => c = None /\ h.1 = [] /\ exists a1, a = Some a1 /\ server_run sha256 aes (a0, ds0) h.2 = (a1, ds)
  end.

(** The peer on record was admitted, at some point of that history, under the name the role reported in SUCCESS. *)
Definition proven (h : history) (on_record : option (AddrPort * bytes)) : Prop := exists addr name h1,
  on_record = Some (addr, name) /\ (forall f, oc = Some f -> f addr name = true) /\ grows h1 h /\
  match r0 with
  | inl c0 => name = [] /\ authenticatee.Authenticated (client_run sha256 aes (c0, ds0) h1.1).1 = true
  | inr a0 => authenticator.Authenticated (server_run sha256 aes (a0, ds0) h1.2).1 = true /\ name = authenticator.PeerUsername (server_run sha256 aes (a0, ds0) h1.2).1
  end.

Record gated (h : history) (s : Session) : Prop := {
  g_host : OnConnect (s_cfg s) = oc;
  g_role : reached h (eapClient (s_eap s)) (eapServer (s_eap s)) (secrets (s_world s));
  g_shut : everAuthed (s_eap s) = false -> authed (s_eap s) = false /\ delivery s = [] /\ leftover s = [] /\ default [] (blockOut s) = [] /\ peerCNAME (s_eap s) = [];
  g_open : everAuthed (s_eap s) = true -> proven h (connected (s_eap s)) }.

#[local] Instance grows_pre : PreOrder grows.
Proof. split; [by intros h|]. intros h1 h2 h3 [H1 H2] [H3 H4]. split; by etransitivity. Qed.
Lemma proven_grows h h' r : grows h h' -> proven h r -> proven h' r.
Proof. intros Hg (addr & name & h1 & H1 & H2 & H3 & H4). exists addr, name, h1. split_and!; try done. by etransitivity. Qed.

(** From one state of the gate to another, with [ps] the frames the role may have been given on the way. *)
Definition takes_gate (ps : list bytes) (s s' : Session) : Prop := forall h, gated h s -> exists h', grows h h' /\ frames_of h' `sublist_of` frames_of h ++ ps /\ gated h' s'.
Definition keeps_gate : relation Session := takes_gate [].

Lemma takes_trans ps qs s1 s2 s3 : takes_gate ps s1 s2 -> takes_gate qs s2 s3 -> takes_gate (ps ++ qs) s1 s3.
Proof.
  intros H1 H2 h HG. destruct (H1 h HG) as (h1 & G1 & F1 & HG1). destruct (H2 h1 HG1) as (h2 & G2 & F2 & HG2). exists h2. split; [by etransitivity|]. split; [|done].
  etransitivity; [exact F2|]. rewrite app_assoc. by apply sublist_app.
Qed.
#[local] Instance keeps_gate_pre : PreOrder keeps_gate.
Proof. split; [|intros s1 s2 s3; apply (takes_trans [] [])]. intros s h HG. exists h. by rewrite app_nil_r. Qed.
(** The gate, with the role left as it is. *)
Lemma keeps_same s s' : (forall h, gated h s -> gated h s') -> keeps_gate s s'.
Proof. intros H h HG. exists h. rewrite app_nil_r. by split_and!; [..|apply H]. Qed.

(** What the gate reads. *)
Definition view (s : Session) := let e := s_eap s in
  (OnConnect (s_cfg s), (eapClient e, eapServer e, everAuthed e, authed e, connected e, peerCNAME e), delivery s, leftover s, blockOut s, secrets (s_world s)).

Lemma gated_view h s s' : view s' = view s -> gated h s -> gated h s'.
Proof. unfold view. intros [= E1 E2 E3 E4 E5 E6 E7 E8 E9 E10 E11] [H1 H2 H3 H4]. split; rewrite ?E1, ?E2, ?E3, ?E4, ?E5, ?E6, ?E7, ?E8, ?E9, ?E10, ?E11; done. Qed.
Lemma same_view s s' : view s' = view s -> keeps_gate s s'.
Proof. intros E. apply keeps_same. intros h. by apply gated_view. Qed.

Lemma view_inner s : view (inner s) = view s.
Proof. done. Qed.

Lemma outward_gate {A} (m : M A) : keeps outward m -> keeps keeps_gate m.
Proof. intros H s. destruct (H s) as [E _]. apply same_view. by rewrite <-view_inner, E, view_inner. Qed.
#[local] Hint Resolve outward_gate : frames.

Ltac same_view := intros; apply same_view; reflexivity.
(** Leaves that branch on the state. *)
Ltac cases := intros ?; repeat case_match; try reflexivity; same_view.

Lemma gate_main_read {A} (f : maincodec.mainCodec -> A * maincodec.mainCodec) : keeps keeps_gate (main_read f).
Proof. unfold main_read. cases. Qed.
Lemma gate_gre_read {A} (f : maincodec.mainCodec -> A * maincodec.mainCodec) : keeps keeps_gate (gre_read f).
Proof. unfold gre_read. cases. Qed.
Lemma gate_push_media seq ts pt ssrc payload : keeps keeps_gate (fec_push_media seq ts pt ssrc payload).
Proof. unfold fec_push_media. cases. Qed.
Lemma gate_push_fec body : keeps keeps_gate (fec_push_fec body).
Proof. unfold fec_push_fec. cases. Qed.
Lemma gate_fecSource seq ts : keeps keeps_gate (fecSourceRTP seq ts).
Proof. unfold fecSourceRTP. cases. Qed.
Lemma gate_trigger b : keeps keeps_gate (mainReassocTrigger pbkdf2 aes b).
Proof. unfold mainReassocTrigger. cases. Qed.
#[local] Hint Resolve gate_main_read gate_gre_read gate_push_media gate_push_fec gate_fecSource gate_trigger : frames.

(** ** Media, blocks and identities pass only an open gate *)

Lemma open_ever h s : gated h s -> authed (s_eap s) = true -> everAuthed (s_eap s) = true.
Proof. intros [_ _ H _] Ha. destruct (everAuthed (s_eap s)); [done|]. destruct H as [H _]; [done|congruence]. Qed.

(** An update of what the application sees, of a session that has been authenticated. *)
Lemma update_open s s' : (forall h, gated h s -> everAuthed (s_eap s) = true) -> OnConnect (s_cfg s') = OnConnect (s_cfg s) -> eapClient (s_eap s') = eapClient (s_eap s) -> eapServer (s_eap s') = eapServer (s_eap s) ->
  secrets (s_world s') = secrets (s_world s) -> everAuthed (s_eap s') = everAuthed (s_eap s) -> connected (s_eap s') = connected (s_eap s) -> keeps_gate s s'.
Proof. intros He E1 E2 E3 E4 E5 E6. apply keeps_same. intros h HG. specialize (He h HG). destruct HG as [H1 H2 H3 H4]. split; rewrite ?E1, ?E2, ?E3, ?E4, ?E5, ?E6; try done. congruence. Qed.

Lemma gate_queueDelivery p : keeps keeps_gate (queueDelivery p).
Proof.
  unfold queueDelivery. apply keeps_get_bind. intros s. destruct (authed (s_eap s)) eqn:E; [|reflexivity]. cbn [negb]. destruct (_ <? _)%nat.
  - apply update_open; try done. intros h HG. by apply (open_ever h).
  - unfold shutdown, modify. cbn [snd]. destruct (closeErr s); [reflexivity|same_view].
Qed.
Lemma gate_queueBlock d : keeps keeps_gate (queueBlock d).
Proof.
  unfold queueBlock. apply keeps_get_bind. intros s. destruct (authed (s_eap s)) eqn:E; [|reflexivity]. apply update_open; try done. intros h HG. by apply (open_ever h).
Qed.
Lemma gate_learn cname : keeps keeps_gate (learnPeerCNAME cname).
Proof.
  unfold learnPeerCNAME. apply keeps_get_bind. intros s. unfold srpAuthenticated. destruct (negb _); [|reflexivity]. cbn [andb].
  destruct (eapClient (s_eap s)), (eapServer (s_eap s)); try reflexivity; destruct (everAuthed (s_eap s)) eqn:E; try reflexivity; apply update_open; done.
Qed.
#[local] Hint Resolve gate_queueDelivery gate_queueBlock gate_learn : frames.

Lemma gate_shutdown e : keeps keeps_gate (shutdown e).
Proof. apply keeps_modify. intros s. destruct (closeErr s); [reflexivity|same_view]. Qed.
#[local] Hint Resolve gate_shutdown : frames.

Lemma gate_fragment d : keeps keeps_gate (deliverFragment d).
Proof.
  intros s. unfold deliverFragment. destruct (frag_push _ _ _ _) as [[out|] r]; [|same_view]. destruct (Merger.Deliver _ _ _ _ _) as [ps m].
  etransitivity; [apply (same_view s (s <| reasm := r |> <| merger := m |>)); reflexivity|]. assert (H : keeps keeps_gate (each queueDelivery ps)) by frames. apply (H (s <| reasm := r |> <| merger := m |>)).
Qed.
Lemma gate_feedMedia now path pkt : keeps keeps_gate (feedMedia now path pkt).
Proof. unfold feedMedia, observeRx. frames; same_view. Qed.
Lemma gate_handleLQM raw : keeps keeps_gate (handleLQM raw).
Proof. apply keeps_modify. intros s. destruct (adapt.handleLQM _ _). same_view. Qed.
#[local] Hint Resolve gate_fragment gate_feedMedia gate_handleLQM : frames.

Lemma gate_feedFeedback now fbs : keeps keeps_gate (feedFeedback now fbs).
Proof. unfold feedFeedback, handleFlowAttr. frames; same_view. Qed.
Lemma gate_recovered now r : keeps keeps_gate (recovered_rtp now r).
Proof. unfold recovered_rtp, count_recovered. frames; same_view. Qed.
#[local] Hint Resolve gate_feedFeedback gate_recovered : frames.

Lemma gate_fecRecv now ts pkt : keeps keeps_gate (fecRecvRTP now ts pkt).
Proof. unfold fecRecvRTP. frames. Qed.
Lemma gate_fecOnRecv now body : keeps keeps_gate (fecOnRecvFEC_rtp now body).
Proof. unfold fecOnRecvFEC_rtp. frames. Qed.
#[local] Hint Resolve gate_fecRecv gate_fecOnRecv : frames.

Lemma gate_push_fragments n now off p st : keeps keeps_gate (push_fragments n now off p st).
Proof. revert off. induction n as [|n IH]; intros off; cbn [push_fragments]; unfold push_block; frames; same_view. Qed.
#[local] Hint Resolve gate_push_fragments : frames.
Lemma gate_pushApp now p : keeps keeps_gate (pushApp ntpNow now p).
Proof. unfold pushApp, push_block. frames; same_view. Qed.

Lemma gate_outputs n now fbs : keeps keeps_gate (drain_outputs pbkdf2 aes n now fbs).
Proof.
  revert fbs. induction n as [|n IH]; intros fbs; cbn [drain_outputs]; [frames|]. apply keeps_mbind; [typeclasses eauto|intros s; unfold poll_output; destruct (PollOutput _); same_view|]. frames; same_view.
Qed.
Lemma gate_events n : keeps keeps_gate (drain_events n).
Proof.
  induction n as [|n IH]; cbn [drain_events]; [frames|]. apply keeps_mbind; [typeclasses eauto|intros s; unfold poll_event; destruct (PollEvent _); same_view|]. frames.
Qed.
#[local] Hint Resolve gate_pushApp gate_outputs gate_events : frames.
Lemma gate_drain now : keeps keeps_gate (drain pbkdf2 aes WallNTP now).
Proof. unfold drain. frames. Qed.

Lemma gate_fire_timers n now : keeps keeps_gate (fire_timers visit n now).
Proof. induction n as [|n IH]; cbn [fire_timers]; frames; same_view. Qed.
#[local] Hint Resolve gate_drain gate_fire_timers : frames.

(** ** The role *)

Definition reached_at (h : history) (s : Session) : Prop := reached h (eapClient (s_eap s)) (eapServer (s_eap s)) (secrets (s_world s)).

(** An update of the role; the gate may close. *)
Lemma update_role ps s s' : (forall h, reached_at h s -> exists h', grows h h' /\ frames_of h' `sublist_of` frames_of h ++ ps /\ reached_at h' s') -> OnConnect (s_cfg s') = OnConnect (s_cfg s) -> everAuthed (s_eap s') = everAuthed (s_eap s) -> (authed (s_eap s') = true -> authed (s_eap s) = true) ->
  delivery s' = delivery s -> leftover s' = leftover s -> blockOut s' = blockOut s -> peerCNAME (s_eap s') = peerCNAME (s_eap s) -> connected (s_eap s') = connected (s_eap s) -> takes_gate ps s s'.
Proof.
  intros Hr E1 E2 E3 E4 E5 E6 E7 E8 h [H1 H2 H3 H4]. destruct (Hr h H2) as (h' & Hg & Hf & Hr'). exists h'. split; [done|]. split; [done|]. split; rewrite ?E1, ?E2, ?E4, ?E5, ?E6, ?E7, ?E8; [done|exact Hr'| |].
  - intros He. destruct (H3 He) as (H5 & H6 & H7 & H8). split; [|done]. destruct (authed (s_eap s')) eqn:Ea; [|done]. rewrite E3 in H5 by done. done.
  - intros He. by apply (proven_grows h), H4.
Qed.
Lemma update_same s s' : (forall h, reached_at h s -> reached_at h s') -> OnConnect (s_cfg s') = OnConnect (s_cfg s) -> everAuthed (s_eap s') = everAuthed (s_eap s) -> (authed (s_eap s') = true -> authed (s_eap s) = true) ->
  delivery s' = delivery s -> leftover s' = leftover s -> blockOut s' = blockOut s -> peerCNAME (s_eap s') = peerCNAME (s_eap s) -> connected (s_eap s') = connected (s_eap s) -> keeps_gate s s'.
Proof. intros Hr. apply update_role. intros h Hh. exists h. rewrite app_nil_r. by split_and!; [..|apply Hr]. Qed.

Lemma reached_client h c ds e c' ds' : reached h (Some c) None ds -> client_step sha256 aes (c, ds) e = (c', ds') ->
  exists h', grows h h' /\ frames_of h' `sublist_of` frames_of h ++ option_list (client_frame e) /\ reached h' (Some c') None ds'.
Proof.
  unfold reached. destruct r0 as [c0|a0]; [|by intros [? _]]. intros (_ & Hn & c1 & [= <-] & H) E. exists (h.1 ++ [e], []). split; [split; [by exists [e]|by rewrite Hn]|]. split.
  - unfold frames_of. cbn [fst snd]. rewrite Hn, omap_app. cbn [omap list_omap]. rewrite !app_nil_r. by destruct (client_frame e).
  - split; [done|]. split; [done|]. exists c'. split; [done|]. unfold client_run in *. cbn [fst]. by rewrite foldl_app, H.
Qed.
Lemma reached_server h a ds e a' ds' : reached h None (Some a) ds -> server_step sha256 aes (a, ds) e = (a', ds') ->
  exists h', grows h h' /\ frames_of h' `sublist_of` frames_of h ++ option_list (server_frame e) /\ reached h' None (Some a') ds'.
Proof.
  unfold reached. destruct r0 as [c0|a0]; [by intros (_ & _ & c1 & ? & _)|]. intros (_ & Hn & a1 & [= <-] & H) E. exists ([], h.2 ++ [e]). split; [split; [by rewrite Hn|by exists [e]]|]. split.
  - unfold frames_of. cbn [fst snd]. rewrite Hn, omap_app. cbn [omap list_omap app]. by destruct (server_frame e).
  - split; [done|]. split; [done|]. exists a'. split; [done|]. unfold server_run in *. cbn [snd]. by rewrite foldl_app, H.
Qed.
(** There is one role. *)
Lemma reached_one h c a ds : reached h c a ds -> (exists c', c = Some c' /\ a = None) \/ (exists a', c = None /\ a = Some a').
Proof. unfold reached. destruct r0; intros (-> & _ & x & -> & _); [left|right]; by exists x. Qed.

Lemma gate_sendEAP f now : keeps keeps_gate (sendEAP f now).
Proof. apply outward_gate, sends_EAP. Qed.
#[local] Hint Resolve gate_sendEAP : frames.

Lemma gate_startEAP now : keeps keeps_gate (maybeStartEAP now).
Proof.
  unfold maybeStartEAP. apply keeps_get_bind. intros s. destruct (eapClient (s_eap s)) as [a|] eqn:Ec; [|reflexivity]. destruct (_ || _); [reflexivity|]. destruct (authenticatee.Start a) as [f a'] eqn:Es.
  apply (keeps_after _ _ _ s).
  - apply update_role; try done. unfold reached_at. cbn. rewrite Ec. intros h Hr. pose proof (reached_one _ _ _ _ Hr) as [(c' & [= <-] & Ea)|(a1 & ? & _)]; [|done]. rewrite Ea in *. apply (reached_client _ _ _ CStart _ _ Hr). unfold client_step. by rewrite Es.
  - frames; same_view.
Qed.

Lemma gate_password now : keeps keeps_gate (maybeSendPasswordRequest now).
Proof.
  unfold maybeSendPasswordRequest. apply keeps_get_bind. intros s. destruct (eapClient (s_eap s)) as [a|] eqn:Ec; [|reflexivity]. destruct (_ || _); [reflexivity|]. destruct (authenticatee.PasswordRequest a) as [f a'] eqn:Es.
  apply (keeps_after _ _ _ s).
  - apply update_role; try done. unfold reached_at. cbn. rewrite Ec. intros h Hr. pose proof (reached_one _ _ _ _ Hr) as [(c' & [= <-] & Ea)|(a1 & ? & _)]; [|done]. rewrite Ea in *. apply (reached_client _ _ _ CPasswordRequest _ _ Hr). unfold client_step. by rewrite Es.
  - frames; same_view.
Qed.
#[local] Hint Resolve gate_startEAP gate_password : frames.

Lemma gate_startReauth now : keeps keeps_gate (startReauth now).
Proof.
  unfold startReauth. apply keeps_mbind; [typeclasses eauto|apply keeps_modify; same_view|intros _]. apply keeps_get_bind. intros s. destruct (eapClient (s_eap s)) as [c|] eqn:Ec.
  - revert s Ec. enough (H : keeps keeps_gate (on_eap (fun e => e <| eapStartSent := false |>) ;; maybeStartEAP now)) by (intros; apply H). frames; same_view.
  - destruct (eapServer (s_eap s)) as [a|] eqn:Ea; [|reflexivity]. destruct (authenticator.Start a) as [f a'] eqn:Es. apply (keeps_after _ _ _ s); [|apply gate_sendEAP].
    apply update_role; try done. unfold reached_at. cbn. rewrite Ec, Ea. intros h Hr. apply (reached_server _ _ _ SStart _ _ Hr). unfold server_step. by rewrite Es.
Qed.
#[local] Hint Resolve gate_startReauth : frames.

Lemma gate_reassociate now src b : keeps keeps_gate (maybeReassociate pbkdf2 aes now src b).
Proof.
  unfold maybeReassociate. frames; try same_view. apply update_role; try done. unfold reached_at. cbn. intros h Hr. pose proof (reached_one _ _ _ _ Hr) as [(c1 & Ec & Ea)|(a1 & Ec & Ea)]; rewrite Ec, Ea in *; cbn.
  - by apply (reached_client _ _ _ CRestart _ _ Hr).
  - by apply (reached_server _ _ _ SRestart _ _ Hr).
Qed.

(** Only here is the role given a frame. *)
Lemma gate_eap_recv payload : keeps (takes_gate [payload]) (eap_recv aes sha256 payload).
Proof.
  assert (Hsame : forall s, takes_gate [payload] s s) by (intros s h HG; exists h; split_and!; [done|by apply sublist_inserts_r|done]).
  intros s. unfold eap_recv. destruct (eapClient (s_eap s)) as [c|] eqn:Ec.
  - destruct (authenticatee.Recv _ _ _ _ _) as [[o c'] ds] eqn:Er. destruct o as [|out err]; [apply Hsame|]. apply update_role; try done. unfold reached_at. cbn. rewrite Ec. intros h Hr. pose proof (reached_one _ _ _ _ Hr) as [(c1 & [= <-] & Ea)|(a1 & ? & _)]; [|done]. rewrite Ea in *.
    apply (reached_client _ _ _ (CRecv payload) _ _ Hr). cbn. by rewrite Er.
  - destruct (eapServer (s_eap s)) as [a|] eqn:Ea; [|apply Hsame]. destruct (authenticator.Recv _ _ _ _ _) as [[o a'] ds] eqn:Er. destruct o as [|out err]; [apply Hsame|]. apply update_role; try done. unfold reached_at. cbn. rewrite Ec, Ea. intros h Hr.
    apply (reached_server _ _ _ (SRecv payload) _ _ Hr). cbn. by rewrite Er.
Qed.
#[local] Hint Resolve gate_reassociate : frames.

(** ** The gate opens *)

(** What admission rests on, apart from the peer on record. *)
Definition record_kept (s s' : Session) : Prop := OnConnect (s_cfg s') = OnConnect (s_cfg s) /\ connected (s_eap s') = connected (s_eap s).
#[local] Instance record_kept_pre : PreOrder record_kept.
Proof. split; [done|]. intros s1 s2 s3 [H1 H2] [H3 H4]. split; congruence. Qed.

Lemma record_password now : keeps record_kept (maybeSendPasswordRequest now).
Proof.
  assert (HE : forall f, keeps record_kept (sendEAP f now)). { intros f s. destruct (sends_EAP f now s) as [E _]. split; [change (OnConnect (s_cfg (inner (sendEAP f now s).2)) = OnConnect (s_cfg (inner s)))|change (connected (s_eap (inner (sendEAP f now s).2)) = connected (s_eap (inner s)))]; by rewrite E. }
  unfold maybeSendPasswordRequest. frames; done.
Qed.

(** A role in SUCCESS whose peer the host admits. *)
Lemma admit_proven h s : gated h s -> role_authenticated (s_eap s) = true -> let '(r, s') := admitPeer s in
  gated h s' /\ (r = Ok true -> proven h (connected (s_eap s'))).
Proof.
  intros HG HR. pose proof HG as [H1 H2 H3 H4]. unfold admitPeer, mbind, sres_bind, get. cbn beta iota. set (name := match eapServer (s_eap s) with Some a => _ | None => _ end). destruct (match OnConnect (s_cfg s) with Some f => _ | None => _ end) eqn:Eo; [by split|].
  assert (HP : proven h (Some (Media (s_peer s), name))); [|by split; [split|]].
  exists (Media (s_peer s)), name, h. split_and!; [done|intros f Hf; rewrite <-H1 in Hf; rewrite Hf in Eo; by apply negb_false_iff in Eo|done|].
  subst name. unfold role_authenticated in HR. unfold reached in H2. destruct r0 as [c0|a0]; destruct H2 as (E & _ & x & Ex & Hr); rewrite E, Ex in *; [split; [done|]|]; by rewrite Hr.
Qed.

Lemma gate_beacon now : keeps keeps_gate (sendPostAuthBeacon pbkdf2 aes WallNTP now).
Proof. unfold sendPostAuthBeacon. frames. Qed.
#[local] Hint Resolve gate_beacon : frames.

(** Opening the gate for the peer on record. *)
Lemma gate_opens now wasAuthed h s : gated h s -> proven h (connected (s_eap s)) -> let s' := ((maybeSendPasswordRequest now ;;
    on_eap (fun e => e <| authed := true |> <| everAuthed := true |> <| reauthing := false |>) ;;
    s ← get; when (negb wasAuthed && useKeyAsPassphrase (s_eap s)) (sendPostAuthBeacon pbkdf2 aes WallNTP now)) s).2 in
  exists h', grows h h' /\ frames_of h' `sublist_of` frames_of h ++ [] /\ gated h' s'.
Proof.
  intros HG HP. cbv zeta. unfold mbind at 1, sres_bind at 1. pose proof (gate_password now s h HG) as (h1 & Hg1 & Hf1 & G1). destruct (record_password now s) as [_ R1]. destruct (maybeSendPasswordRequest now s) as [[[]|e|] s1]; cbn [snd] in *; [|by exists h1..].
  assert (G2 : gated h1 (s1 <| s_eap ::= (fun e => e <| authed := true |> <| everAuthed := true |> <| reauthing := false |>) |>)) by (destruct G1; split; cbn; try done; intros _; rewrite R1; by apply (proven_grows h)).
  assert (HK : keeps keeps_gate (s ← get; when (negb wasAuthed && useKeyAsPassphrase (s_eap s)) (sendPostAuthBeacon pbkdf2 aes WallNTP now))) by frames. destruct (HK _ h1 G2) as (h2 & Hg2 & Hf2 & G3). exists h2. split; [by etransitivity|]. split; [|exact G3]. rewrite app_nil_r in Hf2. by etransitivity.
Qed.

Lemma gate_settle now wasAuthed : keeps keeps_gate (settle_auth pbkdf2 aes WallNTP now wasAuthed).
Proof.
  unfold settle_auth. apply keeps_get_bind. intros s. destruct (role_authenticated (s_eap s)) eqn:ER.
  - intros h HG. unfold mbind at 1, sres_bind at 1. destruct (everAuthed (s_eap s)) eqn:EA.
    + cbn [mret sres_ret]. cbn beta iota. cbn [negb]. apply gate_opens; [done|]. by apply (g_open h s HG).
    + pose proof (admit_proven h s HG ER) as HA. destruct (admitPeer s) as [[[]|e|] s1]; destruct HA as [G1 HP]; cbn [snd]; cbn [negb]; [by apply gate_opens; [|apply HP]|by apply gate_shutdown|by exists h; rewrite app_nil_r..].
  - assert (HH : keeps keeps_gate (hold_media now)). { apply keeps_modify. intros s1. apply update_same; unfold reached_at; cbn; destruct (reauthing (s_eap s1)) eqn:Er; cbn; rewrite ?Er; done. }
    revert s ER. enough (H : forall s, keeps keeps_gate (if role_done (s_eap s) then if negb (everAuthed (s_eap s)) then shutdown ErrAuth else hold_media now else when (wasAuthed && everAuthed (s_eap s)) (hold_media now))) by (intros s _; by apply (H s)). intros s. frames.
Qed.

Lemma gate_installKeying : keeps keeps_gate (installEAPKeying pbkdf2).
Proof. unfold installEAPKeying. frames; same_view. Qed.
#[local] Hint Resolve gate_settle gate_installKeying : frames.

(** An operation with the frames it may give the role, before and after others that give it none. *)
Lemma takes_bind {A B} ps (m : M A) (k : A -> M B) : keeps keeps_gate m -> (forall a, keeps (takes_gate ps) (k a)) -> keeps (takes_gate ps) (m ≫= k).
Proof.
  intros Hm Hk s. unfold mbind, sres_bind. specialize (Hm s). destruct (m s) as [[a|e|] s']; cbn [snd] in *; [exact (takes_trans [] ps _ _ _ Hm (Hk a s'))|..]; intros h HG; destruct (Hm h HG) as (h1 & G1 & F1 & HG1); exists h1; (split; [done|]); (split; [|done]); rewrite app_nil_r in F1; by apply sublist_inserts_r.
Qed.
Lemma takes_then {A B} ps (m : M A) (k : A -> M B) : keeps (takes_gate ps) m -> (forall a, keeps keeps_gate (k a)) -> keeps (takes_gate ps) (m ≫= k).
Proof.
  intros Hm Hk s. unfold mbind, sres_bind. specialize (Hm s). destruct (m s) as [[a|e|] s']; cbn [snd] in *; [|exact Hm..]. pose proof (takes_trans ps [] _ _ _ Hm (Hk a s')) as H. by rewrite app_nil_r in H.
Qed.
Lemma takes_none {A} ps (m : M A) : keeps keeps_gate m -> keeps (takes_gate ps) m.
Proof. intros Hm s h HG. destruct (Hm s h HG) as (h1 & G1 & F1 & HG1). exists h1. split; [done|]. split; [|done]. rewrite app_nil_r in F1. by apply sublist_inserts_r. Qed.

Lemma gate_handleEAP now payload : keeps (takes_gate [payload]) (handleEAP pbkdf2 aes sha256 WallNTP now payload).
Proof. unfold handleEAP. apply takes_bind; [frames; same_view|intros _]. apply takes_then; [apply gate_eap_recv|]. frames; same_view. Qed.

Lemma gate_bufferNeg bn : keeps keeps_gate (handleBufferNeg bn).
Proof. unfold handleBufferNeg. frames; same_view. Qed.
Lemma gate_remoteCaps caps : keeps keeps_gate (applyRemoteCaps caps).
Proof. unfold applyRemoteCaps. frames; same_view. Qed.
Lemma gate_OOB proto d : keeps keeps_gate (deliverOOB proto d).
Proof. apply keeps_modify. intros s. destruct (_ <? _)%nat; [same_view|reflexivity]. Qed.
#[local] Hint Resolve gate_bufferNeg gate_remoteCaps gate_OOB : frames.

Lemma gate_decoded now b : keeps keeps_gate (handle_decoded pbkdf2 aes now b).
Proof. unfold handle_decoded. frames. Qed.
Lemma gate_upgrade v : keeps keeps_gate (upgradeGREVersion pbkdf2 aes v).
Proof. unfold upgradeGREVersion. frames; same_view. Qed.
#[local] Hint Resolve gate_decoded gate_upgrade : frames.
(** The frame a datagram carries. *)
Definition carried (b : bytes) : list bytes := match maincodec.peekEAPOL b with Ok (Some p) => [p] | _ => [] end.

Lemma gate_main now src b : keeps (takes_gate (carried b)) (handleMainDatagram pbkdf2 aes sha256 WallNTP now src b).
Proof.
  assert (HR : forall k, keeps keeps_gate k -> keeps (takes_gate (carried b)) (e ← attempt (maincodec.peekEAPOL b); match e with Some (Some payload) => handleEAP pbkdf2 aes sha256 WallNTP now payload | _ => k end)).
  { intros k Hk. unfold carried. destruct (maincodec.peekEAPOL b) as [[p|]|e|]; [apply (gate_handleEAP now p)|by apply takes_none|by apply takes_none|by apply takes_none, keeps_panic; typeclasses eauto]. }
  unfold handleMainDatagram, handleGREControl. apply takes_bind; [apply gate_reassociate|intros []; [apply takes_none, keeps_ret; typeclasses eauto|]]. do 2 (apply takes_bind; [frames; same_view|intros _]). apply takes_bind; [frames|intros s]. apply takes_bind; [frames; same_view|intros _].
  apply takes_bind; [apply gate_main_read|intros [[kind ver] ka]]. do 2 (apply takes_bind; [frames; same_view|intros _]). destruct kind; [|apply takes_none; frames; same_view|]; apply HR; frames; same_view.
Qed.

Lemma gate_answer now fbs : keeps keeps_gate (answer_unsupported now fbs).
Proof. induction fbs as [|fb fbs IH]; cbn [answer_unsupported]; [frames|]. destruct fb; frames. Qed.
#[local] Hint Resolve gate_answer : frames.
Lemma gate_advGRE now b : keeps keeps_gate (handleAdvGRE pbkdf2 aes now b).
Proof. unfold handleAdvGRE, feedAdvFeedback, learn_advanced. frames; same_view. Qed.
#[local] Hint Resolve gate_advGRE : frames.
Lemma gate_adv n now b : keeps keeps_gate (handle_adv pbkdf2 aes n now b).
Proof. revert b. induction n as [|n IH]; intros b; cbn [handle_adv]; cbv zeta; unfold feedAdvFeedback, learn_advanced, count_recovered; frames; same_view. Qed.
#[local] Hint Resolve gate_adv : frames.


(** ** The loop and the application *)

Lemma gate_infer : keeps keeps_gate inferSenderMediaFromRTCP.
Proof. unfold inferSenderMediaFromRTCP. frames; same_view. Qed.
Lemma gate_rebind now rebind : keeps keeps_gate (maybeRebindCaller now rebind).
Proof. unfold maybeRebindCaller. frames; same_view. Qed.
#[local] Hint Resolve gate_infer gate_rebind : frames.

Lemma gate_tick now rebind : keeps keeps_gate (tick pbkdf2 aes WallNTP now rebind).
Proof. unfold tick, tick_alive, retransmit_eap, tick_beacons. frames; same_view. Qed.

Lemma gate_ctrl c : keeps keeps_gate (applyCtrl c).
Proof. unfold applyCtrl. frames; same_view. Qed.
#[local] Hint Resolve gate_tick gate_ctrl : frames.

(** The frame an input carries to the role. *)
Definition carried_in (i : input) : list bytes := match i with InMain _ b => carried b | _ => [] end.

Lemma gate_handle now i : keeps (takes_gate (carried_in i)) (handle pbkdf2 aes sha256 WallNTP ntpNow visit fuel now i).
Proof.
  destruct i; cbn [carried_in]; change (takes_gate []) with keeps_gate; unfold handle, drain_, push_block, fireTimers, count_recovered; try solve [frames; same_view]. apply takes_then; [apply gate_main|]. frames.
Qed.

Lemma gate_step now i : keeps (takes_gate (carried_in i)) (step pbkdf2 aes sha256 WallNTP ntpNow visit fuel now i).
Proof.
  unfold step. pose proof (takes_then (carried_in i) _ (fun _ => mret true) (gate_handle now i) (fun _ => keeps_ret keeps_gate true)) as H. destruct i; try exact H. apply gate_tick.
Qed.
Lemma gate_start now : keeps keeps_gate (start pbkdf2 aes WallNTP now).
Proof. unfold start. frames; same_view. Qed.
End gate.

(** What happens to a session: a turn of its loop, or a call of the application for media. *)
Inductive act := Turn (now : Z) (i : input) | Reads (n : nat) (expired : bool) | Takes (closed : bool).

(** Whether the application was given media. *)
Definition given {A} (a : answer A) : bool := match a with Answer _ => true | _ => false end.

Section run.
Context (pbkdf2 : bytes -> bytes -> Z -> option bytes) (aes : bytes -> bytes -> bytes) (sha256 : bytes -> bytes) (WallNTP ntpNow : Z -> Z).
Context (visit : nat -> list (Z * Z) -> list (Z * Z)) (fuel : nat).

(** [live]: the loop has not returned. *)
Fixpoint run (acts : list act) (live : bool) (s : Session) : list bool * Session :=
  match acts with
  | [] => ([], s)
  | Turn now i :: acts =>
      if negb live then run acts false s else
      let '(r, s) := step pbkdf2 aes sha256 WallNTP ntpNow visit fuel now i s in
      run acts (match r with Ok more => more | _ => false end) s
  | Reads n expired :: acts => let '(a, s) := Read n expired s in let '(l, s) := run acts live s in (given a :: l, s)
  | Takes closed :: acts => let '(a, s) := RecvBlock closed s in let '(l, s) := run acts live s in (given a :: l, s)
  end.

Context (r0 : authenticatee.Authenticatee + authenticator.Authenticator) (ds0 : list (option Z)) (oc : option (AddrPort -> bytes -> bool)).
#[local] Abbreviation gated_ := (gated aes sha256 r0 ds0 oc).

Lemma gated_Read n expired h s : gated_ h s -> let '(a, s') := Read n expired s in gated_ h s' /\ (given a = true -> everAuthed (s_eap s) = true).
Proof.
  intros HG. pose proof HG as [H1 H2 H3 H4]. unfold Read. destruct (everAuthed (s_eap s)) eqn:E.
  - destruct (leftover s) as [|x l]; [destruct (delivery s) as [|p rest]; [by repeat case_match|]|].
    + unfold take_payload. split; [|done]. destruct (_ <? _)%nat; (split; cbn; [done|done|congruence|intros _; by apply H4]).
    + split; [|done]. split; cbn; [done|done|congruence|intros _; by apply H4].
  - destruct (H3 eq_refl) as (_ & -> & -> & _). split; [done|]. by repeat case_match.
Qed.

Lemma gated_Take closed h s : gated_ h s -> let '(a, s') := RecvBlock closed s in gated_ h s' /\ (given a = true -> everAuthed (s_eap s) = true).
Proof.
  intros HG. pose proof HG as [H1 H2 H3 H4]. unfold RecvBlock. destruct (everAuthed (s_eap s)) eqn:E.
  - destruct (if closed && bool_decide (is_Some (closeErr s)) then None else blockOut s) as [[|b rest]|]; [by destruct (closeErr s)| |by destruct (closeErr s)]. split; [|done]. split; cbn; [done|done|congruence|intros _; by apply H4].
  - destruct (H3 eq_refl) as (_ & _ & _ & Hb & _). destruct (if closed && bool_decide (is_Some (closeErr s)) then None else blockOut s) as [[|b rest]|] eqn:Eb; [by destruct (closeErr s)| |by destruct (closeErr s)].
    destruct (closed && _); [done|]. rewrite Eb in Hb. done.
Qed.

(** The frames that arrived. *)
Definition arrived (acts : list act) : list bytes := acts ≫= (fun a => match a with Turn _ i => carried_in i | _ => [] end).

(** Once the gate has been opened it has been for good. *)
Definition opened (h : history) (s : Session) : Prop := gated_ h s /\ everAuthed (s_eap s) = true.

Lemma run_gated acts live h s : gated_ h s -> let '(l, s') := run acts live s in
  exists h', grows h h' /\ frames_of h' `sublist_of` frames_of h ++ arrived acts /\ gated_ h' s' /\ (true ∈ l -> exists h1 s1, grows h1 h' /\ opened h1 s1).
Proof.
  assert (HA : forall b l h1 h2 s1, gated_ h1 s1 -> (given (A := b) l = true -> everAuthed (s_eap s1) = true) -> grows h1 h2 -> true = given l -> exists h1 s1, grows h1 h2 /\ opened h1 s1) by (intros b l h1 h2 s1 G1 G2 G3 G4; exists h1, s1; split; [done|]; split; [done|by apply G2]).
  revert live h s. induction acts as [|a acts IH]; intros live h s HG; cbn [run].
  { exists h. rewrite app_nil_r. split_and!; try done. by intros H%elem_of_nil. }
  destruct a as [now i|n expired|closed]; cbn [arrived mbind list_bind]; fold (arrived acts).
  - destruct live; cbn [negb].
    + pose proof (gate_step pbkdf2 aes sha256 WallNTP ntpNow visit fuel r0 ds0 oc now i s h HG) as (h1 & G1 & F1 & HG1). destruct (step _ _ _ _ _ _ _ _ _ _) as [r s1]. cbn [snd] in HG1. specialize (IH (match r with Ok more => more | _ => false end) h1 s1 HG1). destruct (run acts _ s1) as [l s2].
      destruct IH as (h2 & G2 & F2 & HG2 & Ho). exists h2. split; [by etransitivity|]. split; [|done]. rewrite app_assoc. etransitivity; [exact F2|]. by apply sublist_app.
    + specialize (IH false h s HG). destruct (run acts false s) as [l s2]. destruct IH as (h2 & G2 & F2 & HG2 & Ho). exists h2. split; [done|]. split; [|done]. etransitivity; [exact F2|]. apply sublist_app; [done|by apply sublist_inserts_l].
  - pose proof (gated_Read n expired h s HG) as HR. destruct (Read n expired s) as [b s1]. destruct HR as [H1 H2]. specialize (IH live h s1 H1). destruct (run acts live s1) as [l s2]. destruct IH as (h2 & G2 & F2 & HG2 & Ho). exists h2. split_and!; try done. intros [Ht|Ht]%elem_of_cons; [by apply (HA _ b h h2 s)|by apply Ho].
  - pose proof (gated_Take closed h s HG) as HR. destruct (RecvBlock closed s) as [b s1]. destruct HR as [H1 H2]. specialize (IH live h s1 H1). destruct (run acts live s1) as [l s2]. destruct IH as (h2 & G2 & F2 & HG2 & Ho). exists h2. split_and!; try done. intros [Ht|Ht]%elem_of_cons; [by apply (HA _ b h h2 s)|by apply Ho].
Qed.
End run.

(** ** Properties *)

(** The role of a configuration, freshly made. *)
Definition fresh_role (cfg : Config) (r0 : authenticatee.Authenticatee + authenticator.Authenticator) : Prop := exists mp, c_Main cfg = Some mp /\
  match r0 with
  | inl c0 => mp_EAPClient mp = Some c0 /\ mp_EAPServer mp = None /\ exists user pw, authenticatee.NewAuthenticatee user pw = Ok c0
  | inr a0 => mp_EAPClient mp = None /\ mp_EAPServer mp = Some a0 /\ exists lookup v legacy, authenticator.newAuthenticator (Some lookup) v legacy = Ok a0
  end.

(** The history [h] of the role begins with [pre ++ e :: mid], where [e] is the arrival of a proof of the peer the role verified then, and after which the role is in SUCCESS with the key
    of that exchange and reports [name] as its peer (the client's role reports none). *)
Definition peer_proved (sha256 : bytes -> bytes) (aes : bytes -> bytes -> bytes) (r0 : authenticatee.Authenticatee + authenticator.Authenticator) (ds : list (option Z)) (h : history) (name : bytes) : Prop :=
  match r0 with
  | inl c0 => name = [] /\ exists pre e mid, pre ++ e :: mid `prefix_of` h.1 /\ let c := (client_run sha256 aes (c0, ds) (pre ++ e :: mid)).1 in
      authenticatee.Authenticated c = true /\ client_proved sha256 (client_run sha256 aes (c0, ds) pre) e (authenticatee.SessionKey c)
  | inr a0 => exists pre e mid, pre ++ e :: mid `prefix_of` h.2 /\ let a := (server_run sha256 aes (a0, ds) (pre ++ e :: mid)).1 in
      authenticator.Authenticated a = true /\ server_proved sha256 (server_run sha256 aes (a0, ds) pre) e (authenticator.SessionKey a) /\ name = authenticator.PeerUsername a
  end.

Lemma fresh_gated sha256 aes cfg r0 is_sender mac w : fresh_role cfg r0 -> exists h, frames_of h = [] /\ gated aes sha256 r0 (secrets w) (OnConnect cfg) h (newSession cfg is_sender mac w).
Proof.
  intros (mp & Em & Hr). unfold newSession. rewrite Em. destruct r0 as [c0|a0]; destruct Hr as (E1 & E2 & _); rewrite E1, E2; [exists (if mp_UseKeyAsPassphrase mp then [CUseKey true] else [], [])|exists ([], if mp_UseKeyAsPassphrase mp then [SUseKey true] else [])];
    (split; [by destruct (mp_UseKeyAsPassphrase mp)|]); (split; [done| |done|done]); (split; [done|]); (split; [done|]); cbn; destruct (mp_UseKeyAsPassphrase mp); by eexists.
Qed.

Lemma open_proved sha256 aes cfg r0 ds oc h h' s : (forall b, length (sha256 b) = 32%nat) -> (forall b, is_bytes (sha256 b)) -> fresh_role cfg r0 -> grows h h' -> gated aes sha256 r0 ds oc h s -> everAuthed (s_eap s) = true ->
  exists addr name, (forall f, oc = Some f -> f addr name = true) /\ peer_proved sha256 aes r0 ds h' name.
Proof.
  intros Hl Hb (mp & _ & Hf) Hg HG He. destruct (g_open _ _ _ _ _ h s HG He) as (addr & name & h1 & _ & Hoc & Hg1 & Hr). exists addr, name. split; [done|]. assert (Hg2 : grows h1 h') by (by etransitivity). destruct Hg2 as [Hg2 Hg3]. destruct r0 as [c0|a0].
  - destruct Hr as [-> Ha]. destruct Hf as (_ & _ & user & pw & Hn). split; [done|]. destruct (client_success_origin sha256 aes user pw c0 ds h1.1 Hn Ha) as (pre & e & post & E & Hp). exists pre, e, post. rewrite <-E. done.
  - destruct Hr as (Ha & ->). destruct Hf as (_ & _ & lookup & v & legacy & Hn). destruct (server_success_origin sha256 Hl Hb aes lookup v legacy a0 ds h1.2 Hn Ha) as (pre & e & post & E & Hp). exists pre, e, post. rewrite <-E. done.
Qed.

(** C12: Media needs a proof.  Take any session of the Main profile with an EAP-SRP role, whichever way it was opened, and let anything happen to it: datagrams from any source,
    forged or not, timers, commands, failing writes, in any order.  If the application is ever given media, by a read or as a block, or the gate stands open at the end, then the role the session
    ends with has a history, starting at its construction, in which every frame it was given arrived in this run, in the order of arrival, and which holds a proof of the peer the role
    verified when it arrived and was then in SUCCESS with that exchange's key; and the host's callback, if there is one, accepted an address and the name the role reported in SUCCESS. *)
Theorem session_media_needs_proof pbkdf2 aes sha256 WallNTP ntpNow visit fuel cfg r0 mac w remote now acts s0 :
  (forall b, length (sha256 b) = 32%nat) -> (forall b, is_bytes (sha256 b)) -> fresh_role cfg r0 ->
  s0 ∈ [NewMainReceiver cfg mac w; NewMainReflectorInput cfg mac w; NewMainReceiverCaller remote cfg mac w; NewMainSender remote cfg mac w; NewListenerSender cfg mac w] ->
  let '(media, s) := run pbkdf2 aes sha256 WallNTP ntpNow visit fuel acts true (start pbkdf2 aes WallNTP now s0).2 in
  true ∈ media \/ authed (s_eap s) = true -> exists h, reached aes sha256 r0 (secrets w) h (eapClient (s_eap s)) (eapServer (s_eap s)) (secrets (s_world s)) /\ frames_of h `sublist_of` arrived acts /\
    exists addr name, (forall f, OnConnect cfg = Some f -> f addr name = true) /\ peer_proved sha256 aes r0 (secrets w) h name.
Proof.
  intros Hl Hb Hr Hs0. set (G_ := gated aes sha256 r0 (secrets w) (OnConnect cfg)). assert (HG : exists h, frames_of h = [] /\ G_ h s0).
  { destruct (fresh_gated sha256 aes cfg r0 false mac w Hr) as (h1 & F1 & H1). destruct (fresh_gated sha256 aes cfg r0 true mac w Hr) as (h2 & F2 & H2).
    assert (H3 : G_ h1 (newSession cfg false mac w <| blockOut := Some [] |>)) by (destruct H1 as [G1 G2 G3 G4]; split; [exact G1|exact G2| |exact G4]; intros He; by destruct (G3 He) as (? & ? & ? & _ & ?)).
    unfold NewMainReceiver in Hs0. destruct (BlockDelivery cfg); rewrite !elem_of_cons, elem_of_nil in Hs0; destruct Hs0 as [-> |[-> |[-> |[-> |[-> |[]]]]]]; first [by exists h1|by exists h2|exists h1; split; [exact F1|apply (gated_view _ _ _ _ _ _ (newSession cfg false mac w)); [reflexivity|exact H1]]|exists h2; split; [exact F2|apply (gated_view _ _ _ _ _ _ (newSession cfg true mac w)); [reflexivity|exact H2]]]. }
  destruct HG as (h0 & F0 & HG). pose proof (gate_start pbkdf2 aes sha256 WallNTP r0 (secrets w) (OnConnect cfg) now s0 h0 HG) as (h1 & G1 & F1 & H1). pose proof (run_gated pbkdf2 aes sha256 WallNTP ntpNow visit fuel r0 (secrets w) (OnConnect cfg) acts true h1 _ H1) as H2.
  destruct (run _ _ _ _ _ _ _ _ _ _) as [media s]. destruct H2 as (h2 & G2 & F2 & H2 & H3). rewrite F0 in F1. apply sublist_nil_r in F1. rewrite F1 in F2. intros Hm. exists h2. split; [exact (g_role _ _ _ _ _ _ _ H2)|]. split; [exact F2|]. destruct Hm as [Ht|Ha].
  - destruct (H3 Ht) as (h3 & s1 & G3 & HG1 & E1). by apply (open_proved sha256 aes cfg r0 _ _ h3 h2 s1).
  - apply (open_proved sha256 aes cfg r0 _ _ h2 h2 s); try done. by apply (open_ever aes sha256 r0 (secrets w) (OnConnect cfg) h2).
Qed.

(** A receiver of the Main profile that authenticates its callers, and admits one of its users. *)
Definition demo_params : MainParams := mkMainParams None None false false 1971 1968 None (Some handshake.demo_server0) false false 0.
Definition demo_main_cfg : Config := mkSessConfig DefaultConfig 8 [114; 120] false 1000000 10000000 (Some demo_params) None false false false None
  (Some (fun _ user => bool_decide (user = handshake.demo_alice))) 0 SplitOff MergeOff None false false.
Definition demo_src : AddrPort := mkAddrPort (Addr4 0x0A000001) 5000.
Definition demo_main_world : world := mkWorldS [] [] [] [Some 3] [] [] [].

(** The frames of that user's handshake, as datagrams. *)
Definition demo_frames : list eap.Frame := omap (fun h => match h with handshake.ToServer f => Some f | _ => None end)
  (handshake.transcript handshake.tiny_sha psk.demo_aes 9 (handshake.ToServer eap.startFrame) (handshake.mkEnds handshake.demo_client handshake.demo_server0 [Some 5] [Some 3])).
Definition demo_codec : maincodec.mainCodec := maincodec.newMainCodec None None false 1971 1968 false 9 [] false.
Definition framed_eap (f : eap.Frame) : bytes := match (maincodec.encodeEAPOL [] (eap.AppendTo f []) demo_codec).1 with Ok b => b | _ => [] end.
Definition demo_acts : list act := (fun f => Turn 1000 (InMain demo_src (framed_eap f))) <$> demo_frames.
Definition demo_visit : nat -> list (Z * Z) -> list (Z * Z) := fun _ l => l.
Definition demo_media_session : Session := NewMainReceiver demo_main_cfg (replicate 6 0) demo_main_world.
Definition demo_run : list bool * Session :=
  run psk.demo_pbkdf2 psk.demo_aes handshake.tiny_sha (fun t => t) (fun t => t) demo_visit 1 demo_acts true (start psk.demo_pbkdf2 psk.demo_aes (fun t => t) 0 demo_media_session).2.

Lemma session_media_needs_proof_witness : authed (s_eap demo_run.2) = true /\
  exists h, reached psk.demo_aes handshake.tiny_sha (inr handshake.demo_server0) [Some 3] h (eapClient (s_eap demo_run.2)) (eapServer (s_eap demo_run.2)) (secrets (s_world demo_run.2)) /\ frames_of h `sublist_of` arrived demo_acts /\
    exists addr name, (forall f, OnConnect demo_main_cfg = Some f -> f addr name = true) /\ peer_proved handshake.tiny_sha psk.demo_aes (inr handshake.demo_server0) [Some 3] h name.
Proof.
  assert (Ha : authed (s_eap demo_run.2) = true) by (vm_compute; reflexivity). split; [exact Ha|]. revert Ha. unfold demo_run.
  pose proof (session_media_needs_proof psk.demo_pbkdf2 psk.demo_aes handshake.tiny_sha (fun t => t) (fun t => t) demo_visit 1 demo_main_cfg (inr handshake.demo_server0) (replicate 6 0) demo_main_world demo_src 0 demo_acts demo_media_session
    handshake.tiny_sha_len handshake.tiny_sha_bytes) as H. destruct (run _ _ _ _ _ _ _ _ _ _) as [media s]. intros Ha. apply H; [| |right; exact Ha].
  - exists demo_params. split; [exact eq_refl|]. split; [exact eq_refl|]. split; [exact eq_refl|]. exists handshake.demo_lookup, eap.eapVersion3, false. exact eq_refl.
  - apply elem_of_cons. left. exact eq_refl.
Defined.
End sessiongate.
