(* ===== verification/SessionTotal.v ===== *)
(** * A session never panics

    Every operation of a session returns, whatever arrives on its sockets: the codec a handler calls is there, the encoders and the decoders are total, the flow core, called through the
    functions of FlowChecked that panic on an index out of range, stays inside its rings, and the EAP roles stay in states their [Recv] handles.  The hypotheses are those the configuration check is meant to ensure: FEC off the Advanced profile
    uses separate ports, and the Advanced profile, whose recovered datagrams re-enter the handler, runs without FEC. *)

From stdpp Require Import gmap.
From S2P Require Import Prelude Bytes Clock Wire Rtp Rtcp FlowTypes FlowNew Flow FlowChecked Split Reassembler Gre Peer Psk Adv AdvCtrl Adapt Fec SimpleCodec AdvCodec MainCodec MainFeedback Eap EapState EapClient EapServer EapSafety CodecTotal Session SessionMain SessionAdv SessionLoop SessionFrames EapHandshake SessionGate.

Module sessiontotal.
Import peer session sessionmain sessionadv sessionloop eapsafety codectotal sessiongate.

Section total.
Context (pbkdf2 : bytes -> bytes -> Z -> option bytes) (aes : bytes -> bytes -> bytes) (sha256 : bytes -> bytes) (WallNTP ntpNow : Z -> Z).
Context (visit : nat -> list (Z * Z) -> list (Z * Z)) (fuel : nat).
Context (aes_len : forall key b, length (aes key b) = 16%nat) (aes_bytes : forall key b, is_bytes (aes key b)).
Context (sha_len : forall b, length (sha256 b) = 32%nat) (sha_bytes : forall b, is_bytes (sha256 b)).

(** The profile, the FEC configuration, the fragment size and the role, which no operation changes. *)
Context (m a : bool) (fp : option FECParams) (fs : Z) (sd : bool).
Context (fec_plain : a = true -> fp = None) (fec_ports : forall f, fp = Some f -> SeparatePorts f = true).

Definition has_gre (s : Session) : bool := match s_advGRE s with Some _ => true | None => false end.

Record sound (s : Session) : Prop := {
  so_main : is_main s = m;
  so_adv : is_adv s = a;
  so_gre : has_gre s = a;
  so_fec : c_FEC (s_cfg s) = fp;
  so_dec : fp = None -> fecDec (s_fec s) = None;
  so_frag : fragSize s = fs;
  so_sender : s_sender s = sd;
  so_flow : flow_shape (s_flow s);
  so_client : forall c, eapClient (s_eap s) = Some c -> client_ok c;
  so_server : forall c, eapServer (s_eap s) = Some c -> server_ok c }.

(** ** Operations that return *)

Definition runs {A} (x : M A) (Q : A -> Prop) : Prop := forall s, sound s -> match x s with (Ok r, s') => sound s' /\ Q r | _ => False end.
Definition safe {A} (x : M A) : Prop := runs x (fun _ => True).

Lemma runs_bind {A B} (x : M A) (k : A -> M B) Q Q' : runs x Q -> (forall r, Q r -> runs (k r) Q') -> runs (x ≫= k) Q'.
Proof. intros Hx Hk s Hs. unfold mbind, sres_bind. specialize (Hx s Hs). destruct (x s) as [[r|e|] s1]; [|done..]. destruct Hx as [H1 H2]. by apply Hk. Qed.
Lemma safe_mbind {A B} (x : M A) (k : A -> M B) Q : safe x -> (forall r, runs (k r) Q) -> runs (x ≫= k) Q.
Proof. intros Hx Hk. apply (runs_bind x k (fun _ => True)); [done|]. intros r _. apply Hk. Qed.
Lemma runs_get {B} (k : Session -> M B) Q : (forall s, sound s -> runs (k s) Q) -> runs (get ≫= k) Q.
Proof. intros Hk s Hs. by apply (Hk s Hs). Qed.
(** The state read is the state the rest starts from. *)
Lemma runs_at {B} (k : Session -> M B) Q : (forall s, sound s -> match k s s with (Ok r, s') => sound s' /\ Q r | _ => False end) -> runs (get ≫= k) Q.
Proof. intros Hk s Hs. by apply (Hk s Hs). Qed.
Lemma safe_mret {A} (r : A) : safe (mret r).
Proof. by intros s Hs. Qed.
Lemma safe_update f : (forall s, sound s -> sound (f s)) -> safe (modify f).
Proof. intros H s Hs. split; [by apply H|done]. Qed.
Lemma safe_attempt {E A} (r : res E A) : returns r (fun _ => True) -> safe (attempt r).
Proof. intros H s Hs. by destruct r. Qed.
Lemma safe_lift {A} (r : res Empty_set A) : returns r (fun _ => True) -> safe (lift r).
Proof. intros H s Hs. destruct r; [done|by destruct e|done]. Qed.
Lemma safe_when b x : (b = true -> safe x) -> safe (when b x).
Proof. destruct b; intros H; [by apply H|by intros s Hs]. Qed.
Lemma safe_each {A} (f : A -> M unit) l : (forall x, safe (f x)) -> safe (each f l).
Proof. intros H. induction l as [|x l IH]; [by intros s Hs|]. apply safe_mbind; [apply H|done]. Qed.

Lemma sound_view s s' : is_main s' = is_main s -> is_adv s' = is_adv s -> has_gre s' = has_gre s -> c_FEC (s_cfg s') = c_FEC (s_cfg s) -> fecDec (s_fec s') = fecDec (s_fec s) ->
  fragSize s' = fragSize s -> s_sender s' = s_sender s -> s_flow s' = s_flow s -> eapClient (s_eap s') = eapClient (s_eap s) -> eapServer (s_eap s') = eapServer (s_eap s) -> sound s -> sound s'.
Proof.
  intros E1 E2 E3 E4 E5 E6 E9 E10 E7 E8 [H1 H2 H3 H4 H5 H6 H9 H10 H7 H8]. by split; rewrite ?E1, ?E2, ?E3, ?E4, ?E5, ?E6, ?E7, ?E8, ?E9, ?E10.
Qed.
(** Calls of the flow core return and keep the extents of its rings. *)
Lemma sound_flow s f : dims f = dims (s_flow s) -> sound s -> sound (s <| s_flow := f |>).
Proof. intros E [H1 H2 H3 H4 H5 H6 H9 H10 H7 H8]. split; try done. by apply (dims_shape (s_flow s)). Qed.
Lemma safe_on_flow g h : (forall f, flow_shape f -> g f = Some (h f) /\ dims (h f) = dims f) -> safe (on_flow g).
Proof. intros Hg s Hs. unfold on_flow. destruct (Hg (s_flow s) (so_flow s Hs)) as [-> E]. split; [|done]. by apply sound_flow. Qed.
Ltac sound_same := intros; eapply sound_view; [..|eassumption]; reflexivity.

Create HintDb safe.
#[local] Hint Resolve safe_mret : safe.

Lemma safe_Feed now path pkt : safe (on_flow (Feed_chk now path pkt)).
Proof. apply (safe_on_flow _ (Feed now path pkt)). apply Feed_returns. Qed.
Lemma safe_FeedFeedback now fb : safe (on_flow (FeedFeedback_chk now fb)).
Proof. apply (safe_on_flow _ (FeedFeedback now fb)). apply FeedFeedback_returns. Qed.
Lemma safe_PushAppBlock now p frag n st : safe (on_flow (PushAppBlock_chk now p frag n st)).
Proof. apply (safe_on_flow _ (PushAppBlock now p frag n st)). apply PushAppBlock_returns. Qed.
Lemma safe_HandleTimer now id : safe (on_flow (HandleTimer_chk now id)).
Proof. apply (safe_on_flow _ (HandleTimer now id)). apply HandleTimer_returns. Qed.
#[local] Hint Resolve safe_Feed safe_FeedFeedback safe_PushAppBlock safe_HandleTimer : safe.

(** Descend through an operation, with what is fixed put in for the profile. *)
Ltac safe_step :=
  first
    [ progress (intros; cbn beta)
    | solve [eauto with safe]
    | match goal with
      | |- context [is_main ?s] => match goal with H : sound s |- _ => rewrite (so_main s H) end
      | |- context [is_adv ?s] => match goal with H : sound s |- _ => rewrite (so_adv s H) end
      | |- context [c_FEC (s_cfg ?s)] => match goal with H : sound s |- _ => rewrite (so_fec s H) end
      | |- context [fragSize ?s] => match goal with H : sound s |- _ => rewrite (so_frag s H) end
      | |- safe (mbind _ _) => unfold safe
      | |- runs (mbind _ get) _ => apply runs_get
      | |- runs (mbind _ _) _ => apply safe_mbind
      | |- runs ?x (fun _ => True) => change (safe x)
      | |- safe (when _ _) => apply safe_when
      | |- safe (each _ _) => apply safe_each
      | |- safe (on_gre _) => apply safe_update
      | |- safe (on_eap _) => apply safe_update
      | |- safe nop => apply safe_mret
      | |- safe (mret _) => apply safe_mret
      | |- safe (lift _) => apply safe_lift
      | |- safe (attempt _) => apply safe_attempt
      | |- safe (modify _) => apply safe_update
      | |- safe (if ?b then _ else _) => case_eq b
      | |- safe (let '(_, _) := ?x in _) => case_eq x
      | |- safe (match ?x with _ => _ end) => case_eq x
      end ].
Ltac safely := repeat safe_step.

Lemma safe_write_on conn k b dst : safe (write_on conn k b dst).
Proof. intros s Hs. unfold write_on. destruct (faults _); (split; [|done]); revert Hs; sound_same. Qed.
Lemma safe_write k b dst : safe (write k b dst).
Proof. apply safe_write_on. Qed.
Lemma safe_sent_at now : safe (sent_at now).
Proof. apply safe_update. sound_same. Qed.
#[local] Hint Resolve safe_write_on safe_write safe_sent_at : safe.

Lemma safe_main_call f : m = true -> (forall ds c, encoded (f ds c)) -> safe (main_call f).
Proof.
  intros Hm Hf s Hs. unfold main_call. pose proof (so_main s Hs) as E. rewrite Hm in E. unfold is_main in E. destruct (s_main s) as [c|] eqn:Ec; [|done]. specialize (Hf (draws (s_world s)) c). destruct (f _ c) as [[r c'] ds].
  apply (safe_attempt r Hf). revert Hs. apply sound_view; try reflexivity. unfold is_main. by rewrite Ec.
Qed.
Lemma safe_gre_call f : a = true -> (forall ds c, encoded (f ds c)) -> safe (gre_call f).
Proof.
  intros Ha Hf s Hs. unfold gre_call. pose proof (so_gre s Hs) as E. rewrite Ha in E. unfold has_gre in E. destruct (s_advGRE s) as [c|] eqn:Ec; [|done]. specialize (Hf (draws (s_world s)) c). destruct (f _ c) as [[r c'] ds].
  apply (safe_attempt r Hf). revert Hs. apply sound_view; try reflexivity. unfold has_gre. by rewrite Ec.
Qed.
Lemma safe_adv_call {A} (f : sres advcodec.advCodec advcodec.err A) : a = true -> (forall c, returns (f c).1 (fun _ => True)) -> safe (adv_call f).
Proof.
  intros Ha Hf s Hs. unfold adv_call. pose proof (so_adv s Hs) as E. rewrite Ha in E. unfold is_adv in E. destruct (s_adv s) as [c|] eqn:Ec; [|done]. specialize (Hf c). destruct (f c) as [r c'].
  apply (safe_attempt r Hf). revert Hs. apply sound_view; try reflexivity. unfold is_adv. by rewrite Ec.
Qed.

(** ** Sending *)

Lemma safe_FECSeparate p : safe (sendFECSeparate p).
Proof.
  unfold sendFECSeparate. unfold safe. apply runs_get. intros s Hs. apply safe_mbind; [apply safe_update; intros s1 H1; destruct (is_row p); revert H1; sound_same|]. intros _.
  match goal with |- context [packet_AppendTo ?q ?b] => pose proof (packet_AppendTo_total q b eq_refl) as H; destruct (packet_AppendTo q b) as [[u|e|] b'] end; [|apply safe_mret|done]. apply safe_mbind; [apply safe_write|intros; apply safe_mret].
Qed.

Lemma safe_sendFEC now p : is_Some fp -> safe (sendFEC now p).
Proof.
  intros [f Ef]. unfold sendFEC, safe. apply runs_get. intros s Hs. destruct (negb _); [apply safe_mret|]. rewrite (so_fec s Hs), Ef, (fec_ports f Ef). apply safe_FECSeparate.
Qed.

Lemma safe_parity pkt dg : is_Some fp -> safe (fec_parity pkt dg).
Proof.
  intros [f Ef]. unfold fec_parity, safe. apply runs_get. intros s Hs. rewrite (so_fec s Hs), Ef. apply safe_mbind.
  - destruct (is_adv s); [apply safe_mret|]. apply safe_mbind; [|intros; apply safe_mret]. destruct (s_main s) as [c|]; [|apply safe_mret]. apply safe_lift. pose proof (fecPayload_total (Payload pkt) c) as H. by destruct (maincodec.fecPayload (Payload pkt) c).
  - intros [ps e]. apply safe_mbind; [apply safe_update; sound_same|intros _; apply safe_mret].
Qed.
Lemma safe_fecOnSend now pkt dg : is_Some fp -> safe (fecOnSend now pkt dg).
Proof.
  intros Hf. unfold fecOnSend. destruct (Retransmit pkt); [apply safe_mret|]. apply safe_mbind; [by apply safe_parity|]. intros fps. apply safe_each. intros p. by apply safe_sendFEC.
Qed.

(** A control datagram of the native framing. *)
Ltac framed := intros; unfold advcodec.pskNonceDatagram, advcodec.keepaliveDatagram, advcodec.unsupportedDatagram, advcodec.frameControl; apply frameControlFrag_total.

Lemma main_on s c : sound s -> s_main s = Some c -> m = true.
Proof. intros Hs E. rewrite <-(so_main s Hs). unfold is_main. by rewrite E. Qed.
Lemma gre_on s c : sound s -> s_advGRE s = Some c -> a = true.
Proof. intros Hs E. rewrite <-(so_gre s Hs). unfold has_gre. by rewrite E. Qed.

(** The flag that a condition on the profile fixes. *)
Ltac flag := repeat match goal with
  | H : _ || _ = false |- _ => apply orb_false_iff in H as [? H]
  | H : _ && _ = true |- _ => apply andb_true_iff in H as [? H]
  | H : negb ?x = false |- ?x = true => by apply negb_false_iff
  | H : ?x = true |- ?x = true => exact H
  | H : s_main ?s = Some ?c, Hs : sound ?s |- m = true => exact (main_on s c Hs H)
  end; match goal with |- ?x = true => destruct x; [reflexivity|exfalso]; cbn in *; congruence end.
#[local] Hint Extern 2 (m = true) => flag : safe.
#[local] Hint Extern 2 (a = true) => flag : safe.

Lemma safe_announce now : a = true -> safe (maybeAnnounceAdvNonce now).
Proof.
  intros Ha. unfold maybeAnnounceAdvNonce. safely; (apply safe_adv_call; [done|intros c]); [by destruct (advcodec.takeNonceAnnounce c)|framed].
Qed.

Lemma safe_encode_media pkt : safe (encode_media pbkdf2 aes pkt).
Proof.
  unfold encode_media. unfold safe. apply runs_at. intros s Hs. rewrite (so_main s Hs). case_eq m; intros Em; [apply (safe_main_call _ Em); [intros; apply encodeMainMedia_total|done]|].
  destruct (advInMainWindow s) eqn:Ew; [apply safe_gre_call; [|intros; apply encodeMainMedia_total|done]|].
  { unfold advInMainWindow in Ew. rewrite (so_adv s Hs) in Ew. flag. }
  destruct (s_adv s) as [c|] eqn:Ec.
  - pose proof (encodeAdvMedia_total pbkdf2 aes [] pkt (draws (s_world s)) c) as H. destruct (advcodec.encodeAdvMedia _ _ _ _ _ _) as [[r c'] ds]. apply (safe_attempt r H). revert Hs. apply sound_view; try reflexivity. unfold is_adv. by rewrite Ec.
  - pose proof (encodeMedia_total (reslice (mediaBuf s)) pkt) as H. destruct (encodeMedia _ _) as [r b]. revert s Hs Ew Ec. enough (HS : safe (r ← attempt r; match r with None => modify (fun s => s <| mediaBuf := reslice (mediaBuf s) |>) ;; mret None | Some _ => modify (fun s => s <| mediaBuf := b |>) ;; mret (Some (data b)) end)) by (intros s Hs _ _; by apply HS). safely; sound_same.
Qed.
#[local] Hint Resolve safe_announce safe_encode_media safe_fecOnSend : safe.

Lemma fec_is_some s : sound s -> fecEnabled s = true -> is_Some fp.
Proof. intros Hs H. unfold fecEnabled in H. rewrite (so_fec s Hs) in H. destruct fp; [by eexists|done]. Qed.

Lemma safe_sendMedia now pkt : safe (sendMedia pbkdf2 aes now pkt).
Proof. unfold sendMedia. safely. match goal with H : _ && _ = true |- _ => apply andb_true_iff in H as [H _] end. apply safe_fecOnSend. eauto using fec_is_some. Qed.

Lemma safe_compound lead fbs : safe (encodeCompound pbkdf2 aes lead fbs).
Proof.
  unfold encodeCompound. safely; try sound_same; [apply safe_main_call; [done|intros; apply encodeMainFeedback_total]|]. apply BuildCompound_total.
Qed.
Lemma safe_writeFeedback b : safe (writeFeedback b).
Proof. unfold writeFeedback. safely. Qed.
Lemma safe_write_all dgs : safe (write_all dgs).
Proof. induction dgs as [|dg dgs IH]; cbn [write_all]; safely. Qed.
#[local] Hint Resolve safe_sendMedia safe_compound safe_writeFeedback safe_write_all : safe.

Lemma safe_sendFeedback fbs now : safe (sendFeedback pbkdf2 aes WallNTP fbs now).
Proof. unfold sendFeedback, sendAdvFeedback. safely. apply safe_adv_call; [done|intros; apply adv_encodeFeedback_total]. Qed.

Lemma safe_report : safe receiverReport.
Proof. intros s Hs. unfold receiverReport. destruct (report_counts _ _) as [[? ?] ?]. split; [|done]. revert Hs. sound_same. Qed.
#[local] Hint Resolve safe_report : safe.
Lemma safe_lead now : safe (keepaliveLead WallNTP now).
Proof. unfold keepaliveLead. safely. Qed.
#[local] Hint Resolve safe_sendFeedback safe_lead : safe.

Lemma safe_keepalive now : safe (sendKeepalive pbkdf2 aes WallNTP now).
Proof.
  unfold sendKeepalive, sendAdvGREHandshake, sendAdvKeepalive, sendAdvSplitAdvert. safely; try sound_same; try (apply safe_gre_call; [done|intros; first [apply encodeMainFeedback_total|apply frameControl_total]]). apply safe_adv_call; [done|framed].
Qed.

Lemma safe_encodeLQM now : safe (encodeLQM pbkdf2 aes now).
Proof.
  unfold encodeLQM. safely; try sound_same.
  - intros s1 H1. unfold computeLQM. destruct (adapt.computeLQM _ _ _ _). split; [|done]. revert H1. sound_same.
  - match goal with |- returns (adapt.Marshal ?x) _ => by destruct (Marshal_total x) as (b & ->) end.
  - apply safe_adv_call; [done|framed].
  - apply safe_main_call; [done|intros; apply encodeMainFeedback_total].
  - apply BuildCompound_total.
Qed.
#[local] Hint Resolve safe_encodeLQM : safe.
Lemma safe_LQM now : safe (sendLQM pbkdf2 aes now).
Proof. unfold sendLQM. safely. Qed.
#[local] Hint Resolve safe_keepalive safe_LQM : safe.
(** ** The Main profile *)

Lemma sound_main s c : m = true -> sound s -> sound (s <| s_main := Some c |>).
Proof. intros Hm [H1 H2 H3 H4 H5 H6 H9 H10 H7 H8]. by split. Qed.
Lemma sound_gre s c : a = true -> sound s -> sound (s <| s_advGRE := Some c |>).
Proof. intros Ha [H1 H2 H3 H4 H5 H6 H9 H10 H7 H8]. by split. Qed.
Lemma sound_set_main f : safe (modify (fun s => s <| s_main ::= fmap f |>)).
Proof. apply safe_update. intros s. apply sound_view; try reflexivity. unfold is_main. cbn. by destruct (s_main s). Qed.
#[local] Hint Resolve sound_set_main : safe.

Ltac main_frame := apply safe_main_call; [eauto with safe|intros; apply frameControl_total].

Lemma safe_GREKeepalive v : safe (sendGREKeepalive pbkdf2 aes v).
Proof. unfold sendGREKeepalive. safely. main_frame. Qed.
Lemma safe_buffer_neg bn : m = true -> safe (send_buffer_neg pbkdf2 aes bn).
Proof. intros Hm. unfold send_buffer_neg. safely. main_frame. Qed.
#[local] Hint Resolve safe_GREKeepalive safe_buffer_neg : safe.
Lemma safe_BufferNegotiation : safe (sendBufferNegotiation pbkdf2 aes).
Proof. unfold sendBufferNegotiation. safely. Qed.
Lemma safe_ReceiverBufferNeg n : safe (sendReceiverBufferNeg pbkdf2 aes n).
Proof. unfold sendReceiverBufferNeg. safely. Qed.
#[local] Hint Resolve safe_BufferNegotiation safe_ReceiverBufferNeg : safe.
Lemma safe_burst : safe (sendGREKeepaliveBurst pbkdf2 aes).
Proof. unfold sendGREKeepaliveBurst. safely. Qed.
Lemma safe_handleBufferNeg bn : safe (handleBufferNeg bn).
Proof. unfold handleBufferNeg. safely; [sound_same|]. apply (sound_flow s); [apply dims_senderMax|assumption]. Qed.
Lemma safe_remoteCaps caps : safe (applyRemoteCaps caps).
Proof. unfold applyRemoteCaps. safely; sound_same. Qed.
#[local] Hint Resolve safe_burst safe_handleBufferNeg safe_remoteCaps : safe.
Lemma safe_GREControl ka : safe (handleGREControl ka).
Proof. unfold handleGREControl. safely; sound_same. Qed.
Lemma safe_upgrade v : safe (upgradeGREVersion pbkdf2 aes v).
Proof. unfold upgradeGREVersion. safely; sound_same. Qed.
#[local] Hint Resolve safe_GREControl safe_upgrade : safe.
(** ** Authentication *)

Lemma safe_sendEAP f now : safe (sendEAP f now).
Proof.
  unfold sendEAP. unfold safe. apply runs_get. intros s Hs. destruct (s_main s) as [c|] eqn:Ec; [|apply safe_mret]. pose proof (main_on s c Hs Ec) as Hm. destruct (negb _); [apply safe_mret|].
  apply safe_mbind; [apply safe_update; sound_same|intros _]. pose proof (encodeEAPOL_total [] (eap.AppendTo f []) c) as H. destruct (maincodec.encodeEAPOL _ _ _) as [r c'].
  apply safe_mbind; [apply safe_update; intros s1 H1; by apply sound_main|]. safely; sound_same.
Qed.
#[local] Hint Resolve safe_sendEAP : safe.

(** A call of the role keeps it in the states [Recv] handles. *)
Lemma client_called e c ds : client_bytes e -> client_ok c -> client_ok (client_step sha256 aes (c, ds) e).1.
Proof. intros He Hc. apply (client_run_ok sha256 sha_bytes aes [e] (c, ds)); [by apply Forall_singleton|done]. Qed.
Lemma server_called e c ds : server_bytes e -> server_ok c -> server_ok (server_step sha256 aes (c, ds) e).1.
Proof. intros He Hc. apply (server_run_ok sha256 sha_bytes aes [e] (c, ds)); [by apply Forall_singleton|done]. Qed.

Lemma sound_roles s s' : is_main s' = is_main s -> is_adv s' = is_adv s -> has_gre s' = has_gre s -> c_FEC (s_cfg s') = c_FEC (s_cfg s) -> fecDec (s_fec s') = fecDec (s_fec s) -> fragSize s' = fragSize s -> s_sender s' = s_sender s -> s_flow s' = s_flow s ->
  (forall c, eapClient (s_eap s') = Some c -> client_ok c) -> (forall c, eapServer (s_eap s') = Some c -> server_ok c) -> sound s -> sound s'.
Proof. intros E1 E2 E3 E4 E5 E6 E9 E10 E7 E8 [H1 H2 H3 H4 H5 H6 H9 H10 H7 H8]. by split; rewrite ?E1, ?E2, ?E3, ?E4, ?E5, ?E6, ?E9, ?E10. Qed.
Lemma sound_set_client c s : client_ok c -> sound s -> sound (s <| s_eap ::= fun e => e <| eapClient := Some c |> |>).
Proof. intros Hc Hs. apply (sound_roles s); try done; [by intros c' [= <-]|apply (so_server s Hs)]. Qed.
Lemma sound_set_server c s : server_ok c -> sound s -> sound (s <| s_eap ::= fun e => e <| eapServer := Some c |> |>).
Proof. intros Hc Hs. apply (sound_roles s); try done; [apply (so_client s Hs)|by intros c' [= <-]]. Qed.

Lemma safe_startEAP now : safe (maybeStartEAP now).
Proof.
  unfold maybeStartEAP. safely; [|sound_same]. match goal with Hs : sound ?s, Hc : eapClient (s_eap ?s) = Some ?c, E : authenticatee.Start ?c = (_, ?c') |- _ => apply sound_set_client; [|done]; pose proof (client_called CStart c [] I (so_client s Hs c Hc)) as HO; cbn [client_step server_step] in HO; rewrite E in HO; exact HO end.
Qed.
Lemma safe_password now : safe (maybeSendPasswordRequest now).
Proof.
  unfold maybeSendPasswordRequest. safely; [|sound_same]. match goal with Hs : sound ?s, Hc : eapClient (s_eap ?s) = Some ?c, E : authenticatee.PasswordRequest ?c = (_, ?c') |- _ => apply sound_set_client; [|done]; pose proof (client_called CPasswordRequest c [] I (so_client s Hs c Hc)) as HO; cbn [client_step server_step] in HO; rewrite E in HO; exact HO end.
Qed.
#[local] Hint Resolve safe_startEAP safe_password : safe.
Lemma safe_startReauth now : safe (startReauth now).
Proof.
  unfold startReauth. safely; try sound_same. match goal with Hs : sound ?s, Hc : eapServer (s_eap ?s) = Some ?c, E : authenticator.Start ?c = (_, ?c') |- _ => apply sound_set_server; [|done]; pose proof (server_called SStart c [] I (so_server s Hs c Hc)) as HO; cbn [client_step server_step] in HO; rewrite E in HO; exact HO end.
Qed.
#[local] Hint Resolve safe_startReauth : safe.

Lemma safe_admit : safe admitPeer.
Proof. unfold admitPeer. safely. sound_same. Qed.
#[local] Hint Resolve safe_admit : safe.
Lemma safe_eap_recv payload : is_bytes payload -> safe (eap_recv aes sha256 payload).
Proof.
  intros Hb s Hs. unfold eap_recv. destruct (eapClient (s_eap s)) as [c|] eqn:Ec; [|destruct (eapServer (s_eap s)) as [c|] eqn:Ev; [|done]].
  - destruct (client_recv_total sha256 sha_bytes aes payload c (secrets (s_world s)) Hb (so_client s Hs c Ec)) as [H1 H2]. destruct (authenticatee.Recv _ _ _ _ _) as [[[|out err] c'] ds]; [done|]. split; [|done].
    apply (sound_roles s); try done; [by intros ? [= <-]|apply (so_server s Hs)].
  - destruct (server_recv_total sha256 sha_bytes aes payload c (secrets (s_world s)) Hb (so_server s Hs c Ev)) as [H1 H2]. destruct (authenticator.Recv _ _ _ _ _) as [[[|out err] c'] ds]; [done|]. split; [|done].
    apply (sound_roles s); try done; [apply (so_client s Hs)|by intros ? [= <-]].
Qed.

Lemma newKey_total pw kb rot odd raw ds : returns (psk.newKey pbkdf2 pw kb rot odd raw ds).1 (fun _ => True).
Proof.
  unfold psk.newKey. destruct (negb _); [done|]. destruct (_ =? 0); [done|]. destruct (_ <? 0); [done|]. pose proof (rekey_total pbkdf2 ds (psk.mkKey pw kb (u32 rot) odd raw (replicate 4 0) [] 0)) as H. by destruct (psk.rekey _ _ _) as [[[] ?] ?].
Qed.

Lemma safe_install : safe (installEAPKeying pbkdf2).
Proof.
  unfold installEAPKeying. unfold safe. apply runs_get. intros s Hs. destruct (s_main s) as [c|] eqn:Ec; [|apply safe_mret]. pose proof (main_on s c Hs Ec) as Hm. destruct (negb _); [apply safe_mret|].
  destruct (role_keys (s_eap s)) as [[[tx haveTx] [rx haveRx]]|]; [|apply safe_mret]. set (kb := if eapKeySize256 (s_eap s) then _ else _). apply safe_mbind; [|intros _; safely; [|sound_same]].
  - destruct (_ && _); [|apply safe_mret]. pose proof (newKey_total (eapstate.Key tx) kb (eapKeyRotation (s_eap s)) false true (draws (s_world s))) as H. destruct (psk.newKey _ _ _ _ _ _ _) as [k ds]. safely; [sound_same|by apply sound_main|sound_same].
  - unfold psk.newDecryptor. by repeat case_match.
Qed.
#[local] Hint Resolve safe_eap_recv safe_install : safe.

Lemma safe_beacon now : safe (sendPostAuthBeacon pbkdf2 aes WallNTP now).
Proof. unfold sendPostAuthBeacon. safely. Qed.
Lemma safe_hold now : safe (hold_media now).
Proof. apply safe_update. intros s Hs. apply (sound_view s); try done; cbn; by destruct (reauthing _). Qed.
Lemma safe_shutdown e : safe (shutdown e).
Proof. apply safe_update. intros s Hs. destruct (closeErr s); [done|]. revert Hs. sound_same. Qed.
#[local] Hint Resolve safe_beacon safe_hold safe_shutdown : safe.
Lemma safe_settle now was : safe (settle_auth pbkdf2 aes WallNTP now was).
Proof. unfold settle_auth. safely; sound_same. Qed.
#[local] Hint Resolve safe_settle : safe.
Lemma safe_handleEAP now payload : is_bytes payload -> safe (handleEAP pbkdf2 aes sha256 WallNTP now payload).
Proof. intros Hb. unfold handleEAP. safely; sound_same. Qed.

(** ** A peer that moved *)

Lemma safe_trigger b : is_bytes b -> safe (mainReassocTrigger pbkdf2 aes b).
Proof.
  intros Hb s Hs. unfold mainReassocTrigger. destruct (s_main s) as [c|] eqn:Ec; [|done]. destruct (_ =? 0); [done|]. pose proof (main_on s c Hs Ec) as Hm.
  destruct (mainfeedback.main_decode_total pbkdf2 aes b 0 c aes_len aes_bytes Hb) as (_ & H & _). destruct (maincodec.feedbackCNAME _ _ _ _) as [[[cn|]|e|] c']; [| | |done]; (split; [|done]); by apply sound_main.
Qed.
#[local] Hint Resolve safe_handleEAP safe_trigger : safe.

Lemma safe_reassociate now src b : is_bytes b -> safe (maybeReassociate pbkdf2 aes now src b).
Proof.
  intros Hb. unfold maybeReassociate. safely. match goal with Hs : sound ?s |- sound (?s <| s_peer ::= _ |> <| s_eap ::= _ |>) => apply (sound_roles s); try done; cbn; intros c Hc; apply fmap_Some in Hc as (c1 & Hc & ->) end.
  - apply (client_called CRestart c1 [] I). eauto using so_client.
  - apply (server_called SRestart c1 [] I). eauto using so_server.
Qed.
#[local] Hint Resolve safe_reassociate : safe.
(** ** Receiving *)

Lemma safe_feedMedia now path pkt : safe (feedMedia now path pkt).
Proof. unfold feedMedia, observeRx. safely; sound_same. Qed.
Lemma safe_learn cname : safe (learnPeerCNAME cname).
Proof. unfold learnPeerCNAME. safely; sound_same. Qed.
Lemma safe_handleLQM raw : safe (handleLQM raw).
Proof. apply safe_update. intros s Hs. destruct (adapt.handleLQM _ _). revert Hs. sound_same. Qed.
#[local] Hint Resolve safe_feedMedia safe_learn safe_handleLQM : safe.
Lemma safe_feedFeedback now fbs : safe (feedFeedback now fbs).
Proof. apply safe_each. intros fb. destruct fb; unfold handleFlowAttr; safely; sound_same. Qed.
Lemma safe_OOB proto d : safe (deliverOOB proto d).
Proof. apply safe_update. intros s Hs. destruct (_ <? _)%nat; [|done]. revert Hs. sound_same. Qed.
#[local] Hint Resolve safe_feedFeedback safe_OOB : safe.

Lemma safe_source seq ts : safe (fecSourceRTP seq ts).
Proof.
  intros s Hs. unfold fecSourceRTP. destruct (s_main s) as [c|] eqn:Ec; destruct (sourceTime _ _ _) as [t d]; (split; [|done]).
  - apply sound_main; [by apply (main_on s c)|done].
  - revert Hs. sound_same.
Qed.
#[local] Hint Resolve safe_source : safe.
Lemma safe_recovered now r : safe (recovered_rtp now r).
Proof. unfold recovered_rtp, count_recovered. safely. sound_same. Qed.

Lemma sound_decoder d s : is_Some fp -> sound s -> sound (s <| s_fec ::= fun f => f <| fecDec := Some d |> |>).
Proof. intros [f Hf] [H1 H2 H3 H4 H5 H6 H9 H10 H7 H8]. split; try done. congruence. Qed.
Lemma safe_push_media seq ts pt ssrc payload : is_Some fp -> safe (fec_push_media seq ts pt ssrc payload).
Proof.
  intros [f Ef] s Hs. unfold fec_push_media. rewrite (so_fec s Hs), Ef. set (d := default _ _). destruct (PushMedia_total seq ts pt ssrc payload d) as [[rs d'] ->]. split; [|done]. by apply sound_decoder; [eexists|].
Qed.
(** Without FEC there is no decoder, and nothing is recovered. *)
Lemma runs_push_fec body : runs (fec_push_fec body) (fun rs => fp = None -> rs = []).
Proof.
  intros s Hs. unfold fec_push_fec. destruct (fecDec (s_fec s)) as [d|] eqn:Ed; [|done]. assert (Hf : is_Some fp). { destruct fp eqn:Ef; [by eexists|]. rewrite (so_dec s Hs Ef) in Ed. done. }
  destruct (PushFEC_total body d) as (r & d' & -> & Hr). destruct Hf as [f Hf]. destruct r as [rs|e|]; [| |done]; (split; [|congruence]); by apply sound_decoder; [eexists|].
Qed.
#[local] Hint Resolve safe_recovered safe_push_media : safe.
Lemma safe_fecRecv now ts pkt : is_Some fp -> safe (fecRecvRTP now ts pkt).
Proof. intros Hf. unfold fecRecvRTP. safely. Qed.
Lemma safe_fecOnRecv now body : safe (fecOnRecvFEC_rtp now body).
Proof. unfold fecOnRecvFEC_rtp, safe. eapply runs_bind; [apply runs_push_fec|]. intros rs _. safely. Qed.
#[local] Hint Resolve safe_fecRecv safe_fecOnRecv : safe.

(** ** Datagrams of the Main profile *)

Lemma runs_main_read {A} (f : maincodec.mainCodec -> A * maincodec.mainCodec) (Q : A -> Prop) : m = true -> (forall c, Q (f c).1) -> runs (main_read f) Q.
Proof.
  intros Hm Hf s Hs. unfold main_read. pose proof (so_main s Hs) as E. rewrite Hm in E. unfold is_main in E. destruct (s_main s) as [c|]; [|done]. specialize (Hf c). destruct (f c) as [r c']. split; [|done]. by apply sound_main.
Qed.
Lemma runs_gre_read {A} (f : maincodec.mainCodec -> A * maincodec.mainCodec) (Q : A -> Prop) : a = true -> (forall c, Q (f c).1) -> runs (gre_read f) Q.
Proof.
  intros Ha Hf s Hs. unfold gre_read. pose proof (so_gre s Hs) as E. rewrite Ha in E. unfold has_gre in E. destruct (s_advGRE s) as [c|]; [|done]. specialize (Hf c). destruct (f c) as [r c']. split; [|done]. by apply sound_gre.
Qed.

(** What a peek at a control message or at out-of-band data gives. *)
Definition peeked (x : maincodec.controlKind * Z * option (res maincodec.err gre.Keepalive)) : Prop := forall r, x.2 = Some r -> returns r (fun _ => True).
Definition peeked_oob (x : option (Z * res maincodec.err bytes)) : Prop := forall p r, x = Some (p, r) -> returns r (fun _ => True).

Lemma safe_decoded now b : m = true -> is_bytes b -> safe (handle_decoded pbkdf2 aes now b).
Proof.
  intros Hm Hb. unfold handle_decoded, safe. apply runs_get. intros s _. apply (runs_bind _ _ (fun r => returns r (fun _ => True))).
  { apply runs_main_read; [done|]. intros c. by destruct (mainfeedback.main_decode_total pbkdf2 aes b (highestSent s) c aes_len aes_bytes Hb) as [H _]. }
  intros r Hr. safely; try (apply (runs_main_read _ (fun _ => True)); done). eauto using fec_is_some with safe.
Qed.
#[local] Hint Resolve safe_decoded : safe.

Lemma eapol_bytes b : is_bytes b -> returns (maincodec.peekEAPOL b) (fun r => forall p, r = Some p -> is_bytes p).
Proof.
  intros Hb. unfold maincodec.peekEAPOL. pose proof (gre.Parse_total b Hb) as HP. destruct (gre.Parse b) as [[hdr off]|e|]; [|done..]. destruct (negb _); [done|]. destruct HP as (_ & _ & Ho). unfold gre.BaseHeaderSize in Ho.
  destruct (slc_from_ok (E := maincodec.err) b off ltac:(lia)) as (p & -> & _ & Hp). cbn. intros ? [= <-]. by apply Hp.
Qed.

Lemma safe_oob x k : peeked_oob x -> safe k -> safe (match x with Some (proto, r) => r ← attempt r; match r with Some d => deliverOOB proto d | None => nop end | None => k end).
Proof. intros Hx Hk. destruct x as [[proto r]|]; [|done]. specialize (Hx _ _ eq_refl). safely. Qed.
Lemma safe_peek x : peeked x -> safe (match x.2 with Some Panic => panic | _ => nop end).
Proof. intros Hx. destruct (x.2) as [[| |]|] eqn:E; try apply safe_mret. destruct (Hx _ E). Qed.

Lemma safe_main_datagram now src b : m = true -> is_bytes b -> safe (handleMainDatagram pbkdf2 aes sha256 WallNTP now src b).
Proof.
  intros Hm Hb. unfold handleMainDatagram. unfold safe. apply safe_mbind; [by apply safe_reassociate|]. intros []; [apply safe_mret|]. do 2 (apply safe_mbind; [safely; sound_same|intros _]). apply runs_get. intros s Hs. apply safe_mbind; [safely; sound_same|intros _].
  apply (runs_bind _ _ peeked); [apply runs_main_read; [done|]; intros c; by destruct (mainfeedback.main_decode_total pbkdf2 aes b 0 c aes_len aes_bytes Hb) as (_ & _ & _ & H & _)|].
  intros [[kind ver] ka] Hp. apply safe_mbind; [by apply (safe_peek (kind, ver, ka))|intros _]. apply safe_mbind; [apply safe_upgrade|intros _].
  assert (HO : safe (e ← attempt (maincodec.peekEAPOL b); match e with Some (Some payload) => handleEAP pbkdf2 aes sha256 WallNTP now payload | _ =>
    oob ← main_read (maincodec.peekOOB pbkdf2 aes b); match oob with Some (proto, r) => r ← attempt r; match r with Some d => deliverOOB proto d | None => nop end | None => handle_decoded pbkdf2 aes now b end end)).
  { apply (runs_bind _ _ (fun e => forall p, e = Some (Some p) -> is_bytes p)).
    - intros s1 H1. pose proof (eapol_bytes b Hb) as HE. unfold attempt. destruct (maincodec.peekEAPOL b) as [o|e|]; [| |done]; (split; [done|]); [intros p [= ->]; by apply HE|done].
    - intros e He. destruct e as [[p|]|]; [by apply safe_handleEAP, He| |]; (apply (runs_bind _ _ peeked_oob); [apply runs_main_read; [done|]; intros c; by destruct (mainfeedback.main_decode_total pbkdf2 aes b 0 c aes_len aes_bytes Hb) as (_ & _ & _ & _ & H)|]; intros oob Ho; apply safe_oob; [done|by apply safe_decoded]). }
  destruct kind; try exact HO. destruct ka as [r|]; [|apply safe_mret]. specialize (Hp r eq_refl). safely.
Qed.
#[local] Hint Resolve safe_main_datagram : safe.
(** ** Datagrams of the Advanced profile *)

Lemma adv_on s c : sound s -> s_adv s = Some c -> a = true.
Proof. intros Hs E. rewrite <-(so_adv s Hs). unfold is_adv. by rewrite E. Qed.

Lemma safe_unsupported now ci head : safe (sendAdvUnsupported now ci head).
Proof. unfold sendAdvUnsupported. safely. match goal with Hs : sound ?s, E : s_adv ?s = Some ?c |- _ => apply safe_adv_call; [exact (adv_on s c Hs E)|framed] end. Qed.
#[local] Hint Resolve safe_unsupported : safe.
Lemma safe_answer now fbs : safe (answer_unsupported now fbs).
Proof. induction fbs as [|fb fbs IH]; cbn [answer_unsupported]; [apply safe_mret|]. destruct fb; safely. Qed.
#[local] Hint Resolve safe_answer : safe.
Lemma safe_adv_feedback now fbs : safe (feedAdvFeedback now fbs).
Proof. unfold feedAdvFeedback. safely. Qed.
#[local] Hint Resolve safe_adv_feedback : safe.

Lemma safe_advGRE now b : a = true -> is_bytes b -> safe (handleAdvGRE pbkdf2 aes now b).
Proof.
  intros Ha Hb. unfold handleAdvGRE, safe. apply (runs_bind _ _ peeked); [apply runs_gre_read; [done|]; intros c; by destruct (mainfeedback.main_decode_total pbkdf2 aes b 0 c aes_len aes_bytes Hb) as (_ & _ & _ & H & _)|].
  intros [[kind ver] ka] Hp. apply safe_mbind; [by apply (safe_peek (kind, ver, ka))|intros _]. pose proof (fun r E => Hp r E) as Hka. destruct kind; [|destruct ka as [r|]; [specialize (Hka r eq_refl)|]; unfold learn_advanced; safely; sound_same|];
    (apply (runs_bind _ _ peeked_oob); [apply runs_gre_read; [done|]; intros c; by destruct (mainfeedback.main_decode_total pbkdf2 aes b 0 c aes_len aes_bytes Hb) as (_ & _ & _ & _ & H)|]; intros oob Ho; apply safe_oob; [done|]; apply runs_get; intros s _;
     apply (runs_bind _ _ (fun r => returns r (fun _ => True))); [apply runs_gre_read; [done|]; intros c; by destruct (mainfeedback.main_decode_total pbkdf2 aes b (highestSent s) c aes_len aes_bytes Hb) as [H _]|]; intros r Hr; safely; apply (runs_gre_read _ (fun _ => True)); done).
Qed.

Lemma decodeParsed_total p c : is_bytes (adv.o_Payload p) -> (forall iv, adv.o_PSKIV p = Some iv -> zlen iv = 4) -> returns (let '(r, c) := advcodec.decodeParsed pbkdf2 aes p c in (r.2, c)).1 (fun _ => True).
Proof.
  intros Hpb Hiv. unfold advcodec.decodeParsed. destruct (_ =? adv.TypeControl); [|destruct (_ =? adv.TypeDirect); [|done]].
  - pose proof (advcodec.decodeControl_total pbkdf2 (adv.o_Payload p) c Hpb) as H. by destruct (advcodec.decodeControl pbkdf2 (adv.o_Payload p) c) as [[fbs|e|] c'].
  - pose proof (advcodec.decodeMediaAdv_total pbkdf2 aes aes_len aes_bytes p c _ Hpb Hiv (Z.le_refl _)) as H. by destruct (advcodec.decodeMediaAdv pbkdf2 aes p c) as [[pkt|e|] c'].
Qed.

Lemma safe_adv n now b : a = true -> is_bytes b -> safe (handle_adv pbkdf2 aes (S n) now b).
Proof.
  intros Ha Hb. cbn [handle_adv]. cbv zeta. destruct (negb _); [by apply safe_advGRE|]. pose proof (adv.adv_Parse_total b Hb) as HP. destruct (adv.Parse b) as [p|e|]; [|by apply safe_advGRE|done]. destruct HP as ((hdr & Hpl & Hh) & Hiv).
  assert (Hpb : is_bytes (adv.o_Payload p)) by (rewrite Hpl in Hb; by apply Forall_app in Hb as [_ ?]). destruct (_ =? TypeGREMain); [by apply safe_advGRE|].
  assert (HF : forall s, sound s -> fecEnabled s = false) by (intros s Hs; unfold fecEnabled; rewrite (so_fec s Hs), (fec_plain Ha); done).
  unfold safe. apply runs_get. intros s Hs. rewrite (HF s Hs). cbn [andb]. apply safe_mbind.
  - apply safe_adv_call; [done|]. intros c. by apply decodeParsed_total.
  - intros [[pkt|fbs]|]; [| |apply safe_mret].
    + apply safe_mbind; [|intros _; unfold learn_advanced; safely; [apply safe_adv_call; [done|]; intros c; by destruct (advcodec.takePeerAdvCap c)|sound_same]]. apply safe_mbind; [apply safe_feedMedia|intros _]. apply runs_get. intros s1 H1. rewrite (HF s1 H1). apply safe_mret.
    + apply safe_mbind; [apply safe_adv_feedback|intros _]. unfold learn_advanced. safely; [apply safe_adv_call; [done|]; intros c; by destruct (advcodec.takePeerAdvCap c)|sound_same].
Qed.

(** ** The application and the flow *)

Lemma safe_push_fragments n now off p st : 0 < fs -> 0 <= off -> safe (push_fragments n now off p st).
Proof.
  intros Hf. revert off. induction n as [|n IH]; intros off Ho; cbn [push_fragments]; [apply safe_mret|]. unfold safe. apply runs_get. intros s Hs. rewrite (so_frag s Hs). destruct (Z.ltb_spec off (zlen p)); [cbn [negb]|apply safe_mret]. apply safe_mbind.
  - apply safe_lift. destruct (Z.ltb_spec (zlen p) (off + fs)); [destruct (slc_ok (E := Empty_set) p off (zlen p)) as (x & -> & _)|destruct (slc_ok (E := Empty_set) p off (off + fs)) as (x & -> & _)]; done || lia.
  - intros part. apply safe_mbind; [apply safe_PushAppBlock|intros _]. apply IH. lia.
Qed.
Lemma safe_pushApp now p : safe (pushApp ntpNow now p).
Proof.
  unfold pushApp, push_block. safely; try sound_same. apply safe_push_fragments; [|lia]. match goal with H : _ || _ = false |- _ => apply orb_false_iff in H as [H _]; by apply Z.leb_gt in H end.
Qed.

Lemma safe_queue p : safe (queueDelivery p).
Proof. unfold queueDelivery. safely; sound_same. Qed.
Lemma safe_block d : safe (queueBlock d).
Proof. unfold queueBlock. safely; sound_same. Qed.
#[local] Hint Resolve safe_pushApp safe_queue safe_block : safe.
Lemma safe_fragment d : safe (deliverFragment d).
Proof.
  intros s Hs. unfold deliverFragment. destruct (frag_push _ _ _ _) as [[out|] r]; [|split; [|done]; revert Hs; sound_same]. destruct (Merger.Deliver _ _ _ _ _) as [ps mg]. apply (safe_each queueDelivery ps); [apply safe_queue|]. revert Hs. sound_same.
Qed.
#[local] Hint Resolve safe_fragment : safe.

Lemma safe_poll_output : safe poll_output.
Proof.
  intros s Hs. unfold poll_output. pose proof (dims_PollOutput (s_flow s)) as E. destruct (PollOutput _) as [o f]. split; [|done]. by apply sound_flow.
Qed.
Lemma safe_poll_event : safe poll_event.
Proof.
  intros s Hs. unfold poll_event. pose proof (dims_PollEvent (s_flow s)) as E. destruct (PollEvent _) as [o f]. split; [|done]. by apply sound_flow.
Qed.
#[local] Hint Resolve safe_poll_output safe_poll_event : safe.
Lemma safe_outputs n now fbs : safe (drain_outputs pbkdf2 aes n now fbs).
Proof. revert fbs. induction n as [|n IH]; intros fbs; cbn [drain_outputs]; safely; sound_same. Qed.
Lemma safe_events n : safe (drain_events n).
Proof. induction n as [|n IH]; cbn [drain_events]; safely. Qed.
#[local] Hint Resolve safe_outputs safe_events : safe.
Lemma safe_drain now : safe (drain pbkdf2 aes WallNTP now).
Proof. unfold drain. safely. Qed.
Lemma safe_timers n now : safe (fire_timers visit n now).
Proof. induction n as [|n IH]; cbn [fire_timers]; safely; sound_same. Qed.
#[local] Hint Resolve safe_drain safe_timers : safe.
(** ** The loop *)

Lemma safe_sendOOB now proto d : safe (sendOOB pbkdf2 aes now proto d).
Proof.
  unfold sendOOB, safe. apply runs_get. intros s Hs. destruct (negb _); [apply safe_mret|]. destruct (s_main s) as [c|] eqn:Ec; [|destruct (s_advGRE s) as [g|] eqn:Eg; [|apply safe_mret]]; (apply safe_mbind; [|intros; safely]).
  - apply safe_main_call; [exact (main_on s c Hs Ec)|intros; apply encodeOOB_total].
  - apply safe_gre_call; [exact (gre_on s g Hs Eg)|intros; apply encodeOOB_total].
Qed.
Lemma safe_flowAttr now json : safe (sendFlowAttr now json).
Proof. unfold sendFlowAttr. safely. apply safe_adv_call; [eauto with safe|framed]. Qed.
Lemma safe_infer : safe inferSenderMediaFromRTCP.
Proof. unfold inferSenderMediaFromRTCP. safely; sound_same. Qed.
Lemma safe_rebind now rebind : safe (maybeRebindCaller now rebind).
Proof. unfold maybeRebindCaller. safely; sound_same. Qed.
Lemma safe_beacons now : safe (tick_beacons pbkdf2 aes WallNTP now).
Proof. unfold tick_beacons. safely; sound_same. Qed.
#[local] Hint Resolve safe_sendOOB safe_flowAttr safe_infer safe_rebind safe_beacons : safe.
Lemma safe_alive now rebind : safe (tick_alive now rebind).
Proof. unfold tick_alive. safely; sound_same. Qed.
Lemma safe_retransmit now : safe (retransmit_eap now).
Proof. unfold retransmit_eap. safely; sound_same. Qed.
#[local] Hint Resolve safe_alive safe_retransmit : safe.
Lemma safe_tick now rebind : safe (tick pbkdf2 aes WallNTP now rebind).
Proof. unfold tick. safely. Qed.
Lemma safe_push_block now p frag seq st : safe (push_block now p frag seq st).
Proof. apply safe_PushAppBlock. Qed.
Lemma safe_ctrl c : safe (applyCtrl c).
Proof. unfold applyCtrl. safely; first [by apply sound_flow|sound_same]. Qed.
Lemma safe_start now : safe (start pbkdf2 aes WallNTP now).
Proof. unfold start. safely; sound_same. Qed.
#[local] Hint Resolve safe_tick safe_ctrl safe_start : safe.

(** The bytes that arrive, on the socket of the profile. *)
Definition input_ok (i : input) : Prop :=
  match i with
  | InMedia _ b | InRTCP _ b => is_bytes b
  | InMain _ b => m = true /\ is_bytes b
  | InAdv _ b => a = true /\ is_bytes b
  | _ => True
  end.

Lemma safe_handle now i : input_ok i -> safe (handle pbkdf2 aes sha256 WallNTP ntpNow visit (S fuel) now i).
Proof.
  intros Hi. destruct i as [src b|body|src b|src b|src b|c|p|p seq st|proto d|json| |rebind]; unfold handle, drain_, push_block, fireTimers; try solve [destruct Hi; safely; sound_same|safely; sound_same].
  - unfold safe. apply safe_mbind; [apply safe_update; sound_same|intros _]. apply runs_get. intros s _. pose proof (simple_decode_total b (s_mdec s) Hi) as Hd.
    destruct (decode b (s_mdec s)) as [r d]. safely; [sound_same|]. eauto using fec_is_some with safe.
  - unfold safe. apply runs_get. intros s Hs. apply safe_mbind; [|intros _; apply safe_drain]. rewrite (so_adv s Hs). case_eq a; intros Ea; [|apply safe_fecOnRecv]. eapply runs_bind; [apply runs_push_fec|]. intros rs Hrs. rewrite (Hrs (fec_plain Ea)). apply safe_mret.
  - safely; try sound_same; match goal with H : decodeFeedback b ?ref = _ |- _ => destruct (simple_feedback_total b ref Hi) as (r' & E' & Hr'); rewrite E' in H; first [discriminate H|injection H as <-; exact Hr'] end.
  - destruct Hi as [Ha Hb]. safely; try sound_same. by apply safe_adv.
Qed.

Lemma safe_loop ins : Forall (fun ti => input_ok ti.2) ins -> safe (loop pbkdf2 aes sha256 WallNTP ntpNow visit (S fuel) ins).
Proof.
  intros Hi. induction Hi as [|[now i] ins H _ IH]; cbn [loop]; [apply safe_mret|]. unfold safe. apply safe_mbind; [|intros []; [exact IH|apply safe_mret]].
  unfold step. assert (HS : safe (handle pbkdf2 aes sha256 WallNTP ntpNow visit (S fuel) now i ;; mret true)) by (apply safe_mbind; [by apply safe_handle|intros _; apply safe_mret]). destruct i; try exact HS. apply safe_tick.
Qed.
End total.

(** ** Properties *)

Definition main_profile (cfg : Config) : bool := bool_decide (is_Some (c_Main cfg)).
Definition adv_profile (cfg : Config) : bool := negb (main_profile cfg) && bool_decide (is_Some (c_Adv cfg)).

(** The EAP roles of a configuration are as their constructors make them. *)
Definition fresh_roles (cfg : Config) : Prop := forall mp, c_Main cfg = Some mp ->
  (forall c, mp_EAPClient mp = Some c -> exists user pw, authenticatee.NewAuthenticatee user pw = Ok c) /\
  (forall c, mp_EAPServer mp = Some c -> exists lookup v legacy, authenticator.newAuthenticator (Some lookup) v legacy = Ok c).

(** FEC as the Simple and the Main profile carry it. *)
Definition plain_fec (cfg : Config) : Prop := forall f, c_FEC cfg = Some f -> SeparatePorts f = true /\ adv_profile cfg = false.

Lemma fresh_client_ok user pw c : authenticatee.NewAuthenticatee user pw = Ok c -> client_ok c.
Proof. unfold authenticatee.NewAuthenticatee. destruct (_ || _); [done|]. destruct (_ || _); [done|]. by intros [= <-]. Qed.
Lemma fresh_server_ok lookup v legacy c : authenticator.newAuthenticator (Some lookup) v legacy = Ok c -> server_ok c.
Proof. unfold authenticator.newAuthenticator. by intros [= <-]. Qed.

(** The ring the flow is made with is one Go can make: at most 2^31 slots. *)
Definition ring_fits (cfg : Config) : Prop := RingSize (c_Flow cfg) <= 2 ^ 31.

Lemma newSession_sound cfg is_sender mac w : fresh_roles cfg -> ring_fits cfg -> sound (main_profile cfg) (adv_profile cfg) (c_FEC cfg) (FragmentSize cfg) is_sender (newSession cfg is_sender mac w).
Proof.
  intros Hr Hring. pose proof (New_shape (if is_sender then RoleSender else RoleReceiver) (c_Flow cfg) Hring) as Hfl. unfold newSession, main_profile, adv_profile, main_profile. destruct (c_Main cfg) as [mp|] eqn:Em; [|destruct (c_Adv cfg); by split]. destruct (Hr mp Em) as [Hc Hs]. split; try done; cbn; intros c Hfm; apply fmap_Some in Hfm as (c0 & Ec & ->).
  - destruct (Hc c0 Ec) as (user & pw & Hn). apply fresh_client_ok in Hn. destruct (mp_UseKeyAsPassphrase mp); [|done]. unfold authenticatee.UseKeyAsPassphrase. by destruct (bool_decide _).
  - destruct (Hs c0 Ec) as (lookup & v & legacy & Hn). apply fresh_server_ok in Hn. destruct (mp_UseKeyAsPassphrase mp); [|done]. unfold authenticator.UseKeyAsPassphrase. by destruct (bool_decide _).
Qed.

(** C13: A session never panics.  Whatever way it was opened, and whatever it then goes through (any bytes on the sockets of its profile, genuine or not, timers, ticks, payloads and commands of
    the application, writes that fail), no handler panics: every index the handlers, the codecs and the flow core take of a slice or a ring is in range, no codec that is missing is called, no role is
    in a state its next frame cannot meet.  The flow's ring has at most 2^31 slots, the EAP roles are as their constructors make them, AES and SHA-256 return bytes, AES blocks of 16; FEC, where it is
    used, has its own ports, and the in-band FEC of the Advanced profile is left out. *)
Theorem session_never_panics pbkdf2 aes sha256 WallNTP ntpNow visit fuel cfg mac w remote remoteRTCP now ins s0 :
  (forall key b, length (aes key b) = 16%nat) -> (forall key b, is_bytes (aes key b)) -> (forall b, is_bytes (sha256 b)) -> fresh_roles cfg -> ring_fits cfg -> plain_fec cfg ->
  s0 ∈ [NewSender remote remoteRTCP cfg mac w; NewReceiver cfg mac w; NewMainSender remote cfg mac w; NewMainReceiver cfg mac w; NewMainReflectorInput cfg mac w;
        NewReceiverCaller remoteRTCP cfg mac w; NewMainReceiverCaller remote cfg mac w; NewListenerSender cfg mac w] ->
  Forall (fun ti => input_ok (main_profile cfg) (adv_profile cfg) ti.2) ins ->
  exists s, (start pbkdf2 aes WallNTP now ;; loop pbkdf2 aes sha256 WallNTP ntpNow visit (S fuel) ins) s0 = (Ok tt, s).
Proof.
  intros Hl Hb Hsb Hr Hring Hf Hs0 Hi. set (S_ := sound (main_profile cfg) (adv_profile cfg) (c_FEC cfg) (FragmentSize cfg)). assert (H0 : exists sd, S_ sd s0).
  { assert (HS : forall b (g : Session -> Session), (forall s, (is_main (g s), is_adv (g s), s_cfg (g s), has_gre (g s), s_fec (g s), fragSize (g s), s_eap (g s), s_sender (g s), s_flow (g s)) = (is_main s, is_adv s, s_cfg s, has_gre s, s_fec s, fragSize s, s_eap s, s_sender s, s_flow s)) -> exists sd, S_ sd (g (newSession cfg b mac w))).
    { intros b g Hg. specialize (Hg (newSession cfg b mac w)) as [= E1 E2 E3 E4 E5 E6 E7 E8 E9]. exists b. eapply sound_view; [..|apply (newSession_sound cfg b mac w Hr Hring)]; congruence. }
    rewrite !elem_of_cons, elem_of_nil in Hs0. unfold NewMainReceiver, NewMainReceiverCaller, NewListenerSender, NewReceiver, NewMainSender, NewSender, NewMainReflectorInput, NewReceiverCaller in Hs0.
    destruct Hs0 as [-> |[-> |[-> |[-> |[-> |[-> |[-> |[-> |[]]]]]]]]]; [apply (HS true (fun s => s <| s_peer ::= _ |>))|apply (HS false id)|apply (HS true (fun s => s <| s_peer ::= _ |>))|destruct (BlockDelivery cfg); [apply (HS false (fun s => s <| blockOut := _ |>))|apply (HS false id)]|
      apply (HS false (fun s => s <| blockOut := _ |>))|apply (HS false (fun s => s <| s_peer ::= _ |> <| s_announce := _ |>))|apply (HS false (fun s => s <| s_peer ::= _ |> <| s_announce := _ |> <| callerRebind := _ |>))|apply (HS true id)]; reflexivity. }
  assert (P1 : adv_profile cfg = true -> c_FEC cfg = None). { intros Ha. destruct (c_FEC cfg) as [f|] eqn:Ef; [|done]. destruct (Hf f Ef) as [_ H]. congruence. }
  assert (P2 : forall f, c_FEC cfg = Some f -> SeparatePorts f = true) by (intros f Ef; apply (Hf f Ef)). destruct H0 as [sd H0].
  pose proof (safe_mbind _ _ _ _ _ _ _ (fun _ => True) (safe_start pbkdf2 aes sha256 WallNTP Hsb (main_profile cfg) (adv_profile cfg) (c_FEC cfg) (FragmentSize cfg) sd now) (fun _ => safe_loop pbkdf2 aes sha256 WallNTP ntpNow visit fuel Hl Hb Hsb (main_profile cfg) (adv_profile cfg) (c_FEC cfg) (FragmentSize cfg) sd P1 P2 ins Hi)) as H.
  specialize (H s0 H0). destruct ((start pbkdf2 aes WallNTP now ;; _) s0) as [[[]|e|] s]; [|done..]. by exists s.
Qed.

(** A few inputs of the session that authenticates its callers: bytes that are no datagram, the frame that starts a handshake, ticks and timers. *)
Definition demo_inputs : list (Z * input) :=
  [(1000, InMain demo_src [0x30; 0x08; 1]); (2000, InMain demo_src (framed_eap eap.startFrame)); (3000, InTick false); (4000, InTimer); (5000, InApp [1; 2; 3]); (6000, InMain demo_src [])].

Lemma demo_aes_bytes key b : is_bytes (psk.demo_aes key b).
Proof. apply Forall_fmap, Forall_forall. intros i _. unfold compose, in_u8, u8, uwrap. apply Z.mod_pos_bound. done. Qed.

Lemma session_never_panics_witness : exists s,
  (start psk.demo_pbkdf2 psk.demo_aes (fun t => t) 0 ;; loop psk.demo_pbkdf2 psk.demo_aes handshake.tiny_sha (fun t => t) (fun t => t) demo_visit 1 demo_inputs) demo_media_session = (Ok tt, s).
Proof.
  apply (session_never_panics psk.demo_pbkdf2 psk.demo_aes handshake.tiny_sha (fun t => t) (fun t => t) demo_visit 0 demo_main_cfg (replicate 6 0) demo_main_world demo_src demo_src 0 demo_inputs demo_media_session psk.demo_aes_len).
  - exact demo_aes_bytes.
  - exact handshake.tiny_sha_bytes.
  - intros mp [= <-]. split; [done|]. intros c [= <-]. by exists handshake.demo_lookup, eap.eapVersion3, false.
  - vm_compute. discriminate.
  - done.
  - do 3 (apply elem_of_cons; right). apply elem_of_cons. by left.
  - assert (HB : is_bytes (framed_eap eap.startFrame)) by (let b := eval vm_compute in (framed_eap eap.startFrame) in change (is_bytes b); repeat constructor; done).
    repeat (apply Forall_cons; split; [first [exact I|split; [reflexivity|first [exact HB|repeat constructor; done]]]|]). apply Forall_nil. exact I.
Defined.
End sessiontotal.
