(* ===== verification/SessionLive.v ===== *)
(** * Liveness of a session: timeout and the rebinding of a caller's socket

    A caller whose sender falls silent rebinds its socket with growing gaps, and gives up after ten attempts: no session waits for ever. *)

From stdpp Require Import gmap.
From S2P Require Import Prelude Bytes Clock FlowTypes FlowChecked Peer Psk EapHandshake Session SessionMain SessionAdv SessionLoop SessionFrames SessionGate SessionTotal.

Module sessionlive.
Import peer session sessionmain sessionadv sessionloop sessionframes sessiongate sessiontotal.

(** What the liveness checks read. *)
Definition core (s : Session) := (s_cfg s, s_peer s, (callerRebind s, rebindAttempts s, lastRebind s), closeErr s, (is_main s, is_adv s), (reauthing (s_eap s), eapClient (s_eap s), eapServer (s_eap s))).
Definition same_core (s s' : Session) : Prop := core s' = core s.

#[export] Instance same_core_pre : PreOrder same_core.
Proof. split; [done|]. intros s1 s2 s3 H1 H2. unfold same_core in *. congruence. Qed.

Lemma core_inner s : core (inner s) = core s.
Proof. unfold core, inner. cbn. unfold is_main, is_adv. cbn. by destruct (s_main s), (s_adv s). Qed.

Lemma outward_core s s' : outward s s' -> same_core s s'.
Proof. intros [H _]. unfold same_core. by rewrite <-(core_inner s'), H, core_inner. Qed.

Lemma keeps_core {A} (m : M A) : keeps outward m -> keeps same_core m.
Proof. intros H s. apply outward_core, H. Qed.
#[local] Hint Resolve keeps_core : frames.

Section live.
Context (pbkdf2 : bytes -> bytes -> Z -> option bytes) (aes : bytes -> bytes -> bytes) (sha256 : bytes -> bytes) (WallNTP ntpNow : Z -> Z).
Context (visit : nat -> list (Z * Z) -> list (Z * Z)) (fuel : nat).











Context (m a : bool) (fp : option FECParams) (fs : Z) (sd : bool).









(** ** Runs of ticks *)




End live.

(** ** Properties *)




End sessionlive.
