(* ===== verification/SessionBond.v ===== *)
(** * Bonded sessions: one flow over several network paths

    The operations of src/internal/session/bonded.go and the branches of session.go, session_rtcp.go, fec.go and adapt.go that are taken when a session is
    bonded.  A bonded session is a [Bond]: a [Session] with the sockets, addresses, codecs and authentication of its paths; an operation is a state
    transformer [B], and what it shares with other sessions is an operation of Session and its companions run on the inner session ([on_session]). *)

From stdpp Require Import gmap.
From S2P Require Import Prelude GoFloat Bytes Clock Wire Rtp Rtcp FlowTypes FlowNew Flow FlowChecked Split Reassembler Gre Peer Psk Adv AdvCtrl Adapt Fec Bonding SimpleCodec AdvCodec MainCodec Eap EapState EapClient EapServer Session SessionMain SessionAdv SessionLoop.

Module sessionbond.
Import peer session sessionmain sessionadv sessionloop.

(** ** State *)

Record bondAuth := mkBondAuth {
  a_client : option authenticatee.Authenticatee; a_server : option authenticator.Authenticator; a_authed : bool; startSent : bool; a_lastTx : option eap.Frame;
  a_retx : Z; a_txKeyGen : Z; a_rxKeyGen : Z; a_pwReqSent : bool }.
#[export] Instance eta_bondAuth : Eta bondAuth := fun a =>
  mkBondAuth (a_client a) (a_server a) (a_authed a) (startSent a) (a_lastTx a) (a_retx a) (a_txKeyGen a) (a_rxKeyGen a) (a_pwReqSent a).

Record bondInbound := mkBondInbound { bi_idx : Z; isRTCP : bool; bi_data : bytes; bi_src : AddrPort }.
Record weightSet := mkWeightSet { ws_path : Z; ws_weight : Z }.
(** [ps_conn]: the command brings a socket. *)
Record peerSet := mkPeerSet { ps_remove : bool; ps_index : Z; ps_remote : AddrPort * AddrPort; ps_conn : bool; ps_weight : Z; ps_priority : Z }.

(** [conns] tells which sockets are open, [fecReasm] is [None] without FEC, and [injected] marks a session whose sockets are not its own. *)
Record Bond := mkBond {
  b_session : Session; b_group : bonding.Group; lastWeighted : Z; lastWeightedOK : bool; conns : list bool; remotes : list (AddrPort * AddrPort); peers : list Peer;
  fecReasm : option (list fecCtrlReassembler); auth : list bondAuth; codecs : list maincodec.mainCodec; everConnected : bool; injected : bool }.
#[export] Instance eta_Bond : Eta Bond := fun b => mkBond
  (b_session b) (b_group b) (lastWeighted b) (lastWeightedOK b) (conns b) (remotes b) (peers b) (fecReasm b) (auth b) (codecs b) (everConnected b) (injected b).

(** ** Operations *)

Definition B (A : Type) : Type := sres Bond Empty_set A.
Definition bget : B Bond := fun b => (Ok b, b).
Definition bnop : B unit := mret tt.
Definition bpanic {A} : B A := fun b => (Panic, b).
Definition bwhen (c : bool) (m : B unit) : B unit := if c then m else bnop.
Fixpoint beach {A} (f : A -> B unit) (l : list A) : B unit := match l with [] => bnop | x :: l => f x ;; beach f l end.

(** [CountRecv] for the packets [feedMedia] accepted. *)
Definition count_recv (b : Bond) : Bond :=
  b <| b_group ::= fun g => foldr (fun pn g => bonding.CountRecv pn.1 pn.2 g) g (counted (s_world (b_session b))) |>
    <| b_session ::= fun s => s <| s_world ::= fun w => w <| counted := [] |> |> |>.

(** [closeBond], which [shutdown] calls unless the sockets are shared. *)
Definition closeBond (b : Bond) : Bond := b <| conns ::= fmap (fun _ => false) |>.
Definition close_sockets (b : Bond) : Bond := match closeErr (b_session b) with Some _ => if injected b then b else closeBond b | None => b end.

Definition on_session {A} (m : M A) : B A := fun b =>
  let '(r, s) := m (b_session b) in (r, close_sockets (count_recv (b <| b_session := s |>))).
Definition on_group (f : bonding.Group -> bonding.Group) : B unit := modify (fun b => b <| b_group ::= f |>).

(** [l[i]] *)
Definition at_ {A} (l : list A) (i : Z) : B A := match l !! Z.to_nat i with Some x => mret x | None => bpanic end.
(** An update through a pointer to an element. *)
Definition on_auth (i : Z) (f : bondAuth -> bondAuth) : B unit := modify (fun b => b <| auth ::= alter f (Z.to_nat i) |>).
Definition on_peer (i : Z) (f : Peer -> Peer) : B unit := b ← bget; p ← at_ (peers b) i; modify (fun b => b <| peers ::= <[Z.to_nat i := f p]> |>).

(** [conns[i].WriteMedia] and [WriteRTCP]: nothing leaves a closed socket. *)
Definition conn_write (i : Z) (k : sock) (dg : bytes) (dst : AddrPort) : B bool :=
  b ← bget;
  open ← at_ (conns b) i;
  if (open : bool) then on_session (write_on i k dg dst) else mret false.

Definition indices {A} (l : list A) : list Z := seqZ 0 (zlen l).

Definition bondPathAuthed (idx : Z) (b : Bond) : bool :=
  match auth b with [] => true | _ => match auth b !! Z.to_nat idx with Some a => a_authed a | None => false end end.

(** Calls of [bondCodec(idx)]: the codec of the path, or the one of the session. *)
Definition codec_read {A} (idx : Z) (f : maincodec.mainCodec -> A * maincodec.mainCodec) : B A := fun b =>
  match codecs b !! Z.to_nat idx with
  | Some c => let '(r, c) := f c in (Ok r, b <| codecs ::= <[Z.to_nat idx := c]> |>)
  | None => on_session (main_read f) b
  end.

Section bond.
Context (pbkdf2 : bytes -> bytes -> Z -> option bytes) (aes : bytes -> bytes -> bytes) (sha256 : bytes -> bytes) (WallNTP ntpNow : Z -> Z).
Context (visit : nat -> list (Z * Z) -> list (Z * Z)) (fuel : nat).

(** ** Construction *)

(** A Main codec with the same configuration; the keys are shared with the original, and there are none where it is used (host.go, [buildMainParams]). *)
Definition cloneFresh (c : maincodec.mainCodec) : maincodec.mainCodec := maincodec.newMainCodec
  (maincodec.sendKey c) (maincodec.recvKey c) (maincodec.keySize256 c) (maincodec.srcPort c) (maincodec.dstPort c) (maincodec.npdEnabled c) (maincodec.ssrc c) (maincodec.cname c) (maincodec.bitmask c).

Definition buildBondCodecs (n : nat) (b : Bond) : Bond :=
  match useKeyAsPassphrase (s_eap (b_session b)), s_main (b_session b) with
  | true, Some c =>
      b <| codecs := replicate n (cloneFresh c) |>
        <| auth ::= fmap (fun a => a <| a_client ::= fmap (authenticatee.UseKeyAsPassphrase true) |> <| a_server ::= fmap (authenticator.UseKeyAsPassphrase true) |>) |>
  | _, _ => b
  end.

Definition register (n : nat) (g : bonding.Group) : bonding.Group :=
  foldl (fun g i => if bonding.HasPath g (u8 i) then g else bonding.AddPath (u8 i) bonding.WeightDuplicate 0 g) g (seqZ 0 (Z.of_nat n)).

Definition no_auth : bondAuth := mkBondAuth None None false false None 0 0 0 false.
Definition hold (held : bool) (s : Session) : Session := if held then s <| s_eap ::= fun e => e <| authed := false |> |> else s.

(** One authenticator per path, or none. *)
Definition NewBondedReceiver (n : nat) (group : bonding.Group) (cfg : Config) (eapServers : list authenticator.Authenticator) (mac : bytes) (w : world) : Bond :=
  let held := negb (zlen eapServers =? 0) in
  let b := mkBond (hold held (newSession cfg false mac w)) (register n group) 0 false (replicate n true) [] (replicate n (peer.New (SessionTimeout cfg)))
    ((fun _ => replicate n (mkFecCtrl frag_zero 0 false)) <$> c_FEC cfg) ((fun a => no_auth <| a_server := Some a |>) <$> eapServers) [] false false in
  buildBondCodecs n b.

Definition NewBondedInjectedReceiver (n : nat) (group : bonding.Group) (cfg : Config) (mac : bytes) (w : world) : Bond :=
  mkBond (newSession cfg false mac w) (register n group) 0 false (replicate n true) [] (replicate n (peer.New (SessionTimeout cfg))) None [] [] false true.

Definition path_peer (timeout : Z) (r : AddrPort * AddrPort) : Peer := peer.New timeout <| Media := r.1 |> <| RTCP := r.2 |>.

(** [None]: there is no path. *)
Definition NewBondedSender (rs : list (AddrPort * AddrPort)) (group : bonding.Group) (cfg : Config) (eapClients : list authenticatee.Authenticatee) (mac : bytes) (w : world) : option Bond :=
  let n := length rs in
  let held := negb (zlen eapClients =? 0) in
  match rs with
  | [] => None
  | r0 :: _ =>
      let s := hold held (newSession cfg true mac w) in
      let b := mkBond s (register n group) 0 false [true] rs (path_peer (SessionTimeout cfg) <$> rs)
        ((fun _ => replicate n (mkFecCtrl frag_zero 0 false)) <$> c_FEC cfg) ((fun a => no_auth <| a_client := Some a |>) <$> eapClients) [] false false in
      Some (buildBondCodecs n b <| b_session ::= fun s => s <| s_peer ::= fun p => p <| Media := r0.1 |> <| RTCP := r0.2 |> |> |>)
  end.

(** ** Paths added and removed *)

(** The loop that grows the slots of a sender up to an index. *)
Fixpoint grow_slots (fuel : nat) (index timeout : Z) (b : Bond) : Bond :=
  match fuel with
  | O => b
  | S fuel =>
      if index <? zlen (remotes b) then b else
      grow_slots fuel index timeout (b <| remotes ::= fun l => l ++ [(AddrPort_zero, AddrPort_zero)] |> <| peers ::= fun l => l ++ [peer.New timeout] |>
        <| fecReasm ::= fmap (fun l => l ++ [mkFecCtrl frag_zero 0 false]) |>)
  end.

(** An assignment to an element panics, like a read, when there is no such element. *)
Definition applyPeerCmd (ps : peerSet) : B unit :=
  b ← bget;
  let i := Z.to_nat (ps_index ps) in
  let timeout := SessionTimeout (s_cfg (b_session b)) in
  if ps_remove ps then
    on_group (fun g => (bonding.RemovePath (ps_index ps) g).2) ;;
    bwhen (negb (s_sender (b_session b))) (modify (fun b => b <| conns ::= alter (fun _ => false) i |>))
  else if bonding.HasPath (b_group b) (ps_index ps) then bnop
  else if s_sender (b_session b) then
    modify (grow_slots 256 (ps_index ps) timeout) ;;
    b ← bget;
    at_ (peers b) (ps_index ps) ;;
    at_ (remotes b) (ps_index ps) ;;
    modify (fun b => b <| peers ::= <[i := path_peer timeout (ps_remote ps)]> |> <| remotes ::= <[i := ps_remote ps]> |>) ;;
    on_group (bonding.AddPath (ps_index ps) (ps_weight ps) (ps_priority ps))
  else if negb (ps_index ps =? zlen (conns b)) || negb (ps_conn ps) then bnop
  else
    modify (fun b => b <| conns ::= (fun l => l ++ [true]) |> <| peers ::= (fun l => l ++ [peer.New timeout]) |> <| fecReasm ::= fmap (fun l => l ++ [mkFecCtrl frag_zero 0 false]) |>) ;;
    on_group (bonding.AddPath (ps_index ps) (ps_weight ps) (ps_priority ps)).

(** ** Authentication of a path *)

Definition sendBondEAP (idx : Z) (f : eap.Frame) (now : Z) : B unit :=
  on_session (sent_at now) ;;
  r ← codec_read idx (maincodec.encodeEAPOL [] (eap.AppendTo f []));
  r ← on_session (attempt r);
  match r with
  | None => bnop
  | Some dg =>
      on_session (modify (fun s => s <| rtcpBuf := mkSlice dg [] |>)) ;;
      b ← bget;
      '(conn, dst) ← (if s_sender (b_session b) then at_ (conns b) 0 ;; r ← at_ (remotes b) idx; mret (0, r.1) else at_ (conns b) idx ;; p ← at_ (peers b) idx; mret (idx, Media p));
      if negb (IsValid dst) then bnop else conn_write conn SockMedia dg dst ;; bnop
  end.

Definition start_path (now : Z) (i : Z) : B unit :=
  b ← bget;
  a ← at_ (auth b) i;
  match a_client a with
  | None => bnop
  | Some c =>
      if startSent a then bnop else
      let '(f, c) := authenticatee.Start c in
      on_auth i (fun a => a <| startSent := true |> <| a_retx := 0 |> <| a_client := Some c |> <| a_lastTx := Some f |>) ;;
      sendBondEAP (u8 i) f now
  end.
Definition maybeStartBondEAP (now : Z) : B unit := b ← bget; beach (start_path now) (indices (auth b)).

Definition installBondEAPKeying (idx : Z) : B unit :=
  b ← bget;
  match codecs b !! Z.to_nat idx, auth b !! Z.to_nat idx with
  | Some _, Some a =>
      let e := s_eap (b_session b) in
      let keyBits := if eapKeySize256 e then psk.KeySize256 else psk.KeySize128 in
      let '((tx, haveTx), (rx, haveRx)) := match a_client a, a_server a with
        | Some c, _ => (authenticatee.TxKeying c, authenticatee.RxKeying c)
        | None, Some c => (authenticator.TxKeying c, authenticator.RxKeying c)
        | None, None => ((eapstate.mkPassphrase [] 0, false), (eapstate.mkPassphrase [] 0, false))
        end in
      (if haveTx && negb (eapstate.Gen tx =? a_txKeyGen a) then
         let '(k, ds) := psk.newKey pbkdf2 (eapstate.Key tx) keyBits (eapKeyRotation e) false true (draws (s_world (b_session b))) in
         on_session (modify (fun s => s <| s_world ::= fun w => w <| draws := ds |> |>)) ;;
         k ← on_session (attempt k);
         match k with
         | None => bnop
         | Some k => modify (fun b => b <| codecs ::= alter (maincodec.setSendKey (Some k) (eapKeySize256 e)) (Z.to_nat idx) |>) ;; on_auth idx (fun a => a <| a_txKeyGen := eapstate.Gen tx |>)
         end
       else bnop) ;;
      (if haveRx && negb (eapstate.Gen rx =? a_rxKeyGen a) then
         d ← on_session (attempt (psk.newDecryptor (eapstate.Key rx) keyBits true));
         match d with
         | None => bnop
         | Some d => modify (fun b => b <| codecs ::= alter (maincodec.setRecvKey (Some d)) (Z.to_nat idx) |>) ;; on_auth idx (fun a => a <| a_rxKeyGen := eapstate.Gen rx |>)
         end
       else bnop)
  | _, _ => bnop
  end.

Definition admitBondPeer (idx : Z) : B bool :=
  b ← bget;
  p ← at_ (peers b) idx;
  a ← at_ (auth b) idx;
  let name := match a_server a with Some a => authenticator.PeerUsername a | None => [] end in
  if match OnConnect (s_cfg (b_session b)) with Some f => negb (f (Media p) name) | None => false end then mret false else
  on_session (on_eap (fun e => e <| connected := Some (Media p, name) |>)) ;; mret true.

(** The role of the path takes a frame: its reply and whether it is authenticated; [None] when there is no role. *)
Definition path_recv (idx : Z) (payload : bytes) : B (option (option eap.Frame * bool)) := fun b =>
  match auth b !! Z.to_nat idx with
  | None => (Panic, b)
  | Some a =>
      let put a ds b := b <| auth ::= <[Z.to_nat idx := a]> |> <| b_session ::= fun s => s <| s_world ::= fun w => w <| secrets := ds |> |> |> in
      match a_client a, a_server a with
      | Some c, _ =>
          match authenticatee.Recv sha256 aes payload c (secrets (s_world (b_session b))) with
          | (eapstate.Panicked, _, _) => (Panic, b)
          | (eapstate.Returned out _, c, ds) => (Ok (Some (out, authenticatee.Authenticated c)), put (a <| a_client := Some c |>) ds b)
          end
      | None, Some c =>
          match authenticator.Recv sha256 aes payload c (secrets (s_world (b_session b))) with
          | (eapstate.Panicked, _, _) => (Panic, b)
          | (eapstate.Returned out _, c, ds) => (Ok (Some (out, authenticator.Authenticated c)), put (a <| a_server := Some c |>) ds b)
          end
      | None, None => (Ok None, b)
      end
  end.

(** The key request of an authenticatee. *)
Definition request_password (idx now : Z) : B unit :=
  b ← bget;
  a ← at_ (auth b) idx;
  match a_client a with
  | None => bnop
  | Some c =>
      if a_pwReqSent a then bnop else
      let '(f, c) := authenticatee.PasswordRequest c in
      on_auth idx (fun a => a <| a_client := Some c |>) ;;
      match f with None => bnop | Some f => on_auth idx (fun a => a <| a_pwReqSent := true |>) ;; sendBondEAP idx f now end
  end.

(** What the first success of a path opens. *)
Definition open_path (idx : Z) : B unit :=
  b ← bget;
  a ← at_ (auth b) idx;
  admitted ← (match a_server a with
    | Some _ => if everConnected b then mret true else modify (fun b => b <| everConnected := true |>) ;; admitBondPeer idx
    | None => mret true
    end);
  if negb admitted then on_session (shutdown ErrAuth) else on_session (on_eap (fun e => e <| authed := true |>)).

Definition handleBondEAP (now idx : Z) (payload : bytes) : B unit :=
  b ← bget;
  match auth b !! Z.to_nat idx with
  | None => bnop
  | Some _ =>
      on_auth idx (fun a => a <| a_retx := 0 |>) ;;
      r ← path_recv idx payload;
      match r with
      | None => bnop
      | Some (out, authedAt) =>
          (match out with Some f => on_auth idx (fun a => a <| a_lastTx := Some f |>) ;; sendBondEAP idx f now | None => bnop end) ;;
          b ← bget;
          bwhen (useKeyAsPassphrase (s_eap (b_session b))) (installBondEAPKeying idx ;; request_password idx now) ;;
          b ← bget;
          a ← at_ (auth b) idx;
          on_auth idx (fun a => a <| a_authed := authedAt |>) ;;
          bwhen (authedAt && negb (a_authed a)) (open_path idx)
      end
  end.

Definition retransmit_path (now : Z) (i : Z) : B unit :=
  b ← bget;
  a ← at_ (auth b) i;
  match a_lastTx a with
  | None => bnop
  | Some f => if a_authed a || (maxEAPRetx <=? a_retx a) then bnop else on_auth i (fun a => a <| a_retx ::= fun n => n + 1 |>) ;; sendBondEAP (u8 i) f now
  end.
Definition maybeRetransmitBondEAP (now : Z) : B unit := b ← bget; beach (retransmit_path now) (indices (auth b)).

(** ** Receiving *)

(** One value of feedback: its RTT is the path's, its flow attribute the application's. *)
Definition observe_rtt (now idx : Z) (fb : Feedback) : B unit :=
  (match fb with
   | RttEchoResponse _ timestamp delay => on_group (bonding.ObserveRTT idx (i64 (Timestamp.Sub now (NTPTime.toTimestamp timestamp) - delay)))
   | _ => bnop
   end) ;;
  match fb with
  | FlowAttribute json => on_session (handleFlowAttr json)
  | fb => on_session (on_flow (FeedFeedback_chk now fb))
  end.
Definition bondObserveRTT (now idx : Z) : list Feedback -> B unit := beach (observe_rtt now idx).

Definition handleBondSimple (now idx : Z) (bi : bondInbound) : B unit :=
  if isRTCP bi then
    on_peer idx (LearnRTCP (bi_src bi)) ;;
    b ← bget;
    match decodeFeedback (bi_data bi) (highestSent (b_session b)) with
    | None => bpanic
    | Some r => r ← on_session (attempt r); match r with Some fbs => bondObserveRTT now idx fbs | None => bnop end
    end
  else
    on_peer idx (LearnMedia (bi_src bi)) ;;
    b ← bget;
    let '(r, d) := decode (bi_data bi) (s_mdec (b_session b)) in
    on_session (modify (fun s => s <| s_mdec := d |>)) ;;
    r ← on_session (attempt r);
    match r with
    | None => bnop
    | Some pkt =>
        on_session (feedMedia now idx pkt) ;;
        b ← bget;
        bwhen (fecEnabled (b_session b)) (on_session (fecRecvRTP now (lastWireTS (s_mdec (b_session b))) pkt))
    end.

(** What a datagram of a path decodes to. *)
Definition path_decoded (now idx : Z) (b : bytes) : B unit :=
  x ← bget;
  r ← codec_read idx (maincodec.decodeMain pbkdf2 aes b (highestSent (b_session x)));
  r ← on_session (attempt r);
  match r with
  | None => bnop
  | Some (maincodec.DBuffer bn) => on_session (handleBufferNeg bn)
  | Some (maincodec.DMedia pkt) =>
      x ← bget;
      if negb (bondPathAuthed idx x) then bnop else
      on_session (feedMedia now idx pkt) ;;
      bwhen (fecEnabled (b_session x)) (ts ← codec_read idx (fun c => (lastWireTS (maincodec.dec c), c)); on_session (fecRecvRTP now ts pkt))
  | Some (maincodec.DFeedback fbs) => bondObserveRTT now idx fbs
  | Some maincodec.DNothing => bnop
  end.

Definition handleBondMain (now idx : Z) (bi : bondInbound) : B unit :=
  on_peer idx (LearnMedia (bi_src bi)) ;;
  on_peer idx (LearnRTCP (bi_src bi)) ;;
  oob ← codec_read idx (maincodec.peekOOB pbkdf2 aes (bi_data bi));
  match oob with
  | Some (proto, r) => r ← on_session (attempt r); match r with Some d => on_session (deliverOOB proto d) | None => bnop end
  | None =>
      b ← bget;
      e ← on_session (attempt (match auth b with [] => Ok None | _ => maincodec.peekEAPOL (bi_data bi) end));
      match e with
      | Some (Some payload) => handleBondEAP now idx payload
      | _ => path_decoded now idx (bi_data bi)
      end
  end.

Definition handleBondAdvGRE (now idx : Z) (data : bytes) : B unit :=
  '(kind, _, ka) ← on_session (gre_read (maincodec.peekControl pbkdf2 aes data));
  (match ka with Some Panic => bpanic | _ => bnop end) ;;
  match kind with
  | maincodec.controlKeepalive =>
      match ka with
      | Some r =>
          ka ← on_session (attempt r);
          match ka with
          | Some ka => on_session (applyRemoteCaps (gre.Caps ka) ;; when (gre.HasAdvExt ka && gre.aI (gre.AdvExt ka)) learn_advanced)
          | None => bnop
          end
      | None => bnop
      end
  | _ =>
      oob ← on_session (gre_read (maincodec.peekOOB pbkdf2 aes data));
      match oob with
      | Some (proto, r) => r ← on_session (attempt r); match r with Some d => on_session (deliverOOB proto d) | None => bnop end
      | None =>
          x ← bget;
          r ← on_session (gre_read (maincodec.decodeMain pbkdf2 aes data (highestSent (b_session x))));
          r ← on_session (attempt r);
          match r with
          | None => bnop
          | Some (maincodec.DBuffer bn) => on_session (handleBufferNeg bn)
          | Some (maincodec.DMedia pkt) => on_session (feedMedia now idx pkt)
          | Some (maincodec.DFeedback fbs) => x ← bget; bondObserveRTT now idx (filterAdvEcho fbs (b_session x))
          | Some maincodec.DNothing => bnop
          end
      end
  end.

(** [fecHandleRecovered] on the Advanced profile: the recovered datagram goes through the handler of a session with one path. *)
Definition recovered_adv (now : Z) (rs : list fecm.Recovered) : B unit :=
  beach (fun r => on_session (count_recovered ;; handle_adv pbkdf2 aes fuel now (fecm.r_Payload r))) rs.

Definition fecOnRecvFEC (now : Z) (body : bytes) : B unit :=
  b ← bget;
  if is_adv (b_session b) then rs ← on_session (fec_push_fec body); recovered_adv now rs else on_session (fecOnRecvFEC_rtp now body).

Definition handleBondFECControl (now idx : Z) (p : adv.Parsed) : B unit :=
  b ← bget;
  let fec_message (payload : bytes) : B unit := body ← lift (fec_body payload (b_session b)); match body with Some body => fecOnRecvFEC now body | None => bnop end in
  match fecReasm b with
  | None => bnop
  | Some rs =>
      match rs !! Z.to_nat idx with
      | None => bnop
      | Some r =>
          if negb (adv.o_FirstFrag p) || negb (adv.o_LastFrag p) then
            let '(full, r) := fec_push (adv.o_Seq p) (fecFragRole (adv.o_FirstFrag p) (adv.o_LastFrag p)) (adv.o_Payload p) r in
            modify (fun b => b <| fecReasm ::= fmap (<[Z.to_nat idx := r]>) |>) ;;
            match full with Some full => fec_message full | None => bnop end
          else fec_message (adv.o_Payload p)
      end
  end.

Definition handleBondAdv (now idx : Z) (bi : bondInbound) : B unit :=
  on_peer idx (LearnMedia (bi_src bi)) ;;
  on_peer idx (LearnRTCP (bi_src bi)) ;;
  let data := bi_data bi in
  if negb (adv_framed data) then handleBondAdvGRE now idx data else
  match adv.Parse data with
  | Panic => bpanic
  | Err _ => handleBondAdvGRE now idx data
  | Ok p =>
      if adv.o_EncType p =? TypeGREMain then handleBondAdvGRE now idx (adv.o_Payload p) else
      b ← bget;
      if fecEnabled (b_session b) && (adv.o_EncType p =? adv.TypeControl) then handleBondFECControl now idx p else
      r ← on_session (adv_call (fun c => let '(r, c) := advcodec.decodeParsed pbkdf2 aes p c in (r.2, c)));
      match r with
      | None => bnop
      | Some d =>
          (match d with
           | inl pkt => on_session (feedMedia now idx pkt) ;; bwhen (fecEnabled (b_session b)) (rs ← on_session (fec_push_media (Seq pkt) 0 0 0 data); recovered_adv now rs)
           | inr fbs => bondObserveRTT now idx (filterAdvEcho fbs (b_session b))
           end) ;;
          on_session (cap ← adv_call (fun c => let '(a, c) := advcodec.takePeerAdvCap c in (Ok a, c)); match cap with Some (true, true) => learn_advanced | _ => nop end)
      end
  end.

(** The path of a sender that an address belongs to. *)
Fixpoint path_of (src : AddrPort) (i : Z) (rs : list (AddrPort * AddrPort)) : option Z :=
  match rs with [] => None | r :: rs => if addrPortEqual src r.2 then Some (u8 i) else path_of src (i + 1) rs end.
Definition bondPathForSrc (src : AddrPort) (b : Bond) : option Z := if negb (IsValid src) then None else path_of src 0 (remotes b).

Definition handleBondInbound (now : Z) (bi : bondInbound) : B unit :=
  b ← bget;
  match (if s_sender (b_session b) then bondPathForSrc (bi_src bi) b else Some (bi_idx bi)) with
  | None => bnop
  | Some idx =>
      if zlen (peers b) <=? idx then bnop else
      on_peer idx (peer.Observe now) ;;
      on_session (modify (fun s => s <| s_peer ::= peer.Observe now |>)) ;;
      on_group (bonding.Observe idx now) ;;
      if is_main (b_session b) then handleBondMain now idx bi
      else if is_adv (b_session b) then handleBondAdv now idx bi
      else handleBondSimple now idx bi
  end.

(** ** Media *)

(** One datagram to a path. *)
Definition send_path (idx : Z) (pkt : MediaPacket) (dg : bytes) : B unit :=
  on_group (bonding.CountSent idx (zlen (Payload pkt)) (Retransmit pkt)) ;;
  b ← bget;
  r ← at_ (remotes b) idx;
  conn_write 0 SockMedia dg r.1 ;; bnop.

(** The loop over the duplicate paths; [send] is given an index. *)
Definition fan_media (now : Z) (send : Z -> B unit) : B unit :=
  b ← bget;
  beach (fun i => b ← bget; bwhen (bonding.ShouldDuplicate (b_group b) (u8 i) now && bondPathAuthed (u8 i) b) (send i)) (indices (remotes b)).

(** The election of a weighted path. *)
Definition elect (now : Z) (send : Z -> B unit) : B unit :=
  b ← bget;
  let '((idx, ok), g) := bonding.SelectWeighted now (b_group b) in
  let ok := ok && (idx <? zlen (remotes b)) && bondPathAuthed idx b in
  modify (fun b => b <| b_group := g |> <| lastWeighted := idx |> <| lastWeightedOK := ok |>) ;;
  bwhen ok (send idx).

(** [fanBondPaths]: the media addresses the FEC of the last datagram goes to. *)
Definition fanBondPaths (now : Z) (write : AddrPort -> B unit) : B unit :=
  b ← bget;
  beach (fun i => b ← bget; bwhen (bonding.ShouldDuplicate (b_group b) (u8 i) now) (r ← at_ (remotes b) i; write r.1)) (indices (remotes b)) ;;
  b ← bget;
  bwhen (lastWeightedOK b && (lastWeighted b <? zlen (remotes b))) (r ← at_ (remotes b) (lastWeighted b); write r.1).

Definition writeBondFECControl (now : Z) (body : bytes) (first last : bool) : B unit :=
  r ← on_session (adv_call (advcodec.frameControlFrag [] body first last (advCtrlTS now)));
  match r with None => bnop | Some dg => fanBondPaths now (fun media => conn_write 0 SockMedia dg media ;; bnop) end.

Fixpoint write_bond_fragments (n : nat) (now off : Z) (body : bytes) : B unit :=
  match n with
  | O => bnop
  | S n =>
      if negb (off <? zlen body) then bnop else
      let end_ := off + fecMaxCtrlBody in
      let end_ := if zlen body <? end_ then zlen body else end_ in
      part ← lift (slc body off end_);
      writeBondFECControl now part (off =? 0) (end_ =? zlen body) ;;
      write_bond_fragments n now (off + fecMaxCtrlBody) body
  end.

Definition sendBondFECSeparate (now : Z) (fp : fecm.Packet) : B unit :=
  b ← bget;
  let s := b_session b in
  let row := is_row fp in
  let seq := if row then fecRowSeq (s_fec s) else fecColSeq (s_fec s) in
  let off := if row then fecRowPortOffset else fecColumnPortOffset in
  on_session (modify (fun s => s <| s_fec ::= fun f => if row then f <| fecRowSeq := u16 (seq + 1) |> else f <| fecColSeq := u16 (seq + 1) |> |>)) ;;
  match packet_AppendTo (mkPacket (mkHeader 2 false false 0 false fecPT seq 0 (c_SSRC (s_cfg s)) [] 0 []) (fecm.pk_Data fp) 0) (mkSlice [] []) with
  | (Ok _, dg) => fanBondPaths now (fun media => conn_write 0 SockMedia (data dg) (mkAddrPort (ap_addr media) (u16 (ap_port media + off))) ;; bnop)
  | (Err _, _) => bnop
  | (Panic, _) => bpanic
  end.

Definition sendBondFEC (now : Z) (fp : fecm.Packet) : B unit :=
  b ← bget;
  match c_FEC (s_cfg (b_session b)) with
  | None => bpanic
  | Some f =>
      if SeparatePorts f then sendBondFECSeparate now fp else
      let '(rowCI, colCI) := fecControlIndices (b_session b) in
      let body := advctrl.BuildControl [] (if is_row fp then rowCI else colCI) (fecm.pk_Data fp) in
      if zlen body <=? fecMaxCtrlBody then writeBondFECControl now body true true else write_bond_fragments (length body) now 0 body
  end.

Definition bond_fecOnSend (now : Z) (pkt : MediaPacket) (dg : bytes) : B unit :=
  if Retransmit pkt then bnop else fps ← on_session (fec_parity pkt dg); beach (sendBondFEC now) fps.

(** A path's own codec. *)
Definition own_codec (i : Z) (pkt : MediaPacket) : B (option bytes) := fun b =>
  match codecs b !! Z.to_nat i with
  | None => (Panic, b)
  | Some c =>
      let '((r, c), ds) := maincodec.encodeMainMedia pbkdf2 aes [] pkt (draws (s_world (b_session b))) c in
      on_session (attempt r) (b <| codecs ::= <[Z.to_nat i := c]> |> <| b_session ::= fun s => s <| s_world ::= fun w => w <| draws := ds |> |> |>)
  end.

Definition sendBondMediaPerPath (now : Z) (pkt : MediaPacket) : B unit :=
  let send i := r ← own_codec (u8 i) pkt; match r with None => bnop | Some dg => send_path (u8 i) pkt dg end in
  fan_media now send ;; elect now send ;; on_session (sent_at now).

Definition sendBondMedia (now : Z) (pkt : MediaPacket) : B unit :=
  b ← bget;
  match codecs b with
  | _ :: _ => sendBondMediaPerPath now pkt
  | [] =>
      r ← on_session (encode_media pbkdf2 aes pkt);
      match r with
      | None => bnop
      | Some dg =>
          fan_media now (fun i => on_group (bonding.CountSent (u8 i) (zlen (Payload pkt)) (Retransmit pkt)) ;; b ← bget; r ← at_ (remotes b) i; conn_write 0 SockMedia dg r.1 ;; bnop) ;;
          elect now (fun i => send_path i pkt dg) ;;
          on_session (sent_at now) ;;
          b ← bget;
          bwhen (fecEnabled (b_session b) && negb (advInMainWindow (b_session b))) (bond_fecOnSend now pkt dg)
      end
  end.

(** ** Feedback *)

(** Whether feedback is tunnelled: the codec of [bondGRECodec]. *)
Definition tunnelled (s : Session) : bool := is_main s || match s_advGRE s with Some _ => true | None => false end.

Definition encodeBondFeedback (lead : rtcp.Packet) (fbs : list Feedback) : B (option bytes) :=
  b ← bget;
  let s := b_session b in
  on_session (
    if is_main s then main_call (maincodec.encodeMainFeedback pbkdf2 aes [] lead fbs (c_Bitmask (s_cfg s)))
    else match s_advGRE s with
    | Some _ => gre_call (maincodec.encodeMainFeedback pbkdf2 aes [] lead fbs (c_Bitmask (s_cfg s)))
    | None => r ← attempt (encodeFeedback (reslice (rtcpBuf s)) lead (c_SSRC (s_cfg s)) (c_CNAME (s_cfg s)) fbs (c_Bitmask (s_cfg s))); mret (data <$> r)
    end).

Definition writeBondFeedback (conn : Z) (dg : bytes) (simpleRTCP singlePort : AddrPort) : B bool :=
  b ← bget; if tunnelled (b_session b) then conn_write conn SockMedia dg singlePort else conn_write conn SockRTCP dg simpleRTCP.

Definition keep_buffer (dg : bytes) : B unit := on_session (modify (fun s => s <| rtcpBuf := mkSlice dg [] |>)).

(** A datagram to every path whose return address is known: whether one was written. *)
Fixpoint fan_known (write : Z -> AddrPort -> B bool) (l : list Z) (sent : bool) : B bool :=
  match l with
  | [] => mret sent
  | i :: l =>
      b ← bget;
      p ← at_ (peers b) i;
      if negb (IsValid (RTCP p)) then fan_known write l sent else
      ok ← write i (RTCP p);
      fan_known write l (sent || ok)
  end.

Definition fanReceiverFeedback (fbs : list Feedback) (now : Z) : B unit :=
  lead ← on_session receiverReport;
  r ← encodeBondFeedback lead fbs;
  match r with
  | None => bnop
  | Some dg =>
      keep_buffer dg ;;
      b ← bget;
      sent ← fan_known (fun i rtcp => writeBondFeedback i dg rtcp rtcp) (indices (peers b)) false;
      bwhen sent (on_session (sent_at now))
  end.

(** [addrKnown], which indexes the peers: [None] is the panic of an index out of range. *)
Definition addr_known (b : Bond) (i : Z) : option bool := (fun p => IsValid (RTCP p)) <$> peers b !! Z.to_nat i.

(** [Group.SelectNackPath] with a predicate that may panic; it is asked only about the paths the loops get to. *)
Fixpoint pick_known (candidate : bonding.Path -> bool) (known : Z -> option bool) (better : bonding.Path -> bonding.Path -> bool) (ps : list bonding.Path) (best : option bonding.Path) : option (option bonding.Path) :=
  match ps with
  | [] => Some best
  | p :: ps =>
      ok ← (if candidate p then known (bonding.Index p) else Some false);
      let best := if (ok : bool) then match best with None => Some p | Some b => if better p b then Some p else Some b end else best in
      pick_known candidate known better ps best
  end.
Definition select_nack_path (now : Z) (known : Z -> option bool) (g : bonding.Group) : option (Z * bool) :=
  best ← pick_known (fun p => bonding.Alive g (bonding.Index p) now) known (fun p b => bonding.preferred p b g) (bonding.paths g) None;
  match best with
  | Some best => Some (bonding.Index best, true)
  | None =>
      best ← pick_known bonding.seen known (fun p b => Timestamp.After (bonding.lastSeen p) (bonding.lastSeen b)) (bonding.paths g) None;
      match best with
      | Some best => Some (bonding.Index best, true)
      | None => Some (0, false)
      end
  end.

Definition routeReceiverNacks (fbs : list Feedback) (now : Z) : B unit :=
  b ← bget;
  '(idx, ok) ← (match select_nack_path now (addr_known b) (b_group b) with Some r => mret r | None => bpanic end);
  if negb ok then bnop else
  p ← at_ (peers b) idx;
  if negb (IsValid (RTCP p)) then bnop else
  lead ← on_session receiverReport;
  r ← encodeBondFeedback lead fbs;
  match r with
  | None => bnop
  | Some dg => keep_buffer dg ;; writeBondFeedback idx dg (RTCP p) (RTCP p) ;; on_session (sent_at now)
  end.

Definition is_echo (fb : Feedback) : bool := match fb with RttEchoRequest _ _ => true | _ => false end.

Definition sendBondFeedback (fbs : list Feedback) (now : Z) : B unit :=
  b ← bget;
  if s_sender (b_session b) then
    r ← encodeBondFeedback (senderReport WallNTP now (b_session b)) fbs;
    match r with
    | None => bnop
    | Some dg =>
        keep_buffer dg ;;
        beach (fun i => b ← bget; r ← at_ (remotes b) i; writeBondFeedback 0 dg r.2 r.1 ;; bnop) (indices (remotes b)) ;;
        on_session (sent_at now)
    end
  else
    let echoes := List.filter is_echo fbs in
    let nacks := List.filter (fun fb => negb (is_echo fb)) fbs in
    bwhen (negb (zlen echoes =? 0)) (fanReceiverFeedback echoes now) ;;
    bwhen (negb (zlen nacks =? 0)) (routeReceiverNacks nacks now).

Definition sendBondKeepalive (now : Z) : B unit :=
  b ← bget;
  bwhen (negb (zlen (auth b) =? 0)) (maybeRetransmitBondEAP now) ;;
  let echo := [RttEchoRequest 0 (NTPTimeFromTimestamp now)] in
  if s_sender (b_session b) then sendBondFeedback echo now else fanReceiverFeedback echo now.

(** [sendKeepalive] and [sendFeedback] of a bonded session *)
Definition bond_keepalive (now : Z) : B unit := b ← bget; if OneWay (s_cfg (b_session b)) then bnop else sendBondKeepalive now.
Definition bond_feedback (fbs : list Feedback) (now : Z) : B unit := b ← bget; if OneWay (s_cfg (b_session b)) then bnop else sendBondFeedback fbs now.

Definition writeBondLQM (dg : bytes) (mediaSock : bool) (now : Z) : B unit :=
  b ← bget;
  sent ← fan_known (fun i rtcp => conn_write i (if mediaSock then SockMedia else SockRTCP) dg rtcp) (indices (peers b)) false;
  bwhen sent (on_session (sent_at now)).

Definition bond_sendLQM (now : Z) : B unit :=
  b ← bget;
  if Timestamp.Sub now (adapt.lqmLast (s_lqm (b_session b))) <? Millisecond then bnop else
  r ← on_session (encodeLQM pbkdf2 aes now);
  match r with None => bnop | Some (dg, mediaSock) => writeBondLQM dg mediaSock now end.

(** ** The application's commands *)

(** [SetPathWeight], which a receiver refuses; [AddPath], [AddPathConn] and [RemovePath], which a session whose sockets are shared refuses. *)
Definition SetPathWeight (path weight : Z) (b : Bond) : answer weightSet :=
  if negb (s_sender (b_session b)) then Refused ErrOOBUnsupported else
  match closeErr (b_session b) with Some _ => Refused (closeReason (b_session b)) | None => Answer (mkWeightSet path weight) end.
Definition peer_command (ps : peerSet) (b : Bond) : answer peerSet :=
  if injected b then Refused ErrOOBUnsupported else
  match closeErr (b_session b) with Some _ => Refused (closeReason (b_session b)) | None => Answer ps end.
Definition AddPath (index : Z) (remote : AddrPort * AddrPort) (weight priority : Z) : Bond -> answer peerSet := peer_command (mkPeerSet false index remote false weight priority).
Definition AddPathConn (index weight priority : Z) : Bond -> answer peerSet := peer_command (mkPeerSet false index (AddrPort_zero, AddrPort_zero) true weight priority).
Definition RemovePath (index : Z) : Bond -> answer peerSet := peer_command (mkPeerSet true index (AddrPort_zero, AddrPort_zero) false 0 0).

(** ** The loop *)

Definition tickBond (now : Z) : B unit := on_group (fun g => (bonding.Tick now g).2).

Fixpoint bond_outputs (n : nat) (now : Z) (fbs : list Feedback) : B (list Feedback) :=
  match n with
  | O => mret fbs
  | S n =>
      o ← on_session poll_output;
      match o with
      | None => mret fbs
      | Some (SendMedia _ pkt) =>
          on_session (s ← get; when (negb (Retransmit pkt) && seqAfter (Seq pkt) (highestSent s)) (modify (fun s => s <| highestSent := Seq pkt |>))) ;;
          sendBondMedia now pkt ;;
          bond_outputs n now fbs
      | Some (SendFeedback _ fb) => bond_outputs n now (fbs ++ [fb])
      | Some (SetTimer id deadline) => on_session (modify (fun s => s <| timers ::= <[id := deadline]> |>)) ;; bond_outputs n now fbs
      | Some (ClearTimer id) => on_session (modify (fun s => s <| timers ::= delete id |>)) ;; bond_outputs n now fbs
      end
  end.

Definition bond_drain (now : Z) : B unit :=
  b ← bget;
  fbs ← bond_outputs (S (length (pending (outputs (s_flow (b_session b)))))) now [];
  b ← bget;
  bwhen (negb (zlen fbs =? 0) && authed (s_eap (b_session b))) (bond_feedback fbs now) ;;
  on_session (s ← get; drain_events (S (length (pending (events (s_flow s)))))).

(** A bonded session does not rebind its socket. *)
Definition bond_tick (now : Z) : B bool :=
  alive ← on_session (tick_alive now false);
  if negb alive then mret false else
  alive ← on_session (retransmit_eap now);
  if negb alive then mret false else
  tickBond now ;;
  bond_keepalive now ;;
  b ← bget;
  bwhen (adaptEmitsLQM (b_session b)) (bond_sendLQM now) ;;
  mret true.

Definition bond_start (now : Z) : B unit :=
  b ← bget;
  bwhen (s_sender (b_session b) || s_announce (b_session b)) (bond_keepalive now) ;;
  on_session (modify (fun s => s <| s_lqm ::= fun q => adapt.mkLqmState (adapt.lqmPrev q) now (adapt.rxBytes q) (adapt.lqmPrevBytes q) (adapt.rxRetransBytes q) (adapt.lqmPrevRetransBytes q) (adapt.fecRecovered q) (adapt.lqmPrevFEC q) (adapt.lqmSeq q) |>)) ;;
  on_session (maybeStartEAP now) ;;
  maybeStartBondEAP now.

Inductive bond_input :=
  | BIn (bi : bondInbound)
  | BFEC (body : bytes)
  | BWeight (w : weightSet)
  | BPeer (ps : peerSet)
  | BCtrl (c : ctrlSet)
  | BApp (p : bytes)
  | BBlock (p : bytes) (seq sourceTime : option Z)
  | BOOB (proto : Z) (d : bytes)
  | BFlowAttr (json : bytes)
  | BTimer
  | BTick.

Definition bond_handle (now : Z) (i : bond_input) : B unit :=
  match i with
  | BIn bi => handleBondInbound now bi ;; bond_drain now
  | BFEC body => fecOnRecvFEC now body ;; bond_drain now
  | BWeight w => on_group (bonding.SetWeight (ws_path w) (ws_weight w))
  | BPeer ps => applyPeerCmd ps
  | BCtrl c => on_session (applyCtrl c)
  | BApp p => b ← bget; if authed (s_eap (b_session b)) then on_session (pushApp ntpNow now p) ;; bond_drain now else bnop
  | BBlock p seq st => b ← bget; if authed (s_eap (b_session b)) then on_session (push_block now p FragStandalone seq st) ;; bond_drain now else bnop
  | BOOB proto d => on_session (sendOOB pbkdf2 aes now proto d) ;; bond_drain now
  | BFlowAttr json => on_session (sendFlowAttr now json) ;; bond_drain now
  | BTimer => on_session (fireTimers visit now) ;; bond_drain now
  | BTick => bnop
  end.
Definition bond_step (now : Z) (i : bond_input) : B bool := match i with BTick => bond_tick now | _ => bond_handle now i ;; mret true end.

Fixpoint bond_loop (ins : list (Z * bond_input)) : B unit :=
  match ins with [] => bnop | (now, i) :: ins => more ← bond_step now i; if (more : bool) then bond_loop ins else bnop end.
End bond.
End sessionbond.
