(* ===== verification/SessionBondFan.v ===== *)
(** * Where the datagrams of a bonded session go

    Media: one datagram to every authenticated duplicate path and to at most one weighted path.  Feedback of a receiver: retransmission requests to the one path the
    group selects, echo requests to every path whose return address is known. *)

From stdpp Require Import gmap.
From S2P Require Import Prelude Bytes Clock Wire Rtp Rtcp FlowTypes FlowNew Flow Split Gre Peer Psk Adv AdvCtrl Adapt Fec Bonding SimpleCodec AdvCodec MainCodec Eap EapState EapClient EapServer Session SessionMain SessionAdv SessionLoop SessionBond.

Module sessionbondfan.
Import peer session sessionmain sessionadv sessionloop sessionbond.

(** ** The group while datagrams are counted *)

(** Counting and electing leave what decides duplication. *)
Definition kin (p q : bonding.Path) : Prop := bonding.Index q = bonding.Index p /\ bonding.Weight q = bonding.Weight p /\ bonding.seen q = bonding.seen p /\ bonding.lastSeen q = bonding.lastSeen p.
Definition group_kin (g g' : bonding.Group) : Prop := bonding.steps kin g g' /\ bonding.timeout g' = bonding.timeout g /\ bonding.dupGrace g' = bonding.dupGrace g.

#[export] Instance kin_preorder : PreOrder kin.
Proof. split; [done|]. intros p q r. unfold kin. intuition congruence. Qed.
#[export] Instance group_kin_preorder : PreOrder group_kin.
Proof.
  split; [intros g; split; [by apply bonding.Forall2_same|done]|]. intros g1 g2 g3 (H1 & T1 & D1) (H2 & T2 & D2). split; [|split; congruence]. unfold bonding.steps in *. by etransitivity.
Qed.
Lemma count_kin i k r g : group_kin g (bonding.CountSent i k r g).
Proof. split; [|done]. apply bonding.update_path_steps; [done|]. intros p _. by destruct r. Qed.

Lemma find_kin i ps qs : Forall2 kin ps qs -> match bonding.find_path i ps, bonding.find_path i qs with Some p, Some q => kin p q | None, None => True | _, _ => False end.
Proof. induction 1 as [|p q ps qs Hpq _ IH]; [done|]. cbn. destruct (Hpq) as (-> & _). by destruct (_ =? i). Qed.
Lemma duplicate_kin g g' i now : group_kin g g' -> bonding.ShouldDuplicate g' i now = bonding.ShouldDuplicate g i now.
Proof.
  intros (H & T & D). unfold bonding.ShouldDuplicate, bonding.path. pose proof (find_kin i _ _ H) as HF. destruct (bonding.find_path i (bonding.paths g)) as [p|], (bonding.find_path i (bonding.paths g')) as [q|]; try done.
  destruct HF as (_ & HW & HS & HL). unfold bonding.duplicable, bonding.liveWithin. by rewrite HW, HS, HL, T, D.
Qed.

(** The elected path carries weight, so it is no duplicate path. *)
Lemma elected_weight now g i g' : bonding.SelectWeighted now g = ((i, true), g') -> exists p, p ∈ bonding.paths g /\ bonding.Index p = i /\ bonding.active g now p = true.
Proof.
  unfold bonding.SelectWeighted. destruct (negb _); [done|]. destruct (bonding.bestWeighted g now) as [[k b]|] eqn:Eb; [|done]. destruct (bonding.wCount b <=? 0).
  - destruct (bonding.bestWeighted (bonding.refill now g) now) as [[k1 b1]|] eqn:E1; [|done]. intros [= <- _]. apply bonding.bestWeighted_some in E1 as (E1 & Ha & _). apply list_elem_of_lookup_2, bonding.refilled_spec in E1 as (q & Hq & ->).
    exists q. split; [done|]. destruct (bonding.active g now q) eqn:Eq; [done|]. split; [done|]. by rewrite <-Eq.
  - intros [= <- _]. apply bonding.bestWeighted_some in Eb as (Eb & Ha & _). exists b. split; [by apply list_elem_of_lookup_2 in Eb|done].
Qed.
Lemma elected_no_duplicate now g i g' : bonding.wf g -> bonding.SelectWeighted now g = ((i, true), g') -> bonding.ShouldDuplicate g i now = false.
Proof.
  intros Hw (p & Hp & Hi & Ha)%elected_weight. unfold bonding.ShouldDuplicate, bonding.path. rewrite (bonding.find_path_spec i _ p Hw Hp Hi). apply andb_true_iff in Ha as [Ha _]. apply Z.ltb_lt in Ha. unfold bonding.WeightDuplicate. by destruct (Z.eqb_spec (bonding.Weight p) 0); [lia|].
Qed.

(** ** One datagram to each of some paths *)

Definition copy (b : Bond) (dg : bytes) (i : Z) : datagram := mkDatagram 0 SockMedia (default (AddrPort_zero, AddrPort_zero) (remotes b !! Z.to_nat i)).1 dg.

(** The session is open, on its one socket. *)
Definition ready (b : Bond) : Prop := conns b = [true] /\ closeErr (b_session b) = None /\ counted (s_world (b_session b)) = [].

(** From [b] to [b'] the datagram went to the paths [l], in order, and nothing else that sending depends on changed. *)
Record fanned (dg : bytes) (b : Bond) (l : list Z) (b' : Bond) : Prop := {
  fa_ready : ready b -> ready b';
  fa_remotes : remotes b' = remotes b;
  fa_auth : auth b' = auth b;
  fa_fec : fecEnabled (b_session b') = fecEnabled (b_session b);
  fa_written : written (s_world (b_session b')) = reverse (copy b dg <$> l) ++ written (s_world (b_session b)) }.

Lemma fanned_nil dg b b' : ready b' -> remotes b' = remotes b -> auth b' = auth b -> fecEnabled (b_session b') = fecEnabled (b_session b) -> written (s_world (b_session b')) = written (s_world (b_session b)) -> fanned dg b [] b'.
Proof. by split. Qed.
Lemma fanned_app dg b1 l1 b2 l2 b3 : fanned dg b1 l1 b2 -> fanned dg b2 l2 b3 -> fanned dg b1 (l1 ++ l2) b3.
Proof.
  intros [H1 H2 H3 H4 H5] [G1 G2 G3 G4 G5]. split; [auto|congruence..|]. rewrite G5, H5, fmap_app, reverse_app, (assoc_L (++)). do 2 f_equal. f_equal. apply list_fmap_ext. intros k i _. unfold copy. by rewrite H2.
Qed.
Lemma authed_fanned dg b l b' i : fanned dg b l b' -> bondPathAuthed i b' = bondPathAuthed i b.
Proof. intros H. unfold bondPathAuthed. by rewrite (fa_auth _ _ _ _ H). Qed.

(** An operation of the session that neither closes it nor counts a packet. *)
Lemma on_open {A} (x : M A) b r s : x (b_session b) = (Ok r, s) -> closeErr s = None -> counted (s_world s) = [] ->
  exists b', on_session x b = (Ok r, b') /\ (conns b', remotes b', peers b', auth b', codecs b', b_group b') = (conns b, remotes b, peers b, auth b, codecs b, b_group b) /\ b_session b' = s <| s_world ::= fun w => w <| counted := [] |> |>.
Proof. intros E He Hn. unfold on_session. rewrite E. unfold close_sockets, count_recv. cbn. rewrite He. eexists. split; [done|]. cbn. by rewrite Hn. Qed.

Lemma ready_write b k dst dg : ready b -> exists ok b', conn_write 0 k dg dst b = (Ok ok, b') /\ ready b' /\ remotes b' = remotes b /\ auth b' = auth b /\ b_group b' = b_group b /\
  fecEnabled (b_session b') = fecEnabled (b_session b) /\ written (s_world (b_session b')) = mkDatagram 0 k dst dg :: written (s_world (b_session b)).
Proof.
  intros (Hc & He & Hn). assert (E : conn_write 0 k dg dst b = on_session (write_on 0 k dg dst) b) by (unfold conn_write, mbind, sres_bind, bget, at_; rewrite Hc; reflexivity). rewrite E.
  assert (HW : exists ok s, write_on 0 k dg dst (b_session b) = (Ok ok, s) /\ closeErr s = None /\ counted (s_world s) = [] /\ fecEnabled s = fecEnabled (b_session b) /\ written (s_world s) = mkDatagram 0 k dst dg :: written (s_world (b_session b))).
  { unfold write_on. destruct (faults _); cbn; eexists _, _; split_and!; reflexivity || done. }
  destruct HW as (ok & s & Ew & H1 & H2 & H3 & H4). destruct (on_open _ b ok s Ew H1 H2) as (b' & Eb & [= G1 G2 G3 G4 G5 G6] & G7). exists ok, b'. split; [done|]. unfold ready. rewrite G7, G1. by split_and!.
Qed.

Lemma send_path_fans i pkt dg b : ready b -> 0 <= i < zlen (remotes b) -> exists b', send_path i pkt dg b = (Ok tt, b') /\ fanned dg b [i] b' /\ b_group b' = bonding.CountSent i (zlen (Payload pkt)) (Retransmit pkt) (b_group b).
Proof.
  intros Hr Hi. destruct (lookup_lt_is_Some_2 (remotes b) (Z.to_nat i)) as [r Er]; [unfold zlen in Hi; lia|]. unfold send_path, mbind, sres_bind, on_group, modify, bget, at_. cbn.
  set (b1 := b <| b_group ::= _ |>). assert (H1 : ready b1) by exact Hr. rewrite Er. cbn. destruct (ready_write b1 SockMedia r.1 dg H1) as (ok & b' & E & H2 & H3 & H4 & H5 & H6 & H7). rewrite E. exists b'. split; [done|]. split; [|by rewrite H5]. split; try done. rewrite H7. cbn. unfold copy. by rewrite Er.
Qed.

(** ** Media *)

(** The paths every datagram is duplicated to. *)
Definition duplicates (now : Z) (b : Bond) : list Z := List.filter (fun i => bonding.ShouldDuplicate (b_group b) i now && bondPathAuthed i b) (indices (remotes b)).

Definition sends (dg : bytes) (send : Z -> B unit) : Prop := forall i b, ready b -> 0 <= i < zlen (remotes b) -> zlen (remotes b) <= 256 ->
  exists b', send i b = (Ok tt, b') /\ fanned dg b [i] b' /\ group_kin (b_group b) (b_group b').

Lemma fan_fans dg now send b0 l b l0 : sends dg send -> zlen (remotes b0) <= 256 -> ready b -> fanned dg b0 l0 b -> group_kin (b_group b0) (b_group b) -> (forall i, i ∈ l -> 0 <= i < zlen (remotes b0)) ->
  exists b', beach (fun i => b ← bget; bwhen (bonding.ShouldDuplicate (b_group b) (u8 i) now && bondPathAuthed (u8 i) b) (send i)) l b = (Ok tt, b') /\ ready b' /\
    fanned dg b0 (l0 ++ List.filter (fun i => bonding.ShouldDuplicate (b_group b0) i now && bondPathAuthed i b0) l) b' /\ group_kin (b_group b0) (b_group b').
Proof.
  intros Hs Hn. revert b l0. induction l as [|i l IH]; intros b l0 Hr Hf Hg Hl; cbn [beach List.filter]; [exists b; by rewrite app_nil_r|].
  assert (Hi : 0 <= i < zlen (remotes b0)) by (apply Hl, elem_of_cons; by left). assert (Hl' : forall j, j ∈ l -> 0 <= j < zlen (remotes b0)) by (intros j Hj; apply Hl, elem_of_cons; by right).
  assert (Hu : u8 i = i) by (unfold u8, uwrap; apply Z.mod_small; change (2 ^ 8) with 256; lia). unfold mbind, sres_bind, bget. cbn beta iota. rewrite Hu, (duplicate_kin _ _ i now Hg), (authed_fanned _ _ _ _ i Hf).
  destruct (_ && _); cbn [bwhen]; [|by apply IH]. destruct (Hs i b Hr) as (b1 & E & H1 & H2); [by rewrite (fa_remotes _ _ _ _ Hf)..|]. rewrite E. destruct (IH b1 (l0 ++ [i])) as (b' & E' & H3 & H4 & H5); [by apply (fa_ready _ _ _ _ H1)|by eapply fanned_app|by etransitivity|done|].
  exists b'. rewrite <-app_assoc in H4. done.
Qed.

(** The elected path, if any. *)
Lemma elect_elects dg now send b : sends dg send -> zlen (remotes b) <= 256 -> ready b -> Forall (fun i => 0 <= i) (bonding.Index <$> bonding.paths (b_group b)) -> exists b' e, elect now send b = (Ok tt, b') /\ ready b' /\ fanned dg b (option_list e) b' /\
  forall i, e = Some i -> 0 <= i < zlen (remotes b) /\ bondPathAuthed i b = true /\ exists g, bonding.SelectWeighted now (b_group b) = ((i, true), g).
Proof.
  intros Hs Hn Hr HG. unfold elect, mbind, sres_bind, bget. cbn beta iota. destruct (bonding.SelectWeighted now (b_group b)) as [[i ok] g] eqn:Es. cbn beta iota zeta. unfold modify at 1. cbn beta iota. set (b1 := b <| b_group := g |> <| lastWeighted := i |> <| lastWeightedOK := _ |>).
  assert (H0 : fanned dg b [] b1) by (by apply fanned_nil). assert (Hr1 : ready b1) by exact Hr. destruct (ok && _ && _) eqn:Eo; cbn [bwhen]; [|exists b1, None; done].
  apply andb_true_iff in Eo as [Eo Ha]. apply andb_true_iff in Eo as [-> Hi%Z.ltb_lt]. assert (Hz : 0 <= i) by (destruct (elected_weight _ _ _ _ Es) as (p & Hp & <- & _); rewrite Forall_forall in HG; by apply HG, list_elem_of_fmap_2).
  destruct (Hs i b1 Hr1) as (b' & E & H1 & _); [done..|]. exists b', (Some i). rewrite E. split; [done|]. split; [by apply (fa_ready _ _ _ _ H1)|]. split; [exact (fanned_app _ _ _ _ _ _ H0 H1)|]. intros j [= <-]. split; [done|]. split; [done|]. by exists g.
Qed.

(** Encoding sends nothing. *)
Definition outside (s : Session) : option err * list (Z * Z) * bool * list datagram := (closeErr s, counted (s_world s), fecEnabled s, written (s_world s)).
Definition quiet {A} (x : M A) : Prop := forall s, outside (x s).2 = outside s.

Lemma quiet_bind {A C} (x : M A) (k : A -> M C) : quiet x -> (forall r, quiet (k r)) -> quiet (x ≫= k).
Proof. intros Hx Hk s. unfold mbind, sres_bind. specialize (Hx s). destruct (x s) as [[r|e|] s1]; [|done..]. by rewrite (Hk r s1). Qed.
Lemma quiet_ret {A} (r : A) : quiet (mret r).
Proof. done. Qed.
Lemma quiet_attempt {E A} (r : res E A) : quiet (attempt r).
Proof. by destruct r. Qed.
Lemma quiet_modify f : (forall s, outside (f s) = outside s) -> quiet (modify f).
Proof. intros H s. apply H. Qed.
Lemma quiet_get {C} (k : Session -> M C) : (forall s, quiet (k s)) -> quiet (get ≫= k).
Proof. intros Hk s. apply (Hk s). Qed.
Lemma quiet_main f : quiet (main_call f).
Proof. intros s. unfold main_call. destruct (s_main s) as [c|]; [|done]. destruct (f _ c) as [[r c'] ds]. by rewrite (quiet_attempt r). Qed.
Lemma quiet_gre f : quiet (gre_call f).
Proof. intros s. unfold gre_call. destruct (s_advGRE s) as [c|]; [|done]. destruct (f _ c) as [[r c'] ds]. by rewrite (quiet_attempt r). Qed.

Lemma encode_quiet pbkdf2 aes pkt : quiet (encode_media pbkdf2 aes pkt).
Proof.
  unfold encode_media. apply quiet_get. intros s. destruct (is_main s); [apply quiet_main|]. destruct (advInMainWindow s); [apply quiet_gre|]. destruct (s_adv s) as [c|].
  - destruct (advcodec.encodeAdvMedia _ _ _ _ _ _) as [[r c'] ds]. apply quiet_bind; [by apply quiet_modify|intros _; apply quiet_attempt].
  - destruct (encodeMedia _ _) as [r x]. apply quiet_bind; [apply quiet_attempt|]. intros [u|]; (apply quiet_bind; [by apply quiet_modify|intros _; apply quiet_ret]).
Qed.

(** What is true of an elected path holds before the duplicates are counted. *)
Lemma elected_before now g g1 i g2 : group_kin g g1 -> bonding.wf g -> bonding.SelectWeighted now g1 = ((i, true), g2) ->
  bonding.ShouldDuplicate g i now = false /\ exists p, p ∈ bonding.paths g /\ bonding.Index p = i /\ 0 < bonding.Weight p.
Proof.
  intros K Hw E. assert (HI : bonding.Index <$> bonding.paths g1 = bonding.Index <$> bonding.paths g) by (apply bonding.steps_index; eapply Forall2_impl; [apply K|]; by intros p q [? _]). split.
  - rewrite <-(duplicate_kin _ _ i now K). eapply elected_no_duplicate; [unfold bonding.wf; by rewrite HI|exact E].
  - destruct (elected_weight _ _ _ _ E) as (q & Hq & Hqi & Hqa). apply list_elem_of_lookup in Hq as [k Hq]. destruct (Forall2_lookup_r _ _ _ _ _ (proj1 K) Hq) as (p & Hp & K1 & K3 & _). exists p. split; [by apply list_elem_of_lookup_2 in Hp|]. split; [congruence|]. rewrite <-K3. apply andb_true_iff in Hqa as [Hqa _]. by apply Z.ltb_lt.
Qed.
Lemma duplicates_in now b i : i ∈ duplicates now b -> bonding.ShouldDuplicate (b_group b) i now = true /\ bondPathAuthed i b = true.
Proof. intros Hi. apply list_elem_of_In, filter_In in Hi as [_ Hi]. by apply andb_true_iff. Qed.
Lemma targets_distinct now b e : (forall i, e = Some i -> bonding.ShouldDuplicate (b_group b) i now = false) -> NoDup (duplicates now b ++ option_list e).
Proof.
  intros He. apply NoDup_app. split; [apply NoDup_ListNoDup, List.NoDup_filter, NoDup_ListNoDup, NoDup_seqZ|]. split; [|destruct e; [apply NoDup_singleton|apply NoDup_nil_2]].
  intros i [H _]%duplicates_in Hi. destruct e as [j|]; [|by apply elem_of_nil in Hi]. apply list_elem_of_singleton in Hi as ->. specialize (He j eq_refl). congruence.
Qed.

(** C15: Where a media packet of a bonded sender goes.  The session is open, has at most 256 paths, sends no FEC, and its paths share one codec: it is not in the mode where each path is
    keyed by its own authentication, in which the packet is encoded once per path.  The group is well formed and its indices are not negative.  A packet that encodes to a datagram is
    encoded once, and the one datagram is written, in the order of the paths, exactly once to the media address of every
    path that is authenticated and marked for duplication, and then to at most one more: a path with a weight, elected by the group, that is authenticated too.  So no path
    ever gets a second copy, and a path that has not authenticated gets none. *)
Theorem bond_fan_out pbkdf2 aes now pkt b dg s : ready b -> codecs b = [] -> fecEnabled (b_session b) = false -> zlen (remotes b) <= 256 ->
  bonding.wf (b_group b) -> Forall (fun i => 0 <= i) (bonding.Index <$> bonding.paths (b_group b)) -> encode_media pbkdf2 aes pkt (b_session b) = (Ok (Some dg), s) ->
  exists b' e, sendBondMedia pbkdf2 aes now pkt b = (Ok tt, b') /\ let l := duplicates now b ++ option_list e in
    written (s_world (b_session b')) = reverse (copy b dg <$> l) ++ written (s_world (b_session b)) /\ NoDup l /\ Forall (fun i => bondPathAuthed i b = true) l /\
    forall i, e = Some i -> 0 <= i < zlen (remotes b) /\ exists p, p ∈ bonding.paths (b_group b) /\ bonding.Index p = i /\ 0 < bonding.Weight p.
Proof.
  intros Hr Hc Hf Hn Hw HG Hs. pose proof (encode_quiet pbkdf2 aes pkt (b_session b)) as Ho. rewrite Hs in Ho. injection Ho as O1 O2 O3 O4. destruct Hr as (R1 & R2 & R3).
  destruct (on_open _ b _ _ Hs) as (b1 & E1 & [= G1 G2 G3 G4 G5 G6] & G7); [congruence..|]. assert (Hr1 : ready b1) by (unfold ready; rewrite G1, G7; cbn; split_and!; congruence).
  unfold sendBondMedia. rewrite (sbind_ok bget _ b b b eq_refl), Hc, (sbind_ok _ _ _ _ _ E1).
  match goal with |- context [fan_media now ?f] => set (send := f) end. assert (HS : sends dg send).
  { intros i x Hx Hi Hxn. assert (Hu : u8 i = i) by (unfold u8, uwrap; apply Z.mod_small; change (2 ^ 8) with 256; lia). destruct (send_path_fans i pkt dg x Hx Hi) as (x' & Ex & Hfx & Hgx). exists x'. split; [|split; [done|rewrite Hgx; apply count_kin]]. unfold send. rewrite Hu. exact Ex. }
  assert (HS' : sends dg (fun i => send_path i pkt dg)) by (intros i x Hx Hi Hxn; destruct (send_path_fans i pkt dg x Hx Hi) as (x' & Ex & Hfx & Hgx); exists x'; split; [done|]; split; [done|]; rewrite Hgx; apply count_kin).
  assert (F0 : fanned dg b [] b1) by (apply fanned_nil; [done..|rewrite G7; exact O3|rewrite G7; exact O4]).
  destruct (fan_fans dg now send b (indices (remotes b)) b1 [] HS Hn Hr1 F0) as (b2 & E2 & Hr2 & F2 & K2); [rewrite G6; reflexivity|intros i Hi; by apply elem_of_seqZ in Hi|]. cbn [app] in F2.
  assert (Hfan : fan_media now send b1 = (Ok tt, b2)) by (unfold fan_media; rewrite (sbind_ok bget _ b1 b1 b1 eq_refl), G2; exact E2). rewrite (sbind_ok _ _ _ _ _ Hfan).
  assert (HI : bonding.Index <$> bonding.paths (b_group b2) = bonding.Index <$> bonding.paths (b_group b)) by (apply bonding.steps_index; eapply Forall2_impl; [apply K2|]; by intros p q [? _]).
  assert (Hrem : remotes b2 = remotes b) by apply (fa_remotes _ _ _ _ F2).
  destruct (elect_elects dg now _ b2 HS') as (b3 & e & E3 & Hr3 & F3 & He); [by rewrite Hrem|done|by rewrite HI|]. rewrite (sbind_ok _ _ _ _ _ E3).
  destruct Hr3 as (_ & C1 & C2). destruct (on_open (sent_at now) b3 tt _ eq_refl C1 C2) as (b4 & E4 & _ & G8). rewrite (sbind_ok _ _ _ _ _ E4), (sbind_ok bget _ b4 b4 b4 eq_refl). pose proof (fanned_app _ _ _ _ _ _ F2 F3) as F.
  assert (Hf4 : fecEnabled (b_session b4) = false) by (rewrite G8; etransitivity; [exact (fa_fec _ _ _ _ F)|exact Hf]). rewrite Hf4. cbn [andb bwhen]. exists b4, e. split; [done|]. cbv zeta. fold (duplicates now b) in F, F2. split; [rewrite G8; exact (fa_written _ _ _ _ F)|].
  assert (HE : forall i, e = Some i -> 0 <= i < zlen (remotes b) /\ bondPathAuthed i b = true /\ bonding.ShouldDuplicate (b_group b) i now = false /\ exists p, p ∈ bonding.paths (b_group b) /\ bonding.Index p = i /\ 0 < bonding.Weight p).
  { intros i Ei. destruct (He i Ei) as (Hi & Ha & g & Eg). rewrite Hrem in Hi. rewrite (authed_fanned _ _ _ _ i F2) in Ha. split; [done|]. split; [done|]. exact (elected_before _ _ _ _ _ K2 Hw Eg). }
  split; [apply targets_distinct; intros i Ei; by apply HE|]. split; [|intros i Ei; destruct (HE i Ei) as (H1 & _ & _ & H2); by split].
  apply Forall_app. split; [apply Forall_forall; intros i Hi; by apply (duplicates_in now)|]. destruct e as [j|]; [|by apply Forall_nil]. apply Forall_singleton. by apply HE.
Qed.

(** A sender over three paths: the second has a weight, the others duplicate. *)
Definition demo_addr (port : Z) : AddrPort := mkAddrPort (Addr4 0x0A000001) port.
Definition demo_send_cfg : Config := mkSessConfig DefaultConfig 8 [114; 120] false 1000000 10000000 None None false false false None None 0 SplitOff MergeOff None false false.
Definition demo_send_world : world := mkWorldS [] [] [] [] [] [] [].
Definition demo_remotes : list (AddrPort * AddrPort) := [(demo_addr 5000, demo_addr 5001); (demo_addr 6000, demo_addr 6001); (demo_addr 7000, demo_addr 7001)].
Definition demo_sender : Bond := default (NewBondedInjectedReceiver 0 (bonding.NewGroup 0 0 0 0) demo_send_cfg [] demo_send_world)
  (NewBondedSender demo_remotes (bonding.AddPath 1 5 0 (bonding.NewGroup 1000000 0 5000 500000)) demo_send_cfg [] [] demo_send_world).
Definition demo_packet : MediaPacket := mkMediaPacket 7 3600 8 [1; 2; 3] false 0 FragStandalone 0 0 false.
Definition demo_encoded : bytes := match (encode_media psk.demo_pbkdf2 psk.demo_aes demo_packet (b_session demo_sender)).1 with Ok (Some dg) => dg | _ => [] end.

Lemma bond_fan_out_witness : exists b' e, sendBondMedia psk.demo_pbkdf2 psk.demo_aes 1000 demo_packet demo_sender = (Ok tt, b') /\ duplicates 1000 demo_sender = [0; 2] /\
  written (s_world (b_session b')) = reverse (copy demo_sender demo_encoded <$> [0; 2] ++ option_list e).
Proof.
  destruct (bond_fan_out psk.demo_pbkdf2 psk.demo_aes 1000 demo_packet demo_sender demo_encoded (encode_media psk.demo_pbkdf2 psk.demo_aes demo_packet (b_session demo_sender)).2) as (b' & e & E & HW & _); try reflexivity.
  - done.
  - done.
  - apply (bool_decide_unpack (NoDup (bonding.Index <$> bonding.paths (b_group demo_sender)))). exact I.
  - change (Forall (fun i => 0 <= i) [1; 0; 2]). do 3 (apply Forall_cons; split; [done|]). by apply Forall_nil.
  - exists b', e. split; [exact E|]. split; [reflexivity|]. rewrite HW. by rewrite app_nil_r.
Defined.
End sessionbondfan.
