(* ===== verification/SessionBondTotal.v ===== *)
(** * A bonded session never panics

    Every index into the paths' sockets, addresses, codecs and roles is in range, whatever arrives and whichever paths are added or removed while the session runs, and
    what a bonded session shares with other sessions returns (SessionTotal). *)

From stdpp Require Import gmap.
From S2P Require Import Prelude Bytes Clock Wire Rtp Rtcp FlowTypes Flow Reassembler Gre Peer Psk Adv AdvCtrl Adapt Fec Bonding SimpleCodec AdvCodec MainCodec MainFeedback Eap EapState EapClient EapServer EapHandshake EapSafety CodecTotal Session SessionMain SessionAdv SessionLoop SessionFrames SessionGate SessionTotal SessionBond.

Module sessionbondtotal.
Import peer session sessionmain sessionadv sessionloop sessiongate eapsafety codectotal sessiontotal sessionbond.

Section total.
Context (pbkdf2 : bytes -> bytes -> Z -> option bytes) (aes : bytes -> bytes -> bytes) (sha256 : bytes -> bytes) (WallNTP ntpNow : Z -> Z).
Context (visit : nat -> list (Z * Z) -> list (Z * Z)) (fuel : nat).
Context (aes_len : forall key b, length (aes key b) = 16%nat) (aes_bytes : forall key b, is_bytes (aes key b)) (sha_bytes : forall b, is_bytes (sha256 b)).
Context (m a : bool) (fp : option FECParams) (fs : Z) (sender : bool).
Context (fec_plain : a = true -> fp = None) (fec_ports : forall f, fp = Some f -> SeparatePorts f = true).

Definition auth_ok (x : bondAuth) : Prop := (forall c, a_client x = Some c -> client_ok c) /\ (forall c, a_server x = Some c -> server_ok c).

(** The numbers of paths, of paths with a role, and of paths with a codec of their own. *)
Context (n na nc : nat).

(** The group's paths, the roles and the codecs of the paths stay within the paths there are. *)
Record bsound (b : Bond) : Prop := {
  bs_session : sound m a fp fs sender (b_session b);
  bs_peers : length (peers b) = n;
  bs_conns : length (conns b) = if sender then 1%nat else n;
  bs_remotes : length (remotes b) = if sender then n else 0%nat;
  bs_group : Forall (fun i => 0 <= i < Z.of_nat n) (bonding.Index <$> bonding.paths (b_group b));
  bs_auth : Forall auth_ok (auth b);
  bs_roles : length (auth b) = na;
  bs_codecs : length (codecs b) = nc;
  bs_last : 0 <= lastWeighted b }.
(** [room]: paths are numbered by bytes; [roles]: only the Main profile authenticates its paths; [keyed]: a path with a codec has a role. *)
Record shape : Prop := { room : (n <= 256)%nat; role_room : (na <= n)%nat; roles : na <> 0%nat -> m = true; keyed : nc = 0%nat \/ na <> 0%nat /\ nc = na }.

(** ** Operations that return *)

Definition bruns {A} (x : B A) (Q : A -> Prop) : Prop := forall b, bsound b -> match x b with (Ok r, b') => bsound b' /\ Q r | _ => False end.
Definition bsafe {A} (x : B A) : Prop := bruns x (fun _ => True).

Lemma bruns_bind {A C} (x : B A) (k : A -> B C) Q Q' : bruns x Q -> (forall r, Q r -> bruns (k r) Q') -> bruns (x ≫= k) Q'.
Proof. intros Hx Hk s Hs. unfold mbind, sres_bind. specialize (Hx s Hs). destruct (x s) as [[r|e|] s1]; [|done..]. destruct Hx as [H1 H2]. by apply Hk. Qed.
Lemma bsafe_bind {A C} (x : B A) (k : A -> B C) Q : bsafe x -> (forall r, bruns (k r) Q) -> bruns (x ≫= k) Q.
Proof. intros Hx Hk. apply (bruns_bind x k (fun _ => True)); [done|]. intros r _. apply Hk. Qed.
Lemma bruns_get {C} (k : Bond -> B C) Q : (forall b, bsound b -> bruns (k b) Q) -> bruns (bget ≫= k) Q.
Proof. intros Hk b Hb. by apply (Hk b Hb). Qed.
(** The state read is the state the rest starts from. *)
Lemma bruns_at {C} (k : Bond -> B C) Q : (forall b, bsound b -> match k b b with (Ok r, b') => bsound b' /\ Q r | _ => False end) -> bruns (bget ≫= k) Q.
Proof. intros Hk b Hb. by apply (Hk b Hb). Qed.
Lemma bsafe_ret {A} (r : A) : bsafe (mret r).
Proof. by intros b Hb. Qed.
Lemma bsafe_modify f : (forall b, bsound b -> bsound (f b)) -> bsafe (modify f).
Proof. intros H b Hb. split; [by apply H|done]. Qed.
Lemma bsafe_when c x : (c = true -> bsafe x) -> bsafe (bwhen c x).
Proof. destruct c; intros H; [by apply H|by intros b Hb]. Qed.
Lemma bsafe_lift {A} (r : res Empty_set A) : returns r (fun _ => True) -> bsafe (lift r).
Proof. intros H b Hb. destruct r; [done|by destruct e|done]. Qed.
Lemma bsafe_each {A} (f : A -> B unit) l : (forall x, x ∈ l -> bsafe (f x)) -> bsafe (beach f l).
Proof.
  induction l as [|x l IH]; intros H; [by intros b Hb|]. apply bsafe_bind; [apply H, elem_of_cons; by left|]. intros _. apply IH. intros y Hy. apply H, elem_of_cons. by right.
Qed.

Lemma elem_indices {A} (l : list A) i : i ∈ indices l -> 0 <= i < zlen l.
Proof. intros H. apply elem_of_seqZ in H. lia. Qed.

Lemma bsound_group b g : bsound b -> bonding.Index <$> bonding.paths g = bonding.Index <$> bonding.paths (b_group b) -> bsound (b <| b_group := g |>).
Proof. intros [H1 H2 H3 H4 H5 H6 H7 H8 H9] E. split; try done. cbn. by rewrite E. Qed.
Lemma bsafe_group f : (forall g, bonding.Index <$> bonding.paths (f g) = bonding.Index <$> bonding.paths g) -> bsafe (on_group f).
Proof. intros Hf. apply bsafe_modify. intros b Hb. by apply (bsound_group b (f (b_group b))). Qed.

Lemma count_indices l g : bonding.Index <$> bonding.paths (foldr (fun pn g => bonding.CountRecv pn.1 pn.2 g) g l) = bonding.Index <$> bonding.paths g.
Proof. induction l as [|[p k] l IH]; [done|]. cbn. rewrite bonding.update_path_index; [exact IH|done]. Qed.

Lemma bsound_session b s : bsound b -> sound m a fp fs sender s -> bsound (close_sockets (count_recv (b <| b_session := s |>))).
Proof.
  intros [H1 H2 H3 H4 H5 H6 H7 H8 H9] Hs. assert (HC : bsound (count_recv (b <| b_session := s |>))).
  { split; try done; cbn; [revert Hs; apply sound_view; reflexivity|by rewrite count_indices]. }
  unfold close_sockets. destruct (closeErr _); [|done]. destruct (injected _); [done|]. destruct HC as [G1 G2 G3 G4 G5 G6 G7 G8 G9]. split; try done. unfold closeBond. cbn in *. by rewrite length_fmap.
Qed.

Lemma runs_on_session {A} (x : M A) Q : runs m a fp fs sender x Q -> bruns (on_session x) Q.
Proof.
  intros Hx b Hb. unfold on_session. specialize (Hx (b_session b) (bs_session b Hb)). destruct (x (b_session b)) as [[r|e|] s]; [|done..]. destruct Hx as [H1 H2]. split; [|done]. by apply bsound_session.
Qed.
Lemma bsafe_session {A} (x : M A) : safe m a fp fs sender x -> bsafe (on_session x).
Proof. apply runs_on_session. Qed.

(** ** Parts of the state *)

Lemma bruns_at_ {A} (l : list A) i (Q : A -> Prop) : 0 <= i < zlen l -> Forall Q l -> bruns (at_ l i) Q.
Proof.
  intros Hi HQ b Hb. unfold at_. destruct (l !! Z.to_nat i) as [x|] eqn:E; [split; [done|by apply (Forall_lookup_1 Q l (Z.to_nat i))]|]. apply lookup_ge_None in E. unfold zlen in Hi. lia.
Qed.
Lemma bsafe_at {A} (l : list A) i : 0 <= i < zlen l -> bsafe (at_ l i).
Proof. intros Hi. apply bruns_at_; [done|]. by apply Forall_true. Qed.

Definition conn_ok (i : Z) : Prop := 0 <= i < Z.of_nat (if sender then 1 else n).

Lemma bsafe_write i k dg dst : conn_ok i -> bsafe (conn_write i k dg dst).
Proof.
  intros Hi. unfold conn_write, bsafe. apply bruns_get. intros b Hb. apply bsafe_bind; [apply bsafe_at; unfold zlen; by rewrite (bs_conns b Hb)|]. intros []; [|apply bsafe_ret]. apply bsafe_session, safe_write_on.
Qed.

Lemma bsafe_conn b i : bsound b -> conn_ok i -> bsafe (at_ (conns b) i).
Proof. intros Hb Hi. apply bsafe_at. unfold zlen. by rewrite (bs_conns b Hb). Qed.
Lemma bsafe_on_peer i f : 0 <= i < Z.of_nat n -> bsafe (on_peer i f).
Proof.
  intros Hi. unfold on_peer, bsafe. apply bruns_get. intros b Hb. apply bsafe_bind; [apply bsafe_at; unfold zlen; by rewrite (bs_peers b Hb)|]. intros p. apply bsafe_modify. intros b1 [H1 H2 H3 H4 H5 H6 H7 H8 H9]. split; try done. cbn. by rewrite length_insert.
Qed.
Lemma bsafe_on_auth i f : (forall x, auth_ok x -> auth_ok (f x)) -> bsafe (on_auth i f).
Proof. intros Hf. apply bsafe_modify. intros b [H1 H2 H3 H4 H5 H6 H7 H8 H9]. split; try done; cbn; [by apply Forall_alter; [|intros; apply Hf]|by rewrite length_alter]. Qed.
Lemma bsafe_on_codec i f : bsafe (modify (fun b => b <| codecs ::= alter f i |>)).
Proof. apply bsafe_modify. intros b [H1 H2 H3 H4 H5 H6 H7 H8 H9]. split; try done. cbn. by rewrite length_alter. Qed.

Lemma bruns_auth b i : bsound b -> 0 <= i < Z.of_nat na -> bruns (at_ (auth b) i) auth_ok.
Proof. intros Hb Hi. apply bruns_at_; [unfold zlen; by rewrite (bs_roles b Hb)|apply (bs_auth b Hb)]. Qed.
Lemma bsafe_peer b i : bsound b -> 0 <= i < Z.of_nat n -> bsafe (at_ (peers b) i).
Proof. intros Hb Hi. apply bsafe_at. unfold zlen. by rewrite (bs_peers b Hb). Qed.
Lemma bsafe_remote b i : bsound b -> sender = true -> 0 <= i < Z.of_nat n -> bsafe (at_ (remotes b) i).
Proof. intros Hb Hs Hi. apply bsafe_at. unfold zlen. rewrite (bs_remotes b Hb), Hs. done. Qed.

Context (Hshape : shape).
Lemma u8_index i : 0 <= i < Z.of_nat n -> u8 i = i.
Proof. intros Hi. pose proof (room Hshape). unfold u8, uwrap. change (2 ^ 8) with 256. apply Z.mod_small. lia. Qed.

(** ** The codec of a path *)

Lemma runs_codec_read {A} i (f : maincodec.mainCodec -> A * maincodec.mainCodec) (Q : A -> Prop) : m = true -> (forall c, Q (f c).1) -> bruns (codec_read i f) Q.
Proof.
  intros Hm Hf b Hb. unfold codec_read. destruct (codecs b !! Z.to_nat i) as [c|].
  - specialize (Hf c). destruct (f c) as [r c']. split; [|done]. destruct Hb as [H1 H2 H3 H4 H5 H6 H7 H8 H9]. split; try done. cbn. by rewrite length_insert.
  - by apply (runs_on_session (main_read f)); [apply runs_main_read|].
Qed.

(** ** Descending through an operation *)

Create HintDb bsafe.
#[local] Hint Resolve bsafe_ret bsafe_on_peer bsafe_on_codec bsafe_write bsafe_peer bsafe_remote : bsafe.
#[local] Hint Resolve safe_mret safe_sent_at safe_write_on safe_shutdown safe_feedMedia safe_OOB safe_handleBufferNeg safe_remoteCaps safe_ctrl safe_sendOOB safe_pushApp safe_timers safe_events safe_poll_output safe_poll_event safe_infer safe_fecOnRecv safe_startEAP safe_LQM : bsafe.

Ltac bsame := intros; eapply sound_view; [..|eassumption]; reflexivity.
Ltac bstep :=
  first
    [ progress (intros; cbn beta)
    | solve [eauto with bsafe]
    | match goal with
      | |- bsafe (mbind _ _) => unfold bsafe
      | |- bruns (mbind _ bget) _ => apply bruns_get
      | |- bruns (mbind _ _) _ => apply bsafe_bind
      | |- bruns ?x (fun _ => True) => change (bsafe x)
      | |- bsafe (bwhen _ _) => apply bsafe_when
      | |- bsafe (beach _ _) => apply bsafe_each
      | |- bsafe bnop => apply bsafe_ret
      | |- bsafe (mret _) => apply bsafe_ret
      | |- bsafe (on_session _) => apply bsafe_session
      | |- bsafe (on_auth _ _) => apply bsafe_on_auth
      | |- safe _ _ _ _ _ (attempt _) => apply safe_attempt
      | |- safe _ _ _ _ _ (modify _) => apply safe_update
      | |- safe _ _ _ _ _ (on_eap _) => apply safe_update
      | |- bsafe (if ?b then _ else _) => case_eq b
      | |- bsafe (let '(_, _) := ?x in _) => case_eq x
      | |- bsafe (match ?x with _ => _ end) => case_eq x
      end ].
Ltac bsafely := repeat bstep.

(** ** Authentication of a path *)

Lemma path_conn i : 0 <= i < Z.of_nat n -> sender = false -> conn_ok i.
Proof. intros Hi Hs. unfold conn_ok. by rewrite Hs. Qed.
Lemma first_conn : sender = true -> conn_ok 0.
Proof. intros Hs. unfold conn_ok. rewrite Hs. lia. Qed.

Lemma bsafe_sendEAP idx f now : m = true -> 0 <= idx < Z.of_nat n -> bsafe (sendBondEAP idx f now).
Proof.
  intros Hm Hi. unfold sendBondEAP, bsafe. apply bsafe_bind; [bsafely|intros _]. apply (bruns_bind _ _ (fun r => returns r (fun _ => True))); [apply runs_codec_read; [done|]; intros c; apply encodeEAPOL_total|].
  intros r Hr. apply bsafe_bind; [bsafely|]. intros [dg|]; [|apply bsafe_ret]. apply bsafe_bind; [bsafely; bsame|intros _]. apply bruns_get. intros b Hb. rewrite (so_sender _ _ _ _ _ _ (bs_session b Hb)).
  apply (bruns_bind _ _ (fun cd => conn_ok cd.1)).
  - case_eq sender; intros Es; (apply (bsafe_bind _ _ (fun cd => conn_ok cd.1)); [by apply bsafe_conn, first_conn || by apply bsafe_conn, path_conn|intros _]); [apply (bsafe_bind _ _ (fun cd => conn_ok cd.1)); [by apply bsafe_remote|intros r1 b1 H1; split; [done|by apply first_conn]]|apply (bsafe_bind _ _ (fun cd => conn_ok cd.1)); [by apply bsafe_peer|intros r1 b1 H1; split; [done|by apply path_conn]]].
  - intros [conn dst] Hc. bsafely.
Qed.

Lemma auth_client x c : auth_ok x -> client_ok c -> auth_ok (x <| a_client := Some c |>).
Proof. intros [H1 H2] Hc. split; [by intros ? [= <-]|done]. Qed.
Lemma auth_server x c : auth_ok x -> server_ok c -> auth_ok (x <| a_server := Some c |>).
Proof. intros [H1 H2] Hc. split; [done|by intros ? [= <-]]. Qed.

(** A step over the paths that have a role. *)
Lemma bsafe_roles (f : Z -> B unit) : (forall i, 0 <= i < Z.of_nat na -> bsafe (f i)) -> bsafe (b ← bget; beach f (indices (auth b))).
Proof. intros Hf. unfold bsafe. apply bruns_get. intros b Hb. apply bsafe_each. intros i Hi. apply Hf. apply elem_indices in Hi. unfold zlen in Hi. by rewrite (bs_roles b Hb) in Hi. Qed.

Lemma role_index i : 0 <= i < Z.of_nat na -> 0 <= i < Z.of_nat n /\ m = true.
Proof. intros Hi. pose proof (role_room Hshape). split; [lia|]. apply (roles Hshape). lia. Qed.

Lemma bsafe_start now : bsafe (maybeStartBondEAP now).
Proof.
  apply bsafe_roles. intros i Hi. destruct (role_index i Hi) as [Hn Hm]. unfold start_path, bsafe. apply bruns_get. intros b Hb. apply (bruns_bind _ _ auth_ok); [by apply bruns_auth|]. intros x Hx. destruct (a_client x) as [c|] eqn:Ec; [|apply bsafe_ret]. destruct (startSent x); [apply bsafe_ret|].
  pose proof (client_called aes sha256 sha_bytes CStart c [] I (proj1 Hx c Ec)) as HO. cbn [client_step] in HO. destruct (authenticatee.Start c) as [f c']. apply bsafe_bind.
  - apply bsafe_on_auth. intros y Hy. by apply (auth_client y c') in Hy.
  - intros _. rewrite u8_index by done. by apply bsafe_sendEAP.
Qed.
Lemma bsafe_retransmit now : bsafe (maybeRetransmitBondEAP now).
Proof.
  apply bsafe_roles. intros i Hi. destruct (role_index i Hi) as [Hn Hm]. unfold retransmit_path, bsafe. apply bruns_get. intros b Hb. apply (bruns_bind _ _ auth_ok); [by apply bruns_auth|]. intros x Hx. destruct (a_lastTx x) as [f|]; [|apply bsafe_ret]. destruct (_ || _); [apply bsafe_ret|].
  apply bsafe_bind; [by apply bsafe_on_auth|intros _]. rewrite u8_index by done. by apply bsafe_sendEAP.
Qed.
Lemma bsafe_password idx now : 0 <= idx < Z.of_nat na -> bsafe (request_password idx now).
Proof.
  intros Hi. destruct (role_index idx Hi) as [Hn Hm]. unfold request_password, bsafe. apply bruns_get. intros b Hb. apply (bruns_bind _ _ auth_ok); [by apply bruns_auth|]. intros x Hx. destruct (a_client x) as [c|] eqn:Ec; [|apply bsafe_ret]. destruct (a_pwReqSent x); [apply bsafe_ret|].
  pose proof (client_called aes sha256 sha_bytes CPasswordRequest c [] I (proj1 Hx c Ec)) as HO. cbn [client_step] in HO. destruct (authenticatee.PasswordRequest c) as [f c']. apply bsafe_bind; [apply bsafe_on_auth; intros y Hy; by apply auth_client|intros _].
  destruct f as [f|]; [|apply bsafe_ret]. apply bsafe_bind; [by apply bsafe_on_auth|intros _]. by apply bsafe_sendEAP.
Qed.

Lemma bsafe_keying idx : bsafe (installBondEAPKeying pbkdf2 idx).
Proof.
  unfold installBondEAPKeying, bsafe. apply bruns_get. intros b Hb. destruct (codecs b !! _); [|apply bsafe_ret]. destruct (auth b !! _) as [x|]; [|apply bsafe_ret]. set (kb := if eapKeySize256 _ then _ else _). destruct (match a_client x with Some _ => _ | None => _ end) as [[tx haveTx] [rx haveRx]]. apply bsafe_bind.
  - destruct (_ && _); [|apply bsafe_ret]. pose proof (newKey_total pbkdf2 (eapstate.Key tx) kb (eapKeyRotation (s_eap (b_session b))) false true (draws (s_world (b_session b)))) as H. destruct (psk.newKey _ _ _ _ _ _ _) as [k ds]. bsafely; first [done|bsame].
  - intros _. destruct (_ && _); [|apply bsafe_ret]. bsafely. unfold psk.newDecryptor. by repeat case_match.
Qed.

Lemma bsafe_admit idx : 0 <= idx < Z.of_nat na -> bsafe (admitBondPeer idx).
Proof.
  intros Hi. destruct (role_index idx Hi) as [Hn Hm]. unfold admitBondPeer, bsafe. apply bruns_get. intros b Hb. apply bsafe_bind; [by apply bsafe_peer|intros p]. apply (bruns_bind _ _ auth_ok); [by apply bruns_auth|]. intros x _. bsafely. bsame.
Qed.
Lemma bsafe_open idx : 0 <= idx < Z.of_nat na -> bsafe (open_path idx).
Proof.
  intros Hi. unfold open_path, bsafe. apply bruns_get. intros b Hb. apply (bruns_bind _ _ auth_ok); [by apply bruns_auth|]. intros x _. apply bsafe_bind; [|bsafely; bsame]. destruct (a_server x); [|apply bsafe_ret]. destruct (everConnected b); [apply bsafe_ret|]. apply bsafe_bind; [|intros _; by apply bsafe_admit].
  apply bsafe_modify. intros b1 [H1 H2 H3 H4 H5 H6 H7 H8 H9]. by split.
Qed.

Lemma bsafe_recv idx payload : 0 <= idx < Z.of_nat na -> is_bytes payload -> bsafe (path_recv aes sha256 idx payload).
Proof.
  intros Hi Hp b Hb. unfold path_recv. destruct (auth b !! Z.to_nat idx) as [x|] eqn:Ex; [|apply lookup_ge_None in Ex; rewrite (bs_roles b Hb) in Ex; lia]. pose proof (Forall_lookup_1 _ _ _ _ (bs_auth b Hb) Ex) as Hx.
  assert (HP : forall y ds, auth_ok y -> bsound (b <| auth ::= <[Z.to_nat idx := y]> |> <| b_session ::= fun s => s <| s_world ::= fun w => w <| secrets := ds |> |> |>)).
  { intros y ds Hy. destruct Hb as [H1 H2 H3 H4 H5 H6 H7 H8 H9]. split; try done; cbn; [revert H1; apply sound_view; reflexivity|by apply Forall_insert|by rewrite length_insert]. }
  destruct (a_client x) as [c|] eqn:Ec; [|destruct (a_server x) as [c|] eqn:Ev; [|done]].
  - destruct (client_recv_total sha256 sha_bytes aes payload c (secrets (s_world (b_session b))) Hp (proj1 Hx c Ec)) as [H1 H2]. destruct (authenticatee.Recv _ _ _ _ _) as [[[|out err] c'] ds]; [done|]. split; [|done]. by apply HP, auth_client.
  - destruct (server_recv_total sha256 sha_bytes aes payload c (secrets (s_world (b_session b))) Hp (proj2 Hx c Ev)) as [H1 H2]. destruct (authenticator.Recv _ _ _ _ _) as [[[|out err] c'] ds]; [done|]. split; [|done]. by apply HP, auth_server.
Qed.

Lemma bsafe_handleEAP now idx payload : 0 <= idx -> is_bytes payload -> bsafe (handleBondEAP pbkdf2 aes sha256 now idx payload).
Proof.
  intros H0 Hp. unfold handleBondEAP, bsafe. apply bruns_get. intros b Hb. destruct (auth b !! Z.to_nat idx) as [x|] eqn:Ex; [|apply bsafe_ret]. assert (Hi : 0 <= idx < Z.of_nat na) by (apply lookup_lt_Some in Ex; rewrite (bs_roles b Hb) in Ex; lia).
  destruct (role_index idx Hi) as [Hn Hm]. apply bsafe_bind; [by apply bsafe_on_auth|intros _]. apply bsafe_bind; [by apply bsafe_recv|]. intros [[out authedAt]|]; [|apply bsafe_ret]. apply bsafe_bind; [destruct out; [|apply bsafe_ret]; apply bsafe_bind; [by apply bsafe_on_auth|intros _; by apply bsafe_sendEAP]|intros _].
  apply bruns_get. intros b1 _. apply bsafe_bind; [apply bsafe_when; intros _; apply bsafe_bind; [apply bsafe_keying|intros _; by apply bsafe_password]|intros _]. apply bruns_get. intros b2 Hb2. apply (bruns_bind _ _ auth_ok); [by apply bruns_auth|]. intros y _. apply bsafe_bind; [by apply bsafe_on_auth|intros _]. apply bsafe_when. intros _. by apply bsafe_open.
Qed.

(** ** Receiving *)

Lemma bsafe_observe now idx fbs : bsafe (bondObserveRTT now idx fbs).
Proof.
  apply bsafe_each. intros fb _. unfold observe_rtt. apply bsafe_bind.
  - destruct fb; try apply bsafe_ret. apply bsafe_group. intros g. cbn. by rewrite bonding.update_path_index.
  - intros _. destruct fb; try (apply bsafe_session, safe_FeedFeedback). unfold handleFlowAttr. bsafely. bsame.
Qed.
#[local] Hint Resolve bsafe_observe : bsafe.

Lemma bsafe_fecRecv now ts pkt b : bsound b -> fecEnabled (b_session b) = true -> bsafe (on_session (fecRecvRTP now ts pkt)).
Proof. intros Hb Hf. apply bsafe_session, safe_fecRecv. eapply fec_is_some; eauto using bs_session. Qed.
#[local] Hint Resolve bsafe_fecRecv : bsafe.

Lemma bsafe_simple now idx bi : 0 <= idx < Z.of_nat n -> is_bytes (bi_data bi) -> bsafe (handleBondSimple now idx bi).
Proof.
  intros Hn Hb. unfold handleBondSimple. destruct (isRTCP bi).
  - unfold bsafe. apply bsafe_bind; [by apply bsafe_on_peer|intros _]. apply bruns_get. intros b _. destruct (simple_feedback_total (bi_data bi) (highestSent (b_session b)) Hb) as (r & -> & Hr). bsafely.
  - unfold bsafe. apply bsafe_bind; [by apply bsafe_on_peer|intros _]. apply bruns_get. intros b _. pose proof (simple_decode_total (bi_data bi) (s_mdec (b_session b)) Hb) as Hd. destruct (decode _ _) as [r d]. bsafely. bsame.
Qed.

Lemma bsafe_decoded now idx dg : m = true -> is_bytes dg -> bsafe (path_decoded pbkdf2 aes now idx dg).
Proof.
  intros Hm Hb. unfold path_decoded, bsafe. apply bruns_get. intros b0 _. apply (bruns_bind _ _ (fun r => returns r (fun _ => True))).
  { apply runs_codec_read; [done|]. intros c. by destruct (mainfeedback.main_decode_total pbkdf2 aes dg (highestSent (b_session b0)) c aes_len aes_bytes Hb) as [H _]. }
  intros r Hr. apply bsafe_bind; [bsafely|]. intros [[bn|pkt|fbs|]|]; bsafely. by apply (runs_codec_read _ _ (fun _ => True)).
Qed.

Lemma bsafe_main now idx bi : m = true -> 0 <= idx < Z.of_nat n -> is_bytes (bi_data bi) -> bsafe (handleBondMain pbkdf2 aes sha256 now idx bi).
Proof.
  intros Hm Hi Hb. unfold handleBondMain, bsafe. do 2 (apply bsafe_bind; [by apply bsafe_on_peer|intros _]).
  apply (bruns_bind _ _ peeked_oob); [apply runs_codec_read; [done|]; intros c; by destruct (mainfeedback.main_decode_total pbkdf2 aes (bi_data bi) 0 c aes_len aes_bytes Hb) as (_ & _ & _ & _ & H)|].
  intros [[proto r]|] Ho; [specialize (Ho proto r eq_refl); bsafely|]. apply bruns_get. intros b _. apply (bruns_bind _ _ (fun e => forall p, e = Some (Some p) -> is_bytes p)).
  - apply runs_on_session. intros s1 H1. pose proof (eapol_bytes (bi_data bi) Hb) as HE. unfold attempt. destruct (auth b); [by split|]. destruct (maincodec.peekEAPOL _) as [o|e|]; [| |done]; (split; [done|]); [intros p [= ->]; by apply HE|done].
  - intros e He. destruct e as [[p|]|]; [apply bsafe_handleEAP; [lia|by apply He]|by apply bsafe_decoded..].
Qed.

Lemma bsafe_advGRE now idx dg : a = true -> is_bytes dg -> bsafe (handleBondAdvGRE pbkdf2 aes now idx dg).
Proof.
  intros Ha Hb. unfold handleBondAdvGRE, bsafe. apply (bruns_bind _ _ peeked); [apply runs_on_session, runs_gre_read; [done|]; intros c; by destruct (mainfeedback.main_decode_total pbkdf2 aes dg 0 c aes_len aes_bytes Hb) as (_ & _ & _ & H & _)|].
  intros [[kind ver] ka] Hp. apply bsafe_bind; [destruct ka as [[| |]|]; try apply bsafe_ret; destruct (Hp _ eq_refl)|intros _].
  assert (HO : bsafe (oob ← on_session (gre_read (maincodec.peekOOB pbkdf2 aes dg)); match oob with Some (proto, r) => r ← on_session (attempt r); match r with Some d => on_session (deliverOOB proto d) | None => bnop end | None =>
    x ← bget; r ← on_session (gre_read (maincodec.decodeMain pbkdf2 aes dg (highestSent (b_session x)))); r ← on_session (attempt r);
    match r with None => bnop | Some (maincodec.DBuffer bn) => on_session (handleBufferNeg bn) | Some (maincodec.DMedia pkt) => on_session (feedMedia now idx pkt)
    | Some (maincodec.DFeedback fbs) => x ← bget; bondObserveRTT now idx (filterAdvEcho fbs (b_session x)) | Some maincodec.DNothing => bnop end end)).
  { apply (bruns_bind _ _ peeked_oob); [apply runs_on_session, runs_gre_read; [done|]; intros c; by destruct (mainfeedback.main_decode_total pbkdf2 aes dg 0 c aes_len aes_bytes Hb) as (_ & _ & _ & _ & H)|].
    intros [[proto r]|] Ho; [specialize (Ho proto r eq_refl); bsafely|]. apply bruns_get. intros b0 _.
    apply (bruns_bind _ _ (fun r => returns r (fun _ => True))); [apply runs_on_session, runs_gre_read; [done|]; intros c; by destruct (mainfeedback.main_decode_total pbkdf2 aes dg (highestSent (b_session b0)) c aes_len aes_bytes Hb) as [H _]|]. intros r Hr. bsafely. }
  destruct kind; try exact HO. destruct ka as [r|]; [|apply bsafe_ret]. specialize (Hp r eq_refl). apply bsafe_bind; [bsafely|]. intros [ka|]; [|apply bsafe_ret]. apply bsafe_session, safe_mbind; [apply safe_remoteCaps|intros _]. apply safe_when. intros _. apply safe_update. bsame.
Qed.

Lemma no_fec b : a = true -> bsound b -> fecEnabled (b_session b) = false.
Proof. intros Ha Hb. unfold fecEnabled. by rewrite (so_fec _ _ _ _ _ _ (bs_session b Hb)), (fec_plain Ha). Qed.

Lemma bsafe_adv now idx bi : a = true -> 0 <= idx < Z.of_nat n -> is_bytes (bi_data bi) -> bsafe (handleBondAdv pbkdf2 aes (S fuel) now idx bi).
Proof.
  intros Ha Hn Hb. unfold handleBondAdv, bsafe. do 2 (apply bsafe_bind; [by apply bsafe_on_peer|intros _]). cbv zeta. destruct (negb _); [by apply bsafe_advGRE|]. pose proof (adv.adv_Parse_total (bi_data bi) Hb) as HP. destruct (adv.Parse (bi_data bi)) as [p|e|]; [|by apply bsafe_advGRE|done]. destruct HP as ((hdr & Hpl & Hh) & Hiv).
  assert (Hpb : is_bytes (adv.o_Payload p)) by (rewrite Hpl in Hb; by apply Forall_app in Hb as [_ ?]). destruct (_ =? TypeGREMain); [by apply bsafe_advGRE|]. apply bruns_get. intros b Hs. rewrite (no_fec b Ha Hs). cbn [andb]. apply bsafe_bind.
  - apply bsafe_session, safe_adv_call; [done|]. intros c. by apply decodeParsed_total.
  - intros [d|]; [|apply bsafe_ret]. apply bsafe_bind; [destruct d; bsafely|intros _]. apply bsafe_session. apply safe_mbind; [apply safe_adv_call; [done|]; intros c; by destruct (advcodec.takePeerAdvCap c)|]. intros [[[] []]|]; try apply safe_mret. apply safe_update. bsame.
Qed.

Lemma bsafe_fec now body : bsafe (fecOnRecvFEC pbkdf2 aes (S fuel) now body).
Proof.
  unfold fecOnRecvFEC, bsafe. apply bruns_get. intros b Hb. rewrite (so_adv _ _ _ _ _ _ (bs_session b Hb)). case_eq a; intros Ea; [|bsafely]. eapply bruns_bind; [apply runs_on_session, runs_push_fec; done|]. intros rs Hrs. rewrite (Hrs (fec_plain Ea)). apply bsafe_ret.
Qed.

Lemma path_of_range src i rs j : 0 <= i -> i + zlen rs <= 256 -> path_of src i rs = Some j -> i <= j < i + zlen rs.
Proof.
  revert i. induction rs as [|r rs IH]; intros i Hi Hl; [done|]. rewrite zlen_cons in *. pose proof (zlen_nonneg rs). cbn. destruct (addrPortEqual _ _); [|intros H1%IH; lia]. intros [= <-]. unfold u8, uwrap. rewrite Z.mod_small by (change (2 ^ 8) with 256; lia). lia.
Qed.

Lemma bsafe_inbound now bi : 0 <= bi_idx bi -> is_bytes (bi_data bi) -> bsafe (handleBondInbound pbkdf2 aes sha256 (S fuel) now bi).
Proof.
  intros Hi Hb. unfold handleBondInbound, bsafe. apply bruns_get. intros b Hs. destruct (if s_sender _ then _ else _) as [idx|] eqn:Ei; [|apply bsafe_ret]. destruct (zlen (peers b) <=? idx) eqn:El; [apply bsafe_ret|]. assert (H0 : 0 <= idx).
  { rewrite (so_sender _ _ _ _ _ _ (bs_session b Hs)) in Ei. case_eq sender; intros Es; rewrite Es in Ei; [|by injection Ei as <-]. unfold bondPathForSrc in Ei. destruct (negb _); [done|]. apply path_of_range in Ei; [lia|lia|]. unfold zlen. rewrite (bs_remotes b Hs), Es. pose proof (room Hshape). lia. }
  assert (Hn : 0 <= idx < Z.of_nat n) by (apply Z.leb_gt in El; unfold zlen in El; rewrite (bs_peers b Hs) in El; lia).
  apply bsafe_bind; [by apply bsafe_on_peer|intros _]. apply bsafe_bind; [bsafely; bsame|intros _]. apply bsafe_bind; [apply bsafe_group; intros g; cbn; by rewrite bonding.update_path_index|intros _].
  rewrite (so_main _ _ _ _ _ _ (bs_session b Hs)), (so_adv _ _ _ _ _ _ (bs_session b Hs)). case_eq m; intros Em; [by apply bsafe_main|]. case_eq a; intros Ea; [by apply bsafe_adv|by apply bsafe_simple].
Qed.

(** ** Choices of the group *)

Lemma pick_in ok better ps best b : bonding.pick ok better ps best = Some b -> best = Some b \/ b ∈ ps.
Proof.
  revert best. induction ps as [|p ps IH]; intros best; cbn; [by left|]. intros H%IH. rewrite elem_of_cons. destruct H as [H|H]; [|tauto]. destruct (ok p); [|tauto]. destruct best as [c|]; [destruct (better p c)|]; injection H as <-; tauto.
Qed.
Lemma nack_path_in now known g i : bonding.SelectNackPath now known g = (i, true) -> i ∈ bonding.Index <$> bonding.paths g.
Proof.
  unfold bonding.SelectNackPath. repeat (case_match; try done); intros [= <-]; apply list_elem_of_fmap_2; repeat match goal with H : bonding.pick _ _ _ _ = Some _ |- _ => apply pick_in in H as [?|?] end; done.
Qed.
Lemma weighted_in now g : let '((i, ok), g') := bonding.SelectWeighted now g in (i = 0 \/ i ∈ bonding.Index <$> bonding.paths g) /\ bonding.Index <$> bonding.paths g' = bonding.Index <$> bonding.paths g.
Proof.
  assert (HI : bonding.Index <$> bonding.paths (bonding.SelectWeighted now g).2 = bonding.Index <$> bonding.paths g) by (apply bonding.steps_index, bonding.SelectWeighted_steps; [done|congruence|done]).
  destruct (bonding.SelectWeighted now g) as [[i ok] g'] eqn:E. split; [|exact HI]. revert E.
  unfold bonding.SelectWeighted. destruct (negb _); [intros [= <- _ _]; by left|]. destruct (bonding.bestWeighted g now) as [[k b]|] eqn:Eb; [|intros [= <- _ _]; by left]. destruct (bonding.wCount b <=? 0).
  - destruct (bonding.bestWeighted (bonding.refill now g) now) as [[k1 b1]|] eqn:E1; [|intros [= <- _ _]; by left]. intros [= <- _ _]. right. apply bonding.bestWeighted_some in E1 as (E1 & _). apply list_elem_of_lookup_2 in E1. apply bonding.refilled_spec in E1 as (q & Hq & ->).
    apply list_elem_of_fmap. exists q. split; [by destruct (bonding.active g now q)|done].
  - intros [= <- _ _]. right. apply bonding.bestWeighted_some in Eb as (Eb & _). apply list_elem_of_fmap_2. by apply list_elem_of_lookup_2 in Eb.
Qed.

(** ** Media *)

Lemma remote_index b i : bsound b -> i ∈ indices (remotes b) -> 0 <= i < Z.of_nat n /\ sender = true.
Proof. intros Hb Hi. apply elem_indices in Hi. unfold zlen in Hi. rewrite (bs_remotes b Hb) in Hi. case_eq sender; intros Es; rewrite Es in Hi; [done|lia]. Qed.

Lemma bsafe_sendpath i pkt dg : 0 <= i < Z.of_nat n -> sender = true -> bsafe (send_path i pkt dg).
Proof.
  intros Hi Hs. unfold send_path, bsafe. apply bsafe_bind; [apply bsafe_group; intros g; cbn; rewrite bonding.update_path_index; [done|by intros p; destruct (Retransmit pkt)]|intros _]. apply bruns_get. intros b Hb. apply bsafe_bind; [by apply bsafe_remote|]. intros r. apply bsafe_bind; [by apply bsafe_write, first_conn|intros _; apply bsafe_ret].
Qed.

Lemma bsafe_fan now send : (forall i b, bsound b -> 0 <= i < Z.of_nat n -> sender = true -> bondPathAuthed i b = true -> bsafe (send i)) -> bsafe (fan_media now send).
Proof.
  intros Hs. unfold fan_media, bsafe. apply bruns_get. intros b0 H0. apply bsafe_each. intros i Hi. destruct (remote_index b0 i H0 Hi) as [Hn Es]. unfold bsafe. apply bruns_get. intros b Hb. apply bsafe_when. intros H%andb_true_iff. destruct H as [_ H]. rewrite u8_index in H by done. by apply (Hs i b).
Qed.
Lemma bsafe_elect now send : (forall i b, bsound b -> 0 <= i < Z.of_nat n -> sender = true -> bondPathAuthed i b = true -> bsafe (send i)) -> bsafe (elect now send).
Proof.
  intros Hs. unfold elect, bsafe. apply bruns_at. intros b Hb. pose proof (weighted_in now (b_group b)) as HW. destruct (bonding.SelectWeighted now (b_group b)) as [[idx ok] g]. destruct HW as [H0 HI]. set (ok' := ok && _ && _).
  assert (Hz : 0 <= idx). { destruct H0 as [-> |H0]; [done|]. pose proof (bs_group b Hb) as HG. rewrite Forall_forall in HG. by apply HG in H0 as [? _]. }
  assert (HB : bsafe (modify (fun b => b <| b_group := g |> <| lastWeighted := idx |> <| lastWeightedOK := ok' |>) ;; bwhen ok' (send idx))).
  2: by apply (HB b Hb). apply bsafe_bind.
  { apply bsafe_modify. intros b1 [G1 G2 G3 G4 G5 G6 G7 G8 G9]. split; try done. cbn. rewrite HI. apply (bs_group b Hb). }
  intros _. apply bsafe_when. intros Eo. subst ok'. apply andb_true_iff in Eo as [Eo Hau]. apply andb_true_iff in Eo as [_ Hr]. apply Z.ltb_lt in Hr. unfold zlen in Hr. rewrite (bs_remotes b Hb) in Hr.
  case_eq sender; intros Es; rewrite Es in Hr; [|lia]. by apply (Hs idx b).
Qed.

Lemma bsafe_fanpaths now w : (forall r, sender = true -> bsafe (w r)) -> bsafe (fanBondPaths now w).
Proof.
  intros Hw. unfold fanBondPaths, bsafe. apply bruns_get. intros b0 H0. apply bsafe_bind.
  - apply bsafe_each. intros i Hi. destruct (remote_index b0 i H0 Hi) as [Hn Es]. unfold bsafe. apply bruns_get. intros b Hb. apply bsafe_when. intros _. apply bsafe_bind; [by apply bsafe_remote|intros r; by apply Hw].
  - intros _. apply bruns_get. intros b Hb. apply bsafe_when. intros H%andb_true_iff. destruct H as [_ H]. apply Z.ltb_lt in H. pose proof (bs_last b Hb). assert (Hi : lastWeighted b ∈ indices (remotes b)) by (apply elem_of_seqZ; lia). destruct (remote_index b _ Hb Hi) as [Hn Es]. apply bsafe_bind; [by apply bsafe_remote|intros r; by apply Hw].
Qed.

Lemma bsafe_sendFEC now p : is_Some fp -> bsafe (sendBondFEC now p).
Proof.
  intros [f Ef]. unfold sendBondFEC, bsafe. apply bruns_get. intros b Hb. rewrite (so_fec _ _ _ _ _ _ (bs_session b Hb)), Ef, (fec_ports f Ef). unfold sendBondFECSeparate. apply bruns_get. intros b1 _. apply bsafe_bind; [apply bsafe_session, safe_update; intros s Hs; destruct (is_row p); revert Hs; bsame|intros _].
  match goal with |- context [packet_AppendTo ?q ?x] => pose proof (packet_AppendTo_total q x eq_refl) as H; destruct (packet_AppendTo q x) as [[u|e|] x'] end; [|apply bsafe_ret|done]. apply bsafe_fanpaths. intros r Es. apply bsafe_bind; [by apply bsafe_write, first_conn|intros _; apply bsafe_ret].
Qed.

(** A path with a codec of its own: the role that is authenticated has one. *)
Lemma bsafe_own i pkt b0 : bsound b0 -> codecs b0 <> [] -> 0 <= i -> bondPathAuthed i b0 = true -> bsafe (own_codec pbkdf2 aes i pkt).
Proof.
  intros H0 Hc Hi Ha. assert (Hin : (Z.to_nat i < nc)%nat).
  { assert (nc <> 0%nat) by (rewrite <-(bs_codecs b0 H0); destruct (codecs b0); done). destruct (keyed Hshape) as [?|[Hn ->]]; [done|]. unfold bondPathAuthed in Ha. rewrite <-(bs_roles b0 H0). destruct (auth b0) as [|x l] eqn:El; [rewrite <-(bs_roles b0 H0), El in Hn; done|]. destruct ((x :: l) !! Z.to_nat i) eqn:E; [|done]. by apply lookup_lt_Some in E. }
  intros b Hb. unfold own_codec. destruct (codecs b !! Z.to_nat i) as [c|] eqn:E; [|apply lookup_ge_None in E; rewrite (bs_codecs b Hb) in E; lia]. pose proof (encodeMainMedia_total pbkdf2 aes [] pkt (draws (s_world (b_session b))) c) as H. destruct (maincodec.encodeMainMedia _ _ _ _ _ _) as [[r c'] ds].
  apply (bsafe_session (attempt r)); [by apply safe_attempt|]. destruct Hb as [H1 H2 H3 H4 H5 H6 H7 H8 H9]. split; try done; cbn; [revert H1; apply sound_view; reflexivity|by rewrite length_insert].
Qed.

Lemma bsafe_media now pkt : bsafe (sendBondMedia pbkdf2 aes now pkt).
Proof.
  unfold sendBondMedia, bsafe. apply bruns_get. intros b0 H0. case_eq (codecs b0).
  - intros _. apply bsafe_bind; [apply bsafe_session, safe_encode_media|]. intros [dg|]; [|apply bsafe_ret]. apply bsafe_bind.
    { apply bsafe_fan. intros i b Hb Hi Es _. unfold bsafe. apply bsafe_bind; [apply bsafe_group; intros g; cbn; rewrite bonding.update_path_index; [done|by intros p; destruct (Retransmit pkt)]|intros _]. apply bruns_get. intros b1 H1. apply bsafe_bind; [by apply bsafe_remote|]. intros r. apply bsafe_bind; [by apply bsafe_write, first_conn|intros _; apply bsafe_ret]. }
    intros _. apply bsafe_bind; [apply bsafe_elect; intros i b Hb Hi Es _; by apply bsafe_sendpath|intros _]. apply bsafe_bind; [bsafely|intros _]. apply bruns_get. intros b Hb. apply bsafe_when. intros H%andb_true_iff. destruct H as [Hf _]. assert (Hsome : is_Some fp) by (eapply fec_is_some; eauto using bs_session).
    unfold bond_fecOnSend. destruct (Retransmit pkt); [apply bsafe_ret|]. unfold bsafe. apply bsafe_bind; [apply bsafe_session; by apply safe_parity|]. intros fps. apply bsafe_each. intros p _. by apply bsafe_sendFEC.
  - intros c l Ec. assert (Hne : codecs b0 <> []) by (by rewrite Ec). unfold sendBondMediaPerPath. cbv zeta. rewrite <-Ec in Hne || idtac.
    assert (HS : forall i b, bsound b -> 0 <= i < Z.of_nat n -> sender = true -> bondPathAuthed i b = true -> bsafe (r ← own_codec pbkdf2 aes (u8 i) pkt; match r with None => bnop | Some dg => send_path (u8 i) pkt dg end)).
    { intros i b Hb Hi Es Ha. rewrite u8_index by done. unfold bsafe. apply bsafe_bind; [apply (bsafe_own i pkt b Hb); [|lia|done]|intros [dg|]; [by apply bsafe_sendpath|apply bsafe_ret]]. intros E. apply (f_equal length) in E. rewrite (bs_codecs b Hb), <-(bs_codecs b0 H0) in E. by destruct (codecs b0). }
    apply bsafe_bind; [by apply bsafe_fan|intros _]. apply bsafe_bind; [by apply bsafe_elect|intros _]. bsafely.
Qed.
#[local] Hint Resolve bsafe_media : bsafe.

(** ** Feedback *)

Lemma bsafe_encodeFeedback lead fbs : bsafe (encodeBondFeedback pbkdf2 aes lead fbs).
Proof.
  unfold encodeBondFeedback, bsafe. apply bruns_get. intros b Hb. apply bsafe_session. pose proof (bs_session b Hb) as Hs. rewrite (so_main _ _ _ _ _ _ Hs). case_eq m; intros Em; [apply safe_main_call; [done|intros; apply encodeMainFeedback_total]|].
  destruct (s_advGRE (b_session b)) as [g|] eqn:Eg; [apply safe_gre_call; [by apply (gre_on _ _ _ _ _ _ g Hs)|intros; apply encodeMainFeedback_total]|]. apply safe_mbind; [apply safe_attempt, BuildCompound_total|intros; apply safe_mret].
Qed.
Lemma bsafe_writeFeedback conn dg r1 r2 : conn_ok conn -> bsafe (writeBondFeedback conn dg r1 r2).
Proof. intros Hc. unfold writeBondFeedback. bsafely. Qed.
Lemma bsafe_keep dg : bsafe (keep_buffer dg).
Proof. unfold keep_buffer. bsafely. bsame. Qed.
#[local] Hint Resolve bsafe_encodeFeedback bsafe_writeFeedback bsafe_keep safe_report safe_encodeLQM : bsafe.

Lemma bsafe_known w l sent : (forall i r, i ∈ l -> bsafe (w i r)) -> (forall i, i ∈ l -> 0 <= i < Z.of_nat n) -> bsafe (fan_known w l sent).
Proof.
  revert sent. induction l as [|i l IH]; intros sent Hw Hl; cbn [fan_known]; [apply bsafe_ret|]. assert (IH' : forall c, bsafe (fan_known w l c)) by (intros c; apply IH; intros; [apply Hw|apply Hl]; apply elem_of_cons; by right).
  unfold bsafe. apply bruns_get. intros b Hb. apply bsafe_bind; [apply bsafe_peer, Hl; [done|apply elem_of_cons; by left]|]. intros p. destruct (negb _); [apply IH'|]. apply bsafe_bind; [apply Hw, elem_of_cons; by left|]. intros ok. apply IH'.
Qed.
Lemma peer_index b i : bsound b -> i ∈ indices (peers b) -> 0 <= i < Z.of_nat n.
Proof. intros Hb Hi. apply elem_indices in Hi. unfold zlen in Hi. by rewrite (bs_peers b Hb) in Hi. Qed.

Lemma bsafe_fanFeedback fbs now : sender = false -> bsafe (fanReceiverFeedback pbkdf2 aes fbs now).
Proof.
  intros Es. unfold fanReceiverFeedback, bsafe. apply bsafe_bind; [bsafely|intros lead]. apply bsafe_bind; [bsafely|]. intros [dg|]; [|apply bsafe_ret]. apply bsafe_bind; [bsafely|intros _]. apply bruns_get. intros b Hb. apply bsafe_bind; [|intros sent; bsafely].
  apply bsafe_known; intros i; [intros r Hi|]; [|by apply peer_index]. apply (peer_index b) in Hi; [|done]. by apply bsafe_writeFeedback, path_conn.
Qed.
(** The paths of the group are all known to the peers, so the predicate is never out of range. *)
Lemma pick_asked candidate known k better ps : Forall (fun p => known (bonding.Index p) = Some (k (bonding.Index p))) ps -> forall best,
  pick_known candidate known better ps best = Some (bonding.pick (fun p => candidate p && bonding.usable (Some k) p) better ps best).
Proof.
  induction 1 as [|p ps Hp _ IH]; intros best; [done|]. cbn [pick_known bonding.pick]. unfold bonding.usable. destruct (candidate p); [rewrite Hp|]; cbn [mbind option_bind andb]; apply IH.
Qed.
Lemma select_asked now known k g : Forall (fun p => known (bonding.Index p) = Some (k (bonding.Index p))) (bonding.paths g) -> select_nack_path now known g = Some (bonding.SelectNackPath now (Some k) g).
Proof.
  intros Hk. unfold select_nack_path, bonding.SelectNackPath. rewrite !(pick_asked _ _ k) by done. cbn [mbind option_bind]. destruct (bonding.pick _ _ _ _); [done|]. by destruct (bonding.pick _ _ _ _).
Qed.

Lemma bsafe_route fbs now : sender = false -> bsafe (routeReceiverNacks pbkdf2 aes fbs now).
Proof.
  intros Es. unfold routeReceiverNacks, bsafe. apply bruns_get. intros b Hb. rewrite (select_asked now _ (fun i => default false (addr_known b i))).
  2:{ pose proof (bs_group b Hb) as HG. rewrite Forall_fmap in HG. eapply Forall_impl; [exact HG|]. intros p Hp. unfold addr_known. destruct (lookup_lt_is_Some_2 (peers b) (Z.to_nat (bonding.Index p))) as [q Hq]; [rewrite (bs_peers b Hb); cbn in Hp; lia|]. by rewrite Hq. }
  destruct (bonding.SelectNackPath _ _ _) as [idx ok] eqn:En. apply (bruns_bind _ _ (fun r => r = (idx, ok))); [by intros b1 H1|]. intros _ ->. destruct ok; [|apply bsafe_ret]. cbn [negb].
  assert (Hi : 0 <= idx < Z.of_nat n) by (apply nack_path_in in En; pose proof (bs_group b Hb) as HG; rewrite Forall_forall in HG; by apply HG).
  apply bsafe_bind; [by apply bsafe_peer|intros p]. pose proof (path_conn idx Hi Es). bsafely.
Qed.
Lemma bsafe_sendFeedback fbs now : bsafe (sendBondFeedback pbkdf2 aes WallNTP fbs now).
Proof.
  unfold sendBondFeedback, bsafe. apply bruns_get. intros b Hb. rewrite (so_sender _ _ _ _ _ _ (bs_session b Hb)). case_eq sender; intros Es.
  - apply bsafe_bind; [bsafely|]. intros [dg|]; [|apply bsafe_ret]. apply bsafe_bind; [bsafely|intros _]. apply bsafe_bind; [|intros _; bsafely]. apply bsafe_each. intros i Hi. destruct (remote_index b i Hb Hi) as [Hn _]. pose proof (first_conn Es). bsafely.
  - apply bsafe_bind; [apply bsafe_when; intros _; by apply bsafe_fanFeedback|intros _]. apply bsafe_when. intros _. by apply bsafe_route.
Qed.
#[local] Hint Resolve bsafe_sendFeedback bsafe_retransmit bsafe_start : bsafe.

Lemma bsafe_keepalive now : bsafe (bond_keepalive pbkdf2 aes WallNTP now).
Proof.
  unfold bond_keepalive, bsafe. apply bruns_get. intros b0 _. destruct (OneWay _); [apply bsafe_ret|]. unfold sendBondKeepalive. apply bruns_get. intros b Hb. apply bsafe_bind; [bsafely|intros _]. rewrite (so_sender _ _ _ _ _ _ (bs_session b Hb)). case_eq sender; intros Es; [apply bsafe_sendFeedback|by apply bsafe_fanFeedback].
Qed.
Lemma bsafe_feedback fbs now : bsafe (bond_feedback pbkdf2 aes WallNTP fbs now).
Proof. unfold bond_feedback. bsafely. Qed.
#[local] Hint Resolve bsafe_keepalive bsafe_feedback : bsafe.

Lemma bsafe_LQM now : sender = false -> bsafe (bond_sendLQM pbkdf2 aes now).
Proof.
  intros Es. unfold bond_sendLQM, bsafe. apply bruns_get. intros b0 _. destruct (_ <? _); [apply bsafe_ret|]. apply bsafe_bind; [bsafely|]. intros [[dg ms]|]; [|apply bsafe_ret]. unfold writeBondLQM. apply bruns_get. intros b Hb. apply bsafe_bind; [|intros sent; bsafely].
  apply bsafe_known; intros i; [intros r Hi|]; [|by apply peer_index]. apply (peer_index b) in Hi; [|done]. by apply bsafe_write, path_conn.
Qed.

(** ** The loop *)

Lemma bsafe_outputs k now fbs : bsafe (bond_outputs pbkdf2 aes k now fbs).
Proof. revert fbs. induction k as [|k IH]; intros fbs; cbn [bond_outputs]; bsafely; try bsame. apply runs_get. intros s _. apply safe_when. intros _. apply safe_update. bsame. Qed.
#[local] Hint Resolve bsafe_outputs : bsafe.
Lemma bsafe_drain now : bsafe (bond_drain pbkdf2 aes WallNTP now).
Proof. unfold bond_drain. bsafely. apply runs_get. intros s _. apply safe_events. Qed.
#[local] Hint Resolve bsafe_drain safe_alive safe_retransmit safe_push_block safe_flowAttr bsafe_fec : bsafe.

Lemma bsafe_tick now : bsafe (bond_tick pbkdf2 aes WallNTP now).
Proof.
  unfold bond_tick, bsafe. apply bsafe_bind; [bsafely|]. intros []; [|apply bsafe_ret]. apply bsafe_bind; [bsafely|]. intros []; [|apply bsafe_ret]. apply bsafe_bind.
  { apply bsafe_group. intros g. unfold bonding.Tick. pose proof (bonding.tick_paths_index now (bonding.timeout g) (bonding.paths g)) as E. by destruct (bonding.tick_paths _ _ _). }
  intros _. apply bsafe_bind; [bsafely|intros _]. apply bruns_get. intros b Hb. apply bsafe_bind; [|intros _; apply bsafe_ret]. apply bsafe_when. intros H%andb_true_iff. destruct H as [H%andb_true_iff _]. destruct H as [_ H]. rewrite (so_sender _ _ _ _ _ _ (bs_session b Hb)) in H. by apply bsafe_LQM, negb_true_iff.
Qed.
Lemma bsafe_bond_start now : bsafe (bond_start pbkdf2 aes WallNTP now).
Proof. unfold bond_start. bsafely. bsame. Qed.

(** The bytes that arrive, and path numbers that are bytes. *)
Definition bond_input_ok (i : bond_input) : Prop :=
  match i with
  | BIn bi => 0 <= bi_idx bi /\ is_bytes (bi_data bi)
  | BPeer ps => in_u8 (ps_index ps)
  | _ => True
  end.

(** The commands that add and remove paths are taken below. *)
Lemma bsafe_handle now i : bond_input_ok i -> (forall ps, i <> BPeer ps) -> bsafe (bond_handle pbkdf2 aes sha256 WallNTP ntpNow visit (S fuel) now i).
Proof.
  intros Hi Hp. destruct i as [bi|body|w|ps|c|p|p seq st|proto d|json| |]; cbn [bond_handle]; try solve [bsafely].
  - destruct Hi as [H0 Hb]. unfold bsafe. apply bsafe_bind; [by apply bsafe_inbound|intros _; bsafely].
  - apply bsafe_group. intros g. unfold bonding.SetWeight. destruct (bonding.path g _); [|done]. cbn. rewrite <-list_fmap_compose. erewrite list_fmap_ext; [by rewrite bonding.update_path_index|]. done.
  - by destruct (Hp ps).
  - unfold bsafe. apply bsafe_bind; [apply bsafe_session; unfold fireTimers; apply runs_get; intros s _; apply safe_timers|intros _; bsafely].
Qed.
End total.

(** ** Paths added and removed *)

Section paths.
Context (m a : bool) (fp : option FECParams) (fs : Z) (sender : bool) (na nc : nat).
#[local] Abbreviation bsound_ := (bsound m a fp fs sender).

Lemma group_widen n n' b : (n <= n')%nat -> bsound_ n na nc b -> Forall (fun i => 0 <= i < Z.of_nat n') (bonding.Index <$> bonding.paths (b_group b)).
Proof. intros Hn Hb. eapply Forall_impl; [apply (bs_group _ _ _ _ _ _ _ _ _ Hb)|]. cbn. lia. Qed.

(** The slots a sender grows: all of them, and none past the index. *)
Lemma grow_sound k index timeout n b : sender = true -> 0 <= index -> bsound_ n na nc b ->
  exists n', bsound_ n' na nc (grow_slots k index timeout b) /\ (n <= n' <= Nat.max n (S (Z.to_nat index)))%nat /\ (index < Z.of_nat n + Z.of_nat k -> index < Z.of_nat n').
Proof.
  intros Es H0. revert n b. induction k as [|k IH]; intros n b Hb; cbn [grow_slots]; [exists n; split; [done|lia]|]. destruct (Z.ltb_spec index (zlen (remotes b))) as [Hl|Hl]; unfold zlen in Hl; rewrite (bs_remotes _ _ _ _ _ _ _ _ _ Hb), Es in Hl; [exists n; split; [done|lia]|].
  edestruct (IH (S n)) as (n' & HS & Hn & Hi); [|exists n'; split; [exact HS|lia]]. pose proof (group_widen n (S n) b ltac:(lia) Hb) as HG. destruct Hb as [H1 H2 H3 H4 H5 H6 H7 H8 H9]. rewrite Es in H4. split; try done; cbn; [rewrite length_app, H2; cbn; lia|by rewrite H3, Es|rewrite Es, length_app, H4; cbn; lia].
Qed.

Lemma added_sound n b index weight priority : bsound_ n na nc b -> 0 <= index < Z.of_nat n -> bsound_ n na nc (b <| b_group ::= bonding.AddPath index weight priority |>).
Proof.
  intros [H1 H2 H3 H4 H5 H6 H7 H8 H9] Hi. split; try done. cbn. unfold bonding.AddPath. destruct (bonding.path _ _); cbn; [by rewrite bonding.update_path_index|]. rewrite fmap_app. apply Forall_app. split; [done|]. by apply Forall_singleton.
Qed.
Lemma removed_sound n b index : bsound_ n na nc b -> bsound_ n na nc (b <| b_group ::= fun g => (bonding.RemovePath index g).2 |>).
Proof.
  intros [H1 H2 H3 H4 H5 H6 H7 H8 H9]. split; try done. cbn. unfold bonding.RemovePath. destruct (bonding.remove_path _ _) as [ps|] eqn:E; [|done]. destruct (bonding.remove_path_spec _ _ _ E) as (p & l & k & Hps & _ & ->). cbn. rewrite Hps in H5. rewrite fmap_app in *. apply Forall_app in H5 as [G1 G2]. apply Forall_app. split; [done|]. by apply Forall_cons in G2 as [_ ?].
Qed.

Lemma peer_sound ps n b : in_u8 (ps_index ps) -> shape m n na nc -> bsound_ n na nc b ->
  exists n' b', applyPeerCmd ps b = (Ok tt, b') /\ bsound_ n' na nc b' /\ shape m n' na nc.
Proof.
  intros Hi Hsh Hb. assert (Hroom : forall n', (n <= n' <= 256)%nat -> shape m n' na nc) by (intros n' Hn; destruct Hsh as [G1 G2 G3 G4]; split; [lia|lia|done..]). unfold in_u8 in Hi. pose proof (so_sender _ _ _ _ _ _ (bs_session _ _ _ _ _ _ _ _ b Hb)) as Es. pose proof (room _ _ _ _ Hsh) as Hr.
  unfold applyPeerCmd, mbind, sres_bind, bget. cbn beta iota zeta. destruct (ps_remove ps).
  - pose proof (removed_sound n b (ps_index ps) Hb) as HR. cbn. rewrite Es. destruct sender; cbn; [by exists n; eexists|]. exists n. eexists. split; [done|]. split; [|done]. destruct HR as [H1 H2 H3 H4 H5 H6 H7 H8 H9]. split; try done. cbn. rewrite length_alter. exact H3.
  - destruct (bonding.HasPath _ _); [by exists n, b|]. destruct (s_sender (b_session b)); pose proof (eq_sym Es) as Es'.
    + destruct (grow_sound 256 (ps_index ps) (SessionTimeout (s_cfg (b_session b))) n b Es' (proj1 Hi) Hb) as (n' & HS & Hn & Hx). set (b1 := grow_slots 256 (ps_index ps) (SessionTimeout (s_cfg (b_session b))) b) in *. cbn beta iota.
      destruct (lookup_lt_is_Some_2 (peers b1) (Z.to_nat (ps_index ps))) as [q1 Hq1]; [rewrite (bs_peers _ _ _ _ _ _ _ _ _ HS); lia|]. destruct (lookup_lt_is_Some_2 (remotes b1) (Z.to_nat (ps_index ps))) as [q2 Hq2]; [rewrite (bs_remotes _ _ _ _ _ _ _ _ _ HS), Es'; lia|].
      unfold at_, modify. cbn beta iota. fold b1. rewrite Hq1. cbn beta iota. unfold mret, sres_ret. cbn beta iota. rewrite Hq2. cbn beta iota. exists n'. eexists. split; [reflexivity|]. split; [|apply Hroom; lia]. apply added_sound; [|lia].
      revert HS. clearbody b1. intros [H1 H2 H3 H4 H5 H6 H7 H8 H9]. split; try done; cbn; by rewrite length_insert.
    + destruct (_ || _) eqn:Ec; [by exists n, b|]. apply orb_false_iff in Ec as [Ec _]. apply negb_false_iff, Z.eqb_eq in Ec. unfold zlen in Ec. rewrite (bs_conns _ _ _ _ _ _ _ _ b Hb), Es' in Ec. exists (S n). eexists. split; [reflexivity|]. split; [|apply Hroom; lia]. apply added_sound; [|lia].
      pose proof (group_widen n (S n) b ltac:(lia) Hb) as HG. destruct Hb as [H1 H2 H3 H4 H5 H6 H7 H8 H9]. rewrite Es' in H3, H4. split; try done; cbn; [rewrite length_app, H2; cbn; lia|rewrite Es', length_app, H3; cbn; lia|by rewrite Es'].
Qed.
End paths.

Lemma bond_loop_total pbkdf2 aes sha256 WallNTP ntpNow visit fuel m a fp fs sender n na nc ins b :
  (forall key b, length (aes key b) = 16%nat) -> (forall key b, is_bytes (aes key b)) -> (forall b, is_bytes (sha256 b)) -> (a = true -> fp = None) -> (forall f, fp = Some f -> SeparatePorts f = true) ->
  shape m n na nc -> bsound m a fp fs sender n na nc b -> Forall (fun ti => bond_input_ok ti.2) ins ->
  exists b', bond_loop pbkdf2 aes sha256 WallNTP ntpNow visit (S fuel) ins b = (Ok tt, b').
Proof.
  intros Hal Hab Hsb Hfp Hfs Hsh Hb Hins. revert n b Hsh Hb. induction Hins as [|[now i] ins Hi _ IH]; intros n b Hsh Hb; cbn [bond_loop]; [by exists b|].
  assert (HS : exists n' more b', bond_step pbkdf2 aes sha256 WallNTP ntpNow visit (S fuel) now i b = (Ok more, b') /\ shape m n' na nc /\ bsound m a fp fs sender n' na nc b').
  { assert (HR : forall (x : B bool), bsafe m a fp fs sender n na nc x -> exists n' more b', x b = (Ok more, b') /\ shape m n' na nc /\ bsound m a fp fs sender n' na nc b').
    { intros x Hx. specialize (Hx b Hb). destruct (x b) as [[more|e|] b1]; [|done..]. destruct Hx as [Hx _]. by exists n, more, b1. }
    assert (HH : (forall ps, i <> BPeer ps) -> bsafe m a fp fs sender n na nc (bond_handle pbkdf2 aes sha256 WallNTP ntpNow visit (S fuel) now i ;; mret true)) by (intros Hp; apply bsafe_bind; [by apply bsafe_handle|intros _; apply bsafe_ret]).
    destruct i; try (apply HR, HH; done); [|apply HR; by apply bsafe_tick]. destruct (peer_sound m a fp fs sender na nc ps n b Hi Hsh Hb) as (n' & b1 & E & Hb1 & Hsh1). exists n', true, b1. split; [|done]. cbn [bond_step bond_handle]. unfold mbind, sres_bind. by rewrite E. }
  destruct HS as (n' & more & b1 & E & Hsh1 & Hb1). unfold mbind, sres_bind. rewrite E. destruct more; [by apply (IH n')|by exists b1].
Qed.

(** ** Properties *)

(** The paths the host may have registered, and the roles of the paths: none, or one per path of the Main profile, as their constructors make them.  Keys that come from
    the authentication need one. *)
Record bond_setup (n : nat) (group : bonding.Group) (cfg : Config) (servers : list authenticator.Authenticator) (clients : list authenticatee.Authenticatee) : Prop := {
  bp_room : (1 <= n <= 256)%nat;
  bp_group : Forall (fun i => 0 <= i < Z.of_nat n) (bonding.Index <$> bonding.paths group);
  bp_roles : length servers ∈ [0%nat; n] /\ length clients ∈ [0%nat; n];
  bp_main : servers <> [] \/ clients <> [] -> main_profile cfg = true;
  bp_servers : Forall (fun c => exists lookup v legacy, authenticator.newAuthenticator (Some lookup) v legacy = Ok c) servers;
  bp_clients : Forall (fun c => exists user pw, authenticatee.NewAuthenticatee user pw = Ok c) clients;
  bp_keys : forall mp, c_Main cfg = Some mp -> mp_UseKeyAsPassphrase mp = true -> servers <> [] \/ clients <> [] }.

Lemma register_group n group : (n <= 256)%nat -> Forall (fun i => 0 <= i < Z.of_nat n) (bonding.Index <$> bonding.paths group) ->
  Forall (fun i => 0 <= i < Z.of_nat n) (bonding.Index <$> bonding.paths (register n group)).
Proof.
  intros Hn. unfold register. assert (HI : Forall (fun i => 0 <= i < Z.of_nat n) (seqZ 0 (Z.of_nat n))) by (apply Forall_forall; intros i Hi; apply elem_of_seqZ in Hi; lia).
  revert group. induction HI as [|i l Hi _ IH]; intros group HG; [done|]. cbn [foldl]. apply IH. assert (Hu : u8 i = i) by (unfold u8, uwrap; apply Z.mod_small; change (2 ^ 8) with 256; lia). rewrite Hu.
  unfold bonding.HasPath, bonding.AddPath. destruct (bonding.path group i) eqn:E; [done|]. cbn. rewrite fmap_app. apply Forall_app. split; [done|]. by apply Forall_singleton.
Qed.

Lemma hold_sound held m a fp fs sd s : sound m a fp fs sd s -> sound m a fp fs sd (hold held s).
Proof. intros Hs. destruct held; [|done]. revert Hs. apply sound_view; reflexivity. Qed.

(** What the roles and codecs of the paths are once built. *)
Lemma build_sound m a fp fs sender n b : bsound m a fp fs sender n (length (auth b)) 0 b -> (n <= 256)%nat -> length (auth b) ∈ [0%nat; n] -> (auth b <> [] -> m = true) ->
  (useKeyAsPassphrase (s_eap (b_session b)) = true -> is_Some (s_main (b_session b)) -> auth b <> []) ->
  exists na nc, shape m n na nc /\ bsound m a fp fs sender n na nc (buildBondCodecs n b).
Proof.
  intros Hb Hn Hl Hm Hk. rewrite !elem_of_cons, elem_of_nil in Hl. assert (Hm' : length (auth b) <> 0%nat -> m = true) by (intros H; apply Hm; intros E; by rewrite E in H). exists (length (auth b)). unfold buildBondCodecs. assert (HP : exists nc, shape m n (length (auth b)) nc /\ bsound m a fp fs sender n (length (auth b)) nc b) by (exists 0%nat; split; [split; [done|lia|done|by left]|done]).
  destruct (useKeyAsPassphrase _); [|exact HP]. destruct (s_main (b_session b)) as [c|]; [|exact HP]. exists n. specialize (Hk eq_refl ltac:(done)). assert (Hna : length (auth b) <> 0%nat) by (by destruct (auth b)).
  assert (E : length (auth b) = n) by (destruct Hl as [Hl|[Hl|[]]]; done). split; [split; [done|lia|done|by right]|]. destruct Hb as [H1 H2 H3 H4 H5 H6 H7 H8 H9]. split; try done; cbn; [|by rewrite length_fmap|by rewrite length_replicate].
  apply Forall_fmap. eapply Forall_impl; [exact H6|]. intros x [G1 G2]. split; cbn; intros y Hy; apply fmap_Some in Hy as (y0 & Ey & ->); [specialize (G1 y0 Ey); unfold authenticatee.UseKeyAsPassphrase|specialize (G2 y0 Ey); unfold authenticator.UseKeyAsPassphrase]; by destruct (bool_decide _).
Qed.

Lemma newSession_keys cfg sd mac w : useKeyAsPassphrase (s_eap (newSession cfg sd mac w)) = true -> exists mp, c_Main cfg = Some mp /\ mp_UseKeyAsPassphrase mp = true.
Proof. unfold newSession. destruct (c_Main cfg) as [mp|]; [|destruct (c_Adv cfg); done]. intros H. by exists mp. Qed.

(** How a bonded session is opened. *)
Definition bonded (n : nat) (group : bonding.Group) (cfg : Config) (servers : list authenticator.Authenticator) (clients : list authenticatee.Authenticatee) (mac : bytes) (w : world) (b : Bond) : Prop :=
  clients = [] /\ b = NewBondedReceiver n group cfg servers mac w \/ clients = [] /\ servers = [] /\ b = NewBondedInjectedReceiver n group cfg mac w \/
  servers = [] /\ exists rs, length rs = n /\ NewBondedSender rs group cfg clients mac w = Some b.

Lemma bonded_sound n group cfg servers clients mac w b : fresh_roles cfg -> ring_fits cfg -> bond_setup n group cfg servers clients -> bonded n group cfg servers clients mac w b ->
  exists sd na nc, shape (main_profile cfg) n na nc /\ bsound (main_profile cfg) (adv_profile cfg) (c_FEC cfg) (FragmentSize cfg) sd n na nc b.
Proof.
  intros Hr Hring [Hn HG [Hl1 Hl2] Hm Hsv Hcl Hk] Ho. pose proof (register_group n group ltac:(lia) HG) as HR. rewrite elem_of_cons in Hl1, Hl2.
  assert (HN : forall held sd, sound (main_profile cfg) (adv_profile cfg) (c_FEC cfg) (FragmentSize cfg) sd (hold held (newSession cfg sd mac w))) by (intros; by apply hold_sound, newSession_sound).
  assert (HK : forall held sd, useKeyAsPassphrase (s_eap (hold held (newSession cfg sd mac w))) = true -> servers <> [] \/ clients <> []) by (intros held sd H; destruct (newSession_keys cfg sd mac w) as (mp & E1 & E2); [by destruct held|by apply (Hk mp)]).
  destruct Ho as [[-> ->]|[(-> & -> & ->)|(-> & rs & Hrs & Hb)]].
  - exists false. unfold NewBondedReceiver. match goal with |- context [buildBondCodecs n ?x] => set (b0 := x) end. destruct (build_sound (main_profile cfg) (adv_profile cfg) (c_FEC cfg) (FragmentSize cfg) false n b0) as (na & nc & H1 & H2).
    + split; try done; cbn; [apply HN|by rewrite !length_replicate..|]. apply Forall_fmap. eapply Forall_impl; [exact Hsv|]. intros c (lookup & v & legacy & E). split; [done|]. intros c' [= <-]. by eapply fresh_server_ok.
    + lia.
    + cbn. rewrite length_fmap. by rewrite elem_of_cons.
    + cbn. intros H. apply Hm. left. by intros ->.
    + intros H _. cbn. apply HK in H as [H|H]; [|done]. by destruct servers.
    + by exists na, nc.
  - exists false, 0%nat, 0%nat. split; [split; [lia|lia|done|by left]|]. split; try done; cbn; [by apply (HN false)|by rewrite length_replicate..].
  - exists true. unfold NewBondedSender in Hb. destruct rs as [|r0 rs0] eqn:Er; [done|]. rewrite <-Er in *. injection Hb as <-. match goal with |- context [buildBondCodecs ?k ?x] => set (b0 := x) end.
    destruct (build_sound (main_profile cfg) (adv_profile cfg) (c_FEC cfg) (FragmentSize cfg) true n b0) as (na & nc & H1 & H2).
    + split; try done; cbn; [apply HN|rewrite length_fmap; done|rewrite Hrs; by apply HR|]. apply Forall_fmap. eapply Forall_impl; [exact Hcl|]. intros c (user & pw & E). split; [|done]. intros c' [= <-]. by eapply fresh_client_ok.
    + lia.
    + cbn. rewrite length_fmap. by rewrite elem_of_cons.
    + cbn. intros H. apply Hm. right. by intros ->.
    + intros H _. cbn. apply HK in H as [H|H]; [done|]. by destruct clients.
    + exists na, nc. split; [done|]. rewrite <-Hrs in H2 at 2. destruct H2 as [G1 G2 G3 G4 G5 G6 G7 G8 G9]. split; try done. cbn. revert G1. apply sound_view; reflexivity.
Qed.

(** C17: A bonded session never panics.  Whichever way it was opened (a receiver with sockets of its own or with shared ones, a sender), with one to 256 paths, with or without authentication of
    its paths, and whatever it then goes through (any bytes on any path, from any address, paths added and removed by the application, weights changed, timers, ticks,
    writes that fail), no handler panics: no index is out of range of the sockets, peers, addresses, roles and codecs of the paths, the predicate of the NACK routing and the
    assignments of a path that is added included, nor of the flow's ring, though paths are added that have no role and no codec.  The paths the host registered are among those there are, the roles
    are as their constructors make them, none or one per path of the Main profile (keys that come from the authentication need them); the flow's ring has at most 2^31 slots; AES and SHA-256
    return bytes, AES blocks of 16; FEC, where it is used, has its own ports, and there is none on the Advanced profile. *)
Theorem bond_never_panics pbkdf2 aes sha256 WallNTP ntpNow visit fuel n group cfg servers clients mac w b now ins :
  (forall key b, length (aes key b) = 16%nat) -> (forall key b, is_bytes (aes key b)) -> (forall b, is_bytes (sha256 b)) -> fresh_roles cfg -> ring_fits cfg -> plain_fec cfg ->
  bond_setup n group cfg servers clients -> bonded n group cfg servers clients mac w b -> Forall (fun ti => bond_input_ok ti.2) ins ->
  exists b', (bond_start pbkdf2 aes WallNTP now ;; bond_loop pbkdf2 aes sha256 WallNTP ntpNow visit (S fuel) ins) b = (Ok tt, b').
Proof.
  intros Hal Hab Hsb Hr Hring Hf Hp Ho Hi. destruct (bonded_sound n group cfg servers clients mac w b Hr Hring Hp Ho) as (sd & na & nc & Hsh & Hb).
  assert (P1 : adv_profile cfg = true -> c_FEC cfg = None). { intros Ha. destruct (c_FEC cfg) as [f|] eqn:Ef; [|done]. destruct (Hf f Ef) as [_ H]. congruence. }
  assert (P2 : forall f, c_FEC cfg = Some f -> SeparatePorts f = true) by (intros f Ef; apply (Hf f Ef)).
  assert (H : bsafe (main_profile cfg) (adv_profile cfg) (c_FEC cfg) (FragmentSize cfg) sd n na nc (bond_start pbkdf2 aes WallNTP now)) by (by eapply bsafe_bond_start).
  specialize (H b Hb). unfold mbind, sres_bind. destruct (bond_start pbkdf2 aes WallNTP now b) as [[u|e|] b1]; [|done..]. destruct H as [H _]. by eapply bond_loop_total.
Qed.

(** Two paths that authenticate their callers; a third path is added, the second one removed. *)
Definition demo_bond_cfg : Config := demo_main_cfg <| c_Main := Some (mkMainParams None None false false 1971 1968 None None true false 0) |>.
Definition demo_servers : list authenticator.Authenticator := [handshake.demo_server0; handshake.demo_server0].
Definition demo_group : bonding.Group := bonding.NewGroup 1000000 0 5000 500000.
Definition demo_bond : Bond := NewBondedReceiver 2 demo_group demo_bond_cfg demo_servers (replicate 6 0) demo_main_world.
Definition demo_bond_inputs : list (Z * bond_input) :=
  [(1000, BIn (mkBondInbound 0 false (framed_eap eap.startFrame) demo_src)); (2000, BIn (mkBondInbound 1 false [0x30; 8; 1] demo_src)); (2500, BPeer (mkPeerSet false 2 (AddrPort_zero, AddrPort_zero) true 0 0));
   (3000, BIn (mkBondInbound 2 false (framed_eap eap.startFrame) demo_src)); (3500, BPeer (mkPeerSet true 1 (AddrPort_zero, AddrPort_zero) false 0 0)); (4000, BTick); (5000, BTimer); (6000, BIn (mkBondInbound 9 false [] demo_src))].

Lemma bond_never_panics_witness : exists b,
  (bond_start psk.demo_pbkdf2 psk.demo_aes (fun t => t) 0 ;; bond_loop psk.demo_pbkdf2 psk.demo_aes handshake.tiny_sha (fun t => t) (fun t => t) demo_visit 1 demo_bond_inputs) demo_bond = (Ok tt, b).
Proof.
  apply (bond_never_panics psk.demo_pbkdf2 psk.demo_aes handshake.tiny_sha (fun t => t) (fun t => t) demo_visit 0 2 demo_group demo_bond_cfg demo_servers [] (replicate 6 0) demo_main_world demo_bond 0 demo_bond_inputs psk.demo_aes_len demo_aes_bytes handshake.tiny_sha_bytes).
  - intros mp [= <-]. by split.
  - vm_compute. discriminate.
  - done.
  - split.
    + lia.
    + apply Forall_nil. exact I.
    + split; [apply elem_of_cons; right|]; apply elem_of_cons; by left.
    + done.
    + repeat (apply Forall_cons; split; [by exists handshake.demo_lookup, eap.eapVersion3, false|]). apply Forall_nil. exact I.
    + apply Forall_nil. exact I.
    + intros. by left.
  - by left.
  - assert (HB : is_bytes (framed_eap eap.startFrame)) by (let b := eval vm_compute in (framed_eap eap.startFrame) in change (is_bytes b); repeat constructor; done).
    repeat (apply Forall_cons; split; [first [exact I|split; [done|first [exact HB|repeat constructor; done]]|split; done]|]). apply Forall_nil. exact I.
Defined.
End sessionbondtotal.
