(* ===== verification/Multi.v ===== *)
(** * Several flows on one socket: the demultiplexer

    src/internal/session/multi.go: a [MultiReceiver] reads the shared socket (or the sockets of the bonded paths), finds the flow a datagram belongs to (its SSRC on the Simple
    profile, its source address on a single port), makes the flow's session when the flow is new, and hands the datagram to it.  Readers, the goroutine that retires a session,
    the application and the sessions run concurrently; a run is a sequence of [event]s, each of which is atomic in the code: a reader's turn up to the end of [flowFor]
    (which holds the mutex), the hand-over, the end of a session, its retirement (which holds the mutex), [Accept], and [Close] before and after it waits.

    A session is seen from here as what was injected into it and whether it has ended; what it does with it is modelled by Session and SessionBond. *)

From stdpp Require Import gmap sorting.
From S2P Require Import Prelude Bytes Rtp FlowTypes Split Peer Session SessionLoop SessionBond.

Module multi.
Import peer session sessionloop sessionbond.

(** ** Keys *)

(** [map[any]*Session] is keyed by a [uint32] or by a [netip.AddrPort]. *)
Inductive key := KeySSRC (ssrc : Z) | KeySource (src : AddrPort).
#[export] Instance key_eq_dec : EqDecision key.
Proof. solve_decision. Defined.
Definition key_code (k : key) : Z + option (Z + Z * list Z) * Z :=
  match k with KeySSRC s => inl s | KeySource a => inr (match ap_addr a with AddrZero => None | Addr4 x => Some (inl x) | Addr6 x z => Some (inr (x, z)) end, ap_port a) end.
Definition key_decode (c : Z + option (Z + Z * list Z) * Z) : key :=
  match c with inl s => KeySSRC s | inr (a, p) => KeySource (mkAddrPort (match a with None => AddrZero | Some (inl x) => Addr4 x | Some (inr (x, z)) => Addr6 x z end) p) end.
#[export] Instance key_countable : Countable key.
Proof. apply (inj_countable' key_code key_decode). by intros [s|[[|x|x z] p]]. Defined.

Definition rtpHeaderSize : Z := 12.
Definition peekMediaSSRC (b : bytes) : res Empty_set (option Z) := if zlen b <? rtpHeaderSize then Ok None else x ← slc b 8 12; x ← Uint32 x; Ok (Some (NormalizeSSRC x)).
Definition peekRTCPSSRC (b : bytes) : res Empty_set (option Z) := if zlen b <? 8 then Ok None else x ← slc b 4 8; x ← Uint32 x; Ok (Some (NormalizeSSRC x)).

(** ** State *)

(** The reader goroutines: of the media and the RTCP socket, of the single socket, of a socket of a bonded path. *)
Inductive reader := ReadMedia | ReadRTCP | ReadSingle | ReadBondPath (idx : Z) (isRTCP : bool) | ReadBondPathSingle (idx : Z).
#[export] Instance reader_eq_dec : EqDecision reader.
Proof. solve_decision. Defined.

(** A datagram on its way into a session: who read it, its number among all that were read, its bytes and its source. *)
Record injected := mkInjected { i_reader : reader; i_no : nat; i_data : bytes; i_src : AddrPort }.
(** What a session is told of it: the input of its loop, or of the loop of a bonded session. *)
Definition Inject (s : Session) (data : bytes) (src : AddrPort) : input := if is_main s then InMain src data else if is_adv s then InAdv src data else InMedia src data.
Definition InjectMedia (data : bytes) (src : AddrPort) : input := InMedia src data.
Definition InjectRTCP (data : bytes) (src : AddrPort) : input := InRTCP src data.
Definition InjectBond (idx : Z) (isRTCP : bool) (data : bytes) (src : AddrPort) : bond_input := BIn (mkBondInbound idx isRTCP data src).
Definition given (s : Session) (i : injected) : input + bond_input :=
  match i_reader i with
  | ReadMedia => inl (InjectMedia (i_data i) (i_src i))
  | ReadRTCP => inl (InjectRTCP (i_data i) (i_src i))
  | ReadSingle => inl (Inject s (i_data i) (i_src i))
  | ReadBondPath idx isRTCP => inr (InjectBond idx isRTCP (i_data i) (i_src i))
  | ReadBondPathSingle idx => inr (InjectBond idx false (i_data i) (i_src i))
  end.

Record flowSession := mkFlowSession { f_key : key; f_cfg : Config; f_in : list injected; f_done : bool }.
#[export] Instance eta_flowSession : Eta flowSession := fun f => mkFlowSession (f_key f) (f_cfg f) (f_in f) (f_done f).

(** [sessions]: every session ever made, which the map, the queue and the application name by its position; [accepted]: what the application took; [hands]: what the readers
    are about to inject, and into which session; [reads]: the datagrams read so far. *)
Record MultiReceiver := mkMulti {
  m_cfg : Config; m_single : bool; m_bonded : bool; m_paths : Z; flows : gmap key nat; sessions : list flowSession; accept : list nat; accepted : list nat; m_done : bool;
  hands : list (nat * injected); reads : list (reader * (bytes * AddrPort)) }.
#[export] Instance eta_Multi : Eta MultiReceiver := fun m =>
  mkMulti (m_cfg m) (m_single m) (m_bonded m) (m_paths m) (flows m) (sessions m) (accept m) (accepted m) (m_done m) (hands m) (reads m).

(** The sessions the factories make: receivers that own no socket. *)
Definition NewInjectedReceiver (cfg : Config) (mac : bytes) (w : world) : Session := newSession cfg false mac w.
Definition NewInjectedAdvReceiver (cfg : Config) (mac : bytes) (w : world) : Session := newSession cfg false mac w.
Definition NewInjectedMainReceiver (cfg : Config) (mac : bytes) (w : world) : Session := newSession cfg false mac w.

Definition maxFlows : Z := 256.

Definition newMulti (cfg : Config) (single : bool) : MultiReceiver := mkMulti cfg single false 0 ∅ [] [] [] false [] [].
Definition newMultiBonded (paths : Z) (cfg : Config) (single : bool) : MultiReceiver := mkMulti cfg single true paths ∅ [] [] [] false [] [].
Definition NewMultiReceiver (cfg : Config) : MultiReceiver := newMulti cfg false.
Definition NewMultiReceiverSingle (cfg : Config) : MultiReceiver := newMulti cfg true.
Definition NewMultiBondedReceiver (paths : Z) (cfg : Config) : MultiReceiver := newMultiBonded paths cfg false.
Definition NewMultiBondedReceiverSingle (paths : Z) (cfg : Config) : MultiReceiver := newMultiBonded paths cfg true.

(** The readers that were started. *)
Definition started (m : MultiReceiver) (r : reader) : bool :=
  match r with
  | ReadMedia | ReadRTCP => negb (m_bonded m) && negb (m_single m)
  | ReadSingle => negb (m_bonded m) && m_single m
  | ReadBondPath idx _ => m_bonded m && negb (m_single m) && (0 <=? idx) && (idx <? m_paths m)
  | ReadBondPathSingle idx => m_bonded m && m_single m && (0 <=? idx) && (idx <? m_paths m)
  end.

(** ** Operations *)

(** The session of a key and whether the reader stops; [built] tells whether the factory ([mkFlow] or [mkBonded]) succeeds. *)
Definition flowFor (built : bool) (k : key) (ssrc : Z) (m : MultiReceiver) : (option nat * bool) * MultiReceiver :=
  if m_done m then ((None, true), m) else
  match flows m !! k with
  | Some s => ((Some s, false), m)
  | None =>
      if maxFlows <=? Z.of_nat (size (flows m)) then ((None, false), m) else
      let cfg := if m_single m then m_cfg m else m_cfg m <| c_SSRC := ssrc |> in
      if negb built then ((None, false), m) else
      let s := length (sessions m) in
      let m := m <| flows ::= <[k := s]> |> <| sessions ::= fun l => l ++ [mkFlowSession k cfg [] false] |> in
      ((Some s, false), if zlen (accept m) <? maxFlows then m <| accept ::= fun l => l ++ [s] |> else m)
  end.

Definition by_ssrc (o : option Z) : option (key * Z) := match o with Some s => Some (KeySSRC s, s) | None => None end.
(** The key of a datagram, and the SSRC its flow reports with; [None] when it is too short to have one. *)
Definition datagram_key (r : reader) (data : bytes) (src : AddrPort) : res Empty_set (option (key * Z)) :=
  match r with
  | ReadMedia => o ← peekMediaSSRC data; Ok (by_ssrc o)
  | ReadRTCP => o ← peekRTCPSSRC data; Ok (by_ssrc o)
  | ReadBondPath _ isRTCP => o ← (if isRTCP : bool then peekRTCPSSRC data else peekMediaSSRC data); Ok (by_ssrc o)
  | ReadSingle | ReadBondPathSingle _ => Ok (Some (KeySource src, 0))
  end.

Definition retire (s : nat) (m : MultiReceiver) : MultiReceiver :=
  match sessions m !! s with
  | Some f => if bool_decide (flows m !! f_key f = Some s) then m <| flows ::= delete (f_key f) |> else m
  | None => m
  end.

Definition end_session (s : nat) (m : MultiReceiver) : MultiReceiver := m <| sessions ::= alter (fun f => f <| f_done := true |>) s |>.

(** [Accept] when there is a flow: a closed receiver may still hand out one that is queued. *)
Definition Accept (m : MultiReceiver) : option (nat * MultiReceiver) :=
  match accept m with [] => None | s :: l => Some (s, m <| accept := l |> <| accepted ::= fun a => a ++ [s] |>) end.

(** [Close] after it has waited: the flows left in the map are closed. *)
Definition close_flows (m : MultiReceiver) : MultiReceiver := m <| sessions ::= imap (fun i f => if bool_decide (flows m !! f_key f = Some i) then f <| f_done := true |> else f) |>.

(** ** Runs *)

Inductive event :=
  | Arrive (r : reader) (data : bytes) (src : AddrPort) (built : bool)
  | HandOver (r : reader) (sent : bool)
  | End (s : nat)
  | Retire (s : nat)
  | Take
  | CloseBegin
  | CloseEnd.

Inductive disabled := Disabled.

(** What a reader holds, and the others' hands. *)
Definition hand_of (r : reader) (m : MultiReceiver) : option (nat * injected) := List.find (fun h => bool_decide (i_reader h.2 = r)) (hands m).
Definition let_go (r : reader) (m : MultiReceiver) : MultiReceiver := m <| hands ::= List.filter (fun h => negb (bool_decide (i_reader h.2 = r))) |>.

(** One turn of a reader: it reads, finds the flow, and then either holds the datagram for a session, drops it, or stops. *)
Definition arrive (r : reader) (data : bytes) (src : AddrPort) (built : bool) (m : MultiReceiver) : res Empty_set MultiReceiver :=
  o ← datagram_key r data src;
  let no := length (reads m) in
  let m := m <| reads ::= fun l => l ++ [(r, (data, src))] |> in
  match o with
  | None => Ok m
  | Some (k, ssrc) => let '((s, _), m) := flowFor built k ssrc m in Ok (match s with Some s => m <| hands ::= cons (s, mkInjected r no data src) |> | None => m end)
  end.

(** The hand-over waits for room in the session's queue or for its end: a datagram is dropped only when the session has ended. *)
Definition hand_over (r : reader) (sent : bool) (m : MultiReceiver) : option MultiReceiver :=
  h ← hand_of r m;
  f ← sessions m !! h.1;
  if sent then Some (let_go r m <| sessions ::= alter (fun f => f <| f_in ::= fun l => l ++ [h.2] |>) h.1 |>)
  else if f_done f then Some (let_go r m) else None.

Definition enabled (o : option MultiReceiver) : res disabled MultiReceiver := match o with Some m => Ok m | None => Err Disabled end.
Definition guarded (c : bool) (m : MultiReceiver) : res disabled MultiReceiver := if c then Ok m else Err Disabled.

(** [Err Disabled]: the event cannot happen in this state.  A reader takes its next turn when it has let go of the last datagram; [Close] waits for the readers. *)
Definition exec (e : event) (m : MultiReceiver) : res disabled MultiReceiver :=
  match e with
  | Arrive r data src built =>
      if started m r && match hand_of r m with None => true | Some _ => false end then match arrive r data src built m with Ok m => Ok m | _ => Panic end else Err Disabled
  | HandOver r sent => enabled (hand_over r sent m)
  | End s => guarded (s <? length (sessions m))%nat (end_session s m)
  | Retire s => guarded (match sessions m !! s with Some f => f_done f | None => false end) (retire s m)
  | Take => enabled (snd <$> Accept m)
  | CloseBegin => Ok (m <| m_done := true |>)
  | CloseEnd => guarded (m_done m && match hands m with [] => true | _ => false end) (close_flows m)
  end.

Fixpoint run (es : list event) (m : MultiReceiver) : res disabled MultiReceiver := match es with [] => Ok m | e :: es => m ← exec e m; run es m end.

(** ** Reading a key *)

Lemma peek_total r data src : returns (datagram_key r data src) (fun _ => True).
Proof.
  assert (HM : exists o, peekMediaSSRC data = Ok o). { unfold peekMediaSSRC, rtpHeaderSize. destruct (Z.ltb_spec (zlen data) 12); [by eexists|]. destruct (slc_at (E:=Empty_set) data 8 12) as (c & -> & _ & Hc); [lia..|]. cbn. rewrite Uint32_all by lia. by eexists. }
  assert (HR : exists o, peekRTCPSSRC data = Ok o). { unfold peekRTCPSSRC. destruct (Z.ltb_spec (zlen data) 8); [by eexists|]. destruct (slc_at (E:=Empty_set) data 4 8) as (c & -> & _ & Hc); [lia..|]. cbn. rewrite Uint32_all by lia. by eexists. }
  destruct HM as [o Ho], HR as [o' Ho']. unfold datagram_key. by destruct r as [| | |idx []|idx]; rewrite ?Ho, ?Ho'.
Qed.

(** ** Invariants *)

(** The table: at most 256 flows, each a session of that key, and every session that has not ended is the one of its key. *)
Record table_ok (m : MultiReceiver) : Prop := {
  t_size : Z.of_nat (size (flows m)) <= maxFlows;
  t_flows : forall k s, flows m !! k = Some s -> exists f, sessions m !! s = Some f /\ f_key f = k;
  t_live : forall s f, sessions m !! s = Some f -> f_done f = false -> flows m !! f_key f = Some s;
  t_ssrc : forall s f, sessions m !! s = Some f -> m_single m = false -> f_key f = KeySSRC (c_SSRC (f_cfg f)) }.

(** A datagram that was read and has a key. *)
Definition routed (m : MultiReceiver) (i : injected) (k : key) : Prop :=
  reads m !! i_no i = Some (i_reader i, (i_data i, i_src i)) /\ exists ssrc, datagram_key (i_reader i) (i_data i) (i_src i) = Ok (Some (k, ssrc)).
Definition later (a b : injected) : Prop := i_reader a = i_reader b -> (i_no a < i_no b)%nat.

(** The datagrams: in the session of their key, those of one reader in the order they were read, and none twice. *)
Record boxes_ok (m : MultiReceiver) : Prop := {
  x_in : forall s f i, sessions m !! s = Some f -> i ∈ f_in f -> routed m i (f_key f);
  x_hand : forall s i, (s, i) ∈ hands m -> exists f, sessions m !! s = Some f /\ routed m i (f_key f);
  x_hands : NoDup ((fun h => i_reader h.2) <$> hands m);
  x_order : forall s f, sessions m !! s = Some f -> StronglySorted later (f_in f);
  x_fresh : forall s f a h, sessions m !! s = Some f -> a ∈ f_in f -> h ∈ hands m -> later a h.2;
  x_once : forall s1 s2 f1 f2 a b, sessions m !! s1 = Some f1 -> sessions m !! s2 = Some f2 -> a ∈ f_in f1 -> b ∈ f_in f2 -> i_no a = i_no b -> s1 = s2 }.

(** The queue of new flows: none twice, and none missing as long as no more than 256 were ever made. *)
Record queue_ok (m : MultiReceiver) : Prop := {
  q_once : NoDup (accepted m ++ accept m);
  q_in : forall s, s ∈ accepted m ++ accept m -> (s < length (sessions m))%nat;
  q_room : zlen (accept m) <= maxFlows;
  q_all : zlen (sessions m) <= maxFlows -> forall s, (s < length (sessions m))%nat -> s ∈ accepted m ++ accept m }.

(** Sessions that hold the same datagrams under the same keys. *)
Definition same_boxes (ss ss' : list flowSession) : Prop := forall s, match ss !! s, ss' !! s with
  | Some f, Some f' => f_key f' = f_key f /\ f_cfg f' = f_cfg f /\ f_in f' = f_in f /\ (f_done f' = false -> f_done f = false)
  | None, None => True
  | _, _ => False
  end.
Lemma same_back ss ss' s f' : same_boxes ss ss' -> ss' !! s = Some f' -> exists f, ss !! s = Some f /\ f_key f' = f_key f /\ f_cfg f' = f_cfg f /\ f_in f' = f_in f /\ (f_done f' = false -> f_done f = false).
Proof. intros H E. specialize (H s). rewrite E in H. destruct (ss !! s) as [f|]; [|done]. by exists f. Qed.
Lemma same_forth ss ss' s f : same_boxes ss ss' -> ss !! s = Some f -> exists f', ss' !! s = Some f' /\ f_key f' = f_key f.
Proof. intros H E. specialize (H s). rewrite E in H. destruct (ss' !! s) as [f'|]; [|done]. exists f'. by destruct H. Qed.
Lemma same_length ss ss' : same_boxes ss ss' -> length ss' = length ss.
Proof.
  intros H. destruct (decide (length ss = length ss')) as [?|Hn]; [done|]. destruct (decide (length ss < length ss')%nat).
  - specialize (H (length ss)). rewrite (lookup_ge_None_2 ss) in H by done. destruct (lookup_lt_is_Some_2 ss' (length ss)) as [x E]; [done|]. by rewrite E in H.
  - specialize (H (length ss')). rewrite (lookup_ge_None_2 ss') in H by done. destruct (lookup_lt_is_Some_2 ss (length ss')) as [x E]; [lia|]. by rewrite E in H.
Qed.

Lemma boxes_same m m' : same_boxes (sessions m) (sessions m') -> hands m' = hands m -> reads m' = reads m -> boxes_ok m -> boxes_ok m'.
Proof.
  intros HS Eh Er [H1 H2 H3 H4 H5 H6]. unfold routed in *. rewrite <-Er, <-Eh in *. split; try done.
  - intros s f' i E Hi. destruct (same_back _ _ _ _ HS E) as (f & Ef & -> & _ & Ei & _). rewrite Ei in Hi. by apply (H1 s f).
  - intros s i Hh. destruct (H2 s i Hh) as (f & Ef & Hr). destruct (same_forth _ _ _ _ HS Ef) as (f' & Ef' & Ek). exists f'. by rewrite Ek.
  - intros s f' E. destruct (same_back _ _ _ _ HS E) as (f & Ef & _ & _ & -> & _). by apply (H4 s).
  - intros s f' i h E Hi Hh. destruct (same_back _ _ _ _ HS E) as (f & Ef & _ & _ & Ei & _). rewrite Ei in Hi. by apply (H5 s f).
  - intros s1 s2 f1' f2' i j E1 E2 Hi Hj Hij. destruct (same_back _ _ _ _ HS E1) as (f1 & Ef1 & _ & _ & Ei1 & _). destruct (same_back _ _ _ _ HS E2) as (f2 & Ef2 & _ & _ & Ei2 & _). rewrite Ei1 in Hi. rewrite Ei2 in Hj. by apply (H6 s1 s2 f1 f2 i j).
Qed.
Lemma table_same m m' : same_boxes (sessions m) (sessions m') -> flows m' = flows m -> m_single m' = m_single m -> table_ok m -> table_ok m'.
Proof.
  intros HS Ef Es [H1 H2 H3 H4]. rewrite <-Ef, <-Es in *. split; [done|..].
  - intros k s E. destruct (H2 k s E) as (f & E1 & E2). destruct (same_forth _ _ _ _ HS E1) as (f' & E3 & E4). exists f'. split; [done|congruence].
  - intros s f' E Hd. destruct (same_back _ _ _ _ HS E) as (f & E1 & -> & _ & _ & Hd'). apply (H3 s f E1). by apply Hd'.
  - intros s f' E Hs. destruct (same_back _ _ _ _ HS E) as (f & E1 & -> & -> & _). by apply (H4 s f).
Qed.
Lemma queue_same m m' : same_boxes (sessions m) (sessions m') -> accept m' = accept m -> accepted m' = accepted m -> queue_ok m -> queue_ok m'.
Proof. intros HS%same_length E1 E2 [H1 H2 H3 H4]. unfold zlen in *. split; unfold zlen; rewrite ?E1, ?E2, ?HS; done. Qed.
Lemma same_refl ss : same_boxes ss ss.
Proof. intros s. by destruct (ss !! s). Qed.

Definition all_ok (m : MultiReceiver) : Prop := table_ok m /\ boxes_ok m /\ queue_ok m.

(** ** A reader's turn *)

Lemma read_ok m x : all_ok m -> all_ok (m <| reads ::= fun l => l ++ [x] |>).
Proof.
  intros (HT & [H1 H2 H3 H4 H5 H6] & HQ). split; [revert HT; apply table_same; [apply same_refl|done..]|]. split; [|revert HQ; apply queue_same; [apply same_refl|done..]].
  assert (HR : forall i k, routed m i k -> routed (m <| reads ::= fun l => l ++ [x] |>) i k) by (intros i k [E1 E2]; split; [by apply lookup_app_l_Some|done]).
  split; try done; cbn; [intros s f i E Hi; by eapply HR, H1|]. intros s i Hh. destruct (H2 s i Hh) as (f & E & Hr). exists f. split; [done|by apply HR].
Qed.

(** A session made for a key that has none. *)
Lemma made_table m k cfg : table_ok m -> flows m !! k = None -> Z.of_nat (size (flows m)) < maxFlows -> (m_single m = false -> k = KeySSRC (c_SSRC cfg)) ->
  table_ok (m <| flows ::= <[k := length (sessions m)]> |> <| sessions ::= fun l => l ++ [mkFlowSession k cfg [] false] |>).
Proof.
  intros [H1 H2 H3 H4] Hk Hn Hs. split; cbn.
  - rewrite map_size_insert_None by done. lia.
  - intros k' s. rewrite lookup_insert_Some. intros [[<- <-]|[Hne E]]; [eexists; split; [by apply list_lookup_middle|done]|]. destruct (H2 k' s E) as (f & Ef & Ek). exists f. split; [by apply lookup_app_l_Some|done].
  - intros s f. rewrite lookup_app_Some. intros [E|[Hl E]] Hd.
    + pose proof (H3 s f E Hd) as E'. rewrite lookup_insert_ne; [done|]. congruence.
    + apply list_lookup_singleton_Some in E as [Hz <-]. cbn. rewrite lookup_insert_eq. f_equal. lia.
  - intros s f. rewrite lookup_app_Some. intros [E|[_ E]]; [by apply (H4 s f)|]. apply list_lookup_singleton_Some in E as [_ <-]. done.
Qed.
Lemma made_boxes m k cfg fl : boxes_ok m -> boxes_ok (m <| flows := fl |> <| sessions ::= fun l => l ++ [mkFlowSession k cfg [] false] |>).
Proof.
  intros [H1 H2 H3 H4 H5 H6]. assert (HL : forall s f, (sessions m ++ [mkFlowSession k cfg [] false]) !! s = Some f -> sessions m !! s = Some f \/ f_in f = []) by (intros s f; rewrite lookup_app_Some; intros [E|[_ E]]; [by left|]; apply list_lookup_singleton_Some in E as [_ <-]; by right).
  assert (HI : forall s f i, (sessions m ++ [mkFlowSession k cfg [] false]) !! s = Some f -> i ∈ f_in f -> sessions m !! s = Some f) by (intros s f i E Hi; destruct (HL s f E) as [?|E']; [done|]; rewrite E' in Hi; by apply elem_of_nil in Hi).
  split; try done; cbn.
  - intros s f i E Hi. by apply (H1 s f i (HI s f i E Hi)).
  - intros s i Hh. destruct (H2 s i Hh) as (f & E & Hr). exists f. split; [by apply lookup_app_l_Some|done].
  - intros s f E. destruct (HL s f E) as [E'| ->]; [by apply (H4 s)|constructor].
  - intros s f a h E Ha Hh. by apply (H5 s f a h (HI s f a E Ha)).
  - intros s1 s2 f1 f2 a b E1 E2 Ha Hb. apply (H6 s1 s2 f1 f2 a b (HI _ _ _ E1 Ha) (HI _ _ _ E2 Hb) Ha Hb).
Qed.
Lemma made_queue m f fl : queue_ok m -> let m' := m <| flows := fl |> <| sessions ::= fun l => l ++ [f] |> in
  queue_ok (if zlen (accept m') <? maxFlows then m' <| accept ::= fun l => l ++ [length (sessions m)] |> else m').
Proof.
  intros [H1 H2 H3 H4]. cbn. assert (HN : length (sessions m) ∉ accepted m ++ accept m) by (intros H%H2; lia).
  assert (HB : zlen (sessions m) < maxFlows -> zlen (accept m) < maxFlows).
  { intros Hl. assert (HI : forall s, s ∈ accept m -> (s < length (sessions m))%nat) by (intros s Hs; apply H2, elem_of_app; by right). apply NoDup_app in H1 as (_ & _ & H1). pose proof (submseteq_length (accept m) (seq 0 (length (sessions m)))) as HL. rewrite length_seq in HL. unfold zlen in *. enough (length (accept m) <= length (sessions m))%nat by lia. apply HL, NoDup_submseteq; [done|]. intros s Hs%HI. apply elem_of_seq. lia. }
  destruct (Z.ltb_spec (zlen (accept m)) maxFlows) as [Hr|Hr]; split; cbn; rewrite ?length_app; cbn.
  - rewrite (assoc_L (++)). apply NoDup_app. split; [done|]. split; [|apply NoDup_singleton]. intros s Hs Hx. apply list_elem_of_singleton in Hx as ->. done.
  - intros s. rewrite (assoc_L (++)), elem_of_app, list_elem_of_singleton. intros [Hs%H2| ->]; lia.
  - rewrite zlen_app, zlen_cons. unfold zlen at 2. cbn. lia.
  - intros Hl s Hs. rewrite (assoc_L (++)), elem_of_app, list_elem_of_singleton. destruct (decide (s = length (sessions m))) as [-> |Hn]; [by right|left]. apply H4; [|lia]. rewrite zlen_app in Hl. unfold zlen in *. cbn in Hl. lia.
  - done.
  - intros s Hs%H2. lia.
  - done.
  - intros Hl. exfalso. assert (zlen (accept m) < maxFlows); [|lia]. apply HB. rewrite zlen_app in Hl. unfold zlen in *. cbn in Hl. lia.
Qed.

(** [flowFor] finds or makes the session of the key, and puts nothing in any. *)
Lemma flowFor_ok built k ssrc m : all_ok m -> (m_single m = false -> k = KeySSRC ssrc) -> let '((s, _), m') := flowFor built k ssrc m in
  all_ok m' /\ hands m' = hands m /\ reads m' = reads m /\ (forall s0 f a, sessions m' !! s0 = Some f -> a ∈ f_in f -> sessions m !! s0 = Some f) /\ forall s0, s = Some s0 -> exists f, sessions m' !! s0 = Some f /\ f_key f = k.
Proof.
  intros (HT & HB & HQ) Hk. unfold flowFor. destruct (m_done m); [by split_and!|]. destruct (flows m !! k) as [s|] eqn:E; [split_and!; try done; intros s0 [= <-]; by apply (t_flows m HT)|]. destruct (Z.leb_spec maxFlows (Z.of_nat (size (flows m)))); [by split_and!|]. destruct built; cbn [negb]; [|by split_and!].
  set (cfg := if m_single m then _ else _). set (m1 := m <| flows ::= _ |> <| sessions ::= _ |>). assert (HT1 : table_ok m1) by (apply made_table; [done..|]; intros Hs; unfold cfg; rewrite Hs; by apply Hk). assert (HB1 : boxes_ok m1) by (by apply made_boxes).
  assert (HS : forall s0, Some (length (sessions m)) = Some s0 -> exists f, sessions m1 !! s0 = Some f /\ f_key f = k) by (intros s0 [= <-]; eexists; split; [by apply list_lookup_middle|done]).
  assert (HI : forall s0 f a, sessions m1 !! s0 = Some f -> a ∈ f_in f -> sessions m !! s0 = Some f) by (intros s0 f x; cbn; rewrite lookup_app_Some; intros [Ef|[_ Ef]] Hx; [done|]; apply list_lookup_singleton_Some in Ef as [_ <-]; by apply elem_of_nil in Hx).
  pose proof (made_queue m (mkFlowSession k cfg [] false) (<[k:=length (sessions m)]> (flows m)) HQ) as HQ1. cbv zeta in HQ1. change (m <| flows := _ |> <| sessions ::= _ |>) with m1 in HQ1. destruct (zlen (accept m1) <? maxFlows); split_and!; try done.
  split; [revert HT1; apply table_same; [apply same_refl|done..]|]. split; [revert HB1; apply boxes_same; [apply same_refl|done..]|done].
Qed.

Lemma key_ssrc m r data src k ssrc : started m r = true -> m_single m = false -> datagram_key r data src = Ok (Some (k, ssrc)) -> k = KeySSRC ssrc.
Proof.
  intros Hst Hs. assert (HO : forall (o : res Empty_set (option Z)), (o ← o; Ok (by_ssrc o)) = Ok (Some (k, ssrc)) -> k = KeySSRC ssrc) by (intros [[x|]|e|]; cbn; [by intros [= <- <-]|done..]).
  destruct r; cbn [datagram_key started] in *; try (by intros ?%HO); rewrite Hs in Hst; by rewrite ?andb_false_r in Hst.
Qed.

(** A reader that holds nothing takes a datagram. *)
Lemma held_ok m s f r data src : all_ok m -> sessions m !! s = Some f -> hand_of r m = None -> (forall i, i = mkInjected r (length (reads m) - 1) data src -> routed m i (f_key f) /\ (forall s0 f0 a, sessions m !! s0 = Some f0 -> a ∈ f_in f0 -> i_no a < i_no i)%nat) ->
  all_ok (m <| hands ::= cons (s, mkInjected r (length (reads m) - 1) data src) |>).
Proof.
  intros (HT & [H1 H2 H3 H4 H5 H6] & HQ) Es Hn Hi. destruct (Hi _ eq_refl) as [Hr Hl]. split; [revert HT; apply table_same; [apply same_refl|done..]|]. split; [|revert HQ; apply queue_same; [apply same_refl|done..]]. split; try done; cbn.
  - intros s0 i. rewrite elem_of_cons. intros [[= -> ->]|Hh]; [by exists f|]. destruct (H2 s0 i Hh) as (f0 & E0 & Hr0). by exists f0.
  - apply NoDup_cons. split; [|done]. intros ([s0 i] & Er & Hh)%list_elem_of_fmap. cbn in Er. pose proof (List.find_none _ _ Hn (s0, i)) as HF. rewrite bool_decide_eq_false in HF. apply HF; [by apply list_elem_of_In|done].
  - intros s0 f0 a h E Ha. rewrite elem_of_cons. intros [-> |Hh]; [intros _; by apply (Hl s0 f0)|by apply (H5 s0 f0)].
Qed.

Lemma arrive_ok r data src built m : started m r = true -> hand_of r m = None -> all_ok m -> exists m', arrive r data src built m = Ok m' /\ all_ok m'.
Proof.
  intros Hst Hn Hm. unfold arrive. pose proof (peek_total r data src) as HP. destruct (datagram_key r data src) as [o|[]|] eqn:Ek; [|done]. cbn [mbind res_bind]. pose proof (read_ok m (r, (data, src)) Hm) as Hm1. set (m1 := m <| reads ::= _ |>) in *. destruct o as [[k ssrc]|]; [|by exists m1].
  pose proof (flowFor_ok built k ssrc m1 Hm1 (fun Hs => key_ssrc m1 r data src k ssrc Hst Hs Ek)) as HF. destruct (flowFor built k ssrc m1) as [[[s|] stop] m2]; destruct HF as (Hm2 & Eh & Er & HI & HS); (eexists; split; [reflexivity|]); [|done].
  destruct (HS s eq_refl) as (f & Ef & Efk). assert (HL : length (reads m) = (length (reads m2) - 1)%nat) by (rewrite Er; cbn; rewrite length_app; cbn; lia). rewrite HL. apply (held_ok m2 s f); [done..|unfold hand_of; by rewrite Eh|]. intros i ->. rewrite <-HL. split.
  - split; [rewrite Er; by apply list_lookup_middle|]. exists ssrc. by rewrite Efk.
  - intros s0 f0 a E0 Ha. cbn. destruct Hm as (_ & HB & _). destruct (x_in m HB s0 f0 a (HI s0 f0 a E0 Ha) Ha) as [E _]. by apply lookup_lt_Some in E.
Qed.

(** ** The other events *)

Lemma alter_same (g : flowSession -> flowSession) s ss : (forall f, f_key (g f) = f_key f /\ f_cfg (g f) = f_cfg f /\ f_in (g f) = f_in f /\ (f_done (g f) = false -> f_done f = false)) -> same_boxes ss (alter g s ss).
Proof. intros Hg s'. destruct (decide (s' = s)) as [-> |Hn]; [rewrite list_lookup_alter_eq; destruct (ss !! s); [apply Hg|done]|]. rewrite list_lookup_alter_ne by done. by destruct (ss !! s'). Qed.
Lemma end_ok s m : all_ok m -> all_ok (end_session s m).
Proof.
  intros (HT & HB & HQ). assert (HS : same_boxes (sessions m) (sessions (end_session s m))) by (by apply alter_same). split; [by apply (table_same m)|]. split; [by apply (boxes_same m)|by apply (queue_same m)].
Qed.
Lemma close_ok m : all_ok m -> all_ok (close_flows m).
Proof.
  intros (HT & HB & HQ). assert (HS : same_boxes (sessions m) (sessions (close_flows m))).
  { intros s. cbn. rewrite list_lookup_imap. destruct (sessions m !! s) as [f|]; [|done]. cbn. by case_bool_decide. }
  split; [by apply (table_same m)|]. split; [by apply (boxes_same m)|by apply (queue_same m)].
Qed.

Lemma retire_ok s f m : all_ok m -> sessions m !! s = Some f -> f_done f = true -> all_ok (retire s m).
Proof.
  intros (HT & HB & HQ) Ef Hd. unfold retire. rewrite Ef. case_bool_decide as E; [|done]. split; [|split; [revert HB; apply boxes_same; [apply same_refl|done..]|revert HQ; apply queue_same; [apply same_refl|done..]]]. destruct HT as [H1 H2 H3 H4]. split; cbn.
  - rewrite map_size_delete, E. lia.
  - intros k s'. rewrite lookup_delete_Some. intros [_ E']. by apply H2.
  - intros s' f' E' Hd'. pose proof (H3 s' f' E' Hd') as E2. rewrite lookup_delete_ne; [done|]. intros Hk. rewrite <-Hk, E in E2. injection E2 as ->. congruence.
  - done.
Qed.

Lemma take_ok s m m' : Accept m = Some (s, m') -> all_ok m -> all_ok m'.
Proof.
  unfold Accept. destruct (accept m) as [|s0 l] eqn:E; [done|]. intros [= <- <-] (HT & HB & HQ). split; [revert HT; apply table_same; [apply same_refl|done..]|]. split; [revert HB; apply boxes_same; [apply same_refl|done..]|].
  destruct HQ as [H1 H2 H3 H4]. rewrite E in *. rewrite zlen_cons in H3. split; cbn; rewrite <-?(assoc_L (++)); cbn; try done. lia.
Qed.

(** Fewer hands. *)
Lemma let_go_in r m h : h ∈ hands (let_go r m) -> h ∈ hands m /\ i_reader h.2 <> r.
Proof. cbn. intros H%list_elem_of_In. apply filter_In in H as [H1 H2]. split; [by apply list_elem_of_In|]. apply negb_true_iff in H2. by apply bool_decide_eq_false in H2. Qed.
Lemma filter_distinct {A C} (g : A -> C) (P : A -> bool) l : NoDup (g <$> l) -> NoDup (g <$> List.filter P l).
Proof.
  induction l as [|x l IH]; [done|]. cbn. rewrite NoDup_cons. intros [Hx Hl]. destruct (P x); [|by apply IH]. cbn. apply NoDup_cons. split; [|by apply IH]. intros (y & E & Hy)%list_elem_of_fmap. apply Hx, list_elem_of_fmap. exists y. split; [done|]. apply list_elem_of_In in Hy. apply filter_In in Hy as [Hy _]. by apply list_elem_of_In.
Qed.
Lemma let_go_ok r m : all_ok m -> all_ok (let_go r m).
Proof.
  intros (HT & [H1 H2 H3 H4 H5 H6] & HQ). split; [revert HT; apply table_same; [apply same_refl|done..]|]. split; [|revert HQ; apply queue_same; [apply same_refl|done..]]. split; try done.
  - intros s i [Hi _]%let_go_in. by apply H2.
  - by apply filter_distinct.
  - intros s f a h E Ha [Hh _]%let_go_in. by apply (H5 s f).
Qed.

(** A datagram that is newer than every other of its reader, and is in no hand, goes into the session of its key. *)
Lemma put_ok m s f i : all_ok m -> sessions m !! s = Some f -> routed m i (f_key f) -> (forall s0 f0 a, sessions m !! s0 = Some f0 -> a ∈ f_in f0 -> later a i) -> (forall h, h ∈ hands m -> i_reader h.2 <> i_reader i) ->
  all_ok (m <| sessions ::= alter (fun f => f <| f_in ::= fun l => l ++ [i] |>) s |>).
Proof.
  intros (HT & [H1 H2 H3 H4 H5 H6] & HQ) Ef Hr Hl Hh. set (m' := m <| sessions ::= _ |>).
  assert (HB : forall s0 f', sessions m' !! s0 = Some f' -> exists f0, sessions m !! s0 = Some f0 /\ f_key f' = f_key f0 /\ f_cfg f' = f_cfg f0 /\ f_done f' = f_done f0 /\ f_in f' = f_in f0 ++ (if decide (s0 = s) then [i] else [])).
  { intros s0 f' E. cbn in E. destruct (decide (s0 = s)) as [-> |Hn]; [rewrite list_lookup_alter_eq, Ef in E; injection E as <-; by exists f|]. rewrite list_lookup_alter_ne in E by done. exists f'. by rewrite app_nil_r. }
  assert (HF : forall s0 f0, sessions m !! s0 = Some f0 -> exists f', sessions m' !! s0 = Some f' /\ f_key f' = f_key f0).
  { intros s0 f0 E. cbn. destruct (decide (s0 = s)) as [-> |Hn]; [rewrite list_lookup_alter_eq, E; by eexists|]. rewrite list_lookup_alter_ne by done. by exists f0. }
  assert (HI : forall s0 f' a, sessions m' !! s0 = Some f' -> a ∈ f_in f' -> (exists f0, sessions m !! s0 = Some f0 /\ f_key f' = f_key f0 /\ a ∈ f_in f0) \/ s0 = s /\ a = i /\ f_key f' = f_key f).
  { intros s0 f' a E Ha. destruct (HB s0 f' E) as (f0 & E0 & Ek & _ & _ & Ei). rewrite Ei, elem_of_app in Ha. destruct Ha as [Ha|Ha]; [left; by exists f0|right]. destruct (decide (s0 = s)) as [-> |]; [|by apply elem_of_nil in Ha]. apply list_elem_of_singleton in Ha as ->. rewrite E0 in Ef. by injection Ef as ->. }
  split; [|split].
  - destruct HT as [T1 T2 T3 T4]. split; [done|..].
    + intros k s0 E. destruct (T2 k s0 E) as (f0 & E0 & Ek). destruct (HF s0 f0 E0) as (f' & E' & Ek'). exists f'. split; [done|congruence].
    + intros s0 f' E Hd. destruct (HB s0 f' E) as (f0 & E0 & -> & _ & Ed & _). apply (T3 s0 f0 E0). congruence.
    + intros s0 f' E Hs. destruct (HB s0 f' E) as (f0 & E0 & -> & -> & _). by apply (T4 s0).
  - split; try done.
    + intros s0 f' a E Ha. destruct (HI s0 f' a E Ha) as [(f0 & E0 & -> & Ha0)|(-> & -> & ->)]; [by apply (H1 s0)|done].
    + intros s0 a Hh0. destruct (H2 s0 a Hh0) as (f0 & E0 & Hr0). destruct (HF s0 f0 E0) as (f' & E' & Ek). exists f'. by rewrite Ek.
    + intros s0 f' E. destruct (HB s0 f' E) as (f0 & E0 & _ & _ & _ & ->). apply StronglySorted_app. split; [|split; [by apply (H4 s0)|destruct (decide _); repeat constructor]]. intros a b Ha Hb. destruct (decide (s0 = s)); [|by apply elem_of_nil in Hb]. apply list_elem_of_singleton in Hb as ->. by apply (Hl s0 f0).
    + intros s0 f' a h E Ha Hh0. destruct (HI s0 f' a E Ha) as [(f0 & E0 & _ & Ha0)|(_ & -> & _)]; [by apply (H5 s0 f0)|]. intros Er. by destruct (Hh h Hh0).
    + assert (HX : forall s0 f0 a, sessions m !! s0 = Some f0 -> a ∈ f_in f0 -> i_no a <> i_no i). { intros s0 f0 a E0 Ha En. destruct (H1 s0 f0 a E0 Ha) as [Ea _]. destruct Hr as [Ei _]. rewrite En, Ei in Ea. injection Ea as Ea _ _. pose proof (Hl s0 f0 a E0 Ha (eq_sym Ea)). lia. }
      intros s1 s2 f1 f2 a b E1 E2 Ha Hb Hab. destruct (HI s1 f1 a E1 Ha) as [(g1 & G1 & _ & Ga)|(-> & -> & _)], (HI s2 f2 b E2 Hb) as [(g2 & G2 & _ & Gb)|(-> & -> & _)]; [by apply (H6 s1 s2 g1 g2 a b)|by destruct (HX s1 g1 a)|by destruct (HX s2 g2 b)|done].
  - destruct HQ as [Q1 Q2 Q3 Q4]. split; cbn; unfold zlen; rewrite ?length_alter; done.
Qed.

Lemma hand_over_ok r sent m m' : hand_over r sent m = Some m' -> all_ok m -> all_ok m'.
Proof.
  unfold hand_over. destruct (hand_of r m) as [[s i]|] eqn:Eh; [|done]. cbn. destruct (sessions m !! s) as [f|] eqn:Ef; [|done]. cbn. intros E Hm. pose proof (let_go_ok r m Hm) as Hg. destruct sent; [|destruct (f_done f); [by injection E as <-|done]]. injection E as <-.
  unfold hand_of in Eh. apply List.find_some in Eh as [Hin Hr]. apply bool_decide_eq_true in Hr. cbn in Hr. apply list_elem_of_In in Hin. destruct Hm as (_ & HB & _). apply (put_ok (let_go r m) s f i); [done..| | |].
  - destruct (x_hand m HB s i Hin) as (f' & E' & Hro). rewrite Ef in E'. by injection E' as ->.
  - intros s0 f0 a E0 Ha. by apply (x_fresh m HB s0 f0 a (s, i)).
  - intros h [_ Hh]%let_go_in. by rewrite Hr.
Qed.

Lemma exec_ok e m : all_ok m -> match exec e m with Ok m' => all_ok m' | Err _ => True | Panic => False end.
Proof.
  intros Hm. destruct e as [r data src built|r sent|s|s| | |]; cbn [exec].
  - destruct (started m r) eqn:Es; [|done]. destruct (hand_of r m) eqn:Eh; [done|]. cbn [andb]. destruct (arrive_ok r data src built m Es Eh Hm) as (m' & -> & H). done.
  - destruct (hand_over r sent m) as [m'|] eqn:E; [|done]. by apply (hand_over_ok r sent m).
  - destruct (s <? length (sessions m))%nat; [by apply end_ok|done].
  - destruct (sessions m !! s) as [f|] eqn:E; [|done]. destruct (f_done f) eqn:Ed; [by apply (retire_ok s f)|done].
  - destruct (Accept m) as [[s m']|] eqn:E; [|done]. by apply (take_ok s m).
  - destruct Hm as (HT & HB & HQ). split; [revert HT; apply table_same; [apply same_refl|done..]|]. split; [revert HB; apply boxes_same; [apply same_refl|done..]|revert HQ; apply queue_same; [apply same_refl|done..]].
  - destruct (m_done m && _); [by apply close_ok|done].
Qed.
Lemma run_ok es m : all_ok m -> match run es m with Ok m' => all_ok m' | Err _ => True | Panic => False end.
Proof. revert m. induction es as [|e es IH]; intros m Hm; cbn; [done|]. pose proof (exec_ok e m Hm) as H. destruct (exec e m) as [m1|d|]; [by apply IH|done..]. Qed.

Lemma new_ok cfg single bonded paths : all_ok (mkMulti cfg single bonded paths ∅ [] [] [] false [] []).
Proof.
  split; [|split]; split; cbn; try done; try (by apply NoDup_nil_2); try (intros; by rewrite ?lookup_empty in *); try (intros; lia).
  - intros s i H. by apply elem_of_nil in H.
  - intros s H. by apply elem_of_nil in H.
Qed.

(** The datagrams read are those that arrived. *)
Definition arrivals (es : list event) : list (reader * (bytes * AddrPort)) := omap (fun e => match e with Arrive r data src _ => Some (r, (data, src)) | _ => None end) es.

Lemma exec_reads e m m' : exec e m = Ok m' -> reads m' = reads m ++ arrivals [e].
Proof.
  destruct e as [r data src built|r sent|s|s| | |]; cbn [exec arrivals omap list_omap]; rewrite ?app_nil_r.
  - destruct (started m r && _); [|done]. unfold arrive. destruct (datagram_key r data src) as [o|e|]; [|done..]. cbn [mbind res_bind]. destruct o as [[k ssrc]|]; [|by intros [= <-]]. unfold flowFor. destruct (m_done _); [by intros [= <-]|]. destruct (flows _ !! k); [by intros [= <-]|]. destruct (maxFlows <=? _); [by intros [= <-]|]. destruct built; [|by intros [= <-]]. intros [= <-]. cbn. by destruct (zlen _ <? maxFlows).
  - unfold hand_over. destruct (hand_of r m) as [h|]; [|done]. cbn. destruct (sessions m !! h.1) as [f|]; [|done]. cbn. destruct sent; [by intros [= <-]|]. destruct (f_done f); [by intros [= <-]|done].
  - destruct (_ <? _)%nat; [by intros [= <-]|done].
  - unfold retire. destruct (sessions m !! s) as [f|]; [|done]. destruct (f_done f); [|done]. cbn. intros [= <-]. by case_bool_decide.
  - unfold Accept. destruct (accept m); [done|]. by intros [= <-].
  - by intros [= <-].
  - destruct (m_done m && _); [by intros [= <-]|done].
Qed.
Lemma run_reads es m m' : run es m = Ok m' -> reads m' = reads m ++ arrivals es.
Proof.
  revert m. induction es as [|e es IH]; intros m; cbn [run]; [intros [= <-]; by rewrite app_nil_r|]. destruct (exec e m) as [m1|d|] eqn:E; [|done..]. intros H. rewrite (IH m1 H), (exec_reads e m m1 E), <-(assoc_L (++)). f_equal. unfold arrivals. by destruct e.
Qed.

(** After [Close]: nothing runs and nothing is made. *)
Definition ended (m : MultiReceiver) : Prop := m_done m = true /\ Forall (fun f => f_done f = true) (sessions m).
Lemma ended_exec e m m' : ended m -> exec e m = Ok m' -> ended m' /\ length (sessions m') = length (sessions m).
Proof.
  intros [Hd HA]. destruct e as [r data src built|r sent|s|s| | |]; cbn [exec].
  - destruct (started m r && _); [|done]. unfold arrive. destruct (datagram_key r data src) as [o|e|]; [|done..]. cbn [mbind res_bind]. destruct o as [[k ssrc]|]; [|by intros [= <-]]. unfold flowFor. cbn. rewrite Hd. by intros [= <-].
  - unfold hand_over. destruct (hand_of r m) as [h|]; [|done]. cbn. destruct (sessions m !! h.1) as [f|]; [|done]. cbn. destruct sent; [|destruct (f_done f); [by intros [= <-]|done]]. intros [= <-]. cbn. rewrite length_alter. split; [|done]. split; [done|]. cbn. by apply Forall_alter.
  - destruct (_ <? _)%nat; [|done]. intros [= <-]. cbn. rewrite length_alter. split; [|done]. split; [done|]. by apply Forall_alter.
  - unfold retire. destruct (sessions m !! s) as [f|]; [|done]. destruct (f_done f); [|done]. cbn. intros [= <-]. by case_bool_decide.
  - unfold Accept. destruct (accept m); [done|]. by intros [= <-].
  - by intros [= <-].
  - destruct (m_done m && _); [|done]. intros [= <-]. cbn. rewrite length_imap. split; [|done]. split; [done|]. apply Forall_lookup. intros i f. cbn. rewrite list_lookup_imap. destruct (sessions m !! i) as [f0|] eqn:E; [|done]. cbn. intros [= <-]. pose proof (Forall_lookup_1 _ _ _ _ HA E). by case_bool_decide.
Qed.
Lemma ended_run es m m' : ended m -> run es m = Ok m' -> ended m' /\ length (sessions m') = length (sessions m).
Proof.
  revert m. induction es as [|e es IH]; intros m Hm; cbn [run]; [by intros [= <-]|]. destruct (exec e m) as [m1|d|] eqn:E; [|done..]. intros H. destruct (ended_exec e m m1 Hm E) as [H1 <-]. by apply IH.
Qed.

(** ** Properties *)

Definition opened (m : MultiReceiver) : Prop := exists cfg paths, m ∈ [NewMultiReceiver cfg; NewMultiReceiverSingle cfg; NewMultiBondedReceiver paths cfg; NewMultiBondedReceiverSingle paths cfg].
Lemma opened_ok m : opened m -> all_ok m /\ reads m = [].
Proof. intros (cfg & paths & H). rewrite !elem_of_cons, elem_of_nil in H. destruct H as [-> |[-> |[-> |[-> |[]]]]]; (split; [apply new_ok|done]). Qed.

(** C16: The demultiplexer of a receiver with several flows.  Whatever arrives on its sockets, in whatever order the readers, the sessions' ends, their retirement and the
    application's calls interleave, it never panics; at most 256 flows are open; a key (an SSRC, or a source address) has at most one session that has not ended; and a
    session holds only datagrams that arrived, that carry its own key, none that another session holds, those of one reader in the order they arrived.  A flow keyed by SSRC
    reports with that SSRC.  No flow is offered to Accept twice, and none is left out while no more than 256 were ever made. *)
Theorem multi_demultiplexes es m0 : opened m0 ->
  match run es m0 with
  | Ok m =>
      Z.of_nat (size (flows m)) <= 256 /\
      (forall s1 s2 f1 f2, sessions m !! s1 = Some f1 -> sessions m !! s2 = Some f2 -> f_key f1 = f_key f2 -> f_done f1 = false -> f_done f2 = false -> s1 = s2) /\
      (forall s f, sessions m !! s = Some f -> StronglySorted later (f_in f) /\ (m_single m = false -> f_key f = KeySSRC (c_SSRC (f_cfg f))) /\
         forall i, i ∈ f_in f -> arrivals es !! i_no i = Some (i_reader i, (i_data i, i_src i)) /\ (exists ssrc, datagram_key (i_reader i) (i_data i) (i_src i) = Ok (Some (f_key f, ssrc))) /\
           forall s' f' i', sessions m !! s' = Some f' -> i' ∈ f_in f' -> i_no i' = i_no i -> s' = s) /\
      NoDup (accepted m ++ accept m) /\ (zlen (sessions m) <= 256 -> forall s, (s < length (sessions m))%nat -> s ∈ accepted m ++ accept m)
  | Err _ => True
  | Panic => False
  end.
Proof.
  intros [H0 Hr0]%opened_ok. pose proof (run_ok es m0 H0) as HR. destruct (run es m0) as [m|d|] eqn:E; [|done..]. destruct HR as ([T1 T2 T3 T4] & [X1 X2 X3 X4 X5 X6] & [Q1 Q2 Q3 Q4]). pose proof (run_reads es m0 m E) as Er. rewrite Hr0 in Er. cbn in Er.
  split; [done|]. split; [|split; [|by split]].
  - intros s1 s2 f1 f2 E1 E2 Ek D1 D2. pose proof (T3 s1 f1 E1 D1) as K1. pose proof (T3 s2 f2 E2 D2) as K2. rewrite Ek, K2 in K1. congruence.
  - intros s f Ef. split; [by apply (X4 s)|]. split; [by apply (T4 s)|]. intros i Hi. destruct (X1 s f i Ef Hi) as [G1 G2]. rewrite <-Er. split; [done|]. split; [done|]. intros s' f' i' Ef' Hi' Hn. by apply (X6 s' s f' f i' i).
Qed.

(** C18: Closing a receiver with several flows.  When Close has closed the flows of the table, every session the receiver ever made has ended, those that the application took and
    those it never did, also one that was being made while Close began; and whatever still happens afterwards makes no session and revives none. *)
Theorem multi_close_ends_all es es' m0 m m' : opened m0 -> run es m0 = Ok m -> run (CloseEnd :: es') m = Ok m' ->
  length (sessions m') = length (sessions m) /\ Forall (fun f => f_done f = true) (sessions m').
Proof.
  intros [H0 _]%opened_ok Hr. pose proof (run_ok es m0 H0) as HR. rewrite Hr in HR. destruct HR as ([T1 T2 T3 T4] & _). cbn [run exec]. destruct (m_done m) eqn:Ed; [|done]. destruct (hands m); [|done]. cbn [guarded andb]. cbn [mbind res_bind]. intros H.
  assert (HE : ended (close_flows m)). { split; [done|]. apply Forall_lookup. intros s f. cbn. rewrite list_lookup_imap. destruct (sessions m !! s) as [f0|] eqn:E; [|done]. cbn. intros [= <-]. case_bool_decide as Hk; [done|]. destruct (f_done f0) eqn:Ef; [done|]. by destruct Hk; apply T3. }
  destruct (ended_run es' _ m' HE H) as [[_ HF] HL]. split; [|done]. rewrite HL. cbn. by rewrite length_imap.
Qed.

(** Two flows on one socket: the first ends, is retired and comes back while the receiver closes. *)
Definition demo_multi_cfg : Config := mkSessConfig DefaultConfig 8 [114; 120] false 1000000 10000000 None None false false false None None 0 SplitOff MergeOff None false false.
Definition demo_rtp (ssrc : Z) : bytes := [128; 33; 0; 1; 0; 0; 0; 0; 0; 0; 0; ssrc].
Definition demo_rtcp (ssrc : Z) : bytes := [128; 200; 0; 1; 0; 0; 0; ssrc].
Definition demo_source : AddrPort := mkAddrPort (Addr4 0x0A000001) 5000.
Definition demo_events : list event :=
  [Arrive ReadMedia (demo_rtp 4) demo_source true; HandOver ReadMedia true; Arrive ReadMedia (demo_rtp 7) demo_source true; Arrive ReadRTCP (demo_rtcp 4) demo_source true; HandOver ReadRTCP true;
   HandOver ReadMedia true; Take; End 0; Retire 0; Arrive ReadMedia (demo_rtp 5) demo_source true; CloseBegin; HandOver ReadMedia true; Arrive ReadMedia (demo_rtp 8) demo_source true].
Lemma demo_opened : opened (NewMultiReceiver demo_multi_cfg).
Proof. exists demo_multi_cfg, 0. apply elem_of_cons. by left. Qed.

Lemma multi_demultiplexes_witness : exists m, run demo_events (NewMultiReceiver demo_multi_cfg) = Ok m /\ (f_key <$> sessions m) = [KeySSRC 4; KeySSRC 6; KeySSRC 4] /\
  ((fun f => i_no <$> f_in f) <$> sessions m) = [[0; 2]; [1]; [3]]%nat /\ NoDup (accepted m ++ accept m).
Proof.
  pose proof (multi_demultiplexes demo_events (NewMultiReceiver demo_multi_cfg) demo_opened) as H.
  assert (HV : match run demo_events (NewMultiReceiver demo_multi_cfg) with Ok m => (f_key <$> sessions m) = [KeySSRC 4; KeySSRC 6; KeySSRC 4] /\ ((fun f => i_no <$> f_in f) <$> sessions m) = [[0; 2]; [1]; [3]]%nat | _ => False end) by (vm_compute; by split).
  destruct (run demo_events (NewMultiReceiver demo_multi_cfg)) as [m|d|]; [|done..]. exists m. destruct HV as [V1 V2]. split_and!; try done. apply H.
Defined.

Lemma multi_close_ends_all_witness : exists m m', run demo_events (NewMultiReceiver demo_multi_cfg) = Ok m /\ run [CloseEnd; Retire 1; Take] m = Ok m' /\ length (sessions m') = 3%nat /\ Forall (fun f => f_done f = true) (sessions m').
Proof.
  assert (HV : exists m m', run demo_events (NewMultiReceiver demo_multi_cfg) = Ok m /\ run [CloseEnd; Retire 1; Take] m = Ok m' /\ length (sessions m) = 3%nat) by (eexists _, _; split; [vm_compute; reflexivity|]; split; [vm_compute; reflexivity|reflexivity]).
  destruct HV as (m & m' & E & E' & L). destruct (multi_close_ends_all demo_events [Retire 1; Take] (NewMultiReceiver demo_multi_cfg) m m' demo_opened E E') as [H1 H2]. exists m, m'. split; [exact E|]. split; [exact E'|]. split; [congruence|exact H2].
Defined.
End multi.
